(* ===== verification/_CoqProject ===== *)
-Q . S2P
Prelude.v
Keep.v
Types.v
Layout.v
Codec.v
Arena.v
Heap.v
Op.v
Entity.v
Store.v
Collect.v
Stack.v
Frame.v
Float.v
Numeric.v
Limits.v
Memory.v
Simd.v
Vector.v
VectorSpec.v
VectorSound.v
Reserve.v
Keys.v
Registry.v
Interning.v
RecGroup.v
GroupBuild.v
GcOps.v
ConstEval.v
Instantiate.v
InstanceSafe.v
Linking.v
Aggregates.v
Casts.v
Ordered.v
Matching.v
Extern.v
Exn.v
Step.v
StackInv.v
Run.v
Drive.v
Isolation.v
Calls.v
GcAggregate.v
HostObjects.v
Instances.v
Linker.v
Metered.v
Compile.v
Lowering.v
Grown.v
Heights.v
Compiled.v
Translated.v
Verified.v
Closed.v
Validated.v
Parse.v
Parsed.v
Moves.v
Executed.v
Engine.v
