(* ===== verification/Prelude.v ===== *)
(** * submilli-wasm: a verification library for the interpreter

    submilli-wasm is a WebAssembly interpreter in Rust: a module is parsed and lowered to a
    compact opcode stream, instantiated in a store, and run by a loop over explicit
    stacks, beside an embedder that calls in and is called back.  Guests are hostile, so
    what has to hold is isolation: no panic a guest can provoke, no dangling or
    mistyped reference, no growth past a limit, no call that reaches below its own
    boundary.  This library translates the code under [src/src] to executable
    definitions, under the names the code has, and proves those facts about them.

    ** How the program works, and where each part is modelled

    The store ([store/]) owns everything at run time.  Entities (functions, memories,
    tables, globals, tags, instances) live in grow-only arenas; GC objects, extern boxes
    and exceptions live in generational slot arenas that a mark-and-sweep collector
    reclaims.  The parser and compiler ([module/], [canon/]) produce a [Module]; its types
    are interned in the engine's reference-counted registry.  Instantiation ([instance/])
    checks imports, allocates, evaluates constant expressions and runs the start
    function.  The run loop ([exec/]) steps instructions over a cell stack, a shadow stack of
    references and a frame stack, and suspends to the driver for host calls, growth and
    epochs; the driver resumes it.  The embedder's API ([func/], [linker.rs],
    [extern_.rs], [value/]) resolves handles in the store and checks every value
    that crosses the boundary.

    - Common ground: [Prelude] (results [Ok]/[Err]/[Panic], the state monad [M], machine
      integers, lists indexed by [Z], tactics, hint databases), [Keep] (a program logic for
      "this method keeps that predicate" and "this run is safe").
    - Data: [Types] (module IR of types, values, references, traps: [canon/mod.rs],
      [value/], [trap.rs]), [Layout] ([canon/layout.rs]), [Codec] ([store/gc_codec.rs], the
      handles of [store/gc.rs]), [Op] ([module/op.rs], [op_types.rs], [code.rs],
      [handler.rs], [inner.rs]).
    - Store: [Arena] ([store/reclaim.rs], [arena.rs]), [Heap] ([store/gc.rs]), [Entity]
      ([store/entity.rs]), [Store] ([store/inner.rs], [managed.rs], [accessors.rs]),
      [Collect] ([store/gc_collect.rs]).
    - Machine: [Stack] ([exec/cell.rs], [stack.rs]), [Frame] ([exec/frame.rs], calls and
      branches of [exec/mod.rs]), [Float] and [Numeric] ([exec/arith.rs], [convert.rs],
      [numeric.rs]), [Memory] ([exec/memory.rs], [table.rs]),
      [Simd] ([exec/simd/]) with its specification and proof in [Vector],
      [VectorSpec] and [VectorSound], [GcOps] with its theorems in
      [Aggregates] and [Casts] ([exec/gc.rs], [gc_array.rs], [cast.rs], [ref_.rs]),
      [Reserve] ([exec/collect.rs], [outcome.rs]), [Exn] ([exec/exn.rs]), [Step]
      ([exec/step.rs], [call.rs]).
    - Loop and driver: [Run] (the loop of [exec/mod.rs], [gates.rs], [host.rs], [guard.rs]),
      [Drive] ([exec/host.rs], [epoch.rs]); theorems in [StackInv], [Isolation], [Metered].
    - Limits: [Limits] ([store/limits.rs], [store/grow.rs]).
    - Type registry: [Keys] ([canon/keys.rs]), [Registry] ([canon/registry.rs],
      [materialize.rs]), [Interning] (theorems), [RecGroup] and [GroupBuild]
      ([value/rec_group/]), [Ordered] (the registry implements [TypeOrder]).
    - Engine: [Engine] ([config.rs], [engine.rs]): configuration, the shared registry, and
      the committed-bytes count and collection mailboxes that the stores of one engine
      share across threads, as a step relation of their atomic operations.
    - Instantiation: [ConstEval] ([instance/const_eval.rs]), [Instantiate]
      ([instance/init.rs]) with its theorems in [InstanceSafe] and [Linking],
      [Instances] ([instance/mod.rs]).
    - Compiler: [Compile] and [Lowering] ([module/compile/]); the height
      discipline it is held to in [Heights], its proof in [Grown], [Compiled],
      [Translated], [Verified], [Closed] and [Validated]; what it means for the machine
      in [Moves] and [Executed].
    - Parser: [Parse] ([module/parse.rs], [typesec.rs], [const_expr.rs]), theorem in [Parsed].
    - Embedder: [Matching] ([value_match.rs]), [Extern] ([extern_.rs]), [Calls] ([func/mod.rs],
      [direct_call.rs]), [GcAggregate] and [HostObjects] ([value/gc_aggregate.rs], [gc_ref.rs],
      [exn_ref.rs]), [Linker] ([linker.rs]).

    ** Conventions

    Machine integers are [Z] at their width, wrapping where release code wraps; [usize] has
    64 bits.  A Rust panic is the outcome [Panic], so "never panics" is a theorem.  A
    method on [&mut self] that may fail is a state-monad computation whose failing runs keep
    the mutations made so far.  Floats are their bit patterns.  A type descriptor is
    represented by its engine-canonical id, which is what its equality compares.  A Rust
    [HashMap] is a [gmap], or the list of its entries where the order it is visited in matters.

    What is not the program's is a parameter.  [Features] is the cell width,
    [FrameSize] the size of a frame, [FloatHost] the operations of the float library that
    are not modelled bit by bit, [BodyReader] and [OpValidator] wasmparser's reader and validator of a
    function body, [HostAlloc] whether the allocator grants a
    request, [EngineConfig] the engine's settings and the epoch as other
    threads move it, [HostCode] embedder functions and callbacks (functions from the store
    they are given to an outcome and the store they leave), [ResourceLimiter] the embedder's
    limiter.  Between components, [EngineTypes], [EngineFuncs] and [TypeOrder] are what the
    run-time asks of the type registry, with [TypeOrderOk] its laws ([Ordered] discharges
    them from the registry), [GenArena] and [StoreArena] are what handles rely
    on of an arena, [StackInv], [StorePred] and [FuelBlind] what an invariant has to
    survive to hold of every instruction, call and host call.

    ** What the theorems show

    - Memory safety of managed references: [Collect.collect_exact] (the collector keeps
      exactly what is reachable, unchanged), [Arena.stale_handle_rejected],
      [HostObjects.host_objects_sound] and [GcAggregate.host_gc_writes_sound] (nothing the
      embedder builds or writes dangles).
    - Compilation: [Validated.translate_function_consistent]: what is compiled from a
      validated body never takes an operand that is not there, and every branch and handler
      arrives at the height that its target was compiled for.  Of the validator
      it assumes the heights only ([height_check]).  [Executed.run_keeps_heights]: the
      machine, running such code, has those heights.  [Parsed.parse_module_sound]: so does
      every function of a parsed module, whose types are interned; a failed one leaves the
      engine as it was.
    - Isolation: [Isolation.execute_isolated], [Isolation.host_panic_contained],
      [Calls.direct_call_balanced], [Calls.func_call_isolated], [Frame.exec_invariant],
      [Stack.pops_transactional]: re-entrant calls, traps, exceptions and embedder panics give the
      outer call back as it was.
    - Termination and progress: [Metered.execute_metered], [Reserve.gc_reserve_progress],
      [Exn.unwind_spec].
    - Linking: [Linker.linker_module_sound], [Linker.alias_module_exact],
      [Linking.instantiate_sound], [ConstEval.const_expr_sound],
      [Instances.Instance_new_gated], [Linking.global_import_ignores_declared_subtypes].
    - Types: [Interning.registry_balanced], [Interning.intern_module_reads_back],
      [Ordered.registry_implements_order], [GroupBuild.build_reads_back] and its companions
      (all of registries whose sibling supertypes come earlier, which interning a validated
      module keeps and the host's builder can break),
      [Casts.cast_subsumption], [Layout.struct_layout_sound], [Codec.write_then_read].
    - Limits: [Limits.limits_enforced]; [Engine.gc_pressure_delivered]: the count the stores
      share is right, and memory pressure reaches every store, in every interleaving.
    - Instructions: [Memory.memory_copy_exact], [Aggregates.array_copy_exact],
      [Numeric.int_binary_spec], [Numeric.numeric_safe]; [VectorSound.simd_spec] gives every
      lane of every vector instruction that does not access memory.

    Modelling turned up code that does not do what it means to: see
    [GroupBuild.self_supertype_accepted] (a struct type that is its own supertype is accepted, and
    the subtype walk then never ends), [GroupBuild.struct_supertype_unchecked] (a struct type made
    without a group may name any supertype), [Validated.dead_block_params_refused] (a valid body is
    refused), [Linking.global_import_ignores_declared_subtypes] and
    [HostObjects.unrooted_field_confused] (values are checked before a reservation
    that may collect them).

    ** Fuel and bounds

    Recursion that the code leaves to a loop carries fuel, and a theorem says how much
    is enough.  The collector's worklist loop gets [trace_fuel], one more than a potential
    that each turn lowers, and [collect_exact] has it end.  The subtype walk gets the
    size of the registry ([is_subtype_total]).  Constant expressions re-enter as deep
    as their typing says ([const_expr_sound]).  Unwinding gets the number of frames.
    The decoding loop of the compiler gets a turn per remaining byte.  The height check stops at 2^32 - 2048 operands and a thousand parameters or
    results, which wasmparser's limits on bodies and types imply.
    [execute] takes its recursion fuel as an argument, for the driver's resumptions and for the
    turns of each run of the loop, and [execute_metered] says how much is enough for a
    metered call whose host functions add no fuel; without metering a call may run for ever, and [None] is the
    outcome of not having finished.  Bounds of the theorems are those of the code: 2^32
    slots and generations, 16-bit heights, 64-bit byte counts.

    ** Not modelled, and why

    Splitting a binary into sections and validating it (third-party; [WasmParser] and
    [WasmValidator] are parameters), serialization, the async driver (futures over the driver that is
    modelled; its suspension points and growth helpers are), backtraces and debug
    information (diagnostics that do not affect execution), the trait plumbing of typed
    closures ([into_func.rs], [wasm_ty.rs]), and the lock around the type registry (an
    operation on it is one step).  Validation is the third-party
    validator's: theorems about modules state what it guarantees as well-formedness
    hypotheses, each met by a concrete module in the witness. *)

From stdpp Require Export base tactics list option numbers strings gmap.
From Stdlib Require Export ZArith Lia.

(** ** Outcomes of Rust code *)

(** What a call can end with: a value, an [Err], or a panic (an out-of-range
    slice index, a failed [expect]/[assert!], an [unreachable!]). *)
Inductive result (E A : Type) : Type :=
  | Ok (a : A)
  | Err (e : E)
  | Panic (why : string).
Arguments Ok {E A} a.
Arguments Err {E A} e.
Arguments Panic {E A} why.

#[export] Instance result_ret {E} : MRet (result E) := λ A a, Ok a.
#[export] Instance result_bind {E} : MBind (result E) := λ A B f m,
  match m with
  | Ok a => f a
  | Err e => Err e
  | Panic w => Panic w
  end.
#[export] Instance result_fmap {E} : FMap (result E) := λ A B f m,
  match m with
  | Ok a => Ok (f a)
  | Err e => Err e
  | Panic w => Panic w
  end.

(** [o.ok_or(e)?] *)
Definition ok_or {E A} (o : option A) (e : E) : result E A :=
  match o with Some a => Ok a | None => Err e end.

(** [o.expect(..)], slice indexing: absent means a panic. *)
Definition expect {E A} (o : option A) (why : string) : result E A :=
  match o with Some a => Ok a | None => Panic why end.

(** ** State-passing code ([&mut self] methods): the state survives an [Err],
    exactly as far as the body had mutated it. *)
Definition M (S E A : Type) : Type := S → result E A * S.

#[export] Instance M_ret {S E} : MRet (M S E) := λ A a s, (Ok a, s).
#[export] Instance M_bind {S E} : MBind (M S E) := λ A B f m s,
  match m s with
  | (Ok a, s') => f a s'
  | (Err e, s') => (Err e, s')
  | (Panic w, s') => (Panic w, s')
  end.

Definition get {S E} : M S E S := λ s, (Ok s, s).
Definition gets {S E A} (f : S → A) : M S E A := λ s, (Ok (f s), s).
(** An [&self] method. *)
Definition reads {S E A} (f : S → result E A) : M S E A := λ s, (f s, s).
Definition modify {S E} (f : S → S) : M S E () := λ s, (Ok tt, f s).
Definition lift {S E A} (r : result E A) : M S E A := λ s, (r, s).
Definition fail {S E A} (e : E) : M S E A := λ s, (Err e, s).
Definition panic {S E A} (why : string) : M S E A := λ s, (Panic why, s).
Definition guard_err {S E} (b : bool) (e : E) : M S E () := λ s, (if b then Ok tt else Err e, s).

(** Run a method of a field of the state. *)
Definition zoom {S T E A} (proj : S → T) (upd : T → S → S) (m : M T E A) : M S E A :=
  λ s, let '(r, t) := m (proj s) in (r, upd t s).

(** [if let Err(error) = m { cleanup; return Err(error) }] *)
Definition on_err {S E A} (m : M S E A) (cleanup : S → S) : M S E A := λ s,
  match m s with
  | (Err e, s') => (Err e, cleanup s')
  | r => r
  end.

(** Iterate a method over a list, stopping at the first failure. *)
Fixpoint for_each {S E A} (l : list A) (f : A → M S E ()) : M S E () :=
  match l with
  | [] => mret tt
  | x :: l' => f x ≫= λ _, for_each l' f
  end.

Arguments mret {_ _ _} _ /.

(** Weakest-precondition style reading of one run: [runs m s a s'] *)
Definition runs {S E A} (m : M S E A) (s : S) (a : A) (s' : S) : Prop := m s = (Ok a, s').

Definition no_panic {E A} (r : result E A) : Prop := ∀ w, r ≠ Panic w.

Lemma bind_Ok {S E A B} (m : M S E A) (f : A → M S E B) s b s' :
  (m ≫= f) s = (Ok b, s') ↔ ∃ a s1, m s = (Ok a, s1) ∧ f a s1 = (Ok b, s').
Proof.
  unfold mbind, M_bind. destruct (m s) as [[a|e|w] s1]; split.
  - eauto.
  - by intros (? & ? & [= -> ->] & ?).
  - done.
  - by intros (? & ? & [=] & ?).
  - done.
  - by intros (? & ? & [=] & ?).
Qed.

Lemma bind_run {S E A B} (m : M S E A) (f : A → M S E B) s a s1 :
  m s = (Ok a, s1) → (m ≫= f) s = f a s1.
Proof. intros H. unfold mbind, M_bind. by rewrite H. Qed.

Lemma result_bind_Ok {E A B} (m : result E A) (f : A → result E B) b :
  (m ≫= f) = Ok b ↔ ∃ a, m = Ok a ∧ f a = Ok b.
Proof. destruct m; cbn; split; try naive_solver. Qed.

(** The heads of the monadic bodies. *)
Lemma reads_Ok {S E A B} (g : S → result E A) (f : A → M S E B) s a :
  g s = Ok a → (reads g ≫= f) s = f a s.
Proof. intros Hg. unfold mbind, M_bind, reads. by rewrite Hg. Qed.
Lemma reads_Err {S E A B} (g : S → result E A) (f : A → M S E B) s e :
  g s = Err e → (reads g ≫= f) s = (Err e, s).
Proof. intros Hg. unfold mbind, M_bind, reads. by rewrite Hg. Qed.
Lemma reads_unfold {S E A B} (g : S → result E A) (f : A → M S E B) s :
  (reads g ≫= f) s = match g s with Ok a => f a s | Err e => (Err e, s) | Panic w => (Panic w, s) end.
Proof. unfold mbind, M_bind, reads. by destruct (g s). Qed.
Lemma lift_Ok {S E A B} (r : result E A) (f : A → M S E B) s a : r = Ok a → (lift r ≫= f) s = f a s.
Proof. by intros ->. Qed.
Lemma get_run {S E B} (f : S → M S E B) s : (get ≫= f) s = f s s.
Proof. done. Qed.
Lemma modify_run {S E B} (g : S → S) (f : () → M S E B) s : (modify g ≫= f) s = f tt (g s).
Proof. done. Qed.

Lemma on_err_run {S E A} (m : M S E A) c s :
  on_err m c s = match m s with (Err e, s') => (Err e, c s') | r => r end.
Proof. done. Qed.
Lemma bind_unfold {S E A B} (m : M S E A) (f : A → M S E B) s :
  (m ≫= f) s = match m s with
               | (Ok a, s') => f a s'
               | (Err e, s') => (Err e, s')
               | (Panic w, s') => (Panic w, s')
               end.
Proof. done. Qed.

(** Step over a [lift] whose result computes. *)
Ltac lift_step :=
  match goal with |- context [mbind ?f (lift ?r) ?s] => rewrite (lift_Ok r f s _ eq_refl) end.

Ltac lift_step_in H :=
  match type of H with context [mbind ?f (lift ?r) ?s] => rewrite (lift_Ok r f s _ eq_refl) in H end.

(** Code that can only succeed or panic. *)
Definition no_err {E A} (r : result E A) : Prop := ∀ e, r ≠ Err e.
Lemma no_err_bind {E A B} (m : result E A) (f : A → result E B) :
  no_err m → (∀ a, no_err (f a)) → no_err (m ≫= f).
Proof. intros Hm Hf. destruct m; [apply Hf|by destruct (Hm e)|done]. Qed.
Lemma no_err_fmap {E A B} (m : result E A) (f : A → B) : no_err m → no_err (f <$> m).
Proof. intros Hm. by destruct m; [|destruct (Hm e)|]. Qed.
Lemma no_err_expect {E A} (o : option A) w : no_err (expect (E:=E) o w).
Proof. by destruct o. Qed.

(** ** Machine integers (as [Z]; the width is written at every operation) *)
Open Scope Z_scope.

Definition u_ok (w z : Z) : Prop := 0 ≤ z < 2 ^ w.
Definition s_ok (w z : Z) : Prop := - 2 ^ (w - 1) ≤ z < 2 ^ (w - 1).

(** [as uN]: keep the low [w] bits. *)
Definition wrap (w z : Z) : Z := z mod 2 ^ w.
(** [as iN]: the low [w] bits read in two's complement. *)
Definition sgn (w z : Z) : Z :=
  let m := z mod 2 ^ w in if m <? 2 ^ (w - 1) then m else m - 2 ^ w.

Definition u_max (w : Z) : Z := 2 ^ w - 1.

Definition checked_add (w a b : Z) : option Z := if a + b <? 2 ^ w then Some (a + b) else None.
Definition checked_sub (a b : Z) : option Z := if b <=? a then Some (a - b) else None.
Definition checked_mul (w a b : Z) : option Z := if a * b <? 2 ^ w then Some (a * b) else None.
Definition saturating_add (w a b : Z) : Z := Z.min (a + b) (2 ^ w - 1).
Definition saturating_sub (a b : Z) : Z := Z.max (a - b) 0.
Definition saturating_mul (w a b : Z) : Z := Z.min (a * b) (2 ^ w - 1).

(** [usize] on the 64-bit hosts the crate targets. *)
Abbreviation usize_bits := 64 (only parsing).

Lemma wrap_ok w z : 0 ≤ w → u_ok w (wrap w z).
Proof. intros. unfold u_ok, wrap. apply Z.mod_pos_bound. lia. Qed.
Lemma wrap_id w z : u_ok w z → wrap w z = z.
Proof. intros. apply Z.mod_small. done. Qed.

Lemma pow2_half w : 0 < w → 2 ^ w = 2 * 2 ^ (w - 1).
Proof. intros. rewrite <- Z.pow_succ_r by lia. f_equal. lia. Qed.

Lemma sgn_ok w z : 0 < w → s_ok w (sgn w z).
Proof.
  intros Hw. unfold s_ok, sgn. pose proof (pow2_half w Hw).
  pose proof (Z.mod_pos_bound z (2 ^ w) ltac:(lia)).
  cbn zeta. destruct (Z.ltb_spec (z mod 2 ^ w) (2 ^ (w - 1))); lia.
Qed.

Lemma sgn_mod w z : 0 < w → sgn w z mod 2 ^ w = z mod 2 ^ w.
Proof.
  intros Hw. unfold sgn. cbn zeta.
  destruct (Z.ltb_spec (z mod 2 ^ w) (2 ^ (w - 1))).
  - by rewrite Z.mod_mod by lia.
  - rewrite <- (Z.mod_add _ 1) by lia. replace (_ - _ + _) with (z mod 2 ^ w) by lia.
    by rewrite Z.mod_mod by lia.
Qed.

Lemma sgn_id w z : 0 < w → s_ok w z → sgn w z = z.
Proof.
  intros Hw [Hl Hh]. unfold sgn. cbn zeta. pose proof (pow2_half w Hw).
  destruct (Z.leb_spec 0 z).
  - rewrite Z.mod_small by lia. destruct (Z.ltb_spec z (2 ^ (w - 1))); lia.
  - assert (z mod 2 ^ w = z + 2 ^ w) as ->.
    { rewrite <- (Z.mod_add _ 1) by lia. rewrite Z.mod_small; lia. }
    destruct (Z.ltb_spec (z + 2 ^ w) (2 ^ (w - 1))); lia.
Qed.

Lemma sgn_congr w a b : a mod 2 ^ w = b mod 2 ^ w → sgn w a = sgn w b.
Proof. unfold sgn. by intros ->. Qed.

Lemma sgn_wrap w z : 0 < w → sgn w (wrap w z) = sgn w z.
Proof. intros. apply sgn_congr. unfold wrap. by rewrite Z.mod_mod by lia. Qed.
Lemma wrap_sgn w z : 0 < w → wrap w (sgn w z) = wrap w z.
Proof. intros. by apply sgn_mod. Qed.

(** ** Vectors: indices and lengths as [Z] *)
Definition zlen {A} (l : list A) : Z := Z.of_nat (length l).
Definition zget {A} (l : list A) (i : Z) : option A :=
  if 0 <=? i then l !! Z.to_nat i else None.
(** [v[i] = x]; [None] is the out-of-range panic. *)
Definition zset {A} (l : list A) (i : Z) (x : A) : option (list A) :=
  if (0 <=? i) && (i <? zlen l) then Some (<[Z.to_nat i := x]> l) else None.
Definition ztake {A} (i : Z) (l : list A) : list A := take (Z.to_nat i) l.
Definition zdrop {A} (i : Z) (l : list A) : list A := drop (Z.to_nat i) l.
(** [&v[a..b]]; [None] is the panic. *)
Definition zslice {A} (l : list A) (a b : Z) : option (list A) :=
  if (0 <=? a) && (a <=? b) && (b <=? zlen l) then Some (ztake (b - a) (zdrop a l)) else None.
(** [v[a..a+len].copy_from_slice(src)] with [len = src.len()]. *)
Definition zsplice {A} (l : list A) (a : Z) (src : list A) : option (list A) :=
  if (0 <=? a) && (a + zlen src <=? zlen l)
  then Some (ztake a l ++ src ++ zdrop (a + zlen src) l) else None.
(** [v.copy_within(a..b, d)]. *)
Definition zcopy_within {A} (l : list A) (a b d : Z) : option (list A) :=
  match zslice l a b with
  | Some s => zsplice l d s
  | None => None
  end.

Lemma zlen_nonneg {A} (l : list A) : 0 ≤ zlen l.
Proof. unfold zlen. lia. Qed.
Lemma zlen_app {A} (l k : list A) : zlen (l ++ k) = zlen l + zlen k.
Proof. unfold zlen. rewrite length_app. lia. Qed.
Lemma zlen_cons {A} (x : A) l : zlen (x :: l) = 1 + zlen l.
Proof. unfold zlen. cbn. lia. Qed.
Lemma zlen_nil {A} : zlen (@nil A) = 0.
Proof. done. Qed.
Lemma zlen_snoc {A} (l : list A) x : zlen (l ++ [x]) = zlen l + 1.
Proof. rewrite zlen_app, zlen_cons, zlen_nil. lia. Qed.
Lemma zlen_insert {A} (l : list A) i x : zlen (<[i := x]> l) = zlen l.
Proof. unfold zlen. by rewrite length_insert. Qed.
Lemma zlen_replicate {A} n (x : A) : zlen (replicate n x) = Z.of_nat n.
Proof. unfold zlen. by rewrite length_replicate. Qed.
Lemma zlen_fmap {A B} (f : A → B) l : zlen (f <$> l) = zlen l.
Proof. unfold zlen. by rewrite length_fmap. Qed.
Lemma zlen_take {A} i (l : list A) : 0 ≤ i ≤ zlen l → zlen (ztake i l) = i.
Proof. unfold zlen, ztake. rewrite length_take. lia. Qed.
Lemma zlen_drop {A} i (l : list A) : 0 ≤ i ≤ zlen l → zlen (zdrop i l) = zlen l - i.
Proof. unfold zlen, zdrop. rewrite length_drop. lia. Qed.

Lemma ztake_drop {A} i (l : list A) : ztake i l ++ zdrop i l = l.
Proof. apply take_drop. Qed.
Lemma ztake_app {A} i (l k : list A) : i = zlen l → ztake i (l ++ k) = l.
Proof. intros ->. unfold ztake, zlen. rewrite Nat2Z.id. by rewrite take_app_length. Qed.
Lemma zdrop_app {A} i (l k : list A) : i = zlen l → zdrop i (l ++ k) = k.
Proof. intros ->. unfold zdrop, zlen. rewrite Nat2Z.id. by rewrite drop_app_length. Qed.
Lemma ztake_all {A} i (l : list A) : zlen l ≤ i → ztake i l = l.
Proof. unfold ztake, zlen. intros. apply take_ge. lia. Qed.

Lemma zdrop_zdrop {A} a b (l : list A) : 0 ≤ a → 0 ≤ b → zdrop a (zdrop b l) = zdrop (b + a) l.
Proof. intros. unfold zdrop. rewrite drop_drop. f_equal. lia. Qed.
Lemma ztake_ztake {A} a b (l : list A) : a ≤ b → ztake a (ztake b l) = ztake a l.
Proof. intros. unfold ztake. rewrite take_take. f_equal. lia. Qed.
Lemma ztake_0 {A} (l : list A) : ztake 0 l = [].
Proof. done. Qed.
Lemma zdrop_0 {A} (l : list A) : zdrop 0 l = l.
Proof. done. Qed.

Lemma zget_Some {A} (l : list A) i x : zget l i = Some x → 0 ≤ i < zlen l.
Proof.
  unfold zget, zlen. destruct (Z.leb_spec 0 i); [|done].
  intros Hx%lookup_lt_Some. lia.
Qed.
Lemma zget_is_Some {A} (l : list A) i : 0 ≤ i < zlen l → ∃ x, zget l i = Some x.
Proof.
  unfold zget, zlen. intros. destruct (Z.leb_spec 0 i); [|lia].
  apply lookup_lt_is_Some_2. lia.
Qed.
Lemma zget_None {A} (l : list A) i : zlen l ≤ i → zget l i = None.
Proof.
  unfold zget, zlen. intros. destruct (Z.leb_spec 0 i); [|done].
  apply lookup_ge_None_2. lia.
Qed.
Lemma zget_app_l {A} (l k : list A) i : i < zlen l → zget (l ++ k) i = zget l i.
Proof.
  unfold zget, zlen. intros. destruct (Z.leb_spec 0 i); [|done].
  apply lookup_app_l. lia.
Qed.
Lemma zget_app_r {A} (l k : list A) i : zlen l ≤ i → zget (l ++ k) i = zget k (i - zlen l).
Proof.
  unfold zget, zlen. intros. destruct (Z.leb_spec 0 i); [|lia].
  destruct (Z.leb_spec 0 (i - Z.of_nat (length l))); [|lia].
  rewrite lookup_app_r by lia. f_equal. lia.
Qed.
Lemma zget_cons_0 {A} (x : A) l : zget (x :: l) 0 = Some x.
Proof. done. Qed.

Lemma zget_cons_S {A} (x : A) l i : 0 < i → zget (x :: l) i = zget l (i - 1).
Proof.
  intros. change (x :: l) with ([x] ++ l).
  rewrite zget_app_r by (rewrite zlen_cons, zlen_nil; lia).
  by rewrite zlen_cons, zlen_nil.
Qed.
Lemma zget_nil {A} i : zget (@nil A) i = None.
Proof. unfold zget. by destruct (0 <=? i). Qed.

Lemma zget_fmap {A B} (f : A → B) (l : list A) i : zget (f <$> l) i = f <$> zget l i.
Proof. unfold zget. destruct (0 <=? i); [|done]. apply list_lookup_fmap. Qed.
Lemma zset_Some {A} (l l' : list A) i x :
  zset l i x = Some l' ↔ 0 ≤ i < zlen l ∧ l' = <[Z.to_nat i := x]> l.
Proof.
  unfold zset. destruct (Z.leb_spec 0 i), (Z.ltb_spec i (zlen l)); cbn; naive_solver lia.
Qed.
Lemma zget_insert_eq {A} (l : list A) i x :
  0 ≤ i < zlen l → zget (<[Z.to_nat i := x]> l) i = Some x.
Proof.
  unfold zget, zlen. intros. destruct (Z.leb_spec 0 i); [|lia].
  apply list_lookup_insert_eq. lia.
Qed.
Lemma zget_insert_ne {A} (l : list A) i j x :
  0 ≤ i → i ≠ j → zget (<[Z.to_nat i := x]> l) j = zget l j.
Proof.
  unfold zget. intros. destruct (Z.leb_spec 0 j); [|done].
  apply list_lookup_insert_ne. lia.
Qed.

Lemma zslice_Some {A} (l s : list A) a b :
  zslice l a b = Some s ↔ 0 ≤ a ≤ b ∧ b ≤ zlen l ∧ s = ztake (b - a) (zdrop a l).
Proof.
  unfold zslice.
  destruct (Z.leb_spec 0 a), (Z.leb_spec a b), (Z.leb_spec b (zlen l)); cbn; naive_solver lia.
Qed.
Lemma zlen_slice {A} (l s : list A) a b : zslice l a b = Some s → zlen s = b - a.
Proof.
  rewrite zslice_Some. intros (? & ? & ->). rewrite zlen_take; [done|].
  rewrite zlen_drop; lia.
Qed.
Lemma zsplice_Some {A} (l l' : list A) a s :
  zsplice l a s = Some l' ↔
  0 ≤ a ∧ a + zlen s ≤ zlen l ∧ l' = ztake a l ++ s ++ zdrop (a + zlen s) l.
Proof.
  unfold zsplice.
  destruct (Z.leb_spec 0 a), (Z.leb_spec (a + zlen s) (zlen l)); cbn; naive_solver lia.
Qed.
Lemma zlen_splice {A} (l l' : list A) a s : zsplice l a s = Some l' → zlen l' = zlen l.
Proof.
  rewrite zsplice_Some. intros (? & ? & ->).
  pose proof (zlen_nonneg s).
  rewrite !zlen_app, zlen_take, zlen_drop by lia. lia.
Qed.

Lemma zget_ext {A} (l k : list A) :
  zlen l = zlen k → (∀ i, 0 ≤ i < zlen l → zget l i = zget k i) → l = k.
Proof.
  unfold zlen, zget. intros Hl H. apply list_eq. intros i.
  destruct (decide (i < length l)%nat).
  - specialize (H (Z.of_nat i) ltac:(lia)).
    destruct (Z.leb_spec 0 (Z.of_nat i)); [|lia]. by rewrite Nat2Z.id in H.
  - rewrite !lookup_ge_None_2 by lia. done.
Qed.

Lemma zget_take {A} (l : list A) i n : i < n → zget (ztake n l) i = zget l i.
Proof.
  unfold zget, ztake. intros. destruct (Z.leb_spec 0 i); [|done].
  apply lookup_take_lt. lia.
Qed.
Lemma zget_drop {A} (l : list A) i n : 0 ≤ n → 0 ≤ i → zget (zdrop n l) i = zget l (n + i).
Proof.
  unfold zget, zdrop. intros. destruct (Z.leb_spec 0 i); [|lia].
  destruct (Z.leb_spec 0 (n + i)); [|lia].
  rewrite lookup_drop. f_equal. lia.
Qed.

(** Reading back a spliced vector: inside the window, and outside it. *)
Lemma zget_splice_in {A} (l l' s : list A) a i :
  zsplice l a s = Some l' → a ≤ i < a + zlen s → zget l' i = zget s (i - a).
Proof.
  rewrite zsplice_Some. intros (? & ? & ->) ?.
  pose proof (zlen_nonneg s).
  rewrite zget_app_r by (rewrite zlen_take; lia).
  rewrite zlen_take by lia. by rewrite zget_app_l by lia.
Qed.
Lemma zget_splice_out {A} (l l' s : list A) a i :
  zsplice l a s = Some l' → i < a ∨ a + zlen s ≤ i → zget l' i = zget l i.
Proof.
  rewrite zsplice_Some. intros (? & ? & ->) Hi.
  pose proof (zlen_nonneg s). destruct Hi.
  - rewrite zget_app_l by (rewrite zlen_take; lia). by rewrite zget_take.
  - rewrite !zget_app_r by (rewrite ?zlen_take; lia).
    rewrite zlen_take by lia.
    rewrite zget_drop by lia. f_equal. lia.
Qed.
Lemma zget_slice {A} (l s : list A) a b i :
  zslice l a b = Some s → 0 ≤ i < b - a → zget s i = zget l (a + i).
Proof.
  rewrite zslice_Some. intros (? & ? & ->) ?.
  rewrite zget_take by lia. by rewrite zget_drop by lia.
Qed.

(** Slices of a spliced vector: the window reads back, a disjoint window is
    untouched. *)
Lemma zslice_splice_eq {A} (l l' s : list A) a :
  zsplice l a s = Some l' → zslice l' a (a + zlen s) = Some s.
Proof.
  intros H. pose proof (zlen_splice _ _ _ _ H) as Hlen.
  pose proof H as (? & ? & ->)%zsplice_Some. pose proof (zlen_nonneg s).
  apply zslice_Some. split_and!; [lia..|lia|].
  rewrite zdrop_app by (rewrite zlen_take; lia).
  rewrite ztake_app by lia. done.
Qed.
Lemma zslice_splice_ne {A} (l l' s : list A) a c d :
  zsplice l a s = Some l' → d ≤ a ∨ a + zlen s ≤ c → zslice l' c d = zslice l c d.
Proof.
  intros H Hd. pose proof (zlen_splice _ _ _ _ H) as Hlen.
  unfold zslice. rewrite Hlen.
  destruct (Z.leb_spec 0 c), (Z.leb_spec c d), (Z.leb_spec d (zlen l)); cbn; try done.
  f_equal. apply zget_ext.
  - rewrite !zlen_take; rewrite ?zlen_drop; lia.
  - intros i. rewrite zlen_take by (rewrite zlen_drop; lia). intros ?.
    rewrite !zget_take, !zget_drop by lia.
    eapply zget_splice_out; [done|]. lia.
Qed.
Lemma zslice_is_Some {A} (l : list A) a b :
  0 ≤ a ≤ b → b ≤ zlen l → zslice l a b = Some (ztake (b - a) (zdrop a l)).
Proof. intros. apply zslice_Some. naive_solver. Qed.
Lemma zsplice_is_Some {A} (l s : list A) a :
  0 ≤ a → a + zlen s ≤ zlen l → ∃ l', zsplice l a s = Some l'.
Proof. intros. eexists. by apply zsplice_Some. Qed.

(** [Vec::pop]: the last element. *)
Definition vec_pop {A} (l : list A) : option (list A * A) :=
  match last l with
  | Some x => Some (take (length l - 1) l, x)
  | None => None
  end.

Lemma vec_pop_app {A} (l : list A) x : vec_pop (l ++ [x]) = Some (l, x).
Proof.
  unfold vec_pop. rewrite last_snoc, length_app. cbn.
  rewrite Nat.add_sub. by rewrite take_app_length.
Qed.
Lemma vec_pop_Some {A} (l l' : list A) x : vec_pop l = Some (l', x) → l = l' ++ [x].
Proof.
  destruct l as [|y k _] using rev_ind; [done|].
  rewrite vec_pop_app. by intros [= <- <-].
Qed.
Lemma vec_pop_None {A} (l : list A) : vec_pop l = None → l = [].
Proof. destruct l as [|y k _] using rev_ind; [done|]. by rewrite vec_pop_app. Qed.

Lemma forall2_zget {A B} (P : A → B → Prop) l k i y :
  Forall2 P l k → zget k i = Some y → ∃ x, zget l i = Some x ∧ P x y.
Proof.
  intros HF. unfold zget. destruct (0 <=? i); [|done]. intros Hy.
  destruct (Forall2_lookup_r _ _ _ _ _ HF Hy) as (x & Hx & HP). eauto.
Qed.
Lemma zlen_Forall2 {A B} (P : A → B → Prop) l k : Forall2 P l k → zlen l = zlen k.
Proof. intros H. unfold zlen. by rewrite (Forall2_length _ _ _ H). Qed.
Lemma zlen_seqZ i n : 0 ≤ n → zlen (seqZ i n) = n.
Proof. intros. unfold zlen. rewrite length_seqZ. lia. Qed.
Lemma elem_zget {A} (x : A) (l : list A) : x ∈ l → ∃ i, zget l i = Some x.
Proof.
  intros [n Hn]%list_elem_of_lookup. exists (Z.of_nat n). unfold zget.
  destruct (Z.leb_spec 0 (Z.of_nat n)); [|lia]. by rewrite Nat2Z.id.
Qed.
Lemma zget_elem {A} (x : A) (l : list A) i : zget l i = Some x → x ∈ l.
Proof. unfold zget. destruct (0 <=? i); [|done]. apply list_elem_of_lookup_2. Qed.

(** ** Little-endian bytes *)
Abbreviation byte_list := (list Z) (only parsing).
Definition bytes_ok (l : list Z) : Prop := Forall (u_ok 8) l.

Fixpoint to_le_bytes (n : nat) (z : Z) : list Z :=
  match n with
  | O => []
  | S n' => z mod 256 :: to_le_bytes n' (z / 256)
  end.
Fixpoint from_le_bytes (l : list Z) : Z :=
  match l with
  | [] => 0
  | b :: l' => b + 256 * from_le_bytes l'
  end.

Lemma zlen_to_le n z : zlen (to_le_bytes n z) = Z.of_nat n.
Proof. revert z. induction n as [|n IH]; intros z; [done|]. cbn [to_le_bytes]. rewrite zlen_cons, IH. lia. Qed.

Lemma to_le_ok n z : bytes_ok (to_le_bytes n z).
Proof.
  revert z. induction n as [|n IH]; intros z; cbn; constructor; [|apply IH].
  unfold u_ok. apply Z.mod_pos_bound. lia.
Qed.

Lemma from_to_le n z : from_le_bytes (to_le_bytes n z) = z mod 2 ^ (8 * Z.of_nat n).
Proof.
  revert z. induction n as [|n IH]; intros z.
  - cbn. by rewrite Z.mod_1_r.
  - cbn [to_le_bytes from_le_bytes]. rewrite IH.
    replace (8 * Z.of_nat (S n)) with (8 + 8 * Z.of_nat n) by lia.
    rewrite Z.pow_add_r by lia. change (2 ^ 8) with 256.
    rewrite Z.rem_mul_r by lia. done.
Qed.

Lemma from_le_bound l : bytes_ok l → 0 ≤ from_le_bytes l < 2 ^ (8 * zlen l).
Proof.
  induction 1 as [|b l Hb _ IH]; [done|].
  rewrite zlen_cons. cbn [from_le_bytes]. unfold u_ok in Hb.
  replace (8 * (1 + zlen l)) with (8 + 8 * zlen l) by lia.
  rewrite Z.pow_add_r by (pose proof (zlen_nonneg l); lia).
  change (2 ^ 8) with 256 in *. nia.
Qed.

Lemma to_from_le l n : bytes_ok l → n = length l → to_le_bytes n (from_le_bytes l) = l.
Proof.
  intros Hl ->. induction Hl as [|b l Hb Hl IH]; [done|].
  cbn [length to_le_bytes from_le_bytes]. unfold u_ok in Hb.
  rewrite (Z.mul_comm 256), Z.mod_add, Z.mod_small by lia.
  rewrite Z.div_add, Z.div_small, Z.add_0_l by lia. by rewrite IH.
Qed.

(** [Vec::resize]. *)
Definition vec_resize {A} (l : list A) (n : Z) (x : A) : list A :=
  if n <=? zlen l then ztake n l else l ++ replicate (Z.to_nat (n - zlen l)) x.

Lemma zlen_resize {A} (l : list A) n x : 0 ≤ n → zlen (vec_resize l n x) = n.
Proof.
  intros. unfold vec_resize. destruct (Z.leb_spec n (zlen l)).
  - by apply zlen_take.
  - rewrite zlen_app, zlen_replicate. lia.
Qed.
Lemma zget_resize_old {A} (l : list A) n x i :
  i < n → i < zlen l → zget (vec_resize l n x) i = zget l i.
Proof.
  intros. unfold vec_resize. destruct (Z.leb_spec n (zlen l)).
  - by apply zget_take.
  - by apply zget_app_l.
Qed.
Lemma zget_replicate {A} n (x : A) i : 0 ≤ i < Z.of_nat n → zget (replicate n x) i = Some x.
Proof.
  intros. unfold zget. destruct (Z.leb_spec 0 i); [|lia]. apply lookup_replicate_2. lia.
Qed.
Lemma zget_resize_new {A} (l : list A) n x i :
  zlen l ≤ i < n → zget (vec_resize l n x) i = Some x.
Proof.
  intros. unfold vec_resize. destruct (Z.leb_spec n (zlen l)); [lia|].
  rewrite zget_app_r by lia. apply zget_replicate. lia.
Qed.

(** ** Sums over index lists *)
Fixpoint zsum {A} (f : A → Z) (l : list A) : Z :=
  match l with
  | [] => 0
  | x :: l' => f x + zsum f l'
  end.

Lemma zsum_app {A} (f : A → Z) l k : zsum f (l ++ k) = zsum f l + zsum f k.
Proof. induction l as [|x l IH]; cbn; [done|]. rewrite IH. lia. Qed.
Lemma zsum_ext {A} (f g : A → Z) l : (∀ x, x ∈ l → f x = g x) → zsum f l = zsum g l.
Proof.
  induction l as [|x l IH]; intros H; cbn; [done|].
  rewrite (H x), IH; [done|..]; set_solver.
Qed.
Lemma zsum_add {A} (f g : A → Z) l : zsum (λ x, f x + g x) l = zsum f l + zsum g l.
Proof. induction l as [|x l IH]; cbn; [done|]. rewrite IH. lia. Qed.
Lemma zsum_nonneg {A} (f : A → Z) l : (∀ x, x ∈ l → 0 ≤ f x) → 0 ≤ zsum f l.
Proof.
  induction l as [|x l IH]; intros H; cbn; [done|].
  pose proof (H x ltac:(set_solver)). specialize (IH ltac:(set_solver)). lia.
Qed.
(** Changing one summand. *)
Lemma zsum_update {A} (f g : A → Z) l i :
  NoDup l → i ∈ l → (∀ x, x ∈ l → x ≠ i → g x = f x) → zsum g l = zsum f l + (g i - f i).
Proof.
  induction 1 as [|x l Hx Hl IH]; intros Hi H; cbn; [set_solver|].
  apply elem_of_cons in Hi as [->|Hi].
  - rewrite (zsum_ext g f l); [lia|]. intros y Hy. apply H; set_solver.
  - rewrite IH by set_solver. rewrite (H x) by set_solver. lia.
Qed.

Create HintDb rust discriminated.
#[export] Hint Resolve wrap_ok sgn_ok to_le_ok zlen_nonneg : rust.
Create Rewrite HintDb zlen.
#[export] Hint Rewrite @zlen_app @zlen_cons @zlen_nil @zlen_insert @zlen_replicate
  @zlen_fmap zlen_to_le : zlen.

(** Length goals over the vector operations above. *)
Ltac zlen_solve :=
  repeat match goal with
  | H : zsplice ?l _ _ = Some ?l' |- context [zlen ?l'] =>
      rewrite (zlen_splice _ _ _ _ H)
  | H : zslice _ _ _ = Some ?s |- context [zlen ?s] => rewrite (zlen_slice _ _ _ _ H)
  end;
  autorewrite with zlen; try rewrite zlen_take by lia; try rewrite zlen_drop by lia;
  repeat match goal with |- context [zlen ?l] => assert_fails (is_evar l);
    lazymatch goal with
    | _ : 0 ≤ zlen l |- _ => fail
    | _ => pose proof (zlen_nonneg l)
    end end; lia.

(** One step of a monadic run whose head is known. *)
Ltac run_step :=
  match goal with
  | |- context [mbind ?f ?m ?s] => unfold mbind at 1, M_bind at 1
  end.

(** Invert a completed run into its steps. *)
Ltac run_inv :=
  repeat match goal with
  | H : (mbind _ _) _ = (Ok _, _) |- _ =>
      apply bind_Ok in H; destruct H as (?a & ?s & ? & H)
  | H : mret _ _ = (Ok _, _) |- _ => cbv [mret M_ret] in H
  | H : gets _ _ = (Ok _, _) |- _ => cbv [gets] in H
  | H : modify _ _ = (Ok _, _) |- _ => cbv [modify] in H
  | H : reads _ _ = (Ok _, _) |- _ => cbv [reads] in H
  | H : lift _ _ = (Ok _, _) |- _ => cbv [lift] in H
  | H : (Ok _, _) = (Ok _, _) |- _ => injection H as H; subst
  | H : (Err _, _) = (Ok _, _) |- _ => discriminate H
  | H : (Panic _, _) = (Ok _, _) |- _ => discriminate H
  end.
