(* ===== verification/Keep.v ===== *)
(** * Keep: invariants of monadic code

    [keeps I m]: the method [m] maintains the state predicate [I] whenever it
    returns or fails; a Rust panic is not a return.  The rules follow the monad's
    constructors and [keep] walks a body with them, leaving the primitive operations
    to the hint database [keeps]. *)
From S2P Require Import Prelude.

Definition keeps {S E A} (I : S → Prop) (m : M S E A) : Prop :=
  ∀ s r s', I s → m s = (r, s') → no_panic r → I s'.

Section rules.
Context {S E : Type} (I : S → Prop).

Lemma keeps_ret {A} (a : A) : keeps (E:=E) I (mret a).
Proof. by intros s r s' Hs [= <- <-]. Qed.
Lemma keeps_fail {A} (e : E) : keeps (A:=A) I (fail e).
Proof. by intros s r s' Hs [= <- <-]. Qed.
Lemma keeps_panic {A} w : keeps (E:=E) (A:=A) I (panic w).
Proof. intros s r s' Hs [= <- <-] Hp. by destruct (Hp w). Qed.
Lemma keeps_lift {A} (x : result E A) : keeps I (lift x).
Proof. by intros s r s' Hs [= <- <-]. Qed.
Lemma keeps_reads {A} (f : S → result E A) : keeps I (reads f).
Proof. by intros s r s' Hs [= <- <-]. Qed.
Lemma keeps_modify (g : S → S) : (∀ s, I s → I (g s)) → keeps (E:=E) I (modify g).
Proof. intros Hg s r s' Hs [= <- <-] _. auto. Qed.
Lemma keeps_bind {A B} (m : M S E A) (f : A → M S E B) :
  keeps I m → (∀ a, keeps I (f a)) → keeps I (m ≫= f).
Proof.
  intros Hm Hf s r s' Hs. rewrite bind_unfold. destruct (m s) as [x s1] eqn:Hms.
  destruct x as [a|e|w].
  - intros Hr Hp. eapply Hf; [|done..]. by eapply Hm; [| |intros ?].
  - intros [= <- <-] Hp. by eapply Hm; [| |intros ?].
  - intros [= <- <-] Hp. by destruct (Hp w).
Qed.
Lemma keeps_get {B} (f : S → M S E B) : (∀ s0, keeps I (f s0)) → keeps I (get ≫= f).
Proof. intros Hf s r s' Hs. rewrite get_run. by apply Hf. Qed.
(** A body that first looks at the state may use that the invariant holds there. *)
Lemma keeps_get_inv {B} (f : S → M S E B) :
  (∀ s0 r s', I s0 → f s0 s0 = (r, s') → no_panic r → I s') → keeps I (get ≫= f).
Proof. intros Hf s r s' Hs. rewrite get_run. by apply Hf. Qed.
Lemma keeps_reads_inv {A B} (g : S → result E A) (f : A → M S E B) :
  (∀ s0 a r s', I s0 → g s0 = Ok a → f a s0 = (r, s') → no_panic r → I s') → keeps I (reads g ≫= f).
Proof.
  intros Hf s r s' Hs. rewrite bind_unfold. unfold reads. destruct (g s) as [a|e|w] eqn:Hg.
  - eauto.
  - by intros [= <- <-].
  - intros [= <- <-] Hp. by destruct (Hp w).
Qed.
Lemma keeps_for_each {A} (l : list A) (f : A → M S E ()) : (∀ x, keeps I (f x)) → keeps I (for_each l f).
Proof. intros Hf. induction l as [|x l IH]; [apply keeps_ret|]. apply keeps_bind; [apply Hf|done]. Qed.
Lemma keeps_on_err {A} (m : M S E A) c : keeps I m → (∀ s, I s → I (c s)) → keeps I (on_err m c).
Proof.
  intros Hm Hc s r s' Hs. rewrite on_err_run. destruct (m s) as [[a|e|w] s1] eqn:Hms; intros [= <- <-] Hp.
  - by eapply Hm.
  - apply Hc. by eapply Hm.
  - by destruct (Hp w).
Qed.
End rules.

(** Running a method of a part of the state. *)
Lemma keeps_zoom {S T E A} (proj : S → T) (upd : T → S → S) (I : S → Prop) (J : T → Prop) (m : M T E A) :
  (∀ s, I s → J (proj s)) → (∀ s t, I s → J t → I (upd t s)) → keeps J m → keeps I (zoom proj upd m).
Proof.
  intros Hp Hu Hm s r s' Hs. unfold zoom. destruct (m (proj s)) as [x t] eqn:Hms. intros [= <- <-] Hnp.
  apply Hu; [done|]. eapply Hm; eauto.
Qed.

Create HintDb keeps discriminated.
#[export] Hint Resolve keeps_ret keeps_fail keeps_panic keeps_lift keeps_reads : keeps.

Ltac keep_step :=
  lazymatch goal with
  | |- ∀ _, _ => intros ?
  | |- keeps _ (mbind _ get) => apply keeps_get
  | |- keeps _ (mbind _ _) => apply keeps_bind
  | |- keeps _ (let '(_, _) := ?x in _) => destruct x
  | |- keeps _ (if ?b then _ else _) => destruct b
  | |- keeps _ (match ?x with _ => _ end) => destruct x
  | |- keeps _ (for_each _ _) => apply keeps_for_each
  | |- keeps _ (λ _, match _ with _ => _ end) => fail
  | |- keeps _ _ => solve [eauto 3 with keeps nocore]
  end.
Ltac keep := repeat keep_step.

(** ** Safe runs

    [safe I m s Q]: from [s] the method [m] does not panic; it ends, returned or failed,
    in a state of [I], and [Q] holds of what it returned. *)
Definition safe {S E A} (I : S → Prop) (m : M S E A) (s : S) (Q : A → S → Prop) : Prop :=
  ∃ r s', m s = (r, s') ∧ I s' ∧ match r with Ok a => Q a s' | Err _ => True | Panic _ => False end.

Section safe.
Context {S E : Type} (I : S → Prop).

Lemma safe_ret {A} (a : A) s (Q : A → S → Prop) : I s → Q a s → safe (E:=E) I (mret a) s Q.
Proof. intros. by eexists _, _. Qed.
Lemma safe_bind {A B} (m : M S E A) (f : A → M S E B) s Q :
  safe I m s (λ a s', I s' → safe I (f a) s' Q) → safe I (m ≫= f) s Q.
Proof.
  intros (r & s' & Hm & Hs & Hr). unfold safe. rewrite bind_unfold, Hm. destruct r as [a|e|w].
  - destruct (Hr Hs) as (r & s2 & -> & ? & ?). by eexists _, _.
  - by eexists _, _.
  - done.
Qed.
Lemma safe_mono {A} (m : M S E A) s (Q Q' : A → S → Prop) :
  safe I m s Q → (∀ a s', I s' → Q a s' → Q' a s') → safe I m s Q'.
Proof. intros (r & s' & Hm & Hs & Hr) HQ. exists r, s'. split_and!; [done..|]. destruct r; eauto. Qed.
Lemma safe_ext {A} (m m' : M S E A) s Q : m s = m' s → safe I m' s Q → safe I m s Q.
Proof. intros Hm (r & s' & H & HQ). exists r, s'. by rewrite Hm. Qed.
Lemma safe_lift {A} (x : result E A) s (Q : A → S → Prop) :
  I s → no_panic x → (∀ a, x = Ok a → Q a s) → safe I (lift x) s Q.
Proof. intros Hs Hx HQ. exists x, s. split_and!; [done..|]. destruct x as [a|e|w]; [by apply HQ|done|by destruct (Hx w)]. Qed.
Lemma safe_lift_Ok {A} (a : A) s (Q : A → S → Prop) : I s → Q a s → safe (E:=E) I (lift (Ok a)) s Q.
Proof. intros. by exists (Ok a), s. Qed.
Lemma safe_reads {A} (f : S → result E A) s (Q : A → S → Prop) :
  I s → no_panic (f s) → (∀ a, f s = Ok a → Q a s) → safe I (reads f) s Q.
Proof. apply (safe_lift (f s) s). Qed.
Lemma safe_for_each {A} (l : list A) (f : A → M S E ()) (P : list A → S → Prop) s :
  I s → P l s → (∀ x rest s', I s' → P (x :: rest) s' → safe I (f x) s' (λ _, P rest)) →
  safe I (for_each l f) s (λ _, P []).
Proof.
  intros Hs HP Hf. revert s Hs HP. induction l as [|x l IH]; intros s Hs HP; [by apply safe_ret|].
  apply safe_bind. eapply safe_mono; [by apply Hf|]. cbn. eauto.
Qed.
End safe.

(** A safe method of a part of the state is safe on the whole. *)
Lemma safe_zoom {S T E A} (proj : S → T) (upd : T → S → S) (J : T → Prop) (I : S → Prop) (m : M T E A) s Q :
  safe J m (proj s) (λ a t, Q a (upd t s)) → (∀ t, J t → I (upd t s)) → safe I (zoom proj upd m) s Q.
Proof.
  intros (r & t & Hm & Ht & Hr) Hu. exists r, (upd t s). unfold zoom. rewrite Hm. split_and!; auto.
Qed.
