(* ===== verification/Types.v ===== *)
(** * Types: the data the whole interpreter shares

    The module IR of types (src/src/canon/mod.rs), the public value types with
    their subtyping (src/src/value/types.rs), runtime values and references
    (src/src/value/val.rs, gc_ref.rs), and the error model (src/src/trap.rs,
    src/src/error.rs).  A concrete public type descriptor is represented by its
    engine-canonical id: that is what its equality compares. *)
From S2P Require Import Prelude.

(** ** Error model *)

Inductive Trap : Type :=
  | StackOverflow | MemoryOutOfBounds | HeapMisaligned | TableOutOfBounds
  | IndirectCallToNull | BadSignature | IntegerOverflow | IntegerDivisionByZero
  | BadConversionToInteger | UnreachableCodeReached | Interrupt | OutOfFuel
  | NullReference | NullArrayReference | NullStructReference | NullI31Reference
  | CastFailure | ArrayOutOfBounds | AllocationTooLarge | CannotEnterComponent
  | NoAsyncResult.

Inductive InternalError : Type :=
  | OperandStack (detail : string)
  | FrameStack (detail : string)
  | ResultShape (detail : string)
  | GcMetadata (detail : string)
  | Compiler (detail : string).

#[export] Instance Trap_eq_dec : EqDecision Trap.
Proof. solve_decision. Defined.
#[export] Instance InternalError_eq_dec : EqDecision InternalError.
Proof. solve_decision. Defined.

(** ** Module IR of types *)

Inductive AggKind : Type := AggFunc | AggStruct | AggArray.

Inductive IrHeap : Type :=
  | IrFunc | IrNoFunc | IrExtern | IrNoExtern | IrAny | IrEq | IrI31
  | IrStruct | IrArray | IrExn | IrNoExn | IrNone
  | IrConcrete (idx : Z) (kind : AggKind).

Inductive IrVal : Type :=
  | IrI32 | IrI64 | IrF32 | IrF64 | IrV128
  | IrRefTy (nullable : bool) (heap : IrHeap).

Inductive IrStorage : Type := IrSI8 | IrSI16 | IrSVal (v : IrVal).

Record IrField : Type := { f_mutable : bool; f_storage : IrStorage }.

Inductive CompositeBody : Type :=
  | CompFunc (params results : list IrVal)
  | CompStruct (fields : list IrField)
  | CompArray (field : IrField).

Inductive Finality : Type := Final | NonFinal.

Record ModuleType : Type := {
  mt_group : Z;
  mt_finality : Finality;
  mt_supertype : option Z;
  mt_body : CompositeBody;
}.

#[export] Instance AggKind_eq_dec : EqDecision AggKind.
Proof. solve_decision. Defined.
#[export] Instance IrHeap_eq_dec : EqDecision IrHeap.
Proof. solve_decision. Defined.
#[export] Instance IrVal_eq_dec : EqDecision IrVal.
Proof. solve_decision. Defined.
#[export] Instance Finality_eq_dec : EqDecision Finality.
Proof. solve_decision. Defined.

Definition module_type_kind (t : ModuleType) : AggKind :=
  match mt_body t with
  | CompFunc _ _ => AggFunc
  | CompStruct _ => AggStruct
  | CompArray _ => AggArray
  end.

(** [None] is the [unreachable!("not a function type")] panic. *)
Definition func_sig (t : ModuleType) : option (list IrVal * list IrVal) :=
  match mt_body t with
  | CompFunc params results => Some (params, results)
  | _ => None
  end.

(** ** Public value types and their subtyping *)

Inductive HeapType : Type :=
  | HtFunc | HtNoFunc | HtExtern | HtNoExtern | HtAny | HtEq | HtI31
  | HtStruct | HtConcreteStruct (id : Z)
  | HtArray | HtConcreteArray (id : Z)
  | HtExn | HtNoExn | HtNone
  | HtConcreteFunc (id : Z).

Record RefType : Type := { rt_nullable : bool; rt_heap : HeapType }.

Inductive ValType : Type :=
  | TI32 | TI64 | TF32 | TF64 | TV128 | TRef (r : RefType).

#[export] Instance HeapType_eq_dec : EqDecision HeapType.
Proof. solve_decision. Defined.
#[export] Instance RefType_eq_dec : EqDecision RefType.
Proof. solve_decision. Defined.
#[export] Instance ValType_eq_dec : EqDecision ValType.
Proof. solve_decision. Defined.

Definition heap_matches (self other : HeapType) : bool :=
  if decide (self = other) then true else
  match self, other with
  | HtNoFunc, (HtFunc | HtConcreteFunc _) => true
  | HtConcreteFunc _, HtFunc => true
  | HtNoExtern, HtExtern => true
  | HtNoExn, HtExn => true
  | (HtI31 | HtStruct | HtArray | HtEq), HtAny => true
  | (HtI31 | HtStruct | HtArray), HtEq => true
  | HtConcreteStruct _, (HtStruct | HtEq | HtAny) => true
  | HtConcreteArray _, (HtArray | HtEq | HtAny) => true
  | HtNone, (HtAny | HtEq | HtI31 | HtStruct | HtArray
            | HtConcreteStruct _ | HtConcreteArray _) => true
  | _, _ => false
  end.

Definition ref_matches (self other : RefType) : bool :=
  (negb (rt_nullable self) || rt_nullable other) && heap_matches (rt_heap self) (rt_heap other).

Definition val_type_matches (self other : ValType) : bool :=
  match self, other with
  | TRef a, TRef b => ref_matches a b
  | _, _ => bool_decide (self = other)
  end.

(** GC field descriptors. *)
Inductive StorageType : Type := StI8 | StI16 | StValType (v : ValType).
Record FieldType : Type := { ft_mutable : bool; ft_element : StorageType }.
#[export] Instance StorageType_eq_dec : EqDecision StorageType.
Proof. solve_decision. Defined.
#[export] Instance FieldType_eq_dec : EqDecision FieldType.
Proof. solve_decision. Defined.

(** [materialize_heap]/[materialize_val]: module-relative references become
    canonical ids through the instance's [type_ids]; the [Panic] is the index
    of a missing id. *)
Section materialize.
  Context {E : Type} (type_ids : list Z).
Definition materialize_heap (h : IrHeap) : result E HeapType :=
  match h with
  | IrFunc => Ok HtFunc
  | IrNoFunc => Ok HtNoFunc
  | IrExtern => Ok HtExtern
  | IrNoExtern => Ok HtNoExtern
  | IrAny => Ok HtAny
  | IrEq => Ok HtEq
  | IrI31 => Ok HtI31
  | IrStruct => Ok HtStruct
  | IrArray => Ok HtArray
  | IrExn => Ok HtExn
  | IrNoExn => Ok HtNoExn
  | IrNone => Ok HtNone
  | IrConcrete idx kind =>
      id ← expect (zget type_ids idx) "index out of bounds";
      Ok match kind with
         | AggFunc => HtConcreteFunc id
         | AggStruct => HtConcreteStruct id
         | AggArray => HtConcreteArray id
         end
  end.

Definition materialize_val (v : IrVal) : result E ValType :=
  match v with
  | IrI32 => Ok TI32
  | IrI64 => Ok TI64
  | IrF32 => Ok TF32
  | IrF64 => Ok TF64
  | IrV128 => Ok TV128
  | IrRefTy nullable heap =>
      h ← materialize_heap heap; Ok (TRef {| rt_nullable := nullable; rt_heap := h |})
  end.
End materialize.

(** ** Runtime references and values *)

Inductive RefKind : Type := RkFunc | RkExtern | RkAny | RkExn.
#[export] Instance RefKind_eq_dec : EqDecision RefKind.
Proof. solve_decision. Defined.

Definition UNCHECKED_GENERATION : Z := 2 ^ 32 - 1.
Definition UNCHECKED_STORE : Z := 0.

Record Func : Type := { fn_index : Z; fn_store : Z }.
Record Rooted : Type := {
  r_index : Z;
  r_arena : RefKind;
  r_store : Z;
  r_generation : Z;
}.
#[export] Instance Func_eq_dec : EqDecision Func.
Proof. solve_decision. Defined.
#[export] Instance Rooted_eq_dec : EqDecision Rooted.
Proof. solve_decision. Defined.

Definition func_from_raw (index : Z) : Func := {| fn_index := index; fn_store := 0 |}.
Definition rooted_from_raw (index : Z) (arena : RefKind) : Rooted :=
  {| r_index := index; r_arena := arena;
     r_store := UNCHECKED_STORE; r_generation := UNCHECKED_GENERATION |}.
Definition rooted_from_raw_gen (index generation store : Z) (arena : RefKind) : Rooted :=
  {| r_index := index; r_arena := arena; r_store := store; r_generation := generation |}.
Definition rooted_from_raw_store (index store : Z) (arena : RefKind) : Rooted :=
  {| r_index := index; r_arena := arena; r_store := store; r_generation := UNCHECKED_GENERATION |}.

(** [F32]/[F64] hold raw IEEE-754 bits, [V128] the 128-bit pattern. *)
Inductive Val : Type :=
  | VI32 (x : Z) | VI64 (x : Z) | VF32 (bits : Z) | VF64 (bits : Z) | VV128 (bits : Z)
  | VFuncRef (f : option Func)
  | VExternRef (r : option Rooted)
  | VAnyRef (r : option Rooted)
  | VExnRef (r : option Rooted).
#[export] Instance Val_eq_dec : EqDecision Val.
Proof. solve_decision. Defined.

Inductive Ref : Type :=
  | RefFunc (f : option Func)
  | RefExtern (r : option Rooted)
  | RefAny (r : option Rooted)
  | RefExn (r : option Rooted).
#[export] Instance Ref_eq_dec : EqDecision Ref.
Proof. solve_decision. Defined.

Definition is_null_ref (v : Val) : bool :=
  match v with
  | VFuncRef None | VExternRef None | VAnyRef None | VExnRef None => true
  | _ => false
  end.

Definition val_from_ref (r : Ref) : Val :=
  match r with
  | RefFunc f => VFuncRef f
  | RefExtern e => VExternRef e
  | RefAny a => VAnyRef a
  | RefExn x => VExnRef x
  end.

(** [None] is the [unreachable!] panic. *)
Definition val_to_ref (v : Val) : option Ref :=
  match v with
  | VFuncRef f => Some (RefFunc f)
  | VExternRef e => Some (RefExtern e)
  | VAnyRef a => Some (RefAny a)
  | VExnRef x => Some (RefExn x)
  | _ => None
  end.

Definition null_for_heap (heap : IrHeap) : Val :=
  match heap with
  | IrFunc | IrNoFunc | IrConcrete _ AggFunc => VFuncRef None
  | IrExtern | IrNoExtern => VExternRef None
  | IrExn | IrNoExn => VExnRef None
  | _ => VAnyRef None
  end.

Definition default_for (ty : IrVal) : Val :=
  match ty with
  | IrI32 => VI32 0
  | IrI64 => VI64 0
  | IrF32 => VF32 0
  | IrF64 => VF64 0
  | IrV128 => VV128 0
  | IrRefTy _ heap => null_for_heap heap
  end.

Definition default_for_valtype (ty : ValType) : Val :=
  match ty with
  | TI32 => VI32 0
  | TI64 => VI64 0
  | TF32 => VF32 0
  | TF64 => VF64 0
  | TV128 => VV128 0
  | TRef rt =>
      match rt_heap rt with
      | HtFunc | HtNoFunc | HtConcreteFunc _ => VFuncRef None
      | HtExtern | HtNoExtern => VExternRef None
      | HtExn | HtNoExn => VExnRef None
      | _ => VAnyRef None
      end
  end.

Definition val_matches (val : Val) (ty : ValType) : bool :=
  match val, ty with
  | VI32 _, TI32 | VI64 _, TI64 | VF32 _, TF32 | VF64 _, TF64 | VV128 _, TV128 => true
  | VFuncRef v, TRef r =>
      match rt_heap r with
      | HtNoFunc => bool_decide (v = None) && rt_nullable r
      | HtFunc | HtConcreteFunc _ => bool_decide (v ≠ None) || rt_nullable r
      | _ => false
      end
  | VExternRef v, TRef r =>
      match rt_heap r with
      | HtNoExtern => bool_decide (v = None) && rt_nullable r
      | HtExtern => bool_decide (v ≠ None) || rt_nullable r
      | _ => false
      end
  | VExnRef v, TRef r =>
      match rt_heap r with
      | HtNoExn => bool_decide (v = None) && rt_nullable r
      | HtExn => bool_decide (v ≠ None) || rt_nullable r
      | _ => false
      end
  | VAnyRef v, TRef r =>
      match rt_heap r with
      | HtNone => bool_decide (v = None) && rt_nullable r
      | HtAny | HtEq | HtI31 | HtStruct | HtConcreteStruct _ | HtArray | HtConcreteArray _ =>
          bool_decide (v ≠ None) || rt_nullable r
      | _ => false
      end
  | _, _ => false
  end.

(** An error value ([crate::Error]): what a caller can [downcast_ref]. *)
Inductive error : Type :=
  | ETrap (t : Trap)
  | EInternal (e : InternalError)
  | EMsg (m : string)
  | EThrown
  | EPending (exn : Rooted)
  | EGcHeapOutOfMemory (bytes_needed : Z).
#[export] Instance error_eq_dec : EqDecision error.
Proof. solve_decision. Defined.

Abbreviation res := (result error).
Abbreviation SM S := (M S error).

(** ** Integer ranges of well-formed values *)
Definition opt_all {A} (P : A → Prop) (o : option A) : Prop :=
  match o with Some a => P a | None => True end.
Definition val_ok (v : Val) : Prop :=
  match v with
  | VI32 x => s_ok 32 x
  | VI64 x => s_ok 64 x
  | VF32 b => u_ok 32 b
  | VF64 b => u_ok 64 b
  | VV128 b => u_ok 128 b
  | VFuncRef f => opt_all (λ f, u_ok 32 (fn_index f)) f
  | VExternRef r | VAnyRef r | VExnRef r => opt_all (λ r, u_ok 32 (r_index r)) r
  end.

(** ** Subtyping is a partial order *)

Lemma heap_matches_refl h : heap_matches h h = true.
Proof. unfold heap_matches. by rewrite decide_True. Qed.

Lemma heap_matches_trans a b c :
  heap_matches a b = true → heap_matches b c = true → heap_matches a c = true.
Proof.
  unfold heap_matches.
  destruct (decide (a = b)) as [->|]; [done|].
  destruct (decide (a = c)) as [->|]; [done|].
  destruct (decide (b = c)) as [->|]; [tauto|].
  intros Hab Hbc.
  destruct a, b; try discriminate Hab; destruct c; try discriminate Hbc; done.
Qed.

Lemma heap_matches_antisym a b :
  heap_matches a b = true → heap_matches b a = true → a = b.
Proof.
  unfold heap_matches.
  destruct (decide (a = b)); [done|]. rewrite (decide_False (P:=b = a)) by congruence.
  destruct a, b; done.
Qed.

Lemma ref_matches_trans a b c :
  ref_matches a b = true → ref_matches b c = true → ref_matches a c = true.
Proof.
  unfold ref_matches. rewrite !andb_true_iff. intros [Hn Hh] [Hn' Hh']. split.
  - destruct (rt_nullable a), (rt_nullable b), (rt_nullable c); done.
  - by eapply heap_matches_trans.
Qed.

Lemma val_type_matches_refl t : val_type_matches t t = true.
Proof.
  destruct t; cbn; try done. unfold ref_matches. rewrite heap_matches_refl.
  by destruct (rt_nullable r).
Qed.

Lemma val_type_matches_trans a b c :
  val_type_matches a b = true → val_type_matches b c = true → val_type_matches a c = true.
Proof.
  destruct a, b; cbn; try (by intros ?%bool_decide_eq_true);
    destruct c; cbn; try done; apply ref_matches_trans.
Qed.

Lemma ref_matches_antisym a b :
  ref_matches a b = true → ref_matches b a = true → a = b.
Proof.
  unfold ref_matches. rewrite !andb_true_iff. intros [Hn Hh] [Hn' Hh'].
  destruct a as [na ha], b as [nb hb]; cbn in *.
  f_equal; [by destruct na, nb|by apply heap_matches_antisym].
Qed.

(** Subsumption is sound and [ValType::matches] is a partial order: a
    value accepted at a type is accepted at every supertype. *)
Lemma val_matches_subsumption v a b :
  val_type_matches a b = true → val_matches v a = true → val_matches v b = true.
Proof.
  destruct a as [| | | | |[na ha]], b as [| | | | |[nb hb]]; cbn;
    try (by intros ?%bool_decide_eq_true).
  unfold ref_matches, heap_matches; cbn. rewrite andb_true_iff. intros [Hn Hh].
  destruct (decide (ha = hb)) as [->|].
  - destruct v as [| | | | |[]|[]|[]|[]]; cbn; try done;
      destruct hb, na, nb; cbn in *; done.
  - destruct v as [| | | | |[]|[]|[]|[]]; cbn; try done;
      destruct ha; cbn; try done; destruct hb; cbn in *; try done;
      destruct na, nb; done.
Qed.

Lemma val_matches_subsumption_witness :
  val_matches (VAnyRef (Some (rooted_from_raw 5 RkAny))) (TRef {| rt_nullable := true; rt_heap := HtEq |}) = true.
Proof.
  apply (val_matches_subsumption _ (TRef {| rt_nullable := false; rt_heap := HtConcreteStruct 3 |}));
    reflexivity.
Defined.
