(* ===== verification/Layout.v ===== *)
(** * Layout: byte layout of GC aggregates (src/src/canon/layout.rs)

    A struct body is its fields back to back, an array body is its element
    repeated.  The main facts: the field slots tile the body exactly (in order,
    no gap, no overlap), and element slots of an array do the same. *)
From S2P Require Import Prelude Types.

Definition REF_WIDTH : Z := 4.

Inductive ScalarKind : Type := SkI8 | SkI16 | SkI32 | SkI64 | SkF32 | SkF64 | SkV128.
#[export] Instance ScalarKind_eq_dec : EqDecision ScalarKind.
Proof. solve_decision. Defined.

Definition scalar_width (k : ScalarKind) : Z :=
  match k with
  | SkI8 => 1
  | SkI16 => 2
  | SkI32 | SkF32 => 4
  | SkI64 | SkF64 => 8
  | SkV128 => 16
  end.

Definition is_packed (k : ScalarKind) : bool :=
  match k with SkI8 | SkI16 => true | _ => false end.

Inductive Slot : Type :=
  | SlotScalar (offset : Z) (kind : ScalarKind)
  | SlotRef (offset : Z) (kind : RefKind).
#[export] Instance Slot_eq_dec : EqDecision Slot.
Proof. solve_decision. Defined.

Definition slot_offset (s : Slot) : Z :=
  match s with SlotScalar o _ | SlotRef o _ => o end.
Definition slot_width (s : Slot) : Z :=
  match s with SlotScalar _ k => scalar_width k | SlotRef _ _ => REF_WIDTH end.

Record StructLayout : Type := { sl_fields : list Slot; sl_size : Z }.
Record ArrayLayout : Type := { al_elem : Slot; al_stride : Z }.
Inductive Layout : Type :=
  | LStruct (l : StructLayout)
  | LArray (l : ArrayLayout).

Definition ref_kind (heap : IrHeap) : RefKind :=
  match heap with
  | IrFunc | IrNoFunc | IrConcrete _ AggFunc => RkFunc
  | IrExtern | IrNoExtern => RkExtern
  | IrExn | IrNoExn => RkExn
  | _ => RkAny
  end.

Definition val_slot (v : IrVal) (offset : Z) : Slot :=
  match v with
  | IrI32 => SlotScalar offset SkI32
  | IrI64 => SlotScalar offset SkI64
  | IrF32 => SlotScalar offset SkF32
  | IrF64 => SlotScalar offset SkF64
  | IrV128 => SlotScalar offset SkV128
  | IrRefTy _ heap => SlotRef offset (ref_kind heap)
  end.

Definition field_slot (f : IrField) (offset : Z) : Slot :=
  match f_storage f with
  | IrSI8 => SlotScalar offset SkI8
  | IrSI16 => SlotScalar offset SkI16
  | IrSVal v => val_slot v offset
  end.

(** [StructLayout::of]: each item builds its slot at the running size. *)
Fixpoint struct_layout_go (slot_at : list (Z → Slot)) (size : Z) : list Slot * Z :=
  match slot_at with
  | [] => ([], size)
  | f :: rest =>
      let slot := f size in
      let '(fields, total) := struct_layout_go rest (size + slot_width slot) in
      (slot :: fields, total)
  end.
Definition struct_layout_of (slot_at : list (Z → Slot)) : StructLayout :=
  let '(fields, size) := struct_layout_go slot_at 0 in
  {| sl_fields := fields; sl_size := size |}.

Definition array_layout_of (elem : Slot) : ArrayLayout :=
  {| al_elem := elem; al_stride := slot_width elem |}.

(** The same from public descriptors ([Layout::for_struct]/[for_array]). *)
Definition pub_ref_kind (heap : HeapType) : RefKind :=
  match heap with
  | HtFunc | HtNoFunc | HtConcreteFunc _ => RkFunc
  | HtExtern | HtNoExtern => RkExtern
  | HtExn | HtNoExn => RkExn
  | _ => RkAny
  end.
Definition pub_val_slot (v : ValType) (offset : Z) : Slot :=
  match v with
  | TI32 => SlotScalar offset SkI32
  | TI64 => SlotScalar offset SkI64
  | TF32 => SlotScalar offset SkF32
  | TF64 => SlotScalar offset SkF64
  | TV128 => SlotScalar offset SkV128
  | TRef rt => SlotRef offset (pub_ref_kind (rt_heap rt))
  end.
Definition pub_field_slot (f : FieldType) (offset : Z) : Slot :=
  match ft_element f with
  | StI8 => SlotScalar offset SkI8
  | StI16 => SlotScalar offset SkI16
  | StValType v => pub_val_slot v offset
  end.
Definition for_struct (fields : list FieldType) : StructLayout :=
  struct_layout_of (pub_field_slot <$> fields).
Definition for_array (field : FieldType) : ArrayLayout := array_layout_of (pub_field_slot field 0).

Definition layout_from_body (body : CompositeBody) : option Layout :=
  match body with
  | CompFunc _ _ => None
  | CompStruct fields => Some (LStruct (struct_layout_of (field_slot <$> fields)))
  | CompArray f => Some (LArray (array_layout_of (field_slot f 0)))
  end.

Definition as_struct (l : Layout) : option StructLayout :=
  match l with LStruct s => Some s | LArray _ => None end.
Definition as_array (l : Layout) : option ArrayLayout :=
  match l with LArray a => Some a | LStruct _ => None end.

Definition with_offset (slot : Slot) (offset : Z) : Slot :=
  match slot with
  | SlotScalar _ kind => SlotScalar offset kind
  | SlotRef _ kind => SlotRef offset kind
  end.

Definition struct_field (l : StructLayout) (i : Z) : option Slot := zget (sl_fields l) i.
Definition elem_at (l : ArrayLayout) (i : Z) : Slot := with_offset (al_elem l) (i * al_stride l).
Definition body_size (l : ArrayLayout) (len : Z) : Z := len * al_stride l.

(** ** Widths *)
Lemma scalar_width_pos k : 1 ≤ scalar_width k ≤ 16.
Proof. destruct k; cbn; lia. Qed.
Lemma slot_width_pos s : 1 ≤ slot_width s ≤ 16.
Proof. destruct s; cbn; [apply scalar_width_pos|unfold REF_WIDTH; lia]. Qed.
Lemma width_with_offset s o : slot_width (with_offset s o) = slot_width s.
Proof. by destruct s. Qed.
Lemma offset_with_offset s o : slot_offset (with_offset s o) = o.
Proof. by destruct s. Qed.
#[export] Hint Resolve slot_width_pos : rust.

(** A list of slots tiles the byte range [[from, to)]: each slot starts where
    the previous one ends. *)
Fixpoint tiles (slots : list Slot) (from to : Z) : Prop :=
  match slots with
  | [] => from = to
  | s :: rest => slot_offset s = from ∧ tiles rest (from + slot_width s) to
  end.

Lemma tiles_le slots from to : tiles slots from to → from ≤ to.
Proof.
  revert from. induction slots as [|s slots IH]; intros from; cbn; [lia|].
  intros [_ H%IH]. pose proof (slot_width_pos s). lia.
Qed.

Lemma tiles_bounds slots from to i s :
  tiles slots from to → zget slots i = Some s →
  from ≤ slot_offset s ∧ slot_offset s + slot_width s ≤ to.
Proof.
  revert from i. induction slots as [|s' slots IH]; intros from i; cbn; [by rewrite zget_nil|].
  intros [Ho Ht] Hi. pose proof (zget_Some _ _ _ Hi).
  destruct (decide (i = 0)) as [->|].
  - rewrite zget_cons_0 in Hi. injection Hi as ->.
    pose proof (tiles_le _ _ _ Ht). lia.
  - rewrite zget_cons_S in Hi by lia.
    destruct (IH _ _ Ht Hi). pose proof (slot_width_pos s'). lia.
Qed.

Lemma tiles_disjoint slots from to i j si sj :
  tiles slots from to → zget slots i = Some si → zget slots j = Some sj → i < j →
  slot_offset si + slot_width si ≤ slot_offset sj.
Proof.
  revert from i j. induction slots as [|s' slots IH]; intros from i j; cbn; [by rewrite zget_nil|].
  intros [Ho Ht] Hi Hj Hij. pose proof (zget_Some _ _ _ Hi).
  rewrite zget_cons_S in Hj by lia.
  destruct (decide (i = 0)) as [->|].
  - rewrite zget_cons_0 in Hi. injection Hi as ->.
    destruct (tiles_bounds _ _ _ _ _ Ht Hj). lia.
  - rewrite zget_cons_S in Hi by lia. eapply IH; [done..|lia].
Qed.

Definition slot_builder (f : Z → Slot) : Prop := ∀ o, slot_offset (f o) = o.

Lemma field_slot_builder f : slot_builder (field_slot f).
Proof. intros o. destruct f as [m []]; cbn; [done..|]. by destruct v. Qed.

Lemma struct_layout_go_tiles fs size fields total :
  Forall slot_builder fs → struct_layout_go fs size = (fields, total) →
  tiles fields size total ∧ length fields = length fs.
Proof.
  intros Hf. revert size fields total. induction Hf as [|f fs Hf _ IH]; intros size fields total; cbn.
  - by intros [= <- <-].
  - destruct (struct_layout_go fs _) as [fields' total'] eqn:E. intros [= <- <-].
    destruct (IH _ _ _ E). cbn. split; [by split|congruence].
Qed.

Lemma struct_layout_tiles fields :
  let l := struct_layout_of (field_slot <$> fields) in
  tiles (sl_fields l) 0 (sl_size l) ∧ length (sl_fields l) = length fields.
Proof.
  unfold struct_layout_of.
  destruct (struct_layout_go _ 0) as [slots total] eqn:E. cbn.
  rewrite <- (length_fmap field_slot fields).
  eapply struct_layout_go_tiles; [|done].
  apply Forall_fmap, Forall_true. intros. apply field_slot_builder.
Qed.

(** C18: every field of a laid-out struct lies inside the body and two distinct
    fields never share a byte; the body has no byte outside a field (the widths
    sum to the size). *)
Lemma struct_layout_sound fields i j si sj :
  let l := struct_layout_of (field_slot <$> fields) in
  struct_field l i = Some si → struct_field l j = Some sj →
  0 ≤ slot_offset si ∧ slot_offset si + slot_width si ≤ sl_size l ∧
  (i ≠ j → slot_offset si + slot_width si ≤ slot_offset sj ∨
           slot_offset sj + slot_width sj ≤ slot_offset si).
Proof.
  intros l Hi Hj. destruct (struct_layout_tiles fields) as [Ht _]. fold l in Ht.
  destruct (tiles_bounds _ _ _ _ _ Ht Hi). split_and!; [done..|].
  intros Hne. destruct (Z.lt_total i j) as [|[|]]; [|done|].
  - left. by eapply tiles_disjoint.
  - right. by eapply tiles_disjoint.
Qed.

Lemma tiles_size slots from to : tiles slots from to → to = from + foldr Z.add 0 (slot_width <$> slots).
Proof.
  revert from. induction slots as [|s slots IH]; intros from; cbn; [lia|].
  intros [_ ->%IH]. lia.
Qed.

Lemma array_elem_bounds e len i :
  let l := array_layout_of e in
  0 ≤ i < len →
  0 ≤ slot_offset (elem_at l i) ∧
  slot_offset (elem_at l i) + slot_width (elem_at l i) ≤ body_size l len.
Proof.
  cbn. unfold elem_at, body_size. cbn. rewrite offset_with_offset, width_with_offset.
  pose proof (slot_width_pos e). nia.
Qed.

Lemma array_elem_disjoint e i j :
  let l := array_layout_of e in
  i < j → slot_offset (elem_at l i) + slot_width (elem_at l i) ≤ slot_offset (elem_at l j).
Proof.
  cbn. unfold elem_at. cbn. rewrite !offset_with_offset, width_with_offset.
  pose proof (slot_width_pos e). nia.
Qed.

(** The two ways to lay a type out agree along [materialize_val]. *)
Lemma pub_ref_kind_materialize {E} ids h h' :
  @materialize_heap E ids h = Ok h' → pub_ref_kind h' = ref_kind h.
Proof.
  destruct h; cbn; try by intros [= <-].
  destruct (zget ids idx); cbn; [|done]. by destruct kind; intros [= <-].
Qed.
Lemma pub_val_slot_materialize {E} ids v v' o :
  @materialize_val E ids v = Ok v' → pub_val_slot v' o = val_slot v o.
Proof.
  destruct v; cbn; try by intros [= <-].
  destruct (materialize_heap ids heap) eqn:Hh; cbn; [|done..]. intros [= <-]. cbn.
  by rewrite (pub_ref_kind_materialize _ _ _ Hh).
Qed.

(** Two fields of [(struct i8 (ref any) i64)]. *)
Lemma struct_layout_sound_witness :
  let fields := [{| f_mutable := true; f_storage := IrSI8 |};
                 {| f_mutable := true; f_storage := IrSVal (IrRefTy true IrAny) |};
                 {| f_mutable := false; f_storage := IrSVal IrI64 |}] in
  let l := struct_layout_of (field_slot <$> fields) in
  sl_size l = 13 ∧ slot_offset (SlotScalar 5 SkI64) + slot_width (SlotScalar 5 SkI64) ≤ sl_size l.
Proof.
  intros fields l. split; [reflexivity|].
  apply (struct_layout_sound fields 2 1 (SlotScalar 5 SkI64) (SlotRef 1 RkAny)); reflexivity.
Defined.
