(* ===== verification/Codec.v ===== *)
(** * Codec: packed GC bodies (src/src/store/gc_codec.rs) and anyref handles
    (the handle half of src/src/store/gc.rs)

    A value is written at a typed slot of a byte buffer and read back; the
    results are a round trip up to the narrowing the slot applies, and the frame
    property that bytes of other slots are untouched.  [f32]/[f64] values are
    their bit patterns throughout ([from_bits]/[to_bits] are inverse). *)
From S2P Require Import Prelude Types Layout.

Definition NULL_REF : Z := 0x7FFFFFFF.

Definition unwrap_i32 (v : Val) : res Z :=
  match v with VI32 x => Ok x | _ => Panic "expected i32" end.
Definition unwrap_i64 (v : Val) : res Z :=
  match v with VI64 x => Ok x | _ => Panic "expected i64" end.
Definition unwrap_f32 (v : Val) : res Z :=
  match v with VF32 x => Ok x | _ => Panic "expected f32" end.
Definition unwrap_f64 (v : Val) : res Z :=
  match v with VF64 x => Ok x | _ => Panic "expected f64" end.
Definition unwrap_v128 (v : Val) : res Z :=
  match v with VV128 x => Ok x | _ => Panic "expected v128" end.

(** [le::<N>(b)]: the first [n] bytes, or the slice panic. *)
Definition le (n : Z) (b : list Z) : res (list Z) := expect (zslice b 0 n) "slice index".
Definition le_u32 (b : list Z) : res Z := from_le_bytes <$> le 4 b.

Definition read_scalar (kind : ScalarKind) (b : list Z) : res Val :=
  match kind with
  | SkI8 => (λ x, VI32 (from_le_bytes x)) <$> le 1 b
  | SkI16 => (λ x, VI32 (from_le_bytes x)) <$> le 2 b
  | SkI32 => (λ x, VI32 (sgn 32 (from_le_bytes x))) <$> le 4 b
  | SkI64 => (λ x, VI64 (sgn 64 (from_le_bytes x))) <$> le 8 b
  | SkF32 => (λ x, VF32 (from_le_bytes x)) <$> le 4 b
  | SkF64 => (λ x, VF64 (from_le_bytes x)) <$> le 8 b
  | SkV128 => (λ x, VV128 (from_le_bytes x)) <$> le 16 b
  end.

Definition write_scalar (kind : ScalarKind) (b : list Z) (v : Val) : res (list Z) :=
  bytes ← match kind with
          | SkI8 => to_le_bytes 1 <$> unwrap_i32 v
          | SkI16 => to_le_bytes 2 <$> unwrap_i32 v
          | SkI32 => to_le_bytes 4 <$> unwrap_i32 v
          | SkI64 => to_le_bytes 8 <$> unwrap_i64 v
          | SkF32 => to_le_bytes 4 <$> unwrap_f32 v
          | SkF64 => to_le_bytes 8 <$> unwrap_f64 v
          | SkV128 => to_le_bytes 16 <$> unwrap_v128 v
          end;
  expect (zsplice b 0 bytes) "slice index".

Definition null_ref (kind : RefKind) : Val :=
  match kind with
  | RkFunc => VFuncRef None
  | RkExtern => VExternRef None
  | RkAny => VAnyRef None
  | RkExn => VExnRef None
  end.

Definition read_ref (kind : RefKind) (handle : Z) : Val :=
  if handle =? NULL_REF then null_ref kind else
  match kind with
  | RkFunc => VFuncRef (Some (func_from_raw handle))
  | RkExtern => VExternRef (Some (rooted_from_raw handle kind))
  | RkAny => VAnyRef (Some (rooted_from_raw handle kind))
  | RkExn => VExnRef (Some (rooted_from_raw handle kind))
  end.

Definition ref_handle (v : Val) : res Z :=
  match v with
  | VFuncRef (Some f) => Ok (fn_index f)
  | VExternRef (Some r) => Ok (r_index r)
  | VAnyRef (Some r) => Ok (r_index r)
  | VExnRef (Some r) => Ok (r_index r)
  | VFuncRef None | VExternRef None | VAnyRef None | VExnRef None => Ok NULL_REF
  | _ => Panic "reference slot stores a reference value"
  end.

(** [&data[offset..]] *)
Definition tail_from (data : list Z) (offset : Z) : res (list Z) :=
  expect (zslice data offset (zlen data)) "slice index".

Definition read_slot (slot : Slot) (data : list Z) : res Val :=
  match slot with
  | SlotScalar offset kind => b ← tail_from data offset; read_scalar kind b
  | SlotRef offset kind => b ← tail_from data offset; read_ref kind <$> le_u32 b
  end.

Definition write_slot (slot : Slot) (data : list Z) (v : Val) : res (list Z) :=
  match slot with
  | SlotScalar offset kind =>
      b ← tail_from data offset;
      b' ← write_scalar kind b v;
      Ok (ztake offset data ++ b')
  | SlotRef offset _ =>
      h ← ref_handle v;
      expect (zsplice data offset (to_le_bytes 4 h)) "slice index"
  end.

Definition read_slot_packed (slot : Slot) (data : list Z) (signed : bool) : res Z :=
  match slot with
  | SlotRef _ _ => Panic "get_s/get_u on a reference slot"
  | SlotScalar offset kind =>
      b ← tail_from data offset;
      match kind with
      | SkI8 => (λ x, if signed then sgn 8 (from_le_bytes x) else from_le_bytes x) <$> le 1 b
      | SkI16 => (λ x, if signed then sgn 16 (from_le_bytes x) else from_le_bytes x) <$> le 2 b
      | _ => v ← read_scalar kind b; unwrap_i32 v
      end
  end.

Definition slot_accepts (slot : Slot) (v : Val) : bool :=
  match slot with
  | SlotScalar _ kind =>
      match kind, v with
      | (SkI8 | SkI16 | SkI32), VI32 _ | SkI64, VI64 _ | SkF32, VF32 _
      | SkF64, VF64 _ | SkV128, VV128 _ => true
      | _, _ => false
      end
  | SlotRef _ kind =>
      match kind, v with
      | RkFunc, VFuncRef _ | RkExtern, VExternRef _ | RkAny, VAnyRef _ | RkExn, VExnRef _ => true
      | _, _ => false
      end
  end.

Definition default_for_slot (slot : Slot) : Val :=
  match slot with
  | SlotScalar _ kind =>
      match kind with
      | SkI8 | SkI16 | SkI32 => VI32 0
      | SkI64 => VI64 0
      | SkF32 => VF32 0
      | SkF64 => VF64 0
      | SkV128 => VV128 0
      end
  | SlotRef _ kind => null_ref kind
  end.

(** ** Anyref handles: an unboxed [i31] or a heap slot index *)
Definition I31_TAG : Z := 2 ^ 31.

Inductive AnyRefHandle : Type := HI31 (value : Z) | HSlot (index : Z).
#[export] Instance AnyRefHandle_eq_dec : EqDecision AnyRefHandle.
Proof. solve_decision. Defined.

Definition anyref_handle_i31 (value : Z) : Z :=
  Z.lor I31_TAG (Z.land (wrap 32 value) (Z.lnot I31_TAG)).
(** The [debug_assert] is a release no-op. *)
Definition anyref_handle_slot (index : Z) : Z := index.
Definition decode_anyref_handle (handle : Z) : AnyRefHandle :=
  if Z.land handle I31_TAG =? 0 then HSlot handle
  else
    let payload := Z.land handle (wrap 32 (Z.lnot I31_TAG)) in
    HI31 (Z.shiftr (sgn 32 (Z.shiftl payload 1)) 1).
Definition anyref_value (handle : Z) : Val := VAnyRef (Some (rooted_from_raw handle RkAny)).

(** ** What a slot keeps of a value *)
Definition raw_rooted (k : RefKind) (r : Rooted) : Rooted := rooted_from_raw (r_index r) k.
Definition slot_view (slot : Slot) (v : Val) : Val :=
  match slot, v with
  | SlotScalar _ SkI8, VI32 x => VI32 (wrap 8 x)
  | SlotScalar _ SkI16, VI32 x => VI32 (wrap 16 x)
  | SlotRef _ _, VFuncRef (Some f) => VFuncRef (Some (func_from_raw (fn_index f)))
  | SlotRef _ _, VExternRef (Some r) => VExternRef (Some (raw_rooted RkExtern r))
  | SlotRef _ _, VAnyRef (Some r) => VAnyRef (Some (raw_rooted RkAny r))
  | SlotRef _ _, VExnRef (Some r) => VExnRef (Some (raw_rooted RkExn r))
  | _, _ => v
  end.

(** A reference is storable when its handle is not the null sentinel. *)
Definition storable (v : Val) : Prop :=
  match v with
  | VFuncRef (Some f) => fn_index f ≠ NULL_REF
  | VExternRef (Some r) | VAnyRef (Some r) | VExnRef (Some r) => r_index r ≠ NULL_REF
  | _ => True
  end.

(** The bytes a slot stores for a value (used only to state the proofs). *)
Definition slot_bytes (slot : Slot) (v : Val) : list Z :=
  let n := Z.to_nat (slot_width slot) in
  match v with
  | VI32 x | VI64 x | VF32 x | VF64 x | VV128 x => to_le_bytes n x
  | _ => match ref_handle v with Ok h => to_le_bytes n h | _ => [] end
  end.

Lemma le_Some n b : 0 ≤ n ≤ zlen b → le n b = Ok (ztake n b).
Proof.
  intros. unfold le. rewrite zslice_is_Some by lia. cbn.
  unfold zdrop. cbn. by rewrite Z.sub_0_r.
Qed.

Lemma tail_from_Some data o :
  0 ≤ o ≤ zlen data → tail_from data o = Ok (zdrop o data).
Proof.
  intros. unfold tail_from. rewrite zslice_is_Some by lia. cbn.
  rewrite ztake_all; [done|]. rewrite zlen_drop; lia.
Qed.

Lemma splice_tail {A} (data s : list A) o :
  0 ≤ o → o + zlen s ≤ zlen data →
  (b' ← zsplice (zdrop o data) 0 s; Some (ztake o data ++ b')) = zsplice data o s.
Proof.
  intros. pose proof (zlen_nonneg s).
  assert (zsplice (zdrop o data) 0 s = Some (s ++ zdrop (o + zlen s) data)) as ->.
  { apply zsplice_Some. rewrite zlen_drop by lia. split_and!; [lia..|].
    by rewrite ztake_0, zdrop_zdrop by lia. }
  symmetry. apply zsplice_Some. done.
Qed.

Lemma expect_bind {A B} (o : option A) (f : A → B) w :
  ((b ← expect o w; Ok (f b)) : res B) = expect (b ← o; Some (f b)) w.
Proof. by destruct o. Qed.

Lemma write_scalar_bytes o k b v :
  slot_accepts (SlotScalar o k) v = true →
  write_scalar k b v = expect (zsplice b 0 (slot_bytes (SlotScalar o k) v)) "slice index".
Proof. by destruct k, v. Qed.

(** Writing is one splice of the slot's bytes at its offset. *)
Lemma write_slot_splice slot data v :
  slot_accepts slot v = true → 0 ≤ slot_offset slot →
  slot_offset slot + slot_width slot ≤ zlen data →
  write_slot slot data v = expect (zsplice data (slot_offset slot) (slot_bytes slot v)) "slice index"
  ∧ zlen (slot_bytes slot v) = slot_width slot.
Proof.
  intros Ha Ho Hw. destruct slot as [o k|o k]; cbn in Ho, Hw.
  - pose proof (scalar_width_pos k). cbn [write_slot].
    rewrite tail_from_Some by lia. cbn.
    assert (zlen (slot_bytes (SlotScalar o k) v) = scalar_width k) as Hl.
    { destruct k, v; try discriminate Ha; apply zlen_to_le. }
    split; [|done].
    rewrite <- splice_tail by (rewrite ?Hl; cbn; lia).
    by rewrite (write_scalar_bytes o), expect_bind.
  - cbn in *. destruct k, v as [| | | | |[]|[]|[]|[]]; try discriminate Ha; by split.
Qed.

(** Reading depends only on the slot's own bytes. *)
Lemma read_slot_slice slot data data' :
  0 ≤ slot_offset slot → slot_offset slot + slot_width slot ≤ zlen data →
  zlen data' = zlen data →
  zslice data (slot_offset slot) (slot_offset slot + slot_width slot) =
  zslice data' (slot_offset slot) (slot_offset slot + slot_width slot) →
  read_slot slot data = read_slot slot data'.
Proof.
  intros Ho Hw Hl Hs. pose proof (slot_width_pos slot).
  rewrite !zslice_is_Some in Hs by lia. injection Hs as Hs.
  replace (slot_offset slot + slot_width slot - slot_offset slot) with (slot_width slot) in Hs by lia.
  assert (∀ n, 0 ≤ n ≤ slot_width slot →
    le n (zdrop (slot_offset slot) data) = le n (zdrop (slot_offset slot) data')) as Hle.
  { intros n Hn. rewrite !le_Some by (rewrite zlen_drop; lia). f_equal.
    transitivity (ztake n (ztake (slot_width slot) (zdrop (slot_offset slot) data))).
    - by rewrite ztake_ztake by lia.
    - rewrite Hs. by rewrite ztake_ztake by lia. }
  destruct slot as [o k|o k]; cbn in *; rewrite !tail_from_Some by lia; cbn.
  - pose proof (scalar_width_pos k). destruct k; cbn in *; rewrite Hle; (done || lia).
  - unfold le_u32, REF_WIDTH in *. rewrite Hle; (done || lia).
Qed.

Lemma le_window data o n s :
  0 ≤ o → zslice data o (o + n) = Some s → zlen s = n → le n (zdrop o data) = Ok s.
Proof.
  intros Ho Hs Hn. pose proof Hs as (? & ? & ->)%zslice_Some.
  rewrite le_Some by (rewrite zlen_drop; lia).
  by replace (o + n - o) with n by lia.
Qed.

Lemma mod_bytes n z w : w = 8 * Z.of_nat n → from_le_bytes (to_le_bytes n z) = wrap w z.
Proof. intros ->. apply from_to_le. Qed.

Lemma val_ok_ref_index r : opt_all (λ r, u_ok 32 (r_index r)) (Some r) → u_ok 32 (r_index r).
Proof. done. Qed.

(** Decoding the slot's own bytes. *)
Lemma read_window slot v data :
  slot_accepts slot v = true → val_ok v → storable v →
  0 ≤ slot_offset slot → slot_offset slot + slot_width slot ≤ zlen data →
  zslice data (slot_offset slot) (slot_offset slot + slot_width slot) = Some (slot_bytes slot v) →
  read_slot slot data = Ok (slot_view slot v).
Proof.
  intros Ha Hv Hs Ho Hw Hz. pose proof (zlen_slice _ _ _ _ Hz) as Hl.
  replace (slot_offset slot + slot_width slot - slot_offset slot) with (slot_width slot) in Hl by lia.
  pose proof (le_window data (slot_offset slot) (slot_width slot) _ Ho Hz Hl) as Hle.
  pose proof (slot_width_pos slot).
  destruct slot as [o k|o k]; cbn [slot_offset slot_width read_slot] in *;
    rewrite tail_from_Some by lia; cbn [mbind result_bind].
  - destruct k, v as [x|x|x|x|x|[]|[]|[]|[]]; try discriminate Ha; cbn [read_scalar scalar_width] in *;
      rewrite Hle; cbn in Hv; cbn -[slot_bytes from_le_bytes sgn];
      unfold slot_bytes; cbn [slot_width scalar_width];
      erewrite (mod_bytes _ x) by reflexivity; cbn -[wrap sgn];
      first [reflexivity | by rewrite wrap_id | by rewrite sgn_wrap, sgn_id].
  - unfold le_u32. unfold REF_WIDTH in *. rewrite Hle.
    cbn [fmap result_fmap]. f_equal.
    destruct k, v as [| | | | |[f|]|[r|]|[r|]|[r|]]; try discriminate Ha; try reflexivity;
      unfold slot_bytes; cbn [ref_handle slot_width]; cbn in Hv, Hs;
      rewrite (mod_bytes (Z.to_nat REF_WIDTH) _ 32 eq_refl), wrap_id by exact Hv;
      unfold read_ref; by rewrite (proj2 (Z.eqb_neq _ _)) by done.
Qed.

(** C17: a value written at a slot it fits reads back as the slot's view of
    it (packed integers truncated, references as bare same-store handles); the
    write succeeds and keeps the body's length. *)
Lemma write_then_read slot data v :
  slot_accepts slot v = true → val_ok v → storable v →
  0 ≤ slot_offset slot → slot_offset slot + slot_width slot ≤ zlen data →
  ∃ data', write_slot slot data v = Ok data' ∧ zlen data' = zlen data ∧
           read_slot slot data' = Ok (slot_view slot v).
Proof.
  intros Ha Hv Hs Ho Hw.
  destruct (write_slot_splice slot data v) as [-> Hl]; [done..|].
  destruct (zsplice_is_Some data (slot_bytes slot v) (slot_offset slot)) as [data' Hd]; [lia..|].
  exists data'. rewrite Hd. pose proof (zlen_splice _ _ _ _ Hd). split_and!; [done..|].
  apply read_window; [done..|lia|].
  rewrite <- Hl at 1. by eapply zslice_splice_eq.
Qed.

(** A slot that shares no byte with the written one reads the same
    before and after. *)
Lemma write_slot_frame slot other data data' v :
  slot_accepts slot v = true → write_slot slot data v = Ok data' →
  0 ≤ slot_offset slot → slot_offset slot + slot_width slot ≤ zlen data →
  0 ≤ slot_offset other → slot_offset other + slot_width other ≤ zlen data →
  slot_offset slot + slot_width slot ≤ slot_offset other ∨
    slot_offset other + slot_width other ≤ slot_offset slot →
  read_slot other data' = read_slot other data ∧ zlen data' = zlen data.
Proof.
  intros Ha Hw Ho Hb Ho' Hb' Hd.
  destruct (write_slot_splice slot data v) as [Hws Hl]; [done..|].
  rewrite Hw in Hws. destruct (zsplice _ _ _) as [d|] eqn:E; [|done].
  injection Hws as ->. pose proof (zlen_splice _ _ _ _ E) as Hlen. split; [|done].
  apply read_slot_slice; [lia..|].
  eapply zslice_splice_ne; [done|]. lia.
Qed.

Lemma read_packed_window o k data s signed :
  is_packed k = true → 0 ≤ o → o + scalar_width k ≤ zlen data →
  zslice data o (o + scalar_width k) = Some s → zlen s = scalar_width k →
  read_slot_packed (SlotScalar o k) data signed =
  Ok (if signed then sgn (8 * scalar_width k) (from_le_bytes s) else from_le_bytes s).
Proof.
  intros Hp Ho Hw Hs Hl. pose proof (le_window _ _ _ _ Ho Hs Hl) as Hle.
  pose proof (scalar_width_pos k).
  unfold read_slot_packed. rewrite tail_from_Some by lia.
  destruct k; try discriminate Hp; cbn in *; rewrite Hle; done.
Qed.

(** The packed getters read the low 8/16 bits of the stored [i32], sign-
    or zero-extended. *)
Lemma write_then_read_packed o k data x signed :
  is_packed k = true → s_ok 32 x → 0 ≤ o → o + scalar_width k ≤ zlen data →
  ∃ data', write_slot (SlotScalar o k) data (VI32 x) = Ok data' ∧
    read_slot_packed (SlotScalar o k) data' signed =
    Ok (if signed then sgn (8 * scalar_width k) x else wrap (8 * scalar_width k) x).
Proof.
  intros Hp Hx Ho Hw.
  assert (slot_accepts (SlotScalar o k) (VI32 x) = true) as Ha by (by destruct k).
  destruct (write_slot_splice (SlotScalar o k) data (VI32 x)) as [-> Hl]; [done..|].
  cbn [slot_offset slot_width] in *.
  destruct (zsplice_is_Some data (slot_bytes (SlotScalar o k) (VI32 x)) o) as [d Hd]; [lia..|].
  exists d. rewrite Hd. split; [done|].
  rewrite (read_packed_window o k d (slot_bytes (SlotScalar o k) (VI32 x))); [|done..| | |done].
  - unfold slot_bytes; cbn -[to_le_bytes from_le_bytes].
    rewrite (mod_bytes _ x (8 * scalar_width k)) by (by destruct k).
    by rewrite sgn_wrap by (destruct k; done || (cbn; lia)).
  - by rewrite (zlen_splice _ _ _ _ Hd).
  - rewrite <- Hl. by eapply zslice_splice_eq.
Qed.

(** ** Handles *)
Lemma land_lnot_tag a : 0 ≤ a < 2 ^ 32 → Z.land a (Z.lnot I31_TAG) = a mod 2 ^ 31.
Proof.
  intros Ha. rewrite <- Z.land_ones by lia. apply Z.bits_inj'. intros n Hn.
  rewrite !Z.land_spec, Z.lnot_spec by lia. unfold I31_TAG.
  rewrite Z.pow2_bits_eqb by lia.
  destruct (Z.eqb_spec 31 n) as [<-|].
  - cbn [negb]. rewrite Z.ones_spec_high by lia. by rewrite !andb_false_r.
  - destruct (Z.ltb_spec n 31).
    + rewrite Z.ones_spec_low by lia. done.
    + rewrite Z.ones_spec_high by lia. rewrite andb_false_r.
      destruct (Z.eq_dec a 0) as [->|]; [by rewrite Z.bits_0|].
      rewrite Z.bits_above_log2; [done|lia|].
      apply Z.log2_lt_pow2; [lia|]. eapply Z.lt_le_trans; [apply Ha|].
      apply Z.pow_le_mono_r; lia.
Qed.

Lemma tag_disjoint p : 0 ≤ p < 2 ^ 31 → Z.land I31_TAG p = 0.
Proof.
  intros Hp. apply Z.bits_inj'. intros n Hn.
  rewrite Z.land_spec, Z.bits_0. unfold I31_TAG. rewrite Z.pow2_bits_eqb by lia.
  destruct (Z.eqb_spec 31 n) as [<-|]; [|done]. rewrite andb_true_l.
  destruct (Z.eq_dec p 0) as [->|]; [done|].
  apply Z.bits_above_log2; [lia|]. apply Z.log2_lt_pow2; lia.
Qed.

Lemma tag_lor p : 0 ≤ p < 2 ^ 31 → Z.lor I31_TAG p = 2 ^ 31 + p.
Proof.
  intros Hp. pose proof (tag_disjoint p Hp) as H0.
  by rewrite <- Z.lxor_lor, <- Z.add_nocarry_lxor.
Qed.

Lemma anyref_handle_i31_eq v : anyref_handle_i31 v = 2 ^ 31 + v mod 2 ^ 31.
Proof.
  unfold anyref_handle_i31. rewrite land_lnot_tag by (by apply wrap_ok).
  rewrite tag_lor by (apply Z.mod_pos_bound; lia). unfold wrap.
  f_equal. change (2 ^ 32) with (2 ^ 31 * 2).
  rewrite Z.rem_mul_r, Z.mul_comm, Z.mod_add by lia. apply Z.mod_mod. lia.
Qed.

Lemma decode_tagged p : 0 ≤ p < 2 ^ 31 → decode_anyref_handle (2 ^ 31 + p) = HI31 (sgn 31 p).
Proof.
  intros Hp. unfold decode_anyref_handle.
  assert (Z.land (2 ^ 31 + p) I31_TAG = 2 ^ 31) as ->.
  { rewrite <- tag_lor by done. rewrite Z.land_lor_distr_l, Z.land_diag.
    by rewrite (Z.land_comm p), tag_disjoint by done. }
  cbn [Z.eqb]. change (2 ^ 31 =? 0) with false. cbn iota.
  change (wrap 32 (Z.lnot I31_TAG)) with (Z.ones 31).
  rewrite Z.land_ones by lia.
  replace ((2 ^ 31 + p) mod 2 ^ 31) with p
    by (rewrite <- (Z.mod_small p (2 ^ 31)) at 1 by done;
        rewrite <- (Z.mod_add p 1) by lia; f_equal; lia).
  rewrite Z.shiftl_mul_pow2, Z.shiftr_div_pow2 by lia. f_equal. unfold sgn.
  rewrite !Z.mod_small by lia. change (2 ^ 1) with 2.
  change (32 - 1) with 31. change (31 - 1) with 30.
  change (2 ^ 32) with 4294967296. change (2 ^ 31) with 2147483648 in *.
  change (2 ^ 30) with 1073741824.
  destruct (Z.ltb_spec (p * 2) 2147483648), (Z.ltb_spec p 1073741824);
    Z.div_mod_to_equations; lia.
Qed.

(** [i31] values survive boxing in a handle (as 31-bit two's complement),
    slot indices below 2^31 decode to themselves, and neither is mistaken for
    the other or for the null sentinel. *)
Lemma anyref_handle_roundtrip v i :
  0 ≤ i < NULL_REF →
  decode_anyref_handle (anyref_handle_i31 v) = HI31 (sgn 31 v) ∧
  decode_anyref_handle (anyref_handle_slot i) = HSlot i ∧
  u_ok 32 (anyref_handle_i31 v) ∧
  anyref_handle_i31 v ≠ NULL_REF ∧ anyref_handle_slot i ≠ NULL_REF.
Proof.
  intros Hi. rewrite anyref_handle_i31_eq.
  pose proof (Z.mod_pos_bound v (2 ^ 31) ltac:(lia)).
  split_and!.
  - rewrite decode_tagged by done. f_equal. apply (sgn_wrap 31). lia.
  - unfold anyref_handle_slot, decode_anyref_handle, NULL_REF in *.
    rewrite Z.land_comm, tag_disjoint by lia. done.
  - unfold u_ok. lia.
  - unfold NULL_REF. lia.
  - unfold anyref_handle_slot. lia.
Qed.

Lemma decode_slot_inv h i : u_ok 32 h → decode_anyref_handle h = HSlot i → i = h ∧ h < 2 ^ 31.
Proof.
  intros [Hl Hh] Hd. destruct (Z.lt_ge_cases h (2 ^ 31)).
  - unfold decode_anyref_handle in Hd. rewrite Z.land_comm, tag_disjoint in Hd by lia.
    cbn in Hd. naive_solver.
  - replace h with (2 ^ 31 + (h - 2 ^ 31)) in Hd by lia.
    rewrite decode_tagged in Hd by lia. done.
Qed.

Lemma write_then_read_witness :
  ∃ data', write_slot (SlotScalar 2 SkI16) (replicate 6 0) (VI32 70000) = Ok data' ∧
    zlen data' = 6 ∧ read_slot (SlotScalar 2 SkI16) data' = Ok (VI32 4464).
Proof.
  apply (write_then_read (SlotScalar 2 SkI16) (replicate 6 0) (VI32 70000)); vm_compute; intuition congruence.
Defined.

Lemma write_slot_frame_witness :
  let data := replicate 8 7 in
  ∃ data', write_slot (SlotRef 4 RkAny) data (VAnyRef None) = Ok data' ∧
    read_slot (SlotScalar 0 SkI32) data' = read_slot (SlotScalar 0 SkI32) data ∧ zlen data' = zlen data.
Proof.
  intros data. eexists. split; [reflexivity|].
  eapply (write_slot_frame (SlotRef 4 RkAny) (SlotScalar 0 SkI32) data _ (VAnyRef None));
    [reflexivity|reflexivity|cbn; lia|vm_compute; discriminate|cbn; lia|vm_compute; discriminate|cbn; right; unfold REF_WIDTH; lia].
Defined.

Lemma write_then_read_packed_witness :
  ∃ data', write_slot (SlotScalar 1 SkI8) (replicate 3 0) (VI32 255) = Ok data' ∧
    read_slot_packed (SlotScalar 1 SkI8) data' true = Ok (-1).
Proof.
  apply (write_then_read_packed 1 SkI8 (replicate 3 0) 255 true); vm_compute; intuition congruence.
Defined.

Lemma anyref_handle_roundtrip_witness :
  decode_anyref_handle (anyref_handle_i31 (-5)) = HI31 (-5) ∧ decode_anyref_handle (anyref_handle_slot 12) = HSlot 12.
Proof.
  destruct (anyref_handle_roundtrip (-5) 12) as (H1 & H2 & _); [vm_compute; intuition congruence|].
  split; [exact H1|exact H2].
Defined.
