(* ===== verification/Arena.v ===== *)
(** * Arena: generational slot arenas (src/src/store/reclaim.rs, arena.rs)

    [ReclaimArena] backs the externref and exception arenas.  Its sweep loop has
    the shape the GC object heap's has too, so the loop is stated once over an
    accounting function ([sweep_go]); [GcHeap] instantiates it again.

    [GenArena] is the interface a handle check relies on: what one step of an
    arena may do to a slot's generation.  The stale-handle theorem is proved
    against it and holds for every instance. *)
From S2P Require Import Prelude Types.

(** Generation of a freed slot; skips the [UNCHECKED_GENERATION] sentinel. *)
Definition next_generation (g : Z) : Z :=
  let next := wrap 32 (g + 1) in
  if next =? u_max 32 then 0 else next.

(** One iteration of the sweep loop at index [i]: an occupied slot with
    [keep i = false] is emptied, its generation bumped, its index pushed on the
    free list and its entry accounted for.  [None] is the [generations[i]] index
    panic. *)
Definition sweep_step {E A} (keep : Z → bool) (acct : A → E → A) (i : Z)
    (st : list (option E) * list Z * list Z * A)
    : option (list (option E) * list Z * list Z * A) :=
  let '(slots, gens, free, acc) := st in
  match zget slots i with
  | Some (Some e) =>
      if keep i then Some st
      else gen ← zget gens i;
           Some (<[Z.to_nat i := None]> slots, <[Z.to_nat i := next_generation gen]> gens,
                 free ++ [wrap 32 i], acct acc e)
  | _ => Some st
  end.

Fixpoint sweep_go {E A} (keep : Z → bool) (acct : A → E → A) (ks : list Z)
    (st : list (option E) * list Z * list Z * A)
    : option (list (option E) * list Z * list Z * A) :=
  match ks with
  | [] => Some st
  | i :: ks' => st' ← sweep_step keep acct i st; sweep_go keep acct ks' st'
  end.

(** ** [ReclaimArena] *)
Record ReclaimArena (E : Type) : Type := {
  ra_slots : list (option E);
  ra_generations : list Z;
  ra_free : list Z;
}.
Arguments ra_slots {E}. Arguments ra_generations {E}. Arguments ra_free {E}.
Arguments Build_ReclaimArena {E}.

Definition reclaim_default {E} : ReclaimArena E :=
  {| ra_slots := []; ra_generations := []; ra_free := [] |}.

(** The [Panic] is [self.slots[index]] on a free index out of range. *)
Definition reclaim_alloc {E} (entity : E) (a : ReclaimArena E) : result error Z * ReclaimArena E :=
  match vec_pop (ra_free a) with
  | Some (free', index) =>
      match zset (ra_slots a) index (Some entity) with
      | Some slots' =>
          (Ok index, {| ra_slots := slots'; ra_generations := ra_generations a; ra_free := free' |})
      | None => (Panic "index out of bounds", {| ra_slots := ra_slots a; ra_generations := ra_generations a; ra_free := free' |})
      end
  | None =>
      (Ok (wrap 32 (zlen (ra_slots a))),
       {| ra_slots := ra_slots a ++ [Some entity];
          ra_generations := ra_generations a ++ [0]; ra_free := ra_free a |})
  end.

Definition reclaim_get {E} (a : ReclaimArena E) (index : Z) : option E :=
  slot ← zget (ra_slots a) index; slot.

Definition reclaim_generation {E} (a : ReclaimArena E) (index : Z) : option Z :=
  zget (ra_generations a) index.

Definition reclaim_sweep {E} (live : Z → bool) (byte_of : E → Z) (a : ReclaimArena E)
    : result error Z * ReclaimArena E :=
  match sweep_go (λ i, live (wrap 32 i)) (λ freed e, freed + byte_of e) (seqZ 0 (zlen (ra_slots a)))
          (ra_slots a, ra_generations a, ra_free a, 0) with
  | Some (s, g, f, freed) =>
      (Ok freed, {| ra_slots := s; ra_generations := g; ra_free := f |})
  | None => (Panic "index out of bounds", a)
  end.

(** [Arena]: the grow-only arena of store-lifetime entities. *)
Definition arena_alloc {E} (entity : E) (a : list E) : Z * list E := (wrap 32 (zlen a), a ++ [entity]).
Definition arena_get_opt {E} (a : list E) (index : Z) : option E := zget a index.

(** ** Well-formed slot tables *)
Record slots_wf {E} (slots : list (option E)) (gens free : list Z) : Prop := {
  sw_len : zlen gens = zlen slots;
  sw_nodup : NoDup free;
  sw_free : ∀ i, i ∈ free ↔ zget slots i = Some None;
  sw_gens : ∀ i g, zget gens i = Some g → 0 ≤ g < u_max 32;
  sw_small : zlen slots < 2 ^ 32;
}.

Lemma next_generation_bound g : 0 ≤ g < u_max 32 → 0 ≤ next_generation g < u_max 32.
Proof.
  unfold next_generation, u_max. intros. cbn zeta.
  pose proof (wrap_ok 32 (g + 1) ltac:(lia)) as Hw. unfold u_ok in Hw.
  destruct (Z.eqb_spec (wrap 32 (g + 1)) (2 ^ 32 - 1)); lia.
Qed.

(** The cycle of generations has length [2^32 - 1]. *)
Lemma next_generation_mod g : 0 ≤ g < u_max 32 → next_generation g = (g + 1) mod u_max 32.
Proof.
  unfold next_generation, u_max, wrap. intros. cbn zeta. rewrite Z.mod_small by lia.
  destruct (Z.eqb_spec (g + 1) (2 ^ 32 - 1)) as [->|]; [done|]. rewrite Z.mod_small; lia.
Qed.


(** ** What the sweep loop does *)

(** Slot [i] is freed by the sweep. *)
Definition swept {E} (keep : Z → bool) (slots : list (option E)) (i : Z) : bool :=
  match zget slots i with Some (Some _) => negb (keep i) | _ => false end.

Definition swept_entries {E} (keep : Z → bool) (slots : list (option E)) (ks : list Z) : list E :=
  omap (λ i, if swept keep slots i then mjoin (zget slots i) else None) ks.

Lemma swept_Some {E} keep (slots : list (option E)) i :
  swept keep slots i = true → ∃ e, zget slots i = Some (Some e) ∧ keep i = false.
Proof.
  unfold swept. destruct (zget slots i) as [[e|]|]; try done.
  destruct (keep i) eqn:?; naive_solver.
Qed.

Lemma swept_insert_ne {E} keep (slots : list (option E)) i j s :
  0 ≤ i → i ≠ j → swept keep (<[Z.to_nat i := s]> slots) j = swept keep slots j.
Proof. intros. unfold swept. by rewrite zget_insert_ne by done. Qed.

Record sweep_spec {E A} keep (acct : A → E → A) (ks : list Z)
    (st st' : list (option E) * list Z * list Z * A) : Prop := {
  ss_len : zlen st'.1.1.1 = zlen st.1.1.1;
  ss_glen : zlen st'.1.1.2 = zlen st.1.1.2;
  ss_in : ∀ i, i ∈ ks → swept keep st.1.1.1 i = true →
    zget st'.1.1.1 i = Some None ∧ zget st'.1.1.2 i = next_generation <$> zget st.1.1.2 i;
  ss_out : ∀ i, i ∉ ks ∨ swept keep st.1.1.1 i = false →
    zget st'.1.1.1 i = zget st.1.1.1 i ∧ zget st'.1.1.2 i = zget st.1.1.2 i;
  ss_free : st'.1.2 = st.1.2 ++ filter (λ i, swept keep st.1.1.1 i = true) ks;
  ss_acc : st'.2 = foldl acct st.2 (swept_entries keep st.1.1.1 ks);
}.

Lemma swept_entries_insert {E} keep (slots : list (option E)) i s (ks : list Z) :
  0 ≤ i → i ∉ ks → swept_entries keep (<[Z.to_nat i := s]> slots) ks = swept_entries keep slots ks.
Proof.
  intros Hi Hn. unfold swept_entries. induction ks as [|j ks IH]; [done|].
  apply not_elem_of_cons in Hn as [??]. cbn.
  rewrite swept_insert_ne, zget_insert_ne by done. rewrite IH by done. done.
Qed.

Lemma filter_swept_insert {E} keep (slots : list (option E)) i s (ks : list Z) :
  0 ≤ i → i ∉ ks →
  filter (λ j, swept keep (<[Z.to_nat i := s]> slots) j = true) ks
  = filter (λ j, swept keep slots j = true) ks.
Proof.
  intros Hi Hn. induction ks as [|j ks IH]; [done|].
  apply not_elem_of_cons in Hn as [??].
  rewrite !filter_cons, swept_insert_ne, IH by done. done.
Qed.

Lemma sweep_spec_skip {E A} keep (acct : A → E → A) i ks st st' :
  swept keep st.1.1.1 i = false → sweep_spec keep acct ks st st' →
  sweep_spec keep acct (i :: ks) st st'.
Proof.
  intros Hsw []. constructor; try done.
  - intros j [->|?]%elem_of_cons; [by rewrite Hsw|by apply ss_in0].
  - intros j Hj. destruct (decide (i = j)) as [->|]; apply ss_out0; [by right|].
    rewrite elem_of_cons in Hj. naive_solver.
  - rewrite ss_free0. rewrite (filter_cons_False (λ j, swept keep st.1.1.1 j = true)); [done|].
    by rewrite Hsw.
  - unfold swept_entries. cbn. by rewrite Hsw.
Qed.

Lemma sweep_spec_free {E A} keep (acct : A → E → A) i ks slots gens free acc e g st' :
  0 ≤ i < zlen slots → zlen gens = zlen slots → zlen slots < 2 ^ 32 → i ∉ ks →
  zget slots i = Some (Some e) → keep i = false → zget gens i = Some g →
  sweep_spec keep acct ks (<[Z.to_nat i := None]> slots, <[Z.to_nat i := next_generation g]> gens,
                           free ++ [wrap 32 i], acct acc e) st' →
  sweep_spec keep acct (i :: ks) (slots, gens, free, acc) st'.
Proof.
  intros Hir Hl Hs Hi Hslot Hk Hg []. cbn in *. rewrite !zlen_insert in *.
  assert (swept keep slots i = true) as Hsw by (unfold swept; by rewrite Hslot, Hk).
  constructor; cbn [fst snd]; try done.
  - intros j Hj Hsj. destruct (decide (i = j)) as [->|Hne].
    { destruct (ss_out0 j) as [-> ->]; [by left|].
      rewrite !zget_insert_eq by lia. by rewrite Hg. }
    apply elem_of_cons in Hj as [->|Hj]; [done|].
    destruct (ss_in0 j) as [-> ->]; [done|by rewrite swept_insert_ne by lia|].
    by rewrite zget_insert_ne by lia.
  - intros j Hj. rewrite elem_of_cons in Hj. destruct (decide (i = j)) as [->|Hne].
    { destruct Hj; [naive_solver|congruence]. }
    destruct (ss_out0 j) as [-> ->]; [|by rewrite !zget_insert_ne by lia].
    rewrite swept_insert_ne by lia. naive_solver.
  - rewrite ss_free0, <- app_assoc, filter_swept_insert by (lia || done).
    rewrite wrap_id by (unfold u_ok; lia).
    by rewrite (filter_cons_True (λ j, swept keep slots j = true)).
  - rewrite ss_acc0. rewrite swept_entries_insert by (lia || done).
    unfold swept_entries at 2. cbn. by rewrite Hsw, Hslot.
Qed.

Lemma sweep_go_spec {E A} keep (acct : A → E → A) ks st :
  NoDup ks → (∀ i, i ∈ ks → 0 ≤ i < zlen st.1.1.1) →
  zlen st.1.1.2 = zlen st.1.1.1 → zlen st.1.1.1 < 2 ^ 32 →
  ∃ st', sweep_go keep acct ks st = Some st' ∧ sweep_spec keep acct ks st st'.
Proof.
  destruct st as [[[slots gens] free] acc]. cbn.
  intros Hnd. revert slots gens free acc.
  induction Hnd as [|i ks Hi Hnd IH]; intros slots gens free acc Hr Hl Hs; cbn [sweep_go].
  - eexists; split; [done|].
    constructor; cbn; rewrite ?app_nil_r; try done. by intros i ?%not_elem_of_nil.
  - pose proof (Hr i ltac:(set_solver)) as Hir.
    assert (sweep_step keep acct i (slots, gens, free, acc) = Some (slots, gens, free, acc) →
      swept keep slots i = false →
      ∃ st', (st' ← sweep_step keep acct i (slots, gens, free, acc); sweep_go keep acct ks st') = Some st'
             ∧ sweep_spec keep acct (i :: ks) (slots, gens, free, acc) st') as Hskip.
    { intros -> Hsw. cbn. edestruct (IH slots gens free acc) as (st' & -> & ?); [set_solver|done..|].
      eauto using sweep_spec_skip. }
    unfold swept, sweep_step in *. destruct (zget slots i) as [[e|]|] eqn:Hslot; [|by apply Hskip..].
    destruct (keep i) eqn:Hk; [by apply Hskip|].
    destruct (zget_is_Some gens i) as [g Hg]; [lia|]. rewrite Hg. cbn.
    edestruct (IH (<[Z.to_nat i := None]> slots) (<[Z.to_nat i := next_generation g]> gens)
                  (free ++ [wrap 32 i]) (acct acc e)) as (st' & -> & Hspec);
      rewrite ?zlen_insert; [set_solver|done..|].
    eauto using sweep_spec_free.
Qed.

Lemma swept_range {E} keep (slots : list (option E)) i : swept keep slots i = true → 0 ≤ i < zlen slots.
Proof. intros (e & H & _)%swept_Some. by apply zget_Some in H. Qed.

Lemma sweep_full {E A} keep (acct : A → E → A) slots gens free acc :
  slots_wf slots gens free →
  ∃ slots' gens' free' acc',
    sweep_go keep acct (seqZ 0 (zlen slots)) (slots, gens, free, acc) = Some (slots', gens', free', acc') ∧
    sweep_spec keep acct (seqZ 0 (zlen slots)) (slots, gens, free, acc) (slots', gens', free', acc').
Proof.
  intros []. edestruct (sweep_go_spec keep acct (seqZ 0 (zlen slots)) (slots, gens, free, acc))
    as ([[[s g] f] a] & -> & ?); cbn; try done.
  - apply NoDup_seqZ.
  - intros i. rewrite elem_of_seqZ. lia.
  - naive_solver.
Qed.

(** Every index the loop visits or skips, in one equation per table. *)
Lemma sweep_full_get {E A} keep (acct : A → E → A) slots gens free acc slots' gens' free' acc' i :
  sweep_spec keep acct (seqZ 0 (zlen slots)) (slots, gens, free, acc) (slots', gens', free', acc') →
  zget slots' i = (if swept keep slots i then Some None else zget slots i) ∧
  zget gens' i = (if swept keep slots i then next_generation <$> zget gens i else zget gens i).
Proof.
  intros []. cbn in *. destruct (swept keep slots i) eqn:Hsw.
  - apply ss_in0; [|done]. apply swept_range in Hsw. rewrite elem_of_seqZ. lia.
  - apply ss_out0. by right.
Qed.

Lemma sweep_wf {E A} keep (acct : A → E → A) slots gens free acc slots' gens' free' acc' :
  slots_wf slots gens free →
  sweep_spec keep acct (seqZ 0 (zlen slots)) (slots, gens, free, acc) (slots', gens', free', acc') →
  slots_wf slots' gens' free'.
Proof.
  intros [] Hspec. pose proof (λ i, sweep_full_get _ _ _ _ _ _ _ _ _ _ i Hspec) as Hget.
  destruct Hspec. cbn in *.
  assert (∀ i, i ∈ filter (λ i, swept keep slots i = true) (seqZ 0 (zlen slots)) ↔ swept keep slots i = true)
    as Hfil.
  { intros i. rewrite list_elem_of_filter, elem_of_seqZ. split; [naive_solver|].
    intros H. split; [done|]. apply swept_range in H. lia. }
  constructor.
  - congruence.
  - rewrite ss_free0. apply NoDup_app. split_and!; [done| |apply NoDup_filter, NoDup_seqZ].
    intros i Hi%sw_free0 Hsw%Hfil. unfold swept in Hsw. by rewrite Hi in Hsw.
  - intros i. destruct (Hget i) as [-> _]. rewrite ss_free0, elem_of_app, Hfil, sw_free0.
    destruct (swept keep slots i); naive_solver.
  - intros i g. destruct (Hget i) as [_ ->]. destruct (swept keep slots i); [|by apply sw_gens0].
    destruct (zget gens i) eqn:Hg; [|done]. intros [= <-]. eapply next_generation_bound, sw_gens0; eauto.
  - congruence.
Qed.

(** ** Bytes held *)
Section bytes.
  Context {E : Type} (bs : E → Z).

(** The bytes of slot [i], and of all occupied slots. *)
Definition slot_bytes_at (slots : list (option E)) (i : Z) : Z :=
  match zget slots i with Some (Some e) => bs e | _ => 0 end.
Definition arena_bytes (slots : list (option E)) : Z :=
  zsum (slot_bytes_at slots) (seqZ 0 (zlen slots)).

Lemma arena_bytes_nonneg slots : (∀ e, 0 ≤ bs e) → 0 ≤ arena_bytes slots.
Proof.
  intros H. apply zsum_nonneg. intros i _. unfold slot_bytes_at.
  destruct (zget slots i) as [[]|]; auto; lia.
Qed.

Lemma swept_entries_bytes keep slots ks :
  zsum bs (swept_entries keep slots ks)
  = zsum (λ i, if swept keep slots i then slot_bytes_at slots i else 0) ks.
Proof.
  unfold swept_entries. induction ks as [|i ks IH]; [done|]. cbn.
  destruct (swept keep slots i) eqn:Hsw; [|by rewrite IH].
  apply swept_Some in Hsw as (o & Ho & _). unfold slot_bytes_at. rewrite Ho. cbn. by rewrite IH.
Qed.

Lemma arena_bytes_sweep {A} keep (acct : A → E → A) slots gens free acc slots' gens' free' acc' :
  sweep_spec keep acct (seqZ 0 (zlen slots)) (slots, gens, free, acc) (slots', gens', free', acc') →
  arena_bytes slots = arena_bytes slots' + zsum bs (swept_entries keep slots (seqZ 0 (zlen slots))).
Proof.
  intros Hspec. pose proof (λ i, sweep_full_get _ _ _ _ _ _ _ _ _ _ i Hspec) as Hget.
  destruct Hspec. cbn in *.
  rewrite swept_entries_bytes. unfold arena_bytes. rewrite ss_len0, <- zsum_add.
  apply zsum_ext. intros i _. unfold slot_bytes_at at 1 2. destruct (Hget i) as [-> _].
  destruct (swept _ _ i) eqn:Hi; [|lia]. unfold slot_bytes_at. lia.
Qed.

Lemma arena_bytes_insert slots i o :
  zget slots i = Some None → arena_bytes (<[Z.to_nat i := Some o]> slots) = arena_bytes slots + bs o.
Proof.
  intros Hi. pose proof (zget_Some _ _ _ Hi) as Hr. unfold arena_bytes. rewrite zlen_insert.
  rewrite (zsum_update (slot_bytes_at slots) _ _ i).
  - unfold slot_bytes_at. rewrite zget_insert_eq, Hi by done. lia.
  - apply NoDup_seqZ.
  - apply elem_of_seqZ. lia.
  - intros j _ ?. unfold slot_bytes_at. by rewrite zget_insert_ne by lia.
Qed.
Lemma arena_bytes_push slots o : arena_bytes (slots ++ [Some o]) = arena_bytes slots + bs o.
Proof.
  unfold arena_bytes. pose proof (zlen_nonneg slots).
  replace (zlen (slots ++ [Some o])) with (zlen slots + 1) by zlen_solve.
  rewrite (seqZ_app 0 (zlen slots) 1), zsum_app, Z.add_0_l by lia.
  f_equal.
  - apply zsum_ext. intros i [_ ?]%elem_of_seqZ. unfold slot_bytes_at. by rewrite zget_app_l by lia.
  - rewrite seqZ_cons, seqZ_nil by lia. cbn. unfold slot_bytes_at. rewrite zget_app_r by lia.
    rewrite Z.sub_diag, zget_cons_0. lia.
Qed.
End bytes.

(** ** Allocation *)
Lemma vec_pop_wf {E} (slots : list (option E)) gens free free' i e :
  slots_wf slots gens free → vec_pop free = Some (free', i) →
  0 ≤ i < zlen slots ∧ zget slots i = Some None ∧ slots_wf (<[Z.to_nat i := Some e]> slots) gens free'.
Proof.
  intros [] ->%vec_pop_Some.
  assert (zget slots i = Some None) as Hi by (apply sw_free0; set_solver).
  pose proof (zget_Some _ _ _ Hi). split_and!; [lia..|done|].
  apply NoDup_app in sw_nodup0 as (Hnd & Hdis & _).
  constructor; rewrite ?zlen_insert; try done.
  intros j. destruct (decide (i = j)) as [->|Hne].
  - rewrite zget_insert_eq by lia. split; [|done]. intros Hj. destruct (Hdis j Hj). set_solver.
  - rewrite zget_insert_ne by lia. rewrite <- sw_free0. set_solver.
Qed.

Lemma push_wf {E} (slots : list (option E)) gens free e :
  slots_wf slots gens free → zlen slots + 1 < 2 ^ 32 →
  slots_wf (slots ++ [Some e]) (gens ++ [0]) free.
Proof.
  intros [] Hs. constructor; try done; try zlen_solve.
  - intros i. rewrite sw_free0. destruct (decide (i < zlen slots)).
    + by rewrite zget_app_l.
    + rewrite zget_app_r by lia. rewrite zget_None by lia.
      destruct (decide (i = zlen slots)) as [->|]; [by rewrite Z.sub_diag|].
      by rewrite zget_cons_S, zget_nil by lia.
  - intros i g. destruct (decide (i < zlen gens)).
    + rewrite zget_app_l by done. apply sw_gens0.
    + rewrite zget_app_r by lia. destruct (decide (i = zlen gens)) as [->|].
      * rewrite Z.sub_diag. intros [= <-]. unfold u_max. lia.
      * by rewrite zget_cons_S, zget_nil by lia.
Qed.

(** ** The interface of a generational arena

    What a handle check may rely on: one step of the arena leaves a slot's
    generation alone, or frees the live slot and bumps it. *)
Class GenArena (T : Type) := {
  ga_wf : T → Prop;
  ga_step : T → T → Prop;
  ga_live : T → Z → bool;
  ga_generation : T → Z → option Z;
  ga_step_wf : ∀ a a', ga_wf a → ga_step a a' → ga_wf a';
  ga_gen_bound : ∀ a i g, ga_wf a → ga_generation a i = Some g → 0 ≤ g < u_max 32;
  ga_step_gen : ∀ a a' i g, ga_wf a → ga_step a a' → ga_generation a i = Some g →
    (ga_generation a' i = Some g ∧ (ga_live a i = true → ga_live a' i = true)) ∨
    (ga_live a i = true ∧ ga_live a' i = false ∧ ga_generation a' i = Some (next_generation g));
}.

(** A history of the arena, counting how often it freed slot [i]. *)
Inductive ga_history {T} `{GenArena T} (i : Z) : Z → T → T → Prop :=
  | gh_refl a : ga_history i 0 a a
  | gh_keep n a a' a'' : ga_history i n a a' → ga_step a' a'' →
      (ga_live a' i = true → ga_live a'' i = true) → ga_history i n a a''
  | gh_free n a a' a'' : ga_history i n a a' → ga_step a' a'' →
      ga_live a' i = true → ga_live a'' i = false → ga_history i (n + 1) a a''.

Lemma ga_history_wf {T} `{GenArena T} i n a a' : ga_wf a → ga_history i n a a' → ga_wf a' ∧ 0 ≤ n.
Proof.
  intros Hwf. induction 1 as [|n a a1 a2 _ IH Hstep|n a a1 a2 _ IH Hstep]; [done|..];
    destruct (IH Hwf); (split; [by eapply ga_step_wf|lia]).
Qed.

(** A slot's generation counts its frees, modulo the cycle length; it is still
    the entity it held at the start only if it was never freed. *)
Lemma ga_history_gen {T} `{GenArena T} i n a a' g :
  ga_wf a → ga_generation a i = Some g → ga_history i n a a' →
  ga_generation a' i = Some ((g + n) mod u_max 32) ∧
  (n = 0 → ga_live a i = true → ga_live a' i = true).
Proof.
  intros Hwf Hg. induction 1 as [a|n a a1 a2 Hh IH Hstep Hlive|n a a1 a2 Hh IH Hstep Hl1 Hl2].
  - rewrite Z.add_0_r, Z.mod_small; [done|]. by eapply ga_gen_bound.
  - destruct (ga_history_wf _ _ _ _ Hwf Hh) as [Hwf1 ?]. destruct (IH Hwf Hg) as [Hg1 Hl].
    destruct (ga_step_gen a1 a2 i _ Hwf1 Hstep Hg1) as [[-> ?]|(H1 & H2 & _)]; [naive_solver|].
    rewrite H2 in Hlive. naive_solver.
  - destruct (ga_history_wf _ _ _ _ Hwf Hh) as [Hwf1 ?]. destruct (IH Hwf Hg) as [Hg1 Hl].
    split; [|lia].
    destruct (ga_step_gen a1 a2 i _ Hwf1 Hstep Hg1) as [[_ ?]|(H1 & H2 & ->)]; [naive_solver congruence|].
    f_equal. rewrite next_generation_mod by (apply Z.mod_pos_bound; unfold u_max; lia).
    rewrite Z.add_mod_idemp_l by (unfold u_max; lia). f_equal. lia.
Qed.

(** ** Handle checks (src/src/value/gc_ref.rs, src/src/store/inner.rs) *)

(** [StoreInner::check_handle]: cross-store misuse panics. *)
Definition check_handle (store_id store : Z) : res unit :=
  if (store =? 0) || (store =? store_id) then Ok tt
  else Panic "handle used with the wrong store (cross-store misuse)".

Definition belongs_to_store (store_id : Z) (r : Rooted) : bool :=
  (r_store r =? UNCHECKED_STORE) || (r_store r =? store_id).

Definition checked (store_id : Z) (r : Rooted) (current_generation : option Z) : res Z :=
  _ ← check_handle store_id (r_store r);
  match current_generation with
  | None => Err (EMsg "stale reference (object was collected)")
  | Some g =>
      if negb (r_generation r =? UNCHECKED_GENERATION) && negb (g =? r_generation r)
      then Err (EMsg "stale reference (object was collected)")
      else Ok (r_index r)
  end.

(** C14: stale handles.  A host handle captured with a slot's generation, checked after
    any history of the arena that freed the slot fewer than [2^32 - 1] times,
    is accepted exactly when the slot was never freed, and is otherwise the
    stale-reference error: it never aliases a recycled slot. *)
Theorem stale_handle_rejected {T} `{GenArena T} store_id arena i n (a a' : T) g :
  ga_wf a → ga_generation a i = Some g → ga_history i n a a' → n < u_max 32 →
  checked store_id (rooted_from_raw_gen i g store_id arena) (ga_generation a' i) =
  if n =? 0 then Ok i else Err (EMsg "stale reference (object was collected)").
Proof.
  intros Hwf Hg Hh Hn. destruct (ga_history_gen _ _ _ _ _ Hwf Hg Hh) as [-> _].
  destruct (ga_history_wf _ _ _ _ Hwf Hh) as [_ Hpos].
  pose proof (ga_gen_bound _ _ _ Hwf Hg) as Hb.
  unfold checked, check_handle. cbn. rewrite Z.eqb_refl, orb_true_r. cbn.
  change UNCHECKED_GENERATION with (u_max 32).
  destruct (Z.eqb_spec g (u_max 32)); [lia|]. cbn.
  destruct (Z.eqb_spec n 0) as [->|].
  - rewrite Z.add_0_r, Z.mod_small, Z.eqb_refl by done. done.
  - destruct (Z.eqb_spec ((g + n) mod u_max 32) g) as [Heq|]; [|done].
    exfalso. unfold u_max in *. revert Heq. Z.div_mod_to_equations. lia.
Qed.

(** ** [ReclaimArena] is a generational arena *)
Definition reclaim_wf {E} (a : ReclaimArena E) : Prop :=
  slots_wf (ra_slots a) (ra_generations a) (ra_free a).

Definition reclaim_live {E} (a : ReclaimArena E) (i : Z) : bool :=
  match reclaim_get a i with Some _ => true | None => false end.

(** Mutations of the arena: an allocation (the table stays below [2^32] slots)
    or a sweep. *)
Inductive reclaim_step {E} (a : ReclaimArena E) : ReclaimArena E → Prop :=
  | rs_alloc e i a' : zlen (ra_slots a) + 1 < 2 ^ 32 →
      reclaim_alloc e a = (Ok i, a') → reclaim_step a a'
  | rs_sweep live byte_of freed a' :
      reclaim_sweep live byte_of a = (Ok freed, a') → reclaim_step a a'.

Lemma foldl_add_sum {E} (bs : E → Z) l a : foldl (λ f e, f + bs e) a l = a + zsum bs l.
Proof. revert a. induction l as [|e l IH]; intros a; cbn; [lia|]. rewrite IH. lia. Qed.

(** Allocation returns a slot that held nothing, stores the entity there, and
    leaves every other entry and every existing generation as they were. *)
Lemma reclaim_alloc_spec {E} (e : E) a :
  reclaim_wf a → zlen (ra_slots a) + 1 < 2 ^ 32 →
  ∃ i a', reclaim_alloc e a = (Ok i, a') ∧ reclaim_wf a' ∧
    reclaim_get a i = None ∧ reclaim_get a' i = Some e ∧
    (∀ j, j ≠ i → reclaim_get a' j = reclaim_get a j) ∧
    (∀ j g, reclaim_generation a j = Some g → reclaim_generation a' j = Some g).
Proof.
  intros Hwf Hs. unfold reclaim_alloc, reclaim_get, reclaim_generation.
  destruct (vec_pop (ra_free a)) as [[free' i]|] eqn:Hpop.
  - destruct (vec_pop_wf _ _ _ _ _ e Hwf Hpop) as (Hi & Hfree & Hwf').
    unfold zset. destruct (Z.leb_spec 0 i), (Z.ltb_spec i (zlen (ra_slots a))); try lia. cbn.
    eexists _, _; split; [done|]. cbn. split; [exact Hwf'|].
    rewrite Hfree, zget_insert_eq by done. split_and!; try done.
    intros j ?. by rewrite zget_insert_ne by lia.
  - rewrite wrap_id by (unfold u_ok; pose proof (zlen_nonneg (ra_slots a)); lia).
    eexists _, _; split; [done|]. cbn. split; [by apply push_wf|].
    rewrite (zget_None _ (zlen _)) by lia. rewrite zget_app_r, Z.sub_diag by lia.
    split_and!; try done.
    + intros j ?. destruct (decide (j < zlen (ra_slots a))).
      * by rewrite zget_app_l.
      * rewrite zget_app_r, (zget_None (ra_slots a)) by lia.
        by rewrite zget_cons_S, zget_nil by lia.
    + intros j g Hg. pose proof (zget_Some _ _ _ Hg). by rewrite zget_app_l by lia.
Qed.

Lemma reclaim_sweep_inv {E} live byte_of (a a' : ReclaimArena E) freed :
  reclaim_wf a → reclaim_sweep live byte_of a = (Ok freed, a') →
  sweep_spec (λ i, live (wrap 32 i)) (λ f e, f + byte_of e) (seqZ 0 (zlen (ra_slots a)))
    (ra_slots a, ra_generations a, ra_free a, 0) (ra_slots a', ra_generations a', ra_free a', freed).
Proof.
  intros Hwf. unfold reclaim_sweep.
  destruct (sweep_full (λ i, live (wrap 32 i)) (λ f e, f + byte_of e) _ _ _ 0 Hwf)
    as (? & ? & ? & ? & -> & Hs).
  by intros [= <- <-].
Qed.

(** A sweep keeps exactly the live entries and returns the bytes it freed. *)
Lemma reclaim_sweep_spec {E} live byte_of (a : ReclaimArena E) :
  reclaim_wf a →
  ∃ freed a', reclaim_sweep live byte_of a = (Ok freed, a') ∧ reclaim_wf a' ∧
    arena_bytes byte_of (ra_slots a) = arena_bytes byte_of (ra_slots a') + freed ∧
    ((∀ e, 0 ≤ byte_of e) → 0 ≤ freed) ∧
    ∀ i, reclaim_get a' i = (if live i then reclaim_get a i else None) ∧
      reclaim_generation a' i = if reclaim_live a i && negb (live i)
                                then next_generation <$> reclaim_generation a i
                                else reclaim_generation a i.
Proof.
  intros Hwf.
  assert (∃ freed a', reclaim_sweep live byte_of a = (Ok freed, a')) as (freed & a' & Ha).
  { unfold reclaim_sweep.
    destruct (sweep_full (λ i, live (wrap 32 i)) (λ f e, f + byte_of e) _ _ _ 0 Hwf)
      as (? & ? & ? & ? & -> & _). eauto. }
  exists freed, a'. pose proof (reclaim_sweep_inv _ _ _ _ _ Hwf Ha) as Hspec.
  split; [done|]. split; [by eapply sweep_wf|]. split.
  - rewrite (arena_bytes_sweep byte_of _ _ _ _ _ _ _ _ _ _ Hspec). f_equal.
    destruct Hspec. cbn in *. rewrite ss_acc0, foldl_add_sum. lia.
  - split.
    { intros Hb. destruct Hspec. cbn in *. rewrite ss_acc0, foldl_add_sum. apply zsum_nonneg. auto. }
    intros i. destruct (sweep_full_get _ _ _ _ _ _ _ _ _ _ i Hspec) as [Hs Hg].
    assert (swept (λ i, live (wrap 32 i)) (ra_slots a) i = reclaim_live a i && negb (live i)) as Hsw.
    { unfold swept, reclaim_live, reclaim_get. destruct (zget (ra_slots a) i) as [[e|]|] eqn:Hi; try done.
      apply zget_Some in Hi. destruct Hwf. cbn. rewrite wrap_id by (unfold u_ok; lia). done. }
    unfold reclaim_get, reclaim_generation in *. rewrite Hs, Hg, Hsw. split; [|done].
    unfold reclaim_live, reclaim_get. destruct (zget (ra_slots a) i) as [[]|], (live i); done.
Qed.

#[export, refine] Instance reclaim_gen_arena {E} : GenArena (ReclaimArena E) := {|
  ga_wf := reclaim_wf;
  ga_step := reclaim_step;
  ga_live := reclaim_live;
  ga_generation := reclaim_generation;
|}.
Proof.
  - intros a a' Hwf [e i ? Hs H|live byte_of freed ? H].
    + destruct (reclaim_alloc_spec e a Hwf Hs) as (? & ? & H' & ? & _). congruence.
    + eapply sweep_wf, reclaim_sweep_inv; done.
  - intros a i g [] Hg. eapply sw_gens0, Hg.
  - intros a a' i g Hwf [e j ? Hs H|live byte_of freed ? H] Hg.
    + left. destruct (reclaim_alloc_spec e a Hwf Hs) as (k & a1 & H' & _ & Hn & Hk & Hne & Hgen).
      rewrite H in H'. injection H' as -> ->. split; [by apply Hgen|].
      unfold reclaim_live. destruct (decide (i = k)) as [->|]; [by rewrite Hk|by rewrite Hne].
    + apply reclaim_sweep_inv in H; [|done].
      destruct (sweep_full_get _ _ _ _ _ _ _ _ _ _ i H) as [Hs Hg'].
      unfold reclaim_live, reclaim_get, reclaim_generation in *. rewrite Hg', Hs, Hg.
      destruct (swept _ (ra_slots a) i) eqn:Hsw; [right|by left].
      apply swept_Some in Hsw as (e & -> & _). done.
Defined.

Lemma slots_wf_single {E} (e : E) g : 0 ≤ g < u_max 32 → slots_wf [Some e] [g] [].
Proof.
  intros Hg. constructor; try done; try apply NoDup_nil_2.
  - intros i. unfold zget. destruct (0 <=? i); [|set_solver]. destruct (Z.to_nat i) as [|[]]; set_solver.
  - intros i x. unfold zget. destruct (0 <=? i); [|done].
    destruct (Z.to_nat i) as [|[]]; cbn; naive_solver.
Qed.

(** A one-slot arena: the entity is captured at generation 0, swept, and the slot
    recycled for another entity; the old handle is refused. *)
Lemma stale_handle_rejected_witness :
  let a0 := {| ra_slots := [Some 10]; ra_generations := [0]; ra_free := [] |} : ReclaimArena Z in
  let a1 := {| ra_slots := [None]; ra_generations := [1]; ra_free := [0] |} : ReclaimArena Z in
  let a2 := {| ra_slots := [Some 20]; ra_generations := [1]; ra_free := [] |} : ReclaimArena Z in
  reclaim_sweep (λ _, false) (λ _, 64) a0 = (Ok 64, a1) ∧ reclaim_alloc 20 a1 = (Ok 0, a2) ∧
  checked 7 (rooted_from_raw_gen 0 0 7 RkExtern) (reclaim_generation a2 0)
  = Err (EMsg "stale reference (object was collected)").
Proof.
  intros a0 a1 a2. split_and!; [reflexivity..|].
  assert (H1 : reclaim_sweep (λ _, false) (λ _, 64) a0 = (Ok 64, a1)) by reflexivity.
  assert (H2 : reclaim_alloc 20 a1 = (Ok 0, a2)) by reflexivity.
  refine (@stale_handle_rejected (ReclaimArena Z) reclaim_gen_arena 7 RkExtern 0 (0 + 1) a0 a2 0 _ _ _ _).
  - apply slots_wf_single. unfold u_max. lia.
  - reflexivity.
  - eapply (gh_keep _ _ _ a1).
    + eapply (gh_free _ _ _ a0); [apply gh_refl|eapply rs_sweep, H1|reflexivity|reflexivity].
    + eapply rs_alloc; [vm_compute; reflexivity|exact H2].
    + discriminate.
  - reflexivity.
Defined.
