(* ===== verification/Heap.v ===== *)
(** * Heap: the managed object heap (src/src/store/gc.rs)

    [GcHeap] with its free list, generations, byte accounting and mark bitmap,
    one definition per method.  The heap is the second instance of
    [Arena.GenArena]. *)
From S2P Require Import Prelude Types Layout Codec Arena.

Definition ABORT_SAFETY_CAP : Z := Z.shiftl 1 30.
Definition RESERVE_BATCH : Z := 64 * 1024.

Inductive ObjKind := ObjStruct | ObjArray | ObjExtern.
#[export] Instance ObjKind_eq_dec : EqDecision ObjKind.
Proof. solve_decision. Defined.

Record GcObject : Type := { obj_type : Z; obj_kind : ObjKind; obj_data : list Z }.

Definition new_struct (type_id : Z) (data : list Z) : GcObject :=
  {| obj_type := type_id; obj_kind := ObjStruct; obj_data := data |}.
Definition new_array (type_id : Z) (data : list Z) : GcObject :=
  {| obj_type := type_id; obj_kind := ObjArray; obj_data := data |}.
Definition extern_wrapper (idx : Z) : GcObject :=
  {| obj_type := u_max 32; obj_kind := ObjExtern; obj_data := to_le_bytes 4 idx |}.

Definition extern_index (o : GcObject) : option Z :=
  match obj_kind o with
  | ObjExtern => match zslice (obj_data o) 0 4 with
                 | Some b => Some (from_le_bytes b)
                 | None => None
                 end
  | ObjStruct | ObjArray => None
  end.

Definition array_len (o : GcObject) (stride : Z) : Z := wrap 32 (zlen (obj_data o) / Z.max stride 1).

(** [size_of::<Option<GcObject>>() + size_of::<u32>() + 16]: the object is an
    8-byte header and a 16-byte boxed slice whose niche holds the [None]. *)
Definition OBJECT_OVERHEAD : Z := 24 + 4 + 16.
Definition object_charge (data_len : Z) : Z := saturating_add usize_bits OBJECT_OVERHEAD data_len.
Definition byte_size (o : GcObject) : Z := object_charge (zlen (obj_data o)).

Record GcHeap : Type := {
  gc_slots : list (option GcObject);
  gc_generations : list Z;
  gc_free : list Z;
  gc_used : Z;
  gc_reserved : Z;
  gc_reservation : Z;
  gc_next_grow : Z;
  gc_marks : list Z;
  gc_collecting : bool;
}.

Definition gc_new (collecting : bool) (reservation : Z) : GcHeap :=
  {| gc_slots := []; gc_generations := []; gc_free := []; gc_used := 0; gc_reserved := 0;
     gc_reservation := Z.min reservation ABORT_SAFETY_CAP; gc_next_grow := RESERVE_BATCH;
     gc_marks := []; gc_collecting := collecting |}.

(** The limiter's side of the heap: everything but the objects and the account. *)
Definition gc_budget (h : GcHeap) : Z * Z * Z * bool :=
  (gc_reserved h, gc_reservation h, gc_next_grow h, gc_collecting h).

(** Field updates. *)
Definition set_used (u : Z) (h : GcHeap) : GcHeap :=
  {| gc_slots := gc_slots h; gc_generations := gc_generations h; gc_free := gc_free h; gc_used := u;
     gc_reserved := gc_reserved h; gc_reservation := gc_reservation h;
     gc_next_grow := gc_next_grow h; gc_marks := gc_marks h; gc_collecting := gc_collecting h |}.
Definition set_marks (m : list Z) (h : GcHeap) : GcHeap :=
  {| gc_slots := gc_slots h; gc_generations := gc_generations h; gc_free := gc_free h; gc_used := gc_used h;
     gc_reserved := gc_reserved h; gc_reservation := gc_reservation h;
     gc_next_grow := gc_next_grow h; gc_marks := m; gc_collecting := gc_collecting h |}.
Definition set_table (s : list (option GcObject)) (g f : list Z) (h : GcHeap) : GcHeap :=
  {| gc_slots := s; gc_generations := g; gc_free := f; gc_used := gc_used h;
     gc_reserved := gc_reserved h; gc_reservation := gc_reservation h;
     gc_next_grow := gc_next_grow h; gc_marks := gc_marks h; gc_collecting := gc_collecting h |}.

Definition charge (bytes : Z) (h : GcHeap) : GcHeap :=
  set_used (saturating_add usize_bits (gc_used h) bytes) h.
Definition credit (bytes : Z) (h : GcHeap) : GcHeap := set_used (saturating_sub (gc_used h) bytes) h.

Definition is_free_grant (h : GcHeap) (target : Z) : bool := target <=? gc_reservation h.
Definition footprint_over_floor (h : GcHeap) : bool := RESERVE_BATCH <=? gc_used h.

Definition fits (h : GcHeap) (size : Z) : bool :=
  match checked_add usize_bits (gc_used h) size with
  | Some n => n <=? gc_reserved h
  | None => false
  end.

Definition unreserved_ceiling (h : GcHeap) : Z :=
  Z.max (Z.max (gc_reserved h) (gc_reservation h)) ABORT_SAFETY_CAP.

Definition can_fit_limit (h : GcHeap) (size : Z) : bool :=
  match checked_add usize_bits (gc_used h) size with
  | Some n => n <=? unreserved_ceiling h
  | None => false
  end.

Definition desired_reservation (h : GcHeap) (size : Z) : Z :=
  let need := saturating_add usize_bits (gc_used h) size in
  Z.max (saturating_add usize_bits (gc_reserved h) (gc_next_grow h)) need.

Definition grant (target : Z) (h : GcHeap) : Z * GcHeap :=
  let old := gc_reserved h in
  let step_cap := Z.max (gc_reservation h) RESERVE_BATCH in
  (saturating_sub target old,
   {| gc_slots := gc_slots h; gc_generations := gc_generations h; gc_free := gc_free h;
      gc_used := gc_used h; gc_reserved := target; gc_reservation := gc_reservation h;
      gc_next_grow := Z.min (saturating_mul usize_bits (gc_next_grow h) 2) step_cap;
      gc_marks := gc_marks h; gc_collecting := gc_collecting h |}).

Definition gc_alloc (object : GcObject) (h : GcHeap) : res Z * GcHeap :=
  let size := byte_size object in
  match vec_pop (gc_free h) with
  | Some (free', index) =>
      match zset (gc_slots h) index (Some object) with
      | Some slots' =>
          (Ok index, set_used (saturating_add usize_bits (gc_used h) size)
                       (set_table slots' (gc_generations h) free' h))
      | None => (Panic "index out of bounds", set_table (gc_slots h) (gc_generations h) free' h)
      end
  | None =>
      if NULL_REF <=? zlen (gc_slots h) then (Err (ETrap AllocationTooLarge), h)
      else
        let index := wrap 32 (zlen (gc_slots h)) in
        (Ok index, set_used (saturating_add usize_bits (gc_used h) size)
           (set_table (gc_slots h ++ [Some object]) (gc_generations h ++ [0]) (gc_free h) h))
  end.

Definition alloc_unreserved (object : GcObject) (h : GcHeap) : res Z * GcHeap :=
  if can_fit_limit h (byte_size object) then gc_alloc object h
  else (Err (ETrap AllocationTooLarge), h).

Definition check_capacity (h : GcHeap) (extra_bytes : Z) : res unit :=
  if can_fit_limit h extra_bytes then Ok tt else Err (ETrap AllocationTooLarge).

Definition gc_get (h : GcHeap) (index : Z) : option GcObject := slot ← zget (gc_slots h) index; slot.
Definition gc_generation (h : GcHeap) (index : Z) : option Z := zget (gc_generations h) index.

Definition mark_bit (i : Z) : Z := Z.shiftl 1 (i mod 64).

(** The bitmap test of [sweep]. *)
Definition marked (h : GcHeap) (i : Z) : bool :=
  match zget (gc_marks h) (i / 64) with
  | Some word => negb (Z.land word (mark_bit i) =? 0)
  | None => false
  end.

Definition mark (index : Z) (h : GcHeap) : bool * GcHeap :=
  match gc_get h index with
  | None => (false, h)
  | Some _ =>
      let word := index / 64 in
      let bit := mark_bit index in
      let marks := if zlen (gc_marks h) <=? word
                   then gc_marks h ++ replicate (Z.to_nat (word + 1 - zlen (gc_marks h))) 0
                   else gc_marks h in
      match zget marks word with
      | Some w =>
          if negb (Z.land w bit =? 0) then (false, set_marks marks h)
          else (true, set_marks (<[Z.to_nat word := Z.lor w bit]> marks) h)
      | None => (false, set_marks marks h)
      end
  end.

Definition clear_marks (h : GcHeap) : GcHeap := set_marks [] h.

Definition gc_sweep (h : GcHeap) : res unit * GcHeap :=
  match sweep_go (marked h) (λ used o, saturating_sub used (byte_size o)) (seqZ 0 (zlen (gc_slots h)))
          (gc_slots h, gc_generations h, gc_free h, gc_used h) with
  | Some (s, g, f, used) => (Ok tt, clear_marks (set_used used (set_table s g f h)))
  | None => (Panic "index out of bounds", h)
  end.

(** ** Invariant *)

Record heap_wf (h : GcHeap) : Prop := {
  hw_slots : slots_wf (gc_slots h) (gc_generations h) (gc_free h);
  hw_handles : zlen (gc_slots h) ≤ NULL_REF;
}.

Definition gc_live (h : GcHeap) (i : Z) : bool :=
  match gc_get h i with Some _ => true | None => false end.

Lemma heap_wf_new c r : heap_wf (gc_new c r).
Proof.
  constructor; [|done]. constructor; cbn; try done; try by constructor.
  - intros i. rewrite zget_nil. set_solver.
  - intros i g. by rewrite zget_nil.
Qed.

Lemma gc_get_range h i o : gc_get h i = Some o → 0 ≤ i < zlen (gc_slots h).
Proof.
  unfold gc_get. destruct (zget (gc_slots h) i) eqn:Hi; [|done]. intros _. by apply zget_Some in Hi.
Qed.

(** ** Allocation *)

(** One run of [alloc]: the handle space is exhausted, or a slot that held
    nothing now holds the object, with the rest of the heap as it was. *)
Lemma gc_alloc_spec o h :
  heap_wf h →
  (gc_alloc o h = (Err (ETrap AllocationTooLarge), h) ∧ gc_free h = [] ∧ zlen (gc_slots h) = NULL_REF) ∨
  ∃ i h', gc_alloc o h = (Ok i, h') ∧ heap_wf h' ∧ 0 ≤ i < NULL_REF ∧
    gc_get h i = None ∧ gc_get h' i = Some o ∧
    (∀ j, j ≠ i → gc_get h' j = gc_get h j) ∧
    (∀ j g, gc_generation h j = Some g → gc_generation h' j = Some g) ∧
    gc_used h' = saturating_add usize_bits (gc_used h) (byte_size o) ∧
    gc_marks h' = gc_marks h ∧ gc_reserved h' = gc_reserved h ∧
    zlen (gc_slots h) ≤ zlen (gc_slots h') ≤ Z.max (zlen (gc_slots h)) (i + 1).
Proof.
  intros [Hwf Hs]. unfold gc_alloc, gc_get, gc_generation.
  destruct (vec_pop (gc_free h)) as [[free' i]|] eqn:Hpop.
  - right. destruct (vec_pop_wf _ _ _ _ _ o Hwf Hpop) as (Hi & Hfree & Hwf').
    unfold zset. destruct (Z.leb_spec 0 i), (Z.ltb_spec i (zlen (gc_slots h))); try lia. cbn.
    eexists _, _; split; [done|]. cbn. split; [constructor; [exact Hwf'|cbn; by rewrite zlen_insert]|].
    rewrite Hfree, zget_insert_eq, zlen_insert by done. split_and!; try done; try lia.
    intros j ?. by rewrite zget_insert_ne by lia.
  - destruct (Z.leb_spec NULL_REF (zlen (gc_slots h))) as [Hle|Hlt].
    { left. split_and!; [done|by apply vec_pop_None|lia]. }
    right. pose proof (zlen_nonneg (gc_slots h)).
    rewrite wrap_id by (unfold u_ok, NULL_REF in *; lia).
    eexists _, _; split; [done|]. cbn.
    rewrite (zget_None _ (zlen _)) by lia. rewrite zget_app_r, Z.sub_diag by lia.
    split_and!; try done; try zlen_solve.
    + constructor; cbn; [apply push_wf; [done|unfold NULL_REF in *; lia]|zlen_solve].
    + intros j ?. destruct (decide (j < zlen (gc_slots h))).
      * by rewrite zget_app_l.
      * rewrite zget_app_r, (zget_None (gc_slots h)) by lia.
        by rewrite zget_cons_S, zget_nil by lia.
    + intros j g Hg. pose proof (zget_Some _ _ _ Hg). by rewrite zget_app_l by lia.
Qed.

(** ** Marking *)
Lemma mark_bit_spec i j : 0 ≤ i → 0 ≤ j < 64 → Z.testbit (mark_bit i) j = (j =? i mod 64).
Proof.
  intros Hi Hj. unfold mark_bit. rewrite Z.shiftl_1_l.
  pose proof (Z.mod_pos_bound i 64 ltac:(lia)).
  destruct (Z.eqb_spec j (i mod 64)) as [->|Hne]; [apply Z.pow2_bits_true; lia|].
  apply Z.pow2_bits_false. lia.
Qed.

Lemma land_mark_bit w i : 0 ≤ i → negb (Z.land w (mark_bit i) =? 0) = Z.testbit w (i mod 64).
Proof.
  intros Hi. pose proof (Z.mod_pos_bound i 64 ltac:(lia)) as Hm.
  destruct (Z.testbit w (i mod 64)) eqn:Hb.
  - apply negb_true_iff, Z.eqb_neq. intros H0.
    apply (f_equal (λ z, Z.testbit z (i mod 64))) in H0.
    rewrite Z.land_spec, Hb, mark_bit_spec, Z.eqb_refl, Z.bits_0 in H0 by lia. done.
  - apply negb_false_iff, Z.eqb_eq. apply Z.bits_inj'. intros n Hn.
    rewrite Z.land_spec, Z.bits_0. unfold mark_bit. rewrite Z.shiftl_1_l.
    destruct (decide (n = i mod 64)) as [->|]; [by rewrite Hb|].
    rewrite Z.pow2_bits_false by lia. by rewrite andb_false_r.
Qed.

Lemma marked_testbit h i : 0 ≤ i →
  marked h i = match zget (gc_marks h) (i / 64) with Some w => Z.testbit w (i mod 64) | None => false end.
Proof. intros. unfold marked. destruct (zget (gc_marks h) (i / 64)); [|done]. by apply land_mark_bit. Qed.

Lemma zget_pad (l : list Z) n i :
  match zget (l ++ replicate n 0) i with Some w => w | None => 0 end
  = match zget l i with Some w => w | None => 0 end.
Proof.
  destruct (decide (i < zlen l)); [by rewrite zget_app_l|].
  rewrite zget_app_r, (zget_None l) by lia.
  destruct (zget (replicate n 0) (i - zlen l)) eqn:Hr; [|done].
  unfold zget in Hr. destruct (0 <=? i - zlen l); [|done]. by apply lookup_replicate in Hr as [-> _].
Qed.

(** [mark] reports whether a live slot was newly marked, and afterwards exactly
    that slot's bit was added. *)
Lemma mark_spec h i b h' :
  0 ≤ i → mark i h = (b, h') →
  b = gc_live h i && negb (marked h i) ∧
  (∀ j, 0 ≤ j → marked h' j = marked h j || (gc_live h i && (j =? i))) ∧
  ∃ m, h' = set_marks m h.
Proof.
  intros Hi. unfold mark, gc_live. destruct (gc_get h i) as [o|]; cycle 1.
  { intros [= <- <-]. split_and!; [done|intros; by rewrite orb_false_r|].
    exists (gc_marks h). by destruct h. }
  cbn [andb].
  set (pad := if zlen (gc_marks h) <=? i / 64 then _ else _).
  assert (∀ k, match zget pad k with Some w => w | None => 0 end
             = match zget (gc_marks h) k with Some w => w | None => 0 end) as Hpad.
  { intros k. unfold pad. destruct (Z.leb_spec (zlen (gc_marks h)) (i / 64)); [apply zget_pad|done]. }
  assert (0 ≤ i / 64) as Hi64 by (apply Z.div_pos; lia).
  assert (i / 64 < zlen pad) as Hlen.
  { unfold pad. destruct (Z.leb_spec (zlen (gc_marks h)) (i / 64)); [|done].
    rewrite zlen_app, zlen_replicate. lia. }
  assert (∀ m j, 0 ≤ j → marked (set_marks m h) j =
    Z.testbit (match zget m (j / 64) with Some w => w | None => 0 end) (j mod 64)) as Hm.
  { intros m j Hj. rewrite marked_testbit by done. cbn. destruct (zget m (j / 64)); [done|]. by rewrite Z.bits_0. }
  assert (∀ j, 0 ≤ j → marked h j =
    Z.testbit (match zget (gc_marks h) (j / 64) with Some w => w | None => 0 end) (j mod 64)) as Hm0.
  { intros j Hj. rewrite <- (Hm (gc_marks h)) by done. by destruct h. }
  destruct (zget_is_Some pad (i / 64)) as [w Hw]; [lia|]. rewrite Hw.
  rewrite land_mark_bit by done.
  assert (marked h i = Z.testbit w (i mod 64)) as Hmi.
  { rewrite Hm0, <- Hpad, Hw by done. done. }
  destruct (Z.testbit w (i mod 64)) eqn:Hb; intros [= <- <-]; rewrite Hmi; (split; [done|split; [|eauto]]);
    intros j Hj; rewrite Hm, Hm0 by done.
  - rewrite Hpad. destruct (Z.eqb_spec j i) as [->|]; [|by rewrite orb_false_r].
    rewrite <- Hpad, Hw, Hb. done.
  - destruct (decide (j / 64 = i / 64)) as [Heq|Hne].
    + rewrite Heq, zget_insert_eq by lia. rewrite Z.lor_spec, <- Hpad, Hw. f_equal.
      pose proof (Z.mod_pos_bound j 64 ltac:(lia)).
      rewrite mark_bit_spec by lia.
      pose proof (Z.div_mod j 64 ltac:(lia)). pose proof (Z.div_mod i 64 ltac:(lia)).
      destruct (Z.eqb_spec (j mod 64) (i mod 64)), (Z.eqb_spec j i); try done; lia || congruence.
    + rewrite zget_insert_ne, Hpad by lia.
      destruct (Z.eqb_spec j i) as [->|]; [done|]. by rewrite orb_false_r.
Qed.

(** ** Sweep *)

(** Bytes held by all live objects. *)
Definition live_bytes (slots : list (option GcObject)) : Z := arena_bytes byte_size slots.

Lemma byte_size_nonneg o : 0 ≤ byte_size o.
Proof.
  unfold byte_size, object_charge, saturating_add, OBJECT_OVERHEAD.
  pose proof (zlen_nonneg (obj_data o)). lia.
Qed.
Lemma live_bytes_nonneg slots : 0 ≤ live_bytes slots.
Proof. apply arena_bytes_nonneg, byte_size_nonneg. Qed.

Lemma foldl_saturating_sub (l : list GcObject) u :
  zsum byte_size l ≤ u → foldl (λ used o, saturating_sub used (byte_size o)) u l = u - zsum byte_size l.
Proof.
  revert u. induction l as [|o l IH]; intros u; cbn; [lia|]. intros H.
  assert (0 ≤ zsum byte_size l) by (apply zsum_nonneg; auto using byte_size_nonneg).
  unfold saturating_sub at 2. rewrite Z.max_l by lia. rewrite IH by lia. lia.
Qed.

(** The sweep: exactly the unmarked objects go, with their generation bumped;
    the marked ones stay; [used] drops by the freed bytes; no mark remains. *)
Lemma gc_sweep_spec h extra :
  heap_wf h → gc_used h = live_bytes (gc_slots h) + extra → 0 ≤ extra →
  ∃ h', gc_sweep h = (Ok tt, h') ∧ heap_wf h' ∧
    (∀ i, gc_get h' i = if marked h i then gc_get h i else None) ∧
    (∀ i, gc_generation h' i = if gc_live h i && negb (marked h i)
                               then next_generation <$> gc_generation h i else gc_generation h i) ∧
    gc_used h' = live_bytes (gc_slots h') + extra ∧
    gc_marks h' = [] ∧ gc_budget h' = gc_budget h ∧ live_bytes (gc_slots h') ≤ live_bytes (gc_slots h).
Proof.
  intros [Hwf Hs] Hu He. unfold gc_sweep.
  edestruct (sweep_full (marked h) (λ used o, saturating_sub used (byte_size o)) _ _ _ (gc_used h) Hwf)
    as (s & g & f & u & -> & Hspec).
  eexists; split; [done|].
  pose proof (λ i, sweep_full_get _ _ _ _ _ _ _ _ _ _ i Hspec) as Hget.
  pose proof (arena_bytes_sweep byte_size _ _ _ _ _ _ _ _ _ _ Hspec) as Hbytes.
  assert (∀ i, swept (marked h) (gc_slots h) i = gc_live h i && negb (marked h i)) as Hsw.
  { intros i. unfold swept, gc_live, gc_get. by destruct (zget (gc_slots h) i) as [[]|]. }
  split_and!; cbn; try done.
  - constructor; [by eapply sweep_wf|]. destruct Hspec. cbn in *. lia.
  - intros i. unfold gc_get. cbn. destruct (Hget i) as [-> _]. rewrite Hsw.
    unfold gc_live, gc_get. by destruct (marked h i), (zget (gc_slots h) i) as [[]|].
  - intros i. unfold gc_generation. cbn. destruct (Hget i) as [_ ->]. by rewrite Hsw.
  - destruct Hspec. cbn in *. rewrite ss_acc.
    assert (live_bytes (gc_slots h) = live_bytes s +
      zsum byte_size (swept_entries (marked h) (gc_slots h) (seqZ 0 (zlen (gc_slots h))))) as Hsum
      by exact Hbytes.
    pose proof (live_bytes_nonneg s).
    rewrite foldl_saturating_sub by lia. lia.
  - pose proof (zsum_nonneg byte_size (swept_entries (marked h) (gc_slots h) (seqZ 0 (zlen (gc_slots h))))
      (λ o _, byte_size_nonneg o)). unfold live_bytes in *. rewrite Hbytes. lia.
Qed.

(** ** Byte accounting *)
(** [used] is the live bytes plus what the externref and exception arenas
    were charged. *)
Definition used_exact (extra : Z) (h : GcHeap) : Prop := gc_used h = live_bytes (gc_slots h) + extra.

Lemma gc_alloc_used extra o h i h' :
  heap_wf h → used_exact extra h → gc_used h + byte_size o < 2 ^ 64 →
  gc_alloc o h = (Ok i, h') → used_exact extra h'.
Proof.
  unfold used_exact. intros Hwf Hu Hb.
  pose proof (gc_alloc_spec o h Hwf) as [(-> & _)|(i' & h'' & Ha & _ & _ & _ & _ & _ & _ & Hu' & _)]; [done|].
  intros H. assert (h'' = h') as -> by congruence.
  rewrite Hu'. unfold saturating_add. rewrite Z.min_l by lia. rewrite Hu.
  revert Ha. unfold gc_alloc. destruct (vec_pop (gc_free h)) as [[free' k]|] eqn:Hpop.
  - destruct (vec_pop_wf _ _ _ _ _ o (hw_slots _ Hwf) Hpop) as (_ & Hk & _).
    destruct (zset _ _ _) as [slots'|] eqn:Hz; [|done]. intros [= <- <-]. cbn.
    apply zset_Some in Hz as [_ ->]. unfold live_bytes. rewrite arena_bytes_insert by done. lia.
  - destruct (_ <=? _); [done|]. intros [= <- <-]. cbn. unfold live_bytes. rewrite arena_bytes_push. lia.
Qed.

(** ** Reservation growth *)

(** Granting the desired reservation makes the allocation fit, adds at least
    one growth step, and keeps the step within its cap. *)
Lemma grant_desired h size added h' :
  0 ≤ size → 0 ≤ gc_used h → 0 ≤ gc_reserved h → 0 ≤ gc_next_grow h →
  gc_used h + size < 2 ^ 64 →
  grant (desired_reservation h size) h = (added, h') →
  fits h' size = true ∧ gc_reserved h' = Z.max (Z.min (gc_reserved h + gc_next_grow h) (u_max 64)) (gc_used h + size) ∧
  gc_next_grow h' ≤ Z.max (gc_reservation h) RESERVE_BATCH ∧
  (gc_reserved h < 2 ^ 64 → added = gc_reserved h' - gc_reserved h).
Proof.
  intros ? ? ? ? ?. unfold grant, desired_reservation. intros [= <- <-]. cbn [gc_reserved gc_next_grow].
  unfold saturating_add, saturating_sub, saturating_mul, fits, checked_add, u_max in *. cbn [gc_used gc_reserved].
  split_and!.
  - destruct (Z.ltb_spec (gc_used h + size) (2 ^ usize_bits)); [|lia]. apply Z.leb_le. lia.
  - lia.
  - lia.
  - intros. lia.
Qed.

(** ** The heap is a generational arena *)
Inductive heap_step (h : GcHeap) : GcHeap → Prop :=
  | hs_alloc o i h' : gc_alloc o h = (Ok i, h') → heap_step h h'
  | hs_mark i h' b : 0 ≤ i → mark i h = (b, h') → heap_step h h'
  | hs_sweep h' : gc_sweep h = (Ok tt, h') → heap_step h h'.

Lemma gc_sweep_table h h' :
  heap_wf h → gc_sweep h = (Ok tt, h') → ∃ u u',
  sweep_spec (marked h) (λ used o, saturating_sub used (byte_size o)) (seqZ 0 (zlen (gc_slots h)))
    (gc_slots h, gc_generations h, gc_free h, u) (gc_slots h', gc_generations h', gc_free h', u').
Proof.
  intros [Hwf Hs]. unfold gc_sweep.
  edestruct (sweep_full (marked h) (λ used o, saturating_sub used (byte_size o)) _ _ _ (gc_used h) Hwf)
    as (s & g & f & u & -> & Hspec).
  intros [= <-]. eauto.
Qed.

#[export, refine] Instance heap_gen_arena : GenArena GcHeap := {|
  ga_wf := heap_wf;
  ga_step := heap_step;
  ga_live := gc_live;
  ga_generation := gc_generation;
|}.
Proof.
  - intros h h' Hwf [o i ? H|i ? b ? H|? H].
    + pose proof (gc_alloc_spec o h Hwf) as [(? & _)|(? & ? & ? & ? & _)]; congruence.
    + apply mark_spec in H as (_ & _ & m & ->); [|done]. by destruct Hwf.
    + destruct (gc_sweep_table _ _ Hwf H) as (u & u' & Hspec). destruct Hwf as [Hwf Hs].
      constructor; [by eapply sweep_wf|]. destruct Hspec. cbn in *. lia.
  - intros h i g [[] _] Hg. eapply sw_gens, Hg.
  - intros h h' i g Hwf [o j ? H|j ? b ? H|? H] Hg.
    + left. pose proof (gc_alloc_spec o h Hwf)
        as [(H' & _)|(k & h1 & H' & _ & _ & Hn & Hk & Hne & Hgen & _)]; [congruence|].
      rewrite H in H'. injection H' as -> ->. split; [by apply Hgen|].
      unfold gc_live. destruct (decide (i = k)) as [->|]; [by rewrite Hk|by rewrite Hne].
    + left. apply mark_spec in H as (_ & _ & m & ->); [|done]. done.
    + destruct (gc_sweep_table _ _ Hwf H) as (u & u' & Hspec).
      destruct (sweep_full_get _ _ _ _ _ _ _ _ _ _ i Hspec) as [Hs Hg'].
      unfold gc_live, gc_get, gc_generation in *. rewrite Hg', Hs, Hg.
      destruct (swept _ (gc_slots h) i) eqn:Hsw; [right|by left].
      apply swept_Some in Hsw as (e & -> & _). done.
Defined.

(** [Rooted::gc_slot_checked]: a handle resolves to a live slot or is refused. *)
Definition gc_slot_checked (store_id : Z) (h : GcHeap) (r : Rooted) : res Z :=
  _ ← check_handle store_id (r_store r);
  slot ← match decode_anyref_handle (r_index r) with
         | HSlot i => match gc_get h i with
                      | Some _ => Ok i
                      | None => Err (EMsg "dangling gc reference")
                      end
         | HI31 _ => Err (EMsg "reference is an i31, not a heap object")
         end;
  if negb (r_generation r =? UNCHECKED_GENERATION)
     && negb (bool_decide (gc_generation h slot = Some (r_generation r)))
  then Err (EMsg "stale gc reference (object was collected)")
  else Ok slot.
