(* ===== verification/Op.v ===== *)
(** * Op: the internal instruction set and the compiled module
    (src/src/module/op.rs, op_types.rs, code.rs, handler.rs, inner.rs)

    [Op] has one constructor per opcode of the flat instruction enum, with its
    immediates; branch edges carry their resolved target and the operand-stack
    fix-up; the vector opcodes ([module/op_simd.rs]) are [SimdOp].
    [ModuleInner] is the parsed module with its code arenas. *)
From S2P Require Import Prelude Types Layout.

(** ** Payload types *)
Record MemArg : Type := { ma_memory : Z; ma_offset : Z }.
Definition BIG_MEMARG : Z := u_max 32.
Record BigMemArg : Type := { bm_memory : Z; bm_offset : Z }.
Record BranchTarget : Type := { bt_ip : Z; bt_keep : Z; bt_pop : Z }.
Record BrTableRange : Type := { btr_base : Z; btr_len : Z }.
Definition NULLABLE_BIT : Z := Z.shiftl 1 31.

Inductive CmpKind := CkEq | CkNe | CkLtS | CkLtU | CkGtS | CkGtU | CkLeS | CkLeU | CkGeS | CkGeU.
#[export] Instance CmpKind_eq_dec : EqDecision CmpKind.
Proof. solve_decision. Defined.

(** The vector instructions ([Op::Simd], a feature of its own). *)
Inductive SimdOp : Type :=
  | SV128Load (mem : MemArg) | SV128Load8x8S (mem : MemArg) | SV128Load8x8U (mem : MemArg)
  | SV128Load16x4S (mem : MemArg) | SV128Load16x4U (mem : MemArg) | SV128Load32x2S (mem : MemArg)
  | SV128Load32x2U (mem : MemArg) | SV128Load8Splat (mem : MemArg) | SV128Load16Splat (mem : MemArg)
  | SV128Load32Splat (mem : MemArg) | SV128Load64Splat (mem : MemArg) | SV128Load32Zero (mem : MemArg)
  | SV128Load64Zero (mem : MemArg) | SV128Store (mem : MemArg) | SV128Load8Lane (mem : MemArg) (lane : Z)
  | SV128Load16Lane (mem : MemArg) (lane : Z) | SV128Load32Lane (mem : MemArg) (lane : Z)
  | SV128Load64Lane (mem : MemArg) (lane : Z) | SV128Store8Lane (mem : MemArg) (lane : Z)
  | SV128Store16Lane (mem : MemArg) (lane : Z) | SV128Store32Lane (mem : MemArg) (lane : Z)
  | SV128Store64Lane (mem : MemArg) (lane : Z) | SV128Const (bits : Z) | SI8x16Shuffle (lanes : list Z)
  | SI8x16ExtractLaneS (lane : Z) | SI8x16ExtractLaneU (lane : Z) | SI8x16ReplaceLane (lane : Z)
  | SI16x8ExtractLaneS (lane : Z) | SI16x8ExtractLaneU (lane : Z) | SI16x8ReplaceLane (lane : Z)
  | SI32x4ExtractLane (lane : Z) | SI32x4ReplaceLane (lane : Z) | SI64x2ExtractLane (lane : Z)
  | SI64x2ReplaceLane (lane : Z) | SF32x4ExtractLane (lane : Z) | SF32x4ReplaceLane (lane : Z)
  | SF64x2ExtractLane (lane : Z) | SF64x2ReplaceLane (lane : Z) | SI8x16Swizzle | SI8x16Splat | SI16x8Splat
  | SI32x4Splat | SI64x2Splat | SF32x4Splat | SF64x2Splat | SI8x16Eq | SI8x16Ne | SI8x16LtS | SI8x16LtU | SI8x16GtS
  | SI8x16GtU | SI8x16LeS | SI8x16LeU | SI8x16GeS | SI8x16GeU | SI16x8Eq | SI16x8Ne | SI16x8LtS | SI16x8LtU
  | SI16x8GtS | SI16x8GtU | SI16x8LeS | SI16x8LeU | SI16x8GeS | SI16x8GeU | SI32x4Eq | SI32x4Ne | SI32x4LtS
  | SI32x4LtU | SI32x4GtS | SI32x4GtU | SI32x4LeS | SI32x4LeU | SI32x4GeS | SI32x4GeU | SI64x2Eq | SI64x2Ne
  | SI64x2LtS | SI64x2GtS | SI64x2LeS | SI64x2GeS | SF32x4Eq | SF32x4Ne | SF32x4Lt | SF32x4Gt | SF32x4Le | SF32x4Ge
  | SF64x2Eq | SF64x2Ne | SF64x2Lt | SF64x2Gt | SF64x2Le | SF64x2Ge | SV128Not | SV128And | SV128AndNot | SV128Or
  | SV128Xor | SV128Bitselect | SV128AnyTrue | SI8x16Abs | SI8x16Neg | SI8x16Popcnt | SI8x16AllTrue | SI8x16Bitmask
  | SI8x16NarrowI16x8S | SI8x16NarrowI16x8U | SI8x16Shl | SI8x16ShrS | SI8x16ShrU | SI8x16Add | SI8x16AddSatS
  | SI8x16AddSatU | SI8x16Sub | SI8x16SubSatS | SI8x16SubSatU | SI8x16MinS | SI8x16MinU | SI8x16MaxS | SI8x16MaxU
  | SI8x16AvgrU | SI16x8ExtAddPairwiseI8x16S | SI16x8ExtAddPairwiseI8x16U | SI16x8Abs | SI16x8Neg
  | SI16x8Q15MulrSatS | SI16x8AllTrue | SI16x8Bitmask | SI16x8NarrowI32x4S | SI16x8NarrowI32x4U
  | SI16x8ExtendLowI8x16S | SI16x8ExtendHighI8x16S | SI16x8ExtendLowI8x16U | SI16x8ExtendHighI8x16U | SI16x8Shl
  | SI16x8ShrS | SI16x8ShrU | SI16x8Add | SI16x8AddSatS | SI16x8AddSatU | SI16x8Sub | SI16x8SubSatS | SI16x8SubSatU
  | SI16x8Mul | SI16x8MinS | SI16x8MinU | SI16x8MaxS | SI16x8MaxU | SI16x8AvgrU | SI16x8ExtMulLowI8x16S
  | SI16x8ExtMulHighI8x16S | SI16x8ExtMulLowI8x16U | SI16x8ExtMulHighI8x16U | SI32x4ExtAddPairwiseI16x8S
  | SI32x4ExtAddPairwiseI16x8U | SI32x4Abs | SI32x4Neg | SI32x4AllTrue | SI32x4Bitmask | SI32x4ExtendLowI16x8S
  | SI32x4ExtendHighI16x8S | SI32x4ExtendLowI16x8U | SI32x4ExtendHighI16x8U | SI32x4Shl | SI32x4ShrS | SI32x4ShrU
  | SI32x4Add | SI32x4Sub | SI32x4Mul | SI32x4MinS | SI32x4MinU | SI32x4MaxS | SI32x4MaxU | SI32x4DotI16x8S
  | SI32x4ExtMulLowI16x8S | SI32x4ExtMulHighI16x8S | SI32x4ExtMulLowI16x8U | SI32x4ExtMulHighI16x8U | SI64x2Abs
  | SI64x2Neg | SI64x2AllTrue | SI64x2Bitmask | SI64x2ExtendLowI32x4S | SI64x2ExtendHighI32x4S
  | SI64x2ExtendLowI32x4U | SI64x2ExtendHighI32x4U | SI64x2Shl | SI64x2ShrS | SI64x2ShrU | SI64x2Add | SI64x2Sub
  | SI64x2Mul | SI64x2ExtMulLowI32x4S | SI64x2ExtMulHighI32x4S | SI64x2ExtMulLowI32x4U | SI64x2ExtMulHighI32x4U
  | SF32x4Ceil | SF32x4Floor | SF32x4Trunc | SF32x4Nearest | SF32x4Abs | SF32x4Neg | SF32x4Sqrt | SF32x4Add
  | SF32x4Sub | SF32x4Mul | SF32x4Div | SF32x4Min | SF32x4Max | SF32x4PMin | SF32x4PMax | SF64x2Ceil | SF64x2Floor
  | SF64x2Trunc | SF64x2Nearest | SF64x2Abs | SF64x2Neg | SF64x2Sqrt | SF64x2Add | SF64x2Sub | SF64x2Mul
  | SF64x2Div | SF64x2Min | SF64x2Max | SF64x2PMin | SF64x2PMax | SI32x4TruncSatF32x4S | SI32x4TruncSatF32x4U
  | SF32x4ConvertI32x4S | SF32x4ConvertI32x4U | SI32x4TruncSatF64x2SZero | SI32x4TruncSatF64x2UZero
  | SF64x2ConvertLowI32x4S | SF64x2ConvertLowI32x4U | SF32x4DemoteF64x2Zero | SF64x2PromoteLowF32x4
  | SI8x16RelaxedSwizzle | SI32x4RelaxedTruncF32x4S | SI32x4RelaxedTruncF32x4U | SI32x4RelaxedTruncF64x2SZero
  | SI32x4RelaxedTruncF64x2UZero | SF32x4RelaxedMadd | SF32x4RelaxedNmadd | SF64x2RelaxedMadd | SF64x2RelaxedNmadd
  | SI8x16RelaxedLaneselect | SI16x8RelaxedLaneselect | SI32x4RelaxedLaneselect | SI64x2RelaxedLaneselect
  | SF32x4RelaxedMin | SF32x4RelaxedMax | SF64x2RelaxedMin | SF64x2RelaxedMax | SI16x8RelaxedQ15mulrS
  | SI16x8RelaxedDotI8x16I7x16S | SI32x4RelaxedDotI8x16I7x16AddS.

(** ** Instructions *)
Inductive Op : Type :=
  (* control *)
  | OpUnreachable | OpNop | OpBr (target : BranchTarget) | OpBrIf (target : BranchTarget)
  | OpBrIfNot (target : BranchTarget)
  | OpBrIfCmp (kind : CmpKind) (negate : bool) (target : BranchTarget)
  | OpBrTable (range : BrTableRange) | OpCall (func : Z)
  | OpCallIndirect (type_idx : Z) (table : Z) | OpCallRef (ty : Z) | OpReturnCall (func : Z)
  | OpReturnCallIndirect (type_idx : Z) (table : Z) | OpReturnCallRef (ty : Z)
  | OpBrOnNull (target : BranchTarget) | OpBrOnNonNull (target : BranchTarget) | OpThrow (i : Z)
  | OpThrowRef
  (* parametric *)
  | OpDrop | OpSelect
  (* variable *)
  | OpLocalGet (local : Z) | OpLocalSet (local : Z) | OpLocalTee (local : Z)
  | OpGlobalGet (global : Z) | OpGlobalSet (global : Z)
  (* memory loads *)
  | OpI32Load (arg : MemArg) | OpI64Load (arg : MemArg) | OpF32Load (arg : MemArg)
  | OpF64Load (arg : MemArg) | OpI32Load8S (arg : MemArg) | OpI32Load8U (arg : MemArg)
  | OpI32Load16S (arg : MemArg) | OpI32Load16U (arg : MemArg) | OpI64Load8S (arg : MemArg)
  | OpI64Load8U (arg : MemArg) | OpI64Load16S (arg : MemArg) | OpI64Load16U (arg : MemArg)
  | OpI64Load32S (arg : MemArg) | OpI64Load32U (arg : MemArg)
  (* memory stores *)
  | OpI32Store (arg : MemArg) | OpI64Store (arg : MemArg) | OpF32Store (arg : MemArg)
  | OpF64Store (arg : MemArg) | OpI32Store8 (arg : MemArg) | OpI32Store16 (arg : MemArg)
  | OpI64Store8 (arg : MemArg) | OpI64Store16 (arg : MemArg) | OpI64Store32 (arg : MemArg)
  (* memory management (carry an explicit memory index, #41) *)
  | OpMemorySize (i : Z) | OpMemoryGrow (i : Z) | OpMemoryInit (a : Z) (b : Z)
  | OpDataDrop (data : Z) | OpMemoryCopy (a : Z) (b : Z) | OpMemoryFill (i : Z)
  (* table management (bulk-memory subset) *)
  | OpTableInit (elem : Z) (table : Z) | OpTableCopy (dst_table : Z) (src_table : Z)
  | OpElemDrop (elem : Z)
  (* references + table ref-ops (reference-types) *)
  | OpRefNull (heap : IrHeap) | OpRefFunc (func : Z) | OpRefIsNull | OpRefAsNonNull
  | OpTableGet (table : Z) | OpTableSet (table : Z) | OpTableSize (table : Z)
  | OpTableGrow (table : Z) | OpTableFill (table : Z)
  (* constants (floats as raw bits) *)
  | OpI32Const (c : Z) | OpI64Const (c : Z) | OpF32Const (i : Z) | OpF64Const (bits : Z)
  (* i32 comparisons / numeric *)
  | OpI32Eqz | OpI32Eq | OpI32Ne | OpI32LtS | OpI32LtU | OpI32GtS | OpI32GtU | OpI32LeS | OpI32LeU
  | OpI32GeS | OpI32GeU | OpI32Clz | OpI32Ctz | OpI32Popcnt | OpI32Add | OpI32Sub | OpI32Mul
  | OpI32DivS | OpI32DivU | OpI32RemS | OpI32RemU | OpI32And | OpI32Or | OpI32Xor | OpI32Shl
  | OpI32ShrS | OpI32ShrU | OpI32Rotl | OpI32Rotr
  (* i64 comparisons / numeric *)
  | OpI64Eqz | OpI64Eq | OpI64Ne | OpI64LtS | OpI64LtU | OpI64GtS | OpI64GtU | OpI64LeS | OpI64LeU
  | OpI64GeS | OpI64GeU | OpI64Clz | OpI64Ctz | OpI64Popcnt | OpI64Add | OpI64Sub | OpI64Mul
  | OpI64DivS | OpI64DivU | OpI64RemS | OpI64RemU | OpI64And | OpI64Or | OpI64Xor | OpI64Shl
  | OpI64ShrS | OpI64ShrU | OpI64Rotl | OpI64Rotr
  (* f32 *)
  | OpF32Eq | OpF32Ne | OpF32Lt | OpF32Gt | OpF32Le | OpF32Ge | OpF32Abs | OpF32Neg | OpF32Ceil
  | OpF32Floor | OpF32Trunc | OpF32Nearest | OpF32Sqrt | OpF32Add | OpF32Sub | OpF32Mul | OpF32Div
  | OpF32Min | OpF32Max | OpF32Copysign
  (* f64 *)
  | OpF64Eq | OpF64Ne | OpF64Lt | OpF64Gt | OpF64Le | OpF64Ge | OpF64Abs | OpF64Neg | OpF64Ceil
  | OpF64Floor | OpF64Trunc | OpF64Nearest | OpF64Sqrt | OpF64Add | OpF64Sub | OpF64Mul | OpF64Div
  | OpF64Min | OpF64Max | OpF64Copysign
  (* conversions *)
  | OpI32WrapI64 | OpI32TruncF32S | OpI32TruncF32U | OpI32TruncF64S | OpI32TruncF64U
  | OpI64ExtendI32S | OpI64ExtendI32U | OpI64TruncF32S | OpI64TruncF32U | OpI64TruncF64S
  | OpI64TruncF64U | OpF32ConvertI32S | OpF32ConvertI32U | OpF32ConvertI64S | OpF32ConvertI64U
  | OpF32DemoteF64 | OpF64ConvertI32S | OpF64ConvertI32U | OpF64ConvertI64S | OpF64ConvertI64U
  | OpF64PromoteF32 | OpI32ReinterpretF32 | OpI64ReinterpretF64 | OpF32ReinterpretI32
  | OpF64ReinterpretI64
  (* sign-extension ops *)
  | OpI32Extend8S | OpI32Extend16S | OpI64Extend8S | OpI64Extend16S | OpI64Extend32S
  (* saturating float-to-int *)
  | OpI32TruncSatF32S | OpI32TruncSatF32U | OpI32TruncSatF64S | OpI32TruncSatF64U
  | OpI64TruncSatF32S | OpI64TruncSatF32U | OpI64TruncSatF64S | OpI64TruncSatF64U
  (* GC aggregates: structs *)
  | OpStructNew (ty : Z) | OpStructNewDefault (ty : Z) | OpStructGet (ty : Z) (field : Z)
  | OpStructGetS (ty : Z) (field : Z) | OpStructGetU (ty : Z) (field : Z)
  | OpStructSet (ty : Z) (field : Z)
  (* GC aggregates: arrays *)
  | OpArrayNew (ty : Z) | OpArrayNewDefault (ty : Z) | OpArrayNewFixed (ty : Z) (n : Z)
  | OpArrayNewData (ty : Z) (data : Z) | OpArrayNewElem (ty : Z) (elem : Z) | OpArrayGet (ty : Z)
  | OpArrayGetS (ty : Z) | OpArrayGetU (ty : Z) | OpArraySet (ty : Z) | OpArrayLen
  | OpArrayFill (ty : Z) | OpArrayCopy (dst : Z) (src : Z) | OpArrayInitData (ty : Z) (data : Z)
  | OpArrayInitElem (ty : Z) (elem : Z)
  (* GC i31 *)
  | OpRefI31 | OpI31GetS | OpI31GetU
  (* GC casts / equality *)
  | OpRefTest (ty : IrHeap) (nullable : bool) | OpRefCast (ty : IrHeap) (nullable : bool)
  | OpRefEq | OpAnyConvertExtern | OpExternConvertAny | OpBrOnCast (ty : IrHeap) (target : Z)
  | OpBrOnCastFail (ty : IrHeap) (target : Z)
  (* vectors *)
  | OpSimd (s : SimdOp).

(** ** Exception tables *)
Record HandlerRec : Type := {
  hr_tag : option Z;
  hr_restore_height : Z;
  hr_payload_args : bool;
  hr_payload_ref : bool;
  hr_landing_ip : Z;
}.
Record HandlerSpan : Type := { hs_start_ip : Z; hs_end_ip : Z; hs_clauses : list HandlerRec }.

(** ** Code storage *)
Record Span : Type := { sp_start : Z; sp_len : Z }.
(** [&arena[span.range()]] *)
Definition span_slice {A} (arena : list A) (s : Span) : option (list A) :=
  zslice arena (sp_start s) (sp_start s + sp_len s).

Record CodeArenas : Type := {
  ca_ops : list Op;
  ca_local_types : list IrVal;
  ca_handlers : list HandlerSpan;
  ca_br_tables : list BranchTarget;
  ca_big_memargs : list BigMemArg;
  ca_offsets : list Z;
}.

Record CompiledFunc : Type := {
  cf_ops : Span;
  cf_type_idx : Z;
  cf_n_params : Z;
  cf_n_results : Z;
  cf_local_types : Span;
  cf_max_operands : Z;
  cf_handlers : Span;
  cf_br_tables : Span;
  cf_big_memargs : Span;
  cf_offsets : Span;
}.

(** ** The module *)
Record MemoryType : Type := { mt_minimum : Z; mt_maximum : option Z; mt_memory64 : bool }.
Record IrRef : Type := { ir_nullable : bool; ir_heap : IrHeap }.
Record IrTableType : Type := { itt_element : IrRef; itt_min : Z; itt_max : option Z; itt_table64 : bool }.
Record IrGlobalType : Type := { igt_content : IrVal; igt_mutable : bool }.

Inductive ConstOp : Type :=
  | CoI32 (c : Z) | CoI64 (c : Z) | CoF32 (bits : Z) | CoF64 (bits : Z) | CoV128 (bits : Z)
  | CoRefNull (heap : IrHeap) | CoRefFunc (i : Z) | CoGlobalGet (i : Z)
  | CoI32Add | CoI32Sub | CoI32Mul | CoI64Add | CoI64Sub | CoI64Mul
  | CoRefI31 | CoStructNew (ty : Z) | CoStructNewDefault (ty : Z)
  | CoArrayNew (ty : Z) | CoArrayNewDefault (ty : Z) | CoArrayNewFixed (ty n : Z)
  | CoArrayNewData (ty data : Z) | CoArrayNewElem (ty elem : Z)
  | CoAnyConvertExtern | CoExternConvertAny.
Definition ConstExpr : Type := list ConstOp.

Inductive ImportKind : Type :=
  | ImpFunc (t : Z) | ImpTable (ty : IrTableType) | ImpMemory (mt : MemoryType)
  | ImpGlobal (gt : IrGlobalType) | ImpTag (t : Z).
Record Import : Type := { im_module : string; im_name : string; im_kind : ImportKind }.
Inductive ExportKind : Type :=
  | ExpFunc (i : Z) | ExpTable (i : Z) | ExpMemory (i : Z) | ExpGlobal (i : Z) | ExpTag (i : Z).
Record Export : Type := { ex_name : string; ex_kind : ExportKind }.

Record TableDef : Type := { td_ty : IrTableType; td_init : option ConstExpr }.
Record GlobalDef : Type := { gd_ty : IrGlobalType; gd_init : ConstExpr }.
Record TagDef : Type := { tg_type_index : Z }.
Inductive DataMode : Type := DmPassive | DmActive (memory : Z) (offset : ConstExpr).
Record DataSegment : Type := { ds_mode : DataMode; ds_bytes : list Z }.
Inductive ElemMode : Type := EmPassive | EmDeclared | EmActive (table : Z) (offset : ConstExpr).
Inductive ElemItems : Type := EiFuncs (fs : list Z) | EiExprs (es : list ConstExpr).
Record ElemSegment : Type := { es_mode : ElemMode; es_items : ElemItems }.

(** Debug sections and the engine handle are not part of the model. *)
Record ModuleInner : Type := {
  mi_types : list ModuleType;
  mi_func_types : list Z;
  mi_num_imported_funcs : Z;
  mi_functions : list CompiledFunc;
  mi_code : CodeArenas;
  mi_imports : list Import;
  mi_exports : list Export;
  mi_memories : list MemoryType;
  mi_tables : list TableDef;
  mi_globals : list GlobalDef;
  mi_tags : list TagDef;
  mi_num_imported_tags : Z;
  mi_datas : list DataSegment;
  mi_elems : list ElemSegment;
  mi_start : option Z;
  mi_type_ids : list Z;
  mi_layouts : list (option Layout);
}.

(** [ModuleInner::intern], given what the registry answered: the canonical ids
    are recorded and the per-type layouts rebuilt. *)
Definition set_interned (type_ids : list Z) (m : ModuleInner) : ModuleInner :=
  {| mi_types := mi_types m; mi_func_types := mi_func_types m;
     mi_num_imported_funcs := mi_num_imported_funcs m; mi_functions := mi_functions m;
     mi_code := mi_code m; mi_imports := mi_imports m; mi_exports := mi_exports m;
     mi_memories := mi_memories m; mi_tables := mi_tables m; mi_globals := mi_globals m;
     mi_tags := mi_tags m; mi_num_imported_tags := mi_num_imported_tags m;
     mi_datas := mi_datas m; mi_elems := mi_elems m; mi_start := mi_start m;
     mi_type_ids := type_ids;
     mi_layouts := (λ t, layout_from_body (mt_body t)) <$> mi_types m |}.

Definition canonical_type_id (m : ModuleInner) (type_index : Z) : res Z :=
  expect (zget (mi_type_ids m) type_index) "index out of bounds".
Definition module_layout (m : ModuleInner) (type_index : Z) : option Layout :=
  l ← zget (mi_layouts m) type_index; l.
Definition struct_layout (m : ModuleInner) (type_index : Z) : res StructLayout :=
  ok_or (module_layout m type_index ≫= as_struct) (EMsg "type is not a struct type").
Definition module_struct_field (m : ModuleInner) (type_index field : Z) : res Slot :=
  l ← struct_layout m type_index;
  ok_or (struct_field l field) (EMsg "type has no such struct field").
Definition array_layout (m : ModuleInner) (type_index : Z) : res ArrayLayout :=
  ok_or (module_layout m type_index ≫= as_array) (EMsg "type is not an array type").
Definition type_kinds (m : ModuleInner) : list AggKind := module_type_kind <$> mi_types m.

(** [func_type]: the canonical id of a module-space function's signature. *)
Definition module_func_type (m : ModuleInner) (module_func_idx : Z) : res Z :=
  t ← expect (zget (mi_func_types m) module_func_idx) "index out of bounds";
  canonical_type_id m t.

(** The [nth_*] loops: count the imports of one kind, stop at the [idx]-th, else
    index the defined entities past them. *)
Fixpoint nth_import {A} (sel : ImportKind → option A) (imports : list Import) (n idx : Z) : A + Z :=
  match imports with
  | [] => inr n
  | imp :: rest =>
      match sel (im_kind imp) with
      | Some a => if n =? idx then inl a else nth_import sel rest (n + 1) idx
      | None => nth_import sel rest n idx
      end
  end.
Definition nth_entity {A B} (sel : ImportKind → option A) (defined : list B) (conv : B → A)
    (m : ModuleInner) (idx : Z) : res A :=
  match nth_import sel (mi_imports m) 0 idx with
  | inl a => Ok a
  | inr n => conv <$> expect (zget defined (idx - n)) "index out of bounds"
  end.

Definition sel_memory (k : ImportKind) := match k with ImpMemory mt => Some mt | _ => None end.
Definition sel_table (k : ImportKind) := match k with ImpTable ty => Some ty | _ => None end.
Definition sel_global (k : ImportKind) := match k with ImpGlobal gt => Some gt | _ => None end.
Definition sel_tag (k : ImportKind) := match k with ImpTag t => Some t | _ => None end.

Definition nth_memory (m : ModuleInner) : Z → res MemoryType := nth_entity sel_memory (mi_memories m) id m.
Definition nth_table (m : ModuleInner) : Z → res IrTableType := nth_entity sel_table (mi_tables m) td_ty m.
Definition nth_global (m : ModuleInner) : Z → res IrGlobalType := nth_entity sel_global (mi_globals m) gd_ty m.
Definition nth_tag (m : ModuleInner) : Z → res Z := nth_entity sel_tag (mi_tags m) tg_type_index m.

(** [Code]: a function of a module. *)
Record Code : Type := { code_module : ModuleInner; code_index : Z }.
Definition code_func (c : Code) : res CompiledFunc :=
  expect (zget (mi_functions (code_module c)) (code_index c)) "index out of bounds".
Definition code_ops_of (c : Code) (f : CompiledFunc) : res (list Op) :=
  expect (span_slice (ca_ops (mi_code (code_module c))) (cf_ops f)) "slice index".
Definition code_local_types_of (c : Code) (f : CompiledFunc) : res (list IrVal) :=
  expect (span_slice (ca_local_types (mi_code (code_module c))) (cf_local_types f)) "slice index".
Definition code_handlers (c : Code) : res (list HandlerSpan) :=
  f ← code_func c; expect (span_slice (ca_handlers (mi_code (code_module c))) (cf_handlers f)) "slice index".
Definition code_br_tables (c : Code) : res (list BranchTarget) :=
  f ← code_func c; expect (span_slice (ca_br_tables (mi_code (code_module c))) (cf_br_tables f)) "slice index".
Definition code_big_memargs (c : Code) : res (list BigMemArg) :=
  f ← code_func c; expect (span_slice (ca_big_memargs (mi_code (code_module c))) (cf_big_memargs f)) "slice index".

(** ** Index spaces *)

(** The imported entities of one kind, in order. *)
Definition imported {A} (sel : ImportKind → option A) (m : ModuleInner) : list A :=
  omap (λ i, sel (im_kind i)) (mi_imports m).

Lemma nth_import_spec {A} (sel : ImportKind → option A) imports n idx :
  n ≤ idx →
  match nth_import sel imports n idx with
  | inl a => zget (omap (λ i, sel (im_kind i)) imports) (idx - n) = Some a
  | inr k => k = n + zlen (omap (λ i, sel (im_kind i)) imports) ∧ k ≤ idx
  end.
Proof.
  revert n. induction imports as [|imp rest IH]; intros n Hn; cbn; [unfold zlen; cbn; lia|].
  destruct (sel (im_kind imp)) as [a|] eqn:Hs; [|by apply IH].
  destruct (Z.eqb_spec n idx) as [->|Hne].
  - by rewrite Z.sub_diag, zget_cons_0.
  - specialize (IH (n + 1) ltac:(lia)).
    destruct (nth_import sel rest (n + 1) idx).
    + rewrite zget_cons_S by lia. by replace (idx - n - 1) with (idx - (n + 1)) by lia.
    + rewrite zlen_cons. lia.
Qed.

Lemma nth_entity_spec {A B} (sel : ImportKind → option A) (defined : list B) conv m idx :
  0 ≤ idx →
  nth_entity sel defined conv m idx
  = expect (zget (imported sel m ++ (conv <$> defined)) idx) "index out of bounds".
Proof.
  intros Hi. unfold nth_entity.
  pose proof (nth_import_spec sel (mi_imports m) 0 idx Hi) as H. fold (imported sel m) in H.
  destruct (nth_import sel (mi_imports m) 0 idx) as [a|k].
  - rewrite Z.sub_0_r in H. pose proof (zget_Some _ _ _ H). rewrite zget_app_l by lia. by rewrite H.
  - destruct H as [-> Hk]. rewrite zget_app_r by lia. rewrite Z.add_0_l.
    unfold zget. destruct (Z.leb_spec 0 (idx - zlen (imported sel m))); [|lia].
    rewrite list_lookup_fmap. by destruct (defined !! _).
Qed.

(** Index spaces are imports first, then definitions: each [nth_*] lookup equals
    indexing the concatenation, and panics exactly past its end. *)
Theorem nth_lookups_spec m idx :
  0 ≤ idx →
  nth_memory m idx = expect (zget (imported sel_memory m ++ mi_memories m) idx) "index out of bounds" ∧
  nth_table m idx = expect (zget (imported sel_table m ++ (td_ty <$> mi_tables m)) idx) "index out of bounds" ∧
  nth_global m idx = expect (zget (imported sel_global m ++ (gd_ty <$> mi_globals m)) idx) "index out of bounds" ∧
  nth_tag m idx = expect (zget (imported sel_tag m ++ (tg_type_index <$> mi_tags m)) idx) "index out of bounds".
Proof.
  intros Hi. unfold nth_memory, nth_table, nth_global, nth_tag.
  rewrite !nth_entity_spec by done. by rewrite list_fmap_id.
Qed.

Definition empty_arenas : CodeArenas :=
  {| ca_ops := []; ca_local_types := []; ca_handlers := []; ca_br_tables := []; ca_big_memargs := []; ca_offsets := [] |}.
Definition empty_module : ModuleInner :=
  {| mi_types := []; mi_func_types := []; mi_num_imported_funcs := 0; mi_functions := [];
     mi_code := empty_arenas; mi_imports := []; mi_exports := []; mi_memories := []; mi_tables := [];
     mi_globals := []; mi_tags := []; mi_num_imported_tags := 0; mi_datas := []; mi_elems := [];
     mi_start := None; mi_type_ids := []; mi_layouts := [] |}.

Lemma nth_lookups_spec_witness : nth_memory empty_module 0 = Panic "index out of bounds".
Proof. apply (nth_lookups_spec empty_module 0). reflexivity. Defined.
