(* ===== verification/Entity.v ===== *)
(** * Entity: the data behind memories, tables, globals, functions and instances
    (src/src/store/entity.rs)

    Growth of memories and tables is modelled on the vectors themselves;
    [HostAlloc] is the host allocator's answer to [try_reserve_exact], which may
    refuse any request. *)
From S2P Require Import Prelude Types Layout Codec Op.

Definition PAGE_SIZE : Z := 64 * 1024.
Definition MAX_PAGES : Z := Z.shiftl 1 16.
Definition ARENA_ENTRY_OVERHEAD : Z := 64.
(** [size_of::<Val>()]: a tag and a 24-byte [Rooted] payload. *)
Definition VAL_SIZE : Z := 32.

(** Handles: an arena index and the id of the store that minted it. *)
Record Handle : Type := { h_index : Z; h_store : Z }.
#[export] Instance Handle_eq_dec : EqDecision Handle.
Proof. solve_decision. Defined.

(** A host payload is opaque; it is represented by its identity. *)
Inductive ExternEntry : Type := EeHost (payload : Z) | EeInternal (handle : Z).
Definition extern_byte_size (e : ExternEntry) : Z := ARENA_ENTRY_OVERHEAD.
Definition extern_charge : Z := ARENA_ENTRY_OVERHEAD.

Definition exn_charge (n_args : Z) : Z :=
  saturating_add usize_bits ARENA_ENTRY_OVERHEAD (saturating_mul usize_bits n_args VAL_SIZE).

Record TableType : Type := {
  tt_element : RefType; tt_minimum : Z; tt_maximum : option Z; tt_table64 : bool }.
Record GlobalType : Type := { gt_content : ValType; gt_mutable : bool }.

Record MemoryEntity : Type := { me_bytes : list Z; me_ty : MemoryType }.
Record GlobalEntity : Type := { ge_value : Val; ge_ty : GlobalType }.
Record TableEntity : Type := { te_elems : list Ref; te_ty : TableType }.
(** The tag type is its function type's canonical id. *)
Record TagEntity : Type := { tge_ty : Z }.
(** The captured backtrace carries no reference and is left out. *)
Record ExnEntity : Type := { xe_tag : Handle; xe_args : list Val }.
Definition exn_byte_size (e : ExnEntity) : Z := exn_charge (zlen (xe_args e)).

Record HostSig : Type := {
  hsig_params : list ValType; hsig_results : list ValType; hsig_defaults : list Val }.
Definition host_sig_new (params results : list ValType) : HostSig :=
  {| hsig_params := params; hsig_results := results;
     hsig_defaults := default_for_valtype <$> results |}.

Inductive FuncEntity : Type :=
  | FeWasm (instance : Handle) (func_index : Z)
  | FeHost (ty : Z) (sig : HostSig) (host_index : Z)
  | FeHostAsync (ty : Z) (sig : HostSig) (host_index : Z).

Record InstanceEntity : Type := {
  ie_module : ModuleInner;
  ie_funcs : list Func;
  ie_memories : list Handle;
  ie_globals : list Handle;
  ie_tables : list Handle;
  ie_tags : list Handle;
  ie_dropped_data : list bool;
  ie_elems : list (list Ref);
}.

(** [Vec::try_reserve_exact]: whether the host grants so many more bytes (memories)
    or elements (tables). *)
Class HostAlloc := {
  reserve_bytes : Z → bool;
  reserve_elems : Z → bool;
}.

Definition alloc_err : error := EMsg "failed to allocate the initial memory or table".

(** ** Memories *)
Section growth.
  Context `{HostAlloc}.

Definition memory_new (ty : MemoryType) : res MemoryEntity :=
  len ← ok_or (checked_mul usize_bits (mt_minimum ty) PAGE_SIZE) alloc_err;
  if reserve_bytes len then Ok {| me_bytes := vec_resize [] len 0; me_ty := ty |} else Err alloc_err.

Definition size_pages (m : MemoryEntity) : Z := zlen (me_bytes m) / PAGE_SIZE.

Definition memory_arch_max (ty : MemoryType) : Z := if mt_memory64 ty then Z.shiftl 1 48 else MAX_PAGES.

(** The declared maximum under the index width's ceiling. *)
Definition memory_max (ty : MemoryType) : Z :=
  Z.min (default (memory_arch_max ty) (mt_maximum ty)) (memory_arch_max ty).

Definition memory_grow (delta : Z) (m : MemoryEntity) : option Z * MemoryEntity :=
  let old := size_pages m in
  match checked_add 64 old delta with
  | None => (None, m)
  | Some new =>
      if memory_max (me_ty m) <? new then (None, m)
      else match checked_mul usize_bits new PAGE_SIZE with
           | None => (None, m)
           | Some new_bytes =>
               if reserve_bytes (saturating_sub new_bytes (zlen (me_bytes m)))
               then (Some old, {| me_bytes := vec_resize (me_bytes m) new_bytes 0; me_ty := me_ty m |})
               else (None, m)
           end
  end.

(** ** Tables *)
Definition table_new (ty : TableType) (init : Ref) : res TableEntity :=
  if reserve_elems (tt_minimum ty)
  then Ok {| te_elems := vec_resize [] (tt_minimum ty) init; te_ty := ty |}
  else Err alloc_err.

Definition table_size (t : TableEntity) : Z := zlen (te_elems t).
Definition table_get (t : TableEntity) (index : Z) : option Ref := zget (te_elems t) index.
Definition table_set (index : Z) (val : Ref) (t : TableEntity) : bool * TableEntity :=
  match zset (te_elems t) index val with
  | Some elems => (true, {| te_elems := elems; te_ty := te_ty t |})
  | None => (false, t)
  end.

Definition table_arch_max (ty : TableType) : Z := if tt_table64 ty then u_max 64 else u_max 32.
Definition table_max (ty : TableType) : Z :=
  Z.min (default (table_arch_max ty) (tt_maximum ty)) (table_arch_max ty).

Definition table_grow (delta : Z) (init : Ref) (t : TableEntity) : option Z * TableEntity :=
  let old := table_size t in
  match checked_add 64 old delta with
  | None => (None, t)
  | Some new =>
      if table_max (te_ty t) <? new then (None, t)
      else if reserve_elems (new - zlen (te_elems t))
           then (Some old, {| te_elems := vec_resize (te_elems t) new init; te_ty := te_ty t |})
           else (None, t)
  end.

(** The [for i in dst..end] loop of [fill]: [n] writes from [i]; [None] is the index
    panic. *)
Fixpoint fill_loop (n : nat) (i : Z) (val : Ref) (elems : list Ref) : option (list Ref) :=
  match n with
  | O => Some elems
  | S n' => elems' ← zset elems i val; fill_loop n' (i + 1) val elems'
  end.

Definition table_fill (dst : Z) (val : Ref) (len : Z) (t : TableEntity) : res bool * TableEntity :=
  match checked_add 64 dst len with
  | Some end_ =>
      if end_ <=? table_size t
      then match fill_loop (Z.to_nat (end_ - dst)) dst val (te_elems t) with
           | Some elems => (Ok true, {| te_elems := elems; te_ty := te_ty t |})
           | None => (Panic "index out of bounds", t)
           end
      else (Ok false, t)
  | None => (Ok false, t)
  end.

(** ** What growth does *)

(** A memory holds whole pages, within its maximum. *)
Definition memory_wf (m : MemoryEntity) : Prop :=
  zlen (me_bytes m) = size_pages m * PAGE_SIZE ∧ size_pages m ≤ memory_max (me_ty m).

Lemma memory_max_bound ty : 0 ≤ default (memory_arch_max ty) (mt_maximum ty) → 0 ≤ memory_max ty ≤ 2 ^ 48.
Proof.
  intros. unfold memory_max, memory_arch_max, MAX_PAGES in *.
  destruct (mt_memory64 ty); [change (Z.shiftl 1 48) with (2 ^ 48) in *|change (Z.shiftl 1 16) with (2 ^ 16) in *]; lia.
Qed.

(** What one [memory.grow] does to the entity, with the exact success
    condition. *)
Lemma memory_grow_spec delta m :
  memory_wf m → 0 ≤ delta → opt_all (λ x, 0 ≤ x) (mt_maximum (me_ty m)) →
  let old := size_pages m in
  let ok := (old + delta <=? memory_max (me_ty m)) && ((old + delta) * PAGE_SIZE <? 2 ^ 64)
            && reserve_bytes (delta * PAGE_SIZE) in
  ∃ m', memory_grow delta m = (if ok then Some old else None, m') ∧ memory_wf m' ∧
    size_pages m' = (if ok then old + delta else old) ∧ me_ty m' = me_ty m ∧
    (∀ i, i < zlen (me_bytes m) → zget (me_bytes m') i = zget (me_bytes m) i) ∧
    (∀ i, zlen (me_bytes m) ≤ i < zlen (me_bytes m') → zget (me_bytes m') i = Some 0).
Proof.
  intros [Hlen Hmax] Hd Hm. cbn zeta.
  assert (0 ≤ memory_max (me_ty m) ≤ 2 ^ 48) as Hb.
  { apply memory_max_bound. destruct (mt_maximum (me_ty m)); cbn in *; [done|].
    unfold memory_arch_max, MAX_PAGES. by destruct (mt_memory64 _). }
  assert (0 ≤ size_pages m) by (apply Z.div_pos; [apply zlen_nonneg|done]).
  unfold memory_grow, checked_add, checked_mul, saturating_sub.
  destruct (Z.leb_spec (size_pages m + delta) (memory_max (me_ty m))) as [Hle|Hgt]; cycle 1.
  { cbn. exists m. destruct (Z.ltb_spec (size_pages m + delta) (2 ^ 64)).
    - destruct (Z.ltb_spec (memory_max (me_ty m)) (size_pages m + delta)); [|lia].
      split_and!; done || (intros; lia).
    - split_and!; done || (intros; lia). }
  destruct (Z.ltb_spec (size_pages m + delta) (2 ^ 64)); [|lia].
  destruct (Z.ltb_spec (memory_max (me_ty m)) (size_pages m + delta)); [lia|].
  pose proof (eq_refl : PAGE_SIZE = 65536) as Hpage.
  destruct (Z.ltb_spec ((size_pages m + delta) * PAGE_SIZE) (2 ^ 64)); cycle 1.
  { exists m. split_and!; done || (intros; lia). }
  rewrite Z.max_l by lia.
  replace (_ - zlen _) with (delta * PAGE_SIZE) by lia. cbn [andb].
  destruct (reserve_bytes (delta * PAGE_SIZE)); cycle 1.
  { exists m. split_and!; done || (intros; lia). }
  assert (0 ≤ (size_pages m + delta) * PAGE_SIZE) by lia.
  set (m' := {| me_bytes := vec_resize (me_bytes m) ((size_pages m + delta) * PAGE_SIZE) 0; me_ty := me_ty m |}).
  assert (zlen (me_bytes m') = (size_pages m + delta) * PAGE_SIZE) as Hlen' by (by apply zlen_resize).
  assert (size_pages m' = size_pages m + delta) as Hsz.
  { unfold size_pages at 1. rewrite Hlen'. by apply Z.div_mul. }
  exists m'. split_and!; try done.
  - split; rewrite Hsz; done.
  - intros i Hi. apply zget_resize_old; [lia|done].
  - intros i [Hi1 Hi2]. rewrite Hlen' in Hi2. by apply zget_resize_new.
Qed.

(** A fresh memory is all zeros and well formed. *)
Lemma memory_new_spec ty m :
  0 ≤ mt_minimum ty → mt_minimum ty ≤ memory_max ty → memory_new ty = Ok m →
  memory_wf m ∧ size_pages m = mt_minimum ty ∧ me_ty m = ty ∧
  (∀ i, 0 ≤ i < mt_minimum ty * PAGE_SIZE → zget (me_bytes m) i = Some 0).
Proof.
  intros Hmin Hmax. unfold memory_new, checked_mul.
  destruct (Z.ltb_spec (mt_minimum ty * PAGE_SIZE) (2 ^ 64)); cbn; [|done].
  destruct (reserve_bytes _); [|done]. intros [= <-]. cbn.
  assert (0 ≤ mt_minimum ty * PAGE_SIZE) by (unfold PAGE_SIZE; lia).
  assert (size_pages {| me_bytes := vec_resize [] (mt_minimum ty * PAGE_SIZE) 0; me_ty := ty |}
          = mt_minimum ty) as Hs.
  { unfold size_pages. cbn. rewrite zlen_resize by done. by apply Z.div_mul. }
  split_and!; try done.
  - split; rewrite Hs; [|done]. cbn. by rewrite zlen_resize.
  - intros i ?. apply zget_resize_new. unfold zlen. cbn. lia.
Qed.

Definition table_wf (t : TableEntity) : Prop := table_size t ≤ table_max (te_ty t).

Lemma table_grow_spec delta init t :
  table_wf t → 0 ≤ delta →
  let old := table_size t in
  let ok := (old + delta <=? table_max (te_ty t)) && reserve_elems delta in
  ∃ t', table_grow delta init t = (if ok then Some old else None, t') ∧ table_wf t' ∧
    table_size t' = (if ok then old + delta else old) ∧ te_ty t' = te_ty t ∧
    (∀ i, i < old → table_get t' i = table_get t i) ∧
    (∀ i, old ≤ i < table_size t' → table_get t' i = Some init).
Proof.
  intros Hwf Hd. cbn zeta. unfold table_grow, checked_add, table_get, table_wf in *.
  assert (table_max (te_ty t) < 2 ^ 64) as Hb.
  { unfold table_max, table_arch_max, u_max. destruct (tt_table64 _); lia. }
  pose proof (zlen_nonneg (te_elems t)). fold (table_size t) in *.
  destruct (Z.leb_spec (table_size t + delta) (table_max (te_ty t))) as [Hle|Hgt]; cycle 1.
  { cbn. exists t. destruct (Z.ltb_spec (table_size t + delta) (2 ^ 64)).
    - destruct (Z.ltb_spec (table_max (te_ty t)) (table_size t + delta)); [|lia].
      split_and!; done || (intros; lia).
    - split_and!; done || (intros; lia). }
  destruct (Z.ltb_spec (table_size t + delta) (2 ^ 64)); [|lia].
  destruct (Z.ltb_spec (table_max (te_ty t)) (table_size t + delta)); [lia|].
  rewrite Z.add_simpl_l. cbn [andb].
  destruct (reserve_elems delta); cycle 1.
  { exists t. split_and!; done || (intros; lia). }
  set (t' := {| te_elems := vec_resize (te_elems t) (table_size t + delta) init; te_ty := te_ty t |}).
  assert (table_size t' = table_size t + delta) as Hsz by (apply zlen_resize; lia).
  exists t'. rewrite Hsz. split_and!; try done.
  - intros i Hi. apply zget_resize_old; [lia|done].
  - intros i [? ?]. by apply zget_resize_new.
Qed.

Lemma fill_loop_spec n i val elems :
  0 ≤ i → i + Z.of_nat n ≤ zlen elems →
  ∃ elems', fill_loop n i val elems = Some elems' ∧ zlen elems' = zlen elems ∧
    ∀ j, zget elems' j = if (i <=? j) && (j <? i + Z.of_nat n) then Some val else zget elems j.
Proof.
  revert i elems. induction n as [|n IH]; intros i elems Hi Hn; cbn [fill_loop].
  - exists elems. split_and!; [done..|]. intros j.
    destruct (Z.leb_spec i j), (Z.ltb_spec j (i + Z.of_nat 0)); done || lia.
  - assert (zset elems i val = Some (<[Z.to_nat i := val]> elems)) as -> by (apply zset_Some; lia || split; lia || done).
    cbn. destruct (IH (i + 1) (<[Z.to_nat i := val]> elems)) as (e' & -> & Hl & Hg);
      [lia|rewrite zlen_insert; lia|].
    exists e'. rewrite zlen_insert in Hl. split_and!; [done..|]. intros j. rewrite Hg.
    destruct (decide (j = i)) as [->|].
    + rewrite zget_insert_eq by lia.
      destruct (Z.leb_spec (i + 1) i), (Z.leb_spec i i), (Z.ltb_spec i (i + Z.of_nat (S n)));
        cbn; done || lia.
    + rewrite zget_insert_ne by lia.
      destruct (Z.leb_spec (i + 1) j), (Z.leb_spec i j), (Z.ltb_spec j (i + 1 + Z.of_nat n)),
        (Z.ltb_spec j (i + Z.of_nat (S n))); cbn; done || lia.
Qed.

(** [table.fill]: all of the range or none of it, never an index panic. *)
Lemma table_fill_spec dst val len t :
  u_ok 64 dst → u_ok 64 len → table_size t < 2 ^ 64 →
  let ok := dst + len <=? table_size t in
  ∃ t', table_fill dst val len t = (Ok ok, t') ∧ te_ty t' = te_ty t ∧ table_size t' = table_size t ∧
    ∀ j, table_get t' j =
      if ok && (dst <=? j) && (j <? dst + len) then Some val else table_get t j.
Proof.
  unfold u_ok. intros Hd Hl Hs. cbn zeta. unfold table_fill, checked_add.
  destruct (Z.leb_spec (dst + len) (table_size t)) as [Hle|Hgt]; cycle 1.
  { exists t. destruct (Z.ltb_spec (dst + len) (2 ^ 64)); [|done].
    destruct (Z.leb_spec (dst + len) (table_size t)); [lia|done]. }
  destruct (Z.ltb_spec (dst + len) (2 ^ 64)); [|lia].
  destruct (Z.leb_spec (dst + len) (table_size t)); [|lia].
  rewrite Z.add_simpl_l.
  destruct (fill_loop_spec (Z.to_nat len) dst val (te_elems t)) as (e' & -> & Hlen & Hg);
    [lia|unfold table_size in *; lia|].
  eexists; split; [done|]. split_and!; [done|exact Hlen|].
  intros j. unfold table_get. cbn. by rewrite Hg, Z2Nat.id by lia.
Qed.
End growth.
