(* ===== verification/Store.v ===== *)
(** * Store: the entity storage the runtime operates on
    (src/src/store/inner.rs, src/src/store/managed.rs)

    [StoreInner] with its arenas, the fuel and epoch accounting, the GC-managed
    allocations that share the heap's byte budget, the conversions between the
    extern and any hierarchies, and the stamping and rooting of references handed
    to the embedder.  The engine, the parked execution and the async-call records
    are not fields of the model; the epoch counter is an argument where it is
    read. *)
From S2P Require Import Prelude Types Layout Codec Arena Heap Op Entity.

Inductive FuelStep := FuelRan | FuelNeedYield | FuelExhausted.

Record StoreInner : Type := {
  si_store_id : Z;
  si_funcs : list FuncEntity;
  si_memories : list MemoryEntity;
  si_tables : list TableEntity;
  si_globals : list GlobalEntity;
  si_tags : list TagEntity;
  si_exns : ReclaimArena ExnEntity;
  si_instances : list InstanceEntity;
  si_externrefs : ReclaimArena ExternEntry;
  si_gc : GcHeap;
  si_gc_roots : list (Z * RefKind);
  si_fuel : Z;
  si_fuel_reserve : Z;
  si_fuel_yield_interval : option Z;
  si_epoch_deadline : Z;
  si_pending_exception : option Rooted;
  si_pending_exception_generation : Z;
  si_internal_error : option InternalError;
}.

Definition set_si_funcs (v : list FuncEntity) (s : StoreInner) : StoreInner :=
  {| si_store_id := si_store_id s; si_funcs := v; si_memories := si_memories s; si_tables :=
     si_tables s; si_globals := si_globals s; si_tags := si_tags s; si_exns := si_exns s;
     si_instances := si_instances s; si_externrefs := si_externrefs s; si_gc := si_gc s;
     si_gc_roots := si_gc_roots s; si_fuel := si_fuel s; si_fuel_reserve := si_fuel_reserve
     s; si_fuel_yield_interval := si_fuel_yield_interval s; si_epoch_deadline :=
     si_epoch_deadline s; si_pending_exception := si_pending_exception s;
     si_pending_exception_generation := si_pending_exception_generation s; si_internal_error
     := si_internal_error s |}.
Definition set_si_memories (v : list MemoryEntity) (s : StoreInner) : StoreInner :=
  {| si_store_id := si_store_id s; si_funcs := si_funcs s; si_memories := v; si_tables :=
     si_tables s; si_globals := si_globals s; si_tags := si_tags s; si_exns := si_exns s;
     si_instances := si_instances s; si_externrefs := si_externrefs s; si_gc := si_gc s;
     si_gc_roots := si_gc_roots s; si_fuel := si_fuel s; si_fuel_reserve := si_fuel_reserve
     s; si_fuel_yield_interval := si_fuel_yield_interval s; si_epoch_deadline :=
     si_epoch_deadline s; si_pending_exception := si_pending_exception s;
     si_pending_exception_generation := si_pending_exception_generation s; si_internal_error
     := si_internal_error s |}.
Definition set_si_tables (v : list TableEntity) (s : StoreInner) : StoreInner :=
  {| si_store_id := si_store_id s; si_funcs := si_funcs s; si_memories := si_memories s;
     si_tables := v; si_globals := si_globals s; si_tags := si_tags s; si_exns := si_exns s;
     si_instances := si_instances s; si_externrefs := si_externrefs s; si_gc := si_gc s;
     si_gc_roots := si_gc_roots s; si_fuel := si_fuel s; si_fuel_reserve := si_fuel_reserve
     s; si_fuel_yield_interval := si_fuel_yield_interval s; si_epoch_deadline :=
     si_epoch_deadline s; si_pending_exception := si_pending_exception s;
     si_pending_exception_generation := si_pending_exception_generation s; si_internal_error
     := si_internal_error s |}.
Definition set_si_globals (v : list GlobalEntity) (s : StoreInner) : StoreInner :=
  {| si_store_id := si_store_id s; si_funcs := si_funcs s; si_memories := si_memories s;
     si_tables := si_tables s; si_globals := v; si_tags := si_tags s; si_exns := si_exns s;
     si_instances := si_instances s; si_externrefs := si_externrefs s; si_gc := si_gc s;
     si_gc_roots := si_gc_roots s; si_fuel := si_fuel s; si_fuel_reserve := si_fuel_reserve
     s; si_fuel_yield_interval := si_fuel_yield_interval s; si_epoch_deadline :=
     si_epoch_deadline s; si_pending_exception := si_pending_exception s;
     si_pending_exception_generation := si_pending_exception_generation s; si_internal_error
     := si_internal_error s |}.
Definition set_si_tags (v : list TagEntity) (s : StoreInner) : StoreInner :=
  {| si_store_id := si_store_id s; si_funcs := si_funcs s; si_memories := si_memories s;
     si_tables := si_tables s; si_globals := si_globals s; si_tags := v; si_exns := si_exns
     s; si_instances := si_instances s; si_externrefs := si_externrefs s; si_gc := si_gc s;
     si_gc_roots := si_gc_roots s; si_fuel := si_fuel s; si_fuel_reserve := si_fuel_reserve
     s; si_fuel_yield_interval := si_fuel_yield_interval s; si_epoch_deadline :=
     si_epoch_deadline s; si_pending_exception := si_pending_exception s;
     si_pending_exception_generation := si_pending_exception_generation s; si_internal_error
     := si_internal_error s |}.
Definition set_si_exns (v : ReclaimArena ExnEntity) (s : StoreInner) : StoreInner :=
  {| si_store_id := si_store_id s; si_funcs := si_funcs s; si_memories := si_memories s;
     si_tables := si_tables s; si_globals := si_globals s; si_tags := si_tags s; si_exns :=
     v; si_instances := si_instances s; si_externrefs := si_externrefs s; si_gc := si_gc s;
     si_gc_roots := si_gc_roots s; si_fuel := si_fuel s; si_fuel_reserve := si_fuel_reserve
     s; si_fuel_yield_interval := si_fuel_yield_interval s; si_epoch_deadline :=
     si_epoch_deadline s; si_pending_exception := si_pending_exception s;
     si_pending_exception_generation := si_pending_exception_generation s; si_internal_error
     := si_internal_error s |}.
Definition set_si_instances (v : list InstanceEntity) (s : StoreInner) : StoreInner :=
  {| si_store_id := si_store_id s; si_funcs := si_funcs s; si_memories := si_memories s;
     si_tables := si_tables s; si_globals := si_globals s; si_tags := si_tags s; si_exns :=
     si_exns s; si_instances := v; si_externrefs := si_externrefs s; si_gc := si_gc s;
     si_gc_roots := si_gc_roots s; si_fuel := si_fuel s; si_fuel_reserve := si_fuel_reserve
     s; si_fuel_yield_interval := si_fuel_yield_interval s; si_epoch_deadline :=
     si_epoch_deadline s; si_pending_exception := si_pending_exception s;
     si_pending_exception_generation := si_pending_exception_generation s; si_internal_error
     := si_internal_error s |}.
Definition set_si_externrefs (v : ReclaimArena ExternEntry) (s : StoreInner) : StoreInner :=
  {| si_store_id := si_store_id s; si_funcs := si_funcs s; si_memories := si_memories s;
     si_tables := si_tables s; si_globals := si_globals s; si_tags := si_tags s; si_exns :=
     si_exns s; si_instances := si_instances s; si_externrefs := v; si_gc := si_gc s;
     si_gc_roots := si_gc_roots s; si_fuel := si_fuel s; si_fuel_reserve := si_fuel_reserve
     s; si_fuel_yield_interval := si_fuel_yield_interval s; si_epoch_deadline :=
     si_epoch_deadline s; si_pending_exception := si_pending_exception s;
     si_pending_exception_generation := si_pending_exception_generation s; si_internal_error
     := si_internal_error s |}.
Definition set_si_gc (v : GcHeap) (s : StoreInner) : StoreInner :=
  {| si_store_id := si_store_id s; si_funcs := si_funcs s; si_memories := si_memories s;
     si_tables := si_tables s; si_globals := si_globals s; si_tags := si_tags s; si_exns :=
     si_exns s; si_instances := si_instances s; si_externrefs := si_externrefs s; si_gc :=
     v; si_gc_roots := si_gc_roots s; si_fuel := si_fuel s; si_fuel_reserve :=
     si_fuel_reserve s; si_fuel_yield_interval := si_fuel_yield_interval s;
     si_epoch_deadline := si_epoch_deadline s; si_pending_exception := si_pending_exception
     s; si_pending_exception_generation := si_pending_exception_generation s;
     si_internal_error := si_internal_error s |}.
Definition set_si_gc_roots (v : list (Z * RefKind)) (s : StoreInner) : StoreInner :=
  {| si_store_id := si_store_id s; si_funcs := si_funcs s; si_memories := si_memories s;
     si_tables := si_tables s; si_globals := si_globals s; si_tags := si_tags s; si_exns :=
     si_exns s; si_instances := si_instances s; si_externrefs := si_externrefs s; si_gc :=
     si_gc s; si_gc_roots := v; si_fuel := si_fuel s; si_fuel_reserve := si_fuel_reserve s;
     si_fuel_yield_interval := si_fuel_yield_interval s; si_epoch_deadline :=
     si_epoch_deadline s; si_pending_exception := si_pending_exception s;
     si_pending_exception_generation := si_pending_exception_generation s; si_internal_error
     := si_internal_error s |}.
Definition set_si_fuel (v : Z) (s : StoreInner) : StoreInner :=
  {| si_store_id := si_store_id s; si_funcs := si_funcs s; si_memories := si_memories s;
     si_tables := si_tables s; si_globals := si_globals s; si_tags := si_tags s; si_exns :=
     si_exns s; si_instances := si_instances s; si_externrefs := si_externrefs s; si_gc :=
     si_gc s; si_gc_roots := si_gc_roots s; si_fuel := v; si_fuel_reserve := si_fuel_reserve
     s; si_fuel_yield_interval := si_fuel_yield_interval s; si_epoch_deadline :=
     si_epoch_deadline s; si_pending_exception := si_pending_exception s;
     si_pending_exception_generation := si_pending_exception_generation s; si_internal_error
     := si_internal_error s |}.
Definition set_si_fuel_reserve (v : Z) (s : StoreInner) : StoreInner :=
  {| si_store_id := si_store_id s; si_funcs := si_funcs s; si_memories := si_memories s;
     si_tables := si_tables s; si_globals := si_globals s; si_tags := si_tags s; si_exns :=
     si_exns s; si_instances := si_instances s; si_externrefs := si_externrefs s; si_gc :=
     si_gc s; si_gc_roots := si_gc_roots s; si_fuel := si_fuel s; si_fuel_reserve := v;
     si_fuel_yield_interval := si_fuel_yield_interval s; si_epoch_deadline :=
     si_epoch_deadline s; si_pending_exception := si_pending_exception s;
     si_pending_exception_generation := si_pending_exception_generation s; si_internal_error
     := si_internal_error s |}.
Definition set_si_fuel_yield_interval (v : option Z) (s : StoreInner) : StoreInner :=
  {| si_store_id := si_store_id s; si_funcs := si_funcs s; si_memories := si_memories s;
     si_tables := si_tables s; si_globals := si_globals s; si_tags := si_tags s; si_exns :=
     si_exns s; si_instances := si_instances s; si_externrefs := si_externrefs s; si_gc :=
     si_gc s; si_gc_roots := si_gc_roots s; si_fuel := si_fuel s; si_fuel_reserve :=
     si_fuel_reserve s; si_fuel_yield_interval := v; si_epoch_deadline := si_epoch_deadline
     s; si_pending_exception := si_pending_exception s; si_pending_exception_generation :=
     si_pending_exception_generation s; si_internal_error := si_internal_error s |}.
Definition set_si_epoch_deadline (v : Z) (s : StoreInner) : StoreInner :=
  {| si_store_id := si_store_id s; si_funcs := si_funcs s; si_memories := si_memories s;
     si_tables := si_tables s; si_globals := si_globals s; si_tags := si_tags s; si_exns :=
     si_exns s; si_instances := si_instances s; si_externrefs := si_externrefs s; si_gc :=
     si_gc s; si_gc_roots := si_gc_roots s; si_fuel := si_fuel s; si_fuel_reserve :=
     si_fuel_reserve s; si_fuel_yield_interval := si_fuel_yield_interval s;
     si_epoch_deadline := v; si_pending_exception := si_pending_exception s;
     si_pending_exception_generation := si_pending_exception_generation s; si_internal_error
     := si_internal_error s |}.
Definition set_si_pending_exception (v : option Rooted) (s : StoreInner) : StoreInner :=
  {| si_store_id := si_store_id s; si_funcs := si_funcs s; si_memories := si_memories s;
     si_tables := si_tables s; si_globals := si_globals s; si_tags := si_tags s; si_exns :=
     si_exns s; si_instances := si_instances s; si_externrefs := si_externrefs s; si_gc :=
     si_gc s; si_gc_roots := si_gc_roots s; si_fuel := si_fuel s; si_fuel_reserve :=
     si_fuel_reserve s; si_fuel_yield_interval := si_fuel_yield_interval s;
     si_epoch_deadline := si_epoch_deadline s; si_pending_exception := v;
     si_pending_exception_generation := si_pending_exception_generation s; si_internal_error
     := si_internal_error s |}.
Definition set_si_pending_exception_generation (v : Z) (s : StoreInner) : StoreInner :=
  {| si_store_id := si_store_id s; si_funcs := si_funcs s; si_memories := si_memories s;
     si_tables := si_tables s; si_globals := si_globals s; si_tags := si_tags s; si_exns :=
     si_exns s; si_instances := si_instances s; si_externrefs := si_externrefs s; si_gc :=
     si_gc s; si_gc_roots := si_gc_roots s; si_fuel := si_fuel s; si_fuel_reserve :=
     si_fuel_reserve s; si_fuel_yield_interval := si_fuel_yield_interval s;
     si_epoch_deadline := si_epoch_deadline s; si_pending_exception := si_pending_exception
     s; si_pending_exception_generation := v; si_internal_error := si_internal_error s |}.
Definition set_si_internal_error (v : option InternalError) (s : StoreInner) : StoreInner :=
  {| si_store_id := si_store_id s; si_funcs := si_funcs s; si_memories := si_memories s;
     si_tables := si_tables s; si_globals := si_globals s; si_tags := si_tags s; si_exns :=
     si_exns s; si_instances := si_instances s; si_externrefs := si_externrefs s; si_gc :=
     si_gc s; si_gc_roots := si_gc_roots s; si_fuel := si_fuel s; si_fuel_reserve :=
     si_fuel_reserve s; si_fuel_yield_interval := si_fuel_yield_interval s;
     si_epoch_deadline := si_epoch_deadline s; si_pending_exception := si_pending_exception
     s; si_pending_exception_generation := si_pending_exception_generation s;
     si_internal_error := v |}.

Definition store_new (store_id : Z) (collecting : bool) (reservation : Z) : StoreInner :=
  {| si_store_id := store_id; si_funcs := []; si_memories := []; si_tables := []; si_globals := [];
     si_tags := []; si_exns := reclaim_default; si_instances := []; si_externrefs := reclaim_default;
     si_gc := gc_new collecting reservation; si_gc_roots := []; si_fuel := 0; si_fuel_reserve := 0;
     si_fuel_yield_interval := None; si_epoch_deadline := u_max 64; si_pending_exception := None;
     si_pending_exception_generation := 0; si_internal_error := None |}.

(** ** Fuel and epochs *)

(** [fuel()]; the [u64] addition cannot overflow when the total was set by
    [set_fuel] ([fuel_wf]). *)
Definition fuel (s : StoreInner) : Z := si_fuel s + si_fuel_reserve s.

Definition set_fuel (total : Z) (s : StoreInner) : StoreInner :=
  let active := match si_fuel_yield_interval s with
                | Some i => Z.min total i
                | None => total
                end in
  set_si_fuel_reserve (total - active) (set_si_fuel active s).

(** [interval.and_then(NonZeroU64::new)] *)
Definition set_fuel_yield_interval (interval : option Z) (s : StoreInner) : StoreInner :=
  let interval' := i ← interval; if i =? 0 then None else Some i in
  let s' := set_si_fuel_yield_interval interval' s in
  set_fuel (fuel s') s'.

Definition consume_fuel_step (s : StoreInner) : FuelStep * StoreInner :=
  if 0 <? si_fuel s then (FuelRan, set_si_fuel (si_fuel s - 1) s)
  else if 0 <? si_fuel_reserve s then (FuelNeedYield, s)
  else (FuelExhausted, s).

Definition refuel_from_reserve (s : StoreInner) : StoreInner :=
  let take := Z.min (default 0 (si_fuel_yield_interval s)) (si_fuel_reserve s) in
  set_si_fuel_reserve (si_fuel_reserve s - take) (set_si_fuel (si_fuel s + take) s).

Definition set_epoch_deadline (deadline : Z) (s : StoreInner) : StoreInner := set_si_epoch_deadline deadline s.
Definition epoch_deadline_reached (current_epoch : Z) (s : StoreInner) : bool :=
  si_epoch_deadline s <=? current_epoch.

Definition latch_internal_error (e : InternalError) (s : StoreInner) : StoreInner :=
  match si_internal_error s with
  | None => set_si_internal_error (Some e) s
  | Some _ => s
  end.
Definition take_internal_error (s : StoreInner) : option error * StoreInner :=
  (EInternal <$> si_internal_error s, set_si_internal_error None s).

(** ** Entity arenas *)

(** The handle accessors ([memory]/[table]/...): check the store, index the arena. *)
Definition arena_entity {E} (store_id : Z) (arena : list E) (h : Handle) : res E :=
  _ ← check_handle store_id (h_store h);
  expect (zget arena (h_index h)) "index out of bounds".
Definition store_memory (s : StoreInner) : Handle → res MemoryEntity := arena_entity (si_store_id s) (si_memories s).
Definition store_table (s : StoreInner) : Handle → res TableEntity := arena_entity (si_store_id s) (si_tables s).
Definition store_global (s : StoreInner) : Handle → res GlobalEntity := arena_entity (si_store_id s) (si_globals s).
Definition store_tag (s : StoreInner) : Handle → res TagEntity := arena_entity (si_store_id s) (si_tags s).
Definition store_instance (s : StoreInner) : Handle → res InstanceEntity := arena_entity (si_store_id s) (si_instances s).
Definition store_func (s : StoreInner) (f : Func) : res FuncEntity :=
  arena_entity (si_store_id s) (si_funcs s) {| h_index := fn_index f; h_store := fn_store f |}.

(** [memory_mut] and friends, as a replacement of the entity. *)
Definition put_memory (h : Handle) (m : MemoryEntity) (s : StoreInner) : StoreInner :=
  set_si_memories (<[Z.to_nat (h_index h) := m]> (si_memories s)) s.
Definition put_table (h : Handle) (t : TableEntity) (s : StoreInner) : StoreInner :=
  set_si_tables (<[Z.to_nat (h_index h) := t]> (si_tables s)) s.
Definition put_global (h : Handle) (g : GlobalEntity) (s : StoreInner) : StoreInner :=
  set_si_globals (<[Z.to_nat (h_index h) := g]> (si_globals s)) s.
Definition put_instance (h : Handle) (i : InstanceEntity) (s : StoreInner) : StoreInner :=
  set_si_instances (<[Z.to_nat (h_index h) := i]> (si_instances s)) s.

Definition stamp (s : StoreInner) (index : Z) : Handle := {| h_index := index; h_store := si_store_id s |}.
Definition alloc_func (e : FuncEntity) (s : StoreInner) : Func * StoreInner :=
  let '(i, a) := arena_alloc e (si_funcs s) in
  ({| fn_index := i; fn_store := si_store_id s |}, set_si_funcs a s).
Definition alloc_memory (e : MemoryEntity) (s : StoreInner) : Handle * StoreInner :=
  let '(i, a) := arena_alloc e (si_memories s) in (stamp s i, set_si_memories a s).
Definition alloc_table (e : TableEntity) (s : StoreInner) : Handle * StoreInner :=
  let '(i, a) := arena_alloc e (si_tables s) in (stamp s i, set_si_tables a s).
Definition alloc_global (e : GlobalEntity) (s : StoreInner) : Handle * StoreInner :=
  let '(i, a) := arena_alloc e (si_globals s) in (stamp s i, set_si_globals a s).
Definition alloc_tag (e : TagEntity) (s : StoreInner) : Handle * StoreInner :=
  let '(i, a) := arena_alloc e (si_tags s) in (stamp s i, set_si_tags a s).
Definition alloc_instance (e : InstanceEntity) (s : StoreInner) : Handle * StoreInner :=
  let '(i, a) := arena_alloc e (si_instances s) in (stamp s i, set_si_instances a s).
Definition reserve_instance (s : StoreInner) : Handle := stamp s (wrap 32 (zlen (si_instances s))).

(** An allocator of the store as a method. *)
Definition allocs {A} (f : StoreInner → A * StoreInner) : SM StoreInner A := λ s,
  let '(a, s') := f s in (Ok a, s').

(** ** GC-managed references *)

(** Allocations in the GC-managed arenas, with the methods run on their fields. *)
Definition with_gc {A} (f : GcHeap → res A * GcHeap) : SM StoreInner A := zoom si_gc set_si_gc f.

Definition push_extern (entry : ExternEntry) : SM StoreInner Z := λ s,
  let c := extern_byte_size entry in
  if can_fit_limit (si_gc s) c
  then let s1 := set_si_gc (charge c (si_gc s)) s in
       zoom si_externrefs set_si_externrefs (reclaim_alloc entry) s1
  else (Err (ETrap AllocationTooLarge), s).

Definition alloc_externref (payload : Z) : SM StoreInner Z := push_extern (EeHost payload).

Definition externref (s : StoreInner) (index : Z) : option Z :=
  match reclaim_get (si_externrefs s) index with
  | Some (EeHost v) => Some v
  | _ => None
  end.

Definition externref_checked (s : StoreInner) (h : Rooted) : res (option Z) :=
  idx ← checked (si_store_id s) h (reclaim_generation (si_externrefs s) (r_index h));
  Ok (externref s idx).

Definition extern_convert_any (v : Val) : SM StoreInner Val := λ s,
  match v with
  | VAnyRef None => (Ok (VExternRef None), s)
  | VExternRef _ => (Ok v, s)
  | VAnyRef (Some r) =>
      let handle := r_index r in
      let wrap_fresh :=
        (idx ← push_extern (EeInternal handle);
         mret (VExternRef (Some (rooted_from_raw idx RkExtern)))) : SM StoreInner Val in
      match decode_anyref_handle handle with
      | HSlot i =>
          match gc_get (si_gc s) i with
          | None => (Err (EInternal (GcMetadata "extern.convert_any referenced a missing GC object")), s)
          | Some o => match extern_index o with
                      | Some e => (Ok (VExternRef (Some (rooted_from_raw e RkExtern))), s)
                      | None => wrap_fresh s
                      end
          end
      | HI31 _ => wrap_fresh s
      end
  | _ => (Panic "extern.convert_any operand is a reference", s)
  end.

Definition any_convert_extern (v : Val) : SM StoreInner Val := λ s,
  match v with
  | VExternRef None => (Ok (VAnyRef None), s)
  | VAnyRef _ => (Ok v, s)
  | VExternRef (Some r) =>
      let idx := r_index r in
      match reclaim_get (si_externrefs s) idx with
      | Some (EeInternal h) => (Ok (anyref_value h), s)
      | Some (EeHost _) =>
          (slot ← with_gc (alloc_unreserved (extern_wrapper idx));
           mret (anyref_value (anyref_handle_slot slot))) s
      | None => (Err (EInternal (GcMetadata "any.convert_extern referenced a missing externref")), s)
      end
  | _ => (Panic "any.convert_extern operand is a reference", s)
  end.

Definition alloc_exn (e : ExnEntity) : SM StoreInner Rooted := λ s,
  let c := exn_byte_size e in
  if can_fit_limit (si_gc s) c
  then let s1 := set_si_gc (charge c (si_gc s)) s in
       (i ← zoom si_exns set_si_exns (reclaim_alloc e); mret (rooted_from_raw i RkExn)) s1
  else (Err (ETrap AllocationTooLarge), s).

Definition store_exn (s : StoreInner) (h : Rooted) : res ExnEntity :=
  ok_or (reclaim_get (si_exns s) (r_index h)) (EInternal (GcMetadata "missing in-flight exception")).
Definition exn_checked (s : StoreInner) (h : Rooted) : res ExnEntity :=
  idx ← checked (si_store_id s) h (reclaim_generation (si_exns s) (r_index h));
  ok_or (reclaim_get (si_exns s) idx) (EMsg "stale exnref (exception was collected)").

(** *** Handing references to the embedder *)
Definition stamp_func (s : StoreInner) (f : Func) : res Val :=
  _ ← check_handle (si_store_id s) (fn_store f);
  match arena_get_opt (si_funcs s) (fn_index f) with
  | None => Err (EInternal (GcMetadata "store value referenced a missing function"))
  | Some _ => Ok (VFuncRef (Some {| fn_index := fn_index f; fn_store := si_store_id s |}))
  end.

Definition stamp_anyref (s : StoreInner) (r : Rooted) : res Val :=
  match decode_anyref_handle (r_index r) with
  | HI31 _ =>
      _ ← check_handle (si_store_id s) (r_store r);
      Ok (VAnyRef (Some (rooted_from_raw_store (r_index r) (si_store_id s) RkAny)))
  | HSlot slot =>
      slot' ← gc_slot_checked (si_store_id s) (si_gc s) r;
      if negb (slot' =? slot)
      then Err (EInternal (GcMetadata "anyref handle resolved to an inconsistent GC slot"))
      else
        g ← ok_or (gc_generation (si_gc s) slot)
              (EInternal (GcMetadata "store value referenced a missing GC object"));
        Ok (VAnyRef (Some (rooted_from_raw_gen (r_index r) g (si_store_id s) RkAny)))
  end.

Definition stamp_externref (s : StoreInner) (r : Rooted) : res Val :=
  _ ← externref_checked s r;
  g ← ok_or (reclaim_generation (si_externrefs s) (r_index r))
        (EInternal (GcMetadata "store value referenced a missing externref"));
  Ok (VExternRef (Some (rooted_from_raw_gen (r_index r) g (si_store_id s) RkExtern))).

Definition stamp_exnref (s : StoreInner) (r : Rooted) : res Val :=
  _ ← exn_checked s r;
  g ← ok_or (reclaim_generation (si_exns s) (r_index r))
        (EInternal (GcMetadata "store value referenced a missing exception"));
  Ok (VExnRef (Some (rooted_from_raw_gen (r_index r) g (si_store_id s) RkExn))).

Definition stamp_host_value (s : StoreInner) (value : Val) : res Val :=
  match value with
  | VFuncRef (Some f) => stamp_func s f
  | VAnyRef (Some r) => stamp_anyref s r
  | VExternRef (Some r) => stamp_externref s r
  | VExnRef (Some r) => stamp_exnref s r
  | _ => Ok value
  end.

Definition push_gc_root (handle : Z) (kind : RefKind) (s : StoreInner) : StoreInner :=
  set_si_gc_roots (si_gc_roots s ++ [(handle, kind)]) s.
Definition gc_roots_mark (s : StoreInner) : Z := zlen (si_gc_roots s).
(** [Vec::truncate] *)
Definition gc_roots_truncate (mark : Z) (s : StoreInner) : StoreInner :=
  set_si_gc_roots (ztake mark (si_gc_roots s)) s.

Definition root_host_result (value : Val) : SM StoreInner Val := λ s,
  match stamp_host_value s value with
  | Ok v =>
      (Ok v, match v with
             | VAnyRef (Some r) => match decode_anyref_handle (r_index r) with
                                   | HSlot _ => push_gc_root (r_index r) RkAny s
                                   | HI31 _ => s
                                   end
             | VExternRef (Some r) => push_gc_root (r_index r) RkExtern s
             | VExnRef (Some r) => push_gc_root (r_index r) RkExn s
             | _ => s
             end)
  | Err e => (Err e, s)
  | Panic w => (Panic w, s)
  end.

(** [root_stored_value]: an error is latched and the value handed out as it was. *)
Definition root_stored_value (value : Val) : SM StoreInner Val := λ s,
  match root_host_result value s with
  | (Ok v, s1) => (Ok v, s1)
  | (Err e, s1) =>
      let internal := match e with
                      | EInternal i => i
                      | _ => GcMetadata "stored reference could not be handed to the host"
                      end in
      (Ok value, latch_internal_error internal s1)
  | (Panic w, s1) => (Panic w, s1)
  end.

(** *** The pending exception *)
Definition set_pending_exception (exn : Rooted) (s : StoreInner) : StoreInner :=
  set_si_pending_exception (Some exn)
    (set_si_pending_exception_generation (wrap 64 (si_pending_exception_generation s + 1)) s).
Definition restore_pending_exception (exn : option Rooted) (generation : Z) (s : StoreInner) : StoreInner :=
  set_si_pending_exception_generation generation (set_si_pending_exception exn s).
Definition take_pending_exception (s : StoreInner) : option Rooted * StoreInner :=
  (si_pending_exception s, set_si_pending_exception None s).
Definition take_pending_exception_host (s : StoreInner) : option Rooted * StoreInner :=
  match si_pending_exception s with
  | None => (None, s)
  | Some exn =>
      match reclaim_generation (si_exns s) (r_index exn) with
      | None => (None, latch_internal_error (GcMetadata "pending exception referenced a missing exception") s)
      | Some g =>
          (Some (rooted_from_raw_gen (r_index exn) g (si_store_id s) RkExn),
           push_gc_root (r_index exn) RkExn (set_si_pending_exception None s))
      end
  end.

(** ** Fuel *)

(** What [set_fuel]/[set_fuel_yield_interval] establish: a reserve exists only under
    a positive interval, and the total fits [u64]. *)
Record fuel_wf (s : StoreInner) : Prop := {
  fw_fuel : 0 ≤ si_fuel s;
  fw_reserve : 0 ≤ si_fuel_reserve s;
  fw_total : fuel s < 2 ^ 64;
  fw_interval : match si_fuel_yield_interval s with
                | Some i => 0 < i < 2 ^ 64
                | None => si_fuel_reserve s = 0
                end;
}.

Lemma set_fuel_wf total s :
  u_ok 64 total → match si_fuel_yield_interval s with Some i => 0 < i < 2 ^ 64 | None => True end →
  fuel_wf (set_fuel total s) ∧ fuel (set_fuel total s) = total ∧
  si_fuel_yield_interval (set_fuel total s) = si_fuel_yield_interval s.
Proof.
  unfold u_ok, set_fuel, fuel. intros Ht Hi.
  destruct (si_fuel_yield_interval s) as [i|] eqn:E; (split; [constructor|]); unfold fuel; cbn;
    rewrite ?E; cbn; lia || (split; [lia|done]).
Qed.

Lemma set_fuel_yield_interval_wf interval s :
  fuel_wf s → opt_all (u_ok 64) interval →
  fuel_wf (set_fuel_yield_interval interval s) ∧ fuel (set_fuel_yield_interval interval s) = fuel s.
Proof.
  intros [] Hi. unfold set_fuel_yield_interval.
  set (s' := set_si_fuel_yield_interval _ s).
  assert (fuel s' = fuel s) as Hf by done.
  destruct (set_fuel_wf (fuel s') s') as (? & ? & _).
  - rewrite Hf. unfold u_ok, fuel in *. lia.
  - subst s'. cbn. destruct interval as [i|]; cbn; [|done].
    unfold opt_all, u_ok in Hi. destruct (Z.eqb_spec i 0); [done|lia].
  - by rewrite Hf in *.
Qed.

Lemma consume_fuel_step_spec s :
  fuel_wf s →
  match consume_fuel_step s with
  | (FuelRan, s') => fuel_wf s' ∧ fuel s' = fuel s - 1 ∧ 0 < fuel s
  | (FuelNeedYield, s') => s' = s ∧ 0 < fuel s ∧ si_fuel s = 0
  | (FuelExhausted, s') => s' = s ∧ fuel s = 0
  end.
Proof.
  intros []. unfold consume_fuel_step, fuel in *.
  destruct (Z.ltb_spec 0 (si_fuel s)); [|destruct (Z.ltb_spec 0 (si_fuel_reserve s))].
  - split; [constructor; unfold fuel; cbn; lia || done|cbn; lia].
  - split; [done|lia].
  - split; [done|lia].
Qed.

Lemma refuel_spec s :
  fuel_wf s → fuel_wf (refuel_from_reserve s) ∧ fuel (refuel_from_reserve s) = fuel s ∧
  (si_fuel s = 0 → 0 < fuel s → 0 < si_fuel (refuel_from_reserve s)).
Proof.
  intros []. unfold refuel_from_reserve, fuel in *.
  destruct (si_fuel_yield_interval s) as [i|] eqn:E; cbn;
    (split_and!; [constructor; unfold fuel; cbn; rewrite ?E; cbn; lia|cbn; lia..]).
Qed.

(** The async driver's loop over the fuel gate: charge a unit per operation; at a
    yield point release one interval from the reserve and charge again.  The
    result is how many of [n] operations ran, and whether fuel ended. *)
Fixpoint drive (n : nat) (s : StoreInner) : nat * bool * StoreInner :=
  match n with
  | O => (O, false, s)
  | S n' =>
      match consume_fuel_step s with
      | (FuelRan, s') => let '(k, e, s'') := drive n' s' in (S k, e, s'')
      | (FuelExhausted, s') => (O, true, s')
      | (FuelNeedYield, s') =>
          match consume_fuel_step (refuel_from_reserve s') with
          | (FuelRan, s'') => let '(k, e, s3) := drive n' s'' in (S k, e, s3)
          | (_, s'') => (O, true, s'')
          end
      end
  end.

Lemma drive_spec n s :
  fuel_wf s →
  let '(k, e, s') := drive n s in
  Z.of_nat k = Z.min (Z.of_nat n) (fuel s) ∧ (e = true ↔ fuel s < Z.of_nat n) ∧ fuel_wf s' ∧
  fuel s' = fuel s - Z.of_nat k.
Proof.
  revert s. induction n as [|n IH]; intros s Hwf; cbn [drive].
  - pose proof (fw_fuel _ Hwf). pose proof (fw_reserve _ Hwf). unfold fuel in *.
    split_and!; [lia|split; [done|lia]|done|lia].
  - pose proof (consume_fuel_step_spec s Hwf) as Hc.
    destruct (consume_fuel_step s) as [[] s1].
    + destruct Hc as (Hwf1 & Hf & ?). specialize (IH s1 Hwf1).
      destruct (drive n s1) as [[k e] s2]. destruct IH as (? & He & ? & ?).
      split_and!; [lia|rewrite He; lia|done|lia].
    + destruct Hc as (-> & ? & ?). destruct (refuel_spec s Hwf) as (Hwf1 & Hf1 & Hp).
      pose proof (consume_fuel_step_spec _ Hwf1) as Hc.
      unfold consume_fuel_step in Hc |- *. specialize (Hp ltac:(done) ltac:(done)).
      destruct (Z.ltb_spec 0 (si_fuel (refuel_from_reserve s))); [|lia].
      destruct Hc as (Hwf2 & Hf2 & _).
      match goal with |- context [drive n ?t] => specialize (IH t Hwf2); destruct (drive n t) as [[k e] s2] end.
      destruct IH as (? & He & ? & ?). split_and!; [lia|rewrite He; lia|done|lia].
    + destruct Hc as (-> & ?). split_and!; [lia|split; [lia|done]|done|lia].
Qed.

(** Fuel is exact whatever the yield interval.  After [set_fuel total]
    under any interval, a run of [n] operations executes [min n total] of them
    (yield points release fuel from the reserve and never lose or mint any) and
    ends out of fuel exactly when [total < n]; the remaining fuel is what was
    not spent. *)
Theorem fuel_exact total interval n s :
  fuel_wf s → u_ok 64 total → opt_all (u_ok 64) interval →
  let '(k, exhausted, s') := drive n (set_fuel total (set_fuel_yield_interval interval s)) in
  Z.of_nat k = Z.min (Z.of_nat n) total ∧ (exhausted = true ↔ total < Z.of_nat n) ∧
  fuel s' = total - Z.of_nat k.
Proof.
  intros Hwf Ht Hi. destruct (set_fuel_yield_interval_wf interval s Hwf Hi) as [Hwf1 _].
  destruct (set_fuel_wf total (set_fuel_yield_interval interval s) Ht) as (Hwf2 & Hf & _).
  { destruct (si_fuel_yield_interval _) eqn:E; [|done]. pose proof (fw_interval _ Hwf1) as H. by rewrite E in H. }
  pose proof (drive_spec n _ Hwf2) as H. rewrite Hf in H.
  destruct (drive n _) as [[k e] s']. naive_solver.
Qed.

Lemma fuel_wf_new id c r : fuel_wf (store_new id c r).
Proof. constructor; unfold fuel; cbn; done. Qed.

(** 10 units in slices of 3: an eleven-operation run ends out of fuel. *)
Lemma fuel_exact_witness :
  let '(k, exhausted, s') := drive 11 (set_fuel 10 (set_fuel_yield_interval (Some 3) (store_new 1 true 0))) in
  Z.of_nat k = Z.min (Z.of_nat 11) 10 ∧ (exhausted = true ↔ 10 < Z.of_nat 11) ∧ fuel s' = 10 - Z.of_nat k.
Proof.
  apply (fuel_exact 10 (Some 3) 11 (store_new 1 true 0));
    [exact (fuel_wf_new 1 true 0)|unfold u_ok; lia|unfold opt_all, u_ok; lia].
Defined.

(** ** The extern/any bridge *)
Record managed_wf (s : StoreInner) : Prop := {
  mw_gc : heap_wf (si_gc s);
  mw_externs : reclaim_wf (si_externrefs s);
  mw_exns : reclaim_wf (si_exns s);
}.

Lemma managed_wf_new id c r : managed_wf (store_new id c r).
Proof.
  constructor; cbn; [apply heap_wf_new|..]; (constructor; cbn; try done; try by constructor);
    try (intros i; rewrite zget_nil; set_solver); intros i g; by rewrite zget_nil.
Qed.

Lemma extern_index_wrapper idx : u_ok 32 idx → extern_index (extern_wrapper idx) = Some idx.
Proof.
  intros H. unfold extern_index, extern_wrapper. cbn [obj_kind obj_data].
  rewrite zslice_is_Some by (rewrite ?zlen_to_le; lia).
  rewrite zdrop_0, ztake_all, from_to_le by (rewrite ?zlen_to_le; lia).
  f_equal. apply Z.mod_small, H.
Qed.

Lemma decode_slot_small i : 0 ≤ i < NULL_REF → decode_anyref_handle i = HSlot i.
Proof.
  intros Hi. unfold decode_anyref_handle, NULL_REF in *.
  by rewrite Z.land_comm, tag_disjoint by lia.
Qed.

Lemma push_extern_run e s :
  managed_wf s → zlen (ra_slots (si_externrefs s)) + 1 < 2 ^ 32 →
  push_extern e s = (Err (ETrap AllocationTooLarge), s) ∨
  ∃ i s', push_extern e s = (Ok i, s') ∧ managed_wf s' ∧
    reclaim_get (si_externrefs s) i = None ∧ reclaim_get (si_externrefs s') i = Some e ∧
    (∀ j, j ≠ i → reclaim_get (si_externrefs s') j = reclaim_get (si_externrefs s) j) ∧
    (∀ j, gc_get (si_gc s') j = gc_get (si_gc s) j).
Proof.
  intros Hwf Hs. unfold push_extern. destruct (can_fit_limit _ _); [right|by left].
  set (s1 := set_si_gc _ s).
  destruct (reclaim_alloc_spec e (si_externrefs s1) (mw_externs _ Hwf) Hs) as (i & a' & Ha & Hwf' & ? & ? & ? & _).
  unfold zoom. rewrite Ha. eexists _, _; split; [done|].
  split_and!; try done. destruct Hwf as [[Hg Hn] ? ?]. constructor; cbn; try done.
Qed.

(** [any.convert_extern] and [extern.convert_any] are inverse to each other.  An externref
    to a live host payload internalizes to an [anyref] that externalizes back to
    the same externref entry; an [anyref] that is not itself a wrapped extern (an
    [i31] or a struct or array) externalizes to an externref that internalizes
    back to the same handle.  Neither second conversion changes the store. *)
Theorem convert_roundtrip s r v s1 :
  managed_wf s → zlen (ra_slots (si_externrefs s)) + 1 < 2 ^ 32 → u_ok 32 (r_index r) →
  (∀ p, reclaim_get (si_externrefs s) (r_index r) = Some (EeHost p) →
     any_convert_extern (VExternRef (Some r)) s = (Ok v, s1) →
     extern_convert_any v s1 = (Ok (VExternRef (Some (rooted_from_raw (r_index r) RkExtern))), s1)) ∧
  ((∀ i o, decode_anyref_handle (r_index r) = HSlot i → gc_get (si_gc s) i = Some o → obj_kind o ≠ ObjExtern) →
     extern_convert_any (VAnyRef (Some r)) s = (Ok v, s1) →
     any_convert_extern v s1 = (Ok (VAnyRef (Some (rooted_from_raw (r_index r) RkAny))), s1)).
Proof.
  intros Hwf Hs Hr. split.
  - intros p Hp. unfold any_convert_extern. rewrite Hp. unfold with_gc. rewrite bind_Ok.
    intros (slot & s2 & Ha & Hret). cbv [mret M_ret] in Hret. injection Hret as <- <-.
    unfold zoom, alloc_unreserved in Ha.
    destruct (can_fit_limit _ _); [|by injection Ha].
    pose proof (gc_alloc_spec (extern_wrapper (r_index r)) (si_gc s) (mw_gc _ Hwf))
      as [(H & _)|(i & h' & H & _ & Hi & _ & Hget & _)]; rewrite H in Ha; [done|injection Ha; intros <- <-; clear Ha].
    unfold extern_convert_any, anyref_value, anyref_handle_slot. cbn [r_index rooted_from_raw].
    rewrite decode_slot_small by done. cbn [si_gc set_si_gc]. rewrite Hget.
    by rewrite extern_index_wrapper.
  - intros Hne. unfold extern_convert_any.
    assert (∀ v s1, (idx ← push_extern (EeInternal (r_index r));
      mret (VExternRef (Some (rooted_from_raw idx RkExtern)))) s = (Ok v, s1) →
      any_convert_extern v s1 = (Ok (VAnyRef (Some (rooted_from_raw (r_index r) RkAny))), s1)) as Hfresh.
    { clear v s1. intros v s1. rewrite bind_Ok. intros (i & s2 & Hp & Hret).
      cbv [mret M_ret] in Hret. injection Hret as <- <-.
      destruct (push_extern_run (EeInternal (r_index r)) s Hwf Hs) as [H|(i' & s' & H & _ & _ & Hget & _)];
        rewrite H in Hp; [done|]. injection Hp as -> ->.
      unfold any_convert_extern. cbn [r_index rooted_from_raw]. by rewrite Hget. }
    destruct (decode_anyref_handle (r_index r)) as [x|i] eqn:Hd; [by apply Hfresh|].
    destruct (gc_get (si_gc s) i) as [o|] eqn:Ho; [|done].
    specialize (Hne i o eq_refl Ho). unfold extern_index.
    destruct (obj_kind o); try done; by apply Hfresh.
Qed.

Lemma convert_roundtrip_witness :
  let s := set_si_externrefs {| ra_slots := [Some (EeHost 99)]; ra_generations := [0]; ra_free := [] |}
             (store_new 1 true 0) in
  let s1 := (any_convert_extern (VExternRef (Some (rooted_from_raw 0 RkExtern))) s).2 in
  extern_convert_any (VAnyRef (Some (rooted_from_raw 0 RkAny))) s1
  = (Ok (VExternRef (Some (rooted_from_raw 0 RkExtern))), s1).
Proof.
  intros s s1.
  assert (Hwf : managed_wf s).
  { constructor; [apply heap_wf_new|apply slots_wf_single; unfold u_max; lia|apply (managed_wf_new 1 true 0)]. }
  destruct (convert_roundtrip s (rooted_from_raw 0 RkExtern) (VAnyRef (Some (rooted_from_raw 0 RkAny))) s1 Hwf)
    as [H _]; [reflexivity|vm_compute; intuition congruence|].
  apply (H 99); reflexivity.
Defined.

(** ** Handles given to the embedder *)

(** A handle stamped by the store: minted for this store, with a real generation. *)
Definition stamped (s : StoreInner) (r : Rooted) : Prop :=
  r_store r = si_store_id s ∧ 0 ≤ r_generation r < UNCHECKED_GENERATION.

Lemma check_handle_self id : check_handle id id = Ok tt.
Proof. unfold check_handle. by rewrite Z.eqb_refl, orb_true_r. Qed.

Lemma checked_stamped id g i k :
  0 ≤ g < UNCHECKED_GENERATION → checked id (rooted_from_raw_gen i g id k) (Some g) = Ok i.
Proof. intros. unfold checked. cbn. rewrite check_handle_self. cbn. by rewrite Z.eqb_refl, andb_false_r. Qed.

Lemma reclaim_gen_bound {E} (a : ReclaimArena E) i g :
  reclaim_wf a → reclaim_generation a i = Some g → 0 ≤ g < UNCHECKED_GENERATION.
Proof. intros [] H. by eapply sw_gens. Qed.

Lemma stamp_externref_ok s r v :
  managed_wf s → stamp_externref s r = Ok v →
  ∃ r', v = VExternRef (Some r') ∧ r_index r' = r_index r ∧ stamped s r' ∧
    externref_checked s r' = Ok (externref s (r_index r)).
Proof.
  intros Hwf. unfold stamp_externref.
  destruct (externref_checked s r); cbn; [|done..].
  destruct (reclaim_generation (si_externrefs s) (r_index r)) as [g|] eqn:Hg; cbn; [|done].
  intros [= <-]. eexists; split; [done|]. cbn.
  pose proof (reclaim_gen_bound _ _ _ (mw_externs _ Hwf) Hg).
  split_and!; [done|done|]. unfold externref_checked. cbn. rewrite Hg, checked_stamped by done. done.
Qed.

Lemma stamp_exnref_ok s r v :
  managed_wf s → stamp_exnref s r = Ok v →
  ∃ r' e, v = VExnRef (Some r') ∧ r_index r' = r_index r ∧ stamped s r' ∧
    reclaim_get (si_exns s) (r_index r) = Some e ∧ exn_checked s r' = Ok e.
Proof.
  intros Hwf. unfold stamp_exnref, exn_checked at 1, checked at 1.
  destruct (check_handle _ _); cbn; [|done..].
  destruct (reclaim_generation (si_exns s) (r_index r)) as [g|] eqn:Hg; cbn; [|done].
  destruct (negb _ && _); cbn; [done|].
  destruct (reclaim_get (si_exns s) (r_index r)) as [e|] eqn:He; cbn; [|done].
  intros [= <-]. eexists _, _; split; [done|]. cbn.
  pose proof (reclaim_gen_bound _ _ _ (mw_exns _ Hwf) Hg).
  split_and!; [done|done|done|]. unfold exn_checked. cbn. rewrite Hg, checked_stamped by done. cbn. by rewrite He.
Qed.

Lemma stamp_anyref_ok s r v :
  managed_wf s → stamp_anyref s r = Ok v →
  ∃ r', v = VAnyRef (Some r') ∧ r_index r' = r_index r ∧ r_store r' = si_store_id s ∧
    ∀ slot, decode_anyref_handle (r_index r) = HSlot slot →
      stamped s r' ∧ gc_slot_checked (si_store_id s) (si_gc s) r' = Ok slot.
Proof.
  intros Hwf. unfold stamp_anyref.
  destruct (decode_anyref_handle (r_index r)) as [x|slot] eqn:Hd.
  { destruct (check_handle _ _); cbn; [|done..]. intros [= <-]. eexists; split; [done|]. cbn. done. }
  unfold gc_slot_checked at 1. destruct (check_handle _ _); cbn; [|done..]. rewrite Hd.
  destruct (gc_get (si_gc s) slot) as [o|] eqn:Ho; cbn; [|done].
  destruct (negb _ && _); cbn; [done|]. rewrite Z.eqb_refl. cbn.
  destruct (gc_generation (si_gc s) slot) as [g|] eqn:Hg; cbn; [|done]. intros [= <-].
  assert (0 ≤ g < UNCHECKED_GENERATION) by (destruct Hwf as [[[] _] _ _]; by eapply sw_gens).
  eexists; split; [done|]. cbn. split_and!; [done..|]. intros slot' [= <-]. split; [done|].
  unfold gc_slot_checked. cbn. rewrite check_handle_self. cbn. rewrite Hd, Ho. cbn.
  rewrite Hg. rewrite bool_decide_true by done. by rewrite andb_false_r.
Qed.

(** A value handed to the embedder is owned by it.  When [root_host_result]
    succeeds, a managed reference comes back with the same raw index, this
    store's id and the slot's current generation, so the store's own checked
    accessors accept it; and it has been pushed on the host root list (an [i31]
    excepted), so the collector will keep its referent. *)
Theorem host_result_owned s v v' s' :
  managed_wf s → root_host_result v s = (Ok v', s') →
  match v with
  | VExternRef (Some r) => ∃ r', v' = VExternRef (Some r') ∧ r_index r' = r_index r ∧ stamped s r' ∧
      externref_checked s' r' = Ok (externref s (r_index r)) ∧ (r_index r, RkExtern) ∈ si_gc_roots s'
  | VExnRef (Some r) => ∃ r' e, v' = VExnRef (Some r') ∧ r_index r' = r_index r ∧ stamped s r' ∧
      exn_checked s' r' = Ok e ∧ (r_index r, RkExn) ∈ si_gc_roots s'
  | VAnyRef (Some r) => ∃ r', v' = VAnyRef (Some r') ∧ r_index r' = r_index r ∧
      ∀ slot, decode_anyref_handle (r_index r) = HSlot slot →
        stamped s r' ∧ gc_slot_checked (si_store_id s') (si_gc s') r' = Ok slot ∧
        (r_index r, RkAny) ∈ si_gc_roots s'
  | VFuncRef (Some f) => v' = VFuncRef (Some {| fn_index := fn_index f; fn_store := si_store_id s |}) ∧ s' = s
  | _ => v' = v ∧ s' = s
  end.
Proof.
  intros Hwf. unfold root_host_result.
  destruct (stamp_host_value s v) as [w|e|w] eqn:Hs; [|done..]. intros [= <- <-].
  destruct v as [| | | | |[f|]|[r|]|[r|]|[r|]]; cbn in Hs; try (by injection Hs as <-).
  - unfold stamp_func in Hs. destruct (check_handle _ _); cbn in Hs; [|done..].
    destruct (arena_get_opt _ _); [|done]. by injection Hs as <-.
  - apply stamp_externref_ok in Hs as (r' & -> & Hi & Hst & Hc); [|done].
    exists r'. rewrite Hi. do 2 (split; [done|]). split; [exact Hst|]. split; [exact Hc|].
    cbn. set_solver.
  - apply stamp_anyref_ok in Hs as (r' & -> & Hi & Hst & Hc); [|done].
    exists r'. rewrite Hi. do 2 (split; [done|]). intros slot Hd. destruct (Hc slot Hd) as [? H].
    rewrite Hd. split; [done|]. split; [exact H|]. cbn. set_solver.
  - apply stamp_exnref_ok in Hs as (r' & e & -> & Hi & Hst & _ & Hc); [|done].
    exists r', e. rewrite Hi. do 2 (split; [done|]). split; [exact Hst|]. split; [exact Hc|].
    cbn. set_solver.
Qed.

Lemma host_result_owned_witness :
  let s := set_si_exns {| ra_slots := [Some {| xe_tag := {| h_index := 0; h_store := 1 |}; xe_args := [] |}];
                          ra_generations := [4]; ra_free := [] |} (store_new 1 true 0) in
  let s' := (root_host_result (VExnRef (Some (rooted_from_raw 0 RkExn))) s).2 in
  ∃ r' e, r_generation r' = 4 ∧ exn_checked s' r' = Ok e ∧ (0, RkExn) ∈ si_gc_roots s'.
Proof.
  intros s s'.
  assert (Hwf : managed_wf s).
  { constructor; [apply heap_wf_new|apply (managed_wf_new 1 true 0)|apply slots_wf_single; unfold u_max; lia]. }
  destruct (host_result_owned s (VExnRef (Some (rooted_from_raw 0 RkExn)))
    (VExnRef (Some (rooted_from_raw_gen 0 4 1 RkExn))) s' Hwf eq_refl) as (r' & e & [= <-] & _ & _ & H & Hin).
  exists (rooted_from_raw_gen 0 4 1 RkExn), e. split; [reflexivity|]. split; [exact H|exact Hin].
Defined.
