(* ===== verification/Collect.v ===== *)
(** * Collect: the mark-sweep collector (src/src/store/gc_collect.rs)

    Root seeding, the unified worklist trace through per-type layouts, and the
    collection.  The main result: a collection of a store whose reachable
    references are well formed keeps exactly the reachable entries of the three
    arenas, with their contents and generations, frees the rest, and settles the
    byte account; a store with a corrupt reachable reference is refused and left
    as it was.

    The registry's field descriptors ([Engine::struct_fields]/[array_field]) are
    the two functions of [EngineTypes]. *)
From S2P Require Import Prelude Types Layout Codec Arena Heap Op Entity Store.

Inductive Reached : Type := RGc (i : Z) | RExtern (i : Z) | RExn (i : Z).
#[export] Instance Reached_eq_dec : EqDecision Reached.
Proof. solve_decision. Defined.

(** What a body looks up in the engine's type registry by canonical id. *)
Class EngineTypes := {
  struct_fields : Z → option (list FieldType);
  array_field : Z → option FieldType;
}.

Definition gc_metadata {A} (why : string) : res A := Err (EInternal (GcMetadata why)).

(** The [seed_*] helpers, as the entries they push. *)
Definition seed_handle (handle : Z) (kind : RefKind) : list Reached :=
  if handle =? NULL_REF then []
  else match kind with
       | RkFunc => []
       | RkAny => match decode_anyref_handle handle with
                  | HSlot i => [RGc i]
                  | HI31 _ => []
                  end
       | RkExtern => [RExtern handle]
       | RkExn => [RExn handle]
       end.

Definition seed_val (v : Val) : list Reached :=
  match v with
  | VExternRef (Some r) => seed_handle (r_index r) RkExtern
  | VAnyRef (Some r) => seed_handle (r_index r) RkAny
  | VExnRef (Some r) => seed_handle (r_index r) RkExn
  | _ => []
  end.

Definition seed_ref (r : Ref) : list Reached :=
  match r with
  | RefExtern (Some r) => seed_handle (r_index r) RkExtern
  | RefAny (Some r) => seed_handle (r_index r) RkAny
  | RefExn (Some r) => seed_handle (r_index r) RkExn
  | _ => []
  end.

Definition seed_slot (slot : Slot) (data : list Z) : res (list Reached) :=
  match slot with
  | SlotRef offset kind =>
      match checked_add usize_bits offset 4 with
      | None => gc_metadata "reference slot offset overflow"
      | Some end_ =>
          match zslice data offset end_ with
          | None => gc_metadata "reference slot exceeds object body"
          | Some bytes => Ok (seed_handle (from_le_bytes bytes) kind)
          end
      end
  | SlotScalar _ _ => Ok []
  end.

(** [for slot in ..] over the field or element slots. *)
Fixpoint seed_slots (slots : list Slot) (data : list Z) : res (list Reached) :=
  match slots with
  | [] => Ok []
  | slot :: rest =>
      here ← seed_slot slot data; later ← seed_slots rest data; Ok (here ++ later)
  end.

Section collect.
  Context `{EngineTypes}.

Definition trace_gc (s : StoreInner) (index : Z) : res (list Reached) :=
  match gc_get (si_gc s) index with
  | None => gc_metadata "marked GC object is missing"
  | Some obj =>
      match obj_kind obj with
      | ObjStruct =>
          match struct_fields (obj_type obj) with
          | None => gc_metadata "struct type metadata is missing"
          | Some fields => seed_slots (sl_fields (for_struct fields)) (obj_data obj)
          end
      | ObjArray =>
          match array_field (obj_type obj) with
          | None => gc_metadata "array type metadata is missing"
          | Some field =>
              let layout := for_array field in
              if (al_stride layout =? 0) || negb (zlen (obj_data obj) mod al_stride layout =? 0)
              then gc_metadata "array body does not match its element layout"
              else seed_slots (elem_at layout <$> seqZ 0 (array_len obj (al_stride layout))) (obj_data obj)
          end
      | ObjExtern =>
          match extern_index obj with
          | None => gc_metadata "extern wrapper body is truncated"
          | Some idx => Ok [RExtern idx]
          end
      end
  end.

Definition trace_extern (s : StoreInner) (index : Z) : res (list Reached) :=
  match reclaim_get (si_externrefs s) index with
  | None => gc_metadata "dangling externref root"
  | Some (EeInternal handle) => Ok (seed_handle handle RkAny)
  | Some (EeHost _) => Ok []
  end.

Definition trace_exn (s : StoreInner) (index : Z) : res (list Reached) :=
  match reclaim_get (si_exns s) index with
  | None => gc_metadata "dangling exception root"
  | Some exn => Ok (concat (seed_val <$> xe_args exn))
  end.

Definition seed_entity_roots (s : StoreInner) : list Reached :=
  concat ((λ g, seed_val (ge_value g)) <$> si_globals s) ++
  concat ((λ t, concat (seed_ref <$> te_elems t)) <$> si_tables s) ++
  concat ((λ i, concat ((λ seg, concat (seed_ref <$> seg)) <$> ie_elems i)) <$> si_instances s) ++
  match si_pending_exception s with Some e => [RExn (r_index e)] | None => [] end ++
  concat ((λ '(handle, kind), seed_handle handle kind) <$> si_gc_roots s).

Definition collect_roots (stack_roots : list (Z * RefKind)) (s : StoreInner) : list Reached :=
  concat ((λ '(handle, kind), seed_handle handle kind) <$> stack_roots) ++ seed_entity_roots s.

(** The worklist loop; [None] is running out of fuel. *)
Fixpoint trace_loop (fuel : nat) (work : list Reached) (ext exn : gset Z) (s : StoreInner)
    : option (res (gset Z * gset Z) * StoreInner) :=
  match fuel with
  | O => None
  | S fuel' =>
      match vec_pop work with
      | None => Some (Ok (ext, exn), s)
      | Some (work', RGc i) =>
          match gc_get (si_gc s) i with
          | None => Some (gc_metadata "dangling GC root", s)
          | Some _ =>
              let '(new, h) := mark i (si_gc s) in
              let s' := set_si_gc h s in
              if new
              then match trace_gc s' i with
                   | Ok pushes => trace_loop fuel' (work' ++ pushes) ext exn s'
                   | Err e => Some (Err e, s')
                   | Panic w => Some (Panic w, s')
                   end
              else trace_loop fuel' work' ext exn s'
          end
      | Some (work', RExtern i) =>
          if decide (i ∈ ext) then trace_loop fuel' work' ext exn s
          else match trace_extern s i with
               | Ok pushes => trace_loop fuel' (work' ++ pushes) ({[ i ]} ∪ ext) exn s
               | Err e => Some (Err e, s)
               | Panic w => Some (Panic w, s)
               end
      | Some (work', RExn i) =>
          if decide (i ∈ exn) then trace_loop fuel' work' ext exn s
          else match trace_exn s i with
               | Ok pushes => trace_loop fuel' (work' ++ pushes) ext ({[ i ]} ∪ exn) s
               | Err e => Some (Err e, s)
               | Panic w => Some (Panic w, s)
               end
      end
  end.

Definition node_children (s : StoreInner) (n : Reached) : res (list Reached) :=
  match n with
  | RGc i => match gc_get (si_gc s) i with
             | None => gc_metadata "dangling GC root"
             | Some _ => trace_gc s i
             end
  | RExtern i => trace_extern s i
  | RExn i => trace_exn s i
  end.

(** Every entry of the three arenas. *)
Definition all_nodes (s : StoreInner) : list Reached :=
  (RGc <$> seqZ 0 (zlen (gc_slots (si_gc s)))) ++
  (RExtern <$> seqZ 0 (zlen (ra_slots (si_externrefs s)))) ++
  (RExn <$> seqZ 0 (zlen (ra_slots (si_exns s)))).
Definition degree (s : StoreInner) (n : Reached) : Z :=
  match node_children s n with Ok cs => zlen cs | _ => 0 end.

(** Each entry is visited at most once, so the loop pops at most the roots plus
    every entry's references. *)
Definition trace_fuel (work : list Reached) (s : StoreInner) : nat :=
  S (Z.to_nat (zlen work + zsum (degree s) (all_nodes s))).

Definition trace_reachable (work : list Reached) (s : StoreInner)
    : option (res (gset Z * gset Z) * StoreInner) :=
  trace_loop (trace_fuel work s) work ∅ ∅ s.

Definition collect (stack_roots : list (Z * RefKind)) (s : StoreInner) : option (res unit * StoreInner) :=
  if negb (gc_collecting (si_gc s)) then Some (Ok tt, s)
  else
    r ← trace_reachable (collect_roots stack_roots s) s;
    Some match r with
         | (Panic w, s1) => (Panic w, s1)
         | (Err e, s1) => (Err e, set_si_gc (clear_marks (si_gc s1)) s1)
         | (Ok (ext, exn), s1) =>
             (freed ← zoom si_externrefs set_si_externrefs
                        (reclaim_sweep (λ i, bool_decide (i ∈ ext)) extern_byte_size);
              _ ← modify (λ s, set_si_gc (credit freed (si_gc s)) s);
              freed ← zoom si_exns set_si_exns
                        (reclaim_sweep (λ i, bool_decide (i ∈ exn)) exn_byte_size);
              _ ← modify (λ s, set_si_gc (credit freed (si_gc s)) s);
              zoom si_gc set_si_gc gc_sweep) s1
         end.
End collect.

(** ** Reachability *)
Section reach.
  Context (ch : Reached → res (list Reached)).

Definition edge (a b : Reached) : Prop := ∃ cs, ch a = Ok cs ∧ b ∈ cs.
Definition reach (roots : list Reached) (n : Reached) : Prop := ∃ r, r ∈ roots ∧ rtc edge r n.

Lemma reach_root roots n : n ∈ roots → reach roots n.
Proof. intros. exists n. split; [done|apply rtc_refl]. Qed.
Lemma reach_edge roots a b : reach roots a → edge a b → reach roots b.
Proof. intros (r & ? & Hr) ?. exists r. split; [done|]. by eapply rtc_r. Qed.

(** A visited set closed up to the pending worklist. *)
Record trace_inv (roots work : list Reached) (vis : Reached → bool) : Prop := {
  ti_vis : ∀ n, vis n = true → reach roots n;
  ti_work : ∀ n, n ∈ work → reach roots n;
  ti_roots : ∀ n, n ∈ roots → vis n = true ∨ n ∈ work;
  ti_closed : ∀ n, vis n = true → ∃ cs, ch n = Ok cs ∧ ∀ c, c ∈ cs → vis c = true ∨ c ∈ work;
}.

Lemma trace_inv_done roots vis :
  trace_inv roots [] vis → ∀ n, vis n = true ↔ reach roots n.
Proof.
  intros [Hv Hw Hr Hc] n. split; [apply Hv|]. intros (r & Hin & Hrtc).
  assert (vis r = true) as Hvr by (destruct (Hr r Hin); [done|set_solver]).
  clear Hin. induction Hrtc as [|a b c (cs & Hcs & Hb) _ IH]; [done|]. apply IH.
  destruct (Hc a Hvr) as (cs' & Hcs' & Hall). assert (cs' = cs) as -> by congruence.
  destruct (Hall b Hb); [done|set_solver].
Qed.

Lemma trace_inv_skip roots work n vis :
  trace_inv roots (work ++ [n]) vis → vis n = true → trace_inv roots work vis.
Proof.
  intros [Hv Hw Hr Hc] Hn. constructor; [done|intros m Hm; apply Hw; set_solver|..].
  - intros m Hm. destruct (Hr m Hm) as [|Hin]; [by left|].
    apply elem_of_app in Hin as [|Heq%list_elem_of_singleton]; [by right|subst; by left].
  - intros m Hm. destruct (Hc m Hm) as (cs & ? & Hall). exists cs. split; [done|]. intros c Hin.
    destruct (Hall c Hin) as [|Hin']; [by left|].
    apply elem_of_app in Hin' as [|Heq%list_elem_of_singleton]; [by right|subst; by left].
Qed.

Lemma trace_inv_visit roots work n vis vis' cs :
  trace_inv roots (work ++ [n]) vis → ch n = Ok cs →
  (∀ m, vis' m = vis m || bool_decide (m = n)) → trace_inv roots (work ++ cs) vis'.
Proof.
  intros [Hv Hw Hr Hc] Hcs Hvis.
  assert (reach roots n) as Hn by (apply Hw; set_solver).
  assert (∀ m, m ∈ work ++ [n] → vis' m = true ∨ m ∈ work ++ cs) as Hmove.
  { intros m Hm. apply elem_of_app in Hm as [Hm|Hm]; [right; set_solver|].
    apply list_elem_of_singleton in Hm as ->. left. by rewrite Hvis, bool_decide_true, orb_true_r. }
  assert (∀ m, vis m = true → vis' m = true) as Hmono by (intros m Hm; by rewrite Hvis, Hm).
  constructor.
  - intros m. rewrite Hvis. destruct (vis m) eqn:Hm; [intros _; by apply Hv|].
    cbn. intros ->%bool_decide_eq_true. done.
  - intros m [Hm|Hm]%elem_of_app; [apply Hw; set_solver|]. eapply reach_edge; [exact Hn|by exists cs].
  - intros m Hm. destruct (Hr m Hm) as [?%Hmono|?]; [by left|by apply Hmove].
  - intros m. rewrite Hvis. destruct (vis m) eqn:Hm.
    + intros _. destruct (Hc m Hm) as (cs' & ? & Hall). exists cs'. split; [done|]. intros c Hin.
      destruct (Hall c Hin) as [?%Hmono|?]; [by left|by apply Hmove].
    + cbn. intros ->%bool_decide_eq_true. exists cs. split; [done|]. set_solver.
Qed.
End reach.

(** ** The trace marks exactly the reachable entries *)
Section trace.
  Context `{EngineTypes}.

Definition visited (ext exn : gset Z) (s : StoreInner) (n : Reached) : bool :=
  match n with
  | RGc i => marked (si_gc s) i
  | RExtern i => bool_decide (i ∈ ext)
  | RExn i => bool_decide (i ∈ exn)
  end.

Definition with_marks (m : list Z) (s : StoreInner) : StoreInner := set_si_gc (set_marks m (si_gc s)) s.

Lemma seed_slots_no_panic slots data w : seed_slots slots data ≠ Panic w.
Proof.
  induction slots as [|[o k|o k] slots IH]; cbn; [done|..].
  - destruct (seed_slots slots data); cbn; congruence.
  - unfold gc_metadata. destruct (checked_add _ _ _); cbn; [|done].
    destruct (zslice _ _ _); cbn; [|done]. destruct (seed_slots slots data); cbn; congruence.
Qed.

Lemma seed_slots_err slots data e : seed_slots slots data = Err e → ∃ why, e = EInternal (GcMetadata why).
Proof.
  induction slots as [|[o k|o k] slots IH]; cbn; [done|..].
  - destruct (seed_slots slots data); cbn; naive_solver.
  - unfold gc_metadata. destruct (checked_add _ _ _); cbn; [|naive_solver].
    destruct (zslice _ _ _); cbn; [|naive_solver]. destruct (seed_slots slots data); cbn; naive_solver.
Qed.

Lemma trace_gc_fails s i :
  (∀ w, trace_gc s i ≠ Panic w) ∧ ∀ e, trace_gc s i = Err e → ∃ why, e = EInternal (GcMetadata why).
Proof.
  unfold trace_gc, gc_metadata. destruct (gc_get _ i) as [o|]; [|naive_solver].
  destruct (obj_kind o).
  - destruct (struct_fields _); [|naive_solver]. split; [intros ?; apply seed_slots_no_panic|apply seed_slots_err].
  - destruct (array_field _); [|naive_solver]. destruct (_ || _); [naive_solver|].
    split; [intros ?; apply seed_slots_no_panic|apply seed_slots_err].
  - destruct (extern_index o); naive_solver.
Qed.

Lemma node_children_fails s n :
  (∀ w, node_children s n ≠ Panic w) ∧
  ∀ e, node_children s n = Err e → ∃ why, e = EInternal (GcMetadata why).
Proof.
  destruct n as [i|i|i]; cbn; unfold trace_extern, trace_exn, gc_metadata.
  - destruct (gc_get _ i); [apply trace_gc_fails|naive_solver].
  - destruct (reclaim_get _ i) as [[]|]; naive_solver.
  - destruct (reclaim_get _ i); naive_solver.
Qed.

Lemma reclaim_get_range {E} (a : ReclaimArena E) i e :
  reclaim_get a i = Some e → 0 ≤ i < zlen (ra_slots a).
Proof. unfold reclaim_get. destruct (zget (ra_slots a) i) eqn:Hi; [|done]. intros _. by apply zget_Some in Hi. Qed.

Lemma node_in_arena s n cs : node_children s n = Ok cs → n ∈ all_nodes s.
Proof.
  unfold all_nodes. rewrite !elem_of_app, !list_elem_of_fmap. setoid_rewrite elem_of_seqZ.
  destruct n as [i|i|i]; cbn; unfold trace_extern, trace_exn, gc_metadata.
  - destruct (gc_get _ i) eqn:Hg; [|done]. apply gc_get_range in Hg. left. exists i. split; [done|lia].
  - destruct (reclaim_get _ i) eqn:Hg; [|done]. apply reclaim_get_range in Hg. right; left. exists i. split; [done|lia].
  - destruct (reclaim_get _ i) eqn:Hg; [|done]. apply reclaim_get_range in Hg. right; right. exists i. split; [done|lia].
Qed.

Lemma all_nodes_NoDup s : NoDup (all_nodes s).
Proof.
  unfold all_nodes. apply NoDup_app. split_and!; [|set_solver|apply NoDup_app; split_and!; [|set_solver|]];
    (apply NoDup_fmap; [by intros ?? [=]|apply NoDup_seqZ]).
Qed.

Lemma visited_mark ext exn s i b h n :
  0 ≤ i → mark i (si_gc s) = (b, h) → gc_live (si_gc s) i = true →
  visited ext exn (set_si_gc h s) n = visited ext exn s n || bool_decide (n = RGc i).
Proof.
  intros Hi Hm Hl. destruct (mark_spec _ _ _ _ Hi Hm) as (_ & Hmk & _). rewrite Hl in Hmk.
  destruct n as [j|j|j]; cbn [visited];
    try (by rewrite (bool_decide_false (_ = RGc i)), orb_false_r by done).
  destruct (Z.leb_spec 0 j).
  - cbn [si_gc set_si_gc]. rewrite Hmk by done. cbn [andb]. f_equal. destruct (Z.eqb_spec j i) as [->|];
      [by rewrite bool_decide_true|by rewrite bool_decide_false by congruence].
  - rewrite bool_decide_false by (intros [= ->]; lia). rewrite orb_false_r.
    unfold marked, zget. assert (j / 64 < 0) by (apply Z.div_lt_upper_bound; lia).
    destruct (Z.leb_spec 0 (j / 64)); [lia|]. done.
Qed.

Lemma bool_decide_insert (X : gset Z) i k :
  bool_decide (k ∈ {[ i ]} ∪ X) = bool_decide (k ∈ X) || bool_decide (k = i).
Proof.
  rewrite <- bool_decide_or. apply bool_decide_ext. rewrite elem_of_union, elem_of_singleton. tauto.
Qed.
Lemma visited_extern ext exn s i k :
  visited ({[ i ]} ∪ ext) exn s k = visited ext exn s k || bool_decide (k = RExtern i).
Proof.
  destruct k as [k|k|k]; cbn [visited]; try (by rewrite (bool_decide_false (_ = RExtern i)), orb_false_r by done).
  rewrite bool_decide_insert. f_equal. apply bool_decide_ext. naive_solver.
Qed.
Lemma visited_exn ext exn s i k :
  visited ext ({[ i ]} ∪ exn) s k = visited ext exn s k || bool_decide (k = RExn i).
Proof.
  destruct k as [k|k|k]; cbn [visited]; try (by rewrite (bool_decide_false (_ = RExn i)), orb_false_r by done).
  rewrite bool_decide_insert. f_equal. apply bool_decide_ext. naive_solver.
Qed.

Lemma trace_inv_ext ch roots work vis vis' :
  (∀ n, vis' n = vis n) → trace_inv ch roots work vis → trace_inv ch roots work vis'.
Proof.
  intros Hv []. constructor; [|done|..].
  - intros n. rewrite Hv. auto.
  - intros n Hn. rewrite Hv. auto.
  - intros n. rewrite Hv. intros Hn. destruct (ti_closed0 n Hn) as (cs & ? & Hall). exists cs.
    split; [done|]. intros c Hc. rewrite Hv. auto.
Qed.

(** The iterations left: pending entries, and what the unvisited ones can add. *)
Definition potential (ch : Reached → res (list Reached)) (nodes : list Reached)
    (vis : Reached → bool) (work : list Reached) : Z :=
  zlen work + zsum (λ n, if vis n then 0 else match ch n with Ok cs => zlen cs | _ => 0 end) nodes.

Lemma potential_visit ch nodes vis vis' work n cs :
  NoDup nodes → n ∈ nodes → vis n = false → ch n = Ok cs →
  (∀ m, vis' m = vis m || bool_decide (m = n)) →
  potential ch nodes vis' (work ++ cs) = potential ch nodes vis (work ++ [n]) - 1.
Proof.
  intros Hnd Hin Hv Hcs Hvis. unfold potential.
  assert (zlen (work ++ cs) = zlen work + zlen cs ∧ zlen (work ++ [n]) = zlen work + 1) as [-> ->]
    by (split; zlen_solve).
  rewrite (zsum_update (λ n, if vis n then 0 else match ch n with Ok cs => zlen cs | _ => 0 end) _ nodes n);
    [|done|done|].
  - rewrite Hvis, Hv, bool_decide_true by done. cbn. rewrite Hcs. lia.
  - intros m _ Hne. by rewrite Hvis, bool_decide_false, orb_false_r.
Qed.

Lemma potential_ext ch nodes vis' vis work :
  (∀ n, vis' n = vis n) → potential ch nodes vis' work = potential ch nodes vis work.
Proof. intros Hv. unfold potential. f_equal. apply zsum_ext. intros n _. by rewrite Hv. Qed.

Lemma potential_skip ch nodes vis work n :
  potential ch nodes vis work = potential ch nodes vis (work ++ [n]) - 1.
Proof. unfold potential. assert (zlen (work ++ [n]) = zlen work + 1) by zlen_solve. lia. Qed.

(** What the loop promises about its result. *)
Definition trace_outcome (ch : Reached → res (list Reached)) (roots : list Reached) (s : StoreInner)
    (out : option (res (gset Z * gset Z) * StoreInner)) : Prop :=
  ∃ r s' m, out = Some (r, s') ∧ s' = with_marks m s ∧
  match r with
  | Ok (ext', exn') =>
      (∀ n, visited ext' exn' s' n = true ↔ reach ch roots n) ∧
      (∀ n, reach ch roots n → ∃ cs, ch n = Ok cs)
  | Err e => ∃ n, reach ch roots n ∧ ch n = Err e
  | Panic _ => False
  end.

Lemma trace_outcome_marks ch roots s s1 m out :
  s1 = with_marks m s → trace_outcome ch roots s1 out → trace_outcome ch roots s out.
Proof. intros -> (r & s' & m' & -> & -> & Hr). by exists r, (with_marks m' s), m'. Qed.

(** The loop with enough fuel: it ends, having changed nothing but marks; either
    the visited set is exactly what the roots reach, every entry of it well
    formed, or some reachable entry is corrupt and its error is returned. *)
Lemma trace_loop_spec ch nodes roots fuel work ext exn s :
  NoDup nodes → (∀ n, node_children s n = ch n) → (∀ n cs, ch n = Ok cs → n ∈ nodes) →
  trace_inv ch roots work (visited ext exn s) →
  potential ch nodes (visited ext exn s) work < Z.of_nat fuel →
  trace_outcome ch roots s (trace_loop fuel work ext exn s).
Proof.
  revert work ext exn s. induction fuel as [|fuel IH]; intros work ext exn s Hnd Hch Hnodes Hinv Hfuel.
  { exfalso. unfold potential in Hfuel. pose proof (zlen_nonneg work).
    assert (0 ≤ zsum (λ n, if visited ext exn s n then 0 else match ch n with Ok cs => zlen cs | _ => 0 end) nodes); [|lia].
    apply zsum_nonneg. intros n _. destruct (visited _ _ _ n); [lia|]. destruct (ch n); auto using zlen_nonneg; lia. }
  assert (∃ m, s = with_marks m s) as [m0 Hm0] by (exists (gc_marks (si_gc s)); destruct s as [? ? ? ? ? ? ? ? ? []]; done).
  cbn [trace_loop]. destruct (vec_pop work) as [[work' n]|] eqn:Hpop; cycle 1.
  { apply vec_pop_None in Hpop as ->. eexists _, s, m0; split; [done|]. split; [done|].
    pose proof (trace_inv_done _ _ _ Hinv) as Hdone. split; [done|].
    intros n Hn%Hdone. by destruct (ti_closed _ _ _ _ Hinv n Hn) as (cs & ? & _); exists cs. }
  apply vec_pop_Some in Hpop as ->.
  pose proof (ti_work _ _ _ _ Hinv n ltac:(set_solver)) as Hreach.
  (* the two ways on: an already visited entry, or a newly visited one *)
  assert (∀ s1 m, s1 = with_marks m s → (∀ k, visited ext exn s1 k = visited ext exn s k) →
    visited ext exn s n = true → trace_outcome ch roots s (trace_loop fuel work' ext exn s1)) as Hskip.
  { intros s1 m Hs1 Hvis Hv. eapply trace_outcome_marks; [exact Hs1|]. apply IH; try done.
    - intros k. subst s1. by rewrite <- Hch.
    - eapply trace_inv_ext; [exact Hvis|]. by eapply trace_inv_skip.
    - rewrite (potential_ext _ _ _ (visited ext exn s)), (potential_skip _ _ _ _ n) by done. lia. }
  assert (∀ ext' exn' s1 m cs, s1 = with_marks m s → visited ext exn s n = false → ch n = Ok cs →
    (∀ k, visited ext' exn' s1 k = visited ext exn s k || bool_decide (k = n)) →
    trace_outcome ch roots s (trace_loop fuel (work' ++ cs) ext' exn' s1)) as Hvisit.
  { intros ext' exn' s1 m cs Hs1 Hv Hcs Hvis. eapply trace_outcome_marks; [exact Hs1|]. apply IH; try done.
    - intros k. subst s1. by rewrite <- Hch.
    - by eapply trace_inv_visit.
    - rewrite (potential_visit ch nodes (visited ext exn s) _ _ n); eauto. lia. }
  pose proof (node_children_fails s n) as [Hnp _]. rewrite (Hch n) in Hnp.
  assert (∀ e s' m, ch n = Err e → s' = with_marks m s →
    trace_outcome ch roots s (Some (Err e, s'))) as Herr.
  { intros e s' m He ->. eexists _, _, m. split; [done|]. split; [done|]. by exists n. }
  specialize (Hch n).
  destruct n as [i|i|i]; cbn in Hch.
  - destruct (gc_get (si_gc s) i) as [o|] eqn:Ho; cbn; [|by eapply (Herr _ _ m0)].
    pose proof (gc_get_range _ _ _ Ho).
    destruct (mark i (si_gc s)) as [new h] eqn:Hmark.
    assert (gc_live (si_gc s) i = true) as Hl by (unfold gc_live; by rewrite Ho).
    pose proof (visited_mark ext exn s i new h) as Hvm.
    pose proof Hmark as (Hnew & _ & m & ->)%mark_spec; [|lia]. rewrite Hl in Hnew. cbn in Hnew.
    destruct new.
    + change (trace_gc (set_si_gc (set_marks m (si_gc s)) s) i) with (trace_gc s i). rewrite Hch.
      assert (visited ext exn s (RGc i) = false) by (cbn; by destruct (marked (si_gc s) i)).
      destruct (ch (RGc i)) as [cs|e|w] eqn:Hcs; [|by eapply (Herr e _ m)|by destruct (Hnp w)].
      eapply Hvisit; try done. intros k. by apply Hvm; [lia|..].
    + assert (marked (si_gc s) i = true) as Hmi by (by destruct (marked (si_gc s) i)).
      apply (Hskip _ m); [done| |done]. intros k. rewrite Hvm; [|lia|done..].
      destruct (decide (k = RGc i)) as [->|]; [cbn; by rewrite Hmi|].
      by rewrite bool_decide_false, orb_false_r.
  - case_decide as Hin; [by apply (Hskip s m0); [..|cbn; apply bool_decide_true]|].
    rewrite Hch. destruct (ch (RExtern i)) as [cs|e|w] eqn:Hcs; [|by eapply (Herr e _ m0)|by destruct (Hnp w)].
    eapply Hvisit; [done|by cbn; apply bool_decide_false|done|]. intros k. apply visited_extern.
  - case_decide as Hin; [by apply (Hskip s m0); [..|cbn; apply bool_decide_true]|].
    rewrite Hch. destruct (ch (RExn i)) as [cs|e|w] eqn:Hcs; [|by eapply (Herr e _ m0)|by destruct (Hnp w)].
    eapply Hvisit; [done|by cbn; apply bool_decide_false|done|]. intros k. apply visited_exn.
Qed.
End trace.

(** ** A collection *)
Section collection.
  Context `{EngineTypes}.

(** The byte account is exact: what the three arenas hold. *)
Definition account_exact (s : StoreInner) : Prop :=
  gc_used (si_gc s) = live_bytes (gc_slots (si_gc s))
    + arena_bytes extern_byte_size (ra_slots (si_externrefs s))
    + arena_bytes exn_byte_size (ra_slots (si_exns s)).

(** [s'] is [s] with everything outside [live] collected. *)
Record collected (live : Reached → Prop) (s s' : StoreInner) : Prop := {
  co_wf : managed_wf s';
  co_marks : gc_marks (si_gc s') = [];
  co_account : account_exact s';
  co_budget : gc_budget (si_gc s') = gc_budget (si_gc s) ∧ gc_used (si_gc s') ≤ gc_used (si_gc s);
  co_rest : s' = set_si_gc (si_gc s') (set_si_exns (si_exns s') (set_si_externrefs (si_externrefs s') s));
  co_gc_live : ∀ i, live (RGc i) → gc_get (si_gc s') i = gc_get (si_gc s) i ∧
    gc_generation (si_gc s') i = gc_generation (si_gc s) i;
  co_gc_dead : ∀ i, ¬ live (RGc i) → gc_get (si_gc s') i = None ∧
    (gc_live (si_gc s) i = true →
     gc_generation (si_gc s') i = next_generation <$> gc_generation (si_gc s) i);
  co_extern_live : ∀ i, live (RExtern i) → reclaim_get (si_externrefs s') i = reclaim_get (si_externrefs s) i ∧
    reclaim_generation (si_externrefs s') i = reclaim_generation (si_externrefs s) i;
  co_extern_dead : ∀ i, ¬ live (RExtern i) → reclaim_get (si_externrefs s') i = None ∧
    (reclaim_live (si_externrefs s) i = true →
     reclaim_generation (si_externrefs s') i = next_generation <$> reclaim_generation (si_externrefs s) i);
  co_exn_live : ∀ i, live (RExn i) → reclaim_get (si_exns s') i = reclaim_get (si_exns s) i ∧
    reclaim_generation (si_exns s') i = reclaim_generation (si_exns s) i;
  co_exn_dead : ∀ i, ¬ live (RExn i) → reclaim_get (si_exns s') i = None ∧
    (reclaim_live (si_exns s) i = true →
     reclaim_generation (si_exns s') i = next_generation <$> reclaim_generation (si_exns s) i);
}.

Lemma extern_bytes_nonneg e : 0 ≤ extern_byte_size e.
Proof. done. Qed.
Lemma exn_bytes_nonneg e : 0 ≤ exn_byte_size e.
Proof.
  unfold exn_byte_size, exn_charge, saturating_add, saturating_mul, ARENA_ENTRY_OVERHEAD, VAL_SIZE.
  pose proof (zlen_nonneg (xe_args e)). lia.
Qed.

Lemma trace_reachable_spec roots s :
  gc_marks (si_gc s) = [] →
  trace_outcome (node_children s) roots s (trace_reachable roots s).
Proof.
  intros Hm. unfold trace_reachable.
  assert (∀ n, visited ∅ ∅ s n = false) as Hv.
  { intros [i|i|i]; cbn; [|by apply bool_decide_false; set_solver..].
    unfold marked. by rewrite Hm, zget_nil. }
  apply (trace_loop_spec _ (all_nodes s)); [apply all_nodes_NoDup|done|apply node_in_arena|..].
  - constructor; try (intros n; by rewrite Hv).
    + intros n. apply reach_root.
    + auto.
  - unfold potential, trace_fuel.
    rewrite (zsum_ext _ (degree s)) by (intros n _; by rewrite Hv).
    assert (0 ≤ zsum (degree s) (all_nodes s)).
    { apply zsum_nonneg. intros n _. unfold degree. destruct (node_children s n); auto using zlen_nonneg; lia. }
    pose proof (zlen_nonneg roots). lia.
Qed.

(** The three sweeps with exact live sets. *)
Lemma sweep_all_spec live ext exn s m :
  managed_wf s → account_exact s →
  (∀ n, visited ext exn (with_marks m s) n = true ↔ live n) →
  ∃ s', (freed ← zoom si_externrefs set_si_externrefs
                   (reclaim_sweep (λ i, bool_decide (i ∈ ext)) extern_byte_size);
         _ ← modify (λ s, set_si_gc (credit freed (si_gc s)) s);
         freed ← zoom si_exns set_si_exns
                   (reclaim_sweep (λ i, bool_decide (i ∈ exn)) exn_byte_size);
         _ ← modify (λ s, set_si_gc (credit freed (si_gc s)) s);
         zoom si_gc set_si_gc gc_sweep) (with_marks m s) = (Ok tt, s') ∧ collected live s s'.
Proof.
  intros Hwf Hacc Hlive.
  destruct (reclaim_sweep_spec (λ i, bool_decide (i ∈ ext)) extern_byte_size _ (mw_externs _ Hwf))
    as (f1 & ext' & Hext & Hwf1 & Hb1 & Hf1%(λ f, f extern_bytes_nonneg) & Hget1).
  destruct (reclaim_sweep_spec (λ i, bool_decide (i ∈ exn)) exn_byte_size _ (mw_exns _ Hwf))
    as (f2 & exn' & Hexn & Hwf2 & Hb2 & Hf2%(λ f, f exn_bytes_nonneg) & Hget2).
  set (h := credit f2 (credit f1 (set_marks m (si_gc s)))).
  assert (∃ h', gc_sweep h = (Ok tt, h') ∧ heap_wf h' ∧
    (∀ i, gc_get h' i = if marked h i then gc_get h i else None) ∧
    (∀ i, gc_generation h' i = if gc_live h i && negb (marked h i)
                               then next_generation <$> gc_generation h i else gc_generation h i) ∧
    gc_used h' = live_bytes (gc_slots h') + (arena_bytes extern_byte_size (ra_slots ext')
       + arena_bytes exn_byte_size (ra_slots exn')) ∧
    gc_marks h' = [] ∧ gc_budget h' = gc_budget h ∧ live_bytes (gc_slots h') ≤ live_bytes (gc_slots h))
    as (h' & Hsweep & Hwf3 & Hget & Hgen & Hused & Hmk & Hbud & Hle).
  { pose proof (arena_bytes_nonneg _ (ra_slots ext') extern_bytes_nonneg).
    pose proof (arena_bytes_nonneg _ (ra_slots exn') exn_bytes_nonneg).
    pose proof (arena_bytes_nonneg _ (ra_slots (si_exns s)) exn_bytes_nonneg).
    pose proof (live_bytes_nonneg (gc_slots (si_gc s))).
    apply gc_sweep_spec.
    - by destruct Hwf as [[] _ _].
    - unfold account_exact in Hacc. subst h. unfold credit, saturating_sub, set_used, set_marks.
      cbn [gc_used gc_slots]. lia.
    - lia. }
  eexists. split.
  - unfold modify, zoom. cbv [mbind M_bind].
    change (si_externrefs (with_marks m s)) with (si_externrefs s). rewrite Hext. cbn -[gc_sweep].
    rewrite Hexn. cbn -[gc_sweep]. fold h. rewrite Hsweep. reflexivity.
  - assert (∀ i, marked h i = true ↔ live (RGc i)) as HL by (intros i; apply (Hlive (RGc i))).
    assert (∀ i, i ∈ ext ↔ live (RExtern i)) as HE
      by (intros i; rewrite <- (Hlive (RExtern i)); cbn; by rewrite bool_decide_eq_true).
    assert (∀ i, i ∈ exn ↔ live (RExn i)) as HX
      by (intros i; rewrite <- (Hlive (RExn i)); cbn; by rewrite bool_decide_eq_true).
    constructor; cbn -[gc_sweep gc_get gc_generation gc_live].
    + constructor; done.
    + done.
    + unfold account_exact. cbn [si_gc si_externrefs si_exns set_si_gc set_si_exns set_si_externrefs]. lia.
    + split; [exact Hbud|]. unfold account_exact in Hacc. cbn in Hle. lia.
    + done.
    + intros i Hi%HL. rewrite Hget, Hgen, Hi, andb_false_r. done.
    + intros i Hi. rewrite <- HL in Hi. apply not_true_is_false in Hi. rewrite Hget, Hgen, Hi, andb_true_r.
      split; [done|]. intros Hl. change (gc_live h i) with (gc_live (si_gc s) i). by rewrite Hl.
    + intros i Hi%HE. destruct (Hget1 i) as [-> ->]. rewrite bool_decide_true by done. by rewrite andb_false_r.
    + intros i Hi. rewrite <- HE in Hi. destruct (Hget1 i) as [-> ->]. rewrite bool_decide_false by done.
      rewrite andb_true_r. split; [done|]. by intros ->.
    + intros i Hi%HX. destruct (Hget2 i) as [-> ->]. rewrite bool_decide_true by done. by rewrite andb_false_r.
    + intros i Hi. rewrite <- HX in Hi. destruct (Hget2 i) as [-> ->]. rewrite bool_decide_false by done.
      rewrite andb_true_r. split; [done|]. by intros ->.
Qed.

(** A collection that succeeds has collected exactly what is unreachable. *)
Lemma collect_ok stack_roots s s' :
  managed_wf s → gc_marks (si_gc s) = [] → gc_collecting (si_gc s) = true → account_exact s →
  collect stack_roots s = Some (Ok tt, s') → collected (reach (node_children s) (collect_roots stack_roots s)) s s'.
Proof.
  intros Hwf Hm Hc Hacc. unfold collect. rewrite Hc. cbn [negb].
  destruct (trace_reachable_spec (collect_roots stack_roots s) s Hm) as (r & s1 & m & -> & -> & Hr).
  cbn [mbind option_bind]. destruct r as [[ext exn]|e|w]; [|done..]. destruct Hr as [Hlive _].
  destruct (sweep_all_spec _ ext exn s m Hwf Hacc Hlive) as (s2 & Hs2 & Hcol). rewrite Hs2. by intros [= <-].
Qed.

Lemma collect_cases stack_roots s :
  managed_wf s → gc_marks (si_gc s) = [] → gc_collecting (si_gc s) = true → account_exact s →
  let live := reach (node_children s) (collect_roots stack_roots s) in
  ((∀ n, live n → ∃ cs, node_children s n = Ok cs) ∧
   ∃ s', collect stack_roots s = Some (Ok tt, s') ∧ collected live s s') ∨
  (∃ n why, live n ∧ node_children s n = Err (EInternal (GcMetadata why)) ∧
   collect stack_roots s = Some (Err (EInternal (GcMetadata why)), s)).
Proof.
  intros Hwf Hm Hc Hacc. cbn zeta. unfold collect. rewrite Hc. cbn [negb].
  destruct (trace_reachable_spec (collect_roots stack_roots s) s Hm) as (r & s1 & m & -> & -> & Hr).
  cbn [mbind option_bind]. destruct r as [[ext exn]|e|w]; [left|right|done].
  - destruct Hr as [Hlive Hok]. split; [done|].
    destruct (sweep_all_spec _ ext exn s m Hwf Hacc Hlive) as (s' & Hs' & Hcol).
    exists s'. split; [|done]. by rewrite Hs'.
  - destruct Hr as (n & Hn & He).
    destruct (node_children_fails s n) as [_ Hwhy]. destruct (Hwhy e He) as [why ->].
    exists n, why. split_and!; [done..|]. do 2 f_equal.
    destruct s as [? ? ? ? ? ? ? ? ? []]. cbn in *. by subst.
Qed.

(** C1: a collection terminates and is exact.  With the bitmap clear and the byte account
    exact, either every entry reachable from the roots is well formed, and then
    the collection succeeds with exactly the reachable entries kept (contents and
    generations untouched), every other entry freed with its generation bumped,
    the byte account exact again and nothing else changed; or some reachable
    entry is corrupt, and then it is an internal error that leaves the store as
    it was. *)
Theorem collect_exact stack_roots s :
  managed_wf s → gc_marks (si_gc s) = [] → gc_collecting (si_gc s) = true → account_exact s →
  let live := reach (node_children s) (collect_roots stack_roots s) in
  ((∀ n, live n → ∃ cs, node_children s n = Ok cs) ∧
   ∃ s', collect stack_roots s = Some (Ok tt, s') ∧ collected live s s') ∨
  (∃ n why, live n ∧ node_children s n = Err (EInternal (GcMetadata why)) ∧
   collect stack_roots s = Some (Err (EInternal (GcMetadata why)), s)).
Proof. apply collect_cases. Qed.
End collection.

(** A store with one struct (of type 5, one [anyref] field pointing to itself)
    held by the stack, and one unreachable externref. *)
Definition witness_types : EngineTypes :=
  {| struct_fields := λ id, if id =? 5 then
       Some [{| ft_mutable := true; ft_element := StValType (TRef {| rt_nullable := true; rt_heap := HtAny |}) |}]
       else None;
     array_field := λ _, None |}.
Definition witness_store : StoreInner :=
  set_si_gc {| gc_slots := [Some (new_struct 5 (to_le_bytes 4 0))]; gc_generations := [0]; gc_free := [];
               gc_used := 48 + 64; gc_reserved := 0; gc_reservation := 0; gc_next_grow := RESERVE_BATCH;
               gc_marks := []; gc_collecting := true |}
    (set_si_externrefs {| ra_slots := [Some (EeHost 3)]; ra_generations := [0]; ra_free := [] |}
       (store_new 1 true 0)).

Lemma collect_exact_witness :
  ∃ s', @collect witness_types [(0, RkAny)] witness_store = Some (Ok tt, s') ∧
    gc_get (si_gc s') 0 = gc_get (si_gc witness_store) 0 ∧ account_exact s'.
Proof.
  destruct (@collect_exact witness_types [(0, RkAny)] witness_store)
    as [[_ (s' & Hc & Hcol)]|(n & why & _ & _ & Hc)].
  - constructor; [constructor; [apply slots_wf_single; unfold u_max; lia|done]
                 |apply slots_wf_single; unfold u_max; lia|apply (managed_wf_new 1 true 0)].
  - reflexivity.
  - reflexivity.
  - reflexivity.
  - exists s'. split; [exact Hc|]. split; [|apply Hcol].
    apply (co_gc_live _ _ _ Hcol). apply reach_root. vm_compute. set_solver.
  - exfalso. vm_compute in Hc. discriminate Hc.
Defined.
