(* ===== verification/Stack.v ===== *)
(** * Stack: the untyped operand stack and its root shadow
    (src/src/exec/cell.rs, src/src/exec/stack.rs; the [Execution] and [Frame]
    records of src/src/exec/mod.rs and frame.rs)

    A cell is raw bytes; the parallel [shadow] says which cells are references.
    Every pop validates before it mutates: the main results are that a failed pop
    leaves the execution as it was, that values survive the trip through cells,
    and that the root scan finds exactly the live references. *)
From S2P Require Import Prelude Types Layout Codec Op Entity.

(** The crate's [simd] feature: it fixes the width of a cell. *)
Class Features := { feat_simd : bool }.

Section cells.
Context `{Features}.

Definition SLOT_BYTES : Z := if feat_simd then 16 else 8.

(** [Cell([u8; SLOT_BYTES])] *)
Definition Cell : Type := list Z.
Definition cell_zero : Cell := replicate (Z.to_nat SLOT_BYTES) 0.

(** [RefTag(u8)] *)
Definition RefTag : Type := Z.
Definition TagNone : RefTag := 0.
Definition TagFunc : RefTag := 1.
Definition TagExtern : RefTag := 2.
Definition TagAny : RefTag := 3.
Definition TagExn : RefTag := 4.

Definition of_val (v : Val) : RefTag :=
  match v with
  | VFuncRef _ => TagFunc
  | VExternRef _ => TagExtern
  | VAnyRef _ => TagAny
  | VExnRef _ => TagExn
  | _ => TagNone
  end.
Definition of_refkind (kind : RefKind) : RefTag :=
  match kind with
  | RkFunc => TagFunc | RkExtern => TagExtern | RkAny => TagAny | RkExn => TagExn
  end.
Definition refkind (t : RefTag) : option RefKind :=
  if t =? TagFunc then Some RkFunc
  else if t =? TagExtern then Some RkExtern
  else if t =? TagAny then Some RkAny
  else if t =? TagExn then Some RkExn
  else None.

(** [lo::<N>()]; every use has [N ≤ SLOT_BYTES]. *)
Definition lo (n : Z) (c : Cell) : list Z := ztake n c.
(** [of_bytes::<N>(bytes)]; every use has [N ≤ SLOT_BYTES]. *)
Definition of_bytes (bytes : list Z) : Cell := bytes ++ zdrop (zlen bytes) cell_zero.

Definition cell_i32 (c : Cell) : Z := sgn 32 (from_le_bytes (lo 4 c)).
Definition cell_i64 (c : Cell) : Z := sgn 64 (from_le_bytes (lo 8 c)).
(** Floats as their bits. *)
Definition cell_f32 (c : Cell) : Z := from_le_bytes (lo 4 c).
Definition cell_f64 (c : Cell) : Z := from_le_bytes (lo 8 c).
Definition cell_v128 (c : Cell) : Z := from_le_bytes (lo 16 c).
Definition from_i32 (v : Z) : Cell := of_bytes (to_le_bytes 4 v).
Definition from_i64 (v : Z) : Cell := of_bytes (to_le_bytes 8 v).
Definition from_f32 (bits : Z) : Cell := of_bytes (to_le_bytes 4 bits).
Definition from_f64 (bits : Z) : Cell := of_bytes (to_le_bytes 8 bits).
Definition cell_handle (c : Cell) : Z := from_le_bytes (lo 4 c).
Definition cell_is_null (c : Cell) : bool := cell_handle c =? NULL_REF.

Definition slot_for_val (v : Val) : res Slot :=
  match v with
  | VI32 _ => Ok (SlotScalar 0 SkI32)
  | VI64 _ => Ok (SlotScalar 0 SkI64)
  | VF32 _ => Ok (SlotScalar 0 SkF32)
  | VF64 _ => Ok (SlotScalar 0 SkF64)
  | VV128 _ =>
      if feat_simd then Ok (SlotScalar 0 SkV128) else Panic "v128 requires the simd feature"
  | VFuncRef _ => Ok (SlotRef 0 RkFunc)
  | VExternRef _ => Ok (SlotRef 0 RkExtern)
  | VAnyRef _ => Ok (SlotRef 0 RkAny)
  | VExnRef _ => Ok (SlotRef 0 RkExn)
  end.

Definition refkind_of_heap (heap : HeapType) : RefKind :=
  match heap with
  | HtFunc | HtNoFunc | HtConcreteFunc _ => RkFunc
  | HtExtern | HtNoExtern => RkExtern
  | HtExn | HtNoExn => RkExn
  | _ => RkAny
  end.
Definition refkind_of_irheap (heap : IrHeap) : RefKind :=
  match heap with
  | IrFunc | IrNoFunc | IrConcrete _ AggFunc => RkFunc
  | IrExtern | IrNoExtern => RkExtern
  | IrExn | IrNoExn => RkExn
  | _ => RkAny
  end.

Definition slot_for_valtype (ty : ValType) : res Slot :=
  match ty with
  | TI32 => Ok (SlotScalar 0 SkI32)
  | TI64 => Ok (SlotScalar 0 SkI64)
  | TF32 => Ok (SlotScalar 0 SkF32)
  | TF64 => Ok (SlotScalar 0 SkF64)
  | TV128 =>
      if feat_simd then Ok (SlotScalar 0 SkV128) else Panic "v128 requires the simd feature"
  | TRef rt => Ok (SlotRef 0 (refkind_of_heap (rt_heap rt)))
  end.

Definition stack_slot_for_field (field : Slot) : Slot :=
  match field with
  | SlotScalar _ kind =>
      SlotScalar 0 (match kind with SkI8 | SkI16 => SkI32 | k => k end)
  | SlotRef _ kind => SlotRef 0 kind
  end.

Definition encode (v : Val) : res Cell :=
  slot ← slot_for_val v; write_slot slot cell_zero v.
Definition decode (cell : Cell) (ty : ValType) : res Val :=
  slot ← slot_for_valtype ty; read_slot slot cell.

(** The direct codecs of stack.rs for the host boundary. *)
Definition decode_val (c : Cell) (t : ValType) : res Val :=
  match t with
  | TI32 => Ok (VI32 (cell_i32 c))
  | TI64 => Ok (VI64 (cell_i64 c))
  | TF32 => Ok (VF32 (cell_f32 c))
  | TF64 => Ok (VF64 (cell_f64 c))
  | _ => decode c t
  end.
Definition encode_val (v : Val) : res Cell :=
  match v with
  | VI32 x => Ok (from_i32 x)
  | VI64 x => Ok (from_i64 x)
  | VF32 bits => Ok (of_bytes (to_le_bytes 4 bits))
  | VF64 bits => Ok (of_bytes (to_le_bytes 8 bits))
  | _ => encode v
  end.
End cells.

(** ** The execution record *)
Inductive Delimiter : Type := TopLevel | HostReentry.
#[export] Instance Delimiter_eq_dec : EqDecision Delimiter.
Proof. solve_decision. Defined.

Record Frame : Type := {
  fr_code : Code;
  fr_func : CompiledFunc;
  fr_ip : Z;
  fr_locals_base : Z;
  fr_operand_base : Z;
  fr_instance : Handle;
  fr_func_index : Z;
  fr_delimiter : option Delimiter;
}.

Record Execution : Type := {
  ex_values : list Cell;
  ex_shadow : list RefTag;
  ex_frames : list Frame;
  ex_host_reentry_depth : Z;
}.
Definition execution_default : Execution :=
  {| ex_values := []; ex_shadow := []; ex_frames := []; ex_host_reentry_depth := 0 |}.
Definition execution_is_empty (ex : Execution) : bool :=
  bool_decide (zlen (ex_frames ex) = 0) && bool_decide (zlen (ex_values ex) = 0)
  && bool_decide (zlen (ex_shadow ex) = 0).

Definition set_ex_values (v : list Cell) (ex : Execution) : Execution :=
  {| ex_values := v; ex_shadow := ex_shadow ex; ex_frames := ex_frames ex;
     ex_host_reentry_depth := ex_host_reentry_depth ex |}.
Definition set_ex_shadow (v : list RefTag) (ex : Execution) : Execution :=
  {| ex_values := ex_values ex; ex_shadow := v; ex_frames := ex_frames ex;
     ex_host_reentry_depth := ex_host_reentry_depth ex |}.
Definition set_ex_frames (v : list Frame) (ex : Execution) : Execution :=
  {| ex_values := ex_values ex; ex_shadow := ex_shadow ex; ex_frames := v;
     ex_host_reentry_depth := ex_host_reentry_depth ex |}.
Definition set_ex_depth (v : Z) (ex : Execution) : Execution :=
  {| ex_values := ex_values ex; ex_shadow := ex_shadow ex; ex_frames := ex_frames ex;
     ex_host_reentry_depth := v |}.

Definition operand_err (detail : string) : error := EInternal (OperandStack detail).
Definition frame_err (detail : string) : error := EInternal (FrameStack detail).
Definition shape_err (detail : string) : error := EInternal (ResultShape detail).

(** Both vectors' [truncate]/[push]. *)
Definition stack_truncate (n : Z) (ex : Execution) : Execution :=
  set_ex_shadow (ztake n (ex_shadow ex)) (set_ex_values (ztake n (ex_values ex)) ex).
Definition shadow_push (t : RefTag) (ex : Execution) : Execution :=
  set_ex_shadow (ex_shadow ex ++ [t]) ex.
Definition values_push (c : Cell) (ex : Execution) : Execution :=
  set_ex_values (ex_values ex ++ [c]) ex.

Section stack.
Context `{Features}.

Definition expected_tag (ty : ValType) : RefTag :=
  match ty with
  | TRef r => of_refkind (refkind_of_heap (rt_heap r))
  | _ => TagNone
  end.

Definition operand_floor (ex : Execution) : res Z :=
  frame ← ok_or (last (ex_frames ex)) (frame_err "missing current frame");
  Ok (fr_operand_base frame).

Definition ensure_operands (needed : Z) (ex : Execution) : res Z :=
  if negb (zlen (ex_values ex) =? zlen (ex_shadow ex))
  then Err (operand_err "value/shadow length mismatch") else
  floor ← operand_floor ex;
  available ← ok_or (checked_sub (zlen (ex_values ex)) floor)
                (operand_err "stack is below the current frame floor");
  if available <? needed then Err (operand_err "operand stack underflow")
  else Ok (zlen (ex_values ex) - needed).

Definition ensure_scalar_operands (needed : Z) (ex : Execution) : res Z :=
  base ← ensure_operands needed ex;
  if existsb (λ tag, negb (tag =? TagNone)) (zdrop base (ex_shadow ex))
  then Err (operand_err "numeric operation found a reference tag") else Ok base.

(** [self.values[i]], [self.shadow[i]] *)
Definition value_at (i : Z) (ex : Execution) : res Cell :=
  expect (zget (ex_values ex) i) "index out of bounds".
Definition tag_at (i : Z) (ex : Execution) : res RefTag :=
  expect (zget (ex_shadow ex) i) "index out of bounds".

Definition pop_scalar : SM Execution Cell :=
  base ← reads (ensure_scalar_operands 1);
  cell ← reads (value_at base);
  modify (stack_truncate base);; mret cell.

Definition push_scalar (bytes : list Z) (ex : Execution) : Execution :=
  values_push (of_bytes bytes) (shadow_push TagNone ex).
Definition push_i32 (v : Z) : Execution → Execution := push_scalar (to_le_bytes 4 v).
Definition push_i64 (v : Z) : Execution → Execution := push_scalar (to_le_bytes 8 v).
Definition push_f32 (bits : Z) : Execution → Execution := push_scalar (to_le_bytes 4 bits).
Definition push_f64 (bits : Z) : Execution → Execution := push_scalar (to_le_bytes 8 bits).

Definition push_default (ty : IrVal) (ex : Execution) : Execution :=
  match ty with
  | IrRefTy _ heap =>
      values_push (of_bytes (to_le_bytes 4 NULL_REF))
        (shadow_push (of_refkind (refkind_of_irheap heap)) ex)
  | _ => push_scalar cell_zero ex
  end.

Definition set_value (i : Z) (c : Cell) : SM Execution () := λ ex,
  match zset (ex_values ex) i c with
  | Some vs => (Ok tt, set_ex_values vs ex)
  | None => (Panic "index out of bounds", ex)
  end.
Definition set_tag (i : Z) (t : RefTag) : SM Execution () := λ ex,
  match zset (ex_shadow ex) i t with
  | Some vs => (Ok tt, set_ex_shadow vs ex)
  | None => (Panic "index out of bounds", ex)
  end.

Definition binop_cells (f : Cell → Cell → Cell) : SM Execution () :=
  base ← reads (ensure_scalar_operands 2);
  let n := base + 2 in
  a ← reads (value_at (n - 2));
  b ← reads (value_at (n - 1));
  set_value (n - 2) (f a b);;
  modify (stack_truncate (n - 1)).
Definition binop_cells_try (f : Cell → Cell → res Cell) : SM Execution () :=
  base ← reads (ensure_scalar_operands 2);
  let n := base + 2 in
  a ← reads (value_at (n - 2));
  b ← reads (value_at (n - 1));
  c ← lift (f a b);
  set_value (n - 2) c;;
  modify (stack_truncate (n - 1)).
Definition unop_cell (f : Cell → Cell) : SM Execution () :=
  base ← reads (ensure_scalar_operands 1);
  let n := base + 1 in
  a ← reads (value_at (n - 1));
  set_value (n - 1) (f a).

Definition pop : SM Execution Cell :=
  base ← reads (ensure_operands 1);
  cell ← reads (value_at base);
  modify (stack_truncate base);; mret cell.
Definition pop_tagged : SM Execution (Cell * RefTag) :=
  base ← reads (ensure_operands 1);
  cell ← reads (value_at base);
  tag ← reads (tag_at base);
  modify (stack_truncate base);; mret (cell, tag).

Definition push (v : Val) : SM Execution () :=
  modify (shadow_push (of_val v));;
  c ← lift (encode v);
  modify (values_push c).
Definition push_cell (cell : Cell) (tag : RefTag) (ex : Execution) : Execution :=
  values_push cell (shadow_push tag ex).

Definition cell_at (i : Z) (ex : Execution) : res (Cell * RefTag) :=
  if negb (zlen (ex_values ex) =? zlen (ex_shadow ex))
  then Err (operand_err "value/shadow length mismatch") else
  cell ← ok_or (zget (ex_values ex) i) (operand_err "local index out of bounds");
  tag ← tag_at i ex;
  Ok (cell, tag).
Definition set_cell (i : Z) (cell : Cell) (tag : RefTag) : SM Execution () := λ ex,
  if negb (zlen (ex_values ex) =? zlen (ex_shadow ex)) || (zlen (ex_values ex) <=? i)
  then (Err (operand_err "local index out of bounds"), ex)
  else (set_value i cell;; set_tag i tag) ex.

Definition top_i32 (ex : Execution) : res Z :=
  base ← ensure_scalar_operands 1 ex;
  cell_i32 <$> value_at base ex.
Definition top_cell (ex : Execution) : res (Cell * RefTag) :=
  base ← ensure_operands 1 ex;
  c ← value_at base ex; t ← tag_at base ex; Ok (c, t).

Definition pop_i32 : SM Execution Z := c ← pop_scalar; mret (cell_i32 c).
Definition pop_i64 : SM Execution Z := c ← pop_scalar; mret (cell_i64 c).
Definition pop_f32 : SM Execution Z := c ← pop_scalar; mret (cell_f32 c).
Definition pop_f64 : SM Execution Z := c ← pop_scalar; mret (cell_f64 c).

Definition pop_i32_pair : SM Execution (Z * Z) :=
  base ← reads (ensure_scalar_operands 2);
  a ← reads (value_at base);
  b ← reads (value_at (base + 1));
  modify (stack_truncate base);; mret (cell_i32 a, cell_i32 b).

Definition pop_index (is_64 : bool) : SM Execution Z :=
  cell ← pop_scalar;
  mret (if is_64 then wrap 64 (cell_i64 cell) else wrap 32 (cell_i32 cell)).
Definition push_index (is_64 : bool) (v : Z) : SM Execution () :=
  push (if is_64 then VI64 (sgn 64 v) else VI32 (sgn 32 v)).

Definition pop_ref (kind : RefKind) : SM Execution Val :=
  base ← reads (ensure_operands 1);
  t ← reads (tag_at base);
  if negb (t =? of_refkind kind)
  then fail (operand_err "reference tag does not match operand type") else
  cell ← pop;
  lift (read_slot (SlotRef 0 kind) cell).
Definition pop_tagged_ref : SM Execution (Cell * RefTag) :=
  base ← reads (ensure_operands 1);
  t ← reads (tag_at base);
  match refkind t with
  | None => fail (operand_err "reference operation found a scalar tag")
  | Some _ =>
      c ← reads (value_at base);
      modify (stack_truncate base);; mret (c, t)
  end.
Definition pop_anyref : SM Execution Val := pop_ref RkAny.

Definition pop_val_for (field : Slot) : SM Execution Val :=
  let stack_slot := stack_slot_for_field field in
  base ← reads (ensure_operands 1);
  let expected := match stack_slot with
                  | SlotRef _ kind => of_refkind kind
                  | SlotScalar _ _ => TagNone
                  end in
  t ← reads (tag_at base);
  if negb (t =? expected)
  then fail (operand_err "operand tag does not match field type") else
  cell ← pop;
  lift (read_slot stack_slot cell).

Definition pop_typed (ty : ValType) : SM Execution Val :=
  base ← reads (ensure_operands 1);
  t ← reads (tag_at base);
  if negb (t =? expected_tag ty)
  then fail (operand_err "operand tag does not match value type") else
  c ← reads (value_at base);
  value ← lift (decode_val c ty);
  modify (stack_truncate base);; mret value.

Definition pop_select : SM Execution (Cell * RefTag) :=
  base ← reads (ensure_operands 3);
  a_tag ← reads (tag_at base);
  b_tag ← reads (tag_at (base + 1));
  c_tag ← reads (tag_at (base + 2));
  if negb (a_tag =? b_tag) || negb (c_tag =? TagNone)
  then fail (operand_err "select operand tag mismatch") else
  c ← reads (value_at (base + 2));
  a ← reads (value_at base);
  b ← reads (value_at (base + 1));
  let selected := if negb (cell_i32 c =? 0) then (a, a_tag) else (b, b_tag) in
  modify (stack_truncate base);; mret selected.

(** The parameter tags, then the decoded values. *)
Fixpoint tags_match (tags : list RefTag) (tys : list ValType) : bool :=
  match tags, tys with
  | tag :: tags', ty :: tys' => (tag =? expected_tag ty) && tags_match tags' tys'
  | _, _ => true
  end.
Fixpoint decode_all (cells : list Cell) (tys : list ValType) : res (list Val) :=
  match cells, tys with
  | c :: cells', t :: tys' => v ← decode c t; vs ← decode_all cells' tys'; Ok (v :: vs)
  | _, _ => Ok []
  end.
Definition pop_params_into (tys : list ValType) (out : list Val) : SM Execution (list Val) :=
  base ← reads (ensure_operands (zlen tys));
  ex ← get;
  if negb (tags_match (zdrop base (ex_shadow ex)) tys)
  then fail (operand_err "host parameter tag mismatch") else
  vs ← lift (decode_all (zdrop base (ex_values ex)) tys);
  modify (stack_truncate base);; mret (out ++ vs).
Definition pop_params (tys : list ValType) : SM Execution (list Val) := pop_params_into tys [].

Definition validate_result_tags (base : Z) (tys : list ValType) (ex : Execution) : res () :=
  if negb (zlen (ex_values ex) =? zlen (ex_shadow ex)) || (zlen (ex_values ex) <? base)
  then Err (operand_err "invalid result stack boundary") else
  let tags := zdrop base (ex_shadow ex) in
  if negb (zlen tags =? zlen tys) then Err (shape_err "wrong number of execution results") else
  if negb (tags_match tags tys) then Err (shape_err "execution result tag mismatch") else Ok tt.

Definition push_results_slice (results : list Val) : SM Execution () :=
  for_each results (λ v,
    modify (shadow_push (of_val v));;
    c ← lift (encode_val v);
    modify (values_push c)).
Definition push_results (results : list Val) : SM Execution () := push_results_slice results.

Definition root_of (p : Cell * RefTag) : option (Z * RefKind) :=
  kind ← refkind (snd p);
  if negb (cell_is_null (fst p)) then Some (cell_handle (fst p), kind) else None.
Definition operand_roots (ex : Execution) : res (list (Z * RefKind)) :=
  if negb (zlen (ex_values ex) =? zlen (ex_shadow ex))
  then Err (operand_err "value/shadow length mismatch during root scan")
  else Ok (omap root_of (zip (ex_values ex) (ex_shadow ex))).
End stack.

(** ** Well-formed executions *)
Section facts.
Context `{Features}.

Definition cell_ok (c : Cell) : Prop := zlen c = SLOT_BYTES.
Definition frame_ok (f : Frame) : Prop :=
  u_ok 32 (fr_ip f) ∧ u_ok 32 (fr_locals_base f) ∧ u_ok 32 (fr_operand_base f).
Record exec_wf (ex : Execution) : Prop := {
  xw_cells : Forall cell_ok (ex_values ex);
  xw_frames : Forall frame_ok (ex_frames ex);
}.
Definition lockstep (ex : Execution) : Prop := zlen (ex_values ex) = zlen (ex_shadow ex).
(** [k] operands of the current frame are on the stack. *)
Definition operands_ready (k : Z) (ex : Execution) : Prop :=
  lockstep ex ∧ ∃ f, last (ex_frames ex) = Some f ∧ fr_operand_base f + k ≤ zlen (ex_values ex).
Definition drop_top (k : Z) (ex : Execution) : Execution := stack_truncate (zlen (ex_values ex) - k) ex.

Lemma slot_bytes_width : 8 ≤ SLOT_BYTES ≤ 16.
Proof. unfold SLOT_BYTES. destruct feat_simd; lia. Qed.
Lemma zlen_cell_zero : zlen cell_zero = SLOT_BYTES.
Proof. unfold cell_zero. rewrite zlen_replicate. pose proof slot_bytes_width. lia. Qed.
Lemma cell_zero_ok : cell_ok cell_zero.
Proof. apply zlen_cell_zero. Qed.

Lemma floor_nonneg ex f : exec_wf ex → last (ex_frames ex) = Some f → 0 ≤ fr_operand_base f.
Proof.
  intros [_ Hf] Hl. rewrite last_lookup in Hl.
  rewrite Forall_lookup in Hf. destruct (Hf _ _ Hl) as (_ & _ & Ho). apply Ho.
Qed.

Lemma ensure_operands_spec k ex :
  exec_wf ex → 0 ≤ k →
  (operands_ready k ex ∧ 0 ≤ zlen (ex_values ex) - k ∧
     ensure_operands k ex = Ok (zlen (ex_values ex) - k)) ∨
  (¬ operands_ready k ex ∧ ∃ e, ensure_operands k ex = Err (EInternal e)).
Proof.
  intros Hwf Hk. unfold ensure_operands, operand_floor, operands_ready, lockstep.
  destruct (Z.eqb_spec (zlen (ex_values ex)) (zlen (ex_shadow ex))) as [Hl|]; cbn [negb];
    [|right; naive_solver].
  destruct (last (ex_frames ex)) as [f|] eqn:Hf; cbn [ok_or mbind result_bind];
    [|right; naive_solver].
  pose proof (floor_nonneg _ _ Hwf Hf). unfold checked_sub.
  destruct (Z.leb_spec (fr_operand_base f) (zlen (ex_values ex))); cbn [ok_or mbind result_bind];
    [|right; split; [naive_solver lia|eauto]].
  destruct (Z.ltb_spec (zlen (ex_values ex) - fr_operand_base f) k); cbn.
  - right. split; [naive_solver lia|eauto].
  - left. split_and!; [done| |lia|done]. exists f. split; [done|lia].
Qed.

Lemma ensure_scalar_cases k ex :
  exec_wf ex → 0 ≤ k →
  (operands_ready k ex ∧ 0 ≤ zlen (ex_values ex) - k ∧
     Forall (λ t, t = TagNone) (zdrop (zlen (ex_values ex) - k) (ex_shadow ex)) ∧
     ensure_scalar_operands k ex = Ok (zlen (ex_values ex) - k)) ∨
  (∃ e, ensure_scalar_operands k ex = Err (EInternal e)).
Proof.
  intros Hwf Hk. unfold ensure_scalar_operands.
  destruct (ensure_operands_spec k ex Hwf Hk) as [(Hr & Hb & ->)|(_ & e & ->)]; [|right; by exists e].
  cbn [mbind result_bind]. destruct (existsb _ _) eqn:He; [right; eexists; reflexivity|].
  left. split_and!; [done..| |done].
  apply Forall_forall. intros t Ht. destruct (Z.eqb_spec t TagNone) as [|Hn]; [done|exfalso].
  rewrite <- not_true_iff_false, existsb_exists in He. apply He. exists t.
  split; [by apply list_elem_of_In|]. by apply Z.eqb_neq in Hn as ->.
Qed.

Lemma value_at_in i ex : 0 ≤ i < zlen (ex_values ex) → ∃ c, value_at i ex = Ok c ∧ c ∈ ex_values ex.
Proof.
  intros Hi. destruct (zget_is_Some _ _ Hi) as [c Hc]. exists c. unfold value_at. rewrite Hc.
  split; [done|]. unfold zget in Hc. destruct (Z.leb_spec 0 i); [|lia].
  by apply list_elem_of_lookup_2 in Hc.
Qed.
Lemma tag_at_in i ex : lockstep ex → 0 ≤ i < zlen (ex_values ex) → ∃ t, tag_at i ex = Ok t.
Proof.
  unfold lockstep. intros Hl Hi. destruct (zget_is_Some (ex_shadow ex) i) as [t Ht]; [lia|].
  exists t. unfold tag_at. by rewrite Ht.
Qed.
Lemma cell_in_ok ex c : exec_wf ex → c ∈ ex_values ex → cell_ok c.
Proof. intros [Hc _]. rewrite Forall_forall in Hc. apply Hc. Qed.

Lemma read_slot_total slot c :
  cell_ok c → slot_offset slot = 0 → slot_width slot ≤ SLOT_BYTES → ∃ v, read_slot slot c = Ok v.
Proof.
  unfold cell_ok. intros Hc Ho Hw. destruct slot as [o k|o k]; cbn in Ho, Hw; subst o;
    cbn [read_slot]; rewrite tail_from_Some by (rewrite Hc; pose proof slot_bytes_width; lia);
    cbn [mbind result_bind]; rewrite zdrop_0.
  - destruct k; cbn in Hw |- *; rewrite le_Some by lia; cbn; eauto.
  - unfold le_u32, REF_WIDTH in *. rewrite le_Some by lia. cbn. eauto.
Qed.

Definition type_enabled (ty : ValType) : Prop := ty = TV128 → feat_simd = true.
Lemma slot_for_valtype_total ty :
  type_enabled ty → ∃ s, slot_for_valtype ty = Ok s ∧ slot_offset s = 0 ∧ slot_width s ≤ SLOT_BYTES.
Proof.
  intros Ht. pose proof slot_bytes_width.
  destruct ty as [| | | | |r]; cbn; try by (eexists; split_and!; [done|done|cbn; unfold REF_WIDTH; lia]).
  unfold SLOT_BYTES in *. rewrite (Ht eq_refl) in *. eexists; split_and!; [done|done|cbn; lia].
Qed.
Lemma decode_total c ty : cell_ok c → type_enabled ty → ∃ v, decode c ty = Ok v.
Proof.
  intros Hc Ht. destruct (slot_for_valtype_total ty Ht) as (s & Hs & Ho & Hw).
  unfold decode. rewrite Hs. cbn. by apply read_slot_total.
Qed.

(** ** The direct codecs agree with the generic ones *)
Lemma read_lo n c : cell_ok c → 0 ≤ n ≤ SLOT_BYTES → le n (zdrop 0 c) = Ok (lo n c).
Proof. intros Hc Hn. rewrite zdrop_0. apply le_Some. unfold cell_ok in Hc. lia. Qed.

Lemma of_bytes_splice bytes :
  zlen bytes ≤ SLOT_BYTES → zsplice cell_zero 0 bytes = Some (of_bytes bytes).
Proof.
  intros Hb. apply zsplice_Some. rewrite zlen_cell_zero. split_and!; [done|lia|done].
Qed.
Lemma of_bytes_ok bytes : zlen bytes ≤ SLOT_BYTES → cell_ok (of_bytes bytes).
Proof.
  intros Hb. unfold cell_ok, of_bytes. pose proof (zlen_nonneg bytes).
  rewrite zlen_app, zlen_drop; rewrite zlen_cell_zero; lia.
Qed.

Lemma decode_val_eq c ty : cell_ok c → decode_val c ty = decode c ty.
Proof.
  intros Hc. pose proof slot_bytes_width. pose proof Hc as Hc'. unfold cell_ok in Hc'.
  destruct ty; try done; unfold decode; cbn -[zdrop le sgn];
    rewrite tail_from_Some by lia; cbn -[zdrop le sgn]; rewrite read_lo by (done || lia); done.
Qed.
Lemma encode_val_eq v : encode_val v = encode v.
Proof.
  pose proof slot_bytes_width.
  destruct v; try done; unfold encode; cbn -[zsplice zdrop];
    rewrite tail_from_Some by (rewrite zlen_cell_zero; lia); cbn -[zsplice zdrop];
    rewrite zdrop_0;
    match goal with |- context [zsplice cell_zero 0 ?b] => rewrite (of_bytes_splice b) end;
    try done; unfold zlen; cbn; lia.
Qed.

(** ** Pops are transactions *)

(** The popping operations with the number of operands they take.  Type
    immediates are those of an enabled feature set. *)
Inductive pop_op : ∀ A : Type, Z → SM Execution A → Prop :=
  | PopCell : pop_op _ 1 pop
  | PopScalar : pop_op _ 1 pop_scalar
  | PopTagged : pop_op _ 1 pop_tagged
  | PopI32 : pop_op _ 1 pop_i32
  | PopI64 : pop_op _ 1 pop_i64
  | PopF32 : pop_op _ 1 pop_f32
  | PopF64 : pop_op _ 1 pop_f64
  | PopI32Pair : pop_op _ 2 pop_i32_pair
  | PopIndex is_64 : pop_op _ 1 (pop_index is_64)
  | PopRef kind : pop_op _ 1 (pop_ref kind)
  | PopTaggedRef : pop_op _ 1 pop_tagged_ref
  | PopAnyref : pop_op _ 1 pop_anyref
  | PopValFor field : slot_width field ≤ SLOT_BYTES → pop_op _ 1 (pop_val_for field)
  | PopTyped ty : type_enabled ty → pop_op _ 1 (pop_typed ty)
  | PopSelect : pop_op _ 3 pop_select
  | PopParams tys : Forall type_enabled tys → pop_op _ (zlen tys) (pop_params tys).

(** What a pop of [k] operands may do: drop exactly those, or fail untouched. *)
Definition transaction {A} (k : Z) (ex : Execution) (out : res A * Execution) : Prop :=
  match out with
  | (Ok _, ex') => operands_ready k ex ∧ ex' = drop_top k ex
  | (Err e, ex') => (∃ i, e = EInternal i) ∧ ex' = ex
  | (Panic _, _) => False
  end.

Lemma transaction_bind {A B} k ex (m : SM Execution A) (f : A → B) :
  transaction k ex (m ex) → transaction k ex ((x ← m; mret (f x)) ex).
Proof. unfold mbind, M_bind. destruct (m ex) as [[]]; done. Qed.

(** A body guarded by one of the two operand checks. *)
Lemma ensure_transaction {A} k ex (f : Z → SM Execution A) :
  exec_wf ex → 0 ≤ k →
  (operands_ready k ex → 0 ≤ zlen (ex_values ex) - k →
     transaction k ex (f (zlen (ex_values ex) - k) ex)) →
  transaction k ex ((reads (ensure_operands k) ≫= f) ex).
Proof.
  intros Hwf Hk Hf. destruct (ensure_operands_spec k ex Hwf Hk) as [(Hr & Hb & He)|(_ & e & He)].
  - rewrite (reads_Ok _ _ _ _ He). auto.
  - rewrite (reads_Err _ _ _ _ He). cbn. eauto.
Qed.
Lemma ensure_scalar_transaction {A} k ex (f : Z → SM Execution A) :
  exec_wf ex → 0 ≤ k →
  (operands_ready k ex → 0 ≤ zlen (ex_values ex) - k →
     transaction k ex (f (zlen (ex_values ex) - k) ex)) →
  transaction k ex ((reads (ensure_scalar_operands k) ≫= f) ex).
Proof.
  intros Hwf Hk Hf. destruct (ensure_scalar_cases k ex Hwf Hk) as [(Hr & Hb & _ & He)|(e & He)].
  - rewrite (reads_Ok _ _ _ _ He). auto.
  - rewrite (reads_Err _ _ _ _ He). cbn. eauto.
Qed.
Lemma value_transaction {A} k i ex (f : Cell → SM Execution A) :
  exec_wf ex → 0 ≤ i < zlen (ex_values ex) →
  (∀ c, cell_ok c → transaction k ex (f c ex)) →
  transaction k ex ((reads (value_at i) ≫= f) ex).
Proof.
  intros Hwf Hi Hf. destruct (value_at_in i ex Hi) as (c & Hc & Hin).
  rewrite (reads_Ok _ _ _ _ Hc). eauto using cell_in_ok.
Qed.
Lemma tag_transaction {A} k i ex (f : RefTag → SM Execution A) :
  lockstep ex → 0 ≤ i < zlen (ex_values ex) →
  (∀ t, tag_at i ex = Ok t → transaction k ex (f t ex)) →
  transaction k ex ((reads (tag_at i) ≫= f) ex).
Proof.
  intros Hl Hi Hf. destruct (tag_at_in i ex Hl Hi) as (t & Ht).
  rewrite (reads_Ok _ _ _ _ Ht). auto.
Qed.
Lemma commit_transaction {A} k ex (a : A) :
  operands_ready k ex →
  transaction k ex ((modify (stack_truncate (zlen (ex_values ex) - k));; mret a) ex).
Proof. done. Qed.
Lemma fail_transaction {A} k ex d : transaction k ex (fail (A:=A) (operand_err d) ex).
Proof. cbn. eauto. Qed.

Lemma pop_run ex : exec_wf ex → operands_ready 1 ex → 0 ≤ zlen (ex_values ex) - 1 →
  ∃ c, cell_ok c ∧ value_at (zlen (ex_values ex) - 1) ex = Ok c ∧ pop ex = (Ok c, drop_top 1 ex).
Proof.
  intros Hwf Hr Hb. destruct (ensure_operands_spec 1 ex Hwf) as [(_ & _ & He)|(? & _)]; [lia| |done].
  destruct (value_at_in (zlen (ex_values ex) - 1) ex) as (c & Hc & Hin); [lia|].
  exists c. split_and!; [by eapply cell_in_ok|done|].
  unfold pop. by rewrite (reads_Ok _ _ _ _ He), (reads_Ok _ _ _ _ Hc).
Qed.
Lemma pop_read_transaction ex slot : exec_wf ex → operands_ready 1 ex → 0 ≤ zlen (ex_values ex) - 1 →
  slot_offset slot = 0 → slot_width slot ≤ SLOT_BYTES →
  transaction 1 ex ((cell ← pop; lift (read_slot slot cell)) ex).
Proof.
  intros Hwf Hr Hb Ho Hw. destruct (pop_run ex Hwf Hr Hb) as (c & Hc & _ & Hp).
  unfold mbind, M_bind. rewrite Hp. destruct (read_slot_total slot c Hc Ho Hw) as [v Hv].
  unfold lift. rewrite Hv. done.
Qed.

Lemma decode_all_total cells tys :
  Forall cell_ok cells → Forall type_enabled tys → ∃ vs, decode_all cells tys = Ok vs.
Proof.
  intros Hc. revert tys. induction Hc as [|c cells Hc Hcs IH]; intros tys Ht; [by eexists|].
  destruct Ht as [|t tys Ht Hts]; [by eexists|]. cbn.
  destruct (decode_total c t Hc Ht) as [v ->]. destruct (IH tys Hts) as [vs ->]. by eexists.
Qed.

Ltac tx :=
  first
  [ apply ensure_transaction; [assumption|try lia|intros]
  | apply ensure_scalar_transaction; [assumption|try lia|intros]
  | apply value_transaction; [assumption|lia|intros]
  | apply tag_transaction; [match goal with H : operands_ready _ _ |- _ => apply H end|lia|intros]
  | apply commit_transaction; assumption
  | apply fail_transaction ].

Lemma pop_op_transaction A k (m : SM Execution A) ex :
  exec_wf ex → pop_op A k m → transaction k ex (m ex).
Proof.
  intros Hwf Hm.
  destruct Hm; unfold pop_index, pop_i32, pop_i64, pop_f32, pop_f64, pop_anyref;
    try apply transaction_bind; try (repeat tx; fail).
  - unfold pop_ref. do 2 tx. case_match; [tx|]. apply pop_read_transaction; try done.
    cbn. unfold REF_WIDTH. pose proof slot_bytes_width. lia.
  - unfold pop_tagged_ref. do 2 tx. case_match; repeat tx.
  - unfold pop_ref. do 2 tx. case_match; [tx|]. apply pop_read_transaction; try done.
    cbn. unfold REF_WIDTH. pose proof slot_bytes_width. lia.
  - unfold pop_val_for. do 2 tx. case_match; [tx|].
    pose proof slot_bytes_width.
    apply pop_read_transaction; [done..| |]; destruct field as [o [] |]; done || (cbn in *; lia).
  - unfold pop_typed. do 2 tx. case_match; [tx|]. tx.
    match goal with Hc : cell_ok ?c, Ht : type_enabled ?t |- _ =>
      destruct (decode_total c t Hc Ht) as [v Hv]; rewrite <- (decode_val_eq c t Hc) in Hv end.
    rewrite (lift_Ok _ _ _ _ Hv). tx.
  - unfold pop_select. do 4 tx. case_match; repeat tx.
  - unfold pop_params, pop_params_into. tx; [apply zlen_nonneg|].
    rewrite get_run. case_match; [tx|].
    destruct (decode_all_total (zdrop (zlen (ex_values ex) - zlen tys) (ex_values ex)) tys)
      as [vs Hvs]; [by apply Forall_drop, Hwf|done|].
    rewrite (lift_Ok _ _ _ _ Hvs). tx.
Qed.

(** C15: every pop either removes exactly its operands from the top of the
    current frame, or reports an internal error and leaves the execution as it
    was; it never panics. *)
Theorem pops_transactional A k (m : SM Execution A) ex :
  exec_wf ex → pop_op A k m → transaction k ex (m ex).
Proof. apply pop_op_transaction. Qed.

(** ** Values through cells *)

(** What the stack keeps of a value: references become bare same-store handles. *)
Definition stack_view (v : Val) : Val := slot_view (SlotRef 0 RkAny) v.

(** A host value that may cross the boundary at a type. *)
Definition passable (v : Val) (ty : ValType) : Prop :=
  val_matches v ty = true ∧ val_ok v ∧ storable v ∧ type_enabled ty.

Lemma matches_slot v ty : val_matches v ty = true → type_enabled ty →
  ∃ s, slot_for_val v = Ok s ∧ slot_for_valtype ty = Ok s ∧ slot_accepts s v = true ∧
    slot_offset s = 0 ∧ slot_width s ≤ SLOT_BYTES ∧ slot_view s v = stack_view v ∧
    of_val v = expected_tag ty.
Proof.
  intros Hm Ht. pose proof slot_bytes_width.
  destruct v as [x|x|x|x|x|o|o|o|o], ty as [| | | | |[n h]]; try discriminate Hm; cbn;
    try (eexists; split_and!; [done..|cbn; lia|done|done]).
  - unfold SLOT_BYTES in *. rewrite (Ht eq_refl) in *. eexists; split_and!; [done..|cbn; lia|done|done].
  - destruct h; try discriminate Hm; eexists; split_and!; try done; cbn; unfold REF_WIDTH; lia.
  - destruct h; try discriminate Hm; eexists; split_and!; try done; cbn; unfold REF_WIDTH; lia.
  - destruct h; try discriminate Hm; eexists; split_and!; try done; cbn; unfold REF_WIDTH; lia.
  - destruct h; try discriminate Hm; eexists; split_and!; try done; cbn; unfold REF_WIDTH; lia.
Qed.

Lemma encode_decode v ty : passable v ty →
  ∃ c, encode v = Ok c ∧ cell_ok c ∧ decode c ty = Ok (stack_view v) ∧ of_val v = expected_tag ty.
Proof.
  intros (Hm & Hv & Hs & Ht).
  destruct (matches_slot v ty Hm Ht) as (s & Hsv & Hst & Ha & Ho & Hw & Hview & Htag).
  pose proof (slot_width_pos s). pose proof zlen_cell_zero as Hz.
  destruct (write_slot_splice s cell_zero v Ha) as [Hws Hl]; [lia|lia|].
  rewrite Ho in Hws. pose proof (of_bytes_splice (slot_bytes s v) ltac:(lia)) as Hsp.
  exists (of_bytes (slot_bytes s v)). split_and!.
  - unfold encode. rewrite Hsv. cbn. by rewrite Hws, Hsp.
  - apply of_bytes_ok. lia.
  - unfold decode. rewrite Hst, <- Hview. cbn [mbind result_bind].
    pose proof (of_bytes_ok (slot_bytes s v) ltac:(lia)) as Hc. unfold cell_ok in Hc.
    apply read_window; [done..|lia|lia|]. rewrite Ho, <- Hl. by eapply zslice_splice_eq.
  - done.
Qed.

(** One push of the host boundary. *)
Lemma push_results_cons v vs ex c :
  encode v = Ok c →
  push_results_slice (v :: vs) ex = push_results_slice vs (values_push c (shadow_push (of_val v) ex)).
Proof.
  intros Hc. unfold push_results_slice. cbn [for_each].
  rewrite <- encode_val_eq in Hc. unfold mbind at 1, M_bind at 1.
  rewrite modify_run. unfold mbind at 1, M_bind at 1, lift. by rewrite Hc.
Qed.

Definition pushed (cs : list Cell) (ts : list RefTag) (ex : Execution) : Execution :=
  set_ex_shadow (ex_shadow ex ++ ts) (set_ex_values (ex_values ex ++ cs) ex).

Lemma push_results_run args tys ex : Forall2 passable args tys →
  ∃ cs, push_results_slice args ex = (Ok tt, pushed cs (expected_tag <$> tys) ex) ∧
    zlen cs = zlen tys ∧ Forall cell_ok cs ∧ decode_all cs tys = Ok (stack_view <$> args).
Proof.
  intros H2. revert ex. induction H2 as [|v ty args tys Hp H2 IH]; intros ex.
  - exists []. unfold pushed. cbn. rewrite !app_nil_r. by destruct ex.
  - destruct (encode_decode v ty Hp) as (c & He & Hc & Hd & Ht).
    destruct (IH (values_push c (shadow_push (of_val v) ex))) as (cs & Hr & Hl & Hcs & Hds).
    exists (c :: cs). rewrite (push_results_cons v args ex c He), Hr, Ht. split_and!.
    + unfold pushed, values_push, shadow_push. cbn. by rewrite <- !app_assoc.
    + rewrite !zlen_cons. lia.
    + by constructor.
    + cbn. by rewrite Hd, Hds.
Qed.

Lemma tags_match_refl tys : tags_match (expected_tag <$> tys) tys = true.
Proof. induction tys as [|t tys IH]; [done|]. cbn. by rewrite Z.eqb_refl, IH. Qed.

Lemma truncate_pushed cs ts ex : lockstep ex →
  stack_truncate (zlen (ex_values ex)) (pushed cs ts ex) = ex.
Proof.
  intros Hl. unfold stack_truncate, pushed. cbn. rewrite ztake_app by done.
  rewrite ztake_app by (by rewrite Hl). by destruct ex.
Qed.

(** C19: values accepted at a signature cross the host boundary and back: pushed
    as results they have the signature's tags, popped as parameters they are the
    same values (references as same-store handles), and the execution is
    restored. *)
Theorem host_boundary_roundtrip args tys ex :
  exec_wf ex → operands_ready 0 ex → Forall2 passable args tys →
  ∃ ex1, push_results_slice args ex = (Ok tt, ex1) ∧ exec_wf ex1 ∧
    validate_result_tags (zlen (ex_values ex)) tys ex1 = Ok tt ∧
    pop_params tys ex1 = (Ok (stack_view <$> args), ex).
Proof.
  intros Hwf [Hl (f & Hf & Hfl)] H2. pose proof Hwf as [Hcells Hframes].
  destruct (push_results_run args tys ex H2) as (cs & Hr & Hlen & Hcs & Hds).
  eexists. split; [exact Hr|]. unfold lockstep in Hl.
  assert (exec_wf (pushed cs (expected_tag <$> tys) ex)) as Hwf1.
  { split; [cbn; by apply Forall_app|done]. }
  assert (Hl1 : zlen (ex_values ex ++ cs) = zlen (ex_shadow ex ++ (expected_tag <$> tys)))
    by zlen_solve.
  split_and!; [done|..].
  - unfold validate_result_tags. cbn [ex_values ex_shadow pushed set_ex_values set_ex_shadow].
    rewrite Hl1, Z.eqb_refl. pose proof (zlen_nonneg tys).
    rewrite (proj2 (Z.ltb_ge _ _)) by zlen_solve. cbn [negb orb].
    rewrite (zdrop_app (zlen (ex_values ex))) by done.
    by rewrite zlen_fmap, Z.eqb_refl, tags_match_refl.
  - unfold pop_params, pop_params_into. pose proof (zlen_nonneg tys).
    destruct (ensure_operands_spec (zlen tys) (pushed cs (expected_tag <$> tys) ex))
      as [(_ & _ & He)|[Hn _]]; [done|done| |].
    + rewrite (reads_Ok _ _ _ _ He), get_run. cbn [ex_values ex_shadow pushed set_ex_values set_ex_shadow].
      replace (zlen (ex_values ex ++ cs) - zlen tys) with (zlen (ex_values ex)) by zlen_solve.
      rewrite !zdrop_app by done. rewrite tags_match_refl. cbn [negb].
      rewrite (lift_Ok _ _ _ _ Hds), modify_run, truncate_pushed by done. done.
    + destruct Hn. split; [done|]. exists f. split; [done|]. cbn. zlen_solve.
Qed.

(** Initialising a local straight as a cell is pushing the default value of
    its type, for every type the build supports. *)
Theorem push_default_spec ty ex :
  (ty = IrV128 → feat_simd = true) → push (default_for ty) ex = (Ok tt, push_default ty ex).
Proof.
  intros Ht. destruct H as [[]], ty as [| | | | |n h]; try done.
  - destruct h as [| | | | | | | | | | | |idx []]; done.
  - by specialize (Ht eq_refl).
  - destruct h as [| | | | | | | | | | | |idx []]; done.
Qed.

Lemma zip_get {A B} (l : list A) (k : list B) a b :
  (a, b) ∈ zip l k ↔ ∃ i, zget l i = Some a ∧ zget k i = Some b.
Proof.
  rewrite list_elem_of_lookup. split.
  - intros [i Hi]. apply lookup_zip_Some in Hi as [Ha Hb]. exists (Z.of_nat i).
    unfold zget. rewrite (proj2 (Z.leb_le _ _)) by lia. by rewrite Nat2Z.id.
  - intros (i & Ha & Hb). exists (Z.to_nat i). apply lookup_zip_Some.
    unfold zget in *. by destruct (0 <=? i).
Qed.

Lemma refkind_inv t k : refkind t = Some k ↔ t = of_refkind k.
Proof.
  split; [|by intros ->; destruct k]. unfold refkind.
  by repeat match goal with |- context [t =? ?x] => destruct (Z.eqb_spec t x) as [->|]; [by intros [= <-]|] end.
Qed.

(** On a stack in lockstep the root scan succeeds and returns exactly the
    non-null handles of reference-tagged slots, with their hierarchy. *)
Theorem operand_roots_exact ex :
  lockstep ex →
  ∃ roots, operand_roots ex = Ok roots ∧
    ∀ h k, (h, k) ∈ roots ↔
      ∃ i c, zget (ex_values ex) i = Some c ∧ zget (ex_shadow ex) i = Some (of_refkind k) ∧
        cell_handle c = h ∧ h ≠ NULL_REF.
Proof.
  unfold lockstep, operand_roots. intros Hl. rewrite Hl, Z.eqb_refl. cbn [negb].
  eexists. split; [done|]. intros h k. rewrite list_elem_of_omap. split.
  - intros ([c t] & Hin%zip_get & Hr). destruct Hin as (i & Hc & Ht). unfold root_of in Hr. cbn in Hr.
    destruct (refkind t) as [k'|] eqn:Hk; [|done]. apply refkind_inv in Hk as ->.
    cbn in Hr. unfold cell_is_null in Hr. destruct (Z.eqb_spec (cell_handle c) NULL_REF); [done|].
    injection Hr as <- <-. eauto 10.
  - intros (i & c & Hc & Ht & <- & Hn). exists (c, of_refkind k). split; [apply zip_get; eauto|].
    unfold root_of. cbn. rewrite (proj2 (refkind_inv _ k)) by done. cbn. unfold cell_is_null.
    by rewrite (proj2 (Z.eqb_neq _ _)) by done.
Qed.
End facts.

(** ** Pops undo pushes *)
Section undo.
Context `{Features}.

(** The current frame of a well-formed execution can be pushed on. *)
Record pushable (ex : Execution) : Prop := { pu_wf : exec_wf ex; pu_ready : operands_ready 0 ex }.

Lemma pushable_push bytes ex : pushable ex → zlen bytes ≤ SLOT_BYTES → pushable (push_scalar bytes ex).
Proof.
  intros [[Hc Hf] [Hl (f & Hlast & Hfl)]] Hb. unfold lockstep in Hl. split; [split|].
  - cbn. apply Forall_app. split; [done|]. apply Forall_singleton. by apply of_bytes_ok.
  - done.
  - split; [unfold lockstep; cbn -[zlen]; zlen_solve|]. exists f. split; [done|]. cbn -[zlen]. zlen_solve.
Qed.

Lemma truncate_push c t ex : lockstep ex →
  stack_truncate (zlen (ex_values ex)) (values_push c (shadow_push t ex)) = ex.
Proof. intros Hl. exact (truncate_pushed [c] [t] ex Hl). Qed.

Lemma pop_scalar_push bytes ex : pushable ex → zlen bytes ≤ SLOT_BYTES →
  pop_scalar (push_scalar bytes ex) = (Ok (of_bytes bytes), ex).
Proof.
  intros Hp Hb. pose proof (pushable_push bytes ex Hp Hb) as [Hwf1 _].
  destruct Hp as [Hwf [Hl (f & Hf & Hfl)]]. pose proof Hl as Hl'. unfold lockstep in Hl'.
  assert (zlen (ex_values (push_scalar bytes ex)) = zlen (ex_values ex) + 1) as Hn by (cbn -[zlen]; zlen_solve).
  assert (ensure_scalar_operands 1 (push_scalar bytes ex) = Ok (zlen (ex_values ex))) as He.
  { unfold ensure_scalar_operands.
    destruct (ensure_operands_spec 1 (push_scalar bytes ex) Hwf1) as [(_ & _ & ->)|[Hno _]]; [lia| |].
    - rewrite Hn. replace (zlen (ex_values ex) + 1 - 1) with (zlen (ex_values ex)) by lia.
      cbn -[zlen zdrop existsb]. by rewrite zdrop_app.
    - destruct Hno. split; [unfold lockstep; cbn -[zlen]; zlen_solve|]. exists f. split; [done|]. rewrite Hn. lia. }
  unfold pop_scalar. rewrite (reads_Ok _ _ _ _ He), (reads_Ok _ _ _ (of_bytes bytes)).
  - rewrite modify_run. unfold push_scalar. by rewrite truncate_push.
  - unfold value_at. cbn -[zlen zget]. rewrite zget_app_r by lia. by rewrite Z.sub_diag.
Qed.

Lemma lo_of_bytes bytes n : zlen bytes = n → lo n (of_bytes bytes) = bytes.
Proof. intros <-. unfold lo, of_bytes. by apply ztake_app. Qed.
Lemma cell_i32_push v : cell_i32 (of_bytes (to_le_bytes 4 v)) = sgn 32 v.
Proof. unfold cell_i32. rewrite lo_of_bytes by done. rewrite from_to_le. by apply (sgn_wrap 32). Qed.
Lemma cell_i64_push v : cell_i64 (of_bytes (to_le_bytes 8 v)) = sgn 64 v.
Proof. unfold cell_i64. rewrite lo_of_bytes by done. rewrite from_to_le. by apply (sgn_wrap 64). Qed.
Lemma le4_fits v : zlen (to_le_bytes 4 v) ≤ SLOT_BYTES.
Proof. rewrite zlen_to_le. pose proof slot_bytes_width. lia. Qed.
Lemma le8_fits v : zlen (to_le_bytes 8 v) ≤ SLOT_BYTES.
Proof. rewrite zlen_to_le. pose proof slot_bytes_width. lia. Qed.

(** An index operand of a 32- or 64-bit memory or table. *)
Definition push_addr (is_64 : bool) (a : Z) : Execution → Execution :=
  if is_64 then push_i64 a else push_i32 a.
Definition index_width (is_64 : bool) : Z := if is_64 then 64 else 32.

Lemma pushable_addr is_64 a ex : pushable ex → pushable (push_addr is_64 a ex).
Proof. intros. destruct is_64; apply pushable_push; auto using le4_fits, le8_fits. Qed.
Lemma pop_index_push is_64 a ex : pushable ex → u_ok (index_width is_64) a →
  pop_index is_64 (push_addr is_64 a ex) = (Ok a, ex).
Proof.
  intros Hp Ha. unfold pop_index. rewrite bind_unfold. destruct is_64; cbn [push_addr index_width] in *.
  - unfold push_i64. rewrite pop_scalar_push by auto using le8_fits. rewrite cell_i64_push, wrap_sgn by done.
    by rewrite wrap_id.
  - unfold push_i32. rewrite pop_scalar_push by auto using le4_fits. rewrite cell_i32_push, wrap_sgn by done.
    by rewrite wrap_id.
Qed.
Lemma pop_i32_push v ex : pushable ex → pop_i32 (push_i32 v ex) = (Ok (sgn 32 v), ex).
Proof.
  intros Hp. unfold pop_i32, push_i32. rewrite bind_unfold, pop_scalar_push by auto using le4_fits.
  by rewrite cell_i32_push.
Qed.
Lemma pop_i64_push v ex : pushable ex → pop_i64 (push_i64 v ex) = (Ok (sgn 64 v), ex).
Proof.
  intros Hp. unfold pop_i64, push_i64. rewrite bind_unfold, pop_scalar_push by auto using le8_fits.
  by rewrite cell_i64_push.
Qed.
Lemma pop_f32_push v ex : pushable ex → u_ok 32 v → pop_f32 (push_f32 v ex) = (Ok v, ex).
Proof.
  intros Hp Hv. unfold pop_f32, push_f32. rewrite bind_unfold, pop_scalar_push by auto using le4_fits.
  unfold cell_f32. rewrite lo_of_bytes, from_to_le by done. by rewrite Z.mod_small.
Qed.
Lemma pop_f64_push v ex : pushable ex → u_ok 64 v → pop_f64 (push_f64 v ex) = (Ok v, ex).
Proof.
  intros Hp Hv. unfold pop_f64, push_f64. rewrite bind_unfold, pop_scalar_push by auto using le8_fits.
  unfold cell_f64. rewrite lo_of_bytes, from_to_le by done. by rewrite Z.mod_small.
Qed.
End undo.

(** ** A concrete execution *)
Definition lean_features : Features := {| feat_simd := false |}.
Definition full_features : Features := {| feat_simd := true |}.
Definition span0 : Span := {| sp_start := 0; sp_len := 0 |}.
Definition func0 : CompiledFunc :=
  {| cf_ops := span0; cf_type_idx := 0; cf_n_params := 0; cf_n_results := 0; cf_local_types := span0;
     cf_max_operands := 0; cf_handlers := span0; cf_br_tables := span0; cf_big_memargs := span0;
     cf_offsets := span0 |}.
Definition frame0 (locals_base operand_base : Z) (d : option Delimiter) : Frame :=
  {| fr_code := {| code_module := empty_module; code_index := 0 |}; fr_func := func0; fr_ip := 0;
     fr_locals_base := locals_base; fr_operand_base := operand_base;
     fr_instance := {| h_index := 0; h_store := 1 |}; fr_func_index := 0; fr_delimiter := d |}.
(** A frame with one [i32] local, and an [i32] and a null [funcref] operand. *)
Definition ex_demo : Execution :=
  {| ex_values := [@from_i32 lean_features 7; @from_i32 lean_features 5;
                   @of_bytes lean_features (to_le_bytes 4 NULL_REF)];
     ex_shadow := [TagNone; TagNone; TagFunc]; ex_frames := [frame0 0 1 None];
     ex_host_reentry_depth := 0 |}.
Lemma ex_demo_wf : @exec_wf lean_features ex_demo.
Proof. split; repeat constructor; vm_compute; intuition congruence. Qed.

Lemma pops_transactional_witness :
  transaction 2 ex_demo (@pop_params lean_features [TI32; TRef {| rt_nullable := true; rt_heap := HtFunc |}] ex_demo) ∧
  @pop_params lean_features [TI32; TRef {| rt_nullable := true; rt_heap := HtFunc |}] ex_demo
  = (Ok [VI32 5; VFuncRef None], drop_top 2 ex_demo).
Proof.
  split; [|reflexivity].
  apply (@pops_transactional lean_features _ 2); [exact ex_demo_wf|].
  apply (@PopParams lean_features [TI32; TRef {| rt_nullable := true; rt_heap := HtFunc |}]).
  repeat constructor; discriminate.
Defined.

Lemma host_boundary_roundtrip_witness :
  ∃ ex1, @push_results_slice lean_features [VI64 (-1); VExternRef None] ex_demo = (Ok tt, ex1) ∧
    @exec_wf lean_features ex1 ∧
    validate_result_tags 3 [TI64; TRef {| rt_nullable := true; rt_heap := HtExtern |}] ex1 = Ok tt ∧
    @pop_params lean_features [TI64; TRef {| rt_nullable := true; rt_heap := HtExtern |}] ex1
    = (Ok [VI64 (-1); VExternRef None], ex_demo).
Proof.
  apply (@host_boundary_roundtrip lean_features [VI64 (-1); VExternRef None]
           [TI64; TRef {| rt_nullable := true; rt_heap := HtExtern |}] ex_demo ex_demo_wf).
  - split; [reflexivity|]. exists (frame0 0 1 None). split; [reflexivity|vm_compute; discriminate].
  - repeat constructor; vm_compute; congruence.
Defined.

Lemma push_default_spec_witness :
  @push full_features (default_for IrV128) ex_demo = (Ok tt, @push_default full_features IrV128 ex_demo).
Proof. apply (@push_default_spec full_features). reflexivity. Defined.

Lemma operand_roots_exact_witness :
  ∃ roots, operand_roots ex_demo = Ok roots ∧
    ∀ h k, (h, k) ∈ roots ↔
      ∃ i c, zget (ex_values ex_demo) i = Some c ∧ zget (ex_shadow ex_demo) i = Some (of_refkind k) ∧
        cell_handle c = h ∧ h ≠ NULL_REF.
Proof. apply operand_roots_exact. reflexivity. Defined.
