(* ===== verification/Frame.v ===== *)
(** * Frame: call frames and call boundaries
    (src/src/exec/frame.rs; the call-boundary methods of src/src/exec/mod.rs)

    Wasm calls, branches and returns move operands over the shared stacks; a
    [Delimiter] frame separates a host re-entry from the parked outer call.  The
    results: calls and returns balance, branches keep exactly their operands, a
    failed or discarded call gives back the parked outer state, and along any
    run the frames stay nested and the re-entry counter counts the live
    boundaries. *)
From stdpp Require Import relations.
From S2P Require Import Prelude Types Layout Codec Op Entity Stack.
Open Scope Z_scope.

(** [size_of::<Frame>()], the compiler's choice. *)
Class FrameSize := { frame_size : Z }.

Definition HOST_REENTRY_RESERVE : Z := 4096.
Definition GC_CHECK_INTERVAL : Z := 1024.

Definition frames_push (f : Frame) (ex : Execution) : Execution := set_ex_frames (ex_frames ex ++ [f]) ex.
Definition frames_truncate (n : Z) (ex : Execution) : Execution := set_ex_frames (ztake n (ex_frames ex)) ex.

(** [u32::try_from(n)] *)
Definition try_u32 (n : Z) : option Z := if n <? 2 ^ 32 then Some n else None.

Section frame.
Context `{Features}.

Definition push_call (instance : Handle) (func_index : Z) (code : Code) : SM Execution () :=
  func ← lift (code_func code);
  ex ← get;
  if negb (zlen (ex_values ex) =? zlen (ex_shadow ex))
  then fail (operand_err "value/shadow length mismatch") else
  value_len ← lift (ok_or (try_u32 (zlen (ex_values ex))) (frame_err "operand stack length exceeds u32"));
  let caller_floor := match last (ex_frames ex) with Some f => fr_operand_base f | None => 0 end in
  if match checked_sub value_len caller_floor with
     | Some available => available <? cf_n_params func
     | None => true
     end
  then fail (operand_err "call parameter underflow") else
  locals_base ← lift (ok_or (checked_sub value_len (cf_n_params func)) (frame_err "call parameter underflow"));
  local_types ← lift (code_local_types_of code func);
  n_locals ← lift (ok_or (try_u32 (zlen local_types)) (frame_err "local count exceeds u32"));
  operand_base ← lift (ok_or (checked_add 32 value_len n_locals) (frame_err "frame operand base exceeds u32"));
  modify (λ ex, foldl (λ ex ty, push_default ty ex) ex local_types);;
  modify (frames_push
    {| fr_code := code; fr_func := func; fr_ip := 0; fr_locals_base := locals_base;
       fr_operand_base := operand_base; fr_instance := instance; fr_func_index := func_index;
       fr_delimiter := None |}).

Definition push_delimiter (kind : Delimiter) (instance : Handle) (code : Code) : SM Execution () :=
  ex ← get;
  if negb (zlen (ex_values ex) =? zlen (ex_shadow ex))
  then fail (operand_err "value/shadow length mismatch") else
  locals_base ← lift (ok_or (try_u32 (zlen (ex_values ex))) (frame_err "operand stack length exceeds u32"));
  func ← lift (code_func code);
  modify (frames_push
    {| fr_code := code; fr_func := func; fr_ip := 0; fr_locals_base := locals_base;
       fr_operand_base := locals_base; fr_instance := instance; fr_func_index := 0;
       fr_delimiter := Some kind |}).

(** [copy_within(src..src+n, dst)] then [truncate(dst + n)] on both stacks. *)
Definition slide_down (src n dst : Z) : SM Execution () := λ ex,
  match zcopy_within (ex_values ex) src (src + n) dst, zcopy_within (ex_shadow ex) src (src + n) dst with
  | Some vs, Some ss => (Ok tt, stack_truncate (dst + n) (set_ex_shadow ss (set_ex_values vs ex)))
  | _, _ => (Panic "copy_within out of range", ex)
  end.

Definition take_branch (t : BranchTarget) : SM Execution () :=
  ex ← get;
  if negb (zlen (ex_values ex) =? zlen (ex_shadow ex))
  then fail (operand_err "value/shadow length mismatch") else
  let len := zlen (ex_values ex) in
  let keep := bt_keep t in
  needed ← lift (ok_or (checked_add 64 keep (bt_pop t)) (operand_err "branch stack fixup overflow"));
  frame ← lift (ok_or (last (ex_frames ex)) (frame_err "missing branch frame"));
  if match checked_sub len (fr_operand_base frame) with
     | Some available => available <? needed
     | None => true
     end
  then fail (operand_err "branch stack fixup underflow") else
  let src := len - keep in
  let dst := src - bt_pop t in
  slide_down src keep dst.

Definition top (ex : Execution) : res (Code * CompiledFunc * Z * Z * Handle) :=
  f ← ok_or (last (ex_frames ex)) (frame_err "missing current frame");
  if bool_decide (fr_delimiter f ≠ None) then Err (frame_err "delimiter used as executable frame")
  else Ok (fr_code f, fr_func f, fr_ip f, fr_locals_base f, fr_instance f).

Definition do_return (n_results stop_depth : Z) (tail : bool) : SM Execution bool :=
  ex ← get;
  if (zlen (ex_frames ex) <=? stop_depth) || negb (zlen (ex_values ex) =? zlen (ex_shadow ex))
  then fail (frame_err "invalid return boundary") else
  frame ← lift (ok_or (last (ex_frames ex)) (frame_err "frame stack underflow"));
  if bool_decide (fr_delimiter frame ≠ None) then fail (frame_err "cannot return from a delimiter") else
  let n := n_results in
  let len := zlen (ex_values ex) in
  let dst := fr_locals_base frame in
  let floor := fr_operand_base frame in
  available ← lift (ok_or (checked_sub len floor) (operand_err "return stack below frame floor"));
  result_end ← lift (ok_or (checked_add 64 dst n) (operand_err "return result position overflow"));
  if (floor <? dst) || (len <? result_end) || (available <? n) || (negb tail && negb (available =? n))
  then fail (shape_err "wrong number of frame results") else
  modify (frames_truncate (zlen (ex_frames ex) - 1));;
  slide_down (len - n) n dst;;
  ex' ← get;
  mret (zlen (ex_frames ex') =? stop_depth).

(** ** Call boundaries (exec/mod.rs) *)
Fixpoint encode_args (args : list Val) : res (list Cell) :=
  match args with
  | [] => Ok []
  | v :: args' => c ← encode v; cs ← encode_args args'; Ok (c :: cs)
  end.

Definition enter_call (delim : Delimiter) (instance : Handle) (func_index : Z) (code : Code)
    (args : list Val) : SM Execution () :=
  ex ← get;
  let value_base := zlen (ex_values ex) in
  let frame_base := zlen (ex_frames ex) in
  let old_reentry_depth := ex_host_reentry_depth ex in
  depth ← lift (if decide (delim = HostReentry)
                then ok_or (checked_add 64 old_reentry_depth 1) (frame_err "host re-entry depth overflow")
                else Ok old_reentry_depth);
  modify (set_ex_depth depth);;
  on_err (push_delimiter delim instance code) (set_ex_depth old_reentry_depth);;
  modify (λ ex, set_ex_shadow (ex_shadow ex ++ (of_val <$> args)) ex);;
  cells ← lift (encode_args args);
  modify (λ ex, set_ex_values (ex_values ex ++ cells) ex);;
  on_err (push_call instance func_index code)
    (λ ex, set_ex_depth old_reentry_depth (frames_truncate frame_base (stack_truncate value_base ex))).

Definition release_reentry (stop_depth : Z) : SM Execution () :=
  ex ← get;
  match zget (ex_frames ex) stop_depth ≫= fr_delimiter with
  | Some HostReentry =>
      d ← lift (ok_or (checked_sub (ex_host_reentry_depth ex) 1) (frame_err "host re-entry depth underflow"));
      modify (set_ex_depth d)
  | Some TopLevel => mret tt
  | None => fail (frame_err "missing call boundary delimiter")
  end.

Definition take_results (value_base stop_depth : Z) (result_tys : list ValType) : SM Execution (list Cell) :=
  ex ← get;
  if negb (zlen (ex_values ex) =? zlen (ex_shadow ex)) || (zlen (ex_values ex) <? value_base)
     || (zlen (ex_frames ex) <? stop_depth)
  then fail (frame_err "invalid completed call boundary") else
  reads (validate_result_tags value_base result_tys);;
  release_reentry stop_depth;;
  let results := zdrop value_base (ex_values ex) in
  modify (stack_truncate value_base);;
  modify (frames_truncate stop_depth);;
  mret results.

Definition discard_to (value_base stop_depth : Z) : SM Execution () :=
  ex ← get;
  if negb (zlen (ex_values ex) =? zlen (ex_shadow ex)) || (zlen (ex_values ex) <? value_base)
     || (zlen (ex_shadow ex) <? value_base) || (zlen (ex_frames ex) <? stop_depth)
  then fail (frame_err "invalid failed call boundary") else
  release_reentry stop_depth;;
  modify (stack_truncate value_base);;
  modify (frames_truncate stop_depth).

(** The innermost delimiter: its depth and operand base ([rev().find_map]). *)
Fixpoint find_boundary (n : nat) (frames : list Frame) : option (Z * Z) :=
  match n with
  | O => None
  | S n' =>
      match frames !! n' with
      | Some f =>
          if bool_decide (fr_delimiter f ≠ None) then Some (Z.of_nat n', fr_locals_base f)
          else find_boundary n' frames
      | None => None
      end
  end.
Definition discard_current_call : SM Execution (Z * Z) :=
  ex ← get;
  b ← lift (ok_or (find_boundary (length (ex_frames ex)) (ex_frames ex))
              (frame_err "missing call boundary during panic cleanup"));
  discard_to (snd b) (fst b);;
  mret (snd b, fst b).

Definition stack_bytes `{FrameSize} (ex : Execution) : res Z :=
  values ← ok_or (checked_mul 64 (zlen (ex_values ex)) SLOT_BYTES) (frame_err "operand stack byte size overflow");
  frames ← ok_or (checked_mul 64 (zlen (ex_frames ex)) frame_size) (frame_err "frame stack byte size overflow");
  reentry ← ok_or (checked_mul 64 (ex_host_reentry_depth ex) HOST_REENTRY_RESERVE)
              (frame_err "host re-entry byte size overflow");
  ok_or (n ← checked_add 64 values (zlen (ex_shadow ex));
         n ← checked_add 64 n frames;
         checked_add 64 n reentry)
    (frame_err "execution stack byte size overflow").
End frame.

(** ** One operation at a time *)
Section specs.
Context `{Features}.

(** Case analysis on a run of [get]/[lift]/guards. *)
Lemma copy_trunc {A} (l : list A) a n d :
  0 ≤ d ≤ a → 0 ≤ n → a + n = zlen l →
  ∃ l', zcopy_within l a (a + n) d = Some l' ∧ ztake (d + n) l' = ztake d l ++ zdrop a l.
Proof.
  intros Hd Hn Ha. unfold zcopy_within. rewrite zslice_is_Some by lia.
  replace (a + n - a) with n by lia.
  assert (zlen (zdrop a l) = n) as Hz by (rewrite zlen_drop; lia).
  rewrite (ztake_all n (zdrop a l)) by lia.
  destruct (zsplice_is_Some l (zdrop a l) d) as [l' Hl']; [lia|lia|].
  exists l'. split; [done|]. apply zsplice_Some in Hl' as (_ & _ & ->).
  rewrite app_assoc. apply ztake_app. rewrite zlen_app, zlen_take; lia.
Qed.

Definition slid (src n dst : Z) (ex : Execution) : Execution :=
  set_ex_shadow (ztake dst (ex_shadow ex) ++ zdrop src (ex_shadow ex))
    (set_ex_values (ztake dst (ex_values ex) ++ zdrop src (ex_values ex)) ex).

Lemma slide_down_run src n dst ex :
  lockstep ex → 0 ≤ dst ≤ src → 0 ≤ n → src + n = zlen (ex_values ex) →
  slide_down src n dst ex = (Ok tt, slid src n dst ex).
Proof.
  intros Hl Hd Hn Hs. unfold lockstep in Hl. unfold slide_down.
  destruct (copy_trunc (ex_values ex) src n dst) as (vs & -> & Hv); [lia..|].
  destruct (copy_trunc (ex_shadow ex) src n dst) as (ss & -> & Hss); [lia..|].
  unfold stack_truncate, slid. cbn. by rewrite Hv, Hss.
Qed.

(** A branch keeps exactly its [keep] top operands, drops the [pop] below
    them, and touches nothing else; without enough operands in the frame it fails
    and leaves the execution as it was. *)
Theorem take_branch_spec t ex :
  exec_wf ex → u_ok 16 (bt_keep t) → u_ok 16 (bt_pop t) →
  let len := zlen (ex_values ex) in
  (operands_ready (bt_keep t + bt_pop t) ex ∧
     take_branch t ex =
       (Ok tt, set_ex_shadow (ztake (len - bt_keep t - bt_pop t) (ex_shadow ex) ++ zdrop (len - bt_keep t) (ex_shadow ex))
                 (set_ex_values (ztake (len - bt_keep t - bt_pop t) (ex_values ex) ++ zdrop (len - bt_keep t) (ex_values ex)) ex))) ∨
  (¬ operands_ready (bt_keep t + bt_pop t) ex ∧ ∃ e, take_branch t ex = (Err (EInternal e), ex)).
Proof.
  intros Hwf [Hk1 Hk2] [Hp1 Hp2] len. change (2 ^ 16) with 65536 in *.
  unfold take_branch. rewrite get_run.
  unfold operands_ready, lockstep.
  destruct (Z.eqb_spec (zlen (ex_values ex)) (zlen (ex_shadow ex))) as [Hl|]; cbn [negb]; [|right; naive_solver].
  unfold checked_add. rewrite (proj2 (Z.ltb_lt _ _)) by lia.
  lift_step.
  destruct (last (ex_frames ex)) as [f|] eqn:Hf; [|right; naive_solver].
  lift_step.
  pose proof (floor_nonneg _ _ Hwf Hf). unfold checked_sub. fold len.
  destruct (Z.leb_spec (fr_operand_base f) len); [|right; split; [naive_solver lia|by eexists]].
  destruct (Z.ltb_spec (len - fr_operand_base f) (bt_keep t + bt_pop t));
    [right; split; [naive_solver lia|by eexists]|].
  left. split; [split; [done|]; exists f; split; [done|lia]|].
  rewrite slide_down_run by (done || lia). done.
Qed.

(** The locals a call adds. *)
Definition default_cell (ty : IrVal) : Cell :=
  match ty with IrRefTy _ _ => of_bytes (to_le_bytes 4 NULL_REF) | _ => of_bytes cell_zero end.
Definition default_tag (ty : IrVal) : RefTag :=
  match ty with IrRefTy _ heap => of_refkind (refkind_of_irheap heap) | _ => TagNone end.

Lemma push_defaults tys ex :
  foldl (λ ex ty, push_default ty ex) ex tys = pushed (default_cell <$> tys) (default_tag <$> tys) ex.
Proof.
  revert ex. induction tys as [|ty tys IH]; intros ex; cbn.
  - unfold pushed. rewrite !app_nil_r. by destruct ex.
  - rewrite IH. unfold pushed. destruct ty; cbn; by rewrite <- !app_assoc.
Qed.
Lemma default_cell_ok ty : cell_ok (default_cell ty).
Proof.
  pose proof slot_bytes_width.
  destruct ty; apply of_bytes_ok; try (rewrite zlen_cell_zero; lia). rewrite zlen_to_le; lia.
Qed.

Definition frame_floor (frames : list Frame) : Z :=
  match last frames with Some f => fr_operand_base f | None => 0 end.

Record call_ready (ex : Execution) (func : CompiledFunc) (tys : list IrVal) : Prop := {
  cr_lockstep : lockstep ex;
  cr_len : zlen (ex_values ex) < 2 ^ 32;
  cr_params : frame_floor (ex_frames ex) + cf_n_params func ≤ zlen (ex_values ex);
  cr_locals : zlen (ex_values ex) + zlen tys < 2 ^ 32;
}.
Definition entered (instance : Handle) (func_index : Z) (code : Code) (func : CompiledFunc)
    (tys : list IrVal) (ex : Execution) : Execution :=
  frames_push
    {| fr_code := code; fr_func := func; fr_ip := 0;
       fr_locals_base := zlen (ex_values ex) - cf_n_params func;
       fr_operand_base := zlen (ex_values ex) + zlen tys; fr_instance := instance;
       fr_func_index := func_index; fr_delimiter := None |}
    (pushed (default_cell <$> tys) (default_tag <$> tys) ex).

(** A call either lays its frame or changes nothing. *)
Lemma push_call_cases instance func_index code ex :
  0 ≤ frame_floor (ex_frames ex) →
  (∃ func tys, code_func code = Ok func ∧ code_local_types_of code func = Ok tys ∧
     call_ready ex func tys ∧
     push_call instance func_index code ex = (Ok tt, entered instance func_index code func tys ex)) ∨
  (∃ r, push_call instance func_index code ex = (r, ex) ∧ ∀ a, r ≠ Ok a).
Proof.
  intros Hfl. unfold push_call.
  destruct (code_func code) as [func|e|w] eqn:Hfunc; [|right; by eexists..].
  lift_step; rewrite get_run.
  destruct (Z.eqb_spec (zlen (ex_values ex)) (zlen (ex_shadow ex))) as [Hl|]; cbn [negb]; [|right; by eexists].
  unfold try_u32. destruct (Z.ltb_spec (zlen (ex_values ex)) (2 ^ 32)); [|right; by eexists].
  lift_step. fold (frame_floor (ex_frames ex)). unfold checked_sub.
  destruct (Z.leb_spec (frame_floor (ex_frames ex)) (zlen (ex_values ex))); [|right; by eexists].
  destruct (Z.ltb_spec (zlen (ex_values ex) - frame_floor (ex_frames ex)) (cf_n_params func));
    [right; by eexists|].
  destruct (Z.leb_spec (cf_n_params func) (zlen (ex_values ex))); [|lia].
  lift_step.
  destruct (code_local_types_of code func) as [tys|e|w] eqn:Htys; [|right; by eexists..].
  lift_step.
  destruct (Z.ltb_spec (zlen tys) (2 ^ 32)); [|right; by eexists].
  lift_step. unfold checked_add.
  destruct (Z.ltb_spec (zlen (ex_values ex) + zlen tys) (2 ^ 32)); [|right; by eexists].
  lift_step; rewrite modify_run, push_defaults.
  left. exists func, tys. split_and!; [done|done|split; (done || lia)|done].
Qed.

Lemma do_return_run n stop tail ex f :
  lockstep ex → last (ex_frames ex) = Some f → fr_delimiter f = None → stop < zlen (ex_frames ex) →
  0 ≤ fr_locals_base f ≤ fr_operand_base f → 0 ≤ n → fr_locals_base f + n < 2 ^ 64 →
  fr_operand_base f + n ≤ zlen (ex_values ex) →
  (tail = false → fr_operand_base f + n = zlen (ex_values ex)) →
  do_return n stop tail ex =
    (Ok (zlen (ex_frames ex) - 1 =? stop),
     slid (zlen (ex_values ex) - n) n (fr_locals_base f) (frames_truncate (zlen (ex_frames ex) - 1) ex)).
Proof.
  intros Hl Hf Hd Hs Hb Hn Hov Hlen Hexact. unfold do_return. rewrite get_run.
  rewrite (proj2 (Z.leb_gt _ _)) by lia.
  pose proof Hl as Hl'. unfold lockstep in Hl'. rewrite Hl', Z.eqb_refl, <- Hl'. cbn [negb orb].
  rewrite Hf; lift_step; rewrite Hd. cbn [bool_decide decide].
  rewrite bool_decide_eq_false_2 by naive_solver.
  unfold checked_sub. rewrite (proj2 (Z.leb_le _ _)) by lia. lift_step.
  unfold checked_add. rewrite (proj2 (Z.ltb_lt (fr_locals_base f + n) _)) by lia. lift_step.
  rewrite !(proj2 (Z.ltb_ge _ _)) by lia. cbn [orb].
  assert (negb tail && negb (zlen (ex_values ex) - fr_operand_base f =? n) = false) as ->.
  { destruct tail; [done|]. rewrite (proj2 (Z.eqb_eq _ _)); [done|]. specialize (Hexact eq_refl). lia. }
  rewrite modify_run. unfold mbind at 1, M_bind at 1.
  rewrite slide_down_run; [|done|lia|lia|cbn; lia].
  rewrite get_run. cbn -[zlen slid]. unfold slid at 1. cbn [ex_frames set_ex_shadow set_ex_values frames_truncate set_ex_frames].
  rewrite zlen_take; [done|]. split; [|lia]. destruct (ex_frames ex); [done|]. rewrite zlen_cons.
  pose proof (zlen_nonneg l). lia.
Qed.
End specs.

(** ** Calls and returns balance *)
Section balance.
Context `{Features}.

Lemma last_push f ex : last (ex_frames (frames_push f ex)) = Some f.
Proof. cbn. apply last_snoc. Qed.
Lemma zlen_push f ex : zlen (ex_frames (frames_push f ex)) = zlen (ex_frames ex) + 1.
Proof. cbn. rewrite zlen_app, zlen_cons, zlen_nil. lia. Qed.
Lemma frame_floor_nonneg ex : exec_wf ex → 0 ≤ frame_floor (ex_frames ex).
Proof.
  intros Hwf. unfold frame_floor. destruct (last (ex_frames ex)) as [f|] eqn:Hf; [|done].
  by eapply floor_nonneg.
Qed.

(** A call followed by the return of [n] results replaces the arguments by
    the results: whatever the callee did to its locals and above, the caller's
    operands below the arguments, its frames and its re-entry depth come back, and
    the return reports whether it reached the boundary. *)
Theorem call_return_balanced instance func_index code func ex ex1 ex2 f rest locals rtags ltags results stop :
  exec_wf ex →
  code_func code = Ok func → 0 ≤ cf_n_params func →
  push_call instance func_index code ex = (Ok tt, ex1) →
  last (ex_frames ex1) = Some f →
  ex_frames ex2 = ex_frames ex ++ [rest] →
  fr_locals_base rest = fr_locals_base f → fr_operand_base rest = fr_operand_base f →
  fr_delimiter rest = None →
  ex_values ex2 = ztake (zlen (ex_values ex) - cf_n_params func) (ex_values ex) ++ locals ++ results →
  ex_shadow ex2 = ztake (zlen (ex_values ex) - cf_n_params func) (ex_shadow ex) ++ ltags ++ rtags →
  zlen locals = fr_operand_base f - fr_locals_base f →
  zlen ltags = zlen locals → zlen rtags = zlen results →
  zlen results < 2 ^ 32 → stop ≤ zlen (ex_frames ex) →
  ex_host_reentry_depth ex2 = ex_host_reentry_depth ex →
  do_return (zlen results) stop false ex2 =
    (Ok (zlen (ex_frames ex) =? stop),
     set_ex_shadow (ztake (zlen (ex_values ex) - cf_n_params func) (ex_shadow ex) ++ rtags)
       (set_ex_values (ztake (zlen (ex_values ex) - cf_n_params func) (ex_values ex) ++ results) ex)).
Proof.
  intros Hwf Hfunc Hnp Hcall Hf Hfr Hlb Hob Hdel Hv Hs Hll Hlt Hrt Hrl Hstop Hdepth.
  pose proof (frame_floor_nonneg ex Hwf).
  destruct (push_call_cases instance func_index code ex) as [(func' & tys & Hfunc' & _ & Hcr & Hrun)|(r & Hrun & Hr)];
    [done| |rewrite Hrun in Hcall; injection Hcall as ->; by destruct (Hr tt)].
  rewrite Hfunc in Hfunc'. injection Hfunc' as <-. rewrite Hrun in Hcall. injection Hcall as <-.
  unfold entered in Hf. rewrite last_push in Hf. injection Hf as <-. cbn in Hlb, Hob, Hll.
  destruct Hcr as [Hl Hlen Hpar Hloc]. unfold lockstep in Hl.
  pose proof (zlen_nonneg results). pose proof (zlen_nonneg tys).
  set (p := zlen (ex_values ex) - cf_n_params func) in *.
  assert (zlen (ztake p (ex_values ex)) = p) as Hpl by (apply zlen_take; lia).
  assert (zlen (ztake p (ex_shadow ex)) = p) as Hps by (apply zlen_take; lia).
  assert (Hlv : zlen (ex_values ex2) = p + zlen locals + zlen results) by (rewrite Hv, !zlen_app; lia).
  assert (Hnf : zlen (ex_frames ex2) = zlen (ex_frames ex) + 1) by (rewrite Hfr; zlen_solve).
  rewrite (do_return_run _ _ _ _ rest).
  - rewrite Hnf. replace (zlen (ex_frames ex) + 1 - 1) with (zlen (ex_frames ex)) by lia. f_equal.
    rewrite Hlb, Hlv. unfold slid, frames_truncate.
    cbn [ex_shadow ex_values set_ex_shadow set_ex_values set_ex_frames].
    rewrite Hv, Hs, Hfr, ztake_app by lia.
    rewrite !app_assoc, !zdrop_app by (rewrite zlen_app; lia).
    rewrite <- !app_assoc, !ztake_app by lia.
    unfold set_ex_shadow, set_ex_values, set_ex_frames. cbn. by rewrite Hdepth.
  - unfold lockstep. rewrite Hlv, Hs, !zlen_app. lia.
  - by rewrite Hfr, last_snoc.
  - done.
  - lia.
  - lia.
  - lia.
  - lia.
  - lia.
  - intros _. lia.
Qed.

(** ** Boundaries restore the parked call *)
Lemma encode_args_len args cs : encode_args args = Ok cs → zlen cs = zlen args ∧ Forall cell_ok cs.
Proof.
  revert cs. induction args as [|v args IH]; intros cs; cbn [encode_args].
  - intros [= <-]. split; [done|constructor].
  - intros (c & Hc & (cs' & Hcs & [= <-])%result_bind_Ok)%result_bind_Ok.
    destruct (IH _ Hcs) as [? ?]. rewrite !zlen_cons. split; [lia|]. constructor; [|done].
    unfold encode in Hc. apply result_bind_Ok in Hc as (s & Hs & Hw).
    pose proof zlen_cell_zero as Hz. pose proof slot_bytes_width. unfold cell_ok.
    destruct (slot_accepts s v) eqn:Ha; [|by destruct v, s as [[] []|[] []]; try discriminate; cbn in Hs; repeat case_match].
    assert (slot_offset s = 0 ∧ slot_width s ≤ SLOT_BYTES) as [Ho Hsw].
    { unfold SLOT_BYTES, REF_WIDTH in *.
      destruct v; cbn in Hs; repeat case_match; simplify_eq; cbn; unfold REF_WIDTH; split; (done || lia). }
    pose proof (slot_width_pos s).
    destruct (write_slot_splice s cell_zero v Ha) as [Hws Hl]; [lia|lia|].
    rewrite Hw in Hws. destruct (zsplice _ _ _) as [c'|] eqn:Hsp; [|done]. injection Hws as ->.
    by rewrite (zlen_splice _ _ _ _ Hsp).
Qed.
End balance.

Section boundary.
Context `{Features}.

Definition delimiter_frame (kind : Delimiter) (instance : Handle) (code : Code) (func : CompiledFunc)
    (ex : Execution) : Frame :=
  {| fr_code := code; fr_func := func; fr_ip := 0; fr_locals_base := zlen (ex_values ex);
     fr_operand_base := zlen (ex_values ex); fr_instance := instance; fr_func_index := 0;
     fr_delimiter := Some kind |}.

Lemma push_delimiter_cases kind instance code ex :
  (∃ func, lockstep ex ∧ zlen (ex_values ex) < 2 ^ 32 ∧ code_func code = Ok func ∧
     push_delimiter kind instance code ex =
       (Ok tt, frames_push (delimiter_frame kind instance code func ex) ex)) ∨
  (∃ r, push_delimiter kind instance code ex = (r, ex) ∧ ∀ a, r ≠ Ok a).
Proof.
  unfold push_delimiter. rewrite get_run. unfold lockstep.
  destruct (Z.eqb_spec (zlen (ex_values ex)) (zlen (ex_shadow ex))) as [Hl|]; cbn [negb]; [|right; by eexists].
  unfold try_u32. destruct (Z.ltb_spec (zlen (ex_values ex)) (2 ^ 32)); [|right; by eexists].
  lift_step. destruct (code_func code) as [func|e|w]; [|right; by eexists..]. lift_step.
  left. by exists func.
Qed.

Definition depth_after (d : Delimiter) (n : Z) : Z := if decide (d = HostReentry) then n + 1 else n.

(** Where [enter_call] leaves the stacks. *)
Definition boundary (d : Delimiter) (instance : Handle) (code : Code) (func : CompiledFunc)
    (args : list Val) (cells : list Cell) (ex : Execution) : Execution :=
  pushed cells (of_val <$> args)
    (frames_push (delimiter_frame d instance code func ex)
       (set_ex_depth (depth_after d (ex_host_reentry_depth ex)) ex)).

Lemma set_depth_id ex : set_ex_depth (ex_host_reentry_depth ex) ex = ex.
Proof. by destruct ex. Qed.

Lemma truncate_boundary d instance code func args cells ex k :
  lockstep ex →
  set_ex_depth (ex_host_reentry_depth ex)
    (frames_truncate (zlen (ex_frames ex))
       (stack_truncate (zlen (ex_values ex)) (set_ex_depth k (boundary d instance code func args cells ex)))) = ex.
Proof.
  unfold lockstep. intros Hl. unfold boundary, frames_truncate, stack_truncate, pushed, frames_push.
  cbn -[ztake]. rewrite !ztake_app by done. by destruct ex.
Qed.

Lemma write_slot_no_err slot data v : no_err (write_slot slot data v).
Proof.
  destruct slot as [o k|o k]; cbn [write_slot].
  - apply no_err_bind; [apply no_err_expect|intros b].
    apply no_err_bind; [|done]. unfold write_scalar.
    apply no_err_bind; [|intros; apply no_err_expect]. by destruct k, v.
  - apply no_err_bind; [|intros; apply no_err_expect]. by destruct v as [| | | | |[]|[]|[]|[]].
Qed.
Lemma encode_no_err v e : encode v ≠ Err e.
Proof.
  apply no_err_bind; [|intros; apply write_slot_no_err].
  destruct v; try done. cbn. by destruct feat_simd.
Qed.

Lemma enter_call_cases d instance func_index code args ex :
  (∃ func tys cells, lockstep ex ∧ code_func code = Ok func ∧ code_local_types_of code func = Ok tys ∧
     encode_args args = Ok cells ∧
     call_ready (boundary d instance code func args cells ex) func tys ∧
     enter_call d instance func_index code args ex =
       (Ok tt, entered instance func_index code func tys (boundary d instance code func args cells ex))) ∨
  (∃ e, enter_call d instance func_index code args ex = (Err e, ex)) ∨
  (∃ w ex', enter_call d instance func_index code args ex = (Panic w, ex')).
Proof.
  unfold enter_call. rewrite get_run.
  assert (∃ r, (if decide (d = HostReentry)
                then ok_or (checked_add 64 (ex_host_reentry_depth ex) 1) (frame_err "host re-entry depth overflow")
                else Ok (ex_host_reentry_depth ex)) = r ∧
    (r = Ok (depth_after d (ex_host_reentry_depth ex)) ∨ ∃ e, r = Err e)) as (r & Hr & Hcase).
  { eexists. split; [reflexivity|]. unfold depth_after. destruct (decide _); [|by left].
    unfold checked_add. case_match; cbn; [by left|right; by eexists]. }
  rewrite Hr. destruct Hcase as [-> | [e ->]]; [|right; left; by eexists].
  lift_step. rewrite modify_run, bind_unfold, on_err_run.
  set (ex0 := set_ex_depth _ ex).
  destruct (push_delimiter_cases d instance code ex0) as [(func & Hl & Hlen & Hf & ->)|(r' & -> & Hr')].
  2: { destruct r' as [[]|e|w]; [by destruct (Hr' tt)| |right; right; by do 2 eexists].
       right; left. exists e. unfold ex0. by destruct ex. }
  rewrite modify_run.
  destruct (encode_args args) as [cells|e|w] eqn:Hargs; [| |right; right; by do 2 eexists].
  2: { exfalso. clear -Hargs. revert e Hargs. induction args as [|v args IH]; intros e; cbn; [done|].
       destruct (encode v) as [c|e'|w] eqn:Hc; cbn.
       - destruct (encode_args args) eqn:Ha; cbn; [done| |done]. by destruct (IH _ eq_refl).
       - by destruct (encode_no_err v e').
       - done. }
  lift_step. rewrite modify_run.
  match goal with |- context [on_err _ _ ?st] => change st with (boundary d instance code func args cells ex) end.
  assert (0 ≤ frame_floor (ex_frames (boundary d instance code func args cells ex))) as Hfl.
  { unfold frame_floor, boundary. cbn -[last zlen]. rewrite last_snoc. cbn. apply zlen_nonneg. }
  destruct (push_call_cases instance func_index code _ Hfl) as [(func' & tys & Hf' & Ht & Hcr & Hrun)|(r' & Hrun & Hr')];
    unfold on_err; rewrite Hrun.
  - rewrite Hf in Hf'. injection Hf' as <-. left. by exists func, tys, cells.
  - destruct r' as [[]|e|w]; [by destruct (Hr' tt)| |right; right; by do 2 eexists].
    right; left. exists e. f_equal. by apply (truncate_boundary _ _ _ _ _ _ ex (ex_host_reentry_depth (boundary d instance code func args cells ex))).
Qed.

(** Entering a call that fails leaves the execution exactly as it was: no
    frame, operand or re-entry charge of the attempt survives. *)
Theorem enter_call_atomic d instance func_index code args ex e ex' :
  enter_call d instance func_index code args ex = (Err e, ex') → ex' = ex.
Proof.
  intros Hrun.
  destruct (enter_call_cases d instance func_index code args ex)
    as [(func & tys & cells & _ & _ & _ & _ & _ & Hr)|[(e' & Hr)|(w & ex1 & Hr)]]; rewrite Hr in Hrun; congruence.
Qed.

(** [ex2] is the entered call some steps later: the parked outer call's operands
    and frames and the boundary are still below, the call's own nested re-entries
    are over. *)
Record within (ex ex1 ex2 : Execution) (vs : list Cell) (ss : list RefTag) : Prop := {
  wi_values : ex_values ex2 = ex_values ex ++ vs;
  wi_shadow : ex_shadow ex2 = ex_shadow ex ++ ss;
  wi_lens : zlen vs = zlen ss;
  wi_frames : ∃ fs, ex_frames ex2 = ztake (zlen (ex_frames ex) + 1) (ex_frames ex1) ++ fs;
  wi_depth : ex_host_reentry_depth ex2 = ex_host_reentry_depth ex1;
}.

Lemma entered_boundary instance func_index code func tys d args cells ex :
  ztake (zlen (ex_frames ex) + 1)
    (ex_frames (entered instance func_index code func tys (boundary d instance code func args cells ex)))
  = ex_frames ex ++ [delimiter_frame d instance code func ex].
Proof. cbn -[ztake zlen]. apply ztake_app. zlen_solve. Qed.

Lemma release_run ex ex2 d instance code func fs :
  0 ≤ ex_host_reentry_depth ex →
  ex_frames ex2 = (ex_frames ex ++ [delimiter_frame d instance code func ex]) ++ fs →
  ex_host_reentry_depth ex2 = depth_after d (ex_host_reentry_depth ex) →
  release_reentry (zlen (ex_frames ex)) ex2 = (Ok tt, set_ex_depth (ex_host_reentry_depth ex) ex2).
Proof.
  intros Hd Hf Hdep. unfold release_reentry. rewrite get_run, Hf.
  rewrite zget_app_l by zlen_solve. rewrite zget_app_r by lia. rewrite Z.sub_diag. cbn -[checked_sub].
  destruct d; cbn -[checked_sub].
  - change (depth_after _ _) with (ex_host_reentry_depth ex) in Hdep. rewrite <- Hdep. by destruct ex2.
  - change (depth_after _ _) with (ex_host_reentry_depth ex + 1) in Hdep.
    unfold checked_sub. rewrite Hdep, (proj2 (Z.leb_le 1 _)) by lia.
    by replace (ex_host_reentry_depth ex + 1 - 1) with (ex_host_reentry_depth ex) by lia.
Qed.

Lemma restore_eq ex ex2 vs ss d instance code func fs :
  lockstep ex → ex_values ex2 = ex_values ex ++ vs → ex_shadow ex2 = ex_shadow ex ++ ss →
  ex_frames ex2 = (ex_frames ex ++ [delimiter_frame d instance code func ex]) ++ fs →
  frames_truncate (zlen (ex_frames ex))
    (stack_truncate (zlen (ex_values ex)) (set_ex_depth (ex_host_reentry_depth ex) ex2)) = ex.
Proof.
  unfold lockstep. intros Hl Hv Hs Hf. unfold frames_truncate, stack_truncate.
  cbn -[ztake]. rewrite Hv, Hs, Hf, <- app_assoc, !ztake_app by done. by destruct ex.
Qed.

(** However an entered call ends, the parked outer execution comes back
    exactly: discarding to the boundary (trap, exception, panic) restores it, and so
    does taking the results, which are the cells above the boundary when their
    tags match the signature. *)
Theorem boundary_restores d instance func_index code args ex ex1 ex2 vs ss tys :
  0 ≤ ex_host_reentry_depth ex →
  enter_call d instance func_index code args ex = (Ok tt, ex1) →
  within ex ex1 ex2 vs ss →
  discard_to (zlen (ex_values ex)) (zlen (ex_frames ex)) ex2 = (Ok tt, ex) ∧
  (ss = expected_tag <$> tys →
   take_results (zlen (ex_values ex)) (zlen (ex_frames ex)) tys ex2 = (Ok vs, ex)).
Proof.
  intros Hd Henter [Hv Hs Hlen (fs & Hf) Hdep].
  destruct (enter_call_cases d instance func_index code args ex)
    as [(func & ltys & cells & Hl & _ & _ & _ & _ & Hr)|[(e' & Hr)|(w & ex3 & Hr)]];
    rewrite Hr in Henter; [|congruence..]. injection Henter as <-.
  rewrite entered_boundary in Hf.
  assert (ex_host_reentry_depth ex2 = depth_after d (ex_host_reentry_depth ex)) as Hdep' by done.
  pose proof (release_run ex ex2 d instance code func fs Hd Hf Hdep') as Hrel.
  assert (Hrest := restore_eq ex ex2 vs ss d instance code func fs Hl Hv Hs Hf).
  unfold lockstep in Hl.
  assert (Hl2 : zlen (ex_values ex2) = zlen (ex_shadow ex2)) by (rewrite Hv, Hs, !zlen_app; lia).
  assert (zlen (ex_values ex) ≤ zlen (ex_shadow ex2)) by (rewrite Hs; zlen_solve).
  assert (zlen (ex_frames ex) ≤ zlen (ex_frames ex2)) by (rewrite Hf; zlen_solve).
  split.
  - unfold discard_to. rewrite get_run, Hl2, Z.eqb_refl.
    rewrite !(proj2 (Z.ltb_ge _ _)) by lia. cbn [negb orb].
    unfold mbind at 1, M_bind at 1. rewrite Hrel, modify_run. unfold modify. by rewrite Hrest.
  - intros ->. unfold take_results. rewrite get_run, Hl2, Z.eqb_refl.
    rewrite !(proj2 (Z.ltb_ge _ _)) by lia. cbn [negb orb].
    rewrite (reads_Ok _ _ _ tt).
    + unfold mbind at 1, M_bind at 1. rewrite Hrel, !modify_run, Hrest, Hv.
      by rewrite zdrop_app.
    + unfold validate_result_tags. rewrite Hl2, Z.eqb_refl.
      rewrite !(proj2 (Z.ltb_ge _ _)) by lia. cbn [negb orb].
      rewrite Hs, zdrop_app by lia. by rewrite zlen_fmap, Z.eqb_refl, tags_match_refl.
Qed.
End boundary.

(** ** Invariants along a run *)
Section reach.
Context `{Features, FrameSize}.

(** Frames sit above one another: locals, then operands, then the next frame. *)
Fixpoint nested (base : Z) (frames : list Frame) : Prop :=
  match frames with
  | [] => True
  | f :: rest => base ≤ fr_locals_base f ≤ fr_operand_base f ∧ nested (fr_operand_base f) rest
  end.
Definition top_floor (base : Z) (frames : list Frame) : Z :=
  match last frames with Some f => fr_operand_base f | None => base end.

Lemma nested_snoc b fs f :
  nested b (fs ++ [f]) ↔ nested b fs ∧ top_floor b fs ≤ fr_locals_base f ≤ fr_operand_base f.
Proof.
  revert b. induction fs as [|g fs IH]; intros b; cbn -[top_floor].
  - unfold top_floor. cbn. naive_solver.
  - rewrite IH. assert (top_floor b (g :: fs) = top_floor (fr_operand_base g) fs) as ->.
    { unfold top_floor. rewrite last_cons. by destruct (last fs). }
    naive_solver.
Qed.
Lemma nested_app b fs gs : nested b (fs ++ gs) → nested b fs.
Proof.
  induction gs as [|g gs IH] using rev_ind; [by rewrite app_nil_r|].
  rewrite app_assoc, nested_snoc. naive_solver.
Qed.
Lemma top_floor_snoc b fs f : top_floor b (fs ++ [f]) = fr_operand_base f.
Proof. unfold top_floor. by rewrite last_snoc. Qed.

Definition crossing (f : Frame) : Z := if decide (fr_delimiter f = Some HostReentry) then 1 else 0.
Definition crossings (frames : list Frame) : Z := zsum crossing frames.

Lemma crossings_snoc fs f : crossings (fs ++ [f]) = crossings fs + crossing f.
Proof. unfold crossings. rewrite zsum_app. cbn. lia. Qed.

Record exec_inv (ex : Execution) : Prop := {
  ei_wf : exec_wf ex;
  ei_lockstep : lockstep ex;
  ei_nested : nested 0 (ex_frames ex);
  ei_floor : top_floor 0 (ex_frames ex) ≤ zlen (ex_values ex);
  ei_depth : ex_host_reentry_depth ex = crossings (ex_frames ex);
}.

(** One operation of the interpreter on the shared stacks. *)
Inductive exec_step (ex : Execution) : Execution → Prop :=
  | StepEnter d instance func_index code func args ex' :
      code_func code = Ok func → 0 ≤ cf_n_params func →
      enter_call d instance func_index code args ex = (Ok tt, ex') → exec_step ex ex'
  | StepCall instance func_index code func ex' :
      code_func code = Ok func → 0 ≤ cf_n_params func →
      push_call instance func_index code ex = (Ok tt, ex') → exec_step ex ex'
  | StepBranch t ex' :
      u_ok 16 (bt_keep t) → u_ok 16 (bt_pop t) →
      take_branch t ex = (Ok tt, ex') → exec_step ex ex'
  | StepReturn n stop tail b ex' :
      0 ≤ n → do_return n stop tail ex = (Ok b, ex') → exec_step ex ex'
  | StepPush cell tag : cell_ok cell → exec_step ex (push_cell cell tag ex)
  | StepPop A k m (a : A) ex' : 0 ≤ k → pop_op A k m → m ex = (Ok a, ex') → exec_step ex ex'
  | StepSetLocal i cell tag ex' :
      0 ≤ i → cell_ok cell → set_cell i cell tag ex = (Ok tt, ex') → exec_step ex ex'
  | StepFinish b tys cells ex' :
      find_boundary (length (ex_frames ex)) (ex_frames ex) = Some b →
      take_results (snd b) (fst b) tys ex = (Ok cells, ex') → exec_step ex ex'
  | StepDiscard p ex' : discard_current_call ex = (Ok p, ex') → exec_step ex ex'.

Lemma do_return_inv n stop tail b ex ex' :
  exec_inv ex → 0 ≤ n → do_return n stop tail ex = (Ok b, ex') →
  ∃ fs f, ex_frames ex = fs ++ [f] ∧ fr_delimiter f = None ∧
    fr_locals_base f + n ≤ zlen (ex_values ex) ∧
    ex' = slid (zlen (ex_values ex) - n) n (fr_locals_base f) (set_ex_frames fs ex).
Proof.
  intros [Hwf Hl Hn Hfl Hd] Hn0 Hrun. unfold do_return in Hrun. rewrite get_run in Hrun.
  destruct ((zlen (ex_frames ex) <=? stop) || _); [done|].
  destruct (ex_frames ex) as [|f fs _] eqn:Hf using rev_ind; [done|].
  rewrite last_snoc in Hrun. lift_step_in Hrun.
  destruct (fr_delimiter f) eqn:Hdel; [by rewrite bool_decide_eq_true_2 in Hrun by done|].
  rewrite bool_decide_eq_false_2 in Hrun by naive_solver.
  unfold checked_sub in Hrun.
  destruct (Z.leb_spec (fr_operand_base f) (zlen (ex_values ex))); [|done]. lift_step_in Hrun.
  unfold checked_add in Hrun.
  destruct (Z.ltb_spec (fr_locals_base f + n) (2 ^ 64)); [|done]. lift_step_in Hrun.
  destruct (Z.ltb_spec (fr_operand_base f) (fr_locals_base f)); [done|].
  destruct (Z.ltb_spec (zlen (ex_values ex)) (fr_locals_base f + n)); [done|].
  destruct (Z.ltb_spec (zlen (ex_values ex) - fr_operand_base f) n); [done|]. cbn [orb] in Hrun.
  destruct (negb tail && _); [done|].
  apply nested_snoc in Hn as [_ Hb].
  assert (0 ≤ fr_locals_base f).
  { destruct Hwf as [_ Hff]. rewrite Hf in Hff. apply Forall_app in Hff as [_ Hff].
    apply Forall_singleton in Hff as (_ & Hlb & _). apply Hlb. }
  rewrite modify_run, bind_unfold, slide_down_run in Hrun; [|done|lia|lia|cbn; lia].
  exists fs, f. split_and!; [done|done|lia|].
  injection Hrun as _ <-. unfold frames_truncate. rewrite Hf, ztake_app by zlen_solve. done.
Qed.

Lemma cells_take_drop a b ex :
  exec_wf ex → Forall cell_ok (ztake a (ex_values ex) ++ zdrop b (ex_values ex)).
Proof. intros [Hc _]. apply Forall_app. split; [by apply Forall_take|by apply Forall_drop]. Qed.

Lemma take_branch_inv t ex ex' :
  exec_inv ex → 0 ≤ bt_keep t → 0 ≤ bt_pop t → take_branch t ex = (Ok tt, ex') →
  operands_ready (bt_keep t + bt_pop t) ex ∧
  ex' = slid (zlen (ex_values ex) - bt_keep t) (bt_keep t) (zlen (ex_values ex) - bt_keep t - bt_pop t) ex.
Proof.
  intros [Hwf Hl Hn Hfl Hd] Hk Hp Hrun. unfold take_branch in Hrun. rewrite get_run in Hrun.
  destruct (negb _); [done|]. unfold checked_add in Hrun.
  destruct (bt_keep t + bt_pop t <? 2 ^ 64); [|done]. lift_step_in Hrun.
  destruct (last (ex_frames ex)) as [f|] eqn:Hf; [|done]. lift_step_in Hrun.
  pose proof (floor_nonneg _ _ Hwf Hf). unfold checked_sub in Hrun.
  destruct (Z.leb_spec (fr_operand_base f) (zlen (ex_values ex))); [|done].
  destruct (Z.ltb_spec (zlen (ex_values ex) - fr_operand_base f) (bt_keep t + bt_pop t)); [done|].
  rewrite slide_down_run in Hrun by (done || lia). injection Hrun as <-.
  split; [|done]. split; [done|]. exists f. split; [done|lia].
Qed.

Lemma top_floor_operands k ex :
  operands_ready k ex → top_floor 0 (ex_frames ex) + k ≤ zlen (ex_values ex).
Proof. intros [_ (f & Hf & Hk)]. unfold top_floor. by rewrite Hf. Qed.

Lemma top_floor_nonneg ex : exec_wf ex → 0 ≤ top_floor 0 (ex_frames ex).
Proof. apply frame_floor_nonneg. Qed.

Lemma crossings_none fs : Forall (λ f, fr_delimiter f = None) fs → crossings fs = 0.
Proof.
  induction 1 as [|f fs Hf _ IH]; [done|]. unfold crossings in *. cbn. rewrite IH.
  unfold crossing. by rewrite Hf.
Qed.
Lemma crossings_nonneg fs : 0 ≤ crossings fs.
Proof. apply zsum_nonneg. intros f _. unfold crossing. by destruct (decide _). Qed.

Lemma find_boundary_spec n fs b :
  find_boundary n fs = Some b →
  ∃ f, fs !! Z.to_nat (fst b) = Some f ∧ 0 ≤ fst b < Z.of_nat n ∧ snd b = fr_locals_base f ∧
    fr_delimiter f ≠ None ∧
    ∀ j g, (Z.to_nat (fst b) < j < n)%nat → fs !! j = Some g → fr_delimiter g = None.
Proof.
  induction n as [|n IH]; cbn [find_boundary]; [done|].
  destruct (fs !! n) as [f|] eqn:Hf; [|done].
  case_bool_decide as Hd.
  - intros [= <-]. exists f. cbn. rewrite Nat2Z.id. split_and!; [done|lia|lia|done|done|].
    intros j g Hj. lia.
  - intros (g & Hg & Hlt & Hs & Hdel & Hab)%IH. exists g. split_and!; [done|lia|lia|done|done|].
    intros j g' Hj Hg'. destruct (decide (j = n)) as [->|].
    + rewrite Hf in Hg'. injection Hg' as <-. destruct (fr_delimiter f); naive_solver.
    + eapply Hab; [|done]. lia.
Qed.

(** The frames around the innermost boundary. *)
Lemma boundary_split fs b :
  find_boundary (length fs) fs = Some b →
  ∃ pre f post, fs = pre ++ [f] ++ post ∧ fst b = zlen pre ∧ snd b = fr_locals_base f ∧
    fr_delimiter f ≠ None ∧ crossings post = 0.
Proof.
  intros (f & Hf & Hlt & Hs & Hd & Hab)%find_boundary_spec.
  exists (take (Z.to_nat (fst b)) fs), f, (drop (S (Z.to_nat (fst b))) fs).
  split_and!; [by rewrite <- (take_drop_middle _ _ _ Hf) at 1| |done|done|].
  - unfold zlen. rewrite length_take. lia.
  - apply crossings_none, Forall_lookup. intros j g Hg. rewrite lookup_drop in Hg.
    eapply Hab; [|done]. apply lookup_lt_Some in Hg. lia.
Qed.

Lemma release_inv pre f post ex a ex' :
  ex_frames ex = pre ++ [f] ++ post → fr_delimiter f ≠ None →
  release_reentry (zlen pre) ex = (Ok a, ex') →
  ex' = set_ex_depth (ex_host_reentry_depth ex - crossing f) ex.
Proof.
  intros Hf Hd. unfold release_reentry. rewrite get_run, Hf.
  rewrite zget_app_r by lia. rewrite Z.sub_diag. cbn [app]. rewrite zget_cons_0. cbn [mbind option_bind].
  unfold crossing. destruct (fr_delimiter f) as [[]|]; [| |done].
  - intros [= _ <-]. cbn. destruct ex; cbn. by rewrite Z.sub_0_r.
  - unfold checked_sub. destruct (1 <=? ex_host_reentry_depth ex); [|done].
    intros Hr. lift_step_in Hr. by injection Hr as _ <-.
Qed.

(** Dropping everything from the innermost boundary up. *)
Lemma truncate_inv pre f post ex :
  exec_inv ex → ex_frames ex = pre ++ [f] ++ post → crossings post = 0 →
  fr_locals_base f ≤ zlen (ex_values ex) →
  exec_inv (frames_truncate (zlen pre) (stack_truncate (fr_locals_base f)
    (set_ex_depth (ex_host_reentry_depth ex - crossing f) ex))).
Proof.
  intros [[Hc Hff] Hl Hn Hfl Hd] Hf Hcr Hle. unfold lockstep in Hl.
  pose proof Hn as Hn'. rewrite Hf, app_assoc in Hn'. apply nested_app in Hn' as Hn1.
  apply nested_snoc in Hn1 as [Hn2 Hb].
  pose proof Hff as Hff'. rewrite Hf, app_assoc in Hff'.
  apply Forall_app in Hff' as [[Hpre Hfok]%Forall_app _].
  apply Forall_singleton in Hfok as (_ & [Hlb _] & _).
  assert (ztake (zlen pre) (ex_frames ex) = pre) as Hpf by (rewrite Hf; by apply ztake_app).
  unfold frames_truncate, stack_truncate.
  split; [split|..]; unfold lockstep;
    cbn [ex_values ex_shadow ex_frames ex_host_reentry_depth set_ex_values set_ex_shadow set_ex_frames set_ex_depth];
    rewrite ?Hpf.
  - by apply Forall_take.
  - done.
  - rewrite !zlen_take; lia.
  - done.
  - rewrite zlen_take by lia. lia.
  - rewrite Hd, Hf. unfold crossings in *. rewrite !zsum_app. cbn [zsum]. lia.
Qed.

Lemma entered_inv instance func_index code func tys ex :
  exec_inv ex → call_ready ex func tys → 0 ≤ cf_n_params func →
  exec_inv (entered instance func_index code func tys ex).
Proof.
  intros [[Hc Hff] Hl Hn Hfl Hd] [_ Hlen Hpar Hloc] Hnp. unfold lockstep in Hl.
  pose proof (zlen_nonneg tys). pose proof (zlen_nonneg (ex_values ex)).
  pose proof (top_floor_nonneg ex ltac:(by split)) as Hf0.
  change (frame_floor (ex_frames ex)) with (top_floor 0 (ex_frames ex)) in Hpar.
  split; [split|..]; unfold lockstep; cbn -[zlen top_floor fmap crossings].
  - apply Forall_app. split; [done|]. apply Forall_fmap, Forall_true. intros. apply default_cell_ok.
  - apply Forall_app. split; [done|]. apply Forall_singleton. unfold frame_ok, u_ok. cbn. lia.
  - rewrite !zlen_app, !zlen_fmap. lia.
  - apply nested_snoc. split; [done|]. cbn. lia.
  - rewrite top_floor_snoc, zlen_app, zlen_fmap. cbn. lia.
  - rewrite crossings_snoc, Hd. unfold crossing. cbn [fr_delimiter].
    rewrite decide_False by done. lia.
Qed.

Lemma boundary_inv d instance code func args cells ex :
  exec_inv ex → zlen (ex_values ex) < 2 ^ 32 → encode_args args = Ok cells →
  exec_inv (boundary d instance code func args cells ex).
Proof.
  intros [[Hc Hff] Hl Hn Hfl Hd] Hlen Hcells. unfold lockstep in Hl.
  apply encode_args_len in Hcells as [Hcl Hcok].
  pose proof (zlen_nonneg (ex_values ex)). pose proof (zlen_nonneg args).
  split; [split|..]; unfold lockstep; cbn -[zlen top_floor fmap crossings].
  - by apply Forall_app.
  - apply Forall_app. split; [done|]. apply Forall_singleton. unfold frame_ok, u_ok. cbn. lia.
  - rewrite !zlen_app, zlen_fmap. lia.
  - apply nested_snoc. split; [done|]. cbn. lia.
  - rewrite top_floor_snoc, zlen_app. cbn. lia.
  - rewrite crossings_snoc, Hd. unfold crossing, depth_after, delimiter_frame. cbn [fr_delimiter].
    destruct d; [by rewrite !decide_False, Z.add_0_r by done|by rewrite !decide_True by done].
Qed.

Lemma take_results_inv b tys ex cells ex' :
  exec_inv ex → find_boundary (length (ex_frames ex)) (ex_frames ex) = Some b →
  take_results (snd b) (fst b) tys ex = (Ok cells, ex') → exec_inv ex'.
Proof.
  intros Hinv (pre & f & post & Hf & Hi & Hb & Hdel & Hcr)%boundary_split Hrun.
  unfold take_results in Hrun. rewrite get_run in Hrun.
  destruct (zlen (ex_values ex) <? snd b) eqn:Hvb; [by rewrite orb_true_r in Hrun|].
  apply Z.ltb_ge in Hvb. destruct (_ || _) in Hrun; [done|].
  rewrite bind_unfold in Hrun. unfold reads at 1 in Hrun.
  destruct (validate_result_tags _ _ _) as [[]|e|w]; [|done..].
  rewrite bind_unfold in Hrun. destruct (release_reentry (fst b) ex) as [[[]|e|w] ex1] eqn:Hrel; [|done..].
  rewrite Hi in Hrel. pose proof (release_inv _ _ _ _ _ _ Hf Hdel Hrel) as ->.
  rewrite !modify_run, Hi, Hb in Hrun. injection Hrun as _ <-.
  eapply truncate_inv; [done..|]. lia.
Qed.

Lemma discard_inv b ex ex' :
  exec_inv ex → find_boundary (length (ex_frames ex)) (ex_frames ex) = Some b →
  discard_to (snd b) (fst b) ex = (Ok tt, ex') → exec_inv ex'.
Proof.
  intros Hinv (pre & f & post & Hf & Hi & Hb & Hdel & Hcr)%boundary_split Hrun.
  unfold discard_to in Hrun. rewrite get_run in Hrun.
  destruct (zlen (ex_values ex) <? snd b) eqn:Hvb; [by rewrite orb_true_r in Hrun|].
  apply Z.ltb_ge in Hvb. destruct (_ || _) in Hrun; [done|].
  rewrite bind_unfold in Hrun. destruct (release_reentry (fst b) ex) as [[[]|e|w] ex1] eqn:Hrel; [|done..].
  rewrite Hi in Hrel. pose proof (release_inv _ _ _ _ _ _ Hf Hdel Hrel) as ->.
  rewrite !modify_run, Hi, Hb in Hrun. injection Hrun as <-.
  eapply truncate_inv; [done..|]. lia.
Qed.

Lemma drop_top_inv k ex : exec_inv ex → 0 ≤ k → operands_ready k ex → exec_inv (drop_top k ex).
Proof.
  intros [Hwf Hl Hn Hfl Hd] Hk Hr. pose proof (top_floor_operands k ex Hr).
  pose proof (top_floor_nonneg ex Hwf). destruct Hwf as [Hc Hff]. unfold lockstep in Hl.
  unfold drop_top, stack_truncate. split; [split|..]; unfold lockstep; cbn -[zlen top_floor crossings ztake].
  - by apply Forall_take.
  - done.
  - rewrite !zlen_take; lia.
  - done.
  - rewrite zlen_take; lia.
  - done.
Qed.

Lemma slid_inv src n dst fs ex :
  exec_inv ex → (∃ gs, ex_frames ex = fs ++ gs) → crossings fs = crossings (ex_frames ex) →
  top_floor 0 fs ≤ dst → 0 ≤ dst ≤ src → 0 ≤ n → src + n = zlen (ex_values ex) → top_floor 0 fs ≤ dst + n →
  exec_inv (slid src n dst (set_ex_frames fs ex)).
Proof.
  intros [[Hc Hff] Hl Hn Hfl Hd] (gs & Hg) Hcr Htf Hb Hn0 Hs Hfl'. unfold lockstep in Hl.
  split; [split|..]; unfold lockstep, slid; cbn -[zlen top_floor crossings ztake zdrop].
  - apply Forall_app. split; [by apply Forall_take|by apply Forall_drop].
  - rewrite Hg in Hff. by apply Forall_app in Hff as [? _].
  - rewrite !zlen_app, !zlen_take, !zlen_drop by lia. lia.
  - rewrite Hg in Hn. by eapply nested_app.
  - rewrite zlen_app, zlen_take, zlen_drop by lia. lia.
  - congruence.
Qed.

Lemma push_cell_inv cell tag ex : exec_inv ex → cell_ok cell → exec_inv (push_cell cell tag ex).
Proof.
  intros [[Hc Hff] Hl Hn Hfl Hd] Hcell. unfold lockstep in Hl.
  split; [split|..]; unfold lockstep; cbn -[zlen top_floor crossings];
    [|done|zlen_solve|done|zlen_solve|done].
  apply Forall_app. split; [done|]. by apply Forall_singleton.
Qed.

Lemma set_cell_inv i cell tag ex ex' :
  exec_inv ex → 0 ≤ i → cell_ok cell → set_cell i cell tag ex = (Ok tt, ex') → exec_inv ex'.
Proof.
  intros [[Hc Hff] Hl Hn Hfl Hd] Hi Hcell. unfold lockstep in Hl. unfold set_cell.
  destruct (_ || _); [done|]. rewrite bind_unfold. unfold set_value, set_tag.
  destruct (zset (ex_values ex) i cell) as [vs|] eqn:Hv; [|done]. cbn [ex_shadow set_ex_values].
  destruct (zset (ex_shadow ex) i tag) as [ss|] eqn:Hs; [|done]. intros [= <-].
  apply zset_Some in Hv as [_ ->]. apply zset_Some in Hs as [_ ->].
  split; [split|..]; unfold lockstep; cbn -[zlen top_floor crossings]; rewrite ?zlen_insert; try done.
  by apply Forall_insert.
Qed.

Lemma exec_step_inv ex ex' : exec_inv ex → exec_step ex ex' → exec_inv ex'.
Proof.
  intros Hinv Hstep. pose proof Hinv as [Hwf Hl Hn Hfl Hd].
  destruct Hstep as [d i fi code func args ex' Hcode Hnp Hrun|i fi code func ex' Hcode Hnp Hrun|t ex' [Hk _] [Hp _] Hrun
    |n stop tail b ex' Hn0 Hrun|cell tag Hc|A k m a ex' Hk Hop Hrun|i cell tag ex' Hi Hc Hrun|b tys cells ex' Hb Hrun
    |p ex' Hrun].
  - destruct (enter_call_cases d i fi code args ex)
      as [(func' & tys & cells & _ & Hf & _ & Ha & Hcr & Hr)|[(e & Hr)|(w & ex1 & Hr)]]; rewrite Hr in Hrun; [|congruence..].
    rewrite Hcode in Hf. injection Hf as <-. injection Hrun as <-.
    apply entered_inv; [|done|done]. apply boundary_inv; [done| |done].
    destruct Hcr as [_ Hlen _ _]. cbn -[zlen] in Hlen. rewrite zlen_app in Hlen.
    pose proof (zlen_nonneg cells). lia.
  - destruct (push_call_cases i fi code ex (top_floor_nonneg ex Hwf))
      as [(func' & tys & Hf & _ & Hcr & Hr)|(r & Hr & Hno)]; rewrite Hr in Hrun;
      [|injection Hrun as ->; by destruct (Hno tt)].
    rewrite Hcode in Hf. injection Hf as <-. injection Hrun as <-. by apply entered_inv.
  - destruct (take_branch_inv t ex ex' Hinv Hk Hp Hrun) as [Hr ->].
    pose proof (top_floor_operands _ _ Hr). pose proof (top_floor_nonneg ex Hwf).
    replace ex with (set_ex_frames (ex_frames ex) ex) at 3 by (by destruct ex).
    apply slid_inv; try lia; [done|by exists []; rewrite app_nil_r].
  - destruct (do_return_inv n stop tail b ex ex' Hinv Hn0 Hrun) as (fs & f & Hf & Hdel & Hle & ->).
    rewrite Hf in Hn. apply nested_snoc in Hn as [Hn1 Hb1].
    assert (0 ≤ top_floor 0 fs).
    { apply (top_floor_nonneg (set_ex_frames fs ex)). destruct Hwf as [Hc Hff]. split; [done|].
      cbn. rewrite Hf in Hff. by apply Forall_app in Hff as [? _]. }
    apply slid_inv; try lia; [done|by eexists|].
    rewrite Hf, crossings_snoc. unfold crossing. by rewrite Hdel, decide_False, Z.add_0_r by done.
  - by apply push_cell_inv.
  - pose proof (pop_op_transaction A k m ex Hwf Hop) as Ht. rewrite Hrun in Ht.
    destruct Ht as [Hr ->]. by apply drop_top_inv.
  - by eapply set_cell_inv.
  - by eapply take_results_inv.
  - unfold discard_current_call in Hrun. rewrite get_run in Hrun.
    destruct (find_boundary _ _) as [b|] eqn:Hb; [|done]. lift_step_in Hrun.
    rewrite bind_unfold in Hrun. destruct (discard_to (snd b) (fst b) ex) as [[[]|e|w] ex1] eqn:Hdis; [|done..].
    injection Hrun as _ <-. by eapply discard_inv.
Qed.

Lemma exec_inv_default : exec_inv execution_default.
Proof. repeat split; try constructor; done. Qed.

(** C13: along every sequence of calls, host re-entries, branches, returns,
    pushes, pops, local writes, completed and discarded calls, the operand stack
    and its root shadow stay in lockstep, frames stay nested with their operands
    above their locals, and the re-entry counter is the number of live host
    boundaries; so a stack footprint below a budget bounds the host crossings by
    the budget over the reserve. *)
Theorem exec_invariant ex budget n :
  rtc exec_step execution_default ex →
  lockstep ex ∧ nested 0 (ex_frames ex) ∧ top_floor 0 (ex_frames ex) ≤ zlen (ex_values ex) ∧
  ex_host_reentry_depth ex = crossings (ex_frames ex) ∧
  (0 ≤ frame_size → stack_bytes ex = Ok n → n < budget → HOST_REENTRY_RESERVE * crossings (ex_frames ex) < budget).
Proof.
  intros Hrtc. assert (exec_inv ex) as [Hwf Hl Hn Hfl Hd].
  { revert Hrtc. generalize exec_inv_default. generalize execution_default as ex0.
    intros ex0 Hi Hr. induction Hr as [|ex0 ex1 ex2 Hs _ IH]; eauto using exec_step_inv. }
  split_and!; [done..|]. intros Hfs Hb Hlt. unfold stack_bytes, checked_mul, checked_add in Hb.
  pose proof slot_bytes_width. pose proof (zlen_nonneg (ex_values ex)).
  pose proof (zlen_nonneg (ex_frames ex)). pose proof (zlen_nonneg (ex_shadow ex)).
  do 6 (match type of Hb with context [if ?c then _ else _] => destruct c; [|discriminate Hb] end;
    cbn [ok_or mbind result_bind option_bind] in Hb).
  injection Hb as <-. rewrite Hd in Hlt. nia.
Qed.
End reach.

(** ** Concrete instances *)
Definition func_demo : CompiledFunc :=
  {| cf_ops := span0; cf_type_idx := 0; cf_n_params := 1; cf_n_results := 1;
     cf_local_types := {| sp_start := 0; sp_len := 1 |}; cf_max_operands := 4; cf_handlers := span0;
     cf_br_tables := span0; cf_big_memargs := span0; cf_offsets := span0 |}.
Definition code_demo : Code :=
  {| code_module :=
       {| mi_types := []; mi_func_types := []; mi_num_imported_funcs := 0;
          mi_functions := [func_demo];
          mi_code := {| ca_ops := []; ca_local_types := [IrI64]; ca_handlers := []; ca_br_tables := [];
                        ca_big_memargs := []; ca_offsets := [] |};
          mi_imports := []; mi_exports := []; mi_memories := []; mi_tables := []; mi_globals := [];
          mi_tags := []; mi_num_imported_tags := 0; mi_datas := []; mi_elems := []; mi_start := None;
          mi_type_ids := []; mi_layouts := [] |};
     code_index := 0 |}.
Definition inst_demo : Handle := {| h_index := 0; h_store := 1 |}.
(** One [i32] operand in the current frame. *)
Definition ex_one : Execution :=
  {| ex_values := [@from_i32 lean_features 7; @from_i32 lean_features 5]; ex_shadow := [TagNone; TagNone];
     ex_frames := [frame0 0 1 None]; ex_host_reentry_depth := 0 |}.
Lemma ex_one_wf : @exec_wf lean_features ex_one.
Proof. split; repeat constructor; vm_compute; intuition congruence. Qed.

Lemma take_branch_spec_witness :
  @take_branch {| bt_ip := 0; bt_keep := 1; bt_pop := 1 |} ex_demo =
    (Ok tt, set_ex_shadow [TagNone; TagFunc]
       (set_ex_values [@from_i32 lean_features 7; @of_bytes lean_features (to_le_bytes 4 NULL_REF)] ex_demo)).
Proof.
  destruct (@take_branch_spec lean_features {| bt_ip := 0; bt_keep := 1; bt_pop := 1 |} ex_demo)
    as [[_ H]|[H _]]; [exact ex_demo_wf|split; vm_compute; congruence..|exact H|].
  exfalso. apply H. split; [reflexivity|]. eexists. split; [reflexivity|]. vm_compute. congruence.
Defined.

Lemma call_return_balanced_witness :
  let ex2 := {| ex_values := [@from_i32 lean_features 7; @from_i32 lean_features 9; @cell_zero lean_features;
                              @from_i32 lean_features 42];
                ex_shadow := [TagNone; TagNone; TagNone; TagNone];
                ex_frames := [frame0 0 1 None; frame0 1 3 None]; ex_host_reentry_depth := 0 |} in
  do_return 1 0 false ex2 =
    (Ok false, set_ex_shadow [TagNone; TagNone]
      (set_ex_values [@from_i32 lean_features 7; @from_i32 lean_features 42] ex_one)).
Proof.
  intros ex2.
  pose proof (@call_return_balanced lean_features inst_demo 0 code_demo
    func_demo
    ex_one (snd (@push_call lean_features inst_demo 0 code_demo ex_one)) ex2
    {| fr_code := code_demo; fr_func := func_demo; fr_ip := 0; fr_locals_base := 1; fr_operand_base := 3;
       fr_instance := inst_demo; fr_func_index := 0; fr_delimiter := None |}
    (frame0 1 3 None) [@from_i32 lean_features 9; @cell_zero lean_features]
    [TagNone] [TagNone; TagNone] [@from_i32 lean_features 42] 0) as H.
  apply H; first [exact ex_one_wf | reflexivity | vm_compute; congruence].
Defined.

Lemma enter_call_atomic_witness :
  snd (@enter_call lean_features HostReentry inst_demo 0 code_demo [] ex_one) = ex_one.
Proof.
  apply (@enter_call_atomic lean_features HostReentry inst_demo 0 code_demo [] ex_one
           (operand_err "call parameter underflow")).
  reflexivity.
Defined.

Lemma boundary_restores_witness :
  let ex1 := snd (@enter_call lean_features HostReentry inst_demo 0 code_demo [VI32 3] ex_one) in
  discard_to 2 1 ex1 = (Ok tt, ex_one).
Proof.
  intros ex1.
  apply (@boundary_restores lean_features HostReentry inst_demo 0 code_demo [VI32 3] ex_one ex1 ex1
    [@from_i32 lean_features 3; @cell_zero lean_features] [TagNone; TagNone] []).
  - vm_compute. congruence.
  - reflexivity.
  - split; try reflexivity. exists (drop 2 (ex_frames ex1)). reflexivity.
Defined.

Lemma exec_invariant_witness :
  let ex1 := snd (@enter_call lean_features HostReentry inst_demo 0 code_demo [VI32 3] execution_default) in
  ex_host_reentry_depth ex1 = crossings (ex_frames ex1).
Proof.
  intros ex1.
  destruct (@exec_invariant lean_features {| frame_size := 176 |} ex1 0 0) as (_ & _ & _ & H & _).
  - apply rtc_once, (@StepEnter lean_features _ HostReentry inst_demo 0 code_demo func_demo [VI32 3]);
      [reflexivity|vm_compute; congruence|reflexivity].
  - exact H.
Defined.
