(* ===== verification/Float.v ===== *)
(** * Float: IEEE floats as the interpreter uses them
    (the float halves of src/src/exec/arith.rs and src/src/exec/convert.rs)

    A float is its bit pattern; the language's arithmetic is the Standard
    Library's executable IEEE 754 specification ([SpecFloat]) between a decoding
    and an encoding.  Which NaN pattern the host produces is left open
    ([FloatHost]): the interpreter's canonicalisation is proved for every choice.
    Trapping truncation is proved to be the exact integer part of the value, with
    the traps exactly outside the target's range. *)
From Stdlib Require Import Floats.SpecFloat.
From S2P Require Import Prelude Types.
Open Scope Z_scope.

Inductive Fmt : Type := F32 | F64.

(** Mantissa and exponent field widths. *)
Definition mant_width (f : Fmt) : Z := match f with F32 => 23 | F64 => 52 end.
Definition exp_width (f : Fmt) : Z := match f with F32 => 8 | F64 => 11 end.
Definition f_bits (f : Fmt) : Z := match f with F32 => 32 | F64 => 64 end.
Definition f_prec (f : Fmt) : Z := match f with F32 => 24 | F64 => 53 end.
Definition f_emax (f : Fmt) : Z := match f with F32 => 128 | F64 => 1024 end.
Definition f_emin (f : Fmt) : Z := match f with F32 => -149 | F64 => -1074 end.

(** [fN::from_bits] / [to_bits], up to the choice of a NaN pattern. *)
Definition sign_of (f : Fmt) (bits : Z) : bool := Z.testbit bits (f_bits f - 1).
Definition exp_of (f : Fmt) (bits : Z) : Z := (bits / 2 ^ mant_width f) mod 2 ^ exp_width f.
Definition mant_of (f : Fmt) (bits : Z) : Z := bits mod 2 ^ mant_width f.
Definition mk_finite (s : bool) (m e : Z) : spec_float :=
  match m with Zpos p => S754_finite s p e | _ => S754_zero s end.
Definition dec (f : Fmt) (bits : Z) : spec_float :=
  let s := sign_of f bits in
  let e := exp_of f bits in
  let m := mant_of f bits in
  if e =? 0 then mk_finite s m (f_emin f)
  else if e =? 2 ^ exp_width f - 1 then (if m =? 0 then S754_infinity s else S754_nan)
  else mk_finite s (m + 2 ^ mant_width f) (e + f_emin f - 1).
Definition join_bits (f : Fmt) (s : bool) (e m : Z) : Z :=
  (if s then 2 ^ (f_bits f - 1) else 0) + e * 2 ^ mant_width f + m.
Definition enc (f : Fmt) (nan : Z) (x : spec_float) : Z :=
  match x with
  | S754_zero s => join_bits f s 0 0
  | S754_infinity s => join_bits f s (2 ^ exp_width f - 1) 0
  | S754_nan => nan
  | S754_finite s m e =>
      if Zpos m <? 2 ^ mant_width f then join_bits f s 0 (Zpos m)
      else join_bits f s (e - f_emin f + 1) (Zpos m - 2 ^ mant_width f)
  end.

Definition is_nan (f : Fmt) (bits : Z) : bool :=
  match dec f bits with S754_nan => true | _ => false end.

(** The NaN bit pattern an operation yields from its inputs' patterns. *)
Class FloatHost := {
  nan_choice : Fmt → list Z → Z;
  nan_choice_nan : ∀ f ins, u_ok (f_bits f) (nan_choice f ins) ∧ is_nan f (nan_choice f ins) = true;
}.

(** Comparisons. *)
Definition f_eq (f : Fmt) (a b : Z) : bool := SFeqb (dec f a) (dec f b).
Definition f_lt (f : Fmt) (a b : Z) : bool := SFltb (dec f a) (dec f b).
Definition f_le (f : Fmt) (a b : Z) : bool := SFleb (dec f a) (dec f b).
Definition f_gt (f : Fmt) (a b : Z) : bool := f_lt f b a.
Definition f_ge (f : Fmt) (a b : Z) : bool := f_le f b a.
Definition f_ne (f : Fmt) (a b : Z) : bool := negb (f_eq f a b).

(** Sign-bit operations. *)
Definition f_abs (f : Fmt) (a : Z) : Z := Z.land a (2 ^ (f_bits f - 1) - 1).
Definition f_neg (f : Fmt) (a : Z) : Z := Z.lxor a (2 ^ (f_bits f - 1)).
Definition f_copysign (f : Fmt) (a b : Z) : Z :=
  Z.lor (Z.land a (2 ^ (f_bits f - 1) - 1)) (Z.land b (2 ^ (f_bits f - 1))).

(** ** Canonicalisation and min/max (arith.rs) *)
Definition CANON_F32 : Z := 0x7fc00000.
Definition CANON_F64 : Z := 0x7ff8000000000000.
Definition QUIET_F32 : Z := 0x00400000.
Definition QUIET_F64 : Z := 0x0008000000000000.
Definition f_canon (f : Fmt) : Z := match f with F32 => CANON_F32 | F64 => CANON_F64 end.
Definition f_quiet (f : Fmt) : Z := match f with F32 => QUIET_F32 | F64 => QUIET_F64 end.

Definition canon (f : Fmt) (r : Z) (had_nan : bool) : Z :=
  if negb (is_nan f r) then r
  else if had_nan then Z.lor r (f_quiet f)
  else f_canon f.
Definition canon_f32 := canon F32.
Definition canon_f64 := canon F64.

Definition f_min (f : Fmt) (a b : Z) : Z :=
  if is_nan f a || is_nan f b then f_canon f
  else if f_eq f a b then Z.lor a b
  else if f_lt f a b then a else b.
Definition f_max (f : Fmt) (a b : Z) : Z :=
  if is_nan f a || is_nan f b then f_canon f
  else if f_eq f a b then Z.land a b
  else if f_gt f a b then a else b.
Definition f32_min := f_min F32.
Definition f64_min := f_min F64.
Definition f32_max := f_max F32.
Definition f64_max := f_max F64.

Section ops.
Context `{FloatHost}.

Definition f_op2 (f : Fmt) (op : spec_float → spec_float → spec_float) (a b : Z) : Z :=
  enc f (nan_choice f [a; b]) (op (dec f a) (dec f b)).
Definition f_op1 (f : Fmt) (op : spec_float → spec_float) (a : Z) : Z :=
  enc f (nan_choice f [a]) (op (dec f a)).

Definition f_add (f : Fmt) := f_op2 f (SFadd (f_prec f) (f_emax f)).
Definition f_sub (f : Fmt) := f_op2 f (SFsub (f_prec f) (f_emax f)).
Definition f_mul (f : Fmt) := f_op2 f (SFmul (f_prec f) (f_emax f)).
Definition f_div (f : Fmt) := f_op2 f (SFdiv (f_prec f) (f_emax f)).
Definition f_sqrt (f : Fmt) := f_op1 f (SFsqrt (f_prec f) (f_emax f)).
End ops.

(** Rounding to an integral value: truncation clears the fraction bits, the others
    pick the neighbour. *)
Definition sf_trunc (x : spec_float) : spec_float :=
  match x with
  | S754_finite s m e =>
      if 0 <=? e then x else mk_finite s (Zpos m / 2 ^ (- e) * 2 ^ (- e)) e
  | _ => x
  end.
Definition sf_round_int (f : Fmt) (up : bool → Z → Z → Z → bool) (x : spec_float) : spec_float :=
  match x with
  | S754_finite s m e =>
      if 0 <=? e then x else
      let d := 2 ^ (- e) in
      let q := Zpos m / d in
      let r := Zpos m mod d in
      match (if up s q r d then q + 1 else q) with
      | Zpos p => binary_round (f_prec f) (f_emax f) s p 0
      | _ => S754_zero s
      end
  | _ => x
  end.
Definition up_ceil (s : bool) (q r d : Z) : bool := negb s && (0 <? r).
Definition up_floor (s : bool) (q r d : Z) : bool := s && (0 <? r).
Definition up_nearest (s : bool) (q r d : Z) : bool := (d <? 2 * r) || ((2 * r =? d) && Z.odd q).

Section rounding.
Context `{FloatHost}.
Definition f_ceil (f : Fmt) := f_op1 f (sf_round_int f up_ceil).
Definition f_floor (f : Fmt) := f_op1 f (sf_round_int f up_floor).
Definition f_trunc (f : Fmt) := f_op1 f sf_trunc.
Definition f_nearest (f : Fmt) := f_op1 f (sf_round_int f up_nearest).
End rounding.

(** ** Conversions (convert.rs) *)

(** The integer part. *)
Definition sf_abs_Z (m : positive) (e : Z) : Z :=
  if 0 <=? e then Zpos m * 2 ^ e else Zpos m / 2 ^ (- e).
Definition sf_Z (x : spec_float) : Z :=
  match x with
  | S754_finite s m e => if s then - sf_abs_Z m e else sf_abs_Z m e
  | _ => 0
  end.
(** [x as iN] / [x as uN]: saturating. *)
Definition as_int (lo hi : Z) (x : spec_float) : Z :=
  match x with
  | S754_nan => 0
  | S754_infinity s => if s then lo else hi
  | _ => Z.max lo (Z.min hi (sf_Z x))
  end.
Definition as_i (w : Z) : spec_float → Z := as_int (- 2 ^ (w - 1)) (2 ^ (w - 1) - 1).
Definition as_u (w : Z) : spec_float → Z := as_int 0 (2 ^ w - 1).
(** A float literal of integral value, and [x as fN] of an integer. *)
Definition sf_of_Z (f : Fmt) (z : Z) : spec_float := binary_normalize (f_prec f) (f_emax f) z 0 false.

Definition bad_conv : error := ETrap BadConversionToInteger.
Definition overflow : error := ETrap IntegerOverflow.

(** The body the eight trapping truncations share: NaN check, [x.trunc()], the range
    test against literals [lo] and [hi], the cast. *)
Definition trunc_checked (f : Fmt) (lo hi : Z) (cast : spec_float → Z) (x : Z) : res Z :=
  if is_nan f x then Err bad_conv else
  let t := sf_trunc (dec f x) in
  if SFleb (sf_of_Z f lo) t && SFltb t (sf_of_Z f hi) then Ok (cast t) else Err overflow.

Definition i32_trunc_f32_s := trunc_checked F32 (-2147483648) 2147483648 (as_i 32).
Definition i32_trunc_f32_u := trunc_checked F32 0 4294967296 (λ t, sgn 32 (as_u 32 t)).
Definition i32_trunc_f64_s := trunc_checked F64 (-2147483648) 2147483648 (as_i 32).
Definition i32_trunc_f64_u := trunc_checked F64 0 4294967296 (λ t, sgn 32 (as_u 32 t)).
Definition i64_trunc_f32_s := trunc_checked F32 (-9223372036854775808) 9223372036854775808 (as_i 64).
Definition i64_trunc_f32_u := trunc_checked F32 0 18446744073709551616 (λ t, sgn 64 (as_u 64 t)).
Definition i64_trunc_f64_s := trunc_checked F64 (-9223372036854775808) 9223372036854775808 (as_i 64).
Definition i64_trunc_f64_u := trunc_checked F64 0 18446744073709551616 (λ t, sgn 64 (as_u 64 t)).

Definition i32_trunc_sat_f32_s (x : Z) : Z := as_i 32 (dec F32 x).
Definition i32_trunc_sat_f32_u (x : Z) : Z := sgn 32 (as_u 32 (dec F32 x)).
Definition i32_trunc_sat_f64_s (x : Z) : Z := as_i 32 (dec F64 x).
Definition i32_trunc_sat_f64_u (x : Z) : Z := sgn 32 (as_u 32 (dec F64 x)).
Definition i64_trunc_sat_f32_s (x : Z) : Z := as_i 64 (dec F32 x).
Definition i64_trunc_sat_f32_u (x : Z) : Z := sgn 64 (as_u 64 (dec F32 x)).
Definition i64_trunc_sat_f64_s (x : Z) : Z := as_i 64 (dec F64 x).
Definition i64_trunc_sat_f64_u (x : Z) : Z := sgn 64 (as_u 64 (dec F64 x)).

(** The encodings of an integer never need the NaN pattern. *)
Definition f32_convert_i32_s (x : Z) : Z := enc F32 CANON_F32 (sf_of_Z F32 x).
Definition f32_convert_i32_u (x : Z) : Z := enc F32 CANON_F32 (sf_of_Z F32 (wrap 32 x)).
Definition f32_convert_i64_s (x : Z) : Z := enc F32 CANON_F32 (sf_of_Z F32 x).
Definition f32_convert_i64_u (x : Z) : Z := enc F32 CANON_F32 (sf_of_Z F32 (wrap 64 x)).
Definition f64_convert_i32_s (x : Z) : Z := enc F64 CANON_F64 (sf_of_Z F64 x).
Definition f64_convert_i32_u (x : Z) : Z := enc F64 CANON_F64 (sf_of_Z F64 (wrap 32 x)).
Definition f64_convert_i64_s (x : Z) : Z := enc F64 CANON_F64 (sf_of_Z F64 x).
Definition f64_convert_i64_u (x : Z) : Z := enc F64 CANON_F64 (sf_of_Z F64 (wrap 64 x)).

(** Re-rounding to another format keeps zeros and infinities. *)
Definition sf_reformat (f : Fmt) (x : spec_float) : spec_float :=
  match x with
  | S754_finite s m e => binary_round (f_prec f) (f_emax f) s m e
  | _ => x
  end.
Section reformat.
Context `{FloatHost}.
Definition f32_demote_f64 (x : Z) : Z := enc F32 (nan_choice F32 [x]) (sf_reformat F32 (dec F64 x)).
Definition f64_promote_f32 (x : Z) : Z := enc F64 (nan_choice F64 [x]) (sf_reformat F64 (dec F32 x)).
End reformat.

(** The conversions compute as IEEE says. *)
Example ex_f32_tests :
  f32_convert_i32_s 16777217 = 0x4B800000 ∧ f64_convert_i32_s (-3) = 0xC008000000000000 ∧
  i32_trunc_f32_s 0xBFC00000 = Ok (-1) ∧ i32_trunc_f32_s 0x4F000000 = Err overflow ∧
  i32_trunc_f32_s 0xCF000000 = Ok (-2147483648) ∧ i32_trunc_f32_u 0xBF400000 = Ok 0 ∧
  i64_trunc_sat_f64_s 0x7FF0000000000000 = 2 ^ 63 - 1 ∧ f_lt F64 0x8000000000000000 0 = false ∧
  f32_min 0x80000000 0 = 0x80000000 ∧ f32_max 0x80000000 0 = 0.
Proof. vm_compute. intuition congruence. Qed.

(** ** Decoded floats are canonical *)
Record canon_ok (f : Fmt) (m : positive) (e : Z) : Prop := {
  co_mant : Zpos m < 2 ^ f_prec f;
  co_exp : f_emin f ≤ e;
  co_lead : e = f_emin f ∨ 2 ^ (f_prec f - 1) ≤ Zpos m;
}.
Definition sf_ok (f : Fmt) (x : spec_float) : Prop :=
  match x with S754_finite _ m e => canon_ok f m e | _ => True end.

Lemma fmt_facts f :
  f_prec f = mant_width f + 1 ∧ f_bits f = 1 + exp_width f + mant_width f ∧
  0 < mant_width f ∧ 1 < exp_width f.
Proof. by destruct f. Qed.

Lemma field_bounds f bits :
  0 ≤ mant_of f bits < 2 ^ mant_width f ∧ 0 ≤ exp_of f bits < 2 ^ exp_width f.
Proof. destruct (fmt_facts f) as (_ & _ & ? & ?). split; apply Z.mod_pos_bound; lia. Qed.

Lemma mk_finite_ok f s m e :
  0 ≤ m < 2 ^ f_prec f → f_emin f ≤ e → e = f_emin f ∨ 2 ^ (f_prec f - 1) ≤ m →
  sf_ok f (mk_finite s m e).
Proof. intros Hm He Hl. destruct m as [|p|p]; [done| |done]. split; [lia|done|done]. Qed.

Lemma dec_ok f bits : sf_ok f (dec f bits).
Proof.
  destruct (field_bounds f bits) as [Hm He]. destruct (fmt_facts f) as (Hp & _ & ? & ?).
  assert (2 ^ f_prec f = 2 * 2 ^ mant_width f) as Hp2.
  { rewrite Hp, Z.pow_add_r by lia. lia. }
  unfold dec. destruct (Z.eqb_spec (exp_of f bits) 0).
  - apply mk_finite_ok; lia.
  - destruct (Z.eqb_spec (exp_of f bits) (2 ^ exp_width f - 1)); [by destruct (_ =? 0)|].
    apply mk_finite_ok; [lia|lia|right]. rewrite Hp. replace (_ + 1 - 1) with (mant_width f) by lia. lia.
Qed.

(** ** The order of canonical floats is the order of their values *)

(** Powers of two as opaque numbers, for linear arithmetic. *)
Ltac gen_pow :=
  repeat match goal with
  | H : context [2 ^ ?x] |- _ => let P := fresh "P" in set (P := 2 ^ x) in *; clearbody P
  | |- context [2 ^ ?x] => let P := fresh "P" in set (P := 2 ^ x) in *; clearbody P
  end.

(** The value scaled to an integer. *)
Definition scaled (f : Fmt) (m e : Z) : Z := m * 2 ^ (e - f_emin f).

Lemma scaled_lt f m1 e1 m2 e2 :
  canon_ok f m1 e1 → canon_ok f m2 e2 → e1 < e2 → scaled f (Zpos m1) e1 < scaled f (Zpos m2) e2.
Proof.
  intros [Hm1 He1 _] [_ He2 Hl2] Hlt. destruct Hl2 as [->|Hl2]; [lia|].
  unfold scaled. destruct (fmt_facts f) as (Hp & _ & ? & _).
  replace (e2 - f_emin f) with ((e1 - f_emin f) + 1 + (e2 - e1 - 1)) by lia.
  rewrite (Z.pow_add_r 2 (_ + 1)), (Z.pow_add_r 2 (e1 - f_emin f)) by lia. change (2 ^ 1) with 2.
  assert (2 ^ f_prec f = 2 * 2 ^ (f_prec f - 1)) as Hpp by (apply pow2_half; lia).
  pose proof (Z.pow_pos_nonneg 2 (e1 - f_emin f) ltac:(lia) ltac:(lia)).
  pose proof (Z.pow_pos_nonneg 2 (e2 - e1 - 1) ltac:(lia) ltac:(lia)).
  gen_pow. assert (Z.pos m1 < 2 * Z.pos m2) by lia.
  apply Z.lt_le_trans with (2 * Z.pos m2 * P0); nia.
Qed.

Lemma mag_compare f m1 e1 m2 e2 :
  canon_ok f m1 e1 → canon_ok f m2 e2 →
  match Z.compare e1 e2 with
  | Lt => Lt
  | Gt => Gt
  | Eq => Pos.compare_cont Eq m1 m2
  end = Z.compare (scaled f (Zpos m1) e1) (scaled f (Zpos m2) e2).
Proof.
  intros H1 H2. symmetry. destruct (Z.compare_spec e1 e2) as [->|Hlt|Hgt].
  - unfold scaled. rewrite Z.mul_comm, (Z.mul_comm (Zpos m2)).
    pose proof (Z.pow_pos_nonneg 2 (e2 - f_emin f) ltac:(lia) ltac:(destruct H2; lia)).
    rewrite <- Zmult_compare_compat_l by lia. done.
  - apply Z.compare_lt_iff. by apply scaled_lt.
  - apply Z.compare_gt_iff. by apply scaled_lt.
Qed.

(** The value of any non-NaN float, infinities at the ends. *)
Definition sf_rank (f : Fmt) (x : spec_float) : Z :=
  match x with
  | S754_finite s m e => if s then - scaled f (Zpos m) e else scaled f (Zpos m) e
  | S754_infinity s => if s then - scaled f 1 (f_emax f) else scaled f 1 (f_emax f)
  | _ => 0
  end.

(** Every finite float is below infinity. *)
Definition sf_small (f : Fmt) (x : spec_float) : Prop :=
  match x with S754_finite _ m e => e ≤ f_emax f - f_prec f | _ => True end.

Lemma scaled_pos f m e : f_emin f ≤ e → 0 < scaled f (Zpos m) e.
Proof. intros. unfold scaled. pose proof (Z.pow_pos_nonneg 2 (e - f_emin f)). lia. Qed.

Lemma scaled_below_inf f m e :
  canon_ok f m e → e ≤ f_emax f - f_prec f → scaled f (Zpos m) e < scaled f 1 (f_emax f).
Proof.
  intros [Hm He _] Hs. unfold scaled. destruct (fmt_facts f) as (Hp & _ & ? & _).
  replace (f_emax f - f_emin f) with (f_prec f + (e - f_emin f) + (f_emax f - f_prec f - e)) by lia.
  rewrite !Z.pow_add_r by lia.
  pose proof (Z.pow_pos_nonneg 2 (e - f_emin f) ltac:(lia) ltac:(lia)).
  pose proof (Z.pow_pos_nonneg 2 (f_emax f - f_prec f - e) ltac:(lia) ltac:(lia)).
  rewrite Z.mul_1_l. apply Z.lt_le_trans with (2 ^ f_prec f * 2 ^ (e - f_emin f)).
  - apply Z.mul_lt_mono_pos_r; [done|]. apply Hm.
  - apply Z.le_mul_diag_r; [apply Z.mul_pos_pos; [|done]; apply Z.pow_pos_nonneg; lia|]. gen_pow. lia.
Qed.
Lemma inf_pos f : 0 < scaled f 1 (f_emax f).
Proof. apply (scaled_pos f 1). by destruct f. Qed.

Lemma compare_rank f x y :
  x ≠ S754_nan → y ≠ S754_nan → sf_ok f x → sf_ok f y → sf_small f x → sf_small f y →
  SFcompare x y = Some (Z.compare (sf_rank f x) (sf_rank f y)).
Proof.
  intros Hx Hy Ox Oy Sx Sy. pose proof (inf_pos f).
  destruct x as [s1|s1| |s1 m1 e1], y as [s2|s2| |s2 m2 e2]; try done; cbn [SFcompare sf_rank];
    cbn in Ox, Oy, Sx, Sy;
    repeat match goal with
    | O : canon_ok f ?m ?e |- _ =>
        lazymatch goal with
        | _ : 0 < scaled f (Zpos m) e |- _ => fail
        | _ => pose proof (scaled_pos f m e (co_exp _ _ _ O));
               pose proof (scaled_below_inf f m e O ltac:(assumption))
        end
    end.
  all: try (f_equal; symmetry; destruct s1, s2;
    first [apply Z.compare_eq_iff; lia|apply Z.compare_lt_iff; lia|apply Z.compare_gt_iff; lia]).
  all: try (f_equal; symmetry; destruct s1;
    first [apply Z.compare_lt_iff; lia|apply Z.compare_gt_iff; lia]).
  all: try (f_equal; symmetry; destruct s2;
    first [apply Z.compare_lt_iff; lia|apply Z.compare_gt_iff; lia]).
  f_equal. pose proof (mag_compare f m1 e1 m2 e2 Ox Oy) as Hc. destruct s1, s2.
  - rewrite Z.compare_opp, (Z.compare_antisym (scaled f (Z.pos m1) e1)), <- Hc. by destruct (e1 ?= e2).
  - symmetry. apply Z.compare_lt_iff. lia.
  - symmetry. apply Z.compare_gt_iff. lia.
  - done.
Qed.

Lemma mk_finite_small f s m e : e ≤ f_emax f - f_prec f → sf_small f (mk_finite s m e).
Proof. by destruct m. Qed.
Lemma dec_small f bits : sf_small f (dec f bits).
Proof.
  destruct (field_bounds f bits) as [_ He]. unfold dec. destruct (Z.eqb_spec (exp_of f bits) 0).
  - apply mk_finite_small. by destruct f.
  - destruct (Z.eqb_spec (exp_of f bits) (2 ^ exp_width f - 1)); [by destruct (_ =? 0)|].
    apply mk_finite_small. destruct f; cbn in *; lia.
Qed.

(** ** Truncation *)

(** The value truncated toward zero. *)
Definition sf_int (x : spec_float) : Z :=
  match x with
  | S754_finite s m e => Z.quot ((if s then Zneg m else Zpos m) * 2 ^ Z.max e 0) (2 ^ Z.max (- e) 0)
  | _ => 0
  end.
Lemma sf_Z_int x : sf_Z x = sf_int x.
Proof.
  destruct x as [| | |s m e]; try done. cbn [sf_Z sf_int]. unfold sf_abs_Z.
  destruct (Z.leb_spec 0 e).
  - rewrite (Z.max_l e 0), (Z.max_r (- e) 0) by lia. rewrite Z.pow_0_r, Z.quot_1_r.
    destruct s; [change (Zneg m) with (- Zpos m)|]; lia.
  - rewrite (Z.max_r e 0), (Z.max_l (- e) 0), Z.mul_1_r by lia.
    pose proof (Z.pow_pos_nonneg 2 (- e) ltac:(lia) ltac:(lia)).
    destruct s; [change (Zneg m) with (- Zpos m); rewrite Z.quot_opp_l by lia|];
      by rewrite Z.quot_div_nonneg by lia.
Qed.

Lemma mk_finite_rank f s m e : 0 ≤ m →
  sf_rank f (mk_finite s m e) = if s then - scaled f m e else scaled f m e.
Proof. intros. destruct m as [|p|p]; [|done|lia]. unfold scaled. by destruct s. Qed.

Definition sf_finite (x : spec_float) : Prop :=
  match x with S754_finite _ _ _ | S754_zero _ => True | _ => False end.

Lemma pow_split f e : e < 0 → f_emin f ≤ e → 2 ^ (- f_emin f) = 2 ^ (- e) * 2 ^ (e - f_emin f).
Proof. intros. rewrite <- Z.pow_add_r by lia. f_equal. lia. Qed.

Lemma sf_trunc_spec f x :
  sf_ok f x → sf_small f x → sf_finite x →
  sf_ok f (sf_trunc x) ∧ sf_small f (sf_trunc x) ∧ sf_finite (sf_trunc x) ∧
  sf_rank f (sf_trunc x) = sf_Z x * 2 ^ (- f_emin f) ∧ sf_Z (sf_trunc x) = sf_Z x.
Proof.
  intros Hok Hs Hf. destruct x as [s| | |s m e]; try done. cbn [sf_trunc].
  destruct Hok as [Hm He Hl]. cbn in Hs. destruct (Z.leb_spec 0 e) as [H0|H0].
  { split_and!; [done|done|done| |done]. cbn [sf_rank sf_Z]. unfold scaled, sf_abs_Z.
    rewrite (proj2 (Z.leb_le _ _)) by done.
    replace (e - f_emin f) with (e + - f_emin f) by lia. rewrite Z.pow_add_r by (destruct f; cbn; lia).
    destruct s; lia. }
  set (d := 2 ^ (- e)). set (q := Zpos m / d).
  assert (0 < d) by (apply Z.pow_pos_nonneg; lia).
  assert (0 ≤ q) by (apply Z.div_pos; lia).
  assert (q * d ≤ Zpos m) by (rewrite Z.mul_comm; by apply Z.mul_div_le).
  assert (e = f_emin f ∨ 2 ^ (f_prec f - 1) ≤ q * d ∨ q = 0) as Hlead.
  { destruct Hl as [?|Hl]; [by left|right]. destruct (fmt_facts f) as (Hp & _ & ? & _).
    destruct (Z.le_gt_cases (- e) (f_prec f - 1)) as [Hc|Hc].
    - left. replace (f_prec f - 1) with ((f_prec f - 1 + e) + - e) by lia.
      rewrite Z.pow_add_r by lia. fold d. apply Z.mul_le_mono_nonneg_r; [lia|].
      apply Z.div_le_lower_bound; [done|]. rewrite Z.mul_comm. unfold d. rewrite <- Z.pow_add_r by lia.
      by replace (f_prec f - 1 + e + - e) with (f_prec f - 1) by lia.
    - right. apply Z.div_small. split; [lia|]. eapply Z.lt_le_trans; [exact Hm|].
      apply Z.pow_le_mono_r; lia. }
  assert (sf_Z (mk_finite s (q * d) e) = (if s then - q else q)) as Hz.
  { destruct (q * d) as [|p|p] eqn:Hqd; [| |lia].
    - assert (q = 0) as -> by nia. by destruct s.
    - cbn [mk_finite sf_Z]. unfold sf_abs_Z. rewrite (proj2 (Z.leb_gt _ _)) by done. fold d.
      rewrite <- Hqd, Z.div_mul by lia. done. }
  assert (sf_Z (S754_finite s m e) = (if s then - q else q)) as Hz2.
  { cbn [sf_Z]. unfold sf_abs_Z. by rewrite (proj2 (Z.leb_gt _ _)) by done. }
  split_and!.
  - destruct Hlead as [?|[?|Hq]].
    + apply mk_finite_ok; [split; [lia|]; eapply Z.le_lt_trans; [|exact Hm]; lia|lia|by left].
    + apply mk_finite_ok; [split; [lia|]; eapply Z.le_lt_trans; [|exact Hm]; lia|lia|by right].
    + rewrite Hq. done.
  - by apply mk_finite_small.
  - by destruct (q * d).
  - rewrite mk_finite_rank by nia. rewrite Hz2. unfold scaled. rewrite (pow_split f e) by done. fold d.
    destruct s; lia.
  - by rewrite Hz, Hz2.
Qed.

(** An integral literal. *)
Record lit_ok (f : Fmt) (z : Z) : Prop := {
  li_ok : sf_ok f (sf_of_Z f z);
  li_small : sf_small f (sf_of_Z f z);
  li_finite : sf_finite (sf_of_Z f z);
  li_rank : sf_rank f (sf_of_Z f z) = z * 2 ^ (- f_emin f);
}.
Ltac solve_lit := split; [vm_compute; first [done | split; [reflexivity|discriminate|right; discriminate]]
                         |vm_compute; first [done|discriminate]|vm_compute; done|vm_compute; done].

Lemma compare_lit f x y :
  sf_ok f x → sf_small f x → sf_finite x → sf_ok f y → sf_small f y → sf_finite y →
  SFleb x y = (sf_rank f x <=? sf_rank f y) ∧ SFltb x y = (sf_rank f x <? sf_rank f y).
Proof.
  intros. unfold SFleb, SFltb. rewrite (compare_rank f) by (done || by intros ->).
  unfold Z.leb, Z.ltb. by destruct (_ ?= _).
Qed.

Lemma trunc_checked_spec f lo hi cast x :
  lit_ok f lo → lit_ok f hi →
  trunc_checked f lo hi cast x =
  match dec f x with
  | S754_nan => Err bad_conv
  | S754_infinity _ => Err overflow
  | d => if (lo <=? sf_int d) && (sf_int d <? hi) then Ok (cast (sf_trunc d)) else Err overflow
  end.
Proof.
  intros [Lo Ls Lf Lr] [Ho Hs Hf Hr]. unfold trunc_checked, is_nan.
  assert (∀ d, dec f x = d → sf_finite d →
    (if SFleb (sf_of_Z f lo) (sf_trunc d) && SFltb (sf_trunc d) (sf_of_Z f hi)
     then Ok (cast (sf_trunc d)) else Err overflow) =
    (if (lo <=? sf_int d) && (sf_int d <? hi) then Ok (cast (sf_trunc d)) else Err overflow : res Z)) as Hfin.
  { intros d Hd Hfd. destruct (sf_trunc_spec f d) as (T1 & T2 & T3 & T4 & _);
      [rewrite <- Hd; apply dec_ok|rewrite <- Hd; apply dec_small|done|].
    rewrite (proj1 (compare_lit f _ _ Lo Ls Lf T1 T2 T3)), (proj2 (compare_lit f _ _ T1 T2 T3 Ho Hs Hf)).
    rewrite T4, Lr, Hr, <- sf_Z_int.
    assert (0 < 2 ^ (- f_emin f)) as Hpos by (apply Z.pow_pos_nonneg; [lia|by destruct f]).
    revert Hpos. generalize (2 ^ (- f_emin f)) as P. intros P Hpos.
    assert ((lo * P <=? sf_Z d * P) = (lo <=? sf_Z d)) as ->.
    { destruct (Z.leb_spec (lo * P) (sf_Z d * P)), (Z.leb_spec lo (sf_Z d)); nia. }
    assert ((sf_Z d * P <? hi * P) = (sf_Z d <? hi)) as ->; [|done].
    destruct (Z.ltb_spec (sf_Z d * P) (hi * P)), (Z.ltb_spec (sf_Z d) hi); nia. }
  destruct (dec f x) as [s|s| |s m e] eqn:Hd; [by apply Hfin| |done|by apply Hfin].
  cbn [sf_trunc]. destruct (sf_of_Z f lo) as [| | |[]] eqn:E1, (sf_of_Z f hi) as [| | |[]] eqn:E2; try done;
    by destruct s.
Qed.

(** The mathematical conversion: traps on NaN, infinities and integer parts outside
    the target's range, and is exact otherwise. *)
Definition int_part (w : Z) (signed : bool) (x : spec_float) : res Z :=
  match x with
  | S754_nan => Err bad_conv
  | S754_infinity _ => Err overflow
  | _ =>
      let lo := if signed then - 2 ^ (w - 1) else 0 in
      let hi := if signed then 2 ^ (w - 1) else 2 ^ w in
      if (lo <=? sf_int x) && (sf_int x <? hi) then Ok (sgn w (sf_int x)) else Err overflow
  end.

Lemma as_int_trunc f lo hi x :
  sf_finite (dec f x) → lo ≤ sf_int (dec f x) ≤ hi →
  as_int lo hi (sf_trunc (dec f x)) = sf_int (dec f x).
Proof.
  intros Hf Hr. destruct (sf_trunc_spec f (dec f x) (dec_ok f x) (dec_small f x) Hf) as (_ & _ & Tf & _ & Tz).
  rewrite <- sf_Z_int in *. unfold as_int.
  destruct (sf_trunc (dec f x)) as [| | |] eqn:E; try done; rewrite Tz; lia.
Qed.

Lemma trunc_signed f w x :
  0 < w → lit_ok f (- 2 ^ (w - 1)) → lit_ok f (2 ^ (w - 1)) →
  trunc_checked f (- 2 ^ (w - 1)) (2 ^ (w - 1)) (as_i w) x = int_part w true (dec f x).
Proof.
  intros Hw Hlo Hhi. rewrite trunc_checked_spec by done. unfold int_part.
  destruct (dec f x) eqn:Hd; try done; rewrite <- Hd;
    destruct (Z.leb_spec (- 2 ^ (w - 1)) (sf_int (dec f x))), (Z.ltb_spec (sf_int (dec f x)) (2 ^ (w - 1)));
    cbn [andb]; try done; f_equal; unfold as_i;
    (rewrite as_int_trunc; [|by rewrite Hd|lia]); symmetry; by apply sgn_id.
Qed.
Lemma trunc_unsigned f w x :
  0 < w → lit_ok f 0 → lit_ok f (2 ^ w) →
  trunc_checked f 0 (2 ^ w) (λ t, sgn w (as_u w t)) x = int_part w false (dec f x).
Proof.
  intros Hw Hlo Hhi. rewrite trunc_checked_spec by done. unfold int_part.
  destruct (dec f x) eqn:Hd; try done; rewrite <- Hd;
    destruct (Z.leb_spec 0 (sf_int (dec f x))), (Z.ltb_spec (sf_int (dec f x)) (2 ^ w));
    cbn [andb]; try done; f_equal; f_equal; unfold as_u;
    (rewrite as_int_trunc; [done|by rewrite Hd|lia]).
Qed.

(** Each of the eight trapping truncations yields exactly the integer part of
    the float when it fits the target type, [IntegerOverflow] when it does not (or
    the float is infinite) and [BadConversionToInteger] on NaN. *)
Theorem trunc_exact x :
  i32_trunc_f32_s x = int_part 32 true (dec F32 x) ∧ i32_trunc_f32_u x = int_part 32 false (dec F32 x) ∧
  i32_trunc_f64_s x = int_part 32 true (dec F64 x) ∧ i32_trunc_f64_u x = int_part 32 false (dec F64 x) ∧
  i64_trunc_f32_s x = int_part 64 true (dec F32 x) ∧ i64_trunc_f32_u x = int_part 64 false (dec F32 x) ∧
  i64_trunc_f64_s x = int_part 64 true (dec F64 x) ∧ i64_trunc_f64_u x = int_part 64 false (dec F64 x).
Proof.
  split_and!; first [apply (trunc_signed _ 32)|apply (trunc_signed _ 64)|apply (trunc_unsigned _ 32)
    |apply (trunc_unsigned _ 64)]; solve [done|solve_lit].
Qed.

(** ** Bit patterns and their fields *)
Lemma join_split f bits :
  u_ok (f_bits f) bits → bits = join_bits f (sign_of f bits) (exp_of f bits) (mant_of f bits).
Proof.
  intros [Hl Hh]. destruct (fmt_facts f) as (_ & Hb & Hm & He).
  unfold join_bits, sign_of, exp_of, mant_of.
  assert (2 ^ f_bits f = 2 * (2 ^ exp_width f * 2 ^ mant_width f)) as H2.
  { rewrite Hb, !Z.pow_add_r by lia. lia. }
  assert (2 ^ (f_bits f - 1) = 2 ^ exp_width f * 2 ^ mant_width f) as H1.
  { rewrite <- Z.pow_add_r by lia. f_equal. lia. }
  pose proof (Z.pow_pos_nonneg 2 (mant_width f) ltac:(lia) ltac:(lia)) as HM.
  pose proof (Z.pow_pos_nonneg 2 (exp_width f) ltac:(lia) ltac:(lia)) as HE.
  assert (Z.testbit bits (f_bits f - 1) = (2 ^ (f_bits f - 1) <=? bits)) as ->.
  { rewrite Z.testbit_odd, Z.shiftr_div_pow2 by lia.
    destruct (Z.leb_spec (2 ^ (f_bits f - 1)) bits).
    - replace (bits / 2 ^ (f_bits f - 1)) with 1; [done|].
      apply Z.div_unique with (bits - 2 ^ (f_bits f - 1)); gen_pow; lia.
    - by rewrite Z.div_small by lia. }
  rewrite H1. rewrite H2 in Hh. clear H1 H2.
  set (E := 2 ^ exp_width f) in *. set (M := 2 ^ mant_width f) in *. clearbody E M.
  pose proof (Z.div_mod bits M ltac:(lia)) as Hd1.
  pose proof (Z.mod_pos_bound bits M HM).
  pose proof (Z.div_mod (bits / M) E ltac:(lia)) as Hd2.
  pose proof (Z.mod_pos_bound (bits / M) E HE).
  assert (bits / M / E = if E * M <=? bits then 1 else 0) as Hq.
  { rewrite Z.div_div, (Z.mul_comm M) by lia. destruct (Z.leb_spec (E * M) bits).
    - symmetry. apply Z.div_unique with (bits - E * M); lia.
    - apply Z.div_small. lia. }
  rewrite Hq in Hd2. destruct (E * M <=? bits); nia.
Qed.

Lemma enc_dec f nan bits :
  u_ok (f_bits f) bits → is_nan f bits = false → enc f nan (dec f bits) = bits.
Proof.
  intros Hb Hn. rewrite (join_split f bits Hb) at 2. unfold is_nan, dec in *.
  destruct (field_bounds f bits) as [Hm He].
  destruct (Z.eqb_spec (exp_of f bits) 0) as [->|H0].
  - destruct (mant_of f bits) as [|p|p] eqn:Hp; [done| |lia]. cbn [mk_finite enc].
    by rewrite (proj2 (Z.ltb_lt _ _)) by lia.
  - destruct (Z.eqb_spec (exp_of f bits) (2 ^ exp_width f - 1)) as [->|H1].
    + destruct (Z.eqb_spec (mant_of f bits) 0) as [->|]; done.
    + destruct (mant_of f bits + 2 ^ mant_width f) as [|p|p] eqn:Hp; [lia| |lia]. cbn [mk_finite enc].
      rewrite (proj2 (Z.ltb_ge _ _)) by lia. rewrite <- Hp.
      f_equal; lia.
Qed.

Lemma dec_inj f a b :
  u_ok (f_bits f) a → u_ok (f_bits f) b → is_nan f a = false → dec f a = dec f b → a = b.
Proof.
  intros Ha Hb Hn Hd. rewrite <- (enc_dec f 0 a Ha Hn), Hd. apply enc_dec; [done|].
  unfold is_nan in *. by rewrite <- Hd.
Qed.

Lemma scaled_inj f m1 e1 m2 e2 :
  canon_ok f m1 e1 → canon_ok f m2 e2 → scaled f (Zpos m1) e1 = scaled f (Zpos m2) e2 → m1 = m2 ∧ e1 = e2.
Proof.
  intros H1 H2 Heq. pose proof (mag_compare f m1 e1 m2 e2 H1 H2) as Hc.
  rewrite Heq, Z.compare_refl in Hc. destruct (Z.compare_spec e1 e2) as [->| |]; [|done..].
  apply Pos.compare_eq in Hc. by subst.
Qed.

(** Floats that compare equal are the same pattern, or both zeros. *)
Lemma rank_eq f a b :
  is_nan f a = false → is_nan f b = false → sf_rank f (dec f a) = sf_rank f (dec f b) →
  dec f a = dec f b ∨ sf_rank f (dec f a) = 0 ∧ ∃ s1 s2, dec f a = S754_zero s1 ∧ dec f b = S754_zero s2.
Proof.
  intros Ha Hb Hr. unfold is_nan in Ha, Hb.
  pose proof (dec_ok f a) as Oa. pose proof (dec_ok f b) as Ob.
  pose proof (dec_small f a) as Sa. pose proof (dec_small f b) as Sb. pose proof (inf_pos f).
  destruct (dec f a) as [s1|s1| |s1 m1 e1], (dec f b) as [s2|s2| |s2 m2 e2]; try done; cbn in *;
    repeat match goal with
    | O : canon_ok f ?m ?e |- _ =>
        lazymatch goal with
        | _ : 0 < scaled f (Zpos m) e |- _ => fail
        | _ => pose proof (scaled_pos f m e (co_exp _ _ _ O));
               pose proof (scaled_below_inf f m e O ltac:(assumption))
        end
    end.
  all: try (right; by eauto).
  all: try (exfalso; destruct s1; lia).
  all: try (exfalso; destruct s2; lia).
  all: destruct s1, s2; try (exfalso; lia); left; try done.
  all: destruct (scaled_inj f m1 e1 m2 e2) as [-> ->]; (done || lia).
Qed.

(** ** Minimum and maximum *)
Lemma compare_dec f a b :
  is_nan f a = false → is_nan f b = false →
  f_eq f a b = (sf_rank f (dec f a) =? sf_rank f (dec f b)) ∧
  f_lt f a b = (sf_rank f (dec f a) <? sf_rank f (dec f b)) ∧
  f_le f a b = (sf_rank f (dec f a) <=? sf_rank f (dec f b)).
Proof.
  intros Ha Hb. unfold is_nan in *. unfold f_eq, f_lt, f_le, SFeqb, SFltb, SFleb.
  rewrite (compare_rank f) by (first [apply dec_ok|apply dec_small|by destruct (dec f a)|by destruct (dec f b)]).
  unfold Z.eqb, Z.ltb, Z.leb.
  split_and!; [|by destruct (sf_rank f (dec f a) ?= sf_rank f (dec f b))..].
  destruct (Z.compare_spec (sf_rank f (dec f a)) (sf_rank f (dec f b))) as [Heq|Hlt|Hlt]; symmetry.
  - rewrite Heq. apply (Z.eqb_refl (sf_rank f (dec f b))).
  - apply (proj2 (Z.eqb_neq (sf_rank f (dec f a)) (sf_rank f (dec f b)))). lia.
  - apply (proj2 (Z.eqb_neq (sf_rank f (dec f a)) (sf_rank f (dec f b)))). lia.
Qed.

Lemma dec_zero_bits f a s :
  u_ok (f_bits f) a → dec f a = S754_zero s → a = if s then 2 ^ (f_bits f - 1) else 0.
Proof.
  intros Ha Hd. rewrite <- (enc_dec f 0 a Ha) by (unfold is_nan; by rewrite Hd).
  rewrite Hd. cbn. unfold join_bits. destruct s; lia.
Qed.

(** Two floats of equal value: the same pattern, or the two zeros. *)
Lemma equal_patterns f a b :
  u_ok (f_bits f) a → u_ok (f_bits f) b → is_nan f a = false → is_nan f b = false →
  sf_rank f (dec f a) = sf_rank f (dec f b) →
  a = b ∨ ∃ s : bool, a = (if s then 2 ^ (f_bits f - 1) else 0) ∧ b = if s then 0 else 2 ^ (f_bits f - 1).
Proof.
  intros Ha Hb Na Nb Hr. destruct (rank_eq f a b Na Nb Hr) as [Hd|[_ (s1 & s2 & H1 & H2)]].
  - left. by eapply dec_inj.
  - apply (dec_zero_bits f a s1 Ha) in H1. apply (dec_zero_bits f b s2 Hb) in H2.
    destruct s1, s2; subst; [by left|right; by exists true|right; by exists false|by left].
Qed.

Definition neg_zero (f : Fmt) : Z := 2 ^ (f_bits f - 1).

(** [min] and [max] return the canonical NaN when an operand is NaN, and
    otherwise one of the operands' patterns, at most (at least) both; a negative
    zero wins a minimum of zeros, a positive zero a maximum. *)
Theorem min_max_spec f a b :
  u_ok (f_bits f) a → u_ok (f_bits f) b →
  (is_nan f a = true ∨ is_nan f b = true → f_min f a b = f_canon f ∧ f_max f a b = f_canon f) ∧
  (is_nan f a = false → is_nan f b = false →
   (f_min f a b = a ∨ f_min f a b = b) ∧ f_le f (f_min f a b) a = true ∧ f_le f (f_min f a b) b = true ∧
   (f_max f a b = a ∨ f_max f a b = b) ∧ f_ge f (f_max f a b) a = true ∧ f_ge f (f_max f a b) b = true ∧
   (f_eq f a b = true → a ≠ b → f_min f a b = neg_zero f ∧ f_max f a b = 0)).
Proof.
  intros Ha Hb. unfold f_min, f_max. split.
  { intros [-> | ->]; [done|]. by rewrite orb_true_r. }
  intros Na Nb. rewrite Na, Nb. cbn [orb].
  assert (∀ c, is_nan f c = false → f_le f c c = true) as Hrefl.
  { intros c Hc. destruct (compare_dec f c c Hc Hc) as (_ & _ & ->). apply Z.leb_refl. }
  destruct (compare_dec f a b Na Nb) as (Heq & Hlt & Hle).
  destruct (compare_dec f b a Nb Na) as (_ & Hlt' & Hle').
  unfold f_ge, f_gt. rewrite Heq, Hlt, Hlt'.
  destruct (Z.eqb_spec (sf_rank f (dec f a)) (sf_rank f (dec f b))) as [He|Hne].
  - destruct (equal_patterns f a b Ha Hb Na Nb He) as [->|(s & Hs1 & Hs2)].
    + rewrite Z.lor_diag, Z.land_diag. split_and!; auto. by intros _ ?.
    + assert (Z.lor a b = neg_zero f ∧ Z.land a b = 0) as [-> ->] by (subst; by destruct f, s).
      assert (f_le f a b = true ∧ f_le f b a = true) as [? ?].
      { rewrite Hle, Hle', He. split; apply Z.leb_refl. }
      unfold neg_zero. destruct s; subst; split_and!; auto.
  - destruct (Z.ltb_spec (sf_rank f (dec f a)) (sf_rank f (dec f b))),
      (Z.ltb_spec (sf_rank f (dec f b)) (sf_rank f (dec f a))); try lia;
      split_and!; auto; first [by rewrite Hle, (proj2 (Z.leb_le _ _)) by lia
                              |by rewrite Hle', (proj2 (Z.leb_le _ _)) by lia|done].
Qed.

(** ** NaN canonicalisation *)
Section nan.
Context `{FloatHost}.

(** The operations whose result the interpreter canonicalises, with their
    operands. *)
Inductive arith_op (f : Fmt) : list Z → Z → Prop :=
  | AddOp a b : arith_op f [a; b] (f_add f a b)
  | SubOp a b : arith_op f [a; b] (f_sub f a b)
  | MulOp a b : arith_op f [a; b] (f_mul f a b)
  | DivOp a b : arith_op f [a; b] (f_div f a b)
  | SqrtOp a : arith_op f [a] (f_sqrt f a)
  | CeilOp a : arith_op f [a] (f_ceil f a)
  | FloorOp a : arith_op f [a] (f_floor f a)
  | TruncOp a : arith_op f [a] (f_trunc f a)
  | NearestOp a : arith_op f [a] (f_nearest f a).

Lemma is_nan_fields f bits :
  is_nan f bits = (exp_of f bits =? 2 ^ exp_width f - 1) && negb (mant_of f bits =? 0).
Proof.
  unfold is_nan, dec. destruct (Z.eqb_spec (exp_of f bits) 0) as [->|].
  - assert ((0 =? 2 ^ exp_width f - 1) = false) as -> by (by destruct f). by destruct (mant_of f bits).
  - destruct (exp_of f bits =? 2 ^ exp_width f - 1).
    + by destruct (mant_of f bits =? 0).
    + by destruct (mant_of f bits + 2 ^ mant_width f).
Qed.

Lemma quiet_facts f : f_quiet f = 2 ^ (mant_width f - 1).
Proof. by destruct f. Qed.

Lemma quieten f r : is_nan f r = true →
  is_nan f (Z.lor r (f_quiet f)) = true ∧ Z.testbit (Z.lor r (f_quiet f)) (mant_width f - 1) = true.
Proof.
  destruct (fmt_facts f) as (_ & _ & Hm & _).
  assert (∀ r, Z.testbit (Z.lor r (f_quiet f)) (mant_width f - 1) = true) as Hq.
  { intros r'. rewrite Z.lor_spec, quiet_facts, Z.pow2_bits_true by lia. apply orb_true_r. }
  rewrite !is_nan_fields. intros [He _]%andb_true_iff. split; [|apply Hq].
  assert (exp_of f (Z.lor r (f_quiet f)) = exp_of f r) as ->.
  { unfold exp_of. f_equal. rewrite <- !Z.shiftr_div_pow2, Z.shiftr_lor by lia.
    assert (Z.shiftr (f_quiet f) (mant_width f) = 0) as -> by (by destruct f). apply Z.lor_0_r. }
  rewrite He. cbn [andb]. destruct (Z.eqb_spec (mant_of f (Z.lor r (f_quiet f))) 0) as [H0|]; [|done].
  specialize (Hq r). unfold mant_of in H0.
  rewrite <- (Z.mod_pow2_bits_low _ (mant_width f)), H0, Z.bits_0 in Hq by lia. done.
Qed.

(** A NaN operand makes the result the host's NaN. *)
Lemma arith_op_nan f ins r : arith_op f ins r → existsb (is_nan f) ins = true → is_nan f r = true.
Proof.
  intros Hop Hn. pose proof (nan_choice_nan f ins) as [_ Hc]. unfold is_nan at 1 in Hn.
  destruct Hop; cbn in Hn; rewrite ?orb_false_r in Hn;
    unfold f_add, f_sub, f_mul, f_div, f_sqrt, f_ceil, f_floor, f_trunc, f_nearest, f_op2, f_op1;
    destruct (dec f a); try done; try (by destruct (dec f b)).
Qed.

(** Whatever NaN the host arithmetic yields, the interpreter's float
    arithmetic and rounding return a quiet NaN when an operand is NaN, and the
    canonical NaN or the operation's non-NaN result otherwise. *)
Theorem arith_nan f ins r :
  arith_op f ins r →
  let had_nan := existsb (is_nan f) ins in
  let out := canon f r had_nan in
  (had_nan = true → is_nan f out = true ∧ Z.testbit out (mant_width f - 1) = true) ∧
  (had_nan = false → out = f_canon f ∨ out = r ∧ is_nan f r = false).
Proof.
  intros Hop had_nan out. unfold out, canon. split.
  - intros Hn. pose proof (arith_op_nan f ins r Hop Hn) as Hr. rewrite Hr. cbn [negb]. rewrite Hn.
    by apply quieten.
  - intros ->. destruct (is_nan f r); cbn; auto.
Qed.
End nan.

(** ** Witnesses *)
Definition canonical_host : FloatHost.
Proof. exists (λ f _, f_canon f). by intros []. Defined.

Lemma min_max_spec_witness : f_min F32 0 0x80000000 = 0x80000000 ∧ f_max F32 0 0x80000000 = 0.
Proof.
  destruct (min_max_spec F32 0 0x80000000) as [_ H]; [split; vm_compute; congruence..|].
  apply H; vm_compute; congruence.
Defined.

Lemma arith_nan_witness :
  canon F32 (@f_add canonical_host F32 0x7f800000 0xff800000) false = 0x7fc00000.
Proof.
  destruct (@arith_nan canonical_host F32 [0x7f800000; 0xff800000] _ (AddOp F32 0x7f800000 0xff800000)) as [_ H].
  destruct (H eq_refl) as [E|[_ E]]; [exact E|exfalso; vm_compute in E; congruence].
Defined.
