(* ===== verification/Numeric.v ===== *)
(** * Numeric: integer and float instructions
    (src/src/exec/arith.rs, src/src/exec/numeric.rs, the integer conversions of
    src/src/exec/convert.rs)

    [exec_numeric] is the instruction table over the operand-stack helpers.  The
    integer instructions are proved equal to the WebAssembly definitions on
    unsigned [w]-bit numbers, traps included, and every instruction of the table is
    proved to keep the execution well-formed and never to panic. *)
From S2P Require Import Prelude Types Layout Codec Op Entity Stack Float.
Open Scope Z_scope.

(** ** The language's integer operations (widths written out) *)
Definition wadd (w a b : Z) : Z := sgn w (a + b).
Definition wsub (w a b : Z) : Z := sgn w (a - b).
Definition wmul (w a b : Z) : Z := sgn w (a * b).
(** [a / b] and [a % b] panic on zero, and on overflow when signed. *)
Definition div_s (w a b : Z) : res Z :=
  if b =? 0 then Panic "attempt to divide by zero"
  else if (a =? - 2 ^ (w - 1)) && (b =? -1) then Panic "attempt to divide with overflow"
  else Ok (Z.quot a b).
Definition div_u (a b : Z) : res Z := if b =? 0 then Panic "attempt to divide by zero" else Ok (a / b).
Definition rem_u (a b : Z) : res Z :=
  if b =? 0 then Panic "attempt to calculate the remainder with a divisor of zero" else Ok (a mod b).
Definition wrapping_rem (w a b : Z) : res Z :=
  if b =? 0 then Panic "attempt to calculate the remainder with a divisor of zero"
  else if b =? -1 then Ok 0 else Ok (Z.rem a b).
Definition wrapping_shl (w a n : Z) : Z := sgn w (Z.shiftl a (n mod w)).
(** Arithmetic on a signed [a], logical on an unsigned one. *)
Definition wrapping_shr (w a n : Z) : Z := Z.shiftr a (n mod w).
Definition rotate_left (w a n : Z) : Z := wrap w (Z.lor (Z.shiftl a n) (Z.shiftr a (w - n))).
Definition rotate_right (w a n : Z) : Z := wrap w (Z.lor (Z.shiftr a n) (Z.shiftl a (w - n))).
Definition leading_zeros (w a : Z) : Z := if a =? 0 then w else w - 1 - Z.log2 a.
Fixpoint trailing_zeros_go (n : nat) (a : Z) : Z :=
  match n with
  | O => 0
  | S n' => if Z.odd a then 0 else 1 + trailing_zeros_go n' (Z.div2 a)
  end.
Definition trailing_zeros (w a : Z) : Z := trailing_zeros_go (Z.to_nat w) a.
Fixpoint count_ones_go (n : nat) (a : Z) : Z :=
  match n with
  | O => 0
  | S n' => (if Z.odd a then 1 else 0) + count_ones_go n' (Z.div2 a)
  end.
Definition count_ones (w a : Z) : Z := count_ones_go (Z.to_nat w) a.
(** [i32::from(bool)] *)
Definition b2i (b : bool) : Z := if b then 1 else 0.

(** ** arith.rs *)
Definition nz (b : Z) : res () := if b =? 0 then Err (ETrap IntegerDivisionByZero) else Ok tt.
Definition div_s_checked (w a b : Z) : res Z :=
  if b =? 0 then Err (ETrap IntegerDivisionByZero)
  else if (a =? - 2 ^ (w - 1)) && (b =? -1) then Err (ETrap IntegerOverflow)
  else div_s w a b.
Definition div_s_i32 := div_s_checked 32.
Definition div_s_i64 := div_s_checked 64.

Section helpers.
Context `{Features}.

Definition i32_binop (f : Z → Z → Z) := binop_cells (λ a b, from_i32 (f (cell_i32 a) (cell_i32 b))).
Definition i32_unop (f : Z → Z) := unop_cell (λ a, from_i32 (f (cell_i32 a))).
Definition i32_relop (f : Z → Z → bool) := binop_cells (λ a b, from_i32 (b2i (f (cell_i32 a) (cell_i32 b)))).
Definition u32_binop (f : Z → Z → Z) :=
  binop_cells (λ a b, from_i32 (sgn 32 (f (wrap 32 (cell_i32 a)) (wrap 32 (cell_i32 b))))).
Definition u32_relop (f : Z → Z → bool) :=
  binop_cells (λ a b, from_i32 (b2i (f (wrap 32 (cell_i32 a)) (wrap 32 (cell_i32 b))))).
Definition i32_try_binop (f : Z → Z → res Z) :=
  binop_cells_try (λ a b, r ← f (cell_i32 a) (cell_i32 b); Ok (from_i32 r)).
Definition u32_try_binop (f : Z → Z → res Z) :=
  binop_cells_try (λ a b, r ← f (wrap 32 (cell_i32 a)) (wrap 32 (cell_i32 b)); Ok (from_i32 (sgn 32 r))).
Definition i64_binop (f : Z → Z → Z) := binop_cells (λ a b, from_i64 (f (cell_i64 a) (cell_i64 b))).
Definition i64_unop (f : Z → Z) := unop_cell (λ a, from_i64 (f (cell_i64 a))).
Definition i64_relop (f : Z → Z → bool) := binop_cells (λ a b, from_i32 (b2i (f (cell_i64 a) (cell_i64 b)))).
Definition u64_binop (f : Z → Z → Z) :=
  binop_cells (λ a b, from_i64 (sgn 64 (f (wrap 64 (cell_i64 a)) (wrap 64 (cell_i64 b))))).
Definition u64_relop (f : Z → Z → bool) :=
  binop_cells (λ a b, from_i32 (b2i (f (wrap 64 (cell_i64 a)) (wrap 64 (cell_i64 b))))).
Definition i64_try_binop (f : Z → Z → res Z) :=
  binop_cells_try (λ a b, r ← f (cell_i64 a) (cell_i64 b); Ok (from_i64 r)).
Definition u64_try_binop (f : Z → Z → res Z) :=
  binop_cells_try (λ a b, r ← f (wrap 64 (cell_i64 a)) (wrap 64 (cell_i64 b)); Ok (from_i64 (sgn 64 r))).

(** Floats as bits. *)
Definition f32_arith (f : Z → Z → Z) :=
  binop_cells (λ ac bc, let a := cell_f32 ac in let b := cell_f32 bc in
    from_f32 (canon_f32 (f a b) (is_nan F32 a || is_nan F32 b))).
Definition f32_binop (f : Z → Z → Z) := binop_cells (λ a b, from_f32 (f (cell_f32 a) (cell_f32 b))).
Definition f32_unop (f : Z → Z) := unop_cell (λ a, from_f32 (f (cell_f32 a))).
Definition f32_unop_canon (f : Z → Z) :=
  unop_cell (λ ac, let a := cell_f32 ac in from_f32 (canon_f32 (f a) (is_nan F32 a))).
Definition f32_relop (f : Z → Z → bool) := binop_cells (λ a b, from_i32 (b2i (f (cell_f32 a) (cell_f32 b)))).
Definition f64_arith (f : Z → Z → Z) :=
  binop_cells (λ ac bc, let a := cell_f64 ac in let b := cell_f64 bc in
    from_f64 (canon_f64 (f a b) (is_nan F64 a || is_nan F64 b))).
Definition f64_binop (f : Z → Z → Z) := binop_cells (λ a b, from_f64 (f (cell_f64 a) (cell_f64 b))).
Definition f64_unop (f : Z → Z) := unop_cell (λ a, from_f64 (f (cell_f64 a))).
Definition f64_unop_canon (f : Z → Z) :=
  unop_cell (λ ac, let a := cell_f64 ac in from_f64 (canon_f64 (f a) (is_nan F64 a))).
Definition f64_relop (f : Z → Z → bool) := binop_cells (λ a b, from_i32 (b2i (f (cell_f64 a) (cell_f64 b)))).

(** ** numeric.rs: conversion plumbing *)
Definition trunc_to_i32 (f : Z → res Z) : SM Execution () := x ← pop_f32; r ← lift (f x); modify (push_i32 r).
Definition trunc64_to_i32 (f : Z → res Z) : SM Execution () := x ← pop_f64; r ← lift (f x); modify (push_i32 r).
Definition trunc_to_i64 (f : Z → res Z) : SM Execution () := x ← pop_f32; r ← lift (f x); modify (push_i64 r).
Definition trunc64_to_i64 (f : Z → res Z) : SM Execution () := x ← pop_f64; r ← lift (f x); modify (push_i64 r).
Definition map_f32_i32 (f : Z → Z) : SM Execution () := x ← pop_f32; modify (push_i32 (f x)).
Definition map_f64_i32 (f : Z → Z) : SM Execution () := x ← pop_f64; modify (push_i32 (f x)).
Definition map_f32_i64 (f : Z → Z) : SM Execution () := x ← pop_f32; modify (push_i64 (f x)).
Definition map_f64_i64 (f : Z → Z) : SM Execution () := x ← pop_f64; modify (push_i64 (f x)).
Definition map_i32_f32 (f : Z → Z) : SM Execution () := x ← pop_i32; modify (push_f32 (f x)).
Definition map_i64_f32 (f : Z → Z) : SM Execution () := x ← pop_i64; modify (push_f32 (f x)).
Definition map_f64_f32 (f : Z → Z) : SM Execution () := x ← pop_f64; modify (push_f32 (f x)).
Definition map_i32_f64 (f : Z → Z) : SM Execution () := x ← pop_i32; modify (push_f64 (f x)).
Definition map_i64_f64 (f : Z → Z) : SM Execution () := x ← pop_i64; modify (push_f64 (f x)).
Definition map_f32_f64 (f : Z → Z) : SM Execution () := x ← pop_f32; modify (push_f64 (f x)).

Definition i32_wrap_i64 (x : Z) : Z := sgn 32 x.
Definition i64_extend_i32_s (x : Z) : Z := x.
Definition i64_extend_i32_u (x : Z) : Z := wrap 32 x.

(** The instruction table; [None] is the fall-through to the GC and cast
    instructions. *)
Definition exec_numeric `{FloatHost} (op : Op) : option (SM Execution ()) :=
  match op with
  | OpI32Eqz => Some (i32_unop (λ a, b2i (a =? 0)))
  | OpI32Eq => Some (i32_relop (λ a b, a =? b))
  | OpI32Ne => Some (i32_relop (λ a b, negb (a =? b)))
  | OpI32LtS => Some (i32_relop (λ a b, a <? b))
  | OpI32LtU => Some (u32_relop (λ a b, a <? b))
  | OpI32GtS => Some (i32_relop (λ a b, b <? a))
  | OpI32GtU => Some (u32_relop (λ a b, b <? a))
  | OpI32LeS => Some (i32_relop (λ a b, a <=? b))
  | OpI32LeU => Some (u32_relop (λ a b, a <=? b))
  | OpI32GeS => Some (i32_relop (λ a b, b <=? a))
  | OpI32GeU => Some (u32_relop (λ a b, b <=? a))
  | OpI32Clz => Some (i32_unop (λ a, leading_zeros 32 (wrap 32 a)))
  | OpI32Ctz => Some (i32_unop (λ a, trailing_zeros 32 (wrap 32 a)))
  | OpI32Popcnt => Some (i32_unop (λ a, count_ones 32 (wrap 32 a)))
  | OpI32Add => Some (i32_binop (wadd 32))
  | OpI32Sub => Some (i32_binop (wsub 32))
  | OpI32Mul => Some (i32_binop (wmul 32))
  | OpI32DivS => Some (i32_try_binop div_s_i32)
  | OpI32DivU => Some (u32_try_binop (λ a b, nz b ≫= λ _, div_u a b))
  | OpI32RemS => Some (i32_try_binop (λ a b, nz b ≫= λ _, wrapping_rem 32 a b))
  | OpI32RemU => Some (u32_try_binop (λ a b, nz b ≫= λ _, rem_u a b))
  | OpI32And => Some (i32_binop Z.land)
  | OpI32Or => Some (i32_binop Z.lor)
  | OpI32Xor => Some (i32_binop Z.lxor)
  | OpI32Shl => Some (i32_binop (λ a b, wrapping_shl 32 a (wrap 32 b)))
  | OpI32ShrS => Some (i32_binop (λ a b, wrapping_shr 32 a (wrap 32 b)))
  | OpI32ShrU => Some (u32_binop (wrapping_shr 32))
  | OpI32Rotl => Some (u32_binop (λ a b, rotate_left 32 a (b mod 32)))
  | OpI32Rotr => Some (u32_binop (λ a b, rotate_right 32 a (b mod 32)))
  | OpI64Eqz => Some (a ← pop_i64; modify (push_i32 (b2i (a =? 0))))
  | OpI64Eq => Some (i64_relop (λ a b, a =? b))
  | OpI64Ne => Some (i64_relop (λ a b, negb (a =? b)))
  | OpI64LtS => Some (i64_relop (λ a b, a <? b))
  | OpI64LtU => Some (u64_relop (λ a b, a <? b))
  | OpI64GtS => Some (i64_relop (λ a b, b <? a))
  | OpI64GtU => Some (u64_relop (λ a b, b <? a))
  | OpI64LeS => Some (i64_relop (λ a b, a <=? b))
  | OpI64LeU => Some (u64_relop (λ a b, a <=? b))
  | OpI64GeS => Some (i64_relop (λ a b, b <=? a))
  | OpI64GeU => Some (u64_relop (λ a b, b <=? a))
  | OpI64Clz => Some (i64_unop (λ a, leading_zeros 64 (wrap 64 a)))
  | OpI64Ctz => Some (i64_unop (λ a, trailing_zeros 64 (wrap 64 a)))
  | OpI64Popcnt => Some (i64_unop (λ a, count_ones 64 (wrap 64 a)))
  | OpI64Add => Some (i64_binop (wadd 64))
  | OpI64Sub => Some (i64_binop (wsub 64))
  | OpI64Mul => Some (i64_binop (wmul 64))
  | OpI64DivS => Some (i64_try_binop div_s_i64)
  | OpI64DivU => Some (u64_try_binop (λ a b, nz b ≫= λ _, div_u a b))
  | OpI64RemS => Some (i64_try_binop (λ a b, nz b ≫= λ _, wrapping_rem 64 a b))
  | OpI64RemU => Some (u64_try_binop (λ a b, nz b ≫= λ _, rem_u a b))
  | OpI64And => Some (i64_binop Z.land)
  | OpI64Or => Some (i64_binop Z.lor)
  | OpI64Xor => Some (i64_binop Z.lxor)
  | OpI64Shl => Some (i64_binop (λ a b, wrapping_shl 64 a (wrap 32 b)))
  | OpI64ShrS => Some (i64_binop (λ a b, wrapping_shr 64 a (wrap 32 b)))
  | OpI64ShrU => Some (u64_binop (λ a b, wrapping_shr 64 a (wrap 32 b)))
  | OpI64Rotl => Some (u64_binop (λ a b, rotate_left 64 a (wrap 32 (b mod 64))))
  | OpI64Rotr => Some (u64_binop (λ a b, rotate_right 64 a (wrap 32 (b mod 64))))
  | OpF32Eq => Some (f32_relop (f_eq F32))
  | OpF32Ne => Some (f32_relop (f_ne F32))
  | OpF32Lt => Some (f32_relop (f_lt F32))
  | OpF32Gt => Some (f32_relop (f_gt F32))
  | OpF32Le => Some (f32_relop (f_le F32))
  | OpF32Ge => Some (f32_relop (f_ge F32))
  | OpF32Abs => Some (f32_unop (f_abs F32))
  | OpF32Neg => Some (f32_unop (f_neg F32))
  | OpF32Ceil => Some (f32_unop_canon (f_ceil F32))
  | OpF32Floor => Some (f32_unop_canon (f_floor F32))
  | OpF32Trunc => Some (f32_unop_canon (f_trunc F32))
  | OpF32Nearest => Some (f32_unop_canon (f_nearest F32))
  | OpF32Sqrt => Some (f32_unop_canon (f_sqrt F32))
  | OpF32Add => Some (f32_arith (f_add F32))
  | OpF32Sub => Some (f32_arith (f_sub F32))
  | OpF32Mul => Some (f32_arith (f_mul F32))
  | OpF32Div => Some (f32_arith (f_div F32))
  | OpF32Min => Some (f32_binop f32_min)
  | OpF32Max => Some (f32_binop f32_max)
  | OpF32Copysign => Some (f32_binop (f_copysign F32))
  | OpF64Eq => Some (f64_relop (f_eq F64))
  | OpF64Ne => Some (f64_relop (f_ne F64))
  | OpF64Lt => Some (f64_relop (f_lt F64))
  | OpF64Gt => Some (f64_relop (f_gt F64))
  | OpF64Le => Some (f64_relop (f_le F64))
  | OpF64Ge => Some (f64_relop (f_ge F64))
  | OpF64Abs => Some (f64_unop (f_abs F64))
  | OpF64Neg => Some (f64_unop (f_neg F64))
  | OpF64Ceil => Some (f64_unop_canon (f_ceil F64))
  | OpF64Floor => Some (f64_unop_canon (f_floor F64))
  | OpF64Trunc => Some (f64_unop_canon (f_trunc F64))
  | OpF64Nearest => Some (f64_unop_canon (f_nearest F64))
  | OpF64Sqrt => Some (f64_unop_canon (f_sqrt F64))
  | OpF64Add => Some (f64_arith (f_add F64))
  | OpF64Sub => Some (f64_arith (f_sub F64))
  | OpF64Mul => Some (f64_arith (f_mul F64))
  | OpF64Div => Some (f64_arith (f_div F64))
  | OpF64Min => Some (f64_binop f64_min)
  | OpF64Max => Some (f64_binop f64_max)
  | OpF64Copysign => Some (f64_binop (f_copysign F64))
  | OpI32WrapI64 => Some (x ← pop_i64; modify (push_i32 (i32_wrap_i64 x)))
  | OpI64ExtendI32S => Some (x ← pop_i32; modify (push_i64 (i64_extend_i32_s x)))
  | OpI64ExtendI32U => Some (x ← pop_i32; modify (push_i64 (i64_extend_i32_u x)))
  | OpI32TruncF32S => Some (trunc_to_i32 i32_trunc_f32_s)
  | OpI32TruncF32U => Some (trunc_to_i32 i32_trunc_f32_u)
  | OpI32TruncF64S => Some (trunc64_to_i32 i32_trunc_f64_s)
  | OpI32TruncF64U => Some (trunc64_to_i32 i32_trunc_f64_u)
  | OpI64TruncF32S => Some (trunc_to_i64 i64_trunc_f32_s)
  | OpI64TruncF32U => Some (trunc_to_i64 i64_trunc_f32_u)
  | OpI64TruncF64S => Some (trunc64_to_i64 i64_trunc_f64_s)
  | OpI64TruncF64U => Some (trunc64_to_i64 i64_trunc_f64_u)
  | OpI32TruncSatF32S => Some (map_f32_i32 i32_trunc_sat_f32_s)
  | OpI32TruncSatF32U => Some (map_f32_i32 i32_trunc_sat_f32_u)
  | OpI32TruncSatF64S => Some (map_f64_i32 i32_trunc_sat_f64_s)
  | OpI32TruncSatF64U => Some (map_f64_i32 i32_trunc_sat_f64_u)
  | OpI64TruncSatF32S => Some (map_f32_i64 i64_trunc_sat_f32_s)
  | OpI64TruncSatF32U => Some (map_f32_i64 i64_trunc_sat_f32_u)
  | OpI64TruncSatF64S => Some (map_f64_i64 i64_trunc_sat_f64_s)
  | OpI64TruncSatF64U => Some (map_f64_i64 i64_trunc_sat_f64_u)
  | OpF32ConvertI32S => Some (map_i32_f32 f32_convert_i32_s)
  | OpF32ConvertI32U => Some (map_i32_f32 f32_convert_i32_u)
  | OpF32ConvertI64S => Some (map_i64_f32 f32_convert_i64_s)
  | OpF32ConvertI64U => Some (map_i64_f32 f32_convert_i64_u)
  | OpF32DemoteF64 => Some (map_f64_f32 f32_demote_f64)
  | OpF64ConvertI32S => Some (map_i32_f64 f64_convert_i32_s)
  | OpF64ConvertI32U => Some (map_i32_f64 f64_convert_i32_u)
  | OpF64ConvertI64S => Some (map_i64_f64 f64_convert_i64_s)
  | OpF64ConvertI64U => Some (map_i64_f64 f64_convert_i64_u)
  | OpF64PromoteF32 => Some (map_f32_f64 f64_promote_f32)
  | OpI32ReinterpretF32 => Some (map_f32_i32 (λ x, sgn 32 x))
  | OpI64ReinterpretF64 => Some (map_f64_i64 (λ x, sgn 64 x))
  | OpF32ReinterpretI32 => Some (x ← pop_i32; modify (push_f32 (wrap 32 x)))
  | OpF64ReinterpretI64 => Some (x ← pop_i64; modify (push_f64 (wrap 64 x)))
  | OpI32Extend8S => Some (i32_unop (λ a, sgn 8 a))
  | OpI32Extend16S => Some (i32_unop (λ a, sgn 16 a))
  | OpI64Extend8S => Some (i64_unop (λ a, sgn 8 a))
  | OpI64Extend16S => Some (i64_unop (λ a, sgn 16 a))
  | OpI64Extend32S => Some (i64_unop (λ a, sgn 32 a))
  | _ => None
  end.
End helpers.

(** ** The WebAssembly definitions, on unsigned [w]-bit numbers *)
Inductive IBin := IAdd | ISub | IMul | IDivS | IDivU | IRemS | IRemU | IAnd | IOr | IXor
  | IShl | IShrS | IShrU | IRotl | IRotr.
Inductive IRel := REq | RNe | RLtS | RLtU | RGtS | RGtU | RLeS | RLeU | RGeS | RGeU.

Definition spec_bin (w : Z) (k : IBin) (a b : Z) : Z + Trap :=
  let m x := x mod 2 ^ w in
  let s := b mod w in
  match k with
  | IAdd => inl (m (a + b))
  | ISub => inl (m (a - b))
  | IMul => inl (m (a * b))
  | IDivS =>
      if b =? 0 then inr IntegerDivisionByZero
      else if Z.quot (sgn w a) (sgn w b) =? 2 ^ (w - 1) then inr IntegerOverflow
      else inl (m (Z.quot (sgn w a) (sgn w b)))
  | IDivU => if b =? 0 then inr IntegerDivisionByZero else inl (a / b)
  | IRemS => if b =? 0 then inr IntegerDivisionByZero else inl (m (Z.rem (sgn w a) (sgn w b)))
  | IRemU => if b =? 0 then inr IntegerDivisionByZero else inl (a mod b)
  | IAnd => inl (Z.land a b)
  | IOr => inl (Z.lor a b)
  | IXor => inl (Z.lxor a b)
  | IShl => inl (m (a * 2 ^ s))
  | IShrU => inl (a / 2 ^ s)
  | IShrS => inl (m (sgn w a / 2 ^ s))
  | IRotl => inl (m (a * 2 ^ s) + a / 2 ^ (w - s))
  | IRotr => inl (a / 2 ^ s + m (a * 2 ^ (w - s)))
  end.
Definition spec_rel (w : Z) (k : IRel) (a b : Z) : bool :=
  match k with
  | REq => a =? b
  | RNe => negb (a =? b)
  | RLtU => a <? b
  | RGtU => b <? a
  | RLeU => a <=? b
  | RGeU => b <=? a
  | RLtS => sgn w a <? sgn w b
  | RGtS => sgn w b <? sgn w a
  | RLeS => sgn w a <=? sgn w b
  | RGeS => sgn w b <=? sgn w a
  end.

Definition ibin_op (big : bool) (k : IBin) : Op :=
  match k, big with
  | IAdd, false => OpI32Add | ISub, false => OpI32Sub | IMul, false => OpI32Mul
  | IDivS, false => OpI32DivS | IDivU, false => OpI32DivU | IRemS, false => OpI32RemS
  | IRemU, false => OpI32RemU | IAnd, false => OpI32And | IOr, false => OpI32Or | IXor, false => OpI32Xor
  | IShl, false => OpI32Shl | IShrS, false => OpI32ShrS | IShrU, false => OpI32ShrU
  | IRotl, false => OpI32Rotl | IRotr, false => OpI32Rotr
  | IAdd, true => OpI64Add | ISub, true => OpI64Sub | IMul, true => OpI64Mul
  | IDivS, true => OpI64DivS | IDivU, true => OpI64DivU | IRemS, true => OpI64RemS
  | IRemU, true => OpI64RemU | IAnd, true => OpI64And | IOr, true => OpI64Or | IXor, true => OpI64Xor
  | IShl, true => OpI64Shl | IShrS, true => OpI64ShrS | IShrU, true => OpI64ShrU
  | IRotl, true => OpI64Rotl | IRotr, true => OpI64Rotr
  end.
Definition irel_op (big : bool) (k : IRel) : Op :=
  match k, big with
  | REq, false => OpI32Eq | RNe, false => OpI32Ne | RLtS, false => OpI32LtS | RLtU, false => OpI32LtU
  | RGtS, false => OpI32GtS | RGtU, false => OpI32GtU | RLeS, false => OpI32LeS | RLeU, false => OpI32LeU
  | RGeS, false => OpI32GeS | RGeU, false => OpI32GeU
  | REq, true => OpI64Eq | RNe, true => OpI64Ne | RLtS, true => OpI64LtS | RLtU, true => OpI64LtU
  | RGtS, true => OpI64GtS | RGtU, true => OpI64GtU | RLeS, true => OpI64LeS | RLeU, true => OpI64LeU
  | RGeS, true => OpI64GeS | RGeU, true => OpI64GeU
  end.
Definition iw (big : bool) : Z := if big then 64 else 32.

(** ** Arithmetic facts *)
Lemma wrap_land w a b : 0 ≤ w → wrap w (Z.land a b) = Z.land (wrap w a) (wrap w b).
Proof.
  intros. unfold wrap. rewrite <- !Z.land_ones by lia. apply Z.bits_inj'. intros n Hn.
  rewrite !Z.land_spec. destruct (Z.testbit a n), (Z.testbit b n), (Z.testbit (Z.ones w) n); done.
Qed.
Lemma wrap_lor w a b : 0 ≤ w → wrap w (Z.lor a b) = Z.lor (wrap w a) (wrap w b).
Proof.
  intros. unfold wrap. rewrite <- !Z.land_ones by lia. apply Z.bits_inj'. intros n Hn.
  rewrite !Z.land_spec, !Z.lor_spec, !Z.land_spec.
  destruct (Z.testbit a n), (Z.testbit b n), (Z.testbit (Z.ones w) n); done.
Qed.
Lemma wrap_lxor w a b : 0 ≤ w → wrap w (Z.lxor a b) = Z.lxor (wrap w a) (wrap w b).
Proof.
  intros. unfold wrap. rewrite <- !Z.land_ones by lia. apply Z.bits_inj'. intros n Hn.
  rewrite !Z.land_spec, !Z.lxor_spec, !Z.land_spec.
  destruct (Z.testbit a n), (Z.testbit b n), (Z.testbit (Z.ones w) n); done.
Qed.

(** A shifted number and a small one share no bit. *)
Lemma lor_shift_add x y n : 0 ≤ n → 0 ≤ y < 2 ^ n → Z.lor (x * 2 ^ n) y = x * 2 ^ n + y.
Proof.
  intros Hn Hy. assert (Z.land (x * 2 ^ n) y = 0) as H0.
  { apply Z.bits_inj'. intros i Hi. rewrite Z.land_spec, Z.bits_0.
    destruct (Z.lt_ge_cases i n).
    - by rewrite Z.mul_pow2_bits_low by lia.
    - destruct (Z.eq_dec y 0) as [->|]; [by rewrite Z.bits_0, andb_false_r|].
      rewrite (Z.bits_above_log2 y i), andb_false_r; [done|lia|].
      apply Z.log2_lt_pow2; [lia|]. eapply Z.lt_le_trans; [apply Hy|]. apply Z.pow_le_mono_r; lia. }
  by rewrite <- Z.lxor_lor, <- Z.add_nocarry_lxor.
Qed.

Lemma mul_pow_mod w a s : 0 ≤ s ≤ w → (a * 2 ^ s) mod 2 ^ w = (a mod 2 ^ (w - s)) * 2 ^ s.
Proof.
  intros. replace w with ((w - s) + s) at 1 by lia. rewrite Z.pow_add_r by lia.
  rewrite Z.mul_mod_distr_r; [done| |]; apply Z.pow_nonzero; lia.
Qed.

Lemma div_pow_bound w a s : 0 ≤ s ≤ w → u_ok w a → 0 ≤ a / 2 ^ (w - s) < 2 ^ s.
Proof.
  intros Hs [Ha1 Ha2]. pose proof (Z.pow_pos_nonneg 2 (w - s) ltac:(lia) ltac:(lia)). split.
  - by apply Z.div_pos.
  - apply Z.div_lt_upper_bound; [done|]. rewrite <- Z.pow_add_r by lia.
    by replace (w - s + s) with w by lia.
Qed.

Lemma rotl_spec w a s : 0 ≤ s < w → u_ok w a →
  rotate_left w a s = (a * 2 ^ s) mod 2 ^ w + a / 2 ^ (w - s).
Proof.
  intros Hs Ha. unfold rotate_left. rewrite wrap_lor by lia.
  rewrite Z.shiftl_mul_pow2, Z.shiftr_div_pow2 by lia.
  pose proof (div_pow_bound w a s ltac:(lia) Ha).
  assert (2 ^ s ≤ 2 ^ w) by (apply Z.pow_le_mono_r; lia).
  rewrite (wrap_id w (a / _)) by (unfold u_ok; lia). unfold wrap.
  rewrite mul_pow_mod by lia. apply lor_shift_add; [lia|done].
Qed.
Lemma rotr_spec w a s : 0 ≤ s < w → u_ok w a →
  rotate_right w a s = a / 2 ^ s + (a * 2 ^ (w - s)) mod 2 ^ w.
Proof.
  intros Hs Ha. unfold rotate_right. rewrite wrap_lor by lia.
  rewrite Z.shiftl_mul_pow2, Z.shiftr_div_pow2 by lia.
  pose proof (div_pow_bound w a (w - s) ltac:(lia) Ha) as Hb.
  replace (w - (w - s)) with s in Hb by lia.
  assert (2 ^ (w - s) ≤ 2 ^ w) by (apply Z.pow_le_mono_r; lia).
  rewrite (wrap_id w (a / _)) by (unfold u_ok; lia). unfold wrap.
  rewrite mul_pow_mod by lia. rewrite Z.lor_comm, Z.add_comm. apply lor_shift_add; [lia|done].
Qed.

Lemma quot_bounds w a b : 0 < w → s_ok w a → s_ok w b → b ≠ 0 →
  (a = - 2 ^ (w - 1) ∧ b = -1) ∧ Z.quot a b = 2 ^ (w - 1) ∨
  ¬ (a = - 2 ^ (w - 1) ∧ b = -1) ∧ s_ok w (Z.quot a b).
Proof.
  intros Hw [Ha1 Ha2] [Hb1 Hb2] Hb. set (P := 2 ^ (w - 1)) in *.
  destruct (Z.eq_dec b (-1)) as [->|Hn1].
  - change (-1) with (- (1)). rewrite Z.quot_opp_r, Z.quot_1_r by lia.
    destruct (Z.eq_dec a (- P)); [left; lia|right]. unfold s_ok. fold P. lia.
  - right. split; [naive_solver|]. unfold s_ok. fold P.
    pose proof (Z.quot_rem' a b). 
    assert (Z.abs (Z.quot a b) ≤ Z.abs a) as Habs.
    { rewrite <- Z.quot_abs by done. apply Z.quot_le_upper_bound; nia. }
    assert (Z.quot a b = P → False); [|lia].
    intros HP. assert (a = - P ∨ a = P) as [->| ->] by lia; [|lia].
    assert (Z.abs (Z.rem (- P) b) < Z.abs b) by (by apply Z.rem_bound_abs). nia.
Qed.

(** ** Running the helpers *)
Section runs.
Context `{Features}.

(** The frame's two top operands, both scalar. *)
Record two_scalars (ex : Execution) (vs : list Cell) (ss : list RefTag) (a b : Cell) : Prop := {
  tw_wf : exec_wf ex;
  tw_values : ex_values ex = vs ++ [a; b];
  tw_shadow : ex_shadow ex = ss ++ [TagNone; TagNone];
  tw_len : zlen vs = zlen ss;
  tw_floor : ∃ f, last (ex_frames ex) = Some f ∧ fr_operand_base f ≤ zlen vs;
}.
Definition replace_two (vs : list Cell) (ss : list RefTag) (c : Cell) (ex : Execution) : Execution :=
  set_ex_shadow (ss ++ [TagNone]) (set_ex_values (vs ++ [c]) ex).

Lemma binop_as_try f ex : binop_cells f ex = binop_cells_try (λ a b, Ok (f a b)) ex.
Proof.
  unfold binop_cells, binop_cells_try. rewrite !bind_unfold.
  destruct (reads (ensure_scalar_operands 2) ex) as [[base| |] ex1]; [|done..].
  rewrite !bind_unfold. destruct (reads _ ex1) as [[a| |] ex2]; [|done..].
  rewrite !bind_unfold. destruct (reads _ ex2) as [[b| |] ex3]; [|done..].
  by lift_step.
Qed.

Lemma try_ext f g ex : (∀ a b, f a b = g a b) → binop_cells_try f ex = binop_cells_try g ex.
Proof.
  intros Hfg. unfold binop_cells_try. rewrite !bind_unfold.
  destruct (reads (ensure_scalar_operands 2) ex) as [[base| |] ex1]; [|done..].
  rewrite !bind_unfold. destruct (reads _ ex1) as [[a| |] ex2]; [|done..].
  rewrite !bind_unfold. destruct (reads _ ex2) as [[b| |] ex3]; [|done..].
  by rewrite Hfg.
Qed.
Lemma binop_ext f g ex : (∀ a b, Ok (f a b) = g a b) → binop_cells f ex = binop_cells_try g ex.
Proof. intros Hfg. rewrite binop_as_try. by apply try_ext. Qed.

Lemma zset_two (vs : list Cell) a b c :
  zset (vs ++ [a; b]) (zlen vs) c = Some (vs ++ [c; b]) ∧ ztake (zlen vs + 1) (vs ++ [c; b]) = vs ++ [c].
Proof.
  split.
  - apply zset_Some. split; [zlen_solve|]. unfold zlen. rewrite Nat2Z.id. symmetry.
    rewrite insert_app_r_alt by lia. by rewrite Nat.sub_diag.
  - change [c; b] with ([c] ++ [b]). rewrite app_assoc. apply ztake_app. zlen_solve.
Qed.

Lemma try_run f ex vs ss a b :
  two_scalars ex vs ss a b →
  binop_cells_try f ex =
  match f a b with
  | Ok c => (Ok tt, replace_two vs ss c ex)
  | Err e => (Err e, ex)
  | Panic w => (Panic w, ex)
  end.
Proof.
  intros [Hwf Hv Hs Hl (fr & Hfr & Hfl)].
  assert (zlen (ex_values ex) = zlen vs + 2) as Hlv by (rewrite Hv; zlen_solve).
  assert (ensure_scalar_operands 2 ex = Ok (zlen vs)) as He.
  { unfold ensure_scalar_operands.
    destruct (ensure_operands_spec 2 ex Hwf) as [(_ & _ & ->)|[Hn _]]; [lia| |].
    - rewrite Hlv. replace (zlen vs + 2 - 2) with (zlen vs) by lia. cbn [mbind result_bind].
      rewrite Hs, zdrop_app by done. done.
    - destruct Hn. split; [unfold lockstep; rewrite Hv, Hs; zlen_solve|]. exists fr. split; [done|lia]. }
  unfold binop_cells_try. rewrite (reads_Ok _ _ _ _ He).
  replace (zlen vs + 2 - 2) with (zlen vs) by lia. replace (zlen vs + 2 - 1) with (zlen vs + 1) by lia.
  rewrite (reads_Ok _ _ _ a), (reads_Ok _ _ _ b).
  2,3: unfold value_at; rewrite Hv, zget_app_r by lia; by rewrite ?Z.sub_diag, ?Z.add_simpl_l.
  destruct (f a b) as [c|e|w]; [|done..]. lift_step. rewrite bind_unfold.
  destruct (zset_two vs a b c) as [Hset Htake]. unfold set_value. rewrite Hv, Hset. unfold modify.
  unfold stack_truncate, replace_two. cbn. rewrite Htake. f_equal.
  change [TagNone; TagNone] with ([TagNone] ++ [TagNone]) in Hs.
  rewrite Hs, app_assoc, ztake_app by zlen_solve. done.
Qed.

Lemma to_le_mod n z : to_le_bytes n (z mod 2 ^ (8 * Z.of_nat n)) = to_le_bytes n z.
Proof.
  rewrite <- from_to_le. rewrite to_from_le; [done|apply to_le_ok|].
  clear. revert z. induction n as [|n IH]; intros z; [done|]. cbn. by rewrite <- IH.
Qed.

(** Cells of the integer width. *)
Definition cell_int (big : bool) (c : Cell) : Z := if big then cell_i64 c else cell_i32 c.
Definition from_int (big : bool) (v : Z) : Cell := if big then from_i64 v else from_i32 v.

Lemma cell_int_ok big c : s_ok (iw big) (cell_int big c).
Proof. destruct big; by apply sgn_ok. Qed.
Lemma from_int_congr big x y : x mod 2 ^ iw big = y mod 2 ^ iw big → from_int big x = from_int big y.
Proof.
  intros Hxy. destruct big; unfold from_int, from_i64, from_i32; f_equal;
    [rewrite <- (to_le_mod 8 x), <- (to_le_mod 8 y)|rewrite <- (to_le_mod 4 x), <- (to_le_mod 4 y)];
    f_equal; apply Hxy.
Qed.
End runs.

(** ** The value of each binary instruction *)
Lemma mod_sgn w x : 0 < w → sgn w x mod 2 ^ w = x mod 2 ^ w.
Proof. apply sgn_mod. Qed.

Definition agrees (w : Z) (code : res Z) (spec : Z + Trap) : Prop :=
  match spec with
  | inl r => ∃ v, code = Ok v ∧ v mod 2 ^ w = r mod 2 ^ w
  | inr t => code = Err (ETrap t)
  end.

(** What the table computes, on the signed readings [x], [y] of the operands. *)
Definition code_bin (big : bool) (k : IBin) (x y : Z) : res Z :=
  let w := iw big in
  match k with
  | IAdd => Ok (wadd w x y) | ISub => Ok (wsub w x y) | IMul => Ok (wmul w x y)
  | IDivS => div_s_checked w x y
  | IDivU => r ← (nz (wrap w y) ≫= λ _, div_u (wrap w x) (wrap w y)); Ok (sgn w r)
  | IRemS => nz y ≫= λ _, wrapping_rem w x y
  | IRemU => r ← (nz (wrap w y) ≫= λ _, rem_u (wrap w x) (wrap w y)); Ok (sgn w r)
  | IAnd => Ok (Z.land x y) | IOr => Ok (Z.lor x y) | IXor => Ok (Z.lxor x y)
  | IShl => Ok (wrapping_shl w x (wrap 32 y))
  | IShrS => Ok (wrapping_shr w x (wrap 32 y))
  | IShrU => Ok (sgn w (wrapping_shr w (wrap w x) (wrap 32 (wrap w y))))
  | IRotl => Ok (sgn w (rotate_left w (wrap w x) (wrap 32 (wrap w y mod w))))
  | IRotr => Ok (sgn w (rotate_right w (wrap w x) (wrap 32 (wrap w y mod w))))
  end.

Lemma iw_pos big : 0 < iw big.
Proof. by destruct big. Qed.
Lemma shift_amount big y : wrap 32 y mod iw big = y mod iw big ∧ wrap 32 (wrap (iw big) y) mod iw big = y mod iw big
  ∧ wrap 32 (wrap (iw big) y mod iw big) = y mod iw big ∧ wrap (iw big) y mod iw big = y mod iw big.
Proof.
  assert (∀ a b z, 0 < a → 0 < b → (z mod (a * b)) mod a = z mod a) as Hmm.
  { intros a b z Ha Hb. rewrite Z.rem_mul_r, Z.mul_comm, Z.mod_add by lia. by rewrite Z.mod_mod by lia. }
  unfold wrap. destruct big; cbn [iw].
  - change (2 ^ 32) with (64 * 67108864). change (2 ^ 64) with (64 * 288230376151711744).
    rewrite !Hmm by lia. split_and!; try done. rewrite Z.mod_small; [done|].
    pose proof (Z.mod_pos_bound y 64). lia.
  - change (2 ^ 32) with (32 * 134217728). rewrite !Hmm by lia. split_and!; try done.
    rewrite Z.mod_small; [done|]. pose proof (Z.mod_pos_bound y 32). lia.
Qed.

Lemma wrap_zero w y : 0 < w → s_ok w y → (wrap w y =? 0) = (y =? 0).
Proof.
  intros Hw Hy. destruct (Z.eqb_spec y 0) as [->|Hn].
  - unfold wrap. by rewrite Z.mod_0_l by (apply Z.pow_nonzero; lia).
  - apply Z.eqb_neq. intros H0. apply Hn. rewrite <- (sgn_id w y Hw Hy), <- sgn_wrap, H0 by done.
    unfold sgn. rewrite Z.mod_0_l by (apply Z.pow_nonzero; lia).
    cbn zeta. pose proof (Z.pow_pos_nonneg 2 (w - 1)). by rewrite (proj2 (Z.ltb_lt _ _)) by lia.
Qed.

Lemma code_bin_spec big k x y :
  s_ok (iw big) x → s_ok (iw big) y →
  agrees (iw big) (code_bin big k x y) (spec_bin (iw big) k (wrap (iw big) x) (wrap (iw big) y)).
Proof.
  intros Hx Hy. pose proof (iw_pos big) as Hw.
  destruct (shift_amount big y) as (S1 & S2 & S3 & S4).
  pose proof (Z.mod_pos_bound y (iw big) Hw) as Hs.
  pose proof (wrap_ok (iw big) x ltac:(lia)) as Hux. pose proof (wrap_ok (iw big) y ltac:(lia)) as Huy.
  assert (2 ^ iw big ≠ 0) as Hne by (apply Z.pow_nonzero; lia).
  destruct k; cbn [code_bin spec_bin agrees]; rewrite ?(sgn_wrap (iw big)), ?(sgn_id (iw big) x), ?(sgn_id (iw big) y) by done.
  - eexists; split; [done|]. unfold wadd, wrap. rewrite mod_sgn by done. by rewrite Z.mod_mod, <- Z.add_mod.
  - eexists; split; [done|]. unfold wsub, wrap. rewrite mod_sgn by done. by rewrite Z.mod_mod, <- Zminus_mod.
  - eexists; split; [done|]. unfold wmul, wrap. rewrite mod_sgn by done. by rewrite Z.mod_mod, <- Z.mul_mod.
  - unfold div_s_checked, div_s. rewrite wrap_zero by done. destruct (Z.eqb_spec y 0) as [|Hn]; [done|].
    destruct (quot_bounds (iw big) x y Hw Hx Hy Hn) as [[[-> ->] ->]|[Hno Hq]].
    + by rewrite !Z.eqb_refl.
    + assert ((x =? - 2 ^ (iw big - 1)) && (y =? -1) = false) as -> by (apply not_true_iff_false; rewrite andb_true_iff, !Z.eqb_eq; done).
      rewrite (proj2 (Z.eqb_neq _ _)) by (unfold s_ok in Hq; lia). eexists; split; [done|]. by rewrite Z.mod_mod.
  - unfold nz, div_u. rewrite wrap_zero by done. destruct (Z.eqb_spec y 0); [done|].
    eexists; split; [done|]. by rewrite mod_sgn.
  - unfold nz, wrapping_rem. rewrite wrap_zero by done. destruct (Z.eqb_spec y 0) as [|Hn]; [done|].
    cbn [mbind result_bind]. destruct (Z.eqb_spec y (-1)) as [->|]; eexists; (split; [done|]); rewrite Z.mod_mod by done; [|done].
    change (-1) with (- (1)). by rewrite Z.rem_opp_r, Z.rem_1_r.
  - unfold nz, rem_u. rewrite wrap_zero by done. destruct (Z.eqb_spec y 0); [done|].
    eexists; split; [done|]. by rewrite mod_sgn.
  - eexists; split; [done|]. rewrite <- wrap_land by lia. unfold wrap. by rewrite Z.mod_mod.
  - eexists; split; [done|]. rewrite <- wrap_lor by lia. unfold wrap. by rewrite Z.mod_mod.
  - eexists; split; [done|]. rewrite <- wrap_lxor by lia. unfold wrap. by rewrite Z.mod_mod.
  - eexists; split; [done|]. unfold wrapping_shl. rewrite mod_sgn, S1, S4, Z.shiftl_mul_pow2 by lia.
    rewrite Z.mod_mod by done. unfold wrap. by rewrite Z.mul_mod_idemp_l.
  - eexists; split; [done|]. unfold wrapping_shr. rewrite S1, S4, Z.shiftr_div_pow2 by lia. by rewrite Z.mod_mod.
  - eexists; split; [done|]. unfold wrapping_shr. by rewrite mod_sgn, S2, S4, Z.shiftr_div_pow2 by lia.
  - eexists; split; [done|]. rewrite mod_sgn, S3, S4 by done. by rewrite rotl_spec.
  - eexists; split; [done|]. rewrite mod_sgn, S3, S4 by done. by rewrite rotr_spec.
Qed.

Section table.
Context `{Features, FloatHost}.

Lemma try_agrees big (code : Z → Z → res Z) spec ex vs ss a b :
  two_scalars ex vs ss a b → agrees (iw big) (code (cell_int big a) (cell_int big b)) spec →
  binop_cells_try (λ a b, r ← code (cell_int big a) (cell_int big b); Ok (from_int big r)) ex =
  match spec with
  | inl r => (Ok tt, replace_two vs ss (from_int big r) ex)
  | inr t => (Err (ETrap t), ex)
  end.
Proof.
  intros Htwo Ha. rewrite (try_run _ ex vs ss a b Htwo).
  destruct spec as [r|t]; cbn in Ha.
  - destruct Ha as (v & -> & Hv). cbn. by rewrite (from_int_congr big v r Hv).
  - by rewrite Ha.
Qed.

Lemma wrap32_idem y : wrap 32 (wrap 32 y) = wrap 32 y.
Proof. apply wrap_id. apply wrap_ok. lia. Qed.
Lemma wrap32_mod y : wrap 32 (y mod 32) = y mod 32.
Proof. apply wrap_id. pose proof (Z.mod_pos_bound y 32). unfold u_ok. lia. Qed.

(** The closures of the table are [code_bin]. *)
Lemma table_bin big k ex : ∃ m, exec_numeric (ibin_op big k) = Some m ∧
  m ex = binop_cells_try (λ a b, r ← code_bin big k (cell_int big a) (cell_int big b); Ok (from_int big r)) ex.
Proof.
  destruct big, k; eexists; (split; [reflexivity|]);
    first [apply binop_ext; reflexivity | apply binop_ext; intros a b | apply try_ext; intros a b];
    cbn [code_bin cell_int from_int iw]; try reflexivity;
    try (by rewrite ?wrap32_mod, ?wrap32_idem);
    (destruct (nz _) as [[]| |]; [|done..]); unfold div_u, rem_u; cbn [mbind result_bind]; by case_match.
Qed.

Lemma table_rel big k ex : ∃ m, exec_numeric (irel_op big k) = Some m ∧
  m ex = binop_cells_try (λ a b,
    Ok (from_i32 (b2i (spec_rel (iw big) k (wrap (iw big) (cell_int big a)) (wrap (iw big) (cell_int big b)))))) ex.
Proof.
  assert (∀ big c, sgn (iw big) (wrap (iw big) (cell_int big c)) = cell_int big c) as Hsg.
  { intros b c. rewrite sgn_wrap by apply iw_pos. apply sgn_id; [apply iw_pos|apply cell_int_ok]. }
  assert (∀ big a b, (wrap (iw big) (cell_int big a) =? wrap (iw big) (cell_int big b))
    = (cell_int big a =? cell_int big b)) as Heq.
  { intros b x y. destruct (Z.eqb_spec (cell_int b x) (cell_int b y)) as [->|Hn]; [apply Z.eqb_refl|].
    apply Z.eqb_neq. intros Hw. apply Hn. rewrite <- (Hsg b x), <- (Hsg b y). by rewrite Hw. }
  destruct big, k; eexists; (split; [reflexivity|]); apply binop_ext; intros a b; f_equal; cbn [spec_rel];
    rewrite ?Heq, ?Hsg; reflexivity.
Qed.

(** C39: the thirty integer binary instructions and the twenty comparisons
    compute the WebAssembly definitions on unsigned 32/64-bit numbers: the two
    operands are replaced by the result, and division traps exactly as specified,
    leaving the execution untouched. *)
Theorem int_binary_spec big ex vs ss a b :
  two_scalars ex vs ss a b →
  let x := wrap (iw big) (cell_int big a) in
  let y := wrap (iw big) (cell_int big b) in
  (∀ k, ∃ m, exec_numeric (ibin_op big k) = Some m ∧
    m ex = match spec_bin (iw big) k x y with
           | inl r => (Ok tt, replace_two vs ss (from_int big r) ex)
           | inr t => (Err (ETrap t), ex)
           end) ∧
  (∀ k, ∃ m, exec_numeric (irel_op big k) = Some m ∧
    m ex = (Ok tt, replace_two vs ss (from_i32 (b2i (spec_rel (iw big) k x y))) ex)).
Proof.
  intros Htwo x y. split; intros k.
  - destruct (table_bin big k ex) as (m & Hm & Hrun). exists m. split; [done|]. rewrite Hrun.
    apply (try_agrees big (code_bin big k) _ ex vs ss a b Htwo). apply code_bin_spec; apply cell_int_ok.
  - destruct (table_rel big k ex) as (m & Hm & Hrun). exists m. split; [done|].
    by rewrite Hrun, (try_run _ ex vs ss a b Htwo).
Qed.

(** ** Bit counts *)
Lemma trailing_zeros_spec n a : 0 ≤ a →
  let t := trailing_zeros_go n a in
  0 ≤ t ≤ Z.of_nat n ∧ (∀ i, 0 ≤ i < t → Z.testbit a i = false) ∧ (t < Z.of_nat n → Z.testbit a t = true).
Proof.
  revert a. induction n as [|n IH]; intros a Ha; cbn [trailing_zeros_go].
  - split_and!; [lia|lia|intros i; lia|lia].
  - destruct (Z.odd a) eqn:Ho.
    + split_and!; [lia|lia|intros i; lia|]. intros _. by rewrite Z.bit0_odd.
    + destruct (IH (Z.div2 a)) as ([Hl Hh] & Hz & Ht); [by apply Z.div2_nonneg|].
      split_and!; [lia|lia| |].
      * intros i Hi. destruct (Z.eq_dec i 0) as [->|]; [by rewrite Z.bit0_odd|].
        replace i with (Z.succ (i - 1)) by lia. rewrite <- Z.div2_bits, <- Z.div2_div by lia. apply Hz. lia.
      * intros Hlt. replace (1 + trailing_zeros_go n (Z.div2 a)) with (Z.succ (trailing_zeros_go n (Z.div2 a))) by lia.
        rewrite <- Z.div2_bits, <- Z.div2_div by lia. apply Ht. lia.
Qed.

Lemma count_ones_spec n a : 0 ≤ a →
  count_ones_go n a = zsum (λ i, b2i (Z.testbit a (Z.of_nat i))) (seq 0 n).
Proof.
  revert a. induction n as [|n IH]; intros a Ha; [done|]. cbn [count_ones_go seq zsum].
  rewrite IH by (by apply Z.div2_nonneg). rewrite <- Z.bit0_odd. change (Z.of_nat 0) with 0. f_equal.
  rewrite <- fmap_S_seq. clear. generalize 0%nat. induction n as [|n IH]; intros k; [done|].
    cbn [seq zsum fmap list_fmap]. rewrite IH. do 2 f_equal.
    by rewrite Nat2Z.inj_succ, <- Z.div2_bits, <- Z.div2_div by lia.
Qed.

Lemma leading_zeros_spec w a : 0 < w → u_ok w a →
  let l := leading_zeros w a in
  0 ≤ l ≤ w ∧ (∀ i, w - l ≤ i < w → Z.testbit a i = false) ∧ (l < w → Z.testbit a (w - 1 - l) = true).
Proof.
  intros Hw [Hl Hh]. unfold leading_zeros. destruct (Z.eqb_spec a 0) as [->|Hn].
  - split_and!; [lia|lia| |lia]. intros. apply Z.bits_0.
  - assert (0 ≤ Z.log2 a < w).
    { split; [apply Z.log2_nonneg|]. apply Z.log2_lt_pow2; lia. }
    split_and!; [lia|lia| |].
    + intros i Hi. apply Z.bits_above_log2; lia.
    + intros _. replace (w - 1 - (w - 1 - Z.log2 a)) with (Z.log2 a) by lia. apply Z.bit_log2. lia.
Qed.
End table.

(** ** The whole table is safe *)
Section safety.
Context `{Features, FloatHost}.

(** Same frames and boundaries, still well-formed and in lockstep. *)
Record stays (ex ex' : Execution) : Prop := {
  sy_wf : exec_wf ex';
  sy_lockstep : lockstep ex';
  sy_frames : ex_frames ex' = ex_frames ex;
  sy_depth : ex_host_reentry_depth ex' = ex_host_reentry_depth ex;
  sy_shorter : zlen (ex_values ex') ≤ zlen (ex_values ex);
}.
Definition outcome_safe (ex : Execution) (out : res () * Execution) : Prop :=
  match out with
  | (Ok _, ex') | (Err _, ex') => stays ex ex'
  | (Panic _, _) => False
  end.
Definition safe (m : SM Execution ()) : Prop :=
  ∀ ex, exec_wf ex → lockstep ex → outcome_safe ex (m ex).

Lemma stays_refl ex : exec_wf ex → lockstep ex → stays ex ex.
Proof. by split. Qed.

Lemma two_cells {A} (l : list A) : zlen l = 2 → ∃ a b, l = [a; b].
Proof.
  destruct l as [|a [|b [|c l]]]; try (intros; exfalso; revert H1; zlen_solve); eauto.
  all: unfold zlen; cbn; lia.
Qed.

Lemma two_scalars_of ex base :
  exec_wf ex → ensure_scalar_operands 2 ex = Ok base → ∃ vs ss a b, two_scalars ex vs ss a b.
Proof.
  intros Hwf He. destruct (ensure_scalar_cases 2 ex Hwf) as [(Hr & Hb & Hn & _)|(e & He')]; [lia| |congruence].
  destruct Hr as [Hl (f & Hf & Hfl)]. unfold lockstep in Hl. set (n := zlen (ex_values ex) - 2) in *.
  destruct (two_cells (zdrop n (ex_values ex))) as (a & b & Hv); [rewrite zlen_drop; lia|].
  destruct (two_cells (zdrop n (ex_shadow ex))) as (s & t & Hs); [rewrite zlen_drop; lia|].
  rewrite Hs in Hn. inversion_clear Hn as [|? ? -> Hn']. apply Forall_singleton in Hn' as ->.
  exists (ztake n (ex_values ex)), (ztake n (ex_shadow ex)), a, b. split; [done|..].
  - by rewrite <- Hv, ztake_drop.
  - by rewrite <- Hs, ztake_drop.
  - rewrite !zlen_take; lia.
  - exists f. split; [done|]. rewrite zlen_take by lia. lia.
Qed.

Lemma stays_two ex vs ss a b c : two_scalars ex vs ss a b → cell_ok c → stays ex (replace_two vs ss c ex).
Proof.
  intros [[Hc Hf] Hv Hs Hl _] Hcell. unfold replace_two. rewrite Hv in Hc.
  apply Forall_app in Hc as [Hc _].
  split; [split|..]; unfold lockstep; cbn -[zlen]; rewrite ?Hv; try done; try zlen_solve.
  apply Forall_app. split; [done|]. by apply Forall_singleton.
Qed.

Lemma safe_try f : (∀ a b, match f a b with Ok c => cell_ok c | Err _ => True | Panic _ => False end) →
  safe (binop_cells_try f).
Proof.
  intros Hf ex Hwf Hl. destruct (ensure_scalar_operands 2 ex) as [base|e|w] eqn:He.
  - destruct (two_scalars_of ex base Hwf He) as (vs & ss & a & b & Htwo).
    rewrite (try_run f ex vs ss a b Htwo). specialize (Hf a b). destruct (f a b); [|by apply stays_refl|done].
    by eapply stays_two.
  - unfold binop_cells_try. rewrite (reads_Err _ _ _ _ He). by apply stays_refl.
  - destruct (ensure_scalar_cases 2 ex Hwf) as [(_ & _ & _ & He')|(e & He')]; [lia|congruence..].
Qed.
Lemma safe_binop f : (∀ a b, cell_ok (f a b)) → safe (binop_cells f).
Proof. intros Hf ex Hwf Hl. rewrite binop_as_try. apply safe_try; [|done..]. intros a b. apply Hf. Qed.

Lemma safe_unop f : (∀ a, cell_ok (f a)) → safe (unop_cell f).
Proof.
  intros Hf ex Hwf Hl. unfold unop_cell.
  destruct (ensure_scalar_cases 1 ex Hwf) as [(_ & Hb & _ & He)|(e & He)]; [lia| |].
  - rewrite (reads_Ok _ _ _ _ He). replace (zlen (ex_values ex) - 1 + 1 - 1) with (zlen (ex_values ex) - 1) by lia.
    destruct (value_at_in (zlen (ex_values ex) - 1) ex) as (c & Hc & _); [lia|].
    rewrite (reads_Ok _ _ _ _ Hc). unfold set_value.
    destruct (zset (ex_values ex) (zlen (ex_values ex) - 1) (f c)) as [vs|] eqn:Hz.
    + apply zset_Some in Hz as [_ ->]. destruct Hwf as [Hcs Hfs]. unfold lockstep in Hl.
      split; [split|..]; unfold lockstep; cbn -[zlen]; rewrite ?zlen_insert; try done; try lia. by apply Forall_insert.
    + exfalso. unfold zset in Hz. destruct (Z.leb_spec 0 (zlen (ex_values ex) - 1)),
        (Z.ltb_spec (zlen (ex_values ex) - 1) (zlen (ex_values ex))); cbn in Hz; done || lia.
  - rewrite (reads_Err _ _ _ _ He). by apply stays_refl.
Qed.

(** Pop one scalar, convert, push. *)
Lemma stays_drop ex : exec_wf ex → operands_ready 1 ex → 0 ≤ zlen (ex_values ex) - 1 → stays ex (drop_top 1 ex).
Proof.
  intros [Hc Hf] [Hl _] Hlen. unfold lockstep in Hl.
  split; [split|..]; unfold lockstep; cbn -[zlen ztake]; rewrite ?zlen_take by lia; try done; try lia.
  by apply Forall_take.
Qed.
Lemma stays_push_drop ex bytes : exec_wf ex → operands_ready 1 ex → 0 ≤ zlen (ex_values ex) - 1 →
  zlen bytes ≤ SLOT_BYTES → stays ex (push_scalar bytes (drop_top 1 ex)).
Proof.
  intros Hwf Hr Hlen Hb. destruct (stays_drop ex Hwf Hr Hlen) as [[Hc Hf] Hl Hfr Hd Hlen']. unfold lockstep in Hl.
  assert (zlen (ex_values (drop_top 1 ex)) = zlen (ex_values ex) - 1) as Hdl by (cbn -[zlen ztake]; rewrite zlen_take; lia).
  split; [split|..]; unfold lockstep, push_scalar, values_push, shadow_push;
    cbn [ex_values ex_shadow ex_frames ex_host_reentry_depth set_ex_values set_ex_shadow]; try done.
  - apply Forall_app. split; [done|]. apply Forall_singleton. by apply of_bytes_ok.
  - rewrite !zlen_app, Hl. zlen_solve.
  - rewrite zlen_app, Hdl. zlen_solve.
Qed.

Lemma safe_pop_push {A} (pop : SM Execution A) (g : A → res (list Z)) :
  pop_op A 1 pop → (∀ a, match g a with Ok b => zlen b ≤ SLOT_BYTES | Err _ => True | Panic _ => False end) →
  safe (x ← pop; r ← lift (g x); modify (push_scalar r)).
Proof.
  intros Hop Hg ex Hwf Hl. pose proof (pop_op_transaction A 1 pop ex Hwf Hop) as Ht. rewrite bind_unfold.
  destruct (pop ex) as [[a|e|w] ex'] eqn:Hp; cbn in Ht; [|destruct Ht as [_ ->]; by apply stays_refl|done].
  destruct Ht as [Hr ->]. assert (0 ≤ zlen (ex_values ex) - 1).
  { destruct Hr as [_ (f & Hf & Hfl)]. pose proof (floor_nonneg ex f Hwf Hf). lia. }
  specialize (Hg a). unfold lift. rewrite bind_unfold. destruct (g a) as [b|e|w]; [|by apply stays_drop|done].
  by apply stays_push_drop.
Qed.

Lemma from_i32_ok v : cell_ok (from_i32 v).
Proof. apply of_bytes_ok. rewrite zlen_to_le. pose proof slot_bytes_width. lia. Qed.
Lemma from_i64_ok v : cell_ok (from_i64 v).
Proof. apply of_bytes_ok. rewrite zlen_to_le. pose proof slot_bytes_width. lia. Qed.

Lemma trunc_no_panic f lo hi cast x : no_panic (trunc_checked f lo hi cast x).
Proof. unfold trunc_checked, no_panic. intros w. repeat case_match; done. Qed.

Lemma safe_convert {A} (pop : SM Execution A) (g : A → res Z) n :
  pop_op A 1 pop → (n ≤ 8)%nat → (∀ a, no_panic (g a)) →
  safe (x ← pop; r ← lift (g x); modify (push_scalar (to_le_bytes n r))).
Proof.
  intros Hop Hn Hg ex Hwf Hl.
  pose proof (safe_pop_push pop (λ a, r ← g a; Ok (to_le_bytes n r)) Hop) as Hs.
  assert (∀ a, match (r ← g a; Ok (to_le_bytes n r) : res (list Z)) with
    Ok b => zlen b ≤ SLOT_BYTES | Err _ => True | Panic _ => False end) as Hb.
  { intros a. specialize (Hg a). destruct (g a) as [v|e|w]; cbn; [|done|by apply (Hg w)].
    rewrite zlen_to_le. pose proof slot_bytes_width. lia. }
  specialize (Hs Hb ex Hwf Hl). rewrite bind_unfold in Hs |- *.
  destruct (pop ex) as [[a|e|w] ex']; [|done..]. clear Hb. destruct (g a); exact Hs.
Qed.
Lemma safe_map {A} (pop : SM Execution A) (g : A → Z) n :
  pop_op A 1 pop → (n ≤ 8)%nat → safe (x ← pop; modify (push_scalar (to_le_bytes n (g x)))).
Proof.
  intros Hop Hn ex Hwf Hl. pose proof (safe_convert pop (λ a, Ok (g a)) n Hop Hn ltac:(done) ex Hwf Hl) as Hs.
  rewrite bind_unfold in Hs |- *. by destruct (pop ex) as [[a|e|w] ex'].
Qed.

Lemma safe_try_map (g : Cell → Cell → res Z) (h : Z → Cell) :
  (∀ a b, no_panic (g a b)) → (∀ v, cell_ok (h v)) → safe (binop_cells_try (λ a b, r ← g a b; Ok (h r))).
Proof.
  intros Hg Hh. apply safe_try. intros a b. specialize (Hg a b).
  destruct (g a b) as [v|e|w]; cbn; [apply Hh|done|by apply (Hg w)].
Qed.
Lemma div_u_safe a b : no_panic (nz b ≫= λ _, div_u a b).
Proof. intros w. unfold nz, div_u. by destruct (b =? 0). Qed.
Lemma rem_u_safe a b : no_panic (nz b ≫= λ _, rem_u a b).
Proof. intros w. unfold nz, rem_u. by destruct (b =? 0). Qed.
Lemma rem_s_safe n a b : no_panic (nz b ≫= λ _, wrapping_rem n a b).
Proof.
  intros w. unfold nz, wrapping_rem. destruct (b =? 0); [done|]. cbn. by destruct (b =? -1).
Qed.

Lemma checked_div_safe w a b : no_panic (div_s_checked w a b).
Proof.
  unfold no_panic, div_s_checked, div_s. intros p. destruct (b =? 0); [done|]. by destruct (_ && _).
Qed.

Ltac safe_op :=
  first [ apply safe_binop; intros; first [apply from_i32_ok|apply from_i64_ok]
        | apply safe_unop; intros; first [apply from_i32_ok|apply from_i64_ok]
        | apply safe_map; [constructor|lia]
        | apply safe_convert; [constructor|lia|intros ?; apply trunc_no_panic]
        | apply safe_try_map; intros;
          first [ apply checked_div_safe | apply div_u_safe | apply rem_u_safe | apply rem_s_safe
                | apply from_i32_ok | apply from_i64_ok ] ].

(** C40: no instruction of the numeric table panics, and each leaves the
    execution well-formed, in lockstep, with the same frames and boundaries and no
    more operands, whether it completes or reports a trap or an internal error. *)
Theorem numeric_safe op m ex :
  exec_numeric op = Some m → exec_wf ex → lockstep ex → outcome_safe ex (m ex).
Proof.
  intros Hm Hwf Hl. apply (λ H : safe m, H ex Hwf Hl). clear ex Hwf Hl.
  destruct op; try discriminate Hm; injection Hm as <-; safe_op.
Qed.

(** The bit-counting instructions: [clz] and [ctz] count the zero bits above
    the highest and below the lowest one bit, [popcnt] the one bits. *)
Theorem bit_counts_spec big a : u_ok (iw big) a →
  (let l := leading_zeros (iw big) a in
   0 ≤ l ≤ iw big ∧ (∀ i, iw big - l ≤ i < iw big → Z.testbit a i = false) ∧
   (l < iw big → Z.testbit a (iw big - 1 - l) = true)) ∧
  (let t := trailing_zeros (iw big) a in
   0 ≤ t ≤ iw big ∧ (∀ i, 0 ≤ i < t → Z.testbit a i = false) ∧ (t < iw big → Z.testbit a t = true)) ∧
  count_ones (iw big) a = zsum (λ i, b2i (Z.testbit a (Z.of_nat i))) (seq 0 (Z.to_nat (iw big))).
Proof.
  intros Ha. split_and!.
  - apply leading_zeros_spec; [apply iw_pos|done].
  - pose proof (trailing_zeros_spec (Z.to_nat (iw big)) a (proj1 Ha)) as Ht.
    pose proof (iw_pos big). unfold trailing_zeros. rewrite Z2Nat.id in Ht by lia. exact Ht.
  - apply count_ones_spec, Ha.
Qed.
End safety.

(** ** Witnesses *)
Definition ex_ints : Execution :=
  {| ex_values := [@from_i32 lean_features (-7); @from_i32 lean_features 2]; ex_shadow := [TagNone; TagNone];
     ex_frames := [frame0 0 0 None]; ex_host_reentry_depth := 0 |}.
Lemma ex_ints_two :
  @two_scalars lean_features ex_ints [] [] (@from_i32 lean_features (-7)) (@from_i32 lean_features 2).
Proof.
  split; [split; repeat constructor; vm_compute; intuition congruence|reflexivity..|].
  eexists. split; [reflexivity|vm_compute; congruence].
Qed.
Lemma int_binary_spec_witness :
  ∃ m, @exec_numeric lean_features canonical_host OpI32DivS = Some m ∧
    m ex_ints = (Ok tt, @replace_two [] [] (@from_i32 lean_features (-3)) ex_ints).
Proof.
  destruct (proj1 (@int_binary_spec lean_features canonical_host false _ _ _ _ _ ex_ints_two) IDivS) as (m & Hm & Hr).
  exists m. split; [exact Hm|]. rewrite Hr. vm_compute. reflexivity.
Defined.

Lemma numeric_safe_witness :
  ∃ m, @exec_numeric lean_features canonical_host OpI32Add = Some m ∧ @outcome_safe lean_features ex_demo (m ex_demo).
Proof.
  eexists. split; [reflexivity|].
  apply (@numeric_safe lean_features canonical_host OpI32Add); [reflexivity|exact ex_demo_wf|reflexivity].
Defined.

Lemma bit_counts_spec_witness : count_ones 32 6 = 2.
Proof. apply (bit_counts_spec false 6). split; vm_compute; congruence. Defined.
