(* ===== verification/Limits.v ===== *)
(** * Limits: resource limiting and limiter-mediated growth
    (src/src/store/limits.rs, src/src/store/grow.rs)

    [ResourceLimiter] is the interface the embedder's limiter implements on its
    host data; [StoreLimits] is the ready-made instance.  A [StoreT] is the typed
    store: the store, the parked execution, the installed limiter and the host
    data.  Growth asks the limiter first and touches an entity only when it is
    allowed. *)
From stdpp Require Import relations.
From S2P Require Import Prelude Types Layout Codec Arena Heap Op Entity Store Collect Stack.
Open Scope Z_scope.

(** ** The limiter interface *)
Definition DEFAULT_LIMIT : Z := 10000.
Definition host_ceiling (limit : Z) : Z := if 2 ^ 63 - 1 <? limit then 2 ^ 63 - 1 else limit.
Definition DEFAULT_MEMORY_CEILING_BYTES : Z := host_ceiling (Z.shiftl 1 32).
Definition DEFAULT_TABLE_CEILING_ELEMS : Z := host_ceiling (u_max 32).

Class ResourceLimiter (L : Type) := {
  memory_growing : Z → Z → option Z → SM L bool;
  table_growing : Z → Z → option Z → SM L bool;
  memory_grow_failed : error → SM L ();
  table_grow_failed : error → SM L ();
  lim_instances : L → Z;
  lim_tables : L → Z;
  lim_memories : L → Z;
}.

(** ** [StoreLimits] *)
Record StoreLimits : Type := {
  sl_memory_size : option Z;
  sl_table_elements : option Z;
  sl_instances : Z;
  sl_tables : Z;
  sl_memories : Z;
  sl_trap_on_grow_failure : bool;
}.
Definition store_limits_default : StoreLimits :=
  {| sl_memory_size := None; sl_table_elements := None; sl_instances := DEFAULT_LIMIT;
     sl_tables := DEFAULT_LIMIT; sl_memories := DEFAULT_LIMIT; sl_trap_on_grow_failure := false |}.

(** The builder's setters. *)
Definition with_memory_size (limit : Z) (b : StoreLimits) : StoreLimits :=
  {| sl_memory_size := Some limit; sl_table_elements := sl_table_elements b; sl_instances := sl_instances b;
     sl_tables := sl_tables b; sl_memories := sl_memories b; sl_trap_on_grow_failure := sl_trap_on_grow_failure b |}.
Definition with_table_elements (limit : Z) (b : StoreLimits) : StoreLimits :=
  {| sl_memory_size := sl_memory_size b; sl_table_elements := Some limit; sl_instances := sl_instances b;
     sl_tables := sl_tables b; sl_memories := sl_memories b; sl_trap_on_grow_failure := sl_trap_on_grow_failure b |}.
Definition with_instances (limit : Z) (b : StoreLimits) : StoreLimits :=
  {| sl_memory_size := sl_memory_size b; sl_table_elements := sl_table_elements b; sl_instances := limit;
     sl_tables := sl_tables b; sl_memories := sl_memories b; sl_trap_on_grow_failure := sl_trap_on_grow_failure b |}.
Definition with_tables (limit : Z) (b : StoreLimits) : StoreLimits :=
  {| sl_memory_size := sl_memory_size b; sl_table_elements := sl_table_elements b; sl_instances := sl_instances b;
     sl_tables := limit; sl_memories := sl_memories b; sl_trap_on_grow_failure := sl_trap_on_grow_failure b |}.
Definition with_memories (limit : Z) (b : StoreLimits) : StoreLimits :=
  {| sl_memory_size := sl_memory_size b; sl_table_elements := sl_table_elements b; sl_instances := sl_instances b;
     sl_tables := sl_tables b; sl_memories := limit; sl_trap_on_grow_failure := sl_trap_on_grow_failure b |}.
Definition with_trap_on_grow_failure (trap : bool) (b : StoreLimits) : StoreLimits :=
  {| sl_memory_size := sl_memory_size b; sl_table_elements := sl_table_elements b; sl_instances := sl_instances b;
     sl_tables := sl_tables b; sl_memories := sl_memories b; sl_trap_on_grow_failure := trap |}.

(** [limit.is_none_or(|limit| desired <= limit)] *)
Definition within (desired : Z) (limit : option Z) : bool :=
  match limit with Some l => desired <=? l | None => true end.
Definition limits_memory_growing (current desired : Z) (maximum : option Z) : SM StoreLimits bool := λ l,
  (Ok (within desired (sl_memory_size l) && within desired maximum), l).
Definition limits_table_growing (current desired : Z) (maximum : option Z) : SM StoreLimits bool := λ l,
  (Ok (within desired (sl_table_elements l) && within desired maximum), l).
Definition limits_grow_failed (e : error) : SM StoreLimits () := λ l,
  (if sl_trap_on_grow_failure l then Err e else Ok tt, l).

#[export] Instance StoreLimits_limiter : ResourceLimiter StoreLimits := {|
  memory_growing := limits_memory_growing;
  table_growing := limits_table_growing;
  memory_grow_failed := limits_grow_failed;
  table_grow_failed := limits_grow_failed;
  lim_instances := sl_instances;
  lim_tables := sl_tables;
  lim_memories := sl_memories;
|}.

(** ** The typed store *)
Inductive LimiterKind : Type := LimSync | LimAsync.
Record StoreT (L : Type) : Type := {
  st_inner : StoreInner;
  st_exec_slot : Execution;
  st_limiter : option LimiterKind;
  st_data : L;
}.
Arguments st_inner {L}. Arguments st_exec_slot {L}. Arguments st_limiter {L}. Arguments st_data {L}.
Arguments Build_StoreT {L}.

Definition set_st_inner {L} (s : StoreInner) (st : StoreT L) : StoreT L :=
  {| st_inner := s; st_exec_slot := st_exec_slot st; st_limiter := st_limiter st; st_data := st_data st |}.
Definition set_st_exec_slot {L} (ex : Execution) (st : StoreT L) : StoreT L :=
  {| st_inner := st_inner st; st_exec_slot := ex; st_limiter := st_limiter st; st_data := st_data st |}.
Definition set_st_data {L} (d : L) (st : StoreT L) : StoreT L :=
  {| st_inner := st_inner st; st_exec_slot := st_exec_slot st; st_limiter := st_limiter st; st_data := d |}.
Definition on_inner {L A} (m : SM StoreInner A) : SM (StoreT L) A := zoom st_inner set_st_inner m.
Definition on_data {L A} (m : SM L A) : SM (StoreT L) A := zoom st_data set_st_data m.

(** Wasm pages to bytes, and counts, on a 64-bit host. *)
Definition host_count (count : Z) : Z := if count <? 2 ^ usize_bits then count else u_max usize_bits.
Definition bytes (pages : Z) : Z := saturating_mul usize_bits (host_count pages) PAGE_SIZE.

Definition async_limiter_err : error :=
  EMsg "an async resource limiter requires an async context (use the `*_async` API)".

(** [inner.gc_collect(roots)]; the collector's fuel is always enough ([Collect]). *)
Definition gc_collect `{EngineTypes} (roots : list (Z * RefKind)) : SM StoreInner () := λ s,
  match collect roots s with Some r => r | None => (Panic "collector out of fuel", s) end.

Section growth.
Context `{HostAlloc, EngineTypes} {L : Type} `{ResourceLimiter L}.

Definition with_sync_limiter {R} (f : SM L R) : SM (StoreT L) (option R) := λ st,
  match st_limiter st with
  | None => (Ok None, st)
  | Some LimSync => (r ← on_data f; mret (Some r)) st
  | Some LimAsync => (Err async_limiter_err, st)
  end.

Definition limiter_memories (st : StoreT L) : option Z := (λ _, lim_memories (st_data st)) <$> st_limiter st.
Definition limiter_tables (st : StoreT L) : option Z := (λ _, lim_tables (st_data st)) <$> st_limiter st.
Definition limiter_instances (st : StoreT L) : option Z := (λ _, lim_instances (st_data st)) <$> st_limiter st.

(** The failure notice, to either kind of limiter. *)
Definition notify_failed (f : error → SM L ()) (why : string) : SM (StoreT L) () := λ st,
  match st_limiter st with None => (Ok tt, st) | Some _ => on_data (f (EMsg why)) st end.
Definition memory_failed : SM (StoreT L) () := notify_failed memory_grow_failed "failed to grow memory".
Definition table_failed : SM (StoreT L) () := notify_failed table_grow_failed "failed to grow table".

(** [if allowed { if let Some(old) = entity.grow(..) { return Ok(Some(old)) } }] *)
Definition try_grow_memory (handle : Handle) (delta : Z) (allowed : bool) : SM (StoreT L) (option Z) :=
  r ← (if allowed then
         e ← reads (λ st, store_memory (st_inner st) handle);
         let '(r, e') := memory_grow delta e in
         on_inner (modify (put_memory handle e'));; mret r
       else mret None);
  match r with
  | Some old => mret (Some old)
  | None => memory_failed;; mret None
  end.
Definition try_grow_table (handle : Handle) (delta : Z) (init : Ref) (allowed : bool) : SM (StoreT L) (option Z) :=
  r ← (if allowed then
         e ← reads (λ st, store_table (st_inner st) handle);
         let '(r, e') := table_grow delta init e in
         on_inner (modify (put_table handle e'));; mret r
       else mret None);
  match r with
  | Some old => mret (Some old)
  | None => table_failed;; mret None
  end.

Definition grow_memory (handle : Handle) (delta : Z) : SM (StoreT L) (option Z) :=
  e ← reads (λ st, store_memory (st_inner st) handle);
  let current := size_pages e in
  let desired := saturating_add 64 current delta in
  r ← with_sync_limiter (memory_growing (bytes current) (bytes desired) (bytes <$> mt_maximum (me_ty e)));
  try_grow_memory handle delta (default (bytes desired <=? DEFAULT_MEMORY_CEILING_BYTES) r).

Definition grow_table (handle : Handle) (delta : Z) (init : Ref) : SM (StoreT L) (option Z) :=
  e ← reads (λ st, store_table (st_inner st) handle);
  let current := table_size e in
  let desired := saturating_add 64 current (host_count delta) in
  r ← with_sync_limiter (table_growing current desired (host_count <$> tt_maximum (te_ty e)));
  try_grow_table handle delta init (default (desired <=? DEFAULT_TABLE_CEILING_ELEMS) r).

(** [gc.grant(target)]; what the engine counts of it is in [Engine]. *)
Definition gc_grant (target : Z) : SM StoreInner () :=
  modify (λ s, set_si_gc (snd (grant target (si_gc s))) s).

Definition grow_gc_reservation (target bytes_needed : Z) : SM (StoreT L) () :=
  current ← reads (λ st, Ok (gc_reserved (si_gc (st_inner st))));
  if target <=? current then mret tt else
  r ← with_sync_limiter (memory_growing current target None);
  if (default (target <=? ABORT_SAFETY_CAP) r : bool)
  then on_inner (gc_grant target)
  else fail (EGcHeapOutOfMemory bytes_needed).

(** The part of [gc_reserve_host] its async sibling shares: [Some target] asks the limiter. *)
Definition reserve_or_target (charge : Z) : SM (StoreT L) (option Z) :=
  h ← reads (λ st, Ok (si_gc (st_inner st)));
  if fits h charge then mret None else
  st ← get;
  collected ← (if negb (is_free_grant h (desired_reservation h charge)) && gc_collecting h
               then roots ← lift (operand_roots (st_exec_slot st));
                    on_inner (gc_collect roots);;
                    reads (λ st, Ok (fits (si_gc (st_inner st)) charge))
               else mret false);
  if (collected : bool) then mret None else
  h ← reads (λ st, Ok (si_gc (st_inner st)));
  let target := desired_reservation h charge in
  if is_free_grant h target then on_inner (gc_grant target);; mret None else mret (Some target).
Definition gc_reserve_host (charge : Z) : SM (StoreT L) () :=
  r ← reserve_or_target charge;
  match r with None => mret tt | Some target => grow_gc_reservation target charge end.

Definition gc_alloc_externref (value : Z) : SM (StoreT L) Z :=
  gc_reserve_host extern_charge;; on_inner (alloc_externref value).
Definition gc_alloc_exn (entity : ExnEntity) : SM (StoreT L) Rooted :=
  gc_reserve_host (exn_byte_size entity);; on_inner (alloc_exn entity).

Definition limiter_allows_memory (initial : Z) (max : option Z) : SM (StoreT L) bool :=
  r ← with_sync_limiter (memory_growing 0 (bytes initial) (bytes <$> max));
  mret (default (bytes initial <=? DEFAULT_MEMORY_CEILING_BYTES) r).
Definition limiter_allows_table (initial : Z) (max : option Z) : SM (StoreT L) bool :=
  r ← with_sync_limiter (table_growing 0 (host_count initial) (host_count <$> max));
  mret (default (host_count initial <=? DEFAULT_TABLE_CEILING_ELEMS) r).

(** *** The async siblings await either kind of limiter *)
Definition memory_growing_async (current desired : Z) (max : option Z) : SM (StoreT L) bool := λ st,
  match st_limiter st with
  | None => (Ok (desired <=? DEFAULT_MEMORY_CEILING_BYTES), st)
  | Some _ => on_data (memory_growing current desired max) st
  end.
Definition table_growing_async (current desired : Z) (max : option Z) : SM (StoreT L) bool := λ st,
  match st_limiter st with
  | None => (Ok (desired <=? DEFAULT_TABLE_CEILING_ELEMS), st)
  | Some _ => on_data (table_growing current desired max) st
  end.
Definition grow_memory_async (handle : Handle) (delta : Z) : SM (StoreT L) (option Z) :=
  e ← reads (λ st, store_memory (st_inner st) handle);
  let current := size_pages e in
  let desired := saturating_add 64 current delta in
  allowed ← memory_growing_async (bytes current) (bytes desired) (bytes <$> mt_maximum (me_ty e));
  try_grow_memory handle delta allowed.
Definition grow_table_async (handle : Handle) (delta : Z) (init : Ref) : SM (StoreT L) (option Z) :=
  e ← reads (λ st, store_table (st_inner st) handle);
  let current := table_size e in
  let desired := saturating_add 64 current (host_count delta) in
  allowed ← table_growing_async current desired (host_count <$> tt_maximum (te_ty e));
  try_grow_table handle delta init allowed.
Definition limiter_allows_memory_async (initial : Z) (max : option Z) : SM (StoreT L) bool :=
  memory_growing_async 0 (bytes initial) (bytes <$> max).
Definition limiter_allows_table_async (initial : Z) (max : option Z) : SM (StoreT L) bool :=
  table_growing_async 0 (host_count initial) (host_count <$> max).
Definition gc_reserve_host_async (charge : Z) : SM (StoreT L) () :=
  r ← reserve_or_target charge;
  match r with
  | None => mret tt
  | Some target =>
      current ← reads (λ st, Ok (gc_reserved (si_gc (st_inner st))));
      st ← get;
      allowed ← match st_limiter st with
                | None => mret (target <=? ABORT_SAFETY_CAP)
                | Some _ => on_data (memory_growing current target None)
                end;
      if (allowed : bool) then on_inner (gc_grant target) else fail (EGcHeapOutOfMemory charge)
  end.
End growth.

(** ** Facts *)
Section facts.
Context `{HostAlloc, EngineTypes} {L : Type} `{ResourceLimiter L}.
Implicit Types st : StoreT L.

(** Asking the limiter changes the host data only. *)
Lemma with_sync_data {R} (f : SM L R) st r st1 : with_sync_limiter f st = (r, st1) → ∃ d, st1 = set_st_data d st.
Proof.
  unfold with_sync_limiter. destruct (st_limiter st) as [[]|] eqn:Hl; cbn.
  - rewrite bind_unfold. unfold on_data, zoom. destruct (f (st_data st)) as [[x|e|w] d]; intros [= <- <-]; by exists d.
  - intros [= <- <-]. exists (st_data st). by destruct st.
  - intros [= <- <-]. exists (st_data st). by destruct st.
Qed.
Lemma notify_failed_data f why st r st1 : notify_failed f why st = (r, st1) → ∃ d, st1 = set_st_data d st.
Proof.
  unfold notify_failed. destruct (st_limiter st).
  - unfold on_data, zoom. destruct (f _ (st_data st)) as [x d]. intros [= <- <-]. by exists d.
  - intros [= <- <-]. exists (st_data st). by destruct st.
Qed.

Lemma arena_entity_get {E} id (a : list E) h e : arena_entity id a h = Ok e → zget a (h_index h) = Some e.
Proof. unfold arena_entity. destruct (check_handle _ _); cbn; [|done..]. destruct (zget _ _); cbn; congruence. Qed.
Lemma insert_same {E} (a : list E) i e : zget a i = Some e → <[Z.to_nat i := e]> a = a.
Proof. intros Hi. apply list_insert_id. unfold zget in Hi. by destruct (0 <=? i). Qed.
Lemma arena_put_eq {E} id (a : list E) h e e' :
  arena_entity id a h = Ok e → arena_entity id (<[Z.to_nat (h_index h) := e']> a) h = Ok e'.
Proof.
  intros He. pose proof (arena_entity_get _ _ _ _ He) as Hz. revert He. unfold arena_entity.
  destruct (check_handle _ _); cbn; [|done..]. by rewrite (zget_insert_eq _ _ _ (zget_Some _ _ _ Hz)).
Qed.
Lemma arena_put_ne {E} id (a : list E) h h' e' : h_index h' ≠ h_index h → 0 ≤ h_index h →
  arena_entity id (<[Z.to_nat (h_index h) := e']> a) h' = arena_entity id a h'.
Proof. intros Hne Hi. unfold arena_entity. by rewrite zget_insert_ne by lia. Qed.
Lemma put_memory_same s h e : store_memory s h = Ok e → put_memory h e s = s.
Proof. intros Hg%arena_entity_get. unfold put_memory. rewrite insert_same by done. by destruct s. Qed.
Lemma put_table_same s h e : store_table s h = Ok e → put_table h e s = s.
Proof. intros Hg%arena_entity_get. unfold put_table. rewrite insert_same by done. by destruct s. Qed.

Lemma try_grow_memory_run h delta allowed st ent :
  store_memory (st_inner st) h = Ok ent → memory_wf ent → 0 ≤ delta → opt_all (λ x, 0 ≤ x) (mt_maximum (me_ty ent)) →
  let old := size_pages ent in
  let ok := allowed && ((old + delta <=? memory_max (me_ty ent)) && ((old + delta) * PAGE_SIZE <? 2 ^ 64)
            && reserve_bytes (delta * PAGE_SIZE)) in
  ∃ ent', memory_wf ent' ∧ me_ty ent' = me_ty ent ∧ size_pages ent' = (if ok then old + delta else old) ∧
    (∀ i, i < zlen (me_bytes ent) → zget (me_bytes ent') i = zget (me_bytes ent) i) ∧
    (∀ i, zlen (me_bytes ent) ≤ i < zlen (me_bytes ent') → zget (me_bytes ent') i = Some 0) ∧
    try_grow_memory h delta allowed st =
    if ok then (Ok (Some old), set_st_inner (put_memory h ent' (st_inner st)) st)
    else (memory_failed;; mret None) st.
Proof.
  intros He Hwf Hd Hm. cbn zeta. unfold try_grow_memory. destruct allowed; cycle 1.
  { exists ent. split_and!; try done. intros i ?. lia. }
  destruct (memory_grow_spec delta ent Hwf Hd Hm) as (ent' & Hg & Hwf' & Hs & Hty & Hold & Hnew).
  exists ent'. split_and!; try done. rewrite bind_unfold, (reads_Ok (λ st, store_memory (st_inner st) h) _ _ _ He), Hg.
  cbn [andb] in *. unfold on_inner, zoom, modify. destruct (_ && _ && _) in *; cbn; [done|].
  assert (ent' = ent) as -> by (revert Hg; unfold memory_grow; repeat case_match; congruence).
  rewrite bind_unfold. cbn beta iota. rewrite put_memory_same by done. by destruct st.
Qed.

(** [memory.grow] is the limiter's decision, then the entity's.  The limiter (or
    without one the fixed ceiling) is asked once, with the current and the desired
    byte size and the declared maximum; only if it allows the growth, the new size
    is within the memory's maximum and the address space and the host grants the
    bytes does the memory change: its bytes stay, the new ones are zero, and the old
    size is returned.  Otherwise no store state changes, the limiter is told, and
    the result is [None] (or the limiter's trap). *)
Theorem grow_memory_exact h delta st ent r st1 :
  store_memory (st_inner st) h = Ok ent → memory_wf ent → 0 ≤ delta → opt_all (λ x, 0 ≤ x) (mt_maximum (me_ty ent)) →
  let old := size_pages ent in
  let desired := saturating_add 64 old delta in
  with_sync_limiter (memory_growing (bytes old) (bytes desired) (bytes <$> mt_maximum (me_ty ent))) st = (Ok r, st1) →
  let ok := default (bytes desired <=? DEFAULT_MEMORY_CEILING_BYTES) r
            && ((old + delta <=? memory_max (me_ty ent)) && ((old + delta) * PAGE_SIZE <? 2 ^ 64)
            && reserve_bytes (delta * PAGE_SIZE)) in
  (∃ d, st1 = set_st_data d st) ∧
  ∃ ent', memory_wf ent' ∧ me_ty ent' = me_ty ent ∧ size_pages ent' = (if ok then old + delta else old) ∧
    (∀ i, i < zlen (me_bytes ent) → zget (me_bytes ent') i = zget (me_bytes ent) i) ∧
    (∀ i, zlen (me_bytes ent) ≤ i < zlen (me_bytes ent') → zget (me_bytes ent') i = Some 0) ∧
    grow_memory h delta st =
    if ok then (Ok (Some old), set_st_inner (put_memory h ent' (st_inner st)) st1)
    else (memory_failed;; mret None) st1.
Proof.
  intros He Hwf Hd Hm old desired Hr. cbn zeta. pose proof (with_sync_data _ _ _ _ Hr) as [d ->].
  split; [by exists d|].
  destruct (try_grow_memory_run h delta (default (bytes desired <=? DEFAULT_MEMORY_CEILING_BYTES) r)
    (set_st_data d st) ent He Hwf Hd Hm) as (ent' & Hwf' & Hty & Hs & Hold & Hnew & Hrun).
  exists ent'. split_and!; try done. unfold grow_memory. 
  by rewrite (reads_Ok (λ st, store_memory (st_inner st) h) _ _ _ He), (bind_run _ _ _ _ _ Hr).
Qed.

(** The async entry points agree with the sync ones wherever both are allowed: with
    no limiter or a sync one every growth and reservation gives the same result and
    the same store. *)
Theorem async_agrees st :
  st_limiter st ≠ Some LimAsync →
  (∀ h delta, grow_memory_async h delta st = grow_memory h delta st) ∧
  (∀ h delta init, grow_table_async h delta init st = grow_table h delta init st) ∧
  (∀ n max, limiter_allows_memory_async n max st = limiter_allows_memory n max st) ∧
  (∀ n max, limiter_allows_table_async n max st = limiter_allows_table n max st).
Proof.
  intros Hl.
  assert (∀ cur des max, memory_growing_async cur des max st =
    (r ← with_sync_limiter (memory_growing cur des max); mret (default (des <=? DEFAULT_MEMORY_CEILING_BYTES) r)) st) as Hm.
  { intros. unfold memory_growing_async, with_sync_limiter. rewrite bind_unfold.
    destruct (st_limiter st) as [[]|]; [|done|done]. rewrite bind_unfold.
    by destruct (on_data _ _) as [[]]. }
  assert (∀ cur des max, table_growing_async cur des max st =
    (r ← with_sync_limiter (table_growing cur des max); mret (default (des <=? DEFAULT_TABLE_CEILING_ELEMS) r)) st) as Ht.
  { intros. unfold table_growing_async, with_sync_limiter. rewrite bind_unfold.
    destruct (st_limiter st) as [[]|]; [|done|done]. rewrite bind_unfold.
    by destruct (on_data _ _) as [[]]. }
  split_and!.
  - intros h delta. unfold grow_memory_async, grow_memory. rewrite !bind_unfold. unfold reads at 1 2.
    destruct (store_memory (st_inner st) h); [|done..]. rewrite (bind_unfold (memory_growing_async _ _ _)), Hm, !bind_unfold.
    by destruct (with_sync_limiter _ _) as [[]].
  - intros h delta init. unfold grow_table_async, grow_table. rewrite !bind_unfold. unfold reads at 1 2.
    destruct (store_table (st_inner st) h); [|done..]. rewrite (bind_unfold (table_growing_async _ _ _)), Ht, !bind_unfold.
    by destruct (with_sync_limiter _ _) as [[]].
  - intros. apply Hm.
  - intros. apply Ht.
Qed.
End facts.

(** ** [StoreLimits] is enforced *)
Section enforced.
Context `{HostAlloc, EngineTypes}.
Implicit Types st : StoreT StoreLimits.

(** The bounds in force: the configured ones, or the fixed ceilings without a limiter. *)
Definition memory_bound st : option Z :=
  match st_limiter st with None => Some DEFAULT_MEMORY_CEILING_BYTES | Some _ => sl_memory_size (st_data st) end.
Definition table_bound st : option Z :=
  match st_limiter st with None => Some DEFAULT_TABLE_CEILING_ELEMS | Some _ => sl_table_elements (st_data st) end.

(** The GC heap's bound; without a limiter the cap that keeps the process from aborting. *)
Definition gc_bound st : option Z :=
  match st_limiter st with None => Some ABORT_SAFETY_CAP | Some _ => sl_memory_size (st_data st) end.
(** A reservation is within the bound or within the budget authorised up front. *)
Definition gc_within st (reserved : Z) : bool :=
  within reserved (gc_bound st) || is_free_grant (si_gc (st_inner st)) reserved.

Record within_limits st : Prop := {
  wl_memories : Forall (λ m, memory_wf m ∧ opt_all (λ x, 0 ≤ x) (mt_maximum (me_ty m))
                             ∧ within (zlen (me_bytes m)) (memory_bound st) = true) (si_memories (st_inner st));
  wl_tables : Forall (λ t, table_wf t ∧ within (table_size t) (table_bound st) = true) (si_tables (st_inner st));
  wl_reserved : gc_within st (gc_reserved (si_gc (st_inner st))) = true;
}.

(** Everything that makes a memory, a table or the reservation of the GC heap larger,
    or a new memory or table, and collections in between.  A free grant is what the
    interpreter's own reservation makes; its suspension ends in [grow_gc_reservation]. *)
Inductive growth_step st : StoreT StoreLimits → Prop :=
  | GrowMemory h delta r st' : 0 ≤ delta → grow_memory h delta st = (r, st') → growth_step st st'
  | GrowMemoryAsync h delta r st' : 0 ≤ delta → grow_memory_async h delta st = (r, st') → growth_step st st'
  | GrowTable h delta init r st' : u_ok 64 delta → grow_table h delta init st = (r, st') → growth_step st st'
  | GrowTableAsync h delta init r st' : u_ok 64 delta → grow_table_async h delta init st = (r, st') → growth_step st st'
  | NewMemory ty m st1 :
      0 ≤ mt_minimum ty ≤ memory_max ty → opt_all (λ x, 0 ≤ x) (mt_maximum ty) →
      limiter_allows_memory (mt_minimum ty) (mt_maximum ty) st = (Ok true, st1) → memory_new ty = Ok m →
      growth_step st (set_st_inner (snd (alloc_memory m (st_inner st1))) st1)
  | NewTable ty init t st1 :
      0 ≤ tt_minimum ty ≤ table_max ty →
      limiter_allows_table (tt_minimum ty) (tt_maximum ty) st = (Ok true, st1) → table_new ty init = Ok t →
      growth_step st (set_st_inner (snd (alloc_table t (st_inner st1))) st1)
  | GrowGc target needed r st' : grow_gc_reservation target needed st = (r, st') → growth_step st st'
  | ReserveHost charge r st' : gc_reserve_host charge st = (r, st') → growth_step st st'
  | ReserveHostAsync charge r st' : gc_reserve_host_async charge st = (r, st') → growth_step st st'
  | FreeGrant target :
      is_free_grant (si_gc (st_inner st)) target = true → growth_step st (set_st_inner (gc_grant target (st_inner st)).2 st)
  | Collection roots r s' : gc_collect roots (st_inner st) = (r, s') → growth_step st (set_st_inner s' st).

Lemma within_bytes desired limit : 0 ≤ desired → desired * PAGE_SIZE < 2 ^ 64 → within (bytes desired) limit = within (desired * PAGE_SIZE) limit.
Proof.
  intros H1 H2. unfold bytes, host_count, saturating_mul, PAGE_SIZE in *.
  rewrite (proj2 (Z.ltb_lt _ _)) by lia. rewrite Z.min_l by lia. done.
Qed.

(** What [StoreLimits] answers, and that answering changes nothing. *)
Lemma limits_sync_memory cur des max st r st1 :
  with_sync_limiter (memory_growing cur des max) st = (r, st1) →
  st1 = st ∧ ∀ o, r = Ok o → default (des <=? DEFAULT_MEMORY_CEILING_BYTES) o = true → within des (memory_bound st) = true.
Proof.
  unfold with_sync_limiter, memory_bound. destruct (st_limiter st) as [[]|] eqn:Hl; cbn.
  - intros [= <- <-]. split; [by destruct st|]. intros o [= <-]. cbn. by intros [? _]%andb_prop.
  - intros [= <- <-]. done.
  - intros [= <- <-]. split; [done|]. intros o [= <-]. done.
Qed.
Lemma limits_sync_table cur des max st r st1 :
  with_sync_limiter (table_growing cur des max) st = (r, st1) →
  st1 = st ∧ ∀ o, r = Ok o → default (des <=? DEFAULT_TABLE_CEILING_ELEMS) o = true → within des (table_bound st) = true.
Proof.
  unfold with_sync_limiter, table_bound. destruct (st_limiter st) as [[]|] eqn:Hl; cbn.
  - intros [= <- <-]. split; [by destruct st|]. intros o [= <-]. cbn. by intros [? _]%andb_prop.
  - intros [= <- <-]. done.
  - intros [= <- <-]. split; [done|]. intros o [= <-]. done.
Qed.
Lemma limits_async_memory cur des max st r st1 :
  memory_growing_async cur des max st = (r, st1) → st1 = st ∧ (r = Ok true → within des (memory_bound st) = true).
Proof.
  unfold memory_growing_async, memory_bound. destruct (st_limiter st) as [k|] eqn:Hl; cbn.
  - intros [= <- <-]. split; [by destruct st|]. by intros [= [? _]%andb_prop].
  - intros [= <- <-]. split; [done|]. by intros [= ?].
Qed.
Lemma limits_async_table cur des max st r st1 :
  table_growing_async cur des max st = (r, st1) → st1 = st ∧ (r = Ok true → within des (table_bound st) = true).
Proof.
  unfold table_growing_async, table_bound. destruct (st_limiter st) as [k|] eqn:Hl; cbn.
  - intros [= <- <-]. split; [by destruct st|]. by intros [= [? _]%andb_prop].
  - intros [= <- <-]. split; [done|]. by intros [= ?].
Qed.
Lemma limits_notify why st r st' :
  ((notify_failed memory_grow_failed why;; mret (@None Z)) st = (r, st') → st' = st) ∧
  ((notify_failed table_grow_failed why;; mret (@None Z)) st = (r, st') → st' = st).
Proof.
  unfold notify_failed. rewrite !bind_unfold.
  destruct st as [s ex [k|] [? ? ? ? ? []]]; cbn; split; by intros [= <- <-].
Qed.

Lemma within_put_memory st h ent ent' :
  within_limits st → store_memory (st_inner st) h = Ok ent → memory_wf ent' → me_ty ent' = me_ty ent →
  within (zlen (me_bytes ent')) (memory_bound st) = true → within_limits (set_st_inner (put_memory h ent' (st_inner st)) st).
Proof.
  intros [Hm Ht ?] Hg%arena_entity_get Hwf Hty Hb. split; [|done|done]. cbn. apply Forall_insert; [done|].
  split_and!; [done| |done]. rewrite Hty. unfold zget in Hg. destruct (0 <=? h_index h); [|done].
  rewrite Forall_lookup in Hm. by destruct (Hm _ _ Hg) as (_ & ? & _).
Qed.
Lemma try_grow_memory_limits h delta allowed st r st' :
  within_limits st → 0 ≤ delta → try_grow_memory h delta allowed st = (r, st') →
  (∀ ent, store_memory (st_inner st) h = Ok ent → allowed = true →
     within (bytes (saturating_add 64 (size_pages ent) delta)) (memory_bound st) = true) → within_limits st'.
Proof.
  intros Hwl Hd Hrun Hall. destruct (store_memory (st_inner st) h) as [ent|e|w] eqn:He.
  - pose proof Hwl as [Hm _ _]. rewrite Forall_lookup in Hm. pose proof (arena_entity_get _ _ _ _ He) as Hg.
    unfold zget in Hg. destruct (0 <=? h_index h) eqn:?; [|done]. destruct (Hm _ _ Hg) as (Hwf & Hmax & Hb).
    destruct (try_grow_memory_run h delta allowed st ent He Hwf Hd Hmax) as (ent' & Hwf' & Hty & Hs & _ & _ & Hr).
    rewrite Hr in Hrun. destruct allowed; cycle 1.
    { cbn [andb] in Hrun. by apply (limits_notify "failed to grow memory" _ _ _) in Hrun as ->. }
    cbn [andb] in Hrun, Hs. destruct (_ && _ && _) eqn:Hok in Hrun; rewrite Hok in Hs; cycle 1.
    { by apply (limits_notify "failed to grow memory" _ _ _) in Hrun as ->. }
    injection Hrun as <- <-. apply (within_put_memory st h ent); try done.
    apply andb_prop in Hok as [[H1%Z.leb_le H2%Z.ltb_lt]%andb_prop _].
    specialize (Hall ent eq_refl eq_refl). destruct Hwf' as [Hl _]. rewrite Hl, Hs.
    pose proof (memory_max_bound (me_ty ent)) as Hmb.
    assert (0 ≤ size_pages ent) by (apply Z.div_pos; [apply zlen_nonneg|done]).
    assert (memory_max (me_ty ent) ≤ 2 ^ 48).
    { apply Hmb. destruct (mt_maximum (me_ty ent)); cbn in *; [done|]. unfold memory_arch_max, MAX_PAGES. by destruct (mt_memory64 _). }
    unfold saturating_add in Hall. rewrite Z.min_l in Hall by lia. by rewrite within_bytes in Hall by lia.
  - revert Hrun. unfold try_grow_memory. destruct allowed.
    + rewrite !bind_unfold. unfold reads. rewrite He. by intros [= <- <-].
    + by intros ->%(limits_notify "failed to grow memory" _ _ _).
  - revert Hrun. unfold try_grow_memory. destruct allowed.
    + rewrite !bind_unfold. unfold reads. rewrite He. by intros [= <- <-].
    + by intros ->%(limits_notify "failed to grow memory" _ _ _).
Qed.

Lemma try_grow_table_limits h delta init allowed st r st' :
  within_limits st → u_ok 64 delta → try_grow_table h delta init allowed st = (r, st') →
  (∀ t, store_table (st_inner st) h = Ok t → allowed = true →
     within (saturating_add 64 (table_size t) (host_count delta)) (table_bound st) = true) → within_limits st'.
Proof.
  intros Hwl [Hd Hd'] Hrun Hall. unfold try_grow_table in Hrun. destruct allowed; cycle 1.
  { by apply (limits_notify "failed to grow table" _ _ _) in Hrun as ->. }
  rewrite !bind_unfold in Hrun. unfold reads at 1 in Hrun.
  destruct (store_table (st_inner st) h) as [t|e|w] eqn:Ht; [|by injection Hrun as <- <-..].
  pose proof Hwl as [Hms Hts ?]. rewrite Forall_lookup in Hts. pose proof (arena_entity_get _ _ _ _ Ht) as Hg.
  unfold zget in Hg. destruct (0 <=? h_index h) eqn:?; [|done]. destruct (Hts _ _ Hg) as (Hwf & Hb).
  destruct (table_grow_spec delta init t Hwf Hd) as (t' & Hgr & Hwf' & Hs & Hty & _). rewrite Hgr in Hrun.
  destruct (_ && _) eqn:Hok in Hrun; rewrite Hok in Hs.
  - injection Hrun as <- <-. split; [done| |done]. cbn. apply Forall_insert; [by apply Forall_lookup|]. split; [done|].
    apply andb_prop in Hok as [Hle%Z.leb_le _]. specialize (Hall t eq_refl eq_refl). rewrite Hs.
    pose proof (zlen_nonneg (te_elems t)). fold (table_size t) in *.
    assert (table_max (te_ty t) < 2 ^ 64) by (unfold table_max, table_arch_max, u_max; destruct (tt_table64 _); lia).
    unfold saturating_add, host_count in Hall. rewrite (proj2 (Z.ltb_lt _ _)) in Hall by done.
    by rewrite Z.min_l in Hall by lia.
  - assert (t' = t) as -> by (revert Hgr; unfold table_grow; repeat case_match; congruence).
    unfold on_inner, zoom, modify in Hrun. rewrite bind_unfold in Hrun. cbn beta iota in Hrun.
    rewrite put_table_same in Hrun by done. destruct st. by apply (limits_notify "failed to grow table" _ _ _) in Hrun as ->.
Qed.

Lemma grow_memory_limits h delta st r st' :
  within_limits st → 0 ≤ delta → grow_memory h delta st = (r, st') ∨ grow_memory_async h delta st = (r, st') → within_limits st'.
Proof.
  intros Hwl Hd [Hrun|Hrun]; unfold grow_memory, grow_memory_async in Hrun; rewrite bind_unfold in Hrun; unfold reads at 1 in Hrun;
    (destruct (store_memory (st_inner st) h) as [ent|e|w] eqn:He; [|by injection Hrun as <- <-..]); rewrite bind_unfold in Hrun.
  - destruct (with_sync_limiter _ st) as [[o|e|w] st1] eqn:Hq; apply limits_sync_memory in Hq as [-> Hq]; [|by injection Hrun as <- <-..].
    eapply try_grow_memory_limits; [done..|]. intros ent' He'. rewrite He in He'. injection He' as <-. by apply Hq.
  - destruct (memory_growing_async _ _ _ st) as [[o|e|w] st1] eqn:Hq; apply limits_async_memory in Hq as [-> Hq]; [|by injection Hrun as <- <-..].
    eapply try_grow_memory_limits; [done..|]. intros ent' He'. rewrite He in He'. injection He' as <-. intros ->. by apply Hq.
Qed.
Lemma grow_table_limits h delta init st r st' :
  within_limits st → u_ok 64 delta → grow_table h delta init st = (r, st') ∨ grow_table_async h delta init st = (r, st') →
  within_limits st'.
Proof.
  intros Hwl Hd [Hrun|Hrun]; unfold grow_table, grow_table_async in Hrun; rewrite bind_unfold in Hrun; unfold reads at 1 in Hrun;
    (destruct (store_table (st_inner st) h) as [ent|e|w] eqn:He; [|by injection Hrun as <- <-..]); rewrite bind_unfold in Hrun.
  - destruct (with_sync_limiter _ st) as [[o|e|w] st1] eqn:Hq; apply limits_sync_table in Hq as [-> Hq]; [|by injection Hrun as <- <-..].
    eapply try_grow_table_limits; [done..|]. intros ent' He'. rewrite He in He'. injection He' as <-. by apply Hq.
  - destruct (table_growing_async _ _ _ st) as [[o|e|w] st1] eqn:Hq; apply limits_async_table in Hq as [-> Hq]; [|by injection Hrun as <- <-..].
    eapply try_grow_table_limits; [done..|]. intros ent' He'. rewrite He in He'. injection He' as <-. intros ->. by apply Hq.
Qed.

(** The reservation of the GC heap. *)
Lemma limits_sync_gc cur target st r st1 :
  with_sync_limiter (memory_growing cur target None) st = (r, st1) →
  st1 = st ∧ ∀ o, r = Ok o → default (target <=? ABORT_SAFETY_CAP) o = true → gc_within st target = true.
Proof.
  unfold with_sync_limiter, gc_within, gc_bound. destruct (st_limiter st) as [[]|] eqn:Hl; cbn.
  - intros [= <- <-]. split; [by destruct st|]. intros o [= <-]. cbn. intros [-> _]%andb_prop. done.
  - intros [= <- <-]. done.
  - intros [= <- <-]. split; [done|]. intros o [= <-]. cbn. by intros ->.
Qed.
Lemma gc_grant_within target st :
  within_limits st → gc_within st target = true → within_limits (set_st_inner (gc_grant target (st_inner st)).2 st).
Proof. by intros [] Ht. Qed.
Lemma grow_gc_within target needed st r st' :
  within_limits st → grow_gc_reservation target needed st = (r, st') → within_limits st'.
Proof.
  intros Hwl. unfold grow_gc_reservation. rewrite (reads_Ok (λ st, Ok (gc_reserved (si_gc (st_inner st)))) _ st _ eq_refl).
  destruct (target <=? _); [by intros [= <- <-]|]. rewrite bind_unfold.
  destruct (with_sync_limiter _ st) as [[o|e|w] st1] eqn:Hq; apply limits_sync_gc in Hq as [-> Hq]; [|by intros [= <- <-]..].
  destruct (default _ o) eqn:Ho; intros [= <- <-]; [|done]. apply gc_grant_within; [done|]. by apply (Hq o).
Qed.

(** What a collection leaves alone, however it ends. *)
Definition bounded_part (s : StoreInner) : list MemoryEntity * list TableEntity * (Z * Z * Z * bool) :=
  (si_memories s, si_tables s, gc_budget (si_gc s)).
Lemma mark_budget i h : gc_budget (mark i h).2 = gc_budget h.
Proof. unfold mark. destruct (gc_get h i); [|done]. cbv zeta. destruct (zget _ _); [|done]. by destruct (negb _). Qed.
Lemma trace_loop_bounded fuel work ext exn s r s' :
  trace_loop fuel work ext exn s = Some (r, s') → bounded_part s' = bounded_part s.
Proof.
  revert work ext exn s. induction fuel as [|fuel IH]; [done|]. intros work ext exn s. cbn [trace_loop].
  destruct (vec_pop work) as [[w [i|i|i]]|]; [| | |by intros [= <- <-]].
  - destruct (gc_get _ i); [|by intros [= <- <-]]. destruct (mark i (si_gc s)) as [new h] eqn:Hm.
    pose proof (mark_budget i (si_gc s)) as Hb. rewrite Hm in Hb. cbn in Hb.
    assert (bounded_part (set_si_gc h s) = bounded_part s) as Hs by (unfold bounded_part; cbn; by rewrite Hb).
    destruct new; [|by intros ->%IH]. destruct (trace_gc _ i); [by intros ->%IH|by intros [= <- <-]..].
  - destruct (decide _); [by intros ->%IH|]. destruct (trace_extern s i); [by intros ->%IH|by intros [= <- <-]..].
  - destruct (decide _); [by intros ->%IH|]. destruct (trace_exn s i); [by intros ->%IH|by intros [= <- <-]..].
Qed.
Lemma gc_collect_bounded roots s r s' : gc_collect roots s = (r, s') → bounded_part s' = bounded_part s.
Proof.
  unfold gc_collect. destruct (collect roots s) as [[x s1]|] eqn:Hc; [|by intros [= <- <-]].
  intros [= -> ->]. revert Hc. unfold collect. destruct (negb _); [by intros [= <- <-]|].
  unfold trace_reachable. destruct (trace_loop _ _ _ _ s) as [[x s1]|] eqn:Ht; cbn [option_bind mbind]; [|done].
  apply trace_loop_bounded in Ht. rewrite <- Ht. destruct x as [[ext exn]|e|w]; [|by intros [= <- <-]..].
  unfold zoom. rewrite bind_unfold. destruct (reclaim_sweep _ _ (si_externrefs s1)) as [[x1|e|w] a1]; [|by intros [= <- <-]..].
  rewrite bind_unfold. cbn [modify]. rewrite bind_unfold.
  destruct (reclaim_sweep _ _ _) as [[x2|e|w] a2]; [|by intros [= <- <-]..].
  rewrite bind_unfold. cbn [modify]. unfold gc_sweep. destruct (sweep_go _ _ _ _) as [[[[? ?] ?] ?]|]; by intros [= <- <-].
Qed.
Lemma within_bounded st s' : within_limits st → bounded_part s' = bounded_part (st_inner st) → within_limits (set_st_inner s' st).
Proof.
  intros [Hm Ht Hg] [= H1 H2 H3 H4 _ _]. split; cbn; rewrite ?H1, ?H2; [done..|].
  revert Hg. unfold gc_within, is_free_grant. cbn. by rewrite H3, H4.
Qed.
Lemma reserve_or_target_within charge st r st' :
  within_limits st → reserve_or_target charge st = (r, st') → within_limits st'.
Proof.
  intros Hwl. unfold reserve_or_target. rewrite (reads_Ok (λ st, Ok (si_gc (st_inner st))) _ st _ eq_refl).
  destruct (fits _ charge); [by intros [= <- <-]|]. rewrite get_run, bind_unfold.
  assert (∀ st1, within_limits st1 →
    (h ← reads (λ st, Ok (si_gc (st_inner st))); let target := desired_reservation h charge in
     if is_free_grant h target then on_inner (gc_grant target);; mret None else mret (Some target)) st1 = (r, st') →
    within_limits st') as Hend.
  { intros st1 Hw1. rewrite (reads_Ok (λ st, Ok (si_gc (st_inner st))) _ st1 _ eq_refl). cbv zeta.
    destruct (is_free_grant _ _) eqn:Hf; intros [= <- <-]; [|done]. apply gc_grant_within; [done|]. unfold gc_within.
    by rewrite Hf, orb_true_r. }
  destruct (negb _ && _); [|by apply Hend]. rewrite bind_unfold. unfold lift.
  destruct (operand_roots _) as [roots|e|w]; [|by intros [= <- <-]..]. rewrite bind_unfold. unfold on_inner at 1, zoom at 1.
  destruct (gc_collect roots (st_inner st)) as [x s1] eqn:Hc. apply gc_collect_bounded in Hc.
  pose proof (within_bounded _ _ Hwl Hc) as Hw1. destruct x as [[]|e|w]; [|by intros [= <- <-]..].
  unfold reads at 1. destruct (fits _ charge); [by intros [= <- <-]|]. by apply Hend.
Qed.
Lemma reserve_host_within charge st r st' :
  within_limits st → gc_reserve_host charge st = (r, st') ∨ gc_reserve_host_async charge st = (r, st') → within_limits st'.
Proof.
  intros Hwl [Hrun|Hrun]; unfold gc_reserve_host, gc_reserve_host_async in Hrun; rewrite bind_unfold in Hrun;
    destruct (reserve_or_target charge st) as [[o|e|w] st1] eqn:Hr; apply reserve_or_target_within in Hr; try done;
    try (by injection Hrun as <- <-); (destruct o as [target|]; [|by injection Hrun as <- <-]); [by eapply grow_gc_within|].
  rewrite (reads_Ok (λ st, Ok (gc_reserved (si_gc (st_inner st)))) _ st1 _ eq_refl), get_run, bind_unfold in Hrun.
  destruct (st_limiter st1) as [k|] eqn:Hk.
  - cbn in Hrun. destruct st1 as [s1 ex1 l1 d1]. cbn in *. subst l1.
    destruct (within target (sl_memory_size d1)) eqn:Hl; cbn in Hrun; [|by injection Hrun as <- <-].
    injection Hrun as <- <-. apply (gc_grant_within target {| st_inner := s1; st_exec_slot := ex1; st_limiter := Some k; st_data := d1 |}); [done|].
    unfold gc_within, gc_bound. cbn. by rewrite Hl.
  - cbn in Hrun. destruct (target <=? ABORT_SAFETY_CAP) eqn:Hl; [|by injection Hrun as <- <-].
    injection Hrun as <- <-. apply gc_grant_within; [done|]. unfold gc_within, gc_bound. rewrite Hk. cbn. by rewrite Hl.
Qed.

Lemma growth_step_within st st' : within_limits st → growth_step st st' → within_limits st'.
Proof.
  intros Hwl [h delta r st1 Hd Hr|h delta r st1 Hd Hr|h delta init r st1 Hd Hr|h delta init r st1 Hd Hr
             |ty m st1 Hmin Hmax Hr Hm|ty init t st1 Hmin Hr Ht|target needed r st1 Hr|charge r st1 Hr|charge r st1 Hr
             |target Hf|roots r s1 Hr].
  1,2: by eapply grow_memory_limits; eauto.
  1,2: by eapply grow_table_limits; eauto.
  - unfold limiter_allows_memory in Hr. rewrite bind_unfold in Hr.
    destruct (with_sync_limiter _ st) as [[o|e|w] st2] eqn:Hq; [|done..]. injection Hr as Ho <-.
    apply limits_sync_memory in Hq as [-> Hq]. specialize (Hq o eq_refl Ho).
    destruct (memory_new_spec ty m (proj1 Hmin) (proj2 Hmin) Hm) as (Hwf & Hs & Hty & _).
    destruct Hwl as [Hms Hts ?]. split; [|done|done]. cbn. apply Forall_app. split; [done|]. apply Forall_singleton.
    split_and!; [done|by rewrite Hty|]. destruct Hwf as [-> _]. rewrite Hs. rewrite within_bytes in Hq; [done|lia|].
    revert Hm. unfold memory_new, checked_mul. by destruct (Z.ltb_spec (mt_minimum ty * PAGE_SIZE) (2 ^ 64)).
  - unfold limiter_allows_table in Hr. rewrite bind_unfold in Hr.
    destruct (with_sync_limiter _ st) as [[o|e|w] st2] eqn:Hq; [|done..]. injection Hr as Ho <-.
    apply limits_sync_table in Hq as [-> Hq]. specialize (Hq o eq_refl Ho).
    unfold table_new in Ht. destruct (reserve_elems _); [|done]. injection Ht as <-.
    destruct Hwl as [Hms Hts ?]. split; [done| |done]. cbn. apply Forall_app. split; [done|]. apply Forall_singleton.
    unfold table_wf, table_size. cbn. rewrite zlen_resize by lia. split; [lia|].
    assert (table_max ty < 2 ^ 64) by (unfold table_max, table_arch_max, u_max; destruct (tt_table64 _); lia).
    revert Hq. unfold host_count. by rewrite (proj2 (Z.ltb_lt _ _)) by lia.
  - by eapply grow_gc_within.
  - eapply reserve_host_within; eauto.
  - eapply reserve_host_within; eauto.
  - apply gc_grant_within; [done|]. unfold gc_within. by rewrite Hf, orb_true_r.
  - apply within_bounded; [done|]. by eapply gc_collect_bounded.
Qed.

End enforced.

(** ** Concrete instances *)
Definition generous : HostAlloc := {| reserve_bytes := λ _, true; reserve_elems := λ _, true |}.
Definition page_memory (pages : Z) : MemoryEntity :=
  {| me_bytes := replicate (Z.to_nat (pages * PAGE_SIZE)) 0;
     me_ty := {| mt_minimum := pages; mt_maximum := Some 3; mt_memory64 := false |} |}.
Definition mem_handle : Handle := {| h_index := 0; h_store := 1 |}.
(** An empty memory of at most three pages, under a limit of two. *)
Definition limited_store : StoreT StoreLimits :=
  {| st_inner := set_si_memories [page_memory 0] (store_new 1 true 0); st_exec_slot := execution_default;
     st_limiter := Some LimSync; st_data := with_memory_size (2 * PAGE_SIZE) store_limits_default |}.

Lemma grow_memory_exact_witness :
  (@grow_memory generous StoreLimits StoreLimits_limiter mem_handle 3 limited_store).1 = Ok None ∧
  (@grow_memory generous StoreLimits StoreLimits_limiter mem_handle 2 limited_store).1 = Ok (Some 0).
Proof.
  assert (memory_wf (page_memory 0)) as Hwf by (split; vm_compute; congruence).
  split.
  - destruct (@grow_memory_exact generous StoreLimits StoreLimits_limiter mem_handle 3 limited_store (page_memory 0) (Some false) limited_store
      eq_refl Hwf ltac:(lia) ltac:(cbn; lia) ltac:(vm_compute; reflexivity)) as [_ (ent' & _ & _ & _ & _ & _ & ->)]. reflexivity.
  - destruct (@grow_memory_exact generous StoreLimits StoreLimits_limiter mem_handle 2 limited_store (page_memory 0) (Some true) limited_store
      eq_refl Hwf ltac:(lia) ltac:(cbn; lia) ltac:(vm_compute; reflexivity)) as [_ (ent' & _ & _ & _ & _ & _ & ->)]. reflexivity.
Defined.

Lemma async_agrees_witness :
  (@grow_memory_async generous StoreLimits StoreLimits_limiter mem_handle 3 limited_store).1 = Ok None.
Proof.
  destruct (@async_agrees generous StoreLimits StoreLimits_limiter limited_store) as (H & _); [discriminate|]. rewrite (H mem_handle 3).
  reflexivity.
Defined.

