(* ===== verification/Memory.v ===== *)
(** * Memory: linear memory and table instructions
    (src/src/exec/memory.rs, src/src/exec/table.rs)

    An instruction runs on a [Vm]: the execution and the store.  Loads and stores
    are proved to hit exactly the bytes of the unbounded effective address and to
    trap exactly when it leaves the memory; the bulk instructions are proved to be
    the whole-range copy or fill, overlap included, or to change no byte. *)
From S2P Require Import Prelude Types Layout Codec Arena Heap Op Entity Store Stack.
Open Scope Z_scope.

Record Vm : Type := { vm_ex : Execution; vm_store : StoreInner }.
Definition set_vm_ex (ex : Execution) (v : Vm) : Vm := {| vm_ex := ex; vm_store := vm_store v |}.
Definition set_vm_store (s : StoreInner) (v : Vm) : Vm := {| vm_ex := vm_ex v; vm_store := s |}.

(** A method of the execution, a query of the store, an update of the store. *)
Definition on_ex {A} (m : SM Execution A) : SM Vm A := zoom vm_ex set_vm_ex m.
Definition on_store {A} (m : SM StoreInner A) : SM Vm A := zoom vm_store set_vm_store m.
Definition ask {A} (f : StoreInner → res A) : SM Vm A := reads (λ v, f (vm_store v)).

(** [u64] ranges inside a total; memory.rs and table.rs differ in the trap. *)
Definition checked_range (trap : Trap) (start len total : Z) : res Z :=
  match checked_add 64 start len with
  | Some end_ => if end_ <=? total then Ok end_ else Err (ETrap trap)
  | None => Err (ETrap trap)
  end.

(** [inner.instance(instance).memories[idx]], and the same for tables. *)
Definition mem (instance : Handle) (idx : Z) (s : StoreInner) : res Handle :=
  i ← store_instance s instance; expect (zget (ie_memories i) idx) "index out of bounds".
Definition tab (instance : Handle) (idx : Z) (s : StoreInner) : res Handle :=
  i ← store_instance s instance; expect (zget (ie_tables i) idx) "index out of bounds".

Definition mem_oob : error := ETrap MemoryOutOfBounds.
Definition table_oob : error := ETrap TableOutOfBounds.

Definition resolve (code : Code) (m : MemArg) : res (Z * Z) :=
  if ma_offset m =? BIG_MEMARG then
    pool ← code_big_memargs code;
    big ← expect (zget pool (ma_memory m)) "index out of bounds";
    Ok (bm_memory big, bm_offset big)
  else Ok (ma_memory m, ma_offset m).

(** [entity.dropped_data[seg] = true], [entity.elems[seg] = Vec::new()] *)
Definition drop_data (instance : Handle) (seg : Z) : SM StoreInner () := λ s,
  match store_instance s instance with
  | Ok i =>
      match zset (ie_dropped_data i) seg true with
      | Some d =>
          (Ok tt, put_instance instance
             {| ie_module := ie_module i; ie_funcs := ie_funcs i; ie_memories := ie_memories i;
                ie_globals := ie_globals i; ie_tables := ie_tables i; ie_tags := ie_tags i;
                ie_dropped_data := d; ie_elems := ie_elems i |} s)
      | None => (Panic "index out of bounds", s)
      end
  | Err e => (Err e, s)
  | Panic w => (Panic w, s)
  end.
Definition drop_elem (instance : Handle) (seg : Z) : SM StoreInner () := λ s,
  match store_instance s instance with
  | Ok i =>
      match zset (ie_elems i) seg [] with
      | Some d =>
          (Ok tt, put_instance instance
             {| ie_module := ie_module i; ie_funcs := ie_funcs i; ie_memories := ie_memories i;
                ie_globals := ie_globals i; ie_tables := ie_tables i; ie_tags := ie_tags i;
                ie_dropped_data := ie_dropped_data i; ie_elems := d |} s)
      | None => (Panic "index out of bounds", s)
      end
  | Err e => (Err e, s)
  | Panic w => (Panic w, s)
  end.

(** Replace a memory's bytes by the outcome of a slice operation. *)
Definition write_bytes (h : Handle) (ent : MemoryEntity) (r : option (list Z)) : SM Vm () :=
  match r with
  | Some bytes =>
      on_store (modify (put_memory h {| me_bytes := bytes; me_ty := me_ty ent |}))
  | None => panic "slice index"
  end.

Section exec.
Context `{Features}.

(** ** Memories *)
Definition mem_ea (n : Z) (entity : MemoryEntity) (offset : Z) : SM Execution Z :=
  addr ← pop_index (mt_memory64 (me_ty entity));
  ea ← lift (ok_or (checked_add 64 addr offset) mem_oob);
  end_ ← lift (ok_or (checked_add 64 ea n) mem_oob);
  if zlen (me_bytes entity) <? end_ then fail mem_oob else mret ea.

Definition load_n (n : Z) (code : Code) (instance : Handle) (m : MemArg) : SM Vm (list Z) :=
  mo ← lift (resolve code m);
  h ← ask (mem instance (fst mo));
  entity ← ask (λ s, store_memory s h);
  ea ← on_ex (mem_ea n entity (snd mo));
  lift (expect (zslice (me_bytes entity) ea (ea + n)) "slice index").

Definition store_n (code : Code) (instance : Handle) (m : MemArg) (data : list Z) : SM Vm () :=
  mo ← lift (resolve code m);
  h ← ask (mem instance (fst mo));
  entity ← ask (λ s, store_memory s h);
  ea ← on_ex (mem_ea (zlen data) entity (snd mo));
  write_bytes h entity (zsplice (me_bytes entity) ea data).

Definition memory_copy (instance : Handle) (dst_i src_i : Z) : SM Vm () :=
  dst_mem ← ask (mem instance dst_i);
  src_mem ← ask (mem instance src_i);
  dst_e ← ask (λ s, store_memory s dst_mem);
  src_e ← ask (λ s, store_memory s src_mem);
  let dst_64 := mt_memory64 (me_ty dst_e) in
  let src_64 := mt_memory64 (me_ty src_e) in
  len ← on_ex (pop_index (dst_64 && src_64));
  src ← on_ex (pop_index src_64);
  dst ← on_ex (pop_index dst_64);
  lift (checked_range MemoryOutOfBounds src len (zlen (me_bytes src_e)));;
  lift (checked_range MemoryOutOfBounds dst len (zlen (me_bytes dst_e)));;
  if dst_i =? src_i then
    write_bytes dst_mem dst_e (zcopy_within (me_bytes dst_e) src (src + len) dst)
  else
    chunk ← lift (expect (zslice (me_bytes src_e) src (src + len)) "slice index");
    write_bytes dst_mem dst_e (zsplice (me_bytes dst_e) dst chunk).

Definition memory_init (instance : Handle) (seg mem_i : Z) : SM Vm () :=
  h0 ← ask (mem instance mem_i);
  e0 ← ask (λ s, store_memory s h0);
  len ← on_ex (x ← pop_i32; mret (wrap 32 x));
  src ← on_ex (x ← pop_i32; mret (wrap 32 x));
  dst ← on_ex (pop_index (mt_memory64 (me_ty e0)));
  entity ← ask (λ s, store_instance s instance);
  dropped ← lift (expect (zget (ie_dropped_data entity) seg) "index out of bounds");
  ds ← lift (expect (zget (mi_datas (ie_module entity)) seg) "index out of bounds");
  let data_len := if (dropped : bool) then 0 else zlen (ds_bytes ds) in
  src_end ← lift (checked_range MemoryOutOfBounds src len data_len);
  h ← ask (mem instance mem_i);
  ent ← ask (λ s, store_memory s h);
  lift (checked_range MemoryOutOfBounds dst len (zlen (me_bytes ent)));;
  chunk ← lift (expect (zslice (ds_bytes ds) src src_end) "slice index");
  write_bytes h ent (zsplice (me_bytes ent) dst chunk).

Definition memory_fill (instance : Handle) (i : Z) : SM Vm () :=
  h ← ask (mem instance i);
  ent ← ask (λ s, store_memory s h);
  let is_64 := mt_memory64 (me_ty ent) in
  len ← on_ex (pop_index is_64);
  val ← on_ex (x ← pop_i32; mret (wrap 8 x));
  dst ← on_ex (pop_index is_64);
  end_ ← lift (checked_range MemoryOutOfBounds dst len (zlen (me_bytes ent)));
  write_bytes h ent
    (if (dst <=? end_) && (end_ <=? zlen (me_bytes ent))
     then zsplice (me_bytes ent) dst (replicate (Z.to_nat (end_ - dst)) val) else None).

Definition exec_memory (code : Code) (op : Op) (instance : Handle) : SM Vm () :=
  let load n m (push_it : list Z → Execution → Execution) :=
    b ← load_n n code instance m; on_ex (modify (push_it b)) in
  let store (pop_it : SM Execution Z) (n : nat) m :=
    v ← on_ex pop_it; store_n code instance m (to_le_bytes n v) in
  match op with
  | OpDataDrop seg => on_store (drop_data instance seg)
  | OpI32Load m => load 4 m (λ b, push_i32 (sgn 32 (from_le_bytes b)))
  | OpI64Load m => load 8 m (λ b, push_i64 (sgn 64 (from_le_bytes b)))
  | OpF32Load m => load 4 m (λ b, push_f32 (from_le_bytes b))
  | OpF64Load m => load 8 m (λ b, push_f64 (from_le_bytes b))
  | OpI32Load8S m => load 1 m (λ b, push_i32 (sgn 8 (from_le_bytes b)))
  | OpI32Load8U m => load 1 m (λ b, push_i32 (from_le_bytes b))
  | OpI32Load16S m => load 2 m (λ b, push_i32 (sgn 16 (from_le_bytes b)))
  | OpI32Load16U m => load 2 m (λ b, push_i32 (from_le_bytes b))
  | OpI64Load8S m => load 1 m (λ b, push_i64 (sgn 8 (from_le_bytes b)))
  | OpI64Load8U m => load 1 m (λ b, push_i64 (from_le_bytes b))
  | OpI64Load16S m => load 2 m (λ b, push_i64 (sgn 16 (from_le_bytes b)))
  | OpI64Load16U m => load 2 m (λ b, push_i64 (from_le_bytes b))
  | OpI64Load32S m => load 4 m (λ b, push_i64 (sgn 32 (from_le_bytes b)))
  | OpI64Load32U m => load 4 m (λ b, push_i64 (from_le_bytes b))
  | OpI32Store m => store pop_i32 4%nat m
  | OpI64Store m => store pop_i64 8%nat m
  | OpF32Store m => store pop_f32 4%nat m
  | OpF64Store m => store pop_f64 8%nat m
  | OpI32Store8 m => store (v ← pop_i32; mret (wrap 8 v)) 1%nat m
  | OpI32Store16 m => store (v ← pop_i32; mret (wrap 16 v)) 2%nat m
  | OpI64Store8 m => store (v ← pop_i64; mret (wrap 8 v)) 1%nat m
  | OpI64Store16 m => store (v ← pop_i64; mret (wrap 16 v)) 2%nat m
  | OpI64Store32 m => store (v ← pop_i64; mret (wrap 32 v)) 4%nat m
  | OpMemorySize i =>
      memory ← ask (mem instance i);
      ent ← ask (λ s, store_memory s memory);
      on_ex (push_index (mt_memory64 (me_ty ent)) (size_pages ent))
  | OpMemoryFill i => memory_fill instance i
  | OpMemoryCopy dst_i src_i => memory_copy instance dst_i src_i
  | OpMemoryInit seg i => memory_init instance seg i
  | _ => fail (EMsg "not a memory op")
  end.

(** ** Tables *)
Definition to_ref (v : Val) : res Ref := expect (val_to_ref v) "not a reference".
Definition table_set_handle (h : Handle) (t : TableEntity) (idx : Z) (r : Ref) : SM Vm bool :=
  let '(ok, t') := table_set idx r t in
  on_store (modify (put_table h t'));; mret ok.

Definition exec_table_get (instance : Handle) (table : Z) : SM Vm () :=
  handle ← ask (tab instance table);
  t ← ask (λ s, store_table s handle);
  idx ← on_ex (pop_index (tt_table64 (te_ty t)));
  r ← lift (ok_or (table_get t idx) table_oob);
  on_ex (push (val_from_ref r)).

Definition exec_table_set (instance : Handle) (table : Z) : SM Vm () :=
  handle ← ask (tab instance table);
  t ← ask (λ s, store_table s handle);
  let kind := refkind_of_heap (rt_heap (tt_element (te_ty t))) in
  v ← on_ex (pop_ref kind);
  val ← lift (to_ref v);
  idx ← on_ex (pop_index (tt_table64 (te_ty t)));
  ok ← table_set_handle handle t idx val;
  if (ok : bool) then mret tt else fail table_oob.

Definition exec_table_fill (instance : Handle) (table : Z) : SM Vm () :=
  handle ← ask (tab instance table);
  t ← ask (λ s, store_table s handle);
  let is_64 := tt_table64 (te_ty t) in
  let kind := refkind_of_heap (rt_heap (tt_element (te_ty t))) in
  len ← on_ex (pop_index is_64);
  v ← on_ex (pop_ref kind);
  val ← lift (to_ref v);
  dst ← on_ex (pop_index is_64);
  let '(r, t') := table_fill dst val len t in
  ok ← lift r;
  on_store (modify (put_table handle t'));;
  if (ok : bool) then mret tt else fail table_oob.

(** The [for (i, r) in refs.enumerate() { table.set(dst + i, r) }] loop. *)
Fixpoint set_all (t : TableEntity) (dst : Z) (refs : list Ref) : TableEntity :=
  match refs with
  | [] => t
  | r :: refs' => set_all (snd (table_set dst r t)) (dst + 1) refs'
  end.

Definition table_init (instance : Handle) (elem table : Z) : SM Vm () :=
  handle ← ask (tab instance table);
  len ← on_ex (x ← pop_i32; mret (wrap 32 x));
  src ← on_ex (x ← pop_i32; mret (wrap 32 x));
  t ← ask (λ s, store_table s handle);
  dst ← on_ex (pop_index (tt_table64 (te_ty t)));
  entity ← ask (λ s, store_instance s instance);
  refs ← lift (expect (zget (ie_elems entity) elem) "index out of bounds");
  src_end ← lift (checked_range TableOutOfBounds src len (zlen refs));
  lift (checked_range TableOutOfBounds dst len (table_size t));;
  chunk ← lift (expect (zslice refs src src_end) "slice index");
  on_store (modify (put_table handle (set_all t dst chunk))).

Definition table_copy (instance : Handle) (dst_table src_table : Z) : SM Vm () :=
  dst_handle ← ask (tab instance dst_table);
  src_handle ← ask (tab instance src_table);
  dst_t ← ask (λ s, store_table s dst_handle);
  src_t ← ask (λ s, store_table s src_handle);
  let dst_64 := tt_table64 (te_ty dst_t) in
  let src_64 := tt_table64 (te_ty src_t) in
  len ← on_ex (pop_index (dst_64 && src_64));
  src ← on_ex (pop_index src_64);
  dst ← on_ex (pop_index dst_64);
  src_end ← lift (checked_range TableOutOfBounds src len (table_size src_t));
  lift (checked_range TableOutOfBounds dst len (table_size dst_t));;
  snapshot ← lift (expect (zslice (te_elems src_t) src src_end) "slice index");
  on_store (modify (put_table dst_handle (set_all dst_t dst snapshot))).

Definition exec_table (op : Op) (instance : Handle) : SM Vm () :=
  match op with
  | OpTableInit elem table => table_init instance elem table
  | OpTableCopy dst_table src_table => table_copy instance dst_table src_table
  | OpElemDrop elem => on_store (drop_elem instance elem)
  | OpTableGet t => exec_table_get instance t
  | OpTableSet t => exec_table_set instance t
  | OpTableSize t =>
      handle ← ask (tab instance t);
      ent ← ask (λ s, store_table s handle);
      on_ex (push_index (tt_table64 (te_ty ent)) (table_size ent))
  | OpTableFill t => exec_table_fill instance t
  | _ => fail (EMsg "not a table op")
  end.
End exec.

(** ** Running on a [Vm] *)
Lemma on_ex_bind {A B} (m : SM Execution A) (f : A → SM Vm B) v a ex' :
  m (vm_ex v) = (Ok a, ex') → (on_ex m ≫= f) v = f a (set_vm_ex ex' v).
Proof. intros Hm. rewrite bind_unfold. unfold on_ex, zoom. by rewrite Hm. Qed.
Lemma on_ex_bind_err {A B} (m : SM Execution A) (f : A → SM Vm B) v e ex' :
  m (vm_ex v) = (Err e, ex') → (on_ex m ≫= f) v = (Err e, set_vm_ex ex' v).
Proof. intros Hm. rewrite bind_unfold. unfold on_ex, zoom. by rewrite Hm. Qed.
Lemma ask_bind {A B} (q : StoreInner → res A) (f : A → SM Vm B) v a :
  q (vm_store v) = Ok a → (ask q ≫= f) v = f a v.
Proof. exact (reads_Ok (λ v, q (vm_store v)) f v a). Qed.

Section access.
Context `{Features}.

(** The memory a [memarg] names, and its extra offset. *)
Record memory_at (s : StoreInner) (code : Code) (instance : Handle) (m : MemArg)
    (h : Handle) (ent : MemoryEntity) (off : Z) : Prop := {
  ma_resolve : ∃ idx, resolve code m = Ok (idx, off) ∧ mem instance idx s = Ok h;
  ma_entity : store_memory s h = Ok ent;
  ma_offset_ok : u_ok 64 off;
  ma_len_ok : zlen (me_bytes ent) < 2 ^ 64;
}.

Lemma mem_ea_spec n ent off a ex :
  pushable ex → u_ok (index_width (mt_memory64 (me_ty ent))) a → 0 ≤ n → u_ok 64 off →
  zlen (me_bytes ent) < 2 ^ 64 →
  mem_ea n ent off (push_addr (mt_memory64 (me_ty ent)) a ex) =
  (if a + off + n <=? zlen (me_bytes ent) then Ok (a + off) else Err mem_oob, ex).
Proof.
  intros Hp Ha Hn [Ho1 Ho2] Hlen. unfold mem_ea.
  rewrite bind_unfold, (pop_index_push _ a ex Hp Ha). unfold checked_add.
  assert (0 ≤ a) by apply Ha.
  destruct (Z.ltb_spec (a + off) (2 ^ 64)).
  - lift_step. destruct (Z.ltb_spec (a + off + n) (2 ^ 64)).
    + lift_step. destruct (Z.ltb_spec (zlen (me_bytes ent)) (a + off + n)),
        (Z.leb_spec (a + off + n) (zlen (me_bytes ent))); done || lia.
    + rewrite (proj2 (Z.leb_gt _ _)) by lia. done.
  - rewrite (proj2 (Z.leb_gt _ _)) by lia. done.
Qed.

Lemma set_vm_ex_twice ex ex' v : set_vm_ex ex (set_vm_ex ex' v) = set_vm_ex ex v.
Proof. done. Qed.

(** Loads: access width, sign extension, result type. *)
Inductive NumTy := NI32 | NI64 | NF32 | NF64.
Definition push_num (t : NumTy) (v : Z) : Execution → Execution :=
  match t with NI32 => push_i32 v | NI64 => push_i64 v | NF32 => push_f32 v | NF64 => push_f64 v end.
Definition num_width (t : NumTy) : Z := match t with NI32 | NF32 => 32 | _ => 64 end.
Definition load_shape (op : Op) : option (MemArg * Z * bool * NumTy) :=
  match op with
  | OpI32Load m => Some (m, 4, true, NI32) | OpI64Load m => Some (m, 8, true, NI64)
  | OpF32Load m => Some (m, 4, false, NF32) | OpF64Load m => Some (m, 8, false, NF64)
  | OpI32Load8S m => Some (m, 1, true, NI32) | OpI32Load8U m => Some (m, 1, false, NI32)
  | OpI32Load16S m => Some (m, 2, true, NI32) | OpI32Load16U m => Some (m, 2, false, NI32)
  | OpI64Load8S m => Some (m, 1, true, NI64) | OpI64Load8U m => Some (m, 1, false, NI64)
  | OpI64Load16S m => Some (m, 2, true, NI64) | OpI64Load16U m => Some (m, 2, false, NI64)
  | OpI64Load32S m => Some (m, 4, true, NI64) | OpI64Load32U m => Some (m, 4, false, NI64)
  | _ => None
  end.
Definition store_shape (op : Op) : option (MemArg * nat * NumTy) :=
  match op with
  | OpI32Store m => Some (m, 4%nat, NI32) | OpI64Store m => Some (m, 8%nat, NI64)
  | OpF32Store m => Some (m, 4%nat, NF32) | OpF64Store m => Some (m, 8%nat, NF64)
  | OpI32Store8 m => Some (m, 1%nat, NI32) | OpI32Store16 m => Some (m, 2%nat, NI32)
  | OpI64Store8 m => Some (m, 1%nat, NI64) | OpI64Store16 m => Some (m, 2%nat, NI64)
  | OpI64Store32 m => Some (m, 4%nat, NI64)
  | _ => None
  end.

Lemma load_n_run n code instance m v h ent off a ex :
  memory_at (vm_store v) code instance m h ent off → pushable ex → 0 ≤ n →
  u_ok (index_width (mt_memory64 (me_ty ent))) a → vm_ex v = push_addr (mt_memory64 (me_ty ent)) a ex →
  load_n n code instance m v =
  (if a + off + n <=? zlen (me_bytes ent)
   then Ok (ztake n (zdrop (a + off) (me_bytes ent))) else Err mem_oob, set_vm_ex ex v).
Proof.
  intros [(idx & Hres & Hmem) Hent Hoff Hlen] Hp Hn Ha Hex. unfold load_n.
  rewrite Hres. lift_step. cbn [fst snd]. rewrite (ask_bind _ _ _ _ Hmem), (ask_bind _ _ _ _ Hent).
  rewrite bind_unfold. unfold on_ex, zoom. rewrite Hex, (mem_ea_spec n ent off a ex Hp Ha Hn Hoff Hlen).
  assert (0 ≤ a) by apply Ha. assert (0 ≤ off) by apply Hoff.
  destruct (Z.leb_spec (a + off + n) (zlen (me_bytes ent))); [|done].
  unfold lift. rewrite zslice_is_Some by lia. by replace (a + off + n - (a + off)) with n by lia.
Qed.

(** A load reads exactly the bytes at the unbounded effective address
    [operand + offset], extends them as the opcode says and pushes the result; it
    traps exactly when the access leaves the memory, with no wrap-around. *)
Theorem load_exact op m n signed t code instance v h ent off a ex :
  load_shape op = Some (m, n, signed, t) →
  memory_at (vm_store v) code instance m h ent off → pushable ex →
  u_ok (index_width (mt_memory64 (me_ty ent))) a → vm_ex v = push_addr (mt_memory64 (me_ty ent)) a ex →
  exec_memory code op instance v =
  if a + off + n <=? zlen (me_bytes ent)
  then let x := from_le_bytes (ztake n (zdrop (a + off) (me_bytes ent))) in
       (Ok tt, set_vm_ex (push_num t (if signed then sgn (8 * n) x else x) ex) v)
  else (Err mem_oob, set_vm_ex ex v).
Proof.
  intros Hop Hat Hp Ha Hex. cbv zeta.
  assert (0 ≤ n) as Hn by (destruct op; try discriminate Hop; injection Hop as <- <- <- <-; lia).
  pose proof (load_n_run n code instance m v h ent off a ex Hat Hp Hn Ha Hex) as Hrun.
  destruct op; try discriminate Hop; injection Hop as <- <- <- <-; unfold exec_memory; cbv zeta;
    rewrite bind_unfold, Hrun; by destruct (_ <=? _).
Qed.

Definition store_value (t : NumTy) (x : Z) : Prop := match t with NF32 => u_ok 32 x | NF64 => u_ok 64 x | _ => True end.

Lemma store_n_run code instance m data v h ent off a ex :
  memory_at (vm_store v) code instance m h ent off → pushable ex →
  u_ok (index_width (mt_memory64 (me_ty ent))) a → vm_ex v = push_addr (mt_memory64 (me_ty ent)) a ex →
  store_n code instance m data v =
  if a + off + zlen data <=? zlen (me_bytes ent)
  then (Ok tt, set_vm_store (put_memory h {|
          me_bytes := ztake (a + off) (me_bytes ent) ++ data ++ zdrop (a + off + zlen data) (me_bytes ent);
          me_ty := me_ty ent |} (vm_store v)) (set_vm_ex ex v))
  else (Err mem_oob, set_vm_ex ex v).
Proof.
  intros [(idx & Hres & Hmem) Hent Hoff Hlen] Hp Ha Hex. unfold store_n.
  rewrite Hres. lift_step. cbn [fst snd]. rewrite (ask_bind _ _ _ _ Hmem), (ask_bind _ _ _ _ Hent).
  rewrite bind_unfold. unfold on_ex, zoom.
  rewrite Hex, (mem_ea_spec (zlen data) ent off a ex Hp Ha (zlen_nonneg _) Hoff Hlen).
  assert (0 ≤ a) by apply Ha. assert (0 ≤ off) by apply Hoff. pose proof (zlen_nonneg data).
  destruct (Z.leb_spec (a + off + zlen data) (zlen (me_bytes ent))); [|done].
  unfold zsplice. rewrite !(proj2 (Z.leb_le _ _)) by lia. done.
Qed.

Lemma to_le_wrap n w x : w = 8 * Z.of_nat n → to_le_bytes n (wrap w x) = to_le_bytes n x.
Proof.
  intros ->. unfold wrap. rewrite <- from_to_le. apply to_from_le; [apply to_le_ok|].
  clear. revert x. induction n as [|n IH]; intros x; [done|]. cbn. by rewrite <- IH.
Qed.
Lemma to_le_sgn n w k x : 0 < w → w = 8 * Z.of_nat k → (n ≤ k)%nat → to_le_bytes n (sgn w x) = to_le_bytes n x.
Proof.
  intros Hw Hk Hn. rewrite <- (to_le_wrap n (8 * Z.of_nat n) (sgn w x)), <- (to_le_wrap n (8 * Z.of_nat n) x) by done.
  f_equal. unfold wrap. assert (w = 8 * Z.of_nat n + (w - 8 * Z.of_nat n)) as E by lia.
  assert (∀ z, (z mod 2 ^ w) mod 2 ^ (8 * Z.of_nat n) = z mod 2 ^ (8 * Z.of_nat n)) as Hmm.
  { intros z. rewrite E, Z.pow_add_r by lia. set (P := 2 ^ (8 * Z.of_nat n)).
    assert (0 < P) by (apply Z.pow_pos_nonneg; lia).
    assert (0 < 2 ^ (w - 8 * Z.of_nat n)) by (apply Z.pow_pos_nonneg; lia).
    rewrite Z.rem_mul_r, Z.mul_comm, Z.mod_add by lia. by rewrite Z.mod_mod by lia. }
  rewrite <- (Hmm (sgn w x)), <- (Hmm x). by rewrite sgn_mod.
Qed.

(** A store writes exactly the low bytes of its operand at the unbounded
    effective address and leaves every other byte of that memory and everything
    else in the store alone; it traps exactly when the access leaves the memory. *)
Theorem store_exact op m n t x code instance v h ent off a ex :
  store_shape op = Some (m, n, t) → store_value t x →
  memory_at (vm_store v) code instance m h ent off → pushable ex →
  u_ok (index_width (mt_memory64 (me_ty ent))) a →
  vm_ex v = push_num t x (push_addr (mt_memory64 (me_ty ent)) a ex) →
  exec_memory code op instance v =
  if a + off + Z.of_nat n <=? zlen (me_bytes ent)
  then (Ok tt, set_vm_store (put_memory h {|
          me_bytes := ztake (a + off) (me_bytes ent) ++ to_le_bytes n x
                      ++ zdrop (a + off + Z.of_nat n) (me_bytes ent);
          me_ty := me_ty ent |} (vm_store v)) (set_vm_ex ex v))
  else (Err mem_oob, set_vm_ex ex v).
Proof.
  intros Hop Hx Hat Hp Ha Hex. set (ex1 := push_addr (mt_memory64 (me_ty ent)) a ex) in *.
  assert (pushable ex1) as Hp1 by (by apply pushable_addr).
  destruct op; try discriminate Hop; injection Hop as <- <- <-; unfold exec_memory; cbv zeta; cbn in Hx, Hex;
    rewrite bind_unfold; unfold on_ex, zoom; rewrite Hex, ?bind_unfold;
    first [rewrite (pop_i32_push x ex1 Hp1) | rewrite (pop_i64_push x ex1 Hp1)
          |rewrite (pop_f32_push x ex1 Hp1 Hx) | rewrite (pop_f64_push x ex1 Hp1 Hx)];
    cbv beta iota delta [mret M_ret];
    rewrite (store_n_run code instance _ _ (set_vm_ex ex1 v) h ent off a ex Hat Hp Ha eq_refl);
    rewrite ?(to_le_wrap 1 8), ?(to_le_wrap 2 16), ?(to_le_wrap 4 32) by done;
    rewrite ?(to_le_sgn _ 32 4), ?(to_le_sgn _ 64 8) by lia; rewrite zlen_to_le; reflexivity.
Qed.
End access.

(** ** Bulk instructions *)
Section bulk.
Context `{Features}.

Lemma checked_range_spec t start len total :
  0 ≤ total < 2 ^ 64 →
  checked_range t start len total = if start + len <=? total then Ok (start + len) else Err (ETrap t).
Proof.
  intros Ht. unfold checked_range, checked_add. destruct (Z.ltb_spec (start + len) (2 ^ 64)); [done|].
  by rewrite (proj2 (Z.leb_gt _ _)) by lia.
Qed.

Lemma on_ex_pop_index {B} is_64 a ex (f : Z → SM Vm B) v :
  pushable ex → u_ok (index_width is_64) a → vm_ex v = push_addr is_64 a ex →
  (on_ex (pop_index is_64) ≫= f) v = f a (set_vm_ex ex v).
Proof. intros Hp Ha Hex. apply on_ex_bind. rewrite Hex. by apply pop_index_push. Qed.
Lemma on_ex_pop_u32 {B} x ex (f : Z → SM Vm B) v :
  pushable ex → u_ok 32 x → vm_ex v = push_i32 x ex →
  (on_ex (y ← pop_i32; mret (wrap 32 y)) ≫= f) v = f x (set_vm_ex ex v).
Proof.
  intros Hp Hx Hex. apply on_ex_bind. rewrite Hex, bind_unfold, pop_i32_push by done. cbn.
  by rewrite wrap_sgn, wrap_id.
Qed.

Lemma wrap8_sgn x : wrap 8 (sgn 32 x) = wrap 8 x.
Proof.
  assert (∀ z, (z mod 2 ^ 32) mod 2 ^ 8 = z mod 2 ^ 8) as Hmm.
  { intros z. change (2 ^ 32) with (2 ^ 8 * 2 ^ 24). rewrite Z.rem_mul_r, Z.mul_comm, Z.mod_add by lia.
    by rewrite Z.mod_mod by lia. }
  unfold wrap. by rewrite <- Hmm, sgn_mod, Hmm.
Qed.

Lemma index_ok_u64 b a : u_ok (index_width b) a → 0 ≤ a.
Proof. intros []. done. Qed.

(** [l] with [src] written over it from [dst] on. *)
Definition overwrite {A} (l : list A) (dst : Z) (src : list A) : list A :=
  ztake dst l ++ src ++ zdrop (dst + zlen src) l.
Definition with_bytes (ent : MemoryEntity) (bytes : list Z) : MemoryEntity :=
  {| me_bytes := bytes; me_ty := me_ty ent |}.

Lemma write_bytes_run h ent bytes v :
  write_bytes h ent (Some bytes) v = (Ok tt, set_vm_store (put_memory h (with_bytes ent bytes) (vm_store v)) v).
Proof. done. Qed.

Lemma zlen_take_drop {A} (l : list A) a n : 0 ≤ a → 0 ≤ n → a + n ≤ zlen l → zlen (ztake n (zdrop a l)) = n.
Proof. intros. assert (a ≤ zlen l) by lia. rewrite zlen_take; [done|]. rewrite zlen_drop; lia. Qed.
Lemma zsplice_overwrite {A} (l : list A) a src : 0 ≤ a → a + zlen src ≤ zlen l → zsplice l a src = Some (overwrite l a src).
Proof. intros. apply zsplice_Some. done. Qed.

(** C37: [memory.copy] overwrites the destination with the source range as it was
    before the instruction, whatever the overlap and even when two indices name one
    memory; when either range leaves its memory it traps and writes nothing. *)
Theorem memory_copy_exact code instance dst_i src_i hd hs ed es dst src len v ex :
  mem instance dst_i (vm_store v) = Ok hd → mem instance src_i (vm_store v) = Ok hs →
  store_memory (vm_store v) hd = Ok ed → store_memory (vm_store v) hs = Ok es →
  zlen (me_bytes ed) < 2 ^ 64 → zlen (me_bytes es) < 2 ^ 64 → pushable ex →
  let d64 := mt_memory64 (me_ty ed) in
  let s64 := mt_memory64 (me_ty es) in
  u_ok (index_width d64) dst → u_ok (index_width s64) src → u_ok (index_width (d64 && s64)) len →
  vm_ex v = push_addr (d64 && s64) len (push_addr s64 src (push_addr d64 dst ex)) →
  exec_memory code (OpMemoryCopy dst_i src_i) instance v =
  if (src + len <=? zlen (me_bytes es)) && (dst + len <=? zlen (me_bytes ed))
  then (Ok tt, set_vm_store (put_memory hd (with_bytes ed
          (overwrite (me_bytes ed) dst (ztake len (zdrop src (me_bytes es))))) (vm_store v)) (set_vm_ex ex v))
  else (Err mem_oob, set_vm_ex ex v).
Proof.
  intros Hd Hs Hde Hse Hdl Hsl Hp d64 s64 Hud Hus Hul Hex. cbn [exec_memory]. unfold memory_copy.
  rewrite (ask_bind _ _ _ _ Hd), (ask_bind _ _ _ _ Hs), (ask_bind _ _ _ _ Hde), (ask_bind _ _ _ _ Hse).
  fold d64 s64. rewrite (on_ex_pop_index _ len _ _ v (pushable_addr _ _ _ (pushable_addr _ _ _ Hp)) Hul Hex).
  rewrite (on_ex_pop_index _ src (push_addr d64 dst ex)); [|by apply pushable_addr|done|reflexivity].
  rewrite (on_ex_pop_index _ dst ex); [|done|done|reflexivity]. rewrite !set_vm_ex_twice.
  apply index_ok_u64 in Hud, Hus, Hul.
  pose proof (zlen_nonneg (me_bytes ed)). pose proof (zlen_nonneg (me_bytes es)).
  rewrite !checked_range_spec by lia.
  destruct (Z.leb_spec (src + len) (zlen (me_bytes es))); [|done]. lift_step.
  destruct (Z.leb_spec (dst + len) (zlen (me_bytes ed))); [|done]. lift_step. cbn [andb].
  pose proof (zlen_take_drop (me_bytes es) src len).
  destruct (Z.eqb_spec dst_i src_i) as [->|_].
  - rewrite Hd in Hs. injection Hs as <-. rewrite Hde in Hse. injection Hse as <-.
    unfold zcopy_within. rewrite zslice_is_Some by lia. replace (src + len - src) with len by lia.
    by rewrite zsplice_overwrite, write_bytes_run by lia.
  - rewrite zslice_is_Some by lia. lift_step. replace (src + len - src) with len by lia.
    by rewrite zsplice_overwrite, write_bytes_run by lia.
Qed.

Lemma memory_fill_run instance i h ent dst val len v ex :
  mem instance i (vm_store v) = Ok h → store_memory (vm_store v) h = Ok ent →
  zlen (me_bytes ent) < 2 ^ 64 → pushable ex →
  let is_64 := mt_memory64 (me_ty ent) in
  u_ok (index_width is_64) dst → u_ok (index_width is_64) len →
  vm_ex v = push_addr is_64 len (push_i32 val (push_addr is_64 dst ex)) →
  memory_fill instance i v =
  if dst + len <=? zlen (me_bytes ent)
  then (Ok tt, set_vm_store (put_memory h (with_bytes ent
          (overwrite (me_bytes ent) dst (replicate (Z.to_nat len) (wrap 8 val)))) (vm_store v)) (set_vm_ex ex v))
  else (Err mem_oob, set_vm_ex ex v).
Proof.
  intros Hm He Hl Hp is_64 Hud Hul Hex. unfold memory_fill.
  rewrite (ask_bind _ _ _ _ Hm), (ask_bind _ _ _ _ He). fold is_64.
  assert (pushable (push_addr is_64 dst ex)) as Hp1 by (by apply pushable_addr).
  rewrite (on_ex_pop_index _ len (push_i32 val (push_addr is_64 dst ex)) _ v (pushable_push _ _ Hp1 (le4_fits val)) Hul Hex).
  rewrite (on_ex_bind _ _ _ (wrap 8 val) (push_addr is_64 dst ex)).
  2: { rewrite bind_unfold. cbn [vm_ex set_vm_ex]. rewrite (pop_i32_push val _ Hp1). cbn.
       by rewrite wrap8_sgn. }
  rewrite (on_ex_pop_index _ dst ex); [|done|done|reflexivity]. rewrite !set_vm_ex_twice.
  apply index_ok_u64 in Hud, Hul. pose proof (zlen_nonneg (me_bytes ent)).
  rewrite checked_range_spec by lia. destruct (Z.leb_spec (dst + len) (zlen (me_bytes ent))); [|done]. lift_step.
  rewrite !(proj2 (Z.leb_le _ _)) by lia. cbn [andb]. replace (dst + len - dst) with len by lia.
  rewrite zsplice_overwrite by (rewrite ?zlen_replicate; lia). done.
Qed.

Lemma memory_init_run instance seg i h ent inst dropped ds dst src len v ex :
  mem instance i (vm_store v) = Ok h → store_memory (vm_store v) h = Ok ent →
  store_instance (vm_store v) instance = Ok inst →
  zget (ie_dropped_data inst) seg = Some dropped → zget (mi_datas (ie_module inst)) seg = Some ds →
  zlen (me_bytes ent) < 2 ^ 64 → zlen (ds_bytes ds) < 2 ^ 64 → pushable ex →
  let is_64 := mt_memory64 (me_ty ent) in
  u_ok (index_width is_64) dst → u_ok 32 src → u_ok 32 len →
  vm_ex v = push_i32 len (push_i32 src (push_addr is_64 dst ex)) →
  memory_init instance seg i v =
  if (src + len <=? if dropped then 0 else zlen (ds_bytes ds)) && (dst + len <=? zlen (me_bytes ent))
  then (Ok tt, set_vm_store (put_memory h (with_bytes ent
          (overwrite (me_bytes ent) dst (ztake len (zdrop src (ds_bytes ds))))) (vm_store v)) (set_vm_ex ex v))
  else (Err mem_oob, set_vm_ex ex v).
Proof.
  intros Hm He Hi Hdr Hds Hl Hdl Hp is_64 Hud Hus Hul Hex. unfold memory_init.
  rewrite (ask_bind _ _ _ _ Hm), (ask_bind _ _ _ _ He). fold is_64.
  assert (pushable (push_addr is_64 dst ex)) as Hp1 by (by apply pushable_addr).
  rewrite (on_ex_pop_u32 len (push_i32 src (push_addr is_64 dst ex)) _ v (pushable_push _ _ Hp1 (le4_fits src)) Hul Hex).
  rewrite (on_ex_pop_u32 src (push_addr is_64 dst ex)); [|done|done|reflexivity].
  rewrite (on_ex_pop_index _ dst ex); [|done|done|reflexivity]. rewrite !set_vm_ex_twice.
  rewrite (ask_bind _ _ (set_vm_ex ex v) _ Hi), Hdr. lift_step. rewrite Hds. lift_step.
  apply index_ok_u64 in Hud. destruct Hus as [Hus _], Hul as [Hul _].
  pose proof (zlen_nonneg (me_bytes ent)). pose proof (zlen_nonneg (ds_bytes ds)).
  rewrite checked_range_spec by (destruct dropped; lia).
  destruct (Z.leb_spec (src + len) (if dropped then 0 else zlen (ds_bytes ds))) as [Hle|]; [|done]. lift_step.
  rewrite (ask_bind _ _ (set_vm_ex ex v) _ Hm), (ask_bind _ _ (set_vm_ex ex v) _ He), checked_range_spec by lia.
  destruct (Z.leb_spec (dst + len) (zlen (me_bytes ent))); [|done]. lift_step. cbn [andb].
  assert (src + len ≤ zlen (ds_bytes ds)) by (destruct dropped; lia).
  rewrite zslice_is_Some by lia. lift_step. replace (src + len - src) with len by lia.
  pose proof (zlen_take_drop (ds_bytes ds) src len).
  by rewrite zsplice_overwrite by lia.
Qed.
(** [memory.fill] and [memory.init] write the whole range (the fill byte, or
    that range of the data segment, which reads as empty once dropped), or trap
    and write nothing. *)
Theorem memory_fill_init_exact code instance i h ent dst v ex :
  mem instance i (vm_store v) = Ok h → store_memory (vm_store v) h = Ok ent →
  zlen (me_bytes ent) < 2 ^ 64 → pushable ex →
  let is_64 := mt_memory64 (me_ty ent) in
  let ex_dst := push_addr is_64 dst ex in
  let written bytes := set_vm_store (put_memory h (with_bytes ent (overwrite (me_bytes ent) dst bytes)) (vm_store v))
                         (set_vm_ex ex v) in
  u_ok (index_width is_64) dst →
  (∀ val len, u_ok (index_width is_64) len → vm_ex v = push_addr is_64 len (push_i32 val ex_dst) →
    exec_memory code (OpMemoryFill i) instance v =
    if dst + len <=? zlen (me_bytes ent) then (Ok tt, written (replicate (Z.to_nat len) (wrap 8 val)))
    else (Err mem_oob, set_vm_ex ex v)) ∧
  (∀ seg src len inst dropped ds,
    store_instance (vm_store v) instance = Ok inst →
    zget (ie_dropped_data inst) seg = Some dropped → zget (mi_datas (ie_module inst)) seg = Some ds →
    zlen (ds_bytes ds) < 2 ^ 64 → u_ok 32 src → u_ok 32 len → vm_ex v = push_i32 len (push_i32 src ex_dst) →
    exec_memory code (OpMemoryInit seg i) instance v =
    if (src + len <=? if dropped then 0 else zlen (ds_bytes ds)) && (dst + len <=? zlen (me_bytes ent))
    then (Ok tt, written (ztake len (zdrop src (ds_bytes ds)))) else (Err mem_oob, set_vm_ex ex v)).
Proof.
  intros Hm He Hl Hp is_64 ex_dst written Hd. split.
  - intros val len Hul Hex. by apply memory_fill_run.
  - intros seg src len inst dropped ds. intros. by eapply memory_init_run.
Qed.
End bulk.

(** ** Table instructions *)
Section tables.
Context `{Features}.

Definition with_elems (t : TableEntity) (elems : list Ref) : TableEntity :=
  {| te_elems := elems; te_ty := te_ty t |}.

Lemma overwrite_cons {A} (l : list A) dst x xs :
  0 ≤ dst → dst + 1 + zlen xs ≤ zlen l →
  overwrite (<[Z.to_nat dst := x]> l) (dst + 1) xs = overwrite l dst (x :: xs).
Proof.
  intros Hd Hl. pose proof (zlen_nonneg xs). unfold overwrite, ztake, zdrop, zlen in *. cbn [length].
  rewrite (insert_take_drop l (Z.to_nat dst) x) by lia.
  rewrite take_app, length_take_le by lia. rewrite (take_ge (take _ _)) by (rewrite length_take; lia).
  replace (Z.to_nat (dst + 1) - Z.to_nat dst)%nat with 1%nat by lia. rewrite firstn_cons, take_0.
  rewrite <- app_assoc. cbn [app]. do 2 f_equal.
  rewrite drop_app, drop_ge by (rewrite length_take; lia). rewrite length_take_le by lia.
  replace (Z.to_nat (dst + 1 + Z.of_nat (length xs)) - Z.to_nat dst)%nat with (S (length xs)) by lia.
  cbn [app drop]. f_equal. rewrite drop_drop. f_equal. lia.
Qed.

Lemma set_all_spec refs t dst :
  0 ≤ dst → dst + zlen refs ≤ table_size t → set_all t dst refs = with_elems t (overwrite (te_elems t) dst refs).
Proof.
  revert t dst. induction refs as [|r refs IH]; intros t dst Hd Hl; unfold table_size in *.
  - cbn. unfold overwrite. rewrite zlen_nil, Z.add_0_r. cbn. rewrite ztake_drop. by destruct t.
  - rewrite zlen_cons in Hl. pose proof (zlen_nonneg refs). cbn [set_all]. unfold table_set.
    assert (zset (te_elems t) dst r = Some (<[Z.to_nat dst := r]> (te_elems t))) as ->
      by (apply zset_Some; split; [lia|done]).
    cbn [snd]. rewrite IH; [|lia|cbn; rewrite zlen_insert; lia]. unfold with_elems. cbn. f_equal.
    apply overwrite_cons; lia.
Qed.

(** [table.copy] overwrites the destination range by the source range as it was
    before the instruction, whatever the overlap, and [table.init] by that range of
    the element segment; out of range they trap and write nothing. *)
Theorem table_copy_init_exact instance dst_i hd td dst v ex :
  tab instance dst_i (vm_store v) = Ok hd → store_table (vm_store v) hd = Ok td →
  table_size td < 2 ^ 64 → pushable ex →
  let d64 := tt_table64 (te_ty td) in
  let written elems := set_vm_store (put_table hd (with_elems td (overwrite (te_elems td) dst elems)) (vm_store v))
                         (set_vm_ex ex v) in
  u_ok (index_width d64) dst →
  (∀ src_i hs ts src len, tab instance src_i (vm_store v) = Ok hs → store_table (vm_store v) hs = Ok ts →
    table_size ts < 2 ^ 64 →
    let s64 := tt_table64 (te_ty ts) in
    u_ok (index_width s64) src → u_ok (index_width (d64 && s64)) len →
    vm_ex v = push_addr (d64 && s64) len (push_addr s64 src (push_addr d64 dst ex)) →
    exec_table (OpTableCopy dst_i src_i) instance v =
    if (src + len <=? table_size ts) && (dst + len <=? table_size td)
    then (Ok tt, written (ztake len (zdrop src (te_elems ts)))) else (Err table_oob, set_vm_ex ex v)) ∧
  (∀ elem inst refs src len, store_instance (vm_store v) instance = Ok inst →
    zget (ie_elems inst) elem = Some refs → zlen refs < 2 ^ 64 → u_ok 32 src → u_ok 32 len →
    vm_ex v = push_i32 len (push_i32 src (push_addr d64 dst ex)) →
    exec_table (OpTableInit elem dst_i) instance v =
    if (src + len <=? zlen refs) && (dst + len <=? table_size td)
    then (Ok tt, written (ztake len (zdrop src refs))) else (Err table_oob, set_vm_ex ex v)).
Proof.
  intros Hd Hde Hdl Hp d64 written Hud. pose proof (index_ok_u64 _ _ Hud).
  pose proof (zlen_nonneg (te_elems td)). unfold table_size in *. split.
  - intros src_i hs ts src len Hs Hse Hsl Hus Hul Hex. set (s64 := tt_table64 (te_ty ts)) in *. cbn [exec_table]. unfold table_copy.
    rewrite (ask_bind _ _ _ _ Hd), (ask_bind _ _ _ _ Hs), (ask_bind _ _ _ _ Hde), (ask_bind _ _ _ _ Hse).
    fold d64 s64. rewrite (on_ex_pop_index _ len _ _ v (pushable_addr _ _ _ (pushable_addr _ _ _ Hp)) Hul Hex).
    rewrite (on_ex_pop_index _ src (push_addr d64 dst ex)); [|by apply pushable_addr|done|reflexivity].
    rewrite (on_ex_pop_index _ dst ex); [|done|done|reflexivity]. rewrite !set_vm_ex_twice.
    apply index_ok_u64 in Hus, Hul. pose proof (zlen_nonneg (te_elems ts)). unfold table_size.
    rewrite !checked_range_spec by lia.
    destruct (Z.leb_spec (src + len) (zlen (te_elems ts))); [|done]. lift_step.
    destruct (Z.leb_spec (dst + len) (zlen (te_elems td))); [|done]. lift_step. cbn [andb].
    rewrite zslice_is_Some by lia. lift_step. replace (src + len - src) with len by lia.
    pose proof (zlen_take_drop (te_elems ts) src len).
    by rewrite set_all_spec by (unfold table_size; lia).
  - intros elem inst refs src len Hi Hr Hrl Hus Hul Hex. cbn [exec_table]. unfold table_init.
    rewrite (ask_bind _ _ _ _ Hd).
    rewrite (on_ex_pop_u32 len (push_i32 src (push_addr d64 dst ex)) _ v
      (pushable_push _ _ (pushable_addr _ _ _ Hp) (le4_fits src))); [|done..].
    rewrite (on_ex_pop_u32 src (push_addr d64 dst ex)); [|by apply pushable_addr|done|reflexivity].
    rewrite !set_vm_ex_twice, (ask_bind _ _ (set_vm_ex _ v) _ Hde). fold d64.
    rewrite (on_ex_pop_index _ dst ex); [|done|done|reflexivity]. rewrite !set_vm_ex_twice.
    rewrite (ask_bind _ _ (set_vm_ex ex v) _ Hi), Hr. lift_step. destruct Hus as [Hus _], Hul as [Hul _]. pose proof (zlen_nonneg refs). unfold table_size.
    rewrite !checked_range_spec by lia.
    destruct (Z.leb_spec (src + len) (zlen refs)); [|done]. lift_step.
    destruct (Z.leb_spec (dst + len) (zlen (te_elems td))); [|done]. lift_step. cbn [andb].
    rewrite zslice_is_Some by lia. lift_step. replace (src + len - src) with len by lia.
    pose proof (zlen_take_drop refs src len).
    by rewrite set_all_spec by (unfold table_size; lia).
Qed.
End tables.

(** ** Concrete instances *)

(** A memory of eight bytes, a three-entry table, a data and an element segment. *)
Definition memory_demo : MemoryEntity :=
  {| me_bytes := [1; 2; 3; 4; 5; 6; 7; 8];
     me_ty := {| mt_minimum := 0; mt_maximum := None; mt_memory64 := false |} |}.
Definition table_demo : TableEntity :=
  {| te_elems := [RefFunc None; RefFunc (Some {| fn_index := 0; fn_store := 1 |}); RefFunc None];
     te_ty := {| tt_element := {| rt_nullable := true; rt_heap := HtFunc |}; tt_minimum := 3;
                 tt_maximum := None; tt_table64 := false |} |}.
Definition module_demo : ModuleInner :=
  {| mi_types := []; mi_func_types := []; mi_num_imported_funcs := 0; mi_functions := [func0];
     mi_code := empty_arenas; mi_imports := []; mi_exports := []; mi_memories := []; mi_tables := [];
     mi_globals := []; mi_tags := []; mi_num_imported_tags := 0;
     mi_datas := [{| ds_mode := DmPassive; ds_bytes := [40; 41; 42] |}]; mi_elems := [];
     mi_start := None; mi_type_ids := []; mi_layouts := [] |}.
Definition handle_demo : Handle := {| h_index := 0; h_store := 1 |}.
Definition instance_demo : InstanceEntity :=
  {| ie_module := module_demo; ie_funcs := []; ie_memories := [handle_demo]; ie_globals := [];
     ie_tables := [handle_demo]; ie_tags := []; ie_dropped_data := [false]; ie_elems := [[RefFunc None]] |}.
Definition store_demo : StoreInner :=
  set_si_instances [instance_demo] (set_si_tables [table_demo] (set_si_memories [memory_demo] (store_new 1 true 0))).
Definition code_mem : Code := {| code_module := module_demo; code_index := 0 |}.
Definition ex_base : Execution :=
  {| ex_values := []; ex_shadow := []; ex_frames := [frame0 0 0 None]; ex_host_reentry_depth := 0 |}.
Lemma ex_base_pushable : @pushable lean_features ex_base.
Proof.
  split; [split|].
  - constructor.
  - repeat constructor; vm_compute; congruence.
  - split; [done|]. exists (frame0 0 0 None). by vm_compute.
Qed.
Definition vm_demo (ex : Execution) : Vm := {| vm_ex := ex; vm_store := store_demo |}.
Lemma memory_at_demo m : ma_memory m = 0 → 0 ≤ ma_offset m < u_max 32 →
  memory_at store_demo code_mem handle_demo m handle_demo memory_demo (ma_offset m).
Proof.
  destruct m as [i o]. cbn. intros -> Ho. split; [|done|unfold u_ok, u_max in *; lia|done].
  exists 0. split; [|done]. unfold resolve, BIG_MEMARG. cbn [ma_offset ma_memory].
  by rewrite (proj2 (Z.eqb_neq _ _)) by lia.
Qed.

Lemma load_exact_witness :
  let ex := @push_addr lean_features false 4 ex_base in
  (@exec_memory lean_features code_mem (OpI32Load16U {| ma_memory := 0; ma_offset := 2 |}) handle_demo (vm_demo ex)).2
  = vm_demo (@push_i32 lean_features 2055 ex_base).
Proof.
  intros ex.
  rewrite (@load_exact lean_features (OpI32Load16U {| ma_memory := 0; ma_offset := 2 |}) _ 2 false NI32 code_mem handle_demo (vm_demo ex) handle_demo memory_demo 2 4 ex_base
    eq_refl (memory_at_demo {| ma_memory := 0; ma_offset := 2 |} eq_refl ltac:(unfold u_max; cbn; lia)) ex_base_pushable);
    [reflexivity|vm_compute; intuition congruence|reflexivity].
Defined.

Lemma store_exact_witness :
  let ex := @push_i32 lean_features 258 (@push_addr lean_features false 4 ex_base) in
  store_memory (vm_store (@exec_memory lean_features code_mem (OpI32Store16 {| ma_memory := 0; ma_offset := 2 |})
    handle_demo (vm_demo ex)).2) handle_demo
  = Ok (with_bytes memory_demo [1; 2; 3; 4; 5; 6; 2; 1]).
Proof.
  intros ex.
  rewrite (@store_exact lean_features (OpI32Store16 {| ma_memory := 0; ma_offset := 2 |}) _ 2 NI32 258 code_mem handle_demo (vm_demo ex) handle_demo memory_demo 2 4 ex_base
    eq_refl I (memory_at_demo {| ma_memory := 0; ma_offset := 2 |} eq_refl ltac:(unfold u_max; cbn; lia)) ex_base_pushable);
    [vm_compute; reflexivity|vm_compute; intuition congruence|reflexivity].
Defined.

Lemma memory_copy_exact_witness :
  let ex := @push_addr lean_features false 4 (@push_addr lean_features false 0 (@push_addr lean_features false 2 ex_base)) in
  store_memory (vm_store (@exec_memory lean_features code_mem (OpMemoryCopy 0 0) handle_demo (vm_demo ex)).2) handle_demo
  = Ok (with_bytes memory_demo [1; 2; 1; 2; 3; 4; 7; 8]).
Proof.
  intros ex.
  rewrite (@memory_copy_exact lean_features code_mem handle_demo 0 0 handle_demo handle_demo memory_demo memory_demo
    2 0 4 (vm_demo ex) ex_base eq_refl eq_refl eq_refl eq_refl eq_refl eq_refl ex_base_pushable);
    [vm_compute; reflexivity|vm_compute; intuition congruence..|reflexivity].
Defined.

Lemma memory_fill_init_exact_witness :
  let base := @push_addr lean_features false 1 ex_base in
  let filled := @push_addr lean_features false 3 (@push_i32 lean_features 511 base) in
  let inited := @push_i32 lean_features 2 (@push_i32 lean_features 1 base) in
  let run op ex := store_memory (vm_store (@exec_memory lean_features code_mem op handle_demo (vm_demo ex)).2) handle_demo in
  run (OpMemoryFill 0) filled = Ok (with_bytes memory_demo [1; 255; 255; 255; 5; 6; 7; 8]) ∧
  run (OpMemoryInit 0 0) inited = Ok (with_bytes memory_demo [1; 41; 42; 4; 5; 6; 7; 8]).
Proof.
  intros base filled inited run. subst run. cbv beta.
  pose proof (λ v, @memory_fill_init_exact lean_features code_mem handle_demo 0 handle_demo memory_demo 1 v ex_base) as T.
  split.
  - destruct (T (vm_demo filled)) as [F _]; [reflexivity..|exact ex_base_pushable|vm_compute; intuition congruence|].
    rewrite (F 511 3); [vm_compute; reflexivity|vm_compute; intuition congruence|reflexivity].
  - destruct (T (vm_demo inited)) as [_ F]; [reflexivity..|exact ex_base_pushable|vm_compute; intuition congruence|].
    rewrite (F 0 1 2 instance_demo false {| ds_mode := DmPassive; ds_bytes := [40; 41; 42] |});
      [vm_compute; reflexivity|reflexivity..|vm_compute; intuition congruence|vm_compute; intuition congruence|reflexivity].
Defined.

Lemma table_copy_init_exact_witness :
  let dst := @push_addr lean_features false 0 ex_base in
  let copied := @push_addr lean_features false 2 (@push_addr lean_features false 1 dst) in
  let inited := @push_i32 lean_features 1 (@push_i32 lean_features 0 dst) in
  let run op ex := te_elems <$> store_table (vm_store (@exec_table lean_features op handle_demo (vm_demo ex)).2) handle_demo in
  run (OpTableCopy 0 0) copied
  = Ok [RefFunc (Some {| fn_index := 0; fn_store := 1 |}); RefFunc None; RefFunc None] ∧
  run (OpTableInit 0 0) inited = Ok (te_elems table_demo).
Proof.
  intros dst copied inited run. subst run. cbv beta.
  pose proof (λ v, @table_copy_init_exact lean_features handle_demo 0 handle_demo table_demo 0 v ex_base) as T.
  split.
  - destruct (T (vm_demo copied)) as [F _]; [reflexivity..|exact ex_base_pushable|vm_compute; intuition congruence|].
    rewrite (F 0 handle_demo table_demo 1 2);
      [vm_compute; reflexivity|reflexivity..|vm_compute; intuition congruence|vm_compute; intuition congruence|reflexivity].
  - destruct (T (vm_demo inited)) as [_ F]; [reflexivity..|exact ex_base_pushable|vm_compute; intuition congruence|].
    rewrite (F 0 instance_demo [RefFunc None] 0 1);
      [vm_compute; reflexivity|reflexivity..|vm_compute; intuition congruence|vm_compute; intuition congruence|reflexivity].
Defined.
