(* ===== verification/Simd.v ===== *)
(** * Simd: the vector instructions (src/src/exec/simd/)

    A [v128] is a 128-bit integer; a lane array is the list of its lanes, signed or
    unsigned as the code's element type is, floats as their bits.  [exec_simd] tries the
    memory instructions and then the chain of handlers, each of which passes what it does
    not know to the next. *)
From Stdlib Require Import Floats.SpecFloat.
From S2P Require Import Prelude Types Layout Codec Op Entity Store Stack Float Numeric Memory.
Open Scope Z_scope.

(** ** Lanes (lanes.rs) *)

(** [core::array::from_fn], and an index that the array's length bounds. *)
Definition from_fn {A} (n : Z) (f : Z → A) : list A := f <$> seqZ 0 n.
Definition at_ (a : list Z) (i : Z) : Z := default 0 (zget a i).
(** [chunk2], [chunk4], [chunk8] *)
Definition chunk (w : Z) (b : list Z) (i : Z) : list Z := ztake w (zdrop (i * w) b).

Definition i8x16 (v : Z) : list Z := sgn 8 <$> to_le_bytes 16 v.
Definition u8x16 (v : Z) : list Z := to_le_bytes 16 v.
Definition i16x8 (v : Z) : list Z := let b := to_le_bytes 16 v in from_fn 8 (λ i, sgn 16 (from_le_bytes (chunk 2 b i))).
Definition u16x8 (v : Z) : list Z := let b := to_le_bytes 16 v in from_fn 8 (λ i, from_le_bytes (chunk 2 b i)).
Definition i32x4 (v : Z) : list Z := let b := to_le_bytes 16 v in from_fn 4 (λ i, sgn 32 (from_le_bytes (chunk 4 b i))).
Definition u32x4 (v : Z) : list Z := let b := to_le_bytes 16 v in from_fn 4 (λ i, from_le_bytes (chunk 4 b i)).
Definition i64x2 (v : Z) : list Z := let b := to_le_bytes 16 v in from_fn 2 (λ i, sgn 64 (from_le_bytes (chunk 8 b i))).
Definition u64x2 (v : Z) : list Z := let b := to_le_bytes 16 v in from_fn 2 (λ i, from_le_bytes (chunk 8 b i)).
Definition f32x4 (v : Z) : list Z := u32x4 v.
Definition f64x2 (v : Z) : list Z := u64x2 v.

Definition from_i8x16 (l : list Z) : Z := from_le_bytes (wrap 8 <$> l).
Definition from_u8x16 (l : list Z) : Z := from_le_bytes l.
Definition pack (lanes : list (list Z)) : Z := from_le_bytes (concat lanes).
Definition from_i16x8 (l : list Z) : Z := pack (to_le_bytes 2 <$> l).
Definition from_u16x8 (l : list Z) : Z := pack (to_le_bytes 2 <$> l).
Definition from_i32x4 (l : list Z) : Z := pack (to_le_bytes 4 <$> l).
Definition from_u32x4 (l : list Z) : Z := pack (to_le_bytes 4 <$> l).
Definition from_i64x2 (l : list Z) : Z := pack (to_le_bytes 8 <$> l).
Definition from_u64x2 (l : list Z) : Z := pack (to_le_bytes 8 <$> l).
Definition from_f32x4 (l : list Z) : Z := from_u32x4 l.
Definition from_f64x2 (l : list Z) : Z := from_u64x2 l.

Definition lanes_zip (a b : list Z) (f : Z → Z → Z) : list Z := zip_with f a b.
Definition lanes_map (a : list Z) (f : Z → Z) : list Z := f <$> a.

(** ** The language's operations on a lane *)
Definition not_u (w a : Z) : Z := 2 ^ w - 1 - a.
Definition wneg (w a : Z) : Z := sgn w (- a).
Definition wabs (w a : Z) : Z := sgn w (Z.abs a).
Definition clamp (lo hi a : Z) : Z := Z.max lo (Z.min hi a).
Definition saturating_s (w a : Z) : Z := clamp (- 2 ^ (w - 1)) (2 ^ (w - 1) - 1) a.
Definition saturating_u (w a : Z) : Z := clamp 0 (2 ^ w - 1) a.
(** [a.mul_add(b, c)]: the exact [a * b + c], rounded once. *)
Definition sf_signed (s : bool) (m : positive) : Z := if s then Zneg m else Zpos m.
Definition sf_sign (x : spec_float) : bool :=
  match x with S754_zero s | S754_infinity s | S754_finite s _ _ => s | S754_nan => false end.
Definition sf_fma (f : Fmt) (a b c : spec_float) : spec_float :=
  let s := xorb (sf_sign a) (sf_sign b) in
  match a, b with
  | S754_nan, _ | _, S754_nan => S754_nan
  | S754_infinity _, S754_zero _ | S754_zero _, S754_infinity _ => S754_nan
  | S754_infinity _, _ | _, S754_infinity _ =>
      match c with
      | S754_nan => S754_nan
      | S754_infinity sc => if Bool.eqb s sc then S754_infinity s else S754_nan
      | _ => S754_infinity s
      end
  | S754_zero _, _ | _, S754_zero _ =>
      match c with S754_zero sc => S754_zero (s && sc) | _ => c end
  | S754_finite _ ma ea, S754_finite _ mb eb =>
      match c with
      | S754_nan | S754_infinity _ => c
      | S754_zero _ => binary_round (f_prec f) (f_emax f) s (ma * mb) (ea + eb)
      | S754_finite sc mc ec =>
          let e := Z.min (ea + eb) ec in
          binary_normalize (f_prec f) (f_emax f)
            (sf_signed s (ma * mb) * 2 ^ (ea + eb - e) + sf_signed sc mc * 2 ^ (ec - e)) e false
      end
  end.

Section simd.
Context `{Features, FloatHost}.
Definition f_mul_add (f : Fmt) (a b c : Z) : Z :=
  enc f (nan_choice f [a; b; c]) (sf_fma f (dec f a) (dec f b) (dec f c)).

(** ** Operands and combinators (mod.rs) *)
Definition pop_v128_cell : SM Execution Cell := pop_scalar.
Definition pop_v128 : SM Execution Z := c ← pop_v128_cell; mret (cell_v128 c).
Definition push_v128 (v : Z) : SM Execution () := push (VV128 v).

Definition v_binop (split : Z → list Z) (join : list Z → Z) (f : Z → Z → Z) : SM Execution () :=
  b ← pop_v128; a ← pop_v128; push_v128 (join (lanes_zip (split a) (split b) f)).
Definition v_unop (split : Z → list Z) (join : list Z → Z) (f : Z → Z) : SM Execution () :=
  a ← pop_v128; push_v128 (join (lanes_map (split a) f)).
(** Each lane of [16 / N] bytes all ones or all zero. *)
Definition cmp_mask (mask : list bool) : Z :=
  let w := 16 / zlen mask in
  from_le_bytes (concat ((λ m : bool, replicate (Z.to_nat w) (if m then 255 else 0)) <$> mask)).
Definition v_cmp (n : Z) (split : Z → list Z) (f : Z → Z → bool) : SM Execution () :=
  b ← pop_v128; a ← pop_v128;
  let la := split a in let lb := split b in
  push_v128 (cmp_mask (from_fn n (λ i, f (at_ la i) (at_ lb i)))).
Definition v_shift (n : Z) (split : Z → list Z) (join : list Z → Z) (f : Z → Z → Z) : SM Execution () :=
  x ← pop_i32; let count := wrap 32 x in
  a ← pop_v128;
  let s := count mod (128 / n) in
  push_v128 (join (lanes_map (split a) (λ x, f x s))).

(** ** relaxed.rs *)
Definition relaxed_dot (a b : list Z) : list Z :=
  from_fn 8 (λ i, sgn 16 (at_ a (2 * i) * at_ b (2 * i) + at_ a (2 * i + 1) * at_ b (2 * i + 1))).
Definition fma_f32x4 (f : Z → Z → Z → Z) : SM Execution () :=
  c ← pop_v128; let c := f32x4 c in
  b ← pop_v128; let b := f32x4 b in
  a ← pop_v128; let a := f32x4 a in
  push_v128 (from_f32x4 (from_fn 4 (λ i,
    canon_f32 (f (at_ a i) (at_ b i) (at_ c i)) (is_nan F32 (at_ a i) || is_nan F32 (at_ b i) || is_nan F32 (at_ c i))))).
Definition fma_f64x2 (f : Z → Z → Z → Z) : SM Execution () :=
  c ← pop_v128; let c := f64x2 c in
  b ← pop_v128; let b := f64x2 b in
  a ← pop_v128; let a := f64x2 a in
  push_v128 (from_f64x2 (from_fn 2 (λ i,
    canon_f64 (f (at_ a i) (at_ b i) (at_ c i)) (is_nan F64 (at_ a i) || is_nan F64 (at_ b i) || is_nan F64 (at_ c i))))).
(** The body that [i8x16.swizzle] and its relaxed form share. *)
Definition swizzle_body : SM Execution () :=
  sel ← pop_v128; let sel := u8x16 sel in
  a ← pop_v128; let a := u8x16 a in
  push_v128 (from_u8x16 (from_fn 16 (λ i, let j := at_ sel i in if j <? 16 then at_ a j else 0))).
(** ... and that of the truncations of two doubles. *)
Definition trunc_zero (f : Z → Z) : SM Execution () :=
  v ← pop_v128; let l := f64x2 v in push_v128 (from_i32x4 [f (at_ l 0); f (at_ l 1); 0; 0]).
Definition q15mulr (a b : Z) : Z := sgn 16 (clamp (-32768) 32767 (Z.shiftr (a * b + 0x4000) 15)).

Definition exec_simd_relaxed (s : SimdOp) : SM Execution () :=
  match s with
  | SI8x16RelaxedSwizzle => swizzle_body
  | SI32x4RelaxedTruncF32x4S => v_unop f32x4 from_i32x4 i32_trunc_sat_f32_s
  | SI32x4RelaxedTruncF32x4U => v_unop f32x4 from_i32x4 i32_trunc_sat_f32_u
  | SI32x4RelaxedTruncF64x2SZero => trunc_zero i32_trunc_sat_f64_s
  | SI32x4RelaxedTruncF64x2UZero => trunc_zero i32_trunc_sat_f64_u
  | SF32x4RelaxedMin => v_binop f32x4 from_f32x4 f32_min
  | SF32x4RelaxedMax => v_binop f32x4 from_f32x4 f32_max
  | SF64x2RelaxedMin => v_binop f64x2 from_f64x2 f64_min
  | SF64x2RelaxedMax => v_binop f64x2 from_f64x2 f64_max
  | SI8x16RelaxedLaneselect | SI16x8RelaxedLaneselect | SI32x4RelaxedLaneselect | SI64x2RelaxedLaneselect =>
      m ← pop_v128; b ← pop_v128; a ← pop_v128; push_v128 (Z.lor (Z.land a m) (Z.land b (not_u 128 m)))
  | SF32x4RelaxedMadd => fma_f32x4 (f_mul_add F32)
  | SF32x4RelaxedNmadd => fma_f32x4 (λ a b c, f_mul_add F32 (f_neg F32 a) b c)
  | SF64x2RelaxedMadd => fma_f64x2 (f_mul_add F64)
  | SF64x2RelaxedNmadd => fma_f64x2 (λ a b c, f_mul_add F64 (f_neg F64 a) b c)
  | SI16x8RelaxedQ15mulrS => v_binop i16x8 from_i16x8 q15mulr
  | SI16x8RelaxedDotI8x16I7x16S =>
      b ← pop_v128; let b := i8x16 b in
      a ← pop_v128; let a := i8x16 a in
      push_v128 (from_i16x8 (relaxed_dot a b))
  | SI32x4RelaxedDotI8x16I7x16AddS =>
      c ← pop_v128; let c := i32x4 c in
      b ← pop_v128; let b := i8x16 b in
      a ← pop_v128; let a := i8x16 a in
      let dot := relaxed_dot a b in
      push_v128 (from_i32x4 (from_fn 4 (λ j, sgn 32 (sgn 32 (at_ dot (2 * j) + at_ dot (2 * j + 1)) + at_ c j))))
  | _ => fail (EMsg "unimplemented simd op")
  end.

(** ** cvt.rs *)
Definition exec_simd_cvt (s : SimdOp) : SM Execution () :=
  match s with
  | SI32x4TruncSatF32x4S => v_unop f32x4 from_i32x4 i32_trunc_sat_f32_s
  | SI32x4TruncSatF32x4U => v_unop f32x4 from_i32x4 i32_trunc_sat_f32_u
  | SF32x4ConvertI32x4S => v_unop i32x4 from_f32x4 f32_convert_i32_s
  | SF32x4ConvertI32x4U => v_unop u32x4 from_f32x4 f32_convert_i32_u
  | SI32x4TruncSatF64x2SZero => trunc_zero i32_trunc_sat_f64_s
  | SI32x4TruncSatF64x2UZero => trunc_zero i32_trunc_sat_f64_u
  | SF64x2ConvertLowI32x4S =>
      v ← pop_v128; let l := i32x4 v in
      push_v128 (from_f64x2 [f64_convert_i32_s (at_ l 0); f64_convert_i32_s (at_ l 1)])
  | SF64x2ConvertLowI32x4U =>
      v ← pop_v128; let l := u32x4 v in
      push_v128 (from_f64x2 [f64_convert_i32_u (at_ l 0); f64_convert_i32_u (at_ l 1)])
  | SF32x4DemoteF64x2Zero =>
      v ← pop_v128; let l := f64x2 v in
      let d x := canon_f32 (f32_demote_f64 x) (is_nan F64 x) in
      push_v128 (from_f32x4 [d (at_ l 0); d (at_ l 1); 0; 0])
  | SF64x2PromoteLowF32x4 =>
      v ← pop_v128; let l := f32x4 v in
      let p x := canon_f64 (f64_promote_f32 x) (is_nan F32 x) in
      push_v128 (from_f64x2 [p (at_ l 0); p (at_ l 1)])
  | _ => exec_simd_relaxed s
  end.

(** ** fcmp.rs *)
Definition exec_simd_fcmp (s : SimdOp) : SM Execution () :=
  match s with
  | SF32x4Eq => v_cmp 4 f32x4 (f_eq F32)
  | SF32x4Ne => v_cmp 4 f32x4 (f_ne F32)
  | SF32x4Lt => v_cmp 4 f32x4 (f_lt F32)
  | SF32x4Gt => v_cmp 4 f32x4 (f_gt F32)
  | SF32x4Le => v_cmp 4 f32x4 (f_le F32)
  | SF32x4Ge => v_cmp 4 f32x4 (f_ge F32)
  | SF64x2Eq => v_cmp 2 f64x2 (f_eq F64)
  | SF64x2Ne => v_cmp 2 f64x2 (f_ne F64)
  | SF64x2Lt => v_cmp 2 f64x2 (f_lt F64)
  | SF64x2Gt => v_cmp 2 f64x2 (f_gt F64)
  | SF64x2Le => v_cmp 2 f64x2 (f_le F64)
  | SF64x2Ge => v_cmp 2 f64x2 (f_ge F64)
  | _ => exec_simd_cvt s
  end.

(** ** farith.rs *)
Definition SIGN32 : Z := 0x80000000.
Definition SIGN64 : Z := 0x8000000000000000.
Definition nan2 (a b : Z) : bool := is_nan F32 a || is_nan F32 b.
Definition nan2d (a b : Z) : bool := is_nan F64 a || is_nan F64 b.
Definition exec_simd_farith (s : SimdOp) : SM Execution () :=
  match s with
  | SF32x4Add => v_binop f32x4 from_f32x4 (λ a b, canon_f32 (f_add F32 a b) (nan2 a b))
  | SF32x4Sub => v_binop f32x4 from_f32x4 (λ a b, canon_f32 (f_sub F32 a b) (nan2 a b))
  | SF32x4Mul => v_binop f32x4 from_f32x4 (λ a b, canon_f32 (f_mul F32 a b) (nan2 a b))
  | SF32x4Div => v_binop f32x4 from_f32x4 (λ a b, canon_f32 (f_div F32 a b) (nan2 a b))
  | SF32x4Min => v_binop f32x4 from_f32x4 f32_min
  | SF32x4Max => v_binop f32x4 from_f32x4 f32_max
  | SF32x4PMin => v_binop f32x4 from_f32x4 (λ a b, if f_lt F32 b a then b else a)
  | SF32x4PMax => v_binop f32x4 from_f32x4 (λ a b, if f_lt F32 a b then b else a)
  | SF32x4Sqrt => v_unop f32x4 from_f32x4 (λ x, canon_f32 (f_sqrt F32 x) (is_nan F32 x))
  | SF32x4Ceil => v_unop f32x4 from_f32x4 (λ x, canon_f32 (f_ceil F32 x) (is_nan F32 x))
  | SF32x4Floor => v_unop f32x4 from_f32x4 (λ x, canon_f32 (f_floor F32 x) (is_nan F32 x))
  | SF32x4Trunc => v_unop f32x4 from_f32x4 (λ x, canon_f32 (f_trunc F32 x) (is_nan F32 x))
  | SF32x4Nearest => v_unop f32x4 from_f32x4 (λ x, canon_f32 (f_nearest F32 x) (is_nan F32 x))
  | SF32x4Abs => v_unop u32x4 from_u32x4 (λ x, Z.land x (not_u 32 SIGN32))
  | SF32x4Neg => v_unop u32x4 from_u32x4 (λ x, Z.lxor x SIGN32)
  | SF64x2Add => v_binop f64x2 from_f64x2 (λ a b, canon_f64 (f_add F64 a b) (nan2d a b))
  | SF64x2Sub => v_binop f64x2 from_f64x2 (λ a b, canon_f64 (f_sub F64 a b) (nan2d a b))
  | SF64x2Mul => v_binop f64x2 from_f64x2 (λ a b, canon_f64 (f_mul F64 a b) (nan2d a b))
  | SF64x2Div => v_binop f64x2 from_f64x2 (λ a b, canon_f64 (f_div F64 a b) (nan2d a b))
  | SF64x2Min => v_binop f64x2 from_f64x2 f64_min
  | SF64x2Max => v_binop f64x2 from_f64x2 f64_max
  | SF64x2PMin => v_binop f64x2 from_f64x2 (λ a b, if f_lt F64 b a then b else a)
  | SF64x2PMax => v_binop f64x2 from_f64x2 (λ a b, if f_lt F64 a b then b else a)
  | SF64x2Sqrt => v_unop f64x2 from_f64x2 (λ x, canon_f64 (f_sqrt F64 x) (is_nan F64 x))
  | SF64x2Ceil => v_unop f64x2 from_f64x2 (λ x, canon_f64 (f_ceil F64 x) (is_nan F64 x))
  | SF64x2Floor => v_unop f64x2 from_f64x2 (λ x, canon_f64 (f_floor F64 x) (is_nan F64 x))
  | SF64x2Trunc => v_unop f64x2 from_f64x2 (λ x, canon_f64 (f_trunc F64 x) (is_nan F64 x))
  | SF64x2Nearest => v_unop f64x2 from_f64x2 (λ x, canon_f64 (f_nearest F64 x) (is_nan F64 x))
  | SF64x2Abs => v_unop u64x2 from_u64x2 (λ x, Z.land x (not_u 64 SIGN64))
  | SF64x2Neg => v_unop u64x2 from_u64x2 (λ x, Z.lxor x SIGN64)
  | _ => exec_simd_fcmp s
  end.

(** ** iarith2.rs *)
Definition v_extend (no : Z) (split : Z → list Z) (join : list Z → Z) (high : bool) (f : Z → Z) : SM Execution () :=
  v ← pop_v128; let a := split v in
  let off := if high then no else 0 in
  push_v128 (join (from_fn no (λ i, f (at_ a (off + i))))).
Definition v_extmul (no : Z) (split : Z → list Z) (join : list Z → Z) (high : bool) (f : Z → Z → Z) : SM Execution () :=
  v ← pop_v128; let b := split v in
  v ← pop_v128; let a := split v in
  let off := if high then no else 0 in
  push_v128 (join (from_fn no (λ i, f (at_ a (off + i)) (at_ b (off + i))))).
Definition v_extadd (no : Z) (split : Z → list Z) (join : list Z → Z) (f : Z → Z → Z) : SM Execution () :=
  v ← pop_v128; let a := split v in
  push_v128 (join (from_fn no (λ i, f (at_ a (2 * i)) (at_ a (2 * i + 1))))).
Definition v_narrow (ni : Z) (split : Z → list Z) (join : list Z → Z) (f : Z → Z) : SM Execution () :=
  v ← pop_v128; let b := split v in
  v ← pop_v128; let a := split v in
  push_v128 (join (from_fn (2 * ni) (λ i, if i <? ni then f (at_ a i) else f (at_ b (i - ni))))).
Definition exec_simd_iarith2 (s : SimdOp) : SM Execution () :=
  match s with
  | SI8x16AddSatS => v_binop i8x16 from_i8x16 (λ a b, saturating_s 8 (a + b))
  | SI8x16AddSatU => v_binop u8x16 from_u8x16 (λ a b, saturating_u 8 (a + b))
  | SI8x16SubSatS => v_binop i8x16 from_i8x16 (λ a b, saturating_s 8 (a - b))
  | SI8x16SubSatU => v_binop u8x16 from_u8x16 (λ a b, saturating_u 8 (a - b))
  | SI16x8AddSatS => v_binop i16x8 from_i16x8 (λ a b, saturating_s 16 (a + b))
  | SI16x8AddSatU => v_binop u16x8 from_u16x8 (λ a b, saturating_u 16 (a + b))
  | SI16x8SubSatS => v_binop i16x8 from_i16x8 (λ a b, saturating_s 16 (a - b))
  | SI16x8SubSatU => v_binop u16x8 from_u16x8 (λ a b, saturating_u 16 (a - b))
  | SI16x8Q15MulrSatS => v_binop i16x8 from_i16x8 q15mulr
  | SI8x16NarrowI16x8S => v_narrow 8 i16x8 from_i8x16 (λ x, sgn 8 (clamp (-128) 127 x))
  | SI8x16NarrowI16x8U => v_narrow 8 i16x8 from_u8x16 (λ x, wrap 8 (clamp 0 255 x))
  | SI16x8NarrowI32x4S => v_narrow 4 i32x4 from_i16x8 (λ x, sgn 16 (clamp (-32768) 32767 x))
  | SI16x8NarrowI32x4U => v_narrow 4 i32x4 from_u16x8 (λ x, wrap 16 (clamp 0 65535 x))
  | SI16x8ExtendLowI8x16S => v_extend 8 i8x16 from_i16x8 false id
  | SI16x8ExtendHighI8x16S => v_extend 8 i8x16 from_i16x8 true id
  | SI16x8ExtendLowI8x16U => v_extend 8 u8x16 from_u16x8 false id
  | SI16x8ExtendHighI8x16U => v_extend 8 u8x16 from_u16x8 true id
  | SI32x4ExtendLowI16x8S => v_extend 4 i16x8 from_i32x4 false id
  | SI32x4ExtendHighI16x8S => v_extend 4 i16x8 from_i32x4 true id
  | SI32x4ExtendLowI16x8U => v_extend 4 u16x8 from_u32x4 false id
  | SI32x4ExtendHighI16x8U => v_extend 4 u16x8 from_u32x4 true id
  | SI64x2ExtendLowI32x4S => v_extend 2 i32x4 from_i64x2 false id
  | SI64x2ExtendHighI32x4S => v_extend 2 i32x4 from_i64x2 true id
  | SI64x2ExtendLowI32x4U => v_extend 2 u32x4 from_u64x2 false id
  | SI64x2ExtendHighI32x4U => v_extend 2 u32x4 from_u64x2 true id
  | SI16x8ExtAddPairwiseI8x16S => v_extadd 8 i8x16 from_i16x8 (λ a b, sgn 16 (a + b))
  | SI16x8ExtAddPairwiseI8x16U => v_extadd 8 u8x16 from_u16x8 (λ a b, wrap 16 (a + b))
  | SI32x4ExtAddPairwiseI16x8S => v_extadd 4 i16x8 from_i32x4 (λ a b, sgn 32 (a + b))
  | SI32x4ExtAddPairwiseI16x8U => v_extadd 4 u16x8 from_u32x4 (λ a b, wrap 32 (a + b))
  | SI16x8ExtMulLowI8x16S => v_extmul 8 i8x16 from_i16x8 false (λ a b, sgn 16 (a * b))
  | SI16x8ExtMulHighI8x16S => v_extmul 8 i8x16 from_i16x8 true (λ a b, sgn 16 (a * b))
  | SI16x8ExtMulLowI8x16U => v_extmul 8 u8x16 from_u16x8 false (λ a b, wrap 16 (a * b))
  | SI16x8ExtMulHighI8x16U => v_extmul 8 u8x16 from_u16x8 true (λ a b, wrap 16 (a * b))
  | SI32x4ExtMulLowI16x8S => v_extmul 4 i16x8 from_i32x4 false (λ a b, sgn 32 (a * b))
  | SI32x4ExtMulHighI16x8S => v_extmul 4 i16x8 from_i32x4 true (λ a b, sgn 32 (a * b))
  | SI32x4ExtMulLowI16x8U => v_extmul 4 u16x8 from_u32x4 false (λ a b, wrap 32 (a * b))
  | SI32x4ExtMulHighI16x8U => v_extmul 4 u16x8 from_u32x4 true (λ a b, wrap 32 (a * b))
  | SI64x2ExtMulLowI32x4S => v_extmul 2 i32x4 from_i64x2 false (λ a b, sgn 64 (a * b))
  | SI64x2ExtMulHighI32x4S => v_extmul 2 i32x4 from_i64x2 true (λ a b, sgn 64 (a * b))
  | SI64x2ExtMulLowI32x4U => v_extmul 2 u32x4 from_u64x2 false (λ a b, wrap 64 (a * b))
  | SI64x2ExtMulHighI32x4U => v_extmul 2 u32x4 from_u64x2 true (λ a b, wrap 64 (a * b))
  | SI32x4DotI16x8S => 
      v ← pop_v128; let b := i16x8 v in
      v ← pop_v128; let a := i16x8 v in
      push_v128 (from_i32x4 (from_fn 4 (λ i,
        sgn 32 (at_ a (2 * i) * at_ b (2 * i) + at_ a (2 * i + 1) * at_ b (2 * i + 1)))))
  | _ => exec_simd_farith s
  end.

(** ** icmp.rs *)
Definition exec_simd_icmp (s : SimdOp) : SM Execution () :=
  match s with
  | SI8x16Eq => v_cmp 16 i8x16 Z.eqb
  | SI8x16Ne => v_cmp 16 i8x16 (λ a b, negb (a =? b))
  | SI8x16LtS => v_cmp 16 i8x16 Z.ltb
  | SI8x16LtU => v_cmp 16 u8x16 Z.ltb
  | SI8x16GtS => v_cmp 16 i8x16 Z.gtb
  | SI8x16GtU => v_cmp 16 u8x16 Z.gtb
  | SI8x16LeS => v_cmp 16 i8x16 Z.leb
  | SI8x16LeU => v_cmp 16 u8x16 Z.leb
  | SI8x16GeS => v_cmp 16 i8x16 Z.geb
  | SI8x16GeU => v_cmp 16 u8x16 Z.geb
  | SI16x8Eq => v_cmp 8 i16x8 Z.eqb
  | SI16x8Ne => v_cmp 8 i16x8 (λ a b, negb (a =? b))
  | SI16x8LtS => v_cmp 8 i16x8 Z.ltb
  | SI16x8LtU => v_cmp 8 u16x8 Z.ltb
  | SI16x8GtS => v_cmp 8 i16x8 Z.gtb
  | SI16x8GtU => v_cmp 8 u16x8 Z.gtb
  | SI16x8LeS => v_cmp 8 i16x8 Z.leb
  | SI16x8LeU => v_cmp 8 u16x8 Z.leb
  | SI16x8GeS => v_cmp 8 i16x8 Z.geb
  | SI16x8GeU => v_cmp 8 u16x8 Z.geb
  | SI32x4Eq => v_cmp 4 i32x4 Z.eqb
  | SI32x4Ne => v_cmp 4 i32x4 (λ a b, negb (a =? b))
  | SI32x4LtS => v_cmp 4 i32x4 Z.ltb
  | SI32x4LtU => v_cmp 4 u32x4 Z.ltb
  | SI32x4GtS => v_cmp 4 i32x4 Z.gtb
  | SI32x4GtU => v_cmp 4 u32x4 Z.gtb
  | SI32x4LeS => v_cmp 4 i32x4 Z.leb
  | SI32x4LeU => v_cmp 4 u32x4 Z.leb
  | SI32x4GeS => v_cmp 4 i32x4 Z.geb
  | SI32x4GeU => v_cmp 4 u32x4 Z.geb
  | SI64x2Eq => v_cmp 2 i64x2 Z.eqb
  | SI64x2Ne => v_cmp 2 i64x2 (λ a b, negb (a =? b))
  | SI64x2LtS => v_cmp 2 i64x2 Z.ltb
  | SI64x2GtS => v_cmp 2 i64x2 Z.gtb
  | SI64x2LeS => v_cmp 2 i64x2 Z.leb
  | SI64x2GeS => v_cmp 2 i64x2 Z.geb
  | SI8x16Shl => v_shift 16 i8x16 from_i8x16 (wrapping_shl 8)
  | SI8x16ShrS => v_shift 16 i8x16 from_i8x16 (wrapping_shr 8)
  | SI8x16ShrU => v_shift 16 u8x16 from_u8x16 (wrapping_shr 8)
  | SI16x8Shl => v_shift 8 i16x8 from_i16x8 (wrapping_shl 16)
  | SI16x8ShrS => v_shift 8 i16x8 from_i16x8 (wrapping_shr 16)
  | SI16x8ShrU => v_shift 8 u16x8 from_u16x8 (wrapping_shr 16)
  | SI32x4Shl => v_shift 4 i32x4 from_i32x4 (wrapping_shl 32)
  | SI32x4ShrS => v_shift 4 i32x4 from_i32x4 (wrapping_shr 32)
  | SI32x4ShrU => v_shift 4 u32x4 from_u32x4 (wrapping_shr 32)
  | SI64x2Shl => v_shift 2 i64x2 from_i64x2 (wrapping_shl 64)
  | SI64x2ShrS => v_shift 2 i64x2 from_i64x2 (wrapping_shr 64)
  | SI64x2ShrU => v_shift 2 u64x2 from_u64x2 (wrapping_shr 64)
  | _ => exec_simd_iarith2 s
  end.

(** ** iarith.rs *)
Definition avgr (a b : Z) : Z := (a + b + 1) / 2.
(** [m |= 1 << i] for each negative lane. *)
Fixpoint bitmask_go (i : Z) (l : list Z) (m : Z) : Z :=
  match l with
  | [] => m
  | x :: rest => bitmask_go (i + 1) rest (if x <? 0 then Z.lor m (Z.shiftl 1 i) else m)
  end.
Definition v_bitmask (split : Z → list Z) : SM Execution () :=
  v ← pop_v128; push (VI32 (bitmask_go 0 (split v) 0)).
Definition v_all_true (split : Z → list Z) : SM Execution () :=
  v ← pop_v128; push (VI32 (b2i (forallb (λ x, negb (x =? 0)) (split v)))).
Definition exec_simd_iarith (s : SimdOp) : SM Execution () :=
  match s with
  | SI8x16Add => v_binop i8x16 from_i8x16 (wadd 8)
  | SI8x16Sub => v_binop i8x16 from_i8x16 (wsub 8)
  | SI8x16Neg => v_unop i8x16 from_i8x16 (wneg 8)
  | SI8x16Abs => v_unop i8x16 from_i8x16 (wabs 8)
  | SI8x16Popcnt => v_unop u8x16 from_u8x16 (λ x, wrap 8 (count_ones 8 x))
  | SI8x16MinS => v_binop i8x16 from_i8x16 Z.min
  | SI8x16MinU => v_binop u8x16 from_u8x16 Z.min
  | SI8x16MaxS => v_binop i8x16 from_i8x16 Z.max
  | SI8x16MaxU => v_binop u8x16 from_u8x16 Z.max
  | SI8x16AvgrU => v_binop u8x16 from_u8x16 (λ a b, wrap 8 (avgr a b))
  | SI8x16AllTrue => v_all_true i8x16
  | SI8x16Bitmask => v_bitmask i8x16
  | SI16x8Add => v_binop i16x8 from_i16x8 (wadd 16)
  | SI16x8Sub => v_binop i16x8 from_i16x8 (wsub 16)
  | SI16x8Mul => v_binop i16x8 from_i16x8 (wmul 16)
  | SI16x8Neg => v_unop i16x8 from_i16x8 (wneg 16)
  | SI16x8Abs => v_unop i16x8 from_i16x8 (wabs 16)
  | SI16x8MinS => v_binop i16x8 from_i16x8 Z.min
  | SI16x8MinU => v_binop u16x8 from_u16x8 Z.min
  | SI16x8MaxS => v_binop i16x8 from_i16x8 Z.max
  | SI16x8MaxU => v_binop u16x8 from_u16x8 Z.max
  | SI16x8AvgrU => v_binop u16x8 from_u16x8 (λ a b, wrap 16 (avgr a b))
  | SI16x8AllTrue => v_all_true i16x8
  | SI16x8Bitmask => v_bitmask i16x8
  | SI32x4Add => v_binop i32x4 from_i32x4 (wadd 32)
  | SI32x4Sub => v_binop i32x4 from_i32x4 (wsub 32)
  | SI32x4Mul => v_binop i32x4 from_i32x4 (wmul 32)
  | SI32x4Neg => v_unop i32x4 from_i32x4 (wneg 32)
  | SI32x4Abs => v_unop i32x4 from_i32x4 (wabs 32)
  | SI32x4MinS => v_binop i32x4 from_i32x4 Z.min
  | SI32x4MinU => v_binop u32x4 from_u32x4 Z.min
  | SI32x4MaxS => v_binop i32x4 from_i32x4 Z.max
  | SI32x4MaxU => v_binop u32x4 from_u32x4 Z.max
  | SI32x4AllTrue => v_all_true i32x4
  | SI32x4Bitmask => v_bitmask i32x4
  | SI64x2Add => v_binop i64x2 from_i64x2 (wadd 64)
  | SI64x2Sub => v_binop i64x2 from_i64x2 (wsub 64)
  | SI64x2Mul => v_binop i64x2 from_i64x2 (wmul 64)
  | SI64x2Neg => v_unop i64x2 from_i64x2 (wneg 64)
  | SI64x2Abs => v_unop i64x2 from_i64x2 (wabs 64)
  | SI64x2AllTrue => v_all_true i64x2
  | SI64x2Bitmask => v_bitmask i64x2
  | _ => exec_simd_icmp s
  end.

(** ** bit.rs *)
Definition bit_binop (f : Z → Z → Z) : SM Execution () := b ← pop_v128; a ← pop_v128; push_v128 (f a b).
Definition exec_simd_bit (s : SimdOp) : SM Execution () :=
  match s with
  | SV128Not => a ← pop_v128; push_v128 (not_u 128 a)
  | SV128And => bit_binop Z.land
  | SV128Or => bit_binop Z.lor
  | SV128Xor => bit_binop Z.lxor
  | SV128AndNot => bit_binop (λ a b, Z.land a (not_u 128 b))
  | SV128Bitselect =>
      c ← pop_v128; v2 ← pop_v128; v1 ← pop_v128;
      push_v128 (Z.lor (Z.land v1 c) (Z.land v2 (not_u 128 c)))
  | SV128AnyTrue => v ← pop_v128; push (VI32 (b2i (negb (v =? 0))))
  | _ => exec_simd_iarith s
  end.

(** ** lane.rs *)

(** [a[*l as usize]] and [a[*l as usize] = x]: the immediate may be out of the array's
    bounds. *)
Definition lane_get (a : list Z) (l : Z) : res Z := expect (zget a l) "index out of bounds".
Definition lane_set (a : list Z) (l x : Z) : res (list Z) := expect (zset a l x) "index out of bounds".
Definition extract (f : Z → res Z) (wrap : Z → Val) : SM Execution () :=
  v ← pop_v128; x ← lift (f v); push (wrap x).
(** The lane arms share their shape: pop the scalar, then the vector, and replace. *)
Definition replace (pop : SM Execution Z) (split : Z → list Z) (join : list Z → Z) (l : Z) : SM Execution () :=
  x ← pop; v ← pop_v128; a ← lift (lane_set (split v) l x); push_v128 (join a).
Definition splat (n : Z) (pop : SM Execution Z) (join : list Z → Z) : SM Execution () :=
  x ← pop; push_v128 (join (replicate (Z.to_nat n) x)).
Definition pop_as (w : Z) : SM Execution Z := x ← pop_i32; mret (sgn w x).
Definition exec_simd_lane (s : SimdOp) : SM Execution () :=
  match s with
  | SV128Const bits => push_v128 bits
  | SI8x16Splat => splat 16 (pop_as 8) from_i8x16
  | SI16x8Splat => splat 8 (pop_as 16) from_i16x8
  | SI32x4Splat => splat 4 pop_i32 from_i32x4
  | SI64x2Splat => splat 2 pop_i64 from_i64x2
  | SF32x4Splat => splat 4 pop_f32 from_f32x4
  | SF64x2Splat => splat 2 pop_f64 from_f64x2
  | SI8x16ExtractLaneS l => extract (λ v, lane_get (i8x16 v) l) VI32
  | SI8x16ExtractLaneU l => extract (λ v, lane_get (u8x16 v) l) VI32
  | SI16x8ExtractLaneS l => extract (λ v, lane_get (i16x8 v) l) VI32
  | SI16x8ExtractLaneU l => extract (λ v, lane_get (u16x8 v) l) VI32
  | SI32x4ExtractLane l => extract (λ v, lane_get (i32x4 v) l) VI32
  | SI64x2ExtractLane l => extract (λ v, lane_get (i64x2 v) l) VI64
  | SF32x4ExtractLane l => extract (λ v, lane_get (u32x4 v) l) VF32
  | SF64x2ExtractLane l => extract (λ v, lane_get (u64x2 v) l) VF64
  | SI8x16ReplaceLane l => replace (pop_as 8) i8x16 from_i8x16 l
  | SI16x8ReplaceLane l => replace (pop_as 16) i16x8 from_i16x8 l
  | SI32x4ReplaceLane l => replace pop_i32 i32x4 from_i32x4 l
  | SI64x2ReplaceLane l => replace pop_i64 i64x2 from_i64x2 l
  | SF32x4ReplaceLane l => replace pop_f32 f32x4 from_f32x4 l
  | SF64x2ReplaceLane l => replace pop_f64 f64x2 from_f64x2 l
  | SI8x16Shuffle idx =>
      v ← pop_v128; let b := u8x16 v in
      v ← pop_v128; let a := u8x16 v in
      let ab := a ++ b in
      r ← lift (mapM (lane_get ab) idx);
      push_v128 (from_u8x16 r)
  | SI8x16Swizzle => swizzle_body
  | _ => exec_simd_bit s
  end.
Definition exec_simd_compute (s : SimdOp) : SM Execution () := exec_simd_lane s.

(** ** mem.rs *)
Definition load_v (n : Z) (code : Code) (instance : Handle) (m : MemArg) (f : list Z → Z) : SM Vm bool :=
  b ← load_n n code instance m; on_ex (push_v128 (f b));; mret true.
Definition load_lane (w : Z) (code : Code) (instance : Handle) (m : MemArg) (split : Z → list Z) (join : list Z → Z) (l : Z)
    : SM Vm bool :=
  v ← on_ex pop_v128; b ← load_n w code instance m;
  a ← lift (lane_set (split v) l (from_le_bytes b));
  on_ex (push_v128 (join a));; mret true.
Definition store_lane (w : nat) (code : Code) (instance : Handle) (m : MemArg) (split : Z → list Z) (l : Z) : SM Vm bool :=
  v ← on_ex pop_v128; x ← lift (lane_get (split v) l);
  store_n code instance m (to_le_bytes w x);; mret true.
(** The answer says whether the instruction was one of these. *)
Definition exec_simd_mem (code : Code) (s : SimdOp) (instance : Handle) : SM Vm bool :=
  match s with
  | SV128Load m => load_v 16 code instance m from_le_bytes
  | SV128Store m => v ← on_ex pop_v128; store_n code instance m (to_le_bytes 16 v);; mret true
  | SV128Load8x8S m => load_v 8 code instance m (λ b, from_i16x8 (from_fn 8 (λ i, sgn 8 (at_ b i))))
  | SV128Load8x8U m => load_v 8 code instance m (λ b, from_i16x8 (from_fn 8 (λ i, at_ b i)))
  | SV128Load16x4S m =>
      load_v 8 code instance m (λ b, from_i32x4 (from_fn 4 (λ i, sgn 16 (from_le_bytes [at_ b (2 * i); at_ b (2 * i + 1)]))))
  | SV128Load16x4U m =>
      load_v 8 code instance m (λ b, from_i32x4 (from_fn 4 (λ i, from_le_bytes [at_ b (2 * i); at_ b (2 * i + 1)])))
  | SV128Load32x2S m =>
      load_v 8 code instance m (λ b, from_i64x2 (from_fn 2 (λ i,
        sgn 32 (from_le_bytes [at_ b (4 * i); at_ b (4 * i + 1); at_ b (4 * i + 2); at_ b (4 * i + 3)]))))
  | SV128Load32x2U m =>
      load_v 8 code instance m (λ b, from_i64x2 (from_fn 2 (λ i,
        from_le_bytes [at_ b (4 * i); at_ b (4 * i + 1); at_ b (4 * i + 2); at_ b (4 * i + 3)])))
  | SV128Load8Splat m => load_v 1 code instance m (λ b, from_u8x16 (replicate 16 (at_ b 0)))
  | SV128Load16Splat m => load_v 2 code instance m (λ b, from_u16x8 (replicate 8 (from_le_bytes b)))
  | SV128Load32Splat m => load_v 4 code instance m (λ b, from_u32x4 (replicate 4 (from_le_bytes b)))
  | SV128Load64Splat m => load_v 8 code instance m (λ b, from_u64x2 (replicate 2 (from_le_bytes b)))
  | SV128Load32Zero m => load_v 4 code instance m from_le_bytes
  | SV128Load64Zero m => load_v 8 code instance m from_le_bytes
  | SV128Load8Lane m l => load_lane 1 code instance m u8x16 from_u8x16 l
  | SV128Load16Lane m l => load_lane 2 code instance m u16x8 from_u16x8 l
  | SV128Load32Lane m l => load_lane 4 code instance m u32x4 from_u32x4 l
  | SV128Load64Lane m l => load_lane 8 code instance m u64x2 from_u64x2 l
  | SV128Store8Lane m l => store_lane 1 code instance m u8x16 l
  | SV128Store16Lane m l => store_lane 2 code instance m u16x8 l
  | SV128Store32Lane m l => store_lane 4 code instance m u32x4 l
  | SV128Store64Lane m l => store_lane 8 code instance m u64x2 l
  | _ => mret false
  end.

Definition exec_simd (code : Code) (s : SimdOp) (instance : Handle) : SM Vm () :=
  done_ ← exec_simd_mem code s instance;
  if (done_ : bool) then mret tt else on_ex (exec_simd_compute s).
End simd.
