(* ===== verification/Vector.v ===== *)
(** * Vector: lanes, typed arrays and the combinators of the vector instructions
    (about Simd.v)

    The specification reads a [v128] as a number whose lane [i] of [w] bits is
    [(v / 2 ^ (w * i)) mod 2 ^ w]; a [VecRef] gives each lane of a result from the lanes of
    the operands.  The code goes through bytes and typed arrays: the lemmas show that each
    combinator [meets] the shape of reference it stands for, given that its function on one
    lane does; VectorSpec.v has the references of the instructions. *)
From Stdlib Require Import Floats.SpecFloat.
From S2P Require Import Prelude Types Layout Codec Op Entity Store Stack Float Numeric Memory Simd.
Open Scope Z_scope.

(** ** Lanes of a number *)
Definition lane (w i v : Z) : Z := (v / 2 ^ (w * i)) mod 2 ^ w.
Lemma lane_ok w i v : 0 ≤ w → u_ok w (lane w i v).
Proof. intros. apply wrap_ok. done. Qed.

Lemma le_take n k v : (k ≤ n)%nat → take k (to_le_bytes n v) = to_le_bytes k v.
Proof.
  revert n v. induction k as [|k IH]; intros n v Hk; [done|]. destruct n as [|n]; [lia|]. cbn. f_equal. apply IH. lia.
Qed.
(** A window of a number's bytes is a window of its bits. *)
Lemma lane_window n j k v : (j + k ≤ n)%nat →
  from_le_bytes (take k (drop j (to_le_bytes n v))) = (v / 2 ^ (8 * Z.of_nat j)) mod 2 ^ (8 * Z.of_nat k).
Proof.
  revert n v. induction j as [|j IH]; intros n v Hn.
  - rewrite drop_0, le_take by lia. rewrite from_to_le. by rewrite Z.mul_0_r, Z.pow_0_r, Z.div_1_r.
  - destruct n as [|n]; [lia|]. cbn [to_le_bytes drop]. rewrite IH by lia. change 256 with (2 ^ 8).
    rewrite Z.div_div; [|done|apply Z.pow_pos_nonneg; lia]. rewrite <- Z.pow_add_r by lia. do 3 f_equal. lia.
Qed.
Lemma from_le_app a b : from_le_bytes (a ++ b) = from_le_bytes a + 2 ^ (8 * zlen a) * from_le_bytes b.
Proof.
  induction a as [|x a IH]; [by rewrite (@zlen_nil Z), Z.mul_0_r, Z.pow_0_r, Z.mul_1_l|]. rewrite <- app_comm_cons. cbn [from_le_bytes]. rewrite IH, zlen_cons.
  replace (8 * (1 + zlen a)) with (8 + 8 * zlen a) by lia. rewrite Z.pow_add_r by (pose proof (zlen_nonneg a); lia).
  change (2 ^ 8) with 256. lia.
Qed.
(** The lanes of packed bytes. *)
Lemma lane_pack k (L : list (list Z)) i b : 0 < k → Forall (λ b, bytes_ok b ∧ zlen b = k) L → zget L i = Some b →
  lane (8 * k) i (from_le_bytes (concat L)) = from_le_bytes b.
Proof.
  intros Hk HL. revert i. induction HL as [|b0 L [Hb Hl] HL IH]; intros i Hi; [by rewrite zget_nil in Hi|].
  cbn [concat]. rewrite from_le_app, Hl. unfold lane. pose proof (from_le_bound b0 Hb) as Hb0. rewrite Hl in Hb0.
  assert (0 < 2 ^ (8 * k)) as Hpos by (apply Z.pow_pos_nonneg; lia).
  pose proof (zget_Some _ _ _ Hi) as Hr. destruct (Z.eq_dec i 0) as [->|].
  - rewrite zget_cons_0 in Hi. injection Hi as <-. rewrite Z.mul_0_r, Z.pow_0_r, Z.div_1_r.
    rewrite (Z.mul_comm (2 ^ (8 * k))), Z.mod_add by lia. by apply Z.mod_small.
  - rewrite zget_cons_S in Hi by lia. rewrite <- (IH _ Hi). unfold lane.
    assert (0 ≤ 8 * k * (i - 1)) as Hn by nia.
    replace (8 * k * i) with (8 * k + 8 * k * (i - 1)) by lia. rewrite Z.pow_add_r by lia.
    rewrite <- Z.div_div; [|lia|apply Z.pow_pos_nonneg; lia].
    rewrite (Z.mul_comm (2 ^ (8 * k))), Z.div_add by lia. rewrite (Z.div_small (from_le_bytes b0)) by lia. done.
Qed.

(** ** Typed arrays *)

(** [split] gives the [n] lanes of [w] bits, each read by [c]; [join] is a number whose lanes
    are those of its array, whose elements [P] holds of. *)
Definition splits (w n : Z) (c : Z → Z) (split : Z → list Z) : Prop :=
  ∀ v, zlen (split v) = n ∧ ∀ i, 0 ≤ i < n → zget (split v) i = Some (c (lane w i v)).
Definition joins (w n : Z) (P : Z → Prop) (join : list Z → Z) : Prop :=
  ∀ l, zlen l = n → Forall P l → u_ok 128 (join l) ∧ ∀ i x, zget l i = Some x → lane w i (join l) = wrap w x.

Lemma zget_from_fn {A} n (f : Z → A) i : 0 ≤ i < n → zget (from_fn n f) i = Some (f i).
Proof.
  intros Hi. unfold from_fn. rewrite zget_fmap. unfold zget. rewrite (proj2 (Z.leb_le _ _)) by lia.
  rewrite lookup_seqZ_lt by lia. cbn. do 2 f_equal. lia.
Qed.
Lemma zlen_from_fn {A} n (f : Z → A) : 0 ≤ n → zlen (from_fn n f) = n.
Proof. intros. unfold from_fn, zlen. rewrite length_fmap, length_seqZ. lia. Qed.
Lemma chunk_lane k i v : (0 < k)%nat → 0 ≤ i → Z.of_nat k * (i + 1) ≤ 16 →
  from_le_bytes (chunk (Z.of_nat k) (to_le_bytes 16 v) i) = lane (8 * Z.of_nat k) i v.
Proof.
  intros Hk Hi Hb. unfold chunk, ztake, zdrop, lane. rewrite lane_window by lia. do 3 f_equal; lia.
Qed.
Lemma zget_bytes n v i : 0 ≤ i < Z.of_nat n → zget (to_le_bytes n v) i = Some (lane 8 i v).
Proof.
  revert v i. induction n as [|n IH]; intros v i Hi; [lia|]. cbn [to_le_bytes]. destruct (Z.eq_dec i 0) as [->|].
  - rewrite zget_cons_0. unfold lane. by rewrite Z.mul_0_r, Z.pow_0_r, Z.div_1_r.
  - rewrite zget_cons_S by lia. rewrite IH by lia. unfold lane. change 256 with (2 ^ 8).
    rewrite Z.div_div; [|done|apply Z.pow_pos_nonneg; lia]. rewrite <- Z.pow_add_r by lia. do 4 f_equal. lia.
Qed.
Lemma splits_chunk k n c : (0 < k)%nat → 0 ≤ n → Z.of_nat k * n = 16 →
  splits (8 * Z.of_nat k) n c (λ v, from_fn n (λ i, c (from_le_bytes (chunk (Z.of_nat k) (to_le_bytes 16 v) i)))).
Proof.
  intros Hk Hn Hkn v. split; [by apply zlen_from_fn|]. intros i Hi. rewrite zget_from_fn by done.
  rewrite chunk_lane by nia. done.
Qed.
Lemma splits_u8x16 : splits 8 16 (λ x, x) u8x16.
Proof. intros v. split; [apply zlen_to_le|]. intros i Hi. by apply zget_bytes. Qed.
Lemma splits_i8x16 : splits 8 16 (sgn 8) i8x16.
Proof.
  intros v. unfold i8x16. split; [unfold zlen; by rewrite length_fmap|]. intros i Hi. by rewrite zget_fmap, zget_bytes by done.
Qed.
Lemma splits_u16x8 : splits 16 8 (λ x, x) u16x8.
Proof. exact (splits_chunk 2 8 (λ x, x) ltac:(lia) ltac:(lia) eq_refl). Qed.
Lemma splits_i16x8 : splits 16 8 (sgn 16) i16x8.
Proof. exact (splits_chunk 2 8 (sgn 16) ltac:(lia) ltac:(lia) eq_refl). Qed.
Lemma splits_u32x4 : splits 32 4 (λ x, x) u32x4.
Proof. exact (splits_chunk 4 4 (λ x, x) ltac:(lia) ltac:(lia) eq_refl). Qed.
Lemma splits_i32x4 : splits 32 4 (sgn 32) i32x4.
Proof. exact (splits_chunk 4 4 (sgn 32) ltac:(lia) ltac:(lia) eq_refl). Qed.
Lemma splits_u64x2 : splits 64 2 (λ x, x) u64x2.
Proof. exact (splits_chunk 8 2 (λ x, x) ltac:(lia) ltac:(lia) eq_refl). Qed.
Lemma splits_i64x2 : splits 64 2 (sgn 64) i64x2.
Proof. exact (splits_chunk 8 2 (sgn 64) ltac:(lia) ltac:(lia) eq_refl). Qed.

Lemma concat_bytes k (L : list (list Z)) : 0 ≤ k → Forall (λ b, bytes_ok b ∧ zlen b = k) L →
  bytes_ok (concat L) ∧ zlen (concat L) = k * zlen L.
Proof.
  intros Hk HL. induction HL as [|b L [Hb Hl] HL [IHb IHl]]; cbn [concat]; [split; [constructor|by rewrite Z.mul_comm]|].
  split; [by apply Forall_app|]. rewrite zlen_app, zlen_cons. lia.
Qed.
Lemma joins_pack k n : (0 < k)%nat → Z.of_nat k * n = 16 → joins (8 * Z.of_nat k) n (λ _, True) (λ l, pack (to_le_bytes k <$> l)).
Proof.
  intros Hk Hn l Hl _. set (L := to_le_bytes k <$> l).
  assert (Forall (λ b, bytes_ok b ∧ zlen b = Z.of_nat k) L) as HL.
  { apply Forall_fmap, Forall_true. intros x. cbn. split; [apply to_le_ok|apply zlen_to_le]. }
  destruct (concat_bytes (Z.of_nat k) L ltac:(lia) HL) as [Hb Hlen]. split.
  - unfold pack, u_ok. pose proof (from_le_bound _ Hb) as H. rewrite Hlen in H. unfold L in H. unfold zlen in Hl, H.
    rewrite length_fmap, Hl, Hn in H. exact H.
  - intros i x Hx. unfold pack. rewrite (lane_pack (Z.of_nat k) L i (to_le_bytes k x)); [|lia|done|].
    + rewrite from_to_le. done.
    + unfold L. by rewrite zget_fmap, Hx.
Qed.
Lemma concat_singles (l : list Z) : concat ((λ x, [x]) <$> l) = l.
Proof. induction l as [|x l IH]; [done|]. cbn. by rewrite IH. Qed.
Lemma joins_u8x16 : joins 8 16 (u_ok 8) from_u8x16.
Proof.
  intros l Hl Hok. assert (Forall (λ b, bytes_ok b ∧ zlen b = 1) ((λ x, [x]) <$> l)) as HL.
  { apply Forall_fmap. eapply Forall_impl; [exact Hok|]. intros x Hx. split; [by apply Forall_singleton|done]. }
  unfold from_u8x16. split.
  - pose proof (from_le_bound l Hok) as H. by rewrite Hl in H.
  - intros i x Hx. pose proof (lane_pack 1 _ i [x] ltac:(lia) HL) as Hp. rewrite concat_singles in Hp. change (8 * 1) with 8 in Hp.
    rewrite Hp by (by rewrite zget_fmap, Hx). cbn [from_le_bytes]. rewrite Z.mul_0_r, Z.add_0_r. symmetry. apply wrap_id.
    eapply Forall_forall; [exact Hok|]. by eapply zget_elem.
Qed.
Lemma joins_i8x16 : joins 8 16 (λ _, True) from_i8x16.
Proof.
  intros l Hl _. destruct (joins_u8x16 (wrap 8 <$> l)) as [Hr Hi].
  - unfold zlen. by rewrite length_fmap.
  - apply Forall_fmap, Forall_true. intros x. by apply wrap_ok.
  - split; [exact Hr|]. intros i x Hx. etrans; [apply Hi; by rewrite zget_fmap, Hx|]. by rewrite (wrap_id 8 (wrap 8 x)) by (by apply wrap_ok).
Qed.
Lemma joins_i16x8 : joins 16 8 (λ _, True) from_i16x8.
Proof. exact (joins_pack 2 8 ltac:(lia) eq_refl). Qed.
Lemma joins_u16x8 : joins 16 8 (λ _, True) from_u16x8.
Proof. exact (joins_pack 2 8 ltac:(lia) eq_refl). Qed.
Lemma joins_i32x4 : joins 32 4 (λ _, True) from_i32x4.
Proof. exact (joins_pack 4 4 ltac:(lia) eq_refl). Qed.
Lemma joins_u32x4 : joins 32 4 (λ _, True) from_u32x4.
Proof. exact (joins_pack 4 4 ltac:(lia) eq_refl). Qed.
Lemma joins_i64x2 : joins 64 2 (λ _, True) from_i64x2.
Proof. exact (joins_pack 8 2 ltac:(lia) eq_refl). Qed.
Lemma joins_u64x2 : joins 64 2 (λ _, True) from_u64x2.
Proof. exact (joins_pack 8 2 ltac:(lia) eq_refl). Qed.

(** ** Running on scalar operands *)
Section runs.
Context `{Features}.

(** The frame's top operands [cells], all scalar, above [vs]. *)
Record scalars (ex : Execution) (vs : list Cell) (ss : list RefTag) (cells : list Cell) : Prop := {
  sc_wf : exec_wf ex;
  sc_values : ex_values ex = vs ++ cells;
  sc_shadow : ex_shadow ex = ss ++ (const TagNone <$> cells);
  sc_len : zlen vs = zlen ss;
  sc_floor : ∃ f, last (ex_frames ex) = Some f ∧ fr_operand_base f ≤ zlen vs;
}.
Definition leave (vs : list Cell) (ss : list RefTag) (cells : list Cell) (ex : Execution) : Execution :=
  set_ex_shadow (ss ++ (const TagNone <$> cells)) (set_ex_values (vs ++ cells) ex).
Lemma scalars_id ex vs ss cells : scalars ex vs ss cells → leave vs ss cells ex = ex.
Proof. intros [_ Hv Hs _ _]. unfold leave. rewrite <- Hv, <- Hs. by destruct ex. Qed.
Lemma scalars_leave ex vs ss cells cells' : scalars ex vs ss cells → Forall cell_ok cells' →
  scalars (leave vs ss cells' ex) vs ss cells'.
Proof.
  intros [[Hc Hf] Hv Hs Hl Hfl] Hok. rewrite Hv in Hc. apply Forall_app in Hc as [Hc _].
  split; [split|done..]; cbn; [by apply Forall_app|done].
Qed.
Lemma pop_scalar_run ex vs ss cells c : scalars ex vs ss (cells ++ [c]) → pop_scalar ex = (Ok c, leave vs ss cells ex).
Proof.
  intros [Hwf Hv Hs Hl (fr & Hfr & Hfl)].
  assert (zlen (ex_values ex) = zlen vs + zlen cells + 1) as Hlv by (rewrite Hv; zlen_solve).
  assert (zlen ss + zlen (const TagNone <$> cells) = zlen vs + zlen cells) as Hls by (unfold zlen; rewrite length_fmap; unfold zlen in Hl; lia).
  rewrite fmap_app in Hs. cbn in Hs. rewrite app_assoc in Hs, Hv.
  assert (ensure_scalar_operands 1 ex = Ok (zlen vs + zlen cells)) as He.
  { unfold ensure_scalar_operands. destruct (ensure_operands_spec 1 ex Hwf) as [(_ & _ & ->)|[Hn _]]; [lia| |].
    - rewrite Hlv. replace (zlen vs + zlen cells + 1 - 1) with (zlen vs + zlen cells) by lia. cbn [mbind result_bind].
      rewrite Hs, zdrop_app by (rewrite zlen_app; lia). done.
    - pose proof (zlen_nonneg cells). destruct Hn. split; [unfold lockstep; rewrite Hv, Hs, !zlen_app, zlen_cons, zlen_nil; zlen_solve|]. exists fr. split; [done|lia]. }
  unfold pop_scalar. rewrite (reads_Ok _ _ _ _ He). rewrite (reads_Ok _ _ _ c).
  2: { unfold value_at. rewrite Hv, zget_app_r by (rewrite zlen_app; lia). by rewrite zlen_app, Z.sub_diag. }
  rewrite modify_run. unfold stack_truncate, leave. cbn [mret M_ret]. f_equal. f_equal; [|f_equal].
  - cbn. rewrite Hs, ztake_app by (rewrite zlen_app; lia). done.
  - rewrite Hv, ztake_app by (rewrite zlen_app; lia). done.
Qed.

(** What a run on exactly [args] leaves in their place. *)
Definition yields (m : SM Execution ()) (args : list Cell) (c : Cell) : Prop :=
  ∀ ex vs ss, scalars ex vs ss args → m ex = (Ok tt, leave vs ss [c] ex).
Lemma scalars_cells ex vs ss cells : scalars ex vs ss cells → Forall cell_ok cells.
Proof. intros [[Hc _] Hv _ _ _]. rewrite Hv in Hc. by apply Forall_app in Hc as [_ Hc]. Qed.
Lemma yields_pop {A} (g : Cell → A) (f : A → SM Execution ()) args c r :
  yields (f (g c)) args r → yields ((c ← pop_scalar; mret (g c)) ≫= f) (args ++ [c]) r.
Proof.
  intros Hf ex vs ss Hs. pose proof (scalars_cells _ _ _ _ Hs) as [Hok _]%Forall_app.
  rewrite bind_unfold, (bind_run _ _ _ _ _ (pop_scalar_run _ _ _ _ _ Hs)). cbn [mret M_ret].
  rewrite (Hf _ vs ss (scalars_leave _ _ _ _ args Hs Hok)). done.
Qed.
Lemma yields_lift {A} (x : res A) a (f : A → SM Execution ()) args r : x = Ok a → yields (f a) args r → yields (lift x ≫= f) args r.
Proof. intros -> Hf ex vs ss Hs. by apply Hf. Qed.
Lemma yields_push v c : encode v = Ok c → of_val v = TagNone → yields (push v) [] c.
Proof.
  intros He Ht ex vs ss [_ Hv Hs _ _]. unfold push. rewrite modify_run, Ht, He. unfold lift. rewrite bind_unfold. cbn [modify].
  unfold modify, leave, values_push, shadow_push. cbn. by rewrite Hv, Hs, !app_nil_r.
Qed.
Lemma encode_i32 v : encode (VI32 v) = Ok (of_bytes (to_le_bytes 4 v)).
Proof. unfold encode, of_bytes, cell_zero, SLOT_BYTES. cbn [slot_for_val mbind result_bind]. by destruct feat_simd. Qed.
Lemma encode_i64 v : encode (VI64 v) = Ok (of_bytes (to_le_bytes 8 v)).
Proof. unfold encode, of_bytes, cell_zero, SLOT_BYTES. cbn [slot_for_val mbind result_bind]. by destruct feat_simd. Qed.
Lemma encode_f32 v : encode (VF32 v) = Ok (of_bytes (to_le_bytes 4 v)).
Proof. unfold encode, of_bytes, cell_zero, SLOT_BYTES. cbn [slot_for_val mbind result_bind]. by destruct feat_simd. Qed.
Lemma encode_f64 v : encode (VF64 v) = Ok (of_bytes (to_le_bytes 8 v)).
Proof. unfold encode, of_bytes, cell_zero, SLOT_BYTES. cbn [slot_for_val mbind result_bind]. by destruct feat_simd. Qed.
Lemma encode_v128 v : feat_simd = true → encode (VV128 v) = Ok (of_bytes (to_le_bytes 16 v)).
Proof. intros Hs. unfold encode, of_bytes, cell_zero, SLOT_BYTES, slot_for_val. by rewrite Hs. Qed.
End runs.

(** ** The specification *)

(** [vr_arity] operands, bottom first, each given by the 128 bits of its cell (a scalar by
    its low bits); the result has [vr_bytes] bytes, and [vr_lane] gives its lanes of
    [vr_width] bits. *)
Record VecRef : Type := { vr_arity : nat; vr_bytes : nat; vr_width : Z; vr_lane : list Z → Z → Z }.
Definition arg (k : nat) (args : list Z) : Z := nth k args 0.
Definition to_vec (arity : nat) (w : Z) (f : list Z → Z → Z) : VecRef :=
  {| vr_arity := arity; vr_bytes := 16; vr_width := w; vr_lane := f |}.
Definition to_scalar (arity bytes : nat) (f : list Z → Z) : VecRef :=
  {| vr_arity := arity; vr_bytes := bytes; vr_width := 8 * Z.of_nat bytes; vr_lane := λ args _, f args |}.
(** Lane by lane. *)
Definition ref_un (w : Z) (f : Z → Z) : VecRef := to_vec 1 w (λ args i, f (lane w i (arg 0 args))).
Definition ref_bin (w : Z) (f : Z → Z → Z) : VecRef :=
  to_vec 2 w (λ args i, f (lane w i (arg 0 args)) (lane w i (arg 1 args))).
Definition ref_tern (w : Z) (f : Z → Z → Z → Z) : VecRef :=
  to_vec 3 w (λ args i, f (lane w i (arg 0 args)) (lane w i (arg 1 args)) (lane w i (arg 2 args))).
Definition ones (w : Z) : Z := 2 ^ w - 1.
Definition ref_rel (w : Z) (f : Z → Z → bool) : VecRef := ref_bin w (λ x y, if f x y then ones w else 0).
(** The shift count is taken modulo the lane width. *)
Definition ref_shift (w : Z) (f : Z → Z → Z) : VecRef :=
  to_vec 2 w (λ args i, f (lane w i (arg 0 args)) (lane 32 0 (arg 1 args) mod w)).
(** The low or the high half of the lanes, widened. *)
Definition half (wo : Z) (high : bool) (i : Z) : Z := if high then 128 / wo + i else i.
Definition ref_extend (w : Z) (high : bool) (f : Z → Z) : VecRef :=
  to_vec 1 (2 * w) (λ args i, f (lane w (half (2 * w) high i) (arg 0 args))).
Definition ref_extmul (w : Z) (high : bool) (f : Z → Z → Z) : VecRef :=
  to_vec 2 (2 * w) (λ args i, f (lane w (half (2 * w) high i) (arg 0 args)) (lane w (half (2 * w) high i) (arg 1 args))).
(** Adjacent lanes, combined into one of twice the width. *)
Definition ref_pairs (w : Z) (f : Z → Z → Z) : VecRef :=
  to_vec 1 (2 * w) (λ args i, f (lane w (2 * i) (arg 0 args)) (lane w (2 * i + 1) (arg 0 args))).
Definition ref_dot (w : Z) (f : Z → Z → Z → Z → Z) : VecRef :=
  to_vec 2 (2 * w) (λ args i, f (lane w (2 * i) (arg 0 args)) (lane w (2 * i) (arg 1 args))
                               (lane w (2 * i + 1) (arg 0 args)) (lane w (2 * i + 1) (arg 1 args))).
(** The lanes of both operands, in half the width. *)
Definition ref_narrow (w : Z) (f : Z → Z) : VecRef :=
  to_vec 2 (w / 2) (λ args i, if i <? 128 / w then f (lane w i (arg 0 args)) else f (lane w (i - 128 / w) (arg 1 args))).

Section meets.
Context `{Features} (Hsimd : feat_simd = true).

Definition vector_cell (c : Cell) : Prop := bytes_ok c ∧ zlen c = 16.
Definition meets (m : SM Execution ()) (r : VecRef) : Prop := ∀ args, length args = vr_arity r → Forall vector_cell args →
  ∃ x, u_ok (8 * Z.of_nat (vr_bytes r)) x ∧ yields m args (of_bytes (to_le_bytes (vr_bytes r) x)) ∧
    ∀ i, 0 ≤ i < 8 * Z.of_nat (vr_bytes r) / vr_width r → lane (vr_width r) i x = vr_lane r (cell_v128 <$> args) i.

Lemma cell_v128_ok c : vector_cell c → u_ok 128 (cell_v128 c).
Proof.
  intros [Hb Hl]. unfold cell_v128, lo. assert (ztake 16 c = c) as ->.
  { unfold ztake. apply take_ge. unfold zlen in Hl. lia. }
  pose proof (from_le_bound c Hb) as Hr. by rewrite Hl in Hr.
Qed.
(** The low bytes of a cell are the low bits of the number. *)
Lemma low_bytes k c : vector_cell c → Z.of_nat k ≤ 16 → from_le_bytes (lo (Z.of_nat k) c) = cell_v128 c mod 2 ^ (8 * Z.of_nat k).
Proof.
  intros Hc Hk. pose proof Hc as [Hb Hl]. unfold cell_v128, lo. unfold ztake. rewrite Nat2Z.id.
  rewrite (take_ge c (Z.to_nat 16)) by (unfold zlen in Hl; lia).
  assert (length c = 16%nat) as Hlen by (unfold zlen in Hl; lia). rewrite <- (to_from_le c 16 Hb) at 1 by done.
  rewrite le_take by lia. apply from_to_le.
Qed.
Lemma yields_v128 f args c r : yields (f (cell_v128 c)) args r → yields (pop_v128 ≫= f) (args ++ [c]) r.
Proof. apply (yields_pop cell_v128). Qed.
Lemma yields_push_v128 x : yields (push_v128 x) [] (of_bytes (to_le_bytes 16 x)).
Proof. apply yields_push; [by apply encode_v128|done]. Qed.
Lemma joined w n P join l g : joins w n P join → zlen l = n →
  (∀ i, 0 ≤ i < n → ∃ y, zget l i = Some y ∧ P y ∧ wrap w y = g i) →
  u_ok 128 (join l) ∧ ∀ i, 0 ≤ i < n → lane w i (join l) = g i.
Proof.
  intros Hj Hl Hg. destruct (Hj l Hl) as [Hr Hi].
  { apply Forall_forall. intros y [i Hi]%elem_zget. pose proof (zget_Some _ _ _ Hi).
    destruct (Hg i ltac:(lia)) as (y' & Hy & HP & _). congruence. }
  split; [done|]. intros i Hb. destruct (Hg i Hb) as (y & Hy & _ & <-). by apply Hi.
Qed.
(** A result joined from an array of lanes. *)
Lemma meets_join m arity w n P join f (l : list Z → list Z) : joins w n P join → 0 < w → w * n = 128 →
  (∀ args, length args = arity → Forall (u_ok 128) args → zlen (l args) = n ∧
    ∀ i, 0 ≤ i < n → ∃ y, zget (l args) i = Some y ∧ P y ∧ wrap w y = f args i) →
  (∀ args, length args = arity → Forall vector_cell args → yields m args (of_bytes (to_le_bytes 16 (join (l (cell_v128 <$> args)))))) →
  meets m (to_vec arity w f).
Proof.
  intros Hj Hw Hn Hl Hm args Ha Hc. cbn [to_vec vr_arity vr_bytes vr_width vr_lane] in *.
  destruct (Hl (cell_v128 <$> args)) as [Hlen Hg]; [by rewrite length_fmap| |].
  { apply Forall_fmap. eapply Forall_impl; [exact Hc|]. apply cell_v128_ok. }
  destruct (joined w n P join _ _ Hj Hlen Hg) as [Hr Hi]. eexists. split; [exact Hr|]. split; [by apply Hm|].
  intros i Hb. apply Hi. change (8 * Z.of_nat 16) with 128 in Hb. rewrite <- Hn, Z.mul_comm, Z.div_mul in Hb by lia. done.
Qed.
Lemma at_split w n c split v i : splits w n c split → 0 ≤ i < n → at_ (split v) i = c (lane w i v).
Proof. intros Hs Hi. destruct (Hs v) as [_ Hg]. unfold at_. by rewrite Hg. Qed.

Lemma args_one (args : list Cell) : length args = 1%nat → ∃ a, args = [a].
Proof. destruct args as [|a [|]]; [done| |done]. by exists a. Qed.
Lemma args_two (args : list Cell) : length args = 2%nat → ∃ a b, args = [a; b].
Proof. destruct args as [|a [|b [|]]]; [done..| |done]. by exists a, b. Qed.
Lemma args_three (args : list Cell) : length args = 3%nat → ∃ a b c, args = [a; b; c].
Proof. destruct args as [|a [|b [|c [|]]]]; [done..| |done]. by exists a, b, c. Qed.
Lemma yields_one f a r : yields (f (cell_v128 a)) [] r → yields (pop_v128 ≫= f) [a] r.
Proof. apply (yields_v128 f []). Qed.
Lemma yields_two f a b r : yields (f (cell_v128 b)) [a] r → yields (pop_v128 ≫= f) [a; b] r.
Proof. apply (yields_v128 f [a]). Qed.
Lemma yields_three f a b c r : yields (f (cell_v128 c)) [a; b] r → yields (pop_v128 ≫= f) [a; b; c] r.
Proof. apply (yields_v128 f [a; b]). Qed.

Lemma zlen_zip_with {A B C} (f : A → B → C) l k : zlen l = zlen k → zlen (zip_with f l k) = zlen l.
Proof. unfold zlen. intros. rewrite length_zip_with. lia. Qed.
Lemma zget_zip_with {A B C} (f : A → B → C) l k i x y : zget l i = Some x → zget k i = Some y → zget (zip_with f l k) i = Some (f x y).
Proof. unfold zget. destruct (0 <=? i); [|done]. intros Hx Hy. by rewrite lookup_zip_with, Hx, Hy. Qed.

Section lanewise.
Context (w n : Z) (c : Z → Z) (split : Z → list Z) (P : Z → Prop) (join : list Z → Z).
Context (Hs : splits w n c split) (Hj : joins w n P join) (Hw : 0 < w) (Hn : w * n = 128).

Lemma meets_binop f g : (∀ x y, u_ok w x → u_ok w y → P (f (c x) (c y)) ∧ wrap w (f (c x) (c y)) = g x y) →
  meets (v_binop split join f) (ref_bin w g).
Proof using Hs Hj Hw Hn Hsimd.
  intros Hf. eapply (meets_join _ 2 w n P join _ (λ args, zip_with f (split (arg 0 args)) (split (arg 1 args)))); [done..| |].
  - intros args _ _. destruct (Hs (arg 0 args)) as [Hl0 H0], (Hs (arg 1 args)) as [Hl1 H1]. split; [rewrite zlen_zip_with; lia|].
    intros i Hi. eexists. split; [by apply zget_zip_with; [apply H0|apply H1]|]. apply Hf; by apply lane_ok; lia.
  - intros args (a & b & ->)%args_two _. by apply yields_two, yields_one, yields_push_v128.
Qed.
Lemma meets_unop f g : (∀ x, u_ok w x → P (f (c x)) ∧ wrap w (f (c x)) = g x) → meets (v_unop split join f) (ref_un w g).
Proof using Hs Hj Hw Hn Hsimd.
  intros Hf. eapply (meets_join _ 1 w n P join _ (λ args, f <$> split (arg 0 args))); [done..| |].
  - intros args _ _. destruct (Hs (arg 0 args)) as [Hl0 H0]. split; [by unfold zlen in *; rewrite length_fmap|].
    intros i Hi. eexists. split; [by rewrite zget_fmap, H0|]. apply Hf; by apply lane_ok; lia.
  - intros args (a & ->)%args_one _. by apply yields_one, yields_push_v128.
Qed.
Lemma meets_shift f g : (∀ x k, u_ok w x → u_ok 32 k → P (f (c x) (k mod w)) ∧ wrap w (f (c x) (k mod w)) = g x (k mod w)) →
  meets (v_shift n split join f) (ref_shift w g).
Proof using Hs Hj Hw Hn Hsimd.
  intros Hf. eapply (meets_join _ 2 w n P join _ (λ args, (λ x, f x (lane 32 0 (arg 1 args) mod w)) <$> split (arg 0 args))); [done..| |].
  - intros args _ _. destruct (Hs (arg 0 args)) as [Hl0 H0]. split; [by unfold zlen in *; rewrite length_fmap|].
    intros i Hi. eexists. split; [by rewrite zget_fmap, H0|]. apply Hf; by apply lane_ok; lia.
  - intros args (a & b & ->)%args_two [_ [Hb _]%Forall_cons]%Forall_cons. unfold v_shift. apply (yields_pop cell_i32 _ [a] b). cbv zeta.
    apply yields_one. assert (128 / n = w) as -> by (rewrite <- Hn, Z.div_mul; nia).
    assert (wrap 32 (cell_i32 b) = lane 32 0 (cell_v128 b)) as ->; [|apply yields_push_v128].
    unfold cell_i32. pose proof (low_bytes 4 b Hb ltac:(lia)) as Hlow. rewrite wrap_sgn by done. change 4 with (Z.of_nat 4). rewrite Hlow. unfold lane. rewrite Z.mul_0_r, Z.pow_0_r, Z.div_1_r.
    apply wrap_id. by apply wrap_ok.
Qed.

(** Lanes from other positions: [pos i] says where the operand of lane [i] is. *)
Lemma at_lane v i : 0 ≤ i < n → at_ (split v) i = c (lane w i v).
Proof using Hs. by apply at_split. Qed.
End lanewise.

Section resized.
Context (w n wo no : Z) (c : Z → Z) (split : Z → list Z) (P : Z → Prop) (join : list Z → Z).
Context (Hs : splits w n c split) (Hj : joins wo no P join) (Hw : 0 < w) (Hwo : 0 < wo) (Hn : w * n = 128) (Hno : wo * no = 128).

Lemma no_pos : 0 < no.
Proof using Hwo Hno. nia. Qed.
Lemma half_eq high i : (if high : bool then no else 0) + i = half wo high i.
Proof using Hwo Hno. unfold half. rewrite <- Hno, Z.mul_comm, Z.div_mul by lia. by destruct high. Qed.
Lemma half_in high i : wo = 2 * w → 0 ≤ i < no → 0 ≤ half wo high i < n.
Proof using Hwo Hno Hn Hw. intros He Hi. rewrite <- half_eq. assert (n = 2 * no) by nia. destruct high; lia. Qed.

Lemma meets_extend high f g : wo = 2 * w → (∀ x, u_ok w x → P (f (c x)) ∧ wrap wo (f (c x)) = g x) →
  meets (v_extend no split join high f) (ref_extend w high g).
Proof using Hs Hj Hw Hwo Hn Hno Hsimd.
  intros He Hf. unfold ref_extend. rewrite <- He.
  eapply (meets_join _ 1 wo no P join _ (λ args, from_fn no (λ i, f (at_ (split (arg 0 args)) ((if high then no else 0) + i))))); [done..| |].
  - intros args _ _. pose proof no_pos. split; [apply zlen_from_fn; lia|]. intros i Hi. eexists. split; [by apply zget_from_fn|].
    rewrite half_eq, (at_split w n c) by (done || by apply half_in). apply Hf. apply lane_ok. lia.
  - intros args (a & ->)%args_one _. by apply yields_one, yields_push_v128.
Qed.
Lemma meets_extmul high f g : wo = 2 * w → (∀ x y, u_ok w x → u_ok w y → P (f (c x) (c y)) ∧ wrap wo (f (c x) (c y)) = g x y) →
  meets (v_extmul no split join high f) (ref_extmul w high g).
Proof using Hs Hj Hw Hwo Hn Hno Hsimd.
  intros He Hf. unfold ref_extmul. rewrite <- He.
  eapply (meets_join _ 2 wo no P join _ (λ args, from_fn no (λ i, f (at_ (split (arg 0 args)) ((if high then no else 0) + i))
    (at_ (split (arg 1 args)) ((if high then no else 0) + i))))); [done..| |].
  - intros args _ _. pose proof no_pos. split; [apply zlen_from_fn; lia|]. intros i Hi. eexists. split; [by apply zget_from_fn|].
    rewrite half_eq, !(at_split w n c) by (done || by apply half_in). apply Hf; apply lane_ok; lia.
  - intros args (a & b & ->)%args_two _. by apply yields_two, yields_one, yields_push_v128.
Qed.
Lemma meets_extadd f g : wo = 2 * w → (∀ x y, u_ok w x → u_ok w y → P (f (c x) (c y)) ∧ wrap wo (f (c x) (c y)) = g x y) →
  meets (v_extadd no split join f) (ref_pairs w g).
Proof using Hs Hj Hw Hwo Hn Hno Hsimd.
  intros He Hf. unfold ref_pairs. rewrite <- He. assert (n = 2 * no) by nia.
  eapply (meets_join _ 1 wo no P join _ (λ args, from_fn no (λ i, f (at_ (split (arg 0 args)) (2 * i)) (at_ (split (arg 0 args)) (2 * i + 1)))));
    [done..| |].
  - intros args _ _. pose proof no_pos. split; [apply zlen_from_fn; lia|]. intros i Hi. eexists. split; [by apply zget_from_fn|].
    rewrite !(at_split w n c) by (done || lia). apply Hf; apply lane_ok; lia.
  - intros args (a & ->)%args_one _. by apply yields_one, yields_push_v128.
Qed.
Lemma meets_narrow f g : w = 2 * wo → (∀ x, u_ok w x → P (f (c x)) ∧ wrap wo (f (c x)) = g x) →
  meets (v_narrow n split join f) (ref_narrow w g).
Proof using Hs Hj Hw Hwo Hn Hno Hsimd.
  intros He Hf. unfold ref_narrow. assert (w / 2 = wo) as -> by (rewrite He, Z.mul_comm, Z.div_mul; lia).
  assert (128 / w = n) as -> by (rewrite <- Hn, Z.mul_comm, Z.div_mul; lia). assert (no = 2 * n) as Hno2 by nia.
  eapply (meets_join _ 2 wo no P join _ (λ args, from_fn (2 * n) (λ i, if i <? n then f (at_ (split (arg 0 args)) i)
    else f (at_ (split (arg 1 args)) (i - n))))); [done..| |].
  - intros args _ _. pose proof no_pos. split; [rewrite zlen_from_fn; lia|]. intros i Hi. eexists. split; [apply zget_from_fn; lia|].
    destruct (Z.ltb_spec i n); rewrite (at_split w n c) by (done || lia); apply Hf; apply lane_ok; lia.
  - intros args (a & b & ->)%args_two _. by apply yields_two, yields_one, yields_push_v128.
Qed.
End resized.

(** Comparison masks. *)
Lemma to_le_ones k : to_le_bytes k (ones (8 * Z.of_nat k)) = replicate k 255.
Proof.
  unfold ones. induction k as [|k IH]; [done|]. cbn [to_le_bytes replicate].
  assert (2 ^ (8 * Z.of_nat (S k)) = 256 * 2 ^ (8 * Z.of_nat k)) as ->.
  { replace (8 * Z.of_nat (S k)) with (8 + 8 * Z.of_nat k) by lia. by rewrite Z.pow_add_r by lia. }
  replace (256 * 2 ^ (8 * Z.of_nat k) - 1) with (255 + (2 ^ (8 * Z.of_nat k) - 1) * 256) by lia.
  rewrite Z.mod_add, Z.div_add by lia. change (255 / 256) with 0. by rewrite Z.add_0_l, IH.
Qed.
Lemma to_le_zero k : to_le_bytes k 0 = replicate k 0.
Proof. induction k as [|k IH]; [done|]. cbn [to_le_bytes replicate]. change (0 / 256) with 0. by rewrite IH. Qed.
Lemma cmp_mask_pack k n (bs : list bool) : (0 < k)%nat → Z.of_nat k * n = 16 → zlen bs = n →
  cmp_mask bs = pack (to_le_bytes k <$> ((λ m : bool, if m then ones (8 * Z.of_nat k) else 0) <$> bs)).
Proof.
  intros Hk Hn Hl. unfold cmp_mask, pack. rewrite Hl. assert (16 / n = Z.of_nat k) as -> by (rewrite <- Hn, Z.div_mul; nia).
  rewrite Nat2Z.id, <- list_fmap_compose. do 2 f_equal. apply list_fmap_ext. intros _ [] _; cbn; by rewrite ?to_le_ones, ?to_le_zero.
Qed.
Lemma meets_cmp k n c split f g : splits (8 * Z.of_nat k) n c split → (0 < k)%nat → Z.of_nat k * n = 16 →
  (∀ x y, u_ok (8 * Z.of_nat k) x → u_ok (8 * Z.of_nat k) y → f (c x) (c y) = g x y) →
  meets (v_cmp n split f) (ref_rel (8 * Z.of_nat k) g).
Proof using Hsimd.
  intros Hs Hk Hn Hf. set (mask := λ a b, from_fn n (λ i, f (at_ (split a) i) (at_ (split b) i))).
  eapply (meets_join _ 2 (8 * Z.of_nat k) n _ _ _ (λ args, (λ m : bool, if m then ones (8 * Z.of_nat k) else 0) <$> mask (arg 0 args) (arg 1 args)));
    [by apply joins_pack|lia|lia| |].
  - intros args _ _. assert (0 ≤ n) by nia. split; [unfold zlen; rewrite length_fmap; by apply zlen_from_fn|].
    intros i Hi. unfold mask. rewrite zget_fmap, zget_from_fn by done. eexists. split; [done|]. split; [done|].
    rewrite !(at_split _ n c) by done. rewrite Hf by (apply lane_ok; lia).
    apply wrap_id. unfold ones, u_ok. pose proof (Z.pow_pos_nonneg 2 (8 * Z.of_nat k)). destruct (g _ _); lia.
  - intros args (a & b & ->)%args_two _. cbn [fmap list_fmap arg nth].
    rewrite <- (cmp_mask_pack k n) by (done || apply zlen_from_fn; nia). by apply yields_two, yields_one, yields_push_v128.
Qed.
End meets.
