(* ===== verification/VectorSpec.v ===== *)
(** * VectorSpec: what every vector instruction computes (about Simd.v)

    [simd_ref] gives the result of each instruction that does not access memory, lane by
    lane, on unsigned lanes; the bitwise instructions are given on lanes of one bit.  A
    floating-point lane is the pattern of the scalar operation.  Then the lemmas: the code's
    operation on one lane is the reference's, and the instructions that are not lane by
    lane meet theirs.  VectorSound.v puts them together. *)
From Stdlib Require Import Floats.SpecFloat.
From S2P Require Import Prelude Types Layout Codec Op Entity Store Stack Float Numeric Memory Simd Vector.
Open Scope Z_scope.

(** ** Operations on one lane *)
Definition signed (w : Z) (f : Z → Z → bool) (x y : Z) : bool := f (sgn w x) (sgn w y).
Definition ref_add (w x y : Z) : Z := wrap w (x + y).
Definition ref_sub (w x y : Z) : Z := wrap w (x - y).
Definition ref_mul (w x y : Z) : Z := wrap w (x * y).
Definition ref_neg (w x : Z) : Z := wrap w (- x).
Definition ref_abs (w x : Z) : Z := if sgn w x <? 0 then wrap w (- x) else x.
Definition pick (b : bool) (x y : Z) : Z := if b then x else y.
Definition ref_min_s (w x y : Z) : Z := pick (sgn w x <? sgn w y) x y.
Definition ref_max_s (w x y : Z) : Z := pick (sgn w y <? sgn w x) x y.
Definition ref_min_u (x y : Z) : Z := pick (x <? y) x y.
Definition ref_max_u (x y : Z) : Z := pick (y <? x) x y.
Definition ref_avgr (x y : Z) : Z := (x + y + 1) / 2.
Definition ref_popcnt (w x : Z) : Z := zsum (λ i, b2i (Z.testbit x (Z.of_nat i))) (seq 0 (Z.to_nat w)).
Definition sat (lo hi x : Z) : Z := if x <? lo then lo else if hi <? x then hi else x.
Definition sat_s (w x : Z) : Z := wrap w (sat (- 2 ^ (w - 1)) (2 ^ (w - 1) - 1) x).
Definition sat_u (w x : Z) : Z := sat 0 (2 ^ w - 1) x.
Definition ref_add_sat_s (w x y : Z) : Z := sat_s w (sgn w x + sgn w y).
Definition ref_add_sat_u (w x y : Z) : Z := sat_u w (x + y).
Definition ref_sub_sat_s (w x y : Z) : Z := sat_s w (sgn w x - sgn w y).
Definition ref_sub_sat_u (w x y : Z) : Z := sat_u w (x - y).
Definition ref_q15 (x y : Z) : Z := sat_s 16 ((sgn 16 x * sgn 16 y + 2 ^ 14) / 2 ^ 15).
Definition ref_shl (w x k : Z) : Z := wrap w (x * 2 ^ k).
Definition ref_shr_s (w x k : Z) : Z := wrap w (sgn w x / 2 ^ k).
Definition ref_shr_u (x k : Z) : Z := x / 2 ^ k.
Definition ref_extend_s (w x : Z) : Z := wrap (2 * w) (sgn w x).
Definition ref_mul_s (w x y : Z) : Z := wrap (2 * w) (sgn w x * sgn w y).
Definition ref_add_s (w x y : Z) : Z := wrap (2 * w) (sgn w x + sgn w y).
Definition ref_dot_s (w x y x' y' : Z) : Z := wrap (2 * w) (sgn w x * sgn w y + sgn w x' * sgn w y').

(** ** Other shapes *)

(** On one-bit lanes. *)
Definition bit_and (x y : Z) : Z := x * y.
Definition bit_or (x y : Z) : Z := x + y - x * y.
Definition bit_xor (x y : Z) : Z := x + y - 2 * (x * y).
Definition bit_not (x : Z) : Z := 1 - x.
Definition bit_select (x y c : Z) : Z := if c =? 1 then x else y.
Definition ref_splat (w : Z) : VecRef := to_vec 1 w (λ args _, lane w 0 (arg 0 args)).
Definition ref_extract (bytes : nat) (w l : Z) (f : Z → Z) : option VecRef :=
  if (0 <=? l) && (l <? 128 / w) then Some (to_scalar 1 bytes (λ args, wrap (8 * Z.of_nat bytes) (f (lane w l (arg 0 args))))) else None.
Definition ref_replace (w l : Z) : option VecRef :=
  if (0 <=? l) && (l <? 128 / w) then
    Some (to_vec 2 w (λ args i, if i =? l then lane w 0 (arg 1 args) else lane w i (arg 0 args)))
  else None.
Definition ref_any_true : VecRef := to_scalar 1 4 (λ args, if arg 0 args =? 0 then 0 else 1).
Definition ref_all_true (w : Z) : VecRef :=
  to_scalar 1 4 (λ args, b2i (forallb (λ i, negb (lane w i (arg 0 args) =? 0)) (seqZ 0 (128 / w)))).
(** The sign bits of the lanes. *)
Definition ref_bitmask (w : Z) : VecRef :=
  to_scalar 1 4 (λ args, zsum (λ i, lane w i (arg 0 args) / 2 ^ (w - 1) * 2 ^ i) (seqZ 0 (128 / w))).
Definition pick_lane (args : list Z) (j : Z) : Z := if j <? 16 then lane 8 j (arg 0 args) else lane 8 (j - 16) (arg 1 args).
Definition ref_shuffle (idx : list Z) : option VecRef :=
  if (zlen idx =? 16) && forallb (λ j, (0 <=? j) && (j <? 32)) idx then Some (to_vec 2 8 (λ args i, pick_lane args (at_ idx i)))
  else None.
Definition ref_swizzle : VecRef :=
  to_vec 2 8 (λ args i, let j := lane 8 i (arg 1 args) in if j <? 16 then lane 8 j (arg 0 args) else 0).
(** The low two lanes; the rest of a shorter result is zero. *)
Definition ref_low_zero (w wo : Z) (f : Z → Z) : VecRef :=
  to_vec 1 wo (λ args i, if i <? 2 then wrap wo (f (lane w i (arg 0 args))) else 0).
(** [i16x8.relaxed_dot_i8x16_i7x16_s] on lane [i]. *)
Definition rdot (args : list Z) (i : Z) : Z :=
  ref_dot_s 8 (lane 8 (2 * i) (arg 0 args)) (lane 8 (2 * i) (arg 1 args)) (lane 8 (2 * i + 1) (arg 0 args)) (lane 8 (2 * i + 1) (arg 1 args)).
Definition ref_rdot_add : VecRef :=
  to_vec 3 32 (λ args j, wrap 32 (sgn 16 (rdot args (2 * j)) + sgn 16 (rdot args (2 * j + 1)) + lane 32 j (arg 2 args))).

(** ** The instructions *)
Section table.
Context `{Features, FloatHost}.
Definition fbin (f : Fmt) (op : Fmt → Z → Z → Z) (x y : Z) : Z := wrap (f_bits f) (canon f (op f x y) (is_nan f x || is_nan f y)).
Definition fun1 (f : Fmt) (op : Fmt → Z → Z) (x : Z) : Z := wrap (f_bits f) (canon f (op f x) (is_nan f x)).
Definition ffma (f : Fmt) (negate : bool) (x y z : Z) : Z :=
  wrap (f_bits f) (canon f (f_mul_add f (if negate then f_neg f x else x) y z) (is_nan f x || is_nan f y || is_nan f z)).

Definition simd_ref (s : SimdOp) : option VecRef :=
  match s with
  | SI8x16Add => Some (ref_bin 8 (ref_add 8))
  | SI8x16Sub => Some (ref_bin 8 (ref_sub 8))
  | SI8x16Neg => Some (ref_un 8 (ref_neg 8))
  | SI8x16Abs => Some (ref_un 8 (ref_abs 8))
  | SI8x16MinS => Some (ref_bin 8 (ref_min_s 8))
  | SI8x16MinU => Some (ref_bin 8 ref_min_u)
  | SI8x16MaxS => Some (ref_bin 8 (ref_max_s 8))
  | SI8x16MaxU => Some (ref_bin 8 ref_max_u)
  | SI8x16AvgrU => Some (ref_bin 8 ref_avgr)
  | SI8x16AddSatS => Some (ref_bin 8 (ref_add_sat_s 8))
  | SI8x16AddSatU => Some (ref_bin 8 (ref_add_sat_u 8))
  | SI8x16SubSatS => Some (ref_bin 8 (ref_sub_sat_s 8))
  | SI8x16SubSatU => Some (ref_bin 8 (ref_sub_sat_u 8))
  | SI8x16Popcnt => Some (ref_un 8 (ref_popcnt 8))
  | SI8x16Shl => Some (ref_shift 8 (ref_shl 8))
  | SI8x16ShrS => Some (ref_shift 8 (ref_shr_s 8))
  | SI8x16ShrU => Some (ref_shift 8 ref_shr_u)
  | SI8x16AllTrue => Some (ref_all_true 8)
  | SI8x16Bitmask => Some (ref_bitmask 8)
  | SI8x16Eq => Some (ref_rel 8 Z.eqb)
  | SI8x16Ne => Some (ref_rel 8 (λ x y, negb (x =? y)))
  | SI8x16LtS => Some (ref_rel 8 (signed 8 Z.ltb))
  | SI8x16LtU => Some (ref_rel 8 Z.ltb)
  | SI8x16GtS => Some (ref_rel 8 (signed 8 Z.gtb))
  | SI8x16GtU => Some (ref_rel 8 Z.gtb)
  | SI8x16LeS => Some (ref_rel 8 (signed 8 Z.leb))
  | SI8x16LeU => Some (ref_rel 8 Z.leb)
  | SI8x16GeS => Some (ref_rel 8 (signed 8 Z.geb))
  | SI8x16GeU => Some (ref_rel 8 Z.geb)
  | SI16x8Add => Some (ref_bin 16 (ref_add 16))
  | SI16x8Sub => Some (ref_bin 16 (ref_sub 16))
  | SI16x8Mul => Some (ref_bin 16 (ref_mul 16))
  | SI16x8Neg => Some (ref_un 16 (ref_neg 16))
  | SI16x8Abs => Some (ref_un 16 (ref_abs 16))
  | SI16x8MinS => Some (ref_bin 16 (ref_min_s 16))
  | SI16x8MinU => Some (ref_bin 16 ref_min_u)
  | SI16x8MaxS => Some (ref_bin 16 (ref_max_s 16))
  | SI16x8MaxU => Some (ref_bin 16 ref_max_u)
  | SI16x8AvgrU => Some (ref_bin 16 ref_avgr)
  | SI16x8AddSatS => Some (ref_bin 16 (ref_add_sat_s 16))
  | SI16x8AddSatU => Some (ref_bin 16 (ref_add_sat_u 16))
  | SI16x8SubSatS => Some (ref_bin 16 (ref_sub_sat_s 16))
  | SI16x8SubSatU => Some (ref_bin 16 (ref_sub_sat_u 16))
  | SI16x8Shl => Some (ref_shift 16 (ref_shl 16))
  | SI16x8ShrS => Some (ref_shift 16 (ref_shr_s 16))
  | SI16x8ShrU => Some (ref_shift 16 ref_shr_u)
  | SI16x8AllTrue => Some (ref_all_true 16)
  | SI16x8Bitmask => Some (ref_bitmask 16)
  | SI16x8Eq => Some (ref_rel 16 Z.eqb)
  | SI16x8Ne => Some (ref_rel 16 (λ x y, negb (x =? y)))
  | SI16x8LtS => Some (ref_rel 16 (signed 16 Z.ltb))
  | SI16x8LtU => Some (ref_rel 16 Z.ltb)
  | SI16x8GtS => Some (ref_rel 16 (signed 16 Z.gtb))
  | SI16x8GtU => Some (ref_rel 16 Z.gtb)
  | SI16x8LeS => Some (ref_rel 16 (signed 16 Z.leb))
  | SI16x8LeU => Some (ref_rel 16 Z.leb)
  | SI16x8GeS => Some (ref_rel 16 (signed 16 Z.geb))
  | SI16x8GeU => Some (ref_rel 16 Z.geb)
  | SI32x4Add => Some (ref_bin 32 (ref_add 32))
  | SI32x4Sub => Some (ref_bin 32 (ref_sub 32))
  | SI32x4Mul => Some (ref_bin 32 (ref_mul 32))
  | SI32x4Neg => Some (ref_un 32 (ref_neg 32))
  | SI32x4Abs => Some (ref_un 32 (ref_abs 32))
  | SI32x4MinS => Some (ref_bin 32 (ref_min_s 32))
  | SI32x4MinU => Some (ref_bin 32 ref_min_u)
  | SI32x4MaxS => Some (ref_bin 32 (ref_max_s 32))
  | SI32x4MaxU => Some (ref_bin 32 ref_max_u)
  | SI32x4Shl => Some (ref_shift 32 (ref_shl 32))
  | SI32x4ShrS => Some (ref_shift 32 (ref_shr_s 32))
  | SI32x4ShrU => Some (ref_shift 32 ref_shr_u)
  | SI32x4AllTrue => Some (ref_all_true 32)
  | SI32x4Bitmask => Some (ref_bitmask 32)
  | SI32x4Eq => Some (ref_rel 32 Z.eqb)
  | SI32x4Ne => Some (ref_rel 32 (λ x y, negb (x =? y)))
  | SI32x4LtS => Some (ref_rel 32 (signed 32 Z.ltb))
  | SI32x4LtU => Some (ref_rel 32 Z.ltb)
  | SI32x4GtS => Some (ref_rel 32 (signed 32 Z.gtb))
  | SI32x4GtU => Some (ref_rel 32 Z.gtb)
  | SI32x4LeS => Some (ref_rel 32 (signed 32 Z.leb))
  | SI32x4LeU => Some (ref_rel 32 Z.leb)
  | SI32x4GeS => Some (ref_rel 32 (signed 32 Z.geb))
  | SI32x4GeU => Some (ref_rel 32 Z.geb)
  | SI64x2Add => Some (ref_bin 64 (ref_add 64))
  | SI64x2Sub => Some (ref_bin 64 (ref_sub 64))
  | SI64x2Mul => Some (ref_bin 64 (ref_mul 64))
  | SI64x2Neg => Some (ref_un 64 (ref_neg 64))
  | SI64x2Abs => Some (ref_un 64 (ref_abs 64))
  | SI64x2Shl => Some (ref_shift 64 (ref_shl 64))
  | SI64x2ShrS => Some (ref_shift 64 (ref_shr_s 64))
  | SI64x2ShrU => Some (ref_shift 64 ref_shr_u)
  | SI64x2AllTrue => Some (ref_all_true 64)
  | SI64x2Bitmask => Some (ref_bitmask 64)
  | SI64x2Eq => Some (ref_rel 64 Z.eqb)
  | SI64x2Ne => Some (ref_rel 64 (λ x y, negb (x =? y)))
  | SI64x2LtS => Some (ref_rel 64 (signed 64 Z.ltb))
  | SI64x2GtS => Some (ref_rel 64 (signed 64 Z.gtb))
  | SI64x2LeS => Some (ref_rel 64 (signed 64 Z.leb))
  | SI64x2GeS => Some (ref_rel 64 (signed 64 Z.geb))
  | SI16x8ExtendLowI8x16S => Some (ref_extend 8 false (ref_extend_s 8))
  | SI16x8ExtendLowI8x16U => Some (ref_extend 8 false id)
  | SI16x8ExtMulLowI8x16S => Some (ref_extmul 8 false (ref_mul_s 8))
  | SI16x8ExtMulLowI8x16U => Some (ref_extmul 8 false Z.mul)
  | SI16x8ExtendHighI8x16S => Some (ref_extend 8 true (ref_extend_s 8))
  | SI16x8ExtendHighI8x16U => Some (ref_extend 8 true id)
  | SI16x8ExtMulHighI8x16S => Some (ref_extmul 8 true (ref_mul_s 8))
  | SI16x8ExtMulHighI8x16U => Some (ref_extmul 8 true Z.mul)
  | SI16x8ExtAddPairwiseI8x16S => Some (ref_pairs 8 (ref_add_s 8))
  | SI16x8ExtAddPairwiseI8x16U => Some (ref_pairs 8 Z.add)
  | SI8x16NarrowI16x8S => Some (ref_narrow 16 (λ x, sat_s 8 (sgn 16 x)))
  | SI8x16NarrowI16x8U => Some (ref_narrow 16 (λ x, sat_u 8 (sgn 16 x)))
  | SI32x4ExtendLowI16x8S => Some (ref_extend 16 false (ref_extend_s 16))
  | SI32x4ExtendLowI16x8U => Some (ref_extend 16 false id)
  | SI32x4ExtMulLowI16x8S => Some (ref_extmul 16 false (ref_mul_s 16))
  | SI32x4ExtMulLowI16x8U => Some (ref_extmul 16 false Z.mul)
  | SI32x4ExtendHighI16x8S => Some (ref_extend 16 true (ref_extend_s 16))
  | SI32x4ExtendHighI16x8U => Some (ref_extend 16 true id)
  | SI32x4ExtMulHighI16x8S => Some (ref_extmul 16 true (ref_mul_s 16))
  | SI32x4ExtMulHighI16x8U => Some (ref_extmul 16 true Z.mul)
  | SI32x4ExtAddPairwiseI16x8S => Some (ref_pairs 16 (ref_add_s 16))
  | SI32x4ExtAddPairwiseI16x8U => Some (ref_pairs 16 Z.add)
  | SI16x8NarrowI32x4S => Some (ref_narrow 32 (λ x, sat_s 16 (sgn 32 x)))
  | SI16x8NarrowI32x4U => Some (ref_narrow 32 (λ x, sat_u 16 (sgn 32 x)))
  | SI64x2ExtendLowI32x4S => Some (ref_extend 32 false (ref_extend_s 32))
  | SI64x2ExtendLowI32x4U => Some (ref_extend 32 false id)
  | SI64x2ExtMulLowI32x4S => Some (ref_extmul 32 false (ref_mul_s 32))
  | SI64x2ExtMulLowI32x4U => Some (ref_extmul 32 false Z.mul)
  | SI64x2ExtendHighI32x4S => Some (ref_extend 32 true (ref_extend_s 32))
  | SI64x2ExtendHighI32x4U => Some (ref_extend 32 true id)
  | SI64x2ExtMulHighI32x4S => Some (ref_extmul 32 true (ref_mul_s 32))
  | SI64x2ExtMulHighI32x4U => Some (ref_extmul 32 true Z.mul)
  | SI32x4DotI16x8S => Some (ref_dot 16 (ref_dot_s 16))
  | SI16x8Q15MulrSatS | SI16x8RelaxedQ15mulrS => Some (ref_bin 16 ref_q15)
  | SI16x8RelaxedDotI8x16I7x16S => Some (ref_dot 8 (ref_dot_s 8))
  | SI32x4RelaxedDotI8x16I7x16AddS => Some (ref_rdot_add)
  | SV128Not => Some (ref_un 1 bit_not)
  | SV128And => Some (ref_bin 1 bit_and)
  | SV128Or => Some (ref_bin 1 bit_or)
  | SV128Xor => Some (ref_bin 1 bit_xor)
  | SV128AndNot => Some (ref_bin 1 (λ x y, bit_and x (bit_not y)))
  | SV128Bitselect | SI8x16RelaxedLaneselect | SI16x8RelaxedLaneselect | SI32x4RelaxedLaneselect | SI64x2RelaxedLaneselect => Some (ref_tern 1 bit_select)
  | SV128AnyTrue => Some (ref_any_true)
  | SV128Const bits => if (0 <=? bits) && (bits <? 2 ^ 128) then Some (to_vec 0 128 (λ _ _, bits)) else None
  | SI8x16Splat => Some (ref_splat 8)
  | SI8x16ReplaceLane l => ref_replace 8 l
  | SI16x8Splat => Some (ref_splat 16)
  | SI16x8ReplaceLane l => ref_replace 16 l
  | SI32x4Splat => Some (ref_splat 32)
  | SI32x4ReplaceLane l => ref_replace 32 l
  | SI64x2Splat => Some (ref_splat 64)
  | SI64x2ReplaceLane l => ref_replace 64 l
  | SF32x4Splat => Some (ref_splat 32)
  | SF32x4ReplaceLane l => ref_replace 32 l
  | SF64x2Splat => Some (ref_splat 64)
  | SF64x2ReplaceLane l => ref_replace 64 l
  | SI8x16ExtractLaneS l => ref_extract 4 8 l (sgn 8)
  | SI8x16ExtractLaneU l => ref_extract 4 8 l id
  | SI16x8ExtractLaneS l => ref_extract 4 16 l (sgn 16)
  | SI16x8ExtractLaneU l => ref_extract 4 16 l id
  | SI32x4ExtractLane l => ref_extract 4 32 l id
  | SI64x2ExtractLane l => ref_extract 8 64 l id
  | SF32x4ExtractLane l => ref_extract 4 32 l id
  | SF64x2ExtractLane l => ref_extract 8 64 l id
  | SI8x16Shuffle idx => ref_shuffle idx
  | SI8x16Swizzle | SI8x16RelaxedSwizzle => Some (ref_swizzle)
  | SF32x4Eq => Some (ref_rel 32 (f_eq F32))
  | SF32x4Ne => Some (ref_rel 32 (f_ne F32))
  | SF32x4Lt => Some (ref_rel 32 (f_lt F32))
  | SF32x4Gt => Some (ref_rel 32 (f_gt F32))
  | SF32x4Le => Some (ref_rel 32 (f_le F32))
  | SF32x4Ge => Some (ref_rel 32 (f_ge F32))
  | SF32x4Add => Some (ref_bin 32 (fbin F32 f_add))
  | SF32x4Sub => Some (ref_bin 32 (fbin F32 f_sub))
  | SF32x4Mul => Some (ref_bin 32 (fbin F32 f_mul))
  | SF32x4Div => Some (ref_bin 32 (fbin F32 f_div))
  | SF32x4Min | SF32x4RelaxedMin => Some (ref_bin 32 (λ x y, wrap 32 (f_min F32 x y)))
  | SF32x4Max | SF32x4RelaxedMax => Some (ref_bin 32 (λ x y, wrap 32 (f_max F32 x y)))
  | SF32x4PMin => Some (ref_bin 32 (λ x y, pick (f_lt F32 y x) y x))
  | SF32x4PMax => Some (ref_bin 32 (λ x y, pick (f_lt F32 x y) y x))
  | SF32x4Sqrt => Some (ref_un 32 (fun1 F32 f_sqrt))
  | SF32x4Ceil => Some (ref_un 32 (fun1 F32 f_ceil))
  | SF32x4Floor => Some (ref_un 32 (fun1 F32 f_floor))
  | SF32x4Trunc => Some (ref_un 32 (fun1 F32 f_trunc))
  | SF32x4Nearest => Some (ref_un 32 (fun1 F32 f_nearest))
  | SF32x4Abs => Some (ref_un 32 (λ x, x mod 2 ^ 31))
  | SF32x4Neg => Some (ref_un 32 (λ x, wrap 32 (x + 2 ^ 31)))
  | SF32x4RelaxedMadd => Some (ref_tern 32 (ffma F32 false))
  | SF32x4RelaxedNmadd => Some (ref_tern 32 (ffma F32 true))
  | SF64x2Eq => Some (ref_rel 64 (f_eq F64))
  | SF64x2Ne => Some (ref_rel 64 (f_ne F64))
  | SF64x2Lt => Some (ref_rel 64 (f_lt F64))
  | SF64x2Gt => Some (ref_rel 64 (f_gt F64))
  | SF64x2Le => Some (ref_rel 64 (f_le F64))
  | SF64x2Ge => Some (ref_rel 64 (f_ge F64))
  | SF64x2Add => Some (ref_bin 64 (fbin F64 f_add))
  | SF64x2Sub => Some (ref_bin 64 (fbin F64 f_sub))
  | SF64x2Mul => Some (ref_bin 64 (fbin F64 f_mul))
  | SF64x2Div => Some (ref_bin 64 (fbin F64 f_div))
  | SF64x2Min | SF64x2RelaxedMin => Some (ref_bin 64 (λ x y, wrap 64 (f_min F64 x y)))
  | SF64x2Max | SF64x2RelaxedMax => Some (ref_bin 64 (λ x y, wrap 64 (f_max F64 x y)))
  | SF64x2PMin => Some (ref_bin 64 (λ x y, pick (f_lt F64 y x) y x))
  | SF64x2PMax => Some (ref_bin 64 (λ x y, pick (f_lt F64 x y) y x))
  | SF64x2Sqrt => Some (ref_un 64 (fun1 F64 f_sqrt))
  | SF64x2Ceil => Some (ref_un 64 (fun1 F64 f_ceil))
  | SF64x2Floor => Some (ref_un 64 (fun1 F64 f_floor))
  | SF64x2Trunc => Some (ref_un 64 (fun1 F64 f_trunc))
  | SF64x2Nearest => Some (ref_un 64 (fun1 F64 f_nearest))
  | SF64x2Abs => Some (ref_un 64 (λ x, x mod 2 ^ 63))
  | SF64x2Neg => Some (ref_un 64 (λ x, wrap 64 (x + 2 ^ 63)))
  | SF64x2RelaxedMadd => Some (ref_tern 64 (ffma F64 false))
  | SF64x2RelaxedNmadd => Some (ref_tern 64 (ffma F64 true))
  | SI32x4TruncSatF32x4S | SI32x4RelaxedTruncF32x4S => Some (ref_un 32 (λ x, wrap 32 (i32_trunc_sat_f32_s x)))
  | SI32x4TruncSatF64x2SZero | SI32x4RelaxedTruncF64x2SZero => Some (ref_low_zero 64 32 i32_trunc_sat_f64_s)
  | SI32x4TruncSatF32x4U | SI32x4RelaxedTruncF32x4U => Some (ref_un 32 (λ x, wrap 32 (i32_trunc_sat_f32_u x)))
  | SI32x4TruncSatF64x2UZero | SI32x4RelaxedTruncF64x2UZero => Some (ref_low_zero 64 32 i32_trunc_sat_f64_u)
  | SF32x4ConvertI32x4S => Some (ref_un 32 (λ x, wrap 32 (f32_convert_i32_s (sgn 32 x))))
  | SF32x4ConvertI32x4U => Some (ref_un 32 (λ x, wrap 32 (f32_convert_i32_u x)))
  | SF64x2ConvertLowI32x4S => Some (ref_low_zero 32 64 (λ x, f64_convert_i32_s (sgn 32 x)))
  | SF64x2ConvertLowI32x4U => Some (ref_low_zero 32 64 f64_convert_i32_u)
  | SF32x4DemoteF64x2Zero => Some (ref_low_zero 64 32 (λ x, canon_f32 (f32_demote_f64 x) (is_nan F64 x)))
  | SF64x2PromoteLowF32x4 => Some (ref_low_zero 32 64 (λ x, canon_f64 (f64_promote_f32 x) (is_nan F32 x)))
  | _ => None
  end.
End table.

(** ** The code's operations on one lane *)
Section pointwise.
Context (w : Z) (Hw : 0 < w).
Lemma wrap_self a : wrap w (wrap w a) = wrap w a.
Proof using Hw. apply wrap_id, wrap_ok. lia. Qed.
Lemma pw_add x y : wrap w (wadd w (sgn w x) (sgn w y)) = ref_add w x y.
Proof using Hw.
  unfold wadd, ref_add. rewrite wrap_sgn by done. unfold wrap. rewrite Z.add_mod by lia. rewrite !sgn_mod by done. by rewrite <- Z.add_mod by lia.
Qed.
Lemma pw_sub x y : wrap w (wsub w (sgn w x) (sgn w y)) = ref_sub w x y.
Proof using Hw. unfold wsub, ref_sub. rewrite wrap_sgn by done. unfold wrap. rewrite Zminus_mod, !sgn_mod by done. by rewrite <- Zminus_mod. Qed.
Lemma pw_mul x y : wrap w (wmul w (sgn w x) (sgn w y)) = ref_mul w x y.
Proof using Hw.
  unfold wmul, ref_mul. rewrite wrap_sgn by done. unfold wrap. rewrite Z.mul_mod by lia. rewrite !sgn_mod by done. by rewrite <- Z.mul_mod by lia.
Qed.
Lemma neg_sgn x : wrap w (- sgn w x) = wrap w (- x).
Proof using Hw.
  unfold wrap. rewrite <- !Z.sub_0_l, Zminus_mod, sgn_mod by done. by rewrite <- Zminus_mod.
Qed.
Lemma pw_neg x : wrap w (wneg w (sgn w x)) = ref_neg w x.
Proof using Hw. unfold wneg, ref_neg. by rewrite wrap_sgn, neg_sgn. Qed.
Lemma wrap_sgn_id x : u_ok w x → wrap w (sgn w x) = x.
Proof using Hw. intros. rewrite wrap_sgn by done. by apply wrap_id. Qed.
Lemma pw_abs x : u_ok w x → wrap w (wabs w (sgn w x)) = ref_abs w x.
Proof using Hw.
  intros Hx. unfold wabs, ref_abs. rewrite wrap_sgn by done. destruct (Z.ltb_spec (sgn w x) 0).
  - rewrite Z.abs_neq by lia. apply neg_sgn.
  - rewrite Z.abs_eq by lia. by apply wrap_sgn_id.
Qed.
Lemma pw_min_s x y : u_ok w x → u_ok w y → wrap w (Z.min (sgn w x) (sgn w y)) = ref_min_s w x y.
Proof using Hw.
  intros Hx Hy. unfold ref_min_s, pick. destruct (Z.ltb_spec (sgn w x) (sgn w y)); [rewrite Z.min_l by lia|rewrite Z.min_r by lia]; by apply wrap_sgn_id.
Qed.
Lemma pw_max_s x y : u_ok w x → u_ok w y → wrap w (Z.max (sgn w x) (sgn w y)) = ref_max_s w x y.
Proof using Hw.
  intros Hx Hy. unfold ref_max_s, pick. destruct (Z.ltb_spec (sgn w y) (sgn w x)); [rewrite Z.max_l by lia|rewrite Z.max_r by lia]; by apply wrap_sgn_id.
Qed.
Lemma pw_min_u x y : Z.min x y = ref_min_u x y.
Proof. unfold ref_min_u, pick. destruct (Z.ltb_spec x y); lia. Qed.
Lemma pw_max_u x y : Z.max x y = ref_max_u x y.
Proof. unfold ref_max_u, pick. destruct (Z.ltb_spec y x); lia. Qed.
Lemma clamp_sat lo hi x : lo ≤ hi → clamp lo hi x = sat lo hi x.
Proof. intros. unfold clamp, sat. destruct (Z.ltb_spec x lo), (Z.ltb_spec hi x); lia. Qed.
Lemma half_pos : 0 < 2 ^ (w - 1).
Proof using Hw. apply Z.pow_pos_nonneg; lia. Qed.
Lemma pw_sat_s x : wrap w (saturating_s w x) = sat_s w x.
Proof using Hw. pose proof half_pos. unfold saturating_s, sat_s. by rewrite clamp_sat by lia. Qed.
Lemma pw_sat_u x : saturating_u w x = sat_u w x.
Proof using Hw. unfold saturating_u, sat_u. apply clamp_sat. pose proof (Z.pow_pos_nonneg 2 w). lia. Qed.
Lemma pw_shl x k : 0 ≤ k < w → wrap w (wrapping_shl w (sgn w x) k) = ref_shl w x k.
Proof using Hw.
  intros Hk. unfold wrapping_shl, ref_shl. rewrite wrap_sgn, Z.mod_small, Z.shiftl_mul_pow2 by lia.
  unfold wrap. rewrite Z.mul_mod by lia. rewrite sgn_mod by done. by rewrite <- Z.mul_mod by lia.
Qed.
Lemma pw_shr x k : 0 ≤ k < w → wrapping_shr w x k = x / 2 ^ k.
Proof using. intros Hk. unfold wrapping_shr. by rewrite Z.mod_small, Z.shiftr_div_pow2 by lia. Qed.
Lemma shr_ok x k : u_ok w x → 0 ≤ k → u_ok w (x / 2 ^ k).
Proof using Hw.
  intros [H0 H1] Hk. pose proof (Z.pow_pos_nonneg 2 k). split; [apply Z.div_pos; lia|]. apply Z.le_lt_trans with x; [|done].
  apply Z.div_le_upper_bound; [lia|]. nia.
Qed.
Lemma wide x y : u_ok w x → u_ok w y → u_ok (2 * w) (x * y) ∧ u_ok (2 * w) (x + y) ∧ u_ok (2 * w) x.
Proof using Hw.
  unfold u_ok. intros Hx Hy. replace (2 * w) with (w + w) by lia. rewrite Z.pow_add_r by lia.
  assert (2 ≤ 2 ^ w) by (rewrite pow2_half by done; pose proof half_pos; lia). split_and!; nia.
Qed.
Lemma sgn_inj x y : u_ok w x → u_ok w y → sgn w x = sgn w y → x = y.
Proof using Hw. intros Hx Hy He. by rewrite <- (wrap_sgn_id x Hx), <- (wrap_sgn_id y Hy), He. Qed.
Lemma pw_eq x y : u_ok w x → u_ok w y → (sgn w x =? sgn w y) = (x =? y).
Proof using Hw.
  intros Hx Hy. destruct (Z.eqb_spec x y) as [->|Hn]; [by apply Z.eqb_refl|]. apply Z.eqb_neq. intros He. by apply Hn, sgn_inj.
Qed.
End pointwise.

Lemma count_ones_ok n x : 0 ≤ count_ones_go n x ≤ Z.of_nat n.
Proof. revert x. induction n as [|n IH]; intros x; [done|]. cbn [count_ones_go]. specialize (IH (Z.div2 x)). destruct (Z.odd x); lia. Qed.
Lemma pw_popcnt x : u_ok 8 x → wrap 8 (count_ones 8 x) = ref_popcnt 8 x.
Proof.
  intros Hx. unfold count_ones, ref_popcnt. rewrite <- count_ones_spec by apply Hx. apply wrap_id.
  pose proof (count_ones_ok (Z.to_nat 8) x). unfold u_ok. lia.
Qed.
Lemma avgr_ok w x y : u_ok w x → u_ok w y → u_ok w (ref_avgr x y).
Proof. unfold u_ok, ref_avgr. intros. split; [apply Z.div_pos; lia|apply Z.div_lt_upper_bound; lia]. Qed.
Lemma sat_u_ok w x : 0 < w → u_ok w (sat_u w x).
Proof.
  intros. unfold sat_u, sat, u_ok. pose proof (Z.pow_pos_nonneg 2 w). destruct (Z.ltb_spec x 0); [lia|]. destruct (Z.ltb_spec (2 ^ w - 1) x); lia.
Qed.
Lemma pw_q15 x y : wrap 16 (q15mulr (sgn 16 x) (sgn 16 y)) = ref_q15 x y.
Proof. unfold q15mulr, ref_q15, sat_s. rewrite wrap_sgn by done. rewrite clamp_sat by done. by rewrite Z.shiftr_div_pow2 by done. Qed.
Lemma clear_sign w x : 0 < w → u_ok w x → wrap w (Z.land x (not_u w (2 ^ (w - 1)))) = x mod 2 ^ (w - 1).
Proof.
  intros Hw Hx. assert (not_u w (2 ^ (w - 1)) = Z.ones (w - 1)) as ->.
  { unfold not_u. rewrite Z.ones_equiv, (pow2_half w Hw). lia. }
  rewrite Z.land_ones by lia. apply wrap_id. pose proof (half_pos w Hw). pose proof (pow2_half w Hw).
  unfold u_ok. pose proof (Z.mod_pos_bound x (2 ^ (w - 1))). lia.
Qed.
Lemma lxor_low w x : 0 ≤ x < 2 ^ w → 0 ≤ w → Z.lxor x (2 ^ w) = x + 2 ^ w.
Proof.
  intros Hx Hw. symmetry. apply Z.add_nocarry_lxor. apply Z.bits_inj'. intros j Hj. rewrite Z.land_spec, Z.bits_0, Z.pow2_bits_eqb by lia.
  destruct (Z.eqb_spec w j) as [<-|]; [|by rewrite andb_false_r]. rewrite andb_true_r, <- (Z.mod_small x (2 ^ w)) by done.
  by apply Z.mod_pow2_bits_high; lia.
Qed.
Lemma flip_sign w x : 0 < w → u_ok w x → wrap w (Z.lxor x (2 ^ (w - 1))) = wrap w (x + 2 ^ (w - 1)).
Proof.
  intros Hw [H0 H1]. pose proof (half_pos w Hw). pose proof (pow2_half w Hw). destruct (Z.ltb_spec x (2 ^ (w - 1))).
  - by rewrite lxor_low by lia.
  - assert (x = Z.lxor (x - 2 ^ (w - 1)) (2 ^ (w - 1))) as Hx by (rewrite lxor_low; lia).
    rewrite Hx at 1. rewrite Z.lxor_assoc, Z.lxor_nilpotent, Z.lxor_0_r. unfold wrap.
    rewrite <- (Z.mod_add _ 1) by lia. f_equal. lia.
Qed.
Lemma pw_narrow_u w x : 0 < w → wrap w (wrap w (saturating_u w x)) = sat_u w x.
Proof. intros Hw. rewrite wrap_self, pw_sat_u by done. by apply wrap_id, sat_u_ok. Qed.
Lemma wider w x : 0 < w → u_ok w x → u_ok (2 * w) x.
Proof. intros Hw Hx. by destruct (wide w Hw x x Hx Hx) as (_ & _ & ?). Qed.
Lemma le_low n v : to_le_bytes n (wrap (8 * Z.of_nat n) v) = to_le_bytes n v.
Proof. unfold wrap. rewrite <- from_to_le. apply to_from_le; [apply to_le_ok|]. pose proof (zlen_to_le n v). unfold zlen in *. lia. Qed.

(** ** Shapes that are not lane by lane *)
Lemma lane_bit i v : 0 ≤ i → lane 1 i v = Z.b2z (Z.testbit v i).
Proof. intros Hi. unfold lane. rewrite Z.mul_1_l, Z.pow_1_r. symmetry. by apply Z.testbit_spec'. Qed.
Lemma land_ok w a b : 0 ≤ w → u_ok w a → u_ok w b → u_ok w (Z.land a b).
Proof. intros Hw Ha Hb. rewrite <- (wrap_id w a), <- (wrap_id w b), <- wrap_land by done. by apply wrap_ok. Qed.
Lemma lor_ok w a b : 0 ≤ w → u_ok w a → u_ok w b → u_ok w (Z.lor a b).
Proof. intros Hw Ha Hb. rewrite <- (wrap_id w a), <- (wrap_id w b), <- wrap_lor by done. by apply wrap_ok. Qed.
Lemma lxor_ok w a b : 0 ≤ w → u_ok w a → u_ok w b → u_ok w (Z.lxor a b).
Proof. intros Hw Ha Hb. rewrite <- (wrap_id w a), <- (wrap_id w b), <- wrap_lxor by done. by apply wrap_ok. Qed.
Lemma not_ok w a : u_ok w a → u_ok w (not_u w a).
Proof. unfold u_ok, not_u. lia. Qed.
Lemma not_bit w i a : u_ok w a → 0 ≤ i < w → Z.testbit (not_u w a) i = negb (Z.testbit a i).
Proof.
  intros Ha Hi. assert (not_u w a = Z.lnot a mod 2 ^ w) as ->.
  { unfold not_u, Z.lnot. unfold u_ok in Ha. rewrite <- (Z.mod_add _ 1) by lia. rewrite Z.mod_small; lia. }
  rewrite Z.mod_pow2_bits_low by lia. by rewrite Z.lnot_spec by lia.
Qed.
Lemma lane_mod w i v k : 0 < w → 0 ≤ i → w * (i + 1) ≤ k → lane w i (v mod 2 ^ k) = lane w i v.
Proof.
  intros Hw Hi Hk. unfold lane. assert (0 ≤ w * i) by nia. assert (k = w * i + (k - w * i)) as He by lia. rewrite He at 1.
  rewrite Z.pow_add_r by nia. rewrite Z.rem_mul_r by (try apply Z.pow_nonzero; try apply Z.pow_pos_nonneg; nia).
  rewrite (Z.mul_comm (2 ^ (w * i))), Z.div_add by (apply Z.pow_nonzero; lia).
  rewrite (Z.div_small (v mod _)) by (apply Z.mod_pos_bound, Z.pow_pos_nonneg; lia). rewrite Z.add_0_l.
  assert (2 ^ (k - w * i) = 2 ^ w * 2 ^ (k - w * i - w)) as -> by (rewrite <- Z.pow_add_r by nia; f_equal; lia).
  rewrite Z.rem_mul_r by (try apply Z.pow_nonzero; try apply Z.pow_pos_nonneg; nia).
  rewrite (Z.mul_comm (2 ^ w)), Z.mod_add by (apply Z.pow_nonzero; lia). by apply Z.mod_mod, Z.pow_nonzero; lia.
Qed.

Section shapes.
Context `{Features, FloatHost} (Hsimd : feat_simd = true).
Notation cell16 x := (of_bytes (to_le_bytes 16 x)).
Lemma meets_value m arity w f (F : list Z → Z) :
  (∀ args, length args = arity → Forall (u_ok 128) args → u_ok 128 (F args) ∧ ∀ i, 0 ≤ i < 128 / w → lane w i (F args) = f args i) →
  (∀ args, length args = arity → Forall vector_cell args → yields m args (cell16 (F (cell_v128 <$> args)))) →
  meets m (to_vec arity w f).
Proof using.
  intros HF Hm args Ha Hc. destruct (HF (cell_v128 <$> args)) as [Hr Hi]; [by rewrite length_fmap| |].
  { apply Forall_fmap. eapply Forall_impl; [exact Hc|]. apply cell_v128_ok. }
  eexists. split; [exact Hr|]. split; [by apply Hm|exact Hi].
Qed.
Lemma u_two (args : list Z) : length args = 2%nat → Forall (u_ok 128) args → u_ok 128 (arg 0 args) ∧ u_ok 128 (arg 1 args).
Proof. destruct args as [|a [|b [|]]]; [done..| |done]. intros _ [Ha [Hb _]%Forall_cons]%Forall_cons. done. Qed.
Lemma u_three (args : list Z) : length args = 3%nat → Forall (u_ok 128) args →
  u_ok 128 (arg 0 args) ∧ u_ok 128 (arg 1 args) ∧ u_ok 128 (arg 2 args).
Proof. destruct args as [|a [|b [|c [|]]]]; [done..| |done]. intros _ [Ha [Hb [Hc _]%Forall_cons]%Forall_cons]%Forall_cons. done. Qed.
Lemma meets_bit2 f g : (∀ a b, u_ok 128 a → u_ok 128 b → u_ok 128 (f a b) ∧
    ∀ i, 0 ≤ i < 128 → lane 1 i (f a b) = g (lane 1 i a) (lane 1 i b)) →
  meets (bit_binop f) (ref_bin 1 g).
Proof using Hsimd.
  intros Hf. apply (meets_value _ 2 1 _ (λ args, f (arg 0 args) (arg 1 args))).
  - intros args Ha [Hv0 Hv1]%u_two; [|done]. by apply Hf.
  - intros args (a & b & ->)%args_two _. by apply yields_two, yields_one, yields_push_v128.
Qed.
Lemma meets_not : meets (exec_simd_bit SV128Not) (ref_un 1 bit_not).
Proof using Hsimd.
  apply (meets_value _ 1 1 _ (λ args, not_u 128 (arg 0 args))).
  - intros [|a [|]]; [done| |done]. intros _ [Ha _]%Forall_cons. split; [by apply not_ok|]. intros i Hi. cbn [arg nth].
    rewrite !lane_bit by lia. rewrite not_bit by done. by destruct (Z.testbit a i).
  - intros args (a & ->)%args_one _. by apply yields_one, yields_push_v128.
Qed.
Lemma meets_select : meets (exec_simd_bit SV128Bitselect) (ref_tern 1 bit_select).
Proof using Hsimd.
  apply (meets_value _ 3 1 _ (λ args, Z.lor (Z.land (arg 0 args) (arg 2 args)) (Z.land (arg 1 args) (not_u 128 (arg 2 args))))).
  - intros args Ha (Hv0 & Hv1 & Hv2)%u_three; [|done]. split; [by apply lor_ok; [|apply land_ok..]; try apply not_ok|]. intros i Hi.
    rewrite !lane_bit by lia. rewrite Z.lor_spec, !Z.land_spec, not_bit by done.
    by destruct (Z.testbit (arg 0 args) i), (Z.testbit (arg 1 args) i), (Z.testbit (arg 2 args) i).
  - intros args (a & b & c & ->)%args_three _. by apply yields_three, yields_two, yields_one, yields_push_v128.
Qed.

(** Scalars. *)
Definition pops {A} (pop : SM Execution A) (g : Cell → A) : Prop :=
  ∀ (f : A → SM Execution ()) args c r, yields (f (g c)) args r → yields (pop ≫= f) (args ++ [c]) r.
Lemma pops_scalar {A} (g : Cell → A) : pops (c ← pop_scalar; mret (g c)) g.
Proof using. intros f args c r. apply yields_pop. Qed.
Lemma pops_as w : pops (pop_as w) (λ c, sgn w (cell_i32 c)).
Proof using.
  intros f args c r Hf. apply (yields_pop cell_i32 (λ x, f (sgn w x))) in Hf.
  intros ex vs ss Hs. rewrite <- (Hf ex vs ss Hs). unfold pop_as, pop_i32, mbind, M_bind. by destruct (pop_scalar ex) as [[]].
Qed.
(** What a popped number is: the low bits of its cell. *)
Lemma low_lane w c : vector_cell c → 0 < w ≤ 128 → lane w 0 (cell_v128 c) = cell_v128 c mod 2 ^ w.
Proof using. intros _ _. unfold lane. by rewrite Z.mul_0_r, Z.pow_0_r, Z.div_1_r. Qed.
Lemma mod_mod_pow a u w : 0 ≤ w ≤ u → (a mod 2 ^ u) mod 2 ^ w = a mod 2 ^ w.
Proof using.
  intros Hw. replace u with (w + (u - w)) by lia. rewrite Z.pow_add_r by lia.
  rewrite Z.rem_mul_r by (try apply Z.pow_nonzero; try apply Z.pow_pos_nonneg; lia).
  rewrite (Z.mul_comm (2 ^ w)), Z.mod_add by (apply Z.pow_nonzero; lia). apply Z.mod_mod, Z.pow_nonzero; lia.
Qed.
Lemma cell_low k w c : vector_cell c → Z.of_nat k ≤ 16 → 0 < w ≤ 8 * Z.of_nat k →
  wrap w (from_le_bytes (lo (Z.of_nat k) c)) = lane w 0 (cell_v128 c).
Proof using. intros Hc Hk Hw. rewrite low_bytes by done. rewrite low_lane by (done || lia). unfold wrap. by apply mod_mod_pow; lia. Qed.
Lemma sgn_low u w a : 0 < w ≤ u → wrap w (sgn u a) = wrap w a.
Proof using. intros Hw. unfold wrap. rewrite <- (mod_mod_pow (sgn u a) u w), sgn_mod, mod_mod_pow by lia. done. Qed.
Definition numeric (w : Z) (g : Cell → Z) : Prop := ∀ c, vector_cell c → wrap w (g c) = lane w 0 (cell_v128 c).
Lemma numeric_i32 w : 0 < w ≤ 32 → numeric w (λ c, sgn w (cell_i32 c)).
Proof using. intros Hw c Hc. rewrite sgn_low by lia. unfold cell_i32. rewrite sgn_low by lia. by apply (cell_low 4); [..|lia]. Qed.
Lemma numeric_32 : numeric 32 cell_i32.
Proof using. intros c Hc. unfold cell_i32. rewrite sgn_low by lia. by apply (cell_low 4); [..|lia]. Qed.
Lemma numeric_64 : numeric 64 cell_i64.
Proof using. intros c Hc. unfold cell_i64. rewrite sgn_low by lia. by apply (cell_low 8); [..|lia]. Qed.
Lemma numeric_f32 : numeric 32 cell_f32.
Proof using. intros c Hc. by apply (cell_low 4); [..|lia]. Qed.
Lemma numeric_f64 : numeric 64 cell_f64.
Proof using. intros c Hc. by apply (cell_low 8); [..|lia]. Qed.

Section scalar.
Context (w n : Z) (Hw : 0 < w) (Hn : w * n = 128).
Lemma lanes_n : 128 / w = n.
Proof using Hw Hn. rewrite <- Hn, Z.mul_comm. apply Z.div_mul. lia. Qed.
Lemma meets_splat join pop g : joins w n (λ _, True) join → pops pop g → numeric w g → meets (splat n pop join) (ref_splat w).
Proof using Hw Hn Hsimd.
  intros Hj Hp Hg args Ha Hc. apply args_one in Ha as [a ->]. apply Forall_cons in Hc as [Hc _].
  assert (0 < n) by nia. destruct (Hj (replicate (Z.to_nat n) (g a))) as [Hr Hi].
  { unfold zlen. rewrite length_replicate. lia. }
  { by apply Forall_true. }
  eexists. split; [exact Hr|]. split; [by apply (Hp _ []), yields_push_v128|]. intros i Hb.
  assert (128 / w = n) as Hl by apply lanes_n. change (0 ≤ i < 128 / w) in Hb. rewrite Hl in Hb.
  change (lane w i (join (replicate (Z.to_nat n) (g a))) = lane w 0 (cell_v128 a)).
  rewrite (Hi i (g a)) by (apply zget_replicate; lia). by apply Hg.
Qed.
Lemma meets_replace c split join pop g l r : splits w n c split → joins w n (λ _, True) join → (∀ x, u_ok w x → wrap w (c x) = x) →
  pops pop g → numeric w g → ref_replace w l = Some r → meets (replace pop split join l) r.
Proof using Hw Hn Hsimd.
  intros Hs Hj Hcx Hp Hg Hr. unfold ref_replace in Hr. rewrite lanes_n in Hr. destruct (Z.leb_spec 0 l), (Z.ltb_spec l n); cbn in Hr; try done.
  injection Hr as <-. intros args Ha Hc. apply args_two in Ha as (a & b & ->). apply Forall_cons in Hc as [_ [Hb _]%Forall_cons].
  destruct (Hs (cell_v128 a)) as [Hl Hx].
  set (k := <[Z.to_nat l := g b]> (split (cell_v128 a))).
  assert (zset (split (cell_v128 a)) l (g b) = Some k) as Hk by (apply zset_Some; split; [lia|done]).
  destruct (joined w n _ join k (λ i, if i =? l then lane w 0 (cell_v128 b) else lane w i (cell_v128 a)) Hj) as [Hu Hi].
  { unfold k, zlen in *. by rewrite length_insert. }
  { intros i Hi. destruct (Z.eqb_spec i l) as [->|Hne].
    - exists (g b). unfold k. by rewrite zget_insert_eq, (Hg b Hb) by lia.
    - exists (c (lane w i (cell_v128 a))). unfold k. rewrite zget_insert_ne, Hx by lia. split_and!; [done..|]. apply Hcx, lane_ok. lia. }
  exists (join k). split; [exact Hu|]. split.
  - unfold replace. apply (Hp _ [a] b), yields_one. eapply yields_lift; [|by apply yields_push_v128]. unfold lane_set. by rewrite Hk.
  - intros i Hb'. change (0 ≤ i < 128 / w) in Hb'. rewrite lanes_n in Hb'. by apply Hi.
Qed.
Lemma meets_extract bytes c f split l v r : splits w n c split → ref_extract bytes w l f = Some r →
  (∀ x, of_val (v x) = TagNone) → (∀ x, encode (v x) = Ok (of_bytes (to_le_bytes bytes x))) →
  (∀ x, u_ok w x → wrap (8 * Z.of_nat bytes) (c x) = wrap (8 * Z.of_nat bytes) (f x)) →
  meets (extract (λ y, lane_get (split y) l) v) r.
Proof using Hw Hn Hsimd.
  intros Hs Hr Ht He Hv. unfold ref_extract in Hr. rewrite lanes_n in Hr. destruct (Z.leb_spec 0 l), (Z.ltb_spec l n); cbn in Hr; try done.
  injection Hr as <-. intros args Ha Hc. apply args_one in Ha as (a & ->). destruct (Hs (cell_v128 a)) as [Hl Hx].
  pose proof (Hv (lane w l (cell_v128 a)) ltac:(apply lane_ok; lia)) as Hf.
  exists (wrap (8 * Z.of_nat bytes) (f (lane w l (cell_v128 a)))). split; [apply wrap_ok; cbn; lia|]. split.
  - unfold extract. apply yields_one. apply (yields_lift _ (c (lane w l (cell_v128 a)))); [|apply yields_push; [by rewrite He, <- Hf, le_low|apply Ht]]. unfold lane_get. by rewrite Hx.
  - intros i Hi. cbn [to_scalar vr_bytes vr_width vr_lane] in *. destruct (Z.eq_dec (8 * Z.of_nat bytes) 0) as [Hz|Hz]; [rewrite Hz, Zdiv_0_r in Hi; lia|].
    rewrite Z.div_same in Hi by done. replace i with 0 by lia. unfold lane. rewrite Z.mul_0_r, Z.pow_0_r, Z.div_1_r.
    apply wrap_id, wrap_ok. lia.
Qed.
End scalar.

(** Lanes by position. *)
Lemma mapM_lanes ab idx : Forall (λ j, 0 ≤ j < zlen ab) idx → mapM (lane_get ab) idx = Ok (at_ ab <$> idx).
Proof using.
  induction 1 as [|j idx Hj _ IH]; [done|]. destruct (zget_is_Some ab j Hj) as [x Hx].
  assert (lane_get ab j = Ok x) as Hg by (unfold lane_get; by rewrite Hx). assert (at_ ab j = x) as Ha by (unfold at_; by rewrite Hx).
  cbn [mapM fmap list_fmap]. rewrite Hg, Ha. cbn [mbind result_bind]. by rewrite IH.
Qed.
Lemma meets_shuffle idx r : ref_shuffle idx = Some r → meets (exec_simd_lane (SI8x16Shuffle idx)) r.
Proof using Hsimd.
  unfold ref_shuffle. destruct (Z.eqb_spec (zlen idx) 16) as [Hlen|]; [|done]. destruct (forallb _ idx) eqn:Hidx; [|done]. intros [= <-].
  assert (Forall (λ j, 0 ≤ j < 32) idx) as Hall.
  { rewrite forallb_forall in Hidx. apply Forall_forall. intros j Hj%list_elem_of_In%Hidx. lia. }
  set (ab args := u8x16 (arg 0 args) ++ u8x16 (arg 1 args)).
  assert (∀ args j, 0 ≤ j < 32 → at_ (ab args) j = pick_lane args j) as Hat.
  { intros args j Hj. unfold at_, ab, pick_lane. assert (zlen (u8x16 (arg 0 args)) = 16) as H16 by apply zlen_to_le. destruct (Z.ltb_spec j 16).
    - rewrite zget_app_l by lia. unfold u8x16. by rewrite zget_bytes by lia.
    - rewrite zget_app_r, H16 by lia. unfold u8x16. by rewrite zget_bytes by lia. }
  eapply (meets_join _ 2 8 16 (u_ok 8) from_u8x16 _ (λ args, at_ (ab args) <$> idx)); [apply joins_u8x16|lia|lia| |].
  - intros args _ _. split; [unfold zlen in *; by rewrite length_fmap|]. intros i Hi. unfold at_ at 2. rewrite zget_fmap.
    destruct (zget_is_Some idx i) as [j Hj]; [lia|]. rewrite Hj.
    pose proof (proj1 (Forall_forall _ _) Hall j (zget_elem _ _ _ Hj)) as Hr. cbv beta in Hr.
    eexists. split; [done|]. rewrite Hat by done. cbn [default from_option id].
    assert (u_ok 8 (pick_lane args j)) as Hp by (unfold pick_lane; destruct (j <? 16); apply lane_ok; lia).
    split; [exact Hp|]. by apply wrap_id.
  - intros args (a & b & ->)%args_two _. apply yields_two, yields_one. eapply yields_lift; [|by apply yields_push_v128].
    assert (zlen (u8x16 (cell_v128 a) ++ u8x16 (cell_v128 b)) = 32) as E by (rewrite zlen_app; unfold u8x16; by rewrite !zlen_to_le).
    apply mapM_lanes. eapply Forall_impl; [exact Hall|]. intros j Hj. cbv beta in Hj.
    change (0 ≤ j < zlen (u8x16 (cell_v128 a) ++ u8x16 (cell_v128 b))). by rewrite E.
Qed.
Lemma meets_swizzle : meets swizzle_body ref_swizzle.
Proof using Hsimd.
  eapply (meets_join _ 2 8 16 (u_ok 8) from_u8x16 _ (λ args, from_fn 16 (λ i, let j := at_ (u8x16 (arg 1 args)) i in
    if j <? 16 then at_ (u8x16 (arg 0 args)) j else 0))); [apply joins_u8x16|lia|lia| |].
  - intros args _ _. split; [by apply zlen_from_fn|]. intros i Hi. rewrite zget_from_fn by done. eexists. split; [done|]. cbv zeta.
    rewrite (at_split 8 16 _ u8x16 _ i splits_u8x16 Hi). pose proof (lane_ok 8 i (arg 1 args) ltac:(lia)) as Hj.
    set (j := lane 8 i (arg 1 args)) in *. destruct (Z.ltb_spec j 16).
    + rewrite (at_split 8 16 _ u8x16 _ j splits_u8x16) by (unfold u_ok in Hj; lia).
      pose proof (lane_ok 8 j (arg 0 args) ltac:(lia)) as Hp. split; [exact Hp|]. by apply wrap_id.
    + split; [by apply (wrap_ok 8 0)|]. by rewrite wrap_id by by apply (wrap_ok 8 0).
  - intros args (a & b & ->)%args_two _. by apply yields_two, yields_one, yields_push_v128.
Qed.
(** The first two lanes of a shorter array. *)
Lemma meets_low w n c split wo no (f g : Z → Z) join l : splits w n c split → joins wo no (λ _, True) join → 2 ≤ n → 0 < wo → 0 < w → wo * no = 128 →
  (∀ x, u_ok w x → wrap wo (f (c x)) = wrap wo (g x)) →
  (∀ a b, zlen (l a b) = no ∧ zget (l a b) 0 = Some a ∧ zget (l a b) 1 = Some b ∧ ∀ i, 2 ≤ i → i < no → zget (l a b) i = Some 0) →
  meets (v ← pop_v128; let s := split v in push_v128 (join (l (f (at_ s 0)) (f (at_ s 1))))) (ref_low_zero w wo g).
Proof using Hsimd.
  intros Hs Hj Hn Hwo Hw Hno Hf Hl.
  eapply (meets_join _ 1 wo no (λ _, True) join _ (λ args, l (f (at_ (split (arg 0 args)) 0)) (f (at_ (split (arg 0 args)) 1)))); [done..| |].
  - intros args _ _. set (s := split (arg 0 args)). destruct (Hl (f (at_ s 0)) (f (at_ s 1))) as (Hlen & H0' & H1' & Hz). split; [done|].
    intros i Hi. assert (i = 0 ∨ i = 1 ∨ 2 ≤ i) as [->|[->|Hi2]] by lia.
    + eexists. split; [exact H0'|]. split; [done|]. unfold s. rewrite (at_split w n c) by (done || lia). apply Hf, lane_ok. lia.
    + eexists. split; [exact H1'|]. split; [done|]. unfold s. rewrite (at_split w n c) by (done || lia). apply Hf, lane_ok. lia.
    + exists 0. split; [apply (Hz i Hi2); lia|]. split; [done|]. rewrite (proj2 (Z.ltb_ge _ _)) by lia. apply wrap_id. split; [lia|]. apply Z.pow_pos_nonneg; lia.
  - intros args (a & ->)%args_one _. apply yields_one. cbv zeta. cbn [fmap list_fmap arg nth]. by apply yields_push_v128.
Qed.

(** Scalar results. *)
Lemma splits_seq w n c split v : splits w n c split → split v = (λ i, c (lane w i v)) <$> seqZ 0 n.
Proof using.
  intros Hs. destruct (Hs v) as [Hl Hi]. apply zget_ext.
  - rewrite Hl. unfold zlen. rewrite length_fmap, length_seqZ. pose proof (zlen_nonneg (split v)). lia.
  - intros i Hb. rewrite Hl in Hb. rewrite Hi by done. symmetry. exact (zget_from_fn n (λ i, c (lane w i v)) i Hb).
Qed.
Lemma meets_i32 m (F : Z → Z) g : (∀ v, u_ok 128 v → u_ok 32 (F v) ∧ F v = g [v]) →
  (∀ a, yields m [a] (of_bytes (to_le_bytes 4 (F (cell_v128 a))))) → meets m (to_scalar 1 4 g).
Proof using.
  intros Hg Hm args Ha Hc. apply args_one in Ha as [a ->]. apply Forall_cons in Hc as [Hc _].
  destruct (Hg _ (cell_v128_ok a Hc)) as [Hr He]. eexists. split; [exact Hr|]. split; [apply Hm|].
  intros i Hi. change (0 ≤ i < 1) in Hi. replace i with 0 by lia. change (lane 32 0 (F (cell_v128 a)) = g [cell_v128 a]). rewrite <- He.
  unfold lane. rewrite Z.mul_0_r, Z.pow_0_r, Z.div_1_r. by apply wrap_id.
Qed.
Lemma b2i_ok b : u_ok 32 (b2i b).
Proof using. by destruct b. Qed.
Lemma meets_any_true : meets (exec_simd_bit SV128AnyTrue) ref_any_true.
Proof using.
  apply (meets_i32 _ (λ v, b2i (negb (v =? 0)))).
  - intros v _. split; [apply b2i_ok|]. cbn [arg nth]. by destruct (v =? 0).
  - intros a. apply yields_one. apply yields_push; [by apply encode_i32|done].
Qed.
Lemma sgn_zero w x : 0 < w → u_ok w x → (sgn w x =? 0) = (x =? 0).
Proof using.
  intros Hw Hx. rewrite <- (sgn_id w 0) at 1 by (unfold s_ok; pose proof (half_pos w Hw); lia).
  apply pw_eq; [done..|]. split; [lia|]. apply Z.pow_pos_nonneg; lia.
Qed.
Lemma meets_all_true w n split : splits w n (sgn w) split → 0 < w → w * n = 128 → meets (v_all_true split) (ref_all_true w).
Proof using.
  intros Hs Hw Hn. apply (meets_i32 _ (λ v, b2i (forallb (λ x, negb (x =? 0)) (split v)))).
  - intros v _. split; [apply b2i_ok|]. f_equal. rewrite (splits_seq _ _ _ _ v Hs), (lanes_n w n) by done. cbn [arg nth].
    generalize (seqZ 0 n). intros l. induction l as [|i l IH]; [done|]. cbn [fmap list_fmap forallb]. rewrite IH. by rewrite sgn_zero by (done || apply lane_ok; lia).
  - intros a. apply yields_one. apply yields_push; [by apply encode_i32|done].
Qed.
Lemma bitmask_sum (f : Z → Z) k : ∀ i m, 0 ≤ m < 2 ^ i → 0 ≤ i →
  0 ≤ bitmask_go i (f <$> seqZ i (Z.of_nat k)) m < 2 ^ (i + Z.of_nat k) ∧
  bitmask_go i (f <$> seqZ i (Z.of_nat k)) m = m + zsum (λ j, if f j <? 0 then 2 ^ j else 0) (seqZ i (Z.of_nat k)).
Proof using.
  induction k as [|k IH]; intros i m Hm Hi.
  - change (seqZ i (Z.of_nat 0)) with (@nil Z). cbn. rewrite !Z.add_0_r. done.
  - rewrite seqZ_cons by lia. cbn [fmap list_fmap bitmask_go zsum]. rewrite Nat2Z.inj_succ, Z.pred_succ. change (Z.succ i) with (i + 1).
    assert (2 ^ (i + 1) = 2 * 2 ^ i) as Hp by (rewrite Z.pow_add_r by lia; lia).
    assert (Z.lor m (Z.shiftl 1 i) = m + 2 ^ i) as Hor.
    { rewrite Z.shiftl_1_l. rewrite <- Z.lxor_lor, <- Z.add_nocarry_lxor; [done|..]; apply Z.bits_inj'; intros j Hj;
        rewrite Z.land_spec, Z.bits_0, Z.pow2_bits_eqb by lia; (destruct (Z.eqb_spec i j) as [<-|]; [|by rewrite andb_false_r]);
        rewrite andb_true_r; rewrite <- (Z.mod_small m (2 ^ i)) by done; by apply Z.mod_pow2_bits_high; lia. }
    rewrite Hor. destruct (IH (i + 1) (if f i <? 0 then m + 2 ^ i else m)) as [H1 H2]; [destruct (f i <? 0); lia|lia|].
    replace (i + Z.succ (Z.of_nat k)) with (i + 1 + Z.of_nat k) by lia. split; [exact H1|]. rewrite H2. destruct (f i <? 0); lia.
Qed.
Lemma sign_bit w x k : 0 < w → u_ok w x → (if sgn w x <? 0 then 2 ^ k else 0) = x / 2 ^ (w - 1) * 2 ^ k.
Proof using.
  intros Hw [Hx0 Hx1]. pose proof (half_pos w Hw). pose proof (pow2_half w Hw). unfold sgn. rewrite Z.mod_small by lia. cbv zeta.
  destruct (Z.ltb_spec x (2 ^ (w - 1))).
  - rewrite (proj2 (Z.ltb_ge _ _)) by lia. by rewrite Z.div_small by lia.
  - rewrite (proj2 (Z.ltb_lt _ _)) by lia. assert (x / 2 ^ (w - 1) = 1) as -> by (symmetry; apply Z.div_unique with (x - 2 ^ (w - 1)); lia). lia.
Qed.
Lemma meets_bitmask w n split : splits w n (sgn w) split → 0 < w → w * n = 128 → n ≤ 32 → meets (v_bitmask split) (ref_bitmask w).
Proof using.
  intros Hs Hw Hn Hn32. apply (meets_i32 _ (λ v, bitmask_go 0 (split v) 0)).
  - intros v _. rewrite (splits_seq _ _ _ _ v Hs), (lanes_n w n) by done. cbn [arg nth].
    destruct (bitmask_sum (λ i, sgn w (lane w i v)) (Z.to_nat n) 0 0) as [Hb He]; [done..|]. rewrite Z2Nat.id in Hb, He by nia.
    split.
    + split; [lia|]. eapply Z.lt_le_trans; [apply Hb|]. apply Z.pow_le_mono_r; lia.
    + rewrite He. cbn [Z.add]. apply zsum_ext. intros j _. apply sign_bit; [done|]. apply lane_ok. lia.
  - intros a. apply yields_one. apply yields_push; [by apply encode_i32|done].
Qed.

(** Sums of products, and three operands. *)
Lemma meets_dot w n split wo no join f g : splits w n (sgn w) split → joins wo no (λ _, True) join →
  0 < w → 0 < wo → w * n = 128 → wo * no = 128 → wo = 2 * w →
  (∀ x y x' y', wrap wo (f (sgn w x) (sgn w y) (sgn w x') (sgn w y')) = g x y x' y') →
  meets (v ← pop_v128; let b := split v in v ← pop_v128; let a := split v in
    push_v128 (join (from_fn no (λ i, f (at_ a (2 * i)) (at_ b (2 * i)) (at_ a (2 * i + 1)) (at_ b (2 * i + 1)))))) (ref_dot w g).
Proof using Hsimd.
  intros Hs Hj Hw Hwo Hn Hno He Hf. unfold ref_dot. rewrite <- He. assert (n = 2 * no) by nia. assert (0 < no) by nia.
  eapply (meets_join _ 2 wo no _ join _ (λ args, from_fn no (λ i, f (at_ (split (arg 0 args)) (2 * i)) (at_ (split (arg 1 args)) (2 * i))
    (at_ (split (arg 0 args)) (2 * i + 1)) (at_ (split (arg 1 args)) (2 * i + 1))))); [done..| |].
  - intros args _ _. split; [apply zlen_from_fn; lia|]. intros i Hi. eexists. split; [by apply zget_from_fn|]. split; [done|].
    rewrite !(at_split w n (sgn w)) by (done || lia). apply Hf.
  - intros args (a & b & ->)%args_two _. apply yields_two. apply yields_one. by apply yields_push_v128.
Qed.
Lemma meets_rdot_add : meets (exec_simd_relaxed SI32x4RelaxedDotI8x16I7x16AddS) ref_rdot_add.
Proof using Hsimd.
  eapply (meets_join _ 3 32 4 _ from_i32x4 _ (λ args, let dot := relaxed_dot (i8x16 (arg 0 args)) (i8x16 (arg 1 args)) in
    from_fn 4 (λ j, sgn 32 (sgn 32 (at_ dot (2 * j) + at_ dot (2 * j + 1)) + at_ (i32x4 (arg 2 args)) j)))); [apply joins_i32x4|lia|lia| |].
  - intros args _ _. split; [by apply zlen_from_fn|]. intros i Hi. eexists. split; [by apply zget_from_fn|]. split; [done|]. cbv zeta.
    assert (∀ k, 0 ≤ k < 8 → at_ (relaxed_dot (i8x16 (arg 0 args)) (i8x16 (arg 1 args))) k = sgn 16 (rdot args k)) as Hd.
    { intros k Hk. unfold relaxed_dot, at_ at 1. rewrite zget_from_fn by done. cbn [default from_option id].
      rewrite !(at_split 8 16 _ i8x16 _ _ splits_i8x16) by lia. unfold rdot, ref_dot_s. change (2 * 8) with 16. by rewrite sgn_wrap. }
    rewrite !Hd by lia. rewrite (at_split 32 4 _ i32x4 _ i splits_i32x4 Hi). rewrite wrap_sgn by lia. unfold wrap.
    rewrite Z.add_mod, !sgn_mod by lia. by rewrite <- Z.add_mod by lia.
  - intros args (a & b & c & ->)%args_three _. apply yields_three, yields_two, yields_one. by apply yields_push_v128.
Qed.
Lemma meets_fma32 f g : (∀ x y z, wrap 32 (canon_f32 (f x y z) (is_nan F32 x || is_nan F32 y || is_nan F32 z)) = g x y z) →
  meets (fma_f32x4 f) (ref_tern 32 g).
Proof using Hsimd.
  intros Hf. eapply (meets_join _ 3 32 4 _ from_f32x4 _ (λ args, from_fn 4 (λ i, let x := at_ (f32x4 (arg 0 args)) i in
    let y := at_ (f32x4 (arg 1 args)) i in let z := at_ (f32x4 (arg 2 args)) i in
    canon_f32 (f x y z) (is_nan F32 x || is_nan F32 y || is_nan F32 z)))); [apply joins_u32x4|lia|lia| |].
  - intros args _ _. split; [by apply zlen_from_fn|]. intros i Hi. eexists. split; [by apply zget_from_fn|]. split; [done|]. cbv zeta.
    rewrite !(at_split 32 4 _ f32x4 _ i splits_u32x4 Hi). apply Hf.
  - intros args (a & b & c & ->)%args_three _. apply yields_three, yields_two, yields_one. by apply yields_push_v128.
Qed.
Lemma meets_fma64 f g : (∀ x y z, wrap 64 (canon_f64 (f x y z) (is_nan F64 x || is_nan F64 y || is_nan F64 z)) = g x y z) →
  meets (fma_f64x2 f) (ref_tern 64 g).
Proof using Hsimd.
  intros Hf. eapply (meets_join _ 3 64 2 _ from_f64x2 _ (λ args, from_fn 2 (λ i, let x := at_ (f64x2 (arg 0 args)) i in
    let y := at_ (f64x2 (arg 1 args)) i in let z := at_ (f64x2 (arg 2 args)) i in
    canon_f64 (f x y z) (is_nan F64 x || is_nan F64 y || is_nan F64 z)))); [apply joins_u64x2|lia|lia| |].
  - intros args _ _. split; [by apply zlen_from_fn|]. intros i Hi. eexists. split; [by apply zget_from_fn|]. split; [done|]. cbv zeta.
    rewrite !(at_split 64 2 _ f64x2 _ i splits_u64x2 Hi). apply Hf.
  - intros args (a & b & c & ->)%args_three _. apply yields_three, yields_two, yields_one. by apply yields_push_v128.
Qed.
Lemma meets_const bits : u_ok 128 bits → meets (push_v128 bits) (to_vec 0 128 (λ _ _, bits)).
Proof using Hsimd.
  intros Hb. apply (meets_value _ 0 128 _ (λ _, bits)).
  - intros _ _ _. split; [done|]. intros i Hi. change (0 ≤ i < 1) in Hi. replace i with 0 by lia. unfold lane. rewrite Z.mul_0_r, Z.pow_0_r, Z.div_1_r. by apply wrap_id.
  - intros [|] ? _; [|done]. by apply yields_push_v128.
Qed.
End shapes.
