(* ===== verification/VectorSound.v ===== *)
(** * VectorSound: every vector instruction computes its reference (about Simd.v)

    [exec_simd] is the dispatch of [exec/simd/mod.rs] over the chain of handlers; [simd_spec]
    says what it leaves for each of the 234 instructions that VectorSpec.v describes.  The
    tactics choose the lemma of an arm by its combinator. *)
From Stdlib Require Import Floats.SpecFloat.
From S2P Require Import Prelude Types Layout Codec Op Entity Store Stack Float Numeric Memory Simd Vector VectorSpec.
Open Scope Z_scope.

(** ** The theorem *)
(** The typed arrays, by their names. *)
Create HintDb arrays discriminated.
#[local] Hint Resolve splits_i8x16 splits_u8x16 splits_i16x8 splits_u16x8 splits_i32x4 splits_u32x4 splits_i64x2 splits_u64x2
  joins_i8x16 joins_u8x16 joins_i16x8 joins_u16x8 joins_i32x4 joins_u32x4 joins_i64x2 joins_u64x2 : arrays.
#[local] Hint Extern 1 (splits _ _ _ f32x4) => exact splits_u32x4 : arrays.
#[local] Hint Extern 1 (splits _ _ _ f64x2) => exact splits_u64x2 : arrays.
#[local] Hint Extern 1 (joins _ _ _ from_f32x4) => exact joins_u32x4 : arrays.
#[local] Hint Extern 1 (joins _ _ _ from_f64x2) => exact joins_u64x2 : arrays.
(** An array, its dimensions. *)
Ltac arrays := first [assumption | solve [eauto with arrays] | reflexivity | lia].
(** The bounds of a shift count, before it is used. *)
Ltac counts :=
  repeat match goal with |- context [?k mod ?w] => lazymatch goal with
    | _ : 0 ≤ k mod w < w |- _ => fail | _ => pose proof (Z.mod_pos_bound k w eq_refl) end end.
(** A lane in range. *)
Ltac in_range :=
  first [ exact I | assumption | by apply wrap_ok | rewrite pw_sat_u by done; by apply sat_u_ok
        | rewrite pw_shr by lia; apply shr_ok; [done|assumption|lia] | unfold u_ok in *; lia ].
(** The code's operation on a lane is the reference's. *)
Ltac one_lane :=
  unfold id; first [ reflexivity | by apply pw_add | by apply pw_sub | by apply pw_mul | by apply pw_neg | by apply pw_abs
        | by apply pw_min_s | by apply pw_max_s | by apply pw_sat_s | by apply pw_q15 | by apply wrap_sgn | by apply wrap_sgn_id
        | apply pw_shl; [done|lia] | rewrite pw_shr by lia; reflexivity
        | rewrite wrap_sgn by done; by apply pw_sat_s
        | apply (clear_sign 32); done | apply (clear_sign 64); done | apply (flip_sign 32); done | apply (flip_sign 64); done
        | by apply (pw_narrow_u 8) | by apply (pw_narrow_u 16)
        | rewrite wrap_self by done;
          first [ by apply pw_popcnt | apply wrap_id; first [by apply avgr_ok | by apply (wide 8) | by apply (wide 16) | by apply (wide 32)]
                | rewrite wrap_id by in_range; by apply pw_sat_u ]
        | rewrite wrap_id by in_range; first [by apply pw_min_u | by apply pw_max_u | by apply pw_sat_u | apply pw_shr; lia]
        | apply wrap_id; first [by apply (wider 8) | by apply (wider 16) | by apply (wider 32) | by apply (wide 8) | by apply (wide 16) | by apply (wide 32)]
        | unfold pick; case_match; by apply wrap_id ].
Ltac lane_fact := intros; counts; cbv beta; split; [in_range|one_lane].
Ltac mask_fact := intros; first [reflexivity | by apply pw_eq | by rewrite pw_eq].
Ltac bit_fact :=
  intros a b Ha Hb; split; [by first [apply land_ok | apply lor_ok | apply lxor_ok]; try apply not_ok|]; intros i Hi;
  rewrite !lane_bit by lia; rewrite ?Z.land_spec, ?Z.lor_spec, ?Z.lxor_spec, ?not_bit by done;
  by destruct (Z.testbit a i), (Z.testbit b i).
Ltac arms := cbv beta delta [exec_simd_compute exec_simd_lane exec_simd_bit exec_simd_iarith exec_simd_icmp exec_simd_iarith2
  exec_simd_farith exec_simd_fcmp exec_simd_cvt exec_simd_relaxed] iota.
Ltac replaced Hsimd :=
  eapply (meets_replace Hsimd); [..|eassumption]; [| |arrays|..]; [arrays|arrays|arrays|intros; by first [apply wrap_sgn_id | apply wrap_id]|..].
Ltac extracted Hsimd enc :=
  eapply (meets_extract Hsimd); [| | |eassumption|done|apply enc|]; [| |arrays|]; [arrays|arrays|]; intros; first [done | by apply wrap_sgn].
Ltac low_zero :=
  match goal with _ : 2 ≤ ?i, _ : ?i < 4 |- _ => assert (i = 2 ∨ i = 3) as [->| ->] by lia; done | _ => lia end.
Ltac low Hsimd f :=
  lazymatch goal with
  | |- meets _ (ref_low_zero _ 32 _) => eapply (meets_low Hsimd _ _ _ _ 32 4 f _ _ (λ a b, [a; b; 0; 0]))
  | _ => eapply (meets_low Hsimd _ _ _ _ 64 2 f _ _ (λ a b, [a; b])) end;
  [arrays..|intros; reflexivity|intros; split_and!; [done..|intros ? ? ?; by low_zero]].
Ltac dotted Hsimd := eapply (meets_dot Hsimd _ _ _ _ _ _ (λ x y x' y', sgn _ (x * y + x' * y'))); [arrays..|intros; by apply wrap_sgn].
Ltac by_shape Hsimd :=
  lazymatch goal with
  | |- meets (v_binop _ _ _) _ => eapply (meets_binop Hsimd); [arrays..|lane_fact]
  | |- meets (v_unop _ _ _) _ => eapply (meets_unop Hsimd); [arrays..|lane_fact]
  | |- meets (v_shift _ _ _ _) _ => eapply (meets_shift Hsimd); [arrays..|lane_fact]
  | |- meets (v_cmp 16 _ _) _ => eapply (meets_cmp Hsimd 1); [arrays..|mask_fact]
  | |- meets (v_cmp 8 _ _) _ => eapply (meets_cmp Hsimd 2); [arrays..|mask_fact]
  | |- meets (v_cmp 4 _ _) _ => eapply (meets_cmp Hsimd 4); [arrays..|mask_fact]
  | |- meets (v_cmp 2 _ _) _ => eapply (meets_cmp Hsimd 8); [arrays..|mask_fact]
  | |- meets (v_extend _ _ _ _ _) _ => eapply (meets_extend Hsimd); [arrays..|lane_fact]
  | |- meets (v_extmul _ _ _ _ _) _ => eapply (meets_extmul Hsimd); [arrays..|lane_fact]
  | |- meets (v_extadd _ _ _ _) _ => eapply (meets_extadd Hsimd); [arrays..|lane_fact]
  | |- meets (v_narrow _ _ _ _) _ => eapply (meets_narrow Hsimd); [arrays..|lane_fact]
  | |- meets (v_all_true _) _ => eapply meets_all_true; arrays
  | |- meets (v_bitmask _) _ => eapply meets_bitmask; arrays
  | |- meets (bit_binop _) _ => apply (meets_bit2 Hsimd); bit_fact
  | |- meets (push_v128 _) _ => apply (meets_const Hsimd)
  | |- meets swizzle_body _ => apply (meets_swizzle Hsimd)
  | |- meets (fma_f32x4 _) _ => by apply (meets_fma32 Hsimd)
  | |- meets (fma_f64x2 _) _ => by apply (meets_fma64 Hsimd)
  | |- meets (splat _ (pop_as _) _) _ => eapply (meets_splat Hsimd); [arrays..|apply pops_as|by apply numeric_i32]
  | |- meets (splat _ pop_i32 _) _ => eapply (meets_splat Hsimd); [arrays..|apply pops_scalar|apply numeric_32]
  | |- meets (splat _ pop_i64 _) _ => eapply (meets_splat Hsimd); [arrays..|apply pops_scalar|apply numeric_64]
  | |- meets (splat _ pop_f32 _) _ => eapply (meets_splat Hsimd); [arrays..|apply pops_scalar|apply numeric_f32]
  | |- meets (splat _ pop_f64 _) _ => eapply (meets_splat Hsimd); [arrays..|apply pops_scalar|apply numeric_f64]
  | |- meets (replace (pop_as _) _ _ _) _ => replaced Hsimd; [apply pops_as|by apply numeric_i32]
  | |- meets (replace pop_i32 _ _ _) _ => replaced Hsimd; [apply pops_scalar|apply numeric_32]
  | |- meets (replace pop_i64 _ _ _) _ => replaced Hsimd; [apply pops_scalar|apply numeric_64]
  | |- meets (replace pop_f32 _ _ _) _ => replaced Hsimd; [apply pops_scalar|apply numeric_f32]
  | |- meets (replace pop_f64 _ _ _) _ => replaced Hsimd; [apply pops_scalar|apply numeric_f64]
  | |- meets (extract _ VI32) _ => extracted Hsimd encode_i32
  | |- meets (extract _ VI64) _ => extracted Hsimd encode_i64
  | |- meets (extract _ VF32) _ => extracted Hsimd encode_f32
  | |- meets (extract _ VF64) _ => extracted Hsimd encode_f64
  | |- meets (trunc_zero _) _ => unfold trunc_zero; lazymatch goal with |- meets _ (ref_low_zero _ _ ?f) => low Hsimd f end
  | |- meets (pop_v128 ≫= _) (ref_low_zero _ _ (λ x, f64_convert_i32_s _)) => low Hsimd f64_convert_i32_s
  | |- meets (pop_v128 ≫= _) (ref_low_zero _ _ ?f) => low Hsimd f
  | |- meets (pop_v128 ≫= _) (ref_un 1 _) => exact (meets_not Hsimd)
  | |- meets (pop_v128 ≫= _) (ref_tern 1 _) => exact (meets_select Hsimd)
  | |- meets (pop_v128 ≫= _) ref_any_true => exact meets_any_true
  | |- meets (pop_v128 ≫= _) ref_rdot_add => exact (meets_rdot_add Hsimd)
  | |- meets (pop_v128 ≫= _) (ref_dot _ _) => dotted Hsimd
  end.

Lemma simd_meets `{Features, FloatHost} s r : feat_simd = true → simd_ref s = Some r → meets (exec_simd_compute s) r.
Proof.
  intros Hsimd Hr. destruct s; cbn [simd_ref] in Hr; try discriminate Hr; try injection Hr as <-; arms; try by_shape Hsimd.
  - destruct (Z.leb_spec 0 bits), (Z.ltb_spec bits (2 ^ 128)); try discriminate Hr. injection Hr as <-. by apply meets_const.
  - by apply (meets_shuffle Hsimd).
Qed.
Lemma not_memory `{Features, FloatHost} code s r instance : simd_ref s = Some r → exec_simd_mem code s instance = mret false.
Proof. by destruct s. Qed.
(** Every instruction but the loads and stores has a reference, given that its immediates are
    those of a valid one. *)
Definition valid_lanes (s : SimdOp) : bool :=
  let within n l := (0 <=? l) && (l <? n) in
  match s with
  | SV128Const bits => within (2 ^ 128) bits
  | SI8x16ExtractLaneS l | SI8x16ExtractLaneU l | SI8x16ReplaceLane l => within 16 l
  | SI16x8ExtractLaneS l | SI16x8ExtractLaneU l | SI16x8ReplaceLane l => within 8 l
  | SI32x4ExtractLane l | SI32x4ReplaceLane l | SF32x4ExtractLane l | SF32x4ReplaceLane l => within 4 l
  | SI64x2ExtractLane l | SI64x2ReplaceLane l | SF64x2ExtractLane l | SF64x2ReplaceLane l => within 2 l
  | SI8x16Shuffle lanes => (zlen lanes =? 16) && forallb (within 32) lanes
  | _ => true
  end.
Definition on_memory (s : SimdOp) : bool :=
  match s with
  | SV128Load _ | SV128Store _ | SV128Load8x8S _ | SV128Load8x8U _ | SV128Load16x4S _ | SV128Load16x4U _
  | SV128Load32x2S _ | SV128Load32x2U _ | SV128Load8Splat _ | SV128Load16Splat _ | SV128Load32Splat _
  | SV128Load64Splat _ | SV128Load32Zero _ | SV128Load64Zero _ | SV128Load8Lane _ _ | SV128Load16Lane _ _
  | SV128Load32Lane _ _ | SV128Load64Lane _ _ | SV128Store8Lane _ _ | SV128Store16Lane _ _
  | SV128Store32Lane _ _ | SV128Store64Lane _ _ => true
  | _ => false
  end.
Lemma simd_ref_total `{Features, FloatHost} s : valid_lanes s = true → on_memory s = false → is_Some (simd_ref s).
Proof.
  destruct s; cbn [simd_ref valid_lanes on_memory]; try done; intros Hv _;
    unfold ref_extract, ref_replace, ref_shuffle;
    match goal with |- is_Some (if ?b then _ else _) => assert (b = true) as -> by exact Hv; by eexists | _ => by eexists end.
Qed.

(** C38: every vector instruction that does not access memory (234 of the 256) executes
    without a trap, an error or a panic on the operands it takes, whatever lies below them, and
    replaces them by a result whose lanes are those of its reference: integer lanes by
    arithmetic on unsigned numbers, the bitwise instructions bit by bit, the floating-point
    ones by the scalar operation on each lane, and the shapes that move, widen, narrow and
    reduce lanes. *)
Theorem simd_spec `{Features, FloatHost} code s instance :
  feat_simd = true → valid_lanes s = true → on_memory s = false →
  ∃ r, simd_ref s = Some r ∧ ∀ v vs ss args,
    length args = vr_arity r → scalars (vm_ex v) vs ss args → Forall vector_cell args →
    ∃ x, u_ok (8 * Z.of_nat (vr_bytes r)) x ∧
      exec_simd code s instance v = (Ok tt, set_vm_ex (leave vs ss [of_bytes (to_le_bytes (vr_bytes r) x)] (vm_ex v)) v) ∧
      ∀ i, 0 ≤ i < 8 * Z.of_nat (vr_bytes r) / vr_width r → lane (vr_width r) i x = vr_lane r (cell_v128 <$> args) i.
Proof.
  intros Hsimd Hv Hm. destruct (simd_ref_total s Hv Hm) as [r Hr]. exists r. split; [done|]. intros v vs ss args Ha Hs Hc.
  destruct (simd_meets s r Hsimd Hr args Ha Hc) as (x & Hx & Hrun & Hl). exists x. split; [done|]. split; [|done].
  unfold exec_simd. rewrite (not_memory code s r instance Hr). rewrite bind_unfold. cbn [mret M_ret].
  unfold on_ex, zoom. by rewrite (Hrun _ _ _ Hs).
Qed.

(** [i8x16.add] on lowest lanes of 200 and 100: the sum wraps to 44. *)
Definition vector_args : list Cell := [to_le_bytes 16 200; to_le_bytes 16 100].
Definition vector_demo : Vm := vm_demo {| ex_values := vector_args; ex_shadow := [TagNone; TagNone];
  ex_frames := [frame0 0 0 None]; ex_host_reentry_depth := 0 |}.
Lemma vector_demo_scalars : @scalars full_features (vm_ex vector_demo) [] [] vector_args.
Proof.
  split; [split; repeat constructor; vm_compute; intuition congruence|reflexivity..|].
  eexists. split; [reflexivity|vm_compute; congruence].
Qed.
Lemma simd_spec_witness :
  ∃ x, @exec_simd full_features canonical_host code_mem SI8x16Add handle_demo vector_demo =
      (Ok tt, set_vm_ex (leave [] [] [to_le_bytes 16 x] (vm_ex vector_demo)) vector_demo) ∧
    lane 8 0 x = 44.
Proof.
  destruct (@simd_spec full_features canonical_host code_mem SI8x16Add handle_demo) as (r & Hr & H); [reflexivity..|].
  injection Hr as <-. destruct (H vector_demo [] [] vector_args) as (x & _ & Hrun & Hl).
  - reflexivity.
  - exact vector_demo_scalars.
  - repeat constructor; vm_compute; intuition congruence.
  - exists x. split; [exact Hrun|]. etrans; [apply (Hl 0); vm_compute; intuition congruence|reflexivity].
Defined.
