(* ===== verification/Reserve.v ===== *)
(** * Reserve: the allocation reservation flow (src/src/exec/collect.rs, outcome.rs)

    Before an allocating instruction pops its operands it makes sure the heap's
    reservation covers the object: it may collect, may take from the
    pre-authorised budget, or suspends for the driver to grow the reservation
    through the limiter and then runs again.  The theorem here is that this flow
    makes progress: once a suspension is granted, the retried instruction fits. *)
From S2P Require Import Prelude Types Layout Codec Arena Heap Op Entity Store Collect Stack Limits Memory.
Open Scope Z_scope.

(** ** Outcomes (exec/outcome.rs) *)
Record CallReq : Type := { cr_return_ip : Z; cr_instance : Handle; cr_func_index : Z; cr_code : Code }.
Inductive ResolvedCall : Type :=
  | RcWasm (instance : Handle) (func_index : Z) (code : Code)
  | RcHost (f : Func)
  | RcHostAsync (f : Func).

(** What one [step] decided. *)
Inductive StepOutcome : Type :=
  | SoAdvance (next : Z)
  | SoCall (req : CallReq)
  | SoTailCall (req : CallReq)
  | SoTailHostCall (func : Func) (instance : Handle) (n_params : Z)
  | SoHostCall (func : Func) (instance : Handle) (return_ip : Z)
  | SoTailHostAsyncCall (func : Func) (instance : Handle) (n_params : Z)
  | SoHostAsyncCall (func : Func) (instance : Handle) (return_ip : Z)
  | SoGrow (memory : Handle) (delta return_ip : Z)
  | SoTableGrow (table : Handle) (delta : Z) (init : Ref) (return_ip : Z)
  | SoGcGrow (reserved_target bytes_needed return_ip : Z).

(** Why [run] returned. *)
Inductive Outcome : Type :=
  | OcFinished
  | OcHostAsync (func : Func) (instance : Handle)
  | OcFuelYield
  | OcEpochDeadline
  | OcGrow (memory : Handle) (delta : Z)
  | OcTableGrow (table : Handle) (delta : Z) (init : Ref)
  | OcGcGrow (reserved_target bytes_needed : Z).

Section reserve.
Context `{Features, EngineTypes}.

Definition gc_collect_now : SM Vm () :=
  roots ← reads (λ v, operand_roots (vm_ex v));
  on_store (gc_collect roots).

Definition gc_reserve (charge ip : Z) : SM Vm (option StepOutcome) :=
  v ← get;
  let h := si_gc (vm_store v) in
  if fits h charge then mret None else
  collected ← (if negb (is_free_grant h (desired_reservation h charge)) && gc_collecting h
               then gc_collect_now;; v ← get; mret (fits (si_gc (vm_store v)) charge)
               else mret false);
  if (collected : bool) then mret None else
  v ← get;
  let h := si_gc (vm_store v) in
  let target := desired_reservation h charge in
  if is_free_grant h target then on_store (gc_grant target);; mret None
  else mret (Some (SoGcGrow target charge ip)).

(** [count * stride], trapping on overflow. *)
Definition array_bytes (count stride : Z) : res Z :=
  ok_or (checked_mul usize_bits count stride) (ETrap AllocationTooLarge).
Definition seg_clamped_charge (count stride seg_bytes : Z) : Z :=
  match checked_mul usize_bits count stride with Some v => Z.min v seg_bytes | None => seg_bytes end.
(** The top operand as an unsigned element count. *)
Definition peek_count (ex : Execution) : res Z := wrap 32 <$> top_i32 ex.

Definition gc_alloc_charge (instance : Handle) (op : Op) (v : Vm) : res (option Z) :=
  inst ← store_instance (vm_store v) instance;
  let module := ie_module inst in
  data_len ← match op with
    | OpStructNew ty | OpStructNewDefault ty => Some <$> (sl_size <$> struct_layout module ty)
    | OpArrayNew ty | OpArrayNewDefault ty =>
        l ← array_layout module ty;
        count ← peek_count (vm_ex v);
        Some <$> array_bytes count (al_stride l)
    | OpArrayNewFixed ty n => (λ l, Some (body_size l n)) <$> array_layout module ty
    | OpArrayNewData ty data =>
        l ← array_layout module ty;
        dropped ← expect (zget (ie_dropped_data inst) data) "index out of bounds";
        seg ← (if (dropped : bool) then Ok 0
               else ds ← expect (zget (mi_datas module) data) "index out of bounds"; Ok (zlen (ds_bytes ds)));
        count ← peek_count (vm_ex v);
        Ok (Some (seg_clamped_charge count (al_stride l) seg))
    | OpArrayNewElem ty elem =>
        l ← array_layout module ty;
        refs ← expect (zget (ie_elems inst) elem) "index out of bounds";
        count ← peek_count (vm_ex v);
        Ok (Some (seg_clamped_charge count (al_stride l) (saturating_mul usize_bits (zlen refs) (al_stride l))))
    | _ => Ok None
    end;
  Ok (object_charge <$> data_len).
End reserve.

(** ** Progress *)
Section progress.
Context `{Features, EngineTypes}.

(** The heap's counters are machine integers, and the collector can run. *)
Record reservable (charge : Z) (s : StoreInner) : Prop := {
  rv_charge : 0 ≤ charge;
  rv_used : 0 ≤ gc_used (si_gc s);
  rv_fits : gc_used (si_gc s) + charge < 2 ^ 64;
  rv_reserved : 0 ≤ gc_reserved (si_gc s);
  rv_next : 0 ≤ gc_next_grow (si_gc s);
  rv_managed : managed_wf s;
  rv_marks : gc_marks (si_gc s) = [];
  rv_account : account_exact s;
}.

Lemma account_nonneg s : account_exact s → 0 ≤ gc_used (si_gc s).
Proof.
  intros ->. pose proof (live_bytes_nonneg (gc_slots (si_gc s))).
  pose proof (arena_bytes_nonneg _ (ra_slots (si_externrefs s)) extern_bytes_nonneg).
  pose proof (arena_bytes_nonneg _ (ra_slots (si_exns s)) exn_bytes_nonneg). lia.
Qed.

Lemma gc_collect_reservable charge roots s s' :
  reservable charge s → gc_collecting (si_gc s) = true → gc_collect roots s = (Ok tt, s') →
  reservable charge s' ∧ gc_budget (si_gc s') = gc_budget (si_gc s).
Proof.
  intros [] Hc. unfold gc_collect. destruct (collect roots s) as [[r s1]|] eqn:Hcol; [|done]. intros [= -> ->].
  apply collect_ok in Hcol as []; [|done..]. destruct co_budget as [Hb Hu]. split; [|done].
  injection Hb as H1 H2 H3 H4. pose proof (account_nonneg _ co_account). split; (done || lia || congruence).
Qed.

Lemma not_fits charge s : reservable charge s → fits (si_gc s) charge = false →
  gc_reserved (si_gc s) < gc_used (si_gc s) + charge.
Proof.
  intros []. unfold fits, checked_add. rewrite (proj2 (Z.ltb_lt _ _)) by done. by intros ?%Z.leb_gt.
Qed.

Lemma granted_fits charge s : reservable charge s →
  fits (snd (grant (desired_reservation (si_gc s) charge) (si_gc s))) charge = true.
Proof.
  intros []. destruct (grant _ _) as [added h'] eqn:Hg.
  by destruct (grant_desired _ _ _ _ rv_charge0 rv_used0 rv_reserved0 rv_next0 rv_fits0 Hg).
Qed.
Lemma desired_above charge s : reservable charge s → fits (si_gc s) charge = false →
  gc_reserved (si_gc s) < desired_reservation (si_gc s) charge.
Proof.
  intros Hr Hf. pose proof (not_fits _ _ Hr Hf). destruct Hr.
  unfold desired_reservation, saturating_add. lia.
Qed.

(** The decision after a possible collection. *)
Lemma gc_reserve_tail charge ip v o v' :
  reservable charge (vm_store v) →
  (let h := si_gc (vm_store v) in
   let target := desired_reservation h charge in
   if is_free_grant h target then on_store (gc_grant target);; mret None
   else mret (Some (SoGcGrow target charge ip))) v = (Ok o, v') →
  vm_ex v' = vm_ex v ∧
  match o with
  | None => fits (si_gc (vm_store v')) charge = true
  | Some out => out = SoGcGrow (desired_reservation (si_gc (vm_store v)) charge) charge ip ∧ v' = v
  end.
Proof.
  intros Hr. cbn zeta. destruct (is_free_grant _ _).
  - unfold on_store, zoom, gc_grant, modify. rewrite bind_unfold. intros [= <- <-]. split; [done|]. by apply granted_fits.
  - by intros [= <- <-].
Qed.

(** C34: the reservation flow makes progress and never touches the operands.  When
    [gc_reserve] lets the instruction go on, the object fits the reservation.  When
    it suspends instead, it does so with this charge and this instruction, for a
    target beyond the pre-authorised budget; and once the driver has grown the
    reservation to that target, the retried instruction goes on at once.  If the
    limiter refuses, the store is as it was and the error names the charge. *)
Theorem gc_reserve_progress {L} `{ResourceLimiter L} charge ip v o v' :
  reservable charge (vm_store v) → gc_reserve charge ip v = (Ok o, v') →
  vm_ex v' = vm_ex v ∧
  match o with
  | None => fits (si_gc (vm_store v')) charge = true
  | Some out => ∃ target, out = SoGcGrow target charge ip ∧ gc_reservation (si_gc (vm_store v')) < target ∧
      ∀ (st st' : StoreT L) r, st_inner st = vm_store v' → grow_gc_reservation target charge st = (r, st') →
      match r with
      | Ok _ => gc_reserve charge ip {| vm_ex := vm_ex v; vm_store := st_inner st' |}
                = (Ok None, {| vm_ex := vm_ex v; vm_store := st_inner st' |})
      | Err e => st_inner st' = st_inner st
      | Panic _ => True
      end
  end.
Proof.
  intros Hr Hrun.
  assert (∀ v1, reservable charge (vm_store v1) → fits (si_gc (vm_store v1)) charge = false →
    (let h := si_gc (vm_store v1) in
     let target := desired_reservation h charge in
     if is_free_grant h target then on_store (gc_grant target);; mret None
     else mret (Some (SoGcGrow target charge ip))) v1 = (Ok o, v') → vm_ex v1 = vm_ex v →
    vm_ex v' = vm_ex v ∧ match o with
    | None => fits (si_gc (vm_store v')) charge = true
    | Some out => ∃ target, out = SoGcGrow target charge ip ∧ gc_reservation (si_gc (vm_store v')) < target ∧
      ∀ (st st' : StoreT L) r, st_inner st = vm_store v' → grow_gc_reservation target charge st = (r, st') →
      match r with
      | Ok _ => gc_reserve charge ip {| vm_ex := vm_ex v; vm_store := st_inner st' |}
                = (Ok None, {| vm_ex := vm_ex v; vm_store := st_inner st' |})
      | Err e => st_inner st' = st_inner st
      | Panic _ => True
      end end) as Hend.
  { intros v1 Hr1 Hf1 Ht Hex. pose proof (gc_reserve_tail _ _ _ _ _ Hr1 Ht) as [Hex' Ho]. split; [congruence|].
    destruct o as [out|]; [|done]. destruct Ho as [-> ->]. eexists. split; [done|].
    split.
    { cbn zeta in Ht. destruct (is_free_grant _ _) eqn:Hfree in Ht; [done|]. by apply Z.leb_gt in Hfree. }
    intros st st' r Hst Hgrow. unfold grow_gc_reservation in Hgrow.
    rewrite (reads_Ok (λ st, Ok (gc_reserved (si_gc (st_inner st)))) _ st _ eq_refl), Hst in Hgrow.
    pose proof (desired_above _ _ Hr1 Hf1). rewrite (proj2 (Z.leb_gt _ _)) in Hgrow by done.
    rewrite bind_unfold in Hgrow. destruct (with_sync_limiter _ st) as [q st1] eqn:Hq.
    apply with_sync_data in Hq as [d ->]. destruct q as [q|e|w]; [|by injection Hgrow as <- <-..].
    destruct (default _ q).
    - injection Hgrow as <- <-. pose proof (granted_fits _ _ Hr1) as Hg. rewrite <- Hst in Hg at 2.
      unfold gc_reserve. rewrite get_run. cbn [vm_store st_inner set_st_inner set_st_data si_gc set_si_gc].
      unfold grant in Hg. cbn [snd] in Hg. by rewrite Hg.
    - by injection Hgrow as <- <-. }
  unfold gc_reserve in Hrun. rewrite get_run in Hrun.
  destruct (fits (si_gc (vm_store v)) charge) eqn:Hf; [by injection Hrun as <- <-|].
  rewrite bind_unfold in Hrun. destruct (negb _ && _) eqn:Hc in Hrun.
  - apply andb_prop in Hc as [_ Hc]. rewrite bind_unfold in Hrun. unfold gc_collect_now, reads, on_store, zoom in Hrun.
    rewrite bind_unfold in Hrun. destruct (operand_roots (vm_ex v)) as [roots|e|w]; [|done..].
    destruct (gc_collect roots (vm_store v)) as [[[]|e|w] s1] eqn:Hcol; [|done..].
    rewrite get_run in Hrun. cbn [vm_store set_vm_store] in Hrun.
    destruct (gc_collect_reservable _ _ _ _ Hr Hc Hcol) as [Hr1 _].
    cbn in Hrun. destruct (fits (si_gc s1) charge) eqn:Hf1; [by injection Hrun as <- <-|].
    by apply (Hend (set_vm_store s1 v)).
  - by apply (Hend v).
Qed.
End progress.

(** ** A concrete flow *)

(** A store whose budget is exhausted: nothing reserved, nothing pre-authorised. *)
Definition tight_store : StoreInner :=
  set_si_gc {| gc_slots := []; gc_generations := []; gc_free := []; gc_used := 0; gc_reserved := 0; gc_reservation := 0;
               gc_next_grow := RESERVE_BATCH; gc_marks := []; gc_collecting := true |} (store_new 1 true 0).
Definition tight_vm : Vm := {| vm_ex := ex_base; vm_store := tight_store |}.

Definition tight_typed : StoreT StoreLimits :=
  {| st_inner := tight_store; st_exec_slot := execution_default; st_limiter := None; st_data := store_limits_default |}.

Lemma gc_reserve_progress_witness :
  (@gc_reserve witness_types 100 7 tight_vm).1 = Ok (Some (SoGcGrow RESERVE_BATCH 100 7)) ∧
  let st' := snd (@grow_gc_reservation StoreLimits StoreLimits_limiter RESERVE_BATCH 100 tight_typed) in
  (@gc_reserve witness_types 100 7 {| vm_ex := ex_base; vm_store := st_inner st' |}).1 = Ok None.
Proof.
  assert (reservable 100 tight_store) as Hr.
  { split; try (vm_compute; congruence).
    constructor; [constructor; [apply (heap_wf_new true 0)|done]|apply (managed_wf_new 1 true 0)..]. }
  split; [reflexivity|].
  destruct (@gc_reserve_progress witness_types StoreLimits StoreLimits_limiter 100 7 tight_vm
    (Some (SoGcGrow RESERVE_BATCH 100 7)) tight_vm Hr eq_refl) as [_ (target & [= <-] & Hlt & Hp)].
  destruct (grow_gc_reservation RESERVE_BATCH 100 tight_typed) as [r st'] eqn:Hg.
  specialize (Hp tight_typed st' r eq_refl Hg). destruct r as [[]|e|w].
  - cbn [snd]. change (vm_ex tight_vm) with ex_base in Hp. by rewrite Hp.
  - exfalso. revert Hg. vm_compute. discriminate.
  - exfalso. revert Hg. vm_compute. discriminate.
Defined.
