(* ===== verification/Keys.v ===== *)
(** * Keys: the canonical, position-independent type form (src/src/canon/keys.rs)

    A recursion group is hash-consed by its key: the members' bodies with
    sibling references relative and every other reference an engine-canonical
    id.  The file holds the key data, the conversions into it from the module IR
    and from public types, the conversion back, and the ids a key references
    outside its group. *)
From S2P Require Import Prelude Types.
Open Scope Z_scope.

(** ** Key data *)
Inductive CanonRef : Type := CrRel (p : Z) | CrCanon (id : Z).
Inductive CHeap : Type := ChAbs (c : Z) | ChConcrete (kind : AggKind) (r : CanonRef).
Inductive CVal : Type := CvNum (c : Z) | CvRef (nullable : bool) (heap : CHeap).
Inductive CStore : Type := CsPacked (c : Z) | CsVal (v : CVal).
Record CField : Type := { cf_mutable : bool; cf_storage : CStore }.
Inductive CBody : Type :=
  | CbFunc (params results : list CVal)
  | CbStruct (fields : list CField)
  | CbArray (field : CField).
Record CType : Type := { ct_finality : Finality; ct_supertype : option CanonRef; ct_body : CBody }.
Definition CGroup : Type := list CType.

(** The derived [Eq] and [Hash] of a key. *)
#[export] Instance CanonRef_eq_dec : EqDecision CanonRef.
Proof. solve_decision. Defined.
#[export] Instance CHeap_eq_dec : EqDecision CHeap.
Proof. solve_decision. Defined.
#[export] Instance CVal_eq_dec : EqDecision CVal.
Proof. solve_decision. Defined.
#[export] Instance CStore_eq_dec : EqDecision CStore.
Proof. solve_decision. Defined.
#[export] Instance CField_eq_dec : EqDecision CField.
Proof. solve_decision. Defined.
#[export] Instance CBody_eq_dec : EqDecision CBody.
Proof. solve_decision. Defined.
#[export] Instance CType_eq_dec : EqDecision CType.
Proof. solve_decision. Defined.

#[export] Instance AggKind_countable : Countable AggKind.
Proof.
  refine (inj_countable'
  (λ k, match k with AggFunc => 0%nat | AggStruct => 1%nat | AggArray => 2%nat end)
  (λ n, match n with 0%nat => AggFunc | 1%nat => AggStruct | _ => AggArray end) _).
  by intros [].
Defined.
#[export] Instance Finality_countable : Countable Finality.
Proof.
  refine (inj_countable'
  (λ f, match f with Final => true | NonFinal => false end) (λ b : bool, if b then Final else NonFinal) _).
  by intros [].
Defined.
#[export] Instance CanonRef_countable : Countable CanonRef.
Proof.
  refine (inj_countable'
  (λ r, match r with CrRel p => inl p | CrCanon id => inr id end)
  (λ s, match s with inl p => CrRel p | inr id => CrCanon id end) _).
  by intros [].
Defined.
#[export] Instance CHeap_countable : Countable CHeap.
Proof.
  refine (inj_countable'
  (λ h, match h with ChAbs c => inl c | ChConcrete k r => inr (k, r) end)
  (λ s, match s with inl c => ChAbs c | inr (k, r) => ChConcrete k r end) _).
  by intros [].
Defined.
#[export] Instance CVal_countable : Countable CVal.
Proof.
  refine (inj_countable'
  (λ v, match v with CvNum c => inl c | CvRef n h => inr (n, h) end)
  (λ s, match s with inl c => CvNum c | inr (n, h) => CvRef n h end) _).
  by intros [].
Defined.
#[export] Instance CStore_countable : Countable CStore.
Proof.
  refine (inj_countable'
  (λ s, match s with CsPacked c => inl c | CsVal v => inr v end)
  (λ s, match s with inl c => CsPacked c | inr v => CsVal v end) _).
  by intros [].
Defined.
#[export] Instance CField_countable : Countable CField.
Proof.
  refine (inj_countable'
  (λ f, (cf_mutable f, cf_storage f)) (λ p, {| cf_mutable := p.1; cf_storage := p.2 |}) _).
  by intros [].
Defined.
#[export] Instance CBody_countable : Countable CBody.
Proof.
  refine (inj_countable'
  (λ b, match b with CbFunc p r => inl (p, r) | CbStruct fs => inr (inl fs) | CbArray f => inr (inr f) end)
  (λ s, match s with inl (p, r) => CbFunc p r | inr (inl fs) => CbStruct fs | inr (inr f) => CbArray f end) _).
  by intros [].
Defined.
#[export] Instance CType_countable : Countable CType.
Proof.
  refine (inj_countable'
  (λ t, (ct_finality t, ct_supertype t, ct_body t))
  (λ p, {| ct_finality := p.1.1; ct_supertype := p.1.2; ct_body := p.2 |}) _).
  by intros [].
Defined.

(** ** Module IR to key; [cref] translates a module-relative index *)
Definition ir_abs_code (h : IrHeap) : res Z :=
  match h with
  | IrFunc => Ok 0 | IrNoFunc => Ok 1 | IrExtern => Ok 2 | IrNoExtern => Ok 3
  | IrAny => Ok 4 | IrEq => Ok 5 | IrI31 => Ok 6 | IrStruct => Ok 7 | IrArray => Ok 8
  | IrExn => Ok 9 | IrNoExn => Ok 10 | IrNone => Ok 11
  | IrConcrete _ _ => Panic "concrete handled separately"
  end.

Section ir_keys.
Variable cref : Z → res CanonRef.
Definition heap_key (h : IrHeap) : res CHeap :=
  match h with
  | IrConcrete id kind => ChConcrete kind <$> cref id
  | other => ChAbs <$> ir_abs_code other
  end.
Definition val_key (v : IrVal) : res CVal :=
  match v with
  | IrI32 => Ok (CvNum 0) | IrI64 => Ok (CvNum 1) | IrF32 => Ok (CvNum 2) | IrF64 => Ok (CvNum 3)
  | IrV128 => Ok (CvNum 4)
  | IrRefTy nullable heap => CvRef nullable <$> heap_key heap
  end.
Definition field_key (f : IrField) : res CField :=
  storage ← match f_storage f with
            | IrSI8 => Ok (CsPacked 0)
            | IrSI16 => Ok (CsPacked 1)
            | IrSVal v => CsVal <$> val_key v
            end;
  Ok {| cf_mutable := f_mutable f; cf_storage := storage |}.
Definition body_key (b : CompositeBody) : res CBody :=
  match b with
  | CompFunc params results => p ← mapM val_key params; r ← mapM val_key results; Ok (CbFunc p r)
  | CompStruct fields => CbStruct <$> mapM field_key fields
  | CompArray f => CbArray <$> field_key f
  end.
(** One member of a key: the closure of [build_key] and [intern_host_group]. *)
Definition type_key (t : ModuleType) : res CType :=
  st ← match mt_supertype t with Some s => Some <$> cref s | None => Ok None end;
  b ← body_key (mt_body t);
  Ok {| ct_finality := mt_finality t; ct_supertype := st; ct_body := b |}.
End ir_keys.

(** ** Public host-built types to bodies: every reference is already canonical *)
Definition abs_code (h : HeapType) : Z :=
  match h with
  | HtFunc => 0 | HtNoFunc => 1 | HtExtern => 2 | HtNoExtern => 3 | HtAny => 4 | HtEq => 5 | HtI31 => 6
  | HtStruct => 7 | HtArray => 8 | HtExn => 9 | HtNoExn => 10 | _ => 11
  end.
Definition pub_heap (h : HeapType) : CHeap :=
  match h with
  | HtConcreteFunc id => ChConcrete AggFunc (CrCanon id)
  | HtConcreteStruct id => ChConcrete AggStruct (CrCanon id)
  | HtConcreteArray id => ChConcrete AggArray (CrCanon id)
  | other => ChAbs (abs_code other)
  end.
Definition pub_val (v : ValType) : CVal :=
  match v with
  | TI32 => CvNum 0 | TI64 => CvNum 1 | TF32 => CvNum 2 | TF64 => CvNum 3 | TV128 => CvNum 4
  | TRef rt => CvRef (rt_nullable rt) (pub_heap (rt_heap rt))
  end.
Definition pub_field (f : FieldType) : CField :=
  {| cf_mutable := ft_mutable f;
     cf_storage := match ft_element f with
                   | StI8 => CsPacked 0 | StI16 => CsPacked 1 | StValType v => CsVal (pub_val v)
                   end |}.
Definition func_body (params results : list ValType) : CBody := CbFunc (pub_val <$> params) (pub_val <$> results).
Definition struct_body (fields : list FieldType) : CBody := CbStruct (pub_field <$> fields).
Definition array_body (field : FieldType) : CBody := CbArray (pub_field field).

(** ** Resolution of relative references *)
Definition resolve (r : CanonRef) (members : list Z) : res Z :=
  match r with CrRel p => expect (zget members p) "index out of bounds" | CrCanon c => Ok c end.
Section resolve.
Variable members : list Z.
Definition resolve_val (v : CVal) : res CVal :=
  match v with
  | CvRef n (ChConcrete k r) => (λ c, CvRef n (ChConcrete k (CrCanon c))) <$> resolve r members
  | other => Ok other
  end.
Definition resolve_field (f : CField) : res CField :=
  (λ s, {| cf_mutable := cf_mutable f; cf_storage := s |}) <$>
  match cf_storage f with CsVal v => CsVal <$> resolve_val v | CsPacked c => Ok (CsPacked c) end.
Definition resolve_body (b : CBody) : res CBody :=
  match b with
  | CbFunc p r => p' ← mapM resolve_val p; r' ← mapM resolve_val r; Ok (CbFunc p' r')
  | CbStruct fs => CbStruct <$> mapM resolve_field fs
  | CbArray f => CbArray <$> resolve_field f
  end.
End resolve.

Definition body_kind (b : CBody) : AggKind :=
  match b with CbFunc _ _ => AggFunc | CbStruct _ => AggStruct | CbArray _ => AggArray end.

(** ** Decoding the compact codes *)
Definition num_decode (c : Z) : ValType :=
  match c with 0 => TI32 | 1 => TI64 | 2 => TF32 | 3 => TF64 | _ => TV128 end.
Definition abs_decode (c : Z) : HeapType :=
  match c with
  | 0 => HtFunc | 1 => HtNoFunc | 2 => HtExtern | 3 => HtNoExtern | 4 => HtAny | 5 => HtEq | 6 => HtI31
  | 7 => HtStruct | 8 => HtArray | 9 => HtExn | 10 => HtNoExn | _ => HtNone
  end.

(** ** The canonical ids a key references outside its group *)
Definition val_canon_id (v : CVal) : list Z :=
  match v with CvRef _ (ChConcrete _ (CrCanon id)) => [id] | _ => [] end.
Definition field_canon_id (f : CField) : list Z :=
  match cf_storage f with CsVal v => val_canon_id v | CsPacked _ => [] end.
Definition body_canon_ids (b : CBody) : list Z :=
  match b with
  | CbFunc p r => (p ++ r) ≫= val_canon_id
  | CbStruct fields => fields ≫= field_canon_id
  | CbArray f => field_canon_id f
  end.
Definition type_canon_ids (ct : CType) : list Z :=
  match ct_supertype ct with Some (CrCanon id) => [id] | _ => [] end ++ body_canon_ids (ct_body ct).
Definition edge_canon_ids (key : CGroup) : list Z := key ≫= type_canon_ids.
