(* ===== verification/Registry.v ===== *)
(** * Registry: the engine's canonical type registry (src/src/canon/registry.rs,
    materialize.rs; the handle types of src/src/value/types.rs, gc_type.rs)

    Recursion groups are hash-consed by key to canonical type ids, counted per
    group and reclaimed when the last registration goes; a group keeps alive the
    groups it references.  [reg_wf] is the registry's invariant relative to the
    registrations held outside (by modules, handles and stores).  The theorems:
    a module's types read back as their materialised IR, declared subtyping is
    the reflexive-transitive closure of the supertype relation, and the counts
    are exact, so no release fails and nothing outlives its last registration. *)
From stdpp Require Import relations sorting.
From S2P Require Import Prelude Types Keys.
Open Scope Z_scope.

(** ** State *)
Record CanonType : Type := {
  ck_kind : AggKind;
  ck_finality : Finality;
  ck_supertype : option Z;
  ck_body : CBody;
}.
Record GroupRecord : Type := { gr_key : CGroup; gr_members : list Z; gr_refcount : Z }.
Record TypeRegistry : Type := {
  tr_types : list (option CanonType);
  tr_type_to_group : list (option Z);
  tr_free_types : list Z;
  tr_groups : list (option GroupRecord);
  tr_free_groups : list Z;
  tr_interned : gmap CGroup Z;
}.
Definition registry_default : TypeRegistry :=
  {| tr_types := []; tr_type_to_group := []; tr_free_types := []; tr_groups := [];
     tr_free_groups := []; tr_interned := ∅ |}.

Definition set_tr_arena types t2g free (tr : TypeRegistry) : TypeRegistry :=
  {| tr_types := types; tr_type_to_group := t2g; tr_free_types := free; tr_groups := tr_groups tr;
     tr_free_groups := tr_free_groups tr; tr_interned := tr_interned tr |}.
Definition set_tr_groups groups (tr : TypeRegistry) : TypeRegistry :=
  {| tr_types := tr_types tr; tr_type_to_group := tr_type_to_group tr; tr_free_types := tr_free_types tr;
     tr_groups := groups; tr_free_groups := tr_free_groups tr; tr_interned := tr_interned tr |}.
Definition set_tr_free_groups free (tr : TypeRegistry) : TypeRegistry :=
  {| tr_types := tr_types tr; tr_type_to_group := tr_type_to_group tr; tr_free_types := tr_free_types tr;
     tr_groups := tr_groups tr; tr_free_groups := free; tr_interned := tr_interned tr |}.
Definition set_tr_interned interned (tr : TypeRegistry) : TypeRegistry :=
  {| tr_types := tr_types tr; tr_type_to_group := tr_type_to_group tr; tr_free_types := tr_free_types tr;
     tr_groups := tr_groups tr; tr_free_groups := tr_free_groups tr; tr_interned := interned |}.

(** [v.get(i).and_then(Option::as_ref)] *)
Definition zentry {A} (l : list (option A)) (i : Z) : option A := mjoin (zget l i).
Definition registered_type (tr : TypeRegistry) (id : Z) : option CanonType := zentry (tr_types tr) id.
Definition live_group (tr : TypeRegistry) (g : Z) : option GroupRecord := zentry (tr_groups tr) g.
Definition group_of (tr : TypeRegistry) (id : Z) : option Z := zentry (tr_type_to_group tr) id.

(** ** Queries *)

(** The [while let] of [is_subtype]: [None] when [fuel] steps do not finish. *)
Fixpoint is_subtype_go (fuel : nat) (tr : TypeRegistry) (cur : option Z) (sup : Z) : option bool :=
  match fuel with
  | O => None
  | S fuel' =>
      match cur with
      | None => Some false
      | Some id =>
          if id =? sup then Some true
          else is_subtype_go fuel' tr (ty ← registered_type tr id; ck_supertype ty) sup
      end
  end.
Definition is_subtype (tr : TypeRegistry) (sub sup : Z) : option bool :=
  is_subtype_go (2 + length (tr_types tr)) tr (Some sub) sup.

Definition type_kind (tr : TypeRegistry) (id : Z) : option AggKind := ck_kind <$> registered_type tr id.
Definition type_finality (tr : TypeRegistry) (id : Z) : option Finality := ck_finality <$> registered_type tr id.
Definition live_group_count (tr : TypeRegistry) : nat := size (tr_interned tr).

Definition registry_body (tr : TypeRegistry) (id : Z) : option CBody := ck_body <$> registered_type tr id.
Definition func_body_raw (tr : TypeRegistry) (id : Z) : option (list CVal * list CVal) :=
  b ← registry_body tr id; match b with CbFunc p r => Some (p, r) | _ => None end.
Definition struct_fields_raw (tr : TypeRegistry) (id : Z) : option (list CField) :=
  b ← registry_body tr id; match b with CbStruct fields => Some fields | _ => None end.
Definition array_field_raw (tr : TypeRegistry) (id : Z) : option CField :=
  b ← registry_body tr id; match b with CbArray f => Some f | _ => None end.

(** ** Reference counts *)
Definition set_refcount (n : Z) (rec : GroupRecord) : GroupRecord :=
  {| gr_key := gr_key rec; gr_members := gr_members rec; gr_refcount := n |}.
Definition put_group (g : Z) (o : option GroupRecord) (tr : TypeRegistry) : TypeRegistry :=
  set_tr_groups (<[Z.to_nat g := o]> (tr_groups tr)) tr.

Definition incref_group (g : Z) : SM TypeRegistry () :=
  rec ← reads (λ tr, expect (live_group tr g) "type owner must reference a live group");
  n ← lift (expect (checked_add 32 (gr_refcount rec) 1) "type group reference count overflow");
  modify (put_group g (Some (set_refcount n rec))).

Definition clear_member (m : Z) : SM TypeRegistry () :=
  tr ← get;
  types ← lift (expect (zset (tr_types tr) m None) "index out of bounds");
  t2g ← lift (expect (zset (tr_type_to_group tr) m None) "index out of bounds");
  modify (set_tr_arena types t2g (tr_free_types tr ++ [m])).

(** [if let Some(og) = self.type_to_group[id.index()]] over the key's edges. *)
Definition edge_groups (tr : TypeRegistry) (ids : list Z) : res (list Z) :=
  omap id <$> mapM (λ id, expect (zget (tr_type_to_group tr) id) "index out of bounds") ids.

(** One iteration of [decref_group]'s worklist: the groups it pushes. *)
Definition decref_step (g : Z) : SM TypeRegistry (list Z) :=
  rec ← reads (λ tr, expect (live_group tr g) "type owner must release a live group");
  n ← lift (expect (checked_sub (gr_refcount rec) 1) "type group reference count underflow");
  modify (put_group g (Some (set_refcount n rec)));;
  if 0 <? n then mret [] else
  modify (put_group g None);;
  modify (λ tr, set_tr_interned (delete (gr_key rec) (tr_interned tr)) tr);;
  pushes ← reads (λ tr, edge_groups tr (edge_canon_ids (gr_key rec)));
  for_each (gr_members rec) clear_member;;
  modify (λ tr, set_tr_free_groups (tr_free_groups tr ++ [g]) tr);;
  mret pushes.
Fixpoint decref_loop (fuel : nat) (stack : list Z) : SM TypeRegistry () :=
  match fuel with
  | O => panic "decref_group: out of fuel"
  | S fuel' =>
      match vec_pop stack with
      | None => mret tt
      | Some (stack', g) => pushes ← decref_step g; decref_loop fuel' (stack' ++ pushes)
      end
  end.
(** Each iteration drops one registration: [g]'s, or an edge of a live group. *)
Definition edge_total (tr : TypeRegistry) : Z :=
  zsum (λ o, match o with Some rec => zlen (edge_canon_ids (gr_key rec)) | None => 0 end) (tr_groups tr).
Definition decref_group (g : Z) : SM TypeRegistry () := λ tr,
  decref_loop (2 + Z.to_nat (edge_total tr)) [g] tr.

Definition incref_type (id : Z) : SM TypeRegistry () :=
  g ← reads (λ tr, expect (group_of tr id) "type handle must reference a live canonical type");
  incref_group g.
Definition decref_type (id : Z) : SM TypeRegistry () :=
  g ← reads (λ tr, expect (group_of tr id) "type handle must reference a live canonical type");
  decref_group g.
Definition release (group_ids : list Z) : SM TypeRegistry () := for_each group_ids decref_group.

(** ** Interning *)
Definition alloc_group : SM TypeRegistry Z := λ tr,
  match vec_pop (tr_free_groups tr) with
  | Some (free', g) => (Ok g, set_tr_free_groups free' tr)
  | None => (Ok (wrap 32 (zlen (tr_groups tr))), set_tr_groups (tr_groups tr ++ [None]) tr)
  end.
Definition alloc_type : SM TypeRegistry Z := λ tr,
  match vec_pop (tr_free_types tr) with
  | Some (free', id) => (Ok id, set_tr_arena (tr_types tr) (tr_type_to_group tr) free' tr)
  | None => (Ok (wrap 32 (zlen (tr_types tr))),
             set_tr_arena (tr_types tr ++ [None]) (tr_type_to_group tr ++ [None]) (tr_free_types tr) tr)
  end.
Fixpoint alloc_types (len : nat) : SM TypeRegistry (list Z) :=
  match len with
  | O => mret []
  | S len' => id ← alloc_type; rest ← alloc_types len'; mret (id :: rest)
  end.

(** The stored form of a key's member: references absolute. *)
Definition resolve_type (members : list Z) (ct : CType) : res CanonType :=
  st ← match ct_supertype ct with Some r => Some <$> resolve r members | None => Ok None end;
  b ← resolve_body members (ct_body ct);
  Ok {| ck_kind := body_kind (ct_body ct); ck_finality := ct_finality ct; ck_supertype := st; ck_body := b |}.
Definition store_type (g : Z) (members : list Z) (pos : Z) (ct : CType) : SM TypeRegistry () :=
  m ← lift (expect (zget members pos) "index out of bounds");
  ty ← lift (resolve_type members ct);
  tr ← get;
  types ← lift (expect (zset (tr_types tr) m (Some ty)) "index out of bounds");
  t2g ← lift (expect (zset (tr_type_to_group tr) m (Some g)) "index out of bounds");
  modify (set_tr_arena types t2g (tr_free_types tr)).
Fixpoint store_types (g : Z) (members : list Z) (pos : Z) (key : CGroup) : SM TypeRegistry () :=
  match key with
  | [] => mret tt
  | ct :: key' => store_type g members pos ct;; store_types g members (pos + 1) key'
  end.
Definition pin_edge (id : Z) : SM TypeRegistry () :=
  og ← reads (λ tr, expect (zget (tr_type_to_group tr) id) "index out of bounds");
  match og with Some og => incref_group og | None => mret tt end.

Definition intern_new (key : CGroup) (len : Z) : SM TypeRegistry Z :=
  g ← alloc_group;
  members ← alloc_types (Z.to_nat len);
  store_types g members 0 key;;
  for_each (edge_canon_ids key) pin_edge;;
  tr ← get;
  groups ← lift (expect (zset (tr_groups tr) g (Some {| gr_key := key; gr_members := members; gr_refcount := 1 |}))
                   "index out of bounds");
  modify (set_tr_groups groups);;
  modify (λ tr, set_tr_interned (<[key := g]> (tr_interned tr)) tr);;
  mret g.
Definition intern_group (key : CGroup) (len : Z) : SM TypeRegistry Z := λ tr,
  match tr_interned tr !! key with
  | Some g => (incref_group g;; mret g) tr
  | None => intern_new key len tr
  end.

Definition group_members (g : Z) (tr : TypeRegistry) : res (list Z) :=
  gr_members <$> expect (live_group tr g) "just interned".

(** *** A module's types, group by group *)
Definition module_cref (base end_ : Z) (module_to_canon : list Z) (m : Z) : res CanonRef :=
  if (base <=? m) && (m <? end_) then Ok (CrRel (wrap 32 (m - base)))
  else CrCanon <$> expect (zget module_to_canon m) "index out of bounds".
Definition build_key (types : list ModuleType) (base end_ : Z) (module_to_canon : list Z) : res CGroup :=
  members ← expect (zslice types base end_) "slice index out of range";
  mapM (type_key (module_cref base end_ module_to_canon)) members.

(** The end of the group starting at [i]: the inner [while]. *)
Fixpoint group_run (group : Z) (types : list ModuleType) : nat :=
  match types with
  | t :: types' => if mt_group t =? group then S (group_run group types') else O
  | [] => O
  end.
Fixpoint intern_module_go (fuel : nat) (types : list ModuleType) (i : Z) (module_to_canon registered : list Z)
    : SM TypeRegistry (list Z * list Z) :=
  match fuel with
  | O => panic "intern_module: out of fuel"
  | S fuel' =>
      match zget types i with
      | None => mret (module_to_canon, registered)
      | Some t =>
          let end_ := i + Z.of_nat (group_run (mt_group t) (zdrop i types)) in
          key ← lift (build_key types i end_ module_to_canon);
          g ← intern_group key (end_ - i);
          canon ← reads (group_members g);
          ids ← lift (expect (zslice canon 0 (end_ - i)) "index out of bounds");
          m2c ← lift (expect (zsplice module_to_canon i ids) "index out of bounds");
          intern_module_go fuel' types end_ m2c (registered ++ [g])
      end
  end.
Definition intern_module (types : list ModuleType) : SM TypeRegistry (list Z * list Z) :=
  intern_module_go (S (length types)) types 0 (replicate (length types) (u_max 32)) [].

(** *** Host-built types *)
Definition intern_one (finality : Finality) (supertype : option Z) (body : CBody) : SM TypeRegistry (Z * Z) :=
  g ← intern_group [{| ct_finality := finality; ct_supertype := CrCanon <$> supertype; ct_body := body |}] 1;
  members ← reads (group_members g);
  id ← lift (expect (zget members 0) "index out of bounds");
  mret (id, g).
Definition intern_func (params results : list ValType) : SM TypeRegistry (Z * Z) :=
  intern_one Final None (func_body params results).
Definition intern_struct (finality : Finality) (supertype : option Z) (fields : list FieldType) : SM TypeRegistry (Z * Z) :=
  intern_one finality supertype (struct_body fields).
Definition intern_array (finality : Finality) (supertype : option Z) (field : FieldType) : SM TypeRegistry (Z * Z) :=
  intern_one finality supertype (array_body field).

Definition host_cref (n : Z) (externals : list Z) (mi : Z) : res CanonRef :=
  if mi <? n then Ok (CrRel mi) else CrCanon <$> expect (zget externals (mi - n)) "index out of bounds".
Definition intern_host_group (members : list ModuleType) (externals : list Z) : SM TypeRegistry (list Z * Z) :=
  let n := zlen members in
  key ← lift (mapM (type_key (host_cref n externals)) members);
  g ← intern_group key n;
  ids ← reads (group_members g);
  mret (ids, g).

(** ** Materialisation: a handle built from an id takes a registration *)
Definition from_id (id : Z) : SM TypeRegistry Z := incref_type id;; mret id.
Definition mat_heap (h : CHeap) : SM TypeRegistry HeapType :=
  match h with
  | ChAbs c => mret (abs_decode c)
  | ChConcrete kind (CrCanon id) =>
      id ← from_id id;
      mret match kind with
           | AggFunc => HtConcreteFunc id
           | AggStruct => HtConcreteStruct id
           | AggArray => HtConcreteArray id
           end
  | ChConcrete _ (CrRel _) => panic "stored bodies use absolute ids"
  end.
Definition mat_val (v : CVal) : SM TypeRegistry ValType :=
  match v with
  | CvNum c => mret (num_decode c)
  | CvRef nullable h => ht ← mat_heap h; mret (TRef {| rt_nullable := nullable; rt_heap := ht |})
  end.
Definition mat_field (f : CField) : SM TypeRegistry FieldType :=
  storage ← match cf_storage f with
            | CsPacked 0 => mret StI8
            | CsPacked _ => mret StI16
            | CsVal v => v ← mat_val v; mret (StValType v)
            end;
  mret {| ft_mutable := cf_mutable f; ft_element := storage |}.

Definition registry_func_sig (id : Z) : SM TypeRegistry (option (list ValType * list ValType)) :=
  raw ← gets (λ tr, func_body_raw tr id);
  match raw with
  | None => mret None
  | Some (p, r) => p ← mapM mat_val p; r ← mapM mat_val r; mret (Some (p, r))
  end.
Definition registry_struct_fields (id : Z) : SM TypeRegistry (option (list FieldType)) :=
  raw ← gets (λ tr, struct_fields_raw tr id);
  match raw with
  | None => mret None
  | Some fields => fields ← mapM mat_field fields; mret (Some fields)
  end.
Definition registry_array_field (id : Z) : SM TypeRegistry (option FieldType) :=
  raw ← gets (λ tr, array_field_raw tr id);
  match raw with
  | None => mret None
  | Some f => f ← mat_field f; mret (Some f)
  end.

(** ** Entries of slot vectors *)
Lemma zentry_Some {A} (l : list (option A)) i a : zentry l i = Some a ↔ zget l i = Some (Some a).
Proof. unfold zentry. destruct (zget l i) as [[]|]; naive_solver. Qed.
Lemma zentry_insert {A} (l : list (option A)) i j o :
  0 ≤ i < zlen l → zentry (<[Z.to_nat i := o]> l) j = if j =? i then o else zentry l j.
Proof.
  intros Hi. unfold zentry. destruct (Z.eqb_spec j i) as [->|].
  - rewrite zget_insert_eq by done. by destruct o.
  - by rewrite zget_insert_ne by lia.
Qed.
Lemma zentry_snoc_None {A} (l : list (option A)) j : zentry (l ++ [None]) j = zentry l j.
Proof.
  unfold zentry. destruct (Z.lt_ge_cases j (zlen l)).
  - by rewrite zget_app_l.
  - rewrite zget_app_r, (zget_None l) by lia.
    destruct (Z.eq_dec j (zlen l)) as [->|]; [by rewrite Z.sub_diag|].
    rewrite zget_None; [done|]. unfold zlen at 1; cbn. lia.
Qed.
Lemma zentry_elem {A} (l : list (option A)) (o : option A) : o ∈ l → ∃ i, 0 ≤ i < zlen l ∧ zget l i = Some o.
Proof.
  intros [i Hi]%list_elem_of_lookup. pose proof (lookup_lt_Some _ _ _ Hi).
  exists (Z.of_nat i). unfold zlen, zget. split; [lia|].
  destruct (Z.leb_spec 0 (Z.of_nat i)); [|lia]. by rewrite Nat2Z.id.
Qed.
Lemma zsum_insert {A} (f : A → Z) (l : list A) i x y :
  zget l i = Some x → zsum f (<[Z.to_nat i := y]> l) = zsum f l - f x + f y.
Proof.
  intros Hx. pose proof (zget_Some _ _ _ Hx) as Hi. unfold zget in Hx.
  destruct (Z.leb_spec 0 i); [|lia]. revert Hx. generalize (Z.to_nat i) as n. clear.
  induction l as [|z l IH]; intros [|n] Hx; simplify_eq/=; [lia|]. rewrite (IH _ Hx). lia.
Qed.

(** Occurrences of a group in a list of registrations. *)
Definition occ (g : Z) (l : list Z) : Z := zsum (λ x, if x =? g then 1 else 0) l.
Lemma occ_app g l k : occ g (l ++ k) = occ g l + occ g k.
Proof. apply zsum_app. Qed.
Lemma occ_bounds g l : 0 ≤ occ g l ≤ zlen l.
Proof.
  unfold occ. induction l as [|x l IH]; cbn; [done|]. rewrite zlen_cons. destruct (x =? g); lia.
Qed.
Lemma occ_pos g l : 0 < occ g l ↔ g ∈ l.
Proof.
  unfold occ. induction l as [|x l IH]; cbn; [split; [lia|by intros ?%not_elem_of_nil]|].
  rewrite elem_of_cons, <- IH. pose proof (occ_bounds g l). unfold occ in *.
  destruct (Z.eqb_spec x g); intuition (subst; try lia; auto).
Qed.
Lemma occ_perm g l k : l ≡ₚ k → occ g l = occ g k.
Proof. unfold occ. induction 1; cbn; lia. Qed.

(** ** The invariant *)
Definition owners (tr : TypeRegistry) (key : CGroup) : list Z := omap (group_of tr) (edge_canon_ids key).
Definition out_edges (tr : TypeRegistry) (g : Z) (o : option GroupRecord) : Z :=
  match o with Some rec => occ g (owners tr (gr_key rec)) | None => 0 end.
Definition in_edges (tr : TypeRegistry) (g : Z) : Z := zsum (out_edges tr g) (tr_groups tr).

(** A live group's members store its key, and its references are older live groups. *)
Record group_ok (rank : Z → Z) (tr : TypeRegistry) (g : Z) (rec : GroupRecord) : Prop := {
  go_len : zlen (gr_members rec) = zlen (gr_key rec);
  go_nodup : NoDup (gr_members rec);
  go_stored : ∀ p ct, zget (gr_key rec) p = Some ct → ∃ id ty,
    zget (gr_members rec) p = Some id ∧ resolve_type (gr_members rec) ct = Ok ty ∧
    registered_type tr id = Some ty;
  go_edges : ∀ id, id ∈ edge_canon_ids (gr_key rec) → ∃ og, group_of tr id = Some og ∧ rank og < rank g;
}.

Record reg_wf (rank : Z → Z) (held : list Z) (tr : TypeRegistry) : Prop := {
  rw_len : zlen (tr_type_to_group tr) = zlen (tr_types tr);
  rw_small : zlen (tr_types tr) ≤ 2 ^ 32 ∧ zlen (tr_groups tr) ≤ 2 ^ 32;
  rw_types : ∀ id, is_Some (registered_type tr id) ↔ is_Some (group_of tr id);
  rw_owner : ∀ id g, group_of tr id = Some g ↔ ∃ rec, live_group tr g = Some rec ∧ id ∈ gr_members rec;
  rw_group : ∀ g rec, live_group tr g = Some rec → group_ok rank tr g rec;
  rw_interned : ∀ key g, tr_interned tr !! key = Some g ↔ ∃ rec, live_group tr g = Some rec ∧ gr_key rec = key;
  rw_free_types : NoDup (tr_free_types tr) ∧ ∀ id, id ∈ tr_free_types tr ↔ zget (tr_types tr) id = Some None;
  rw_free_groups : NoDup (tr_free_groups tr) ∧ ∀ g, g ∈ tr_free_groups tr ↔ zget (tr_groups tr) g = Some None;
  rw_count : ∀ g rec, live_group tr g = Some rec →
    gr_refcount rec = occ g held + in_edges tr g ∧ 0 < gr_refcount rec;
  rw_held : ∀ g, g ∈ held → is_Some (live_group tr g);
}.

(** Registrations in existence: the held ones and the edges of live groups. *)
Definition registrations (held : list Z) (tr : TypeRegistry) : Z := zlen held + edge_total tr.

Lemma owners_length tr key : zlen (owners tr key) ≤ zlen (edge_canon_ids key).
Proof.
  unfold owners. induction (edge_canon_ids key) as [|id l IH]; [done|]. cbn [omap list_omap].
  rewrite zlen_cons. destruct (group_of tr id); [rewrite zlen_cons|]; lia.
Qed.
Lemma in_edges_bounds tr g : 0 ≤ in_edges tr g ≤ edge_total tr.
Proof.
  unfold in_edges, edge_total. induction (tr_groups tr) as [|[rec|] l IH]; cbn; [done| |lia].
  pose proof (occ_bounds g (owners tr (gr_key rec))). pose proof (owners_length tr (gr_key rec)). lia.
Qed.
Lemma edge_total_nonneg tr : 0 ≤ edge_total tr.
Proof. pose proof (in_edges_bounds tr 0). lia. Qed.

Lemma reg_wf_perm rank held held' tr : held ≡ₚ held' → reg_wf rank held tr → reg_wf rank held' tr.
Proof.
  intros Hp []. split; try done.
  - intros g rec Hg. rewrite <- (occ_perm g _ _ Hp). by apply rw_count0.
  - intros g Hg. apply rw_held0. by rewrite Hp.
Qed.

Lemma zentry_nil {A} i : zentry (@nil (option A)) i = None.
Proof. unfold zentry. by rewrite zget_nil. Qed.
Lemma reg_wf_default : reg_wf (λ _, 0) [] registry_default.
Proof.
  assert (∀ id, registered_type registry_default id = None) as Ht by (intros; apply zentry_nil).
  assert (∀ id, group_of registry_default id = None) as Ho by (intros; apply zentry_nil).
  assert (∀ g, live_group registry_default g = None) as Hg by (intros; apply zentry_nil).
  split; try (intros; split; [constructor|]).
  - done.
  - split; apply Z.pow_nonneg; lia.
  - intros id. rewrite Ht, Ho. done.
  - intros id g. rewrite Ho. setoid_rewrite Hg. naive_solver.
  - intros g rec. by rewrite Hg.
  - intros key g. setoid_rewrite Hg. cbn. rewrite lookup_empty. naive_solver.
  - intros id. cbn. rewrite zget_nil. set_solver.
  - intros id. cbn. rewrite zget_nil. set_solver.
  - intros g rec. by rewrite Hg.
  - set_solver.
Qed.

Lemma refcount_bound rank held tr g rec :
  reg_wf rank held tr → live_group tr g = Some rec → 0 < gr_refcount rec ≤ registrations held tr.
Proof.
  intros Hw Hg. destruct (rw_count _ _ _ Hw _ _ Hg) as [-> Hpos].
  pose proof (occ_bounds g held). pose proof (in_edges_bounds tr g). unfold registrations. lia.
Qed.

(** *** Replacing one group record *)
Lemma live_range tr g rec : live_group tr g = Some rec → 0 ≤ g < zlen (tr_groups tr).
Proof. by intros Hg%zentry_Some%zget_Some. Qed.
Lemma live_put tr g o g0 :
  0 ≤ g < zlen (tr_groups tr) → live_group (put_group g o tr) g0 = if g0 =? g then o else live_group tr g0.
Proof. intros. by apply zentry_insert. Qed.
Lemma in_edges_put tr g o o' g0 :
  zget (tr_groups tr) g = Some o →
  in_edges (put_group g o' tr) g0 = in_edges tr g0 - out_edges tr g0 o + out_edges tr g0 o'.
Proof. intros Ho. unfold in_edges, put_group. cbn [tr_groups set_tr_groups]. by apply (zsum_insert (out_edges tr g0)). Qed.
Lemma edge_total_put tr g o o' :
  zget (tr_groups tr) g = Some o →
  let edges o := match o with Some rec => zlen (edge_canon_ids (gr_key rec)) | None => 0 end in
  edge_total (put_group g o' tr) = edge_total tr - edges o + edges o'.
Proof. intros Ho edges. unfold edge_total, put_group. cbn [tr_groups set_tr_groups]. by rewrite (zsum_insert edges _ _ _ _ Ho). Qed.

(** Changing a group's count along with the held registrations. *)
Lemma reg_wf_recount rank held held' tr g rec n :
  reg_wf rank held tr → live_group tr g = Some rec →
  (∀ g0, g0 ≠ g → occ g0 held' = occ g0 held) → (∀ g0, g0 ∈ held' → g0 = g ∨ g0 ∈ held) →
  n - gr_refcount rec = occ g held' - occ g held → 0 < n →
  reg_wf rank held' (put_group g (Some (set_refcount n rec)) tr).
Proof.
  intros Hw Hg Hocc Hheld Hn Hpos. pose proof (live_range _ _ _ Hg) as Hr.
  set (tr' := put_group g _ tr).
  assert (∀ g0, in_edges tr' g0 = in_edges tr g0) as Hin.
  { intros g0. apply zentry_Some in Hg. unfold tr'. rewrite (in_edges_put _ _ _ _ _ Hg). cbn [out_edges set_refcount gr_key]. lia. }
  assert (∀ g0 rec0, live_group tr' g0 = Some rec0 → ∃ rec1, live_group tr g0 = Some rec1 ∧
    gr_key rec1 = gr_key rec0 ∧ gr_members rec1 = gr_members rec0) as Hback.
  { intros g0 rec0. unfold tr'. rewrite live_put by done.
    destruct (Z.eqb_spec g0 g) as [->|]; [|by eauto]. intros [= <-]. by exists rec. }
  assert (∀ g0 rec0, live_group tr g0 = Some rec0 → ∃ rec1, live_group tr' g0 = Some rec1 ∧
    gr_key rec1 = gr_key rec0 ∧ gr_members rec1 = gr_members rec0) as Hfwd.
  { intros g0 rec0 H0. unfold tr'. rewrite live_put by done.
    destruct (Z.eqb_spec g0 g) as [->|]; [|by eauto]. rewrite Hg in H0. injection H0 as <-. eexists. done. }
  destruct Hw. split; try done.
  - cbn. by rewrite zlen_insert.
  - intros id g0. change (group_of tr' id) with (group_of tr id). rewrite rw_owner0. split.
    + intros (r0 & H0 & Hm). destruct (Hfwd _ _ H0) as (r1 & H1 & _ & Hm1). exists r1. by rewrite Hm1.
    + intros (r0 & H0 & Hm). destruct (Hback _ _ H0) as (r1 & H1 & _ & Hm1). exists r1. by rewrite Hm1.
  - intros g0 rec0 H0. destruct (Hback _ _ H0) as (r1 & H1 & Hk & Hm).
    destruct (rw_group0 _ _ H1). split; by rewrite <- ?Hk, <- ?Hm.
  - intros key g0. change (tr_interned tr') with (tr_interned tr). rewrite rw_interned0. split.
    + intros (r0 & H0 & Hk). destruct (Hfwd _ _ H0) as (r1 & H1 & Hk1 & _). exists r1. by rewrite Hk1.
    + intros (r0 & H0 & Hk). destruct (Hback _ _ H0) as (r1 & H1 & Hk1 & _). exists r1. by rewrite Hk1.
  - destruct rw_free_groups0 as [Hnd Hfree]. split; [done|]. intros g0. cbn. rewrite Hfree.
    destruct (Z.eq_dec g0 g) as [->|].
    + rewrite zget_insert_eq by done. apply zentry_Some in Hg. by rewrite Hg.
    + by rewrite zget_insert_ne by lia.
  - intros g0 rec0. rewrite Hin. unfold tr'. rewrite live_put by done.
    destruct (Z.eqb_spec g0 g) as [->|Hne].
    + intros [= <-]. cbn. destruct (rw_count0 _ _ Hg). lia.
    + rewrite Hocc by done. apply rw_count0.
  - intros g0 H0. unfold tr'. rewrite live_put by done. destruct (Z.eqb_spec g0 g); [done|].
    apply rw_held0. by destruct (Hheld _ H0).
Qed.

(** ** Registering and releasing *)
Lemma set_refcount_twice n m rec : set_refcount n (set_refcount m rec) = set_refcount n rec.
Proof. done. Qed.

Lemma incref_run rank held tr g :
  reg_wf rank held tr → is_Some (live_group tr g) → registrations held tr < 2 ^ 32 - 1 →
  ∃ rec, live_group tr g = Some rec ∧
    incref_group g tr = (Ok tt, put_group g (Some (set_refcount (gr_refcount rec + 1) rec)) tr) ∧
    reg_wf rank (g :: held) (put_group g (Some (set_refcount (gr_refcount rec + 1) rec)) tr).
Proof.
  intros Hw [rec Hg] Hcap. exists rec. split; [done|].
  pose proof (refcount_bound _ _ _ _ _ Hw Hg). split.
  - unfold incref_group. rewrite bind_unfold. unfold reads. rewrite Hg. cbn [expect].
    unfold checked_add. destruct (Z.ltb_spec (gr_refcount rec + 1) (2 ^ 32)); [done|lia].
  - apply (reg_wf_recount rank held); try done.
    + intros g0 Hne. unfold occ. cbn. destruct (Z.eqb_spec g g0); [congruence|lia].
    + set_solver.
    + unfold occ. cbn. rewrite Z.eqb_refl. lia.
    + lia.
Qed.

Lemma in_cons (x y : Z) l : bool_decide (x ∈ y :: l) = (x =? y) || bool_decide (x ∈ l).
Proof.
  destruct (Z.eqb_spec x y) as [->|]; cbn.
  - apply bool_decide_eq_true. apply elem_of_cons. by left.
  - apply bool_decide_ext. rewrite elem_of_cons. tauto.
Qed.
(** Clearing a dead group's members. *)
Lemma clear_members ms tr :
  (∀ m, m ∈ ms → 0 ≤ m < zlen (tr_types tr)) → zlen (tr_type_to_group tr) = zlen (tr_types tr) →
  ∃ types t2g, for_each ms clear_member tr = (Ok tt, set_tr_arena types t2g (tr_free_types tr ++ ms) tr) ∧
    zlen types = zlen (tr_types tr) ∧ zlen t2g = zlen types ∧
    (∀ id, zget types id = if bool_decide (id ∈ ms) then Some None else zget (tr_types tr) id) ∧
    (∀ id, zentry t2g id = if bool_decide (id ∈ ms) then None else group_of tr id).
Proof.
  revert tr. induction ms as [|m ms IH]; intros tr Hms Hlen.
  { exists (tr_types tr), (tr_type_to_group tr). cbn. rewrite app_nil_r.
    split_and!; try done. by destruct tr. }
  cbn [for_each]. pose proof (Hms m ltac:(set_solver)) as Hm.
  assert (clear_member m tr = (Ok tt, set_tr_arena (<[Z.to_nat m := None]> (tr_types tr))
    (<[Z.to_nat m := None]> (tr_type_to_group tr)) (tr_free_types tr ++ [m]) tr)) as Hc.
  { unfold clear_member. rewrite get_run.
    rewrite (proj2 (zset_Some (tr_types tr) _ m None)) by done.
    rewrite (proj2 (zset_Some (tr_type_to_group tr) _ m None)) by (rewrite Hlen; done). done. }
  rewrite (bind_run _ _ _ _ _ Hc). clear Hc. set (tr1 := set_tr_arena _ _ _ tr).
  destruct (IH tr1) as (types & t2g & Hrun & Hl1 & Hl2 & Ht & Ho).
  { intros m' H'. cbn. rewrite zlen_insert. apply Hms. set_solver. }
  { cbn. by rewrite !zlen_insert. }
  exists types, t2g. rewrite Hrun. cbn in Hl1. rewrite zlen_insert in Hl1.
  split_and!; [by cbn; rewrite <- app_assoc|done|done|..].
  - intros id. rewrite Ht, in_cons. cbn [tr_types set_tr_arena tr1]. destruct (Z.eqb_spec id m) as [->|].
    + rewrite zget_insert_eq by done. by case_bool_decide.
    + rewrite zget_insert_ne by lia. done.
  - intros id. rewrite Ho, in_cons. unfold group_of. cbn [tr_type_to_group set_tr_arena tr1].
    rewrite zentry_insert by (by rewrite Hlen). destruct (id =? m); [by case_bool_decide|done].
Qed.

Lemma edge_groups_run tr ids :
  (∀ id, id ∈ ids → is_Some (group_of tr id)) → edge_groups tr ids = Ok (omap (group_of tr) ids).
Proof.
  unfold edge_groups. intros H.
  assert (mapM (M := result error) (λ id, expect (zget (tr_type_to_group tr) id) "index out of bounds") ids
          = Ok (group_of tr <$> ids)) as ->.
  { induction ids as [|id ids IH]; [done|]. cbn [mapM]. destruct (H id ltac:(set_solver)) as [g Hg].
    rewrite IH by set_solver. pose proof Hg as Hz. apply zentry_Some in Hz. rewrite Hz. cbn. by rewrite Hg. }
  cbn. f_equal. clear H. induction ids as [|id ids IH]; [done|]. cbn. by destruct (group_of tr id); rewrite IH.
Qed.
Lemma owners_full tr key :
  (∀ id, id ∈ edge_canon_ids key → is_Some (group_of tr id)) → zlen (owners tr key) = zlen (edge_canon_ids key).
Proof.
  unfold owners. induction (edge_canon_ids key) as [|id l IH]; intros H; [done|]. cbn [omap list_omap].
  destruct (H id ltac:(set_solver)) as [g ->]. rewrite !zlen_cons, IH; [done|set_solver].
Qed.

(** *** The state after the last registration of [g] goes, and what it releases *)
Section dead_group.
Variables (rank : Z → Z) (held : list Z) (tr : TypeRegistry) (g : Z) (rec : GroupRecord).
Variables (types : list (option CanonType)) (t2g : list (option Z)).
Hypothesis Hw : reg_wf rank (g :: held) tr.
Hypothesis Hg : live_group tr g = Some rec.
Hypothesis Hrc : gr_refcount rec = 1.
Hypothesis Hl1 : zlen types = zlen (tr_types tr).
Hypothesis Hl2 : zlen t2g = zlen types.
Hypothesis Ht : ∀ id, zget types id = if bool_decide (id ∈ gr_members rec) then Some None else zget (tr_types tr) id.
Hypothesis Ho : ∀ id, zentry t2g id = if bool_decide (id ∈ gr_members rec) then None else group_of tr id.
Let tr' := {| tr_types := types; tr_type_to_group := t2g; tr_free_types := tr_free_types tr ++ gr_members rec;
              tr_groups := <[Z.to_nat g := None]> (tr_groups tr); tr_free_groups := tr_free_groups tr ++ [g];
              tr_interned := delete (gr_key rec) (tr_interned tr) |}.

Lemma dead_live g0 : live_group tr' g0 = if g0 =? g then None else live_group tr g0.
Proof. apply zentry_insert. by apply (live_range _ _ rec). Qed.
Lemma dead_live_Some g0 r : live_group tr' g0 = Some r ↔ g0 ≠ g ∧ live_group tr g0 = Some r.
Proof. rewrite dead_live. destruct (Z.eqb_spec g0 g); naive_solver. Qed.
Lemma dead_occ : occ g held = 0 ∧ in_edges tr g = 0.
Proof.
  destruct (rw_count _ _ _ Hw _ _ Hg) as [Hcnt _]. rewrite Hrc in Hcnt.
  assert (occ g (g :: held) = 1 + occ g held) by (unfold occ; cbn; rewrite Z.eqb_refl; lia).
  pose proof (occ_bounds g held). pose proof (in_edges_bounds tr g). lia.
Qed.
(** No other group references [g]. *)
Lemma dead_noref g0 rec0 : live_group tr g0 = Some rec0 → g ∉ owners tr (gr_key rec0).
Proof.
  intros H0 Hel. apply occ_pos in Hel. destruct dead_occ as [_ Hin0]. unfold in_edges in Hin0.
  apply zentry_Some in H0. pose proof (zsum_insert (out_edges tr g) _ _ _ None H0) as Hz. cbn [out_edges] in Hz.
  assert (0 ≤ zsum (out_edges tr g) (<[Z.to_nat g0 := None]> (tr_groups tr))); [|lia].
  apply zsum_nonneg. intros [r|] _; cbn; [apply occ_bounds|lia].
Qed.
Lemma dead_member id : id ∈ gr_members rec → group_of tr id = Some g.
Proof. intros Hid. apply (rw_owner _ _ _ Hw). eauto. Qed.
Lemma dead_group_of id : group_of tr' id = if bool_decide (id ∈ gr_members rec) then None else group_of tr id.
Proof. apply Ho. Qed.
Lemma dead_keep g0 rec0 id :
  live_group tr g0 = Some rec0 → id ∈ edge_canon_ids (gr_key rec0) → group_of tr' id = group_of tr id.
Proof.
  intros H0 Hid. rewrite dead_group_of. case_bool_decide as Hm; [|done]. exfalso.
  apply (dead_noref _ _ H0). apply list_elem_of_omap. exists id. split; [done|]. by apply dead_member.
Qed.
Lemma dead_owners g0 rec0 : live_group tr g0 = Some rec0 → owners tr' (gr_key rec0) = owners tr (gr_key rec0).
Proof.
  intros H0. unfold owners. pose proof (λ id, dead_keep g0 rec0 id H0) as Hk.
  induction (edge_canon_ids (gr_key rec0)) as [|id l IH]; [done|]. cbn [omap list_omap].
  rewrite (Hk id), IH by set_solver. done.
Qed.
Lemma dead_in_edges g0 : in_edges tr' g0 = in_edges tr g0 - occ g0 (owners tr (gr_key rec)).
Proof.
  pose proof Hg as Hz. apply zentry_Some in Hz.
  transitivity (zsum (out_edges tr g0) (<[Z.to_nat g := None]> (tr_groups tr))).
  - apply zsum_ext. intros [r|] Hr0; [|done]. cbn [out_edges].
    apply zentry_elem in Hr0 as (i & Hi & Hgi).
    assert (live_group tr' i = Some r) as [_ Hri]%dead_live_Some by by apply zentry_Some.
    by rewrite (dead_owners _ _ Hri).
  - rewrite (zsum_insert (out_edges tr g0) _ _ _ None Hz). cbn [out_edges]. unfold in_edges. lia.
Qed.
Lemma dead_pushes g0 : g0 ∈ owners tr (gr_key rec) → g0 ≠ g ∧ is_Some (live_group tr g0).
Proof.
  intros (id & Hid & Hg0)%list_elem_of_omap.
  destruct (go_edges _ _ _ _ (rw_group _ _ _ Hw _ _ Hg) _ Hid) as (og & Hog & Hrank).
  rewrite Hg0 in Hog. injection Hog as <-. split; [intros ->; lia|].
  apply (rw_owner _ _ _ Hw) in Hg0 as (r & Hr0 & _). by exists r.
Qed.
Lemma dead_group_ok g0 rec0 : g0 ≠ g → live_group tr g0 = Some rec0 → group_ok rank tr' g0 rec0.
Proof.
  intros Hne H0. destruct (rw_group _ _ _ Hw _ _ H0) as [? ? Hst He]. split; try done.
  - intros p ct Hct. destruct (Hst _ _ Hct) as (id & ty & Hid & Hty & Hreg).
    exists id, ty. split_and!; try done. unfold registered_type, zentry. cbn [tr_types tr']. rewrite Ht.
    case_bool_decide as Hm; [|done]. exfalso. apply Hne. assert (group_of tr id = Some g0) as H'.
    { apply (rw_owner _ _ _ Hw). exists rec0. split; [done|]. apply list_elem_of_lookup.
      unfold zget in Hid. destruct (0 <=? p); [eauto|done]. }
    rewrite (dead_member _ Hm) in H'. congruence.
  - intros id Hid. rewrite (dead_keep _ _ _ H0 Hid). by apply He.
Qed.

Lemma dead_group_wf : reg_wf rank (owners tr (gr_key rec) ++ held) tr'.
Proof.
  pose proof (live_range _ _ _ Hg) as Hr. destruct dead_occ as [Hocc0 _]. pose proof dead_group_ok as Hok.
  pose proof dead_live_Some as Hlive. pose proof dead_member as Hmem. pose proof dead_pushes as Hpush.
  destruct Hw. split; cbn [tr_free_types tr_free_groups tr_interned tr_types tr_groups tr_type_to_group tr'].
  - done.
  - by rewrite zlen_insert, Hl1.
  - intros id. rewrite dead_group_of. unfold registered_type, zentry. cbn [tr_types tr']. rewrite Ht.
    case_bool_decide; [cbn; split; by intros [? ?]|apply rw_types0].
  - intros id g0. rewrite dead_group_of. setoid_rewrite Hlive. case_bool_decide as Hm.
    + split; [done|]. intros (r & [Hne Hr0] & Hid). destruct Hne.
      assert (group_of tr id = Some g0) as H' by (apply rw_owner0; eauto). rewrite (Hmem _ Hm) in H'. congruence.
    + rewrite rw_owner0. split; [|naive_solver]. intros (r & Hr0 & Hid). exists r. split_and!; try done.
      intros ->. rewrite Hg in Hr0. by injection Hr0 as <-.
  - intros g0 rec0 [Hne H0]%Hlive. by apply Hok.
  - intros key g0. setoid_rewrite Hlive. rewrite lookup_delete_Some, rw_interned0. split.
    + intros (Hne & r & Hr0 & Hk). exists r. split_and!; try done. intros ->. rewrite Hg in Hr0. naive_solver.
    + intros (r & [Hne Hr0] & Hk). split; [|by exists r]. intros Heq. apply Hne.
      assert (tr_interned tr !! gr_key rec = Some g) as H1 by (apply rw_interned0; eauto).
      assert (tr_interned tr !! key = Some g0) as H2 by (apply rw_interned0; eauto). congruence.
  - destruct rw_free_types0 as [Hnd Hfree]. split.
    + apply NoDup_app. split_and!; [done| |apply (rw_group0 _ _ Hg)]. intros id Hid Hm. apply Hfree in Hid.
      assert (is_Some (registered_type tr id)) as [ty Hty%zentry_Some] by (apply rw_types0; eauto). congruence.
    + intros id. rewrite elem_of_app, Hfree, Ht. case_bool_decide; naive_solver.
  - destruct rw_free_groups0 as [Hnd Hfree]. split.
    + apply NoDup_app. split_and!; [done| |apply NoDup_singleton].
      intros g0 Hid ->%list_elem_of_singleton. apply Hfree in Hid. apply zentry_Some in Hg. congruence.
    + intros g0. rewrite elem_of_app, Hfree, list_elem_of_singleton. destruct (Z.eq_dec g0 g) as [->|].
      * rewrite zget_insert_eq by done. naive_solver.
      * rewrite zget_insert_ne by lia. naive_solver.
  - intros g0 rec0 [Hne H0]%Hlive. destruct (rw_count0 _ _ H0) as [-> Hp]. split; [|done].
    rewrite occ_app. fold tr'. rewrite dead_in_edges.
    unfold occ at 1. cbn. destruct (Z.eqb_spec g g0); [congruence|]. unfold occ. lia.
  - intros g0 [Hel|Hel]%elem_of_app.
    + destruct (Hpush _ Hel) as [Hne [r Hr0]]. exists r. by apply Hlive.
    + destruct (rw_held0 g0 ltac:(set_solver)) as [r Hr0]. exists r. apply Hlive. split; [|done].
      intros ->. apply occ_pos in Hel. lia.
Qed.
End dead_group.

(** Releasing only shrinks: the types of a group that survives keep their owner. *)
Record shrinks (tr tr' : TypeRegistry) : Prop := {
  sh_live : ∀ g, is_Some (live_group tr' g) → is_Some (live_group tr g);
  sh_owner : ∀ id g, group_of tr id = Some g → is_Some (live_group tr' g) → group_of tr' id = Some g;
}.
#[export] Instance shrinks_preorder : PreOrder shrinks.
Proof. split; [by split|]. intros a b c [H1 H2] [H3 H4]. split; eauto. Qed.

(** One release: the worklist's registrations are exact at every iteration. *)
Lemma decref_step_spec rank held tr g :
  reg_wf rank (g :: held) tr →
  ∃ pushes tr', decref_step g tr = (Ok pushes, tr') ∧ reg_wf rank (pushes ++ held) tr' ∧
    zlen pushes + edge_total tr' = edge_total tr ∧ shrinks tr tr'.
Proof.
  intros Hw. destruct (rw_held _ _ _ Hw g ltac:(set_solver)) as [rec Hg].
  destruct (rw_count _ _ _ Hw _ _ Hg) as [Hcnt Hpos]. pose proof (live_range _ _ _ Hg) as Hr.
  pose proof Hg as Hz. apply zentry_Some in Hz.
  assert (occ g (g :: held) = 1 + occ g held) as Hcons by (unfold occ; cbn; rewrite Z.eqb_refl; lia).
  unfold decref_step. rewrite bind_unfold. unfold reads at 1. rewrite Hg. cbn [expect]. rewrite bind_unfold.
  unfold checked_sub. destruct (Z.leb_spec 1 (gr_refcount rec)); [|lia]. cbn [expect lift].
  rewrite modify_run. set (tr1 := put_group g _ tr).
  destruct (Z.ltb_spec 0 (gr_refcount rec - 1)).
  { exists [], tr1. split_and!; [done|..].
    - cbn [app]. apply (reg_wf_recount rank (g :: held)); try done.
      + intros g0 Hne. unfold occ at 2. cbn. destruct (Z.eqb_spec g g0); [congruence|]. unfold occ. lia.
      + set_solver.
      + lia.
    - unfold tr1. rewrite (edge_total_put _ _ _ _ Hz). rewrite zlen_nil. cbn [set_refcount gr_key]. lia.
    - split; [|done]. intros g0. unfold tr1. rewrite live_put by done. destruct (Z.eqb_spec g0 g) as [->|]; [by eauto|done]. }
  rewrite modify_run. set (tr2 := put_group g None tr1). rewrite modify_run. set (tr3 := set_tr_interned _ tr2).
  assert (∀ id, id ∈ edge_canon_ids (gr_key rec) → is_Some (group_of tr id)) as Hedges.
  { intros id Hid. destruct (go_edges _ _ _ _ (rw_group _ _ _ Hw _ _ Hg) _ Hid) as (og & Hog & _). eauto. }
  rewrite (reads_Ok _ _ tr3 (owners tr (gr_key rec))) by by apply (edge_groups_run tr).
  destruct (clear_members (gr_members rec) tr3) as (types & t2g & Hrun & Hl1 & Hl2 & Ht & Ho).
  { intros m Hm. assert (group_of tr m = Some g) as Hmg by (apply (rw_owner _ _ _ Hw); eauto).
    apply zentry_Some, zget_Some in Hmg. rewrite (rw_len _ _ _ Hw) in Hmg. done. }
  { apply (rw_len _ _ _ Hw). }
  rewrite (bind_run _ _ _ _ _ Hrun), modify_run. eexists (owners tr (gr_key rec)), _. split; [done|].
  cbn [tr_free_groups set_tr_arena]. split_and!.
  - pose proof (dead_group_wf rank held tr g rec types t2g Hw Hg ltac:(lia) Hl1 Hl2 Ht Ho) as Hd.
    unfold set_tr_free_groups, set_tr_arena, tr3, tr2, tr1, set_tr_interned, put_group, set_tr_groups; cbn.
    cbn in Hd. by rewrite list_insert_insert_eq.
  - rewrite (owners_full _ _ Hedges). unfold edge_total at 1. cbn [tr_groups set_tr_free_groups set_tr_arena tr3 set_tr_interned].
    change (zsum _ (tr_groups tr2)) with (edge_total tr2). unfold tr2, tr1.
    rewrite (edge_total_put (put_group g _ tr) g (Some (set_refcount (gr_refcount rec - 1) rec))).
    + rewrite (edge_total_put _ _ _ _ Hz). cbn [set_refcount gr_key]. lia.
    + cbn. by rewrite zget_insert_eq.
  - assert (∀ g0, live_group tr2 g0 = if g0 =? g then None else live_group tr g0) as Hlive.
    { intros g0. unfold tr2. rewrite live_put by (unfold tr1; cbn; rewrite zlen_insert; done). destruct (Z.eqb_spec g0 g); [done|].
      unfold tr1. rewrite live_put by done. by destruct (Z.eqb_spec g0 g). }
    split.
    + intros g0. change (is_Some (live_group tr2 g0) → is_Some (live_group tr g0)). rewrite Hlive. destruct (g0 =? g); [by intros []|done].
    + intros id g0 Hid. change (is_Some (live_group tr2 g0) → zentry t2g id = Some g0). rewrite Hlive, Ho.
      destruct (Z.eqb_spec g0 g) as [|Hne]; [by intros []|]. intros _. case_bool_decide as Hm; [|done].
      assert (group_of tr id = Some g) by (apply (rw_owner _ _ _ Hw); eauto). congruence.
Qed.

Lemma decref_loop_spec rank held tr fuel stack :
  reg_wf rank (stack ++ held) tr → zlen stack + edge_total tr < Z.of_nat fuel →
  ∃ tr', decref_loop fuel stack tr = (Ok tt, tr') ∧ reg_wf rank held tr' ∧ edge_total tr' ≤ edge_total tr ∧ shrinks tr tr'.
Proof.
  revert stack tr. induction fuel as [|fuel IH]; intros stack tr Hw Hf.
  { pose proof (edge_total_nonneg tr). pose proof (zlen_nonneg stack). lia. }
  cbn [decref_loop]. destruct (vec_pop stack) as [[stack' g]|] eqn:Hp.
  - apply vec_pop_Some in Hp as ->.
    assert (reg_wf rank (g :: stack' ++ held) tr) as Hw'.
    { eapply reg_wf_perm; [|exact Hw]. rewrite <- app_assoc. cbn. by rewrite Permutation_middle. }
    destruct (decref_step_spec _ _ _ _ Hw') as (pushes & tr1 & Hrun & Hw1 & He & Hs).
    rewrite (bind_run _ _ _ _ _ Hrun). rewrite zlen_app in Hf. cbn in Hf.
    assert (zlen [g] = 1) as H1 by done. rewrite H1 in Hf.
    destruct (IH (stack' ++ pushes) tr1) as (tr' & Hr' & Hw2 & He2 & Hs2).
    + eapply reg_wf_perm; [|exact Hw1]. rewrite !app_assoc. f_equiv. apply Permutation_app_comm.
    + rewrite zlen_app. lia.
    + exists tr'. split_and!; [done|done| |by etrans]. pose proof (zlen_nonneg pushes). lia.
  - apply vec_pop_None in Hp as ->. exists tr. done.
Qed.
Lemma decref_group_spec rank held tr g :
  reg_wf rank (g :: held) tr →
  ∃ tr', decref_group g tr = (Ok tt, tr') ∧ reg_wf rank held tr' ∧ edge_total tr' ≤ edge_total tr ∧ shrinks tr tr'.
Proof.
  intros Hw. unfold decref_group. apply (decref_loop_spec rank); [done|].
  pose proof (edge_total_nonneg tr). assert (zlen [g] = 1) as -> by done. lia.
Qed.
Lemma release_spec rank held tr gs :
  reg_wf rank (gs ++ held) tr → ∃ tr', release gs tr = (Ok tt, tr') ∧ reg_wf rank held tr'.
Proof.
  unfold release. revert tr. induction gs as [|g gs IH]; intros tr Hw; [by exists tr|].
  cbn [for_each]. destruct (decref_group_spec _ _ _ _ Hw) as (tr1 & Hrun & Hw1 & _).
  rewrite (bind_run _ _ _ _ _ Hrun). by apply IH.
Qed.

(** With no registration held, nothing is live: references go to smaller ranks
    only, so a live group of the largest rank would have no registration. *)
Lemma no_leak rank tr : reg_wf rank [] tr → live_group_count tr = 0%nat.
Proof.
  intros Hw. unfold live_group_count. apply map_size_empty_iff, map_eq. intros key. rewrite lookup_empty.
  apply eq_None_not_Some. intros [g0 Hg0].
  apply (rw_interned _ _ _ Hw) in Hg0 as (rec0 & Hg0 & _).
  set (top := foldr Z.max 0 (rank <$> seqZ 0 (zlen (tr_groups tr)))).
  assert (∀ g rec, live_group tr g = Some rec → rank g ≤ top) as Htop.
  { intros g rec Hg%live_range. unfold top. assert (g ∈ seqZ 0 (zlen (tr_groups tr))) as Hin by (apply elem_of_seqZ; lia).
    revert Hin. generalize (seqZ 0 (zlen (tr_groups tr))). induction l as [|x l IH]; [set_solver|]. cbn.
    intros [->|Hin]%elem_of_cons; [lia|]. specialize (IH Hin). lia. }
  assert (∀ n g rec, live_group tr g = Some rec → top - rank g < Z.of_nat n → False) as Hno; [|
    by apply (Hno (Z.to_nat (top - rank g0 + 1)) g0 rec0 Hg0); specialize (Htop _ _ Hg0); lia].
  induction n as [|n IH]; intros g rec Hg Hn; [specialize (Htop _ _ Hg); lia|].
  destruct (rw_count _ _ _ Hw _ _ Hg) as [Hcnt Hpos]. unfold occ in Hcnt. cbn in Hcnt.
  assert (∃ g1 rec1, live_group tr g1 = Some rec1 ∧ g ∈ owners tr (gr_key rec1)) as (g1 & rec1 & H1 & Hin).
  { assert (0 < in_edges tr g) as Hp by lia. clear -Hp. unfold in_edges in Hp.
    assert (∀ l, 0 < zsum (out_edges tr g) l → ∃ rec1, Some rec1 ∈ l ∧ g ∈ owners tr (gr_key rec1)) as Hex.
    { induction l as [|o l IH]; cbn; [lia|]. intros H0. destruct (decide (0 < out_edges tr g o)) as [Ho|Ho].
      - destruct o as [r|]; [|cbn in Ho; lia]. exists r. split; [set_solver|]. by apply occ_pos.
      - destruct IH as (r & Hr & Hg); [lia|]. exists r. set_solver. }
    destruct (Hex _ Hp) as (r & (i & _ & Hi)%zentry_elem & Hg). exists i, r. split; [by apply zentry_Some|done]. }
  apply list_elem_of_omap in Hin as (id & Hid & Hog).
  destruct (go_edges _ _ _ _ (rw_group _ _ _ Hw _ _ H1) _ Hid) as (og & Hog' & Hrank).
  rewrite Hog in Hog'. injection Hog' as <-. apply (IH g1 rec1 H1). lia.
Qed.

(** ** Interning a new group *)

(** Free slots of the type arena, of which [busy] are already handed out. *)
Record arena_ok (busy : list Z) (tr : TypeRegistry) : Prop := {
  ao_len : zlen (tr_type_to_group tr) = zlen (tr_types tr);
  ao_free : NoDup (tr_free_types tr) ∧ ∀ id, id ∈ tr_free_types tr ↔ zget (tr_types tr) id = Some None ∧ id ∉ busy;
  ao_dead : ∀ id, registered_type tr id = None ↔ group_of tr id = None;
  ao_busy : NoDup busy ∧ ∀ id, id ∈ busy → zget (tr_types tr) id = Some None;
}.
Lemma arena_ok_perm busy busy' tr : busy ≡ₚ busy' → arena_ok busy tr → arena_ok busy' tr.
Proof.
  intros Hp [? [? Hf] ? [? Hb]]. split; try done.
  - split; [done|]. intros id. by rewrite Hf, Hp.
  - split; [by rewrite <- Hp|]. intros id. rewrite <- Hp. apply Hb.
Qed.
Lemma reg_wf_arena rank held tr : reg_wf rank held tr → arena_ok [] tr.
Proof.
  intros [? ? Ht ? ? ? [Hnd Hf] ? ? ?]. split; try done.
  - split; [done|]. intros id. rewrite Hf. set_solver.
  - intros id. rewrite !eq_None_not_Some. by rewrite Ht.
  - split; [constructor|set_solver].
Qed.

Lemma alloc_type_spec busy tr :
  arena_ok busy tr → zlen (tr_types tr) < 2 ^ 32 →
  ∃ id ts t2 ft, let tr' := set_tr_arena ts t2 ft tr in
    alloc_type tr = (Ok id, tr') ∧ arena_ok (id :: busy) tr' ∧
    (∀ i, registered_type tr' i = registered_type tr i) ∧ (∀ i, group_of tr' i = group_of tr i) ∧
    zlen (tr_types tr) ≤ zlen ts ≤ zlen (tr_types tr) + 1.
Proof.
  intros [Hl [Hnd Hf] Hd [Hbn Hb]] Hcap. unfold alloc_type.
  destruct (vec_pop (tr_free_types tr)) as [[free' id]|] eqn:Hp.
  - apply vec_pop_Some in Hp. rewrite Hp in Hnd, Hf. apply NoDup_app in Hnd as (Hnd & Hdis & _).
    destruct (proj1 (Hf id) ltac:(set_solver)) as [Hid Hnb].
    exists id, (tr_types tr), (tr_type_to_group tr), free'. split_and!; try done; try lia.
    split; try done.
    + split; [done|]. intros i. cbn. specialize (Hf i). rewrite elem_of_app, list_elem_of_singleton in Hf.
      rewrite elem_of_cons. split.
      * intros Hi. destruct (proj1 Hf ltac:(auto)) as [? ?]. split; [done|]. intros [->|?]; [|done].
        apply (Hdis id); [done|set_solver].
      * intros [Hi Hni]. destruct (proj2 Hf) as [?| ->]; [split; [done|]; tauto|done|tauto].
    + split; [by constructor|]. intros i [->|]%elem_of_cons; [done|by apply Hb].
  - apply vec_pop_None in Hp. rewrite Hp in Hnd, Hf.
    exists (wrap 32 (zlen (tr_types tr))), (tr_types tr ++ [None]), (tr_type_to_group tr ++ [None]), (tr_free_types tr).
    rewrite wrap_id by (unfold u_ok; pose proof (zlen_nonneg (tr_types tr)); lia).
    assert (∀ i, zget (tr_types tr ++ [None]) i = Some None ↔ zget (tr_types tr) i = Some None ∨ i = zlen (tr_types tr)) as Hsn.
    { intros i. destruct (Z.lt_ge_cases i (zlen (tr_types tr))).
      - rewrite zget_app_l by done. split; [auto|]. intros [?| ->]; [done|lia].
      - rewrite zget_app_r, (zget_None (tr_types tr)) by done. destruct (Z.eq_dec i (zlen (tr_types tr))) as [->|].
        + rewrite Z.sub_diag. split; [auto|done].
        + rewrite zget_None by (unfold zlen at 1; cbn; lia). naive_solver. }
    split_and!; try done.
    + split; cbn.
      * rewrite !zlen_app. by rewrite Hl.
      * rewrite Hp. split; [constructor|]. intros i. rewrite Hsn, elem_of_cons. specialize (Hf i). set_solver.
      * intros i. unfold registered_type, group_of; cbn. rewrite !zentry_snoc_None. apply Hd.
      * split.
        { constructor; [|done]. intros Hi. apply Hb, zget_Some in Hi. lia. }
        intros i [->|Hi]%elem_of_cons; apply Hsn; [auto|]. left. by apply Hb.
    + intros i. apply zentry_snoc_None.
    + intros i. apply zentry_snoc_None.
    + rewrite zlen_app, zlen_cons, zlen_nil. lia.
    + rewrite zlen_app, zlen_cons, zlen_nil. lia.
Qed.

Lemma alloc_types_spec n busy tr :
  arena_ok busy tr → zlen (tr_types tr) + Z.of_nat n ≤ 2 ^ 32 →
  ∃ members ts t2 ft, let tr' := set_tr_arena ts t2 ft tr in
    alloc_types n tr = (Ok members, tr') ∧ arena_ok (members ++ busy) tr' ∧ length members = n ∧
    (∀ i, registered_type tr' i = registered_type tr i) ∧ (∀ i, group_of tr' i = group_of tr i) ∧
    zlen (tr_types tr) ≤ zlen ts ≤ zlen (tr_types tr) + Z.of_nat n.
Proof.
  revert busy tr. induction n as [|n IH]; intros busy tr Ha Hcap.
  { exists [], (tr_types tr), (tr_type_to_group tr), (tr_free_types tr). cbn.
    split_and!; try done; try lia; by destruct tr. }
  destruct (alloc_type_spec busy tr Ha ltac:(lia)) as (id & ts & t2 & ft & Hrun & Ha1 & Ht1 & Ho1 & Hl1).
  cbn [alloc_types]. rewrite (bind_run _ _ _ _ _ Hrun).
  destruct (IH _ _ Ha1) as (ms & ts' & t2' & ft' & Hrun' & Ha2 & Hn & Ht2 & Ho2 & Hl2); [cbn; lia|].
  rewrite (bind_run _ _ _ _ _ Hrun'). exists (id :: ms), ts', t2', ft'. cbn in Hl2.
  split_and!; try done.
  - eapply arena_ok_perm; [|exact Ha2]. cbn. by rewrite Permutation_middle.
  - cbn. by rewrite Hn.
  - intros i. rewrite <- Ht1. apply Ht2.
  - intros i. rewrite <- Ho1. apply Ho2.
  - lia.
  - lia.
Qed.

(** Storing the members from position [pos] on. *)
Lemma store_types_spec g members pos key tr :
  0 ≤ pos → pos + zlen key ≤ zlen members → NoDup members →
  zlen (tr_type_to_group tr) = zlen (tr_types tr) → (∀ m, m ∈ members → 0 ≤ m < zlen (tr_types tr)) →
  (∀ ct, ct ∈ key → ∃ ty, resolve_type members ct = Ok ty) →
  ∃ ts t2, store_types g members pos key tr = (Ok tt, set_tr_arena ts t2 (tr_free_types tr) tr) ∧
    zlen ts = zlen (tr_types tr) ∧ zlen t2 = zlen (tr_types tr) ∧
    (∀ q ct, zget key q = Some ct → ∃ id ty,
      zget members (pos + q) = Some id ∧ resolve_type members ct = Ok ty ∧ zget ts id = Some (Some ty) ∧ zentry t2 id = Some g) ∧
    (∀ id, (∀ q, 0 ≤ q < zlen key → zget members (pos + q) ≠ Some id) →
      zget ts id = zget (tr_types tr) id ∧ zentry t2 id = group_of tr id).
Proof.
  intros Hpos Hlen Hnd Hl Hms. revert pos tr Hpos Hlen Hl Hms.
  induction key as [|ct key IH]; intros pos tr Hpos Hlen Hl Hms Hres.
  { exists (tr_types tr), (tr_type_to_group tr). cbn. split_and!; try done; [by destruct tr|].
    intros q ct Hq. by rewrite zget_nil in Hq. }
  rewrite zlen_cons in Hlen. pose proof (zlen_nonneg key).
  destruct (zget_is_Some members pos ltac:(lia)) as [m Hm]. destruct (Hres ct ltac:(set_solver)) as [ty Hty].
  assert (m ∈ members) as Hmin.
  { apply list_elem_of_lookup. unfold zget in Hm. destruct (0 <=? pos); [eauto|done]. }
  pose proof (Hms m Hmin) as Hmr. set (ts1 := <[Z.to_nat m := Some ty]> (tr_types tr)).
  set (t21 := <[Z.to_nat m := Some g]> (tr_type_to_group tr)).
  set (tr1 := set_tr_arena ts1 t21 (tr_free_types tr) tr).
  assert (store_type g members pos ct tr = (Ok tt, tr1)) as Hrun.
  { unfold store_type. rewrite Hm. cbn [expect]. lift_step. rewrite Hty. lift_step. rewrite get_run.
    rewrite (proj2 (zset_Some (tr_types tr) _ m (Some ty))) by done.
    rewrite (proj2 (zset_Some (tr_type_to_group tr) _ m (Some g))) by (rewrite Hl; done). done. }
  cbn [store_types]. rewrite (bind_run _ _ _ _ _ Hrun).
  destruct (IH (pos + 1) tr1) as (ts & t2 & Hrun2 & Hl1 & Hl2 & Hin & Hout);
    [lia|lia|cbn; unfold t21, ts1; by rewrite !zlen_insert|cbn; unfold ts1; by rewrite zlen_insert|set_solver|].
  assert (∀ q, 0 ≤ q < zlen key → zget members (pos + 1 + q) ≠ Some m) as Hnot.
  { intros q Hq Heq. unfold zget in Hm, Heq. destruct (Z.leb_spec 0 pos), (Z.leb_spec 0 (pos + 1 + q)); try lia.
    pose proof (NoDup_lookup _ _ _ _ Hnd Hm Heq). lia. }
  cbn [tr_types tr_type_to_group tr_free_types set_tr_arena tr1] in *.
  exists ts, t2. unfold ts1 in Hl1, Hl2. rewrite zlen_insert in Hl1, Hl2. split_and!; try done.
  - intros q ct' Hq. pose proof (zget_Some _ _ _ Hq). destruct (Z.eq_dec q 0) as [->|].
    + rewrite zget_cons_0 in Hq. injection Hq as <-. rewrite Z.add_0_r. exists m, ty.
      destruct (Hout m Hnot) as [-> ->]. unfold group_of; cbn [tr_type_to_group set_tr_arena tr1]; unfold ts1, t21.
      rewrite zget_insert_eq, zentry_insert, Z.eqb_refl by (rewrite ?Hl; done). done.
    + rewrite zget_cons_S in Hq by lia. destruct (Hin _ _ Hq) as (id & ty' & Hid & ?). exists id, ty'.
      replace (pos + q) with (pos + 1 + (q - 1)) by lia. done.
  - intros id Hid. assert (id ≠ m) as Hne.
    { intros ->. apply (Hid 0); [rewrite zlen_cons; lia|]. by rewrite Z.add_0_r. }
    destruct (Hout id) as [-> ->].
    + intros q Hq. replace (pos + 1 + q) with (pos + (1 + q)) by lia. apply Hid. rewrite zlen_cons. lia.
    + unfold group_of; cbn [tr_type_to_group set_tr_arena tr1]; unfold ts1, t21. rewrite zget_insert_ne, zentry_insert by (rewrite ?Hl; lia).
      destruct (Z.eqb_spec id m); [congruence|done].
Qed.

(** Pinning the groups of the key's edges. *)
Definition bump (l : list Z) (g : Z) (o : option GroupRecord) : option GroupRecord :=
  (λ rec, set_refcount (gr_refcount rec + occ g l) rec) <$> o.
Lemma pin_edges_spec ids tr :
  (∀ id, id ∈ ids → ∃ og, group_of tr id = Some og ∧ is_Some (live_group tr og)) →
  (∀ g rec, live_group tr g = Some rec → 0 < gr_refcount rec ∧ gr_refcount rec + zlen ids < 2 ^ 32) →
  ∃ gs, for_each ids pin_edge tr = (Ok tt, set_tr_groups gs tr) ∧ zlen gs = zlen (tr_groups tr) ∧
    ∀ g, zget gs g = bump (omap (group_of tr) ids) g <$> zget (tr_groups tr) g.
Proof.
  revert tr. induction ids as [|id ids IH]; intros tr Hids Hcap.
  { exists (tr_groups tr). cbn. split_and!; [by destruct tr|done|]. intros g.
    destruct (zget (tr_groups tr) g) as [[rec|]|]; cbn; [|done|done]. unfold occ; cbn. rewrite Z.add_0_r.
    by destruct rec. }
  destruct (Hids id ltac:(set_solver)) as (og & Hog & [rec Hrec]). pose proof (live_range _ _ _ Hrec) as Hr.
  rewrite zlen_cons in Hcap. destruct (Hcap _ _ Hrec). pose proof (zlen_nonneg ids).
  set (tr1 := put_group og (Some (set_refcount (gr_refcount rec + 1) rec)) tr).
  assert (pin_edge id tr = (Ok tt, tr1)) as Hrun.
  { unfold pin_edge. pose proof Hog as Hz. apply zentry_Some in Hz. rewrite bind_unfold. unfold reads at 1.
    rewrite Hz. cbn [expect]. unfold incref_group. rewrite bind_unfold. unfold reads at 1. rewrite Hrec.
    cbn [expect]. unfold checked_add. destruct (Z.ltb_spec (gr_refcount rec + 1) (2 ^ 32)); [done|lia]. }
  cbn [for_each]. rewrite (bind_run _ _ _ _ _ Hrun).
  destruct (IH tr1) as (gs & Hrun2 & Hl & Hgs).
  - intros i Hi. destruct (Hids i ltac:(set_solver)) as (o & Ho & Hlo). exists o. split; [done|].
    unfold tr1. rewrite live_put by done. by destruct (Z.eqb_spec o og).
  - intros g r. unfold tr1. rewrite live_put by done. destruct (Z.eqb_spec g og) as [->|].
    + intros [= <-]. cbn [gr_refcount set_refcount]. lia.
    + intros Hg. destruct (Hcap _ _ Hg). lia.
  - exists gs. rewrite Hrun2. split_and!; [done|by rewrite Hl; cbn; rewrite zlen_insert|]. intros g. rewrite Hgs.
    change (group_of tr1) with (group_of tr). cbn [omap list_omap]. rewrite Hog.
    cbn [tr_groups put_group set_tr_groups tr1]. destruct (Z.eq_dec g og) as [->|Hne].
    + rewrite zget_insert_eq by done. apply zentry_Some in Hrec. rewrite Hrec. cbn. f_equal. f_equal.
      unfold set_refcount, occ; cbn. rewrite Z.eqb_refl. f_equal. lia.
    + rewrite zget_insert_ne by lia. destruct (zget (tr_groups tr) g) as [[r|]|]; [|done|done]. cbn.
      unfold occ; cbn. destruct (Z.eqb_spec og g); [congruence|done].
Qed.

Lemma alloc_group_spec tr :
  NoDup (tr_free_groups tr) → (∀ g, g ∈ tr_free_groups tr ↔ zget (tr_groups tr) g = Some None) →
  zlen (tr_groups tr) < 2 ^ 32 →
  ∃ g gs fg, alloc_group tr = (Ok g, set_tr_free_groups fg (set_tr_groups gs tr)) ∧
    zget gs g = Some None ∧ (∀ i, zentry gs i = live_group tr i) ∧ zlen gs ≤ zlen (tr_groups tr) + 1 ∧
    NoDup fg ∧ (∀ i, i ∈ fg ↔ zget gs i = Some None ∧ i ≠ g) ∧
    (∀ f : option GroupRecord → Z, f None = 0 → zsum f gs = zsum f (tr_groups tr)).
Proof.
  intros Hnd Hf Hcap. unfold alloc_group. destruct (vec_pop (tr_free_groups tr)) as [[free' g]|] eqn:Hp.
  - apply vec_pop_Some in Hp. rewrite Hp in Hnd, Hf. apply NoDup_app in Hnd as (Hnd & Hdis & _).
    exists g, (tr_groups tr), free'. split_and!; try done; try lia.
    + apply Hf. set_solver.
    + intros i. specialize (Hf i). rewrite elem_of_app, list_elem_of_singleton in Hf. split.
      * intros Hi. split; [tauto|]. intros ->. apply (Hdis g); [done|set_solver].
      * intros [Hi Hne]. tauto.
  - apply vec_pop_None in Hp. rewrite Hp in Hnd, Hf.
    exists (wrap 32 (zlen (tr_groups tr))), (tr_groups tr ++ [None]), (tr_free_groups tr).
    rewrite wrap_id by (unfold u_ok; pose proof (zlen_nonneg (tr_groups tr)); lia).
    assert (zget (tr_groups tr ++ [None]) (zlen (tr_groups tr)) = Some None) as Hlast.
    { by rewrite zget_app_r, Z.sub_diag by lia. }
    split_and!; try done.
    + by intros; apply zentry_snoc_None.
    + by rewrite zlen_app, zlen_cons, zlen_nil.
    + by rewrite Hp.
    + rewrite Hp. intros i. split; [set_solver|]. intros [Hi Hne]. exfalso. pose proof (zget_Some _ _ _ Hi) as Hr.
      rewrite zlen_app in Hr. unfold zlen at 2 in Hr. cbn in Hr. rewrite zget_app_l in Hi by lia.
      apply Hf in Hi. set_solver.
    + intros f Hf0. rewrite zsum_app. cbn. rewrite Hf0. lia.
Qed.

(** Nothing is registered on a dead group. *)
Lemma unregistered rank held tr g :
  reg_wf rank held tr → live_group tr g = None →
  in_edges tr g = 0 ∧ occ g held = 0 ∧ ∀ id, group_of tr id ≠ Some g.
Proof.
  intros Hw Hg. assert (∀ id, group_of tr id ≠ Some g) as Hno.
  { intros id (r & Hr & _)%(rw_owner _ _ _ Hw). congruence. }
  split_and!; [..|done].
  - apply Z.le_antisymm; [|apply in_edges_bounds]. unfold in_edges.
    induction (tr_groups tr) as [|[r|] l IH]; cbn; [done| |lia].
    enough (¬ 0 < occ g (owners tr (gr_key r))) by lia. by intros (id & _ & ?%Hno)%occ_pos%list_elem_of_omap.
  - pose proof (occ_bounds g held). enough (¬ 0 < occ g held) by lia.
    intros [r Hr]%occ_pos%(rw_held _ _ _ Hw). congruence.
Qed.

(** *** The state once a new group is registered *)
Section new_group.
Variables (rank : Z → Z) (held : list Z) (tr : TypeRegistry) (key : CGroup) (g : Z) (members : list Z).
Variables (ts : list (option CanonType)) (t2 : list (option Z)) (ft : list Z).
Variables (gs : list (option GroupRecord)) (fg : list Z).
Hypothesis Hw : reg_wf rank held tr.
Hypothesis Hnew : tr_interned tr !! key = None.
Hypothesis Hedges : ∀ id, id ∈ edge_canon_ids key → is_Some (group_of tr id).
Hypothesis Hlen : zlen members = zlen key.
Hypothesis Hnd : NoDup members.
Hypothesis Hdead : ∀ id, id ∈ members → group_of tr id = None.
Hypothesis Hl : zlen t2 = zlen ts ∧ zlen ts ≤ 2 ^ 32 ∧ zlen gs ≤ 2 ^ 32.
Hypothesis Hin : ∀ q ct, zget key q = Some ct → ∃ id ty,
  zget members q = Some id ∧ resolve_type members ct = Ok ty ∧ zget ts id = Some (Some ty) ∧ zentry t2 id = Some g.
Hypothesis Hout : ∀ id, id ∉ members → zentry ts id = registered_type tr id ∧ zentry t2 id = group_of tr id.
Hypothesis Hft : NoDup ft ∧ ∀ id, id ∈ ft ↔ zget ts id = Some None.
Hypothesis Hg : 0 ≤ g < zlen gs.
Hypothesis Hgdead : zget gs g = Some None.
Hypothesis Hgs : ∀ i, zentry gs i = bump (owners tr key) i (live_group tr i).
Hypothesis Hsum : ∀ f : option GroupRecord → Z, f None = 0 →
  (∀ rec n, f (Some (set_refcount n rec)) = f (Some rec)) → zsum f gs = zsum f (tr_groups tr).
Hypothesis Hfg : NoDup fg ∧ ∀ i, i ∈ fg ↔ zget gs i = Some None ∧ i ≠ g.
Let rec := {| gr_key := key; gr_members := members; gr_refcount := 1 |}.
Let tr' := {| tr_types := ts; tr_type_to_group := t2; tr_free_types := ft;
              tr_groups := <[Z.to_nat g := Some rec]> gs; tr_free_groups := fg;
              tr_interned := <[key := g]> (tr_interned tr) |}.
Definition new_rank (rank : Z → Z) (g : Z) (os : list Z) (i : Z) : Z :=
  if i =? g then 1 + foldr Z.max 0 (rank <$> os) else rank i.

Lemma new_live i : live_group tr' i = if i =? g then Some rec else bump (owners tr key) i (live_group tr i).
Proof. unfold live_group at 1. cbn [tr_groups tr']. rewrite zentry_insert by done. by rewrite Hgs. Qed.
Lemma new_gdead : live_group tr g = None.
Proof.
  pose proof (Hgs g) as H. unfold zentry in H. rewrite Hgdead in H. cbn in H.
  by destruct (live_group tr g).
Qed.
Lemma new_live_inv i r : live_group tr' i = Some r →
  (i = g ∧ r = rec) ∨ (i ≠ g ∧ ∃ r0, live_group tr i = Some r0 ∧ r = set_refcount (gr_refcount r0 + occ i (owners tr key)) r0).
Proof.
  rewrite new_live. destruct (Z.eqb_spec i g); [intros [= <-]; auto|].
  destruct (live_group tr i) as [r0|]; [|done]. intros [= <-]. right. eauto.
Qed.
Lemma new_live_old i r0 : live_group tr i = Some r0 →
  live_group tr' i = Some (set_refcount (gr_refcount r0 + occ i (owners tr key)) r0).
Proof.
  intros H. rewrite new_live, H. destruct (Z.eqb_spec i g) as [->|]; [|done]. by rewrite new_gdead in H.
Qed.
Lemma new_member id : id ∈ members → group_of tr' id = Some g ∧ is_Some (zentry ts id).
Proof.
  intros [n Hn]%list_elem_of_lookup.
  assert (zget members (Z.of_nat n) = Some id) as Hz.
  { unfold zget. destruct (Z.leb_spec 0 (Z.of_nat n)); [|lia]. by rewrite Nat2Z.id. }
  destruct (zget_is_Some key (Z.of_nat n)) as [ct Hct]; [by apply zget_Some in Hz; rewrite Hlen in Hz|].
  destruct (Hin _ _ Hct) as (id' & ty & Hid & _ & Hts & Ht2). rewrite Hz in Hid. injection Hid as <-.
  split; [done|]. exists ty. by apply zentry_Some.
Qed.
Lemma new_keep id : is_Some (group_of tr id) → group_of tr' id = group_of tr id.
Proof. intros [o Ho]. apply Hout. intros Hm. by rewrite (Hdead _ Hm) in Ho. Qed.
Lemma new_owners k : (∀ id, id ∈ edge_canon_ids k → is_Some (group_of tr id)) → owners tr' k = owners tr k.
Proof.
  unfold owners. induction (edge_canon_ids k) as [|id l IH]; intros H; [done|]. cbn [omap list_omap].
  rewrite new_keep by set_solver. rewrite IH by set_solver. done.
Qed.
Lemma live_edges i r : live_group tr i = Some r → ∀ id, id ∈ edge_canon_ids (gr_key r) → is_Some (group_of tr id).
Proof.
  intros Hi id Hid. destruct (go_edges _ _ _ _ (rw_group _ _ _ Hw _ _ Hi) _ Hid) as (og & -> & _). done.
Qed.
Lemma new_in_edges i : in_edges tr' i = in_edges tr i + occ i (owners tr key).
Proof.
  unfold in_edges at 1. cbn [tr_groups tr']. rewrite (zsum_insert _ _ _ _ _ Hgdead). cbn [out_edges rec gr_key].
  rewrite (new_owners key Hedges). enough (zsum (out_edges tr' i) gs = in_edges tr i) by lia.
  transitivity (zsum (out_edges tr i) gs); [|apply Hsum; [done|by intros]].
  apply zsum_ext. intros [r|] Hr; [|done]. cbn [out_edges].
  apply zentry_elem in Hr as (j & _ & Hj). assert (zentry gs j = Some r) as Hj' by by apply zentry_Some.
  rewrite Hgs in Hj'. destruct (live_group tr j) as [r0|] eqn:H0; [|done]. injection Hj' as <-.
  cbn [set_refcount gr_key]. by rewrite (new_owners _ (live_edges _ _ H0)).
Qed.
Lemma new_rank_lt og : og ∈ owners tr key → og ≠ g ∧ rank og < new_rank rank g (owners tr key) g.
Proof.
  intros Hel. pose proof Hel as (id & Hid & Hog)%list_elem_of_omap.
  assert (og ≠ g) as Hne.
  { intros ->. apply (rw_owner _ _ _ Hw) in Hog as (r & Hr & _). by rewrite new_gdead in Hr. }
  split; [done|]. unfold new_rank. rewrite Z.eqb_refl. clear -Hel.
  induction (owners tr key) as [|o l IH]; [set_solver|]. cbn.
  apply elem_of_cons in Hel as [->|Hel]; [lia|]. specialize (IH Hel). lia.
Qed.
Lemma new_group_ok i r : live_group tr' i = Some r → group_ok (new_rank rank g (owners tr key)) tr' i r.
Proof.
  intros [[-> ->]|(Hne & r0 & H0 & ->)]%new_live_inv.
  - split; cbn [gr_key gr_members rec]; [done|done|..].
    + intros p ct Hct. destruct (Hin _ _ Hct) as (id & ty & ? & ? & ? & ?). exists id, ty.
      split_and!; [done|done|]. by apply zentry_Some.
    + intros id Hid. destruct (Hedges _ Hid) as [og Hog]. exists og. rewrite new_keep by eauto.
      split; [done|]. assert (og ∈ owners tr key) as Hel by (apply list_elem_of_omap; eauto).
      destruct (new_rank_lt _ Hel) as [Hn Hlt]. unfold new_rank at 1. by destruct (Z.eqb_spec og g).
  - destruct (rw_group _ _ _ Hw _ _ H0) as [? ? Hst He]. split; cbn [gr_key gr_members set_refcount]; try done.
    + intros p ct Hct. destruct (Hst _ _ Hct) as (id & ty & Hid & Hty & Hreg). exists id, ty. split_and!; try done.
      destruct (Hout id) as [Ht _]; [|unfold registered_type; cbn; by rewrite Ht].
      intros Hm. apply Hdead in Hm. assert (is_Some (group_of tr id)) as [? ?] by (apply (rw_types _ _ _ Hw); eauto).
      congruence.
    + intros id Hid. destruct (He _ Hid) as (og & Hog & Hlt). exists og. rewrite new_keep by eauto.
      split; [done|]. apply (rw_owner _ _ _ Hw) in Hog as (r1 & H1 & _). unfold new_rank.
      destruct (Z.eqb_spec og g) as [->|]; [by rewrite new_gdead in H1|]. by destruct (Z.eqb_spec i g).
Qed.

Lemma new_group_wf : reg_wf (new_rank rank g (owners tr key)) (g :: held) tr'.
Proof.
  pose proof new_live_old as Hold. pose proof new_live_inv as Hinv. pose proof new_member as Hmem.
  assert (live_group tr' g = Some rec) as Hself by (by rewrite new_live, Z.eqb_refl).
  pose proof Hw as [? ? Hty Hown ? Hint ? ? Hcnt Hheld]. split.
  - apply Hl.
  - cbn. rewrite zlen_insert. tauto.
  - intros id. destruct (decide (id ∈ members)) as [Hm|Hm].
    + destruct (Hmem _ Hm) as [-> ?]. split; [eauto|done].
    + destruct (Hout _ Hm) as [H1 H2]. unfold registered_type, group_of. cbn. by rewrite H1, H2.
  - intros id i. destruct (decide (id ∈ members)) as [Hm|Hm].
    + destruct (Hmem _ Hm) as [-> _]. split; [intros [= <-]; eauto|].
      intros (r & [[-> _]|(_ & r0 & H0 & ->)]%Hinv & Hid); [done|]. exfalso.
      assert (group_of tr id = Some i) as H' by (apply Hown; eauto). by rewrite (Hdead _ Hm) in H'.
    + destruct (Hout _ Hm) as [_ Ho]. unfold group_of at 1. cbn [tr_type_to_group tr']. rewrite Ho, Hown. split.
      * intros (r0 & H0 & Hid). eexists. split; [by apply Hold|done].
      * intros (r & [[-> ->]|(_ & r0 & H0 & ->)]%Hinv & Hid); [done|by exists r0].
  - apply new_group_ok.
  - intros k i. cbn [tr_interned tr']. rewrite lookup_insert_Some, Hint. split.
    + intros [[<- <-]|(Hne & r0 & H0 & Hk)]; [by exists rec|]. eexists. split; [by apply Hold|done].
    + intros (r & [[-> ->]|(Hne & r0 & H0 & ->)]%Hinv & Hk); [by left|]. right. split; [|by exists r0].
      intros <-. cbn in Hk. assert (tr_interned tr !! key = Some i) by (apply Hint; eauto). congruence.
  - apply Hft.
  - destruct Hfg as [? Hfgi]. split; [done|]. intros i. cbn. rewrite Hfgi. destruct (Z.eq_dec i g) as [->|].
    + rewrite zget_insert_eq by done. naive_solver.
    + rewrite zget_insert_ne by lia. naive_solver.
  - intros i r [[-> ->]|(Hne & r0 & H0 & ->)]%Hinv; rewrite new_in_edges.
    + destruct (unregistered _ _ _ _ Hw new_gdead) as (-> & Hocc & Hno).
      assert (occ g (owners tr key) = 0) as ->.
      { pose proof (occ_bounds g (owners tr key)). enough (¬ 0 < occ g (owners tr key)) by lia.
        by intros [? _]%occ_pos%new_rank_lt. }
      unfold occ in Hocc |- *. cbn. rewrite Z.eqb_refl, Hocc. done.
    + destruct (Hcnt _ _ H0). pose proof (occ_bounds i (owners tr key)). cbn [gr_refcount set_refcount].
      unfold occ at 2. cbn. destruct (Z.eqb_spec g i); [congruence|]. fold (occ i held). lia.
  - intros i [->|Hi]%elem_of_cons; [eauto|]. destruct (Hheld _ Hi) as [r0 H0]. rewrite (Hold _ _ H0). eauto.
Qed.
End new_group.

(** What interning keeps: live groups (but for their count), types and owners. *)
Record extends (tr tr' : TypeRegistry) : Prop := {
  ex_live : ∀ i r, live_group tr i = Some r → ∃ n, live_group tr' i = Some (set_refcount n r);
  ex_types : ∀ id ty, registered_type tr id = Some ty → registered_type tr' id = Some ty;
  ex_owner : ∀ id o, group_of tr id = Some o → group_of tr' id = Some o;
}.
#[export] Instance extends_preorder : PreOrder extends.
Proof.
  split.
  - intros tr. split; try done. intros i r Hr. exists (gr_refcount r). rewrite Hr. by destruct r.
  - intros a b c [H1 H2 H3] [H4 H5 H6]. split; auto. intros i r Hr. destruct (H1 _ _ Hr) as [n Hn].
    destruct (H4 _ _ Hn) as [m Hm]. by exists m.
Qed.

(** A key whose outside references are live and whose sibling references exist. *)
Record key_ok (tr : TypeRegistry) (key : CGroup) : Prop := {
  ko_edges : ∀ id, id ∈ edge_canon_ids key → is_Some (group_of tr id);
  ko_rel : ∀ ct members, ct ∈ key → zlen members = zlen key → ∃ ty, resolve_type members ct = Ok ty;
}.
(** Room for [types] more types, [groups] more groups and [regs] more registrations. *)
Record room (types groups regs : Z) (held : list Z) (tr : TypeRegistry) : Prop := {
  rm_types : zlen (tr_types tr) + types ≤ 2 ^ 32;
  rm_groups : zlen (tr_groups tr) + groups ≤ 2 ^ 32;
  rm_regs : registrations held tr + regs < 2 ^ 32;
}.

(** What interning [key] does besides. *)
Record intern_post (key : CGroup) (tr tr' : TypeRegistry) : Prop := {
  ip_extends : extends tr tr';
  ip_back : ∀ i r, live_group tr' i = Some r → gr_key r = key ∨ ∃ r0, live_group tr i = Some r0 ∧ gr_key r0 = gr_key r;
  ip_types : zlen (tr_types tr') ≤ zlen (tr_types tr) + zlen key;
  ip_groups : zlen (tr_groups tr') ≤ zlen (tr_groups tr) + 1;
  ip_edges : edge_total tr' ≤ edge_total tr + zlen (edge_canon_ids key);
}.

Lemma zsum_zget_ext {A} (f : A → Z) (l k : list A) :
  zlen l = zlen k → (∀ i x y, zget l i = Some x → zget k i = Some y → f x = f y) → zsum f l = zsum f k.
Proof.
  revert k. induction l as [|x l IH]; intros [|y k] Hlen H; try (unfold zlen in Hlen; cbn in Hlen; lia).
  cbn. rewrite (H 0 x y) by done. f_equal. apply IH.
  - rewrite !zlen_cons in Hlen. lia.
  - intros i a b Ha Hb. pose proof (zget_Some _ _ _ Ha). apply (H (i + 1)).
    + rewrite zget_cons_S by lia. by replace (i + 1 - 1) with i by lia.
    + rewrite zget_cons_S by lia. by replace (i + 1 - 1) with i by lia.
Qed.

Lemma intern_new_spec rank held tr key :
  reg_wf rank held tr → tr_interned tr !! key = None → key_ok tr key →
  room (zlen key) 1 (zlen (edge_canon_ids key) + 1) held tr →
  ∃ g tr' rank' rec, intern_new key (zlen key) tr = (Ok g, tr') ∧ reg_wf rank' (g :: held) tr' ∧
    live_group tr' g = Some rec ∧ gr_key rec = key ∧ intern_post key tr tr'.
Proof.
  intros Hw Hnew [Hedges Hrel] [Hrt Hrg Hrr]. pose proof (zlen_nonneg key).
  destruct (alloc_group_spec tr) as (g & gs0 & fg & Hrun1 & Hgfree & Hgs0 & Hgl & Hfgnd & Hfg & Hsum0);
    [apply Hw|apply Hw|lia|].
  unfold intern_new. rewrite (bind_run _ _ _ _ _ Hrun1). set (tr1 := set_tr_free_groups _ _).
  assert (arena_ok [] tr1) as Ha1 by by destruct (reg_wf_arena _ _ _ Hw).
  destruct (alloc_types_spec (Z.to_nat (zlen key)) [] tr1 Ha1) as (members & ts0 & t20 & ft & Hrun2 & Ha2 & Hn & Ht2 & Ho2 & Hl2);
    [cbn; lia|]. rewrite app_nil_r in Ha2. rewrite (bind_run _ _ _ _ _ Hrun2). set (tr2 := set_tr_arena _ _ _ tr1) in *.
  change (∀ i, registered_type tr2 i = registered_type tr i) in Ht2. change (∀ i, group_of tr2 i = group_of tr i) in Ho2.
  assert (zlen members = zlen key) as Hml by (unfold zlen in *; lia).
  destruct Ha2 as [Hal [Hftnd Hft] Had [Hmnd Hmb]].
  destruct (store_types_spec g members 0 key tr2) as (ts & t2 & Hrun3 & Hl3 & Hl3' & Hin & Hout); [lia|lia|done|done|..].
  { intros m Hm. by apply Hmb, zget_Some in Hm. }
  { intros ct Hct. by apply Hrel. }
  rewrite (bind_run _ _ _ _ _ Hrun3). set (tr3 := set_tr_arena _ _ _ tr2).
  assert (∀ id, id ∉ members → zget ts id = zget ts0 id ∧ zentry t2 id = group_of tr id) as Hout'.
  { intros id Hid. rewrite <- Ho2. apply Hout. intros q Hq Heq. apply Hid. apply list_elem_of_lookup.
    unfold zget in Heq. destruct (0 <=? 0 + q); [eauto|done]. }
  assert (∀ id, id ∈ members → group_of tr id = None) as Hdead.
  { intros id Hid. rewrite <- Ho2. apply Had. unfold registered_type, zentry. by rewrite (Hmb _ Hid). }
  assert (∀ id, is_Some (group_of tr id) → group_of tr3 id = group_of tr id) as Hkeep.
  { intros id [o Ho]. apply Hout'. intros Hm. by rewrite (Hdead _ Hm) in Ho. }
  assert (omap (group_of tr3) (edge_canon_ids key) = owners tr key) as Howners.
  { unfold owners. clear -Hkeep Hedges. induction (edge_canon_ids key) as [|id l IH]; [done|]. cbn [omap list_omap].
    rewrite Hkeep, IH by set_solver. done. }
  destruct (pin_edges_spec (edge_canon_ids key) tr3) as (gs & Hrun4 & Hl4 & Hgs).
  { intros id Hid. destruct (Hedges _ Hid) as [o Ho]. exists o. rewrite Hkeep by eauto. split; [done|].
    apply (rw_owner _ _ _ Hw) in Ho as (r & Hr & _). exists r. unfold live_group. cbn [tr_groups tr3 tr2 tr1 set_tr_arena set_tr_free_groups set_tr_groups]. by rewrite Hgs0. }
  { intros i r Hr. unfold live_group in Hr. cbn [tr_groups tr3 tr2 tr1 set_tr_arena set_tr_free_groups set_tr_groups] in Hr. rewrite Hgs0 in Hr.
    pose proof (refcount_bound _ _ _ _ _ Hw Hr). lia. }
  rewrite (bind_run _ _ _ _ _ Hrun4), get_run. rewrite Howners in Hgs. clear Howners.
  cbn [tr_groups tr3 tr2 tr1 set_tr_arena set_tr_free_groups set_tr_groups] in Hl4, Hgs |- *.
  pose proof (zget_Some _ _ _ Hgfree) as Hgr.
  rewrite (proj2 (zset_Some gs _ g _)) by (split; [lia|done]).
  set (rec := {| gr_key := key; gr_members := members; gr_refcount := 1 |}).
  assert (∀ f : option GroupRecord → Z, f None = 0 → (∀ r n, f (Some (set_refcount n r)) = f (Some r)) →
    zsum f gs = zsum f (tr_groups tr)) as Hsum.
  { intros f Hf0 Hf. rewrite <- (Hsum0 f Hf0). apply zsum_zget_ext; [done|]. intros i x y Hx Hy.
    rewrite Hgs, Hy in Hx. injection Hx as <-. destruct y as [r|]; [apply Hf|done]. }
  assert (reg_wf (new_rank rank g (owners tr key)) (g :: held) {| tr_types := ts; tr_type_to_group := t2; tr_free_types := ft;
     tr_groups := <[Z.to_nat g := Some rec]> gs; tr_free_groups := fg; tr_interned := <[key := g]> (tr_interned tr) |}) as Hw'.
  { apply new_group_wf; try done.
    - rewrite Hl3, Hl3'. cbn in Hl2 |- *. lia.
    - intros id Hid. destruct (Hout' _ Hid) as [H1 H2]. split; [|done]. rewrite <- Ht2. unfold registered_type, zentry. cbn. by rewrite H1.
    - split; [done|]. intros id. cbn in Hft. rewrite Hft. destruct (decide (id ∈ members)) as [Hm|Hm].
      + split; [tauto|]. intros Hz. apply list_elem_of_lookup in Hm as [n Hm].
        assert (zget members (Z.of_nat n) = Some id) as Hz'.
        { unfold zget. destruct (Z.leb_spec 0 (Z.of_nat n)); [|lia]. by rewrite Nat2Z.id. }
        destruct (zget_is_Some key (Z.of_nat n)) as [ct Hct]; [apply zget_Some in Hz'; lia|].
        destruct (Hin _ _ Hct) as (id' & ty & Hid & _ & Hts & _). rewrite Z.add_0_l, Hz' in Hid. injection Hid as <-. congruence.
      + destruct (Hout' _ Hm) as [-> _]. tauto.
    - lia.
    - rewrite Hgs, Hgfree. done.
    - intros i. unfold zentry. rewrite Hgs. rewrite <- (Hgs0 i). unfold zentry. by destruct (zget gs0 i) as [[]|].
    - split; [done|]. intros i. rewrite Hfg, Hgs. destruct (zget gs0 i) as [[]|]; naive_solver. }
  eexists g, _, _, rec. split; [done|]. split; [exact Hw'|].
  assert (∀ i, zentry (<[Z.to_nat g := Some rec]> gs) i = if i =? g then Some rec else bump (owners tr key) i (live_group tr i)) as Hlive.
  { intros i. rewrite zentry_insert by lia. destruct (i =? g); [done|]. unfold zentry. rewrite Hgs. rewrite <- (Hgs0 i).
    unfold zentry. by destruct (zget gs0 i) as [[]|]. }
  split_and!; [by unfold live_group; cbn; rewrite Hlive, Z.eqb_refl|done|]. split.
  - split.
    + intros i r Hr. unfold live_group at 1. cbn. rewrite Hlive. destruct (Z.eqb_spec i g) as [->|].
      * rewrite <- Hgs0 in Hr. unfold zentry in Hr. by rewrite Hgfree in Hr.
      * rewrite Hr. cbn. eauto.
    + intros id ty Hty. assert (id ∉ members) as Hm.
      { intros Hm%Hdead. assert (is_Some (group_of tr id)) as [? ?] by (apply (rw_types _ _ _ Hw); eauto). congruence. }
      destruct (Hout' _ Hm) as [H1 _]. rewrite <- Ht2 in Hty. unfold registered_type, zentry in *. cbn in *. by rewrite H1.
    + intros id o Ho. rewrite <- Ho. apply Hkeep. eauto.
  - intros i r. unfold live_group at 1. cbn. rewrite Hlive. destruct (Z.eqb_spec i g); [intros [= <-]; by left|].
    destruct (live_group tr i) as [r0|]; [|done]. intros [= <-]. right. by exists r0.
  - cbn. cbn in Hl2, Hl3. lia.
  - cbn. rewrite zlen_insert, Hl4. done.
  - unfold edge_total. cbn [tr_groups set_tr_interned set_tr_groups]. rewrite (zsum_insert _ gs g None); [|by rewrite Hgs, Hgfree].
    rewrite Hsum by done. cbn [gr_key rec]. lia.
Qed.

Lemma intern_group_spec rank held tr key :
  reg_wf rank held tr → key_ok tr key → room (zlen key) 1 (zlen (edge_canon_ids key) + 1) held tr →
  ∃ g tr' rank' rec, intern_group key (zlen key) tr = (Ok g, tr') ∧ reg_wf rank' (g :: held) tr' ∧
    live_group tr' g = Some rec ∧ gr_key rec = key ∧ intern_post key tr tr'.
Proof.
  intros Hw Hk Hroom. unfold intern_group. destruct (tr_interned tr !! key) as [g|] eqn:Hint.
  2: { by apply (intern_new_spec rank held). }
  pose proof (zlen_nonneg key). pose proof (zlen_nonneg (edge_canon_ids key)).
  apply (rw_interned _ _ _ Hw) in Hint as (rec & Hg & Hkey). pose proof (live_range _ _ _ Hg) as Hr.
  destruct (incref_run _ _ _ g Hw) as (rec' & Hg' & Hrun & Hw'); [eauto|destruct Hroom; lia|].
  rewrite Hg in Hg'. injection Hg' as <-. set (tr' := put_group g _ tr) in *.
  exists g, tr', rank, (set_refcount (gr_refcount rec + 1) rec). rewrite (bind_run _ _ _ _ _ Hrun). split_and!; try done.
  { unfold tr'. by rewrite live_put, Z.eqb_refl. }
  split.
  - split; try done. intros i r Hi. unfold tr'. rewrite live_put by done. destruct (Z.eqb_spec i g) as [->|].
    + rewrite Hg in Hi. injection Hi as <-. eauto.
    + exists (gr_refcount r). rewrite Hi. by destruct r.
  - intros i r. unfold tr'. rewrite live_put by done. destruct (Z.eqb_spec i g) as [->|]; [|by eauto].
    intros [= <-]. right. by exists rec.
  - cbn. lia.
  - cbn. rewrite zlen_insert. lia.
  - apply zentry_Some in Hg. unfold tr'. rewrite (edge_total_put _ _ _ _ Hg). cbn [set_refcount gr_key]. lia.
Qed.

(** ** Declared subtyping *)
Definition super_of (tr : TypeRegistry) (a b : Z) : Prop :=
  ∃ ty, registered_type tr a = Some ty ∧ ck_supertype ty = Some b.
(** Sibling supertypes come earlier in their group. *)
Definition ordered_key (key : CGroup) : Prop :=
  ∀ p ct q, zget key p = Some ct → ct_supertype ct = Some (CrRel q) → q < p.
Definition ordered_registry (tr : TypeRegistry) : Prop :=
  ∀ g rec, live_group tr g = Some rec → ordered_key (gr_key rec).

(** A declared supertype is of the kind of its subtype. *)
Definition kinds_agree (tr : TypeRegistry) : Prop := ∀ a b, super_of tr a b → type_kind tr a = type_kind tr b.
(** The same of a key whose outside references are types of [tr]. *)
Definition kinded_key (tr : TypeRegistry) (key : CGroup) : Prop := ∀ p ct, zget key p = Some ct →
  match ct_supertype ct with
  | None => True
  | Some (CrRel q) => ∃ sup, zget key q = Some sup ∧ body_kind (ct_body sup) = body_kind (ct_body ct)
  | Some (CrCanon id) => type_kind tr id = Some (body_kind (ct_body ct))
  end.
Definition kinded_registry (tr : TypeRegistry) : Prop :=
  ∀ g rec, live_group tr g = Some rec → kinded_key tr (gr_key rec).

Lemma is_subtype_go_S fuel tr cur sup b :
  is_subtype_go fuel tr cur sup = Some b → is_subtype_go (S fuel) tr cur sup = Some b.
Proof.
  revert cur. induction fuel as [|fuel IH]; intros cur H; [done|].
  cbn [is_subtype_go] in H. destruct cur as [id|]; [|done].
  change (is_subtype_go (S (S fuel)) tr (Some id) sup) with
    (if id =? sup then Some true else is_subtype_go (S fuel) tr (ty ← registered_type tr id; ck_supertype ty) sup).
  destruct (id =? sup); [done|]. by apply IH.
Qed.
Lemma is_subtype_go_mono n m tr cur sup b : (n ≤ m)%nat →
  is_subtype_go n tr cur sup = Some b → is_subtype_go m tr cur sup = Some b.
Proof. induction 1; [done|]. intros Hb. apply is_subtype_go_S. auto. Qed.
Lemma super_step tr a : (ty ← registered_type tr a; ck_supertype ty) = None ∨
  ∃ b, (ty ← registered_type tr a; ck_supertype ty) = Some b ∧ super_of tr a b.
Proof.
  unfold super_of. destruct (registered_type tr a) as [ty|] eqn:Ht; cbn; [|auto].
  destruct (ck_supertype ty) as [b|] eqn:Hs; [|auto]. right. exists b. split; [done|]. by exists ty.
Qed.
Lemma super_of_det tr a b : super_of tr a b → (ty ← registered_type tr a; ck_supertype ty) = Some b.
Proof. intros (ty & -> & H). done. Qed.

(** Whatever the walk answers is right. *)
Lemma is_subtype_go_sound fuel tr a sup b :
  is_subtype_go fuel tr (Some a) sup = Some b → b = true ↔ rtc (super_of tr) a sup.
Proof.
  revert a. induction fuel as [|fuel IH]; intros a H; [done|]. cbn [is_subtype_go] in H.
  destruct (Z.eqb_spec a sup) as [Heq|Hne]; [subst sup; injection H as <-; split; [by intros; apply rtc_refl|done]|].
  destruct (super_step tr a) as [Hs|(c & Hs & Hsup)]; rewrite Hs in H.
  - destruct fuel; [done|]. injection H as <-. split; [done|]. intros Hr. exfalso.
    inversion Hr as [|? ? ? H1 _]; subst; [done|]. apply super_of_det in H1. congruence.
  - rewrite (IH _ H). split; [by apply rtc_l|]. intros Hr. inversion Hr as [|? ? ? H1 H2]; subst; [done|].
    apply super_of_det in H1. rewrite Hs in H1. by injection H1 as <-.
Qed.

(** *** The walk ends: supertypes go to older groups or earlier siblings *)
Lemma NoDup_range (l : list Z) n : NoDup l → (∀ x, x ∈ l → 0 ≤ x < n) → 0 ≤ n → zlen l ≤ n.
Proof.
  intros Hnd Hr Hn. transitivity (zlen (seqZ 0 n)); [|unfold zlen; rewrite length_seqZ; lia].
  unfold zlen. apply inj_le, submseteq_length, NoDup_submseteq; [done|].
  intros x Hx%Hr. apply elem_of_seqZ. lia.
Qed.
Section walk.
Variables (rank : Z → Z) (held : list Z) (tr : TypeRegistry).
Hypothesis Hw : reg_wf rank held tr.
Hypothesis Hord : ordered_registry tr.
(** Type [a] is member [p] of group [g]. *)
Definition located (a g p : Z) : Prop :=
  group_of tr a = Some g ∧ ∃ r, live_group tr g = Some r ∧ zget (gr_members r) p = Some a.
Definition below (b a : Z) : Prop := ∃ ga pa gb pb, located a ga pa ∧ located b gb pb ∧
  (rank gb < rank ga ∨ gb = ga ∧ pb < pa).

Lemma located_det a g p g' p' : located a g p → located a g' p' → g = g' ∧ p = p'.
Proof.
  intros [Hg (r & Hr & Hp)] [Hg' (r' & Hr' & Hp')]. rewrite Hg in Hg'. injection Hg' as <-. split; [done|].
  rewrite Hr in Hr'. injection Hr' as <-. pose proof (go_nodup _ _ _ _ (rw_group _ _ _ Hw _ _ Hr)) as Hnd.
  unfold zget in Hp, Hp'. destruct (Z.leb_spec 0 p), (Z.leb_spec 0 p'); try done.
  pose proof (NoDup_lookup _ _ _ _ Hnd Hp Hp'). lia.
Qed.
Lemma locate a : is_Some (group_of tr a) → ∃ g p, located a g p.
Proof.
  intros [g Hg]. pose proof Hg as (r & Hr & Hin)%(rw_owner _ _ _ Hw). apply list_elem_of_lookup in Hin as [n Hn].
  exists g, (Z.of_nat n). split; [done|]. exists r. split; [done|]. unfold zget.
  destruct (Z.leb_spec 0 (Z.of_nat n)); [|lia]. by rewrite Nat2Z.id.
Qed.
Lemma below_trans : Transitive (λ a b, below b a).
Proof.
  intros a b c (ga & pa & gb & pb & Ha & Hb & H1) (gb' & pb' & gc & pc & Hb' & Hc & H2).
  destruct (located_det _ _ _ _ _ Hb Hb') as [<- <-]. exists ga, pa, gc, pc. split_and!; try done.
  destruct H1 as [?|[-> ?]], H2 as [?|[-> ?]]; try (left; lia). right. split; [done|lia].
Qed.
Lemma below_irrefl a : ¬ below a a.
Proof.
  intros (ga & pa & gb & pb & Ha & Hb & H). destruct (located_det _ _ _ _ _ Ha Hb) as [-> ->]. lia.
Qed.
Lemma super_below a b : super_of tr a b → below b a.
Proof.
  intros (ty & Hty & Hs). destruct (locate a) as (g & p & Hloc); [apply (rw_types _ _ _ Hw); eauto|].
  pose proof Hloc as [Hga (r & Hr & Hp)]. pose proof (rw_group _ _ _ Hw _ _ Hr) as [Hlen Hnd Hst He].
  destruct (zget_is_Some (gr_key r) p) as [ct Hct]; [apply zget_Some in Hp; lia|].
  destruct (Hst _ _ Hct) as (id & ty' & Hid & Hres & Hreg). rewrite Hp in Hid. injection Hid as <-.
  rewrite Hty in Hreg. injection Hreg as <-. unfold resolve_type in Hres.
  apply result_bind_Ok in Hres as (st & Hst' & Hres). apply result_bind_Ok in Hres as (bd & _ & Hres).
  injection Hres as <-. cbn in Hs. subst st. destruct (ct_supertype ct) as [[q|c]|] eqn:Hsup; [..|done].
  - cbn in Hst'. destruct (zget (gr_members r) q) as [m|] eqn:Hq; [|done]. injection Hst' as ->.
    exists g, p, g, q. split; [done|]. split; [|right; split; [done|by eapply Hord]]. split; [|eauto].
    apply (rw_owner _ _ _ Hw). exists r. split; [done|]. apply list_elem_of_lookup. unfold zget in Hq.
    destruct (0 <=? q); [eauto|done].
  - cbn in Hst'. injection Hst' as ->. destruct (He b) as (og & Hog & Hlt).
    { unfold edge_canon_ids. apply list_elem_of_bind. exists ct. split.
      - unfold type_canon_ids. rewrite Hsup. set_solver.
      - apply list_elem_of_lookup. unfold zget in Hct. destruct (0 <=? p); [eauto|done]. }
    destruct (locate b ltac:(eauto)) as (gb & pb & Hb). pose proof Hb as [Hgb _]. rewrite Hog in Hgb. injection Hgb as <-.
    exists g, p, og, pb. split_and!; auto.
Qed.

(** Running out of fuel means a chain of that many distinct types. *)
Lemma out_of_fuel fuel a sup : is_subtype_go fuel tr (Some a) sup = None →
  ∃ l, length l = fuel ∧ Sorted (λ a b, below b a) l ∧ (∀ x l', l = x :: l' → x = a) ∧
    ∀ x, x ∈ l → is_Some (registered_type tr x) ∨ last l = Some x.
Proof.
  revert a. induction fuel as [|fuel IH]; intros a H; [by exists []; repeat split; [constructor|..]; set_solver|].
  cbn [is_subtype_go] in H. destruct (a =? sup); [done|].
  destruct (super_step tr a) as [Hs|(b & Hs & Hsup)]; rewrite Hs in H.
  - destruct fuel; [|done]. exists [a]. split_and!; try done; [by repeat constructor|naive_solver|].
    intros x ->%list_elem_of_singleton. by right.
  - destruct (IH _ H) as (l & Hl & Hso & Hhd & Hreg). exists (a :: l). cbn. split_and!; [by rewrite Hl| |naive_solver|].
    + constructor; [done|]. destruct l as [|x l]; constructor. rewrite (Hhd x l eq_refl). by apply super_below.
    + intros x [->|Hx]%elem_of_cons.
      * left. destruct Hsup as (ty & Hty & _). eauto.
      * destruct (Hreg _ Hx) as [?|Hlast]; [by left|]. right. destruct l; [set_solver|done].
Qed.
Lemma sorted_nodup l : Sorted (λ a b, below b a) l → NoDup l.
Proof.
  intros Hs. apply Sorted_StronglySorted in Hs; [|exact below_trans]. induction Hs as [|x l Hs IH Hall]; constructor; [|done].
  intros Hx. rewrite Forall_forall in Hall. by apply (below_irrefl x), Hall.
Qed.
Lemma is_subtype_total sub sup : is_Some (is_subtype tr sub sup).
Proof.
  unfold is_subtype. destruct (is_subtype_go _ tr (Some sub) sup) as [b|] eqn:Hgo; [eauto|exfalso].
  destruct (out_of_fuel _ _ _ Hgo) as (l & Hlen & Hso & _ & Hreg). pose proof (sorted_nodup _ Hso) as Hnd.
  destruct l as [|y l _] using rev_ind; [done|]. rewrite length_app in Hlen. cbn in Hlen.
  apply NoDup_app in Hnd as (Hnd & Hdis & _).
  assert (zlen l ≤ zlen (tr_types tr)); [|unfold zlen in *; lia]. apply NoDup_range; [done| |apply zlen_nonneg].
  intros x Hx. destruct (Hreg x) as [[ty Hty%zentry_Some%zget_Some]|Hlast]; [set_solver|done|].
  rewrite last_snoc in Hlast. injection Hlast as ->. exfalso. apply (Hdis x); set_solver.
Qed.
Lemma super_antisym a b : rtc (super_of tr) a b → rtc (super_of tr) b a → a = b.
Proof.
  assert (∀ a b, rtc (super_of tr) a b → a = b ∨ below b a) as Hrtc.
  { induction 1 as [|x y z Hxy _ IH]; [by left|]. right. apply super_below in Hxy.
    destruct IH as [<-|IH]; [done|]. exact (below_trans _ _ _ Hxy IH). }
  intros Hab Hba. apply Hrtc in Hab as [->|H1]; [done|]. apply Hrtc in Hba as [->|H2]; [done|].
  destruct (below_irrefl a). exact (below_trans _ _ _ H1 H2).
Qed.
End walk.

(** *** Kinds: a registry agrees when each stored key does *)
Lemma type_kind_extends tr tr' id k : extends tr tr' → type_kind tr id = Some k → type_kind tr' id = Some k.
Proof.
  intros He (ty & Hty & ->)%fmap_Some. unfold type_kind. by rewrite (ex_types _ _ He _ _ Hty).
Qed.
Lemma kinded_key_extends tr tr' key : extends tr tr' → kinded_key tr key → kinded_key tr' key.
Proof.
  intros He Hk p ct Hct. specialize (Hk p ct Hct). destruct (ct_supertype ct) as [[q|id]|]; [done| |done].
  by apply (type_kind_extends tr).
Qed.
Lemma kinded_extends key tr tr' :
  kinded_registry tr → kinded_key tr' key → intern_post key tr tr' → kinded_registry tr'.
Proof.
  intros Hr Hk Hp g r Hg. destruct (ip_back _ _ _ Hp _ _ Hg) as [->|(r0 & H0 & <-)]; [done|].
  apply (kinded_key_extends tr); [apply Hp|]. by apply (Hr g).
Qed.
Lemma stored_member rank held tr g rec p ct :
  reg_wf rank held tr → live_group tr g = Some rec → zget (gr_key rec) p = Some ct → ∃ id ty,
    zget (gr_members rec) p = Some id ∧ registered_type tr id = Some ty ∧ ck_kind ty = body_kind (ct_body ct) ∧
    resolve_type (gr_members rec) ct = Ok ty ∧
    match ct_supertype ct with Some r => ∃ s, resolve r (gr_members rec) = Ok s ∧ ck_supertype ty = Some s | None => ck_supertype ty = None end.
Proof.
  intros Hw Hg Hct. destruct (go_stored _ _ _ _ (rw_group _ _ _ Hw _ _ Hg) _ _ Hct) as (id & ty & Hid & Hres & Hty).
  exists id, ty. split_and!; try done; unfold resolve_type in Hres;
    apply result_bind_Ok in Hres as (st & Hst & Hres); apply result_bind_Ok in Hres as (bd & _ & [= <-]); [done|].
  destruct (ct_supertype ct) as [r|]; cbn; [|by injection Hst as <-].
  destruct (resolve r (gr_members rec)) as [s| |]; [|done..]. injection Hst as <-. by exists s.
Qed.
Lemma kinds_kinded rank held tr : reg_wf rank held tr → (kinds_agree tr ↔ kinded_registry tr).
Proof.
  intros Hw. split.
  - intros Hk g rec Hg p ct Hct. destruct (stored_member rank held tr g rec p ct Hw Hg Hct) as (id & ty & _ & Hty & Hkind & _ & Hs).
    destruct (ct_supertype ct) as [r|]; [|done]. destruct Hs as (s & Hs & Hsup).
    assert (type_kind tr s = Some (body_kind (ct_body ct))) as Hks.
    { rewrite <- (Hk id s) by (by exists ty). unfold type_kind. rewrite Hty. cbn. by rewrite Hkind. }
    destruct r as [q|c]; cbn in Hs; [|by injection Hs as ->].
    destruct (zget (gr_members rec) q) as [m|] eqn:Hq; [|done]. injection Hs as ->.
    pose proof (go_len _ _ _ _ (rw_group _ _ _ Hw _ _ Hg)). pose proof (zget_Some _ _ _ Hq).
    destruct (zget_is_Some (gr_key rec) q) as [sup Hsupk]; [lia|]. exists sup. split; [done|].
    destruct (stored_member rank held tr g rec q sup Hw Hg Hsupk) as (id' & ty' & Hid' & Hty' & Hkind' & _).
    rewrite Hq in Hid'. injection Hid' as <-. unfold type_kind in Hks. rewrite Hty' in Hks. cbn in Hks. congruence.
  - intros Hk a b (ty & Hty & Hs). destruct (locate rank held tr Hw a) as (g & p & _ & rec & Hg & Hp); [apply (rw_types _ _ _ Hw); eauto|].
    pose proof (go_len _ _ _ _ (rw_group _ _ _ Hw _ _ Hg)). pose proof (zget_Some _ _ _ Hp).
    destruct (zget_is_Some (gr_key rec) p) as [ct Hct]; [lia|]. pose proof (Hk g rec Hg p ct Hct) as Hkk.
    destruct (stored_member rank held tr g rec p ct Hw Hg Hct) as (id & ty' & Hid & Hty' & Hkind & _ & Hsup).
    rewrite Hp in Hid. injection Hid as <-. rewrite Hty in Hty'. injection Hty' as <-.
    assert (type_kind tr a = Some (body_kind (ct_body ct))) as -> by (unfold type_kind; rewrite Hty; cbn; by rewrite Hkind).
    destruct (ct_supertype ct) as [[q|c]|]; [| |congruence]; destruct Hsup as (s & Hres & Heq); rewrite Hs in Heq; injection Heq as <-; cbn in Hres.
    + destruct Hkk as (sup & Hq & Hke). destruct (stored_member rank held tr g rec q sup Hw Hg Hq) as (id' & ty' & Hid' & Hty' & Hkind' & _).
      rewrite Hid' in Hres. injection Hres as ->. unfold type_kind. rewrite Hty'. cbn. by rewrite Hkind', Hke.
    + by injection Hres as ->.
Qed.
