(* ===== verification/Interning.v ===== *)
(** * Interning: what the type registry promises its clients

    Canonical identity is structural equality of keys; a module's types read back
    as their IR with every reference canonical; declared subtyping is decided;
    and over every history of registrations and releases the counts are exact
    (src/src/canon/registry.rs, keys.rs, materialize.rs). *)
From stdpp Require Import relations.
From S2P Require Import Prelude Types Keys Registry.
Open Scope Z_scope.

(** ** Iterated fallible maps *)
Lemma mapM_Ok {E A B} (f : A → result E B) l k :
  mapM f l = Ok k ↔ Forall2 (λ x y, f x = Ok y) l k.
Proof.
  revert k. induction l as [|x l IH]; intros k; cbn [mapM].
  - split; [by intros [= <-]|]. by intros ->%Forall2_nil_inv_l.
  - rewrite result_bind_Ok. setoid_rewrite result_bind_Ok. setoid_rewrite IH. split.
    + intros (y & Hy & k' & Hk & [= <-]). by constructor.
    + intros (y & k' & Hy & Hk & ->)%Forall2_cons_inv_l. eauto.
Qed.
Lemma mapM_ext {E A B} (f g : A → result E B) l : (∀ x, x ∈ l → f x = g x) → mapM f l = mapM g l.
Proof.
  induction l as [|x l IH]; intros H; [done|]. cbn [mapM]. rewrite (H x), IH by set_solver. done.
Qed.
(** Mapping twice is mapping once. *)
Lemma mapM_compose {E A B C} (f : A → result E B) (g : B → result E C) (h : A → result E C) l :
  (∀ x, x ∈ l → ∃ y, f x = Ok y ∧ g y = h x) → ∃ k, mapM f l = Ok k ∧ mapM g k = mapM h l.
Proof.
  induction l as [|x l IH]; intros H; [by exists []|].
  destruct (H x ltac:(set_solver)) as (y & Hy & Hg). destruct IH as (k & Hk & Hgk); [set_solver|].
  exists (y :: k). cbn [mapM]. rewrite Hy, Hk. cbn. by rewrite Hg, Hgk.
Qed.

(** ** References of the module IR *)
Definition heap_refs (h : IrHeap) : list Z := match h with IrConcrete id _ => [id] | _ => [] end.
Definition val_refs (v : IrVal) : list Z := match v with IrRefTy _ h => heap_refs h | _ => [] end.
Definition field_refs (f : IrField) : list Z := match f_storage f with IrSVal v => val_refs v | _ => [] end.
Definition body_refs (b : CompositeBody) : list Z :=
  match b with
  | CompFunc p r => (p ++ r) ≫= val_refs
  | CompStruct fs => fs ≫= field_refs
  | CompArray f => field_refs f
  end.
Definition type_refs (t : ModuleType) : list Z :=
  match mt_supertype t with Some s => [s] | None => [] end ++ body_refs (mt_body t).

(** A key resolves to what translating the IR with the resolved references gives. *)
Section key_resolve.
Variables (cref canon : Z → res CanonRef) (members : list Z).
(** Reference [m] translates, and its translation resolves to its canonical id. *)
Definition ref_agrees (m : Z) : Prop :=
  ∃ r, cref m = Ok r ∧ CrCanon <$> resolve r members = canon m.

Lemma heap_key_resolve n h : (∀ m, m ∈ heap_refs h → ref_agrees m) →
  ∃ c, heap_key cref h = Ok c ∧ resolve_val members (CvRef n c) = CvRef n <$> heap_key canon h.
Proof.
  intros H. destruct h; try (eexists; split; reflexivity).
  destruct (H idx ltac:(set_solver)) as (r & Hr & Hc). cbn. rewrite Hr, <- Hc. cbn.
  eexists. split; [done|]. cbn. by destruct (resolve r members).
Qed.
Lemma val_key_resolve v : (∀ m, m ∈ val_refs v → ref_agrees m) →
  ∃ c, val_key cref v = Ok c ∧ resolve_val members c = val_key canon v.
Proof.
  intros H. destruct v as [| | | | |n h]; try (eexists; split; reflexivity).
  destruct (heap_key_resolve n h H) as (c & Hc & Hr). exists (CvRef n c). cbn [val_key]. by rewrite Hc, Hr.
Qed.
Lemma field_key_resolve f : (∀ m, m ∈ field_refs f → ref_agrees m) →
  ∃ c, field_key cref f = Ok c ∧ resolve_field members c = field_key canon f.
Proof.
  unfold field_refs, field_key. destruct (f_storage f) as [| |v]; intros H; try (eexists; split; reflexivity).
  destruct (val_key_resolve v H) as (c & Hc & Hr). rewrite Hc. cbn. eexists. split; [done|].
  unfold resolve_field. cbn. rewrite Hr. by destruct (val_key canon v).
Qed.
Lemma body_key_resolve b : (∀ m, m ∈ body_refs b → ref_agrees m) →
  ∃ c, body_key cref b = Ok c ∧ resolve_body members c = body_key canon b ∧
    body_kind c = match b with CompFunc _ _ => AggFunc | CompStruct _ => AggStruct | CompArray _ => AggArray end.
Proof.
  destruct b as [p r|fs|f]; cbn [body_refs body_key]; intros H.
  - destruct (mapM_compose (val_key cref) (resolve_val members) (val_key canon) p) as (p' & Hp & Hp').
    { intros v Hv. apply val_key_resolve. intros m Hm. apply H, list_elem_of_bind. exists v. set_solver. }
    destruct (mapM_compose (val_key cref) (resolve_val members) (val_key canon) r) as (r' & Hr & Hr').
    { intros v Hv. apply val_key_resolve. intros m Hm. apply H, list_elem_of_bind. exists v. set_solver. }
    rewrite Hp, Hr. cbn. eexists. split; [done|]. cbn. by rewrite Hp', Hr'.
  - destruct (mapM_compose (field_key cref) (resolve_field members) (field_key canon) fs) as (k & Hk & Hk').
    { intros v Hv. apply field_key_resolve. intros m Hm. apply H, list_elem_of_bind. exists v. set_solver. }
    rewrite Hk. cbn. eexists. split; [done|]. cbn. by rewrite Hk'.
  - destruct (field_key_resolve f H) as (c & Hc & Hr). rewrite Hc. cbn. eexists. split; [done|]. cbn. by rewrite Hr.
Qed.
End key_resolve.

(** The stored type of module type [t] under the canonical ids [ids]. *)
Definition canon_cref (ids : list Z) (m : Z) : res CanonRef :=
  CrCanon <$> expect (zget ids m) "index out of bounds".
Definition canonical_type (ids : list Z) (t : ModuleType) : res CanonType :=
  st ← match mt_supertype t with Some s => Some <$> expect (zget ids s) "index out of bounds" | None => Ok None end;
  b ← body_key (canon_cref ids) (mt_body t);
  Ok {| ck_kind := module_type_kind t; ck_finality := mt_finality t; ck_supertype := st; ck_body := b |}.

Lemma type_key_resolve cref ids members t :
  (∀ m, m ∈ type_refs t → ref_agrees cref (canon_cref ids) members m) →
  ∃ c, type_key cref t = Ok c ∧ resolve_type members c = canonical_type ids t.
Proof.
  intros H. unfold type_refs in H. unfold type_key, canonical_type.
  destruct (body_key_resolve cref (canon_cref ids) members (mt_body t)) as (b & Hb & Hr & Hk); [set_solver|].
  rewrite Hb. assert (module_type_kind t = body_kind b) as -> by (unfold module_type_kind; by rewrite Hk).
  destruct (mt_supertype t) as [s|].
  - destruct (H s ltac:(set_solver)) as (r & Hs & Hc). rewrite Hs. cbn. eexists. split; [done|].
    unfold resolve_type. cbn. rewrite Hr. unfold canon_cref in Hc.
    destruct (resolve r members) as [c|e|w], (expect (zget ids s) _) as [c'|e'|w']; try discriminate Hc;
      cbn; by injection Hc as <-.
  - cbn. eexists. split; [done|]. unfold resolve_type. cbn. by rewrite Hr.
Qed.

(** Translations that agree on the references agree. *)
Lemma canonical_type_ext ids ids' t :
  (∀ m, m ∈ type_refs t → zget ids m = zget ids' m) → canonical_type ids t = canonical_type ids' t.
Proof.
  intros H. unfold type_refs in H. unfold canonical_type.
  assert (∀ m, m ∈ body_refs (mt_body t) → canon_cref ids m = canon_cref ids' m) as Hc.
  { intros m Hm. unfold canon_cref. by rewrite (H m) by set_solver. }
  assert (∀ v, (∀ m, m ∈ val_refs v → canon_cref ids m = canon_cref ids' m) →
    val_key (canon_cref ids) v = val_key (canon_cref ids') v) as Hv.
  { intros [| | | | |n []] Hm; try done. cbn. by rewrite Hm by set_solver. }
  assert (∀ f, (∀ m, m ∈ field_refs f → canon_cref ids m = canon_cref ids' m) →
    field_key (canon_cref ids) f = field_key (canon_cref ids') f) as Hf.
  { intros f. unfold field_refs, field_key. destruct (f_storage f); intros Hm; try done. by rewrite Hv. }
  assert (body_key (canon_cref ids) (mt_body t) = body_key (canon_cref ids') (mt_body t)) as ->.
  { destruct (mt_body t) as [p r|fs|f]; cbn [body_refs body_key] in *.
    - rewrite (mapM_ext (val_key (canon_cref ids)) (val_key (canon_cref ids')) p),
        (mapM_ext (val_key (canon_cref ids)) (val_key (canon_cref ids')) r); [done|..];
        intros v Hin; apply Hv; intros m Hm; apply Hc, list_elem_of_bind; exists v; set_solver.
    - rewrite (mapM_ext (field_key (canon_cref ids)) (field_key (canon_cref ids')) fs); [done|].
      intros v Hin; apply Hf; intros m Hm; apply Hc, list_elem_of_bind; exists v; set_solver.
    - by rewrite Hf. }
  destruct (mt_supertype t) as [s|]; [|done]. by rewrite (H s) by set_solver.
Qed.

Lemma canonical_type_Ok ids t :
  (∀ m, m ∈ type_refs t → 0 ≤ m < zlen ids) → ∃ ty, canonical_type ids t = Ok ty.
Proof.
  intros Hm. unfold type_refs in Hm. unfold canonical_type.
  destruct (body_key_resolve (canon_cref ids) (canon_cref ids) [] (mt_body t)) as (b & -> & _).
  { intros m Hin. unfold ref_agrees, canon_cref. destruct (zget_is_Some ids m) as [x ->]; [set_solver|]. eexists. done. }
  destruct (mt_supertype t) as [s|]; [|eexists; done].
  destruct (zget_is_Some ids s) as [x ->]; [set_solver|]. eexists. done.
Qed.

(** *** The edges of a key come from its references *)
Section key_edges.
Variable cref : Z → res CanonRef.
Definition edge_of (refs ids : list Z) : Prop :=
  (∀ id, id ∈ ids → ∃ m, m ∈ refs ∧ cref m = Ok (CrCanon id)) ∧ zlen ids ≤ zlen refs.
Lemma edge_of_nil refs : edge_of refs [].
Proof. split; [set_solver|]. rewrite zlen_nil. apply zlen_nonneg. Qed.
Lemma edge_of_app r1 r2 i1 i2 : edge_of r1 i1 → edge_of r2 i2 → edge_of (r1 ++ r2) (i1 ++ i2).
Proof.
  intros [H1 L1] [H2 L2]. split; [|rewrite !zlen_app; lia].
  intros id [Hi|Hi]%elem_of_app; [destruct (H1 _ Hi) as (m & ? & ?)|destruct (H2 _ Hi) as (m & ? & ?)]; exists m; set_solver.
Qed.
Lemma edge_of_mapM {A B} (f : A → res B) (refs : A → list Z) (ids : B → list Z) l k :
  (∀ x y, f x = Ok y → edge_of (refs x) (ids y)) → mapM f l = Ok k → edge_of (l ≫= refs) (k ≫= ids).
Proof.
  intros H Hk%mapM_Ok. induction Hk; [apply edge_of_nil|]. cbn. apply edge_of_app; auto.
Qed.
Lemma val_key_edges v c : val_key cref v = Ok c → edge_of (val_refs v) (val_canon_id c).
Proof.
  destruct v as [| | | | |n h]; try (intros [= <-]; apply edge_of_nil). cbn [val_key].
  destruct h; try (intros [= <-]; apply edge_of_nil). cbn. destruct (cref idx) as [r| |] eqn:Hr; try done.
  intros [= <-]. destruct r; [apply edge_of_nil|]. cbn. split; [|done]. intros i ->%list_elem_of_singleton.
  exists idx. set_solver.
Qed.
Lemma field_key_edges f c : field_key cref f = Ok c → edge_of (field_refs f) (field_canon_id c).
Proof.
  unfold field_key, field_refs. destruct (f_storage f) as [| |v]; try (intros [= <-]; apply edge_of_nil).
  destruct (val_key cref v) as [cv| |] eqn:Hv; try done. intros [= <-]. by apply val_key_edges.
Qed.
Lemma body_key_edges b c : body_key cref b = Ok c → edge_of (body_refs b) (body_canon_ids c).
Proof.
  destruct b as [p r|fs|f]; cbn [body_key body_refs].
  - rewrite result_bind_Ok. setoid_rewrite result_bind_Ok. intros (p' & Hp & r' & Hr & [= <-]). cbn.
    apply (edge_of_mapM _ val_refs val_canon_id) in Hp, Hr; try apply val_key_edges.
    rewrite !bind_app. by apply edge_of_app.
  - destruct (mapM (field_key cref) fs) as [k| |] eqn:Hk; try done. intros [= <-]. cbn.
    apply (edge_of_mapM _ field_refs field_canon_id) in Hk; [done|apply field_key_edges].
  - destruct (field_key cref f) as [k| |] eqn:Hk; try done. intros [= <-]. by apply field_key_edges.
Qed.
Lemma type_key_edges t c : type_key cref t = Ok c → edge_of (type_refs t) (type_canon_ids c).
Proof.
  unfold type_key, type_refs, type_canon_ids. rewrite result_bind_Ok. setoid_rewrite result_bind_Ok.
  intros (st & Hst & b & Hb & [= <-]). cbn. apply edge_of_app; [|by apply body_key_edges].
  destruct (mt_supertype t) as [s|]; [|injection Hst as <-; apply edge_of_nil].
  destruct (cref s) as [r| |] eqn:Hr; try done. injection Hst as <-. destruct r; [apply edge_of_nil|].
  split; [|done]. intros i ->%list_elem_of_singleton. exists s. set_solver.
Qed.
End key_edges.

(** ** Interning a module *)

(** A reference goes to an earlier type or to a sibling; a supertype comes earlier. *)
Record module_types_ok (types : list ModuleType) : Prop := {
  mo_refs : ∀ i t m, zget types i = Some t → m ∈ type_refs t → 0 ≤ m ∧
    (m < i ∨ ∀ j, i ≤ j ≤ m → ∃ u, zget types j = Some u ∧ mt_group u = mt_group t);
  mo_super : ∀ i t s, zget types i = Some t → mt_supertype t = Some s → s < i;
}.
(** A declared supertype is of the kind of its subtype, as validation makes sure. *)
Definition super_kinds (types : list ModuleType) : Prop := ∀ i t s u,
  zget types i = Some t → mt_supertype t = Some s → zget types s = Some u → module_type_kind t = module_type_kind u.
Lemma body_key_kind cref b c : body_key cref b = Ok c →
  body_kind c = match b with CompFunc _ _ => AggFunc | CompStruct _ => AggStruct | CompArray _ => AggArray end.
Proof.
  destruct b as [p r|fs|f]; cbn [body_key]; intros H.
  - apply result_bind_Ok in H as (? & _ & H). by apply result_bind_Ok in H as (? & _ & [= <-]).
  - destruct (mapM _ fs); [|done..]. by injection H as <-.
  - destruct (field_key _ f); [|done..]. by injection H as <-.
Qed.
(** The registrations interning these types can take. *)
Definition module_regs (types : list ModuleType) : Z := zsum (λ t, 1 + zlen (type_refs t)) types.

Lemma group_run_spec g (l : list ModuleType) :
  0 ≤ Z.of_nat (group_run g l) ≤ zlen l ∧
  (∀ j, 0 ≤ j < Z.of_nat (group_run g l) → ∃ u, zget l j = Some u ∧ mt_group u = g) ∧
  (∀ u, zget l (Z.of_nat (group_run g l)) = Some u → mt_group u ≠ g).
Proof.
  induction l as [|t l (IH1 & IH2 & IH3)]; cbn [group_run].
  { split; [done|]. split; [intros j Hj; lia|]. intros u. by rewrite zget_nil. }
  rewrite zlen_cons. pose proof (zlen_nonneg l). destruct (Z.eqb_spec (mt_group t) g) as [Hg|Hg].
  - split; [lia|]. split.
    + intros j Hj. destruct (Z.eq_dec j 0) as [->|]; [by exists t|]. rewrite zget_cons_S by lia. apply IH2. lia.
    + intros u. rewrite zget_cons_S by lia. replace (Z.of_nat (S _) - 1) with (Z.of_nat (group_run g l)) by lia. apply IH3.
  - split; [lia|]. split; [intros j Hj; lia|]. intros u. rewrite zget_cons_0. by intros [= <-].
Qed.

(** [m2c] reads back the types before [i], whose references also come before [i]. *)
Record reads_back (types : list ModuleType) (i : Z) (m2c : list Z) (tr : TypeRegistry) : Prop := {
  rb_len : zlen m2c = zlen types;
  rb_refs : ∀ j t m, j < i → zget types j = Some t → m ∈ type_refs t → 0 ≤ m < i;
  rb_types : ∀ j t, j < i → zget types j = Some t → ∃ id ty,
    zget m2c j = Some id ∧ registered_type tr id = Some ty ∧ canonical_type m2c t = Ok ty;
}.

Section one_group.
Variables (types : list ModuleType) (i e : Z) (m2c : list Z) (rank : Z → Z) (held : list Z) (tr : TypeRegistry).
Hypothesis Hok : module_types_ok types.
Hypothesis Hi : 0 ≤ i < e.
Hypothesis He : e ≤ zlen types.
Hypothesis Hsmall : zlen types - i ≤ 2 ^ 32.
Hypothesis Hrefs : ∀ j t m, j < e → zget types j = Some t → m ∈ type_refs t → 0 ≤ m < e.
Hypothesis Hrb : reads_back types i m2c tr.
Hypothesis Hw : reg_wf rank held tr.

Lemma module_ref_agrees members m2c' m :
  0 ≤ m < e → zlen members = e - i → zsplice m2c i members = Some m2c' →
  ref_agrees (module_cref i e m2c) (canon_cref m2c') members m.
Proof.
  intros Hm Hlen Hs. unfold ref_agrees, module_cref, canon_cref.
  destruct (Z.leb_spec i m), (Z.ltb_spec m e); try lia; cbn [andb].
  - eexists. split; [done|]. rewrite wrap_id by (unfold u_ok; lia). cbn [resolve].
    by rewrite (zget_splice_in _ _ _ _ m Hs ltac:(lia)).
  - destruct (zget_is_Some types m ltac:(lia)) as [t Ht].
    destruct (rb_types _ _ _ _ Hrb m t ltac:(lia) Ht) as (id & ty & Hid & _). rewrite Hid.
    eexists. split; [done|]. rewrite (zget_splice_out _ _ _ _ m Hs) by lia. by rewrite Hid.
Qed.

Lemma build_key_ok : ∃ slice key, zslice types i e = Some slice ∧
  build_key types i e m2c = Ok key ∧ Forall2 (λ t c, type_key (module_cref i e m2c) t = Ok c) slice key ∧
  zlen key = e - i ∧ (∀ p, 0 ≤ p < e - i → zget slice p = zget types (i + p)).
Proof.
  pose proof (zslice_is_Some types i e ltac:(lia) He) as Hsl. set (slice := ztake _ _) in Hsl. pose proof (zlen_slice _ _ _ _ Hsl) as Hl.
  assert (∀ p, 0 ≤ p < e - i → zget slice p = zget types (i + p)) as Hget.
  { intros p Hp. by apply (zget_slice _ _ _ _ _ Hsl). }
  destruct (mapM_compose (type_key (module_cref i e m2c)) (λ _ : CType, Ok () : res ()) (λ _, Ok ()) slice) as (key & Hk & _).
  { intros t [n Hn]%list_elem_of_lookup. pose proof (lookup_lt_Some _ _ _ Hn).
    assert (zget slice (Z.of_nat n) = Some t) as Hz.
    { unfold zget. destruct (Z.leb_spec 0 (Z.of_nat n)); [|lia]. by rewrite Nat2Z.id. }
    rewrite Hget in Hz by (unfold zlen in Hl; lia).
    assert (∃ c, type_key (module_cref i e m2c) t = Ok c) as [c Hc]; [|by exists c].
    assert (zlen (replicate (Z.to_nat (e - i)) 0) = e - i) as Hrep by (rewrite zlen_replicate; lia).
    destruct (zsplice_is_Some m2c (replicate (Z.to_nat (e - i)) 0) i) as [m2c' Hs]; [lia|rewrite Hrep, (rb_len _ _ _ _ Hrb); lia|].
    destruct (type_key_resolve (module_cref i e m2c) m2c' (replicate (Z.to_nat (e - i)) 0) t) as (c & Hc & _); [|eauto].
    intros m Hm. apply module_ref_agrees; [|done|done].
    apply (Hrefs (i + Z.of_nat n) t); [unfold zlen in *; lia|done|done]. }
  exists slice, key. unfold build_key. rewrite Hsl. cbn. rewrite Hk. apply mapM_Ok in Hk.
  split_and!; try done. rewrite <- Hl. unfold zlen. by rewrite (Forall2_length _ _ _ Hk).
Qed.

Section built.
Variables (slice : list ModuleType) (key : CGroup).
Hypothesis Hkey : Forall2 (λ t c, type_key (module_cref i e m2c) t = Ok c) slice key.
Hypothesis Hlen : zlen key = e - i.
Hypothesis Hget : ∀ p, 0 ≤ p < e - i → zget slice p = zget types (i + p).

Lemma built_type p c : zget key p = Some c → ∃ t, 0 ≤ p < e - i ∧ zget types (i + p) = Some t ∧
  type_key (module_cref i e m2c) t = Ok c.
Proof.
  intros Hc. destruct (forall2_zget _ _ _ _ _ Hkey Hc) as (t & Ht & Htk). pose proof (zget_Some _ _ _ Hc) as Hp.
  rewrite Hlen in Hp. exists t. rewrite <- Hget by done. done.
Qed.
Lemma built_ordered : ordered_key key.
Proof.
  intros p c q Hc Hs. destruct (built_type _ _ Hc) as (t & Hp & Ht & Htk). unfold type_key in Htk.
  apply result_bind_Ok in Htk as (st & Hst & Htk). apply result_bind_Ok in Htk as (b & _ & [= <-]). cbn in Hs. subst st.
  destruct (mt_supertype t) as [s|] eqn:Hsup; [|done]. pose proof (mo_super _ Hok _ _ _ Ht Hsup).
  pose proof (mo_refs _ Hok _ _ s Ht) as Hsr. unfold type_refs in Hsr. rewrite Hsup in Hsr.
  unfold module_cref in Hst. destruct (Z.leb_spec i s), (Z.ltb_spec s e); cbn in Hst;
    try (destruct (zget m2c s); discriminate).
  injection Hst as <-. rewrite wrap_id by (unfold u_ok; lia). lia.
Qed.
Lemma built_kinded : super_kinds types → kinded_key tr key.
Proof.
  intros Hsk p c Hc. destruct (built_type _ _ Hc) as (t & Hp & Ht & Htk). unfold type_key in Htk.
  apply result_bind_Ok in Htk as (st & Hst & Htk). apply result_bind_Ok in Htk as (b & Hb%body_key_kind & [= <-]).
  cbn [ct_supertype ct_body]. rewrite Hb. destruct (mt_supertype t) as [s|] eqn:Hsup; [|by injection Hst as <-].
  pose proof (mo_super _ Hok _ _ _ Ht Hsup) as Hlt. pose proof (Hrefs (i + p) t s ltac:(lia) Ht) as Hsr.
  unfold type_refs in Hsr. rewrite Hsup in Hsr. specialize (Hsr ltac:(set_solver)).
  destruct (zget_is_Some types s) as [u Hu]; [pose proof (zget_Some _ _ _ Ht); lia|].
  pose proof (Hsk _ _ _ _ Ht Hsup Hu) as Hku. fold (module_type_kind t). unfold module_cref in Hst.
  destruct (Z.leb_spec i s), (Z.ltb_spec s e); try lia; cbn [andb] in Hst.
  - injection Hst as <-. rewrite wrap_id by (unfold u_ok; lia).
    destruct (zget_is_Some key (s - i)) as [c' Hc']; [lia|]. exists c'. split; [done|].
    destruct (built_type _ _ Hc') as (u' & _ & Hu' & Htk). replace (i + (s - i)) with s in Hu' by lia.
    rewrite Hu in Hu'. injection Hu' as <-. unfold type_key in Htk. apply result_bind_Ok in Htk as (st' & _ & Htk).
    apply result_bind_Ok in Htk as (b' & Hb'%body_key_kind & [= <-]). cbn [ct_body]. by rewrite Hku, Hb'.
  - destruct (rb_types _ _ _ _ Hrb s u ltac:(lia) Hu) as (id & ty & Hid & Hty & Hcan).
    rewrite Hid in Hst. injection Hst as <-. unfold type_kind. rewrite Hty. unfold canonical_type in Hcan.
    apply result_bind_Ok in Hcan as (? & _ & Hcan). apply result_bind_Ok in Hcan as (? & _ & [= <-]). cbn. by rewrite <- Hku.
Qed.
Lemma built_edges : zlen (edge_canon_ids key) + (e - i) ≤ module_regs slice ∧
  ∀ id, id ∈ edge_canon_ids key → is_Some (group_of tr id).
Proof.
  split.
  - rewrite <- Hlen. clear Hlen Hget. unfold module_regs, edge_canon_ids. induction Hkey as [|t c l k Hc Hk IH]; cbn; [done|].
    rewrite zlen_app, zlen_cons. specialize (IH Hk). destruct (type_key_edges _ _ _ Hc) as [_ Hle]. lia.
  - intros id (c & Hid & Hc)%list_elem_of_bind. apply elem_zget in Hc as [p Hp].
    destruct (built_type _ _ Hp) as (t & Hpr & Ht & Htk). destruct (type_key_edges _ _ _ Htk) as [He' _].
    destruct (He' _ Hid) as (m & Hm & Hcm). unfold module_cref in Hcm.
    pose proof (Hrefs (i + p) t m ltac:(lia) Ht Hm). destruct (Z.leb_spec i m), (Z.ltb_spec m e); try done; try lia.
    cbn [andb] in Hcm. destruct (zget_is_Some types m ltac:(lia)) as [u Hu].
    destruct (rb_types _ _ _ _ Hrb m u ltac:(lia) Hu) as (id' & ty & Hid' & Hty & _).
    rewrite Hid' in Hcm. injection Hcm as ->. apply (rw_types _ _ _ Hw). eauto.
Qed.
Lemma built_resolves members m2c' t c :
  zlen members = e - i → zsplice m2c i members = Some m2c' → (∃ p, 0 ≤ p < e - i ∧ zget types (i + p) = Some t) →
  type_key (module_cref i e m2c) t = Ok c → resolve_type members c = canonical_type m2c' t.
Proof.
  intros Hml Hs (p & Hp & Ht) Hc.
  destruct (type_key_resolve (module_cref i e m2c) m2c' members t) as (c' & Hc' & Hr).
  - intros m Hm. apply module_ref_agrees; [|done|done]. apply (Hrefs (i + p) t); [lia|done|done].
  - rewrite Hc in Hc'. by injection Hc' as <-.
Qed.

Lemma built_key_ok : key_ok tr key.
Proof.
  split; [apply built_edges|]. intros c members Hc Hml. apply elem_zget in Hc as [p Hp].
  destruct (built_type _ _ Hp) as (t & Hpr & Ht & Htk). rewrite Hlen in Hml.
  destruct (zsplice_is_Some m2c members i) as [m2c' Hs]; [lia|rewrite Hml, (rb_len _ _ _ _ Hrb); lia|].
  rewrite (built_resolves _ _ t _ Hml Hs) by eauto. apply canonical_type_Ok. intros m Hm.
  rewrite (zlen_splice _ _ _ _ Hs), (rb_len _ _ _ _ Hrb). pose proof (Hrefs (i + p) t m ltac:(lia) Ht Hm). lia.
Qed.

(** Registering the group reads its types back, and the earlier ones still. *)
Lemma group_registered tr' g rec rank' held' :
  reg_wf rank' held' tr' → live_group tr' g = Some rec → gr_key rec = key → extends tr tr' →
  ∃ m2c', zslice (gr_members rec) 0 (e - i) = Some (gr_members rec) ∧
    zsplice m2c i (gr_members rec) = Some m2c' ∧ reads_back types e m2c' tr'.
Proof.
  intros Hw' Hg Hk Hext. destruct (rw_group _ _ _ Hw' _ _ Hg) as [Hml _ Hst _]. rewrite Hk, ?Hlen in *.
  destruct (zsplice_is_Some m2c (gr_members rec) i) as [m2c' Hs]; [lia|rewrite Hml, (rb_len _ _ _ _ Hrb); lia|].
  exists m2c'. split_and!; [|done|].
  { rewrite zslice_is_Some by lia. by rewrite zdrop_0, ztake_all by lia. }
  split; [by rewrite (zlen_splice _ _ _ _ Hs), (rb_len _ _ _ _ Hrb)|done|].
  intros j t Hj Ht. pose proof (zget_Some _ _ _ Ht). destruct (Z.lt_ge_cases j i).
  - destruct (rb_types _ _ _ _ Hrb j t ltac:(lia) Ht) as (id & ty & Hid & Hty & Hc). exists id, ty.
    split_and!; [rewrite (zget_splice_out _ _ _ _ j Hs) by lia; done|by apply (ex_types _ _ Hext)|].
    rewrite <- Hc. apply canonical_type_ext. intros m Hm. pose proof (rb_refs _ _ _ _ Hrb j t m ltac:(lia) Ht Hm).
    apply (zget_splice_out _ _ _ _ m Hs). lia.
  - destruct (zget_is_Some key (j - i)) as [c Hc]; [lia|]. destruct (built_type _ _ Hc) as (t' & Hp & Ht' & Htk).
    replace (i + (j - i)) with j in Ht' by lia. rewrite Ht in Ht'. injection Ht' as <-.
    destruct (Hst _ _ Hc) as (id & ty & Hid & Hr & Hty). exists id, ty.
    split_and!; [by rewrite (zget_splice_in _ _ _ _ j Hs) by lia|done|].
    rewrite <- Hr. symmetry. apply built_resolves; try done. exists (j - i). by replace (i + (j - i)) with j by lia.
Qed.
End built.
End one_group.

Lemma ordered_extends key tr tr' :
  ordered_registry tr → ordered_key key → intern_post key tr tr' → ordered_registry tr'.
Proof.
  intros Ho Hk Hp g r Hr. destruct (ip_back _ _ _ Hp _ _ Hr) as [->|(r0 & H0 & <-)]; [done|]. by apply (Ho g).
Qed.

(** The loop, from any group boundary. *)
Lemma intern_module_go_spec types fuel i m2c reg rank held tr :
  module_types_ok types → 0 ≤ i ≤ zlen types → zlen types - i < Z.of_nat fuel →
  reads_back types i m2c tr → reg_wf rank held tr → ordered_registry tr →
  room (zlen types - i) (zlen types - i) (module_regs (zdrop i types)) held tr →
  ∃ ids gs tr' rank', intern_module_go fuel types i m2c reg tr = (Ok (ids, reg ++ gs), tr') ∧
    reads_back types (zlen types) ids tr' ∧ reg_wf rank' (gs ++ held) tr' ∧ ordered_registry tr' ∧ extends tr tr' ∧
    registrations (gs ++ held) tr' ≤ registrations held tr + module_regs (zdrop i types) ∧
    (super_kinds types → kinded_registry tr → kinded_registry tr').
Proof.
  intros Hok. revert i m2c reg rank held tr. induction fuel as [|fuel IH]; intros i m2c reg rank held tr Hi Hf Hrb Hw Hord Hroom.
  { lia. }
  cbn [intern_module_go]. destruct (zget types i) as [t|] eqn:Ht.
  2: { assert (i = zlen types) as ->.
       { destruct (Z.eq_dec i (zlen types)); [done|]. destruct (zget_is_Some types i ltac:(lia)) as [? ?]. congruence. }
       exists m2c, [], tr, rank. rewrite app_nil_r. split_and!; try done.
       assert (0 ≤ module_regs (zdrop (zlen types) types)); [|cbn; lia].
       apply zsum_nonneg. intros x _. pose proof (zlen_nonneg (type_refs x)). lia. }
  destruct (group_run_spec (mt_group t) (zdrop i types)) as ([Hn0 Hn] & Hrun & Hstop).
  set (n := group_run (mt_group t) (zdrop i types)) in *. set (e := i + Z.of_nat n).
  rewrite zlen_drop in Hn by lia. pose proof (zget_Some _ _ _ Ht).
  assert (∀ j, 0 ≤ j → zget (zdrop i types) j = zget types (i + j)) as Hdrop by (intros; apply zget_drop; lia).
  assert (0 < Z.of_nat n) as Hpos.
  { destruct (Z.eq_dec (Z.of_nat n) 0) as [Hz|]; [|lia]. exfalso. apply (Hstop t); [|done].
    rewrite Hz, Hdrop by lia. by rewrite Z.add_0_r. }
  assert (∀ j u m, j < e → zget types j = Some u → m ∈ type_refs u → 0 ≤ m < e) as Hrefs.
  { intros j u m Hj Hu Hm. pose proof (zget_Some _ _ _ Hu) as [Hj0 _]. destruct (Z.lt_ge_cases j i).
    - pose proof (rb_refs _ _ _ _ Hrb j u m ltac:(lia) Hu Hm). lia.
    - destruct (mo_refs _ Hok _ _ _ Hu Hm) as [Hm0 [?|Hsib]]; [lia|]. split; [done|].
      destruct (Z.lt_ge_cases m e) as [|Hge]; [done|exfalso]. destruct (Hsib e ltac:(lia)) as (v & Hv & Hvg).
      apply (Hstop v); [rewrite Hdrop by lia; done|]. rewrite Hvg.
      destruct (Hrun (j - i) ltac:(lia)) as (u' & Hu' & Hg'). rewrite Hdrop in Hu' by lia.
      replace (i + (j - i)) with j in Hu' by lia. congruence. }
  destruct Hroom as [Hrt Hrg Hrr]. pose proof (zlen_nonneg (tr_types tr)). pose proof (zlen_nonneg types).
  destruct (build_key_ok types i e m2c tr) as (slice & key & Hsl & Hbk & HF & Hkl & Hget); [lia|lia|lia|done|done|].
  rewrite (lift_Ok _ _ _ key) by done.
  assert (module_regs (zdrop i types) = module_regs slice + module_regs (zdrop e types)) as Hsplit.
  { apply zslice_Some in Hsl as (_ & _ & ->). unfold module_regs. rewrite <- zsum_app. f_equal.
    rewrite <- (ztake_drop (e - i) (zdrop i types)) at 1. f_equal. rewrite zdrop_zdrop by lia. f_equal. lia. }
  assert (0 ≤ module_regs (zdrop e types)) as Hrest.
  { apply zsum_nonneg. intros x _. pose proof (zlen_nonneg (type_refs x)). lia. }
  destruct (built_edges types i e m2c rank held tr ltac:(lia) ltac:(lia) Hrefs Hrb Hw slice key HF Hkl Hget) as [Hedges _].
  assert (zlen key = e - i) as Hkl' by done.
  destruct (intern_group_spec rank held tr key Hw) as (g & tr1 & rank1 & rec & Hrun1 & Hw1 & Hg & Hk & Hpost).
  { by apply (built_key_ok types i e m2c rank held) with (slice := slice); try lia. }
  { split; lia. }
  rewrite Hkl in Hrun1. rewrite (bind_run _ _ _ _ _ Hrun1).
  destruct (group_registered types i e m2c tr) with (slice := slice) (key := key) (tr' := tr1) (g := g) (rec := rec)
    (rank' := rank1) (held' := g :: held) as (m2c' & Hsl' & Hsp & Hrb'); try done; try lia.
  { apply Hpost. }
  rewrite (reads_Ok _ _ _ (gr_members rec)) by (unfold group_members; by rewrite Hg).
  rewrite Hsl'. rewrite (lift_Ok _ _ _ (gr_members rec)) by done. rewrite Hsp. rewrite (lift_Ok _ _ _ m2c') by done.
  destruct (IH e m2c' (reg ++ [g]) rank1 (g :: held) tr1) as (ids & gs & tr' & rank' & Hrun2 & Hrb2 & Hw2 & Ho2 & He2 & Hr2 & Hkd2);
    try done; try lia.
  - eapply ordered_extends; [done| |done]. by apply (built_ordered types i e m2c) with (slice := slice); try lia.
  - destruct Hpost as [_ _ Hpt Hpg Hpe]. unfold registrations in *. split; unfold registrations; rewrite ?zlen_cons; lia.
  - exists ids, (g :: gs), tr', rank'. rewrite Hrun2, <- app_assoc. split_and!; try done.
    + eapply reg_wf_perm; [|exact Hw2]. symmetry. apply Permutation_middle.
    + etrans; [apply Hpost|done].
    + destruct Hpost as [_ _ _ _ Hpe]. unfold registrations in *. cbn [app]. rewrite zlen_cons, zlen_app. rewrite zlen_app, zlen_cons in Hr2. lia.
    + intros Hsk Hkd. apply Hkd2; [done|]. eapply kinded_extends; [exact Hkd| |exact Hpost].
      apply (kinded_key_extends tr); [apply Hpost|]. by apply (built_kinded types i e m2c rank held) with (slice := slice); try lia.
Qed.

(** ** Materialisation undoes interning *)

(** A decoder run takes [n] registrations and keeps every type live. *)
Definition takes {A} (rank : Z → Z) (held : list Z) (tr : TypeRegistry) (n : Z) (m : SM TypeRegistry A) (a : A) : Prop :=
  ∃ tr' held', m tr = (Ok a, tr') ∧ reg_wf rank held' tr' ∧ registrations held' tr' = registrations held tr + n ∧
    ∀ id, is_Some (group_of tr id) → is_Some (group_of tr' id).
Lemma takes_ret {A} rank held tr (a : A) : reg_wf rank held tr → takes rank held tr 0 (mret a) a.
Proof. intros Hw. exists tr, held. split_and!; try done. lia. Qed.
Lemma takes_bind {A B} rank held tr n1 n2 (m : SM TypeRegistry A) (f : A → SM TypeRegistry B) a b :
  takes rank held tr n1 m a →
  (∀ held' tr', reg_wf rank held' tr' → registrations held' tr' = registrations held tr + n1 →
    (∀ id, is_Some (group_of tr id) → is_Some (group_of tr' id)) → takes rank held' tr' n2 (f a) b) →
  takes rank held tr (n1 + n2) (m ≫= f) b.
Proof.
  intros (tr1 & held1 & Hrun & Hw1 & Hr1 & Hk1) Hf. destruct (Hf _ _ Hw1 Hr1 Hk1) as (tr2 & held2 & Hrun2 & Hw2 & Hr2 & Hk2).
  exists tr2, held2. rewrite (bind_run _ _ _ _ _ Hrun). split_and!; try done; [lia|auto].
Qed.

Section materialise.
Variables (ids : list Z) (rank : Z → Z).
Definition live_refs (tr : TypeRegistry) (refs : list Z) : Prop :=
  ∀ m, m ∈ refs → ∃ id, zget ids m = Some id ∧ is_Some (group_of tr id).
Lemma from_id_takes held tr id :
  reg_wf rank held tr → is_Some (group_of tr id) → registrations held tr + 1 < 2 ^ 32 → takes rank held tr 1 (from_id id) id.
Proof.
  intros Hw [g Hg] Hroom. pose proof Hg as (r & Hr & _)%(rw_owner _ _ _ Hw).
  destruct (incref_run _ _ _ g Hw) as (rec & Hrec & Hrun & Hw'); [eauto|lia|].
  set (tr' := put_group g _ tr) in *. exists tr', (g :: held).
  assert (incref_type id tr = (Ok tt, tr')) as Hi.
  { unfold incref_type. rewrite (reads_Ok _ _ tr g) by by rewrite Hg. done. }
  unfold from_id. rewrite (bind_run _ _ _ _ _ Hi). split_and!; try done.
  pose proof Hrec as Hz. apply zentry_Some in Hz. unfold registrations, tr'. rewrite (edge_total_put _ _ _ _ Hz), zlen_cons.
  cbn [set_refcount gr_key]. lia.
Qed.
Lemma mat_val_takes held tr v c :
  reg_wf rank held tr → live_refs tr (val_refs v) → val_key (canon_cref ids) v = Ok c →
  registrations held tr + zlen (val_refs v) < 2 ^ 32 →
  ∃ vt, materialize_val (E := error) ids v = Ok vt ∧ takes rank held tr (zlen (val_refs v)) (mat_val c) vt.
Proof.
  intros Hw Hlive Hk Hroom. destruct v as [| | | | |n h]; try (injection Hk as <-; eexists; split; [done|by apply takes_ret]).
  destruct h; try (injection Hk as <-; eexists; split; [done|by apply takes_ret]).
  destruct (Hlive idx ltac:(set_solver)) as (id & Hid & Hg). cbn in Hk. unfold canon_cref in Hk.
  cbn [materialize_val materialize_heap]. rewrite Hid in Hk |- *. injection Hk as <-. eexists. split; [done|].
  cbn [mat_val mat_heap val_refs heap_refs]. change (zlen [idx]) with (1 + 0 + 0).
  eapply takes_bind; [eapply takes_bind; [by apply from_id_takes|]|]; intros; by apply takes_ret.
Qed.
(** A field's public type under [ids]. *)
Definition public_field (f : IrField) : res FieldType :=
  el ← match f_storage f with
       | IrSI8 => Ok StI8 | IrSI16 => Ok StI16 | IrSVal v => StValType <$> materialize_val ids v
       end;
  Ok {| ft_mutable := f_mutable f; ft_element := el |}.
Lemma mat_field_takes held tr f c :
  reg_wf rank held tr → live_refs tr (field_refs f) → field_key (canon_cref ids) f = Ok c →
  registrations held tr + zlen (field_refs f) < 2 ^ 32 →
  ∃ ft, public_field f = Ok ft ∧ takes rank held tr (zlen (field_refs f)) (mat_field c) ft.
Proof.
  unfold field_key, field_refs, public_field. destruct (f_storage f) as [| |v]; intros Hw Hlive Hk Hroom.
  1, 2: injection Hk as <-; eexists; split; [done|]; by apply takes_ret.
  destruct (val_key (canon_cref ids) v) as [cv| |] eqn:Hv; try done. injection Hk as <-.
  destruct (mat_val_takes held tr v cv) as (vt & -> & Ht); try done. eexists. split; [done|]. unfold mat_field. cbn [cf_storage].
  rewrite <- (Z.add_0_r (zlen _)), <- (Z.add_0_r (zlen _)). eapply takes_bind; [eapply takes_bind; [exact Ht|]|]; intros; by apply takes_ret.
Qed.
Lemma mapM_takes {A B C} (key : A → res C) (pub : A → res B) (dec : C → SM TypeRegistry B) (refs : A → list Z) l k held tr :
  (∀ held tr x c, reg_wf rank held tr → live_refs tr (refs x) → key x = Ok c →
    registrations held tr + zlen (refs x) < 2 ^ 32 → ∃ b, pub x = Ok b ∧ takes rank held tr (zlen (refs x)) (dec c) b) →
  reg_wf rank held tr → live_refs tr (l ≫= refs) → mapM key l = Ok k → registrations held tr + zlen (l ≫= refs) < 2 ^ 32 →
  ∃ bs, mapM pub l = Ok bs ∧ takes rank held tr (zlen (l ≫= refs)) (mapM dec k) bs.
Proof.
  intros Hstep Hw Hlive Hk%mapM_Ok Hroom. revert held tr Hw Hlive Hroom.
  induction Hk as [|x c l k Hx Hk IH]; intros held tr Hw Hlive Hroom; [eexists; split; [done|by apply takes_ret]|].
  cbn [mbind list_bind] in *. rewrite zlen_app in *. pose proof (zlen_nonneg (refs x)). pose proof (zlen_nonneg (l ≫= refs)).
  destruct (Hstep held tr x c Hw) as (b & Hb & Ht); [intros m Hm; apply Hlive; set_solver|done|lia|].
  destruct Ht as (tr1 & held1 & Hrun & Hw1 & Hr1 & Hk1).
  destruct (IH held1 tr1 Hw1) as (bs & Hbs & tr2 & held2 & Hrun2 & Hw2 & Hr2 & Hk2); [|lia|].
  { intros m Hm. destruct (Hlive m) as (id & ? & ?); [set_solver|]. eauto. }
  exists (b :: bs). cbn [mapM]. rewrite Hb, Hbs. split; [done|]. exists tr2, held2.
  rewrite (bind_run _ _ _ _ _ Hrun), (bind_run _ _ _ _ _ Hrun2). split_and!; try done; [lia|auto].
Qed.
End materialise.

(** What a type's body says, in public types, under [ids]. *)
Definition reads_as (ids : list Z) (tr : TypeRegistry) (id : Z) (b : CompositeBody) : Prop :=
  match b with
  | CompFunc p r => ∃ ps rs, mapM (materialize_val (E := error) ids) p = Ok ps ∧ mapM (materialize_val (E := error) ids) r = Ok rs ∧
      (registry_func_sig id tr).1 = Ok (Some (ps, rs))
  | CompStruct fs => ∃ fts, mapM (public_field ids) fs = Ok fts ∧ (registry_struct_fields id tr).1 = Ok (Some fts)
  | CompArray f => ∃ ft, public_field ids f = Ok ft ∧ (registry_array_field id tr).1 = Ok (Some ft)
  end.
Lemma stored_reads_as ids rank held tr id ty t :
  reg_wf rank held tr → registered_type tr id = Some ty → canonical_type ids t = Ok ty →
  live_refs ids tr (type_refs t) → registrations held tr + zlen (type_refs t) < 2 ^ 32 →
  reads_as ids tr id (mt_body t).
Proof.
  intros Hw Hty Hc Hlive Hroom. unfold canonical_type in Hc. apply result_bind_Ok in Hc as (st & _ & Hc).
  apply result_bind_Ok in Hc as (b & Hb & [= <-]). unfold type_refs in Hlive, Hroom. rewrite zlen_app in Hroom.
  assert (live_refs ids tr (body_refs (mt_body t))) as Hl by (intros m Hm; apply Hlive; set_solver). clear Hlive.
  assert (registrations held tr + zlen (body_refs (mt_body t)) < 2 ^ 32) as Hr.
  { destruct (mt_supertype t); cbn in Hroom; rewrite ?zlen_cons, ?zlen_nil in Hroom; lia. } clear Hroom.
  unfold reads_as. destruct (mt_body t) as [p r|fs|f]; cbn [body_key body_refs] in *.
  - apply result_bind_Ok in Hb as (p' & Hp & Hb). apply result_bind_Ok in Hb as (r' & Hrk & [= <-]).
    rewrite bind_app in Hl, Hr. rewrite zlen_app in Hr. pose proof (zlen_nonneg (r ≫= val_refs)).
    destruct (mapM_takes ids rank (val_key (canon_cref ids)) (materialize_val (E := error) ids) mat_val val_refs p p' held tr)
      as (ps & Hps & tr1 & held1 & Hrun1 & Hw1 & Hr1 & Hk1); [apply mat_val_takes|done|intros m Hm; apply Hl; set_solver|done|lia|].
    destruct (mapM_takes ids rank (val_key (canon_cref ids)) (materialize_val (E := error) ids) mat_val val_refs r r' held1 tr1)
      as (rs & Hrs & tr2 & held2 & Hrun2 & _); [apply mat_val_takes|done| |done|lia|].
    { intros m Hm. destruct (Hl m ltac:(set_solver)) as (i & ? & ?). eauto. }
    exists ps, rs. split_and!; [done|done|]. unfold registry_func_sig, gets. rewrite bind_unfold.
    unfold func_body_raw, registry_body. rewrite Hty. cbn.
    by rewrite (bind_run _ _ _ _ _ Hrun1), (bind_run _ _ _ _ _ Hrun2).
  - destruct (mapM (field_key (canon_cref ids)) fs) as [k| |] eqn:Hk; try done. injection Hb as <-.
    destruct (mapM_takes ids rank (field_key (canon_cref ids)) (public_field ids) mat_field field_refs fs k held tr)
      as (fts & Hfts & tr1 & held1 & Hrun1 & _); [apply mat_field_takes|done..|].
    exists fts. split; [done|]. unfold registry_struct_fields, gets. rewrite bind_unfold.
    unfold struct_fields_raw, registry_body. rewrite Hty. cbn. by rewrite (bind_run _ _ _ _ _ Hrun1).
  - destruct (field_key (canon_cref ids) f) as [k| |] eqn:Hk; try done. injection Hb as <-.
    destruct (mat_field_takes ids rank held tr f k) as (ft & Hft & tr1 & held1 & Hrun1 & _); try done.
    exists ft. split; [done|]. unfold registry_array_field, gets. rewrite bind_unfold.
    unfold array_field_raw, registry_body. rewrite Hty. cbn. by rewrite (bind_run _ _ _ _ _ Hrun1).
Qed.

(** ** The registry's contract *)

(** One registration or release by a module, a handle or a store. *)
Inductive reg_step : list Z * TypeRegistry → list Z * TypeRegistry → Prop :=
  | rs_intern held tr key g tr' :
      key_ok tr key → room (zlen key) 1 (zlen (edge_canon_ids key) + 1) held tr →
      intern_group key (zlen key) tr = (Ok g, tr') → reg_step (held, tr) (g :: held, tr')
  | rs_clone held tr id g tr' :
      registrations held tr < 2 ^ 32 - 1 → group_of tr id = Some g →
      incref_type id tr = (Ok tt, tr') → reg_step (held, tr) (g :: held, tr')
  | rs_release held tr g held' tr' :
      held ≡ₚ g :: held' → decref_group g tr = (Ok tt, tr') → reg_step (held, tr) (held', tr').
Definition reachable (st : list Z * TypeRegistry) : Prop := rtc reg_step ([], registry_default) st.

Lemma reg_step_wf st st' :
  reg_step st st' → (∃ rank, reg_wf rank st.1 st.2) → ∃ rank, reg_wf rank st'.1 st'.2.
Proof.
  intros [held tr key g tr' Hk Hr Hrun|held tr id g tr' Hr Hg Hrun|held tr g held' tr' Hp Hrun] [rank Hw]; cbn [fst snd] in *.
  - destruct (intern_group_spec rank held tr key Hw Hk Hr) as (g' & tr1 & rank1 & rec & Hrun' & Hw1 & _).
    rewrite Hrun in Hrun'. injection Hrun' as <- <-. eauto.
  - pose proof Hg as (r & Hlive & _)%(rw_owner _ _ _ Hw).
    destruct (incref_run _ _ _ g Hw) as (rec & _ & Hi & Hw1); [eauto|done|]. exists rank.
    unfold incref_type in Hrun. rewrite (reads_Ok _ _ tr g) in Hrun by by rewrite Hg.
    rewrite Hi in Hrun. by injection Hrun as <-.
  - exists rank. apply (reg_wf_perm _ _ _ _ Hp) in Hw. destruct (decref_group_spec _ _ _ _ Hw) as (tr1 & Hd & Hw1 & _).
    rewrite Hrun in Hd. by injection Hd as <-.
Qed.
Lemma reachable_wf st : reachable st → ∃ rank, reg_wf rank st.1 st.2.
Proof.
  intros Hr. assert (∃ rank, reg_wf rank ([] : list Z, registry_default).1 ([] : list Z, registry_default).2) as H0.
  { exists (λ _, 0). apply reg_wf_default. }
  revert H0. induction Hr; [done|]. intros H0. eauto using reg_step_wf.
Qed.

(** C20: over every history of interning, cloning and releasing, the type
    registry's reference counts are exact: each live group's count is the number
    of outstanding registrations on it plus the references from other live
    groups; releasing any outstanding registration succeeds (the worklist never
    panics and never runs out of fuel); and once everything outstanding is
    released, no group is left. *)
Theorem registry_balanced held tr :
  reachable (held, tr) →
  (∀ g rec, live_group tr g = Some rec → gr_refcount rec = occ g held + in_edges tr g) ∧
  (∀ g, g ∈ held → ∃ tr', decref_group g tr = (Ok tt, tr')) ∧
  ∃ tr', release held tr = (Ok tt, tr') ∧ live_group_count tr' = 0%nat.
Proof.
  intros [rank Hw]%reachable_wf. cbn in Hw. split_and!.
  - intros g rec Hg. by destruct (rw_count _ _ _ Hw _ _ Hg).
  - intros g Hg. apply elem_of_Permutation in Hg as [held' Hp].
    destruct (decref_group_spec _ _ _ _ (reg_wf_perm _ _ _ _ Hp Hw)) as (tr' & Hd & _). eauto.
  - destruct (release_spec rank [] tr held) as (tr' & Hrel & Hw'); [by rewrite app_nil_r|].
    exists tr'. split; [done|]. by apply (no_leak rank).
Qed.

(** Canonical identity is structural identity: interning two keys one
    after the other gives the same group exactly when the keys are equal, and
    the first group's members are then still what it returned. *)
Theorem intern_identity held tr key1 key2 g1 tr1 g2 tr2 :
  reachable (held, tr) →
  key_ok tr key1 → room (zlen key1) 1 (zlen (edge_canon_ids key1) + 1) held tr →
  intern_group key1 (zlen key1) tr = (Ok g1, tr1) →
  key_ok tr1 key2 → room (zlen key2) 1 (zlen (edge_canon_ids key2) + 1) (g1 :: held) tr1 →
  intern_group key2 (zlen key2) tr1 = (Ok g2, tr2) →
  (g1 = g2 ↔ key1 = key2) ∧
  ∃ ids, group_members g1 tr1 = Ok ids ∧ group_members g1 tr2 = Ok ids ∧ zlen ids = zlen key1.
Proof.
  intros [rank Hw]%reachable_wf Hk1 Hr1 Hrun1 Hk2 Hr2 Hrun2. cbn in Hw.
  destruct (intern_group_spec _ _ _ _ Hw Hk1 Hr1) as (g & tr' & rank1 & rec1 & Hrun & Hw1 & Hg1 & Hkey1 & _).
  rewrite Hrun1 in Hrun. injection Hrun as <- <-.
  destruct (intern_group_spec _ _ _ _ Hw1 Hk2 Hr2) as (g & tr' & rank2 & rec2 & Hrun & Hw2 & Hg2 & Hkey2 & Hpost).
  rewrite Hrun2 in Hrun. injection Hrun as <- <-.
  destruct (ex_live _ _ (ip_extends _ _ _ Hpost) _ _ Hg1) as [n Hg1']. split.
  - split.
    + intros <-. rewrite Hg1' in Hg2. injection Hg2 as <-. by rewrite <- Hkey1, <- Hkey2.
    + intros ->. assert (tr_interned tr2 !! key2 = Some g1) as H1 by (apply (rw_interned _ _ _ Hw2); eexists; split; [done|by cbn]).
      assert (tr_interned tr2 !! key2 = Some g2) as H2 by (apply (rw_interned _ _ _ Hw2); eauto). congruence.
  - exists (gr_members rec1). unfold group_members. rewrite Hg1, Hg1'. split_and!; [done|done|].
    rewrite <- Hkey1. apply (go_len _ _ _ _ (rw_group _ _ _ Hw1 _ _ Hg1)).
Qed.

Lemma intern_module_spec rank held tr types :
  reg_wf rank held tr → ordered_registry tr → module_types_ok types →
  room (zlen types) (zlen types) (2 * module_regs types) held tr →
  ∃ ids gs tr' rank', intern_module types tr = (Ok (ids, gs), tr') ∧ zlen ids = zlen types ∧
    reg_wf rank' (gs ++ held) tr' ∧ ordered_registry tr' ∧ extends tr tr' ∧
    (super_kinds types → kinds_agree tr → kinds_agree tr') ∧
    ∀ i t, zget types i = Some t → ∃ id ty, zget ids i = Some id ∧ registered_type tr' id = Some ty ∧
      canonical_type ids t = Ok ty ∧ reads_as ids tr' id (mt_body t).
Proof.
  intros Hw Hord Hok [Hrt Hrg Hrr]. pose proof (zlen_nonneg types).
  assert (∀ i t, zget types i = Some t → zlen (type_refs t) ≤ module_regs types) as Hle.
  { intros i t Ht%zget_elem. unfold module_regs. clear -Ht. induction types as [|u l IH]; [set_solver|]. cbn.
    assert (0 ≤ zsum (λ t, 1 + zlen (type_refs t)) l).
    { apply zsum_nonneg. intros x _. pose proof (zlen_nonneg (type_refs x)). lia. }
    pose proof (zlen_nonneg (type_refs u)). apply elem_of_cons in Ht as [->|Ht]; [lia|]. specialize (IH Ht). lia. }
  assert (0 ≤ module_regs types) as Hnn.
  { apply zsum_nonneg. intros x _. pose proof (zlen_nonneg (type_refs x)). lia. }
  destruct (intern_module_go_spec types (S (length types)) 0 (replicate (length types) (u_max 32)) [] rank held tr)
    as (ids & gs & tr' & rank' & Hrun & Hrb & Hw' & Hord' & Hext & Hregs & Hkd); try done; try (unfold zlen in *; lia).
  { split; [by rewrite zlen_replicate|..]; intros j t *; intros Hj Ht; apply zget_Some in Ht; lia. }
  { rewrite Z.sub_0_r, zdrop_0. split; lia. }
  rewrite zdrop_0 in Hregs.
  exists ids, gs, tr', rank'. split_and!; try done; [apply Hrb| |].
  { intros Hsk Hk. apply (kinds_kinded rank' (gs ++ held)); [done|]. apply Hkd; [done|]. by apply (kinds_kinded rank held). }
  intros i t Ht. pose proof (zget_Some _ _ _ Ht).
  destruct (rb_types _ _ _ _ Hrb i t ltac:(lia) Ht) as (id & ty & Hid & Hty & Hc). exists id, ty. split_and!; try done.
  apply (stored_reads_as ids rank' (gs ++ held) tr' id ty t); try done.
  - intros m Hm. pose proof (rb_refs _ _ _ _ Hrb i t m ltac:(lia) Ht Hm) as Hmr.
    destruct (zget_is_Some types m Hmr) as [u Hu].
    destruct (rb_types _ _ _ _ Hrb m u ltac:(lia) Hu) as (id' & ty' & Hid' & Hty' & _). exists id'. split; [done|].
    apply (rw_types _ _ _ Hw'). eauto.
  - specialize (Hle _ _ Ht). lia.
Qed.

(** C21: interning a module's types always succeeds when its references are
    backward or within their recursion group, and the registry then reads every
    type back as its declaration: the stored kind, finality, supertype and body
    are the IR's with each reference replaced by its canonical id, and the
    materialised parameters, results, fields and elements are the IR's
    materialised types. *)
Theorem intern_module_reads_back rank held tr types :
  reg_wf rank held tr → ordered_registry tr → module_types_ok types →
  room (zlen types) (zlen types) (2 * module_regs types) held tr →
  ∃ ids gs tr' rank', intern_module types tr = (Ok (ids, gs), tr') ∧ zlen ids = zlen types ∧
    reg_wf rank' (gs ++ held) tr' ∧ ordered_registry tr' ∧ extends tr tr' ∧
    ∀ i t, zget types i = Some t → ∃ id ty, zget ids i = Some id ∧ registered_type tr' id = Some ty ∧
      canonical_type ids t = Ok ty ∧ reads_as ids tr' id (mt_body t).
Proof.
  intros Hw Hord Hok Hroom. destruct (intern_module_spec rank held tr types Hw Hord Hok Hroom)
    as (ids & gs & tr' & rank' & H1 & H2 & H3 & H4 & H5 & _ & H6). by exists ids, gs, tr', rank'.
Qed.

(** [is_subtype] always ends and decides declared subtyping, the
    reflexive-transitive closure of the declared supertypes, which is a partial
    order, in every well-formed registry whose sibling supertypes come earlier in
    their groups; that holds of the empty registry and interning a module keeps it. *)
Theorem is_subtype_decides rank held tr sub sup :
  reg_wf rank held tr → ordered_registry tr →
  ∃ b, is_subtype tr sub sup = Some b ∧ (b = true ↔ rtc (super_of tr) sub sup) ∧
    (rtc (super_of tr) sub sup → rtc (super_of tr) sup sub → sub = sup).
Proof.
  intros Hw Hord. destruct (is_subtype_total rank held tr Hw Hord sub sup) as [b Hb]. exists b. split; [done|]. split.
  - by apply (is_subtype_go_sound _ _ _ _ _ Hb).
  - by apply (super_antisym rank held).
Qed.

(** ** Concrete instances *)
Definition i32_field : IrField := {| f_mutable := false; f_storage := IrSVal IrI32 |}.
(** [(type $a (sub (struct i32)))], [(rec (type $b (sub final $a (struct i32 (ref null $b)))))],
    [(type (func (param (ref $b)) (result i64)))]. *)
Definition demo_types : list ModuleType :=
  [{| mt_group := 0; mt_finality := NonFinal; mt_supertype := None; mt_body := CompStruct [i32_field] |};
   {| mt_group := 1; mt_finality := Final; mt_supertype := Some 0;
      mt_body := CompStruct [i32_field; {| f_mutable := true; f_storage := IrSVal (IrRefTy true (IrConcrete 1 AggStruct)) |}] |};
   {| mt_group := 2; mt_finality := Final; mt_supertype := None;
      mt_body := CompFunc [IrRefTy false (IrConcrete 1 AggStruct)] [IrI64] |}].
Definition demo_registry : TypeRegistry := (intern_module demo_types registry_default).2.

Lemma demo_types_ok : module_types_ok demo_types.
Proof.
  assert (∀ i t, zget demo_types i = Some t → i = 0 ∨ i = 1 ∨ i = 2) as Hr.
  { intros i t Ht%zget_Some. change (zlen demo_types) with 3 in Ht. lia. }
  split.
  - intros i t m Ht Hm. destruct (Hr _ _ Ht) as [->|[->| ->]]; injection Ht as <-; cbn in Hm.
    + set_solver.
    + assert (m = 0 ∨ m = 1) as [-> | ->] by set_solver; split; [done|by left|done|right].
      intros j Hj. assert (j = 1) as -> by lia. eexists; done.
    + assert (m = 1) as -> by set_solver. split; [done|by left].
  - intros i t s Ht Hs. destruct (Hr _ _ Ht) as [->|[->| ->]]; injection Ht as <-; cbn in Hs; try done.
    by injection Hs as <-.
Qed.
Lemma ordered_default : ordered_registry registry_default.
Proof. intros g r. unfold live_group. cbn. by rewrite zentry_nil. Qed.
Lemma demo_registry_ok : ∃ rank held, reg_wf rank held demo_registry ∧ ordered_registry demo_registry.
Proof.
  destruct (intern_module_go_spec demo_types 4 0 (replicate 3 (u_max 32)) [] (λ _, 0) [] registry_default)
    as (ids & gs & tr' & rank' & Hrun & _ & Hw & Ho & _); try done.
  - apply demo_types_ok.
  - split; [done|..]; intros j t *; intros Hj Ht; apply zget_Some in Ht; lia.
  - apply reg_wf_default.
  - apply ordered_default.
  - exists rank', (gs ++ []). unfold demo_registry, intern_module. change (length demo_types) with 3%nat. by rewrite Hrun.
Qed.

Lemma intern_module_reads_back_witness :
  ∃ ids gs tr' rank', intern_module demo_types registry_default = (Ok (ids, gs), tr') ∧ zlen ids = zlen demo_types ∧
    reg_wf rank' (gs ++ []) tr' ∧ ordered_registry tr' ∧ extends registry_default tr' ∧
    ∀ i t, zget demo_types i = Some t → ∃ id ty, zget ids i = Some id ∧ registered_type tr' id = Some ty ∧
      canonical_type ids t = Ok ty ∧ reads_as ids tr' id (mt_body t).
Proof.
  apply (intern_module_reads_back (λ _, 0)); [apply reg_wf_default|apply ordered_default|apply demo_types_ok|].
  split; vm_compute; congruence.
Defined.

Lemma is_subtype_decides_witness :
  is_subtype demo_registry 1 0 = Some true ∧ rtc (super_of demo_registry) 1 0.
Proof.
  destruct demo_registry_ok as (rank & held & Hw & Ho).
  destruct (is_subtype_decides rank held demo_registry 1 0 Hw Ho) as (b & Hb & Hiff & _).
  assert (is_subtype demo_registry 1 0 = Some true) as Ht by by vm_compute.
  split; [exact Ht|]. apply Hiff. rewrite Ht in Hb. by injection Hb.
Defined.

(** A structure key, and a function key that references its type. *)
Definition key_a : CGroup :=
  [{| ct_finality := NonFinal; ct_supertype := None; ct_body := CbStruct [{| cf_mutable := false; cf_storage := CsVal (CvNum 0) |}] |}].
Definition key_f : CGroup :=
  [{| ct_finality := Final; ct_supertype := None; ct_body := CbFunc [CvRef false (ChConcrete AggStruct (CrCanon 0))] [] |}].
Definition registry_a : TypeRegistry := (intern_group key_a 1 registry_default).2.
Definition registry_af : TypeRegistry := (intern_group key_f 1 registry_a).2.
Lemma key_a_ok : key_ok registry_default key_a.
Proof. split; [cbn; set_solver|]. intros ct ms ->%list_elem_of_singleton _. by eexists. Qed.
Lemma key_f_ok : key_ok registry_a key_f.
Proof.
  split.
  - intros id Hid. assert (id = 0) as -> by (cbn in Hid; set_solver). by exists 0.
  - intros ct ms ->%list_elem_of_singleton _. by eexists.
Qed.
Lemma room_a : room (zlen key_a) 1 (zlen (edge_canon_ids key_a) + 1) [] registry_default.
Proof. split; vm_compute; congruence. Qed.
Lemma room_f : room (zlen key_f) 1 (zlen (edge_canon_ids key_f) + 1) [0] registry_a.
Proof. split; vm_compute; congruence. Qed.

Lemma intern_identity_witness :
  (0 = 1 ↔ key_a = key_f) ∧ ∃ ids, group_members 0 registry_a = Ok ids ∧ group_members 0 registry_af = Ok ids ∧ zlen ids = zlen key_a.
Proof.
  apply (intern_identity [] registry_default key_a key_f 0 registry_a 1 registry_af).
  - apply rtc_refl.
  - apply key_a_ok.
  - apply room_a.
  - by vm_compute.
  - apply key_f_ok.
  - apply room_f.
  - by vm_compute.
Defined.

(** Two registrations, the second pinning the first's group; then the first is released. *)
Lemma registry_balanced_witness :
  reachable ([1], (decref_group 0 registry_af).2) ∧
  ∃ tr', release [1] (decref_group 0 registry_af).2 = (Ok tt, tr') ∧ live_group_count tr' = 0%nat.
Proof.
  assert (reachable ([1], (decref_group 0 registry_af).2)) as Hr.
  { eapply rtc_l; [apply (rs_intern [] registry_default key_a 0 registry_a); [apply key_a_ok|apply room_a|by vm_compute]|].
    eapply rtc_l; [apply (rs_intern [0] registry_a key_f 1 registry_af); [apply key_f_ok|apply room_f|by vm_compute]|].
    apply rtc_once. apply (rs_release _ _ 0); [by constructor|by vm_compute]. }
  split; [done|]. apply (registry_balanced [1] _ Hr).
Defined.
