(* ===== verification/RecGroup.v ===== *)
(** * RecGroup: recursion groups built by the host (src/src/value/rec_group/mod.rs,
    builders.rs, lower.rs, validate.rs; the handle drops of value/gc_type.rs)

    [declare_*] hands out [PendingType]s, the nested builders define members that may
    reference them, and [build] lowers the members to module IR, interns the group
    with one registration and validates the declared supertypes; when that fails the
    registration is released.  A handle to a registered type is its canonical id; the
    engine it belongs to ([owner]) is an argument of the operation that receives it.
    A builder's handles are released when [build] consumes it; those of definitions
    replaced before are dropped by the host and not followed here. *)
From stdpp Require Import relations.
From S2P Require Import Prelude Types Layout Keys Registry Interning.
Open Scope Z_scope.

(** ** Members under construction *)
Record PendingType : Type := { pt_builder : Z; pt_index : Z; pt_kind : AggKind }.
Inductive FieldDef : Type :=
  | FdRegistered (ty : FieldType)
  | FdForward (target : PendingType) (mutable nullable : bool).
Inductive ValDef : Type :=
  | VdRegistered (ty : ValType)
  | VdForward (target : PendingType) (nullable : bool).
Inductive SuperDef : Type := SdForward (index : Z) | SdStruct (id : Z) | SdArray (id : Z) | SdFunc (id : Z).
Inductive MemberDef : Type :=
  | MdStruct (finality : Finality) (supertype : option SuperDef) (fields : list FieldDef)
  | MdArray (finality : Finality) (supertype : option SuperDef) (element : FieldDef)
  | MdFunc (finality : Finality) (supertype : option SuperDef) (params results : list ValDef).
Definition member_supertype (m : MemberDef) : option SuperDef :=
  match m with MdStruct _ s _ | MdArray _ s _ | MdFunc _ s _ _ => s end.

Record RecGroupBuilder : Type := {
  rb_engine : Z;
  rb_id : Z;
  rb_error : option error;
  rb_members : list (option MemberDef);
}.
Definition rec_group_new (engine next_builder_id : Z) : RecGroupBuilder :=
  {| rb_engine := engine; rb_id := next_builder_id; rb_error := None; rb_members := [] |}.
Definition set_rb_error o (rb : RecGroupBuilder) : RecGroupBuilder :=
  {| rb_engine := rb_engine rb; rb_id := rb_id rb; rb_error := o; rb_members := rb_members rb |}.
Definition set_rb_members ms (rb : RecGroupBuilder) : RecGroupBuilder :=
  {| rb_engine := rb_engine rb; rb_id := rb_id rb; rb_error := rb_error rb; rb_members := ms |}.

Definition declare (kind : AggKind) : SM RecGroupBuilder PendingType :=
  rb ← get;
  let len := zlen (rb_members rb) in
  if len <? 2 ^ 32 then
    modify (set_rb_members (rb_members rb ++ [None]));;
    mret {| pt_builder := rb_id rb; pt_index := len; pt_kind := kind |}
  else panic "too many types in a rec group".
Definition declare_struct : SM RecGroupBuilder PendingType := declare AggStruct.
Definition declare_array : SM RecGroupBuilder PendingType := declare AggArray.
Definition declare_func : SM RecGroupBuilder PendingType := declare AggFunc.

Definition check_owns (ty : PendingType) (rb : RecGroupBuilder) : res () :=
  if pt_builder ty =? rb_id rb then Ok tt else Panic "`PendingType` used with a different `RecGroupBuilder`".
Definition record_error (e : error) (rb : RecGroupBuilder) : RecGroupBuilder :=
  match rb_error rb with None => set_rb_error (Some e) rb | Some _ => rb end.
Definition check_engine (same_engine : bool) (rb : RecGroupBuilder) : RecGroupBuilder :=
  if same_engine then rb else record_error (EMsg "is associated with a different engine") rb.
Definition check_val_engine (owner : Z) (ty : ValType) (rb : RecGroupBuilder) : RecGroupBuilder :=
  check_engine match ty with
               | TRef rt =>
                   match rt_heap rt with
                   | HtConcreteStruct _ | HtConcreteArray _ | HtConcreteFunc _ => owner =? rb_engine rb
                   | _ => true
                   end
               | _ => true
               end rb.
Definition check_field_engine (owner : Z) (ty : FieldType) (rb : RecGroupBuilder) : RecGroupBuilder :=
  match ft_element ty with StValType v => check_val_engine owner v rb | _ => rb end.

(** [define_*]: the index to define, for the nested builder that borrows [rb]. *)
Definition define (kind : AggKind) (ty : PendingType) (rb : RecGroupBuilder) : res Z :=
  _ ← check_owns ty rb;
  if bool_decide (pt_kind ty = kind) then Ok (pt_index ty) else Panic "handle was not declared as such a type".
Definition put_member (index : Z) (m : MemberDef) (rb : RecGroupBuilder) : res RecGroupBuilder :=
  ms ← expect (zset (rb_members rb) index (Some m)) "index out of bounds";
  Ok (set_rb_members ms rb).

(** ** A forward reference being configured *)
Record ForwardRef : Type := { fwd_target : PendingType; fwd_mutable : bool; fwd_nullable : bool }.
Definition forward_ref (ty : PendingType) : ForwardRef :=
  {| fwd_target := ty; fwd_mutable := false; fwd_nullable := true |}.
Definition forward_mutability (m : bool) (f : ForwardRef) : ForwardRef :=
  {| fwd_target := fwd_target f; fwd_mutable := m; fwd_nullable := fwd_nullable f |}.
Definition forward_nullable (n : bool) (f : ForwardRef) : ForwardRef :=
  {| fwd_target := fwd_target f; fwd_mutable := fwd_mutable f; fwd_nullable := n |}.
Definition forward_field (f : ForwardRef) : FieldDef := FdForward (fwd_target f) (fwd_mutable f) (fwd_nullable f).
Definition forward_val (f : ForwardRef) : ValDef := VdForward (fwd_target f) (fwd_nullable f).

(** ** Structures *)
Definition MAX_FIELDS : Z := 10000.
Record StructTypeBuilder : Type := {
  sb_rec : RecGroupBuilder;
  sb_index : Z;
  sb_finality : Finality;
  sb_supertype : option SuperDef;
  sb_fields : list FieldDef;
}.
Definition define_struct (ty : PendingType) (rb : RecGroupBuilder) : res StructTypeBuilder :=
  (λ i, {| sb_rec := rb; sb_index := i; sb_finality := Final; sb_supertype := None; sb_fields := [] |})
    <$> define AggStruct ty rb.
Definition set_sb (rb : RecGroupBuilder) fin sup fields (b : StructTypeBuilder) : StructTypeBuilder :=
  {| sb_rec := rb; sb_index := sb_index b; sb_finality := fin; sb_supertype := sup; sb_fields := fields |}.
Definition struct_finality (f : Finality) (b : StructTypeBuilder) : res StructTypeBuilder :=
  Ok (set_sb (sb_rec b) f (sb_supertype b) (sb_fields b) b).
Definition struct_supertype (owner id : Z) (b : StructTypeBuilder) : res StructTypeBuilder :=
  Ok (set_sb (check_engine (owner =? rb_engine (sb_rec b)) (sb_rec b)) (sb_finality b) (Some (SdStruct id)) (sb_fields b) b).
Definition struct_forward_supertype (ty : PendingType) (b : StructTypeBuilder) : res StructTypeBuilder :=
  _ ← check_owns ty (sb_rec b);
  Ok (set_sb (sb_rec b) (sb_finality b) (Some (SdForward (pt_index ty))) (sb_fields b) b).
Definition struct_field_def (owner : Z) (ty : FieldType) (b : StructTypeBuilder) : res StructTypeBuilder :=
  Ok (set_sb (check_field_engine owner ty (sb_rec b)) (sb_finality b) (sb_supertype b) (sb_fields b ++ [FdRegistered ty]) b).
Definition struct_forward_ref_field (ty : PendingType) (cfg : ForwardRef → ForwardRef) (b : StructTypeBuilder)
    : res StructTypeBuilder :=
  _ ← check_owns ty (sb_rec b);
  Ok (set_sb (sb_rec b) (sb_finality b) (sb_supertype b) (sb_fields b ++ [forward_field (cfg (forward_ref ty))]) b).
Definition struct_finish (b : StructTypeBuilder) : res StructTypeBuilder :=
  let fields := sb_fields b in
  if MAX_FIELDS <? zlen fields then
    Ok (set_sb (record_error (EMsg "more than the maximum supported number of fields") (sb_rec b))
          (sb_finality b) (sb_supertype b) [] b)
  else
    rb ← put_member (sb_index b) (MdStruct (sb_finality b) (sb_supertype b) fields) (sb_rec b);
    Ok (set_sb rb (sb_finality b) None [] b).

(** ** Arrays *)
Record ArrayTypeBuilder : Type := {
  ab_rec : RecGroupBuilder;
  ab_index : Z;
  ab_finality : Finality;
  ab_supertype : option SuperDef;
  ab_element : option FieldDef;
}.
Definition define_array (ty : PendingType) (rb : RecGroupBuilder) : res ArrayTypeBuilder :=
  (λ i, {| ab_rec := rb; ab_index := i; ab_finality := Final; ab_supertype := None; ab_element := None |})
    <$> define AggArray ty rb.
Definition set_ab (rb : RecGroupBuilder) fin sup el (b : ArrayTypeBuilder) : ArrayTypeBuilder :=
  {| ab_rec := rb; ab_index := ab_index b; ab_finality := fin; ab_supertype := sup; ab_element := el |}.
Definition array_finality (f : Finality) (b : ArrayTypeBuilder) : res ArrayTypeBuilder :=
  Ok (set_ab (ab_rec b) f (ab_supertype b) (ab_element b) b).
Definition array_supertype (owner id : Z) (b : ArrayTypeBuilder) : res ArrayTypeBuilder :=
  Ok (set_ab (check_engine (owner =? rb_engine (ab_rec b)) (ab_rec b)) (ab_finality b) (Some (SdArray id)) (ab_element b) b).
Definition array_forward_supertype (ty : PendingType) (b : ArrayTypeBuilder) : res ArrayTypeBuilder :=
  _ ← check_owns ty (ab_rec b);
  Ok (set_ab (ab_rec b) (ab_finality b) (Some (SdForward (pt_index ty))) (ab_element b) b).
Definition array_element_def (owner : Z) (ty : FieldType) (b : ArrayTypeBuilder) : res ArrayTypeBuilder :=
  Ok (set_ab (check_field_engine owner ty (ab_rec b)) (ab_finality b) (ab_supertype b) (Some (FdRegistered ty)) b).
Definition array_forward_ref_element (ty : PendingType) (cfg : ForwardRef → ForwardRef) (b : ArrayTypeBuilder)
    : res ArrayTypeBuilder :=
  _ ← check_owns ty (ab_rec b);
  Ok (set_ab (ab_rec b) (ab_finality b) (ab_supertype b) (Some (forward_field (cfg (forward_ref ty)))) b).
Definition array_finish (b : ArrayTypeBuilder) : res ArrayTypeBuilder :=
  match ab_element b with
  | None =>
      Ok (set_ab (record_error (EMsg "array type was declared but its element type was never set") (ab_rec b))
            (ab_finality b) (ab_supertype b) None b)
  | Some element =>
      rb ← put_member (ab_index b) (MdArray (ab_finality b) (ab_supertype b) element) (ab_rec b);
      Ok (set_ab rb (ab_finality b) None None b)
  end.

(** ** Functions *)
Record FuncTypeBuilder : Type := {
  fb_rec : RecGroupBuilder;
  fb_index : Z;
  fb_finality : Finality;
  fb_supertype : option SuperDef;
  fb_params : list ValDef;
  fb_results : list ValDef;
}.
Definition define_func (ty : PendingType) (rb : RecGroupBuilder) : res FuncTypeBuilder :=
  (λ i, {| fb_rec := rb; fb_index := i; fb_finality := Final; fb_supertype := None; fb_params := []; fb_results := [] |})
    <$> define AggFunc ty rb.
Definition set_fb (rb : RecGroupBuilder) fin sup ps rs (b : FuncTypeBuilder) : FuncTypeBuilder :=
  {| fb_rec := rb; fb_index := fb_index b; fb_finality := fin; fb_supertype := sup; fb_params := ps; fb_results := rs |}.
Definition func_finality (f : Finality) (b : FuncTypeBuilder) : res FuncTypeBuilder :=
  Ok (set_fb (fb_rec b) f (fb_supertype b) (fb_params b) (fb_results b) b).
Definition func_supertype (owner id : Z) (b : FuncTypeBuilder) : res FuncTypeBuilder :=
  Ok (set_fb (check_engine (owner =? rb_engine (fb_rec b)) (fb_rec b)) (fb_finality b) (Some (SdFunc id)) (fb_params b) (fb_results b) b).
Definition func_forward_supertype (ty : PendingType) (b : FuncTypeBuilder) : res FuncTypeBuilder :=
  _ ← check_owns ty (fb_rec b);
  Ok (set_fb (fb_rec b) (fb_finality b) (Some (SdForward (pt_index ty))) (fb_params b) (fb_results b) b).
Definition func_param (owner : Z) (ty : ValType) (b : FuncTypeBuilder) : res FuncTypeBuilder :=
  Ok (set_fb (check_val_engine owner ty (fb_rec b)) (fb_finality b) (fb_supertype b)
        (fb_params b ++ [VdRegistered ty]) (fb_results b) b).
Definition func_result (owner : Z) (ty : ValType) (b : FuncTypeBuilder) : res FuncTypeBuilder :=
  Ok (set_fb (check_val_engine owner ty (fb_rec b)) (fb_finality b) (fb_supertype b)
        (fb_params b) (fb_results b ++ [VdRegistered ty]) b).
Definition func_forward_ref_val (is_result : bool) (ty : PendingType) (cfg : ForwardRef → ForwardRef) (b : FuncTypeBuilder)
    : res FuncTypeBuilder :=
  _ ← check_owns ty (fb_rec b);
  let val := forward_val (cfg (forward_ref ty)) in
  Ok (if is_result then set_fb (fb_rec b) (fb_finality b) (fb_supertype b) (fb_params b) (fb_results b ++ [val]) b
      else set_fb (fb_rec b) (fb_finality b) (fb_supertype b) (fb_params b ++ [val]) (fb_results b) b).
Definition func_finish (b : FuncTypeBuilder) : res FuncTypeBuilder :=
  rb ← put_member (fb_index b) (MdFunc (fb_finality b) (fb_supertype b) (fb_params b) (fb_results b)) (fb_rec b);
  Ok (set_fb rb (fb_finality b) None [] [] b).

(** ** Lowering to module IR; the state is the externals table *)
Section lower.
Variable n : Z.
(** The combined index [n + j] of an already registered type. *)
Definition external (id : Z) : SM (list Z) Z :=
  ext ← get;
  modify (λ ext, ext ++ [id]);;
  mret (wrap 32 (n + zlen ext)).
Definition registered_heap_ir (h : HeapType) : SM (list Z) IrHeap :=
  match h with
  | HtConcreteStruct id => i ← external id; mret (IrConcrete i AggStruct)
  | HtConcreteArray id => i ← external id; mret (IrConcrete i AggArray)
  | HtConcreteFunc id => i ← external id; mret (IrConcrete i AggFunc)
  | HtFunc => mret IrFunc | HtNoFunc => mret IrNoFunc | HtExtern => mret IrExtern | HtNoExtern => mret IrNoExtern
  | HtAny => mret IrAny | HtEq => mret IrEq | HtI31 => mret IrI31 | HtStruct => mret IrStruct | HtArray => mret IrArray
  | HtExn => mret IrExn | HtNoExn => mret IrNoExn | HtNone => mret IrNone
  end.
Definition registered_val_ir (v : ValType) : SM (list Z) IrVal :=
  match v with
  | TI32 => mret IrI32 | TI64 => mret IrI64 | TF32 => mret IrF32 | TF64 => mret IrF64 | TV128 => mret IrV128
  | TRef rt => h ← registered_heap_ir (rt_heap rt); mret (IrRefTy (rt_nullable rt) h)
  end.
Definition val_ir (v : ValDef) : SM (list Z) IrVal :=
  match v with
  | VdRegistered t => registered_val_ir t
  | VdForward target nullable => mret (IrRefTy nullable (IrConcrete (pt_index target) (pt_kind target)))
  end.
Definition registered_storage_ir (s : StorageType) : SM (list Z) IrStorage :=
  match s with
  | StI8 => mret IrSI8
  | StI16 => mret IrSI16
  | StValType v => v ← registered_val_ir v; mret (IrSVal v)
  end.
Definition registered_field_ir (f : FieldType) : SM (list Z) IrField :=
  storage ← registered_storage_ir (ft_element f);
  mret {| f_mutable := ft_mutable f; f_storage := storage |}.
Definition field_ir (f : FieldDef) : SM (list Z) IrField :=
  match f with
  | FdRegistered ty => registered_field_ir ty
  | FdForward target mutable nullable =>
      mret {| f_mutable := mutable;
              f_storage := IrSVal (IrRefTy nullable (IrConcrete (pt_index target) (pt_kind target))) |}
  end.
Definition super_index (s : SuperDef) : SM (list Z) Z :=
  match s with
  | SdForward index => mret index
  | SdStruct id | SdArray id | SdFunc id => external id
  end.
Definition super_ir (o : option SuperDef) : SM (list Z) (option Z) :=
  match o with Some s => i ← super_index s; mret (Some i) | None => mret None end.
Definition lower (def : MemberDef) : SM (list Z) (ModuleType * AggKind) :=
  match def with
  | MdStruct finality supertype fields =>
      st ← super_ir supertype;
      fs ← mapM field_ir fields;
      mret ({| mt_group := 0; mt_finality := finality; mt_supertype := st; mt_body := CompStruct fs |}, AggStruct)
  | MdArray finality supertype element =>
      st ← super_ir supertype;
      f ← field_ir element;
      mret ({| mt_group := 0; mt_finality := finality; mt_supertype := st; mt_body := CompArray f |}, AggArray)
  | MdFunc finality supertype params results =>
      st ← super_ir supertype;
      ps ← mapM val_ir params;
      rs ← mapM val_ir results;
      mret ({| mt_group := 0; mt_finality := finality; mt_supertype := st; mt_body := CompFunc ps rs |}, AggFunc)
  end.
End lower.

(** ** The handles descriptors hold, and dropping them *)
Definition heap_handles (h : HeapType) : list Z :=
  match h with HtConcreteStruct id | HtConcreteArray id | HtConcreteFunc id => [id] | _ => [] end.
Definition val_handles (v : ValType) : list Z := match v with TRef rt => heap_handles (rt_heap rt) | _ => [] end.
Definition field_handles (f : FieldType) : list Z :=
  match ft_element f with StValType v => val_handles v | _ => [] end.
Definition sig_handles (s : list ValType * list ValType) : list Z := (s.1 ++ s.2) ≫= val_handles.
Definition super_handles (o : option SuperDef) : list Z :=
  match o with Some (SdStruct id) | Some (SdArray id) | Some (SdFunc id) => [id] | _ => [] end.
Definition field_def_handles (f : FieldDef) : list Z := match f with FdRegistered ty => field_handles ty | _ => [] end.
Definition val_def_handles (v : ValDef) : list Z := match v with VdRegistered ty => val_handles ty | _ => [] end.
Definition member_handles (m : MemberDef) : list Z :=
  match m with
  | MdStruct _ s fields => super_handles s ++ (fields ≫= field_def_handles)
  | MdArray _ s element => super_handles s ++ field_def_handles element
  | MdFunc _ s params results => super_handles s ++ ((params ++ results) ≫= val_def_handles)
  end.
Definition members_handles (ms : list (option MemberDef)) : list Z :=
  ms ≫= λ o, match o with Some m => member_handles m | None => [] end.

Definition drop_handles (ids : list Z) : SM TypeRegistry () := for_each ids decref_type.
(** Run [m] and drop the handles in scope, whatever it returns. *)
Definition dropping {A} (ids : list Z) (m : SM TypeRegistry A) : SM TypeRegistry A := λ tr,
  match m tr with
  | (Panic w, tr1) => (Panic w, tr1)
  | (r, tr1) => (drop_handles ids;; lift r) tr1
  end.

(** ** Validation of declared supertypes *)
Definition engine_struct_fields (id : Z) : SM TypeRegistry (list FieldType) :=
  o ← registry_struct_fields id; lift (ok_or o (EMsg "not a live struct type")).
Definition engine_array_field (id : Z) : SM TypeRegistry FieldType :=
  o ← registry_array_field id; lift (ok_or o (EMsg "not a live array type")).

(** The comparisons read the registry; [None] is a supertype walk that never ends. *)
Section matches.
Variable tr : TypeRegistry.
Definition declared_heap_matches (sub sup : HeapType) : option bool :=
  if heap_matches sub sup then Some true else
  match sub, sup with
  | HtConcreteStruct a, HtConcreteStruct b
  | HtConcreteArray a, HtConcreteArray b
  | HtConcreteFunc a, HtConcreteFunc b => is_subtype tr a b
  | _, _ => Some false
  end.
Definition declared_val_matches (sub sup : ValType) : option bool :=
  if val_type_matches sub sup then Some true else
  match sub, sup with
  | TRef a, TRef b =>
      if negb (rt_nullable a) || rt_nullable b then declared_heap_matches (rt_heap a) (rt_heap b) else Some false
  | _, _ => Some false
  end.
Definition storage_matches (sub sup : StorageType) : option bool :=
  match sub, sup with
  | StValType a, StValType b => declared_val_matches a b
  | _, _ => Some (bool_decide (sub = sup))
  end.
Definition field_matches (sub sup : FieldType) : option bool :=
  if negb (eqb (ft_mutable sub) (ft_mutable sup)) then Some false else
  if ft_mutable sub then Some (bool_decide (ft_element sub = ft_element sup))
  else storage_matches (ft_element sub) (ft_element sup).
(** [a.iter().zip(b).all(f)] *)
Fixpoint zip_all {A} (f : A → A → option bool) (l k : list A) : option bool :=
  match l, k with
  | a :: l', b :: k' => ok ← f a b; if (ok : bool) then zip_all f l' k' else Some false
  | _, _ => Some true
  end.
Definition struct_matches (sub sup : list FieldType) : option bool :=
  if zlen sup <=? zlen sub then zip_all field_matches sub sup else Some false.
Definition sig_matches (sub sup : list ValType * list ValType) : option bool :=
  if (zlen sub.1 =? zlen sup.1) && (zlen sub.2 =? zlen sup.2) then
    ok ← zip_all declared_val_matches sup.1 sub.1;
    if (ok : bool) then zip_all declared_val_matches sub.2 sup.2 else Some false
  else Some false.
End matches.
Definition decided (f : TypeRegistry → option bool) : SM TypeRegistry bool :=
  reads (λ tr, expect (f tr) "is_subtype: out of fuel").

Definition func_matches (sub sup : Z) : SM TypeRegistry bool :=
  a ← registry_func_sig sub;
  b ← registry_func_sig sup;
  dropping (from_option sig_handles [] a ++ from_option sig_handles [] b)
    match a, b with
    | Some a, Some b => decided (λ tr, sig_matches tr a b)
    | _, _ => mret false
    end.

(** ** The registered group *)
Record RecGroup : Type := { rg_builder : Z; rg_group : Z; rg_ids : list Z; rg_kinds : list AggKind }.
Definition rec_group_drop (g : RecGroup) : SM TypeRegistry () := release [rg_group g].

Definition super_id (group : RecGroup) (kind : AggKind) (sup : SuperDef) : res Z :=
  match sup with
  | SdForward j =>
      k ← expect (zget (rg_kinds group) j) "index out of bounds";
      if bool_decide (k = kind) then expect (zget (rg_ids group) j) "index out of bounds"
      else Err (EMsg "supertype must be of the same kind")
  | SdStruct id | SdArray id | SdFunc id => Ok id
  end.
Definition struct_check (sub_id sup_id : Z) : SM TypeRegistry () :=
  sub ← engine_struct_fields sub_id;
  dropping (sub ≫= field_handles) (
    sup ← engine_struct_fields sup_id;
    dropping (sup ≫= field_handles) (
      ok ← decided (λ tr, struct_matches tr sub sup);
      guard_err ok (EMsg "struct fields must match their supertype's fields"))).
Definition array_check (sub_id sup_id : Z) : SM TypeRegistry () :=
  sub ← engine_array_field sub_id;
  dropping (field_handles sub) (
    sup ← engine_array_field sup_id;
    dropping (field_handles sup) (
      ok ← decided (λ tr, field_matches tr sub sup);
      guard_err ok (EMsg "array field type must match its supertype's field type"))).
Definition func_check (sub_id sup_id : Z) : SM TypeRegistry () :=
  ok ← func_matches sub_id sup_id;
  guard_err ok (EMsg "function type must match its supertype").
Definition validate_supertype (group : RecGroup) (i : Z) (sup : option SuperDef) : SM TypeRegistry () :=
  match sup with
  | None => mret tt
  | Some sup =>
      kind ← lift (expect (zget (rg_kinds group) i) "index out of bounds");
      sup_id ← lift (super_id group kind sup);
      finality ← gets (λ tr, type_finality tr sup_id);
      guard_err (bool_decide (finality = Some NonFinal)) (EMsg "cannot create a subtype of a final supertype");;
      sub_id ← lift (expect (zget (rg_ids group) i) "index out of bounds");
      match kind with
      | AggStruct => struct_check sub_id sup_id
      | AggArray => array_check sub_id sup_id
      | AggFunc => func_check sub_id sup_id
      end
  end.
Fixpoint validate_members (group : RecGroup) (i : Z) (defs : list MemberDef) : SM TypeRegistry () :=
  match defs with
  | [] => mret tt
  | def :: defs' => validate_supertype group i (member_supertype def);; validate_members group (i + 1) defs'
  end.

(** ** Building *)
Definition all_defined (members : list (option MemberDef)) : res (list MemberDef) :=
  mapM (λ o, ok_or o (EMsg "type was declared but never defined")) members.
(** [?] after the group exists drops it. *)
Definition or_drop_group (group : RecGroup) (m : SM TypeRegistry ()) : SM TypeRegistry RecGroup := λ tr,
  match m tr with
  | (Err e, tr1) => (rec_group_drop group;; fail e) tr1
  | (Panic w, tr1) => (Panic w, tr1)
  | (Ok _, tr1) => (Ok group, tr1)
  end.
Definition build_group (rb : RecGroupBuilder) : SM TypeRegistry RecGroup :=
  lift (match rb_error rb with Some e => Err e | None => Ok tt end);;
  defs ← lift (all_defined (rb_members rb));
  let n := zlen (rb_members rb) in
  let '(lowered, externals) := mapM (lower n) defs [] in
  lowered ← lift lowered;
  '(ids, g) ← intern_host_group (fst <$> lowered) externals;
  let group := {| rg_builder := rb_id rb; rg_group := g; rg_ids := ids; rg_kinds := snd <$> lowered |} in
  or_drop_group group (validate_members group 0 defs).
Definition build (rb : RecGroupBuilder) : SM TypeRegistry RecGroup :=
  dropping (members_handles (rb_members rb)) (build_group rb).

(** ** Reading a group's types: each getter registers a handle *)
Definition index_of (g : RecGroup) (ty : PendingType) : res Z :=
  if pt_builder ty =? rg_builder g then Ok (pt_index ty) else Panic "`PendingType` used with a different `RecGroup`".
Definition get_member (kind : AggKind) (g : RecGroup) (ty : PendingType) : SM TypeRegistry (option Z) :=
  i ← lift (index_of g ty);
  k ← lift (expect (zget (rg_kinds g) i) "index out of bounds");
  if bool_decide (k = kind) then
    id ← lift (expect (zget (rg_ids g) i) "index out of bounds");
    id ← from_id id;
    mret (Some id)
  else mret None.
Definition get_struct : RecGroup → PendingType → SM TypeRegistry (option Z) := get_member AggStruct.
Definition get_array : RecGroup → PendingType → SM TypeRegistry (option Z) := get_member AggArray.
Definition get_func : RecGroup → PendingType → SM TypeRegistry (option Z) := get_member AggFunc.
Definition concrete_heap (kind : AggKind) (id : Z) : HeapType :=
  match kind with AggStruct => HtConcreteStruct id | AggArray => HtConcreteArray id | AggFunc => HtConcreteFunc id end.
Definition group_types (g : RecGroup) : SM TypeRegistry (list HeapType) :=
  mapM (λ '(id, kind), id ← from_id id; mret (concrete_heap kind id)) (zip (rg_ids g) (rg_kinds g)).

(** ** What a builder accumulates is scoped *)
Definition member_kind (m : MemberDef) : AggKind :=
  match m with MdStruct _ _ _ => AggStruct | MdArray _ _ _ => AggArray | MdFunc _ _ _ _ => AggFunc end.
Definition member_finality (m : MemberDef) : Finality :=
  match m with MdStruct f _ _ | MdArray f _ _ | MdFunc f _ _ _ => f end.

(** One call on a nested builder. *)
Inductive StructCall : Type :=
  | ScFinality (f : Finality) | ScSupertype (owner id : Z) | ScForwardSupertype (ty : PendingType)
  | ScField (owner : Z) (ty : FieldType) | ScForwardField (ty : PendingType) (mutable nullable : bool) | ScFinish.
Definition configure (mutable nullable : bool) (f : ForwardRef) : ForwardRef :=
  forward_nullable nullable (forward_mutability mutable f).
Definition struct_call (c : StructCall) : StructTypeBuilder → res StructTypeBuilder :=
  match c with
  | ScFinality f => struct_finality f
  | ScSupertype owner id => struct_supertype owner id
  | ScForwardSupertype ty => struct_forward_supertype ty
  | ScField owner ty => struct_field_def owner ty
  | ScForwardField ty mutable nullable => struct_forward_ref_field ty (configure mutable nullable)
  | ScFinish => struct_finish
  end.
Inductive ArrayCall : Type :=
  | AcFinality (f : Finality) | AcSupertype (owner id : Z) | AcForwardSupertype (ty : PendingType)
  | AcElement (owner : Z) (ty : FieldType) | AcForwardElement (ty : PendingType) (mutable nullable : bool) | AcFinish.
Definition array_call (c : ArrayCall) : ArrayTypeBuilder → res ArrayTypeBuilder :=
  match c with
  | AcFinality f => array_finality f
  | AcSupertype owner id => array_supertype owner id
  | AcForwardSupertype ty => array_forward_supertype ty
  | AcElement owner ty => array_element_def owner ty
  | AcForwardElement ty mutable nullable => array_forward_ref_element ty (configure mutable nullable)
  | AcFinish => array_finish
  end.
Inductive FuncCall : Type :=
  | FcFinality (f : Finality) | FcSupertype (owner id : Z) | FcForwardSupertype (ty : PendingType)
  | FcParam (owner : Z) (ty : ValType) | FcResult (owner : Z) (ty : ValType)
  | FcForward (is_result : bool) (ty : PendingType) (nullable : bool) | FcFinish.
Definition func_call (c : FuncCall) : FuncTypeBuilder → res FuncTypeBuilder :=
  match c with
  | FcFinality f => func_finality f
  | FcSupertype owner id => func_supertype owner id
  | FcForwardSupertype ty => func_forward_supertype ty
  | FcParam owner ty => func_param owner ty
  | FcResult owner ty => func_result owner ty
  | FcForward is_result ty nullable => func_forward_ref_val is_result ty (configure false nullable)
  | FcFinish => func_finish
  end.
Fixpoint calls {C B} (call : C → B → res B) (cs : list C) (b : B) : res B :=
  match cs with [] => Ok b | c :: cs' => b ← call c b; calls call cs' b end.
Definition struct_pending (c : StructCall) : list PendingType :=
  match c with ScForwardSupertype ty | ScForwardField ty _ _ => [ty] | _ => [] end.
Definition array_pending (c : ArrayCall) : list PendingType :=
  match c with AcForwardSupertype ty | AcForwardElement ty _ _ => [ty] | _ => [] end.
Definition func_pending (c : FuncCall) : list PendingType :=
  match c with FcForwardSupertype ty | FcForward _ ty _ => [ty] | _ => [] end.

(** A handle that [declare] can have returned: builder [id] declared the kinds [ks]. *)
Definition issued (id : Z) (ks : list AggKind) (ty : PendingType) : Prop :=
  pt_builder ty = id → zget ks (pt_index ty) = Some (pt_kind ty).

(** One step of the host on a builder, with the kinds declared so far. *)
Inductive builder_step : list AggKind * RecGroupBuilder → list AggKind * RecGroupBuilder → Prop :=
  | bs_declare ks rb k p rb' : declare k rb = (Ok p, rb') → builder_step (ks, rb) (ks ++ [k], rb')
  | bs_struct ks rb ty cs b b' :
      issued (rb_id rb) ks ty → Forall (issued (rb_id rb) ks) (cs ≫= struct_pending) →
      define_struct ty rb = Ok b → calls struct_call cs b = Ok b' → builder_step (ks, rb) (ks, sb_rec b')
  | bs_array ks rb ty cs b b' :
      issued (rb_id rb) ks ty → Forall (issued (rb_id rb) ks) (cs ≫= array_pending) →
      define_array ty rb = Ok b → calls array_call cs b = Ok b' → builder_step (ks, rb) (ks, ab_rec b')
  | bs_func ks rb ty cs b b' :
      issued (rb_id rb) ks ty → Forall (issued (rb_id rb) ks) (cs ≫= func_pending) →
      define_func ty rb = Ok b → calls func_call cs b = Ok b' → builder_step (ks, rb) (ks, fb_rec b').

Section scoped.
Variable ks : list AggKind.
Definition target_scoped (ty : PendingType) : Prop := zget ks (pt_index ty) = Some (pt_kind ty).
Definition field_scoped (f : FieldDef) : Prop := match f with FdForward ty _ _ => target_scoped ty | _ => True end.
Definition val_scoped (v : ValDef) : Prop := match v with VdForward ty _ => target_scoped ty | _ => True end.
Definition super_scoped (kind : AggKind) (o : option SuperDef) : Prop :=
  match o with
  | None => True
  | Some (SdForward j) => is_Some (zget ks j)
  | Some (SdStruct _) => kind = AggStruct
  | Some (SdArray _) => kind = AggArray
  | Some (SdFunc _) => kind = AggFunc
  end.
Definition member_scoped (m : MemberDef) : Prop :=
  super_scoped (member_kind m) (member_supertype m) ∧
  match m with
  | MdStruct _ _ fields => Forall field_scoped fields ∧ zlen fields ≤ MAX_FIELDS
  | MdArray _ _ element => field_scoped element
  | MdFunc _ _ params results => Forall val_scoped params ∧ Forall val_scoped results
  end.
End scoped.
Record builder_ok (ks : list AggKind) (rb : RecGroupBuilder) : Prop := {
  bo_len : zlen (rb_members rb) = zlen ks;
  bo_small : zlen ks ≤ 2 ^ 32;
  bo_members : ∀ i m, zget (rb_members rb) i = Some (Some m) → zget ks i = Some (member_kind m) ∧ member_scoped ks m;
}.

Lemma check_engine_members b rb : rb_members (check_engine b rb) = rb_members rb ∧ rb_id (check_engine b rb) = rb_id rb.
Proof. unfold check_engine, record_error. by repeat case_match. Qed.
Lemma record_error_members e rb : rb_members (record_error e rb) = rb_members rb ∧ rb_id (record_error e rb) = rb_id rb.
Proof. unfold record_error. by repeat case_match. Qed.
Lemma check_field_members o ty rb : rb_members (check_field_engine o ty rb) = rb_members rb ∧ rb_id (check_field_engine o ty rb) = rb_id rb.
Proof. unfold check_field_engine. destruct (ft_element ty); [done..|apply check_engine_members]. Qed.
Lemma builder_ok_same ks rb rb' : rb_members rb' = rb_members rb → builder_ok ks rb → builder_ok ks rb'.
Proof. intros He []. split; by rewrite ?He. Qed.
Lemma put_member_ok ks rb i m rb' :
  builder_ok ks rb → zget ks i = Some (member_kind m) → member_scoped ks m → put_member i m rb = Ok rb' →
  builder_ok ks rb' ∧ rb_id rb' = rb_id rb.
Proof.
  intros [Hl Hs Hm] Hk Hsc. unfold put_member. intros (ms & Hz & [= <-])%result_bind_Ok.
  destruct (zset _ _ _) as [ms'|] eqn:Hset; [|done]. injection Hz as ->. apply zset_Some in Hset as [Hr ->].
  split; [|done]. split; [by cbn; rewrite zlen_insert|done|]. cbn. intros j m'.
  destruct (Z.eq_dec j i) as [->|Hne].
  - rewrite zget_insert_eq by done. by intros [= <-].
  - rewrite zget_insert_ne by lia. apply Hm.
Qed.
Lemma define_inv kind ty rb i : define kind ty rb = Ok i → pt_builder ty = rb_id rb ∧ pt_kind ty = kind ∧ i = pt_index ty.
Proof.
  unfold define, check_owns. destruct (Z.eqb_spec (pt_builder ty) (rb_id rb)); [|done]. cbn.
  case_bool_decide; [|done]. by intros [= <-].
Qed.
Lemma check_owns_inv ty rb u : check_owns ty rb = Ok u → pt_builder ty = rb_id rb.
Proof. unfold check_owns. by destruct (Z.eqb_spec (pt_builder ty) (rb_id rb)). Qed.

Lemma calls_inv {C B} (call : C → B → res B) (pending : C → list PendingType) (ok : PendingType → Prop) (Inv : B → Prop) cs b b' :
  (∀ c b b', Inv b → Forall ok (pending c) → call c b = Ok b' → Inv b') →
  Inv b → Forall ok (cs ≫= pending) → calls call cs b = Ok b' → Inv b'.
Proof.
  intros Hstep. revert b. induction cs as [|c cs IH]; intros b Hb Hp; [by intros [= <-]|].
  cbn in Hp. apply Forall_app in Hp as [Hc Hcs]. cbn [calls]. intros (b1 & H1 & H2)%result_bind_Ok. eauto.
Qed.

Section nested.
Variables (ks : list AggKind) (id : Z).
Definition rec_inv (rb : RecGroupBuilder) : Prop := builder_ok ks rb ∧ rb_id rb = id.
Lemma rec_inv_same rb rb' : rb_members rb' = rb_members rb ∧ rb_id rb' = rb_id rb → rec_inv rb → rec_inv rb'.
Proof. intros [Hm Hi] [Hb H]. split; [exact (builder_ok_same ks rb rb' Hm Hb)|by rewrite Hi]. Qed.
Lemma rec_inv_put rb i m rb' :
  rec_inv rb → zget ks i = Some (member_kind m) → member_scoped ks m → put_member i m rb = Ok rb' → rec_inv rb'.
Proof. intros [Hb H] Hk Hm Hp. destruct (put_member_ok _ _ _ _ _ Hb Hk Hm Hp). split; [done|congruence]. Qed.
Lemma rec_inv_owns rb ty u : rec_inv rb → issued id ks ty → check_owns ty rb = Ok u → target_scoped ks ty.
Proof. intros [_ H] Hi Ho%check_owns_inv. apply Hi. congruence. Qed.
Lemma rec_inv_define rb kind ty i : rec_inv rb → issued id ks ty → define kind ty rb = Ok i → zget ks i = Some kind.
Proof. intros [_ H] Hi (Ho & <- & ->)%define_inv. apply Hi. congruence. Qed.

Definition struct_inv (b : StructTypeBuilder) : Prop :=
  rec_inv (sb_rec b) ∧ zget ks (sb_index b) = Some AggStruct ∧ super_scoped ks AggStruct (sb_supertype b) ∧
  Forall (field_scoped ks) (sb_fields b).
Lemma struct_call_inv c b b' : struct_inv b → Forall (issued id ks) (struct_pending c) → struct_call c b = Ok b' → struct_inv b'.
Proof.
  intros (Hr & Hk & Hs & Hf) Hp. destruct c as [f|o i|ty|o ty|ty m n|]; cbn [struct_call struct_pending] in *.
  - by intros [= <-].
  - intros [= <-]. split_and!; [|done..]. by eapply rec_inv_same, Hr; apply check_engine_members.
  - apply Forall_cons_1 in Hp as [Hp _]. intros (u & Ho & [= <-])%result_bind_Ok. split_and!; [done..|cbn|done].
    eexists. by eapply rec_inv_owns.
  - intros [= <-]. split_and!; [|done..|]; cbn; [by eapply rec_inv_same, Hr; apply check_field_members|].
    by apply Forall_app; split; [|apply Forall_singleton].
  - apply Forall_cons_1 in Hp as [Hp _]. intros (u & Ho & [= <-])%result_bind_Ok. split_and!; [done..|cbn].
    apply Forall_app; split; [done|]. apply Forall_singleton. by eapply rec_inv_owns.
  - unfold struct_finish. destruct (Z.ltb_spec MAX_FIELDS (zlen (sb_fields b))).
    + intros [= <-]. split_and!; [|done..|constructor]. by eapply rec_inv_same, Hr; apply record_error_members.
    + intros (rb & Hput & [= <-])%result_bind_Ok. split_and!; [|done..|constructor]. by eapply rec_inv_put, Hput.
Qed.

Definition array_inv (b : ArrayTypeBuilder) : Prop :=
  rec_inv (ab_rec b) ∧ zget ks (ab_index b) = Some AggArray ∧ super_scoped ks AggArray (ab_supertype b) ∧
  opt_all (field_scoped ks) (ab_element b).
Lemma array_call_inv c b b' : array_inv b → Forall (issued id ks) (array_pending c) → array_call c b = Ok b' → array_inv b'.
Proof.
  intros (Hr & Hk & Hs & Hf) Hp. destruct c as [f|o i|ty|o ty|ty m n|]; cbn [array_call array_pending] in *.
  - by intros [= <-].
  - intros [= <-]. split_and!; [|done..]. by eapply rec_inv_same, Hr; apply check_engine_members.
  - apply Forall_cons_1 in Hp as [Hp _]. intros (u & Ho & [= <-])%result_bind_Ok. split_and!; [done..|cbn|done].
    eexists. by eapply rec_inv_owns.
  - intros [= <-]. split_and!; [|done..]. by eapply rec_inv_same, Hr; apply check_field_members.
  - apply Forall_cons_1 in Hp as [Hp _]. intros (u & Ho & [= <-])%result_bind_Ok. split_and!; [done..|cbn]. by eapply rec_inv_owns.
  - unfold array_finish. destruct (ab_element b) as [el|].
    + intros (rb & Hput & [= <-])%result_bind_Ok. split_and!; [|done..]. by eapply rec_inv_put, Hput.
    + intros [= <-]. split_and!; [|done..]. by eapply rec_inv_same, Hr; apply record_error_members.
Qed.

Definition func_inv (b : FuncTypeBuilder) : Prop :=
  rec_inv (fb_rec b) ∧ zget ks (fb_index b) = Some AggFunc ∧ super_scoped ks AggFunc (fb_supertype b) ∧
  Forall (val_scoped ks) (fb_params b) ∧ Forall (val_scoped ks) (fb_results b).
Lemma func_call_inv c b b' : func_inv b → Forall (issued id ks) (func_pending c) → func_call c b = Ok b' → func_inv b'.
Proof.
  intros (Hr & Hk & Hs & Hps & Hrs) Hp. destruct c as [f|o i|ty|o ty|o ty|r ty n|]; cbn [func_call func_pending] in *.
  - by intros [= <-].
  - intros [= <-]. split_and!; [|done..]. by eapply rec_inv_same, Hr; apply check_engine_members.
  - apply Forall_cons_1 in Hp as [Hp _]. intros (u & Ho & [= <-])%result_bind_Ok. split_and!; [done..|cbn|done|done].
    eexists. by eapply rec_inv_owns.
  - intros [= <-]. split_and!; [|done..| |done]; cbn; [by eapply rec_inv_same, Hr; apply check_engine_members|].
    by apply Forall_app; split; [|apply Forall_singleton].
  - intros [= <-]. split_and!; [|done..|]; cbn; [by eapply rec_inv_same, Hr; apply check_engine_members|].
    by apply Forall_app; split; [|apply Forall_singleton].
  - apply Forall_cons_1 in Hp as [Hp _]. intros (u & Ho & Hb)%result_bind_Ok.
    assert (val_scoped ks (forward_val (configure false n (forward_ref ty)))) as Hv by by eapply rec_inv_owns.
    destruct r; injection Hb as <-; split_and!; try done; cbn; apply Forall_app; split; try done; by apply Forall_singleton.
  - intros (rb & Hput & [= <-])%result_bind_Ok. split_and!; [by eapply rec_inv_put, Hput|done..|constructor|constructor].
Qed.
End nested.

Lemma builder_step_ok st st' : builder_step st st' → builder_ok st.1 st.2 → builder_ok st'.1 st'.2.
Proof.
  intros [ks rb k p rb' Hd|ks rb ty cs b b' Hi Hp Hd Hc|ks rb ty cs b b' Hi Hp Hd Hc|ks rb ty cs b b' Hi Hp Hd Hc] Hok; cbn [fst snd] in *.
  - destruct Hok as [Hl Hs Hm]. unfold declare in Hd. rewrite get_run in Hd. destruct (Z.ltb_spec (zlen (rb_members rb)) (2 ^ 32)); [|done].
    injection Hd as _ <-. split.
    + cbn. rewrite !zlen_app. by rewrite Hl.
    + rewrite zlen_app. change (zlen [k]) with 1. lia.
    + cbn. intros i m Hg. pose proof (zget_Some _ _ _ Hg) as Hr. rewrite zlen_app in Hr. change (zlen [None]) with 1 in Hr.
      destruct (Z.lt_ge_cases i (zlen (rb_members rb))) as [Hlt|Hge].
      * rewrite zget_app_l in Hg by done. destruct (Hm _ _ Hg) as [Hk Hsc]. rewrite zget_app_l by lia. split; [done|].
        assert (∀ j x, zget ks j = Some x → zget (ks ++ [k]) j = Some x) as Hmono.
        { intros j x Hj. pose proof (zget_Some _ _ _ Hj). rewrite zget_app_l by lia. done. }
        assert (∀ f, field_scoped ks f → field_scoped (ks ++ [k]) f) as Hf by (intros []; [done|]; apply Hmono).
        assert (∀ v, val_scoped ks v → val_scoped (ks ++ [k]) v) as Hv by (intros []; [done|]; apply Hmono).
        destruct Hsc as [Hsup Hb]. split.
        -- destruct (member_supertype m) as [[j| | |]|]; try done. destruct Hsup as [x Hx]. exists x. by apply Hmono.
        -- destruct m; [destruct Hb; split; [|done]|by apply Hf|destruct Hb; split]; by eapply Forall_impl.
      * rewrite zget_app_r in Hg by done. replace (i - zlen (rb_members rb)) with 0 in Hg by lia. done.
  - unfold define_struct in Hd. destruct (define AggStruct ty rb) as [i| |] eqn:Hdef; try done. injection Hd as <-.
    eapply (calls_inv struct_call struct_pending _ (struct_inv ks (rb_id rb))) in Hc as [[? _] _]; [done|apply struct_call_inv| |done].
    split_and!; [by split|by eapply (rec_inv_define ks (rb_id rb))|done|constructor].
  - unfold define_array in Hd. destruct (define AggArray ty rb) as [i| |] eqn:Hdef; try done. injection Hd as <-.
    eapply (calls_inv array_call array_pending _ (array_inv ks (rb_id rb))) in Hc as [[? _] _]; [done|apply array_call_inv| |done].
    split_and!; [by split|by eapply (rec_inv_define ks (rb_id rb))|done|done].
  - unfold define_func in Hd. destruct (define AggFunc ty rb) as [i| |] eqn:Hdef; try done. injection Hd as <-.
    eapply (calls_inv func_call func_pending _ (func_inv ks (rb_id rb))) in Hc as [[? _] _]; [done|apply func_call_inv| |done].
    split_and!; [by split|by eapply (rec_inv_define ks (rb_id rb))|done|constructor..].
Qed.

(** ** The key a definition lowers to, and the type it denotes *)
Definition forward_key (nullable : bool) (ty : PendingType) : CVal :=
  CvRef nullable (ChConcrete (pt_kind ty) (CrRel (pt_index ty))).
Definition val_def_key (v : ValDef) : CVal :=
  match v with VdRegistered ty => pub_val ty | VdForward ty n => forward_key n ty end.
Definition field_def_key (f : FieldDef) : CField :=
  match f with
  | FdRegistered ty => pub_field ty
  | FdForward ty m n => {| cf_mutable := m; cf_storage := CsVal (forward_key n ty) |}
  end.
Definition super_def_key (s : SuperDef) : CanonRef :=
  match s with SdForward j => CrRel j | SdStruct id | SdArray id | SdFunc id => CrCanon id end.
Definition body_def_key (m : MemberDef) : CBody :=
  match m with
  | MdStruct _ _ fields => CbStruct (field_def_key <$> fields)
  | MdArray _ _ element => CbArray (field_def_key element)
  | MdFunc _ _ params results => CbFunc (val_def_key <$> params) (val_def_key <$> results)
  end.
Definition member_key (m : MemberDef) : CType :=
  {| ct_finality := member_finality m; ct_supertype := super_def_key <$> member_supertype m; ct_body := body_def_key m |}.

Section denote.
(** The canonical ids of the members. *)
Variable ids : list Z.
Definition forward_type (nullable : bool) (ty : PendingType) : ValType :=
  TRef {| rt_nullable := nullable; rt_heap := concrete_heap (pt_kind ty) (default 0 (zget ids (pt_index ty))) |}.
Definition val_type (v : ValDef) : ValType :=
  match v with VdRegistered ty => ty | VdForward ty n => forward_type n ty end.
Definition field_type (f : FieldDef) : FieldType :=
  match f with
  | FdRegistered ty => ty
  | FdForward ty m n => {| ft_mutable := m; ft_element := StValType (forward_type n ty) |}
  end.
Definition super_type (s : SuperDef) : Z :=
  match s with SdForward j => default 0 (zget ids j) | SdStruct id | SdArray id | SdFunc id => id end.
Definition member_body (m : MemberDef) : CBody :=
  match m with
  | MdStruct _ _ fields => struct_body (field_type <$> fields)
  | MdArray _ _ element => array_body (field_type element)
  | MdFunc _ _ params results => func_body (val_type <$> params) (val_type <$> results)
  end.
Definition member_type (m : MemberDef) : CanonType :=
  {| ck_kind := member_kind m; ck_finality := member_finality m;
     ck_supertype := super_type <$> member_supertype m; ck_body := member_body m |}.
End denote.

(** *** Lowering appends a definition's handles to the externals *)
Section lowering.
Variables (n : Z) (ks : list AggKind).
Hypothesis Hn : n = zlen ks.
(** [m] appends [hs] and returns IR that translates, under any larger table, as [s] says. *)
Definition lowers {A} (hs : list Z) (m : SM (list Z) A) (s : (Z → res CanonRef) → A → Prop) : Prop :=
  ∀ ext, n + zlen ext + zlen hs ≤ 2 ^ 32 →
    ∃ a, m ext = (Ok a, ext ++ hs) ∧ ∀ ext2, s (host_cref n (ext ++ hs ++ ext2)) a.
Lemma lowers_ret {A} (a : A) (s : (Z → res CanonRef) → A → Prop) : (∀ ext, s (host_cref n ext) a) → lowers [] (mret a) s.
Proof using Hn. intros Hs ext _. exists a. by rewrite app_nil_r. Qed.
Lemma lowers_bind {A B} h1 h2 (m : SM (list Z) A) (f : A → SM (list Z) B) s1 s2 :
  lowers h1 m s1 → (∀ a, lowers h2 (f a) (λ cref b, s1 cref a → s2 cref b)) → lowers (h1 ++ h2) (m ≫= f) s2.
Proof using Hn.
  intros Hm Hf ext Hb. rewrite zlen_app in Hb. pose proof (zlen_nonneg h2).
  destruct (Hm ext) as (a & Ha & Hs1); [lia|]. destruct (Hf a (ext ++ h1)) as (b & Hrun & Hs2); [rewrite zlen_app; lia|].
  exists b. rewrite (bind_run _ _ _ _ _ Ha), Hrun. split; [by rewrite app_assoc|]. intros ext2.
  specialize (Hs2 ext2). rewrite <- !app_assoc in Hs2 |- *. apply Hs2, Hs1.
Qed.
Lemma lowers_weaken {A} hs (m : SM (list Z) A) (s s' : (Z → res CanonRef) → A → Prop) :
  (∀ cref a, s cref a → s' cref a) → lowers hs m s → lowers hs m s'.
Proof using Hn. intros Hs Hm ext Hb. destruct (Hm ext Hb) as (a & Ha & H). exists a. eauto. Qed.
Lemma lowers_map {A B} hs (m : SM (list Z) A) (f : A → B) s :
  lowers hs m (λ cref a, s cref (f a)) → lowers hs (a ← m; mret (f a)) s.
Proof using Hn.
  intros Hm ext Hb. destruct (Hm ext Hb) as (a & Ha & H). exists (f a). by rewrite (bind_run _ _ _ _ _ Ha).
Qed.
Lemma lowers_mapM {A B C} (hs : A → list Z) (f : A → SM (list Z) B) (key : (Z → res CanonRef) → B → res C) (spec : A → C) l :
  (∀ x, x ∈ l → lowers (hs x) (f x) (λ cref b, key cref b = Ok (spec x))) →
  lowers (l ≫= hs) (mapM f l) (λ cref bs, mapM (key cref) bs = Ok (spec <$> l)).
Proof using Hn.
  induction l as [|x l IH]; intros H; [by apply lowers_ret|]. cbn [mapM]. cbn [mbind list_bind].
  eapply lowers_bind; [apply H; set_solver|]. intros b. apply lowers_map.
  eapply lowers_weaken; [|apply IH; intros; apply H; set_solver]. intros cref bs Hbs Hb. cbn [mapM]. by rewrite Hb, Hbs.
Qed.

Lemma external_lowers id : lowers [id] (external n id) (λ cref i, cref i = Ok (CrCanon id)).
Proof using Hn.
  intros ext Hb. change (zlen [id]) with 1 in Hb. pose proof (zlen_nonneg ext). pose proof (zlen_nonneg ks). exists (n + zlen ext). split.
  - unfold external. rewrite get_run, modify_run. cbn. by rewrite wrap_id by (unfold u_ok; lia).
  - intros ext2. unfold host_cref. destruct (Z.ltb_spec (n + zlen ext) n); [lia|].
    replace (n + zlen ext - n) with (zlen ext) by lia. rewrite zget_app_r by lia. by rewrite Z.sub_diag.
Qed.
Lemma forward_lowers j : is_Some (zget ks j) → ∀ ext, host_cref n ext j = Ok (CrRel j).
Proof using Hn. intros [k Hk%zget_Some] ext. unfold host_cref. by destruct (Z.ltb_spec j n); [|lia]. Qed.

Lemma registered_heap_lowers h : lowers (heap_handles h) (registered_heap_ir n h) (λ cref i, heap_key cref i = Ok (pub_heap h)).
Proof using Hn.
  destruct h; try (apply lowers_ret; done); cbn [registered_heap_ir heap_handles]; apply lowers_map;
    (eapply lowers_weaken; [|apply external_lowers]); intros cref i Hi; cbn; by rewrite Hi.
Qed.
Lemma registered_val_lowers v : lowers (val_handles v) (registered_val_ir n v) (λ cref i, val_key cref i = Ok (pub_val v)).
Proof using Hn.
  destruct v as [| | | | |rt]; try (apply lowers_ret; done). cbn [registered_val_ir val_handles]. apply lowers_map.
  eapply lowers_weaken; [|apply registered_heap_lowers]. intros cref i Hi. cbn. by rewrite Hi.
Qed.
Lemma val_lowers v : val_scoped ks v → lowers (val_def_handles v) (val_ir n v) (λ cref i, val_key cref i = Ok (val_def_key v)).
Proof using Hn.
  destruct v as [ty|ty nl]; intros Hs; [apply registered_val_lowers|]. apply lowers_ret. intros ext. cbn.
  by rewrite forward_lowers by eauto.
Qed.
Lemma field_lowers f : field_scoped ks f → lowers (field_def_handles f) (field_ir n f) (λ cref i, field_key cref i = Ok (field_def_key f)).
Proof using Hn.
  destruct f as [ty|ty m nl]; intros Hs; cbn [field_ir field_def_handles].
  - unfold registered_field_ir, field_handles. apply lowers_map. destruct ty as [mu [| |v]]; cbn [ft_element registered_storage_ir];
      [by apply lowers_ret..|]. apply lowers_map. eapply lowers_weaken; [|apply registered_val_lowers].
    intros cref i Hi. cbn in Hi |- *. unfold field_key. cbn. by rewrite Hi.
  - apply lowers_ret. intros ext. unfold field_key. cbn. by rewrite forward_lowers by eauto.
Qed.
Lemma super_lowers kind o : super_scoped ks kind o →
  lowers (super_handles o) (super_ir n o)
    (λ cref i, match i with Some s => Some <$> cref s | None => Ok None end = Ok (super_def_key <$> o)).
Proof using Hn.
  destruct o as [s|]; [|intros; by apply lowers_ret]. intros Hs. cbn [super_ir]. apply lowers_map.
  destruct s as [j|id|id|id]; cbn [super_index super_handles];
    [|eapply lowers_weaken; [|apply external_lowers]; intros cref i Hi; cbn in Hi |- *; by rewrite Hi..].
  apply lowers_ret. intros ext. by rewrite forward_lowers.
Qed.
Lemma lower_lowers def : member_scoped ks def →
  lowers (member_handles def) (lower n def)
    (λ cref '(t, kind), type_key cref t = Ok (member_key def) ∧ kind = member_kind def).
Proof using Hn.
  intros [Hs Hb]. destruct def as [fin s fields|fin s element|fin s params results]; cbn [lower member_handles member_supertype member_kind] in *.
  - eapply lowers_bind; [by eapply super_lowers|]. intros st. apply lowers_map.
    eapply lowers_weaken; [|apply (lowers_mapM _ _ (λ cref, field_key cref) field_def_key)]; cycle 1.
    { intros f Hf. apply field_lowers. destruct Hb as [Hb _]. rewrite Forall_forall in Hb. by apply Hb. }
    intros cref fs Hfs Hst. split; [|done]. unfold type_key. cbn [mt_supertype mt_body mt_finality]. rewrite Hst. cbn [body_key].
    cbn [mbind result_bind]. by rewrite Hfs.
  - eapply lowers_bind; [by eapply super_lowers|]. intros st. apply lowers_map.
    eapply lowers_weaken; [|by apply field_lowers].
    intros cref f Hf Hst. split; [|done]. unfold type_key. cbn [mt_supertype mt_body mt_finality]. rewrite Hst. cbn [body_key].
    cbn [mbind result_bind]. by rewrite Hf.
  - eapply lowers_bind; [by eapply super_lowers|]. intros st. rewrite bind_app. destruct Hb as [Hp Hr]. rewrite Forall_forall in Hp, Hr.
    eapply lowers_bind.
    { apply (lowers_mapM _ _ (λ cref, val_key cref) val_def_key). intros v Hv. by apply val_lowers, Hp. }
    intros ps. apply lowers_map. eapply lowers_weaken; [|apply (lowers_mapM _ _ (λ cref, val_key cref) val_def_key)]; cycle 1.
    { intros v Hv. by apply val_lowers, Hr. }
    intros cref rs Hrs Hps Hst. split; [|done]. unfold type_key. cbn [mt_supertype mt_body mt_finality]. rewrite Hst. cbn [body_key].
    cbn [mbind result_bind]. by rewrite Hps, Hrs.
Qed.
End lowering.

(** *** The key resolves to the denoted type *)
Lemma pub_val_resolve ids v : resolve_val ids (pub_val v) = Ok (pub_val v).
Proof. destruct v as [| | | | |[n h]]; try done. by destruct h. Qed.
Lemma pub_field_resolve ids f : resolve_field ids (pub_field f) = Ok (pub_field f).
Proof.
  destruct f as [m [| |v]]; try done. unfold resolve_field, pub_field. cbn [cf_storage cf_mutable ft_element ft_mutable].
  by rewrite pub_val_resolve.
Qed.
Lemma mapM_spec {A B C} (f : B → res C) (g : A → B) (h : A → C) l :
  (∀ x, x ∈ l → f (g x) = Ok (h x)) → mapM f (g <$> l) = Ok (h <$> l).
Proof.
  induction l as [|x l IH]; intros H; [done|]. cbn [fmap list_fmap mapM]. rewrite H, IH by set_solver. done.
Qed.
Section resolves.
Variables (ids : list Z) (ks : list AggKind).
Hypothesis Hlen : zlen ids = zlen ks.
Lemma forward_resolve j : is_Some (zget ks j) → resolve (CrRel j) ids = Ok (default 0 (zget ids j)).
Proof using Hlen.
  intros [k Hk%zget_Some]. cbn. destruct (zget_is_Some ids j) as [x ->]; [lia|]. done.
Qed.
Lemma forward_val_resolve nl ty : target_scoped ks ty → resolve_val ids (forward_key nl ty) = Ok (pub_val (forward_type ids nl ty)).
Proof using Hlen.
  intros Ht. unfold forward_key. unfold resolve_val. rewrite forward_resolve by eauto. unfold forward_type. cbn.
  by destruct (pt_kind ty).
Qed.
Lemma val_resolve v : val_scoped ks v → resolve_val ids (val_def_key v) = Ok (pub_val (val_type ids v)).
Proof using Hlen. destruct v; intros Hs; [apply pub_val_resolve|by apply forward_val_resolve]. Qed.
Lemma field_resolve f : field_scoped ks f → resolve_field ids (field_def_key f) = Ok (pub_field (field_type ids f)).
Proof using Hlen.
  destruct f as [ty|ty m nl]; intros Hs; [apply pub_field_resolve|]. unfold resolve_field. cbn [field_def_key cf_storage cf_mutable].
  by rewrite forward_val_resolve.
Qed.
Lemma member_resolve m : member_scoped ks m → resolve_type ids (member_key m) = Ok (member_type ids m).
Proof using Hlen.
  intros [Hs Hb]. unfold resolve_type, member_key. cbn [ct_supertype ct_finality ct_body].
  assert (match super_def_key <$> member_supertype m with Some r => Some <$> resolve r ids | None => Ok None end =
    Ok (E:=error) (super_type ids <$> member_supertype m)) as ->.
  { destruct (member_supertype m) as [s|]; [|done]. destruct s; try done. cbn [fmap option_fmap option_map super_def_key].
    by rewrite forward_resolve. }
  assert (body_kind (body_def_key m) = member_kind m) as -> by by destruct m. cbn [mbind result_bind].
  assert (resolve_body ids (body_def_key m) = Ok (member_body ids m)) as ->; [|done].
  destruct m as [fin s fields|fin s element|fin s params results]; cbn [body_def_key member_body resolve_body].
  - destruct Hb as [Hb _]. rewrite Forall_forall in Hb. rewrite (mapM_spec _ _ (pub_field ∘ field_type ids)) by (intros; by apply field_resolve, Hb).
    unfold struct_body. by rewrite list_fmap_compose.
  - by rewrite field_resolve.
  - destruct Hb as [Hp Hr]. rewrite Forall_forall in Hp, Hr.
    rewrite (mapM_spec _ _ (pub_val ∘ val_type ids) params) by (intros; by apply val_resolve, Hp).
    rewrite (mapM_spec _ _ (pub_val ∘ val_type ids) results) by (intros; by apply val_resolve, Hr).
    unfold func_body. by rewrite !list_fmap_compose.
Qed.
End resolves.

(** The ids the key references outside the group are the definition's handles. *)
Lemma pub_val_canon v : val_canon_id (pub_val v) = val_handles v.
Proof. destruct v as [| | | | |[n h]]; try done. by destruct h. Qed.
Lemma pub_field_canon f : field_canon_id (pub_field f) = field_handles f.
Proof. destruct f as [m [| |v]]; try done. apply pub_val_canon. Qed.
Lemma val_def_canon v : val_canon_id (val_def_key v) = val_def_handles v.
Proof. destruct v; [apply pub_val_canon|done]. Qed.
Lemma field_def_canon f : field_canon_id (field_def_key f) = field_def_handles f.
Proof. destruct f; [apply pub_field_canon|done]. Qed.
Lemma bind_fmap {A B C} (f : B → list C) (g : A → B) (h : A → list C) l :
  (∀ x, f (g x) = h x) → (g <$> l) ≫= f = l ≫= h.
Proof. intros H. induction l as [|x l IH]; [done|]. cbn. by rewrite H, <- IH. Qed.
Lemma member_canon m : type_canon_ids (member_key m) = member_handles m.
Proof.
  unfold type_canon_ids. cbn [ct_supertype ct_body member_key].
  assert (match super_def_key <$> member_supertype m with Some (CrCanon id) => [id] | _ => [] end =
    super_handles (member_supertype m)) as -> by by destruct (member_supertype m) as [[]|].
  destruct m; cbn [member_handles member_supertype body_def_key body_canon_ids].
  - f_equal. apply bind_fmap, field_def_canon.
  - by rewrite field_def_canon.
  - rewrite <- fmap_app. f_equal. apply bind_fmap, val_def_canon.
Qed.
Lemma key_canon defs : edge_canon_ids (member_key <$> defs) = defs ≫= member_handles.
Proof. apply bind_fmap, member_canon. Qed.
