(* ===== verification/GroupBuild.v ===== *)
(** * GroupBuild: building a recursion group, and what it leaves in the registry

    Handles taken while a group is validated are dropped again, so validation moves
    counts only ([recounted]); [steady] is that, for code that needs room for some
    registrations.  [build_spec] puts the phases of [build] together: a group built
    reads back as it was declared and holds one registration, and a build that
    fails leaves none. *)
From stdpp Require Import relations.
From S2P Require Import Prelude Types Layout Keys Registry Interning RecGroup.
Open Scope Z_scope.

(** ** Materialising and dropping handles only moves counts *)
Record recounted (tr tr' : TypeRegistry) : Prop := {
  rc_types : tr_types tr' = tr_types tr;
  rc_owner : tr_type_to_group tr' = tr_type_to_group tr;
  rc_live : ∀ g, (λ r, (gr_key r, gr_members r)) <$> live_group tr' g = (λ r, (gr_key r, gr_members r)) <$> live_group tr g;
  rc_in : ∀ g, in_edges tr' g = in_edges tr g;
  rc_edges : edge_total tr' = edge_total tr;
}.
#[export] Instance recounted_preorder : PreOrder recounted.
Proof.
  split; [by intros tr; split|]. intros a b c [? ? H3 H4 ?] [? ? H3' H4' ?]. split; congruence.
Qed.
Lemma put_recounted tr g rec n : live_group tr g = Some rec → recounted tr (put_group g (Some (set_refcount n rec)) tr).
Proof.
  intros Hg. pose proof (live_range _ _ _ Hg) as Hr. pose proof Hg as Hz. apply zentry_Some in Hz. split; try done.
  - intros g0. rewrite live_put by done. destruct (Z.eqb_spec g0 g) as [->|]; [|done]. by rewrite Hg.
  - intros g0. rewrite (in_edges_put _ _ _ _ _ Hz). cbn [out_edges set_refcount gr_key]. lia.
  - rewrite (edge_total_put _ _ _ _ Hz). cbn [set_refcount gr_key]. lia.
Qed.
Lemma recounted_registered tr tr' id : recounted tr tr' → registered_type tr' id = registered_type tr id.
Proof. intros []. unfold registered_type. by rewrite rc_types0. Qed.
Lemma recounted_group tr tr' id : recounted tr tr' → group_of tr' id = group_of tr id.
Proof. intros []. unfold group_of. by rewrite rc_owner0. Qed.
Lemma recounted_registrations tr tr' held : recounted tr tr' → registrations held tr' = registrations held tr.
Proof. intros []. unfold registrations. by rewrite rc_edges0. Qed.
Lemma recounted_ordered tr tr' : recounted tr tr' → ordered_registry tr → ordered_registry tr'.
Proof.
  intros [_ _ Hl _ _] Ho g r Hr. specialize (Hl g). rewrite Hr in Hl. cbn in Hl.
  destruct (live_group tr g) as [r0|] eqn:H0; [|done]. injection Hl as Hk _. rewrite Hk. by eapply Ho.
Qed.

(** The groups that own [ids]. *)
Definition groups_of (tr : TypeRegistry) (ids gs : list Z) : Prop := Forall2 (λ id g, group_of tr id = Some g) ids gs.
Lemma groups_of_recounted tr tr' ids gs : recounted tr tr' → groups_of tr ids gs → groups_of tr' ids gs.
Proof. intros Hr H. eapply Forall2_impl; [exact H|]. intros id g Hg. by rewrite (recounted_group _ _ _ Hr). Qed.
Lemma groups_of_live tr ids : (∀ id, id ∈ ids → is_Some (group_of tr id)) → ∃ gs, groups_of tr ids gs.
Proof.
  induction ids as [|id ids IH]; intros H; [exists []; constructor|].
  destruct (H id ltac:(set_solver)) as [g Hg]. destruct IH as [gs Hgs]; [set_solver|]. exists (g :: gs). by constructor.
Qed.

Lemma incref_type_run rank held tr id g :
  reg_wf rank held tr → group_of tr id = Some g → registrations held tr + 1 < 2 ^ 32 →
  ∃ tr', incref_type id tr = (Ok tt, tr') ∧ reg_wf rank (g :: held) tr' ∧ recounted tr tr'.
Proof.
  intros Hw Hg Hroom. pose proof Hg as (r & Hr & _)%(rw_owner _ _ _ Hw).
  destruct (incref_run _ _ _ g Hw) as (rec & Hrec & Hrun & Hw'); [eauto|lia|].
  eexists. split; [|split; [exact Hw'|by apply put_recounted]].
  unfold incref_type. rewrite (reads_Ok _ _ tr g) by by rewrite Hg. exact Hrun.
Qed.
(** Dropping a handle whose group has another registration. *)
Lemma decref_type_run rank held tr id g :
  reg_wf rank (g :: held) tr → group_of tr id = Some g → 0 < occ g held + in_edges tr g →
  ∃ tr', decref_type id tr = (Ok tt, tr') ∧ reg_wf rank held tr' ∧ recounted tr tr'.
Proof.
  intros Hw Hg Hpin. destruct (rw_held _ _ _ Hw g ltac:(set_solver)) as [rec Hrec].
  destruct (rw_count _ _ _ Hw _ _ Hrec) as [Hcnt _].
  assert (occ g (g :: held) = 1 + occ g held) as Hcons by (unfold occ; cbn; rewrite Z.eqb_refl; lia).
  set (tr' := put_group g (Some (set_refcount (gr_refcount rec - 1) rec)) tr).
  assert (decref_step g tr = (Ok [], tr')) as Hstep.
  { unfold decref_step. rewrite (reads_Ok _ _ tr rec) by by rewrite Hrec. unfold checked_sub.
    destruct (Z.leb_spec 1 (gr_refcount rec)); [|lia]. cbn [expect].
    erewrite lift_Ok by done. rewrite modify_run. destruct (Z.ltb_spec 0 (gr_refcount rec - 1)); [done|lia]. }
  exists tr'. split_and!; [|..].
  - unfold decref_type. rewrite (reads_Ok _ _ tr g) by by rewrite Hg. unfold decref_group.
    cbn [decref_loop Nat.add]. change (vec_pop [g]) with (Some ([] : list Z, g)). cbv beta iota.
    rewrite (bind_run _ _ _ _ _ Hstep). done.
  - apply (reg_wf_recount rank (g :: held)); try done.
    + intros g0 Hne. unfold occ at 2. cbn. destruct (Z.eqb_spec g g0); [congruence|]. unfold occ. lia.
    + set_solver.
    + lia.
    + lia.
  - by apply put_recounted.
Qed.
Lemma drop_handles_run rank held tr ids gs :
  reg_wf rank (gs ++ held) tr → groups_of tr ids gs →
  (∀ g, g ∈ gs → 0 < occ g held + in_edges tr g) →
  ∃ tr', drop_handles ids tr = (Ok tt, tr') ∧ reg_wf rank held tr' ∧ recounted tr tr'.
Proof.
  revert gs tr. induction ids as [|id ids IH]; intros gs tr Hw Hgs Hpin; inversion Hgs as [|? g ? gs' Hg Hgs']; subst.
  - exists tr. by split_and!.
  - cbn [app] in Hw. pose proof (occ_bounds g gs').
    destruct (decref_type_run rank (gs' ++ held) tr id g) as (tr1 & Hrun & Hw1 & Hrc); [done|done| |].
    { rewrite occ_app. specialize (Hpin g ltac:(set_solver)). lia. }
    destruct (IH gs' tr1) as (tr' & Hrun' & Hw' & Hrc'); [done|by eapply groups_of_recounted| |].
    { intros g0 Hg0. rewrite (rc_in _ _ Hrc). apply Hpin. set_solver. }
    exists tr'. unfold drop_handles in *. cbn [for_each]. rewrite (bind_run _ _ _ _ _ Hrun). split_and!; [done..|by etrans].
Qed.

(** *** Decoding absolute bodies *)
Definition decode_heap (h : CHeap) : HeapType :=
  match h with
  | ChAbs c => abs_decode c
  | ChConcrete k (CrCanon id) => concrete_heap k id
  | ChConcrete k (CrRel _) => concrete_heap k 0
  end.
Definition decode_cval (v : CVal) : ValType :=
  match v with CvNum c => num_decode c | CvRef n h => TRef {| rt_nullable := n; rt_heap := decode_heap h |} end.
Definition decode_field (f : CField) : FieldType :=
  {| ft_mutable := cf_mutable f;
     ft_element := match cf_storage f with CsPacked 0 => StI8 | CsPacked _ => StI16 | CsVal v => StValType (decode_cval v) end |}.
Definition abs_val (v : CVal) : Prop := match v with CvRef _ (ChConcrete _ (CrRel _)) => False | _ => True end.
Definition abs_field (f : CField) : Prop := match cf_storage f with CsVal v => abs_val v | _ => True end.
Definition abs_body (b : CBody) : Prop :=
  match b with
  | CbFunc p r => Forall abs_val (p ++ r)
  | CbStruct fs => Forall abs_field fs
  | CbArray f => abs_field f
  end.

Lemma decode_pub_val v : decode_cval (pub_val v) = v.
Proof. destruct v as [| | | | |[n h]]; try done. by destruct h. Qed.
Lemma decode_pub_field f : decode_field (pub_field f) = f.
Proof. destruct f as [m [| |v]]; try done. unfold decode_field, pub_field. cbn. by rewrite decode_pub_val. Qed.
Lemma abs_pub_val v : abs_val (pub_val v).
Proof. destruct v as [| | | | |[n h]]; try done. by destruct h. Qed.
Lemma abs_pub_field f : abs_field (pub_field f).
Proof. destruct f as [m [| |v]]; try done. apply abs_pub_val. Qed.
Lemma decode_cval_handles v : abs_val v → val_handles (decode_cval v) = val_canon_id v.
Proof.
  destruct v as [c|n [c|k [p|id]]]; cbn; try done.
  - intros _. unfold num_decode. by repeat case_match.
  - intros _. unfold abs_decode. by repeat case_match.
  - by destruct k.
Qed.
Lemma decode_field_handles f : abs_field f → field_handles (decode_field f) = field_canon_id f.
Proof.
  destruct f as [m [c|v]]; unfold abs_field, field_handles, field_canon_id, decode_field; cbn.
  - intros _. by destruct c.
  - apply decode_cval_handles.
Qed.

(** [m] registers a handle per id of [ids] and returns [a]. *)
Definition registers {A} (ids : list Z) (m : SM TypeRegistry A) (a : A) : Prop := ∀ rank held tr gs,
  reg_wf rank held tr → groups_of tr ids gs → registrations held tr + zlen ids < 2 ^ 32 →
  ∃ tr', m tr = (Ok a, tr') ∧ reg_wf rank (gs ++ held) tr' ∧ recounted tr tr'.
Lemma registers_ret {A} (a : A) : registers [] (mret a) a.
Proof. intros rank held tr gs Hw Hgs _. inversion Hgs; subst. by exists tr. Qed.
Lemma recounted_length rank held rank' held' gs tr tr' :
  reg_wf rank held tr → reg_wf rank' (gs ++ held') tr' → recounted tr tr' → registrations (gs ++ held) tr' = registrations held tr + zlen gs.
Proof. intros _ _ []. unfold registrations. rewrite zlen_app, rc_edges0. lia. Qed.
Lemma registers_bind {A B} i1 i2 (m : SM TypeRegistry A) (f : A → SM TypeRegistry B) a b :
  registers i1 m a → registers i2 (f a) b → registers (i1 ++ i2) (m ≫= f) b.
Proof.
  intros Hm Hf rank held tr gs Hw Hgs Hroom. rewrite zlen_app in Hroom. pose proof (zlen_nonneg i2).
  apply Forall2_app_inv_l in Hgs as (g1 & g2 & H1 & H2 & ->).
  destruct (Hm rank held tr g1 Hw H1) as (tr1 & Hrun1 & Hw1 & Hr1); [lia|].
  assert (zlen g1 = zlen i1) as Hl by (unfold zlen; by rewrite (Forall2_length _ _ _ H1)).
  destruct (Hf rank (g1 ++ held) tr1 g2 Hw1) as (tr2 & Hrun2 & Hw2 & Hr2); [by eapply groups_of_recounted| |].
  { rewrite (recounted_length _ _ _ _ _ _ _ Hw Hw1 Hr1). lia. }
  exists tr2. rewrite (bind_run _ _ _ _ _ Hrun1). split_and!; [done| |by etrans].
  eapply reg_wf_perm; [|exact Hw2]. rewrite !app_assoc. f_equiv. apply Permutation_app_comm.
Qed.
Lemma registers_map {A B} ids (m : SM TypeRegistry A) (f : A → B) a : registers ids m a → registers ids (x ← m; mret (f x)) (f a).
Proof. intros Hm. rewrite <- (app_nil_r ids). eapply registers_bind; [exact Hm|apply registers_ret]. Qed.
Lemma registers_mapM {A B} (ids : A → list Z) (f : A → SM TypeRegistry B) (g : A → B) l :
  (∀ x, x ∈ l → registers (ids x) (f x) (g x)) → registers (l ≫= ids) (mapM f l) (g <$> l).
Proof.
  induction l as [|x l IH]; intros H; [apply registers_ret|]. cbn [mapM]. cbn [mbind list_bind fmap list_fmap].
  eapply registers_bind; [apply H; set_solver|]. cbv beta. apply (registers_map _ _ (cons (g x))), IH. intros; apply H; set_solver.
Qed.
Lemma from_id_registers id : registers [id] (from_id id) id.
Proof.
  intros rank held tr gs Hw Hgs Hroom. inversion Hgs as [|? g ? gs' Hg Hnil]; subst. inversion Hnil; subst.
  destruct (incref_type_run _ _ _ _ _ Hw Hg) as (tr' & Hrun & Hw' & Hr); [exact Hroom|].
  exists tr'. unfold from_id. rewrite (bind_run _ _ _ _ _ Hrun). by split_and!.
Qed.
Lemma mat_val_registers v : abs_val v → registers (val_canon_id v) (mat_val v) (decode_cval v).
Proof.
  destruct v as [c|n [c|k [p|id]]]; intros Ha; [apply registers_ret|apply registers_ret|done|].
  cbn [mat_val mat_heap decode_cval decode_heap val_canon_id].
  apply (registers_map _ _ (λ ht, TRef {| rt_nullable := n; rt_heap := ht |})). destruct k;
    [apply (registers_map _ _ HtConcreteFunc)|apply (registers_map _ _ HtConcreteStruct)|apply (registers_map _ _ HtConcreteArray)];
    apply from_id_registers.
Qed.
Lemma mat_field_registers f : abs_field f → registers (field_canon_id f) (mat_field f) (decode_field f).
Proof.
  destruct f as [m [c|v]]; unfold abs_field, field_canon_id, mat_field, decode_field; cbn [cf_storage cf_mutable]; intros Ha.
  - destruct c; apply registers_ret.
  - apply (registers_map _ _ (λ s, {| ft_mutable := m; ft_element := s |})).
    apply (registers_map _ _ StValType). by apply mat_val_registers.
Qed.

(** *** The references of a registered type are absolute and live *)
Lemma resolve_val_abs ids c c' : resolve_val ids c = Ok c' →
  abs_val c' ∧ ∀ r, r ∈ val_canon_id c' → r ∈ val_canon_id c ∨ r ∈ ids.
Proof.
  destruct c as [c|n [c|k [p|id]]]; cbn.
  - intros [= <-]. split; [done|set_solver].
  - intros [= <-]. split; [done|set_solver].
  - destruct (zget ids p) as [x|] eqn:Hx; [|done]. intros [= <-]. split; [done|]. cbn. intros r ->%list_elem_of_singleton.
    right. unfold zget in Hx. destruct (0 <=? p); [|done]. apply list_elem_of_lookup. eauto.
  - intros [= <-]. split; [done|]. cbn. tauto.
Qed.
Lemma resolve_field_abs ids f f' : resolve_field ids f = Ok f' →
  abs_field f' ∧ ∀ r, r ∈ field_canon_id f' → r ∈ field_canon_id f ∨ r ∈ ids.
Proof.
  unfold resolve_field, abs_field, field_canon_id. destruct f as [m [c|v]]; cbn.
  - intros [= <-]. cbn. split; [done|set_solver].
  - destruct (resolve_val ids v) as [v'| |] eqn:Hv; try done. intros [= <-]. cbn. by apply resolve_val_abs.
Qed.
Lemma mapM_abs {A} (f : A → res A) (P : A → Prop) (ids : A → list Z) (ms : list Z) l l' :
  (∀ x y, f x = Ok y → P y ∧ ∀ r, r ∈ ids y → r ∈ ids x ∨ r ∈ ms) → mapM f l = Ok l' →
  Forall P l' ∧ ∀ r, r ∈ l' ≫= ids → r ∈ l ≫= ids ∨ r ∈ ms.
Proof.
  intros Hf. revert l'. induction l as [|x l IH]; intros l' Hm; [injection Hm as <-; split; [constructor|set_solver]|].
  cbn [mapM] in Hm. apply result_bind_Ok in Hm as (y & Hy & Hm). apply result_bind_Ok in Hm as (k & Hk & [= <-]).
  destruct (Hf _ _ Hy) as [H1 H2], (IH _ Hk) as [H3 H4]. split; [by constructor|].
  intros r. cbn. rewrite !elem_of_app. intros [Hr|Hr]; [destruct (H2 _ Hr)|destruct (H4 _ Hr)]; auto.
Qed.
Lemma resolve_body_abs ids b b' : resolve_body ids b = Ok b' →
  abs_body b' ∧ ∀ r, r ∈ body_canon_ids b' → r ∈ body_canon_ids b ∨ r ∈ ids.
Proof.
  destruct b as [p r|fs|f]; cbn [resolve_body].
  - intros (p' & Hp & Hr)%result_bind_Ok. apply result_bind_Ok in Hr as (r' & Hr & [= <-]).
    destruct (mapM_abs _ abs_val val_canon_id ids _ _ (resolve_val_abs ids) Hp) as [H1 H2],
      (mapM_abs _ abs_val val_canon_id ids _ _ (resolve_val_abs ids) Hr) as [H3 H4].
    split; [by apply Forall_app|]. intros x. cbn [body_canon_ids]. rewrite !bind_app, !elem_of_app.
    intros [Hx|Hx]; [destruct (H2 _ Hx)|destruct (H4 _ Hx)]; auto.
  - destruct (mapM (resolve_field ids) fs) as [k| |] eqn:Hk; try done. intros [= <-].
    apply (mapM_abs _ abs_field field_canon_id ids _ _ (resolve_field_abs ids) Hk).
  - destruct (resolve_field ids f) as [f'| |] eqn:Hf; try done. intros [= <-]. by apply resolve_field_abs.
Qed.
Lemma stored_live rank held tr id ty : reg_wf rank held tr → registered_type tr id = Some ty →
  abs_body (ck_body ty) ∧ ∀ r, r ∈ body_canon_ids (ck_body ty) → is_Some (group_of tr r).
Proof.
  intros Hw Hty. destruct (proj1 (rw_types _ _ _ Hw id)) as [g Hg]; [eauto|].
  pose proof Hg as (rec & Hrec & Hin)%(rw_owner _ _ _ Hw). pose proof (rw_group _ _ _ Hw _ _ Hrec) as [Hl Hnd Hst He].
  apply list_elem_of_lookup in Hin as [p Hp]. destruct (zget_is_Some (gr_key rec) (Z.of_nat p)) as [ct Hct].
  { pose proof (lookup_lt_Some _ _ _ Hp). unfold zlen in *. lia. }
  destruct (Hst _ _ Hct) as (id' & ty' & Hid & Hres & Hty'). unfold zget in Hid. destruct (0 <=? Z.of_nat p); [|done].
  rewrite Nat2Z.id, Hp in Hid. injection Hid as <-. rewrite Hty in Hty'. injection Hty' as <-.
  unfold resolve_type in Hres. apply result_bind_Ok in Hres as (st & _ & Hres). apply result_bind_Ok in Hres as (b & Hb & [= <-]).
  destruct (resolve_body_abs _ _ _ Hb) as [Ha Hids]. split; [exact Ha|]. cbn [ck_body]. intros r [Hr|Hr]%Hids.
  - destruct (He r) as (og & ? & _); [|eauto]. unfold edge_canon_ids. apply list_elem_of_bind. exists ct. split.
    + unfold type_canon_ids. apply elem_of_app. by right.
    + unfold zget in Hct. destruct (0 <=? Z.of_nat p); [|done]. apply list_elem_of_lookup. eauto.
  - exists g. apply (rw_owner _ _ _ Hw). eauto.
Qed.

(** ** Validation reads the registry and leaves it as it was *)
Lemma is_subtype_recounted tr tr' a b : recounted tr tr' → is_subtype tr' a b = is_subtype tr a b.
Proof.
  intros [Ht _ _ _ _]. unfold is_subtype. rewrite Ht. generalize (Some a). generalize (2 + length (tr_types tr))%nat.
  induction n as [|n IH]; intros cur; [done|]. cbn [is_subtype_go]. destruct cur as [id|]; [|done].
  destruct (id =? b); [done|]. unfold registered_type. rewrite Ht. apply IH.
Qed.
Lemma zip_all_ext {A} (f g : A → A → option bool) l k : (∀ a b, f a b = g a b) → zip_all f l k = zip_all g l k.
Proof. intros H. revert k. induction l as [|a l IH]; intros [|b k]; try done. cbn. rewrite H. destruct (g a b) as [[]|]; [apply IH|done..]. Qed.
Lemma zip_all_total {A} (f : A → A → option bool) l k : (∀ a b, is_Some (f a b)) → is_Some (zip_all f l k).
Proof.
  intros H. revert k. induction l as [|a l IH]; intros [|b k]; try by eexists. cbn. destruct (H a b) as [[] ->]; [apply IH|by eexists].
Qed.
Lemma val_matches_recounted tr tr' a b : recounted tr tr' → declared_val_matches tr' a b = declared_val_matches tr a b.
Proof.
  intros Hr. unfold declared_val_matches, declared_heap_matches. destruct (val_type_matches a b); [done|]. destruct a, b; try done.
  destruct (_ || _); [|done]. destruct (heap_matches _ _); [done|]. repeat case_match; try done; by apply is_subtype_recounted.
Qed.
Lemma field_matches_recounted tr tr' a b : recounted tr tr' → field_matches tr' a b = field_matches tr a b.
Proof.
  intros Hr. unfold field_matches, storage_matches. destruct (negb _), (ft_mutable a); try done.
  destruct (ft_element a), (ft_element b); try done. by apply val_matches_recounted.
Qed.
Lemma struct_matches_recounted tr tr' a b : recounted tr tr' → struct_matches tr' a b = struct_matches tr a b.
Proof. intros Hr. unfold struct_matches. destruct (_ <=? _); [|done]. apply zip_all_ext. intros; by apply field_matches_recounted. Qed.
Lemma sig_matches_recounted tr tr' a b : recounted tr tr' → sig_matches tr' a b = sig_matches tr a b.
Proof.
  intros Hr. unfold sig_matches. destruct (_ && _); [|done].
  rewrite !(zip_all_ext (declared_val_matches tr') (declared_val_matches tr)); [done|intros; by apply val_matches_recounted..].
Qed.

Section total.
Variables (rank : Z → Z) (held : list Z) (tr : TypeRegistry).
Hypotheses (Hw : reg_wf rank held tr) (Hord : ordered_registry tr).
Lemma val_matches_total a b : is_Some (declared_val_matches tr a b).
Proof using All.
  unfold declared_val_matches, declared_heap_matches. pose proof (is_subtype_total rank held tr Hw Hord).
  repeat case_match; try by eexists. all: apply H.
Qed.
Lemma field_matches_total a b : is_Some (field_matches tr a b).
Proof using All.
  unfold field_matches, storage_matches. repeat case_match; try by eexists. apply val_matches_total.
Qed.
Lemma struct_matches_total a b : is_Some (struct_matches tr a b).
Proof using All. unfold struct_matches. case_match; [|by eexists]. apply zip_all_total, field_matches_total. Qed.
Lemma sig_matches_total a b : is_Some (sig_matches tr a b).
Proof using All.
  unfold sig_matches. case_match; [|by eexists].
  destruct (zip_all_total (declared_val_matches tr) b.1 a.1 val_matches_total) as [[] ->]; [|by eexists].
  apply zip_all_total, val_matches_total.
Qed.
End total.

Section steady.
(** The registry when validation starts. *)
Variable tr0 : TypeRegistry.
(** [m] needs room for [k] registrations, leaves only counts as they were, and ends as [Q] says. *)
Definition steady {A} (k : Z) (m : SM TypeRegistry A) (Q : res A → Prop) : Prop := ∀ rank held tr,
  recounted tr0 tr → reg_wf rank held tr → registrations held tr + k < 2 ^ 32 →
  ∃ r tr', m tr = (r, tr') ∧ no_panic r ∧ reg_wf rank held tr' ∧ recounted tr0 tr' ∧ Q r.
Lemma steady_pure {A} k (m : SM TypeRegistry A) r (Q : res A → Prop) :
  (∀ tr, recounted tr0 tr → m tr = (r, tr)) → no_panic r → Q r → steady k m Q.
Proof using. intros Hm Hp HQ rank held tr Hr Hw _. exists r, tr. by rewrite Hm. Qed.
Lemma steady_weaken {A} k k' (m : SM TypeRegistry A) (Q Q' : res A → Prop) :
  k ≤ k' → (∀ r, Q r → Q' r) → steady k m Q → steady k' m Q'.
Proof using.
  intros Hk HQ Hm rank held tr Hr Hw Hroom. destruct (Hm rank held tr Hr Hw) as (r & tr' & ? & ? & ? & ? & ?); [lia|].
  exists r, tr'. eauto 8.
Qed.
Lemma steady_bind {A B} k (m : SM TypeRegistry A) (f : A → SM TypeRegistry B) (P : A → Prop) (Q : res B → Prop) :
  steady k m (λ r, match r with Ok a => P a | Err e => Q (Err e) | Panic _ => True end) →
  (∀ a, P a → steady k (f a) Q) → steady k (m ≫= f) Q.
Proof using.
  intros Hm Hf rank held tr Hr Hw Hroom. destruct (Hm rank held tr Hr Hw Hroom) as (r & tr1 & Hrun & Hp & Hw1 & Hr1 & HQ).
  rewrite bind_unfold, Hrun. destruct r as [a|e|w]; [|by exists (Err e), tr1|by destruct (Hp w)].
  apply (Hf a HQ rank held tr1); [done..|]. rewrite (recounted_registrations _ _ _ Hr1).
  by rewrite <- (recounted_registrations _ _ _ Hr).
Qed.
Lemma steady_step {A B} k (m : SM TypeRegistry A) a (f : A → SM TypeRegistry B) (Q : res B → Prop) :
  (∀ tr, recounted tr0 tr → m tr = (Ok a, tr)) → steady k (f a) Q → steady k (m ≫= f) Q.
Proof using.
  intros Hm Hf rank held tr Hr Hw Hroom. rewrite (bind_run _ _ _ _ _ (Hm _ Hr)). by apply (Hf rank held tr).
Qed.
(** Handles taken, used and dropped. *)
Lemma dropping_steady {A} rank held tr tr1 ids gs k (m : SM TypeRegistry A) (Q : res A → Prop) :
  recounted tr0 tr → reg_wf rank held tr → reg_wf rank (gs ++ held) tr1 → recounted tr tr1 → groups_of tr ids gs →
  registrations held tr + zlen ids + k < 2 ^ 32 → steady k m Q →
  ∃ r tr', dropping ids m tr1 = (r, tr') ∧ no_panic r ∧ reg_wf rank held tr' ∧ recounted tr0 tr' ∧ Q r.
Proof using.
  intros Hr0 Hw Hw1 Hr1 Hgs Hroom Hm. assert (zlen gs = zlen ids) as Hl by (unfold zlen; by rewrite (Forall2_length _ _ _ Hgs)).
  destruct (Hm rank (gs ++ held) tr1) as (r & tr2 & Hrun & Hp & Hw2 & Hr2 & HQ); [by etrans|done| |].
  { rewrite (recounted_length _ _ _ _ _ _ _ Hw Hw1 Hr1). lia. }
  assert (∀ id, group_of tr2 id = group_of tr id) as Hgo.
  { intros id. by rewrite (recounted_group _ _ _ Hr2), (recounted_group _ _ _ Hr0). }
  destruct (drop_handles_run rank held tr2 ids gs) as (tr3 & Hdrop & Hw3 & Hr3); [done|..].
  { eapply Forall2_impl; [exact Hgs|]. intros id g Hg. by rewrite Hgo. }
  { intros g Hin. rewrite (rc_in _ _ Hr2), <- (rc_in _ _ Hr0). apply list_elem_of_lookup in Hin as [j Hj].
    destruct (Forall2_lookup_r _ _ _ _ _ Hgs Hj) as (id & _ & Hg).
    pose proof Hg as (rec & Hrec & _)%(rw_owner _ _ _ Hw). destruct (rw_count _ _ _ Hw _ _ Hrec). lia. }
  exists r, tr3. unfold dropping. rewrite Hrun. assert (recounted tr0 tr3) by by etrans.
  destruct r as [a|e|w]; [| |by destruct (Hp w)]; rewrite (bind_run _ _ _ _ _ Hdrop); by split_and!.
Qed.
Definition registers_from {A} (ids : list Z) (m : SM TypeRegistry A) (a : A) : Prop := ∀ rank held tr gs,
  recounted tr0 tr → reg_wf rank held tr → groups_of tr ids gs → registrations held tr + zlen ids < 2 ^ 32 →
  ∃ tr', m tr = (Ok a, tr') ∧ reg_wf rank (gs ++ held) tr' ∧ recounted tr tr'.
Lemma steady_take {A B} k ids gs (m : SM TypeRegistry A) a (hs : A → list Z) (f : A → SM TypeRegistry B) (Q : res B → Prop) :
  registers_from ids m a → hs a = ids → groups_of tr0 ids gs → steady k (f a) Q → 0 ≤ k →
  steady (zlen ids + k) (m ≫= λ x, dropping (hs x) (f x)) Q.
Proof using.
  intros Hm Hh Hgs Hf Hk rank held tr Hr Hw Hroom. apply (groups_of_recounted _ tr) in Hgs; [|done].
  destruct (Hm rank held tr gs Hr Hw Hgs) as (tr1 & Hrun & Hw1 & Hr1); [lia|]. rewrite (bind_run _ _ _ _ _ Hrun), Hh.
  eapply (dropping_steady rank held tr tr1 ids gs k); [done..|lia|done].
Qed.
Lemma steady_take2 {A B C} k i1 i2 g1 g2 (m1 : SM TypeRegistry A) (m2 : SM TypeRegistry B) a b
    (hs : A → B → list Z) (f : A → B → SM TypeRegistry C) (Q : res C → Prop) :
  registers_from i1 m1 a → registers_from i2 m2 b → hs a b = i1 ++ i2 → groups_of tr0 i1 g1 → groups_of tr0 i2 g2 →
  steady k (f a b) Q → 0 ≤ k →
  steady (zlen i1 + zlen i2 + k) (x ← m1; y ← m2; dropping (hs x y) (f x y)) Q.
Proof using.
  intros H1 H2 Hh Hg1 Hg2 Hf Hk rank held tr Hr Hw Hroom. pose proof (zlen_nonneg i1). pose proof (zlen_nonneg i2).
  apply (groups_of_recounted _ tr) in Hg1, Hg2; [|done..].
  destruct (H1 rank held tr g1 Hr Hw Hg1) as (tr1 & Hrun1 & Hw1 & Hr1); [lia|]. rewrite (bind_run _ _ _ _ _ Hrun1).
  assert (zlen g1 = zlen i1) as Hl by (unfold zlen; by rewrite (Forall2_length _ _ _ Hg1)).
  destruct (H2 rank (g1 ++ held) tr1 g2) as (tr2 & Hrun2 & Hw2 & Hr2); [by etrans|done|by eapply groups_of_recounted| |].
  { rewrite (recounted_length _ _ _ _ _ _ _ Hw Hw1 Hr1). lia. }
  rewrite (bind_run _ _ _ _ _ Hrun2), Hh. eapply (dropping_steady rank held tr tr2 _ (g1 ++ g2) k); try done.
  - eapply reg_wf_perm; [|exact Hw2]. rewrite !app_assoc. f_equiv. apply Permutation_app_comm.
  - by etrans.
  - by apply Forall2_app.
  - rewrite zlen_app. lia.
Qed.
End steady.

(** *** The three comparisons *)
(** A body's references, decoded, match the other's as the code compares them. *)
Definition body_matches (tr : TypeRegistry) (sub sup : CBody) : Prop :=
  match sub, sup with
  | CbStruct a, CbStruct b => struct_matches tr (decode_field <$> a) (decode_field <$> b) = Some true
  | CbArray a, CbArray b => field_matches tr (decode_field a) (decode_field b) = Some true
  | CbFunc p r, CbFunc p' r' =>
      sig_matches tr (decode_cval <$> p, decode_cval <$> r) (decode_cval <$> p', decode_cval <$> r') = Some true
  | _, _ => False
  end.
Lemma body_matches_recounted tr tr' a b : recounted tr tr' → body_matches tr' a b = body_matches tr a b.
Proof.
  intros Hr. destruct a, b; try done; cbn [body_matches];
    by rewrite ?(struct_matches_recounted tr tr'), ?(field_matches_recounted tr tr'), ?(sig_matches_recounted tr tr').
Qed.
Lemma bind_fmap_in {A B C} (f : B → list C) (g : A → B) (h : A → list C) (P : A → Prop) l :
  (∀ x, P x → f (g x) = h x) → Forall P l → (g <$> l) ≫= f = l ≫= h.
Proof. intros H. induction 1 as [|x l Hx Hl IH]; [done|]. cbn. by rewrite H, <- IH. Qed.

Section checks.
Variables (rank0 : Z → Z) (held0 : list Z) (tr0 : TypeRegistry).
Hypotheses (Hw0 : reg_wf rank0 held0 tr0) (Hord : ordered_registry tr0).
Lemma stored_groups id ty : registered_type tr0 id = Some ty →
  abs_body (ck_body ty) ∧ ∃ gs, groups_of tr0 (body_canon_ids (ck_body ty)) gs.
Proof using All.
  intros Hty. destruct (stored_live _ _ _ _ _ Hw0 Hty) as [Ha Hl]. split; [done|]. by apply groups_of_live.
Qed.
Lemma body_recounted tr id ty : recounted tr0 tr → registered_type tr0 id = Some ty → registry_body tr id = Some (ck_body ty).
Proof using All. intros Hr Hty. unfold registry_body. by rewrite (recounted_registered _ _ _ Hr), Hty. Qed.

Lemma struct_fields_from id ty : registered_type tr0 id = Some ty →
  match ck_body ty with
  | CbStruct fs => registers_from tr0 (fs ≫= field_canon_id) (engine_struct_fields id) (decode_field <$> fs)
  | _ => ∀ tr, recounted tr0 tr → engine_struct_fields id tr = (Err (EMsg "not a live struct type"), tr)
  end.
Proof using All.
  intros Hty. destruct (stored_groups _ _ Hty) as [Ha _]. destruct (ck_body ty) as [p r|fs|f] eqn:Hb.
  2: intros rank held tr gs Hr Hw Hgs Hroom.
  all: try intros tr Hr.
  all: unfold engine_struct_fields, registry_struct_fields, gets; rewrite bind_unfold; try rewrite bind_unfold;
    unfold struct_fields_raw; rewrite (body_recounted tr _ _ Hr Hty), Hb; cbn [mbind option_bind]; try done.
  assert (registers (fs ≫= field_canon_id) (mapM mat_field fs) (decode_field <$> fs)) as Hm.
  { apply registers_mapM. intros f Hf. apply mat_field_registers. cbn in Ha. rewrite Forall_forall in Ha. auto. }
  destruct (Hm rank held tr gs Hw Hgs Hroom) as (tr' & Hrun & ? & ?). exists tr'. by rewrite (bind_run _ _ _ _ _ Hrun).
Qed.
Lemma array_field_from id ty : registered_type tr0 id = Some ty →
  match ck_body ty with
  | CbArray f => registers_from tr0 (field_canon_id f) (engine_array_field id) (decode_field f)
  | _ => ∀ tr, recounted tr0 tr → engine_array_field id tr = (Err (EMsg "not a live array type"), tr)
  end.
Proof using All.
  intros Hty. destruct (stored_groups _ _ Hty) as [Ha _]. destruct (ck_body ty) as [p r|fs|f] eqn:Hb.
  3: intros rank held tr gs Hr Hw Hgs Hroom.
  all: try intros tr Hr.
  all: unfold engine_array_field, registry_array_field, gets; rewrite bind_unfold; try rewrite bind_unfold;
    unfold array_field_raw; rewrite (body_recounted tr _ _ Hr Hty), Hb; cbn [mbind option_bind]; try done.
  destruct (mat_field_registers f Ha rank held tr gs Hw Hgs Hroom) as (tr' & Hrun & ? & ?). exists tr'. by rewrite (bind_run _ _ _ _ _ Hrun).
Qed.
Lemma func_sig_from id ty : registered_type tr0 id = Some ty →
  match ck_body ty with
  | CbFunc p r => registers_from tr0 ((p ++ r) ≫= val_canon_id) (registry_func_sig id) (Some (decode_cval <$> p, decode_cval <$> r))
  | _ => registers_from tr0 [] (registry_func_sig id) None
  end.
Proof using All.
  intros Hty. destruct (stored_groups _ _ Hty) as [Ha _]. destruct (ck_body ty) as [p r|fs|f] eqn:Hb.
  all: intros rank held tr gs Hr Hw Hgs Hroom; unfold registry_func_sig, gets; rewrite bind_unfold;
    unfold func_body_raw; rewrite (body_recounted tr _ _ Hr Hty), Hb; cbn [mbind option_bind].
  2, 3: inversion Hgs; subst; exists tr; by split_and!.
  cbn in Ha. apply Forall_app in Ha as [Hp Hrs]. rewrite Forall_forall in Hp, Hrs.
  assert (registers ((p ++ r) ≫= val_canon_id) (p ← mapM mat_val p; r ← mapM mat_val r; mret (Some (p, r)))
    (Some (decode_cval <$> p, decode_cval <$> r))) as Hm.
  { rewrite bind_app. eapply registers_bind; [apply registers_mapM; intros; by apply mat_val_registers, Hp|].
    apply (registers_map _ _ (λ rs, Some (decode_cval <$> p, rs))), registers_mapM. intros; by apply mat_val_registers, Hrs. }
  by apply (Hm rank held tr gs).
Qed.

Lemma decided_steady {A} k (f : TypeRegistry → option bool) (g : bool → SM TypeRegistry A) (Q : res A → Prop) :
  (∀ tr, recounted tr0 tr → f tr = f tr0) → is_Some (f tr0) → (∀ b, f tr0 = Some b → steady tr0 k (g b) Q) →
  steady tr0 k (b ← decided f; g b) Q.
Proof using.
  intros Hf [b Hb] Hg. apply (steady_bind _ _ _ _ (λ b', f tr0 = Some b')); [|auto].
  eapply (steady_pure _ _ _ (Ok b)); [|done|done]. intros tr Hr. unfold decided, reads. by rewrite Hf, Hb.
Qed.
Lemma guard_steady k b e (P : Prop) : (b = true → P) → steady tr0 k (guard_err b e) (λ r, r = Ok tt → P).
Proof using. intros HP. eapply steady_pure; [intros; reflexivity|destruct b; by intros w|]. destruct b; [auto|done]. Qed.
Lemma err_steady {A B} k (m : SM TypeRegistry A) (f : A → SM TypeRegistry B) e (P : Prop) b :
  (∀ tr, recounted tr0 tr → m tr = (Err e, tr)) → steady tr0 k (m ≫= f) (λ r, r = Ok b → P).
Proof using.
  intros Hm. eapply (steady_pure _ _ _ (Err e)); [|done|done]. intros tr Hr. rewrite bind_unfold. by rewrite Hm.
Qed.

Variables (sub_id sup_id : Z) (sub sup : CanonType) (w : Z).
Hypotheses (Hsub : registered_type tr0 sub_id = Some sub) (Hsup : registered_type tr0 sup_id = Some sup).
Hypotheses (Hwsub : zlen (body_canon_ids (ck_body sub)) ≤ w) (Hwsup : zlen (body_canon_ids (ck_body sup)) ≤ w).
Lemma struct_check_steady fs : ck_body sub = CbStruct fs →
  steady tr0 (2 * w) (struct_check sub_id sup_id) (λ r, r = Ok tt → body_matches tr0 (ck_body sub) (ck_body sup)).
Proof using All.
  intros Hb. pose proof (struct_fields_from _ _ Hsub) as H1. destruct (stored_groups _ _ Hsub) as (Ha & gs & Hgs).
  pose proof (struct_fields_from _ _ Hsup) as H2. destruct (stored_groups _ _ Hsup) as (Ha' & gs' & Hgs').
  pose proof (zlen_nonneg (body_canon_ids (ck_body sub))). pose proof (zlen_nonneg (body_canon_ids (ck_body sup))).
  rewrite Hb in H1, Ha, Hgs, Hwsub |- *. cbn in Ha, Hgs, Hwsub. unfold struct_check.
  eapply (steady_weaken _ (zlen (fs ≫= field_canon_id) + w)); [lia|intros r Hr; exact Hr|].
  eapply steady_take; [exact H1|by eapply bind_fmap_in, Ha; apply decode_field_handles|exact Hgs| |lia].
  destruct (ck_body sup) as [p r|fs'|f]; [by apply (err_steady _ _ _ _ _ tt H2)| |by apply (err_steady _ _ _ _ _ tt H2)].
  cbn in Ha', Hgs', Hwsup. eapply (steady_weaken _ (zlen (fs' ≫= field_canon_id) + 0)); [lia|intros r Hr; exact Hr|].
  eapply steady_take; [exact H2|by eapply bind_fmap_in, Ha'; apply decode_field_handles|exact Hgs'| |lia].
  apply decided_steady; [intros; by apply struct_matches_recounted|by eapply struct_matches_total|].
  intros b Hmt. apply guard_steady. intros ->. exact Hmt.
Qed.
Lemma array_check_steady f : ck_body sub = CbArray f →
  steady tr0 (2 * w) (array_check sub_id sup_id) (λ r, r = Ok tt → body_matches tr0 (ck_body sub) (ck_body sup)).
Proof using All.
  intros Hb. pose proof (array_field_from _ _ Hsub) as H1. destruct (stored_groups _ _ Hsub) as (Ha & gs & Hgs).
  pose proof (array_field_from _ _ Hsup) as H2. destruct (stored_groups _ _ Hsup) as (Ha' & gs' & Hgs').
  pose proof (zlen_nonneg (body_canon_ids (ck_body sub))). pose proof (zlen_nonneg (body_canon_ids (ck_body sup))).
  rewrite Hb in H1, Ha, Hgs, Hwsub |- *. cbn in Ha, Hgs, Hwsub. unfold array_check.
  eapply (steady_weaken _ (zlen (field_canon_id f) + w)); [lia|intros r Hr; exact Hr|].
  eapply steady_take; [exact H1|by apply decode_field_handles|exact Hgs| |lia].
  destruct (ck_body sup) as [p r|fs'|f']; [by apply (err_steady _ _ _ _ _ tt H2)..|].
  cbn in Ha', Hgs', Hwsup. eapply (steady_weaken _ (zlen (field_canon_id f') + 0)); [lia|intros r Hr; exact Hr|].
  eapply steady_take; [exact H2|by apply decode_field_handles|exact Hgs'| |lia].
  apply decided_steady; [intros; by apply field_matches_recounted|by eapply field_matches_total|].
  intros b Hmt. apply guard_steady. intros ->. exact Hmt.
Qed.
Lemma sig_handles_decode p r : abs_body (CbFunc p r) → sig_handles (decode_cval <$> p, decode_cval <$> r) = (p ++ r) ≫= val_canon_id.
Proof using. intros Ha. unfold sig_handles. cbn [fst snd]. rewrite <- fmap_app. by eapply bind_fmap_in, Ha; apply decode_cval_handles. Qed.
Lemma func_check_steady p r : ck_body sub = CbFunc p r →
  steady tr0 (2 * w) (func_check sub_id sup_id) (λ r, r = Ok tt → body_matches tr0 (ck_body sub) (ck_body sup)).
Proof using All.
  intros Hb. pose proof (func_sig_from _ _ Hsub) as H1. destruct (stored_groups _ _ Hsub) as (Ha & gs & Hgs).
  pose proof (func_sig_from _ _ Hsup) as H2. destruct (stored_groups _ _ Hsup) as (Ha' & gs' & Hgs').
  pose proof (zlen_nonneg (body_canon_ids (ck_body sub))). pose proof (zlen_nonneg (body_canon_ids (ck_body sup))).
  rewrite Hb in H1, Ha, Hgs, Hwsub |- *. unfold func_check.
  apply (steady_bind _ _ _ _ (λ b, b = true → body_matches tr0 (CbFunc p r) (ck_body sup))); [|by intros; apply guard_steady].
  unfold func_matches. destruct (ck_body sup) as [p' r'|fs'|f'].
  - eapply (steady_weaken _ (zlen _ + zlen _ + 0)); [|intros x Hx; exact Hx|].
    2: { eapply steady_take2; [exact H1|exact H2| |exact Hgs|exact Hgs'| |done].
      - cbn [from_option]. by rewrite !sig_handles_decode.
      - cbn beta iota. destruct (sig_matches_total rank0 held0 tr0 Hw0 Hord (decode_cval <$> p, decode_cval <$> r)
          (decode_cval <$> p', decode_cval <$> r')) as [b Hm]. eapply (steady_pure _ _ _ (Ok b)); [|done|].
        + intros tr Hr. unfold decided, reads. by rewrite (sig_matches_recounted tr0 tr), Hm.
        + intros ->. exact Hm. }
    cbn in Hwsub, Hwsup. lia.
  - eapply (steady_weaken _ (zlen _ + zlen _ + 0)); [|intros x Hx; exact Hx|].
    2: { eapply (steady_take2 _ _ _ [] _ []); [exact H1|exact H2| |exact Hgs|constructor| |done].
      - cbn [from_option]. by rewrite sig_handles_decode.
      - by eapply (steady_pure _ _ _ (Ok false)). }
    cbn in Hwsub. rewrite zlen_nil. lia.
  - eapply (steady_weaken _ (zlen _ + zlen _ + 0)); [|intros x Hx; exact Hx|].
    2: { eapply (steady_take2 _ _ _ [] _ []); [exact H1|exact H2| |exact Hgs|constructor| |done].
      - cbn [from_option]. by rewrite sig_handles_decode.
      - by eapply (steady_pure _ _ _ (Ok false)). }
    cbn in Hwsub. rewrite zlen_nil. lia.
Qed.
End checks.

(** A member's declared supertype is registered, non-final and matched by the member's body. *)
Definition super_valid (tr : TypeRegistry) (ids : list Z) (d : MemberDef) : Prop :=
  match member_supertype d with
  | None => True
  | Some s => ∃ ty, registered_type tr (super_type ids s) = Some ty ∧ ck_finality ty = NonFinal ∧
      body_matches tr (member_body ids d) (ck_body ty)
  end.

Section validate.
Variables (rank0 : Z → Z) (held0 : list Z) (tr0 : TypeRegistry).
Hypotheses (Hw0 : reg_wf rank0 held0 tr0) (Hord : ordered_registry tr0).
Variables (group : RecGroup) (defs : list MemberDef) (w : Z).
Abbreviation ids := (rg_ids group).
Hypothesis Hkinds : rg_kinds group = member_kind <$> defs.
Hypothesis Hreg : ∀ i d, zget defs i = Some d → ∃ id, zget ids i = Some id ∧ registered_type tr0 id = Some (member_type ids d).
Hypothesis Hwidth : ∀ i d, zget defs i = Some d → zlen (body_canon_ids (member_body ids d)) ≤ w.
Hypothesis Hsup : ∀ i d s, zget defs i = Some d → member_supertype d = Some s →
  match s with
  | SdForward j => is_Some (zget defs j)
  | _ => ∃ ty, registered_type tr0 (super_type ids s) = Some ty ∧ zlen (body_canon_ids (ck_body ty)) ≤ w
  end.

Lemma super_id_ok kind i d s : zget defs i = Some d → member_supertype d = Some s →
  (∃ ty, super_id group kind s = Ok (super_type ids s) ∧ registered_type tr0 (super_type ids s) = Some ty ∧
    zlen (body_canon_ids (ck_body ty)) ≤ w) ∨ ∃ e, super_id group kind s = Err e.
Proof using All.
  intros Hd Hs. specialize (Hsup _ _ _ Hd Hs). destruct s as [j|id|id|id]; [|left; destruct Hsup as (ty & ? & ?); by exists ty..].
  destruct Hsup as [d' Hj]. destruct (Hreg _ _ Hj) as (id & Hid & Hty). cbn [super_id super_type].
  rewrite Hkinds, zget_fmap, Hj. cbn [fmap option_fmap option_map expect mbind result_bind]. rewrite Hid.
  case_bool_decide; [left|right; eauto]. eexists. split_and!; [done|done|]. by eapply Hwidth.
Qed.
Lemma validate_supertype_steady i d : zget defs i = Some d →
  steady tr0 (2 * w) (validate_supertype group i (member_supertype d)) (λ r, r = Ok tt → super_valid tr0 ids d).
Proof using All.
  intros Hd. unfold super_valid. destruct (member_supertype d) as [s|] eqn:Hs; [|by eapply (steady_pure _ _ _ (Ok tt))].
  destruct (Hreg _ _ Hd) as (id & Hid & Hty). unfold validate_supertype.
  eapply steady_step. { intros tr _. rewrite Hkinds, zget_fmap, Hd. done. }
  destruct (super_id_ok (member_kind d) _ _ _ Hd Hs) as [(ty & Hsid & Hsty & Hwty)|(e & Hsid)].
  2: { eapply (steady_pure _ _ _ (Err e)); [|done|done]. intros tr _. rewrite bind_unfold. by rewrite Hsid. }
  eapply steady_step. { intros tr _. rewrite Hsid. done. }
  eapply steady_step. { intros tr Hr. unfold gets, type_finality. rewrite (recounted_registered _ _ _ Hr), Hsty. done. }
  apply (steady_bind _ _ _ _ (λ _, ck_finality ty = NonFinal)).
  { eapply steady_pure; [intros; reflexivity|case_bool_decide; by intros|]. case_bool_decide as Hf; [|done]. by injection Hf. }
  intros [] Hfin. eapply steady_step. { intros tr _. rewrite Hid. done. }
  assert (∀ m : SM TypeRegistry (), steady tr0 (2 * w) m (λ r, r = Ok tt → body_matches tr0 (member_body ids d) (ck_body ty)) →
    steady tr0 (2 * w) m (λ r, r = Ok tt → ∃ ty0, registered_type tr0 (super_type ids s) = Some ty0 ∧ ck_finality ty0 = NonFinal ∧
      body_matches tr0 (member_body ids d) (ck_body ty0))) as Hgo.
  { intros m. apply steady_weaken; [lia|]. intros r Hr Hok. exists ty. eauto. }
  apply Hgo. pose proof (Hwidth _ _ Hd) as Hwd.
  change (member_body ids d) with (ck_body (member_type ids d)) in Hwd |- *.
  destruct d; [eapply struct_check_steady|eapply array_check_steady|eapply func_check_steady]; done.
Qed.
Lemma validate_members_steady k l : (∀ j d, zget l j = Some d → zget defs (k + j) = Some d) →
  steady tr0 (2 * w) (validate_members group k l) (λ r, r = Ok tt → ∀ d, d ∈ l → super_valid tr0 ids d).
Proof using All.
  revert k. induction l as [|d l IH]; intros k Hl; cbn [validate_members].
  { eapply (steady_pure _ _ _ (Ok tt)); [done|done|]. set_solver. }
  apply (steady_bind _ _ _ _ (λ _, super_valid tr0 ids d)).
  { eapply steady_weaken, validate_supertype_steady; [lia| |].
    - intros [[]|e|w'] Hr; [by apply Hr|done|done].
    - replace k with (k + 0) by lia. by apply Hl. }
  intros [] Hd. eapply steady_weaken, IH; [lia| |].
  - intros r Hr Hok d' [->|Hd']%elem_of_cons; [done|]. by apply Hr.
  - intros j d' Hj. replace (k + 1 + j) with (k + (j + 1)) by lia. apply Hl. pose proof (zget_Some _ _ _ Hj).
    rewrite zget_cons_S by lia. by replace (j + 1 - 1) with j by lia.
Qed.
End validate.

(** ** Building *)
Definition member_width (d : MemberDef) : Z := zlen (body_canon_ids (member_body [] d)).
Lemma member_width_ids ids d : zlen (body_canon_ids (member_body ids d)) = member_width d.
Proof.
  unfold member_width.
  assert (∀ v, zlen (val_canon_id (pub_val (val_type ids v))) = zlen (val_canon_id (pub_val (val_type [] v)))) as Hv.
  { intros [ty|ty n]; [done|]. cbn. by destruct (pt_kind ty). }
  assert (∀ f, zlen (field_canon_id (pub_field (field_type ids f))) = zlen (field_canon_id (pub_field (field_type [] f)))) as Hf.
  { intros [ty|ty m n]; [done|]. unfold field_canon_id. cbn. by destruct (pt_kind ty). }
  assert (∀ {A B} (f : B → list Z) (g h : A → B) l, (∀ x, zlen (f (g x)) = zlen (f (h x))) →
    zlen ((g <$> l) ≫= f) = zlen ((h <$> l) ≫= f)) as Hl.
  { intros A B f g h l Hx. induction l as [|x l IH]; [done|]. cbn. by rewrite !zlen_app, Hx, IH. }
  destruct d as [fin s fields|fin s element|fin s params results]; cbn [member_body body_canon_ids struct_body array_body func_body].
  - rewrite <- !list_fmap_compose. by apply Hl.
  - apply Hf.
  - rewrite <- !list_fmap_compose, <- !fmap_app. by apply Hl.
Qed.

(** Dropping handles that nothing else may keep alive. *)
Lemma drop_handles_release rank held tr ids gs :
  reg_wf rank (gs ++ held) tr → groups_of tr ids gs → ∃ tr', drop_handles ids tr = (Ok tt, tr') ∧ reg_wf rank held tr'.
Proof.
  revert gs tr. induction ids as [|id ids IH]; intros gs tr Hw Hgs; inversion Hgs as [|? g ? gs' Hg Hgs']; subst; [by exists tr|].
  destruct (decref_group_spec _ _ _ _ Hw) as (tr1 & Hrun & Hw1 & _ & [_ Hsh]).
  destruct (IH gs' tr1) as (tr' & Hrun' & Hw'); [done| |].
  { unfold groups_of in *. rewrite Forall2_lookup in Hgs' |- *. intros i. specialize (Hgs' i). inversion Hgs' as [x y Hxy Hx Hy|]; [|constructor].
    constructor. apply Hsh; [done|]. apply (rw_held _ _ _ Hw1), elem_of_app. left. apply list_elem_of_lookup. eauto. }
  exists tr'. split; [|done]. unfold drop_handles in *. cbn [for_each].
  assert (decref_type id tr = (Ok tt, tr1)) as Hd.
  { unfold decref_type. by rewrite (reads_Ok _ _ tr g) by by rewrite Hg. }
  by rewrite (bind_run _ _ _ _ _ Hd).
Qed.

Lemma all_defined_Ok ms defs : all_defined ms = Ok defs ↔ ms = Some <$> defs.
Proof.
  unfold all_defined. revert defs. induction ms as [|o ms IH]; intros defs; cbn [mapM].
  - destruct defs; split; by intros [=].
  - destruct o as [m|]; cbn; [|split; [done|by destruct defs]].
    destruct (mapM _ ms) as [k| |] eqn:Hk; cbn.
    + destruct defs as [|d defs]; [by split|]. split.
      * intros [= <- <-]. cbn. f_equal. by apply IH.
      * cbn. intros [= <- H]. apply IH in H. by injection H as <-.
    + split; [done|]. destruct defs as [|d defs]; [done|]. cbn. intros [= _ H]. by apply IH in H.
    + split; [done|]. destruct defs as [|d defs]; [done|]. cbn. intros [= _ H]. by apply IH in H.
Qed.
Lemma all_defined_no_panic ms w : all_defined ms ≠ Panic w.
Proof. unfold all_defined. induction ms as [|[m|] ms IH]; cbn [mapM]; try done. cbn. destruct (mapM _ ms); try done. Qed.
Lemma members_handles_defined defs : members_handles (Some <$> defs) = defs ≫= member_handles.
Proof. by apply bind_fmap. Qed.

(** Lowering all members: the key they are interned under. *)
Lemma lower_members ks defs :
  (∀ d, d ∈ defs → member_scoped ks d) → zlen ks + zlen (defs ≫= member_handles) ≤ 2 ^ 32 →
  ∃ lowered, mapM (lower (zlen ks)) defs [] = (Ok lowered, defs ≫= member_handles) ∧
    mapM (type_key (host_cref (zlen ks) (defs ≫= member_handles))) (fst <$> lowered) = Ok (member_key <$> defs) ∧
    snd <$> lowered = member_kind <$> defs.
Proof.
  intros Hsc Hroom.
  destruct (lowers_mapM (zlen ks) ks eq_refl member_handles (lower (zlen ks))
    (λ cref tk, ct ← type_key cref (fst tk); Ok (ct, snd tk)) (λ d, (member_key d, member_kind d)) defs) with (ext := [] : list Z)
    as (lowered & Hrun & Hs); [|change (zlen []) with 0; lia|].
  { intros d Hd. pose proof (lower_lowers _ ks eq_refl d (Hsc d Hd)) as Hl. refine (lowers_weaken _ ks eq_refl _ _ _ _ _ Hl). intros cref [t k] [Ht ->]. cbn in Ht |- *. by rewrite Ht. }
  exists lowered. split; [exact Hrun|]. specialize (Hs []). cbn in Hs. rewrite app_nil_r in Hs.
  revert Hs. generalize (host_cref (zlen ks) (defs ≫= member_handles)) as cref. clear. intros cref.
  revert lowered. induction defs as [|d defs IH]; intros [|[t k] lowered] H; cbn [mapM fmap list_fmap] in H; try done.
  - cbn in H. destruct (type_key cref t); try done. cbn in H. by destruct (mapM _ lowered).
  - cbn [fst snd] in H. destruct (type_key cref t) as [ct| |] eqn:Ht; try done. cbn [mbind result_bind] in H.
    destruct (mapM _ lowered) as [l| |] eqn:Hl; try done. cbn in H. injection H as -> -> ->.
    destruct (IH _ Hl) as [Hk Hkinds]. cbn [fmap list_fmap mapM fst snd]. rewrite Ht. cbn [mbind result_bind].
    change (list_fmap _ _ fst lowered) with (fst <$> lowered). rewrite Hk. split; [done|]. change (list_fmap _ _ snd lowered) with (snd <$> lowered). by rewrite Hkinds.
Qed.

(** A scoped builder whose handles are held, and room for the group and its validation. *)
Record build_ready (rank : Z → Z) (held : list Z) (ks : list AggKind) (hs : list Z) (w : Z)
    (rb : RecGroupBuilder) (tr : TypeRegistry) : Prop := {
  br_ok : builder_ok ks rb;
  br_wf : reg_wf rank (hs ++ held) tr;
  br_handles : groups_of tr (members_handles (rb_members rb)) hs;
  br_ordered : ordered_registry tr;
  br_forward : ∀ i m j, zget (rb_members rb) i = Some (Some m) → member_supertype m = Some (SdForward j) → j < i;
  br_width : 0 ≤ w ∧ (∀ id ty, registered_type tr id = Some ty → zlen (body_canon_ids (ck_body ty)) ≤ w) ∧
    ∀ i m, zget (rb_members rb) i = Some (Some m) → member_width m ≤ w;
  br_table : zlen ks + zlen (members_handles (rb_members rb)) ≤ 2 ^ 32;
  br_room : room (zlen ks) 1 (zlen (members_handles (rb_members rb)) + 1 + 2 * w) (hs ++ held) tr;
}.

(** What a successful build leaves: one registration more, and every member as declared. *)
Record built (rank : Z → Z) (held : list Z) (ks : list AggKind) (w : Z) (rb : RecGroupBuilder) (g : RecGroup) (tr : TypeRegistry) : Prop := {
  bt_wf : reg_wf rank (rg_group g :: held) tr;
  bt_ordered : ordered_registry tr;
  bt_room : registrations (rg_group g :: held) tr + w < 2 ^ 32;
  bt_kinds : rg_kinds g = ks;
  bt_builder : rg_builder g = rb_id rb;
  bt_len : zlen (rg_ids g) = zlen ks;
  bt_members : ∀ i, 0 ≤ i < zlen ks → ∃ d id, zget (rb_members rb) i = Some (Some d) ∧ zget (rg_ids g) i = Some id ∧
    registered_type tr id = Some (member_type (rg_ids g) d) ∧ super_valid tr (rg_ids g) d;
}.

Section build.
Context (rank : Z → Z) (held : list Z) (ks : list AggKind) (hs : list Z) (w : Z) (rb : RecGroupBuilder) (tr : TypeRegistry).
Context (Hb : build_ready rank held ks hs w rb tr) (defs : list MemberDef) (Hdefs : rb_members rb = Some <$> defs).
Abbreviation handles := (defs ≫= member_handles).

Lemma defs_at i d : zget defs i = Some d → zget (rb_members rb) i = Some (Some d).
Proof using Hdefs. intros Hd. by rewrite Hdefs, zget_fmap, Hd. Qed.
Lemma defs_in d : d ∈ defs → ∃ i, zget defs i = Some d.
Proof using. apply elem_zget. Qed.
Lemma defs_scoped d : d ∈ defs → member_scoped ks d.
Proof using Hb Hdefs. intros [i Hi]%defs_in. by apply (bo_members _ _ (br_ok _ _ _ _ _ _ _ Hb) i), defs_at. Qed.
Lemma defs_kinds : ks = member_kind <$> defs.
Proof using Hb Hdefs.
  pose proof (br_ok _ _ _ _ _ _ _ Hb) as [Hl _ Hm]. rewrite Hdefs, zlen_fmap in Hl.
  apply list_eq. intros i. rewrite list_lookup_fmap. destruct (defs !! i) as [d|] eqn:Hd.
  - assert (zget defs (Z.of_nat i) = Some d) as Hz by (unfold zget; destruct (Z.leb_spec 0 (Z.of_nat i)); [by rewrite Nat2Z.id|lia]).
    destruct (Hm _ _ (defs_at _ _ Hz)) as [Hk _]. unfold zget in Hk. destruct (0 <=? Z.of_nat i); [|done]. by rewrite Nat2Z.id in Hk.
  - cbn. apply lookup_ge_None in Hd. apply lookup_ge_None. unfold zlen in Hl. lia.
Qed.
Lemma defs_handles : members_handles (rb_members rb) = handles.
Proof using Hdefs. rewrite Hdefs. apply members_handles_defined. Qed.
Lemma handle_live id : id ∈ handles → is_Some (group_of tr id).
Proof using Hb Hdefs.
  rewrite <- defs_handles. intros [i Hi]%list_elem_of_lookup. destruct (Forall2_lookup_l _ _ _ _ _ (br_handles _ _ _ _ _ _ _ Hb) Hi) as (g & _ & Hg). eauto.
Qed.
Lemma key_ready : key_ok tr (member_key <$> defs) ∧ ordered_key (member_key <$> defs).
Proof using Hb Hdefs.
  assert (zlen ks = zlen defs) as Hl by (rewrite defs_kinds at 1; apply zlen_fmap). split; [split|].
  - intros id. rewrite key_canon. apply handle_live.
  - intros ct ms (d & -> & Hd)%list_elem_of_fmap Hlen. rewrite zlen_fmap in Hlen. exists (member_type ms d).
    apply (member_resolve ms ks); [lia|]. by apply defs_scoped.
  - intros p ct q. rewrite zget_fmap. destruct (zget defs p) as [d|] eqn:Hd; [|done]. intros [= <-]. cbn.
    destruct (member_supertype d) as [s|] eqn:Hs; [|done]. intros [= Hq]. destruct s as [j|id|id|id]; try done.
    injection Hq as ->. by eapply (br_forward _ _ _ _ _ _ _ Hb); [apply defs_at|].
Qed.
Lemma intern_members : ∃ lowered g tr1 rank1 ids,
  mapM (lower (zlen (rb_members rb))) defs [] = (Ok lowered, handles) ∧ snd <$> lowered = ks ∧
  intern_host_group (fst <$> lowered) handles tr = (Ok (ids, g), tr1) ∧
  reg_wf rank1 (g :: hs ++ held) tr1 ∧ ordered_registry tr1 ∧ extends tr tr1 ∧ zlen ids = zlen ks ∧
  registrations (g :: hs ++ held) tr1 + 2 * w < 2 ^ 32 ∧
  (∀ i d, zget defs i = Some d → ∃ id, zget ids i = Some id ∧ registered_type tr1 id = Some (member_type ids d)) ∧
  (∀ id, id ∈ handles → is_Some (group_of tr1 id) ∧ ∀ gi, group_of tr1 id = Some gi → 0 < in_edges tr1 gi).
Proof using Hb Hdefs.
  pose proof (bo_len _ _ (br_ok _ _ _ _ _ _ _ Hb)) as Hlen.
  assert (zlen ks = zlen defs) as Hl by (rewrite defs_kinds at 1; apply zlen_fmap).
  pose proof (br_table _ _ _ _ _ _ _ Hb) as Htab. pose proof (br_room _ _ _ _ _ _ _ Hb) as [Hr1 Hr2 Hr3].
  rewrite defs_handles in Htab, Hr3.
  destruct (lower_members ks defs defs_scoped Htab) as (lowered & Hrun & Hkey & Hkinds).
  destruct key_ready as [Hk Ho].
  assert (zlen (member_key <$> defs) = zlen ks) as Hkl by (rewrite zlen_fmap; lia).
  assert (zlen (edge_canon_ids (member_key <$> defs)) = zlen handles) as Hel by by rewrite key_canon.
  destruct (br_width _ _ _ _ _ _ _ Hb) as [Hw0 _]. pose proof (zlen_nonneg handles) as Hh0.
  destruct (intern_group_spec rank (hs ++ held) tr (member_key <$> defs)) as (g & tr1 & rank1 & rec & Hint & Hw1 & Hg & Hgk & Hpost);
    [apply Hb|done|split; lia|].
  pose proof (rw_group _ _ _ Hw1 _ _ Hg) as [Hml _ Hst _]. rewrite Hgk in Hml, Hst.
  exists lowered, g, tr1, rank1, (gr_members rec). rewrite Hlen. split_and!; [done|by rewrite Hkinds, <- defs_kinds| |done| | |lia|..].
  - unfold intern_host_group. assert (zlen (fst <$> lowered) = zlen ks) as ->.
    { rewrite zlen_fmap, <- (zlen_fmap snd), Hkinds, zlen_fmap. lia. }
    erewrite lift_Ok by exact Hkey. rewrite <- Hkl. rewrite (bind_run _ _ _ _ _ Hint). unfold reads, group_members.
    rewrite bind_unfold. by rewrite Hg.
  - eapply ordered_extends; [apply Hb|exact Ho|exact Hpost].
  - apply Hpost.
  - pose proof (ip_edges _ _ _ Hpost) as He. unfold registrations in *. rewrite zlen_cons. lia.
  - intros i d Hd. assert (zget (member_key <$> defs) i = Some (member_key d)) as Hct by by rewrite zget_fmap, Hd.
    destruct (Hst _ _ Hct) as (id & ty & Hid & Hres & Hty). exists id. split; [done|].
    rewrite (member_resolve (gr_members rec) ks) in Hres; [by injection Hres as <-|lia|].
    apply defs_scoped. by eapply zget_elem.
  - intros id Hid. destruct (handle_live _ Hid) as [o Ho']. split; [exists o; by apply Hpost|]. intros gi Hgi.
    pose proof Hg as Hz. apply zentry_Some in Hz. unfold in_edges.
    pose proof (zsum_insert (out_edges tr1 gi) _ _ _ None Hz) as Hins. cbn [out_edges] in Hins.
    assert (0 < occ gi (owners tr1 (gr_key rec))).
    { apply occ_pos, list_elem_of_omap. exists id. split; [|done]. by rewrite Hgk, key_canon. }
    assert (0 ≤ zsum (out_edges tr1 gi) (<[Z.to_nat g := None]> (tr_groups tr1))); [|lia].
    apply zsum_nonneg. intros [r|] _; cbn; [apply occ_bounds|lia].
Qed.

Lemma build_group_defined : rb_error rb = None → ∃ r tr', build_group rb tr = (r, tr') ∧ no_panic r ∧
  match r with
  | Ok g => ∃ rank1, reg_wf rank1 (rg_group g :: hs ++ held) tr' ∧ ordered_registry tr' ∧
      registrations (rg_group g :: hs ++ held) tr' + 2 * w < 2 ^ 32 ∧ rg_kinds g = ks ∧ rg_builder g = rb_id rb ∧
      zlen (rg_ids g) = zlen ks ∧ groups_of tr' handles hs ∧ (∀ gi, gi ∈ hs → 0 < in_edges tr' gi) ∧
      ∀ i d, zget defs i = Some d → super_valid tr' (rg_ids g) d ∧ ∃ id, zget (rg_ids g) i = Some id ∧
        registered_type tr' id = Some (member_type (rg_ids g) d)
  | Err _ => ∃ rank1, reg_wf rank1 (hs ++ held) tr' ∧ groups_of tr' handles hs
  | Panic _ => False
  end.
Proof using Hb Hdefs.
  intros Herr. destruct intern_members as (lowered & g & tr1 & rank1 & ids & Hrun & Hkinds & Hint & Hw1 & Ho1 & Hext & Hil & Hroom & Hreg & Hpin).
  unfold build_group. rewrite Herr. erewrite lift_Ok by done. erewrite lift_Ok by by apply all_defined_Ok. cbv zeta. rewrite Hrun.
  erewrite lift_Ok by done. rewrite (bind_run _ _ _ _ _ Hint). set (grp := {| rg_builder := _ |}).
  assert (groups_of tr1 handles hs) as Hgs1.
  { pose proof (br_handles _ _ _ _ _ _ _ Hb) as Hh. rewrite defs_handles in Hh. eapply Forall2_impl; [exact Hh|].
    intros id o Hid. by apply (ex_owner _ _ Hext). }
  destruct (validate_members_steady rank1 (g :: hs ++ held) tr1 Hw1 Ho1 grp defs w) with (k := 0) (l := defs) (rank := rank1)
    (held := g :: hs ++ held) (tr := tr1) as (r & tr2 & Hval & Hp & Hw2 & Hr2 & HQ); try done.
  { by rewrite <- defs_kinds. }
  { intros i d Hd. rewrite member_width_ids. destruct (br_width _ _ _ _ _ _ _ Hb) as (_ & _ & Hmw). by eapply Hmw, defs_at. }
  { intros i d s Hd Hs. destruct (defs_scoped d (zget_elem _ _ _ Hd)) as [Hsc _]. rewrite Hs in Hsc.
    assert (∀ id, super_handles (Some s) = [id] → ∃ ty, registered_type tr1 id = Some ty ∧ zlen (body_canon_ids (ck_body ty)) ≤ w) as Hx.
    { intros id Hid. assert (id ∈ handles) as Hin.
      { apply list_elem_of_bind. exists d. split; [|by eapply zget_elem]. rewrite <- Hs in Hid.
        destruct d; cbn [member_handles member_supertype] in *; rewrite Hid; set_solver. }
      apply handle_live, (rw_types _ _ _ (br_wf _ _ _ _ _ _ _ Hb)) in Hin as [ty Hty]. exists ty.
      split; [by apply (ex_types _ _ Hext)|]. by eapply (br_width _ _ _ _ _ _ _ Hb). }
    destruct s as [jx|id|id|id]; [|by apply Hx..]. cbn in Hsc. rewrite defs_kinds, zget_fmap in Hsc.
    destruct (zget defs jx); [eauto|by destruct Hsc]. }
  assert (groups_of tr2 handles hs) as Hgs2 by by eapply groups_of_recounted.
  unfold or_drop_group. rewrite Hval. destruct r as [[]|e|why]; [| |by destruct (Hp why)].
  - exists (Ok grp), tr2. split_and!; [done|done|]. exists rank1. specialize (HQ eq_refl).
    assert (∀ d, super_valid tr1 (rg_ids grp) d → super_valid tr2 (rg_ids grp) d) as Hval2.
    { intros d. unfold super_valid. destruct (member_supertype d) as [s|]; [|done]. intros (ty & Hty & Hf & Hm). exists ty.
      split_and!; [by rewrite (recounted_registered _ _ _ Hr2)|done|]. by rewrite (body_matches_recounted _ _ _ _ Hr2). }
    split_and!; try done.
    + by eapply recounted_ordered.
    + by rewrite (recounted_registrations _ _ _ Hr2).
    + intros gi Hgi. rewrite (rc_in _ _ Hr2). apply list_elem_of_lookup in Hgi as [n Hn].
      destruct (Forall2_lookup_r _ _ _ _ _ Hgs1 Hn) as (id & Hid & Hgo). apply (Hpin id); [|done]. apply list_elem_of_lookup. eauto.
    + intros i d Hd. split; [by apply Hval2, HQ, (zget_elem _ _ _ Hd)|]. destruct (Hreg _ _ Hd) as (id & Hid & Hty). exists id.
      split; [done|]. by rewrite (recounted_registered _ _ _ Hr2).
  - destruct (decref_group_spec _ _ _ _ Hw2) as (tr3 & Hrel & Hw3 & _ & [_ Hsh]).
    exists (Err e), tr3. unfold rec_group_drop, release. cbn [for_each rg_group grp].
    split_and!; [|done|].
    + rewrite bind_unfold. rewrite (bind_run _ _ _ _ _ Hrel). done.
    + exists rank1. split; [done|]. unfold groups_of in *. rewrite Forall2_lookup in Hgs2 |- *. intros i.
      specialize (Hgs2 i). inversion Hgs2 as [x y Hxy Hx Hy|]; [|constructor]. constructor. apply Hsh; [done|].
      apply (rw_held _ _ _ Hw3), elem_of_app. left. apply list_elem_of_lookup. eauto.
Qed.
End build.

(** The phases of [build] together. *)
Lemma build_spec rank held ks hs w rb tr : build_ready rank held ks hs w rb tr →
  ∃ r tr', build rb tr = (r, tr') ∧
  match r with
  | Ok g => ∃ rank1, built rank1 held ks w rb g tr'
  | Err _ => ∃ rank1, reg_wf rank1 held tr'
  | Panic _ => False
  end.
Proof.
  intros Hb. unfold build.
  assert (∀ e tr1, build_group rb tr = (Err e, tr1) → (∃ rank1, reg_wf rank1 (hs ++ held) tr1 ∧ groups_of tr1 (members_handles (rb_members rb)) hs) →
    ∃ r tr', dropping (members_handles (rb_members rb)) (build_group rb) tr = (r, tr') ∧
    match r with Ok g => ∃ rank1, built rank1 held ks w rb g tr' | Err _ => ∃ rank1, reg_wf rank1 held tr' | Panic _ => False end) as Herr.
  { intros e tr1 Hrun (rank1 & Hw1 & Hgs1). unfold dropping. rewrite Hrun.
    destruct (drop_handles_release _ _ _ _ _ Hw1 Hgs1) as (tr2 & Hd & Hw2). rewrite (bind_run _ _ _ _ _ Hd).
    exists (Err e), tr2. eauto. }
  pose proof (br_wf _ _ _ _ _ _ _ Hb) as Hw. pose proof (br_handles _ _ _ _ _ _ _ Hb) as Hgs.
  destruct (rb_error rb) as [e|] eqn:He.
  { apply (Herr e tr); [|eauto]. unfold build_group. rewrite He. by rewrite bind_unfold. }
  destruct (all_defined (rb_members rb)) as [defs|e|why] eqn:Hall; [| |by destruct (all_defined_no_panic _ _ Hall)].
  2: { apply (Herr e tr); [|eauto]. unfold build_group. rewrite He, Hall. by erewrite lift_Ok by done. }
  apply all_defined_Ok in Hall. destruct (build_group_defined _ _ _ _ _ _ _ Hb defs Hall He) as (r & tr1 & Hrun & Hp & Hpost).
  rewrite (defs_handles _ _ Hall) in *. destruct r as [g|e|why]; [|by apply (Herr e tr1)|by destruct (Hp why)].
  destruct Hpost as (rank1 & Hw1 & Ho1 & Hroom & Hk & Hbi & Hl & Hgs1 & Hpin & Hmem).
  destruct (drop_handles_run rank1 (rg_group g :: held) tr1 (defs ≫= member_handles) hs) as (tr2 & Hd & Hw2 & Hr2); [|done|..].
  { eapply reg_wf_perm; [|exact Hw1]. by rewrite Permutation_middle. }
  { intros gi Hgi. pose proof (occ_bounds gi (rg_group g :: held)). specialize (Hpin _ Hgi). lia. }
  unfold dropping. rewrite Hrun, (bind_run _ _ _ _ _ Hd). exists (Ok g), tr2. split; [done|]. exists rank1. split; try done.
  - by eapply recounted_ordered.
  - rewrite (recounted_registrations _ _ _ Hr2). destruct (br_width _ _ _ _ _ _ _ Hb) as [? _].
    unfold registrations in *. rewrite zlen_cons, zlen_app in Hroom. rewrite zlen_cons. pose proof (zlen_nonneg hs). lia.
  - intros i Hi. pose proof (defs_kinds _ _ _ _ _ _ _ Hb defs Hall) as Hdk. destruct (zget_is_Some defs i) as [d Hd'].
    { rewrite Hdk, zlen_fmap in Hi. done. }
    destruct (Hmem _ _ Hd') as (Hv & id & Hid & Hty). exists d, id. split_and!; [by eapply defs_at|done|..].
    + by rewrite (recounted_registered _ _ _ Hr2).
    + unfold super_valid in *. destruct (member_supertype d) as [s|]; [|done]. destruct Hv as (ty & Hty' & Hf & Hm). exists ty.
      split_and!; [by rewrite (recounted_registered _ _ _ Hr2)|done|]. by rewrite (body_matches_recounted _ _ _ _ Hr2).
Qed.

(** ** Reading a built member back *)
(** The public descriptors of definition [d], forward references replaced by the members' handles. *)
Definition reads_def (ids : list Z) (tr : TypeRegistry) (id : Z) (d : MemberDef) : Prop :=
  match d with
  | MdStruct _ _ fields => (engine_struct_fields id tr).1 = Ok (field_type ids <$> fields)
  | MdArray _ _ element => (engine_array_field id tr).1 = Ok (field_type ids element)
  | MdFunc _ _ params results => (registry_func_sig id tr).1 = Ok (Some (val_type ids <$> params, val_type ids <$> results))
  end.
Lemma decode_pub_fields (l : list FieldType) : decode_field <$> (pub_field <$> l) = l.
Proof. rewrite <- list_fmap_compose. rewrite <- (list_fmap_id l) at 2. apply list_fmap_ext. intros _ f _. apply decode_pub_field. Qed.
Lemma decode_pub_vals (l : list ValType) : decode_cval <$> (pub_val <$> l) = l.
Proof. rewrite <- list_fmap_compose. rewrite <- (list_fmap_id l) at 2. apply list_fmap_ext. intros _ f _. apply decode_pub_val. Qed.
Lemma reads_def_stored rank held tr ids id d :
  reg_wf rank held tr → ordered_registry tr → registered_type tr id = Some (member_type ids d) →
  registrations held tr + zlen (body_canon_ids (member_body ids d)) < 2 ^ 32 → reads_def ids tr id d.
Proof.
  intros Hw Ho Hty Hroom. destruct (stored_groups rank held tr Hw Ho _ _ Hty) as (_ & gs & Hgs). cbn [ck_body member_type] in Hgs.
  destruct d as [fin s fields|fin s element|fin s params results]; cbn [member_body body_canon_ids struct_body array_body func_body] in *.
  - pose proof (struct_fields_from rank held tr Hw Ho _ _ Hty) as H. cbn [ck_body member_type member_body struct_body] in H.
    destruct (H rank held tr gs) as (tr' & Hrun & _); [done..|]. cbn [reads_def]. by rewrite Hrun, decode_pub_fields.
  - pose proof (array_field_from rank held tr Hw Ho _ _ Hty) as H. cbn [ck_body member_type member_body array_body] in H.
    destruct (H rank held tr gs) as (tr' & Hrun & _); [done..|]. cbn [reads_def]. by rewrite Hrun, decode_pub_field.
  - pose proof (func_sig_from rank held tr Hw Ho _ _ Hty) as H. cbn [ck_body member_type member_body func_body] in H.
    destruct (H rank held tr gs) as (tr' & Hrun & _); [done..|]. cbn [reads_def]. by rewrite Hrun, !decode_pub_vals.
Qed.

(** ** A validated subtype extends its supertype's layout *)
Lemma declared_heap_kind tr a b : declared_heap_matches tr a b = Some true → pub_ref_kind a = pub_ref_kind b.
Proof. unfold declared_heap_matches. destruct (heap_matches a b) eqn:Hm; [|by destruct a, b]. intros _. by destruct a, b. Qed.
Lemma declared_val_slot tr a b o : declared_val_matches tr a b = Some true → pub_val_slot a o = pub_val_slot b o.
Proof.
  unfold declared_val_matches. destruct (val_type_matches a b) eqn:Hm.
  - intros _. destruct a as [| | | | |ra], b as [| | | | |rb]; try done. cbn in Hm |- *. unfold ref_matches in Hm.
    apply andb_true_iff in Hm as [_ Hm]. by rewrite (declared_heap_kind tr (rt_heap ra) (rt_heap rb)) by by unfold declared_heap_matches; rewrite Hm.
  - destruct a as [| | | | |ra], b as [| | | | |rb]; try done. destruct (_ || _); [|done]. intros H. cbn. by rewrite (declared_heap_kind tr _ _ H).
Qed.
Lemma field_matches_slot tr a b : field_matches tr a b = Some true →
  ft_mutable a = ft_mutable b ∧ ∀ o, pub_field_slot a o = pub_field_slot b o.
Proof.
  unfold field_matches. destruct (eqb _ _) eqn:He; [|done]. apply eqb_prop in He. cbn [negb]. intros Hm. split; [done|]. intros o.
  unfold pub_field_slot. destruct (ft_mutable a).
  - injection Hm as Hm. apply bool_decide_eq_true in Hm. by rewrite Hm.
  - unfold storage_matches in Hm. destruct (ft_element a), (ft_element b); try done. by apply (declared_val_slot tr).
Qed.
Lemma layout_prefix fa fb size : (∀ i f g, fa !! i = Some f → fb !! i = Some g → ∀ o : Z, f o = g o) → (length fb ≤ length fa)%nat →
  take (length fb) (struct_layout_go fa size).1 = (struct_layout_go fb size).1.
Proof.
  revert fa size. induction fb as [|g fb IH]; intros fa size H Hl; [done|]. destruct fa as [|f fa]; [cbn in Hl; lia|].
  cbn [struct_layout_go]. rewrite (H 0%nat f g) by done.
  specialize (IH fa (size + slot_width (g size))). destruct (struct_layout_go fa _) as [sa ta], (struct_layout_go fb _) as [sb tb].
  cbn in IH |- *. f_equal. apply IH; [|cbn in Hl; lia]. intros i. apply (H (S i)).
Qed.
Lemma zip_all_lookup {A} (f : A → A → option bool) l k i a b :
  zip_all f l k = Some true → l !! i = Some a → k !! i = Some b → f a b = Some true.
Proof.
  revert k i. induction l as [|x l IH]; intros [|y k] [|i] H Ha Hb; try done; cbn in H, Ha, Hb; destruct (f x y) as [[]|] eqn:Hf; try done.
  - by simplify_eq.
  - by eapply IH.
Qed.
Lemma struct_matches_layout tr sub sup : struct_matches tr sub sup = Some true →
  zlen sup ≤ zlen sub ∧ ztake (zlen sup) (sl_fields (for_struct sub)) = sl_fields (for_struct sup) ∧
  ∀ i a b, zget sub i = Some a → zget sup i = Some b → ft_mutable a = ft_mutable b.
Proof.
  unfold struct_matches. destruct (Z.leb_spec (zlen sup) (zlen sub)) as [Hl|]; [|done]. intros Hm. split_and!; [done|..].
  - unfold for_struct, struct_layout_of.
    pose proof (layout_prefix (pub_field_slot <$> sub) (pub_field_slot <$> sup) 0) as Hp.
    rewrite !length_fmap in Hp. destruct (struct_layout_go _ 0) as [sa ta], (struct_layout_go (pub_field_slot <$> sup) 0) as [sb tb].
    cbn in Hp |- *. unfold ztake, zlen in *. rewrite Nat2Z.id. apply Hp; [|lia]. intros i f g.
    rewrite !list_lookup_fmap. destruct (sub !! i) as [a|] eqn:Ha, (sup !! i) as [b|] eqn:Hb; try done. intros [= <-] [= <-].
    by eapply field_matches_slot, zip_all_lookup.
  - intros i a b Ha Hb. unfold zget in Ha, Hb. destruct (0 <=? i); [|done]. by eapply field_matches_slot, zip_all_lookup.
Qed.

(** ** Theorems *)

(** Whatever calls a host makes on a builder with the handles [declare_*] gave
    it, every committed member has the kind its slot was declared with, at most
    [MAX_FIELDS] fields, references only to declared slots under their declared kind,
    and a registered supertype of its own kind only. *)
Theorem builder_scoped engine id ks rb :
  rtc builder_step ([], rec_group_new engine id) (ks, rb) → builder_ok ks rb.
Proof.
  assert (builder_ok [] (rec_group_new engine id)) as H0.
  { split; [done|by vm_compute|]. intros i m. cbn. by rewrite zget_nil. }
  assert (∀ st st', rtc builder_step st st' → builder_ok st.1 st.2 → builder_ok st'.1 st'.2) as Hrtc.
  { induction 1 as [|x y z Hxy _ IH]; [done|]. intros Hx. by apply IH, (builder_step_ok x). }
  intros Hr. by apply (Hrtc _ _ Hr).
Qed.

(** C23: building a group neither panics nor leaks, for a builder that is ready
    ([build_ready]): its operations have been the builder's ([builder_ok]), the handles
    its descriptors hold are registered, the registry is well-formed and ordered, there is
    room, and a forward supertype names an earlier member.  The last condition is the
    caller's: [build] does not check it, and a group that breaks it makes the
    subtype walk, [build]'s own included, run for ever ([self_supertype_accepted]).  On
    success exactly one registration is added, the group's, the registry is ordered
    again, and every member reads back from the registry as it was declared: its
    kind, finality, supertype and public descriptors, forward references standing for
    the siblings' handles.  On any error (a recorded one, an undefined member, a
    supertype that does not fit) nothing stays registered.  The builder's own handles are
    released either way. *)
Theorem build_reads_back rank held ks hs w rb tr : build_ready rank held ks hs w rb tr →
  ∃ r tr', build rb tr = (r, tr') ∧
  match r with
  | Ok g => ∃ rank1, reg_wf rank1 (rg_group g :: held) tr' ∧ ordered_registry tr' ∧ rg_kinds g = ks ∧ zlen (rg_ids g) = zlen ks ∧
      ∀ i, 0 ≤ i < zlen ks → ∃ d id ty, zget (rb_members rb) i = Some (Some d) ∧ zget (rg_ids g) i = Some id ∧
        registered_type tr' id = Some ty ∧ ck_kind ty = member_kind d ∧ ck_finality ty = member_finality d ∧
        ck_supertype ty = super_type (rg_ids g) <$> member_supertype d ∧ reads_def (rg_ids g) tr' id d
  | Err _ => ∃ rank1, reg_wf rank1 held tr'
  | Panic _ => False
  end.
Proof.
  intros Hb. destruct (build_spec _ _ _ _ _ _ _ Hb) as (r & tr' & Hrun & Hpost). exists r, tr'. split; [done|].
  destruct r as [g|e|why]; [|done..]. destruct Hpost as (rank1 & [Hw Ho Hroom Hk _ Hl Hm]). exists rank1. split_and!; [done..|].
  intros i Hi. destruct (Hm i Hi) as (d & id & Hd & Hid & Hty & _). exists d, id, (member_type (rg_ids g) d). split_and!; [done..|].
  eapply reads_def_stored; [exact Hw|done|done|]. rewrite member_width_ids.
  pose proof (proj2 (proj2 (br_width _ _ _ _ _ _ _ Hb)) _ _ Hd). lia.
Qed.

(** C24: in a group that [RecGroupBuilder::build] accepts, a struct member with a declared
    supertype extends it, when the builder was ready ([build_ready]: among others, a
    forward supertype names an earlier member): the supertype is registered and
    non-final, the subtype's object layout begins with the supertype's slots at the
    same offsets, and the shared fields have the same mutability, so a field access
    compiled against the supertype is right for every object of the subtype.  The other
    way to make a struct type, [StructType::with_finality_and_supertype], checks none of
    this ([struct_supertype_unchecked]). *)
Theorem subtype_extends_layout rank held ks hs w rb tr g tr' i fin s fields :
  build_ready rank held ks hs w rb tr → build rb tr = (Ok g, tr') →
  zget (rb_members rb) i = Some (Some (MdStruct fin (Some s) fields)) →
  let sub := field_type (rg_ids g) <$> fields in
  ∃ ty fs, registered_type tr' (super_type (rg_ids g) s) = Some ty ∧ ck_finality ty = NonFinal ∧ ck_body ty = CbStruct fs ∧
    let sup := decode_field <$> fs in
    ztake (zlen sup) (sl_fields (for_struct sub)) = sl_fields (for_struct sup) ∧
    ∀ j a b, zget sub j = Some a → zget sup j = Some b → ft_mutable a = ft_mutable b.
Proof.
  intros Hb Hrun Hi sub. destruct (build_spec _ _ _ _ _ _ _ Hb) as (r & tr1 & Hrun' & Hpost). rewrite Hrun in Hrun'. injection Hrun' as <- <-.
  destruct Hpost as (rank1 & [_ _ _ _ _ _ Hm]). pose proof (zget_Some _ _ _ Hi) as Hr. rewrite (bo_len _ _ (br_ok _ _ _ _ _ _ _ Hb)) in Hr.
  destruct (Hm i Hr) as (d & id & Hd & Hid & Hty & Hv). rewrite Hi in Hd. injection Hd as <-. cbn in Hv.
  destruct Hv as (ty & Hsty & Hf & Hmt). destruct (ck_body ty) as [p r|fs|f] eqn:Hbody; try done.
  exists ty, fs. split_and!; [done..|]. cbn [body_matches member_body struct_body] in Hmt. rewrite decode_pub_fields in Hmt.
  destruct (struct_matches_layout _ _ _ Hmt) as (_ & ? & ?). done.
Qed.

(** *** What is not checked *)
(** [StructType::with_finality_and_supertype] interns what it is given: a struct without fields
    becomes a subtype of a final struct with one, so casts to the supertype
    succeed for objects whose layout lacks its field. *)
Lemma struct_supertype_unchecked :
  let '(sup, tr1) := intern_struct Final None [{| ft_mutable := false; ft_element := StValType TI64 |}] registry_default in
  let '(sub, tr2) := intern_struct Final (Some 0) [] tr1 in
  sup = Ok (0, 0) ∧ sub = Ok (1, 1) ∧ is_subtype tr2 1 0 = Some true ∧
  ck_finality <$> registered_type tr2 0 = Some Final ∧ ck_body <$> registered_type tr2 1 = Some (CbStruct []).
Proof. by vm_compute. Qed.

(** *** A declared supertype may be the member itself *)
(** [declare_struct], then [define_struct], [finality(NonFinal)], [forward_supertype] of the handle itself, [finish]. *)
Definition self_builder : res RecGroupBuilder :=
  let '(p, rb) := declare_struct (rec_group_new 0 0) in
  p ← p;
  b ← define_struct p rb;
  b ← calls struct_call [ScFinality NonFinal; ScForwardSupertype p; ScFinish] b;
  Ok (sb_rec b).
Lemma self_super_diverges tr a sup : super_of tr a a → sup ≠ a → ∀ fuel, is_subtype_go fuel tr (Some a) sup = None.
Proof.
  intros Hs Hne. induction fuel as [|fuel IH]; [done|]. cbn [is_subtype_go]. destruct (Z.eqb_spec a sup); [done|].
  by rewrite (super_of_det _ _ _ Hs).
Qed.
(** C25: [build] accepts a struct type that is its own supertype (validation checks a
    supertype's kind, finality and fields only), and from then on the subtype test
    from that type to any other never returns, however long it runs. *)
Theorem self_supertype_accepted : ∃ rb g tr, self_builder = Ok rb ∧ build rb registry_default = (Ok g, tr) ∧ rg_ids g = [0] ∧
  ∀ sup, sup ≠ 0 → ∀ fuel, is_subtype_go fuel tr (Some 0) sup = None.
Proof.
  destruct self_builder as [rb|e|w] eqn:Hrb; [|by vm_compute in Hrb..].
  assert (rb_members rb = [Some (MdStruct NonFinal (Some (SdForward 0)) [])] ∧ rb_error rb = None) as [Hm He].
  { vm_compute in Hrb. by injection Hrb as <-. }
  assert (match build rb registry_default with
    | (Ok g, tr) => rg_ids g = [0] ∧ registered_type tr 0 = Some {| ck_kind := AggStruct; ck_finality := NonFinal; ck_supertype := Some 0; ck_body := CbStruct [] |}
    | _ => False end) as Hbuild.
  { vm_compute in Hrb. injection Hrb as <-. vm_compute. done. }
  destruct (build rb registry_default) as [[g|e|w] tr] eqn:Hrun; [|done..]. destruct Hbuild as [Hids Hty].
  exists rb, g, tr. split_and!; [done..|]. intros sup Hne. apply self_super_diverges; [|done]. eexists. by split.
Qed.

(** ** A pair of structures: [$a = (sub (struct i32))], [$b = (sub final $a (struct i32 (mut (ref null $b))))] *)
Definition pending_a : PendingType := {| pt_builder := 7; pt_index := 0; pt_kind := AggStruct |}.
Definition pending_b : PendingType := {| pt_builder := 7; pt_index := 1; pt_kind := AggStruct |}.
Definition i32_field_type : FieldType := {| ft_mutable := false; ft_element := StValType TI32 |}.
Definition calls_a : list StructCall := [ScFinality NonFinal; ScField 0 i32_field_type; ScFinish].
Definition calls_b : list StructCall :=
  [ScForwardSupertype pending_a; ScField 0 i32_field_type; ScForwardField pending_b true true; ScFinish].
Definition def_a : MemberDef := MdStruct NonFinal None [FdRegistered i32_field_type].
Definition def_b : MemberDef := MdStruct Final (Some (SdForward 0)) [FdRegistered i32_field_type; FdForward pending_b true true].
Definition pair_members (ms : list (option MemberDef)) : RecGroupBuilder :=
  {| rb_engine := 0; rb_id := 7; rb_error := None; rb_members := ms |}.
Definition pair_builder : RecGroupBuilder := pair_members [Some def_a; Some def_b].
Lemma pair_steps : rtc builder_step ([], rec_group_new 0 7) ([AggStruct; AggStruct], pair_builder).
Proof.
  apply (rtc_l _ _ ([AggStruct], pair_members [None])).
  { apply (bs_declare [] _ AggStruct pending_a). by vm_compute. }
  apply (rtc_l _ _ ([AggStruct; AggStruct], pair_members [None; None])).
  { apply (bs_declare [AggStruct] _ AggStruct pending_b). by vm_compute. }
  apply (rtc_l _ _ ([AggStruct; AggStruct], pair_members [Some def_a; None])).
  { apply (bs_struct _ _ pending_a calls_a {| sb_rec := pair_members [None; None]; sb_index := 0; sb_finality := Final; sb_supertype := None; sb_fields := [] |}
      {| sb_rec := pair_members [Some def_a; None]; sb_index := 0; sb_finality := NonFinal; sb_supertype := None; sb_fields := [] |});
      [done|by repeat constructor|by vm_compute|by vm_compute]. }
  apply rtc_once.
  apply (bs_struct _ _ pending_b calls_b {| sb_rec := pair_members [Some def_a; None]; sb_index := 1; sb_finality := Final; sb_supertype := None; sb_fields := [] |}
    {| sb_rec := pair_builder; sb_index := 1; sb_finality := Final; sb_supertype := None; sb_fields := [] |});
    [done|by repeat constructor|by vm_compute|by vm_compute].
Qed.
Lemma builder_scoped_witness : builder_ok [AggStruct; AggStruct] pair_builder.
Proof. apply (builder_scoped 0 7), pair_steps. Defined.

Lemma pair_at i m : zget (rb_members pair_builder) i = Some (Some m) → i = 0 ∧ m = def_a ∨ i = 1 ∧ m = def_b.
Proof.
  intros Hi. pose proof (zget_Some _ _ _ Hi) as Hr. change (zlen (rb_members pair_builder)) with 2 in Hr.
  assert (i = 0 ∨ i = 1) as [-> | ->] by lia; injection Hi as <-; auto.
Qed.
Lemma pair_ok : builder_ok [AggStruct; AggStruct] pair_builder.
Proof.
  split; [done|by vm_compute|]. intros i m [[-> ->]|[-> ->]]%pair_at; (split; [done|]); (split; [by try eexists|]);
    (split; [by repeat constructor|by vm_compute]).
Qed.
Lemma pair_ready : build_ready (λ _, 0) [] [AggStruct; AggStruct] [] 1 pair_builder registry_default.
Proof.
  split.
  - apply pair_ok.
  - apply reg_wf_default.
  - constructor.
  - apply ordered_default.
  - intros i m j [[-> ->]|[-> ->]]%pair_at; [done|]. intros [= <-]. lia.
  - split_and!; [done| |].
    + intros id ty. unfold registered_type. cbn. by rewrite zentry_nil.
    + intros i m [[-> ->]|[-> ->]]%pair_at; by vm_compute.
  - by vm_compute.
  - split; by vm_compute.
Qed.
Example pair_builds : (∃ g, fst (build pair_builder registry_default) = Ok g ∧ rg_ids g = [0; 1]).
Proof.
  assert (match fst (build pair_builder registry_default) with Ok g => rg_ids g = [0; 1] | _ => False end) as H by by vm_compute.
  destruct (fst _); [eauto|done..].
Qed.
Lemma build_reads_back_witness : ∃ g tr', build pair_builder registry_default = (Ok g, tr') ∧
  ∃ rank1, reg_wf rank1 [rg_group g] tr' ∧ ∃ id, zget (rg_ids g) 1 = Some id ∧ reads_def (rg_ids g) tr' id def_b.
Proof.
  destruct (build_reads_back _ _ _ _ _ _ _ pair_ready) as (r & tr' & Hrun & Hpost).
  destruct pair_builds as (g & Hg & _). rewrite Hrun in Hg. cbn in Hg. subst r. exists g, tr'. split; [exact Hrun|].
  destruct Hpost as (rank1 & Hw & _ & _ & _ & Hm). exists rank1. split; [exact Hw|].
  destruct (Hm 1) as (d & id & ty & Hd & Hid & _ & _ & _ & _ & Hreads); [by vm_compute|]. injection Hd as <-. by exists id.
Defined.
Lemma subtype_extends_layout_witness : ∃ g tr' ty fs, build pair_builder registry_default = (Ok g, tr') ∧
  registered_type tr' 0 = Some ty ∧ ck_body ty = CbStruct fs ∧
  ztake (zlen (decode_field <$> fs)) (sl_fields (for_struct [i32_field_type; field_type [0; 1] (FdForward pending_b true true)])) =
    sl_fields (for_struct (decode_field <$> fs)).
Proof.
  destruct pair_builds as (g & Hg & Hids). destruct (build pair_builder registry_default) as [r tr'] eqn:Hrun. cbn in Hg. subst r.
  destruct (subtype_extends_layout _ _ _ _ _ _ _ g tr' 1 _ _ _ pair_ready Hrun eq_refl) as (ty & fs & Hty & _ & Hb & Hl & _).
  rewrite Hids in Hty, Hl. exists g, tr', ty, fs. split_and!; [done|exact Hty|exact Hb|exact Hl].
Defined.
