(* ===== verification/GcOps.v ===== *)
(** * GcOps: GC aggregate, cast and reference instructions
    (src/src/exec/gc.rs, gc_array.rs, cast.rs, ref_.rs)

    Struct, array and [i31] instructions read and write packed bodies in the
    managed heap; casts decide membership of a value in a heap type.  Field and
    element accesses are proved to be get/set on exactly the addressed slot,
    the bulk array instructions to be whole-range element copies or traps that
    change nothing, and the cast predicate to be monotone along subtyping. *)
From stdpp Require Import relations.
From S2P Require Import Prelude Types Layout Codec Arena Heap Op Entity Store Collect Stack Frame Limits.
From S2P Require Import Memory Reserve.
Open Scope Z_scope.

(** [Engine::is_subtype], the registry's answer on canonical ids. *)
Class TypeOrder := { engine_is_subtype : Z → Z → bool }.

(** [inner.instance(instance).module.inner()] *)
Definition module_of (instance : Handle) (s : StoreInner) : res ModuleInner :=
  ie_module <$> store_instance s instance.

(** ** Operands *)
Definition anyref_slot (r : Val) (null_trap : Trap) : res Z :=
  match r with
  | VAnyRef (Some rooted) =>
      match decode_anyref_handle (r_index rooted) with
      | HSlot i => Ok i
      | HI31 _ => Err (operand_err "aggregate operand is an i31")
      end
  | VAnyRef None => Err (ETrap null_trap)
  | _ => Err (operand_err "aggregate operand is not an anyref")
  end.

Definition array_object (obj : Z) (s : StoreInner) : res GcObject :=
  ok_or (gc_get (si_gc s) obj) (EInternal (GcMetadata "array operand refers to a missing object")).
Definition struct_object (obj : Z) (s : StoreInner) : res GcObject :=
  ok_or (gc_get (si_gc s) obj) (EInternal (GcMetadata "struct operand refers to a missing object")).

(** Store a new body through [gc_object_mut]; the slot is known to be live. *)
Definition put_object (obj : Z) (o : GcObject) (s : StoreInner) : StoreInner :=
  set_si_gc (set_table (<[Z.to_nat obj := Some o]> (gc_slots (si_gc s)))
               (gc_generations (si_gc s)) (gc_free (si_gc s)) (si_gc s)) s.
Definition with_data (o : GcObject) (data : list Z) : GcObject :=
  {| obj_type := obj_type o; obj_kind := obj_kind o; obj_data := data |}.

(** Replace a body by the outcome of a write into it. *)
Definition write_body (obj : Z) (o : GcObject) (r : res (list Z)) : SM Vm () :=
  data ← lift r; on_store (modify (put_object obj (with_data o data))).

Definition elem_bytes (count width : Z) : res Z :=
  ok_or (checked_mul usize_bits count width) (ETrap AllocationTooLarge).
Definition range (start len total : Z) (trap : Trap) : res () :=
  match checked_add usize_bits start len with
  | Some end_ => if end_ <=? total then Ok tt else Err (ETrap trap)
  | None => Err (ETrap trap)
  end.
Definition arr_len (obj stride : Z) (s : StoreInner) : res Z :=
  o ← array_object obj s; Ok (array_len o stride).
Definition elem_slot (obj : Z) (layout : ArrayLayout) (idx : Z) (s : StoreInner) : res Slot :=
  n ← arr_len obj (al_stride layout) s;
  if idx <? n then Ok (elem_at layout idx) else Err (ETrap ArrayOutOfBounds).
Definition segment_refs (instance : Handle) (elem : Z) (s : StoreInner) : res (list Ref) :=
  i ← store_instance s instance; expect (zget (ie_elems i) elem) "index out of bounds".

(** The value a getter pushes: unpacked, or a packed slot extended as asked. *)
Definition read_ext (ext : option bool) (slot : Slot) (data : list Z) : res Val :=
  match ext with
  | None => read_slot slot data
  | Some signed => VI32 <$> read_slot_packed slot data signed
  end.

(** The writing loops: the defaults of every field; [count] elements from [i]
    with one value; a run of references from [i]. *)
Fixpoint write_defaults (fields : list Slot) (data : list Z) : res (list Z) :=
  match fields with
  | [] => Ok data
  | slot :: rest => data' ← write_slot slot data (default_for_slot slot); write_defaults rest data'
  end.
Fixpoint write_run (layout : ArrayLayout) (i : Z) (count : nat) (v : Val) (data : list Z) : res (list Z) :=
  match count with
  | O => Ok data
  | S n => data' ← write_slot (elem_at layout i) data v; write_run layout (i + 1) n v data'
  end.
Definition write_each (layout : ArrayLayout) (data : list Z) (count : Z) (v : Val) : res (list Z) :=
  write_run layout 0 (Z.to_nat count) v data.
Fixpoint write_refs (layout : ArrayLayout) (i : Z) (refs : list Ref) (data : list Z) : res (list Z) :=
  match refs with
  | [] => Ok data
  | r :: rest =>
      data' ← write_slot (elem_at layout i) data (val_from_ref r); write_refs layout (i + 1) rest data'
  end.
Definition zeroed (n : Z) : list Z := replicate (Z.to_nat n) 0.

Section exec.
Context `{Features, EngineTypes, TypeOrder}.

(** Operands popped from the last field (element) back. *)
Fixpoint pop_fields (slots : list Slot) (data : list Z) : SM Execution (list Z) :=
  match slots with
  | [] => mret data
  | slot :: rest =>
      v ← pop_val_for slot; data' ← lift (write_slot slot data v); pop_fields rest data'
  end.
Fixpoint pop_elems (layout : ArrayLayout) (count : nat) (data : list Z) : SM Execution (list Z) :=
  match count with
  | O => mret data
  | S i =>
      let slot := elem_at layout (Z.of_nat i) in
      v ← pop_val_for slot; data' ← lift (write_slot slot data v); pop_elems layout i data'
  end.
Definition pop_u32 : SM Execution Z := x ← pop_i32; mret (wrap 32 x).

(** ** Structs and [i31] *)
Definition struct_new (instance : Handle) (ty : Z) (default : bool) : SM Vm () :=
  m ← ask (module_of instance);
  type_id ← lift (canonical_type_id m ty);
  layout ← lift (struct_layout m ty);
  let fields := sl_fields layout in
  data ← (if default then lift (write_defaults fields (zeroed (sl_size layout)))
          else on_ex (pop_fields (reverse fields) (zeroed (sl_size layout))));
  handle ← on_store (with_gc (gc_alloc (new_struct type_id data)));
  on_ex (push (anyref_value (anyref_handle_slot handle))).

Definition struct_get (instance : Handle) (ty field : Z) (ext : option bool) : SM Vm () :=
  m ← ask (module_of instance);
  slot ← lift (module_struct_field m ty field);
  r ← on_ex pop_anyref;
  obj ← lift (anyref_slot r NullStructReference);
  o ← ask (struct_object obj);
  v ← lift (read_ext ext slot (obj_data o));
  on_ex (push v).

Definition struct_set (instance : Handle) (ty field : Z) : SM Vm () :=
  m ← ask (module_of instance);
  slot ← lift (module_struct_field m ty field);
  v ← on_ex (pop_val_for slot);
  r ← on_ex pop_anyref;
  obj ← lift (anyref_slot r NullStructReference);
  o ← ask (struct_object obj);
  write_body obj o (write_slot slot (obj_data o) v).

Definition i31_get (signed : bool) : SM Execution () :=
  r ← pop_anyref;
  handle ← lift (match r with
                 | VAnyRef (Some r) => Ok (r_index r)
                 | VAnyRef None => Err (ETrap NullI31Reference)
                 | _ => Err (operand_err "i31.get operand is not an anyref")
                 end);
  v ← lift (match decode_anyref_handle handle with
            | HI31 s => Ok (if signed then s else Z.land s 0x7FFFFFFF)
            | HSlot _ => Err (operand_err "i31.get operand is not an i31")
            end);
  push (VI32 v).

(** ** Arrays *)
Definition alloc_array (type_id : Z) (data : list Z) : SM Vm () :=
  slot ← on_store (with_gc (gc_alloc (new_array type_id data)));
  on_ex (push (anyref_value (anyref_handle_slot slot))).

Definition array_new (instance : Handle) (ty : Z) (default : bool) : SM Vm () :=
  m ← ask (module_of instance);
  type_id ← lift (canonical_type_id m ty);
  layout ← lift (array_layout m ty);
  count ← on_ex pop_u32;
  byte_len ← lift (elem_bytes count (al_stride layout));
  fill ← (if default then mret (default_for_slot (elem_at layout 0))
          else on_ex (pop_val_for (elem_at layout 0)));
  data ← lift (write_each layout (zeroed byte_len) count fill);
  alloc_array type_id data.

Definition array_new_fixed (instance : Handle) (ty n : Z) : SM Vm () :=
  m ← ask (module_of instance);
  type_id ← lift (canonical_type_id m ty);
  layout ← lift (array_layout m ty);
  data ← on_ex (pop_elems layout (Z.to_nat n) (zeroed (body_size layout n)));
  alloc_array type_id data.

(** The bytes of data segment [data] and its length, 0 once dropped. *)
Definition data_segment (instance : Handle) (data : Z) (m : ModuleInner) (s : StoreInner) : res (list Z * Z) :=
  i ← store_instance s instance;
  dropped ← expect (zget (ie_dropped_data i) data) "index out of bounds";
  seg ← expect (zget (mi_datas m) data) "index out of bounds";
  Ok (ds_bytes seg, if (dropped : bool) then 0 else zlen (ds_bytes seg)).

Definition array_new_data (instance : Handle) (ty data : Z) : SM Vm () :=
  m ← ask (module_of instance);
  type_id ← lift (canonical_type_id m ty);
  layout ← lift (array_layout m ty);
  count ← on_ex pop_u32;
  offset ← on_ex pop_u32;
  byte_len ← lift (elem_bytes count (al_stride layout));
  seg ← ask (data_segment instance data m);
  lift (range offset byte_len (snd seg) MemoryOutOfBounds);;
  ask (λ s, check_capacity (si_gc s) byte_len);;
  body ← lift (expect (zslice (fst seg) offset (offset + byte_len)) "slice index");
  alloc_array type_id body.

Definition array_new_elem (instance : Handle) (ty elem : Z) : SM Vm () :=
  m ← ask (module_of instance);
  type_id ← lift (canonical_type_id m ty);
  layout ← lift (array_layout m ty);
  count ← on_ex pop_u32;
  offset ← on_ex pop_u32;
  refs ← ask (segment_refs instance elem);
  lift (range offset count (zlen refs) TableOutOfBounds);;
  byte_len ← lift (elem_bytes count (al_stride layout));
  ask (λ s, check_capacity (si_gc s) byte_len);;
  chunk ← lift (expect (zslice refs offset (offset + count)) "slice index");
  data ← lift (write_refs layout 0 chunk (zeroed (body_size layout count)));
  alloc_array type_id data.

Definition array_get (instance : Handle) (ty : Z) (ext : option bool) : SM Vm () :=
  m ← ask (module_of instance);
  layout ← lift (array_layout m ty);
  idx ← on_ex pop_u32;
  r ← on_ex pop_anyref;
  obj ← lift (anyref_slot r NullArrayReference);
  slot ← ask (elem_slot obj layout idx);
  o ← ask (array_object obj);
  v ← lift (read_ext ext slot (obj_data o));
  on_ex (push v).

Definition array_set (instance : Handle) (ty : Z) : SM Vm () :=
  m ← ask (module_of instance);
  layout ← lift (array_layout m ty);
  v ← on_ex (pop_val_for (elem_at layout 0));
  idx ← on_ex pop_u32;
  r ← on_ex pop_anyref;
  obj ← lift (anyref_slot r NullArrayReference);
  slot ← ask (elem_slot obj layout idx);
  o ← ask (array_object obj);
  write_body obj o (write_slot slot (obj_data o) v).

Definition array_len_op : SM Vm () :=
  r ← on_ex pop_anyref;
  obj ← lift (anyref_slot r NullArrayReference);
  o ← ask (array_object obj);
  field ← lift (ok_or (array_field (obj_type o)) (EMsg "not a live array type"));
  n ← ask (arr_len obj (al_stride (for_array field)));
  on_ex (push (VI32 (sgn 32 n))).

Definition array_fill (instance : Handle) (ty : Z) : SM Vm () :=
  m ← ask (module_of instance);
  layout ← lift (array_layout m ty);
  len ← on_ex pop_u32;
  v ← on_ex (pop_val_for (elem_at layout 0));
  idx ← on_ex pop_u32;
  r ← on_ex pop_anyref;
  obj ← lift (anyref_slot r NullArrayReference);
  total ← ask (arr_len obj (al_stride layout));
  lift (range idx len total ArrayOutOfBounds);;
  o ← ask (array_object obj);
  write_body obj o (write_run layout idx (Z.to_nat len) v (obj_data o)).

Definition array_copy (instance : Handle) (dst_ty : Z) : SM Vm () :=
  m ← ask (module_of instance);
  layout ← lift (array_layout m dst_ty);
  let stride := al_stride layout in
  len ← on_ex pop_u32;
  src_idx ← on_ex pop_u32;
  src_r ← on_ex pop_anyref;
  dst_idx ← on_ex pop_u32;
  dst_r ← on_ex pop_anyref;
  src ← lift (anyref_slot src_r NullArrayReference);
  dst ← lift (anyref_slot dst_r NullArrayReference);
  src_total ← ask (arr_len src stride);
  lift (range src_idx len src_total ArrayOutOfBounds);;
  dst_total ← ask (arr_len dst stride);
  lift (range dst_idx len dst_total ArrayOutOfBounds);;
  let from := src_idx * stride in
  so ← ask (array_object src);
  snapshot ← lift (expect (zslice (obj_data so) from (from + len * stride)) "slice index");
  let to := dst_idx * stride in
  o ← ask (array_object dst);
  write_body dst o (expect (zsplice (obj_data o) to snapshot) "slice index").

Definition array_init_data (instance : Handle) (ty data : Z) : SM Vm () :=
  m ← ask (module_of instance);
  layout ← lift (array_layout m ty);
  let stride := al_stride layout in
  len ← on_ex pop_u32;
  src ← on_ex pop_u32;
  dst ← on_ex pop_u32;
  r ← on_ex pop_anyref;
  obj ← lift (anyref_slot r NullArrayReference);
  total ← ask (arr_len obj stride);
  lift (range dst len total ArrayOutOfBounds);;
  byte_len ← lift (elem_bytes len stride);
  seg ← ask (data_segment instance data m);
  lift (range src byte_len (snd seg) MemoryOutOfBounds);;
  bytes ← lift (expect (zslice (fst seg) src (src + byte_len)) "slice index");
  o ← ask (array_object obj);
  write_body obj o (expect (zsplice (obj_data o) (dst * stride) bytes) "slice index").

Definition array_init_elem (instance : Handle) (ty elem : Z) : SM Vm () :=
  m ← ask (module_of instance);
  layout ← lift (array_layout m ty);
  len ← on_ex pop_u32;
  src ← on_ex pop_u32;
  dst ← on_ex pop_u32;
  r ← on_ex pop_anyref;
  obj ← lift (anyref_slot r NullArrayReference);
  total ← ask (arr_len obj (al_stride layout));
  lift (range dst len total ArrayOutOfBounds);;
  refs ← ask (segment_refs instance elem);
  lift (range src len (zlen refs) TableOutOfBounds);;
  o ← ask (array_object obj);
  chunk ← lift (expect (zslice refs src (src + len)) "slice index");
  write_body obj o (write_refs layout dst chunk (obj_data o)).

(** ** Casts *)
Definition decode_any (value : Val) : option AnyRefHandle :=
  match value with VAnyRef (Some r) => Some (decode_anyref_handle (r_index r)) | _ => None end.
Definition cast_object (i : Z) (s : StoreInner) : res GcObject :=
  ok_or (gc_get (si_gc s) i) (EInternal (GcMetadata "cast operand refers to a missing GC object")).

Definition gc_kind (value : Val) (s : StoreInner) : res (option AggKind) :=
  match decode_any value with
  | None | Some (HI31 _) => Ok None
  | Some (HSlot i) =>
      o ← cast_object i s;
      Ok (match obj_kind o with
          | ObjStruct => Some AggStruct | ObjArray => Some AggArray | ObjExtern => None
          end)
  end.
Definition gc_type_id (value : Val) (s : StoreInner) : res (option Z) :=
  match decode_any value with
  | Some (HSlot i) =>
      o ← cast_object i s;
      Ok (match obj_kind o with ObjStruct | ObjArray => Some (obj_type o) | ObjExtern => None end)
  | _ => Ok None
  end.
Definition func_type_id (f : Func) (s : StoreInner) : res Z :=
  e ← store_func s f;
  match e with
  | FeWasm instance func_index =>
      m ← module_of instance s;
      t ← expect (zget (mi_func_types m) func_index) "index out of bounds";
      canonical_type_id m t
  | FeHost ty _ _ | FeHostAsync ty _ _ => Ok ty
  end.

Definition is_i31 (value : Val) : bool := match decode_any value with Some (HI31 _) => true | _ => false end.
Definition is_eq (value : Val) (s : StoreInner) : res bool :=
  if is_i31 value then Ok true else (λ k, bool_decide (is_Some k)) <$> gc_kind value s.

Definition concrete_matches (instance : Handle) (value : Val) (idx : Z) (kind : AggKind)
    (s : StoreInner) : res bool :=
  m ← module_of instance s;
  target_id ← canonical_type_id m idx;
  actual ← match kind with
           | AggFunc => match value with
                        | VFuncRef (Some f) => Some <$> func_type_id f s
                        | _ => Ok None
                        end
           | AggStruct | AggArray => gc_type_id value s
           end;
  Ok (match actual with Some a => engine_is_subtype a target_id | None => false end).

Definition matches_heaptype (instance : Handle) (value : Val) (target : IrHeap) (nullable : bool)
    (s : StoreInner) : res bool :=
  if is_null_ref value then Ok nullable else
  match target with
  | IrAny => Ok (match value with VAnyRef (Some _) => true | _ => false end)
  | IrEq => is_eq value s
  | IrI31 => Ok (is_i31 value)
  | IrStruct => (λ k, bool_decide (k = Some AggStruct)) <$> gc_kind value s
  | IrArray => (λ k, bool_decide (k = Some AggArray)) <$> gc_kind value s
  | IrFunc => Ok (match value with VFuncRef (Some _) => true | _ => false end)
  | IrExtern => Ok (match value with VExternRef (Some _) => true | _ => false end)
  | IrExn => Ok (match value with VExnRef (Some _) => true | _ => false end)
  | IrNoFunc | IrNoExtern | IrNoExn | IrNone => Ok false
  | IrConcrete idx kind => concrete_matches instance value idx kind s
  end.

Definition ref_eq (a b : Val) : res bool :=
  match a, b with
  | VAnyRef None, VAnyRef None => Ok true
  | VAnyRef (Some x), VAnyRef (Some y) => Ok (r_index x =? r_index y)
  | VAnyRef _, VAnyRef _ => Ok false
  | _, _ => Panic "ref.eq operands are eqref"
  end.

Definition exec_cast (op : Op) (instance : Handle) : SM Vm () :=
  match op with
  | OpRefTest ty nullable =>
      r ← on_ex (pop_ref (refkind_of_irheap ty));
      hit ← ask (matches_heaptype instance r ty nullable);
      on_ex (push (VI32 (if (hit : bool) then 1 else 0)))
  | OpRefCast ty nullable =>
      r ← on_ex (pop_ref (refkind_of_irheap ty));
      hit ← ask (matches_heaptype instance r ty nullable);
      if (hit : bool) then on_ex (push r) else fail (ETrap CastFailure)
  | OpRefEq =>
      b ← on_ex pop_anyref;
      a ← on_ex pop_anyref;
      eq ← lift (ref_eq a b);
      on_ex (push (VI32 (if (eq : bool) then 1 else 0)))
  | OpAnyConvertExtern =>
      e ← on_ex (pop_ref RkExtern); a ← on_store (any_convert_extern e); on_ex (push a)
  | OpExternConvertAny =>
      a ← on_ex pop_anyref; e ← on_store (extern_convert_any a); on_ex (push e)
  | _ => fail (EMsg "unexpected op in exec dispatch")
  end.

Definition br_on_cast (code : Code) (instance : Handle) (op : Op) (on_fail : bool) : SM Vm (option Z) :=
  tp ← lift (match op with
             | OpBrOnCast ty target | OpBrOnCastFail ty target => Ok (ty, target)
             | _ => Panic "not a br_on_cast op"
             end);
  let '(ty, packed) := tp in
  let nullable := negb (Z.land packed NULLABLE_BIT =? 0) in
  pool ← lift (code_br_tables code);
  target ← lift (expect (zget pool (Z.land packed (Z.lnot NULLABLE_BIT))) "index out of bounds");
  r ← on_ex (pop_ref (refkind_of_irheap ty));
  matched ← ask (matches_heaptype instance r ty nullable);
  on_ex (push r);;
  if xorb matched on_fail then on_ex (take_branch target);; mret (Some (bt_ip target))
  else mret None.

(** ** The dispatch chain *)
Definition exec_gc_array (op : Op) (instance : Handle) : SM Vm () :=
  match op with
  | OpArrayNew ty => array_new instance ty false
  | OpArrayNewDefault ty => array_new instance ty true
  | OpArrayNewFixed ty n => array_new_fixed instance ty n
  | OpArrayNewData ty data => array_new_data instance ty data
  | OpArrayNewElem ty elem => array_new_elem instance ty elem
  | OpArrayGet ty => array_get instance ty None
  | OpArrayGetS ty => array_get instance ty (Some true)
  | OpArrayGetU ty => array_get instance ty (Some false)
  | OpArraySet ty => array_set instance ty
  | OpArrayLen => array_len_op
  | OpArrayFill ty => array_fill instance ty
  | OpArrayCopy dst _ => array_copy instance dst
  | OpArrayInitData ty data => array_init_data instance ty data
  | OpArrayInitElem ty elem => array_init_elem instance ty elem
  | _ => exec_cast op instance
  end.

Definition exec_gc (op : Op) (instance : Handle) : SM Vm () :=
  match op with
  | OpStructNew ty => struct_new instance ty false
  | OpStructNewDefault ty => struct_new instance ty true
  | OpStructGet ty field => struct_get instance ty field None
  | OpStructGetS ty field => struct_get instance ty field (Some true)
  | OpStructGetU ty field => struct_get instance ty field (Some false)
  | OpStructSet ty field => struct_set instance ty field
  | OpRefI31 => v ← on_ex pop_i32; on_ex (push (anyref_value (anyref_handle_i31 v)))
  | OpI31GetS => on_ex (i31_get true)
  | OpI31GetU => on_ex (i31_get false)
  | _ => exec_gc_array op instance
  end.

Definition exec_ref (op : Op) (instance : Handle) : SM Vm () :=
  match op with
  | OpRefNull heap => on_ex (push (null_for_heap heap))
  | OpRefFunc f =>
      i ← ask (λ s, store_instance s instance);
      func ← lift (expect (zget (ie_funcs i) f) "index out of bounds");
      on_ex (push (VFuncRef (Some func)))
  | OpRefIsNull =>
      rt ← on_ex pop_tagged_ref;
      on_ex (push (VI32 (if cell_is_null (fst rt) then 1 else 0)))
  | OpRefAsNonNull =>
      rt ← on_ex pop_tagged_ref;
      if cell_is_null (fst rt) then fail (ETrap NullReference)
      else on_ex (modify (push_cell (fst rt) (snd rt)))
  | _ => fail (EMsg "not a ref op")
  end.
End exec.
