(* ===== verification/ConstEval.v ===== *)
(** * ConstEval: constant expressions (src/src/instance/const_eval.rs)

    The small stack machine that evaluates global, table and segment initializers
    while a module is being instantiated.  It allocates structs and arrays in the
    store's managed heap and touches nothing else of the store; an expression that
    checks against its type never panics and yields a value of that type. *)
From stdpp Require Import relations.
From S2P Require Import Prelude Keep Types Layout Codec Arena Heap Op Entity Store.
From S2P Require Import Memory GcOps.
Open Scope Z_scope.

(** What an expression resolves against: the module and the function and global index
    spaces built so far. *)
Record ConstCtx : Type := {
  cc_module : ModuleInner;
  cc_funcs : list Func;
  cc_globals : list Handle;
}.

(** One evaluation: its operand stack (the top first) and the store it allocates in. *)
Record ConstVm : Type := { cv_stack : list Val; cv_store : StoreInner }.
Definition set_cv_store (s : StoreInner) (v : ConstVm) : ConstVm :=
  {| cv_stack := cv_stack v; cv_store := s |}.
Definition set_cv_stack (l : list Val) (v : ConstVm) : ConstVm :=
  {| cv_stack := l; cv_store := cv_store v |}.
Definition in_store {A} (m : SM StoreInner A) : SM ConstVm A := zoom cv_store set_cv_store m.

Definition const_push (x : Val) : SM ConstVm () := modify (λ v, set_cv_stack (x :: cv_stack v) v).
Definition const_pop : SM ConstVm Val := λ v,
  match cv_stack v with
  | x :: rest => (Ok x, set_cv_stack rest v)
  | [] => (Panic "const-expr operand stack underflow", v)
  end.
Definition const_pop_i32 : SM ConstVm Z := x ← const_pop; lift (unwrap_i32 x).
Definition const_pop_i64 : SM ConstVm Z := x ← const_pop; lift (unwrap_i64 x).
(** [pop(stack).unwrap_i32() as u32 as usize] *)
Definition const_pop_len : SM ConstVm Z := x ← const_pop_i32; mret (wrap 32 x).

(** The binary operators: [b] is on top of [a]. *)
Definition i32_bin (f : Z → Z → Z) : SM ConstVm Val :=
  b ← const_pop_i32; a ← const_pop_i32; mret (VI32 (sgn 32 (f a b))).
Definition i64_bin (f : Z → Z → Z) : SM ConstVm Val :=
  b ← const_pop_i64; a ← const_pop_i64; mret (VI64 (sgn 64 (f a b))).

Definition const_val_to_ref (v : Val) : res Ref := ok_or (val_to_ref v) (EMsg "global is not a reference").

(** [alloc]: outside the run loop's reservation flow, bounded by the hard ceiling. *)
Definition const_alloc (o : GcObject) : SM ConstVm Val :=
  slot ← in_store (with_gc (alloc_unreserved o)); mret (anyref_value (anyref_handle_slot slot)).
Definition const_alloc_array (type_id : Z) (data : list Z) : SM ConstVm Val :=
  const_alloc (new_array type_id data).
Definition gc_check_capacity (n : Z) : SM ConstVm () := reads (λ v, check_capacity (si_gc (cv_store v)) n).

(** Operands written from the last field (element) back. *)
Fixpoint const_pop_slots (slots : list Slot) (data : list Z) : SM ConstVm (list Z) :=
  match slots with
  | [] => mret data
  | slot :: rest => v ← const_pop; data' ← lift (write_slot slot data v); const_pop_slots rest data'
  end.
Definition elem_slots (layout : ArrayLayout) (count : nat) : list Slot :=
  elem_at layout <$> seqZ 0 (Z.of_nat count).

Section ctx.
Context (ctx : ConstCtx).
Let m := cc_module ctx.

Definition const_struct (ty : Z) (default : bool) : SM ConstVm Val :=
  type_id ← lift (canonical_type_id m ty);
  layout ← lift (struct_layout m ty);
  let fields := sl_fields layout in
  data ← (if default then lift (write_defaults fields (zeroed (sl_size layout)))
          else const_pop_slots (reverse fields) (zeroed (sl_size layout)));
  const_alloc (new_struct type_id data).

Definition const_array (ty : Z) (default : bool) : SM ConstVm Val :=
  type_id ← lift (canonical_type_id m ty);
  layout ← lift (array_layout m ty);
  count ← const_pop_len;
  byte_len ← lift (elem_bytes count (al_stride layout));
  _ ← gc_check_capacity byte_len;
  fill ← (if default then mret (default_for_slot (elem_at layout 0)) else const_pop);
  data ← lift (write_each layout (zeroed byte_len) count fill);
  const_alloc_array type_id data.

Definition const_array_fixed (ty n : Z) : SM ConstVm Val :=
  type_id ← lift (canonical_type_id m ty);
  layout ← lift (array_layout m ty);
  data ← const_pop_slots (reverse (elem_slots layout (Z.to_nat n))) (zeroed (body_size layout n));
  const_alloc_array type_id data.

Definition const_array_data (ty data : Z) : SM ConstVm Val :=
  type_id ← lift (canonical_type_id m ty);
  layout ← lift (array_layout m ty);
  count ← const_pop_len;
  offset ← const_pop_len;
  byte_len ← lift (elem_bytes count (al_stride layout));
  seg ← lift (ds_bytes <$> expect (zget (mi_datas m) data) "index out of bounds");
  _ ← lift (range offset byte_len (zlen seg) MemoryOutOfBounds);
  _ ← gc_check_capacity byte_len;
  body ← lift (expect (zslice seg offset (offset + byte_len)) "slice index");
  const_alloc_array type_id body.

(** Evaluating an element segment evaluates its expressions, which re-enter
    [eval_const]. *)
Section reenter.
Context (eval : ConstExpr → SM StoreInner Val).

Fixpoint elem_exprs (es : list ConstExpr) : SM StoreInner (list Ref) :=
  match es with
  | [] => mret []
  | e :: rest =>
      v ← eval e; r ← lift (const_val_to_ref v); refs ← elem_exprs rest; mret (r :: refs)
  end.
Fixpoint elem_funcs (idxs : list Z) : res (list Ref) :=
  match idxs with
  | [] => Ok []
  | i :: rest =>
      f ← expect (zget (cc_funcs ctx) i) "index out of bounds";
      refs ← elem_funcs rest; Ok (RefFunc (Some f) :: refs)
  end.
Definition elem_refs_in (items : ElemItems) : SM StoreInner (list Ref) :=
  match items with
  | EiFuncs idxs => lift (elem_funcs idxs)
  | EiExprs es => elem_exprs es
  end.

Definition const_array_elem (ty elem : Z) : SM ConstVm Val :=
  type_id ← lift (canonical_type_id m ty);
  layout ← lift (array_layout m ty);
  count ← const_pop_len;
  offset ← const_pop_len;
  seg ← lift (expect (zget (mi_elems m) elem) "index out of bounds");
  refs ← in_store (elem_refs_in (es_items seg));
  _ ← lift (range offset count (zlen refs) TableOutOfBounds);
  n ← lift (elem_bytes count (al_stride layout));
  _ ← gc_check_capacity n;
  run ← lift (expect (zslice refs offset (offset + count)) "slice index");
  data ← lift (write_refs layout 0 run (zeroed (body_size layout count)));
  const_alloc_array type_id data.

(** One operator: the value it pushes. *)
Definition const_op (op : ConstOp) : SM ConstVm Val :=
  match op with
  | CoI32 c => mret (VI32 c)
  | CoI64 c => mret (VI64 c)
  | CoF32 b => mret (VF32 b)
  | CoF64 b => mret (VF64 b)
  | CoV128 b => mret (VV128 b)
  | CoRefNull heap => mret (null_for_heap heap)
  | CoRefFunc i => f ← lift (expect (zget (cc_funcs ctx) i) "index out of bounds"); mret (VFuncRef (Some f))
  | CoGlobalGet g =>
      h ← lift (expect (zget (cc_globals ctx) g) "index out of bounds");
      e ← reads (λ v, store_global (cv_store v) h); mret (ge_value e)
  | CoI32Add => i32_bin Z.add
  | CoI32Sub => i32_bin Z.sub
  | CoI32Mul => i32_bin Z.mul
  | CoI64Add => i64_bin Z.add
  | CoI64Sub => i64_bin Z.sub
  | CoI64Mul => i64_bin Z.mul
  | CoRefI31 => x ← const_pop_i32; mret (anyref_value (anyref_handle_i31 x))
  | CoStructNew ty => const_struct ty false
  | CoStructNewDefault ty => const_struct ty true
  | CoArrayNew ty => const_array ty false
  | CoArrayNewDefault ty => const_array ty true
  | CoArrayNewFixed ty n => const_array_fixed ty n
  | CoArrayNewData ty data => const_array_data ty data
  | CoArrayNewElem ty elem => const_array_elem ty elem
  | CoAnyConvertExtern => x ← const_pop; in_store (any_convert_extern x)
  | CoExternConvertAny => x ← const_pop; in_store (extern_convert_any x)
  end.

Definition const_run (e : ConstExpr) : SM ConstVm () := for_each e (λ op, x ← const_op op; const_push x).

Definition eval_body (e : ConstExpr) : SM StoreInner Val := λ s,
  let '(r, v) := (_ ← const_run e; const_pop) {| cv_stack := []; cv_store := s |} in (r, cv_store v).
End reenter.

(** [eval_const] with [fuel] nested re-entries: only [array.new_elem] re-enters, once
    per level of segments naming segments. *)
Fixpoint eval_const (fuel : nat) (e : ConstExpr) : SM StoreInner Val :=
  match fuel with
  | O => panic "eval_const: out of fuel"
  | S n => eval_body (eval_const n) e
  end.
Definition eval_const_ref (fuel : nat) (e : ConstExpr) : SM StoreInner Ref :=
  v ← eval_const fuel e; lift (const_val_to_ref v).
Definition elem_refs (fuel : nat) (items : ElemItems) : SM StoreInner (list Ref) :=
  elem_refs_in (eval_const fuel) items.
End ctx.

(** ** What an evaluation may change: the managed arenas, by allocating in them *)

(** The free list of an arena names free slots, each once: its allocator never indexes out
    of range and never takes a live entry's slot, also once the table is full. *)
Definition free_slots {E} (a : ReclaimArena E) : Prop :=
  NoDup (ra_free a) ∧ ∀ i, i ∈ ra_free a → zget (ra_slots a) i = Some None.
(** Every entry of [a] is in [b], under the same index and generation. *)
Definition entries_kept {E} (a b : ReclaimArena E) : Prop :=
  (∀ i x, reclaim_get a i = Some x → reclaim_get b i = Some x) ∧
  ∀ i g, reclaim_generation a i = Some g → reclaim_generation b i = Some g.
#[export] Instance entries_kept_preorder {E} : PreOrder (@entries_kept E).
Proof. split; [done|]. intros a b c [H1 H2] [H3 H4]. split; auto. Qed.

(** Every object of a heap is in another, under the same slot and generation. *)
Definition objects_kept (h h' : GcHeap) : Prop :=
  (∀ i o, gc_get h i = Some o → gc_get h' i = Some o) ∧
  ∀ i g, gc_generation h i = Some g → gc_generation h' i = Some g.
#[export] Instance objects_kept_preorder : PreOrder objects_kept.
Proof. split; [done|]. intros a b c [H1 H2] [H3 H4]. split; auto. Qed.

Record alloc_only (s0 s : StoreInner) : Prop := {
  ao_rest : s = set_si_externrefs (si_externrefs s) (set_si_gc (si_gc s) s0);
  ao_heap : heap_wf (si_gc s);
  ao_free : free_slots (si_externrefs s);
  ao_externs : entries_kept (si_externrefs s0) (si_externrefs s);
  ao_objects : objects_kept (si_gc s0) (si_gc s);
}.

Lemma alloc_only_refl s : heap_wf (si_gc s) → free_slots (si_externrefs s) → alloc_only s s.
Proof. intros. constructor; try done. by destruct s. Qed.
Lemma alloc_only_trans s0 s1 s2 : alloc_only s0 s1 → alloc_only s1 s2 → alloc_only s0 s2.
Proof. intros [H1 _ _ He1 ?] [H2 ? ? He2 ?]. constructor; [|done..|by etrans|by etrans]. by rewrite H2, H1. Qed.

Lemma reclaim_alloc_kept {E} (e : E) a r a' :
  free_slots a → reclaim_alloc e a = (r, a') → free_slots a' ∧ entries_kept a a' ∧ ∃ i, r = Ok i.
Proof.
  intros [Hnd Hf]. unfold reclaim_alloc. destruct (vec_pop (ra_free a)) as [[free' i]|] eqn:Hp.
  - apply vec_pop_Some in Hp. rewrite Hp in Hnd, Hf. apply NoDup_app in Hnd as (Hnd & Hni & _).
    assert (zget (ra_slots a) i = Some None) as Hi by (apply Hf; set_solver). pose proof (zget_Some _ _ _ Hi).
    unfold zset. rewrite (proj2 (Z.leb_le _ _)), (proj2 (Z.ltb_lt _ _)) by lia. cbn [andb]. intros [= <- <-].
    split_and!; [split; [done|]| |eauto].
    + cbn. intros j Hj. rewrite zget_insert_ne; [apply Hf; set_solver|lia|]. intros <-. apply (Hni i); set_solver.
    + split; [|done]. intros j x. unfold reclaim_get. cbn. destruct (decide (j = i)) as [->|]; [by rewrite Hi|].
      by rewrite zget_insert_ne by lia.
  - intros [= <- <-]. split_and!; [split; [done|]| |eauto].
    + cbn. intros j Hj. specialize (Hf j Hj). pose proof (zget_Some _ _ _ Hf). by rewrite zget_app_l by lia.
    + unfold entries_kept, reclaim_get, reclaim_generation. cbn. split.
      * intros j x. destruct (zget (ra_slots a) j) as [y|] eqn:Hj; [|done]. cbn. intros ->.
        pose proof (zget_Some _ _ _ Hj). by rewrite zget_app_l, Hj by lia.
      * intros j g Hj. pose proof (zget_Some _ _ _ Hj). by rewrite zget_app_l by lia.
Qed.

Lemma alloc_only_gc s0 s h :
  alloc_only s0 s → heap_wf h → objects_kept (si_gc s) h → alloc_only s0 (set_si_gc h s).
Proof.
  intros [Hr _ Hf He Ho] Hh Hx. constructor; cbn; [|done|done|done|by etrans].
  transitivity (set_si_gc h (set_si_externrefs (si_externrefs s) (set_si_gc (si_gc s) s0))); [by f_equal|done].
Qed.
Lemma alloc_only_externs s0 s a :
  alloc_only s0 s → free_slots a → entries_kept (si_externrefs s) a → alloc_only s0 (set_si_externrefs a s).
Proof.
  intros [Hr Hh _ He Ho] Hf Ha. constructor; cbn; [|done|done|by etrans|done].
  transitivity (set_si_externrefs a (set_si_externrefs (si_externrefs s) (set_si_gc (si_gc s) s0))); [by f_equal|done].
Qed.

Lemma gc_alloc_only s0 s o r h :
  alloc_only s0 s → alloc_unreserved o (si_gc s) = (r, h) →
  alloc_only s0 (set_si_gc h s) ∧ no_panic r.
Proof.
  intros Hs. pose proof (ao_heap _ _ Hs) as Hh. unfold alloc_unreserved. destruct (can_fit_limit _ _).
  - destruct (gc_alloc_spec o (si_gc s) Hh) as [(-> & _)|(i & h' & -> & Hh' & _ & Hn & _ & Hne & Hgen & _)]; intros [= <- <-];
      (split; [|done]); apply alloc_only_gc; try done.
    split; [|done]. intros j x Hx. rewrite Hne; [done|]. intros ->. congruence.
  - intros [= <- <-]. split; [|done]. by apply alloc_only_gc.
Qed.

Lemma push_extern_only s0 s e r s' :
  alloc_only s0 s → push_extern e s = (r, s') → alloc_only s0 s' ∧ no_panic r.
Proof.
  intros Hs. unfold push_extern, zoom. destruct (can_fit_limit _ _).
  - destruct (reclaim_alloc e _) as [x a] eqn:Ha. intros [= <- <-].
    destruct (reclaim_alloc_kept _ _ _ _ (ao_free _ _ Hs) Ha) as (Hf' & Hk & i & ->). split; [|done].
    apply alloc_only_externs; [|done|done]. apply alloc_only_gc; [done| |done].
    destruct (ao_heap _ _ Hs) as [Hh Hn]. by constructor.
  - by intros [= <- <-].
Qed.

Definition is_bridge (v : Val) : Prop := match v with VAnyRef _ | VExternRef _ => True | _ => False end.

Lemma extern_convert_any_safe s0 s v :
  alloc_only s0 s → is_bridge v →
  safe (alloc_only s0) (extern_convert_any v) s (λ x _, match x with VExternRef _ => True | _ => False end).
Proof.
  intros Hs Hv. unfold extern_convert_any.
  assert (∀ h, safe (alloc_only s0) (idx ← push_extern h; mret (VExternRef (Some (rooted_from_raw idx RkExtern)))) s
    (λ x _, match x with VExternRef _ => True | _ => False end)) as Hfresh.
  { intros h. apply safe_bind. destruct (push_extern h s) as [r s'] eqn:Hp.
    destruct (push_extern_only _ _ _ _ _ Hs Hp) as [Hs' Hr]. exists r, s'. split_and!; [done..|].
    destruct r as [i|e|w]; [intros _; by apply safe_ret|done|by destruct (Hr w)]. }
  destruct v as [| | | | | |r|[r|]|]; try done.
  - by exists (Ok (VExternRef r)), s.
  - unfold safe. destruct (decode_anyref_handle _) as [x|i]; [apply Hfresh|].
    destruct (gc_get _ i) as [o|]; [|by eexists _, _].
    destruct (extern_index o); [by eexists _, _|apply Hfresh].
  - by exists (Ok (VExternRef None)), s.
Qed.

Lemma any_convert_extern_safe s0 s v :
  alloc_only s0 s → is_bridge v →
  safe (alloc_only s0) (any_convert_extern v) s (λ x _, match x with VAnyRef _ => True | _ => False end).
Proof.
  intros Hs Hv. unfold any_convert_extern. destruct v as [| | | | | |[r|]|r|]; try done.
  - unfold safe. destruct (reclaim_get _ _) as [[p|h]|]; [|by eexists _, _..].
    apply (safe_bind (alloc_only s0)). unfold with_gc.
    destruct (alloc_unreserved (extern_wrapper (r_index r)) (si_gc s)) as [x h] eqn:Ha.
    destruct (gc_alloc_only _ _ _ _ _ Hs Ha) as [Hs' Hr].
    exists x, (set_si_gc h s). unfold zoom. rewrite Ha. split_and!; [done..|].
    destruct x as [i|e|w]; [intros _; by apply safe_ret|done|by destruct (Hr w)].
  - by exists (Ok (VAnyRef None)), s.
  - by exists (Ok (VAnyRef r)), s.
Qed.

(** ** Types of constant expressions *)

(** What a value is to the const machine: its number type or its reference hierarchy. *)
Inductive VKind : Type := KI32 | KI64 | KF32 | KF64 | KV128 | KRef (k : RefKind).
#[export] Instance VKind_eq_dec : EqDecision VKind.
Proof. solve_decision. Defined.

Definition val_kind (v : Val) : VKind :=
  match v with
  | VI32 _ => KI32 | VI64 _ => KI64 | VF32 _ => KF32 | VF64 _ => KF64 | VV128 _ => KV128
  | VFuncRef _ => KRef RkFunc | VExternRef _ => KRef RkExtern | VAnyRef _ => KRef RkAny | VExnRef _ => KRef RkExn
  end.
Definition scalar_kind (k : ScalarKind) : VKind :=
  match k with
  | SkI8 | SkI16 | SkI32 => KI32 | SkI64 => KI64 | SkF32 => KF32 | SkF64 => KF64 | SkV128 => KV128
  end.
Definition slot_kind (s : Slot) : VKind :=
  match s with SlotScalar _ k => scalar_kind k | SlotRef _ k => KRef k end.
Definition val_type_kind (t : IrVal) : VKind := slot_kind (val_slot t 0).

Lemma accepts_kind s v : slot_accepts s v = true ↔ val_kind v = slot_kind s.
Proof. destruct s as [o []|o []], v; cbn; split; congruence. Qed.
Lemma default_slot_kind s : val_kind (default_for_slot s) = slot_kind s.
Proof. by destruct s as [o []|o []]. Qed.

(** The types of a context: the kinds of its globals, how many functions it has. *)
Record ConstTypes : Type := { ct_module : ModuleInner; ct_funcs : Z; ct_globals : list VKind }.

Section typing.
Context (t : ConstTypes).
Let m := ct_module t.

Definition in_space (i n : Z) : bool := (0 <=? i) && (i <? n).

(** The operands (the top first) and the result of an operator; [ok] checks a nested
    expression. *)
Definition items_typed (ok : ConstExpr → VKind → bool) (items : ElemItems) (k : VKind) : bool :=
  match items with
  | EiFuncs fs => bool_decide (k = KRef RkFunc) && forallb (λ i, in_space i (ct_funcs t)) fs
  | EiExprs es => match k with KRef _ => forallb (λ e, ok e k) es | _ => false end
  end.
Definition array_elem_kind (ty : Z) : option VKind :=
  _ ← zget (mi_type_ids m) ty;
  l ← module_layout m ty ≫= as_array; Some (slot_kind (al_elem l)).
Definition struct_kinds (ty : Z) : option (list VKind) :=
  _ ← zget (mi_type_ids m) ty;
  l ← module_layout m ty ≫= as_struct; Some (slot_kind <$> sl_fields l).

Definition const_sig (ok : ConstExpr → VKind → bool) (op : ConstOp) : option (list VKind * VKind) :=
  match op with
  | CoI32 _ => Some ([], KI32)
  | CoI64 _ => Some ([], KI64)
  | CoF32 _ => Some ([], KF32)
  | CoF64 _ => Some ([], KF64)
  | CoV128 _ => Some ([], KV128)
  | CoRefNull heap => Some ([], KRef (ref_kind heap))
  | CoRefFunc i => if in_space i (ct_funcs t) then Some ([], KRef RkFunc) else None
  | CoGlobalGet g => k ← zget (ct_globals t) g; Some ([], k)
  | CoI32Add | CoI32Sub | CoI32Mul => Some ([KI32; KI32], KI32)
  | CoI64Add | CoI64Sub | CoI64Mul => Some ([KI64; KI64], KI64)
  | CoRefI31 => Some ([KI32], KRef RkAny)
  | CoStructNew ty => ks ← struct_kinds ty; Some (reverse ks, KRef RkAny)
  | CoStructNewDefault ty => _ ← struct_kinds ty; Some ([], KRef RkAny)
  | CoArrayNew ty => k ← array_elem_kind ty; Some ([KI32; k], KRef RkAny)
  | CoArrayNewDefault ty => _ ← array_elem_kind ty; Some ([KI32], KRef RkAny)
  | CoArrayNewFixed ty n => k ← array_elem_kind ty; Some (replicate (Z.to_nat n) k, KRef RkAny)
  | CoArrayNewData ty data =>
      _ ← array_elem_kind ty; _ ← zget (mi_datas m) data; Some ([KI32; KI32], KRef RkAny)
  | CoArrayNewElem ty elem =>
      k ← array_elem_kind ty; seg ← zget (mi_elems m) elem;
      if items_typed ok (es_items seg) k then Some ([KI32; KI32], KRef RkAny) else None
  | CoAnyConvertExtern => Some ([KRef RkExtern], KRef RkAny)
  | CoExternConvertAny => Some ([KRef RkAny], KRef RkExtern)
  end.

Fixpoint strip (ks st : list VKind) : option (list VKind) :=
  match ks, st with
  | [], _ => Some st
  | k :: ks', k' :: st' => if decide (k = k') then strip ks' st' else None
  | _, [] => None
  end.
Definition op_stack (ok : ConstExpr → VKind → bool) (op : ConstOp) (st : list VKind) : option (list VKind) :=
  '(ks, k) ← const_sig ok op; rest ← strip ks st; Some (k :: rest).
Fixpoint ops_stack (ok : ConstExpr → VKind → bool) (e : ConstExpr) (st : list VKind) : option (list VKind) :=
  match e with
  | [] => Some st
  | op :: rest => op_stack ok op st ≫= ops_stack ok rest
  end.

(** [e] leaves exactly one value, of kind [k], with segments nested less than [n] deep. *)
Fixpoint const_typed (n : nat) (e : ConstExpr) (k : VKind) : bool :=
  match n with
  | O => false
  | S n' => bool_decide (ops_stack (const_typed n') e [] = Some [k])
  end.
End typing.

Lemma strip_app ks st rest : strip ks st = Some rest → st = ks ++ rest.
Proof.
  revert st. induction ks as [|k ks IH]; intros [|k' st]; cbn; try (by intros [= <-]).
  destruct (decide (k = k')) as [->|]; [|done]. by intros ->%IH.
Qed.

(** ** Writing checked operands *)
Definition slot_in (n : Z) (s : Slot) : Prop := 0 ≤ slot_offset s ∧ slot_offset s + slot_width s ≤ n.

Lemma write_slot_in s data v :
  slot_in (zlen data) s → val_kind v = slot_kind s →
  ∃ data', write_slot s data v = Ok data' ∧ zlen data' = zlen data.
Proof.
  intros [Ho Hw] Hk%accepts_kind. destruct (write_slot_splice s data v Hk Ho Hw) as [-> Hl].
  destruct (zsplice_is_Some data (slot_bytes s v) (slot_offset s)) as [d Hd]; [lia..|].
  rewrite Hd. exists d. split; [done|]. by eapply zlen_splice.
Qed.

Lemma tiles_in slots from to : 0 ≤ from → tiles slots from to → Forall (slot_in to) slots.
Proof.
  intros Hf Ht. apply Forall_forall. intros s [i Hi]%list_elem_of_lookup.
  destruct (tiles_bounds slots from to (Z.of_nat i) s Ht) as [? ?]; [|unfold slot_in; lia].
  unfold zget. by rewrite (proj2 (Z.leb_le _ _)), Nat2Z.id by lia.
Qed.

Lemma elem_slot_in e i n : 0 ≤ i < n → slot_in (n * slot_width e) (elem_at (array_layout_of e) i).
Proof.
  intros Hi. pose proof (slot_width_pos e). unfold slot_in, elem_at. cbn.
  rewrite offset_with_offset, width_with_offset. nia.
Qed.
Lemma elem_slot_kind e i : slot_kind (elem_at (array_layout_of e) i) = slot_kind e.
Proof. by destruct e. Qed.
Lemma elem_slots_in e n : Forall (slot_in (Z.of_nat n * slot_width e)) (elem_slots (array_layout_of e) n).
Proof. apply Forall_fmap, Forall_forall. intros i Hi%elem_of_seqZ. apply elem_slot_in. lia. Qed.
Lemma elem_slots_kinds e n : slot_kind <$> elem_slots (array_layout_of e) n = replicate n (slot_kind e).
Proof.
  unfold elem_slots. rewrite <- list_fmap_compose, (const_fmap _ _ (slot_kind e)).
  - by rewrite length_seqZ, Nat2Z.id.
  - intros i x _. apply elem_slot_kind.
Qed.

Lemma write_defaults_safe slots : ∀ data,
  Forall (slot_in (zlen data)) slots → no_panic (write_defaults slots data).
Proof.
  induction slots as [|s slots IH]; intros data Hs; [done|]. apply Forall_cons in Hs as [Hs Hr]. cbn.
  destruct (write_slot_in s data (default_for_slot s)) as (d & -> & Hd); [done|apply default_slot_kind|].
  apply IH. by rewrite Hd.
Qed.
Lemma write_run_safe e x count : ∀ i n data, val_kind x = slot_kind e →
  0 ≤ i → i + Z.of_nat count ≤ n → zlen data = n * slot_width e →
  no_panic (write_run (array_layout_of e) i count x data).
Proof.
  induction count as [|c IH]; intros i n data Hx Hi Hn Hl; [done|]. cbn [write_run].
  destruct (write_slot_in (elem_at (array_layout_of e) i) data x) as (d & -> & Hd).
  { rewrite Hl. apply elem_slot_in. lia. }
  { by rewrite elem_slot_kind. }
  apply (IH (i + 1) n d); [done|lia..].
Qed.
Lemma write_refs_safe e refs : ∀ i n data, Forall (λ r, val_kind (val_from_ref r) = slot_kind e) refs →
  0 ≤ i → i + zlen refs ≤ n → zlen data = n * slot_width e →
  no_panic (write_refs (array_layout_of e) i refs data).
Proof.
  induction refs as [|r refs IH]; intros i n data Hr Hi Hn Hl; [done|]. cbn [write_refs].
  apply Forall_cons in Hr as [Hr Hrs]. rewrite zlen_cons in Hn. pose proof (zlen_nonneg refs).
  destruct (write_slot_in (elem_at (array_layout_of e) i) data (val_from_ref r)) as (d & -> & Hd).
  { rewrite Hl. apply elem_slot_in. lia. }
  { by rewrite elem_slot_kind. }
  apply (IH (i + 1) n d); [done|lia..].
Qed.

(** ** Checked expressions are safe *)
Definition layout_ok (l : Layout) : Prop :=
  match l with
  | LStruct s => tiles (sl_fields s) 0 (sl_size s)
  | LArray a => ∃ e, a = array_layout_of e
  end.
Definition layouts_ok (m : ModuleInner) : Prop := ∀ ty l, module_layout m ty = Some l → layout_ok l.

(** The layouts of an interned module are those of its types. *)
Lemma interned_layouts_ok ids m : layouts_ok (set_interned ids m).
Proof.
  intros ty l. unfold module_layout. cbn. rewrite zget_fmap. destruct (zget _ ty) as [mt|]; [|done].
  cbn. destruct (mt_body mt) as [| |f]; cbn; intros [= <-].
  - apply struct_layout_tiles.
  - by exists (field_slot f 0).
Qed.

(** The context provides what its types say. *)
Record const_wf (t : ConstTypes) (ctx : ConstCtx) (s : StoreInner) : Prop := {
  cw_module : cc_module ctx = ct_module t;
  cw_layouts : layouts_ok (ct_module t);
  cw_funcs : zlen (cc_funcs ctx) = ct_funcs t;
  cw_globals : Forall2 (λ h k, ∃ e, store_global s h = Ok e ∧ val_kind (ge_value e) = k)
                 (cc_globals ctx) (ct_globals t);
}.

Section sound.
Context (t : ConstTypes) (ctx : ConstCtx) (s0 : StoreInner) (Hwf : const_wf t ctx s0).
Let m := ct_module t.
Let I (v : ConstVm) : Prop := alloc_only s0 (cv_store v).
Let stk (v : ConstVm) : list VKind := val_kind <$> cv_stack v.

Lemma const_pop_safe v k rest : I v → stk v = k :: rest →
  safe I const_pop v (λ x v', val_kind x = k ∧ stk v' = rest).
Proof using.
  intros Hv. unfold stk, const_pop, safe. destruct (cv_stack v) as [|x l]; [done|]. cbn. intros [= <- <-].
  by eexists _, _.
Qed.
Lemma const_pop_i32_safe v rest : I v → stk v = KI32 :: rest →
  safe I const_pop_i32 v (λ _ v', stk v' = rest).
Proof using.
  intros Hv Hs. apply safe_bind. eapply safe_mono; [by apply const_pop_safe|]. cbn.
  intros x v' Hv' [Hx Hr] _. destruct x; try done. by apply safe_lift_Ok.
Qed.
Lemma const_pop_i64_safe v rest : I v → stk v = KI64 :: rest →
  safe I const_pop_i64 v (λ _ v', stk v' = rest).
Proof using.
  intros Hv Hs. apply safe_bind. eapply safe_mono; [by apply const_pop_safe|]. cbn.
  intros x v' Hv' [Hx Hr] _. destruct x; try done. by apply safe_lift_Ok.
Qed.
Lemma const_pop_len_safe v rest : I v → stk v = KI32 :: rest →
  safe I const_pop_len v (λ n v', 0 ≤ n < 2 ^ 32 ∧ stk v' = rest).
Proof using.
  intros Hv Hs. apply safe_bind. eapply safe_mono; [by apply const_pop_i32_safe|]. cbn.
  intros x v' Hv' Hr _. apply safe_ret; [done|]. split; [by apply (wrap_ok 32)|done].
Qed.

Lemma in_store_safe {A} (mm : SM StoreInner A) v (Q : A → Prop) :
  safe (alloc_only s0) mm (cv_store v) (λ a _, Q a) →
  safe I (in_store mm) v (λ a v', Q a ∧ stk v' = stk v).
Proof using.
  intros H. eapply safe_zoom; [|by intros t' Ht'].
  eapply safe_mono; [exact H|]. cbn. auto.
Qed.
Lemma const_alloc_safe o v : I v →
  safe I (const_alloc o) v (λ x v', val_kind x = KRef RkAny ∧ stk v' = stk v).
Proof using.
  intros Hv. apply safe_bind. eapply safe_mono.
  - apply (in_store_safe _ v (λ _, True)). unfold with_gc.
    destruct (alloc_unreserved o (si_gc (cv_store v))) as [r h] eqn:Ha.
    destruct (gc_alloc_only _ _ _ _ _ Hv Ha) as [Hs Hr].
    exists r, (set_si_gc h (cv_store v)). unfold zoom. rewrite Ha. split_and!; [done..|].
    destruct r; [done..|by destruct (Hr why)].
  - cbn. intros x v' Hv' [_ Hs] _. by apply safe_ret.
Qed.
Lemma gc_check_capacity_safe n v : I v → safe I (gc_check_capacity n) v (λ _ v', v' = v).
Proof using. intros Hv. apply safe_reads; [done| |done]. unfold check_capacity. by destruct (can_fit_limit _ _). Qed.

Lemma const_pop_slots_safe slots : ∀ data v rest, I v →
  Forall (slot_in (zlen data)) slots → stk v = (slot_kind <$> slots) ++ rest →
  safe I (const_pop_slots slots data) v (λ _ v', stk v' = rest).
Proof using.
  induction slots as [|s slots IH]; intros data v rest Hv Hs Hk; [by apply safe_ret|].
  apply Forall_cons in Hs as [Hs Hr]. cbn [const_pop_slots fmap list_fmap app] in *.
  apply safe_bind. eapply safe_mono; [by apply const_pop_safe|]. cbn. intros x v' Hv' [Hx Hk'] _.
  destruct (write_slot_in s data x) as (d & -> & Hd); [done..|].
  apply safe_bind, safe_lift_Ok; [done|]. intros _. apply IH; [done|by rewrite Hd|done].
Qed.

Lemma array_elem_kind_inv ty k : array_elem_kind t ty = Some k →
  ∃ id e, canonical_type_id (cc_module ctx) ty = Ok id ∧
    array_layout (cc_module ctx) ty = Ok (array_layout_of e) ∧ slot_kind e = k.
Proof using Hwf.
  unfold array_elem_kind, canonical_type_id, array_layout. rewrite (cw_module _ _ _ Hwf).
  destruct (zget (mi_type_ids _) ty) as [id|]; [|done]. cbn.
  destruct (module_layout _ ty) as [[l|l]|] eqn:Hl; try done. cbn. intros [= <-].
  destruct (cw_layouts _ _ _ Hwf _ _ Hl) as [e ->]. by exists id, e.
Qed.
Lemma struct_kinds_inv ty ks : struct_kinds t ty = Some ks →
  ∃ id l, canonical_type_id (cc_module ctx) ty = Ok id ∧ struct_layout (cc_module ctx) ty = Ok l ∧
    Forall (slot_in (zlen (zeroed (sl_size l)))) (sl_fields l) ∧ slot_kind <$> sl_fields l = ks.
Proof using Hwf.
  unfold struct_kinds, canonical_type_id, struct_layout. rewrite (cw_module _ _ _ Hwf).
  destruct (zget (mi_type_ids _) ty) as [id|]; [|done]. cbn.
  destruct (module_layout _ ty) as [[l|l]|] eqn:Hl; try done. cbn. intros [= <-].
  pose proof (cw_layouts _ _ _ Hwf _ _ Hl) as Ht. cbn in Ht. exists id, l. split_and!; try done.
  assert (zlen (zeroed (sl_size l)) = sl_size l) as ->.
  { pose proof (tiles_le _ _ _ Ht). unfold zeroed. rewrite zlen_replicate. lia. }
  by eapply tiles_in.
Qed.

(** What an operator that consumes [ks] and pushes a [k] does. *)
Definition pushes (mm : SM ConstVm Val) (ks : list VKind) (k : VKind) : Prop :=
  ∀ v rest, I v → stk v = ks ++ rest → safe I mm v (λ x v', val_kind x = k ∧ stk v' = rest).

Ltac known := apply safe_bind, safe_lift_Ok; [done|]; intros _.
Ltac step_safe H := apply safe_bind; eapply safe_mono; [by apply H|]; cbn beta.

Lemma const_alloc_at o v rest : I v → stk v = rest →
  safe I (const_alloc o) v (λ x v', val_kind x = KRef RkAny ∧ stk v' = rest).
Proof using. intros Hv <-. by apply const_alloc_safe. Qed.

Lemma const_struct_pushes ty ks : struct_kinds t ty = Some ks →
  pushes (const_struct ctx ty false) (reverse ks) (KRef RkAny) ∧ pushes (const_struct ctx ty true) [] (KRef RkAny).
Proof using Hwf.
  intros (id & l & Hid & Hl & Hin & <-)%struct_kinds_inv.
  split; intros v rest Hv Hs; unfold const_struct; rewrite Hid, Hl; known; known.
  - apply safe_bind. eapply safe_mono.
    { apply (const_pop_slots_safe _ _ _ rest); [done|by apply Forall_reverse|by rewrite fmap_reverse]. }
    cbn beta. intros d v' Hv' Hr _. by apply const_alloc_at.
  - apply safe_bind, safe_lift; [done|by apply write_defaults_safe|].
    intros d _ _. by apply const_alloc_at.
Qed.

Lemma elem_bytes_at n e w : elem_bytes n (slot_width e) = Ok w → w = n * slot_width e.
Proof using. unfold elem_bytes, checked_mul. destruct (_ <? _); by intros [= <-]. Qed.
Lemma elem_bytes_no_panic n w : no_panic (elem_bytes n w).
Proof using. unfold elem_bytes. by destruct (checked_mul _ _ _). Qed.
Lemma zlen_zeroed_elems n e : 0 ≤ n → zlen (zeroed (n * slot_width e)) = n * slot_width e.
Proof using. intros. pose proof (slot_width_pos e). unfold zeroed. rewrite zlen_replicate. nia. Qed.

Lemma const_array_pushes ty k : array_elem_kind t ty = Some k →
  pushes (const_array ctx ty false) [KI32; k] (KRef RkAny) ∧ pushes (const_array ctx ty true) [KI32] (KRef RkAny).
Proof using Hwf.
  intros (id & e & Hid & Hl & <-)%array_elem_kind_inv.
  split; intros v rest Hv Hs; unfold const_array; rewrite Hid, Hl; known; known;
    step_safe const_pop_len_safe; intros n v1 Hv1 [Hn Hs1] _;
    (apply safe_bind, safe_lift; [done|apply elem_bytes_no_panic|]); intros w ->%elem_bytes_at Hv1';
    step_safe gc_check_capacity_safe; intros [] v2 Hv2 -> _.
  - step_safe const_pop_safe. intros x v3 Hv3 [Hx Hs3] _.
    apply safe_bind, safe_lift; [done| |intros d _ _; by apply const_alloc_at].
    apply (write_run_safe e x _ 0 n); [done|lia|lia|apply zlen_zeroed_elems; lia].
  - apply safe_bind, safe_ret; [done|]. intros _. 
    apply safe_bind, safe_lift; [done| |intros d _ _; by apply const_alloc_at].
    apply (write_run_safe e _ _ 0 n); [|lia|lia|apply zlen_zeroed_elems; lia].
    by rewrite default_slot_kind, elem_slot_kind.
Qed.

Lemma const_array_fixed_pushes ty n k : array_elem_kind t ty = Some k →
  pushes (const_array_fixed ctx ty n) (replicate (Z.to_nat n) k) (KRef RkAny).
Proof using Hwf.
  intros (id & e & Hid & Hl & <-)%array_elem_kind_inv v rest Hv Hs.
  unfold const_array_fixed. rewrite Hid, Hl. known. known.
  apply safe_bind. eapply safe_mono.
  { apply (const_pop_slots_safe _ _ _ rest); [done| |].
    - apply Forall_reverse. destruct (decide (0 ≤ n)).
      + unfold body_size. cbn [al_stride array_layout_of]. rewrite zlen_zeroed_elems by done.
        pose proof (elem_slots_in e (Z.to_nat n)) as H. by rewrite Z2Nat.id in H by done.
      + by replace (Z.to_nat n) with O by lia.
    - rewrite fmap_reverse, elem_slots_kinds, reverse_replicate. done. }
  cbn beta. intros d v' Hv' Hr _. by apply const_alloc_at.
Qed.

Lemma range_Ok a n total trap x : range a n total trap = Ok x → a + n ≤ total.
Proof using.
  unfold range. destruct (checked_add _ _ _) as [e|] eqn:He; [|done]. destruct (Z.leb_spec e total); [|done].
  unfold checked_add in He. destruct (_ <? _); [|done]. injection He as <-. done.
Qed.
Lemma range_no_panic a n total trap : no_panic (range a n total trap).
Proof using. unfold range. destruct (checked_add _ _ _) as [e|]; [|done]. by destruct (_ <=? _). Qed.

Lemma const_array_data_pushes ty data k seg : array_elem_kind t ty = Some k →
  zget (mi_datas (ct_module t)) data = Some seg →
  pushes (const_array_data ctx ty data) [KI32; KI32] (KRef RkAny).
Proof using Hwf.
  intros (id & e & Hid & Hl & _)%array_elem_kind_inv Hseg v rest Hv Hs.
  unfold const_array_data. rewrite Hid, Hl. known. known.
  step_safe const_pop_len_safe. intros n v1 Hv1 [Hn Hs1] _.
  step_safe const_pop_len_safe. intros o v2 Hv2 [Ho Hs2] _.
  apply safe_bind, safe_lift; [done|apply elem_bytes_no_panic|]. intros w ->%elem_bytes_at _.
  rewrite (cw_module _ _ _ Hwf), Hseg. known.
  apply safe_bind, safe_lift; [done|apply range_no_panic|]. intros [] Hrange%range_Ok _.
  step_safe gc_check_capacity_safe. intros [] v3 Hv3 -> _.
  pose proof (slot_width_pos e). rewrite zslice_is_Some by nia. known. by apply const_alloc_at.
Qed.

Section nested.
Context (ok : ConstExpr → VKind → bool) (eval : ConstExpr → SM StoreInner Val).
Context (Heval : ∀ e k s, ok e k = true → alloc_only s0 s →
  safe (alloc_only s0) (eval e) s (λ x _, val_kind x = k)).

Lemma elem_funcs_safe fs : forallb (λ i, in_space i (ct_funcs t)) fs = true →
  ∃ refs, elem_funcs ctx fs = Ok refs ∧ Forall (λ r, val_kind (val_from_ref r) = KRef RkFunc) refs.
Proof using Hwf.
  induction fs as [|i fs IH]; cbn; [by exists []|]. rewrite andb_true_iff. intros [[H1 H2]%andb_true_iff Hr].
  destruct (zget_is_Some (cc_funcs ctx) i) as [f ->].
  { rewrite (cw_funcs _ _ _ Hwf). apply Z.leb_le in H1. apply Z.ltb_lt in H2. lia. }
  destruct (IH Hr) as (refs & -> & ?). cbn. eexists; split; [done|]. by constructor.
Qed.
Lemma elem_exprs_safe es j s : forallb (λ e, ok e (KRef j)) es = true → alloc_only s0 s →
  safe (alloc_only s0) (elem_exprs eval es) s (λ refs _, Forall (λ r, val_kind (val_from_ref r) = KRef j) refs).
Proof using Heval.
  revert s. induction es as [|e es IH]; intros s; cbn [elem_exprs forallb]; [intros; by apply safe_ret|].
  rewrite andb_true_iff. intros [He Hes] Hs.
  step_safe Heval. intros x s1 Hs1 Hx _.
  assert (∃ r, const_val_to_ref x = Ok r ∧ val_kind (val_from_ref r) = KRef j) as (r & -> & Hr).
  { destruct x; try done; by eexists. }
  known. step_safe IH. intros refs s2 Hs2 Hrefs _. apply safe_ret; [done|]. by constructor.
Qed.
Lemma elem_refs_safe items k s : items_typed t ok items k = true → alloc_only s0 s →
  safe (alloc_only s0) (elem_refs_in ctx eval items) s (λ refs _, Forall (λ r, val_kind (val_from_ref r) = k) refs).
Proof using Hwf Heval.
  destruct items as [fs|es]; cbn.
  - rewrite andb_true_iff. intros [->%bool_decide_eq_true Hf] Hs.
    destruct (elem_funcs_safe fs Hf) as (refs & -> & Hr). by apply safe_lift_Ok.
  - destruct k as [| | | | |j]; try done. apply elem_exprs_safe.
Qed.

Lemma const_array_elem_pushes ty elem k seg : array_elem_kind t ty = Some k →
  zget (mi_elems (ct_module t)) elem = Some seg → items_typed t ok (es_items seg) k = true →
  pushes (const_array_elem ctx eval ty elem) [KI32; KI32] (KRef RkAny).
Proof using Hwf Heval.
  intros (id & e & Hid & Hl & <-)%array_elem_kind_inv Hseg Hitems v rest Hv Hs.
  unfold const_array_elem. rewrite Hid, Hl. known. known.
  step_safe const_pop_len_safe. intros n v1 Hv1 [Hn Hs1] _.
  step_safe const_pop_len_safe. intros o v2 Hv2 [Ho Hs2] _.
  rewrite (cw_module _ _ _ Hwf), Hseg. known.
  apply safe_bind. eapply safe_mono; [by apply in_store_safe, elem_refs_safe|]. cbn beta.
  intros refs v3 Hv3 [Hrefs Hs3] _. rewrite Hs2 in Hs3.
  apply safe_bind, safe_lift; [done|apply range_no_panic|]. intros [] Hrange%range_Ok _.
  apply safe_bind, safe_lift; [done|apply elem_bytes_no_panic|]. intros w ->%elem_bytes_at _.
  step_safe gc_check_capacity_safe. intros [] v4 Hv4 -> _.
  rewrite zslice_is_Some by lia. known.
  apply safe_bind, safe_lift; [done| |intros d _ _; by apply const_alloc_at].
  replace (o + n - o) with n by lia.
  apply (write_refs_safe e _ 0 n); [|lia|rewrite zlen_take; rewrite ?zlen_drop; lia|apply zlen_zeroed_elems; lia].
  by apply Forall_take, Forall_drop.
Qed.

Lemma store_global_only s h : alloc_only s0 s → store_global s h = store_global s0 h.
Proof using. by intros [-> _ _ _]. Qed.

Lemma i32_bin_pushes f : pushes (i32_bin f) [KI32; KI32] KI32.
Proof using.
  intros v rest Hv Hs. unfold i32_bin. step_safe const_pop_i32_safe. intros b v1 Hv1 Hs1 _.
  step_safe const_pop_i32_safe. intros a v2 Hv2 Hs2 _. by apply safe_ret.
Qed.
Lemma i64_bin_pushes f : pushes (i64_bin f) [KI64; KI64] KI64.
Proof using.
  intros v rest Hv Hs. unfold i64_bin. step_safe const_pop_i64_safe. intros b v1 Hv1 Hs1 _.
  step_safe const_pop_i64_safe. intros a v2 Hv2 Hs2 _. by apply safe_ret.
Qed.
Lemma bridge_pushes (f : Val → SM StoreInner Val) k k' :
  (∀ s x, val_kind x = KRef k → alloc_only s0 s → safe (alloc_only s0) (f x) s (λ y _, val_kind y = KRef k')) →
  pushes (x ← const_pop; in_store (f x)) [KRef k] (KRef k').
Proof using.
  intros Hf v rest Hv Hs. step_safe const_pop_safe. intros x v1 Hv1 [Hx Hs1] _.
  eapply safe_mono; [by apply in_store_safe, Hf|]. cbn beta. intros y v2 _ [? ->]. done.
Qed.

Lemma const_op_pushes op ks k : const_sig t ok op = Some (ks, k) → pushes (const_op ctx eval op) ks k.
Proof using Hwf Heval.
  assert (∀ x, val_kind x = k → ks = [] → pushes (mret x) ks k) as Hret.
  { intros x Hx -> v rest Hv Hs. by apply safe_ret. }
  destruct op; cbn [const_sig const_op]; try (intros [= <- <-]; by apply Hret).
  - intros [= <- <-]. apply Hret; [by destruct heap as [| | | | | | | | | | | |? []]|done].
  - destruct (in_space i _) eqn:Hi; [|done]. intros [= <- <-] v rest Hv Hs.
    apply andb_true_iff in Hi as [H1%Z.leb_le H2%Z.ltb_lt].
    destruct (zget_is_Some (cc_funcs ctx) i) as [f ->]; [rewrite (cw_funcs _ _ _ Hwf); lia|].
    known. by apply safe_ret.
  - destruct (zget (ct_globals t) i) as [k'|] eqn:Hi; [|done]. intros [= <- <-] v rest Hv Hs.
    destruct (forall2_zget _ _ _ _ _ (cw_globals _ _ _ Hwf) Hi) as (h & -> & e & He & Hk).
    known. apply safe_bind, safe_reads; rewrite ?(store_global_only (cv_store v) h Hv), ?He; [done..|].
    intros e' [= <-] _. by apply safe_ret.
  - intros [= <- <-]. apply i32_bin_pushes.
  - intros [= <- <-]. apply i32_bin_pushes.
  - intros [= <- <-]. apply i32_bin_pushes.
  - intros [= <- <-]. apply i64_bin_pushes.
  - intros [= <- <-]. apply i64_bin_pushes.
  - intros [= <- <-]. apply i64_bin_pushes.
  - intros [= <- <-] v rest Hv Hs. step_safe const_pop_i32_safe. intros x v1 Hv1 Hs1 _. by apply safe_ret.
  - destruct (struct_kinds t ty) as [l|] eqn:Hl; [|done]. intros [= <- <-]. by apply const_struct_pushes.
  - destruct (struct_kinds t ty) as [l|] eqn:Hl; [|done]. intros [= <- <-]. by eapply const_struct_pushes.
  - destruct (array_elem_kind t ty) as [l|] eqn:Hl; [|done]. intros [= <- <-]. by apply const_array_pushes.
  - destruct (array_elem_kind t ty) as [l|] eqn:Hl; [|done]. intros [= <- <-]. by eapply const_array_pushes.
  - destruct (array_elem_kind t ty) as [l|] eqn:Hl; [|done]. intros [= <- <-]. by apply const_array_fixed_pushes.
  - destruct (array_elem_kind t ty) as [l|] eqn:Hl; [|done]. cbn. destruct (zget (mi_datas _) data) as [seg|] eqn:Hd; [|done].
    intros [= <- <-]. by eapply const_array_data_pushes.
  - destruct (array_elem_kind t ty) as [l|] eqn:Hl; [|done]. cbn. destruct (zget (mi_elems _) elem) as [seg|] eqn:Hd; [|done].
    cbn. destruct (items_typed t ok (es_items seg) l) eqn:Hi; [|done]. intros [= <- <-]. by eapply const_array_elem_pushes.
  - intros [= <- <-]. apply bridge_pushes. intros s x Hx Hs. eapply safe_mono; [apply any_convert_extern_safe; [done|by destruct x]|].
    cbn. by intros [].
  - intros [= <- <-]. apply bridge_pushes. intros s x Hx Hs. eapply safe_mono; [apply extern_convert_any_safe; [done|by destruct x]|].
    cbn. by intros [].
Qed.

Lemma op_step_safe op v st : op_stack t ok op (stk v) = Some st → I v →
  safe I (x ← const_op ctx eval op; const_push x) v (λ _ v', stk v' = st).
Proof using Hwf Heval.
  unfold op_stack. destruct (const_sig t ok op) as [[ks k]|] eqn:Hsig; [|done]. cbn.
  destruct (strip ks (stk v)) as [rest|] eqn:Hst; [|done]. cbn. intros [= <-] Hv. apply strip_app in Hst.
  apply safe_bind. eapply safe_mono; [by eapply (const_op_pushes op ks k Hsig)|]. cbn beta.
  intros x v' Hv' [Hx Hr] _. eexists _, _. split; [done|]. split; [done|]. unfold stk in *. cbn. congruence.
Qed.
Lemma const_run_safe e v st : ops_stack t ok e (stk v) = Some st → I v →
  safe I (const_run ctx eval e) v (λ _ v', stk v' = st).
Proof using Hwf Heval.
  intros He Hv. eapply safe_mono.
  - apply (safe_for_each I e _ (λ l v', ops_stack t ok l (stk v') = Some st)); [done..|].
    intros op rest v' Hv'. cbn. destruct (op_stack t ok op (stk v')) as [st'|] eqn:Hop; [|done]. cbn. intros Hrest.
    eapply safe_mono; [by apply op_step_safe|]. by intros _ v2 _ ->.
  - cbn. by intros _ v' _ [= ->].
Qed.
Lemma eval_body_safe e k s : ops_stack t ok e [] = Some [k] → alloc_only s0 s →
  safe (alloc_only s0) (eval_body ctx eval e) s (λ x _, val_kind x = k).
Proof using Hwf Heval.
  intros He Hs.
  assert (safe I (_ ← const_run ctx eval e; const_pop) {| cv_stack := []; cv_store := s |} (λ x _, val_kind x = k))
    as (r & v' & Hrun & Hv' & Hr).
  { apply safe_bind. eapply safe_mono; [by apply const_run_safe|]. cbn beta. intros _ v' Hv' Hst _.
    eapply safe_mono; [by apply const_pop_safe|]. by intros x v2 _ [? _]. }
  exists r, (cv_store v'). unfold eval_body. by rewrite Hrun.
Qed.
End nested.

Lemma eval_const_safe n : ∀ fuel e k s, const_typed t n e k = true → (n ≤ fuel)%nat → alloc_only s0 s →
  safe (alloc_only s0) (eval_const ctx fuel e) s (λ x _, val_kind x = k).
Proof using Hwf.
  induction n as [|n IH]; intros [|fuel] e k s He Hn Hs; try done; [lia|].
  cbn in He. apply bool_decide_eq_true in He. cbn [eval_const].
  eapply (eval_body_safe (const_typed t n) (eval_const ctx fuel)); [|done..].
  intros e' k' s' He' Hs'. apply IH; [done|lia|done].
Qed.
End sound.

(** C11: a constant expression that checks against its type never panics and never runs
    out of fuel once the fuel covers its nesting: it ends in a value of the expression's
    kind (its number type, or its reference hierarchy) or in an error (a trap or a damaged
    heap), whatever the heap's ceiling; and evaluating it touches nothing of the
    store but the heap and the externref arena, where it only allocates: every live
    object and every live entry stays as it was, under its handle. *)
Theorem const_expr_sound t ctx s n fuel e k :
  const_wf t ctx s → heap_wf (si_gc s) → free_slots (si_externrefs s) →
  const_typed t n e k = true → (n ≤ fuel)%nat →
  ∃ r s', eval_const ctx fuel e s = (r, s') ∧ no_panic r ∧ (∀ x, r = Ok x → val_kind x = k) ∧
    s' = set_si_externrefs (si_externrefs s') (set_si_gc (si_gc s') s) ∧
    entries_kept (si_externrefs s) (si_externrefs s') ∧
    objects_kept (si_gc s) (si_gc s').
Proof.
  intros Hwf Hh Hf He Hn.
  destruct (eval_const_safe t ctx s Hwf n fuel e k s) as (r & s' & Hr & [H1 _ _ H3 H2] & Hk); [done..|by apply alloc_only_refl|].
  exists r, s'. split_and!; [done| |..].
  - intros w ->. done.
  - intros x ->. done.
  - done.
  - done.
  - done.
Qed.

(** A module with a struct [(i32, ref any)], an array of function references filled from
    a segment that names both functions, and a global read by the expression. *)
Definition const_module : ModuleInner := set_interned [7; 9]
  {| mi_types := [ {| mt_finality := Final; mt_supertype := None; mt_group := 0;
                      mt_body := CompStruct [ {| f_mutable := true; f_storage := IrSVal IrI32 |};
                                              {| f_mutable := true; f_storage := IrSVal (IrRefTy true IrAny) |} ] |};
                   {| mt_finality := Final; mt_supertype := None; mt_group := 1;
                      mt_body := CompArray {| f_mutable := true; f_storage := IrSVal (IrRefTy true IrFunc) |} |} ];
     mi_func_types := []; mi_num_imported_funcs := 0; mi_functions := []; mi_code := empty_arenas;
     mi_imports := []; mi_exports := []; mi_memories := []; mi_tables := []; mi_globals := []; mi_tags := [];
     mi_num_imported_tags := 0; mi_datas := [];
     mi_elems := [ {| es_mode := EmPassive; es_items := EiExprs [[CoRefFunc 1]; [CoRefNull IrFunc]; [CoRefFunc 0]] |} ];
     mi_start := None; mi_type_ids := []; mi_layouts := [] |}.
Definition const_store : StoreInner :=
  set_si_globals [ {| ge_value := VI32 40; ge_ty := {| gt_content := TI32; gt_mutable := false |} |} ] (store_new 1 true 0).
Definition const_types : ConstTypes := {| ct_module := const_module; ct_funcs := 2; ct_globals := [KI32] |}.
Definition const_ctx : ConstCtx :=
  {| cc_module := const_module; cc_funcs := [ {| fn_index := 5; fn_store := 1 |}; {| fn_index := 6; fn_store := 1 |} ];
     cc_globals := [ {| h_index := 0; h_store := 1 |} ] |}.
Definition const_demo : ConstExpr :=
  [CoGlobalGet 0; CoI32 2; CoI32Add; CoI32 1; CoI32 2; CoArrayNewElem 1 0; CoStructNew 0].

(** The struct holds 42 and the array of the segment's last two references. *)
Example const_demo_runs :
  let '(r, s) := eval_const const_ctx 2 const_demo const_store in
  r = Ok (anyref_value 1) ∧
  gc_get (si_gc s) 0 = Some (new_array 9 [255; 255; 255; 127; 5; 0; 0; 0]) ∧
  gc_get (si_gc s) 1 = Some (new_struct 7 [42; 0; 0; 0; 0; 0; 0; 0]).
Proof. vm_compute. by split_and!. Qed.
(** One level of fuel is not enough for a segment. *)
Example const_demo_fuel :
  (eval_const const_ctx 1 const_demo const_store).1 = Panic "eval_const: out of fuel".
Proof. by vm_compute. Qed.

Lemma const_demo_wf : const_wf const_types const_ctx const_store.
Proof.
  constructor; [done|apply interned_layouts_ok|done|].
  constructor; [|done]. by eexists.
Qed.

Lemma const_expr_sound_witness :
  const_typed const_types 2 const_demo (KRef RkAny) = true ∧
  ∃ r s', eval_const const_ctx 2 const_demo const_store = (r, s') ∧ no_panic r ∧
    (∀ x, r = Ok x → val_kind x = KRef RkAny) ∧
    s' = set_si_externrefs (si_externrefs s') (set_si_gc (si_gc s') const_store) ∧
    entries_kept (si_externrefs const_store) (si_externrefs s') ∧
    objects_kept (si_gc const_store) (si_gc s').
Proof.
  split; [reflexivity|].
  apply (const_expr_sound const_types const_ctx const_store 2 2 const_demo (KRef RkAny) const_demo_wf);
    [exact (mw_gc _ (managed_wf_new 1 true 0))| |reflexivity|lia].
  split; [constructor|by intros i ?%not_elem_of_nil].
Defined.
