(* ===== verification/Instantiate.v ===== *)
(** * Instantiate: linking and initializing a module (src/src/instance/init.rs)

    [instantiate] checks the imports, allocates what the module defines, evaluates the
    initializers and segments, and applies the active ones.  A validated module
    never makes it panic, whatever the imports hold; it disturbs nothing that was
    in the store but the contents of imported memories and tables; and the instance
    it returns has exactly the index spaces the module declares. *)
From S2P Require Import Prelude Keep Types Layout Codec Arena Heap Op Entity Store.
From S2P Require Import Memory GcOps ConstEval.
Open Scope Z_scope.

(** ** Materialized table and global types (src/src/canon/mod.rs) *)
Definition materialize_ref (type_ids : list Z) (r : IrRef) : res RefType :=
  h ← materialize_heap type_ids (ir_heap r); Ok {| rt_nullable := ir_nullable r; rt_heap := h |}.
Definition table_type_new (element : RefType) (min : Z) (max : option Z) : TableType :=
  {| tt_element := element; tt_minimum := min; tt_maximum := max; tt_table64 := false |}.
Definition table_type_new64 (element : RefType) (min : Z) (max : option Z) : TableType :=
  {| tt_element := element; tt_minimum := min; tt_maximum := max; tt_table64 := true |}.
Definition materialize_table (type_ids : list Z) (t : IrTableType) : res TableType :=
  element ← materialize_ref type_ids (itt_element t);
  Ok (if itt_table64 t then table_type_new64 element (itt_min t) (itt_max t)
      else table_type_new element (wrap 32 (itt_min t)) (wrap 32 <$> itt_max t)).
Definition materialize_global (type_ids : list Z) (g : IrGlobalType) : res GlobalType :=
  content ← materialize_val type_ids (igt_content g);
  Ok {| gt_content := content; gt_mutable := igt_mutable g |}.

(** ** Imports *)
Inductive Extern : Type :=
  | ExFunc (f : Func) | ExGlobal (g : Handle) | ExTable (t : Handle) | ExMemory (mem : Handle) | ExTag (t : Handle).

(** The index spaces of a module, in the order the source keeps them. *)
Record Spaces : Type := {
  ix_funcs : list Func; ix_memories : list Handle; ix_globals : list Handle;
  ix_tables : list Handle; ix_tags : list Handle }.
Definition no_spaces : Spaces :=
  {| ix_funcs := []; ix_memories := []; ix_globals := []; ix_tables := []; ix_tags := [] |}.

(** An actual [{amin, amax}] satisfies an import requiring [{imin, imax}]. *)
Definition limits_ok (amin : Z) (amax : option Z) (imin : Z) (imax : option Z) : bool :=
  (imin <=? amin) && match imax with
                     | None => true
                     | Some im => match amax with Some am => am <=? im | None => false end
                     end.

Definition check (ok : bool) (why : string) : res () := if ok then Ok tt else Err (EMsg why).

Section link.
Context `{TypeOrder}.

Definition check_func (s : StoreInner) (m : ModuleInner) (type_idx : Z) (f : Func) : res () :=
  expected_id ← canonical_type_id m type_idx;
  e ← store_func s f;
  ok ← match e with
       | FeWasm instance func_index =>
           pmod ← module_of instance s;
           t ← expect (zget (mi_func_types pmod) func_index) "index out of bounds";
           actual_id ← canonical_type_id pmod t;
           Ok (engine_is_subtype actual_id expected_id)
       | FeHost ty _ _ | FeHostAsync ty _ _ => Ok (engine_is_subtype ty expected_id)
       end;
  check ok "imported function signature mismatch".

Definition check_memory (s : StoreInner) (declared : MemoryType) (mem : Handle) : res () :=
  entity ← store_memory s mem;
  check (eqb (mt_memory64 (me_ty entity)) (mt_memory64 declared)
         && limits_ok (size_pages entity) (mt_maximum (me_ty entity)) (mt_minimum declared) (mt_maximum declared))
    "imported memory limits mismatch".

Definition check_table (s : StoreInner) (m : ModuleInner) (declared : IrTableType) (t : Handle) : res () :=
  entity ← store_table s t;
  declared ← materialize_table (mi_type_ids m) declared;
  check (bool_decide (tt_element (te_ty entity) = tt_element declared)
         && eqb (tt_table64 (te_ty entity)) (tt_table64 declared)
         && limits_ok (table_size entity) (tt_maximum (te_ty entity)) (tt_minimum declared) (tt_maximum declared))
    "imported table type mismatch".

Definition check_global (s : StoreInner) (m : ModuleInner) (declared : IrGlobalType) (g : Handle) : res () :=
  actual ← ge_ty <$> store_global s g;
  declared ← materialize_global (mi_type_ids m) declared;
  check (eqb (gt_mutable actual) (gt_mutable declared)
         && (if gt_mutable declared then bool_decide (gt_content actual = gt_content declared)
             else val_type_matches (gt_content actual) (gt_content declared)))
    "imported global type mismatch".

Definition check_tag (s : StoreInner) (m : ModuleInner) (type_idx : Z) (tag : Handle) : res () :=
  expected_id ← canonical_type_id m type_idx;
  e ← store_tag s tag;
  check (tge_ty e =? expected_id) "imported tag type mismatch".

(** One import: checked, and appended to the space of its kind. *)
Definition link_one (s : StoreInner) (m : ModuleInner) (imp : Import) (ext : Extern) (sp : Spaces) : res Spaces :=
  match im_kind imp, ext with
  | ImpFunc t, ExFunc f =>
      _ ← check_func s m t f;
      Ok {| ix_funcs := ix_funcs sp ++ [f]; ix_memories := ix_memories sp; ix_globals := ix_globals sp;
            ix_tables := ix_tables sp; ix_tags := ix_tags sp |}
  | ImpMemory mt, ExMemory mem =>
      _ ← check_memory s mt mem;
      Ok {| ix_funcs := ix_funcs sp; ix_memories := ix_memories sp ++ [mem]; ix_globals := ix_globals sp;
            ix_tables := ix_tables sp; ix_tags := ix_tags sp |}
  | ImpGlobal gt, ExGlobal g =>
      _ ← check_global s m gt g;
      Ok {| ix_funcs := ix_funcs sp; ix_memories := ix_memories sp; ix_globals := ix_globals sp ++ [g];
            ix_tables := ix_tables sp; ix_tags := ix_tags sp |}
  | ImpTable ty, ExTable t =>
      _ ← check_table s m ty t;
      Ok {| ix_funcs := ix_funcs sp; ix_memories := ix_memories sp; ix_globals := ix_globals sp;
            ix_tables := ix_tables sp ++ [t]; ix_tags := ix_tags sp |}
  | ImpTag t, ExTag tag =>
      _ ← check_tag s m t tag;
      Ok {| ix_funcs := ix_funcs sp; ix_memories := ix_memories sp; ix_globals := ix_globals sp;
            ix_tables := ix_tables sp; ix_tags := ix_tags sp ++ [tag] |}
  | _, _ => Err (EMsg "import kind mismatch")
  end.
Fixpoint link_loop (s : StoreInner) (m : ModuleInner) (imps : list Import) (exts : list Extern) (sp : Spaces) : res Spaces :=
  match imps, exts with
  | imp :: imps', ext :: exts' => sp' ← link_one s m imp ext sp; link_loop s m imps' exts' sp'
  | _, _ => Ok sp
  end.
Definition link_imports (m : ModuleInner) (exts : list Extern) (s : StoreInner) : res Spaces :=
  link_loop s m (mi_imports m) exts no_spaces.
End link.

(** ** Allocation and initialization *)
Definition const_to_usize (v : Val) (overflow : Trap) : res Z :=
  match v with
  | VI32 x => Ok (wrap 32 x)
  | VI64 x => ok_or (let y := wrap 64 x in if y <? 2 ^ usize_bits then Some y else None) (ETrap overflow)
  | _ => Err (EMsg "segment offset is not an integer")
  end.
(** The null reference of an IR heap type ([init.rs]'s [null_ref]). *)
Definition null_ref_of (heap : IrHeap) : Ref :=
  match heap with
  | IrFunc | IrNoFunc | IrConcrete _ AggFunc => RefFunc None
  | IrExtern | IrNoExtern => RefExtern None
  | IrExn | IrNoExn => RefExn None
  | _ => RefAny None
  end.

Section instantiate.
Context `{TypeOrder, HostAlloc} (fuel : nat) (m : ModuleInner).

Fixpoint alloc_memories (mts : list MemoryType) (memories : list Handle) : SM StoreInner (list Handle) :=
  match mts with
  | [] => mret memories
  | mt :: rest =>
      e ← lift (memory_new mt); h ← allocs (alloc_memory e); alloc_memories rest (memories ++ [h])
  end.
Fixpoint alloc_tags (ts : list TagDef) (tags : list Handle) : SM StoreInner (list Handle) :=
  match ts with
  | [] => mret tags
  | t :: rest =>
      ty ← lift (canonical_type_id m (tg_type_index t));
      h ← allocs (alloc_tag {| tge_ty := ty |}); alloc_tags rest (tags ++ [h])
  end.
(** [for i in 0..m.functions.len()]: [n] handles from [i]. *)
Fixpoint alloc_funcs (instance : Handle) (n : nat) (i : Z) (funcs : list Func) : SM StoreInner (list Func) :=
  match n with
  | O => mret funcs
  | S n' =>
      f ← allocs (alloc_func (FeWasm instance (mi_num_imported_funcs m + i)));
      alloc_funcs instance n' (i + 1) (funcs ++ [f])
  end.

Definition ctx_of (funcs : list Func) (globals : list Handle) : ConstCtx :=
  {| cc_module := m; cc_funcs := funcs; cc_globals := globals |}.

Fixpoint alloc_defined_tables (tds : list TableDef) (funcs : list Func) (globals tables : list Handle)
    : SM StoreInner (list Handle) :=
  match tds with
  | [] => mret tables
  | td :: rest =>
      init ← match td_init td with
             | Some e => eval_const_ref (ctx_of funcs globals) fuel e
             | None => mret (null_ref_of (ir_heap (itt_element (td_ty td))))
             end;
      ty ← lift (materialize_table (mi_type_ids m) (td_ty td));
      e ← lift (table_new ty init);
      h ← allocs (alloc_table e); alloc_defined_tables rest funcs globals (tables ++ [h])
  end.

Fixpoint init_defined_globals (gs : list GlobalDef) (funcs : list Func) (globals : list Handle)
    : SM StoreInner (list Handle) :=
  match gs with
  | [] => mret globals
  | g :: rest =>
      value ← eval_const (ctx_of funcs globals) fuel (gd_init g);
      ty ← lift (materialize_global (mi_type_ids m) (gd_ty g));
      h ← allocs (alloc_global {| ge_value := value; ge_ty := ty |});
      init_defined_globals rest funcs (globals ++ [h])
  end.

Fixpoint eval_elems (segs : list ElemSegment) (funcs : list Func) (globals : list Handle)
    : SM StoreInner (list (list Ref)) :=
  match segs with
  | [] => mret []
  | seg :: rest =>
      refs ← elem_refs (ctx_of funcs globals) fuel (es_items seg);
      out ← eval_elems rest funcs globals; mret (refs :: out)
  end.

(** What the instance keeps of a segment: a passive one its references. *)
Definition passive_elem (seg : ElemSegment) (refs : list Ref) : list Ref :=
  match es_mode seg with EmPassive => refs | EmActive _ _ | EmDeclared => [] end.
Definition passive_elem_instances (evaluated : list (list Ref)) : list (list Ref) :=
  zip_with passive_elem (mi_elems m) evaluated.

(** The [for (i, r) in refs.iter().enumerate()] writes, from [dst + i]. *)
Fixpoint set_run (handle : Handle) (dst i : Z) (refs : list Ref) : SM StoreInner () :=
  match refs with
  | [] => mret tt
  | r :: rest =>
      e ← reads (λ s, store_table s handle);
      modify (put_table handle (snd (table_set (dst + i) r e)));;
      set_run handle dst (i + 1) rest
  end.
Definition apply_active_elem (handle : Handle) (dst : Z) (refs : list Ref) : SM StoreInner () :=
  e ← reads (λ s, store_table s handle);
  match checked_add usize_bits dst (zlen refs) with
  | Some end_ => if end_ <=? table_size e then set_run handle dst 0 refs else fail (ETrap TableOutOfBounds)
  | None => fail (ETrap TableOutOfBounds)
  end.
Fixpoint apply_active_elems (segs : list ElemSegment) (evaluated : list (list Ref)) (funcs : list Func)
    (tables globals : list Handle) : SM StoreInner () :=
  match segs, evaluated with
  | seg :: segs', refs :: evaluated' =>
      match es_mode seg with
      | EmActive table offset =>
          v ← eval_const (ctx_of funcs globals) fuel offset;
          dst ← lift (const_to_usize v TableOutOfBounds);
          t ← lift (expect (zget tables table) "index out of bounds");
          apply_active_elem t dst refs
      | _ => mret tt
      end;;
      apply_active_elems segs' evaluated' funcs tables globals
  | _, _ => mret tt
  end.

Definition init_data (instance : Handle) (memories globals : list Handle) (seg_idx : Z) (seg : DataSegment)
    : SM StoreInner () :=
  match ds_mode seg with
  | DmActive memory offset =>
      v ← eval_const (ctx_of [] globals) fuel offset;
      dst ← lift (const_to_usize v MemoryOutOfBounds);
      mem ← lift (expect (zget memories memory) "index out of bounds");
      e ← reads (λ s, store_memory s mem);
      match checked_add usize_bits dst (zlen (ds_bytes seg)) with
      | Some end_ =>
          if end_ <=? zlen (me_bytes e)
          then bytes ← lift (expect (zsplice (me_bytes e) dst (ds_bytes seg)) "slice index");
               modify (put_memory mem {| me_bytes := bytes; me_ty := me_ty e |});;
               drop_data instance seg_idx
          else fail (ETrap MemoryOutOfBounds)
      | None => fail (ETrap MemoryOutOfBounds)
      end
  | DmPassive => mret tt
  end.
Fixpoint init_datas (instance : Handle) (memories globals : list Handle) (seg_idx : Z) (segs : list DataSegment)
    : SM StoreInner () :=
  match segs with
  | [] => mret tt
  | seg :: rest =>
      init_data instance memories globals seg_idx seg;;
      init_datas instance memories globals (seg_idx + 1) rest
  end.

Definition instantiate (imports : list Extern) : SM StoreInner Handle :=
  if negb (zlen (mi_imports m) =? zlen imports) then fail (EMsg "wrong number of imports") else
  sp ← reads (link_imports m imports);
  memories ← alloc_memories (mi_memories m) (ix_memories sp);
  tags ← alloc_tags (mi_tags m) (ix_tags sp);
  s ← get;
  let instance := reserve_instance s in
  funcs ← alloc_funcs instance (length (mi_functions m)) 0 (ix_funcs sp);
  tables ← alloc_defined_tables (mi_tables m) funcs (ix_globals sp) (ix_tables sp);
  globals ← init_defined_globals (mi_globals m) funcs (ix_globals sp);
  evaluated ← eval_elems (mi_elems m) funcs globals;
  _ ← allocs (alloc_instance
        {| ie_module := m; ie_funcs := funcs; ie_memories := memories; ie_globals := globals; ie_tables := tables;
           ie_tags := tags; ie_dropped_data := replicate (length (mi_datas m)) false;
           ie_elems := passive_elem_instances evaluated |});
  apply_active_elems (mi_elems m) evaluated funcs tables globals;;
  init_datas instance memories globals 0 (mi_datas m);;
  mret instance.
End instantiate.
