(* ===== verification/InstanceSafe.v ===== *)
(** * InstanceSafe: what instantiation does to a store (theorems about Instantiate.v)

    Each phase of [instantiate] is a safe run that grows the store: new entities go
    to the end of their arenas, old ones keep their place, and only the memories,
    tables and instances of the phase's footprint are written. *)
From S2P Require Import Prelude Keep Types Layout Codec Arena Heap Op Entity Store.
From S2P Require Import Memory GcOps ConstEval Instantiate.
Open Scope Z_scope.

(** ** Growing a store *)

(** Every entry of [l] is still there in [l'], the same unless it is one that may be
    written, and then of the same shape. *)
Definition stable {E S} (shape : E → S) (may : Z → Prop) (l l' : list E) : Prop :=
  ∀ i e, zget l i = Some e → ∃ e', zget l' i = Some e' ∧ shape e' = shape e ∧ (¬ may i → e' = e).

Lemma stable_refl {E S} (shape : E → S) may l : stable shape may l l.
Proof. intros i e He. by exists e. Qed.
Lemma stable_trans {E S} (shape : E → S) may l1 l2 l3 :
  stable shape may l1 l2 → stable shape may l2 l3 → stable shape may l1 l3.
Proof.
  intros H1 H2 i e He. destruct (H1 i e He) as (e1 & He1 & Hs1 & Hm1).
  destruct (H2 i e1 He1) as (e2 & He2 & Hs2 & Hm2). exists e2. split_and!; [done|congruence|].
  intros Hi. rewrite (Hm2 Hi), (Hm1 Hi). done.
Qed.
Lemma stable_weaken {E S} (shape : E → S) (may may' : Z → Prop) l l' :
  (∀ i, zget l i ≠ None → may i → may' i) → stable shape may l l' → stable shape may' l l'.
Proof.
  intros Hm H i e He. destruct (H i e He) as (e' & ? & ? & Hn). exists e'. split_and!; [done..|].
  intros Hi. apply Hn. intros Hm'. apply Hi, Hm; [by rewrite He|done].
Qed.
Lemma stable_app {E S} (shape : E → S) may l k : stable shape may l (l ++ k).
Proof. intros i e He. exists e. split_and!; [|done..]. pose proof (zget_Some _ _ _ He). by rewrite zget_app_l by lia. Qed.
Lemma stable_insert {E S} (shape : E → S) (may : Z → Prop) l i e x :
  zget l i = Some e → shape x = shape e → may i → stable shape may l (<[Z.to_nat i := x]> l).
Proof.
  intros Hi Hs Hm j y Hy. pose proof (zget_Some _ _ _ Hi). pose proof (zget_Some _ _ _ Hy).
  destruct (decide (j = i)) as [->|Hne].
  - exists x. rewrite zget_insert_eq by lia. split_and!; [done|congruence|by intros []].
  - exists y. by rewrite zget_insert_ne by lia.
Qed.

(** What a phase may write besides appending. *)
Record Footprint : Type := { fp_mem : Z → Prop; fp_tab : Z → Prop; fp_inst : Z → Prop }.
Definition fp_none : Footprint := {| fp_mem := λ _, False; fp_tab := λ _, False; fp_inst := λ _, False |}.

Definition mem_shape (e : MemoryEntity) : MemoryType * Z := (me_ty e, zlen (me_bytes e)).
Definition tab_shape (e : TableEntity) : TableType * Z := (te_ty e, table_size e).
Definition inst_shape (e : InstanceEntity) :=
  (ie_module e, ie_funcs e, ie_memories e, ie_globals e, ie_tables e, ie_tags e, ie_elems e, zlen (ie_dropped_data e)).

(** The parts of a store that have nothing to do with instantiation. *)
Definition quiet (s : StoreInner) :=
  (si_store_id s, si_exns s, si_gc_roots s, si_fuel s, si_fuel_reserve s, si_fuel_yield_interval s,
   si_epoch_deadline s, si_pending_exception s, si_pending_exception_generation s, si_internal_error s).

Record grows (fp : Footprint) (s s' : StoreInner) : Prop := {
  gr_quiet : quiet s' = quiet s;
  gr_funcs : stable id (λ _, False) (si_funcs s) (si_funcs s');
  gr_globals : stable id (λ _, False) (si_globals s) (si_globals s');
  gr_tags : stable id (λ _, False) (si_tags s) (si_tags s');
  gr_memories : stable mem_shape (fp_mem fp) (si_memories s) (si_memories s');
  gr_tables : stable tab_shape (fp_tab fp) (si_tables s) (si_tables s');
  gr_instances : stable inst_shape (fp_inst fp) (si_instances s) (si_instances s');
  gr_objects : objects_kept (si_gc s) (si_gc s');
  gr_externs : entries_kept (si_externrefs s) (si_externrefs s');
}.

Lemma grows_refl fp s : grows fp s s.
Proof. constructor; try apply stable_refl; done. Qed.
Lemma grows_trans fp s1 s2 s3 : grows fp s1 s2 → grows fp s2 s3 → grows fp s1 s3.
Proof.
  intros [] []. constructor; try (eapply stable_trans; done); [congruence|by etrans..].
Qed.
Lemma grows_weaken fp fp' s s' :
  (∀ i, zget (si_memories s) i ≠ None → fp_mem fp i → fp_mem fp' i) →
  (∀ i, zget (si_tables s) i ≠ None → fp_tab fp i → fp_tab fp' i) →
  (∀ i, zget (si_instances s) i ≠ None → fp_inst fp i → fp_inst fp' i) →
  grows fp s s' → grows fp' s s'.
Proof. intros H1 H2 H3 []. constructor; try done; by eapply stable_weaken. Qed.
Lemma grows_none fp s s' : grows fp_none s s' → grows fp s s'.
Proof. by apply grows_weaken. Qed.

(** ** Stores whose globals hold values of their types *)
Definition vtype_kind (t : ValType) : VKind := slot_kind (pub_val_slot t 0).
Definition global_typed (g : GlobalEntity) : Prop := val_kind (ge_value g) = vtype_kind (gt_content (ge_ty g)).
Record store_ok (s : StoreInner) : Prop := {
  so_heap : heap_wf (si_gc s);
  so_free : free_slots (si_externrefs s);
  so_globals : Forall global_typed (si_globals s);
}.

(** The invariant of a run that started in [s]. *)
Definition onward (fp : Footprint) (s s' : StoreInner) : Prop := grows fp s s' ∧ store_ok s'.

Lemma onward_refl fp s : store_ok s → onward fp s s.
Proof. split; [apply grows_refl|done]. Qed.

(** Sequencing: the second half starts where the first ended. *)
Lemma safe_seq fp {A B} (m : SM StoreInner A) (f : A → SM StoreInner B) s (Q : B → StoreInner → Prop) :
  safe (onward fp s) m s (λ a s', onward fp s s' → safe (onward fp s') (f a) s' Q) →
  safe (onward fp s) (m ≫= f) s Q.
Proof.
  intros H. apply safe_bind. eapply safe_mono; [exact H|]. cbn. intros a s' Hs' Hf _.
  destruct (Hf Hs') as (r & s2 & Hr & [Hg Hok] & HQ). exists r, s2. split_and!; [done| |done].
  split; [|done]. eapply grows_trans; [apply Hs'|done].
Qed.
Lemma safe_weaken fp fp' {A} (m : SM StoreInner A) s (Q : A → StoreInner → Prop) :
  (∀ s', grows fp s s' → grows fp' s s') → safe (onward fp s) m s Q → safe (onward fp' s) m s Q.
Proof. intros Hw (r & s' & Hm & [Hg Hok] & HQ). exists r, s'. split_and!; [done|split; auto|done]. Qed.

(** ** Handles *)
Definition resolves {E} (id : Z) (a : list E) (h : Handle) : Prop := ∃ e, arena_entity id a h = Ok e.

Lemma resolves_get {E} id (a : list E) h e : arena_entity id a h = Ok e →
  zget a (h_index h) = Some e ∧ ∀ (b : list E) x, zget b (h_index h) = Some x → arena_entity id b h = Ok x.
Proof.
  unfold arena_entity. destruct (check_handle id (h_store h)); [|done..]. cbn.
  destruct (zget a (h_index h)); [|done]. cbn. intros [= ->]. split; [done|]. by intros b x ->.
Qed.
Lemma resolves_stable {E S} (shape : E → S) may id (l l' : list E) h e :
  stable shape may l l' → arena_entity id l h = Ok e →
  ∃ e', arena_entity id l' h = Ok e' ∧ shape e' = shape e ∧ (¬ may (h_index h) → e' = e).
Proof.
  intros Hst He. destruct (resolves_get _ _ _ _ He) as [Hg Hb].
  destruct (Hst _ _ Hg) as (e' & He' & ? & ?). exists e'. split_and!; [by apply Hb|done..].
Qed.
Lemma resolves_grow {E S} (shape : E → S) may id (l l' : list E) h :
  stable shape may l l' → resolves id l h → resolves id l' h.
Proof. intros Hst [e He]. destruct (resolves_stable _ _ _ _ _ _ _ Hst He) as (e' & ? & _). by exists e'. Qed.

Section grown.
Context (fp : Footprint) (s s' : StoreInner) (Hg : grows fp s s').
Lemma grows_id : si_store_id s' = si_store_id s.
Proof using Hg. pose proof (gr_quiet _ _ _ Hg) as H. by injection H. Qed.
Lemma grows_memory h e : store_memory s h = Ok e → ∃ e', store_memory s' h = Ok e' ∧ mem_shape e' = mem_shape e ∧
  (¬ fp_mem fp (h_index h) → e' = e).
Proof using Hg. unfold store_memory. rewrite grows_id. apply resolves_stable, Hg. Qed.
Lemma grows_table h e : store_table s h = Ok e → ∃ e', store_table s' h = Ok e' ∧ tab_shape e' = tab_shape e ∧
  (¬ fp_tab fp (h_index h) → e' = e).
Proof using Hg. unfold store_table. rewrite grows_id. apply resolves_stable, Hg. Qed.
Lemma grows_instance h e : store_instance s h = Ok e → ∃ e', store_instance s' h = Ok e' ∧ inst_shape e' = inst_shape e ∧
  (¬ fp_inst fp (h_index h) → e' = e).
Proof using Hg. unfold store_instance. rewrite grows_id. apply resolves_stable, Hg. Qed.
Lemma grows_global h e : store_global s h = Ok e → store_global s' h = Ok e.
Proof using Hg.
  unfold store_global. rewrite grows_id. intros He.
  destruct (resolves_stable _ _ _ _ _ _ _ (gr_globals _ _ _ Hg) He) as (e' & -> & _ & Heq). by rewrite Heq by tauto.
Qed.
Lemma grows_tag h e : store_tag s h = Ok e → store_tag s' h = Ok e.
Proof using Hg.
  unfold store_tag. rewrite grows_id. intros He.
  destruct (resolves_stable _ _ _ _ _ _ _ (gr_tags _ _ _ Hg) He) as (e' & -> & _ & Heq). by rewrite Heq by tauto.
Qed.
Lemma grows_func f e : store_func s f = Ok e → store_func s' f = Ok e.
Proof using Hg.
  unfold store_func. rewrite grows_id. intros He.
  destruct (resolves_stable _ _ _ _ _ _ _ (gr_funcs _ _ _ Hg) He) as (e' & -> & _ & Heq). by rewrite Heq by tauto.
Qed.
End grown.

(** ** Evaluating an initializer *)
Lemma alloc_only_onward fp s s' : store_ok s → alloc_only s s' → onward fp s s'.
Proof.
  intros [Hh Hf Hgl] [Hr ? ? ? ?]. split.
  - constructor; try (rewrite Hr; cbn; apply stable_refl); [by rewrite Hr|done..].
  - constructor; [done..|]. by rewrite Hr.
Qed.
Lemma const_wf_grows fp t ctx s s' : grows fp s s' → const_wf t ctx s → const_wf t ctx s'.
Proof.
  intros Hg []. constructor; try done. eapply Forall2_impl; [done|]. cbn. intros h k (e & He & Hk).
  exists e. split; [by eapply grows_global|done].
Qed.

(** How many entities a phase adds to each arena. *)
Inductive ArenaKind : Type := AkFunc | AkMemory | AkTable | AkGlobal | AkTag | AkInstance.
#[export] Instance ArenaKind_eq_dec : EqDecision ArenaKind.
Proof. solve_decision. Defined.
Definition count (k : ArenaKind) (s : StoreInner) : Z :=
  match k with
  | AkFunc => zlen (si_funcs s) | AkMemory => zlen (si_memories s) | AkTable => zlen (si_tables s)
  | AkGlobal => zlen (si_globals s) | AkTag => zlen (si_tags s) | AkInstance => zlen (si_instances s)
  end.
Definition counted (d : ArenaKind → Z) (s s' : StoreInner) : Prop := ∀ k, count k s' = count k s + d k.
Definition only (k : ArenaKind) (n : Z) : ArenaKind → Z := λ k', if decide (k' = k) then n else 0.
Abbreviation uncounted := (counted (λ _, 0)).
(** The size of one arena after counted phases. *)
Ltac arena_count C k :=
  let L := fresh "L" in
  pose proof (C k) as L; unfold only in L;
  repeat match type of L with context [decide ?P] =>
    first [rewrite (decide_True (P:=P)) in L by done | rewrite (decide_False (P:=P)) in L by done] end;
  cbn [count] in L.

Lemma uncounted_refl s : uncounted s s.
Proof. intros k. lia. Qed.
Lemma alloc_only_counted s s' : alloc_only s s' → uncounted s s'.
Proof. intros [-> _ _ _ _] k. destruct k; cbn; lia. Qed.
Lemma counted_trans d1 d2 d s1 s2 s3 : (∀ k, d k = d1 k + d2 k) →
  counted d1 s1 s2 → counted d2 s2 s3 → counted d s1 s3.
Proof. intros Hd H1 H2 k. rewrite H2, H1, Hd. lia. Qed.

Section evals.
Context (fp : Footprint) (t : ConstTypes) (ctx : ConstCtx) (s : StoreInner) (n fuel : nat).
Context (Hwf : const_wf t ctx s) (Hs : store_ok s) (Hn : (n ≤ fuel)%nat).

Lemma alloc_only_safe {A} (mm : SM StoreInner A) Q :
  safe (alloc_only s) mm s (λ a _, Q a) → safe (onward fp s) mm s (λ a s', Q a ∧ uncounted s s').
Proof using Hs.
  intros (r & s' & Hr & Ha & HQ). exists r, s'. split_and!; [done|by apply alloc_only_onward|].
  destruct r; [|done..]. split; [done|by apply alloc_only_counted].
Qed.
Lemma alloc_only_start : alloc_only s s.
Proof using Hs. apply alloc_only_refl; apply Hs. Qed.

Lemma eval_onward e k : const_typed t n e k = true →
  safe (onward fp s) (eval_const ctx fuel e) s (λ x s', val_kind x = k ∧ uncounted s s').
Proof using Hwf Hs Hn.
  intros He. apply (alloc_only_safe _ (λ x, val_kind x = k)). eapply eval_const_safe; [done..|apply alloc_only_start].
Qed.
Lemma elem_refs_onward items k : items_typed t (const_typed t n) items k = true →
  safe (onward fp s) (elem_refs ctx fuel items) s
    (λ refs s', Forall (λ r, val_kind (val_from_ref r) = k) refs ∧ uncounted s s').
Proof using Hwf Hs Hn.
  intros Hi. apply (alloc_only_safe _ (λ refs, Forall (λ r, val_kind (val_from_ref r) = k) refs)).
  eapply (elem_refs_safe t ctx s Hwf (const_typed t n)); [|done|apply alloc_only_start].
  intros e k' s' He Hs'. by eapply eval_const_safe.
Qed.
Lemma eval_ref_onward e k : const_typed t n e (KRef k) = true →
  safe (onward fp s) (eval_const_ref ctx fuel e) s (λ r s', val_kind (val_from_ref r) = KRef k ∧ uncounted s s').
Proof using Hwf Hs Hn.
  intros He. apply safe_seq. eapply safe_mono; [by apply eval_onward|]. cbn. intros x s1 [_ Hs1] [Hx Hc] _.
  assert (∃ r, const_val_to_ref x = Ok r ∧ val_kind (val_from_ref r) = KRef k) as (r & -> & Hr).
  { destruct x; try done; by eexists. }
  apply safe_lift_Ok; [by apply onward_refl|done].
Qed.
End evals.

(** ** Allocation phases *)

(** A new handle: past what was there, resolving to an entity as asked. *)
Definition fresh {E D} (base : Z) (get : Handle → res E) (spec : D → E → Prop) (h : Handle) (d : D) : Prop :=
  base ≤ h_index h ∧ ∃ e, get h = Ok e ∧ spec d e.

Lemma fresh_impl {E D} base base' (get get' : Handle → res E) (spec : D → E → Prop) hs ds :
  base' ≤ base → (∀ h d e, get h = Ok e → spec d e → ∃ e', get' h = Ok e' ∧ spec d e') →
  Forall2 (fresh base get spec) hs ds → Forall2 (fresh base' get' spec) hs ds.
Proof.
  intros Hb Hget H. eapply Forall2_impl; [done|]. intros h d (? & e & He & Hd).
  split; [lia|]. by eapply Hget.
Qed.

Lemma onward_append fp s s' :
  store_ok s → si_gc s' = si_gc s → si_externrefs s' = si_externrefs s → quiet s' = quiet s →
  (∃ k, si_memories s' = si_memories s ++ k) → (∃ k, si_tables s' = si_tables s ++ k) →
  (∃ k, si_funcs s' = si_funcs s ++ k) → (∃ k, si_tags s' = si_tags s ++ k) →
  (∃ k, si_instances s' = si_instances s ++ k) → (∃ k, si_globals s' = si_globals s ++ k ∧ Forall global_typed k) →
  onward fp s s'.
Proof.
  intros [] Hg He Hq [? Hm] [? Ht] [? Hf] [? Htg] [? Hi] (? & Hgl & Hty). split.
  - constructor; rewrite ?Hm, ?Ht, ?Hf, ?Htg, ?Hi, ?Hgl; try apply stable_app; [done|by rewrite Hg|by rewrite He].
  - constructor; [by rewrite Hg|by rewrite He|rewrite Hgl; by apply Forall_app].
Qed.

Ltac appended :=
  apply onward_append; try done; cbn; try (exists []; by rewrite app_nil_r); try (by eexists);
  try (exists []; by rewrite app_nil_r).

Lemma arena_entity_new {E} id (a : list E) e : zlen a < 2 ^ 32 →
  arena_entity id (a ++ [e]) {| h_index := wrap 32 (zlen a); h_store := id |} = Ok e.
Proof.
  intros Ha. pose proof (zlen_nonneg a). unfold arena_entity. cbn. rewrite check_handle_self. cbn.
  rewrite wrap_id by (unfold u_ok; lia). rewrite zget_app_r, Z.sub_diag by lia. done.
Qed.

(** One kind of entity: its arena, what is asked of a new entity, and what growing the
    store keeps of an old one. *)
Class StoreArena (E : Type) := {
  ar_kind : ArenaKind;
  ar_list : StoreInner → list E;
  ar_set : list E → StoreInner → StoreInner;
  ar_typed : E → Prop;
  ar_same : E → E → Prop;
  ar_list_set l s : ar_list (ar_set l s) = l;
  ar_count s : count ar_kind s = zlen (ar_list s);
  ar_count_ne k l s : k ≠ ar_kind → count k (ar_set l s) = count k s;
  ar_id l s : si_store_id (ar_set l s) = si_store_id s;
  ar_append fp e s : store_ok s → ar_typed e → onward fp s (ar_set (ar_list s ++ [e]) s);
  ar_keeps fp s s' i e : grows fp s s' → zget (ar_list s) i = Some e →
    ∃ e', zget (ar_list s') i = Some e' ∧ ar_same e e';
}.
Definition ar_get {E} `{StoreArena E} (s : StoreInner) (h : Handle) : res E :=
  arena_entity (si_store_id s) (ar_list s) h.
Definition ar_alloc {E} `{StoreArena E} (e : E) (s : StoreInner) : Handle * StoreInner :=
  (stamp s (wrap 32 (zlen (ar_list s))), ar_set (ar_list s ++ [e]) s).

#[export, refine] Instance memory_arena : StoreArena MemoryEntity :=
  {| ar_kind := AkMemory; ar_list := si_memories; ar_set := set_si_memories; ar_typed := λ _, True;
     ar_same := λ e e', mem_shape e' = mem_shape e |}.
Proof.
  - done.
  - done.
  - by intros [].
  - done.
  - intros. appended.
  - intros fp s s' i e Hg He. destruct (gr_memories _ _ _ Hg _ _ He) as (e' & ? & ? & _). by exists e'.
Defined.
#[export, refine] Instance table_arena : StoreArena TableEntity :=
  {| ar_kind := AkTable; ar_list := si_tables; ar_set := set_si_tables; ar_typed := λ _, True;
     ar_same := λ e e', tab_shape e' = tab_shape e |}.
Proof.
  - done.
  - done.
  - by intros [].
  - done.
  - intros. appended.
  - intros fp s s' i e Hg He. destruct (gr_tables _ _ _ Hg _ _ He) as (e' & ? & ? & _). by exists e'.
Defined.
#[export, refine] Instance tag_arena : StoreArena TagEntity :=
  {| ar_kind := AkTag; ar_list := si_tags; ar_set := set_si_tags; ar_typed := λ _, True; ar_same := λ e e', e' = e |}.
Proof.
  - done.
  - done.
  - by intros [].
  - done.
  - intros. appended.
  - intros fp s s' i e Hg He. destruct (gr_tags _ _ _ Hg _ _ He) as (e' & ? & ? & _). by exists e'.
Defined.
#[export, refine] Instance func_arena : StoreArena FuncEntity :=
  {| ar_kind := AkFunc; ar_list := si_funcs; ar_set := set_si_funcs; ar_typed := λ _, True; ar_same := λ e e', e' = e |}.
Proof.
  - done.
  - done.
  - by intros [].
  - done.
  - intros. appended.
  - intros fp s s' i e Hg He. destruct (gr_funcs _ _ _ Hg _ _ He) as (e' & ? & ? & _). by exists e'.
Defined.
#[export, refine] Instance instance_arena : StoreArena InstanceEntity :=
  {| ar_kind := AkInstance; ar_list := si_instances; ar_set := set_si_instances; ar_typed := λ _, True;
     ar_same := λ e e', inst_shape e' = inst_shape e |}.
Proof.
  - done.
  - done.
  - by intros [].
  - done.
  - intros. appended.
  - intros fp s s' i e Hg He. destruct (gr_instances _ _ _ Hg _ _ He) as (e' & ? & ? & _). by exists e'.
Defined.
#[export, refine] Instance global_arena : StoreArena GlobalEntity :=
  {| ar_kind := AkGlobal; ar_list := si_globals; ar_set := set_si_globals; ar_typed := global_typed; ar_same := λ e e', e' = e |}.
Proof.
  - done.
  - done.
  - by intros [].
  - done.
  - intros fp e s Hs He. appended. exists [e]. split; [done|]. by constructor.
  - intros fp s s' i e Hg He. destruct (gr_globals _ _ _ Hg _ _ He) as (e' & ? & ? & _). by exists e'.
Defined.

Section arena.
Context {E : Type} `{StoreArena E} (fp : Footprint).

Lemma ar_get_grows s s' h e : grows fp s s' → ar_get s h = Ok e → ∃ e', ar_get s' h = Ok e' ∧ ar_same e e'.
Proof.
  intros Hg He. unfold ar_get in *. rewrite (grows_id _ _ _ Hg).
  destruct (resolves_get _ _ _ _ He) as [Hz Hb]. destruct (ar_keeps _ _ _ _ _ Hg Hz) as (e' & ? & ?). eauto.
Qed.

(** One allocation: the new entity at the end of its arena. *)
Lemma ar_alloc_safe e s : store_ok s → ar_typed e → zlen (ar_list s) < 2 ^ 32 →
  safe (onward fp s) (allocs (ar_alloc e)) s (λ h s', counted (only ar_kind 1) s s' ∧
    h_index h = zlen (ar_list s) ∧ h_store h = si_store_id s ∧ ar_get s' h = Ok e).
Proof.
  intros Hs He Hr. pose proof (zlen_nonneg (ar_list s)).
  eexists _, _. split; [done|]. split; [by apply ar_append|]. split_and!.
  - intros k. unfold only. destruct (decide (k = ar_kind)) as [->|]; [|rewrite ar_count_ne by done; lia].
    rewrite !ar_count, ar_list_set, zlen_app. done.
  - apply wrap_id. unfold u_ok. lia.
  - done.
  - unfold ar_get. rewrite ar_id, ar_list_set. by apply arena_entity_new.
Qed.

(** A loop that makes and allocates an entity per definition, appending the handles. *)
Context {D : Type} (make : D → list Handle → SM StoreInner E) (go : list D → list Handle → SM StoreInner (list Handle))
  (spec : D → E → Prop) (P : list D → list Handle → StoreInner → Prop).
Context (go_nil : ∀ hs, go [] hs = mret hs)
  (go_cons : ∀ d ds hs s, go (d :: ds) hs s = (e ← make d hs; h ← allocs (ar_alloc e); go ds (hs ++ [h])) s)
  (spec_same : ∀ d e e', ar_same e e' → spec d e → spec d e')
  (make_safe : ∀ d ds hs s, store_ok s → P (d :: ds) hs s →
     safe (onward fp s) (make d hs) s (λ e s', uncounted s s' ∧ ar_typed e ∧ spec d e ∧
       ∀ h s2, grows fp s' s2 → ar_get s2 h = Ok e → P ds (hs ++ [h]) s2)).

Lemma alloc_loop_safe ds : ∀ hs s, store_ok s → zlen (ar_list s) + zlen ds ≤ 2 ^ 32 → P ds hs s →
  safe (onward fp s) (go ds hs) s (λ out s', counted (only ar_kind (zlen ds)) s s' ∧
    ∃ new, out = hs ++ new ∧ Forall2 (fresh (zlen (ar_list s)) (ar_get s') spec) new ds).
Proof using go_nil go_cons spec_same make_safe.
  induction ds as [|d ds IH]; intros hs s Hs Hr HP.
  { rewrite go_nil. apply safe_ret; [by apply onward_refl|]. split.
    - intros k. unfold only. case_decide; unfold zlen; cbn; lia.
    - exists []. by rewrite app_nil_r. }
  rewrite zlen_cons in Hr. pose proof (zlen_nonneg ds). eapply safe_ext; [apply go_cons|].
  apply safe_seq. eapply safe_mono; [by eapply make_safe|]. cbn beta.
  intros e s1 [_ Hs1] (Hc1 & Hty & Hsp & HP1) _.
  assert (zlen (ar_list s1) = zlen (ar_list s)) as Hl1 by (rewrite <- !ar_count, Hc1; lia).
  apply safe_seq. eapply safe_mono; [apply ar_alloc_safe; [done..|lia]|]. cbn beta.
  intros h s2 [Hg2 Hs2] (Hc2 & Hi & _ & Hh) _.
  assert (zlen (ar_list s2) = zlen (ar_list s) + 1) as Hl2.
  { rewrite <- !ar_count in *. rewrite Hc2. unfold only. rewrite decide_True by done. lia. }
  eapply safe_mono; [apply IH; [done|lia|by apply HP1]|]. cbn beta.
  intros out s3 [Hg3 _] (Hc3 & new & -> & Hnew). split.
  { intros k. rewrite Hc3, Hc2, Hc1, zlen_cons. unfold only. case_decide; lia. }
  exists (h :: new). split; [by rewrite <- app_assoc|]. constructor.
  - split; [lia|]. destruct (ar_get_grows _ _ _ _ Hg3 Hh) as (e' & ? & ?). eauto.
  - eapply fresh_impl; [|eauto|exact Hnew]. lia.
Qed.
End arena.

(** ** Validated modules *)
Definition is_ok {A} (r : res A) : bool := match r with Ok _ => true | _ => false end.
Lemma is_ok_Ok {A} (r : res A) : is_ok r = true → ∃ a, r = Ok a.
Proof. destruct r; [eauto|done..]. Qed.

Definition sel_func (k : ImportKind) : option Z := match k with ImpFunc t => Some t | _ => None end.
Definition elem_kind (t : IrTableType) : RefKind := ref_kind (ir_heap (itt_element t)).

Section valid.
Context (n : nat) (m : ModuleInner).
Definition func_count : Z := zlen (imported sel_func m) + zlen (mi_functions m).
Definition table_count : Z := zlen (imported sel_table m) + zlen (mi_tables m).
Definition memory_count : Z := zlen (imported sel_memory m) + zlen (mi_memories m).
Definition global_kind (g : IrGlobalType) : VKind := val_type_kind (igt_content g).
Definition imported_kinds : list VKind := global_kind <$> imported sel_global m.
Definition global_kinds : list VKind := imported_kinds ++ (global_kind ∘ gd_ty <$> mi_globals m).
Definition types_with (nfuncs : Z) (ks : list VKind) : ConstTypes :=
  {| ct_module := m; ct_funcs := nfuncs; ct_globals := ks |}.

Definition type_valid (i : Z) : bool := in_space i (zlen (mi_type_ids m)).
Definition import_valid (k : ImportKind) : bool :=
  match k with
  | ImpFunc t | ImpTag t => type_valid t
  | ImpTable ty => is_ok (materialize_table (mi_type_ids m) ty)
  | ImpGlobal gt => is_ok (materialize_global (mi_type_ids m) gt)
  | ImpMemory _ => true
  end.
Definition table_valid (td : TableDef) : bool :=
  (0 <=? itt_min (td_ty td)) && is_ok (materialize_table (mi_type_ids m) (td_ty td))
  && match td_init td with
     | Some e => const_typed (types_with func_count imported_kinds) n e (KRef (elem_kind (td_ty td)))
     | None => true
     end.
(** An initializer sees the imported globals and the ones defined before it. *)
Fixpoint globals_valid (ks : list VKind) (gs : list GlobalDef) : bool :=
  match gs with
  | [] => true
  | g :: rest =>
      is_ok (materialize_global (mi_type_ids m) (gd_ty g))
      && const_typed (types_with func_count ks) n (gd_init g) (global_kind (gd_ty g))
      && globals_valid (ks ++ [global_kind (gd_ty g)]) rest
  end.
Definition offset_valid (nfuncs : Z) (e : ConstExpr) : bool :=
  const_typed (types_with nfuncs global_kinds) n e KI32 || const_typed (types_with nfuncs global_kinds) n e KI64.
Definition elem_valid (seg : ElemSegment) : bool :=
  existsb (λ k, items_typed (types_with func_count global_kinds) (const_typed (types_with func_count global_kinds) n)
                  (es_items seg) (KRef k)) [RkFunc; RkExtern; RkAny; RkExn]
  && match es_mode seg with
     | EmActive table offset => in_space table table_count && offset_valid func_count offset
     | _ => true
     end.
Definition data_valid (seg : DataSegment) : bool :=
  match ds_mode seg with
  | DmActive memory offset => in_space memory memory_count && offset_valid 0 offset
  | DmPassive => true
  end.

(** What validation establishes of a module, with segments nested less than [n] deep. *)
Definition module_valid : bool :=
  forallb (λ i, import_valid (im_kind i)) (mi_imports m)
  && forallb (λ mt, 0 <=? mt_minimum mt) (mi_memories m)
  && forallb (λ t, type_valid (tg_type_index t)) (mi_tags m)
  && forallb table_valid (mi_tables m)
  && globals_valid imported_kinds (mi_globals m)
  && forallb elem_valid (mi_elems m)
  && forallb data_valid (mi_datas m).
End valid.

Lemma materialize_heap_kind ids h ht : materialize_heap (E:=error) ids h = Ok ht → pub_ref_kind ht = ref_kind h.
Proof.
  destruct h as [| | | | | | | | | | | |i k]; cbn; try (by intros [= <-]).
  destruct (zget ids i); [|done]. cbn. intros [= <-]. by destruct k.
Qed.
Lemma materialize_global_kind ids g ty :
  materialize_global ids g = Ok ty → vtype_kind (gt_content ty) = global_kind g.
Proof.
  unfold materialize_global, global_kind, vtype_kind, val_type_kind.
  destruct (igt_content g) as [| | | | |b h]; cbn; try (by intros [= <-]).
  destruct (materialize_heap ids h) as [ht|e|w] eqn:Hh; [|done..]. cbn. intros [= <-]. cbn.
  by rewrite (materialize_heap_kind _ _ _ Hh).
Qed.
Lemma type_matches_kind a b : val_type_matches a b = true → vtype_kind a = vtype_kind b.
Proof.
  destruct a as [| | | | |[na ha]], b as [| | | | |[nb hb]]; try done. unfold vtype_kind. cbn.
  intros [_ Hm]%andb_true_iff. cbn in Hm. f_equal. unfold heap_matches in Hm.
  destruct (decide (ha = hb)) as [->|]; [done|]. by destruct ha, hb.
Qed.

(** ** Linking *)
Section link.
Context `{TypeOrder} (s : StoreInner) (m : ModuleInner).

(** A provided item exists in the store; a wasm function also has its type. *)
Definition extern_ok (ext : Extern) : Prop :=
  match ext with
  | ExFunc f => ∃ e, store_func s f = Ok e ∧
      match e with
      | FeWasm i fi => ∃ pmod t, module_of i s = Ok pmod ∧ zget (mi_func_types pmod) fi = Some t ∧
          zget (mi_type_ids pmod) t ≠ None
      | _ => True
      end
  | ExGlobal h => ∃ e, store_global s h = Ok e
  | ExTable h => ∃ e, store_table s h = Ok e
  | ExMemory h => ∃ e, store_memory s h = Ok e
  | ExTag h => ∃ e, store_tag s h = Ok e
  end.

Lemma check_no_panic ok why : no_panic (check ok why).
Proof using. by destruct ok. Qed.
Lemma type_valid_id i : type_valid m i = true → ∃ id, canonical_type_id m i = Ok id.
Proof using.
  unfold type_valid, canonical_type_id. intros [H1%Z.leb_le H2%Z.ltb_lt]%andb_true_iff.
  destruct (zget_is_Some (mi_type_ids m) i) as [id ->]; [lia|]. by exists id.
Qed.

Lemma link_one_no_panic imp ext sp :
  import_valid m (im_kind imp) = true → extern_ok ext → no_panic (link_one s m imp ext sp).
Proof using.
  intros Hv He. unfold link_one.
  destruct (im_kind imp) as [t|ty|mt|gt|t], ext as [f|h|h|h|h]; try done; cbn in Hv, He; destruct He as [e He].
  - apply type_valid_id in Hv as [id Hid]. destruct He as [He Hf]. unfold check_func. rewrite Hid, He. cbn.
    destruct e as [i fi|ty sg hi|ty sg hi]; cbn; try by destruct (engine_is_subtype _ _).
    destruct Hf as (pmod & t' & Hp & Hz & Ht). rewrite Hp. cbn. rewrite Hz. cbn. unfold canonical_type_id.
    destruct (zget (mi_type_ids pmod) t'); [|done]. cbn. by destruct (engine_is_subtype _ _).
  - apply is_ok_Ok in Hv as [ty' Hty]. unfold check_table. rewrite He, Hty. cbn. by destruct (_ && _).
  - unfold check_memory. rewrite He. cbn. by destruct (_ && _).
  - apply is_ok_Ok in Hv as [ty' Hty]. unfold check_global. rewrite He, Hty. cbn. by destruct (_ && _).
  - apply type_valid_id in Hv as [id Hid]. unfold check_tag. rewrite Hid, He. cbn. by destruct (_ =? _).
Qed.

(** What linking established: the space of each kind lists the provided items of that
    kind in order, each checked against its declaration. *)
Record linked (imps : list Import) (exts : list Extern) (sp : Spaces) : Prop := {
  lk_funcs : Forall2 (λ f t, check_func s m t f = Ok tt) (ix_funcs sp) (omap (λ i, sel_func (im_kind i)) imps);
  lk_memories : Forall2 (λ h mt, check_memory s mt h = Ok tt ∧ ExMemory h ∈ exts) (ix_memories sp)
    (omap (λ i, sel_memory (im_kind i)) imps);
  lk_globals : Forall2 (λ h g, check_global s m g h = Ok tt) (ix_globals sp) (omap (λ i, sel_global (im_kind i)) imps);
  lk_tables : Forall2 (λ h ty, check_table s m ty h = Ok tt ∧ ExTable h ∈ exts) (ix_tables sp)
    (omap (λ i, sel_table (im_kind i)) imps);
  lk_tags : Forall2 (λ h t, check_tag s m t h = Ok tt) (ix_tags sp) (omap (λ i, sel_tag (im_kind i)) imps);
}.
Definition spaces_app (a b : Spaces) : Spaces :=
  {| ix_funcs := ix_funcs a ++ ix_funcs b; ix_memories := ix_memories a ++ ix_memories b;
     ix_globals := ix_globals a ++ ix_globals b; ix_tables := ix_tables a ++ ix_tables b;
     ix_tags := ix_tags a ++ ix_tags b |}.
Lemma spaces_app_assoc a b c : spaces_app (spaces_app a b) c = spaces_app a (spaces_app b c).
Proof using. unfold spaces_app. cbn. by rewrite <- !app_assoc. Qed.
Lemma spaces_app_nil a : spaces_app a no_spaces = a.
Proof using. unfold spaces_app. cbn. rewrite !app_nil_r. by destruct a. Qed.
Lemma spaces_nil_app a : spaces_app no_spaces a = a.
Proof using. by destruct a. Qed.

Lemma unit_Ok (r : res ()) x : r = Ok x → r = Ok tt.
Proof using. by destruct x. Qed.

Lemma link_one_Ok imp ext sp sp' : link_one s m imp ext sp = Ok sp' →
  ∃ one, sp' = spaces_app sp one ∧ linked [imp] [ext] one.
Proof using.
  unfold link_one. destruct (im_kind imp) as [t|ty|mt|gt|t] eqn:Hk, ext as [f|h|h|h|h]; try done;
    rewrite result_bind_Ok; intros (x & Hx%unit_Ok & [= <-]);
    [exists {| ix_funcs := [f]; ix_memories := []; ix_globals := []; ix_tables := []; ix_tags := [] |}
    |exists {| ix_funcs := []; ix_memories := []; ix_globals := []; ix_tables := [h]; ix_tags := [] |}
    |exists {| ix_funcs := []; ix_memories := [h]; ix_globals := []; ix_tables := []; ix_tags := [] |}
    |exists {| ix_funcs := []; ix_memories := []; ix_globals := [h]; ix_tables := []; ix_tags := [] |}
    |exists {| ix_funcs := []; ix_memories := []; ix_globals := []; ix_tables := []; ix_tags := [h] |}];
    (split; [unfold spaces_app; cbn; by rewrite ?app_nil_r|]);
    (constructor; cbn; rewrite Hk; cbn; repeat constructor; done).
Qed.
Lemma linked_cons imp ext imps exts one rest :
  linked [imp] [ext] one → linked imps exts rest → linked (imp :: imps) (ext :: exts) (spaces_app one rest).
Proof using.
  assert (∀ {A B} (g : Import → option B) (P : A → B → Prop) l k,
    Forall2 P l (omap g [imp]) → Forall2 P k (omap g imps) → Forall2 P (l ++ k) (omap g (imp :: imps))) as Happ.
  { intros A B g P l k Hl Hk. change (imp :: imps) with ([imp] ++ imps). rewrite omap_app. by apply Forall2_app. }
  intros [] []. constructor; cbn [spaces_app ix_funcs ix_memories ix_globals ix_tables ix_tags]; apply Happ; try done;
    (eapply Forall2_impl; [done|]); cbn; intros ? ? [? ?]; (split; [done|set_solver]).
Qed.
Lemma link_loop_spec imps : ∀ exts sp, length imps = length exts →
  Forall (λ i, import_valid m (im_kind i) = true) imps → Forall extern_ok exts →
  no_panic (link_loop s m imps exts sp) ∧
  ∀ sp', link_loop s m imps exts sp = Ok sp' → ∃ new, sp' = spaces_app sp new ∧ linked imps exts new.
Proof using.
  induction imps as [|imp imps IH]; intros [|ext exts] sp Hlen Hv He; try done; cbn [link_loop].
  { split; [done|]. intros sp' [= <-]. exists no_spaces. split; [by rewrite spaces_app_nil|]. constructor; constructor. }
  apply Forall_cons in Hv as [Hv Hvs]. apply Forall_cons in He as [He Hes].
  pose proof (link_one_no_panic imp ext sp Hv He) as Hnp.
  destruct (link_one s m imp ext sp) as [sp1|e|w] eqn:H1; [|done|by destruct (Hnp w)].
  apply link_one_Ok in H1 as (one & -> & Hone). cbn [mbind result_bind].
  destruct (IH exts (spaces_app sp one)) as [Hp Hok]; [by injection Hlen|done..|].
  split; [done|]. intros sp' (new & -> & Hnew)%Hok. exists (spaces_app one new).
  split; [apply spaces_app_assoc|by apply linked_cons].
Qed.
End link.

(** ** The phases *)
Section phases.
Context `{TypeOrder, HostAlloc} (n fuel : nat) (m : ModuleInner) (fp : Footprint).
Context (Hn : (n ≤ fuel)%nat) (Hlay : layouts_ok m).

Definition memory_spec (mt : MemoryType) (e : MemoryEntity) : Prop := mem_shape e = (mt, mt_minimum mt * PAGE_SIZE).
Definition tag_spec (t : TagDef) (e : TagEntity) : Prop := canonical_type_id m (tg_type_index t) = Ok (tge_ty e).
Definition table_spec (td : TableDef) (e : TableEntity) : Prop :=
  materialize_table (mi_type_ids m) (td_ty td) = Ok (te_ty e) ∧ table_size e = tt_minimum (te_ty e).
Definition global_spec (g : GlobalDef) (e : GlobalEntity) : Prop :=
  materialize_global (mi_type_ids m) (gd_ty g) = Ok (ge_ty e) ∧ val_kind (ge_value e) = global_kind (gd_ty g).

Lemma memory_spec_same d e e' : ar_same e e' → memory_spec d e → memory_spec d e'.
Proof using. intros Hsame. unfold memory_spec. cbn in Hsame. by rewrite Hsame. Qed.
Lemma table_spec_same d e e' : ar_same e e' → table_spec d e → table_spec d e'.
Proof using.
  intros Hsame [H1 H2]. unfold table_spec. cbn in Hsame. injection Hsame as Ht Hl. by rewrite Ht, Hl.
Qed.
Lemma alloc_memories_safe mts hs s :
  store_ok s → zlen (si_memories s) + zlen mts ≤ 2 ^ 32 → forallb (λ mt, 0 <=? mt_minimum mt) mts = true →
  safe (onward fp s) (alloc_memories mts hs) s (λ out s', counted (only AkMemory (zlen mts)) s s' ∧
    ∃ new, out = hs ++ new ∧ Forall2 (fresh (zlen (si_memories s)) (store_memory s') memory_spec) new mts).
Proof using.
  clear Hn.
  intros Hs Hr Hmin.
  apply (alloc_loop_safe (H:=memory_arena) fp (λ mt _, lift (memory_new mt)) alloc_memories memory_spec
           (λ ds _ _, forallb (λ mt, 0 <=? mt_minimum mt) ds = true)); try done.
  - apply memory_spec_same.
  - intros mt ds hs' s' Hs' [Hm%Z.leb_le Hds]%andb_true_iff.
    apply safe_lift; [by apply onward_refl| |].
    + unfold memory_new. destruct (checked_mul _ _ _); [|done]. cbn. by destruct (reserve_bytes _).
    + intros e He. split_and!; [apply uncounted_refl|done| |done].
      unfold memory_new, checked_mul in He. destruct (_ <? _); [|done]. cbn in He. destruct (reserve_bytes _); [|done].
      injection He as <-. unfold memory_spec, mem_shape. cbn. rewrite zlen_resize; [done|unfold PAGE_SIZE; lia].
Qed.

Lemma alloc_tags_safe ts hs s :
  store_ok s → zlen (si_tags s) + zlen ts ≤ 2 ^ 32 → forallb (λ t, type_valid m (tg_type_index t)) ts = true →
  safe (onward fp s) (alloc_tags m ts hs) s (λ out s', counted (only AkTag (zlen ts)) s s' ∧
    ∃ new, out = hs ++ new ∧ Forall2 (fresh (zlen (si_tags s)) (store_tag s') tag_spec) new ts).
Proof using.
  clear Hn.
  intros Hs Hr Hty.
  apply (alloc_loop_safe (H:=tag_arena) fp (λ t _, ty ← lift (canonical_type_id m (tg_type_index t)); mret {| tge_ty := ty |})
           (alloc_tags m) tag_spec (λ ds _ _, forallb (λ t, type_valid m (tg_type_index t)) ds = true)); try done.
  - intros t ds hs' s'. cbn [alloc_tags]. rewrite !bind_unfold. unfold lift. by destruct (canonical_type_id m _).
  - by intros d e e' ->.
  - intros t ds hs' s' Hs' [Ht Hds]%andb_true_iff. apply type_valid_id in Ht as [id Hid]. rewrite Hid.
    apply safe_bind, safe_lift_Ok; [by apply onward_refl|]. intros _.
    apply safe_ret; [by apply onward_refl|]. split_and!; [apply uncounted_refl|done..].
Qed.

Lemma table_new_no_panic ty init : no_panic (table_new ty init).
Proof using. unfold table_new. by destruct (reserve_elems _). Qed.
Lemma materialized_min ty tt' : 0 ≤ itt_min ty → materialize_table (mi_type_ids m) ty = Ok tt' → 0 ≤ tt_minimum tt'.
Proof using.
  clear Hn.
  intros Hm. unfold materialize_table, materialize_ref.
  destruct (materialize_heap _ _); [|done..]. cbn. intros [= <-]. destruct (itt_table64 ty); cbn; [done|].
  by apply (wrap_ok 32).
Qed.
Lemma alloc_defined_tables_safe tds funcs globals hs s :
  const_wf (types_with m (func_count m) (imported_kinds m)) (ctx_of m funcs globals) s →
  store_ok s → zlen (si_tables s) + zlen tds ≤ 2 ^ 32 → forallb (table_valid n m) tds = true →
  safe (onward fp s) (alloc_defined_tables fuel m tds funcs globals hs) s (λ out s',
    counted (only AkTable (zlen tds)) s s' ∧
    ∃ new, out = hs ++ new ∧ Forall2 (fresh (zlen (si_tables s)) (store_table s') table_spec) new tds).
Proof using Hn.
  intros Hwf Hs Hr Htd. set (init_of := λ td : TableDef,
    match td_init td with
    | Some e => eval_const_ref (ctx_of m funcs globals) fuel e
    | None => mret (null_ref_of (ir_heap (itt_element (td_ty td)))) end : SM StoreInner Ref).
  apply (alloc_loop_safe (H:=table_arena) fp (λ td _, init ← init_of td; ty ← lift (materialize_table (mi_type_ids m) (td_ty td));
             lift (table_new ty init))
           (λ ds, alloc_defined_tables fuel m ds funcs globals) table_spec
           (λ ds _ s, forallb (table_valid n m) ds = true ∧
              const_wf (types_with m (func_count m) (imported_kinds m)) (ctx_of m funcs globals) s)); try done.
  - intros td ds hs' s'. cbn [alloc_defined_tables]. fold (init_of td). rewrite !bind_unfold.
    destruct (init_of td s') as [[init| |] s1]; [|done..]. rewrite !bind_unfold.
    unfold lift. destruct (materialize_table _ _); [|done..]. done.
  - apply table_spec_same.
  - intros td ds hs' s' Hs' [[Hv Hds]%andb_true_iff Hwf'].
    apply andb_true_iff in Hv as [[Hmin%Z.leb_le [ty Hty]%is_ok_Ok]%andb_true_iff Hinit].
    apply safe_seq. eapply (safe_mono _ _ _ (λ _, uncounted s')).
    { unfold init_of. destruct (td_init td) as [e|]; [|apply safe_ret; [by apply onward_refl|apply uncounted_refl]].
      eapply safe_mono; [by eapply eval_ref_onward|]. by intros r s1 _ [_ ?]. }
    intros init s1 [Hg1 Hs1] Hc1 _. rewrite Hty. apply safe_bind, safe_lift_Ok; [by apply onward_refl|]. intros _.
    apply safe_lift; [by apply onward_refl|apply table_new_no_panic|]. intros e He.
    unfold table_new in He. destruct (reserve_elems _); [|done]. injection He as <-.
    split_and!; [done|done| |].
    + split; [done|]. unfold table_size. cbn. apply zlen_resize. by eapply materialized_min.
    + intros h s2 Hg2 _. split; [done|]. eapply const_wf_grows; [|done]. by eapply grows_trans.
Qed.

Lemma init_defined_globals_safe gs funcs hs s ks :
  const_wf (types_with m (func_count m) ks) (ctx_of m funcs hs) s →
  store_ok s → zlen (si_globals s) + zlen gs ≤ 2 ^ 32 → globals_valid n m ks gs = true →
  safe (onward fp s) (init_defined_globals fuel m gs funcs hs) s (λ out s',
    counted (only AkGlobal (zlen gs)) s s' ∧
    ∃ new, out = hs ++ new ∧ Forall2 (fresh (zlen (si_globals s)) (store_global s') global_spec) new gs).
Proof using Hn.
  intros Hwf Hs Hr Hg.
  apply (alloc_loop_safe (H:=global_arena) fp (λ g hs, value ← eval_const (ctx_of m funcs hs) fuel (gd_init g);
             ty ← lift (materialize_global (mi_type_ids m) (gd_ty g)); mret {| ge_value := value; ge_ty := ty |})
           (λ ds, init_defined_globals fuel m ds funcs) global_spec
           (λ ds hs s, ∃ ks, globals_valid n m ks ds = true ∧
              const_wf (types_with m (func_count m) ks) (ctx_of m funcs hs) s)); try done.
  - intros g ds hs' s'. cbn [init_defined_globals]. rewrite !bind_unfold.
    destruct (eval_const _ _ _ s') as [[value| |] s1]; [|done..]. rewrite !bind_unfold.
    unfold lift. by destruct (materialize_global _ _).
  - by intros d e e' ->.
  - intros g ds hs' s' Hs' (ks' & Hv & Hwf'). cbn [globals_valid] in Hv.
    apply andb_true_iff in Hv as [[[ty Hty]%is_ok_Ok Hinit]%andb_true_iff Hds].
    apply safe_seq. eapply safe_mono; [by eapply eval_onward|]. cbn beta. intros x s1 [Hg1 Hs1] [Hx Hc1] _.
    rewrite Hty. apply safe_bind, safe_lift_Ok; [by apply onward_refl|]. intros _.
    apply safe_ret; [by apply onward_refl|]. split_and!; [done| |by split|].
    + unfold ar_typed, global_arena, global_typed. cbn [ge_value ge_ty].
      by rewrite (materialize_global_kind _ _ _ Hty).
    + intros h s2 Hg2 Hh. exists (ks' ++ [global_kind (gd_ty g)]). split; [done|].
      destruct (const_wf_grows fp _ _ _ _ (grows_trans _ _ _ _ Hg1 Hg2) Hwf') as [].
      constructor; try done. cbn in *. apply Forall2_app; [done|]. constructor; [|done]. by eexists.
  - by exists ks.
Qed.

(** The [i]-th defined function's entity. *)
Definition func_spec (instance : Handle) (i : Z) (e : FuncEntity) : Prop :=
  e = FeWasm instance (mi_num_imported_funcs m + i).
Definition fresh_func (base : Z) (s : StoreInner) (instance : Handle) (f : Func) (i : Z) : Prop :=
  base ≤ fn_index f ∧ store_func s f = Ok (FeWasm instance (mi_num_imported_funcs m + i)).
Lemma alloc_funcs_safe instance k : ∀ i fs s, store_ok s → zlen (si_funcs s) + Z.of_nat k ≤ 2 ^ 32 →
  safe (onward fp s) (alloc_funcs m instance k i fs) s (λ out s', counted (only AkFunc (Z.of_nat k)) s s' ∧
    ∃ new, out = fs ++ new ∧ Forall2 (fresh_func (zlen (si_funcs s)) s' instance) new (seqZ i (Z.of_nat k))).
Proof using.
  clear Hn. induction k as [|k IH]; intros i fs s Hs Hr; cbn [alloc_funcs].
  { apply safe_ret; [by apply onward_refl|]. split; [intros k; unfold only; case_decide; lia|].
    exists []. split; [by rewrite app_nil_r|constructor]. }
  set (e := FeWasm instance (mi_num_imported_funcs m + i)).
  pose proof (ar_alloc_safe (E:=FuncEntity) fp e s Hs) as (r & s1 & Ha & [Hg1 Hs1] & Hr1); [done|cbn; lia|].
  injection Ha as <- <-. destruct Hr1 as (Hc1 & Hi1 & _ & Hh1).
  apply safe_seq. eexists (Ok _), _. split; [done|]. split; [split; [exact Hg1|exact Hs1]|]. intros _.
  assert (zlen (si_funcs (ar_set (ar_list s ++ [e]) s)) = zlen (si_funcs s) + 1) as Hl by (cbn; by rewrite zlen_app).
  eapply safe_mono; [apply (IH (i + 1)); [exact Hs1|cbn in *; lia]|]. cbn beta.
  intros out s2 [Hg2 _] (Hc2 & new & -> & Hnew). split.
  { intros k'. rewrite Hc2, Hc1. unfold only. cbn [ar_kind func_arena]. case_decide; lia. }
  eexists (_ :: new). split; [by rewrite <- app_assoc|].
  rewrite seqZ_cons by lia. replace (Z.pred (Z.of_nat (S k))) with (Z.of_nat k) by lia. constructor.
  - split; [cbn; cbn in Hi1; lia|]. by eapply grows_func.
  - eapply Forall2_impl; [exact Hnew|]. intros f j [Hf He]. split; [cbn in *; lia|done].
Qed.

(** *** Segments *)
Lemma eval_elems_safe segs funcs globals s :
  const_wf (types_with m (func_count m) (global_kinds m)) (ctx_of m funcs globals) s →
  store_ok s → forallb (elem_valid n m) segs = true →
  safe (onward fp s) (eval_elems fuel m segs funcs globals) s (λ out s', uncounted s s' ∧ length out = length segs).
Proof using Hn.
  revert s. induction segs as [|seg segs IH]; intros s Hwf Hs; cbn [eval_elems forallb].
  { intros _. apply safe_ret; [by apply onward_refl|]. split; [apply uncounted_refl|done]. }
  intros [[(k & _ & Hk)%existsb_exists _]%andb_true_iff Hsegs]%andb_true_iff.
  apply safe_seq. eapply safe_mono; [by eapply elem_refs_onward|]. cbn beta.
  intros refs s1 [Hg1 Hs1] [_ Hc1] _. apply safe_seq. eapply safe_mono; [apply IH; [by eapply const_wf_grows|done..]|].
  cbn beta. intros out s2 Hs2 [Hc2 Hl] _. apply safe_ret; [by apply onward_refl; apply Hs2|]. split.
  - eapply counted_trans; [|done..]. done.
  - cbn. congruence.
Qed.

Lemma onward_put_table s h e x : store_ok s → store_table s h = Ok e → tab_shape x = tab_shape e →
  fp_tab fp (h_index h) → onward fp s (put_table h x s).
Proof using.
  intros [] He Hx Hf. destruct (resolves_get _ _ _ _ He) as [Hz _]. split; [|by constructor].
  constructor; try apply stable_refl; try done. by eapply stable_insert.
Qed.
Lemma onward_put_memory s h e x : store_ok s → store_memory s h = Ok e → mem_shape x = mem_shape e →
  fp_mem fp (h_index h) → onward fp s (put_memory h x s).
Proof using.
  intros [] He Hx Hf. destruct (resolves_get _ _ _ _ He) as [Hz _]. split; [|by constructor].
  constructor; try apply stable_refl; try done. by eapply stable_insert.
Qed.
Lemma onward_put_instance s h e x : store_ok s → store_instance s h = Ok e → inst_shape x = inst_shape e →
  fp_inst fp (h_index h) → onward fp s (put_instance h x s).
Proof using.
  intros [] He Hx Hf. destruct (resolves_get _ _ _ _ He) as [Hz _]. split; [|by constructor].
  constructor; try apply stable_refl; try done. by eapply stable_insert.
Qed.

Lemma set_run_safe h dst refs : ∀ i e s, store_ok s → store_table s h = Ok e → fp_tab fp (h_index h) →
  safe (onward fp s) (set_run h dst i refs) s (λ _ _, True).
Proof using.
  clear Hn. induction refs as [|r refs IH]; intros i e s Hs He Hf; cbn [set_run].
  { apply safe_ret; [by apply onward_refl|done]. }
  apply safe_seq, safe_reads; rewrite ?He; [by apply onward_refl|done|]. intros e' [= <-] _.
  assert (tab_shape (snd (table_set (dst + i) r e)) = tab_shape e) as Hsh.
  { unfold table_set, zset. destruct (_ && _); [|done]. unfold tab_shape, table_size. cbn. by rewrite zlen_insert. }
  assert (onward fp s (put_table h (snd (table_set (dst + i) r e)) s)) as Hs1 by by eapply onward_put_table.
  apply safe_seq. exists (Ok tt), (put_table h (snd (table_set (dst + i) r e)) s). split_and!; [done..|]. intros _.
  destruct (grows_table _ _ _ (proj1 Hs1) _ _ He) as (e2 & He2 & _). eapply IH; [apply Hs1|done..].
Qed.
Lemma apply_active_elem_safe h dst refs s : store_ok s → (∃ e, store_table s h = Ok e) → fp_tab fp (h_index h) →
  safe (onward fp s) (apply_active_elem h dst refs) s (λ _ _, True).
Proof using.
  intros Hs [e He] Hf. unfold apply_active_elem.
  apply safe_seq, safe_reads; rewrite ?He; [by apply onward_refl|done|]. intros e' [= <-] Hs'.
  destruct (checked_add _ _ _) as [end_|]; [|by eexists (Err _), s].
  destruct (end_ <=? table_size e); [by eapply set_run_safe|by eexists (Err _), s].
Qed.

Lemma const_to_usize_no_panic v trap : no_panic (const_to_usize v trap).
Proof using. destruct v; try done. unfold const_to_usize. cbn zeta. by destruct (_ <? _). Qed.

Lemma const_to_usize_nonneg v trap dst : const_to_usize v trap = Ok dst → 0 ≤ dst.
Proof using.
  clear Hn. destruct v as [x|x| | | | | | |]; try done; cbn; [intros [= <-]; by apply (wrap_ok 32)|].
  destruct (_ <? _); [|done]. intros [= <-]. by apply (wrap_ok 64).
Qed.

(** A segment's offset, and the entity it names. *)
Lemma offset_safe nf funcs globals e trap s :
  const_wf (types_with m nf (global_kinds m)) (ctx_of m funcs globals) s → store_ok s → offset_valid n m nf e = true →
  safe (onward fp s) (v ← eval_const (ctx_of m funcs globals) fuel e; lift (const_to_usize v trap)) s (λ dst _, 0 ≤ dst).
Proof using Hn.
  intros Hwf Hs He. apply safe_seq.
  assert (∃ k, const_typed (types_with m nf (global_kinds m)) n e k = true) as [k Hk].
  { unfold offset_valid in He. apply orb_true_iff in He as []; eauto. }
  eapply safe_mono; [by eapply eval_onward|]. cbn beta. intros v s1 [_ Hs1] _ _.
  apply safe_lift; [by apply onward_refl|apply const_to_usize_no_panic|]. intros dst. apply const_to_usize_nonneg.
Qed.
Lemma in_space_zget {A} (l : list A) i k : in_space i k = true → zlen l = k → ∃ x, zget l i = Some x.
Proof using. clear Hn. intros [H1%Z.leb_le H2%Z.ltb_lt]%andb_true_iff Hl. apply zget_is_Some. lia. Qed.

Lemma apply_active_elems_safe segs : ∀ evaluated funcs tables globals s,
  const_wf (types_with m (func_count m) (global_kinds m)) (ctx_of m funcs globals) s →
  store_ok s → forallb (elem_valid n m) segs = true → zlen tables = table_count m →
  Forall (λ h, (∃ e, store_table s h = Ok e) ∧ fp_tab fp (h_index h)) tables →
  safe (onward fp s) (apply_active_elems fuel m segs evaluated funcs tables globals) s (λ _ _, True).
Proof using Hn.
  induction segs as [|seg segs IH]; intros evaluated funcs tables globals s Hwf Hs Hv Hl Ht; cbn [apply_active_elems].
  { apply safe_ret; [by apply onward_refl|done]. }
  cbn [forallb] in Hv. apply andb_true_iff in Hv as [[_ Hv]%andb_true_iff Hvs].
  destruct evaluated as [|refs evaluated]; [apply safe_ret; [by apply onward_refl|done]|].
  assert (∀ s', onward fp s s' → Forall (λ h, (∃ e, store_table s' h = Ok e) ∧ fp_tab fp (h_index h)) tables) as Ht'.
  { intros s' [Hg _]. eapply Forall_impl; [done|]. intros h [[e He] Hf]. split; [|done].
    destruct (grows_table _ _ _ Hg _ _ He) as (e' & ? & _). eauto. }
  apply safe_seq. eapply (safe_mono _ _ _ (λ _ _, True)).
  - destruct (es_mode seg) as [| |table offset]; [apply safe_ret; [by apply onward_refl|done]..|].
    apply andb_true_iff in Hv as [Htab Hoff]. destruct (in_space_zget _ _ _ Htab Hl) as [h Hh].
    eapply safe_ext with (m' := (dst ← (v ← eval_const (ctx_of m funcs globals) fuel offset;
                                  lift (const_to_usize v TableOutOfBounds));
      t ← lift (expect (zget tables table) "index out of bounds"); apply_active_elem t dst refs)).
    { rewrite !bind_unfold. by destruct (eval_const _ _ _ s) as [[]]. }
    apply safe_seq. eapply safe_mono; [by eapply offset_safe|]. cbn beta. intros dst s1 Hs1 Hdst _.
    rewrite Hh. apply safe_seq, safe_lift_Ok; [by apply onward_refl; apply Hs1|]. intros _.
    pose proof (proj1 (Forall_forall _ _) (Ht' _ Hs1) h (zget_elem _ _ _ Hh)) as [? ?].
    by apply apply_active_elem_safe; [apply Hs1|..].
  - cbn beta. intros _ s1 Hs1 _ _. apply IH; [eapply const_wf_grows; [apply Hs1|done]|apply Hs1|done|done|by apply Ht'].
Qed.

Lemma init_data_safe instance memories globals idx seg s :
  const_wf (types_with m 0 (global_kinds m)) (ctx_of m [] globals) s →
  store_ok s → data_valid n m seg = true → zlen memories = memory_count m →
  Forall (λ h, (∃ e, store_memory s h = Ok e) ∧ fp_mem fp (h_index h)) memories →
  (∃ ie, store_instance s instance = Ok ie ∧ 0 ≤ idx < zlen (ie_dropped_data ie)) → fp_inst fp (h_index instance) →
  safe (onward fp s) (init_data fuel m instance memories globals idx seg) s (λ _ _, True).
Proof using Hn.
  intros Hwf Hs Hv Hl Hmem (ie & Hie & Hidx) Hf. unfold init_data, data_valid in *.
  destruct (ds_mode seg) as [|memory offset]; [apply safe_ret; [by apply onward_refl|done]|].
  apply andb_true_iff in Hv as [Hm Hoff]. destruct (in_space_zget _ _ _ Hm Hl) as [h Hh].
  eapply safe_ext with (m' := (dst ← (v ← eval_const (ctx_of m [] globals) fuel offset;
                                lift (const_to_usize v MemoryOutOfBounds)); _)).
  { rewrite !bind_unfold. destruct (eval_const _ _ _ s) as [[]]; reflexivity. }
  apply safe_seq. eapply safe_mono; [by eapply offset_safe|]. cbn beta. intros dst s1 Hs1 Hdst _.
  rewrite Hh. apply safe_seq, safe_lift_Ok; [apply onward_refl, Hs1|]. intros _.
  pose proof (proj1 (Forall_forall _ _) Hmem h (zget_elem _ _ _ Hh)) as [[e0 He0] Hfm].
  destruct (grows_memory _ _ _ (proj1 Hs1) _ _ He0) as (e & He & _).
  apply safe_seq, safe_reads; rewrite ?He; [apply onward_refl, Hs1|done|]. intros e' [= <-] _.
  destruct (checked_add _ _ _) as [end_|] eqn:Hadd; [|eexists (Err _), s1; split_and!; [done|apply onward_refl, Hs1|done]].
  destruct (Z.leb_spec end_ (zlen (me_bytes e))); [|eexists (Err _), s1; split_and!; [done|apply onward_refl, Hs1|done]].
  unfold checked_add in Hadd. destruct (_ <? _); [|done]. injection Hadd as <-.
  destruct (zsplice_is_Some (me_bytes e) (ds_bytes seg) dst) as [bytes Hb]; [lia..|]. rewrite Hb.
  apply safe_bind, safe_lift_Ok; [apply onward_refl, Hs1|]. intros _.
  assert (onward fp s1 (put_memory h {| me_bytes := bytes; me_ty := me_ty e |} s1)) as Hs2.
  { eapply onward_put_memory; [apply Hs1|done| |done]. unfold mem_shape. cbn. by rewrite (zlen_splice _ _ _ _ Hb). }
  apply safe_seq. exists (Ok tt), (put_memory h {| me_bytes := bytes; me_ty := me_ty e |} s1). split_and!; [done..|]. intros _.
  destruct (grows_instance _ _ _ (grows_trans _ _ _ _ (proj1 Hs1) (proj1 Hs2)) _ _ Hie) as (ie2 & Hie2 & Hsh & _).
  unfold drop_data, safe. rewrite Hie2. injection Hsh as _ _ _ _ _ _ _ Hlen.
  unfold zset. rewrite (proj2 (Z.leb_le _ _)), (proj2 (Z.ltb_lt _ _)) by lia. cbn [andb].
  eexists _, _. split; [done|]. split; [|done].
  eapply onward_put_instance; [apply Hs2|done| |done]. unfold inst_shape. cbn. by rewrite zlen_insert.
Qed.

Lemma init_datas_safe instance memories globals segs : ∀ idx s,
  const_wf (types_with m 0 (global_kinds m)) (ctx_of m [] globals) s →
  store_ok s → forallb (data_valid n m) segs = true → zlen memories = memory_count m →
  Forall (λ h, (∃ e, store_memory s h = Ok e) ∧ fp_mem fp (h_index h)) memories →
  0 ≤ idx → (∃ ie, store_instance s instance = Ok ie ∧ idx + zlen segs ≤ zlen (ie_dropped_data ie)) →
  fp_inst fp (h_index instance) →
  safe (onward fp s) (init_datas fuel m instance memories globals idx segs) s (λ _ _, True).
Proof using Hn.
  induction segs as [|seg segs IH]; intros idx s Hwf Hs Hv Hl Hmem Hi (ie & Hie & Hlen) Hf; cbn [init_datas].
  { apply safe_ret; [by apply onward_refl|done]. }
  cbn [forallb] in Hv. apply andb_true_iff in Hv as [Hv Hvs]. rewrite zlen_cons in Hlen. pose proof (zlen_nonneg segs).
  apply safe_seq. eapply safe_mono.
  { apply init_data_safe; try done. exists ie. split; [done|]. clear Hn. lia. }
  cbn beta. intros _ s1 [Hg1 Hs1] _ _.
  destruct (grows_instance _ _ _ Hg1 _ _ Hie) as (ie1 & Hie1 & Hsh & _). injection Hsh as _ _ _ _ _ _ _ Hlen1.
  apply IH; try done; [by eapply const_wf_grows| |clear Hn; lia|exists ie1; split; [done|clear Hn; lia]].
  eapply Forall_impl; [done|]. intros h [[e He] Hfm]. split; [|done].
  destruct (grows_memory _ _ _ Hg1 _ _ He) as (e' & ? & _). eauto.
Qed.
End phases.

(** ** Instantiation *)
Section instantiation.
Context `{TypeOrder, HostAlloc} (n fuel : nat) (m : ModuleInner) (exts : list Extern) (s : StoreInner).

(** There is room for the module's entities in the 32-bit index spaces. *)
Record room : Prop := {
  rm_memories : zlen (si_memories s) + zlen (mi_memories m) ≤ 2 ^ 32;
  rm_tags : zlen (si_tags s) + zlen (mi_tags m) ≤ 2 ^ 32;
  rm_funcs : zlen (si_funcs s) + zlen (mi_functions m) ≤ 2 ^ 32;
  rm_tables : zlen (si_tables s) + zlen (mi_tables m) ≤ 2 ^ 32;
  rm_globals : zlen (si_globals s) + zlen (mi_globals m) ≤ 2 ^ 32;
  rm_instances : zlen (si_instances s) + 1 ≤ 2 ^ 32;
}.

(** Of what the store held, only the provided memories and tables may be written. *)
Definition fp_imports : Footprint :=
  {| fp_mem := λ i, ∃ h, ExMemory h ∈ exts ∧ h_index h = i; fp_tab := λ i, ∃ h, ExTable h ∈ exts ∧ h_index h = i;
     fp_inst := λ _, False |}.
(** The same with the entities of the new instance. *)
Definition fp_new : Footprint :=
  {| fp_mem := λ i, fp_mem fp_imports i ∨ zlen (si_memories s) ≤ i;
     fp_tab := λ i, fp_tab fp_imports i ∨ zlen (si_tables s) ≤ i;
     fp_inst := λ i, zlen (si_instances s) ≤ i |}.

Lemma grows_new s' : grows fp_new s s' → grows fp_imports s s'.
Proof using.
  apply grows_weaken; cbn; intros i Hi; try destruct 1 as [|Hl]; try done;
    try (destruct (zget _ i) as [e|] eqn:He; [|done]; apply zget_Some in He; lia).
Qed.

(** The entities of the new instance: the provided ones, then new ones as declared. *)
Record entities (sp : Spaces) (fs : list Func) (ms gs ts tgs : list Handle) (inst : Handle) (s' : StoreInner) : Prop := {
  en_linked : linked s m (mi_imports m) exts sp;
  en_funcs : Forall2 (fresh_func m (zlen (si_funcs s)) s' inst) fs (seqZ 0 (zlen (mi_functions m)));
  en_memories : Forall2 (fresh (zlen (si_memories s)) (store_memory s') memory_spec) ms (mi_memories m);
  en_globals : Forall2 (fresh (zlen (si_globals s)) (store_global s') (global_spec m)) gs (mi_globals m);
  en_tables : Forall2 (fresh (zlen (si_tables s)) (store_table s') (table_spec m)) ts (mi_tables m);
  en_tags : Forall2 (fresh (zlen (si_tags s)) (store_tag s') (tag_spec m)) tgs (mi_tags m);
}.
Record instance_made (s' : StoreInner) (inst : Handle) (ie : InstanceEntity) : Prop := {
  made_index : inst = stamp s (zlen (si_instances s));
  made_module : ie_module ie = m;
  made_spaces : ∃ sp fs ms gs ts tgs, entities sp fs ms gs ts tgs inst s' ∧
    ie_funcs ie = ix_funcs sp ++ fs ∧ ie_memories ie = ix_memories sp ++ ms ∧ ie_globals ie = ix_globals sp ++ gs ∧
    ie_tables ie = ix_tables sp ++ ts ∧ ie_tags ie = ix_tags sp ++ tgs;
  made_dropped : zlen (ie_dropped_data ie) = zlen (mi_datas m);
}.

Lemma check_global_kind g h : Forall global_typed (si_globals s) → check_global s m g h = Ok tt →
  ∃ e, store_global s h = Ok e ∧ val_kind (ge_value e) = global_kind g.
Proof using.
  intros Hgl. unfold check_global. destruct (store_global s h) as [e|e|w] eqn:He; [|done..]. cbn.
  destruct (materialize_global _ g) as [ty|e'|w] eqn:Hty; [|done..]. cbn.
  destruct (eqb _ _) eqn:Hmut; [|done]. cbn. intros Hc. exists e. split; [done|].
  destruct (resolves_get _ _ _ _ He) as [Hz%zget_elem _].
  pose proof (proj1 (Forall_forall _ _) Hgl e Hz) as Hk. unfold global_typed in Hk.
  rewrite Hk, <- (materialize_global_kind _ _ _ Hty).
  destruct (gt_mutable ty).
  - case_bool_decide as Heq; [by rewrite Heq|done].
  - destruct (val_type_matches _ _) eqn:Hm; [by apply type_matches_kind|done].
Qed.
Lemma linked_globals sp : Forall global_typed (si_globals s) → linked s m (mi_imports m) exts sp →
  Forall2 (λ h k, ∃ e, store_global s h = Ok e ∧ val_kind (ge_value e) = k) (ix_globals sp) (imported_kinds m).
Proof using.
  intros Hgl Hl. unfold imported_kinds. apply Forall2_fmap_r. eapply Forall2_impl; [apply (lk_globals _ _ _ _ _ Hl)|].
  intros h g Hc. by apply check_global_kind.
Qed.
Lemma linked_memories sp : linked s m (mi_imports m) exts sp →
  Forall (λ h, (∃ e, store_memory s h = Ok e) ∧ fp_mem fp_new (h_index h)) (ix_memories sp).
Proof using.
  intros Hl. eapply Forall2_Forall_l; [apply (lk_memories _ _ _ _ _ Hl)|]. apply Forall_true. intros mt h [Hc Hin]. split.
  - unfold check_memory in Hc. destruct (store_memory s h); [eauto|done..].
  - left. by exists h.
Qed.
Lemma linked_tables sp : linked s m (mi_imports m) exts sp →
  Forall (λ h, (∃ e, store_table s h = Ok e) ∧ fp_tab fp_new (h_index h)) (ix_tables sp).
Proof using.
  intros Hl. eapply Forall2_Forall_l; [apply (lk_tables _ _ _ _ _ Hl)|]. apply Forall_true. intros ty h [Hc Hin]. split.
  - unfold check_table in Hc. destruct (store_table s h); [eauto|done..].
  - left. by exists h.
Qed.

Context (Hn : (n ≤ fuel)%nat) (Hlay : layouts_ok m) (Hv : module_valid n m = true) (Hs : store_ok s)
  (Hexts : Forall (extern_ok s) exts) (Hroom : room).

Lemma fresh_resolves {E D} base get (spec : D → E → Prop) hs ds : Forall2 (fresh base get spec) hs ds →
  Forall (λ h, (∃ e, get h = Ok e) ∧ base ≤ h_index h) hs.
Proof using.
  intros HF. eapply Forall2_Forall_l; [exact HF|]. apply Forall_true. intros d h (? & e & ? & _). eauto.
Qed.
Lemma fresh_at {E D} `{StoreArena E} base s1 s2 (spec : D → E → Prop) hs ds : grows fp_new s1 s2 →
  (∀ d e e', ar_same e e' → spec d e → spec d e') →
  Forall2 (fresh base (ar_get s1) spec) hs ds → Forall2 (fresh base (ar_get s2) spec) hs ds.
Proof using.
  intros Hg Hsp. apply fresh_impl; [done|]. intros h d e He Hd.
  destruct (ar_get_grows _ _ _ _ _ Hg He) as (e' & ? & ?). eauto.
Qed.
Lemma module_valid_parts :
  forallb (λ i, import_valid m (im_kind i)) (mi_imports m) = true ∧
  forallb (λ mt, 0 <=? mt_minimum mt) (mi_memories m) = true ∧
  forallb (λ t, type_valid m (tg_type_index t)) (mi_tags m) = true ∧
  forallb (table_valid n m) (mi_tables m) = true ∧ globals_valid n m (imported_kinds m) (mi_globals m) = true ∧
  forallb (elem_valid n m) (mi_elems m) = true ∧ forallb (data_valid n m) (mi_datas m) = true.
Proof using Hv. unfold module_valid in Hv. rewrite !andb_true_iff in Hv. tauto. Qed.

Lemma entities_grow sp fs ms gs ts tgs inst s1 s2 :
  grows fp_new s1 s2 → entities sp fs ms gs ts tgs inst s1 → entities sp fs ms gs ts tgs inst s2.
Proof using.
  intros Hg []. constructor; [done| |by eapply (fresh_at (H1:=memory_arena)); [|apply memory_spec_same|]|..].
  - eapply Forall2_impl; [done|]. intros f i [Hb He]. split; [done|]. by eapply grows_func.
  - eapply (fresh_at (H1:=global_arena)); [done|by intros d e e' ->|done].
  - eapply (fresh_at (H1:=table_arena)); [done|apply table_spec_same|done].
  - eapply (fresh_at (H1:=tag_arena)); [done|by intros d e e' ->|done].
Qed.
Lemma entities_tables sp fs ms gs ts tgs inst s' : grows fp_new s s' → entities sp fs ms gs ts tgs inst s' →
  zlen (ix_tables sp ++ ts) = table_count m ∧
  Forall (λ h, (∃ e, store_table s' h = Ok e) ∧ fp_tab fp_new (h_index h)) (ix_tables sp ++ ts).
Proof using.
  intros Hg [Hl _ _ _ Ht _]. split.
  - rewrite zlen_app, (zlen_Forall2 _ _ _ (lk_tables _ _ _ _ _ Hl)), (zlen_Forall2 _ _ _ Ht). done.
  - apply Forall_app. split.
    + eapply Forall_impl; [apply (linked_tables _ Hl)|]. intros t [[e He] Hf]. split; [|done].
      destruct (grows_table _ _ _ Hg _ _ He) as (e' & ? & _). eauto.
    + eapply Forall_impl; [by eapply fresh_resolves|]. intros t [He Hf]. split; [done|by right].
Qed.
Lemma entities_memories sp fs ms gs ts tgs inst s' : grows fp_new s s' → entities sp fs ms gs ts tgs inst s' →
  zlen (ix_memories sp ++ ms) = memory_count m ∧
  Forall (λ h, (∃ e, store_memory s' h = Ok e) ∧ fp_mem fp_new (h_index h)) (ix_memories sp ++ ms).
Proof using.
  intros Hg [Hl _ Ht _ _ _]. split.
  - rewrite zlen_app, (zlen_Forall2 _ _ _ (lk_memories _ _ _ _ _ Hl)), (zlen_Forall2 _ _ _ Ht). done.
  - apply Forall_app. split.
    + eapply Forall_impl; [apply (linked_memories _ Hl)|]. intros t [[e He] Hf]. split; [|done].
      destruct (grows_memory _ _ _ Hg _ _ He) as (e' & ? & _). eauto.
    + eapply Forall_impl; [by eapply fresh_resolves|]. intros t [He Hf]. split; [done|by right].
Qed.

(** The entity of the instance, and what remains to be done once it can be allocated. *)
Definition new_instance sp fs ms gs ts tgs (evaluated : list (list Ref)) : InstanceEntity :=
  {| ie_module := m; ie_funcs := ix_funcs sp ++ fs; ie_memories := ix_memories sp ++ ms;
     ie_globals := ix_globals sp ++ gs; ie_tables := ix_tables sp ++ ts; ie_tags := ix_tags sp ++ tgs;
     ie_dropped_data := replicate (length (mi_datas m)) false; ie_elems := passive_elem_instances m evaluated |}.

Lemma segments_safe sp fs ms gs ts tgs evaluated inst s6 :
  onward fp_new s s6 → entities sp fs ms gs ts tgs inst s6 →
  const_wf (types_with m (func_count m) (global_kinds m)) (ctx_of m (ix_funcs sp ++ fs) (ix_globals sp ++ gs)) s6 →
  zlen (si_instances s6) = zlen (si_instances s) → inst = stamp s (zlen (si_instances s)) →
  safe (onward fp_new s6)
    (_ ← allocs (alloc_instance (new_instance sp fs ms gs ts tgs evaluated));
     apply_active_elems fuel m (mi_elems m) evaluated (ix_funcs sp ++ fs) (ix_tables sp ++ ts) (ix_globals sp ++ gs);;
     init_datas fuel m inst (ix_memories sp ++ ms) (ix_globals sp ++ gs) 0 (mi_datas m);;
     mret inst) s6 (λ inst' s', ∃ ie, store_instance s' inst' = Ok ie ∧ instance_made s' inst' ie).
Proof using Hn Hv Hroom.
  intros [Hg6 Hs6] He6 W6 Hc Hinst. destruct module_valid_parts as (_ & _ & _ & _ & _ & Ve & Vd).
  pose proof (rm_instances Hroom) as Hri.
  set (ie := new_instance sp fs ms gs ts tgs evaluated). change (alloc_instance ie) with (ar_alloc ie).
  apply safe_seq. eapply safe_mono; [apply ar_alloc_safe; [done|done|cbn; lia]|].
  cbn beta. intros h s7 [Hg7 Hs7] (_ & Hhi & Hhs & Hh) _.
  assert (h = inst) as ->.
  { rewrite Hinst. destruct h as [hi hs]. cbn in Hhi, Hhs. unfold stamp.
    f_equal; [lia|]. by rewrite Hhs, (grows_id _ _ _ Hg6). }
  pose proof (grows_trans _ _ _ _ Hg6 Hg7) as Hg07. pose proof (entities_grow _ _ _ _ _ _ _ _ _ Hg7 He6) as He7.
  pose proof (const_wf_grows _ _ _ _ _ Hg7 W6) as W7.
  destruct (entities_tables _ _ _ _ _ _ _ _ Hg07 He7) as [Htl Htf].
  apply safe_seq. eapply safe_mono; [by eapply apply_active_elems_safe|]. cbn beta. intros _ s8 [Hg8 Hs8] _ _.
  pose proof (grows_trans _ _ _ _ Hg07 Hg8) as Hg08. pose proof (entities_grow _ _ _ _ _ _ _ _ _ Hg8 He7) as He8.
  destruct (entities_memories _ _ _ _ _ _ _ _ Hg08 He8) as [Hml Hmf].
  destruct (grows_instance _ _ _ Hg8 _ _ Hh) as (ie8 & Hie8 & Hsh8 & _).
  apply safe_seq. eapply safe_mono.
  { eapply init_datas_safe; try done.
    - destruct (const_wf_grows _ _ _ _ _ Hg8 W7). by constructor.
    - exists ie8. split; [done|]. injection Hsh8 as _ _ _ _ _ _ _ ->. cbn [ie_dropped_data ie new_instance].
      rewrite zlen_replicate. unfold zlen. lia.
    - rewrite Hinst. cbn. lia. }
  cbn beta. intros _ s9 [Hg9 Hs9] _ _.
  destruct (grows_instance _ _ _ Hg9 _ _ Hie8) as (ie9 & Hie9 & Hsh9 & _). rewrite Hsh8 in Hsh9.
  apply safe_ret; [by apply onward_refl|]. exists ie9. split; [done|].
  injection Hsh9 as E1 E2 E3 E4 E5 E6 _ E8. cbn in E1, E2, E3, E4, E5, E6, E8.
  constructor; [done|done| |by rewrite E8, zlen_replicate].
  exists sp, fs, ms, gs, ts, tgs. split_and!; try done. by eapply entities_grow.
Qed.

Lemma instantiate_safe :
  safe (onward fp_new s) (instantiate fuel m exts) s
    (λ inst s', ∃ ie, store_instance s' inst = Ok ie ∧ instance_made s' inst ie).
Proof using Hn Hlay Hv Hs Hexts Hroom.
  destruct module_valid_parts as (Vi & Vm & Vt & Vtab & Vg & Ve & _). pose proof Hroom as [].
  unfold instantiate. destruct (Z.eqb_spec (zlen (mi_imports m)) (zlen exts)) as [Hlen|]; cbn [negb];
    [|by eexists (Err _), s; split_and!; [|apply onward_refl|]].
  destruct (link_loop_spec s m (mi_imports m) exts no_spaces) as [Hlp Hlink]; [unfold zlen in Hlen; lia| |done|].
  { apply Forall_forall. intros i Hi. by eapply (proj1 (forallb_forall _ _) Vi), list_elem_of_In. }
  apply safe_seq, safe_reads; [by apply onward_refl|done|]. intros ? (sp & -> & Hsp)%Hlink _. rewrite spaces_nil_app.
  apply safe_seq. eapply safe_mono; [by apply alloc_memories_safe|]. cbn beta.
  intros memories s1 [Hg1 Hs1] (C1 & ms & -> & Fm) _. arena_count C1 AkTag.
  apply safe_seq. eapply safe_mono; [apply alloc_tags_safe; [done|lia|done]|].
  cbn beta. intros tags s2 [Hg2 Hs2] (C2 & tgs & -> & Ft) _.
  apply safe_seq. exists (Ok s2), s2. split_and!; [done|by apply onward_refl|]. intros _. cbn zeta.
  pose proof (counted_trans _ _ _ _ _ _ (λ k, eq_refl) C1 C2) as C02. arena_count C02 AkFunc. arena_count C02 AkInstance.
  pose proof (grows_trans _ _ _ _ Hg1 Hg2) as Hg02.
  assert (reserve_instance s2 = stamp s (zlen (si_instances s))) as ->.
  { unfold reserve_instance, stamp. pose proof (zlen_nonneg (si_instances s)). f_equal; [|by apply grows_id in Hg02].
    rewrite wrap_id by (unfold u_ok; lia). lia. }
  apply safe_seq. eapply safe_mono; [apply alloc_funcs_safe; [done|unfold zlen in *; lia]|].
  cbn beta. intros funcs s3 [Hg3 Hs3] (C3 & fs & -> & Ff) _. pose proof (grows_trans _ _ _ _ Hg02 Hg3) as Hg03.
  assert (const_wf (types_with m (func_count m) (imported_kinds m)) (ctx_of m (ix_funcs sp ++ fs) (ix_globals sp)) s3) as W3.
  { constructor; [done|done| |]; cbn.
    - rewrite zlen_app, (zlen_Forall2 _ _ _ (lk_funcs _ _ _ _ _ Hsp)), (zlen_Forall2 _ _ _ Ff), zlen_seqZ by apply zlen_nonneg.
      done.
    - eapply Forall2_impl; [apply linked_globals; [apply Hs|done]|]. cbn. intros h k (e & He & Hk).
      exists e. split; [by eapply grows_global|done]. }
  pose proof (counted_trans _ _ _ _ _ _ (λ k, eq_refl) C02 C3) as C03. arena_count C03 AkTable.
  apply safe_seq. eapply safe_mono; [eapply alloc_defined_tables_safe; [done..|lia|done]|].
  cbn beta. intros tables s4 [Hg4 Hs4] (C4 & ts & -> & Ftab) _. pose proof (const_wf_grows _ _ _ _ _ Hg4 W3) as W4.
  pose proof (counted_trans _ _ _ _ _ _ (λ k, eq_refl) C03 C4) as C04. arena_count C04 AkGlobal.
  apply safe_seq. eapply safe_mono; [eapply init_defined_globals_safe; [done..|lia|done]|].
  cbn beta. intros globals s5 [Hg5 Hs5] (C5 & gs & -> & Fg) _.
  assert (const_wf (types_with m (func_count m) (global_kinds m)) (ctx_of m (ix_funcs sp ++ fs) (ix_globals sp ++ gs)) s5) as W5.
  { destruct (const_wf_grows _ _ _ _ _ Hg5 W4) as []. constructor; [done..|]. cbn in *. unfold global_kinds.
    apply Forall2_app; [done|]. apply Forall2_fmap_r. eapply Forall2_impl; [exact Fg|].
    intros h g (_ & e & He & _ & Hk). by exists e. }
  apply safe_seq. eapply safe_mono; [eapply eval_elems_safe; done|].
  cbn beta. intros evaluated s6 [Hg6 Hs6] (C6 & _) _.
  pose proof (counted_trans _ _ _ _ _ _ (λ k, eq_refl) (counted_trans _ _ _ _ _ _ (λ k, eq_refl) C04 C5) C6) as C06.
  arena_count C06 AkInstance. pose proof (grows_trans _ _ _ _ Hg5 Hg6) as Hg46. pose proof (grows_trans _ _ _ _ Hg4 Hg46) as Hg36.
  apply (segments_safe sp fs ms gs ts tgs evaluated).
  - split; [by eapply grows_trans|done].
  - eapply (entities_grow _ _ _ _ _ _ _ s5); [done|]. pose proof (grows_trans _ _ _ _ Hg4 Hg5) as Hg35.
    constructor; [done|..].
    + eapply Forall2_impl; [exact Ff|]. intros f i [Hb He]. split; [lia|]. by eapply grows_func.
    + eapply (fresh_at (H1:=memory_arena)); [exact (grows_trans _ _ _ _ Hg2 (grows_trans _ _ _ _ Hg3 Hg35))|apply memory_spec_same|exact Fm].
    + eapply fresh_impl; [|eauto|exact Fg]. lia.
    + eapply (fresh_at (H1:=table_arena)); [exact Hg5|apply table_spec_same|eapply fresh_impl; [|eauto|exact Ftab]; lia].
    + eapply (fresh_at (H1:=tag_arena)); [exact (grows_trans _ _ _ _ Hg3 Hg35)|by intros d e e' ->|].
      eapply fresh_impl; [|eauto|exact Ft]. lia.
  - exact (const_wf_grows _ _ _ _ _ Hg6 W5).
  - lia.
  - done.
Qed.
End instantiation.
