(* ===== verification/Linking.v ===== *)
(** * Linking: what instantiation promises (properties of Instantiate.v)

    The main theorem of instantiation with a concrete module that uses every phase, the
    exact effect of an active element segment, and how immutable global imports
    compare their types. *)
From S2P Require Import Prelude Keep Types Layout Codec Arena Heap Op Entity Store.
From S2P Require Import Limits Memory GcOps ConstEval Instantiate InstanceSafe.
Open Scope Z_scope.

(** C10: instantiating a validated module never panics, whatever the host provides.
    If it fails, and also if it succeeds, nothing that was in the store is disturbed:
    every function, global, tag and instance is as it was, every live object of the heap
    and every live externref entry too, under its generation, and only the contents of
    the provided memories and tables may have been written, never their sizes or types.
    If it succeeds, the instance handle is the next one of the store, and the
    instance's index spaces are the provided entities, each checked against its
    import, followed by new entities of the declared types. *)
Theorem instantiate_sound `{TypeOrder, HostAlloc} n fuel m exts s :
  layouts_ok m → module_valid n m = true → (n ≤ fuel)%nat → store_ok s → Forall (extern_ok s) exts → room m s →
  ∃ r s', instantiate fuel m exts s = (r, s') ∧ no_panic r ∧ grows (fp_imports exts) s s' ∧ store_ok s' ∧
    ∀ inst, r = Ok inst → ∃ ie, store_instance s' inst = Ok ie ∧ instance_made m exts s s' inst ie.
Proof.
  intros Hlay Hv Hn Hs He Hr.
  destruct (instantiate_safe n fuel m exts s Hn Hlay Hv Hs He Hr) as (r & s' & Hrun & [Hg Hok] & HQ).
  exists r, s'. split_and!; [done| |by eapply grows_new|done|].
  - by intros w ->.
  - by intros inst ->.
Qed.

(** ** Active element segments *)

Lemma put_table_put h e e' s : put_table h e (put_table h e' s) = put_table h e s.
Proof. unfold put_table. cbn. by rewrite list_insert_insert_eq. Qed.
Lemma store_put_table s h e e' : store_table s h = Ok e → store_table (put_table h e' s) h = Ok e'.
Proof. apply arena_put_eq. Qed.

Lemma set_run_spec h dst refs : ∀ i e s,
  store_table s h = Ok e → 0 ≤ dst + i → dst + i + zlen refs ≤ table_size e →
  set_run h dst i refs s = (Ok tt, put_table h (with_elems e (overwrite (te_elems e) (dst + i) refs)) s).
Proof.
  induction refs as [|r refs IH]; intros i e s He Hi Hl; cbn [set_run].
  - unfold overwrite. rewrite zlen_nil, Z.add_0_r. cbn [app]. rewrite ztake_drop.
    replace (with_elems e (te_elems e)) with e by (by destruct e). by rewrite put_table_same.
  - rewrite (reads_Ok (λ s, store_table s h) _ s e He), modify_run. unfold table_size in Hl. rewrite zlen_cons in Hl.
    pose proof (zlen_nonneg refs).
    assert (snd (table_set (dst + i) r e) = with_elems e (<[Z.to_nat (dst + i) := r]> (te_elems e))) as ->.
    { unfold table_set, zset. by rewrite (proj2 (Z.leb_le _ _)), (proj2 (Z.ltb_lt _ _)) by lia. }
    rewrite (IH (i + 1) _ _ (store_put_table _ _ _ _ He)); [|lia|unfold table_size; cbn; rewrite zlen_insert; lia].
    rewrite put_table_put. cbn [te_elems with_elems]. replace (dst + (i + 1)) with (dst + i + 1) by lia.
    by rewrite overwrite_cons by lia.
Qed.

(** An active element segment is written as a whole or not at all: when it fits,
    exactly the run of its elements is replaced, in order; when its end is past the
    table or overflows, the segment traps and the table is as it was. *)
Theorem active_elem_exact h dst refs e s :
  store_table s h = Ok e → 0 ≤ dst →
  apply_active_elem h dst refs s =
    (if dst + zlen refs <=? Z.min (table_size e) (u_max 64)
     then (Ok tt, put_table h (with_elems e (overwrite (te_elems e) dst refs)) s)
     else (Err (ETrap TableOutOfBounds), s)).
Proof.
  intros He Hd. unfold apply_active_elem. rewrite (reads_Ok (λ s, store_table s h) _ s e He).
  unfold checked_add, u_max. destruct (Z.ltb_spec (dst + zlen refs) (2 ^ usize_bits)).
  - destruct (Z.leb_spec (dst + zlen refs) (table_size e)).
    + rewrite (proj2 (Z.leb_le _ _)) by lia. rewrite (set_run_spec h dst refs 0 e s He); rewrite ?Z.add_0_r; done.
    + by rewrite (proj2 (Z.leb_gt _ _)) by lia.
  - by rewrite (proj2 (Z.leb_gt _ _)) by lia.
Qed.

(** ** Imports of immutable globals *)

(** C33: an import of an immutable global compares its type with the provided one by the
    abstract lattice and by identity of concrete types only: a global of a concrete
    type that is declared a proper subtype of the imported concrete type is refused, although
    the registry knows the two to be related and a function import of the same two types would be
    accepted. *)
Theorem global_import_ignores_declared_subtypes `{TypeOrder} s m g h e declared nullable nullable' sub super :
  store_global s h = Ok e → ge_ty e = {| gt_content := TRef {| rt_nullable := nullable; rt_heap := sub |}; gt_mutable := false |} →
  materialize_global (mi_type_ids m) g = Ok declared →
  declared = {| gt_content := TRef {| rt_nullable := nullable'; rt_heap := super |}; gt_mutable := false |} →
  (∃ a b, a ≠ b ∧ engine_is_subtype a b = true ∧
     (sub, super) ∈ [(HtConcreteStruct a, HtConcreteStruct b); (HtConcreteArray a, HtConcreteArray b);
                     (HtConcreteFunc a, HtConcreteFunc b)]) →
  check_global s m g h = Err (EMsg "imported global type mismatch").
Proof.
  intros He Hty Hd -> (a & b & Hne & _ & Hin). unfold check_global. rewrite He, Hd. cbn. rewrite Hty. cbn.
  unfold ref_matches. cbn [rt_nullable rt_heap].
  assert (heap_matches sub super = false) as ->; [|by rewrite andb_false_r].
  rewrite !elem_of_cons in Hin. destruct Hin as [[= -> ->]|[[= -> ->]|[[= -> ->]|Hin%not_elem_of_nil]]]; try done;
    unfold heap_matches; rewrite decide_False by congruence; done.
Qed.

(** ** A module that uses every phase

    It imports a host function, a memory and an immutable global; it defines a function, a
    table initialized with a reference to it, a global computed from the imported one,
    an active and a passive element segment and an active data segment, and exports
    what it defines and what it imports. *)
Definition link_module : ModuleInner := set_interned [7]
  {| mi_types := [ {| mt_group := 0; mt_finality := Final; mt_supertype := None; mt_body := CompFunc [] [] |} ];
     mi_func_types := [0; 0]; mi_num_imported_funcs := 1;
     mi_functions := [ {| cf_ops := {| sp_start := 0; sp_len := 0 |}; cf_type_idx := 0; cf_n_params := 0; cf_n_results := 0;
                          cf_local_types := {| sp_start := 0; sp_len := 0 |}; cf_max_operands := 0;
                          cf_handlers := {| sp_start := 0; sp_len := 0 |}; cf_br_tables := {| sp_start := 0; sp_len := 0 |};
                          cf_big_memargs := {| sp_start := 0; sp_len := 0 |}; cf_offsets := {| sp_start := 0; sp_len := 0 |} |} ];
     mi_code := empty_arenas;
     mi_imports := [ {| im_module := "host"; im_name := "f"; im_kind := ImpFunc 0 |};
                     {| im_module := "host"; im_name := "mem"; im_kind := ImpMemory {| mt_minimum := 1; mt_maximum := None; mt_memory64 := false |} |};
                     {| im_module := "host"; im_name := "base"; im_kind := ImpGlobal {| igt_content := IrI32; igt_mutable := false |} |} ];
     mi_exports := [ {| ex_name := "own"; ex_kind := ExpFunc 1 |}; {| ex_name := "tab"; ex_kind := ExpTable 0 |};
                     {| ex_name := "mem"; ex_kind := ExpMemory 0 |}; {| ex_name := "next"; ex_kind := ExpGlobal 1 |};
                     {| ex_name := "host"; ex_kind := ExpFunc 0 |} ];
     mi_memories := [];
     mi_tables := [ {| td_ty := {| itt_element := {| ir_nullable := true; ir_heap := IrFunc |}; itt_min := 4; itt_max := None; itt_table64 := false |};
                       td_init := Some [CoRefFunc 1] |} ];
     mi_globals := [ {| gd_ty := {| igt_content := IrI32; igt_mutable := true |}; gd_init := [CoGlobalGet 0; CoI32 1; CoI32Add] |} ];
     mi_tags := [ {| tg_type_index := 0 |} ]; mi_num_imported_tags := 0;
     mi_datas := [ {| ds_mode := DmActive 0 [CoI32 8]; ds_bytes := [11; 12; 13] |} ];
     mi_elems := [ {| es_mode := EmActive 0 [CoGlobalGet 1]; es_items := EiFuncs [0; 1] |};
                   {| es_mode := EmPassive; es_items := EiExprs [[CoRefNull IrFunc]] |} ];
     mi_start := None; mi_type_ids := []; mi_layouts := [] |}.
Definition link_store : StoreInner :=
  set_si_funcs [FeHost 7 (host_sig_new [] []) 0]
    (set_si_memories [ {| me_bytes := zeroed PAGE_SIZE; me_ty := {| mt_minimum := 1; mt_maximum := None; mt_memory64 := false |} |} ]
       (set_si_globals [ {| ge_value := VI32 1; ge_ty := {| gt_content := TI32; gt_mutable := false |} |} ] (store_new 1 true 0))).
Definition link_exts : list Extern :=
  [ExFunc {| fn_index := 0; fn_store := 1 |}; ExMemory {| h_index := 0; h_store := 1 |}; ExGlobal {| h_index := 0; h_store := 1 |}].
#[local] Instance link_order : TypeOrder := {| engine_is_subtype := Z.eqb |}.
#[local] Instance link_alloc : HostAlloc := {| reserve_bytes := λ _, true; reserve_elems := λ _, true |}.

Definition table_funcs (t : TableEntity) : list (option Z) :=
  (λ x, match x with RefFunc (Some f) => Some (fn_index f) | _ => None end) <$> te_elems t.
(** The table ends up as [own, own, f, own]: the segment is put at the global's value, 2. *)
Example link_runs :
  let '(r, s) := instantiate 1 link_module link_exts link_store in
  r = Ok {| h_index := 0; h_store := 1 |} ∧
  table_funcs <$> si_tables s = [[Some 1; Some 1; Some 0; Some 1]] ∧
  ge_value <$> si_globals s = [VI32 1; VI32 2] ∧
  ((λ e, zslice (me_bytes e) 7 12) <$> si_memories s) = [Some [0; 11; 12; 13; 0]] ∧
  ((λ i, (ie_dropped_data i, ie_elems i)) <$> si_instances s) = [([true], [[]; [RefFunc None]])].
Proof. vm_compute. by split_and!. Qed.
(** With the provided global at 5 the segment does not fit: the store keeps what was made. *)
Example link_traps :
  let s0 := set_si_globals [ {| ge_value := VI32 5; ge_ty := {| gt_content := TI32; gt_mutable := false |} |} ] link_store in
  let '(r, s) := instantiate 1 link_module link_exts s0 in
  r = Err (ETrap TableOutOfBounds) ∧ zlen (si_instances s) = 1 ∧
  ((λ e, zslice (me_bytes e) 7 12) <$> si_memories s) = [Some [0; 0; 0; 0; 0]].
Proof. vm_compute. by split_and!. Qed.

Lemma link_store_ok : store_ok link_store.
Proof. constructor; [apply heap_wf_new|split; [constructor|by intros i ?%not_elem_of_nil]|by constructor]. Qed.
Lemma link_exts_ok : Forall (extern_ok link_store) link_exts.
Proof. repeat constructor; (eexists; split; [reflexivity|done]) || (eexists; reflexivity). Qed.

Lemma instantiate_sound_witness :
  module_valid 1 link_module = true ∧
  ∃ r s', instantiate 1 link_module link_exts link_store = (r, s') ∧ no_panic r ∧
    grows (fp_imports link_exts) link_store s' ∧ store_ok s' ∧
    ∀ inst, r = Ok inst → ∃ ie, store_instance s' inst = Ok ie ∧ instance_made link_module link_exts link_store s' inst ie.
Proof.
  split; [vm_compute; reflexivity|].
  apply (instantiate_sound 1 1 link_module link_exts link_store (interned_layouts_ok _ _));
    [vm_compute; reflexivity|lia|exact link_store_ok|exact link_exts_ok|constructor; vm_compute; discriminate].
Defined.

Definition link_table : Handle := {| h_index := 0; h_store := 1 |}.
Definition link_refs (i : Z) : list Ref := [RefFunc (Some {| fn_index := i; fn_store := 1 |})].
Definition link_table_store : StoreInner :=
  set_si_tables [ {| te_elems := link_refs 1 ++ link_refs 2; te_ty := table_type_new {| rt_nullable := true; rt_heap := HtFunc |} 2 None |} ]
    (store_new 1 true 0).
Lemma active_elem_exact_witness :
  (apply_active_elem link_table 1 (link_refs 3) link_table_store).1 = Ok tt ∧
  apply_active_elem link_table 2 (link_refs 3) link_table_store = (Err (ETrap TableOutOfBounds), link_table_store).
Proof.
  split.
  - rewrite (active_elem_exact link_table 1 (link_refs 3) _ link_table_store eq_refl); [reflexivity|lia].
  - rewrite (active_elem_exact link_table 2 (link_refs 3) _ link_table_store eq_refl); [reflexivity|lia].
Defined.

(** A module whose type 0 is a struct type, and a global of a declared subtype of it. *)
Definition link_subtypes : TypeOrder := {| engine_is_subtype := λ a b, (a =? b) || ((a =? 8) && (b =? 7)) |}.
Definition sub_global : GlobalEntity :=
  {| ge_value := VAnyRef None; ge_ty := {| gt_content := TRef {| rt_nullable := true; rt_heap := HtConcreteStruct 8 |}; gt_mutable := false |} |}.
Lemma global_import_ignores_declared_subtypes_witness :
  @engine_is_subtype link_subtypes 8 7 = true ∧
  check_global (set_si_globals [sub_global] (store_new 1 true 0)) (set_interned [7] empty_module)
    {| igt_content := IrRefTy true (IrConcrete 0 AggStruct); igt_mutable := false |} {| h_index := 0; h_store := 1 |}
  = Err (EMsg "imported global type mismatch").
Proof.
  split; [reflexivity|].
  eapply (@global_import_ignores_declared_subtypes link_subtypes _ _ _ _ sub_global _ true true
           (HtConcreteStruct 8) (HtConcreteStruct 7)); [reflexivity..|].
  exists 8, 7. split; [lia|]. split; [reflexivity|]. left.
Defined.
