(* ===== verification/Aggregates.v ===== *)
(** * Aggregates: what the GC instructions do to objects
    (theorems about GcOps.v)

    An array body is read as a sequence of elements and a struct body as its
    fields.  The bulk instructions are element-wise assignments of a whole range,
    with the source read before anything is written, or traps that leave every
    object as it was. *)
From stdpp Require Import relations.
From S2P Require Import Prelude Types Layout Codec Arena Heap Op Entity Store Collect Stack Frame Limits.
From S2P Require Import Memory Reserve GcOps.
Open Scope Z_scope.

(** ** Slots and windows *)

(** The bytes of one slot decide what every getter reads, wherever they lie. *)
Lemma read_window_shift s ext o1 o2 d1 d2 w :
  0 ≤ o1 → 0 ≤ o2 →
  zslice d1 o1 (o1 + slot_width s) = Some w → zslice d2 o2 (o2 + slot_width s) = Some w →
  read_ext ext (with_offset s o1) d1 = read_ext ext (with_offset s o2) d2.
Proof.
  intros Ho1 Ho2 H1 H2. pose proof (zlen_slice _ _ _ _ H1) as Hw1. pose proof (slot_width_pos s).
  pose proof H1 as (? & ? & E1)%zslice_Some. pose proof H2 as (? & ? & E2)%zslice_Some.
  assert (∀ n, 0 ≤ n ≤ slot_width s → le n (zdrop o1 d1) = le n (zdrop o2 d2)) as Hle.
  { intros n Hn. rewrite !le_Some by (rewrite zlen_drop; lia). f_equal.
    transitivity (ztake n w).
    - rewrite E1, ztake_ztake by lia. done.
    - rewrite E2, ztake_ztake by lia. done. }
  unfold read_ext, read_slot_packed.
  destruct s as [o k|o k]; cbn in *; rewrite !tail_from_Some by lia; cbn.
  - pose proof (scalar_width_pos k).
    destruct ext as [b|]; [|destruct k; cbn in *; rewrite Hle; (done || lia)].
    f_equal. destruct k; cbn in *; rewrite Hle; (done || lia).
  - destruct ext; [done|]. unfold le_u32, REF_WIDTH in *. rewrite Hle; (done || lia).
Qed.

Lemma elem_at_of e i : elem_at (array_layout_of e) i = with_offset e (i * slot_width e).
Proof. done. Qed.

(** Element [i] of a body, as the getter [ext] reads it. *)
Definition elem (e : Slot) (ext : option bool) (data : list Z) (i : Z) : res Val :=
  read_ext ext (elem_at (array_layout_of e) i) data.

(** Splicing a run of element bytes is an element-wise assignment. *)
Lemma elem_splice e ext data src data' at_ from len n i :
  zlen data = n * slot_width e → 0 ≤ at_ → 0 ≤ from → 0 ≤ len → at_ + len ≤ n →
  (from + len) * slot_width e ≤ zlen src →
  zsplice data (at_ * slot_width e) (ztake (len * slot_width e) (zdrop (from * slot_width e) src)) = Some data' →
  0 ≤ i < n →
  elem e ext data' i = if (at_ <=? i) && (i <? at_ + len) then elem e ext src (from + i - at_) else elem e ext data i.
Proof.
  intros Hlen Ha Hf Hl Hb Hs Hsp Hi. unfold elem. rewrite !elem_at_of. pose proof (slot_width_pos e) as Hw.
  set (w := slot_width e) in *.
  assert (0 ≤ (from + len) * w) by nia. assert (from * w + len * w = (from + len) * w) by lia.
  assert (zlen (ztake (len * w) (zdrop (from * w) src)) = len * w) as Hc.
  { rewrite zlen_take; [done|]. rewrite zlen_drop by nia. nia. }
  pose proof (zlen_splice _ _ _ _ Hsp) as Hlen'.
  assert (i * w + w ≤ zlen data') by nia.
  destruct (Z.leb_spec at_ i), (Z.ltb_spec i (at_ + len)); cbn [andb].
  - eapply read_window_shift; [nia|nia|..].
    + apply zslice_is_Some; fold w; nia.
    + fold w. apply zslice_Some. split; [nia|]. split; [nia|].
      apply zget_ext; [rewrite !zlen_take; rewrite ?zlen_drop; nia|].
      intros j. rewrite zlen_take by (rewrite zlen_drop; nia). intros Hj.
      rewrite !zget_take, !zget_drop by nia.
      rewrite (zget_splice_in _ _ _ _ _ Hsp) by nia.
      rewrite zget_take, zget_drop by nia. f_equal. nia.
  - eapply read_window_shift; [nia|nia|..]; fold w;
      [rewrite (zslice_splice_ne _ _ _ _ _ _ Hsp) by nia|]; apply zslice_is_Some; nia.
  - eapply read_window_shift; [nia|nia|..]; fold w;
      [rewrite (zslice_splice_ne _ _ _ _ _ _ Hsp) by nia|]; apply zslice_is_Some; nia.
  - lia.
Qed.

(** ** Writing values *)
Definition fits_slot (e : Slot) (v : Val) : Prop := slot_accepts e v = true ∧ val_ok v ∧ storable v.

Lemma accepts_with_offset e o v : slot_accepts (with_offset e o) v = slot_accepts e v.
Proof. by destruct e. Qed.
Lemma view_with_offset e o v : slot_view (with_offset e o) v = slot_view e v.
Proof. by destruct e. Qed.
Lemma bytes_with_offset e o v : slot_bytes (with_offset e o) v = slot_bytes e v.
Proof. by destruct e. Qed.

Lemma elem_slot_bytes e v : fits_slot e v → zlen (slot_bytes e v) = slot_width e →
  elem e None (slot_bytes e v) 0 = Ok (slot_view e v).
Proof.
  intros (Ha & Hv & Hs) Hl. unfold elem. rewrite elem_at_of, Z.mul_0_l. cbn [read_ext].
  pose proof (slot_width_pos e). rewrite <- (view_with_offset e 0).
  apply read_window; rewrite ?offset_with_offset, ?width_with_offset, ?accepts_with_offset,
    ?bytes_with_offset; try done; try lia.
  rewrite zslice_is_Some by lia. by rewrite zdrop_0, ztake_all by lia.
Qed.

Lemma write_elem_spec e data v n j :
  fits_slot e v → zlen data = n * slot_width e → 0 ≤ j < n →
  ∃ data', write_slot (elem_at (array_layout_of e) j) data v = Ok data' ∧ zlen data' = zlen data ∧
    ∀ i, 0 ≤ i < n → elem e None data' i = if i =? j then Ok (slot_view e v) else elem e None data i.
Proof.
  intros Hf Hl Hj. pose proof Hf as (Ha & _). pose proof (slot_width_pos e).
  rewrite elem_at_of.
  destruct (write_slot_splice (with_offset e (j * slot_width e)) data v) as [-> Hb];
    rewrite ?offset_with_offset, ?width_with_offset, ?accepts_with_offset; try done; try nia.
  rewrite ?offset_with_offset, ?bytes_with_offset, ?width_with_offset in *.
  destruct (zsplice_is_Some data (slot_bytes e v) (j * slot_width e)) as [data' Hd]; [nia..|].
  exists data'. rewrite Hd. pose proof (zlen_splice _ _ _ _ Hd). split_and!; [done..|].
  intros i Hi. rewrite (elem_splice e None data (slot_bytes e v) data' j 0 1 n i); try done; try nia.
  - destruct (Z.eqb_spec i j) as [->|].
    + rewrite (proj2 (Z.leb_le _ _)), (proj2 (Z.ltb_lt _ _)) by lia. cbn [andb].
      replace (0 + j - j) with 0 by lia. by apply elem_slot_bytes.
    + replace ((j <=? i) && (i <? j + 1)) with false; [done|]. symmetry. apply andb_false_iff.
      rewrite Z.leb_gt, Z.ltb_ge. lia.
  - rewrite Z.mul_0_l, zdrop_0, Z.mul_1_l, ztake_all by lia. done.
Qed.

(** The elements from [at_] on hold [vs], the others are as before. *)
Definition assigned (e : Slot) (n at_ : Z) (vs : list Val) (data data' : list Z) : Prop :=
  zlen data' = zlen data ∧
  ∀ i, 0 ≤ i < n → elem e None data' i =
    match zget vs (i - at_) with Some v => Ok (slot_view e v) | None => elem e None data i end.

Lemma assigned_cons e n at_ v vs data data1 data' :
  (∀ i, 0 ≤ i < n → elem e None data1 i = if i =? at_ then Ok (slot_view e v) else elem e None data i) →
  zlen data1 = zlen data → assigned e n (at_ + 1) vs data1 data' → assigned e n at_ (v :: vs) data data'.
Proof.
  intros H1 Hl [Hl' H2]. split; [congruence|]. intros i Hi. rewrite H2 by done.
  destruct (decide (i = at_)) as [->|].
  - rewrite Z.sub_diag, zget_cons_0, H1, Z.eqb_refl by done.
    unfold zget at 1. by rewrite (proj2 (Z.leb_gt _ _)) by lia.
  - destruct (decide (at_ < i)).
    + rewrite zget_cons_S by lia. replace (i - at_ - 1) with (i - (at_ + 1)) by lia.
      destruct (zget vs _); [done|]. rewrite H1 by done. by rewrite (proj2 (Z.eqb_neq _ _)) by done.
    + unfold zget. rewrite !(proj2 (Z.leb_gt _ _)) by lia. rewrite H1 by done.
      by rewrite (proj2 (Z.eqb_neq _ _)) by done.
Qed.

Lemma write_run_spec e v count : ∀ at_ data n,
  fits_slot e v → zlen data = n * slot_width e → 0 ≤ at_ → at_ + Z.of_nat count ≤ n →
  ∃ data', write_run (array_layout_of e) at_ count v data = Ok data' ∧
    assigned e n at_ (replicate count v) data data'.
Proof.
  induction count as [|c IH]; intros at_ data n Hf Hl Ha Hn; cbn [write_run replicate].
  - exists data. split; [done|]. split; [done|]. intros. by rewrite zget_nil.
  - destruct (write_elem_spec e data v n at_) as (d1 & -> & Hl1 & H1); [done..|lia|].
    cbn [mbind result_bind].
    destruct (IH (at_ + 1) d1 n) as (d2 & -> & H2); [done|lia..|].
    exists d2. split; [done|]. by eapply assigned_cons.
Qed.

Lemma write_refs_spec e refs : ∀ at_ data n,
  Forall (λ r, fits_slot e (val_from_ref r)) refs → zlen data = n * slot_width e → 0 ≤ at_ →
  at_ + zlen refs ≤ n →
  ∃ data', write_refs (array_layout_of e) at_ refs data = Ok data' ∧
    assigned e n at_ (val_from_ref <$> refs) data data'.
Proof.
  induction refs as [|r refs IH]; intros at_ data n Hf Hl Ha Hn; cbn [write_refs fmap list_fmap].
  - exists data. split; [done|]. split; [done|]. intros. by rewrite zget_nil.
  - apply Forall_cons in Hf as [Hr Hf]. rewrite zlen_cons in Hn. pose proof (zlen_nonneg refs).
    destruct (write_elem_spec e data (val_from_ref r) n at_) as (d1 & -> & Hl1 & H1); [done..|lia|].
    cbn [mbind result_bind].
    destruct (IH (at_ + 1) d1 n) as (d2 & -> & H2); [done|lia..|].
    exists d2. split; [done|]. by eapply assigned_cons.
Qed.

(** ** Arrays in the heap *)
Record array_at (s : StoreInner) (obj : Z) (e : Slot) (o : GcObject) (n : Z) : Prop := {
  aa_live : gc_get (si_gc s) obj = Some o;
  aa_body : zlen (obj_data o) = n * slot_width e;
  aa_len : u_ok 32 n;
}.
(** The module's type [ty] is an array with element slot [e]. *)
Definition array_type (s : StoreInner) (instance : Handle) (ty : Z) (e : Slot) : Prop :=
  ∃ m, module_of instance s = Ok m ∧ array_layout m ty = Ok (array_layout_of e).

Lemma arr_len_at s obj e o n : array_at s obj e o n →
  arr_len obj (al_stride (array_layout_of e)) s = Ok n.
Proof.
  intros [Hg Hb Hn]. unfold arr_len, array_object. rewrite Hg. cbn [ok_or mbind result_bind]. f_equal.
  unfold array_len. cbn [al_stride array_layout_of]. pose proof (slot_width_pos e).
  rewrite Hb, Z.max_l, Z.div_mul by lia. by apply wrap_id.
Qed.
Lemma array_object_at s obj e o n : array_at s obj e o n → array_object obj s = Ok o.
Proof. intros [Hg _ _]. unfold array_object. by rewrite Hg. Qed.
Lemma range_spec start len total trap : u_ok 32 start → u_ok 32 len →
  range start len total trap = if start + len <=? total then Ok tt else Err (ETrap trap).
Proof.
  intros [? ?] [? ?]. unfold range, checked_add.
  rewrite (proj2 (Z.ltb_lt (start + len) _)) by lia. done.
Qed.

(** ** Operands of an instruction, topmost first *)
Inductive operand : Type := OdU32 (n : Z) | OdAny (v : Val) | OdField (slot : Slot) (v : Val).

Section operands.
Context `{Features}.
Definition popped (o : operand) (ex ex' : Execution) : Prop :=
  match o with
  | OdU32 n => pop_u32 ex = (Ok n, ex')
  | OdAny v => pop_anyref ex = (Ok v, ex')
  | OdField slot v => pop_val_for slot ex = (Ok v, ex')
  end.
Fixpoint operands (l : list operand) (ex ex' : Execution) : Prop :=
  match l with
  | [] => ex = ex'
  | o :: l' => ∃ ex1, popped o ex ex1 ∧ operands l' ex1 ex'
  end.

Lemma pop_u32_ok ex n ex' : pop_u32 ex = (Ok n, ex') → u_ok 32 n.
Proof.
  unfold pop_u32. intros (x & ex1 & _ & Hr)%bind_Ok. cbn in Hr. injection Hr as <- _. by apply wrap_ok.
Qed.

(** What is popped for a slot can be stored in it. *)
Lemma read_ref_storable k h : slot_accepts (SlotRef 0 k) (read_ref k h) = true ∧ storable (read_ref k h).
Proof. unfold read_ref. destruct (Z.eqb_spec h NULL_REF); by destruct k. Qed.
Lemma read_stack_slot slot c v :
  read_slot (stack_slot_for_field slot) c = Ok v → slot_accepts slot v = true ∧ storable v.
Proof.
  destruct slot as [o k|o k]; cbn [stack_slot_for_field read_slot].
  - intros (b & _ & Hr)%result_bind_Ok.
    destruct k; cbn [read_scalar] in Hr; destruct (le _ b); cbn in Hr; try done; by injection Hr as <-.
  - intros (b & _ & Hr)%result_bind_Ok. destruct (le_u32 b) as [h| |]; cbn in Hr; [|done..].
    injection Hr as <-. pose proof (read_ref_storable k h). by destruct k.
Qed.
Lemma pop_val_for_fits slot ex v ex' : pop_val_for slot ex = (Ok v, ex') → val_ok v → fits_slot slot v.
Proof.
  unfold pop_val_for. intros Hp Hv. apply bind_Ok in Hp as (base & ex1 & _ & Hp).
  apply bind_Ok in Hp as (t & ex2 & _ & Hp). destruct (negb _) in Hp; [done|].
  apply bind_Ok in Hp as (c & ex3 & _ & Hp). unfold lift in Hp. injection Hp as Hp _.
  apply read_stack_slot in Hp as [? ?]. done.
Qed.
Lemma fits_elem e i v : fits_slot (elem_at (array_layout_of e) i) v → fits_slot e v.
Proof. rewrite elem_at_of. unfold fits_slot. by rewrite accepts_with_offset. Qed.

(** A reference to the live object in slot [obj]. *)
Definition points_to (v : Val) (obj : Z) : Prop :=
  ∃ r, v = VAnyRef (Some r) ∧ decode_anyref_handle (r_index r) = HSlot obj.
Lemma anyref_slot_points v obj t : points_to v obj → anyref_slot v t = Ok obj.
Proof. intros (r & -> & Hd). unfold anyref_slot. by rewrite Hd. Qed.
End operands.

(** An [ask] whose answer is a case analysis. *)
Lemma ask_bind_case {A B} (q : StoreInner → res A) (f : A → SM Vm B) (v : Vm) r :
  q (vm_store v) = r →
  (ask q ≫= f) v = match r with Ok a => f a v | Err e => (Err e, v) | Panic w => (Panic w, v) end.
Proof. intros <-. unfold ask. by rewrite bind_unfold; unfold reads; destruct (q (vm_store v)). Qed.

(** Running an [ask]/[on_ex] prefix with a known answer. *)
Ltac vm_step :=
  first
    [ match goal with |- context [mbind ?f (ask ?q) ?v] =>
        erewrite (ask_bind q f v) by eassumption end
    | match goal with |- context [mbind ?f (lift ?r) ?v] =>
        erewrite (lift_Ok r f v) by eassumption end
    | match goal with |- context [mbind ?f (on_ex ?m) ?v] =>
        erewrite (on_ex_bind m f v) by eassumption end ];
  cbn [vm_ex vm_store set_vm_ex].
Ltac vm_case H :=
  match goal with |- context [mbind ?f (ask ?q) ?v] => rewrite (ask_bind_case q f v _ H) end.

Ltac use_operands :=
  repeat match goal with
  | Ho : operands (_ :: _) _ _ |- _ => destruct Ho as (? & ? & Ho); cbn [popped] in *
  | Ho : operands [] _ _ |- _ => cbn [operands] in Ho; subst
  end.
Ltac u32_bounds :=
  repeat match goal with Hp : pop_u32 _ = _ |- _ => pose proof (pop_u32_ok _ _ _ Hp); revert Hp end; intros.

Section arrays.
Context `{Features, EngineTypes, TypeOrder}.

(** The machine with [data] in the object and the operands gone. *)
Definition with_body (obj : Z) (o : GcObject) (data : list Z) (ex : Execution) (v : Vm) : Vm :=
  set_vm_store (put_object obj (with_data o data) (vm_store v)) (set_vm_ex ex v).

Lemma write_body_Ok obj o r data v : r = Ok data →
  write_body obj o r v = (Ok tt, set_vm_store (put_object obj (with_data o data) (vm_store v)) v).
Proof. by intros ->. Qed.

Lemma elem_slot_at s obj e o n idx : array_at s obj e o n →
  elem_slot obj (array_layout_of e) idx s =
  if idx <? n then Ok (elem_at (array_layout_of e) idx) else Err (ETrap ArrayOutOfBounds).
Proof. intros Ha. unfold elem_slot. by rewrite (arr_len_at _ _ _ _ _ Ha). Qed.

(** C35: [array.copy] assigns the source range, as it was before the
    instruction, to the destination range, element by element and whatever the
    overlap (the same array included), and changes no other element; or, exactly
    when one of the ranges leaves its array, traps and changes no object. *)
Theorem array_copy_exact instance ty src_ty e v ex' len si di rs rd src dst so do ns nd :
  array_type (vm_store v) instance ty e →
  operands [OdU32 len; OdU32 si; OdAny rs; OdU32 di; OdAny rd] (vm_ex v) ex' →
  points_to rs src → points_to rd dst →
  array_at (vm_store v) src e so ns → array_at (vm_store v) dst e do nd →
  if (si + len <=? ns) && (di + len <=? nd) then
    ∃ data', exec_gc (OpArrayCopy ty src_ty) instance v = (Ok tt, with_body dst do data' ex' v) ∧
      zlen data' = zlen (obj_data do) ∧
      ∀ ext i, 0 ≤ i < nd → elem e ext data' i =
        if (di <=? i) && (i <? di + len) then elem e ext (obj_data so) (si + i - di)
        else elem e ext (obj_data do) i
  else exec_gc (OpArrayCopy ty src_ty) instance v = (Err (ETrap ArrayOutOfBounds), set_vm_ex ex' v).
Proof.
  intros (m & Hm & Hlay) Hops Hrs Hrd Hsrc Hdst. use_operands.
  u32_bounds.
  cbn [exec_gc exec_gc_array]. unfold array_copy.
  pose proof (anyref_slot_points rs src NullArrayReference Hrs).
  pose proof (anyref_slot_points rd dst NullArrayReference Hrd).
  pose proof (arr_len_at _ _ _ _ _ Hsrc). pose proof (arr_len_at _ _ _ _ _ Hdst).
  do 10 vm_step.
  pose proof (aa_body _ _ _ _ _ Hsrc) as Hbs. pose proof (aa_body _ _ _ _ _ Hdst) as Hbd.
  pose proof (slot_width_pos e) as Hw. cbn [al_stride array_layout_of].
  rewrite !range_spec by done. 
  destruct (Z.leb_spec (si + len) ns); cbn [andb]; [|done]. lift_step. vm_step.
  rewrite range_spec by done.
  destruct (Z.leb_spec (di + len) nd); [|done]. lift_step.
  pose proof (array_object_at _ _ _ _ _ Hsrc). pose proof (array_object_at _ _ _ _ _ Hdst).
  unfold u_ok in *. vm_step.
  rewrite zslice_is_Some by nia. lift_step. vm_step.
  replace (si * slot_width e + len * slot_width e - si * slot_width e) with (len * slot_width e) by lia.
  edestruct (zsplice_is_Some (obj_data do) (ztake (len * slot_width e) (zdrop (si * slot_width e) (obj_data so)))
    (di * slot_width e)) as [data' Hd]; [nia|rewrite zlen_take; rewrite ?zlen_drop; nia|].
  exists data'. rewrite Hd. rewrite (write_body_Ok _ _ _ data') by done.
  split; [done|]. split; [by eapply zlen_splice|].
  intros ext i Hi. apply (elem_splice _ _ _ _ _ _ _ _ nd); try done; try lia; nia.
Qed.

Definition array_getter (ty : Z) (ext : option bool) : Op :=
  match ext with None => OpArrayGet ty | Some true => OpArrayGetS ty | Some false => OpArrayGetU ty end.

(** [array.get] (plain, [_s] and [_u]) pushes the addressed element, and
    [array.set] replaces exactly the addressed element of exactly that array; an
    index past the end traps and changes no object. *)
Theorem array_element_exact instance ty e v r obj o n idx :
  array_type (vm_store v) instance ty e → points_to r obj → array_at (vm_store v) obj e o n →
  (∀ ext ex', operands [OdU32 idx; OdAny r] (vm_ex v) ex' →
    exec_gc (array_getter ty ext) instance v =
    if idx <? n then (x ← lift (elem e ext (obj_data o) idx); on_ex (push x)) (set_vm_ex ex' v)
    else (Err (ETrap ArrayOutOfBounds), set_vm_ex ex' v)) ∧
  (∀ x ex', operands [OdField (elem_at (array_layout_of e) 0) x; OdU32 idx; OdAny r] (vm_ex v) ex' →
    val_ok x →
    if idx <? n then
      ∃ data', exec_gc (OpArraySet ty) instance v = (Ok tt, with_body obj o data' ex' v) ∧
        assigned e n idx [x] (obj_data o) data'
    else exec_gc (OpArraySet ty) instance v = (Err (ETrap ArrayOutOfBounds), set_vm_ex ex' v)) ∧
  (∀ f ex', operands [OdAny r] (vm_ex v) ex' →
    array_field (obj_type o) = Some f → for_array f = array_layout_of e →
    exec_gc OpArrayLen instance v = on_ex (push (VI32 (sgn 32 n))) (set_vm_ex ex' v)).
Proof.
  intros (m & Hm & Hlay) Hr Ha.
  pose proof (anyref_slot_points r obj NullArrayReference Hr).
  pose proof (array_object_at _ _ _ _ _ Ha).
  split_and!.
  - intros ext ex' Hops. use_operands.
    assert (exec_gc (array_getter ty ext) instance = array_get instance ty ext) as -> by (destruct ext as [[]|]; done).
    unfold array_get. do 5 vm_step. vm_case (elem_slot_at _ _ _ _ _ idx Ha).
    destruct (idx <? n); [|done]. by vm_step.
  - intros x ex' Hops Hx. use_operands.
    u32_bounds.
    match goal with Hp : pop_val_for _ _ = _ |- _ => pose proof (pop_val_for_fits _ _ _ _ Hp Hx) as Hf end.
    apply fits_elem in Hf. cbn [exec_gc exec_gc_array]. unfold array_set. do 6 vm_step.
    vm_case (elem_slot_at _ _ _ _ _ idx Ha).
    unfold u_ok in *. destruct (Z.ltb_spec idx n); [|done]. vm_step.
    destruct (write_elem_spec e (obj_data o) x n idx) as (d1 & Hw & Hl & Hd); [done|apply Ha|lia|].
    exists d1. rewrite (write_body_Ok _ _ _ d1) by done. split; [done|].
    eapply assigned_cons; [done..|]. split; [done|]. intros. by rewrite zget_nil.
  - intros f ex' Hops Hfield Hf. use_operands. cbn [exec_gc exec_gc_array]. unfold array_len_op.
    do 3 vm_step. rewrite Hfield. lift_step. rewrite Hf. pose proof (arr_len_at _ _ _ _ _ Ha). by vm_step.
Qed.

(** The available bytes of a data segment never exceed its contents. *)
Lemma data_segment_len instance data m s bytes avail :
  data_segment instance data m s = Ok (bytes, avail) → 0 ≤ avail ≤ zlen bytes.
Proof.
  unfold data_segment. intros (i & _ & Hd)%result_bind_Ok.
  apply result_bind_Ok in Hd as (dr & _ & Hd). apply result_bind_Ok in Hd as (sg & _ & Hd).
  injection Hd as <- <-. pose proof (zlen_nonneg (ds_bytes sg)). by destruct dr; lia.
Qed.
Lemma elem_bytes_ok len e : u_ok 32 len → elem_bytes len (slot_width e) = Ok (len * slot_width e).
Proof.
  intros [? ?]. pose proof (slot_width_pos e). unfold elem_bytes, checked_mul.
  rewrite (proj2 (Z.ltb_lt (len * _) _)) by nia. done.
Qed.

(** [array.fill] assigns its value to the whole range or traps;
    [array.init_data] and [array.init_elem] assign the segment's range, a dropped
    segment counting as empty.  The array range is checked before the segment's,
    and a trap changes no object. *)
Theorem array_fill_init_exact instance ty e v ex' len at_ r obj o n :
  array_type (vm_store v) instance ty e → points_to r obj → array_at (vm_store v) obj e o n →
  (∀ x, operands [OdU32 len; OdField (elem_at (array_layout_of e) 0) x; OdU32 at_; OdAny r] (vm_ex v) ex' →
    val_ok x →
    if at_ + len <=? n then
      ∃ data', exec_gc (OpArrayFill ty) instance v = (Ok tt, with_body obj o data' ex' v) ∧
        assigned e n at_ (replicate (Z.to_nat len) x) (obj_data o) data'
    else exec_gc (OpArrayFill ty) instance v = (Err (ETrap ArrayOutOfBounds), set_vm_ex ex' v)) ∧
  (∀ src, operands [OdU32 len; OdU32 src; OdU32 at_; OdAny r] (vm_ex v) ex' →
    (∀ seg m bytes avail, module_of instance (vm_store v) = Ok m →
      data_segment instance seg m (vm_store v) = Ok (bytes, avail) →
      if negb (at_ + len <=? n)
      then exec_gc (OpArrayInitData ty seg) instance v = (Err (ETrap ArrayOutOfBounds), set_vm_ex ex' v)
      else if negb (src + len * slot_width e <=? avail)
      then exec_gc (OpArrayInitData ty seg) instance v = (Err (ETrap MemoryOutOfBounds), set_vm_ex ex' v)
      else ∃ data', exec_gc (OpArrayInitData ty seg) instance v = (Ok tt, with_body obj o data' ex' v) ∧
        zlen data' = zlen (obj_data o) ∧
        ∀ ext i, 0 ≤ i < n → elem e ext data' i =
          if (at_ <=? i) && (i <? at_ + len) then elem e ext (zdrop src bytes) (i - at_)
          else elem e ext (obj_data o) i) ∧
    (∀ seg refs, segment_refs instance seg (vm_store v) = Ok refs →
      Forall (λ r, fits_slot e (val_from_ref r)) refs →
      if negb (at_ + len <=? n)
      then exec_gc (OpArrayInitElem ty seg) instance v = (Err (ETrap ArrayOutOfBounds), set_vm_ex ex' v)
      else if negb (src + len <=? zlen refs)
      then exec_gc (OpArrayInitElem ty seg) instance v = (Err (ETrap TableOutOfBounds), set_vm_ex ex' v)
      else ∃ data', exec_gc (OpArrayInitElem ty seg) instance v = (Ok tt, with_body obj o data' ex' v) ∧
        assigned e n at_ (val_from_ref <$> ztake len (zdrop src refs)) (obj_data o) data')).
Proof.
  intros (m & Hm & Hlay) Hr Ha.
  pose proof (anyref_slot_points r obj NullArrayReference Hr).
  pose proof (array_object_at _ _ _ _ _ Ha) as Hobj. pose proof (arr_len_at _ _ _ _ _ Ha) as Hlen.
  pose proof (aa_body _ _ _ _ _ Ha) as Hb. pose proof (slot_width_pos e) as Hw.
  split; [|intros src Hops; split].
  - intros x Hops Hx. use_operands. u32_bounds.
    match goal with Hp : pop_val_for _ _ = _ |- _ => pose proof (pop_val_for_fits _ _ _ _ Hp Hx) as Hf end.
    apply fits_elem in Hf. cbn [exec_gc exec_gc_array]. unfold array_fill. do 8 vm_step.
    rewrite range_spec by done. destruct (Z.leb_spec (at_ + len) n); [|done]. lift_step. vm_step.
    unfold u_ok in *. destruct (write_run_spec e x (Z.to_nat len) at_ (obj_data o) n) as (d & Hd & Has); [done|lia..|].
    exists d. by rewrite (write_body_Ok _ _ _ d).
  - intros seg m' bytes avail Hm' Hseg. use_operands. u32_bounds.
    assert (m' = m) as -> by congruence. pose proof (data_segment_len _ _ _ _ _ _ Hseg).
    cbn [exec_gc exec_gc_array]. unfold array_init_data. do 8 vm_step. cbn [al_stride array_layout_of].
    rewrite range_spec by done. destruct (Z.leb_spec (at_ + len) n); [|done]. lift_step.
    rewrite elem_bytes_ok by done. lift_step. vm_step. cbn [fst snd].
    unfold range, checked_add. unfold u_ok in *.
    rewrite (proj2 (Z.ltb_lt (src + _) _)) by nia.
    destruct (Z.leb_spec (src + len * slot_width e) avail); [|done]. lift_step. cbn [negb].
    rewrite zslice_is_Some by nia. lift_step. vm_step.
    replace (src + len * slot_width e - src) with (len * slot_width e) by lia.
    edestruct (zsplice_is_Some (obj_data o) (ztake (len * slot_width e) (zdrop src bytes)) (at_ * slot_width e))
      as [d Hd]; [nia|rewrite zlen_take; rewrite ?zlen_drop; nia|].
    exists d. rewrite Hd. rewrite (write_body_Ok _ _ _ d) by done. split; [done|].
    split; [by eapply zlen_splice|]. intros ext i Hi.
    rewrite (elem_splice e ext (obj_data o) (zdrop src bytes) d at_ 0 len n i); try done; try lia. rewrite zlen_drop by nia. nia.
  - intros seg refs Hseg Hfit. use_operands. u32_bounds.
    cbn [exec_gc exec_gc_array]. unfold array_init_elem. do 8 vm_step.
    rewrite range_spec by done. destruct (Z.leb_spec (at_ + len) n); [|done]. lift_step. vm_step.
    rewrite range_spec by done. destruct (Z.leb_spec (src + len) (zlen refs)); [|done]. lift_step. vm_step.
    unfold u_ok in *. rewrite zslice_is_Some by lia. lift_step. cbn [negb].
    replace (src + len - src) with len by lia.
    destruct (write_refs_spec e (ztake len (zdrop src refs)) at_ (obj_data o) n) as (d & Hd & Has); try lia.
    + apply Forall_take, Forall_drop, Hfit.
    + rewrite zlen_take; rewrite ?zlen_drop; lia.
    + exists d. by rewrite (write_body_Ok _ _ _ d).
Qed.
End arrays.

(** ** Fresh bodies *)

Definition apart_from (a b : Slot) : Prop :=
  slot_offset a + slot_width a ≤ slot_offset b ∨ slot_offset b + slot_width b ≤ slot_offset a.
Definition inside (size : Z) (s : Slot) : Prop := 0 ≤ slot_offset s ∧ slot_offset s + slot_width s ≤ size.
(** Slots of a body of [size] bytes, no two of which share a byte. *)
Fixpoint apart (size : Z) (slots : list Slot) : Prop :=
  match slots with
  | [] => True
  | s :: rest => inside size s ∧ Forall (apart_from s) rest ∧ apart size rest
  end.

Lemma apart_snoc size slots s :
  apart size slots → inside size s → Forall (apart_from s) slots → apart size (slots ++ [s]).
Proof.
  intros Ha Hi Hf. induction slots as [|t slots IH]; cbn in *; [done|].
  destruct Ha as (? & Ht & Ha). apply Forall_cons in Hf as [Hst Hf].
  split_and!; [done| |by apply IH].
  apply Forall_app. split; [done|]. apply Forall_singleton. unfold apart_from in *. lia.
Qed.
Lemma apart_reverse size slots : apart size slots → apart size (reverse slots).
Proof.
  induction slots as [|s slots IH]; [done|]. intros (? & ? & ?). rewrite reverse_cons.
  apply apart_snoc; [auto..|]. by apply Forall_reverse.
Qed.
Lemma tiles_after slots from to : tiles slots from to → Forall (λ s, from ≤ slot_offset s) slots.
Proof.
  revert from. induction slots as [|s slots IH]; intros from; [by constructor|]. intros [Ho Ht].
  pose proof (slot_width_pos s). constructor; [lia|].
  eapply Forall_impl; [by eapply IH|]. cbn. lia.
Qed.
Lemma tiles_apart slots from to : 0 ≤ from → tiles slots from to → apart to slots.
Proof.
  revert from. induction slots as [|s slots IH]; intros from Hf; [done|]. intros [Ho Ht].
  pose proof (slot_width_pos s). pose proof (tiles_le _ _ _ Ht). split_and!.
  - unfold inside. lia.
  - eapply Forall_impl; [by eapply tiles_after|]. unfold apart_from. cbn. lia.
  - eapply IH; [|done]. lia.
Qed.
Lemma elems_apart e count size : size = count * slot_width e →
  apart size (elem_at (array_layout_of e) <$> seqZ 0 count).
Proof.
  intros ->. pose proof (slot_width_pos e) as Hw.
  assert (∀ k from, 0 ≤ from → from + Z.of_nat k ≤ count →
    apart (count * slot_width e) (elem_at (array_layout_of e) <$> seqZ from (Z.of_nat k))) as Hgo.
  { induction k as [|k IH]; intros from Hf Hk; [done|].
    rewrite seqZ_cons by lia. cbn [fmap list_fmap apart]. rewrite Nat2Z.inj_succ, Z.pred_succ. split_and!.
    - unfold inside. rewrite elem_at_of, offset_with_offset, width_with_offset. nia.
    - apply Forall_fmap, Forall_forall. intros i Hi%elem_of_seqZ. unfold apart_from. cbn.
      rewrite !elem_at_of, !offset_with_offset, !width_with_offset. nia.
    - apply IH; lia. }
  destruct (decide (0 ≤ count)).
  - rewrite <- (Z2Nat.id count) at 2 by done. apply Hgo; lia.
  - rewrite seqZ_nil by lia. done.
Qed.

(** Values written slot after slot. *)
Fixpoint write_all (slots : list Slot) (vs : list Val) (data : list Z) : res (list Z) :=
  match slots, vs with
  | s :: slots', x :: vs' => data' ← write_slot s data x; write_all slots' vs' data'
  | _, _ => Ok data
  end.
Definition holds (data : list Z) (s : Slot) (x : Val) : Prop := read_slot s data = Ok (slot_view s x).

Lemma write_all_spec slots vs : ∀ data,
  apart (zlen data) slots → Forall2 fits_slot slots vs →
  ∃ data', write_all slots vs data = Ok data' ∧ zlen data' = zlen data ∧
    Forall2 (holds data') slots vs ∧
    ∀ other, inside (zlen data) other → Forall (apart_from other) slots → read_slot other data' = read_slot other data.
Proof.
  revert vs. induction slots as [|s slots IH]; intros vs data Ha Hf; inversion Hf as [|? x ? vs' Hx Hvs]; subst.
  { exists data. split_and!; auto. }
  destruct Ha as ((Hi1 & Hi2) & Hs & Ha). destruct Hx as (Hx1 & Hx2 & Hx3). cbn [write_all].
  destruct (write_slot_splice s data x) as [Hw Hb]; [done..|].
  destruct (zsplice_is_Some data (slot_bytes s x) (slot_offset s)) as [d1 Hd]; [lia..|].
  pose proof (zlen_splice _ _ _ _ Hd) as Hl. rewrite Hw, Hd. cbn [expect mbind result_bind].
  destruct (IH vs' d1) as (d2 & -> & Hl2 & Hhold & Hframe); [by rewrite Hl|done|].
  exists d2. split; [done|]. split; [congruence|]. split.
  - constructor; [|done]. unfold holds. rewrite Hframe; [|unfold inside; by rewrite Hl|done].
    apply read_window; rewrite ?Hl; try done. rewrite <- Hb at 1. by eapply zslice_splice_eq.
  - intros other [Ho1 Ho2] [Hso Hfo]%Forall_cons. rewrite Hframe; [|unfold inside; by rewrite Hl|done].
    apply read_slot_slice; rewrite ?Hl; try done. eapply zslice_splice_ne; [done|].
    unfold apart_from in Hso. lia.
Qed.

Lemma zlen_zeroed n : 0 ≤ n → zlen (zeroed n) = n.
Proof. intros. unfold zeroed. rewrite zlen_replicate. lia. Qed.

Lemma default_fits slot : fits_slot slot (default_for_slot slot) ∧
  slot_view slot (default_for_slot slot) = default_for_slot slot.
Proof. by destruct slot as [o []|o []]. Qed.
Lemma write_defaults_all slots data :
  write_defaults slots data = write_all slots (default_for_slot <$> slots) data.
Proof.
  revert data. induction slots as [|s slots IH]; intros data; [done|]. cbn.
  destruct (write_slot _ _ _); [apply IH|done..].
Qed.

Section popping.
Context `{Features}.

Lemma pop_fields_all slots vs : ∀ ex ex' data,
  operands (zip_with OdField slots vs) ex ex' → length slots = length vs →
  no_err (write_all slots vs data) ∧ no_panic (write_all slots vs data) →
  pop_fields slots data ex = (write_all slots vs data, ex').
Proof.
  revert vs. induction slots as [|s slots IH]; intros [|x vs] ex ex' data Hops Hlen [He Hp]; try done.
  - cbn in *. by subst.
  - cbn [zip_with operands pop_fields write_all popped] in *. destruct Hops as (ex1 & Hpop & Hops).
    rewrite (bind_run _ _ _ _ _ Hpop). destruct (write_slot s data x) as [d| |].
    + cbn [mbind result_bind] in *. lift_step. apply IH; [done|by injection Hlen|done].
    + by destruct (He _ eq_refl).
    + by destruct (Hp _ eq_refl).
Qed.

Lemma pop_elems_fields e n data ex :
  pop_elems (array_layout_of e) n data ex =
  pop_fields (reverse (elem_at (array_layout_of e) <$> seqZ 0 (Z.of_nat n))) data ex.
Proof.
  revert data ex. induction n as [|n IH]; intros data ex; [done|].
  rewrite seqZ_S. rewrite fmap_app, reverse_app. cbn [pop_elems fmap list_fmap].
  change (reverse [?x]) with [x]. cbn [app pop_fields]. rewrite Z.add_0_l.
  rewrite !bind_unfold. destruct (pop_val_for _ ex) as [[x| |] ex1]; [|done..].
  rewrite !bind_unfold. unfold lift. destruct (write_slot _ _ _); [apply IH|done..].
Qed.

(** Every field gets its operand, the last field's on top of the stack. *)
Lemma pop_fields_holds slots vs ex ex' size :
  operands (zip_with OdField (reverse slots) (reverse vs)) ex ex' →
  length slots = length vs → Forall val_ok vs → 0 ≤ size → apart size slots →
  ∃ data, pop_fields (reverse slots) (zeroed size) ex = (Ok data, ex') ∧ zlen data = size ∧
    Forall2 (holds data) slots vs.
Proof.
  intros Hops Hlen Hok Hsz Ha.
  assert (Forall2 fits_slot (reverse slots) (reverse vs)) as Hfit.
  { clear Ha. assert (length (reverse slots) = length (reverse vs)) as Hl by (by rewrite !length_reverse).
    apply Forall_reverse in Hok. revert Hl Hok Hops. generalize (reverse slots) (reverse vs). clear.
    intros l k. revert k ex. induction l as [|s l IH]; intros [|x k] ex; try done.
    intros [= Hl] [Hx Hk]%Forall_cons (ex1 & Hp & Hops). constructor; [by eapply pop_val_for_fits|eauto]. }
  destruct (write_all_spec (reverse slots) (reverse vs) (zeroed size)) as (data & Hw & Hl & Hh & _).
  { rewrite zlen_zeroed by done. by apply apart_reverse. } { done. }
  exists data. rewrite (pop_fields_all _ _ _ _ _ Hops); [|by rewrite !length_reverse|rewrite Hw; split; by intros ?].
  rewrite Hw. split_and!; [done|by rewrite Hl, zlen_zeroed|].
  apply Forall2_reverse in Hh. by rewrite !reverse_involutive in Hh.
Qed.
End popping.

Section creation.
Context `{Features, EngineTypes, TypeOrder}.

(** Allocate the object and push its reference. *)
Definition allocated (o : GcObject) : SM Vm () :=
  slot ← on_store (with_gc (gc_alloc o)); on_ex (push (anyref_value (anyref_handle_slot slot))).

(** [struct.new] allocates one object of the type's canonical id whose
    field [i] holds the [i]-th operand, the last one being on top of the stack;
    [struct.new_default] one whose every field reads as its default. *)
Theorem struct_new_exact instance ty v m id fs :
  let layout := struct_layout_of (field_slot <$> fs) in
  module_of instance (vm_store v) = Ok m → canonical_type_id m ty = Ok id → struct_layout m ty = Ok layout →
  (∀ vs ex', operands (zip_with OdField (reverse (sl_fields layout)) (reverse vs)) (vm_ex v) ex' →
    length vs = length fs → Forall val_ok vs →
    ∃ data, exec_gc (OpStructNew ty) instance v = allocated (new_struct id data) (set_vm_ex ex' v) ∧
      zlen data = sl_size layout ∧ Forall2 (holds data) (sl_fields layout) vs) ∧
  ∃ data, exec_gc (OpStructNewDefault ty) instance v = allocated (new_struct id data) v ∧
    zlen data = sl_size layout ∧ Forall (λ s, read_slot s data = Ok (default_for_slot s)) (sl_fields layout).
Proof.
  intros layout Hm Hid Hlay. destruct (struct_layout_tiles fs) as [Ht Hl]. fold layout in Ht, Hl.
  pose proof (tiles_apart _ _ _ (Z.le_refl 0) Ht) as Ha. pose proof (tiles_le _ _ _ Ht) as Hsz.
  cbn [exec_gc]. unfold struct_new. split.
  - intros vs ex' Hops Hlen Hok.
    destruct (pop_fields_holds _ _ _ _ _ Hops ltac:(congruence) Hok Hsz Ha) as (data & Hp & Hz & Hh).
    exists data. do 3 vm_step. by vm_step.
  - destruct (write_all_spec (sl_fields layout) (default_for_slot <$> sl_fields layout) (zeroed (sl_size layout)))
      as (data & Hw & Hz & Hh & _).
    { by rewrite zlen_zeroed. } { apply Forall2_fmap_r, Forall_Forall2_diag, Forall_true. intros. apply default_fits. }
    exists data. rewrite <- write_defaults_all in Hw. do 4 vm_step. split; [done|].
    rewrite Hz, zlen_zeroed by done. split; [done|].
    apply Forall_forall. intros s Hs%list_elem_of_lookup.
    destruct Hs as [i Hi].
    assert ((default_for_slot <$> sl_fields layout) !! i = Some (default_for_slot s)) as Hd by (by rewrite list_lookup_fmap, Hi).
    pose proof (Forall2_lookup_lr _ _ _ _ _ _ Hh Hi Hd) as Hr. unfold holds in Hr.
    by rewrite (proj2 (default_fits s)) in Hr.
Qed.

(** A struct of the heap, and its layout. *)
Record struct_at (s : StoreInner) (obj : Z) (layout : StructLayout) (o : GcObject) : Prop := {
  sa_live : gc_get (si_gc s) obj = Some o;
  sa_body : zlen (obj_data o) = sl_size layout;
}.
Definition struct_getter (ty field : Z) (ext : option bool) : Op :=
  match ext with
  | None => OpStructGet ty field | Some true => OpStructGetS ty field | Some false => OpStructGetU ty field
  end.

Lemma module_field_slot m ty layout field slot :
  struct_layout m ty = Ok layout → struct_field layout field = Some slot → module_struct_field m ty field = Ok slot.
Proof using. intros Hl Hf. unfold module_struct_field. rewrite Hl. cbn [mbind result_bind]. by rewrite Hf. Qed.

Lemma with_own_offset s : with_offset s (slot_offset s) = s.
Proof using. by destruct s. Qed.

(** [struct.get] (plain, [_s] and [_u]) pushes what the addressed field
    holds; [struct.set] stores its operand in that field and leaves every other
    field of the object, read in any way, as it was. *)
Theorem struct_field_exact instance ty field v m fs slot r obj o :
  let layout := struct_layout_of (field_slot <$> fs) in
  module_of instance (vm_store v) = Ok m → struct_layout m ty = Ok layout →
  struct_field layout field = Some slot → points_to r obj → struct_at (vm_store v) obj layout o →
  (∀ ext ex', operands [OdAny r] (vm_ex v) ex' →
    exec_gc (struct_getter ty field ext) instance v =
    (x ← lift (read_ext ext slot (obj_data o)); on_ex (push x)) (set_vm_ex ex' v)) ∧
  (∀ x ex', operands [OdField slot x; OdAny r] (vm_ex v) ex' → val_ok x →
    ∃ data', exec_gc (OpStructSet ty field) instance v = (Ok tt, with_body obj o data' ex' v) ∧
      holds data' slot x ∧ zlen data' = zlen (obj_data o) ∧
      ∀ j other ext, j ≠ field → struct_field layout j = Some other →
        read_ext ext other data' = read_ext ext other (obj_data o)).
Proof.
  intros layout Hm Hlay Hslot Hr [Hg Hb].
  pose proof (module_field_slot _ _ _ _ _ Hlay Hslot) as Hms.
  pose proof (anyref_slot_points r obj NullStructReference Hr).
  assert (struct_object obj (vm_store v) = Ok o) by (unfold struct_object; by rewrite Hg).
  destruct (struct_layout_tiles fs) as [Ht _]. fold layout in Ht.
  destruct (tiles_bounds _ _ _ _ _ Ht Hslot) as [Hlo Hhi].
  split.
  - intros ext ex' Hops. use_operands.
    assert (exec_gc (struct_getter ty field ext) instance = struct_get instance ty field ext) as -> by (by destruct ext as [[]|]).
    unfold struct_get. by do 5 vm_step.
  - intros x ex' Hops Hx. use_operands. cbn [exec_gc]. unfold struct_set. do 6 vm_step.
    match goal with Hp : pop_val_for _ _ = _ |- _ => pose proof (pop_val_for_fits _ _ _ _ Hp Hx) as Hf end.
    destruct Hf as (Hf1 & Hf2 & Hf3).
    destruct (write_slot_splice slot (obj_data o) x) as [Hw Hlen]; [done..|lia|].
    destruct (zsplice_is_Some (obj_data o) (slot_bytes slot x) (slot_offset slot)) as [d Hd]; [lia..|].
    rewrite Hd in Hw. pose proof (zlen_splice _ _ _ _ Hd) as Hl.
    exists d. rewrite (write_body_Ok _ _ _ d) by done. split; [done|]. split; [|split; [done|]].
    + apply read_window; try done; [lia|]. rewrite <- Hlen at 1. by eapply zslice_splice_eq.
    + intros j other ext Hj Hother. destruct (tiles_bounds _ _ _ _ _ Ht Hother) as [Ho1 Ho2].
      rewrite <- (with_own_offset other). pose proof (slot_width_pos other).
      eapply read_window_shift; [done..| |apply zslice_is_Some; lia].
      rewrite (zslice_splice_ne _ _ _ _ _ _ Hd); [apply zslice_is_Some; lia|].
      destruct (Z.lt_total j field) as [Hlt|[|Hlt]]; [|done|].
      * left. eapply tiles_disjoint; done.
      * right. rewrite Hlen. eapply tiles_disjoint; done.
Qed.

(** The same element read through a copy of its bytes. *)
Lemma elem_slice e ext src from n i :
  0 ≤ from → 0 ≤ i < n → from + n * slot_width e ≤ zlen src →
  elem e ext (ztake (n * slot_width e) (zdrop from src)) i = elem e ext (zdrop from src) i.
Proof.
  intros Hf Hi Hl. pose proof (slot_width_pos e). unfold elem. rewrite !elem_at_of.
  assert (zlen (zdrop from src) = zlen src - from) as Hz by (apply zlen_drop; nia).
  assert (zlen (ztake (n * slot_width e) (zdrop from src)) = n * slot_width e) as Hz' by (apply zlen_take; nia).
  eapply read_window_shift; [nia|nia|..]; cycle 1; [apply zslice_is_Some; nia|].
  apply zslice_Some. split; [nia|]. split; [nia|]. apply zget_ext.
  - rewrite !zlen_take; rewrite ?zlen_drop; nia.
  - intros j. rewrite zlen_take by (rewrite zlen_drop; nia). intros Hj.
    rewrite !zget_take, !zget_drop by nia. rewrite zget_take by nia. by rewrite zget_drop by nia.
Qed.

(** *** Arrays, constructor by constructor *)
Section array_of.
Context (instance : Handle) (ty : Z) (v : Vm) (m : ModuleInner) (id : Z) (e : Slot).
Context (Hm : module_of instance (vm_store v) = Ok m) (Hid : canonical_type_id m ty = Ok id)
  (Hlay : array_layout m ty = Ok (array_layout_of e)).

Lemma write_each_spec n x : 0 ≤ n → fits_slot e x →
  ∃ data, write_each (array_layout_of e) (zeroed (n * slot_width e)) n x = Ok data ∧
    zlen data = n * slot_width e ∧ ∀ i, 0 ≤ i < n → elem e None data i = Ok (slot_view e x).
Proof using.
  intros Hn Hf. pose proof (slot_width_pos e). assert (0 ≤ n * slot_width e) by nia. unfold write_each.
  destruct (write_run_spec e x (Z.to_nat n) 0 (zeroed (n * slot_width e)) n) as (d & -> & Hl & Hr); try lia; try done.
  { by apply zlen_zeroed. }
  exists d. split; [done|]. rewrite Hl, zlen_zeroed by done. split; [done|]. intros i Hi. rewrite Hr by done.
  rewrite Z.sub_0_r, zget_replicate by lia. done.
Qed.

Lemma array_new_run n x ex' default :
  (if (default : bool) then operands [OdU32 n] (vm_ex v) ex' ∧ x = default_for_slot e
   else operands [OdU32 n; OdField (elem_at (array_layout_of e) 0) x] (vm_ex v) ex' ∧ val_ok x) →
  ∃ data, array_new instance ty default v = allocated (new_array id data) (set_vm_ex ex' v) ∧
    zlen data = n * slot_width e ∧ ∀ i, 0 ≤ i < n → elem e None data i = Ok (slot_view e x).
Proof using Hm Hid Hlay.
  intros Hops. unfold array_new.
  assert (u_ok 32 n ∧ fits_slot e x) as [Hn Hf].
  { destruct default; destruct Hops as [Hops Hx]; use_operands; u32_bounds.
    - split; [done|]. apply default_fits.
    - split; [done|]. eapply fits_elem. by eapply pop_val_for_fits. }
  destruct (write_each_spec n x) as (d & Hw & Hl & Hr); [apply Hn|done|].
  exists d. split_and!; [|done..].
  destruct default; destruct Hops as [Hops Hx]; use_operands; do 4 vm_step;
    cbn [al_stride array_layout_of]; rewrite elem_bytes_ok by done; lift_step.
  - rewrite (bind_run (mret _) _ _ _ _ eq_refl).
    assert (default_for_slot (elem_at (array_layout_of e) 0) = default_for_slot e) as ->
      by (rewrite elem_at_of; by destruct e as [o []|o []]).
    by vm_step.
  - vm_step. by vm_step.
Qed.

Lemma array_new_fixed_run vs ex' :
  operands (zip_with OdField (reverse (elem_at (array_layout_of e) <$> seqZ 0 (zlen vs))) (reverse vs))
    (vm_ex v) ex' → Forall val_ok vs →
  ∃ data, array_new_fixed instance ty (zlen vs) v = allocated (new_array id data) (set_vm_ex ex' v) ∧
    zlen data = zlen vs * slot_width e ∧ ∀ i x, zget vs i = Some x → elem e None data i = Ok (slot_view e x).
Proof using Hm Hid Hlay.
  intros Hops Hok. pose proof (slot_width_pos e). pose proof (zlen_nonneg vs).
  destruct (pop_fields_holds _ _ _ _ (zlen vs * slot_width e) Hops) as (d & Hp & Hl & Hh); [|done|nia|..].
  { rewrite length_fmap, length_seqZ. unfold zlen. lia. } { by apply elems_apart. }
  exists d. split; [|split; [done|]].
  - unfold array_new_fixed. do 3 vm_step.
    assert (pop_elems (array_layout_of e) (Z.to_nat (zlen vs)) (zeroed (body_size (array_layout_of e) (zlen vs)))
      (vm_ex v) = (Ok d, ex')) as Hpe by (rewrite pop_elems_fields, Z2Nat.id by done; exact Hp).
    by vm_step.
  - intros i x Hi. pose proof (zget_Some _ _ _ Hi). unfold zget in Hi. rewrite (proj2 (Z.leb_le _ _)) in Hi by lia.
    assert ((elem_at (array_layout_of e) <$> seqZ 0 (zlen vs)) !! Z.to_nat i = Some (elem_at (array_layout_of e) i)) as Hs.
    { rewrite list_lookup_fmap, lookup_seqZ_lt by lia. cbn. by rewrite Z2Nat.id by lia. }
    pose proof (Forall2_lookup_lr _ _ _ _ _ _ Hh Hs Hi) as Hr. unfold holds in Hr. unfold elem. cbn [read_ext].
    rewrite Hr, elem_at_of. by rewrite view_with_offset.
Qed.

Lemma capacity_step {B} n (f : () → SM Vm B) w :
  (ask (λ s, check_capacity (si_gc s) n) ≫= f) w =
  if can_fit_limit (si_gc (vm_store w)) n then f tt w else (Err (ETrap AllocationTooLarge), w).
Proof using.
  unfold ask, reads. rewrite bind_unfold. unfold check_capacity. by destruct (can_fit_limit _ _).
Qed.

Lemma array_new_data_run n offset ex' seg bytes avail :
  operands [OdU32 n; OdU32 offset] (vm_ex v) ex' →
  data_segment instance seg m (vm_store v) = Ok (bytes, avail) →
  if negb (offset + n * slot_width e <=? avail)
  then array_new_data instance ty seg v = (Err (ETrap MemoryOutOfBounds), set_vm_ex ex' v)
  else if negb (can_fit_limit (si_gc (vm_store v)) (n * slot_width e))
  then array_new_data instance ty seg v = (Err (ETrap AllocationTooLarge), set_vm_ex ex' v)
  else ∃ data, array_new_data instance ty seg v = allocated (new_array id data) (set_vm_ex ex' v) ∧
    zlen data = n * slot_width e ∧
    ∀ ext i, 0 ≤ i < n → elem e ext data i = elem e ext (zdrop offset bytes) i.
Proof using Hm Hid Hlay.
  intros Hops Hseg. use_operands. u32_bounds. pose proof (data_segment_len _ _ _ _ _ _ Hseg).
  pose proof (slot_width_pos e). unfold array_new_data. do 5 vm_step. cbn [al_stride array_layout_of].
  rewrite elem_bytes_ok by done. lift_step. vm_step. cbn [fst snd].
  unfold range, checked_add. unfold u_ok in *. rewrite (proj2 (Z.ltb_lt (offset + _) _)) by nia.
  destruct (Z.leb_spec (offset + n * slot_width e) avail); [|done]. lift_step. cbn [negb].
  rewrite capacity_step. cbn [vm_store]. destruct (can_fit_limit _ _); [|done]. cbn [negb].
  rewrite zslice_is_Some by nia. lift_step.
  replace (offset + n * slot_width e - offset) with (n * slot_width e) by lia.
  eexists. split; [done|]. split; [rewrite zlen_take; [done|]; rewrite zlen_drop; nia|].
  intros ext i Hi. apply elem_slice; lia.
Qed.

Lemma array_new_elem_run n offset ex' seg refs :
  operands [OdU32 n; OdU32 offset] (vm_ex v) ex' →
  segment_refs instance seg (vm_store v) = Ok refs → Forall (λ r, fits_slot e (val_from_ref r)) refs →
  if negb (offset + n <=? zlen refs)
  then array_new_elem instance ty seg v = (Err (ETrap TableOutOfBounds), set_vm_ex ex' v)
  else if negb (can_fit_limit (si_gc (vm_store v)) (n * slot_width e))
  then array_new_elem instance ty seg v = (Err (ETrap AllocationTooLarge), set_vm_ex ex' v)
  else ∃ data, array_new_elem instance ty seg v = allocated (new_array id data) (set_vm_ex ex' v) ∧
    zlen data = n * slot_width e ∧
    ∀ i r, 0 ≤ i < n → zget refs (offset + i) = Some r → elem e None data i = Ok (slot_view e (val_from_ref r)).
Proof using Hm Hid Hlay.
  intros Hops Hseg Hfit. use_operands. u32_bounds. pose proof (slot_width_pos e).
  unfold array_new_elem. do 6 vm_step. cbn [al_stride array_layout_of].
  rewrite range_spec by done. destruct (Z.leb_spec (offset + n) (zlen refs)); [|done]. lift_step. cbn [negb].
  rewrite elem_bytes_ok by done. lift_step. rewrite capacity_step. cbn [vm_store].
  destruct (can_fit_limit _ _); [|done]. cbn [negb]. unfold u_ok in *.
  rewrite zslice_is_Some by lia. lift_step. replace (offset + n - offset) with n by lia.
  assert (zlen (ztake n (zdrop offset refs)) = n) as Hc by (rewrite zlen_take; rewrite ?zlen_drop; lia).
  destruct (write_refs_spec e (ztake n (zdrop offset refs)) 0 (zeroed (n * slot_width e)) n)
    as (d & Hw & Hl & Hr); [by apply Forall_take, Forall_drop|apply zlen_zeroed; nia|lia|lia|].
  exists d. unfold body_size. cbn [al_stride array_layout_of].
  rewrite (lift_Ok _ _ _ _ Hw). split; [done|]. rewrite Hl, zlen_zeroed by nia. split; [done|].
  intros i r Hi Hg. rewrite Hr, Z.sub_0_r by done.
  rewrite zget_fmap, zget_take, zget_drop, Hg by lia. done.
Qed.
End array_of.

(** The five array constructors allocate one array of the type's canonical
    id with exactly the requested elements: [n] copies of the operand or of the
    default, the [n] operands in order, or the addressed run of a data or element
    segment; a run that leaves its segment (empty once dropped) traps before
    anything is allocated. *)
Theorem array_new_exact instance ty v m id e :
  module_of instance (vm_store v) = Ok m → canonical_type_id m ty = Ok id →
  array_layout m ty = Ok (array_layout_of e) →
  (∀ n x ex', operands [OdU32 n; OdField (elem_at (array_layout_of e) 0) x] (vm_ex v) ex' → val_ok x →
    ∃ data, exec_gc (OpArrayNew ty) instance v = allocated (new_array id data) (set_vm_ex ex' v) ∧
      zlen data = n * slot_width e ∧ ∀ i, 0 ≤ i < n → elem e None data i = Ok (slot_view e x)) ∧
  (∀ n ex', operands [OdU32 n] (vm_ex v) ex' →
    ∃ data, exec_gc (OpArrayNewDefault ty) instance v = allocated (new_array id data) (set_vm_ex ex' v) ∧
      zlen data = n * slot_width e ∧ ∀ i, 0 ≤ i < n → elem e None data i = Ok (default_for_slot e)) ∧
  (∀ vs ex', operands (zip_with OdField (reverse (elem_at (array_layout_of e) <$> seqZ 0 (zlen vs))) (reverse vs))
      (vm_ex v) ex' → Forall val_ok vs →
    ∃ data, exec_gc (OpArrayNewFixed ty (zlen vs)) instance v = allocated (new_array id data) (set_vm_ex ex' v) ∧
      zlen data = zlen vs * slot_width e ∧
      ∀ i x, zget vs i = Some x → elem e None data i = Ok (slot_view e x)) ∧
  (∀ n offset ex' seg bytes avail, operands [OdU32 n; OdU32 offset] (vm_ex v) ex' →
    data_segment instance seg m (vm_store v) = Ok (bytes, avail) →
    if negb (offset + n * slot_width e <=? avail)
    then exec_gc (OpArrayNewData ty seg) instance v = (Err (ETrap MemoryOutOfBounds), set_vm_ex ex' v)
    else if negb (can_fit_limit (si_gc (vm_store v)) (n * slot_width e))
    then exec_gc (OpArrayNewData ty seg) instance v = (Err (ETrap AllocationTooLarge), set_vm_ex ex' v)
    else ∃ data, exec_gc (OpArrayNewData ty seg) instance v = allocated (new_array id data) (set_vm_ex ex' v) ∧
      zlen data = n * slot_width e ∧
      ∀ ext i, 0 ≤ i < n → elem e ext data i = elem e ext (zdrop offset bytes) i) ∧
  (∀ n offset ex' seg refs, operands [OdU32 n; OdU32 offset] (vm_ex v) ex' →
    segment_refs instance seg (vm_store v) = Ok refs → Forall (λ r, fits_slot e (val_from_ref r)) refs →
    if negb (offset + n <=? zlen refs)
    then exec_gc (OpArrayNewElem ty seg) instance v = (Err (ETrap TableOutOfBounds), set_vm_ex ex' v)
    else if negb (can_fit_limit (si_gc (vm_store v)) (n * slot_width e))
    then exec_gc (OpArrayNewElem ty seg) instance v = (Err (ETrap AllocationTooLarge), set_vm_ex ex' v)
    else ∃ data, exec_gc (OpArrayNewElem ty seg) instance v = allocated (new_array id data) (set_vm_ex ex' v) ∧
      zlen data = n * slot_width e ∧
      ∀ i r, 0 ≤ i < n → zget refs (offset + i) = Some r → elem e None data i = Ok (slot_view e (val_from_ref r))).
Proof.
  intros Hm Hid Hlay. split_and!.
  - intros n x ex' Hops Hx. by eapply (array_new_run _ _ _ _ _ _ Hm Hid Hlay n x ex' false).
  - intros n ex' Hops. pose proof (proj2 (default_fits e)) as Hd.
    destruct (array_new_run _ _ _ _ _ _ Hm Hid Hlay n _ ex' true (conj Hops eq_refl)) as (d & ? & ? & Hr).
    rewrite Hd in Hr. by exists d.
  - intros vs ex'. by apply (array_new_fixed_run _ _ _ _ _ _ Hm Hid Hlay).
  - intros n offset ex' seg bytes avail. by apply (array_new_data_run _ _ _ _ _ _ Hm Hid Hlay).
  - intros n offset ex' seg refs. by apply (array_new_elem_run _ _ _ _ _ _ Hm Hid Hlay).
Qed.
End creation.

(** ** A concrete machine *)

(** Type 0 is [(struct (mut i8) (mut i32))] (id 5), type 1 [(array (mut i16))] (id 6);
    slot 0 of the heap is a struct, slot 1 an array of four elements. *)
Definition gc_fields : list IrField :=
  [{| f_mutable := true; f_storage := IrSI8 |}; {| f_mutable := true; f_storage := IrSVal IrI32 |}].
Definition gc_element : IrField := {| f_mutable := true; f_storage := IrSI16 |}.
Definition gc_module : ModuleInner :=
  set_interned [5; 6]
    {| mi_types := [{| mt_group := 0; mt_finality := Final; mt_supertype := None; mt_body := CompStruct gc_fields |};
                    {| mt_group := 1; mt_finality := Final; mt_supertype := None; mt_body := CompArray gc_element |}];
       mi_func_types := []; mi_num_imported_funcs := 0; mi_functions := []; mi_code := mi_code empty_module;
       mi_imports := []; mi_exports := []; mi_memories := []; mi_tables := []; mi_globals := []; mi_tags := [];
       mi_num_imported_tags := 0; mi_datas := [{| ds_mode := DmPassive; ds_bytes := [40; 0; 41; 0; 42; 0] |}];
       mi_elems := []; mi_start := None; mi_type_ids := []; mi_layouts := [] |}.
Definition gc_inst : Handle := {| h_index := 0; h_store := 1 |}.
Definition gc_struct : GcObject := new_struct 5 [7; 8; 0; 0; 0].
Definition gc_array : GcObject := new_array 6 [1; 0; 2; 0; 3; 0; 255; 255].
Definition gc_store : StoreInner :=
  set_si_instances [{| ie_module := gc_module; ie_funcs := []; ie_memories := []; ie_globals := []; ie_tables := [];
                       ie_tags := []; ie_dropped_data := [false]; ie_elems := [[RefFunc None]] |}]
    (set_si_gc (set_table [Some gc_struct; Some gc_array] [0; 0] [] (gc_new true 0)) (store_new 1 true 0)).
Definition gc_vm (ex : Execution) : Vm := {| vm_ex := ex; vm_store := gc_store |}.
Definition gc_order : TypeOrder := {| engine_is_subtype := Z.eqb |}.
Definition gc_types : EngineTypes :=
  {| struct_fields := λ _, None;
     array_field := λ _, Some {| ft_mutable := true; ft_element := StI16 |} |}.
Definition int (n : Z) : Execution → Execution := @push_i32 lean_features n.
Definition href (h : Z) : Execution → Execution := @push_cell (@from_i32 lean_features h) TagAny.
Definition gc_run (op : Op) (ex : Execution) : res () * Vm :=
  @exec_gc lean_features gc_types gc_order op gc_inst (gc_vm ex).
Definition i16_slot : Slot := SlotScalar 0 SkI16.
(** The elements of the array in slot [obj], as [array.get_s] reads them. *)
Definition shorts (obj : Z) (v : Vm) : list (res Val) :=
  match gc_get (si_gc (vm_store v)) obj with
  | Some o => elem i16_slot (Some true) (obj_data o) <$> seqZ 0 (array_len o 2)
  | None => []
  end.

Ltac run_operands := repeat (eexists; split; [vm_compute; reflexivity|]); vm_compute; reflexivity.
Ltac decide_in T :=
  repeat match type of T with if ?c then _ else _ =>
    first [change c with true in T | change c with false in T]; cbv iota in T end.

Lemma gc_array_type : array_type gc_store gc_inst 1 i16_slot.
Proof. exists gc_module. split; reflexivity. Qed.
Lemma gc_array_at : array_at gc_store 1 i16_slot gc_array 4.
Proof. split; [reflexivity|reflexivity|]. vm_compute. intuition congruence. Qed.
Lemma gc_points (h : Z) : decode_anyref_handle h = HSlot h → points_to (anyref_value h) h.
Proof. intros Hd. exists (rooted_from_raw h RkAny). split; [reflexivity|exact Hd]. Qed.

(** [array.copy] within one array, the ranges overlapping; then out of bounds. *)
Lemma array_copy_exact_witness :
  let ops len := int len (int 0 (href 1 (int 1 (href 1 ex_base)))) in
  (∃ v', gc_run (OpArrayCopy 1 1) (ops 3) = (Ok tt, v') ∧
    shorts 1 v' = [Ok (VI32 1); Ok (VI32 1); Ok (VI32 2); Ok (VI32 3)]) ∧
  gc_run (OpArrayCopy 1 1) (ops 4) = (Err (ETrap ArrayOutOfBounds), gc_vm ex_base).
Proof.
  intros ops.
  pose proof (λ len H, @array_copy_exact lean_features gc_types gc_order gc_inst 1 1 i16_slot (gc_vm (ops len)) ex_base
    len 0 1 _ _ 1 1 gc_array gc_array 4 4 gc_array_type H (gc_points 1 eq_refl) (gc_points 1 eq_refl)
    gc_array_at gc_array_at) as T.
  split.
  - specialize (T 3 ltac:(run_operands)). decide_in T. destruct T as (d & Hrun & Hl & He).
    eexists. split; [exact Hrun|].
    change (shorts 1 (with_body 1 gc_array d ex_base (gc_vm (ops 3)))) with
      (elem i16_slot (Some true) d <$> seqZ 0 (array_len (with_data gc_array d) 2)).
    unfold array_len. cbn [obj_data with_data]. rewrite Hl. cbn [seqZ].
    change (seqZ 0 _) with [0; 1; 2; 3]. cbn [fmap list_fmap]. by rewrite !He by lia.
  - specialize (T 4 ltac:(run_operands)). decide_in T. exact T.
Defined.

(** Element 3 is -1 sign-extended; element 1 overwritten; an index past the end. *)
Lemma array_element_exact_witness :
  gc_run (OpArrayGetS 1) (int 3 (href 1 ex_base)) = (Ok tt, gc_vm (int (-1) ex_base)) ∧
  (∃ d v', gc_run (OpArraySet 1) (int 9 (int 1 (href 1 ex_base))) = (Ok tt, v') ∧
    obj_data <$> gc_get (si_gc (vm_store v')) 1 = Some d ∧ elem i16_slot None d 1 = Ok (VI32 9)) ∧
  gc_run OpArrayLen (href 1 ex_base) = (Ok tt, gc_vm (int 4 ex_base)) ∧
  gc_run (OpArrayGet 1) (int 4 (href 1 ex_base)) = (Err (ETrap ArrayOutOfBounds), gc_vm ex_base).
Proof.
  pose proof (λ ex idx, @array_element_exact lean_features gc_types gc_order gc_inst 1 i16_slot (gc_vm ex) _ 1 gc_array 4
    idx gc_array_type (gc_points 1 eq_refl) gc_array_at) as T.
  split_and!.
  - destruct (T (int 3 (href 1 ex_base)) 3) as (G & _). specialize (G (Some true) ex_base ltac:(run_operands)).
    unfold gc_run. etransitivity; [exact G|]. vm_compute. reflexivity.
  - destruct (T (int 9 (int 1 (href 1 ex_base))) 1) as (_ & S & _).
    specialize (S (VI32 9) ex_base ltac:(run_operands) ltac:(vm_compute; intuition congruence)).
    decide_in S. destruct S as (d & Hrun & Hl & He). exists d. eexists. split; [exact Hrun|]. split; [reflexivity|].
    exact (He 1 ltac:(lia)).
  - destruct (T (href 1 ex_base) 0) as (_ & _ & L).
    specialize (L _ ex_base ltac:(run_operands) eq_refl eq_refl).
    unfold gc_run. etransitivity; [exact L|]. vm_compute. reflexivity.
  - destruct (T (int 4 (href 1 ex_base)) 4) as (G & _). specialize (G None ex_base ltac:(run_operands)). exact G.
Defined.

Lemma array_fill_init_exact_witness :
  (∃ v', gc_run (OpArrayFill 1) (int 2 (int 7 (int 1 (href 1 ex_base)))) = (Ok tt, v')) ∧
  (∃ v', gc_run (OpArrayInitData 1 0) (int 2 (int 2 (int 0 (href 1 ex_base)))) = (Ok tt, v')) ∧
  gc_run (OpArrayInitData 1 0) (int 4 (int 0 (int 0 (href 1 ex_base)))) = (Err (ETrap MemoryOutOfBounds), gc_vm ex_base) ∧
  gc_run (OpArrayInitData 1 0) (int 5 (int 0 (int 0 (href 1 ex_base)))) = (Err (ETrap ArrayOutOfBounds), gc_vm ex_base).
Proof.
  pose proof (λ ex len at_, @array_fill_init_exact lean_features gc_types gc_order gc_inst 1 i16_slot (gc_vm ex) ex_base
    len at_ _ 1 gc_array 4 gc_array_type (gc_points 1 eq_refl) gc_array_at) as T.
  split_and!.
  - destruct (T (int 2 (int 7 (int 1 (href 1 ex_base)))) 2 1) as (F & _).
    specialize (F (VI32 7) ltac:(run_operands) ltac:(vm_compute; intuition congruence)).
    decide_in F. destruct F as (d & Hrun & _). eexists. exact Hrun.
  - destruct (T (int 2 (int 2 (int 0 (href 1 ex_base)))) 2 0) as (_ & F).
    destruct (F 2 ltac:(run_operands)) as [G _].
    specialize (G 0 gc_module [40; 0; 41; 0; 42; 0] 6 eq_refl eq_refl). decide_in G.
    destruct G as (d & Hrun & _). eexists. exact Hrun.
  - destruct (T (int 4 (int 0 (int 0 (href 1 ex_base)))) 4 0) as (_ & F).
    destruct (F 0 ltac:(run_operands)) as [G _].
    specialize (G 0 gc_module [40; 0; 41; 0; 42; 0] 6 eq_refl eq_refl). decide_in G. exact G.
  - destruct (T (int 5 (int 0 (int 0 (href 1 ex_base)))) 5 0) as (_ & F).
    destruct (F 0 ltac:(run_operands)) as [G _].
    specialize (G 0 gc_module [40; 0; 41; 0; 42; 0] 6 eq_refl eq_refl). decide_in G. exact G.
Defined.

(** [(struct.new 300 -2)]: the first field keeps its low byte. *)
Lemma struct_new_exact_witness :
  ∃ data, gc_run (OpStructNew 0) (int (-2) (int 300 ex_base)) =
    @allocated lean_features (new_struct 5 data) (gc_vm ex_base) ∧
    read_slot (SlotScalar 0 SkI8) data = Ok (VI32 44) ∧ read_slot (SlotScalar 1 SkI32) data = Ok (VI32 (-2)).
Proof.
  destruct (@struct_new_exact lean_features gc_types gc_order gc_inst 0 (gc_vm (int (-2) (int 300 ex_base))) gc_module 5
    gc_fields eq_refl eq_refl eq_refl) as [N _].
  destruct (N [VI32 300; VI32 (-2)] ex_base ltac:(run_operands) eq_refl) as (d & Hrun & _ & Hh).
  { repeat constructor; vm_compute; intuition congruence. }
  exists d. split; [exact Hrun|]. change (Forall2 (holds d) [SlotScalar 0 SkI8; SlotScalar 1 SkI32] [VI32 300; VI32 (-2)]) in Hh.
  apply Forall2_cons in Hh as [H1 Hh]. apply Forall2_cons in Hh as [H2 _]. split; [exact H1|exact H2].
Defined.

Lemma array_new_exact_witness :
  (∃ data, gc_run (OpArrayNew 1) (int 2 (int 5 ex_base)) = @allocated lean_features (new_array 6 data) (gc_vm ex_base) ∧
    elem i16_slot None data 1 = Ok (VI32 5)) ∧
  (∃ data, gc_run (OpArrayNewFixed 1 2) (int 8 (int 7 ex_base)) = @allocated lean_features (new_array 6 data) (gc_vm ex_base) ∧
    elem i16_slot None data 0 = Ok (VI32 7)) ∧
  (∃ data, gc_run (OpArrayNewData 1 0) (int 2 (int 2 ex_base)) = @allocated lean_features (new_array 6 data) (gc_vm ex_base) ∧
    elem i16_slot None data 1 = Ok (VI32 42)) ∧
  gc_run (OpArrayNewData 1 0) (int 3 (int 2 ex_base)) = (Err (ETrap MemoryOutOfBounds), gc_vm ex_base).
Proof.
  pose proof (λ ex, @array_new_exact lean_features gc_types gc_order gc_inst 1 (gc_vm ex) gc_module 6
    i16_slot eq_refl eq_refl eq_refl) as T.
  split_and!.
  - destruct (T (int 2 (int 5 ex_base))) as (N & _).
    destruct (N 2 (VI32 5) ex_base ltac:(run_operands) ltac:(vm_compute; intuition congruence)) as (d & Hrun & _ & He).
    exists d. split; [exact Hrun|]. exact (He 1 ltac:(lia)).
  - destruct (T (int 8 (int 7 ex_base))) as (_ & _ & N & _).
    destruct (N [VI32 7; VI32 8] ex_base ltac:(run_operands)) as (d & Hrun & _ & He).
    { repeat constructor; vm_compute; intuition congruence. }
    exists d. split; [exact Hrun|]. exact (He 0 (VI32 7) eq_refl).
  - destruct (T (int 2 (int 2 ex_base))) as (_ & _ & _ & N & _).
    specialize (N 2 2 ex_base 0 [40; 0; 41; 0; 42; 0] 6 ltac:(run_operands) eq_refl). decide_in N.
    destruct N as (d & Hrun & _ & He). exists d. split; [exact Hrun|]. rewrite (He None 1) by lia. vm_compute. reflexivity.
  - destruct (T (int 3 (int 2 ex_base))) as (_ & _ & _ & N & _).
    specialize (N 3 2 ex_base 0 [40; 0; 41; 0; 42; 0] 6 ltac:(run_operands) eq_refl). decide_in N. exact N.
Defined.

Lemma struct_field_exact_witness :
  gc_run (OpStructGet 0 1) (href 0 ex_base) = (Ok tt, gc_vm (int 8 ex_base)) ∧
  ∃ d v', gc_run (OpStructSet 0 0) (int 300 (href 0 ex_base)) = (Ok tt, v') ∧
    obj_data <$> gc_get (si_gc (vm_store v')) 0 = Some d ∧
    read_slot (SlotScalar 0 SkI8) d = Ok (VI32 44) ∧ read_slot (SlotScalar 1 SkI32) d = Ok (VI32 8).
Proof.
  pose proof (λ ex field slot H, @struct_field_exact lean_features gc_types gc_order gc_inst 0 field (gc_vm ex) gc_module
    gc_fields slot _ 0 gc_struct eq_refl eq_refl H (gc_points 0 eq_refl) ltac:(split; reflexivity)) as T.
  split.
  - destruct (T (href 0 ex_base) 1 (SlotScalar 1 SkI32) eq_refl) as [G _].
    specialize (G None ex_base ltac:(run_operands)). unfold gc_run. etransitivity; [exact G|]. vm_compute. reflexivity.
  - destruct (T (int 300 (href 0 ex_base)) 0 (SlotScalar 0 SkI8) eq_refl) as [_ S].
    destruct (S (VI32 300) ex_base ltac:(run_operands) ltac:(vm_compute; intuition congruence)) as (d & Hrun & Hh & Hl & Hf).
    exists d. eexists. split; [exact Hrun|]. split; [reflexivity|]. split; [exact Hh|].
    specialize (Hf 1 (SlotScalar 1 SkI32) None ltac:(lia) eq_refl). cbn [read_ext] in Hf. rewrite Hf. vm_compute. reflexivity.
Defined.
