(* ===== verification/Casts.v ===== *)
(** * Casts: reference membership in heap types (theorems about the cast half of
    GcOps.v)

    [ref.test], [ref.cast] and the [br_on_cast] branches ask one question; its
    answer is proved to agree with the declared subtyping of heap types, given
    what the type registry promises of [is_subtype] ([TypeOrderOk]). *)
From stdpp Require Import relations.
From S2P Require Import Prelude Types Layout Codec Arena Heap Op Entity Store Collect Stack Frame Limits.
From S2P Require Import Memory Reserve GcOps Aggregates.
Open Scope Z_scope.

(** What casts rely on: subtyping of canonical ids is a preorder that keeps the
    kind of a type. *)
Class TypeOrderOk `{TypeOrder} (kind_of : Z → option AggKind) : Prop := {
  subtype_refl a : engine_is_subtype a a = true;
  subtype_trans a b c :
    engine_is_subtype a b = true → engine_is_subtype b c = true → engine_is_subtype a c = true;
  subtype_kind a b : engine_is_subtype a b = true → kind_of a = kind_of b;
}.

Section subsumption.
Context `{TypeOrder} (kind_of : Z → option AggKind).

Definition obj_agg (k : ObjKind) : option AggKind :=
  match k with ObjStruct => Some AggStruct | ObjArray => Some AggArray | ObjExtern => None end.
(** Every struct or array of the heap is of the kind its type id declares. *)
Definition heap_typed (s : StoreInner) : Prop :=
  ∀ i o k, gc_get (si_gc s) i = Some o → obj_agg (obj_kind o) = Some k → kind_of (obj_type o) = Some k.
(** A module-local concrete heap type names a type of its kind. *)
Definition concrete_ok (m : ModuleInner) (idx : Z) (k : AggKind) : Prop :=
  ∃ id, canonical_type_id m idx = Ok id ∧ kind_of id = Some k.

(** Declared subtyping of heap types, in the index space of one module. *)
Inductive heap_sub (m : ModuleInner) : IrHeap → IrHeap → Prop :=
  | hs_refl h : heap_sub m h h
  | hs_trans a b c : heap_sub m a b → heap_sub m b c → heap_sub m a c
  | hs_concrete i j k a b :
      canonical_type_id m i = Ok a → canonical_type_id m j = Ok b → engine_is_subtype a b = true →
      heap_sub m (IrConcrete i k) (IrConcrete j k)
  | hs_func i : heap_sub m (IrConcrete i AggFunc) IrFunc
  | hs_struct i : concrete_ok m i AggStruct → heap_sub m (IrConcrete i AggStruct) IrStruct
  | hs_array i : concrete_ok m i AggArray → heap_sub m (IrConcrete i AggArray) IrArray
  | hs_struct_eq : heap_sub m IrStruct IrEq
  | hs_array_eq : heap_sub m IrArray IrEq
  | hs_i31_eq : heap_sub m IrI31 IrEq
  | hs_eq_any : heap_sub m IrEq IrAny
  | hs_none h : ref_kind h = RkAny → heap_sub m IrNone h
  | hs_nofunc h : ref_kind h = RkFunc → heap_sub m IrNoFunc h
  | hs_noextern h : ref_kind h = RkExtern → heap_sub m IrNoExtern h
  | hs_noexn h : ref_kind h = RkExn → heap_sub m IrNoExn h.

Lemma is_i31_any value : is_i31 value = true → ∃ r, value = VAnyRef (Some r).
Proof. unfold is_i31, decode_any. destruct value as [| | | | | | |[r|]|]; try done. eauto. Qed.
Lemma gc_kind_any value s k : gc_kind value s = Ok (Some k) → ∃ r, value = VAnyRef (Some r).
Proof. unfold gc_kind, decode_any. destruct value as [| | | | | | |[r|]|]; try done. eauto. Qed.

(** The object behind a cast operand, by kind and by type id. *)
Lemma gc_type_id_kind value s a : gc_type_id value s = Ok (Some a) →
  ∃ i o k, gc_get (si_gc s) i = Some o ∧ obj_agg (obj_kind o) = Some k ∧ obj_type o = a ∧
    gc_kind value s = Ok (Some k).
Proof.
  unfold gc_type_id, gc_kind. destruct (decode_any value) as [[x|i]|]; try done.
  unfold cast_object. destruct (gc_get (si_gc s) i) as [o|] eqn:Hg; [|done]. cbn [ok_or mbind result_bind].
  destruct (obj_kind o) eqn:Hk; intros [= <-]; eexists i, o, _; rewrite Hk; split_and!; try done; exact Hg.
Qed.

(** A membership in a concrete type: the type of the value, below the target. *)
Lemma concrete_matches_true instance value idx k s m :
  module_of instance s = Ok m →
  concrete_matches instance value idx k s = Ok true ↔
  ∃ t a, canonical_type_id m idx = Ok t ∧ engine_is_subtype a t = true ∧
    match k with
    | AggFunc => ∃ f, value = VFuncRef (Some f) ∧ func_type_id f s = Ok a
    | AggStruct | AggArray => gc_type_id value s = Ok (Some a)
    end.
Proof.
  intros Hm. unfold concrete_matches. rewrite Hm. cbn [mbind result_bind].
  destruct (canonical_type_id m idx) as [t| |]; cbn [mbind result_bind]; cycle 1; [naive_solver..|].
  assert (∀ q : res (option Z),
    (actual ← q; Ok (match actual with Some a => engine_is_subtype a t | None => false end)) = Ok true ↔
    ∃ a, q = Ok (Some a) ∧ engine_is_subtype a t = true) as Hq.
  { intros q. split.
    - destruct q as [[a|]| |]; cbn; try done. intros [= Hs]. by exists a.
    - intros (a & -> & Hs). cbn. by rewrite Hs. }
  rewrite Hq. split.
  - intros (a & Ha & Hs). exists t, a. split_and!; [done..|]. destruct k; try done.
    destruct value as [| | | | |[f|]| | |]; try done. exists f. split; [done|].
    destruct (func_type_id f s); [|done..]. cbn in Ha. by injection Ha as ->.
  - intros (t' & a & [= <-] & Hs & Hv). exists a. split; [|done]. destruct k; try done.
    destruct Hv as (f & -> & ->). done.
Qed.

Context {HOk : TypeOrderOk kind_of}.

Lemma concrete_kind instance value idx k s m :
  module_of instance s = Ok m → heap_typed s → concrete_ok m idx k → k ≠ AggFunc →
  concrete_matches instance value idx k s = Ok true → gc_kind value s = Ok (Some k).
Proof using HOk.
  intros Hm Ht (t & Hid & Hk) Hne (t' & a & Hid' & Hsub & Hv)%(concrete_matches_true _ _ _ _ _ _ Hm).
  assert (t' = t) as -> by congruence.
  assert (gc_type_id value s = Ok (Some a)) as (i & o & k' & Hg & Hok & Hty & Hkind)%gc_type_id_kind by (by destruct k).
  specialize (Ht i o k' Hg Hok). rewrite Hty, (subtype_kind a t Hsub), Hk in Ht. by injection Ht as <-.
Qed.

(** C36: membership respects subtyping: a value that belongs to a heap type
    belongs to each of its declared supertypes, so a cast to a supertype never
    fails where a cast to the subtype succeeds. *)
Theorem cast_subsumption instance m s value a b nullable nullable' :
  module_of instance s = Ok m → heap_typed s → heap_sub m a b →
  (nullable = true → nullable' = true) →
  matches_heaptype instance value a nullable s = Ok true →
  matches_heaptype instance value b nullable' s = Ok true.
Proof using HOk.
  intros Hm Ht Hsub Hn. unfold matches_heaptype.
  destruct (is_null_ref value) eqn:Hnull; [intros [= ?]; f_equal; auto|].
  clear Hn. induction Hsub as [h|x y z _ IH1 _ IH2|i j k x y Hi Hj Hxy|i|i Hc|i Hc| | | | |h Hk|h Hk|h Hk|h Hk]; try done.
  - intros Hx. by apply IH2, IH1.
  - rewrite !(concrete_matches_true _ _ _ _ _ _ Hm). intros (t & a0 & Hid & Hs & Hv).
    assert (t = x) as -> by congruence. exists y, a0. split_and!; [done|by eapply subtype_trans|done].
  - rewrite (concrete_matches_true _ _ _ _ _ _ Hm). by intros (t & a0 & _ & _ & f & -> & _).
  - intros Hv. rewrite (concrete_kind _ _ _ _ _ _ Hm Ht Hc ltac:(done) Hv). cbn. by rewrite bool_decide_true.
  - intros Hv. rewrite (concrete_kind _ _ _ _ _ _ Hm Ht Hc ltac:(done) Hv). cbn. by rewrite bool_decide_true.
  - unfold is_eq. destruct (gc_kind value s) as [k| |]; cbn; try done. intros [= Hk%bool_decide_eq_true].
    destruct (is_i31 value); [done|]. by rewrite Hk.
  - unfold is_eq. destruct (gc_kind value s) as [k| |]; cbn; try done. intros [= Hk%bool_decide_eq_true].
    destruct (is_i31 value); [done|]. by rewrite Hk.
  - unfold is_eq. by intros [= ->].
  - unfold is_eq. destruct (is_i31 value) eqn:Hi; [by destruct (is_i31_any _ Hi) as [r ->]|].
    destruct (gc_kind value s) as [[k|]| |] eqn:Hk; cbn; try done. by destruct (gc_kind_any _ _ _ Hk) as [r ->].
Qed.
End subsumption.

(** A struct of concrete type 0 is an [eqref]. *)
Definition gc_kinds (id : Z) : option AggKind :=
  if id =? 5 then Some AggStruct else if id =? 6 then Some AggArray else None.
Lemma cast_subsumption_witness :
  @matches_heaptype gc_order gc_inst (anyref_value 0) (IrConcrete 0 AggStruct) false gc_store = Ok true ∧
  @matches_heaptype gc_order gc_inst (anyref_value 0) IrEq false gc_store = Ok true.
Proof.
  split; [reflexivity|].
  apply (@cast_subsumption gc_order gc_kinds
    ltac:(constructor; cbn; [apply Z.eqb_refl|intros a b c ->%Z.eqb_eq; auto|by intros a b ->%Z.eqb_eq])
    gc_inst gc_module gc_store (anyref_value 0) (IrConcrete 0 AggStruct) IrEq false false);
    [reflexivity| | |auto|reflexivity].
  - intros i o k Hg. unfold gc_get in Hg.
    change (gc_slots (si_gc gc_store)) with [Some gc_struct; Some gc_array] in Hg.
    destruct (decide (i = 0)) as [->|]; [injection Hg as <-; by intros [= <-]|].
    destruct (decide (i = 1)) as [->|]; [injection Hg as <-; by intros [= <-]|].
    exfalso. destruct (zget [Some gc_struct; Some gc_array] i) eqn:Hi; [|discriminate Hg].
    apply zget_Some in Hi. change (zlen [Some gc_struct; Some gc_array]) with 2 in Hi. lia.
  - eapply hs_trans; [apply hs_struct; exists 5; split; reflexivity|constructor].
Defined.
