(* ===== verification/Ordered.v ===== *)
(** * Ordered: the type registry is the interpreter's type order

    The interpreter asks one question of the engine, [TypeOrder], and its casts rely on
    the laws [TypeOrderOk].  Here the registry's walk answers the question, the laws are
    discharged from the registry's invariant, and the answer is tied to the
    supertypes a module declares. *)
From stdpp Require Import relations.
From S2P Require Import Prelude Types Keys Registry Interning Layout Codec Arena Heap Op Entity Store GcOps Casts.
Open Scope Z_scope.

(** [Engine::is_subtype]: the walk's fuel is always enough ([is_subtype_total]). *)
Definition registry_order (tr : TypeRegistry) : TypeOrder := {| engine_is_subtype := λ a b, default false (is_subtype tr a b) |}.

(** Type [i] of the module declares [j] as its supertype. *)
Definition declared (types : list ModuleType) (i j : Z) : Prop := ∃ t, zget types i = Some t ∧ mt_supertype t = Some j.

Section order.
Context (rank : Z → Z) (held : list Z) (tr : TypeRegistry) (Hw : reg_wf rank held tr) (Hord : ordered_registry tr).
Abbreviation subtype := (@engine_is_subtype (registry_order tr)).

Lemma order_closure a b : subtype a b = true ↔ rtc (super_of tr) a b.
Proof using Hw Hord.
  destruct (is_subtype_total rank held tr Hw Hord a b) as [x Hx].
  unfold engine_is_subtype, registry_order. rewrite Hx.
  exact (is_subtype_go_sound _ _ _ _ _ Hx).
Qed.
Lemma order_laws : kinds_agree tr → @TypeOrderOk (registry_order tr) (type_kind tr).
Proof using Hw Hord.
  intros Hk. split.
  - intros a. by apply order_closure.
  - intros a b c. rewrite !order_closure. intros ? ?; by eapply rtc_trans.
  - intros a b Hab%order_closure. induction Hab as [|x y z Hxy _ IH]; [done|]. by rewrite (Hk x y Hxy).
Qed.
End order.

Lemma declared_closure types ids tr i j : module_types_ok types →
  (∀ i t, zget types i = Some t → ∃ id ty, zget ids i = Some id ∧ registered_type tr id = Some ty ∧ canonical_type ids t = Ok ty) →
  rtc (declared types) i j → is_Some (zget types i) →
  ∃ a b, zget ids i = Some a ∧ zget ids j = Some b ∧ rtc (super_of tr) a b.
Proof.
  intros Hok Hr. induction 1 as [i|i k j (t & Ht & Hs) _ IH]; intros [t' Hi].
  { destruct (Hr i t' Hi) as (id & _ & Hid & _). by exists id, id. }
  destruct (mo_refs _ Hok i t k Ht) as [Hk0 _]; [unfold type_refs; rewrite Hs; set_solver|].
  pose proof (mo_super _ Hok i t k Ht Hs) as Hki. pose proof (zget_Some _ _ _ Ht).
  destruct (IH ltac:(apply zget_is_Some; lia)) as (c & b & Hc & Hb & Hcb).
  destruct (Hr i t Ht) as (a & ty & Ha & Hty & Hcan). exists a, b. split_and!; [done..|].
  apply rtc_l with c; [|done]. exists ty. split; [done|]. unfold canonical_type in Hcan. rewrite Hs, Hc in Hcan. cbn in Hcan.
  destruct (body_key _ _) as [bd|e|w]; [|done..]. by injection Hcan as <-.
Qed.

(** C22: the type registry implements the interface the interpreter's casts are proved
    against, as long as sibling supertypes come earlier in their groups
    ([ordered_registry], which interning a validated module keeps and which a
    host-built group that names itself or a later sibling as supertype breaks:
    [self_supertype_accepted]).  After a validated module is interned into such a
    well-formed registry, the supertype walk always ends and is a partial order; it
    relates the canonical ids of any two types of the module that are related by
    declared supertypes, directly or through others; the registry is again ordered; and
    when the module's declared supertypes are of the kind of their subtypes
    ([super_kinds], what validation makes sure of), interning keeps that agreement in
    the registry and the walk satisfies every law of [TypeOrderOk], the one on kinds
    included. *)
Theorem registry_implements_order rank held tr types :
  reg_wf rank held tr → ordered_registry tr → module_types_ok types →
  room (zlen types) (zlen types) (2 * module_regs types) held tr →
  ∃ ids gs tr', intern_module types tr = (Ok (ids, gs), tr') ∧
    let subtype := @engine_is_subtype (registry_order tr') in
    (∀ a b, subtype a b = true ↔ is_subtype tr' a b = Some true) ∧ (∀ a b, is_Some (is_subtype tr' a b)) ∧
    (∀ a, subtype a a = true) ∧ (∀ a b c, subtype a b = true → subtype b c = true → subtype a c = true) ∧
    (∀ a b, subtype a b = true → subtype b a = true → a = b) ∧
    (∀ i j, rtc (declared types) i j → is_Some (zget types i) →
       ∃ a b, zget ids i = Some a ∧ zget ids j = Some b ∧ subtype a b = true) ∧
    ordered_registry tr' ∧
    (super_kinds types → kinds_agree tr → kinds_agree tr' ∧ @TypeOrderOk (registry_order tr') (type_kind tr')).
Proof.
  intros Hw Hord Hok Hroom.
  destruct (intern_module_spec rank held tr types Hw Hord Hok Hroom) as (ids & gs & tr' & rank' & Hrun & _ & Hw' & Hord' & _ & Hkd & Hr).
  pose proof (order_closure rank' _ tr' Hw' Hord') as Hc. exists ids, gs, tr'. split; [done|]. cbn zeta. split_and!.
  - intros a b. unfold engine_is_subtype, registry_order.
    destruct (is_subtype_total rank' _ tr' Hw' Hord' a b) as [[] ->]; cbn; naive_solver.
  - exact (is_subtype_total rank' _ tr' Hw' Hord').
  - intros a. by apply Hc.
  - intros a b c. rewrite !Hc. intros ? ?; by eapply rtc_trans.
  - intros a b. rewrite !Hc. by apply (super_antisym rank' (gs ++ held)).
  - intros i j Hij Hi. destruct (declared_closure types ids tr' i j Hok) as (a & b & Ha & Hb & Hab); [|done..|].
    + intros i' t Ht. destruct (Hr i' t Ht) as (id & ty & ? & ? & ? & _). by exists id, ty.
    + exists a, b. split_and!; [done..|by apply Hc].
  - done.
  - intros Hsk Hk. specialize (Hkd Hsk Hk). split; [done|]. by apply (order_laws rank' (gs ++ held)).
Qed.

(** The module of [Interning]: [$b] declares [$a], both structs. *)
Lemma demo_super_kinds : super_kinds demo_types.
Proof.
  intros i t s u Ht Hs Hu. pose proof (zget_Some _ _ _ Ht) as Hi. change (zlen demo_types) with 3 in Hi.
  assert (i = 0 ∨ i = 1 ∨ i = 2) as [->|[->| ->]] by lia; injection Ht as <-; cbn in Hs; try done.
  injection Hs as <-. by injection Hu as <-.
Qed.
Lemma kinds_default : kinds_agree registry_default.
Proof. intros a b (ty & Hty & _). unfold registered_type in Hty. cbn in Hty. by rewrite zentry_nil in Hty. Qed.
Lemma registry_implements_order_witness :
  ∃ ids gs tr' a b, intern_module demo_types registry_default = (Ok (ids, gs), tr') ∧
    zget ids 1 = Some a ∧ zget ids 0 = Some b ∧ @engine_is_subtype (registry_order tr') a b = true ∧
    ordered_registry tr' ∧ kinds_agree tr' ∧ @TypeOrderOk (registry_order tr') (type_kind tr').
Proof.
  destruct (registry_implements_order (λ _, 0) [] registry_default demo_types reg_wf_default ordered_default demo_types_ok)
    as (ids & gs & tr' & Hrun & _ & _ & _ & _ & _ & Hdecl & Hord & Hkind); [split; vm_compute; congruence|].
  destruct (Hdecl 1 0) as (a & b & Ha & Hb & Hs); [|by eexists|].
  - apply rtc_once. eexists. split; reflexivity.
  - destruct (Hkind demo_super_kinds kinds_default) as [Hk Hl]. by exists ids, gs, tr', a, b.
Defined.
