(* ===== verification/Matching.v ===== *)
(** * Matching: store-aware value validation (src/src/value_match.rs)

    A value crossing the host boundary is checked against its type with the
    store at hand: concrete types through the registry, references for liveness. *)
From S2P Require Import Prelude Types Layout Codec Arena Heap Op Entity Store Stack GcOps.
Open Scope Z_scope.

Section matching.
Context `{TypeOrder}.

Definition validate_live_reference (s : StoreInner) (v : Val) : res () :=
  match v with
  | VFuncRef (Some f) =>
      if negb (fn_store f =? 0) && negb (fn_store f =? si_store_id s)
      then Err (EMsg "function reference belongs to a different store")
      else _ ← store_func s f; Ok tt
  | VExternRef (Some r) =>
      if negb (belongs_to_store (si_store_id s) r) then Err (EMsg "externref belongs to a different store")
      else _ ← externref_checked s r; Ok tt
  | VAnyRef (Some r) =>
      if negb (belongs_to_store (si_store_id s) r) then Err (EMsg "anyref belongs to a different store")
      else match decode_anyref_handle (r_index r) with
           | HSlot _ => _ ← gc_slot_checked (si_store_id s) (si_gc s) r; Ok tt
           | HI31 _ => Ok tt
           end
  | VExnRef (Some r) =>
      if negb (belongs_to_store (si_store_id s) r) then Err (EMsg "exnref belongs to a different store")
      else _ ← exn_checked s r; Ok tt
  | _ => Ok tt
  end.

Definition concrete_func_matches (s : StoreInner) (f : Func) (expected : Z) : res bool :=
  e ← store_func s f;
  actual ← match e with
           | FeWasm instance func_index => m ← module_of instance s; module_func_type m func_index
           | FeHost ty _ _ | FeHostAsync ty _ _ => Ok ty
           end;
  Ok (engine_is_subtype actual expected).

Definition anyref_matches (s : StoreInner) (r : Rooted) (expected : HeapType) : res bool :=
  match decode_anyref_handle (r_index r) with
  | HI31 _ => Ok (match expected with HtAny | HtEq | HtI31 => true | _ => false end)
  | HSlot _ =>
      slot ← gc_slot_checked (si_store_id s) (si_gc s) r;
      o ← ok_or (gc_get (si_gc s) slot) (EMsg "stale gc reference (object was collected)");
      Ok (match expected with
          | HtAny => true
          | HtEq => negb (bool_decide (obj_kind o = ObjExtern))
          | HtStruct => bool_decide (obj_kind o = ObjStruct)
          | HtArray => bool_decide (obj_kind o = ObjArray)
          | HtConcreteStruct e => bool_decide (obj_kind o = ObjStruct) && engine_is_subtype (obj_type o) e
          | HtConcreteArray e => bool_decide (obj_kind o = ObjArray) && engine_is_subtype (obj_type o) e
          | _ => false
          end)
  end.

Definition val_matches_in_store (s : StoreInner) (v : Val) (ty : ValType) : res bool :=
  if negb (val_matches v ty) then Ok false else
  match ty with
  | TRef r =>
      _ ← validate_live_reference s v;
      match v, rt_heap r with
      | VFuncRef (Some f), HtConcreteFunc expected => concrete_func_matches s f expected
      | VAnyRef (Some a), expected => anyref_matches s a expected
      | _, _ => Ok true
      end
  | _ => Ok true
  end.

Definition arg_matches_in_store (s : StoreInner) (v : Val) (ty : ValType) : res bool :=
  match v, ty with
  | VExternRef value, TRef rt =>
      if bool_decide (value ≠ None) && bool_decide (rt_heap rt = HtAny)
      then _ ← validate_live_reference s v; Ok true
      else val_matches_in_store s v ty
  | _, _ => val_matches_in_store s v ty
  end.

(** The [zip] loop of [ensure_values_match]. *)
Fixpoint all_match (s : StoreInner) (values : list Val) (types : list ValType) (context : string) : res () :=
  match values, types with
  | v :: values', t :: types' =>
      b ← val_matches_in_store s v t;
      if (b : bool) then all_match s values' types' context else Err (shape_err context)
  | _, _ => Ok tt
  end.
Definition ensure_values_match (s : StoreInner) (values : list Val) (types : list ValType) (context : string) : res () :=
  if negb (zlen values =? zlen types) then Err (shape_err context) else all_match s values types context.

Definition coerce_arg (v : Val) (ty : ValType) : SM StoreInner Val :=
  match v, ty with
  | VExternRef (Some _), TRef rt => if bool_decide (rt_heap rt = HtAny) then any_convert_extern v else mret v
  | _, _ => mret v
  end.
Fixpoint coerce_args (params : list Val) (tys : list ValType) : SM StoreInner (list Val) :=
  match params, tys with
  | v :: params', t :: tys' => x ← coerce_arg v t; xs ← coerce_args params' tys'; mret (x :: xs)
  | _, _ => mret []
  end.
End matching.
