(* ===== verification/Extern.v ===== *)
(** * Extern: the embedder's memories, globals, tables and tags (src/src/extern_.rs)

    The host-facing handles: every operation resolves its entity through the store,
    checks the type of what it is given with the store at hand, consults the limiter
    where it allocates, and changes nothing when it fails.  All types are of the one
    engine of the model, so the checks that a type descriptor belongs to the store's
    engine always pass and are left out. *)
From S2P Require Import Prelude Keep Types Layout Codec Arena Heap Op Entity Store Collect Stack Limits.
From S2P Require Import GcOps Matching.
Open Scope Z_scope.

Definition access_err : error := EMsg "out of bounds memory access".

Section externs.
Context `{HostAlloc, EngineTypes, TypeOrder} {L : Type} `{ResourceLimiter L}.
Implicit Types st : StoreT L.

(** ** Memories *)
Definition Memory_new (ty : MemoryType) : SM (StoreT L) Handle :=
  allowed ← limiter_allows_memory (mt_minimum ty) (mt_maximum ty);
  if negb (allowed : bool) then fail (EMsg "memory minimum size exceeds the store limit") else
  e ← lift (memory_new ty); on_inner (allocs (alloc_memory e)).
Definition Memory_new_async (ty : MemoryType) : SM (StoreT L) Handle :=
  allowed ← limiter_allows_memory_async (mt_minimum ty) (mt_maximum ty);
  if negb (allowed : bool) then fail (EMsg "memory minimum size exceeds the store limit") else
  e ← lift (memory_new ty); on_inner (allocs (alloc_memory e)).
Definition Memory_ty (h : Handle) (s : StoreInner) : res MemoryType := me_ty <$> store_memory s h.
Definition Memory_data (h : Handle) (s : StoreInner) : res (list Z) := me_bytes <$> store_memory s h.
Definition Memory_data_size (h : Handle) (s : StoreInner) : res Z := (λ e, zlen (me_bytes e)) <$> store_memory s h.
Definition Memory_size (h : Handle) (s : StoreInner) : res Z := size_pages <$> store_memory s h.
Definition Memory_grow (h : Handle) (delta : Z) : SM (StoreT L) Z :=
  r ← grow_memory h delta;
  match r with Some old => mret old | None => fail (EMsg "failed to grow memory") end.

(** The buffer of [len] bytes that is read. *)
Definition Memory_read (h : Handle) (offset len : Z) (s : StoreInner) : res (list Z) :=
  e ← store_memory s h;
  end_ ← ok_or (checked_add usize_bits offset len) access_err;
  ok_or (zslice (me_bytes e) offset end_) access_err.
Definition Memory_write (h : Handle) (offset : Z) (buffer : list Z) : SM StoreInner () :=
  e ← reads (λ s, store_memory s h);
  _ ← lift (ok_or (checked_add usize_bits offset (zlen buffer)) access_err);
  bytes ← lift (ok_or (zsplice (me_bytes e) offset buffer) access_err);
  modify (put_memory h {| me_bytes := bytes; me_ty := me_ty e |}).

(** ** Globals *)
Definition Global_new (ty : GlobalType) (val : Val) : SM StoreInner Handle :=
  ok ← reads (λ s, val_matches_in_store s val (gt_content ty));
  if negb (ok : bool) then fail (EMsg "global type mismatch")
  else allocs (alloc_global {| ge_value := val; ge_ty := ty |}).
Definition Global_ty (h : Handle) (s : StoreInner) : res GlobalType := ge_ty <$> store_global s h.
Definition Global_get (h : Handle) : SM StoreInner Val :=
  e ← reads (λ s, store_global s h); root_stored_value (ge_value e).
Definition Global_set (h : Handle) (val : Val) : SM StoreInner () :=
  e ← reads (λ s, store_global s h);
  if negb (gt_mutable (ge_ty e)) then fail (EMsg "cannot set the value of a const global") else
  ok ← reads (λ s, val_matches_in_store s val (gt_content (ge_ty e)));
  if negb (ok : bool) then fail (EMsg "global type mismatch")
  else modify (put_global h {| ge_value := val; ge_ty := ge_ty e |}).

(** ** Tables *)
Definition ensure_ref_matches (value : Ref) (ty : RefType) (context : string) (s : StoreInner) : res () :=
  ok ← val_matches_in_store s (val_from_ref value) (TRef ty);
  if (ok : bool) then Ok tt else Err (EMsg context).
Definition Table_new (ty : TableType) (init : Ref) : SM (StoreT L) Handle :=
  _ ← reads (λ st, ensure_ref_matches init (tt_element ty) "table type mismatch" (st_inner st));
  allowed ← limiter_allows_table (tt_minimum ty) (tt_maximum ty);
  if negb (allowed : bool) then fail (EMsg "table minimum size exceeds the store limit") else
  e ← lift (table_new ty init); on_inner (allocs (alloc_table e)).
Definition Table_new_async (ty : TableType) (init : Ref) : SM (StoreT L) Handle :=
  _ ← reads (λ st, ensure_ref_matches init (tt_element ty) "table type mismatch" (st_inner st));
  allowed ← limiter_allows_table_async (tt_minimum ty) (tt_maximum ty);
  if negb (allowed : bool) then fail (EMsg "table minimum size exceeds the store limit") else
  e ← lift (table_new ty init); on_inner (allocs (alloc_table e)).
Definition Table_ty (h : Handle) (s : StoreInner) : res TableType := te_ty <$> store_table s h.
Definition Table_get (h : Handle) (index : Z) : SM StoreInner (option Ref) :=
  e ← reads (λ s, store_table s h);
  match table_get e index with
  | None => mret None
  | Some value =>
      v ← root_stored_value (val_from_ref value);
      r ← lift (expect (val_to_ref v) "not a reference"); mret (Some r)
  end.
Definition Table_set (h : Handle) (index : Z) (val : Ref) : SM StoreInner () :=
  e ← reads (λ s, store_table s h);
  _ ← reads (ensure_ref_matches val (tt_element (te_ty e)) "table type mismatch");
  let '(ok, e') := table_set index val e in
  modify (put_table h e');;
  if (ok : bool) then mret tt else fail (EMsg "table index out of bounds").
Definition Table_size (h : Handle) (s : StoreInner) : res Z := table_size <$> store_table s h.
Definition Table_grow (h : Handle) (delta : Z) (init : Ref) : SM (StoreT L) Z :=
  e ← reads (λ st, store_table (st_inner st) h);
  _ ← reads (λ st, ensure_ref_matches init (tt_element (te_ty e)) "table type mismatch" (st_inner st));
  r ← grow_table h delta init;
  match r with Some old => mret old | None => fail (EMsg "failed to grow table") end.
Definition Table_fill (h : Handle) (dst : Z) (val : Ref) (len : Z) : SM StoreInner () :=
  e ← reads (λ s, store_table s h);
  _ ← reads (ensure_ref_matches val (tt_element (te_ty e)) "table type mismatch");
  let '(r, e') := table_fill dst val len e in
  modify (put_table h e');;
  ok ← lift r;
  if (ok : bool) then mret tt else fail (EMsg "table fill out of bounds").

(** ** Tags *)
Definition Tag_new (ty : Z) : SM StoreInner Handle := allocs (alloc_tag {| tge_ty := ty |}).
Definition Tag_ty (h : Handle) (s : StoreInner) : res Z := tge_ty <$> store_tag s h.
End externs.

(** ** Typed stores *)

(** A value is of a type in a store: of its concrete type as the registry knows it, and
    live if it is a reference. *)
Definition of_type `{TypeOrder} (s : StoreInner) (ty : ValType) (v : Val) : Prop := val_matches_in_store s v ty = Ok true.
(** A table holds references of its type. *)
Definition table_typed `{TypeOrder} (s : StoreInner) (t : TableEntity) : Prop :=
  Forall (λ r, of_type s (TRef (tt_element (te_ty t))) (val_from_ref r)) (te_elems t).
(** Every global holds a value of its type and every table references of its type. *)
Record typed_store `{TypeOrder} (s : StoreInner) : Prop := {
  ts_globals : Forall (λ g, of_type s (gt_content (ge_ty g)) (ge_value g)) (si_globals s);
  ts_tables : Forall (table_typed s) (si_tables s);
}.

Section typed.
Context `{HostAlloc, EngineTypes, TypeOrder} {L : Type} `{ResourceLimiter L}.

Lemma ensure_ref_matches_Ok r ty c s x : ensure_ref_matches r ty c s = Ok x → of_type s (TRef ty) (val_from_ref r).
Proof using. unfold ensure_ref_matches, of_type. by destruct (val_matches_in_store _ _ _) as [[]|e|w]. Qed.

Lemma Forall_zget {A} (P : A → Prop) l i x : Forall P l → zget l i = Some x → P x.
Proof using. intros HF Hi%zget_elem. by eapply Forall_forall in HF. Qed.
Lemma store_table_typed s h e : typed_store s → store_table s h = Ok e → table_typed s e.
Proof using. intros [_ Ht] He%arena_entity_get. by eapply Forall_zget in He; [|exact Ht]. Qed.

Lemma put_table_typed s h e : typed_store s → table_typed s e → typed_store (put_table h e s).
Proof using. intros [] He. constructor; [done|]. by apply Forall_insert. Qed.
Lemma put_global_typed s h e :
  typed_store s → of_type s (gt_content (ge_ty e)) (ge_value e) → typed_store (put_global h e s).
Proof using. intros [] He. constructor; [|done]. by apply Forall_insert. Qed.

Lemma table_set_typed s i r t : table_typed s t → of_type s (TRef (tt_element (te_ty t))) (val_from_ref r) →
  table_typed s (snd (table_set i r t)) ∧ (fst (table_set i r t) = false → snd (table_set i r t) = t).
Proof using.
  intros Ht Hr. unfold table_set, zset. destruct (_ && _); cbn; [|done]. split; [|done].
  unfold table_typed in *. cbn. by apply Forall_insert.
Qed.
Lemma fill_loop_typed (P : Ref → Prop) n val : P val → ∀ i elems elems',
  Forall P elems → fill_loop n i val elems = Some elems' → Forall P elems'.
Proof using.
  intros Hv. induction n as [|n IH]; intros i elems elems' HF; cbn [fill_loop]; [by intros [= <-]|].
  unfold zset. destruct (_ && _); [|done]. cbn. apply IH. by apply Forall_insert.
Qed.
Lemma table_fill_typed s dst r len t : table_typed s t → of_type s (TRef (tt_element (te_ty t))) (val_from_ref r) →
  table_typed s (snd (table_fill dst r len t)) ∧ (fst (table_fill dst r len t) ≠ Ok true → snd (table_fill dst r len t) = t).
Proof using.
  intros Ht Hr. unfold table_fill. destruct (checked_add _ _ _) as [e|]; [|done]. destruct (e <=? _); [|done].
  destruct (fill_loop _ _ _ _) as [elems|] eqn:Hf; [|done]. split; [|done].
  unfold table_typed in *. cbn. by eapply fill_loop_typed.
Qed.
Lemma vec_resize_Forall {A} (P : A → Prop) l n x : Forall P l → P x → Forall P (vec_resize l n x).
Proof using.
  intros Hl Hx. unfold vec_resize. destruct (_ <=? _); [by apply Forall_take|].
  apply Forall_app. split; [done|]. by apply Forall_replicate.
Qed.
Lemma table_grow_typed s delta r t : table_typed s t → of_type s (TRef (tt_element (te_ty t))) (val_from_ref r) →
  table_typed s (snd (table_grow delta r t)).
Proof using.
  intros Ht Hr. unfold table_grow. destruct (checked_add _ _ _); [|done]. destruct (_ <? _); [done|].
  destruct (reserve_elems _); [|done]. unfold table_typed in *. cbn. by apply vec_resize_Forall.
Qed.

(** One run: the store stays typed, and is as it was unless the call succeeded. *)
Definition all_or_nothing {A} (m : SM StoreInner A) (s : StoreInner) : Prop :=
  typed_store (m s).2 ∧ ((∀ a, (m s).1 ≠ Ok a) → (m s).2 = s).

Lemma table_put_run h e s (m : SM StoreInner ()) e' :
  typed_store s → store_table s h = Ok e → table_typed s e' → (∀ s1, (m s1).2 = s1) →
  ((∀ s1 a, (m s1).1 ≠ Ok a) → e' = e) → (∀ s1 s2, (m s1).1 = (m s2).1) →
  all_or_nothing (_ ← modify (put_table h e'); m) s.
Proof using.
  intros Hs He He' Hm Hsame Hpure. unfold all_or_nothing. rewrite modify_run, Hm. split; [by apply put_table_typed|].
  intros Hno. rewrite Hsame; [by apply put_table_same|]. intros s1 a. rewrite (Hpure s1 (put_table h e' s)). apply Hno.
Qed.

Lemma Table_set_sound h i r s : typed_store s → all_or_nothing (Table_set h i r) s.
Proof using.
  intros Hs. unfold Table_set, all_or_nothing. rewrite reads_unfold.
  destruct (store_table s h) as [e|e|w] eqn:He; [|done..]. rewrite reads_unfold.
  destruct (ensure_ref_matches _ _ _ s) as [[]|e'|w] eqn:Hr; [|done..].
  pose proof (table_set_typed s i r e (store_table_typed _ _ _ Hs He) (ensure_ref_matches_Ok _ _ _ _ _ Hr)) as [Ht Hf].
  destruct (table_set i r e) as [ok e'] eqn:Hset. cbn in Ht, Hf.
  apply (table_put_run h e); try done.
  - intros s1. by destruct ok.
  - intros Hno. apply Hf. destruct ok; [|done]. by destruct (Hno s tt).
  - by destruct ok.
Qed.

Lemma Table_fill_sound h dst r len s : typed_store s → all_or_nothing (Table_fill h dst r len) s.
Proof using.
  intros Hs. unfold Table_fill, all_or_nothing. rewrite reads_unfold.
  destruct (store_table s h) as [e|e|w] eqn:He; [|done..]. rewrite reads_unfold.
  destruct (ensure_ref_matches _ _ _ s) as [[]|e'|w] eqn:Hr; [|done..].
  pose proof (table_fill_typed s dst r len e (store_table_typed _ _ _ Hs He) (ensure_ref_matches_Ok _ _ _ _ _ Hr)) as [Ht Hf].
  destruct (table_fill dst r len e) as [ok e'] eqn:Hset. cbn in Ht, Hf.
  apply (table_put_run h e); try done.
  - intros s1. rewrite bind_unfold. by destruct ok as [[]|e''|w].
  - intros Hno. apply Hf. intros ->. by destruct (Hno s tt).
  - intros s1 s2. rewrite !bind_unfold. by destruct ok as [[]|e''|w].
Qed.
Lemma Global_set_sound h v s : typed_store s → all_or_nothing (Global_set h v) s.
Proof using.
  intros Hs. unfold Global_set, all_or_nothing. rewrite reads_unfold.
  destruct (store_global s h) as [e|e|w] eqn:He; [|done..]. destruct (gt_mutable (ge_ty e)); [|done]. cbn [negb].
  rewrite reads_unfold.
  destruct (val_matches_in_store s v _) as [[]|e'|w] eqn:Hm; [|done..]. cbn.
  split; [|intros Hno; by destruct (Hno tt)]. by apply put_global_typed.
Qed.
Lemma Global_new_sound ty v s : typed_store s → all_or_nothing (Global_new ty v) s.
Proof using.
  intros Hs. unfold Global_new, all_or_nothing. rewrite reads_unfold.
  destruct (val_matches_in_store s v _) as [[]|e'|w] eqn:Hm; [|done..]. cbn [negb].
  split; [|intros Hno; exfalso; by eapply Hno]. destruct Hs. constructor; [|done]. cbn.
  apply Forall_app. split; [done|]. by constructor.
Qed.
Lemma Memory_write_sound h o buf s : typed_store s → all_or_nothing (Memory_write h o buf) s.
Proof using.
  intros Hs. unfold Memory_write, all_or_nothing. rewrite reads_unfold.
  destruct (store_memory s h) as [e|e|w]; [|done..]. rewrite bind_unfold. unfold lift.
  destruct (checked_add _ _ _); [|done]. cbn [ok_or]. rewrite bind_unfold.
  destruct (zsplice _ _ _) as [bytes|]; [|done]. cbn. split; [by destruct Hs|intros Hno; by destruct (Hno tt)].
Qed.

(** The calls that consult the limiter: it decides, and has only the host data to change. *)
Definition host_sound {A} (m : SM (StoreT L) A) (st : StoreT L) : Prop :=
  typed_store (st_inner (m st).2) ∧ ((∀ a, (m st).1 ≠ Ok a) → st_inner (m st).2 = st_inner st).
Lemma host_still {A} (m : SM (StoreT L) A) st : typed_store (st_inner st) → st_inner (m st).2 = st_inner st → host_sound m st.
Proof using. intros Hs He. split; [by rewrite He|done]. Qed.

Lemma limiter_inner {R} (f : SM L R) (st : StoreT L) : st_inner (with_sync_limiter f st).2 = st_inner st.
Proof using. destruct (with_sync_limiter f st) as [r st1] eqn:Hf. by destruct (with_sync_data _ _ _ _ Hf) as [d ->]. Qed.
Lemma failed_inner f why (st : StoreT L) : st_inner (notify_failed f why st).2 = st_inner st.
Proof using. destruct (notify_failed f why st) as [r st1] eqn:Hf. by destruct (notify_failed_data _ _ _ _ _ Hf) as [d ->]. Qed.

Lemma ask_sound {R A} (m : SM (StoreT L) R) (g : R → SM (StoreT L) A) st :
  typed_store (st_inner st) → st_inner (m st).2 = st_inner st →
  (∀ a st1, st_inner st1 = st_inner st → host_sound (g a) st1) → host_sound (r ← m; g r) st.
Proof using.
  intros Hs Hl Hg. unfold host_sound. rewrite bind_unfold.
  destruct (m st) as [[a|e|w] st1]; cbn [fst snd] in *; [|by rewrite Hl..].
  destruct (Hg a st1 Hl) as [Ht Hn]. split; [done|]. rewrite <- Hl. apply Hn.
Qed.
Lemma allows_inner {R S} (f : SM L R) (g : option R → S) (st : StoreT L) :
  st_inner ((r ← with_sync_limiter f; mret (g r)) st).2 = st_inner st.
Proof using.
  rewrite bind_unfold. pose proof (limiter_inner f st) as Hl. by destruct (with_sync_limiter f st) as [[] st1].
Qed.
Lemma reads_sound {A B} (f : StoreT L → res A) (g : A → SM (StoreT L) B) st : typed_store (st_inner st) →
  (∀ a, f st = Ok a → host_sound (g a) st) → host_sound (r ← reads f; g r) st.
Proof using.
  intros Hs Hg. unfold host_sound. rewrite reads_unfold. destruct (f st) as [a|e|w]; [|by apply host_still..]. by apply Hg.
Qed.
Lemma lift_sound {A B} (r : res A) (g : A → SM (StoreT L) B) st : typed_store (st_inner st) →
  (∀ a, r = Ok a → host_sound (g a) st) → host_sound (r ← lift r; g r) st.
Proof using.
  intros Hs Hg. unfold host_sound. rewrite bind_unfold. destruct r as [a|e|w]; [|by apply host_still..]. by apply Hg.
Qed.
Lemma inner_sound {A} (m : SM StoreInner A) st : all_or_nothing m (st_inner st) → host_sound (on_inner m) st.
Proof using.
  intros [Ht Hn]. unfold host_sound, on_inner, zoom. by destruct (m (st_inner st)) as [r s'].
Qed.

Lemma Memory_new_sound ty (st : StoreT L) : typed_store (st_inner st) → host_sound (Memory_new ty) st.
Proof using.
  intros Hs. unfold Memory_new. apply ask_sound; [done|apply allows_inner|]. intros a st1 Hl. rewrite <- Hl in Hs.
  destruct a; [|by apply host_still]. apply lift_sound; [done|]. intros e _.
  apply inner_sound. split; [by destruct Hs|]. intros Hno. exfalso. by eapply Hno.
Qed.
Lemma memory_typed h e s : typed_store s → typed_store (put_memory h e s).
Proof using. by intros []. Qed.
Lemma Memory_grow_sound h delta (st : StoreT L) : typed_store (st_inner st) → host_sound (Memory_grow h delta) st.
Proof using.
  intros Hs. unfold Memory_grow, grow_memory, host_sound. rewrite bind_unfold, reads_unfold.
  destruct (store_memory _ h) as [e|e|w] eqn:He; [|done..]. cbn zeta. rewrite bind_unfold.
  match goal with |- context [with_sync_limiter ?g st] => pose proof (limiter_inner g st) as Hl;
    destruct (with_sync_limiter g st) as [[a|e'|w] st1]; cbn [fst snd] in Hl |- *; [|by rewrite Hl..] end.
  rewrite <- Hl in Hs, He |- *. unfold try_grow_memory. rewrite bind_unfold. destruct (default _ a); cycle 1.
  { cbn. unfold memory_failed. rewrite bind_unfold. pose proof (failed_inner memory_grow_failed "failed to grow memory" st1) as Hf.
    destruct (notify_failed _ _ st1) as [[] st2]; cbn in *; by rewrite Hf. }
  rewrite reads_unfold, He.
  assert (fst (memory_grow delta e) = None → snd (memory_grow delta e) = e) as Hn
    by (unfold memory_grow; by repeat case_match).
  destruct (memory_grow delta e) as [r e']. cbn in Hn.
  assert ((on_inner (modify (put_memory h e')) ≫= λ _ : (), mret r) st1
          = (Ok r, set_st_inner (put_memory h e' (st_inner st1)) st1)) as -> by done. cbn beta iota.
  destruct r as [old|].
  { cbn. split; [by apply memory_typed|]. intros Hno. by destruct (Hno old). }
  rewrite Hn by done. rewrite put_memory_same by done. unfold memory_failed. rewrite bind_unfold.
  match goal with |- context [notify_failed ?f ?why ?st2] => pose proof (failed_inner f why st2) as Hf;
    destruct (notify_failed f why st2) as [[] st3] end; cbn in Hf |- *; by rewrite Hf.
Qed.
Lemma Table_new_sound ty init (st : StoreT L) : typed_store (st_inner st) → host_sound (Table_new ty init) st.
Proof using.
  intros Hs. unfold Table_new. apply reads_sound; [done|]. intros [] Hr%ensure_ref_matches_Ok.
  apply ask_sound; [done|apply allows_inner|]. intros a st1 Hl. rewrite <- Hl in Hs, Hr.
  destruct a; [|by apply host_still]. apply lift_sound; [done|]. intros e He.
  apply inner_sound. split; [|intros Hno; exfalso; by eapply Hno]. destruct Hs. constructor; [done|]. cbn.
  apply Forall_app. split; [done|]. constructor; [|done]. revert He. unfold table_new.
  destruct (reserve_elems _); [|done]. intros [= <-]. cbn. by apply vec_resize_Forall.
Qed.

Lemma table_grow_None delta r t : fst (table_grow delta r t) = None → snd (table_grow delta r t) = t.
Proof using. unfold table_grow. by repeat case_match. Qed.
(** A growth that is refused, or fails, leaves the store as it was, and reports it or not as the limiter likes. *)
Lemma grow_table_sound h delta init e st : typed_store (st_inner st) → store_table (st_inner st) h = Ok e →
  of_type (st_inner st) (TRef (tt_element (te_ty e))) (val_from_ref init) →
  typed_store (st_inner (grow_table h delta init st).2) ∧
  ((∀ old, (grow_table h delta init st).1 ≠ Ok (Some old)) → st_inner (grow_table h delta init st).2 = st_inner st).
Proof using.
  intros Hs He Hr. unfold grow_table. rewrite reads_unfold, He. cbn zeta. rewrite bind_unfold.
  match goal with |- context [with_sync_limiter ?g st] => pose proof (limiter_inner g st) as Hl;
    destruct (with_sync_limiter g st) as [[a|e'|w] st1]; cbn [fst snd] in Hl |- *; [|by rewrite Hl..] end.
  rewrite <- Hl in Hs, He, Hr |- *. unfold try_grow_table. rewrite bind_unfold. destruct (default _ a); cycle 1.
  { cbn. unfold table_failed. rewrite bind_unfold. pose proof (failed_inner table_grow_failed "failed to grow table" st1) as Hf.
    destruct (notify_failed _ _ st1) as [[] st2]; cbn in *; by rewrite Hf. }
  rewrite reads_unfold, He.
  pose proof (table_grow_typed (st_inner st1) delta init e (store_table_typed _ _ _ Hs He) Hr) as Ht.
  pose proof (table_grow_None delta init e) as Hn.
  destruct (table_grow delta init e) as [r e']. cbn in Ht, Hn.
  assert ((on_inner (modify (put_table h e')) ≫= λ _ : (), mret r) st1
          = (Ok r, set_st_inner (put_table h e' (st_inner st1)) st1)) as -> by done. cbn beta iota.
  pose proof (put_table_typed (st_inner st1) h e' Hs Ht) as Hp. destruct r as [old|].
  { cbn. split; [done|]. intros Hno. by destruct (Hno old). }
  rewrite Hn by done. rewrite put_table_same by done. unfold table_failed. rewrite bind_unfold.
  match goal with |- context [notify_failed ?f ?why ?st2] => pose proof (failed_inner f why st2) as Hf;
    destruct (notify_failed f why st2) as [[] st3] end; cbn in Hf |- *; by rewrite Hf.
Qed.
Lemma Table_grow_sound h delta init (st : StoreT L) : typed_store (st_inner st) → host_sound (Table_grow h delta init) st.
Proof using.
  intros Hs. unfold Table_grow. apply reads_sound; [done|]. intros e He.
  apply reads_sound; [done|]. intros [] Hr%ensure_ref_matches_Ok.
  destruct (grow_table_sound h delta init e st Hs He Hr) as [Ht Hn]. unfold host_sound. rewrite bind_unfold.
  destruct (grow_table h delta init st) as [[[old|]|e'|w] st1]; cbn in *; (split; [done|]; intros Hno).
  - by destruct (Hno old).
  - by apply Hn.
  - by apply Hn.
  - by apply Hn.
Qed.

(** The host calls that write, each with the type of its result. *)
Inductive host_write : ∀ A, SM (StoreT L) A → Prop :=
  | hw_memory_new ty : host_write Handle (Memory_new ty)
  | hw_memory_write h offset buffer : host_write () (on_inner (Memory_write h offset buffer))
  | hw_memory_grow h delta : host_write Z (Memory_grow h delta)
  | hw_global_new ty val : host_write Handle (on_inner (Global_new ty val))
  | hw_global_set h val : host_write () (on_inner (Global_set h val))
  | hw_table_new ty init : host_write Handle (Table_new ty init)
  | hw_table_set h index val : host_write () (on_inner (Table_set h index val))
  | hw_table_grow h delta init : host_write Z (Table_grow h delta init)
  | hw_table_fill h dst val len : host_write () (on_inner (Table_fill h dst val len))
  | hw_tag_new ty : host_write Handle (on_inner (Tag_new ty)).


(** The host writes a memory exactly.  A write succeeds precisely when the whole
    buffer lies inside the memory (an offset whose end overflows does not); a read of the same
    range then gives the buffer back, any range beside it and every other memory read as before, and
    the size is the same.  Otherwise the call fails and the store is as it was. *)
Theorem Memory_write_exact h o buf s e :
  store_memory s h = Ok e → zlen (me_bytes e) < 2 ^ 64 → 0 ≤ o →
  if o + zlen buf <=? zlen (me_bytes e) then
    ∃ s', Memory_write h o buf s = (Ok tt, s') ∧ Memory_read h o (zlen buf) s' = Ok buf ∧
      (∀ a n, 0 ≤ n → a + n ≤ o ∨ o + zlen buf ≤ a → Memory_read h a n s' = Memory_read h a n s) ∧
      (∀ h', h_index h' ≠ h_index h → store_memory s' h' = store_memory s h') ∧
      Memory_data_size h s' = Memory_data_size h s
  else Memory_write h o buf s = (Err access_err, s).
Proof using.
  intros He Hb Ho. pose proof (zlen_nonneg buf) as Hl. unfold Memory_write. rewrite reads_unfold, He, bind_unfold.
  destruct (Z.leb_spec (o + zlen buf) (zlen (me_bytes e))) as [Hin|Hout].
  - assert (∀ a n, a + n ≤ zlen (me_bytes e) → checked_add usize_bits a n = Some (a + n)) as Hadd.
    { intros a n ?. unfold checked_add. by rewrite (proj2 (Z.ltb_lt _ _)) by (cbn; lia). }
    rewrite Hadd by done. destruct (zsplice_is_Some (me_bytes e) buf o Ho Hin) as [b Hsp].
    pose proof (arena_put_eq _ _ _ _ {| me_bytes := b; me_ty := me_ty e |} He) as He'.
    eexists. split; [cbn; by rewrite Hsp|]. pose proof (zlen_splice _ _ _ _ Hsp) as Hlen. split_and!.
    + unfold Memory_read, store_memory. cbn [put_memory si_store_id si_memories set_si_memories]. rewrite He'. cbn.
      rewrite Hadd by done. cbn. by rewrite (zslice_splice_eq _ _ _ _ Hsp).
    + intros a n Hn Hd. unfold Memory_read. rewrite He. unfold store_memory.
      cbn [put_memory si_store_id si_memories set_si_memories]. rewrite He'. cbn.
      destruct (checked_add _ _ _) as [c|] eqn:Hc; [|done]. cbn. f_equal.
      assert (c = a + n) as -> by (revert Hc; unfold checked_add; destruct (_ <? _); congruence).
      by rewrite (zslice_splice_ne _ _ _ _ _ _ Hsp).
    + intros h' Hne. apply arena_put_ne; [done|]. apply arena_entity_get, zget_Some in He. lia.
    + unfold Memory_data_size. rewrite He. unfold store_memory.
      cbn [put_memory si_store_id si_memories set_si_memories]. rewrite He'. cbn. by rewrite Hlen.
  - cbn. destruct (checked_add _ _ _); [|done]. cbn. unfold zsplice.
    by rewrite (proj2 (Z.leb_gt (o + zlen buf) _)), andb_false_r by lia.
Qed.
End typed.

(** ** A store with a global, a table and a memory of the host *)
#[local] Instance host_types : EngineTypes := witness_types.
#[local] Instance host_order : TypeOrder := {| engine_is_subtype := Z.eqb |}.
#[local] Instance host_alloc : HostAlloc := {| reserve_bytes := λ _, true; reserve_elems := λ _, true |}.
Definition host_handle : Handle := {| h_index := 0; h_store := 1 |}.
Definition host_memory : MemoryEntity :=
  {| me_bytes := [1; 2; 3; 4; 5]; me_ty := {| mt_minimum := 0; mt_maximum := None; mt_memory64 := false |} |}.
Definition host_inner : StoreInner :=
  set_si_memories [host_memory]
    (set_si_globals [ {| ge_value := VI32 5; ge_ty := {| gt_content := TI32; gt_mutable := true |} |} ]
       (set_si_tables [ {| te_elems := [RefFunc None; RefFunc None];
                           te_ty := {| tt_element := {| rt_nullable := true; rt_heap := HtFunc |}; tt_minimum := 2; tt_maximum := Some 3;
                                        tt_table64 := false |} |} ] (store_new 1 true 0))).
Definition host_store : StoreT StoreLimits :=
  {| st_inner := host_inner; st_exec_slot := execution_default; st_limiter := Some LimSync;
     st_data := with_table_elements 3 store_limits_default |}.

Example host_calls :
  fst (Global_set host_handle (VI64 5) host_inner) = Err (EMsg "global type mismatch") ∧
  fst (Global_set host_handle (VI32 6) host_inner) = Ok tt ∧
  fst (Table_set host_handle 2 (RefFunc None) host_inner) = Err (EMsg "table index out of bounds") ∧
  fst (Table_fill host_handle 0 (RefFunc None) 2 host_inner) = Ok tt ∧
  fst (Table_grow host_handle 1 (RefFunc None) host_store) = Ok 2 ∧
  fst (Table_grow host_handle 2 (RefFunc None) host_store) = Err (EMsg "failed to grow table").
Proof. vm_compute. by split_and!. Qed.


Lemma Memory_write_exact_witness :
  (∃ s', Memory_write host_handle 1 [9; 8] host_inner = (Ok tt, s') ∧ Memory_read host_handle 1 2 s' = Ok [9; 8]) ∧
  Memory_write host_handle 4 [9; 8] host_inner = (Err access_err, host_inner).
Proof.
  split.
  - destruct (Memory_write_exact host_handle 1 [9; 8] host_inner host_memory) as (s' & Hw & Hr & _);
      [reflexivity|reflexivity|lia|]. by exists s'.
  - apply (Memory_write_exact host_handle 4 [9; 8] host_inner host_memory); [reflexivity|reflexivity|lia].
Defined.
