(* ===== verification/Exn.v ===== *)
(** * Exn: raising and unwinding exceptions (src/src/exec/exn.rs)

    A raised exception is an [EPending] error.  [unwind] walks the frames outward
    for a handler covering the fault site, discarding the frames in between, and
    never crosses the boundary of the call it belongs to. *)
From S2P Require Import Prelude Types Codec Arena Op Entity Store Stack Frame.
Open Scope Z_scope.

Definition set_fr_ip (ip : Z) (f : Frame) : Frame :=
  {| fr_code := fr_code f; fr_func := fr_func f; fr_ip := ip; fr_locals_base := fr_locals_base f;
     fr_operand_base := fr_operand_base f; fr_instance := fr_instance f;
     fr_func_index := fr_func_index f; fr_delimiter := fr_delimiter f |}.

(** [self.frames.last_mut().ok_or(e)?.ip = ip] *)
Definition set_top_ip (e : error) (ip : Z) : SM Execution () := λ ex,
  match last (ex_frames ex) with
  | Some f => (Ok tt, set_ex_frames (ztake (zlen (ex_frames ex) - 1) (ex_frames ex) ++ [set_fr_ip ip f]) ex)
  | None => (Err e, ex)
  end.

(** ** Handler search *)
Section find.
Context (s : StoreInner) (instance : Handle) (thrown : Handle).

Definition clause_matches (rec : HandlerRec) : res bool :=
  match hr_tag rec with
  | None => Ok true
  | Some idx =>
      i ← store_instance s instance;
      tag ← ok_or (zget (ie_tags i) idx) (EInternal (Compiler "exception handler tag is missing"));
      Ok (h_index tag =? h_index thrown)
  end.
Fixpoint find_in_clauses (clauses : list HandlerRec) : res (option HandlerRec) :=
  match clauses with
  | [] => Ok None
  | rec :: rest => b ← clause_matches rec; if (b : bool) then Ok (Some rec) else find_in_clauses rest
  end.
Fixpoint find_in_spans (ip : Z) (spans : list HandlerSpan) : res (option HandlerRec) :=
  match spans with
  | [] => Ok None
  | span :: rest =>
      if (hs_start_ip span <=? ip) && (ip <? hs_end_ip span) then
        r ← find_in_clauses (hs_clauses span);
        match r with Some rec => Ok (Some rec) | None => find_in_spans ip rest end
      else find_in_spans ip rest
  end.
Definition find_clause (code : Code) (ip : Z) : res (option HandlerRec) :=
  spans ← code_handlers code; find_in_spans ip spans.
End find.

Section exn.
Context `{Features}.

Definition enter_exception_handler (s : StoreInner) (exn : Rooted) (rec : HandlerRec) (floor : Z) : SM Execution () :=
  restore ← lift (ok_or (checked_add 32 floor (hr_restore_height rec))
                    (operand_err "exception restore height overflow"));
  ex ← get;
  if negb (zlen (ex_values ex) =? zlen (ex_shadow ex)) || (zlen (ex_values ex) <? restore)
  then fail (operand_err "exception restore height exceeds operand stack") else
  modify (stack_truncate restore);;
  (if hr_payload_args rec then entity ← lift (store_exn s exn); for_each (xe_args entity) push else mret tt);;
  (if hr_payload_ref rec then push (VExnRef (Some exn)) else mret tt);;
  set_top_ip (frame_err "missing handler frame") (hr_landing_ip rec).

Definition pop_unwound_frame (base : Z) : SM Execution () :=
  ex ← get;
  if negb (zlen (ex_values ex) =? zlen (ex_shadow ex)) || (zlen (ex_values ex) <? base)
  then fail (operand_err "frame base exceeds operand stack during unwind") else
  modify (stack_truncate base);;
  modify (λ ex, frames_truncate (zlen (ex_frames ex) - 1) ex).

(** The loop of [unwind]; [n] bounds its turns. *)
Fixpoint unwind_loop (n : nat) (s : StoreInner) (exn : Rooted) (thrown : Handle) (fault_ip stop_depth : Z)
    : SM Execution () :=
  match n with
  | O => panic "unwind: out of fuel"
  | S n' =>
      ex ← get;
      if zlen (ex_frames ex) <=? stop_depth then fail (EPending exn) else
      frame ← lift (ok_or (last (ex_frames ex)) (frame_err "missing frame during exception unwind"));
      r ← lift (find_clause s (fr_instance frame) thrown (fr_code frame) fault_ip);
      match r with
      | Some rec => enter_exception_handler s exn rec (fr_operand_base frame)
      | None =>
          pop_unwound_frame (fr_locals_base frame);;
          ex' ← get;
          if zlen (ex_frames ex') =? stop_depth then fail (EPending exn) else
          caller ← lift (ok_or (last (ex_frames ex')) (frame_err "missing caller frame during unwind"));
          ip ← lift (ok_or (checked_sub (fr_ip caller) 1) (frame_err "caller return address underflow"));
          unwind_loop n' s exn thrown ip stop_depth
      end
  end.

Definition unwind (s : StoreInner) (err : error) (fault_ip stop_depth : Z) : SM Execution () :=
  match err with
  | EPending exn =>
      entity ← lift (store_exn s exn);
      ex ← get;
      unwind_loop (S (length (ex_frames ex))) s exn (xe_tag entity) fault_ip stop_depth
  | _ => fail err
  end.

Definition throw_ref : SM Execution () :=
  v ← pop_ref RkExn;
  match v with
  | VExnRef (Some exn) => fail (EPending exn)
  | VExnRef None => fail (ETrap NullReference)
  | _ => panic "throw_ref operand is an exnref (validated)"
  end.

(** The captured backtrace is not part of the state. *)
Definition raise_host_exception (s : StoreInner) (exn : Rooted) (stop_depth : Z) : SM Execution () :=
  ex ← get;
  if zlen (ex_frames ex) <=? stop_depth then fail (EPending exn) else
  frame ← lift (ok_or (last (ex_frames ex)) (frame_err "missing host call frame"));
  fault_ip ← lift (ok_or (checked_sub (fr_ip frame) 1) (frame_err "host call return address underflow"));
  lift (store_exn s exn);;
  unwind s (EPending exn) fault_ip stop_depth.
End exn.

Definition surface_exception (err : error) (s : StoreInner) : error * StoreInner :=
  match err with
  | EPending exn =>
      match store_exn s exn with
      | Ok _ => (EThrown, set_pending_exception exn s)
      | Err e => (e, s)
      | Panic _ => (err, s)
      end
  | _ => (err, s)
  end.

(** ** What unwinding does *)
Section unwinding.
Context `{Features} (s : StoreInner) (exn : Rooted) (entity : ExnEntity).

(** Where frame [i] faulted: at [ip] in the top frame, at its pending call below. *)
Definition fault_site (frames : list Frame) (ip i : Z) : Z :=
  if i =? zlen frames - 1 then ip
  else match zget frames i with Some f => fr_ip f - 1 | None => 0 end.
Definition clause_at (frames : list Frame) (ip i : Z) : res (option HandlerRec) :=
  f ← expect (zget frames i) "no such frame";
  find_clause s (fr_instance f) (xe_tag entity) (fr_code f) (fault_site frames ip i).

(** Stacks the unwinder can pop: in lockstep, frames nested, callers inside a call. *)
Record unwindable (stop : Z) (ex : Execution) : Prop := {
  uw_lockstep : lockstep ex;
  uw_nested : nested 0 (ex_frames ex);
  uw_floor : top_floor 0 (ex_frames ex) ≤ zlen (ex_values ex);
  uw_calls : ∀ i f, stop ≤ i < zlen (ex_frames ex) - 1 → zget (ex_frames ex) i = Some f → 0 < fr_ip f;
}.

(** The operand height left when frames above [n] are gone. *)
Definition height_below (ex : Execution) (n : Z) : Z :=
  match zget (ex_frames ex) n with Some f => fr_locals_base f | None => zlen (ex_values ex) end.
Definition cut_to (n : Z) (ex : Execution) : Execution :=
  frames_truncate n (stack_truncate (height_below ex n) ex).
Definition payload (rec : HandlerRec) : list Val :=
  (if hr_payload_args rec then xe_args entity else []) ++ (if hr_payload_ref rec then [VExnRef (Some exn)] else []).
(** Frame [i], restored to the handler's height, with the payload pushed. *)
Definition caught (i : Z) (f : Frame) (rec : HandlerRec) (cells : list Cell) (ex : Execution) : Execution :=
  let kept := stack_truncate (fr_operand_base f + hr_restore_height rec) ex in
  set_ex_frames (ztake i (ex_frames ex) ++ [set_fr_ip (hr_landing_ip rec) f])
    (pushed cells (of_val <$> payload rec) kept).

Lemma zlen_snoc_pred {A} (l : list A) x : zlen (l ++ [x]) - 1 = zlen l.
Proof. rewrite zlen_app, zlen_cons, zlen_nil. lia. Qed.
Lemma push_all_run args cs ex : encode_args args = Ok cs → for_each args push ex = (Ok tt, pushed cs (of_val <$> args) ex).
Proof.
  revert cs ex. induction args as [|v args IH]; intros cs ex.
  - intros [= <-]. unfold pushed. cbn. rewrite !app_nil_r. by destruct ex.
  - cbn [encode_args]. destruct (encode v) as [c|e|w] eqn:Hc; cbn; [|done..].
    destruct (encode_args args) as [cs'|e|w] eqn:Ha; cbn; [|done..]. intros [= <-].
    rewrite bind_unfold. unfold push at 1. rewrite modify_run, (lift_Ok _ _ _ _ Hc).
    cbn [modify]. unfold modify. rewrite (IH cs') by done.
    unfold pushed. cbn. by rewrite <- !app_assoc.
Qed.
Lemma encode_args_app l k cs : encode_args (l ++ k) = Ok cs →
  ∃ c1 c2, encode_args l = Ok c1 ∧ encode_args k = Ok c2 ∧ cs = c1 ++ c2.
Proof.
  revert cs. induction l as [|v l IH]; intros cs; cbn.
  - intros ?. by exists [], cs.
  - destruct (encode v) as [c|e|w]; cbn; [|done..].
    destruct (encode_args (l ++ k)) as [cs'|e|w]; cbn; [|done..].
    intros [= <-]. destruct (IH cs' eq_refl) as (c1 & c2 & -> & -> & ->). by exists (c :: c1), c2.
Qed.
Lemma pushed_nil ex : pushed [] [] ex = ex.
Proof. unfold pushed. cbn. rewrite !app_nil_r. by destruct ex. Qed.
Lemma pushed_app c1 c2 t1 t2 ex : pushed c2 t2 (pushed c1 t1 ex) = pushed (c1 ++ c2) (t1 ++ t2) ex.
Proof. unfold pushed. cbn. by rewrite !app_assoc. Qed.

Lemma enter_handler_run rec fs f cells ex :
  store_exn s exn = Ok entity → ex_frames ex = fs ++ [f] → lockstep ex →
  fr_operand_base f + hr_restore_height rec < 2 ^ 32 → fr_operand_base f + hr_restore_height rec ≤ zlen (ex_values ex) →
  encode_args (payload rec) = Ok cells →
  enter_exception_handler s exn rec (fr_operand_base f) ex = (Ok tt, caught (zlen fs) f rec cells ex).
Proof.
  intros He Hf Hl Ho Hh Hc. unfold enter_exception_handler, checked_add.
  rewrite (proj2 (Z.ltb_lt _ _)) by done. lift_step. rewrite get_run. unfold lockstep in Hl.
  rewrite (proj2 (Z.eqb_eq _ _)) by done. rewrite (proj2 (Z.ltb_ge _ _)) by done. cbn [negb orb].
  rewrite modify_run. set (kept := stack_truncate _ _).
  apply encode_args_app in Hc as (c1 & c2 & H1 & H2 & ->).
  rewrite bind_unfold.
  assert ((if hr_payload_args rec then e ← lift (store_exn s exn); for_each (xe_args e) push else mret tt) kept
    = (Ok tt, pushed c1 (of_val <$> (if hr_payload_args rec then xe_args entity else [])) kept)) as ->.
  { destruct (hr_payload_args rec).
    - rewrite (lift_Ok _ _ _ _ He). by apply push_all_run.
    - injection H1 as <-. cbn [fmap list_fmap]. by rewrite pushed_nil. }
  set (ex1 := pushed c1 _ kept). rewrite bind_unfold.
  assert ((if hr_payload_ref rec then push (VExnRef (Some exn)) else mret tt) ex1
    = (Ok tt, pushed c2 (of_val <$> (if hr_payload_ref rec then [VExnRef (Some exn)] else [])) ex1)) as ->.
  { destruct (hr_payload_ref rec).
    - apply (push_all_run _ _ ex1) in H2. cbn [for_each] in H2. rewrite bind_unfold in H2.
      destruct (push _ ex1) as [[[]|e|w] ex2]; [|done..]. by injection H2 as ->.
    - injection H2 as <-. cbn [fmap list_fmap]. by rewrite pushed_nil. }
  unfold ex1. rewrite pushed_app. unfold set_top_ip. cbn [ex_frames pushed set_ex_shadow set_ex_values kept stack_truncate].
  rewrite Hf, last_snoc, zlen_snoc_pred. cbn [ex_frames].
  rewrite ztake_app by done. unfold caught, payload. rewrite fmap_app, Hf, ztake_app by done. done.
Qed.

Lemma pop_unwound_run fs f ex :
  ex_frames ex = fs ++ [f] → lockstep ex → fr_locals_base f ≤ zlen (ex_values ex) →
  pop_unwound_frame (fr_locals_base f) ex = (Ok tt, set_ex_frames fs (stack_truncate (fr_locals_base f) ex)).
Proof.
  intros Hf Hl Hb. unfold pop_unwound_frame. rewrite get_run. unfold lockstep in Hl.
  rewrite (proj2 (Z.eqb_eq _ _)) by done. rewrite (proj2 (Z.ltb_ge _ _)) by done. cbn [negb orb].
  rewrite modify_run. unfold modify, frames_truncate. cbn [ex_frames stack_truncate set_ex_values set_ex_shadow].
  rewrite Hf, zlen_snoc_pred. by rewrite ztake_app.
Qed.

Lemma nested_floor b fs : nested b fs → b ≤ top_floor b fs.
Proof.
  revert b. induction fs as [|g fs IH]; intros b; [done|]. intros [? Hn]. apply IH in Hn.
  assert (top_floor b (g :: fs) = top_floor (fr_operand_base g) fs) as ->; [|lia].
  unfold top_floor. rewrite last_cons. by destruct (last fs).
Qed.

(** One turn of the loop that finds no handler. *)
Lemma unwind_turn n ip stop fs f ex :
  ex_frames ex = fs ++ [f] → unwindable stop ex → 0 ≤ stop ≤ zlen fs → clause_at (ex_frames ex) ip (zlen fs) = Ok None →
  let ex1 := set_ex_frames fs (stack_truncate (fr_locals_base f) ex) in
  unwind_loop (S n) s exn (xe_tag entity) ip stop ex =
    (match last fs with
     | Some g => if zlen fs =? stop then (Err (EPending exn), ex1)
                 else unwind_loop n s exn (xe_tag entity) (fr_ip g - 1) stop ex1
     | None => (Err (EPending exn), ex1)
     end) ∧ unwindable stop ex1.
Proof.
  intros Hf [Hl Hn Hfl Hc] Hst Hcl. cbn zeta. unfold lockstep in Hl. rewrite Hf in Hn, Hfl, Hcl.
  apply nested_snoc in Hn as [Hn Hb]. rewrite top_floor_snoc in Hfl.
  unfold clause_at in Hcl. rewrite zget_app_r, Z.sub_diag, zget_cons_0 in Hcl by done.
  unfold fault_site in Hcl. rewrite zlen_snoc_pred, Z.eqb_refl in Hcl. cbn in Hcl.
  pose proof (nested_floor 0 fs Hn) as H0.
  split.
  - cbn [unwind_loop]. rewrite get_run, Hf, zlen_app, zlen_cons, zlen_nil.
    rewrite (proj2 (Z.leb_gt _ _)) by lia. rewrite last_snoc. lift_step.
    rewrite (lift_Ok _ _ _ _ Hcl), bind_unfold, (pop_unwound_run fs) by (done || lia).
    rewrite get_run. cbn [ex_frames set_ex_frames].
    destruct (last fs) as [g|] eqn:Hg.
    + destruct (Z.eqb_spec (zlen fs) stop); [done|]. lift_step.
      assert (∃ gs, fs = gs ++ [g]) as [gs ->] by (by apply last_Some).
      assert (0 < fr_ip g).
      { apply (Hc (zlen gs)).
        - rewrite Hf, !zlen_app, !zlen_cons, zlen_nil in *. lia.
        - by rewrite Hf, <- app_assoc, zget_app_r, Z.sub_diag. }
      unfold checked_sub. rewrite (proj2 (Z.leb_le _ _)) by lia. lift_step. done.
    + apply last_None in Hg as ->. cbn in Hst. by rewrite (proj2 (Z.eqb_eq _ _)) by (unfold zlen in *; cbn in *; lia).
  - split; unfold lockstep; cbn [ex_values ex_shadow ex_frames set_ex_frames set_ex_values set_ex_shadow stack_truncate].
    + rewrite !zlen_take; lia.
    + done.
    + rewrite zlen_take; lia.
    + intros i g Hi Hg. apply (Hc i); rewrite Hf; [rewrite zlen_snoc_pred; lia|]. by rewrite zget_app_l by lia.
Qed.

(** Popping the top frame does not change what the search sees below it. *)
Lemma clause_at_below fs f g ip i : last fs = Some g → i < zlen fs →
  clause_at (fs ++ [f]) ip i = clause_at fs (fr_ip g - 1) i.
Proof.
  intros Hg Hi. unfold clause_at, fault_site. rewrite zget_app_l, zlen_snoc_pred by lia.
  rewrite (proj2 (Z.eqb_neq _ _)) by lia. destruct (zget fs i) as [h|] eqn:Hh; [|done]. cbn.
  destruct (Z.eqb_spec i (zlen fs - 1)) as [->|]; [|done].
  apply last_Some in Hg as [gs ->]. rewrite zlen_snoc_pred, zget_app_r, Z.sub_diag in Hh by done.
  by injection Hh as <-.
Qed.
Lemma height_below_cut fs f ex n :
  ex_frames ex = fs ++ [f] → lockstep ex → 0 ≤ fr_locals_base f ≤ zlen (ex_values ex) → 0 ≤ n ≤ zlen fs →
  let ex1 := set_ex_frames fs (stack_truncate (fr_locals_base f) ex) in
  height_below ex1 n = height_below ex n.
Proof.
  intros Hf _ Hb Hn. cbn zeta. unfold height_below. cbn [ex_frames ex_values set_ex_frames stack_truncate set_ex_values set_ex_shadow].
  rewrite Hf. destruct (Z.ltb_spec n (zlen fs)).
  - rewrite zget_app_l by lia. by destruct (zget_is_Some fs n) as [g ->]; [lia|].
  - replace n with (zlen fs) by lia. rewrite zget_None, zget_app_r, Z.sub_diag, zget_cons_0 by lia. by rewrite zlen_take.
Qed.

Lemma nested_get b fs n h : nested b fs → zget fs n = Some h → fr_locals_base h ≤ top_floor b fs.
Proof.
  revert b n. induction fs as [|g fs IH]; intros b n; [by rewrite zget_nil|]. intros [? Hn] Hg.
  pose proof (nested_floor _ _ Hn).
  assert (top_floor b (g :: fs) = top_floor (fr_operand_base g) fs) as ->.
  { unfold top_floor. rewrite last_cons. by destruct (last fs). }
  pose proof (zget_Some _ _ _ Hg). destruct (decide (n = 0)) as [->|].
  - rewrite zget_cons_0 in Hg. injection Hg as ->. lia.
  - rewrite zget_cons_S in Hg by lia. by apply (IH _ (n - 1)).
Qed.
Lemma height_below_le fs g ex n :
  ex_frames ex = fs ++ [g] → nested 0 fs → top_floor 0 fs ≤ fr_locals_base g ≤ fr_operand_base g →
  n ≤ zlen fs → height_below ex n ≤ fr_locals_base g ∨ n < 0.
Proof.
  intros Hf Hn Hb Hle. unfold height_below. rewrite Hf. destruct (Z.ltb_spec n 0); [by right|]. left.
  destruct (Z.ltb_spec n (zlen fs)).
  - rewrite zget_app_l by lia. destruct (zget_is_Some fs n) as [h Hh]; [lia|]. rewrite Hh.
    pose proof (nested_get _ _ _ _ Hn Hh). lia.
  - replace n with (zlen fs) by lia. by rewrite zget_app_r, Z.sub_diag, zget_cons_0 by done.
Qed.
Lemma ztake_app_l {A} n (l k : list A) : n ≤ zlen l → ztake n (l ++ k) = ztake n l.
Proof. intros. unfold ztake, zlen in *. apply take_app_le. lia. Qed.

Lemma unwind_loop_caught n ip stop i rec f cells ex :
  (length (ex_frames ex) ≤ n)%nat → 0 ≤ stop ≤ i → i < zlen (ex_frames ex) → store_exn s exn = Ok entity →
  unwindable stop ex → zget (ex_frames ex) i = Some f → clause_at (ex_frames ex) ip i = Ok (Some rec) →
  (∀ j, i < j < zlen (ex_frames ex) → clause_at (ex_frames ex) ip j = Ok None) →
  fr_operand_base f + hr_restore_height rec < 2 ^ 32 →
  fr_operand_base f + hr_restore_height rec ≤ height_below ex (i + 1) →
  encode_args (payload rec) = Ok cells →
  unwind_loop n s exn (xe_tag entity) ip stop ex = (Ok tt, caught i f rec cells ex).
Proof.
  revert ip ex. induction n as [|n IH]; intros ip ex Hn Hst Hi He Hu Hfi Hrec Hno Ho Hh Hc.
  { unfold zlen in Hi. lia. }
  destruct (ex_frames ex) as [|g fs _] eqn:Hf using rev_ind; [by rewrite zget_nil in Hfi|].
  rewrite zlen_snoc in Hi, Hno.
  destruct (decide (i = zlen fs)) as [->|].
  - rewrite zget_app_r, Z.sub_diag, zget_cons_0 in Hfi by done. injection Hfi as ->.
    unfold clause_at, fault_site in Hrec. rewrite zget_app_r, zlen_snoc_pred, Z.eqb_refl, Z.sub_diag, zget_cons_0 in Hrec by done.
    cbn in Hrec. cbn [unwind_loop]. rewrite get_run, Hf, zlen_app, zlen_cons, zlen_nil.
    rewrite (proj2 (Z.leb_gt _ _)) by lia. rewrite last_snoc. lift_step. rewrite (lift_Ok _ _ _ _ Hrec).
    unfold height_below in Hh. rewrite Hf, zget_None in Hh by (rewrite zlen_app, zlen_cons, zlen_nil; lia).
    by apply enter_handler_run; [..|apply Hu|done|done|].
  - destruct (unwind_turn n ip stop fs g ex Hf Hu) as [-> Hu1]; [lia|by rewrite Hf; apply Hno; lia|].
    rewrite zget_app_l in Hfi by lia.
    destruct (last fs) as [h|] eqn:Hlast; [|apply last_None in Hlast as ->; by rewrite zget_nil in Hfi].
    rewrite (proj2 (Z.eqb_neq _ _)) by lia.
    pose proof Hu as [Hl Hnest Hfl _]. rewrite Hf in Hnest, Hfl. apply nested_snoc in Hnest as [Hnest Hb].
    rewrite top_floor_snoc in Hfl. pose proof (nested_floor 0 fs Hnest).
    rewrite (IH (fr_ip h - 1) (set_ex_frames fs (stack_truncate (fr_locals_base g) ex))); try done.
    + pose proof (height_below_le fs g ex (i + 1) Hf Hnest Hb) as [|]; [lia| |lia].
      f_equal. unfold caught, stack_truncate, pushed. cbn -[ztake]. by rewrite Hf, !ztake_ztake, ztake_app_l by lia.
    + rewrite length_app in Hn. cbn in *. lia.
    + cbn. lia.
    + rewrite <- Hrec. cbn [ex_frames set_ex_frames]. by rewrite (clause_at_below fs g h) by (done || lia).
    + intros j Hj. cbn [ex_frames set_ex_frames] in *. rewrite <- (clause_at_below fs g h ip) by (done || lia). apply Hno. lia.
    + rewrite (height_below_cut fs g) by (done || lia). done.
Qed.

Lemma unwind_loop_uncaught n ip stop ex :
  (length (ex_frames ex) ≤ n)%nat → 0 ≤ stop < zlen (ex_frames ex) → unwindable stop ex →
  (∀ j, stop ≤ j < zlen (ex_frames ex) → clause_at (ex_frames ex) ip j = Ok None) →
  unwind_loop n s exn (xe_tag entity) ip stop ex = (Err (EPending exn), cut_to stop ex).
Proof.
  revert ip ex. induction n as [|n IH]; intros ip ex Hn Hst Hu Hno.
  { unfold zlen in Hst. lia. }
  destruct (ex_frames ex) as [|g fs _] eqn:Hf using rev_ind; [exfalso; unfold zlen in Hst; cbn [length] in Hst; lia|].
  rewrite zlen_snoc in Hst, Hno.
  pose proof Hu as [Hl Hnest Hfl _]. rewrite Hf in Hnest, Hfl. apply nested_snoc in Hnest as [Hnest Hb].
  rewrite top_floor_snoc in Hfl. pose proof (nested_floor 0 fs Hnest).
  destruct (unwind_turn n ip stop fs g ex Hf Hu) as [-> Hu1]; [lia|rewrite Hf; apply Hno; lia|].
  destruct (decide (zlen fs = stop)) as [<-|].
  - assert (cut_to (zlen fs) ex = set_ex_frames fs (stack_truncate (fr_locals_base g) ex)) as ->.
    { unfold cut_to, height_below, frames_truncate. rewrite Hf, zget_app_r, Z.sub_diag, zget_cons_0 by done.
      cbn -[ztake]. by rewrite Hf, ztake_app. }
    rewrite Z.eqb_refl. by destruct (last fs).
  - destruct (last fs) as [h|] eqn:Hlast; [|apply last_None in Hlast as ->; exfalso; unfold zlen in *; cbn [length] in *; lia].
    rewrite (proj2 (Z.eqb_neq _ _)) by lia.
    rewrite (IH (fr_ip h - 1) (set_ex_frames fs (stack_truncate (fr_locals_base g) ex))); cycle 1.
    + rewrite length_app in Hn. cbn in *. lia.
    + cbn. lia.
    + done.
    + intros j Hj. cbn [ex_frames set_ex_frames] in *. rewrite <- (clause_at_below fs g h ip) by (done || lia). apply Hno. lia.
    + pose proof (height_below_le fs g ex stop Hf Hnest Hb) as [|]; [lia| |lia].
      f_equal. unfold cut_to. rewrite (height_below_cut fs g) by (done || lia).
      unfold frames_truncate, stack_truncate. cbn -[ztake]. by rewrite Hf, !ztake_ztake, ztake_app_l by lia.
Qed.

(** C16: unwinding delivers an exception to the innermost frame of its call that has
    a clause covering the fault site and matching the tag: that frame gets exactly its
    operands at the handler's height, the clause's payload on top, and resumes at the
    landing pad; every frame above it is gone and nothing below it changes.  With no
    such frame the exception comes back, with every frame of the call discarded and
    nothing below the boundary touched.  Either way the walk ends. *)
Theorem unwind_spec ip stop ex :
  store_exn s exn = Ok entity → unwindable stop ex → 0 ≤ stop < zlen (ex_frames ex) →
  (∀ i rec f cells, stop ≤ i → zget (ex_frames ex) i = Some f →
    clause_at (ex_frames ex) ip i = Ok (Some rec) →
    (∀ j, i < j < zlen (ex_frames ex) → clause_at (ex_frames ex) ip j = Ok None) →
    fr_operand_base f + hr_restore_height rec < 2 ^ 32 →
    fr_operand_base f + hr_restore_height rec ≤ height_below ex (i + 1) →
    encode_args (payload rec) = Ok cells →
    unwind s (EPending exn) ip stop ex = (Ok tt, caught i f rec cells ex)) ∧
  ((∀ j, stop ≤ j < zlen (ex_frames ex) → clause_at (ex_frames ex) ip j = Ok None) →
    unwind s (EPending exn) ip stop ex = (Err (EPending exn), cut_to stop ex)).
Proof.
  intros He Hu Hst. unfold unwind. rewrite (lift_Ok _ _ _ _ He), get_run. split.
  - intros i rec f cells Hi Hf Hrec Hno Ho Hh Hc. pose proof (zget_Some _ _ _ Hf).
    by apply unwind_loop_caught; [lia|lia|lia|..].
  - intros Hno. apply unwind_loop_uncaught; [lia|lia|done|done].
Qed.
End unwinding.

(** ** A concrete unwinding *)

(** A function with one handler over [0, 2): catch tag 0 with its payload, at ip 5. *)
Definition rec_demo : HandlerRec :=
  {| hr_tag := Some 0; hr_restore_height := 1; hr_payload_args := true; hr_payload_ref := false; hr_landing_ip := 5 |}.
Definition handler_func : CompiledFunc :=
  {| cf_ops := span0; cf_type_idx := 0; cf_n_params := 0; cf_n_results := 0; cf_local_types := span0;
     cf_max_operands := 4; cf_handlers := {| sp_start := 0; sp_len := 1 |}; cf_br_tables := span0;
     cf_big_memargs := span0; cf_offsets := span0 |}.
Definition exn_module : ModuleInner :=
  {| mi_types := []; mi_func_types := []; mi_num_imported_funcs := 0; mi_functions := [handler_func; func0];
     mi_code := {| ca_ops := []; ca_local_types := [];
                   ca_handlers := [{| hs_start_ip := 0; hs_end_ip := 2; hs_clauses := [rec_demo] |}];
                   ca_br_tables := []; ca_big_memargs := []; ca_offsets := [] |};
     mi_imports := []; mi_exports := []; mi_memories := []; mi_tables := []; mi_globals := []; mi_tags := [];
     mi_num_imported_tags := 0; mi_datas := []; mi_elems := []; mi_start := None; mi_type_ids := [];
     mi_layouts := [] |}.
Definition tag_demo : Handle := {| h_index := 3; h_store := 1 |}.
Definition exn_demo : ExnEntity := {| xe_tag := tag_demo; xe_args := [VI32 9] |}.
Definition exn_store : StoreInner :=
  set_si_instances [{| ie_module := exn_module; ie_funcs := []; ie_memories := []; ie_globals := []; ie_tables := [];
                       ie_tags := [tag_demo]; ie_dropped_data := []; ie_elems := [] |}]
    (set_si_exns {| ra_slots := [Some exn_demo]; ra_generations := [0]; ra_free := [] |} (store_new 1 true 0)).
Definition exn_frame (i ip locals_base operand_base : Z) : Frame :=
  {| fr_code := {| code_module := exn_module; code_index := i |}; fr_func := func0; fr_ip := ip;
     fr_locals_base := locals_base; fr_operand_base := operand_base;
     fr_instance := {| h_index := 0; h_store := 1 |}; fr_func_index := i; fr_delimiter := None |}.
(** A frame inside the handler's range that called a function without one. *)
Definition ex_thrown : Execution :=
  {| ex_values := [@from_i32 lean_features 1; @from_i32 lean_features 2; @from_i32 lean_features 3];
     ex_shadow := [TagNone; TagNone; TagNone]; ex_frames := [exn_frame 0 2 0 0; exn_frame 1 7 2 2];
     ex_host_reentry_depth := 0 |}.

Lemma unwind_spec_witness :
  @unwind lean_features exn_store (EPending (rooted_from_raw 0 RkExn)) 7 0 ex_thrown =
  (Ok tt, {| ex_values := [@from_i32 lean_features 1; @from_i32 lean_features 9]; ex_shadow := [TagNone; TagNone];
             ex_frames := [exn_frame 0 5 0 0]; ex_host_reentry_depth := 0 |}) ∧
  (@unwind lean_features exn_store (EPending (rooted_from_raw 0 RkExn)) 7 1 ex_thrown).1
  = Err (EPending (rooted_from_raw 0 RkExn)).
Proof.
  assert (∀ stop, 0 ≤ stop → unwindable stop ex_thrown) as Hu.
  { intros stop Hs. split; [done|vm_compute; intuition congruence|vm_compute; intuition congruence|].
    intros i f [? Hi] Hf. cbn in Hi. assert (i = 0) as -> by (unfold zlen in Hi; cbn in Hi; lia).
    vm_compute in Hf. injection Hf as <-. done. }
  split.
  - destruct (@unwind_spec lean_features exn_store (rooted_from_raw 0 RkExn) exn_demo 7 0 ex_thrown) as [C _];
      [reflexivity|by apply Hu|by vm_compute|].
    rewrite (C 0 rec_demo (exn_frame 0 2 0 0) [@from_i32 lean_features 9]); try (vm_compute; (reflexivity || congruence)).
    intros j [? Hj]. assert (j = 1) as -> by (unfold zlen in Hj; cbn in Hj; lia). reflexivity.
  - destruct (@unwind_spec lean_features exn_store (rooted_from_raw 0 RkExn) exn_demo 7 1 ex_thrown) as [_ C];
      [reflexivity|by apply Hu|by vm_compute|].
    rewrite C; [reflexivity|].
    intros j [? Hj]. assert (j = 1) as -> by (unfold zlen in Hj; cbn in Hj; lia). reflexivity.
Defined.
