(* ===== verification/Step.v ===== *)
(** * Step: one instruction (src/src/exec/step.rs, call.rs; [throw] of exn.rs)

    [step] decodes one opcode, runs it on the machine and says how the loop goes
    on: advance, call, host call, or a growth the driver must service. *)
From S2P Require Import Prelude Types Layout Codec Arena Heap Op Entity Store Collect Stack Frame Float.
From S2P Require Import Numeric Limits Memory Simd Reserve GcOps Exn.
Open Scope Z_scope.

(** [FuncType::signature]: the registry's signature of a canonical id. *)
Class EngineFuncs := { func_signature : Z → option (list ValType * list ValType) }.

(** [CallKind] *)
Inductive CallKind : Type := Nested (return_ip : Z) | Tail.

Definition call_kind (tail : bool) (next : Z) : CallKind := if tail then Tail else Nested next.

Definition cmp_i32 (kind : CmpKind) (a b : Z) : bool :=
  match kind with
  | CkEq => a =? b
  | CkNe => negb (a =? b)
  | CkLtS => a <? b
  | CkLtU => wrap 32 a <? wrap 32 b
  | CkGtS => b <? a
  | CkGtU => wrap 32 b <? wrap 32 a
  | CkLeS => a <=? b
  | CkLeU => wrap 32 a <=? wrap 32 b
  | CkGeS => b <=? a
  | CkGeU => wrap 32 b <=? wrap 32 a
  end.

(** [code.type_idx()], [code.n_params()] *)
Definition code_type_idx (c : Code) : res Z := cf_type_idx <$> code_func c.
Definition code_n_params (c : Code) : res Z := cf_n_params <$> code_func c.
(** [module.code(func_index)]: the body of a defined function. *)
Definition module_code (m : ModuleInner) (func_index : Z) : Code :=
  {| code_module := m; code_index := func_index - mi_num_imported_funcs m |}.

Section calls.
Context `{Features, TypeOrder, EngineFuncs}.

Definition resolve_call (f : Func) (s : StoreInner) : res ResolvedCall :=
  e ← store_func s f;
  match e with
  | FeWasm def_inst func_index =>
      m ← module_of def_inst s; Ok (RcWasm def_inst func_index (module_code m func_index))
  | FeHost _ _ _ => Ok (RcHost f)
  | FeHostAsync _ _ _ => Ok (RcHostAsync f)
  end.

Definition host_ty (f : Func) (s : StoreInner) : res Z :=
  e ← store_func s f;
  match e with
  | FeHost ty _ _ | FeHostAsync ty _ _ => Ok ty
  | FeWasm _ _ => Panic "resolve returned a host func"
  end.
Definition type_params (ty : Z) : res (list ValType) :=
  fst <$> expect (func_signature ty) "live FuncType registration must retain its signature".

Definition host_sig_ok (f : Func) (expected_id : Z) (s : StoreInner) : res () :=
  ty ← host_ty f s;
  if engine_is_subtype ty expected_id then Ok tt else Err (ETrap BadSignature).

Definition call_outcome (resolved : ResolvedCall) (instance : Handle) (kind : CallKind) (s : StoreInner) : res StepOutcome :=
  let n_params f := ty ← host_ty f s; wrap 32 ∘ zlen <$> type_params ty in
  match resolved with
  | RcWasm def_inst func_index code =>
      let req return_ip := {| cr_return_ip := return_ip; cr_instance := def_inst; cr_func_index := func_index;
                              cr_code := code |} in
      match kind with
      | Tail => Ok (SoTailCall (req 0))
      | Nested return_ip => Ok (SoCall (req return_ip))
      end
  | RcHost f =>
      match kind with
      | Tail => n ← n_params f; Ok (SoTailHostCall f instance n)
      | Nested return_ip => Ok (SoHostCall f instance return_ip)
      end
  | RcHostAsync f =>
      match kind with
      | Tail => n ← n_params f; Ok (SoTailHostAsyncCall f instance n)
      | Nested return_ip => Ok (SoHostAsyncCall f instance return_ip)
      end
  end.

Definition do_call (instance : Handle) (f : Func) (kind : CallKind) (s : StoreInner) : res StepOutcome :=
  r ← resolve_call f s; call_outcome r instance kind s.

Definition do_call_indirect (instance : Handle) (type_idx table : Z) (kind : CallKind) : SM Vm StepOutcome :=
  handle ← ask (tab instance table);
  t ← ask (λ s, store_table s handle);
  idx ← on_ex (pop_index (tt_table64 (te_ty t)));
  f ← lift (match table_get t idx with
            | Some (RefFunc (Some f)) => Ok f
            | Some (RefFunc None) => Err (ETrap IndirectCallToNull)
            | Some _ => Err (ETrap BadSignature)
            | None => Err (ETrap TableOutOfBounds)
            end);
  m ← ask (module_of instance);
  expected_id ← lift (canonical_type_id m type_idx);
  resolved ← ask (resolve_call f);
  (match resolved with
   | RcWasm def_inst _ code =>
       dm ← ask (module_of def_inst);
       t ← lift (code_type_idx code);
       actual_id ← lift (canonical_type_id dm t);
       if engine_is_subtype actual_id expected_id then mret tt else fail (ETrap BadSignature)
   | RcHost f | RcHostAsync f => ask (host_sig_ok f expected_id)
   end);;
  ask (call_outcome resolved instance kind).

Definition do_call_ref (instance : Handle) (kind : CallKind) : SM Vm StepOutcome :=
  v ← on_ex (pop_ref RkFunc);
  r ← lift (to_ref v);
  f ← lift (match r with
            | RefFunc (Some f) => Ok f
            | RefFunc None => Err (ETrap NullReference)
            | _ => Err (ETrap BadSignature)
            end);
  ask (do_call instance f kind).
End calls.

Section step.
Context `{Features, FloatHost, EngineTypes, TypeOrder, EngineFuncs}.

Definition throw (instance : Handle) (tag_idx ip : Z) : SM Vm StepOutcome :=
  i ← ask (λ s, store_instance s instance);
  tag ← lift (expect (zget (ie_tags i) tag_idx) "index out of bounds");
  entity ← ask (λ s, store_tag s tag);
  params ← lift (type_params (tge_ty entity));
  out ← gc_reserve (exn_charge (zlen params)) ip;
  match out with
  | Some out => mret out
  | None =>
      args ← on_ex (pop_params params);
      exn ← on_store (alloc_exn {| xe_tag := tag; xe_args := args |});
      fail (EPending exn)
  end.

(** [inner.instance(instance).globals[g]] *)
Definition glob (instance : Handle) (idx : Z) (s : StoreInner) : res Handle :=
  i ← store_instance s instance; expect (zget (ie_globals i) idx) "index out of bounds".
Definition instance_func (instance : Handle) (idx : Z) (s : StoreInner) : res Func :=
  i ← store_instance s instance; expect (zget (ie_funcs i) idx) "index out of bounds".

Definition local_index (base i : Z) : res Z := ok_or (checked_add 32 base i) (frame_err "local index overflow").

(** [self.take_branch(t)?; return Ok(Advance(t.ip))] *)
Definition branch (t : BranchTarget) : SM Execution StepOutcome := take_branch t;; mret (SoAdvance (bt_ip t)).

Definition br_table (code : Code) (range : BrTableRange) : SM Execution StepOutcome :=
  pool ← lift (code_br_tables code);
  end_ ← lift (ok_or (checked_add 32 (btr_base range) (btr_len range))
                 (EInternal (Compiler "branch table range overflow")));
  cases ← lift (ok_or (zslice pool (btr_base range) end_) (EInternal (Compiler "branch table range is invalid")));
  default_ ← lift (ok_or (zget pool end_) (EInternal (Compiler "branch table default is missing")));
  i ← pop_u32;
  branch (default default_ (zget cases i)).

Definition step (code : Code) (op : Op) (next base : Z) (instance : Handle) : SM Vm StepOutcome :=
  let adv (m : SM Vm ()) : SM Vm StepOutcome := m;; mret (SoAdvance next) in
  match op with
  | OpNop => mret (SoAdvance next)
  | OpUnreachable => fail (ETrap UnreachableCodeReached)
  | OpI32Const v => adv (on_ex (modify (push_i32 v)))
  | OpI64Const v => adv (on_ex (modify (push_i64 v)))
  | OpF32Const v => adv (on_ex (modify (push_f32 v)))
  | OpF64Const v => adv (on_ex (modify (push_f64 v)))
  | OpDrop => adv (on_ex (pop;; mret tt))
  | OpSelect => adv (on_ex (ct ← pop_select; modify (push_cell (fst ct) (snd ct))))
  | OpLocalGet i =>
      adv (on_ex (l ← lift (local_index base i); ct ← reads (cell_at l); modify (push_cell (fst ct) (snd ct))))
  | OpLocalSet i => adv (on_ex (ct ← pop_tagged; l ← lift (local_index base i); set_cell l (fst ct) (snd ct)))
  | OpLocalTee i => adv (on_ex (ct ← reads top_cell; l ← lift (local_index base i); set_cell l (fst ct) (snd ct)))
  | OpGlobalGet g =>
      h ← ask (glob instance g); e ← ask (λ s, store_global s h); adv (on_ex (push (ge_value e)))
  | OpGlobalSet g =>
      h ← ask (glob instance g); e ← ask (λ s, store_global s h);
      v ← on_ex (pop_typed (gt_content (ge_ty e)));
      adv (on_store (modify (put_global h {| ge_value := v; ge_ty := ge_ty e |})))
  | OpBr t => on_ex (branch t)
  | OpBrIf t => c ← on_ex pop_i32; if negb (c =? 0) then on_ex (branch t) else mret (SoAdvance next)
  | OpBrIfNot t => c ← on_ex pop_i32; if c =? 0 then on_ex (branch t) else mret (SoAdvance next)
  | OpBrIfCmp kind negate target =>
      ab ← on_ex pop_i32_pair;
      if xorb (cmp_i32 kind (fst ab) (snd ab)) negate then on_ex (branch target) else mret (SoAdvance next)
  | OpBrTable range => on_ex (br_table code range)
  | OpCall f => callee ← ask (instance_func instance f); ask (do_call instance callee (call_kind false next))
  | OpReturnCall f => callee ← ask (instance_func instance f); ask (do_call instance callee (call_kind true next))
  | OpCallIndirect type_idx table => do_call_indirect instance type_idx table (Nested next)
  | OpReturnCallIndirect type_idx table => do_call_indirect instance type_idx table Tail
  | OpCallRef _ => do_call_ref instance (Nested next)
  | OpReturnCallRef _ => do_call_ref instance Tail
  | OpBrOnNull t =>
      rt ← on_ex pop_tagged_ref;
      if cell_is_null (fst rt) then on_ex (branch t) else adv (on_ex (modify (push_cell (fst rt) (snd rt))))
  | OpBrOnNonNull t =>
      rt ← on_ex pop_tagged_ref;
      if cell_is_null (fst rt) then mret (SoAdvance next)
      else on_ex (modify (push_cell (fst rt) (snd rt));; branch t)
  | OpMemoryGrow i =>
      memory ← ask (mem instance i); e ← ask (λ s, store_memory s memory);
      delta ← on_ex (pop_index (mt_memory64 (me_ty e)));
      mret (SoGrow memory delta next)
  | OpTableGrow t =>
      table ← ask (tab instance t); e ← ask (λ s, store_table s table);
      delta ← on_ex (pop_index (tt_table64 (te_ty e)));
      v ← on_ex (pop_ref (refkind_of_heap (rt_heap (tt_element (te_ty e)))));
      init ← lift (to_ref v);
      mret (SoTableGrow table delta init next)
  | OpI32Load _ | OpI64Load _ | OpF32Load _ | OpF64Load _ | OpI32Load8S _ | OpI32Load8U _ | OpI32Load16S _
  | OpI32Load16U _ | OpI64Load8S _ | OpI64Load8U _ | OpI64Load16S _ | OpI64Load16U _ | OpI64Load32S _
  | OpI64Load32U _ | OpI32Store _ | OpI64Store _ | OpF32Store _ | OpF64Store _ | OpI32Store8 _ | OpI32Store16 _
  | OpI64Store8 _ | OpI64Store16 _ | OpI64Store32 _ | OpMemorySize _ | OpMemoryCopy _ _ | OpMemoryFill _
  | OpMemoryInit _ _ | OpDataDrop _ => adv (exec_memory code op instance)
  | OpRefNull _ | OpRefFunc _ | OpRefIsNull | OpRefAsNonNull => adv (exec_ref op instance)
  | OpTableInit _ _ | OpTableCopy _ _ | OpElemDrop _ | OpTableGet _ | OpTableSet _ | OpTableSize _ | OpTableFill _ =>
      adv (exec_table op instance)
  | OpThrow tag => throw instance tag (next - 1)
  | OpThrowRef => on_ex throw_ref;; panic "throw_ref always raises"
  | OpBrOnCast _ _ =>
      r ← br_on_cast code instance op false;
      mret (SoAdvance (default next r))
  | OpBrOnCastFail _ _ =>
      r ← br_on_cast code instance op true;
      mret (SoAdvance (default next r))
  | OpStructNew _ | OpStructNewDefault _ | OpArrayNew _ | OpArrayNewDefault _ | OpArrayNewFixed _ _
  | OpArrayNewData _ _ | OpArrayNewElem _ _ =>
      charge ← reads (gc_alloc_charge instance op);
      out ← match charge with Some c => gc_reserve c (next - 1) | None => mret None end;
      match out with
      | Some out => mret out
      | None => adv (exec_gc op instance)
      end
  | OpSimd s => adv (exec_simd code s instance)
  | _ => adv (match exec_numeric op with Some m => on_ex m | None => exec_gc op instance end)
  end.
End step.
