(* ===== verification/StackInv.v ===== *)
(** * StackInv: invariants of the shared stacks under one instruction

    A predicate on executions is a [StackInv] when it survives what instructions do
    to the operands of the running frame: removing operands above the frame's floor,
    pushing, overwriting and sliding them down.  Then every method of the operand
    stack, the numeric, memory, table, GC and cast instructions keep it.  The two
    instances used later are "the outer call below the boundary is untouched" and
    "the frame stack has this height". *)
From S2P Require Import Prelude Keep Types Layout Codec Arena Heap Op Entity Store Collect Stack Frame Float.
From S2P Require Import Numeric Limits Memory Simd Reserve GcOps Exn Step.
Open Scope Z_scope.

Class StackInv `{Features} (J : Execution → Prop) : Prop := {
  si_truncate ex k base : J ex → 0 ≤ k → ensure_operands k ex = Ok base → J (stack_truncate base ex);
  si_truncate_one ex k base : J ex → 1 ≤ k → ensure_operands k ex = Ok base → J (stack_truncate (base + 1) ex);
  si_push ex c t : J ex → J (push_cell c t ex);
  si_value ex k base i c vs :
    J ex → 0 ≤ k → ensure_operands k ex = Ok base → base ≤ i → zset (ex_values ex) i c = Some vs → J (set_ex_values vs ex);
  si_slide ex src n dst r ex' :
    J ex → (∃ k, 0 ≤ k ∧ ensure_operands k ex = Ok dst) → 0 ≤ n → dst ≤ src →
    slide_down src n dst ex = (r, ex') → no_panic r → J ex';
}.

Section stack.
Context `{Features} (J : Execution → Prop) {HJ : StackInv J}.

Lemma ensure_scalar_ensure k ex base : ensure_scalar_operands k ex = Ok base → ensure_operands k ex = Ok base.
Proof using.
  unfold ensure_scalar_operands. destruct (ensure_operands k ex) as [b| |]; cbn; [|done..]. by destruct (existsb _ _).
Qed.
Lemma zlen_truncate n ex : 0 ≤ n ≤ zlen (ex_values ex) → zlen (ex_values (stack_truncate n ex)) = n.
Proof using. intros. cbn -[ztake]. by apply zlen_take. Qed.

(** [base ← ensure; ...; truncate(base)] where the middle only reads. *)
Definition settles {A} (base : Z) (f : SM Execution A) : Prop :=
  ∀ ex r ex', f ex = (r, ex') → no_panic r → ex' = ex ∨ ex' = stack_truncate base ex.
Lemma settles_fail {A} base e : settles (A:=A) base (fail e).
Proof using. intros ex r ex' [= <- <-]. by left. Qed.
Lemma settles_reads {A B} base (g : Execution → res A) (f : A → SM Execution B) :
  (∀ a, settles base (f a)) → settles base (reads g ≫= f).
Proof using.
  intros Hf ex r ex'. rewrite bind_unfold. unfold reads. destruct (g ex); [apply Hf| |]; intros [= <- <-] _; by left.
Qed.
Lemma settles_lift {A B} base (x : res A) (f : A → SM Execution B) :
  (∀ a, settles base (f a)) → settles base (lift x ≫= f).
Proof using.
  intros Hf ex r ex'. rewrite bind_unfold. unfold lift. destruct x; [apply Hf| |]; intros [= <- <-] _; by left.
Qed.
Lemma settles_get {B} base (f : Execution → SM Execution B) : (∀ a, settles base (f a)) → settles base (get ≫= f).
Proof using. intros Hf ex r ex'. rewrite get_run. apply Hf. Qed.
Lemma settles_commit {A} base (a : A) : settles base (modify (stack_truncate base);; mret a).
Proof using. intros ex r ex'. rewrite modify_run. intros [= <- <-] _. by right. Qed.

Lemma keeps_ensure {A} k (f : Z → SM Execution A) : 0 ≤ k → (∀ base, settles base (f base)) →
  keeps J (base ← reads (ensure_operands k); f base).
Proof using HJ.
  intros Hk Hf. apply keeps_reads_inv. intros ex base r ex' Hex Hb Hr Hp.
  destruct (Hf base ex r ex' Hr Hp) as [-> | ->]; [done|]. by eapply si_truncate.
Qed.
Lemma keeps_ensure_scalar {A} k (f : Z → SM Execution A) : 0 ≤ k → (∀ base, settles base (f base)) →
  keeps J (base ← reads (ensure_scalar_operands k); f base).
Proof using HJ.
  intros Hk Hf. apply keeps_reads_inv. intros ex base r ex' Hex Hb%ensure_scalar_ensure Hr Hp.
  destruct (Hf base ex r ex' Hr Hp) as [-> | ->]; [done|]. by eapply si_truncate.
Qed.

Ltac settle :=
  repeat lazymatch goal with
  | |- settles _ (mbind _ (reads _)) => apply settles_reads; intros ?
  | |- settles _ (mbind _ (lift _)) => apply settles_lift; intros ?
  | |- settles _ (mbind _ get) => apply settles_get; intros ?
  | |- settles _ (mbind _ (modify _)) => apply settles_commit
  | |- settles _ (fail _) => apply settles_fail
  | |- settles _ (let _ := _ in _) => cbv zeta
  | |- settles _ (if ?b then _ else _) => destruct b
  | |- settles _ (match ?x with _ => _ end) => destruct x
  end.

Lemma keeps_pop_scalar : keeps J pop_scalar.
Proof using HJ. apply keeps_ensure_scalar; [done|]. intros base. settle. Qed.
Lemma keeps_pop : keeps J pop.
Proof using HJ. apply keeps_ensure; [done|]. intros base. settle. Qed.
Lemma keeps_pop_tagged : keeps J pop_tagged.
Proof using HJ. apply keeps_ensure; [done|]. intros base. settle. Qed.
Lemma keeps_pop_tagged_ref : keeps J pop_tagged_ref.
Proof using HJ. apply keeps_ensure; [done|]. intros base. settle. Qed.
Lemma keeps_pop_typed ty : keeps J (pop_typed ty).
Proof using HJ. apply keeps_ensure; [done|]. intros base. settle. Qed.
Lemma keeps_pop_select : keeps J pop_select.
Proof using HJ. apply keeps_ensure; [done|]. intros base. settle. Qed.
Lemma keeps_pop_i32_pair : keeps J pop_i32_pair.
Proof using HJ. apply keeps_ensure_scalar; [done|]. intros base. settle. Qed.
Lemma keeps_pop_params_into tys out : keeps J (pop_params_into tys out).
Proof using HJ. apply keeps_ensure; [apply zlen_nonneg|]. intros base. settle. Qed.

Lemma keeps_pop_i32 : keeps J pop_i32.
Proof using HJ. apply keeps_bind; [apply keeps_pop_scalar|intros; apply keeps_ret]. Qed.
Lemma keeps_pop_i64 : keeps J pop_i64.
Proof using HJ. apply keeps_bind; [apply keeps_pop_scalar|intros; apply keeps_ret]. Qed.
Lemma keeps_pop_f32 : keeps J pop_f32.
Proof using HJ. apply keeps_bind; [apply keeps_pop_scalar|intros; apply keeps_ret]. Qed.
Lemma keeps_pop_f64 : keeps J pop_f64.
Proof using HJ. apply keeps_bind; [apply keeps_pop_scalar|intros; apply keeps_ret]. Qed.
Lemma keeps_pop_u32 : keeps J pop_u32.
Proof using HJ. apply keeps_bind; [apply keeps_pop_i32|intros; apply keeps_ret]. Qed.
Lemma keeps_pop_index b : keeps J (pop_index b).
Proof using HJ. apply keeps_bind; [apply keeps_pop_scalar|intros; apply keeps_ret]. Qed.
Lemma keeps_pop_ref k : keeps J (pop_ref k).
Proof using HJ.
  apply keeps_bind; [apply keeps_reads|intros base]. apply keeps_bind; [apply keeps_reads|intros t].
  destruct (negb _); [apply keeps_fail|]. apply keeps_bind; [apply keeps_pop|intros; apply keeps_lift].
Qed.
Lemma keeps_pop_val_for slot : keeps J (pop_val_for slot).
Proof using HJ.
  apply keeps_bind; [apply keeps_reads|intros base]. apply keeps_bind; [apply keeps_reads|intros t].
  destruct (negb _); [apply keeps_fail|]. apply keeps_bind; [apply keeps_pop|intros; apply keeps_lift].
Qed.

(** Pushes. *)
Lemma keeps_push_cell c t : keeps (E:=error) J (modify (push_cell c t)).
Proof using HJ. apply keeps_modify. intros. by apply si_push. Qed.
Lemma push_scalar_cell b ex : push_scalar b ex = push_cell (of_bytes b) TagNone ex.
Proof using. done. Qed.
Lemma keeps_push_scalar b : keeps (E:=error) J (modify (push_scalar b)).
Proof using HJ. apply keeps_push_cell. Qed.
Lemma keeps_push v : keeps J (push v).
Proof using HJ.
  intros ex r ex' Hex. unfold push. rewrite modify_run, bind_unfold. unfold lift, modify.
  destruct (encode v) as [c|e|w] eqn:Hc; [|by destruct (encode_no_err v e)|]; intros [= <- <-] Hp.
  - by apply (si_push ex c (of_val v)).
  - by destruct (Hp w).
Qed.
Lemma keeps_push_results vs : keeps J (push_results_slice vs).
Proof using HJ.
  apply keeps_for_each. intros v ex r ex' Hex. rewrite modify_run, bind_unfold. unfold lift, modify.
  destruct (encode_val v) as [c|e|w] eqn:Hc; [| |]; intros [= <- <-] Hp.
  - by apply (si_push ex c (of_val v)).
  - rewrite encode_val_eq in Hc. by destruct (encode_no_err v e).
  - by destruct (Hp w).
Qed.

(** In-place arithmetic. *)
Lemma ensure_after_set k ex base i c vs : ensure_operands k ex = Ok base → zset (ex_values ex) i c = Some vs →
  ensure_operands k (set_ex_values vs ex) = Ok base.
Proof using.
  intros He [_ ->]%zset_Some. unfold ensure_operands, operand_floor in *. cbn [ex_values ex_shadow ex_frames set_ex_values].
  by rewrite zlen_insert.
Qed.
Lemma keeps_replace_two ex base c r ex' : J ex → ensure_operands 2 ex = Ok base →
  (set_value (base + 2 - 2) c;; modify (stack_truncate (base + 2 - 1))) ex = (r, ex') → no_panic r → J ex'.
Proof using HJ.
  intros Hex Hb. rewrite bind_unfold. unfold set_value. destruct (zset _ _ _) as [vs|] eqn:Hz; cycle 1.
  { intros [= <- <-] Hp. by destruct (Hp "index out of bounds"). }
  intros [= <- <-] _. replace (base + 2 - 1) with (base + 1) by lia.
  apply (si_truncate_one _ 2); [|lia|by eapply ensure_after_set].
  eapply (si_value ex 2 base); [done|lia|done| |done]. lia.
Qed.

Ltac read_steps Hr Hp :=
  repeat match type of Hr with
  | (reads ?g ≫= ?f) ?ex = (?r, ?ex') =>
      rewrite (bind_unfold (reads g) f ex) in Hr; unfold reads at 1 in Hr;
      let E := fresh in destruct (g ex) eqn:E; [|by injection Hr as <- <-|injection Hr as <- <-; by destruct (Hp _ eq_refl)]
  end.

Lemma keeps_binop f : keeps J (binop_cells f).
Proof using HJ.
  apply keeps_reads_inv. intros ex base r ex' Hex Hb%ensure_scalar_ensure Hr Hp. cbv zeta in Hr. read_steps Hr Hp.
  by eapply keeps_replace_two.
Qed.
Lemma keeps_binop_try f : keeps J (binop_cells_try f).
Proof using HJ.
  apply keeps_reads_inv. intros ex base r ex' Hex Hb%ensure_scalar_ensure Hr Hp. cbv zeta in Hr. read_steps Hr Hp.
  rewrite bind_unfold in Hr. unfold lift in Hr. destruct (f _ _); [by eapply keeps_replace_two| |].
  - by injection Hr as <- <-.
  - injection Hr as <- <-. by destruct (Hp _ eq_refl).
Qed.
Lemma keeps_unop f : keeps J (unop_cell f).
Proof using HJ.
  apply keeps_reads_inv. intros ex base r ex' Hex Hb%ensure_scalar_ensure Hr Hp. cbv zeta in Hr. read_steps Hr Hp.
  unfold set_value in Hr. destruct (zset _ _ _) as [vs|] eqn:Hz; injection Hr as <- <-.
  - eapply (si_value ex 1 base); [done|lia|done| |done]. lia.
  - by destruct (Hp _ eq_refl).
Qed.

Lemma slide_down_in_range src n dst ex r ex' : slide_down src n dst ex = (r, ex') → no_panic r →
  0 ≤ src ∧ 0 ≤ n ∧ src + n ≤ zlen (ex_values ex) ∧ 0 ≤ dst ∧ dst + n ≤ zlen (ex_values ex).
Proof using.
  unfold slide_down, zcopy_within. intros Hr Hp.
  assert (Hbad : r = Panic "copy_within out of range" → False) by (intros ->; by destruct (Hp "copy_within out of range")).
  destruct (zslice (ex_values ex) src (src + n)) as [s|] eqn:Hs; [|by injection Hr as <- <-].
  destruct (zsplice (ex_values ex) dst s) as [s'|] eqn:Hs'; [|by injection Hr as <- <-].
  pose proof (zlen_slice _ _ _ _ Hs). apply zslice_Some in Hs as (? & ? & _). apply zsplice_Some in Hs' as (? & ? & _). lia.
Qed.
Lemma keeps_take_branch t : keeps J (take_branch t).
Proof using HJ.
  apply keeps_get_inv. intros ex r ex' Hex Hr Hp.
  destruct (Z.eqb_spec (zlen (ex_values ex)) (zlen (ex_shadow ex))) as [Hl|]; cbn [negb] in Hr; [|by injection Hr as <- <-].
  unfold checked_add in Hr. destruct (bt_keep t + bt_pop t <? 2 ^ 64); [|by injection Hr as <- <-]. lift_step_in Hr.
  destruct (last (ex_frames ex)) as [f|] eqn:Hf; [|by injection Hr as <- <-]. lift_step_in Hr.
  unfold checked_sub in Hr.
  destruct (Z.leb_spec (fr_operand_base f) (zlen (ex_values ex))) as [Hle|]; [|by injection Hr as <- <-].
  destruct (Z.ltb_spec (zlen (ex_values ex) - fr_operand_base f) (bt_keep t + bt_pop t)) as [|Hge]; [by injection Hr as <- <-|].
  destruct (slide_down_in_range _ _ _ _ _ _ Hr Hp) as (_ & Hk & _ & _ & Hd).
  eapply (si_slide ex); [done| |exact Hk| |exact Hr|done]; [|lia].
  exists (bt_keep t + bt_pop t). split; [lia|]. unfold ensure_operands, operand_floor. rewrite Hl, Z.eqb_refl, Hf.
  cbn [negb ok_or mbind result_bind]. unfold checked_sub. rewrite <- Hl, (proj2 (Z.leb_le _ _)) by lia. cbn [ok_or mbind result_bind].
  rewrite (proj2 (Z.ltb_ge _ _)) by lia. f_equal. lia.
Qed.
End stack.
#[export] Hint Resolve keeps_pop_scalar keeps_pop keeps_pop_tagged keeps_pop_tagged_ref keeps_pop_typed keeps_pop_select
  keeps_pop_i32_pair keeps_pop_params_into keeps_pop_i32 keeps_pop_i64 keeps_pop_f32 keeps_pop_f64 keeps_pop_u32
  keeps_pop_index keeps_pop_ref keeps_pop_val_for keeps_push_cell keeps_push_scalar keeps_push keeps_push_results
  keeps_binop keeps_binop_try keeps_unop : keeps.

(** ** Instructions on the machine *)

(** What no instruction changes in the store: the remaining fuel (the loop's gate
    spends it) and the modules of the instances. *)
Definition code_view (s : StoreInner) : Z * list ModuleInner := (si_fuel s, ie_module <$> si_instances s).
Definition vm_inv (J : Execution → Prop) (c : Z * list ModuleInner) (v : Vm) : Prop :=
  J (vm_ex v) ∧ code_view (vm_store v) = c.

Lemma zget_insert_fmap {A B} (f : A → B) (l : list A) i x y :
  zget l i = Some x → f y = f x → f <$> <[Z.to_nat i := y]> l = f <$> l.
Proof.
  unfold zget. destruct (0 <=? i); [|done]. intros Hx Hf. rewrite list_fmap_insert, Hf. apply list_insert_id.
  by rewrite list_lookup_fmap, Hx.
Qed.

Section store_parts.
Context `{EngineTypes} (c : Z * list ModuleInner).
Abbreviation K := (λ s, code_view s = c).

Lemma keeps_store_modify (g : StoreInner → StoreInner) : (∀ s, code_view (g s) = code_view s) →
  keeps (E:=error) K (modify g).
Proof using. intros Hg. apply keeps_modify. intros s Hs. by rewrite Hg. Qed.
Lemma keeps_zoom_part {T A} (proj : StoreInner → T) upd (m : SM T A) : (∀ t s, code_view (upd t s) = code_view s) →
  keeps K (zoom proj upd m).
Proof using.
  intros Hu. apply (keeps_zoom _ _ _ (λ _, True)); [done| |by intros ? ? ?]. intros s t Hs _. by rewrite Hu.
Qed.
Lemma keeps_with_gc {A} (f : GcHeap → res A * GcHeap) : keeps K (with_gc f).
Proof using. by apply keeps_zoom_part. Qed.

Lemma drop_view h i i' s : store_instance s h = Ok i → ie_module i' = ie_module i →
  code_view (put_instance h i' s) = code_view s.
Proof using.
  unfold store_instance, arena_entity. intros (u & _ & Hz)%result_bind_Ok Hm.
  destruct (zget _ _) as [x|] eqn:Hx; cbn in Hz; [injection Hz as ->|done].
  unfold code_view, put_instance. cbn [si_fuel si_instances set_si_instances]. f_equal.
  by eapply zget_insert_fmap.
Qed.
Lemma keeps_drop_data h seg : keeps K (drop_data h seg).
Proof using.
  intros s r s' Hs. unfold drop_data. destruct (store_instance s h) as [i| |] eqn:Hi; [|by intros [= <- <-]..].
  destruct (zset _ _ _); intros [= <- <-]; [|done]. intros _. by rewrite (drop_view _ _ _ _ Hi).
Qed.
Lemma keeps_drop_elem h seg : keeps K (drop_elem h seg).
Proof using.
  intros s r s' Hs. unfold drop_elem. destruct (store_instance s h) as [i| |] eqn:Hi; [|by intros [= <- <-]..].
  destruct (zset _ _ _); intros [= <- <-]; [|done]. intros _. by rewrite (drop_view _ _ _ _ Hi).
Qed.

Lemma trace_loop_view fuel work ext exn s r s' : trace_loop fuel work ext exn s = Some (r, s') → code_view s' = code_view s.
Proof using.
  revert work ext exn s. induction fuel as [|fuel IH]; [done|]. intros work ext exn s. cbn [trace_loop].
  destruct (vec_pop work) as [[w [i|i|i]]|]; [| | |by intros [= <- <-]].
  - destruct (gc_get _ i); [|by intros [= <- <-]]. destruct (mark i (si_gc s)) as [new h].
    destruct new; [|by intros ->%IH]. destruct (trace_gc _ i); [by intros ->%IH|by intros [= <- <-]..].
  - destruct (decide _); [by intros ->%IH|]. destruct (trace_extern s i); [by intros ->%IH|by intros [= <- <-]..].
  - destruct (decide _); [by intros ->%IH|]. destruct (trace_exn s i); [by intros ->%IH|by intros [= <- <-]..].
Qed.
Lemma keeps_sweeps (ext exn : gset Z) : keeps K
  (freed ← zoom si_externrefs set_si_externrefs (reclaim_sweep (λ i, bool_decide (i ∈ ext)) extern_byte_size);
   _ ← modify (λ s, set_si_gc (credit freed (si_gc s)) s);
   freed ← zoom si_exns set_si_exns (reclaim_sweep (λ i, bool_decide (i ∈ exn)) exn_byte_size);
   _ ← modify (λ s, set_si_gc (credit freed (si_gc s)) s);
   zoom si_gc set_si_gc gc_sweep).
Proof using.
  repeat (apply keeps_bind; [first [by apply keeps_zoom_part|by apply keeps_store_modify]|intros ?]).
  by apply keeps_zoom_part.
Qed.
Lemma keeps_gc_collect roots : keeps K (gc_collect roots).
Proof using.
  intros s r s' Hs. unfold gc_collect. destruct (collect roots s) as [[x s1]|] eqn:Hc; cycle 1.
  { intros [= <- <-] Hp. by destruct (Hp "collector out of fuel"). }
  intros [= -> ->] Hp. revert Hc. unfold collect. destruct (negb _); [by intros [= <- <-]|].
  unfold trace_reachable. destruct (trace_loop _ _ _ _ s) as [[x s1]|] eqn:Ht; cbn [option_bind mbind]; [|done].
  apply trace_loop_view in Ht. rewrite Hs in Ht. destruct x as [[ext exn]|e|w].
  - intros Hr. injection Hr as Hr. exact (keeps_sweeps ext exn s1 r s' Ht Hr Hp).
  - by intros [= <- <-].
  - by intros [= <- <-].
Qed.
End store_parts.
#[export] Hint Resolve keeps_with_gc keeps_drop_data keeps_drop_elem keeps_gc_collect : keeps.

Section lifting.
Context (J : Execution → Prop) (c : Z * list ModuleInner).
Abbreviation I := (vm_inv J c).

Lemma keeps_on_ex {A} (m : SM Execution A) : keeps J m → keeps I (on_ex m).
Proof using. apply keeps_zoom; [by intros v []|]. by intros v t [_ ?] ?. Qed.
Lemma keeps_on_store {A} (m : SM StoreInner A) : keeps (λ s, code_view s = c) m → keeps I (on_store m).
Proof using. apply keeps_zoom; [by intros v []|]. by intros v t [? _] ?. Qed.
Lemma keeps_ask {A} (f : StoreInner → res A) : keeps I (ask f).
Proof using. apply keeps_reads. Qed.
End lifting.

Ltac vm_step :=
  lazymatch goal with
  | |- keeps _ (on_ex _) => apply keeps_on_ex
  | |- keeps _ (on_store (modify _)) => apply keeps_on_store, keeps_store_modify; done
  | |- keeps _ (on_store _) => apply keeps_on_store
  | |- keeps _ (ask _) => apply keeps_ask
  | |- keeps _ (modify (push_i32 _)) => eapply keeps_push_scalar; eassumption
  | |- keeps _ (modify (push_i64 _)) => eapply keeps_push_scalar; eassumption
  | |- keeps _ (modify (push_f32 _)) => eapply keeps_push_scalar; eassumption
  | |- keeps _ (modify (push_f64 _)) => eapply keeps_push_scalar; eassumption
  | |- keeps _ (modify (push_scalar _)) => eapply keeps_push_scalar; eassumption
  | |- _ => keep_step
  end.
Ltac vm := repeat vm_step.

Section instructions.
Context `{Features, FloatHost, EngineTypes, TypeOrder, EngineFuncs} (J : Execution → Prop) {HJ : StackInv J}
  (c : Z * list ModuleInner).
Abbreviation I := (vm_inv J c).


(** Numbers. *)
Lemma keeps_numeric op m : exec_numeric op = Some m → keeps J m.
Proof using HJ.
  intros Hm. destruct op; try discriminate Hm; injection Hm as <-;
    first [by apply keeps_binop|by apply keeps_unop|by apply keeps_binop_try|apply keeps_bind; vm].
Qed.

(** Memories and tables. *)
Lemma keeps_push_index b v : keeps J (push_index b v).
Proof using HJ. unfold push_index. vm. Qed.
Lemma keeps_write_bytes h e r : keeps I (write_bytes h e r).
Proof using. unfold write_bytes. vm. Qed.
Lemma keeps_mem_ea k e o : keeps J (mem_ea k e o).
Proof using HJ. unfold mem_ea. vm. Qed.
Hint Resolve keeps_push_index keeps_write_bytes keeps_mem_ea : keeps.
Lemma keeps_load k code h m : keeps I (load_n k code h m).
Proof using HJ. unfold load_n. vm. Qed.
Lemma keeps_store k code h m : keeps I (store_n k code h m).
Proof using HJ. unfold store_n. vm. Qed.
Hint Resolve keeps_load keeps_store : keeps.
Lemma keeps_memory_copy h a b : keeps I (memory_copy h a b).
Proof using HJ. unfold memory_copy. cbv zeta. vm. Qed.
Lemma keeps_memory_init h a b : keeps I (memory_init h a b).
Proof using HJ. unfold memory_init. cbv zeta. vm. Qed.
Lemma keeps_memory_fill h a : keeps I (memory_fill h a).
Proof using HJ. unfold memory_fill. cbv zeta. vm. Qed.
Hint Resolve keeps_memory_copy keeps_memory_init keeps_memory_fill : keeps.
Lemma keeps_exec_memory code op h : keeps I (exec_memory code op h).
Proof using HJ. unfold exec_memory. cbv zeta. destruct op; vm. Qed.

(** Vectors. *)
Lemma keeps_pop_v128 : keeps J pop_v128.
Proof using HJ. unfold pop_v128, pop_v128_cell. vm. Qed.
Lemma keeps_push_v128 v : keeps J (push_v128 v).
Proof using HJ. unfold push_v128. vm. Qed.
Hint Resolve keeps_pop_v128 keeps_push_v128 : keeps.
Lemma keeps_simd_relaxed s : keeps J (exec_simd_relaxed s).
Proof using HJ.
  destruct s; cbn [exec_simd_relaxed]; unfold swizzle_body, trunc_zero, v_binop, v_unop, fma_f32x4, fma_f64x2; cbv zeta; vm.
Qed.
Hint Resolve keeps_simd_relaxed : keeps.
Lemma keeps_simd_cvt s : keeps J (exec_simd_cvt s).
Proof using HJ. destruct s; cbn [exec_simd_cvt]; unfold trunc_zero, v_unop; cbv zeta; vm. Qed.
Hint Resolve keeps_simd_cvt : keeps.
Lemma keeps_v_cmp n split f : keeps J (v_cmp n split f).
Proof using HJ. unfold v_cmp. cbv zeta. vm. Qed.
Lemma keeps_v_binop split join f : keeps J (v_binop split join f).
Proof using HJ. unfold v_binop. vm. Qed.
Lemma keeps_v_unop split join f : keeps J (v_unop split join f).
Proof using HJ. unfold v_unop. vm. Qed.
Lemma keeps_v_shift n split join f : keeps J (v_shift n split join f).
Proof using HJ. unfold v_shift. cbv zeta. vm. Qed.
Hint Resolve keeps_v_cmp keeps_v_binop keeps_v_unop keeps_v_shift : keeps.
Lemma keeps_simd_fcmp s : keeps J (exec_simd_fcmp s).
Proof using HJ. destruct s; cbn [exec_simd_fcmp]; vm. Qed.
Hint Resolve keeps_simd_fcmp : keeps.
Lemma keeps_simd_farith s : keeps J (exec_simd_farith s).
Proof using HJ. destruct s; cbn [exec_simd_farith]; vm. Qed.
Hint Resolve keeps_simd_farith : keeps.
Lemma keeps_simd_iarith2 s : keeps J (exec_simd_iarith2 s).
Proof using HJ. destruct s; cbn [exec_simd_iarith2]; unfold v_extend, v_extmul, v_extadd, v_narrow; cbv zeta; vm. Qed.
Hint Resolve keeps_simd_iarith2 : keeps.
Lemma keeps_simd_icmp s : keeps J (exec_simd_icmp s).
Proof using HJ. destruct s; cbn [exec_simd_icmp]; vm. Qed.
Hint Resolve keeps_simd_icmp : keeps.
Lemma keeps_simd_iarith s : keeps J (exec_simd_iarith s).
Proof using HJ. destruct s; cbn [exec_simd_iarith]; unfold v_all_true, v_bitmask; vm. Qed.
Hint Resolve keeps_simd_iarith : keeps.
Lemma keeps_simd_bit s : keeps J (exec_simd_bit s).
Proof using HJ. destruct s; cbn [exec_simd_bit]; unfold bit_binop; vm. Qed.
Hint Resolve keeps_simd_bit : keeps.
Lemma keeps_simd_lane s : keeps J (exec_simd_lane s).
Proof using HJ. destruct s; cbn [exec_simd_lane]; unfold splat, extract, replace, swizzle_body, pop_as; cbv zeta; vm. Qed.
Hint Resolve keeps_simd_lane : keeps.
Lemma keeps_simd_mem code s h : keeps I (exec_simd_mem code s h).
Proof using HJ. destruct s; cbn [exec_simd_mem]; unfold load_v, load_lane, store_lane; vm. Qed.
Hint Resolve keeps_simd_mem : keeps.
Lemma keeps_exec_simd code s h : keeps I (exec_simd code s h).
Proof using HJ. unfold exec_simd, exec_simd_compute. vm. Qed.
Hint Resolve keeps_exec_simd : keeps.

Lemma keeps_set_handle h t i r : keeps I (table_set_handle h t i r).
Proof using. unfold table_set_handle. destruct (table_set i r t). vm. Qed.
Hint Resolve keeps_set_handle : keeps.
Lemma keeps_exec_table op h : keeps I (exec_table op h).
Proof using HJ.
  destruct op; cbn [exec_table]; unfold table_init, table_copy, exec_table_get, exec_table_set, exec_table_fill;
    cbv zeta; vm.
Qed.

(** GC objects. *)
Lemma keeps_write_body o x r : keeps I (write_body o x r).
Proof using. unfold write_body. vm. Qed.
Lemma keeps_pop_fields slots data : keeps J (pop_fields slots data).
Proof using HJ. revert data. induction slots as [|s slots IH]; intros data; cbn [pop_fields]; vm; apply IH. Qed.
Lemma keeps_pop_elems l k data : keeps J (pop_elems l k data).
Proof using HJ. revert data. induction k as [|k IH]; intros data; cbn [pop_elems]; cbv zeta; vm; apply IH. Qed.
Lemma keeps_pop_u32' : keeps J pop_u32.
Proof using HJ. unfold pop_u32. vm. Qed.
Lemma keeps_pop_anyref : keeps J pop_anyref.
Proof using HJ. unfold pop_anyref. vm. Qed.
Lemma keeps_alloc_array t d : keeps I (alloc_array t d).
Proof using HJ. unfold alloc_array. vm. Qed.
Lemma keeps_i31_get b : keeps J (i31_get b).
Proof using HJ. unfold i31_get. vm. Qed.
Hint Resolve keeps_write_body keeps_pop_fields keeps_pop_elems keeps_pop_u32' keeps_pop_anyref keeps_alloc_array
  keeps_i31_get : keeps.
Lemma keeps_convert v : keeps (λ s, code_view s = c) (any_convert_extern v).
Proof using.
  intros s r s' Hs. unfold any_convert_extern. repeat case_match; try (intros [= <- <-]; done).
  intros Hr Hp. eapply (keeps_bind (λ s, code_view s = c)); [apply keeps_with_gc|intros ?; apply keeps_ret|exact Hs|exact Hr|done].
Qed.
Lemma keeps_push_extern e : keeps (λ s, code_view s = c) (push_extern e).
Proof using.
  intros s r s' Hs. unfold push_extern. cbv zeta. destruct (can_fit_limit _ _); [|by intros [= <- <-]].
  by apply (keeps_zoom_part c si_externrefs set_si_externrefs).
Qed.
Lemma keeps_convert_any v : keeps (λ s, code_view s = c) (extern_convert_any v).
Proof using.
  intros s r s' Hs. unfold extern_convert_any. repeat case_match; try (intros [= <- <-]; done).
  all: apply (keeps_bind (λ s, code_view s = c)); [apply keeps_push_extern|intros ?; apply keeps_ret|exact Hs].
Qed.
Lemma keeps_alloc_exn e : keeps (λ s, code_view s = c) (alloc_exn e).
Proof using.
  intros s r s' Hs. unfold alloc_exn. cbv zeta. destruct (can_fit_limit _ _); [|by intros [= <- <-]].
  apply (keeps_bind (λ s, code_view s = c)); [by apply keeps_zoom_part|intros ?; apply keeps_ret|done].
Qed.
Hint Resolve keeps_convert keeps_convert_any keeps_alloc_exn : keeps.
Lemma keeps_exec_cast op h : keeps I (exec_cast op h).
Proof using HJ. destruct op; cbn [exec_cast]; vm. Qed.
Hint Resolve keeps_exec_cast : keeps.
Lemma keeps_exec_gc_array op h : keeps I (exec_gc_array op h).
Proof using HJ.
  destruct op; cbn [exec_gc_array]; unfold array_new, array_new_fixed, array_new_data, array_new_elem, array_get,
    array_set, array_len_op, array_fill, array_copy, array_init_data, array_init_elem; cbv zeta; vm.
Qed.
Hint Resolve keeps_exec_gc_array : keeps.
Lemma keeps_exec_gc op h : keeps I (exec_gc op h).
Proof using HJ.
  destruct op; cbn [exec_gc]; unfold struct_new, struct_get, struct_set; cbv zeta; vm.
Qed.
Lemma keeps_exec_ref op h : keeps I (exec_ref op h).
Proof using HJ. destruct op; cbn [exec_ref]; vm. Qed.
Hint Resolve keeps_exec_memory keeps_exec_table keeps_exec_gc keeps_exec_ref : keeps.

(** Control. *)
Lemma keeps_branch t : keeps J (branch t).
Proof using HJ. apply keeps_bind; [by apply keeps_take_branch|vm]. Qed.
Hint Resolve keeps_branch : keeps.
Lemma keeps_br_on_cast code h op b : keeps I (br_on_cast code h op b).
Proof using HJ. unfold br_on_cast. vm. by apply keeps_take_branch. Qed.
Lemma keeps_br_table code r : keeps J (br_table code r).
Proof using HJ. unfold br_table. vm. Qed.
Lemma keeps_gc_reserve ch ip : keeps I (gc_reserve ch ip).
Proof using HJ. unfold gc_reserve, gc_collect_now, gc_grant. cbv zeta. vm. Qed.
Lemma keeps_throw_ref : keeps J throw_ref.
Proof using HJ. unfold throw_ref. vm. Qed.
Lemma keeps_do_call_indirect h t tb k : keeps I (do_call_indirect h t tb k).
Proof using HJ. unfold do_call_indirect. vm. Qed.
Lemma keeps_do_call_ref h k : keeps I (do_call_ref h k).
Proof using HJ. unfold do_call_ref. vm. Qed.
Hint Resolve keeps_br_on_cast keeps_br_table keeps_gc_reserve keeps_throw_ref keeps_do_call_indirect keeps_do_call_ref : keeps.
Lemma keeps_throw h t ip : keeps I (throw h t ip).
Proof using HJ. unfold throw. vm. Qed.
Hint Resolve keeps_throw : keeps.

(** Writing a local of the running frame. *)
Context (base : Z) (Hset : ∀ i cell tag, base ≤ i → keeps J (set_cell i cell tag)).
(** The local index of an instruction is a [u32]. *)
Definition op_ok (op : Op) : Prop :=
  match op with OpLocalGet i | OpLocalSet i | OpLocalTee i => 0 ≤ i | _ => True end.
Lemma local_index_base i l : 0 ≤ i → local_index base i = Ok l → base ≤ l.
Proof using. unfold local_index, checked_add. intros ?. case_match; cbn; [|done]. intros [= <-]. lia. Qed.
Lemma keeps_set_local (m : SM Execution (Cell * RefTag)) i : 0 ≤ i → keeps J m →
  keeps J (ct ← m; l ← lift (local_index base i); set_cell l (fst ct) (snd ct)).
Proof using Hset.
  intros Hi Hm. apply keeps_bind; [done|]. intros ct s r s' Hs. rewrite bind_unfold. unfold lift.
  destruct (local_index base i) as [l|e|w] eqn:Hl; [|by intros [= <- <-]..].
  apply Hset; [by eapply local_index_base|done].
Qed.
Lemma keeps_number_or_gc op h :
  keeps I (match exec_numeric op with Some m => on_ex m | None => exec_gc op h end).
Proof using HJ.
  destruct (exec_numeric op) as [m|] eqn:Hm; [|by apply keeps_exec_gc]. apply keeps_on_ex. by eapply keeps_numeric.
Qed.

(** Every instruction keeps the invariant. *)
Lemma keeps_step code op next h : op_ok op → keeps I (step code op next base h).
Proof using HJ Hset.
  intros Hop. destruct op; cbn [step]; cbv zeta; cbn [op_ok] in Hop.
  all: try (vm; done).
  all: apply keeps_bind; [|intros ?; apply keeps_ret].
  all: first [apply keeps_number_or_gc|apply keeps_on_ex, keeps_set_local; [done|vm]].
Qed.
End instructions.
#[export] Hint Resolve keeps_push_index keeps_write_bytes keeps_mem_ea keeps_load keeps_store keeps_set_handle
  keeps_write_body keeps_pop_u32' keeps_pop_anyref keeps_alloc_array keeps_exec_cast keeps_exec_gc_array
  keeps_exec_memory keeps_exec_table keeps_exec_gc keeps_exec_ref keeps_take_branch keeps_branch keeps_br_on_cast
  keeps_br_table keeps_gc_reserve keeps_throw_ref : keeps.

(** ** The calls an instruction asks for *)

(** Immediates are unsigned: what the field widths of the instruction set, the
    functions and the handler tables guarantee. *)
Definition module_ok (m : ModuleInner) : Prop :=
  Forall op_ok (ca_ops (mi_code m)) ∧
  Forall (λ f, 0 ≤ cf_n_params f) (mi_functions m) ∧
  Forall (λ sp, Forall (λ rec, 0 ≤ hr_restore_height rec) (hs_clauses sp)) (ca_handlers (mi_code m)).
Definition outcome_ok (o : StepOutcome) : Prop :=
  match o with SoCall req | SoTailCall req => module_ok (code_module (cr_code req)) | _ => True end.

(** Whatever the method returns satisfies [Q]. *)
Definition yields {S A} (I : S → Prop) (Q : A → Prop) (m : SM S A) : Prop :=
  ∀ s a s', I s → m s = (Ok a, s') → Q a.
Lemma yields_bind {S A B} (I : S → Prop) (Q : B → Prop) (m : SM S A) f :
  keeps I m → (∀ a, yields I Q (f a)) → yields I Q (m ≫= f).
Proof.
  intros Hm Hf s b s' Hs (a & s1 & Ha & Hb)%bind_Ok. eapply Hf; [|exact Hb]. eapply Hm; [exact Hs|exact Ha|done].
Qed.
Lemma yields_post {S A B} (I : S → Prop) (P : A → Prop) (Q : B → Prop) (m : SM S A) f :
  keeps I m → yields I P m → (∀ a, P a → yields I Q (f a)) → yields I Q (m ≫= f).
Proof.
  intros Hm HP Hf s b s' Hs (a & s1 & Ha & Hb)%bind_Ok. eapply Hf; [by eapply HP| |exact Hb]. eapply Hm; [exact Hs|exact Ha|done].
Qed.
Lemma yields_ret {S A} (I : S → Prop) (Q : A → Prop) a : Q a → yields I Q (mret a).
Proof. by intros HQ s b s' _ [= <- _]. Qed.
Lemma yields_fail {S A} (I : S → Prop) (Q : A → Prop) e : yields I Q (fail e).
Proof. by intros s b s' _ [=]. Qed.
Lemma yields_panic {S A} (I : S → Prop) (Q : A → Prop) w : yields I Q (panic w).
Proof. by intros s b s' _ [=]. Qed.

Section outcomes.
Context `{Features, FloatHost, EngineTypes, TypeOrder, EngineFuncs} (J : Execution → Prop) {HJ : StackInv J}
  (c : Z * list ModuleInner) (Hc : Forall module_ok c.2).
Abbreviation I := (vm_inv J c).

Lemma module_of_ok h s m : code_view s = c → module_of h s = Ok m → module_ok m.
Proof using Hc.
  intros Hs. unfold module_of. destruct (store_instance s h) as [i| |] eqn:Hi; intros [= <-].
  unfold store_instance, arena_entity in Hi. apply result_bind_Ok in Hi as (u & _ & Hz).
  destruct (zget _ _) as [x|] eqn:Hx; cbn in Hz; [injection Hz as ->|done].
  rewrite <- Hs in Hc. cbn in Hc. rewrite Forall_fmap, Forall_lookup in Hc. apply (Hc (Z.to_nat (h_index h))).
  unfold zget in Hx. by destruct (0 <=? h_index h).
Qed.
Definition resolved_ok (r : ResolvedCall) : Prop :=
  match r with RcWasm _ _ code => module_ok (code_module code) | _ => True end.
Lemma resolve_ok f s r : code_view s = c → resolve_call f s = Ok r → resolved_ok r.
Proof using Hc.
  intros Hs. unfold resolve_call. intros (e & _ & Hr)%result_bind_Ok.
  destruct e as [di fi|ty sig hi|ty sig hi]; [|by injection Hr as <-..].
  apply result_bind_Ok in Hr as (m & Hm & [= <-]). cbn. by eapply module_of_ok.
Qed.
Lemma call_outcome_ok r h k s o : resolved_ok r → call_outcome r h k s = Ok o → outcome_ok o.
Proof using.
  intros Hr. unfold call_outcome. destruct r as [di fi code|f|f], k; cbn.
  - by intros [= <-].
  - by intros [= <-].
  - by intros [= <-].
  - by intros (n & _ & [= <-])%result_bind_Ok.
  - by intros [= <-].
  - by intros (n & _ & [= <-])%result_bind_Ok.
Qed.

Lemma yields_ask {A} (Q : A → Prop) (f : StoreInner → res A) :
  (∀ s a, code_view s = c → f s = Ok a → Q a) → yields I Q (ask f).
Proof using. intros Hf v a v' [_ Hv]. unfold ask, reads. intros [= Ha _]. by eapply Hf. Qed.
Lemma yields_do_call h f k : yields I outcome_ok (ask (do_call h f k)).
Proof using Hc.
  apply yields_ask. intros s o Hs (r & Hr & Ho)%result_bind_Ok. eapply call_outcome_ok; [|exact Ho]. by eapply resolve_ok.
Qed.
Lemma yields_branch t : yields J outcome_ok (branch t).
Proof using HJ. apply yields_bind; [by apply keeps_take_branch|]. intros. by apply yields_ret. Qed.
Lemma yields_on_ex {A} (Q : A → Prop) (m : SM Execution A) : yields J Q m → yields I Q (on_ex m).
Proof using.
  intros Hm v a v' [Hv _]. unfold on_ex, zoom. destruct (m (vm_ex v)) as [x ex'] eqn:Hr. intros [= -> _]. by eapply Hm.
Qed.
Lemma yields_br_table code r : yields J outcome_ok (br_table code r).
Proof using HJ.
  unfold br_table. repeat (apply yields_bind; [first [apply keeps_lift|by apply keeps_pop_u32']|intros ?]).
  apply yields_branch.
Qed.

Lemma yields_gc_reserve ch ip : yields I (λ o, ∀ x, o = Some x → outcome_ok x) (gc_reserve ch ip).
Proof using HJ.
  unfold gc_reserve. intros v a v' Hv. rewrite get_run. cbv zeta. destruct (fits _ ch); [by intros [= <- _]|].
  intros (b & v1 & _ & Hb)%bind_Ok. destruct b; [by injection Hb as <- _|]. rewrite get_run in Hb. cbv zeta in Hb.
  destruct (is_free_grant _ _).
  - apply bind_Ok in Hb as (u & v2 & _ & Hb). by injection Hb as <- _.
  - injection Hb as <- _. by intros x [= <-].
Qed.

Lemma yields_do_call_indirect h t tb k : yields I outcome_ok (do_call_indirect h t tb k).
Proof using Hc HJ.
  unfold do_call_indirect.
  do 6 (apply yields_bind; [first [apply keeps_ask|apply keeps_lift|apply keeps_on_ex; by apply keeps_pop_index]|intros ?]).
  eapply (yields_post _ resolved_ok); [apply keeps_ask|apply yields_ask; intros s r; apply resolve_ok|intros r Hr].
  apply yields_bind; [|intros _; apply yields_ask; intros s o _; by apply call_outcome_ok].
  destruct r; [|apply keeps_ask..]. do 3 (apply keeps_bind; [first [apply keeps_ask|apply keeps_lift]|intros ?]).
  destruct (engine_is_subtype _ _); [apply keeps_ret|apply keeps_fail].
Qed.
Lemma yields_do_call_ref h k : yields I outcome_ok (do_call_ref h k).
Proof using Hc HJ.
  unfold do_call_ref. do 3 (apply yields_bind; [first [apply keeps_lift|apply keeps_on_ex; by apply keeps_pop_ref]|intros ?]).
  apply yields_do_call.
Qed.
Lemma yields_throw h t ip : yields I outcome_ok (throw h t ip).
Proof using HJ.
  unfold throw. do 4 (apply yields_bind; [first [apply keeps_lift|apply keeps_ask]|intros ?]).
  eapply yields_post; [by apply keeps_gc_reserve|apply yields_gc_reserve|]. intros [o|] Ho; [by apply yields_ret, Ho|].
  apply yields_bind; [apply keeps_on_ex; by apply keeps_pop_params_into|intros ?].
  apply yields_bind; [apply keeps_on_store, keeps_alloc_exn|intros ?]. apply yields_fail.
Qed.

Lemma yields_adv {A} (m : SM Vm A) (next : A → Z) : yields I outcome_ok (m ≫= λ a, mret (SoAdvance (next a))).
Proof using. by intros v o v' _ (a & v1 & _ & [= <- _])%bind_Ok. Qed.

Lemma yields_alloc h op next :
  yields I outcome_ok
    (charge ← reads (gc_alloc_charge h op);
     out ← match charge with Some ch => gc_reserve ch (next - 1) | None => mret None end;
     match out with Some out => mret out | None => exec_gc op h;; mret (SoAdvance next) end).
Proof using HJ.
  apply yields_bind; [apply keeps_reads|intros charge].
  apply (yields_post _ (λ o, ∀ x, o = Some x → outcome_ok x)); [destruct charge; vm| |].
  - destruct charge; [apply yields_gc_reserve|by apply yields_ret].
  - intros [o|] Ho; [by apply yields_ret, Ho|apply (yields_adv _ (λ _, next))].
Qed.

Ltac yield_step :=
  lazymatch goal with
  | |- yields _ _ (mbind (λ _, mret (SoAdvance _)) _) => apply (yields_adv _ (λ _, _))
  | |- yields _ _ (on_ex (mbind _ (modify _))) =>
      apply yields_on_ex, yields_bind; [solve [vm]|intros ?; apply yields_branch]
  | |- yields _ _ (on_ex (branch _)) => apply yields_on_ex, yields_branch
  | |- yields _ _ (on_ex (br_table _ _)) => apply yields_on_ex, yields_br_table
  | |- yields _ _ (ask (do_call _ _ _)) => apply yields_do_call
  | |- yields _ _ (mbind _ _) => apply yields_bind; [solve [vm]|intros ?]
  | |- yields _ _ (mret _) => apply yields_ret; done
  | |- yields _ _ (fail _) => apply yields_fail
  | |- yields _ _ (panic _) => apply yields_panic
  | |- yields _ _ (if ?b then _ else _) => destruct b
  end.

Lemma yields_step code op next base h :
  yields I outcome_ok (step code op next base h).
Proof using Hc HJ.
  destruct op; cbn [step]; cbv zeta.
  all: try apply yields_do_call_indirect.
  all: try apply yields_do_call_ref.
  all: try apply yields_throw.
  all: try apply yields_alloc.
  all: repeat yield_step.
  all: apply (yields_adv _ (default next)).
Qed.
End outcomes.
