(* ===== verification/Run.v ===== *)
(** * Run: the interpreter loop (src/src/exec/mod.rs [run]/[dispatch], gates.rs) and
    the driver (host.rs, epoch.rs, guard.rs)

    The machine is the running [Execution] and the typed store, whose slot parks the
    execution while embedder code runs.  Embedder code (host functions, the epoch
    callback, the limiter) is a parameter: a function from the store it is given to
    an outcome and the store it leaves. *)
From S2P Require Import Prelude Types Layout Codec Arena Heap Op Entity Store Collect Stack Frame Float.
From S2P Require Import Numeric Limits Memory Reserve GcOps Matching Exn Step.
Open Scope Z_scope.

(** The engine's configuration, and what other threads do to its epoch counter and
    collection mailbox, by the number of readings so far. *)
Class EngineConfig := {
  cfg_consume_fuel : bool;
  cfg_epoch_interruption : bool;
  cfg_max_wasm_stack : Z;
  cfg_gc_memory_threshold : bool;
  cfg_async : bool;
  epoch_at : nat → Z;
  gc_request_at : nat → bool;
}.

(** [UpdateDeadline] *)
Inductive UpdateDeadline : Type := UdInterrupt | UdContinue (delta : Z) | UdYield (delta : Z).

(** Embedder code.  A closure sees the typed store (with the execution parked in its
    slot) and the instance that calls it, if any; it may change the store, and returns,
    fails or panics. *)
Class HostCode (L : Type) := {
  host_call : Z → option Handle → list Val → list Val → SM (StoreT L) (list Val);
  epoch_callback : option (SM (StoreT L) UpdateDeadline);
}.

Record Machine (L : Type) : Type := { mc_ex : Execution; mc_store : StoreT L; mc_clock : nat }.
Arguments mc_ex {L}. Arguments mc_store {L}. Arguments mc_clock {L}. Arguments Build_Machine {L}.

Section machine.
Context {L : Type}.
Definition set_mc_ex (ex : Execution) (mc : Machine L) : Machine L :=
  {| mc_ex := ex; mc_store := mc_store mc; mc_clock := mc_clock mc |}.
Definition set_mc_store (st : StoreT L) (mc : Machine L) : Machine L :=
  {| mc_ex := mc_ex mc; mc_store := st; mc_clock := mc_clock mc |}.
Definition tick (mc : Machine L) : Machine L :=
  {| mc_ex := mc_ex mc; mc_store := mc_store mc; mc_clock := S (mc_clock mc) |}.
Definition mc_vm (mc : Machine L) : Vm := {| vm_ex := mc_ex mc; vm_store := st_inner (mc_store mc) |}.
Definition set_mc_vm (v : Vm) (mc : Machine L) : Machine L :=
  set_mc_store (set_st_inner (vm_store v) (mc_store mc)) (set_mc_ex (vm_ex v) mc).

Definition on_vm {A} (m : SM Vm A) : SM (Machine L) A := zoom mc_vm set_mc_vm m.
Definition on_exec {A} (m : SM Execution A) : SM (Machine L) A := zoom mc_ex set_mc_ex m.
Definition on_typed {A} (m : SM (StoreT L) A) : SM (Machine L) A := zoom mc_store set_mc_store m.
Definition on_si {A} (m : SM StoreInner A) : SM (Machine L) A := on_typed (on_inner m).
Definition ask_si {A} (f : StoreInner → res A) : SM (Machine L) A := reads (λ mc, f (st_inner (mc_store mc))).

(** [swap_exec]: exchange the execution with the slot. *)
Definition swap_exec : SM (Machine L) () :=
  modify (λ mc, set_mc_store (set_st_exec_slot (mc_ex mc) (mc_store mc)) (set_mc_ex (st_exec_slot (mc_store mc)) mc)).
End machine.

Section run.
Context `{Features, FloatHost, EngineTypes, TypeOrder, EngineFuncs, FrameSize, HostAlloc, EngineConfig}
  {L : Type} `{ResourceLimiter L, HostCode L}.
Implicit Types mc : Machine L.

(** ** Containing embedder panics (guard.rs) *)
Definition restore_after_panic (roots_mark : Z) (pending : option Rooted) (generation : Z) : StoreT L → StoreT L := λ st,
  let s0 := set_si_internal_error None (st_inner st) in
  let '(r, exec) := discard_current_call (st_exec_slot st) in
  let '(s1, slot) :=
    match r with
    | Ok (_, stop_depth) => (s0, if stop_depth =? 0 then execution_default else exec)
    | Err (EInternal e) => (latch_internal_error e s0, execution_default)
    | _ => (s0, execution_default)
    end in
  set_st_exec_slot slot
    (set_st_inner (restore_pending_exception pending generation (gc_roots_truncate roots_mark s1)) st).

(** ** Host calls (host.rs) *)
Definition root_ref_param (v : Val) : StoreInner → StoreInner :=
  match v with
  | VAnyRef (Some r) => push_gc_root (r_index r) RkAny
  | VExternRef (Some r) => push_gc_root (r_index r) RkExtern
  | VExnRef (Some r) => push_gc_root (r_index r) RkExn
  | _ => id
  end.
Definition root_ref_params (params : list Val) (s : StoreInner) : StoreInner :=
  foldl (λ s v, root_ref_param v s) s params.

Record HostCallState : Type := {
  hc_params : list Val; hc_results : list Val; hc_roots_mark : Z; hc_pending : option Rooted;
  hc_pending_generation : Z; hc_host_index : Z; hc_sig : HostSig;
}.

(** The pending exception stays a root while embedder code runs. *)
Definition root_pending (s : StoreInner) : StoreInner :=
  match si_pending_exception s with Some e => push_gc_root (r_index e) RkExn s | None => s end.

Definition prepare_host_call (host_index : Z) (sig : HostSig) : SM (Machine L) HostCallState :=
  params ← on_exec (pop_params_into (hsig_params sig) []);
  s ← ask_si (λ s, Ok s);
  on_si (modify root_pending);;
  on_si (modify (root_ref_params params));;
  mret {| hc_params := params; hc_results := hsig_defaults sig; hc_roots_mark := gc_roots_mark s;
          hc_pending := si_pending_exception s; hc_pending_generation := si_pending_exception_generation s;
          hc_host_index := host_index; hc_sig := sig |}.

Definition prep_host (f : Func) : SM (Machine L) HostCallState :=
  e ← ask_si (λ s, store_func s f);
  match e with
  | FeHost _ sig host_index => prepare_host_call host_index sig
  | _ => panic "HostCall only suspends on sync host funcs"
  end.

Definition discard_host_call (hc : HostCallState) : SM (Machine L) () :=
  on_si (modify (gc_roots_truncate (hc_roots_mark hc))).
Definition restore_pending (hc : HostCallState) : SM (Machine L) () :=
  on_si (modify (restore_pending_exception (hc_pending hc) (hc_pending_generation hc))).

Definition raise_on (exn : Rooted) (stop_depth : Z) : SM (Machine L) () :=
  s ← ask_si (λ s, Ok s); on_exec (raise_host_exception s exn stop_depth).

Definition finish_host_call (hc : HostCallState) (outcome : result error (list Val)) (stop_depth : Z) : SM (Machine L) () :=
  match outcome with
  | Err error =>
      s ← ask_si (λ s, Ok s);
      if bool_decide (error = EThrown) && negb (si_pending_exception_generation s =? hc_pending_generation hc) then
        exn ← on_si (λ s, let '(e, s') := take_pending_exception s in (Ok e, s'));
        match exn with
        | None => restore_pending hc;; discard_host_call hc;; fail (shape_err "host throw marker had no pending exception")
        | Some exn => discard_host_call hc;; restore_pending hc;; raise_on exn stop_depth
        end
      else discard_host_call hc;; fail error
  | Ok results =>
      s ← ask_si (λ s, Ok s);
      match ensure_values_match s results (hsig_results (hc_sig hc)) "function attempted to return an incompatible value" with
      | Err error => restore_pending hc;; discard_host_call hc;; fail error
      | Panic w => panic w
      | Ok _ => on_exec (push_results_slice results);; discard_host_call hc
      end
  | Panic w => panic w
  end.

(** [catch_host(|| f)] with the execution parked; a panic restores and re-raises. *)
Definition with_parked {A} (roots_mark : Z) (pending : option Rooted) (generation : Z)
    (f : SM (StoreT L) A) : SM (Machine L) (result error A) := λ mc,
  match f (mc_store (snd (swap_exec mc))) with
  | (Panic w, st) =>
      (Panic w, set_mc_store (restore_after_panic roots_mark pending generation st) (snd (swap_exec mc)))
  | (r, st) => (Ok r, snd (swap_exec (set_mc_store st (snd (swap_exec mc)))))
  end.

Definition invoke_host (f : Func) (instance : Handle) (stop_depth : Z) : SM (Machine L) () :=
  hc ← prep_host f;
  result ← with_parked (hc_roots_mark hc) (hc_pending hc) (hc_pending_generation hc)
             (host_call (hc_host_index hc) (Some instance) (hc_params hc) (hc_results hc));
  err ← on_si (λ s, let '(e, s') := take_internal_error s in (Ok e, s'));
  match err with
  | Some error => restore_pending hc;; discard_host_call hc;; fail error
  | None => finish_host_call hc result stop_depth
  end.

Definition with_parked_host_operation {A} (operation : SM (StoreT L) A) : SM (Machine L) A :=
  s ← ask_si (λ s, Ok s);
  on_si (modify root_pending);;
  r ← with_parked (gc_roots_mark s) (si_pending_exception s) (si_pending_exception_generation s) operation;
  on_si (modify (gc_roots_truncate (gc_roots_mark s)));;
  lift r.

(** [old.unwrap_or(u64::MAX)]: -1 in either width. *)
Definition do_grow (memory : Handle) (delta : Z) : SM (Machine L) () :=
  e ← ask_si (λ s, store_memory s memory);
  old ← with_parked_host_operation (grow_memory memory delta);
  on_exec (push_index (mt_memory64 (me_ty e)) (default (u_max 64) old)).
Definition do_grow_table (table : Handle) (delta : Z) (init : Ref) : SM (Machine L) () :=
  e ← ask_si (λ s, store_table s table);
  old ← with_parked_host_operation (grow_table table delta init);
  on_exec (push_index (tt_table64 (te_ty e)) (default (u_max 64) old)).
Definition do_grow_gc (target bytes_needed : Z) : SM (Machine L) () :=
  with_parked_host_operation (grow_gc_reservation target bytes_needed).

(** ** Gates (gates.rs) *)
Definition service_gates (fuel epoch : bool) (ip : Z) : SM (Machine L) (option Outcome) :=
  out ← (if fuel then
           step ← on_si (λ s, let '(k, s') := consume_fuel_step s in (Ok k, s'));
           match step with
           | FuelRan => mret None
           | FuelExhausted => fail (ETrap OutOfFuel)
           | FuelNeedYield =>
               if cfg_async then on_exec (set_top_ip (frame_err "missing frame at fuel yield") ip);; mret (Some OcFuelYield)
               else fail (ETrap OutOfFuel)
           end
         else mret None);
  match out with
  | Some o => mret (Some o)
  | None =>
      if epoch then
        mc ← get;
        modify tick;;
        if epoch_deadline_reached (epoch_at (mc_clock mc)) (st_inner (mc_store mc))
        then on_exec (set_top_ip (frame_err "missing frame at epoch deadline") ip);; mret (Some OcEpochDeadline)
        else mret None
      else mret None
  end.

Definition service_gc_pressure : SM (Machine L) () :=
  mc ← get;
  if footprint_over_floor (si_gc (st_inner (mc_store mc))) then
    modify tick;;
    if gc_request_at (mc_clock mc) then on_vm gc_collect_now else mret tt
  else mret tt.

(** ** The loop (mod.rs) *)
Record Cursor : Type := { cu_code : Code; cu_func : CompiledFunc; cu_ip : Z; cu_base : Z; cu_instance : Handle }.
Definition top_cursor : SM (Machine L) Cursor :=
  '(code, func, ip, base, instance) ← on_exec (reads top);
  mret {| cu_code := code; cu_func := func; cu_ip := ip; cu_base := base; cu_instance := instance |}.
Definition at_ip (c : Cursor) (ip : Z) : Cursor :=
  {| cu_code := cu_code c; cu_func := cu_func c; cu_ip := ip; cu_base := cu_base c; cu_instance := cu_instance c |}.

(** Every [GC_CHECK_INTERVAL] guest calls, honour the collection mailbox. *)
Definition gc_tick (gc_watch : bool) (countdown : Z) : SM (Machine L) Z :=
  if gc_watch then
    if countdown - 1 =? 0 then service_gc_pressure;; mret GC_CHECK_INTERVAL else mret (countdown - 1)
  else mret countdown.

(** What one turn of the loop leaves: the next turn's cursor and countdown, or the
    outcome the loop returns. *)
Inductive Turn : Type := TurnGo (c : Cursor) (countdown : Z) | TurnDone (o : Outcome).

Definition return_to (ip : Z) : SM (Machine L) () := on_exec (set_top_ip (frame_err "missing caller frame") ip).

(** After a host call: finished when it emptied this segment, else resume on top. *)
Definition after_host (stop_depth countdown : Z) : SM (Machine L) Turn :=
  mc ← get;
  if zlen (ex_frames (mc_ex mc)) =? stop_depth then mret (TurnDone OcFinished)
  else c ← top_cursor; mret (TurnGo c countdown).

Definition do_outcome (stop_depth countdown : Z) (gc_watch : bool) (c : Cursor) (o : StepOutcome) : SM (Machine L) Turn :=
  match o with
  | SoAdvance next => mret (TurnGo (at_ip c next) countdown)
  | SoCall req =>
      n ← on_exec (reads stack_bytes);
      if cfg_max_wasm_stack <=? n then fail (ETrap StackOverflow) else
      return_to (cr_return_ip req);;
      on_exec (push_call (cr_instance req) (cr_func_index req) (cr_code req));;
      c' ← top_cursor;
      k ← gc_tick gc_watch countdown;
      mret (TurnGo c' k)
  | SoTailCall req =>
      n ← lift (code_n_params (cr_code req));
      on_exec (do_return n stop_depth true);;
      on_exec (push_call (cr_instance req) (cr_func_index req) (cr_code req));;
      c' ← top_cursor;
      k ← gc_tick gc_watch countdown;
      mret (TurnGo c' k)
  | SoTailHostCall f instance n_params =>
      on_exec (do_return n_params stop_depth true);; invoke_host f instance stop_depth;; after_host stop_depth countdown
  | SoTailHostAsyncCall f instance n_params =>
      on_exec (do_return n_params stop_depth true);; mret (TurnDone (OcHostAsync f instance))
  | SoHostCall f instance return_ip =>
      return_to return_ip;; invoke_host f instance stop_depth;; after_host stop_depth countdown
  | SoHostAsyncCall f instance return_ip => return_to return_ip;; mret (TurnDone (OcHostAsync f instance))
  | SoGrow memory delta return_ip => return_to return_ip;; mret (TurnDone (OcGrow memory delta))
  | SoTableGrow table delta init return_ip => return_to return_ip;; mret (TurnDone (OcTableGrow table delta init))
  | SoGcGrow target bytes return_ip => return_to return_ip;; mret (TurnDone (OcGcGrow target bytes))
  end.

(** The error path of a step: unwind, then resume at the handler. *)
Definition handle_error (stop_depth countdown ip : Z) (e : error) : SM (Machine L) Turn :=
  s ← ask_si (λ s, Ok s);
  on_exec (unwind s e ip stop_depth);;
  c ← top_cursor; mret (TurnGo c countdown).

(** One instruction and what it asks for; an error goes to the handlers. *)
Definition instruction (stop_depth : Z) (gc_watch : bool) (c : Cursor) (countdown : Z) (op : Op) : SM (Machine L) Turn := λ mc,
  match on_vm (step (cu_code c) op (cu_ip c + 1) (cu_base c) (cu_instance c)) mc with
  | (Err e, mc') => handle_error stop_depth countdown (cu_ip c) e mc'
  | (Ok o, mc') => do_outcome stop_depth countdown gc_watch c o mc'
  | (Panic w, mc') => (Panic w, mc')
  end.

(** One turn of the two-level loop. *)
Definition turn (stop_depth : Z) (fuel epoch gc_watch : bool) (c : Cursor) (countdown : Z) : SM (Machine L) Turn :=
  ops ← lift (code_ops_of (cu_code c) (cu_func c));
  match zget ops (cu_ip c) with
  | None =>
      finished ← on_exec (do_return (cf_n_results (cu_func c)) stop_depth false);
      if (finished : bool) then mret (TurnDone OcFinished)
      else c' ← top_cursor; mret (TurnGo c' countdown)
  | Some op =>
      out ← (if fuel || epoch then service_gates fuel epoch (cu_ip c) else mret None);
      match out with
      | Some o => mret (TurnDone o)
      | None => instruction stop_depth gc_watch c countdown op
      end
  end.

(** Go on after a method that returned; its failure or panic is the loop's. *)
Definition and_then {A B} (x : res A * Machine L) (f : A → Machine L → option (res B * Machine L))
    : option (res B * Machine L) :=
  match x with
  | (Ok a, mc) => f a mc
  | (Err e, mc) => Some (Err e, mc)
  | (Panic w, mc) => Some (Panic w, mc)
  end.

(** The loop, for at most [n] turns; [None] is running out of turns. *)
Fixpoint dispatch_loop (n : nat) (stop_depth : Z) (fuel epoch gc_watch : bool) (c : Cursor) (countdown : Z) mc
    : option (res Outcome * Machine L) :=
  match n with
  | O => None
  | S n' =>
      and_then (turn stop_depth fuel epoch gc_watch c countdown mc) (λ t mc',
        match t with
        | TurnDone o => Some (Ok o, mc')
        | TurnGo c' k => dispatch_loop n' stop_depth fuel epoch gc_watch c' k mc'
        end)
  end.

Definition dispatch (n : nat) (stop_depth : Z) (fuel epoch : bool) mc : option (res Outcome * Machine L) :=
  let gc_watch := gc_collecting (si_gc (st_inner (mc_store mc))) && cfg_gc_memory_threshold in
  and_then (top_cursor mc) (λ c, dispatch_loop n stop_depth fuel epoch gc_watch c GC_CHECK_INTERVAL).

Definition run (n : nat) (stop_depth : Z) mc : option (res Outcome * Machine L) :=
  if zlen (ex_frames (mc_ex mc)) =? stop_depth then Some (Ok OcFinished, mc) else
  and_then (on_exec (reads stack_bytes) mc) (λ bytes mc,
    if cfg_max_wasm_stack <=? bytes then Some (Err (ETrap StackOverflow), mc)
    else dispatch n stop_depth cfg_consume_fuel cfg_epoch_interruption mc).
End run.
