(* ===== verification/Drive.v ===== *)
(** * Drive: entering, driving and finishing a call (src/src/exec/host.rs, epoch.rs)

    [execute] takes the shared execution from the store's slot, pushes a boundary and
    the entry frame, services every suspension of the loop, and gives the stacks back
    as they were.  A host function that calls back into wasm runs the same [execute]
    on the parked execution. *)
From S2P Require Import Prelude Types Layout Codec Arena Heap Op Entity Store Collect Stack Frame Float.
From S2P Require Import Numeric Limits Memory Reserve GcOps Matching Exn Step Run.
Open Scope Z_scope.

(** The value of [discard_to]'s boundary and where [run] stops. *)
Record Boundary : Type := { b_value_base : Z; b_stop_depth : Z; b_run_stop : Z }.

Section drive.
Context `{Features, FloatHost, EngineTypes, TypeOrder, EngineFuncs, FrameSize, HostAlloc, EngineConfig}
  {L : Type} `{ResourceLimiter L, HostCode L}.
Implicit Types st : StoreT L.

(** ** Epoch deadlines (epoch.rs) *)
Definition take_epoch_action : SM (Machine L) UpdateDeadline :=
  match epoch_callback with
  | None => mret UdInterrupt
  | Some f =>
      s ← ask_si (λ s, Ok s);
      on_si (modify root_pending);;
      r ← with_parked (gc_roots_mark s) (si_pending_exception s) (si_pending_exception_generation s) f;
      on_si (modify (gc_roots_truncate (gc_roots_mark s)));;
      err ← on_si (λ s, let '(e, s') := take_internal_error s in (Ok e, s'));
      match err with
      | Some error =>
          on_si (modify (restore_pending_exception (si_pending_exception s) (si_pending_exception_generation s)));;
          fail error
      | None => lift r
      end
  end.

Definition extend_epoch_deadline (delta : Z) : SM (Machine L) () :=
  mc ← get;
  modify tick;;
  on_si (modify (set_epoch_deadline (saturating_add 64 (epoch_at (mc_clock mc)) delta))).

Definition apply_epoch_deadline : SM (Machine L) () :=
  action ← take_epoch_action;
  match action with
  | UdInterrupt => fail (ETrap Interrupt)
  | UdContinue delta => extend_epoch_deadline delta
  | UdYield _ => fail (ETrap Interrupt)
  end.

(** ** The driver *)
Fixpoint drive (n : nat) (run_stop : Z) (mc : Machine L) : option (res () * Machine L) :=
  match n with
  | O => None
  | S n' =>
      let again (m : SM (Machine L) ()) mc := and_then (m mc) (λ _, drive n' run_stop) in
      run n run_stop mc ≫= λ x, and_then x (λ o,
        match o with
        | OcFinished => λ mc, Some (Ok tt, mc)
        | OcHostAsync _ _ => λ mc, Some (Err (EMsg "async host function called from a synchronous context"), mc)
        | OcFuelYield => λ mc, Some (Err (EMsg "fuel yield requires an async store"), mc)
        | OcEpochDeadline => again apply_epoch_deadline
        | OcGrow memory delta => again (do_grow memory delta)
        | OcTableGrow table delta init => again (do_grow_table table delta init)
        | OcGcGrow target bytes => again (do_grow_gc target bytes)
        end)
  end.

(** ** Results *)
Definition internal_or (why : InternalError) (e : error) : error :=
  match e with EInternal i => EInternal i | _ => EInternal why end.

(** Root the results one by one, stopping at the first that fails. *)
Fixpoint root_results (values : list Val) : SM StoreInner (list Val) :=
  match values with
  | [] => mret []
  | v :: rest =>
      x ← (λ s, match root_host_result v s with
                | (Err e, s') => (Err (internal_or (GcMetadata "execution result referenced invalid GC state") e), s')
                | r => r
                end);
      xs ← root_results rest; mret (x :: xs)
  end.

Definition decode_results (result_tys : list ValType) (cells : list Cell) : SM StoreInner (list Val) :=
  if negb (zlen result_tys =? zlen cells) then fail (shape_err "wrong number of execution results") else
  decoded ← lift (decode_all cells result_tys);
  s ← get;
  match ensure_values_match s decoded result_tys "execution attempted to return an incompatible value" with
  | Err error => fail (internal_or (ResultShape "execution returned an invalid or dangling value") error)
  | Panic w => panic w
  | Ok _ => on_err (root_results decoded) (gc_roots_truncate (gc_roots_mark s))
  end.

(** ** Entering and finishing *)
Definition has_parked_execution (st : StoreT L) : bool := negb (execution_is_empty (st_exec_slot st)).

Definition enter (instance : Handle) (func_index : Z) (code : Code) (args : list Val)
    : SM (StoreT L) (Execution * Boundary) :=
  st ← get;
  error ← (if has_parked_execution st then mret (EInternal <$> si_internal_error (st_inner st))
           else on_inner (λ s, let '(e, s') := take_internal_error s in (Ok e, s')));
  match error with
  | Some e => fail e
  | None =>
      let exec := st_exec_slot st in
      modify (set_st_exec_slot execution_default);;
      let value_base := zlen (ex_values exec) in
      let stop_depth := zlen (ex_frames exec) in
      let delim := if stop_depth =? 0 then TopLevel else HostReentry in
      match enter_call delim instance func_index code args exec with
      | (Ok _, exec') =>
          run_stop ← lift (ok_or (checked_add 64 stop_depth 1) (frame_err "execution boundary depth overflow"));
          mret (exec', {| b_value_base := value_base; b_stop_depth := stop_depth; b_run_stop := run_stop |})
      | (Err error, exec') =>
          (if stop_depth =? 0 then mret tt else modify (set_st_exec_slot exec'));; fail error
      | (Panic w, _) => panic w
      end
  end.

(** What a call leaves: the execution with its boundary gone, and its result. *)
Definition close (exec : Execution) (b : Boundary) (result_tys : list ValType) (outcome : result error ())
    : StoreInner → result error (list Val) * Execution * StoreInner := λ s,
  let discard exec err := match discard_to (b_value_base b) (b_stop_depth b) exec with
                     | (Ok _, exec') => let '(e, s') := err s in (Err e, exec', s')
                     | (Err cleanup, exec') => (Err cleanup, exec', s)
                     | (Panic w, exec') => (Panic w, exec', s)
                     end in
  match outcome with
  | Ok _ =>
      match take_results (b_value_base b) (b_stop_depth b) result_tys exec with
      | (Ok cells, exec') => let '(r, s') := decode_results result_tys cells s in (r, exec', s')
      | (Err error, exec') => discard exec' (λ s, (error, s))
      | (Panic w, exec') => (Panic w, exec', s)
      end
  | Err e => discard exec (surface_exception e)
  | Panic w => (Panic w, exec, s)
  end.

Definition finish (exec : Execution) (b : Boundary) (result_tys : list ValType) (outcome : result error ())
    : SM (StoreT L) (list Val) := λ st,
  let '(result, exec', s') := close exec b result_tys outcome (st_inner st) in
  let st' := set_st_inner s' st in
  if b_stop_depth b =? 0 then (result, st')
  else
    let st1 := match result with
               | Err (EInternal e) => set_st_inner (latch_internal_error e (st_inner st')) st'
               | _ => st'
               end in
    (result, set_st_exec_slot exec' st1).

(** [None]: [n] turns were not enough. *)
Definition execute (n clock : nat) (instance : Handle) (func_index : Z) (code : Code) (args : list Val)
    (result_tys : list ValType) st : option (res (list Val) * StoreT L) :=
  match enter instance func_index code args st with
  | (Ok (exec, b), st1) =>
      '(outcome, mc) ← drive n (b_run_stop b) {| mc_ex := exec; mc_store := st1; mc_clock := clock |};
      Some match outcome with
           | Panic w => (Panic w, mc_store mc)
           | _ => finish (mc_ex mc) b result_tys outcome (mc_store mc)
           end
  | (Err e, st1) => Some (Err e, st1)
  | (Panic w, st1) => Some (Panic w, st1)
  end.
End drive.

(** ** A concrete program

    Function 0 is imported from the host; [main] (1) calls it on 20 and adds one;
    [double] (2) doubles its parameter; [spin] (3) loops forever.  The host function is
    itself a call of [double] in the same store. *)
Definition demo_ops : list Op :=
  [OpI32Const 20; OpCall 0; OpI32Const 1; OpI32Add; OpLocalGet 0; OpLocalGet 0; OpI32Add;
   OpBr {| bt_ip := 0; bt_keep := 0; bt_pop := 0 |}].
Definition demo_func (start len type_idx n_params n_results : Z) : CompiledFunc :=
  {| cf_ops := {| sp_start := start; sp_len := len |}; cf_type_idx := type_idx; cf_n_params := n_params;
     cf_n_results := n_results; cf_local_types := span0; cf_max_operands := 4; cf_handlers := span0;
     cf_br_tables := span0; cf_big_memargs := span0; cf_offsets := span0 |}.
Definition demo_module : ModuleInner :=
  {| mi_types := []; mi_func_types := [0; 1; 0; 2]; mi_num_imported_funcs := 1;
     mi_functions := [demo_func 0 4 1 0 1; demo_func 4 3 0 1 1; demo_func 7 1 2 0 0];
     mi_code := {| ca_ops := demo_ops; ca_local_types := []; ca_handlers := []; ca_br_tables := []; ca_big_memargs := [];
                   ca_offsets := [] |};
     mi_imports := []; mi_exports := []; mi_memories := []; mi_tables := []; mi_globals := []; mi_tags := [];
     mi_num_imported_tags := 0; mi_datas := []; mi_elems := []; mi_start := None; mi_type_ids := [0; 1; 2];
     mi_layouts := [] |}.
Definition demo_instance : Handle := {| h_index := 0; h_store := 1 |}.
Definition demo_func_ref (i : Z) : Func := {| fn_index := i; fn_store := 1 |}.
Definition demo_inner : StoreInner :=
  set_si_instances [{| ie_module := demo_module; ie_funcs := demo_func_ref <$> [0; 1; 2; 3]; ie_memories := []; ie_globals := [];
                       ie_tables := []; ie_tags := []; ie_dropped_data := []; ie_elems := [] |}]
    (set_si_funcs [FeHost 0 (host_sig_new [TI32] [TI32]) 0; FeWasm demo_instance 1; FeWasm demo_instance 2; FeWasm demo_instance 3]
       (set_si_fuel 30 (store_new 1 true 0))).
Definition demo_store : StoreT StoreLimits :=
  {| st_inner := demo_inner; st_exec_slot := execution_default; st_limiter := None; st_data := store_limits_default |}.
Definition demo_code (i : Z) : Code := module_code demo_module i.

#[local] Instance demo_features : Features := lean_features.
#[local] Instance demo_floats : FloatHost := canonical_host.
#[local] Instance demo_types : EngineTypes := witness_types.
#[local] Instance demo_order : TypeOrder := {| engine_is_subtype := Z.eqb |}.
#[local] Instance demo_funcs : EngineFuncs :=
  {| func_signature := λ i, nth_error [([TI32], [TI32]); ([], [TI32]); ([], [])] (Z.to_nat i) |}.
#[local] Instance demo_frame_size : FrameSize := {| frame_size := 96 |}.
#[local] Instance demo_alloc : HostAlloc := {| reserve_bytes := λ _, true; reserve_elems := λ _, true |}.
Definition demo_config (fuel : bool) : EngineConfig :=
  {| cfg_consume_fuel := fuel; cfg_epoch_interruption := false; cfg_max_wasm_stack := 2 ^ 19; cfg_gc_memory_threshold := false;
     cfg_async := false; epoch_at := λ _, 0; gc_request_at := λ _, false |}.

(** Embedder code that refuses, and embedder code that calls back into wasm. *)
Definition mute_host : HostCode StoreLimits :=
  {| host_call := λ _ _ _ _, fail (EMsg "no host function"); epoch_callback := None |}.
Definition reentrant_host (fuel : bool) : HostCode StoreLimits :=
  {| host_call := λ _ _ params _ st,
       match @execute _ _ _ _ _ _ _ (demo_config fuel) _ _ mute_host 40 0 demo_instance 2 (demo_code 2) params [TI32] st with
       | Some x => x
       | None => (Panic "out of turns", st)
       end;
     epoch_callback := None |}.
Abbreviation demo_main fuel n i :=
  (@execute demo_features demo_floats demo_types demo_order demo_funcs demo_frame_size demo_alloc (demo_config fuel) StoreLimits
     StoreLimits_limiter (reentrant_host fuel) n 0%nat demo_instance i (demo_code i) [] [TI32] demo_store).

Example demo_main_runs : fst <$> demo_main true 40 1 = Some (Ok [VI32 41]).
Proof. vm_compute. reflexivity. Qed.
Example demo_spin_stops : fst <$> demo_main true 62 3 = Some (Err (ETrap OutOfFuel)).
Proof. vm_compute. reflexivity. Qed.
Example demo_spin_needs_fuel : demo_main false 62 3 = None.
Proof. vm_compute. reflexivity. Qed.
