(* ===== verification/Isolation.v ===== *)
(** * Isolation: a call leaves the parked outer call alone

    While the interpreter runs above a call boundary, nothing it does (operand
    traffic, locals, calls, returns, unwinding, host calls that re-enter) touches the
    operands, frames and re-entry depth below that boundary.  [execute] therefore
    gives the store's execution slot back exactly as it found it, whatever the
    outcome, provided embedder code does the same; and [execute] is itself such
    embedder code, so re-entrant hosts qualify. *)
From S2P Require Import Prelude Keep Types Layout Codec Arena Heap Op Entity Store Collect Stack Frame Float.
From S2P Require Import Numeric Limits Memory Reserve GcOps Matching Exn Step StackInv Run Drive.
Open Scope Z_scope.

(** A frame of the running call, above the boundary. *)
Definition guest_frame (f : Frame) : Prop := fr_delimiter f = None ∧ module_ok (code_module (fr_code f)).

(** The frames above the boundary [base], innermost last. *)
Definition stack_ok (base : Z) (fs : list Frame) : Prop := nested base fs ∧ Forall guest_frame fs.

Lemma ztake_app_le {A} n (l k : list A) : n ≤ zlen l → ztake n (l ++ k) = ztake n l.
Proof. unfold ztake, zlen. intros. rewrite take_app_le; [done|lia]. Qed.
Lemma ztake_insert {A} n i (x : A) l : n ≤ i → ztake n (<[Z.to_nat i := x]> l) = ztake n l.
Proof. unfold ztake. intros. rewrite take_insert_ge; [done|lia]. Qed.
Lemma top_floor_ge base fs : nested base fs → base ≤ top_floor base fs.
Proof.
  revert base. induction fs as [|f fs IH]; intros base; [done|]. cbn [nested]. intros [? Hn%IH].
  assert (top_floor base (f :: fs) = top_floor (fr_operand_base f) fs) as ->; [|lia].
  unfold top_floor. rewrite last_cons. by destruct (last fs).
Qed.

(** ** Executions above a boundary *)
Section above.
Context `{Features} (ex0 : Execution) (d : Frame) (depth : Z).
Abbreviation base := (zlen (ex_values ex0)).
Context (Hd : fr_operand_base d = base).

(** The outer call [ex0] and its boundary [d] are below the running frames [fs]. *)
Record inside (fs : list Frame) (ex : Execution) : Prop := {
  in_values : ztake base (ex_values ex) = ex_values ex0;
  in_shadow : ztake base (ex_shadow ex) = ex_shadow ex0;
  in_lockstep : lockstep ex;
  in_floor : top_floor base fs ≤ zlen (ex_values ex);
  in_frames : ex_frames ex = ex_frames ex0 ++ d :: fs;
  in_depth : ex_host_reentry_depth ex = depth;
}.

Lemma last_above fs : ∃ f, last (ex_frames ex0 ++ d :: fs) = Some f ∧ fr_operand_base f = top_floor base fs.
Proof using Hd.
  unfold top_floor. destruct fs as [|f fs _] using rev_ind.
  - exists d. by rewrite last_snoc.
  - exists f. rewrite app_comm_cons, app_assoc, !last_snoc. done.
Qed.

Section fixed.
Context (fs : list Frame) (Hn : nested base fs).

Lemma ensure_above k ex b : inside fs ex → 0 ≤ k → ensure_operands k ex = Ok b →
  b = zlen (ex_values ex) - k ∧ top_floor base fs ≤ b ∧ base ≤ b ≤ zlen (ex_values ex).
Proof using Hd Hn.
  intros [Hv Hs Hl Hf Hfr Hdp] Hk. unfold ensure_operands, operand_floor. destruct (negb _); [done|].
  destruct (last_above fs) as (f & Hlast & Hb). rewrite Hfr, Hlast. cbn [ok_or mbind result_bind].
  unfold checked_sub. destruct (Z.leb_spec (fr_operand_base f) (zlen (ex_values ex))); cbn [ok_or mbind result_bind]; [|done].
  destruct (Z.ltb_spec (zlen (ex_values ex) - fr_operand_base f) k); [done|]. intros [= <-].
  pose proof (top_floor_ge _ _ Hn). lia.
Qed.

Lemma inside_truncate b ex : inside fs ex → top_floor base fs ≤ b ≤ zlen (ex_values ex) → inside fs (stack_truncate b ex).
Proof using Hn.
  intros [Hv Hs Hl Hf Hfr Hdp] Hb. pose proof (top_floor_ge _ _ Hn). unfold lockstep in Hl.
  pose proof (zlen_nonneg (ex_values ex0)).
  split; cbn -[ztake zlen]; rewrite ?ztake_ztake by lia; try done.
  - unfold lockstep. cbn -[ztake zlen]. rewrite !zlen_take by lia. done.
  - rewrite zlen_take by lia. lia.
Qed.
Lemma inside_push cell tag ex : inside fs ex → inside fs (push_cell cell tag ex).
Proof using Hn.
  intros [Hv Hs Hl Hf Hfr Hdp]. pose proof (top_floor_ge _ _ Hn). unfold lockstep in Hl.
  split; cbn -[ztake zlen]; rewrite ?ztake_app_le by lia; try done.
  - unfold lockstep. cbn -[zlen]. by rewrite !zlen_app, Hl.
  - rewrite zlen_app. pose proof (zlen_nonneg [cell]). lia.
Qed.
Lemma inside_values i cell vs ex : inside fs ex → base ≤ i → zset (ex_values ex) i cell = Some vs →
  inside fs (set_ex_values vs ex).
Proof using.
  intros [Hv Hs Hl Hf Hfr Hdp] Hi [_ ->]%zset_Some.
  split; cbn -[ztake zlen]; rewrite ?ztake_insert, ?zlen_insert by lia; try done.
  unfold lockstep. cbn -[zlen]. by rewrite zlen_insert.
Qed.
Lemma inside_slide src n dst r ex ex' : inside fs ex → top_floor base fs ≤ dst → dst ≤ src →
  slide_down src n dst ex = (r, ex') → no_panic r → inside fs ex'.
Proof using Hn.
  intros [Hv Hs Hl Hf Hfr Hdp] Hdst Hsrc Hrun Hp. pose proof (top_floor_ge _ _ Hn). pose proof (zlen_nonneg (ex_values ex0)).
  destruct (slide_down_in_range _ _ _ _ _ _ Hrun Hp) as (? & ? & Hb & ? & ?). unfold lockstep in Hl.
  unfold slide_down, zcopy_within in Hrun. rewrite !zslice_is_Some in Hrun by lia.
  set (cv := ztake _ (zdrop src (ex_values ex))) in Hrun. set (cs := ztake _ (zdrop src (ex_shadow ex))) in Hrun.
  assert (zlen cv = n ∧ zlen cs = n) as [Hcv Hcs].
  { unfold cv, cs. rewrite !zlen_take by (rewrite zlen_drop; lia). lia. }
  destruct (zsplice (ex_values ex) dst cv) as [vs|] eqn:Hzv; [|injection Hrun as <- <-; by destruct (Hp _ eq_refl)].
  destruct (zsplice (ex_shadow ex) dst cs) as [ss|] eqn:Hzs; [|injection Hrun as <- <-; by destruct (Hp _ eq_refl)].
  injection Hrun as _ <-. pose proof (zlen_splice _ _ _ _ Hzv). pose proof (zlen_splice _ _ _ _ Hzs).
  apply zsplice_Some in Hzv as (_ & _ & ->), Hzs as (_ & _ & ->).
  split; cbn -[ztake zlen]; rewrite ?ztake_ztake, ?ztake_app_le, ?ztake_ztake by (rewrite ?zlen_take; lia); try done.
  - unfold lockstep. cbn -[ztake zlen]. rewrite !zlen_take by lia. done.
  - rewrite zlen_take by lia. lia.
Qed.

#[export] Instance stack_inv_inside : StackInv (inside fs).
Proof using Hd Hn.
  split.
  - intros ex k b Hex Hk Hb. destruct (ensure_above k ex b Hex Hk Hb) as (-> & ? & ?). apply inside_truncate; [done|lia].
  - intros ex k b Hex Hk Hb. destruct (ensure_above k ex b Hex ltac:(lia) Hb) as (-> & ? & ?). apply inside_truncate; [done|lia].
  - intros ex cell tag. apply inside_push.
  - intros ex k b i cell vs Hex Hk Hb Hi Hz. destruct (ensure_above k ex b Hex Hk Hb) as (? & ? & ?). eapply inside_values; [done| |done]. lia.
  - intros ex src n dst r ex' Hex (k & Hk & Hb) Hn0 Hsd Hrun Hp. destruct (ensure_above k ex dst Hex Hk Hb) as (? & ? & ?).
    by eapply inside_slide.
Qed.

(** A local of any frame above the boundary. *)
Lemma inside_set_cell i cell tag : base ≤ i → keeps (inside fs) (set_cell i cell tag).
Proof using.
  intros Hi ex r ex' Hex. unfold set_cell. destruct (_ || _); [by intros [= <- <-]|].
  unfold set_value, set_tag. rewrite bind_unfold. destruct (zset (ex_values ex) i cell) as [vs|] eqn:Hv; cycle 1.
  { intros [= <- <-] Hp. by destruct (Hp "index out of bounds"). }
  pose proof (inside_values _ _ _ _ Hex Hi Hv) as [Hv1 Hs1 Hl1 Hf1 Hfr1 Hd1]. cbn [ex_shadow set_ex_values] in *.
  destruct (zset (ex_shadow ex) i tag) as [ss|] eqn:Hs; intros [= <- <-]; [|intros Hp; by destruct (Hp "index out of bounds")].
  intros _. apply zset_Some in Hs as [_ ->]. split; try done; cbn -[ztake zlen].
  - by rewrite ztake_insert by lia.
  - unfold lockstep in *. cbn -[zlen] in *. by rewrite zlen_insert.
Qed.
End fixed.

(** *** Operations on the frames *)
Lemma stack_ok_snoc fs f : stack_ok base (fs ++ [f]) ↔
  stack_ok base fs ∧ guest_frame f ∧ top_floor base fs ≤ fr_locals_base f ≤ fr_operand_base f.
Proof using. unfold stack_ok. rewrite nested_snoc, Forall_app, Forall_singleton. naive_solver. Qed.

(** At most [n] running frames. *)
Definition above (n : nat) (ex : Execution) : Prop :=
  ∃ fs, (length fs ≤ n)%nat ∧ inside fs ex ∧ stack_ok base fs.
Lemma above_le n m ex : (n ≤ m)%nat → above n ex → above m ex.
Proof using. intros ? (fs & ? & ?). exists fs. split; [lia|done]. Qed.

Lemma inside_set_ip fs f e ip ex : inside (fs ++ [f]) ex →
  ∃ ex', set_top_ip e ip ex = (Ok tt, ex') ∧ inside (fs ++ [set_fr_ip ip f]) ex'.
Proof using.
  intros [Hv Hs Hl Hf Hfr Hdp]. unfold set_top_ip. rewrite Hfr, app_comm_cons, app_assoc, last_snoc.
  eexists. split; [done|]. split; try done.
  - rewrite top_floor_snoc in *. done.
  - cbn [ex_frames set_ex_frames]. rewrite ztake_app by zlen_solve. by rewrite <- app_assoc.
Qed.
Lemma stack_ok_set_ip fs f ip : stack_ok base (fs ++ [f]) → stack_ok base (fs ++ [set_fr_ip ip f]).
Proof using. by rewrite !stack_ok_snoc. Qed.

Lemma code_params_ok code func : module_ok (code_module code) → code_func code = Ok func → 0 ≤ cf_n_params func.
Proof using.
  intros (_ & Hm & _). unfold code_func, expect. destruct (zget _ _) as [f|] eqn:Hf; intros [= <-].
  unfold zget in Hf. destruct (0 <=? _); [|done]. rewrite Forall_lookup in Hm. by eapply Hm.
Qed.

Lemma frame_floor_above fs : nested base fs → 0 ≤ frame_floor (ex_frames ex0 ++ d :: fs).
Proof using Hd.
  intros Hn. unfold frame_floor. destruct (last_above fs) as (f & -> & ->). pose proof (top_floor_ge _ _ Hn).
  pose proof (zlen_nonneg (ex_values ex0)). lia.
Qed.
Lemma above_push_call n instance func_index code ex r ex' : module_ok (code_module code) → above n ex →
  push_call instance func_index code ex = (r, ex') → above (S n) ex'.
Proof using Hd.
  intros Hm (fs & Hlen & Hin & Hok) Hrun. pose proof Hin as [Hv Hs Hl Hf Hfr Hdp]. pose proof (top_floor_ge _ _ (proj1 Hok)).
  assert (0 ≤ frame_floor (ex_frames ex)) as Hfl by (rewrite Hfr; apply frame_floor_above, Hok).
  destruct (push_call_cases instance func_index code ex Hfl) as [(func & tys & Hfu & _ & [_ _ Hpar _] & Hr)|(r0 & Hr & _)];
    rewrite Hr in Hrun; injection Hrun as <- <-; [|exists fs; split; [lia|done]].
  pose proof (code_params_ok _ _ Hm Hfu). unfold frame_floor in Hpar. rewrite Hfr in Hpar.
  destruct (last_above fs) as (f & Hlast & Hb). rewrite Hlast in Hpar. unfold lockstep in Hl.
  exists (fs ++ [{| fr_code := code; fr_func := func; fr_ip := 0; fr_locals_base := zlen (ex_values ex) - cf_n_params func;
    fr_operand_base := zlen (ex_values ex) + zlen tys; fr_instance := instance; fr_func_index := func_index;
    fr_delimiter := None |}]). split; [rewrite length_app; cbn; lia|]. split.
  - split; cbn -[ztake zlen top_floor]; rewrite ?ztake_app_le by lia; try done.
    + unfold lockstep. cbn -[zlen]. rewrite !zlen_app, !zlen_fmap. lia.
    + rewrite top_floor_snoc. cbn -[zlen]. rewrite zlen_app, zlen_fmap. lia.
    + rewrite Hfr. by rewrite <- app_assoc.
  - apply stack_ok_snoc. split; [done|]. cbn. split; [done|]. pose proof (zlen_nonneg tys). lia.
Qed.

Lemma frames_above fs ex : inside fs ex → zlen (ex_frames ex) = zlen (ex_frames ex0) + 1 + zlen fs.
Proof using. intros []. rewrite in_frames0, zlen_app, zlen_cons. lia. Qed.
Abbreviation stop := (zlen (ex_frames ex0) + 1).
Lemma inside_last fs ex : inside fs ex → stop < zlen (ex_frames ex) → ∃ fs' f, fs = fs' ++ [f] ∧ last (ex_frames ex) = Some f.
Proof using.
  intros Hin Hs. pose proof (frames_above _ _ Hin) as Hz. destruct fs as [|f fs' _] using rev_ind; [rewrite zlen_nil in Hz; lia|].
  exists fs', f. split; [done|]. by rewrite (in_frames _ _ Hin), app_comm_cons, app_assoc, last_snoc.
Qed.

(** Dropping the innermost frame and its operands. *)
Lemma inside_pop fs f ex k : inside (fs ++ [f]) ex → stack_ok base (fs ++ [f]) → top_floor base fs ≤ k ≤ zlen (ex_values ex) →
  inside fs (frames_truncate (zlen (ex_frames ex) - 1) (stack_truncate k ex)).
Proof using.
  intros Hin [(Hn & Hg) [_ Hb]]%stack_ok_snoc Hk. pose proof (frames_above _ _ Hin) as Hz. destruct Hin as [Hv Hs Hl Hf Hfr Hdp].
  pose proof (top_floor_ge _ _ Hn). pose proof (zlen_nonneg (ex_values ex0)). unfold lockstep in Hl.
  split; cbn -[ztake zlen top_floor]; rewrite ?ztake_ztake by lia; try done.
  - unfold lockstep. cbn -[ztake zlen]. rewrite !zlen_take by lia. done.
  - rewrite zlen_take by lia. lia.
  - rewrite Hfr, app_comm_cons, app_assoc, ztake_app; [done|]. zlen_solve.
Qed.

(** A return pops exactly one running frame. *)
Lemma inside_return fs ex k stop' tail r ex' : inside fs ex → stack_ok base fs → stop ≤ stop' →
  do_return k stop' tail ex = (r, ex') → no_panic r →
  match r with
  | Ok _ => ∃ fs' f, fs = fs' ++ [f] ∧ inside fs' ex'
  | _ => ex' = ex
  end.
Proof using.
  intros Hin Hok Hstop Hrun Hp. pose proof Hin as [Hv Hs Hl Hf Hfr Hdp]. unfold do_return in Hrun. rewrite get_run in Hrun.
  destruct (Z.leb_spec (zlen (ex_frames ex)) stop') as [|Hgt]; [by injection Hrun as <- <-|]. cbn [orb] in Hrun.
  destruct (inside_last _ _ Hin) as (fs' & f & -> & Hlast); [lia|]. rewrite Hl, Z.eqb_refl in Hrun. cbn [negb] in Hrun.
  rewrite Hlast in Hrun. lift_step_in Hrun. destruct (bool_decide _); [by injection Hrun as <- <-|]. rewrite <- Hl in Hrun.
  unfold checked_sub in Hrun. rewrite top_floor_snoc in Hf. rewrite (proj2 (Z.leb_le _ _)) in Hrun by done. lift_step_in Hrun.
  unfold checked_add in Hrun. destruct (Z.ltb_spec (fr_locals_base f + k) (2 ^ 64)); [|by injection Hrun as <- <-]. lift_step_in Hrun.
  destruct ((_ || _) || _) eqn:Hc; [by injection Hrun as <- <-|]. rewrite modify_run in Hrun.
  apply stack_ok_snoc in Hok as Hok'. destruct Hok' as ([Hn _] & _ & Hb). pose proof (top_floor_ge _ _ Hn).
  set (ex1 := frames_truncate _ ex) in Hrun.
  assert (inside fs' ex1) as Hin1.
  { pose proof (inside_pop fs' f ex (zlen (ex_values ex)) Hin Hok ltac:(lia)) as Hpop. unfold lockstep in Hl.
    assert (stack_truncate (zlen (ex_values ex)) ex = ex) as Hid; [|by rewrite Hid in Hpop].
    unfold stack_truncate. rewrite (ztake_all _ (ex_values ex)), (ztake_all _ (ex_shadow ex)) by lia. by destruct ex. }
  rewrite bind_unfold in Hrun. destruct (slide_down _ _ _ ex1) as [x ex2] eqn:Hsl.
  destruct x as [u|e|w].
  - injection Hrun as <- <-. exists fs', f. split; [done|]. eapply inside_slide; [done|done| | |exact Hsl|done]; [lia|].
    destruct (slide_down_in_range _ _ _ _ _ _ Hsl) as (_ & ? & _ & _ & Hle); [done|]. cbn [ex1 frames_truncate ex_values set_ex_frames] in Hle. lia.
  - exfalso. unfold slide_down in Hsl. by repeat case_match.
  - injection Hrun as <- <-. by destruct (Hp w).
Qed.
Lemma above_return n ex k stop' tail r ex' : above n ex → stop ≤ stop' → do_return k stop' tail ex = (r, ex') → no_panic r →
  above n ex' ∧ (∀ b, r = Ok b → ∃ m, n = S m ∧ above m ex').
Proof using.
  intros (fs & Hlen & Hin & Hok) Hs Hrun Hp. pose proof (inside_return _ _ _ _ _ _ _ Hin Hok Hs Hrun Hp) as Hres.
  destruct r as [b|e|w]; [|subst ex'; split; [by exists fs|done]..].
  destruct Hres as (fs' & f & -> & Hin'). apply stack_ok_snoc in Hok as (Hok & _). rewrite length_app in Hlen. cbn in Hlen.
  split; [exists fs'; split; [lia|done]|]. intros _ _. destruct n as [|m]; [lia|]. exists m. split; [done|]. exists fs'. split; [lia|done].
Qed.

(** *** Unwinding *)
Lemma find_clause_restore s h thrown code ip rec : module_ok (code_module code) →
  find_clause s h thrown code ip = Ok (Some rec) → 0 ≤ hr_restore_height rec.
Proof using.
  intros (_ & _ & Hm). unfold find_clause. intros (spans & Hs & Hf)%result_bind_Ok.
  assert (Forall (λ sp, Forall (λ rec, 0 ≤ hr_restore_height rec) (hs_clauses sp)) spans) as Hall.
  { unfold code_handlers in Hs. apply result_bind_Ok in Hs as (f & _ & Hs). unfold span_slice in Hs.
    destruct (zslice _ _ _) as [l|] eqn:Hz; cbn in Hs; [injection Hs as <-|done]. apply zslice_Some in Hz as (_ & _ & ->).
    by apply Forall_take, Forall_drop. }
  clear Hs. induction Hall as [|sp spans Hsp _ IH]; cbn in Hf; [done|]. destruct (_ && _); [|by apply IH].
  apply result_bind_Ok in Hf as (o & Ho & Hf). destruct o as [rec'|]; [|by apply IH]. injection Hf as ->.
  clear IH. induction Hsp as [|r rs Hr _ IH]; cbn in Ho; [done|]. apply result_bind_Ok in Ho as (b & _ & Ho).
  destruct b; [by injection Ho as <-|by apply IH].
Qed.

Lemma keeps_push_args fs args : nested base fs → keeps (inside fs) (for_each args push).
Proof using Hd. intros Hn. apply keeps_for_each. intros v. by apply (@keeps_push _ _ (stack_inv_inside fs Hn)). Qed.
Lemma above_handler n s exn rec fs f ex r ex' : (length (fs ++ [f]) ≤ n)%nat → inside (fs ++ [f]) ex → stack_ok base (fs ++ [f]) →
  0 ≤ hr_restore_height rec → enter_exception_handler s exn rec (fr_operand_base f) ex = (r, ex') → no_panic r → above n ex'.
Proof using Hd.
  intros Hlen Hin Hok Hr Hrun Hp. assert (Hst : above n ex) by (by exists (fs ++ [f])).
  unfold enter_exception_handler in Hrun. rewrite bind_unfold in Hrun. unfold lift at 1, checked_add in Hrun.
  destruct (_ <? 2 ^ 32); cbn [ok_or] in Hrun; [|by injection Hrun as <- <-]. rewrite get_run in Hrun.
  destruct (Z.eqb_spec (zlen (ex_values ex)) (zlen (ex_shadow ex))); cbn [negb orb] in Hrun; [|by injection Hrun as <- <-].
  destruct (Z.ltb_spec (zlen (ex_values ex)) (fr_operand_base f + hr_restore_height rec)); [by injection Hrun as <- <-|].
  rewrite modify_run in Hrun. set (ex1 := stack_truncate _ ex) in Hrun.
  assert (inside (fs ++ [f]) ex1) as Hin1.
  { apply inside_truncate; [apply Hok|done|]. rewrite top_floor_snoc. lia. }
  assert (StackInv (inside (fs ++ [f]))) as HSI by apply stack_inv_inside, Hok.
  rewrite bind_unfold in Hrun. destruct (_ ex1) as [x ex2] eqn:Hargs in Hrun.
  assert (no_panic x → inside (fs ++ [f]) ex2) as Hin2.
  { intros Hx. revert Hargs Hx. apply (λ H : keeps _ _, H ex1 x ex2 Hin1). destruct (hr_payload_args rec); [|apply keeps_ret].
    apply keeps_bind; [apply keeps_lift|intros; apply keeps_push_args, Hok]. }
  assert (∀ ex3, inside (fs ++ [f]) ex3 → above n ex3) as Hgo by (intros ex3 ?; by exists (fs ++ [f])).
  destruct x as [u|e1|w]; [|injection Hrun as <- <-; by apply Hgo, Hin2|injection Hrun as <- <-; by destruct (Hp w)].
  specialize (Hin2 ltac:(done)). clear Hargs. rewrite bind_unfold in Hrun. destruct (_ ex2) as [y ex3] eqn:Hrf in Hrun.
  assert (no_panic y → inside (fs ++ [f]) ex3) as Hin3.
  { intros Hx. revert Hrf Hx. apply (λ H : keeps _ _, H ex2 y ex3 Hin2). destruct (hr_payload_ref rec); [by apply keeps_push|apply keeps_ret]. }
  destruct y as [u'|e1|w]; [|injection Hrun as <- <-; by apply Hgo, Hin3|injection Hrun as <- <-; by destruct (Hp w)].
  destruct (inside_set_ip _ _ (frame_err "missing handler frame") (hr_landing_ip rec) _ (Hin3 ltac:(done))) as (ex4 & Hs4 & Hin4).
  rewrite Hs4 in Hrun. injection Hrun as <- <-. exists (fs ++ [set_fr_ip (hr_landing_ip rec) f]).
  split; [by rewrite length_app in *|]. split; [done|by apply stack_ok_set_ip].
Qed.

Lemma above_unwind_loop k n s exn thrown ip stop' ex r ex' : stop ≤ stop' → above n ex →
  unwind_loop k s exn thrown ip stop' ex = (r, ex') → no_panic r → above n ex'.
Proof using Hd.
  intros Hst. revert n ip ex. induction k as [|k IH]; intros n ip ex Hab Hrun Hp; cbn [unwind_loop] in Hrun.
  { injection Hrun as <- <-. by destruct (Hp "unwind: out of fuel"). }
  rewrite get_run in Hrun. destruct (Z.leb_spec (zlen (ex_frames ex)) stop') as [|Hgt]; [by injection Hrun as <- <-|].
  pose proof Hab as (fs0 & Hlen & Hin & Hok). destruct (inside_last _ _ Hin) as (fs & f & -> & Hlast); [lia|].
  rewrite Hlast in Hrun. lift_step_in Hrun.
  rewrite bind_unfold in Hrun. unfold lift in Hrun at 1. destruct (find_clause _ _ _ _ _) as [[rec|]|e|w] eqn:Hc;
    [| |by injection Hrun as <- <-|by injection Hrun as <- <-].
  { eapply above_handler; [exact Hlen|exact Hin|exact Hok| |exact Hrun|done]. eapply find_clause_restore; [|exact Hc].
    by apply stack_ok_snoc in Hok as (_ & [_ ?] & _). }
  rewrite bind_unfold in Hrun. unfold pop_unwound_frame in Hrun. rewrite get_run in Hrun. cbv beta in Hrun.
  destruct (Z.eqb_spec (zlen (ex_values ex)) (zlen (ex_shadow ex))); cbn [negb orb] in Hrun; [|by injection Hrun as <- <-].
  destruct (Z.ltb_spec (zlen (ex_values ex)) (fr_locals_base f)); [by injection Hrun as <- <-|].
  rewrite modify_run in Hrun. unfold modify in Hrun.
  assert (above n (frames_truncate (zlen (ex_frames (stack_truncate (fr_locals_base f) ex)) - 1) (stack_truncate (fr_locals_base f) ex))) as Hab1.
  { exists fs. rewrite length_app in Hlen. cbn in Hlen. split; [lia|]. pose proof Hok as (Hok' & _ & Hb)%stack_ok_snoc.
    split; [exact (inside_pop fs f ex (fr_locals_base f) Hin Hok ltac:(lia))|done]. }
  rewrite get_run in Hrun. destruct (_ =? stop'); [by injection Hrun as <- <-|].
  destruct (last _) as [caller|]; [|by injection Hrun as <- <-]. lift_step_in Hrun.
  unfold checked_sub in Hrun. destruct (1 <=? fr_ip caller); [|by injection Hrun as <- <-]. lift_step_in Hrun.
  by eapply IH.
Qed.
Lemma above_unwind n s e ip stop' : stop ≤ stop' → keeps (above n) (unwind s e ip stop').
Proof using Hd.
  intros Hst. unfold unwind. destruct e; try apply keeps_fail. apply keeps_bind; [apply keeps_lift|intros entity].
  apply keeps_get. intros ex0'. intros ex r ex' Hab Hrun. by eapply above_unwind_loop.
Qed.
Lemma above_raise n s exn stop' : stop ≤ stop' → keeps (above n) (raise_host_exception s exn stop').
Proof using Hd.
  intros Hst. unfold raise_host_exception. apply keeps_get. intros ex1. destruct (_ <=? _); [apply keeps_fail|].
  do 3 (apply keeps_bind; [apply keeps_lift|intros ?]). by apply above_unwind.
Qed.
End above.

(** ** Machines *)

(** A property of the store that depends on what instructions cannot change, and
    says that every module has unsigned immediates. *)
Class StorePred (P : StoreInner → Prop) : Prop := {
  sp_modules s : P s → Forall module_ok (ie_module <$> si_instances s);
  sp_view s s' : P s → code_view s' = code_view s → P s';
}.

(** More frames than this do not fit the address space, a frame being two bytes or more. *)
Definition FRAME_CAP : Z := 2 ^ 63.

(** A parked execution: empty when no call is live. *)
Record slot_wf (ex : Execution) : Prop := {
  sw_empty : ex_frames ex = [] → ex = execution_default;
  sw_depth : 0 ≤ ex_host_reentry_depth ex;
  sw_cap : zlen (ex_frames ex) ≤ FRAME_CAP;
}.

(** Embedder code that gives the execution slot back as it found it. *)
Definition host_safe {L A} (P : StoreInner → Prop) (f : SM (StoreT L) A) : Prop :=
  ∀ st r st', P (st_inner st) → slot_wf (st_exec_slot st) → f st = (r, st') → no_panic r →
    P (st_inner st') ∧ st_exec_slot st' = st_exec_slot st.
Record hosts_ok {L} `{HostCode L} (P : StoreInner → Prop) : Prop := {
  ho_call i h ps rs : host_safe P (host_call (L:=L) i h ps rs);
  ho_epoch f : epoch_callback = Some f → host_safe P f;
}.

(** The growth operations run a limiter on the embedder's data only. *)
Section growth.
Context {L : Type} `{ResourceLimiter L, HostAlloc}.
Definition typed_view (ex : Execution) (c : Z * list ModuleInner) (st : StoreT L) : Prop :=
  st_exec_slot st = ex ∧ code_view (st_inner st) = c.
Lemma host_safe_keeps {A} P `{!StorePred P} (f : SM (StoreT L) A) : (∀ ex c, keeps (typed_view ex c) f) → host_safe P f.
Proof.
  intros Hf st r st' HP Hwf Hr Hp. destruct (Hf _ _ st r st' (conj eq_refl eq_refl) Hr Hp) as [Hs Hv].
  split; [by eapply sp_view|done].
Qed.
Section keep.
Context (ex : Execution) (c : Z * list ModuleInner).
Lemma keeps_on_inner {A} (m : SM StoreInner A) : keeps (λ s, code_view s = c) m → keeps (typed_view ex c) (on_inner m).
Proof. apply keeps_zoom; [by intros st []|]. by intros st s [? _] ?. Qed.
Lemma keeps_on_data {A} (m : SM L A) : keeps (typed_view ex c) (on_data m).
Proof. apply (keeps_zoom _ _ _ (λ _, True)); [done| |by intros ? ? ?]. by intros st l [] _. Qed.
Lemma keeps_limiter {R} (m : SM L R) : keeps (typed_view ex c) (with_sync_limiter m).
Proof.
  intros st r st' Hst. unfold with_sync_limiter. destruct (st_limiter st) as [[]|]; [|by intros [= <- <-]..].
  by apply (keeps_bind (typed_view ex c)); [apply keeps_on_data|intros; apply keeps_ret|].
Qed.
Lemma keeps_notify (m : error → SM L ()) msg : keeps (typed_view ex c) (notify_failed m msg).
Proof.
  intros st r st' Hst. unfold notify_failed. destruct (st_limiter st); [|by intros [= <- <-]]. by apply keeps_on_data.
Qed.
Hint Resolve keeps_on_data keeps_limiter keeps_notify : keeps.
Ltac grow_step := lazymatch goal with
  | |- keeps _ (on_inner (modify _)) => apply keeps_on_inner, keeps_store_modify; done
  | |- _ => keep_step end.
Lemma keeps_grow_memory h delta : keeps (typed_view ex c) (grow_memory h delta).
Proof. unfold grow_memory, try_grow_memory, memory_failed. cbv zeta. repeat grow_step. Qed.
Lemma keeps_grow_table h delta init : keeps (typed_view ex c) (grow_table h delta init).
Proof. unfold grow_table, try_grow_table, table_failed. cbv zeta. repeat grow_step. Qed.
Lemma keeps_grow_gc target bytes : keeps (typed_view ex c) (grow_gc_reservation target bytes).
Proof. unfold grow_gc_reservation, gc_grant. repeat grow_step. Qed.
End keep.
End growth.

Section machines.
Context `{Features, FloatHost, EngineTypes, TypeOrder, EngineFuncs, FrameSize, HostAlloc, EngineConfig}
  {L : Type} `{ResourceLimiter L, HostCode L}.
Context (ex0 : Execution) (d : Frame) (depth : Z) (P : StoreInner → Prop) {HP : StorePred P}.
Abbreviation base := (zlen (ex_values ex0)).
Abbreviation stop := (zlen (ex_frames ex0) + 1).
Context (Hd : fr_operand_base d = base) (Hdepth : 0 ≤ depth).
Implicit Types mc : Machine L.

Record at_fs (cap : Z) (fs : list Frame) mc : Prop := {
  af_inside : inside ex0 d depth fs (mc_ex mc);
  af_stack : stack_ok base fs;
  af_slot : st_exec_slot (mc_store mc) = execution_default;
  af_cap : zlen (ex_frames (mc_ex mc)) ≤ cap;
  af_pred : P (st_inner (mc_store mc));
}.
(** At most [n] running frames. *)
Definition running (cap : Z) (n : nat) mc : Prop := ∃ fs, (length fs ≤ n)%nat ∧ at_fs cap fs mc.
Lemma running_le cap n m mc : (n ≤ m)%nat → running cap n mc → running cap m mc.
Proof using. intros ? (fs & ? & ?). exists fs. split; [lia|done]. Qed.
Lemma running_at cap fs mc : at_fs cap fs mc → running cap (length fs) mc.
Proof using. by exists fs. Qed.

Lemma keeps_running {A} cap n (m : SM (Machine L) A) :
  (∀ fs, stack_ok base fs → keeps (at_fs cap fs) m) → keeps (running cap n) m.
Proof using.
  intros Hm mc r mc' (fs & Hn & Ha) Hr Hp. exists fs. split; [done|]. by eapply (Hm fs (af_stack _ _ _ Ha)).
Qed.

(** *** Running a part of the machine *)
Section lift.
Context (cap : Z) (fs : list Frame).
Abbreviation I := (at_fs cap fs).

Lemma keeps_on_exec {A} (m : SM Execution A) : keeps (inside ex0 d depth fs) m → keeps I (on_exec m).
Proof using.
  apply keeps_zoom; [by intros mc []|]. intros mc ex [Hin Hst Hsl Hc Hp] Hex. split; try done.
  cbn. rewrite (in_frames _ _ _ _ _ Hex), <- (in_frames _ _ _ _ _ Hin). done.
Qed.
Lemma keeps_on_vm {A} (m : SM Vm A) :
  (∀ c, keeps (vm_inv (inside ex0 d depth fs) c) m) → keeps I (on_vm m).
Proof using HP.
  intros Hm mc r mc' [Hin Hst Hsl Hc Hp]. unfold on_vm, zoom.
  destruct (m (mc_vm mc)) as [x v] eqn:Hr. intros [= <- <-] Hnp.
  destruct (Hm (code_view (st_inner (mc_store mc))) (mc_vm mc) x v (conj Hin eq_refl) Hr Hnp) as [Hin' Hv].
  split; try done; cbn.
  - rewrite (in_frames _ _ _ _ _ Hin'), <- (in_frames _ _ _ _ _ Hin). done.
  - by eapply sp_view.
Qed.
Lemma keeps_on_si {A} (m : SM StoreInner A) : (∀ c, keeps (λ s, code_view s = c) m) → keeps I (on_si m).
Proof using HP.
  intros Hm mc r mc' [Hin Hst Hsl Hc Hp]. unfold on_si, on_typed, on_inner, zoom.
  destruct (m (st_inner (mc_store mc))) as [x s] eqn:Hr. intros [= <- <-] Hnp.
  pose proof (Hm _ _ x s eq_refl Hr Hnp) as Hv. split; try done. cbn. by eapply sp_view.
Qed.
Lemma keeps_si_modify (g : StoreInner → StoreInner) : (∀ s, code_view (g s) = code_view s) → keeps I (on_si (modify g)).
Proof using HP. intros Hg. apply keeps_on_si. intros c. by apply keeps_store_modify. Qed.
Lemma keeps_ask_si {A} (f : StoreInner → res A) : keeps (E:=error) I (ask_si f).
Proof using. apply keeps_reads. Qed.
Lemma keeps_tick : keeps (E:=error) I (modify tick).
Proof using. apply keeps_modify. by intros mc []. Qed.
End lift.

(** *** Parking the execution around embedder code *)
Lemma slot_wf_inside cap fs mc : at_fs cap fs mc → cap ≤ FRAME_CAP → slot_wf (mc_ex mc).
Proof using Hdepth.
  intros [Hin Hst Hsl Hc Hp] ?. split.
  - rewrite (in_frames _ _ _ _ _ Hin). intros Hf. by destruct (ex_frames ex0).
  - by rewrite (in_depth _ _ _ _ _ Hin).
  - lia.
Qed.
Lemma keeps_with_parked {A} cap fs mark pending gen (f : SM (StoreT L) A) : cap ≤ FRAME_CAP → host_safe P f →
  keeps (at_fs cap fs) (with_parked mark pending gen f).
Proof using Hdepth.
  intros Hcap Hf mc r mc' Ha. pose proof (slot_wf_inside _ _ _ Ha Hcap) as Hwf. destruct Ha as [Hin Hst Hsl Hc Hp].
  unfold with_parked. cbn [swap_exec modify snd mc_store set_mc_store set_mc_ex].
  destruct (f _) as [x st] eqn:Hr.
  destruct x as [a|e|w]; intros [= <- <-] Hnp; [| |by destruct (Hnp w)].
  - edestruct Hf as [Hp' Hs']; [| |exact Hr|done|]; [done|done|]. cbn in Hs'. split; cbn; rewrite ?Hs'; done.
  - edestruct Hf as [Hp' Hs']; [| |exact Hr|done|]; [done|done|]. cbn in Hs'. split; cbn; rewrite ?Hs'; done.
Qed.

(** *** Host calls *)
Context (Hosts : hosts_ok (L:=L) P) (cap : Z) (Hcap : cap ≤ FRAME_CAP).

Lemma root_pending_view s : code_view (root_pending s) = code_view s.
Proof using. unfold root_pending. by destruct (si_pending_exception s). Qed.
Lemma root_params_view ps s : code_view (root_ref_params ps s) = code_view s.
Proof using.
  unfold root_ref_params. revert s. induction ps as [|v ps IH]; intros s; cbn; [done|]. rewrite IH.
  by destruct v as [| | | | |[]|[]|[]|[]].
Qed.
Lemma restore_pending_view p g s : code_view (restore_pending_exception p g s) = code_view s.
Proof using. unfold restore_pending_exception. by repeat case_match. Qed.

Ltac view := intros; first [done|apply root_pending_view|apply root_params_view|apply restore_pending_view].
Ltac fixed_step :=
  lazymatch goal with
  | |- keeps _ (on_exec _) => apply keeps_on_exec
  | |- keeps _ (on_si (modify _)) => apply keeps_si_modify; view
  | |- keeps _ (on_si _) => apply keeps_on_si
  | |- keeps _ (ask_si _) => apply keeps_ask_si
  | |- keeps _ (modify tick) => apply keeps_tick
  | |- _ => keep_step
  end.
Ltac fixed := repeat fixed_step.

Lemma keeps_prep_host fs f : stack_ok base fs → keeps (at_fs cap fs) (prep_host f).
Proof using Hd HP.
  intros [Hn _]. pose proof (stack_inv_inside ex0 d depth Hd fs Hn).
  unfold prep_host, prepare_host_call. fixed.
Qed.
Lemma keeps_discard n hc : keeps (running cap n) (discard_host_call hc).
Proof using HP. apply keeps_running. intros. unfold discard_host_call. fixed. Qed.
Lemma keeps_restore n hc : keeps (running cap n) (restore_pending hc).
Proof using HP. apply keeps_running. intros. unfold restore_pending. fixed. Qed.
Lemma keeps_run_ask {A} n (f : StoreInner → res A) : keeps (E:=error) (running cap n) (ask_si f).
Proof using. apply keeps_reads. Qed.
Lemma keeps_take_pending n : keeps (running cap n)
  (on_si (λ s, let '(e, s') := take_pending_exception s in (Ok e, s'))).
Proof using HP. apply keeps_running. intros. apply keeps_on_si. by intros c s r s' <- [= <- <-]. Qed.
Lemma keeps_take_error n : keeps (running cap n)
  (on_si (λ s, let '(e, s') := take_internal_error s in (Ok e, s'))).
Proof using HP. apply keeps_running. intros. apply keeps_on_si. by intros c s r s' <- [= <- <-]. Qed.

(** Unwinding only drops frames. *)
Lemma keeps_unwinding n (m : SM Execution ()) :
  (∀ k, keeps (above ex0 d depth k) m) → keeps (running cap n) (on_exec m).
Proof using.
  intros Hm mc r mc' (fs & Hn & Ha) Hr Hp. pose proof Ha as [Hin Hst Hsl Hc HPs]. unfold on_exec, zoom in Hr.
  destruct (m (mc_ex mc)) as [x ex'] eqn:Hx. injection Hr as <- <-.
  destruct (Hm (length fs) _ _ _ ltac:(by exists fs) Hx Hp) as (fs' & Hl & Hin' & Hst').
  exists fs'. split; [lia|]. split; try done. cbn. rewrite (frames_above _ _ _ _ _ Hin').
  rewrite (frames_above _ _ _ _ _ Hin) in Hc. unfold zlen in *. lia.
Qed.
Lemma keeps_raise n exn stop' : stop ≤ stop' → keeps (running cap n) (raise_on exn stop').
Proof using Hd.
  intros Hs. apply keeps_bind; [apply keeps_run_ask|intros s]. apply keeps_unwinding. intros k. by apply above_raise.
Qed.
Lemma keeps_push_on n vs : keeps (running cap n) (on_exec (push_results_slice vs)).
Proof using Hd.
  apply keeps_running. intros fs [Hn _]. pose proof (stack_inv_inside ex0 d depth Hd fs Hn). fixed.
Qed.
Hint Resolve keeps_discard keeps_restore keeps_run_ask keeps_take_pending keeps_raise keeps_push_on : keeps.
Lemma keeps_finish_host n hc outcome stop' : stop ≤ stop' → keeps (running cap n) (finish_host_call hc outcome stop').
Proof using Hd HP. intros Hs. unfold finish_host_call. keep. Qed.
Lemma keeps_parked_run {A} n mark pending gen (f : SM (StoreT L) A) : host_safe P f →
  keeps (running cap n) (with_parked mark pending gen f).
Proof using Hdepth Hcap. intros Hf. apply keeps_running. intros fs _. by apply keeps_with_parked. Qed.
Lemma keeps_invoke_host n f i stop' : stop ≤ stop' → keeps (running cap n) (invoke_host f i stop').
Proof using Hd HP Hdepth Hcap Hosts.
  intros Hs. unfold invoke_host. apply keeps_bind; [apply keeps_running; intros; by apply keeps_prep_host|intros hc].
  apply keeps_bind; [apply keeps_parked_run, Hosts|intros res].
  apply keeps_bind; [apply keeps_take_error|intros [e|]]; [keep|by apply keeps_finish_host].
Qed.

(** *** What the driver does between runs *)
Lemma keeps_run_modify n (g : StoreInner → StoreInner) : (∀ s, code_view (g s) = code_view s) →
  keeps (running cap n) (on_si (modify g)).
Proof using HP. intros Hg. apply keeps_running. intros. by apply keeps_si_modify. Qed.
Lemma keeps_operation {A} n (f : SM (StoreT L) A) : host_safe P f → keeps (running cap n) (with_parked_host_operation f).
Proof using HP Hdepth Hcap.
  intros Hf. unfold with_parked_host_operation. apply keeps_bind; [apply keeps_run_ask|intros s].
  apply keeps_bind; [apply keeps_run_modify, root_pending_view|intros _]. apply keeps_bind; [by apply keeps_parked_run|intros r].
  apply keeps_bind; [by apply keeps_run_modify|intros _]. apply keeps_lift.
Qed.
Lemma keeps_push_idx n b v : keeps (running cap n) (on_exec (push_index b v)).
Proof using Hd.
  apply keeps_running. intros fs [Hn _]. pose proof (stack_inv_inside ex0 d depth Hd fs Hn). apply keeps_on_exec. by apply keeps_push_index.
Qed.
Lemma keeps_do_grow n memory delta : keeps (running cap n) (do_grow memory delta).
Proof using Hd HP Hdepth Hcap.
  apply keeps_bind; [apply keeps_run_ask|intros e]. apply keeps_bind; [|intros old; apply keeps_push_idx].
  apply keeps_operation, host_safe_keeps; [done|]. intros. apply keeps_grow_memory.
Qed.
Lemma keeps_do_grow_table n table delta init : keeps (running cap n) (do_grow_table table delta init).
Proof using Hd HP Hdepth Hcap.
  apply keeps_bind; [apply keeps_run_ask|intros e]. apply keeps_bind; [|intros old; apply keeps_push_idx].
  apply keeps_operation, host_safe_keeps; [done|]. intros. apply keeps_grow_table.
Qed.
Lemma keeps_do_grow_gc n target bytes : keeps (running cap n) (do_grow_gc target bytes).
Proof using HP Hdepth Hcap. apply keeps_operation, host_safe_keeps; [done|]. intros. apply keeps_grow_gc. Qed.
Lemma keeps_epoch_deadline n : keeps (running cap n) (apply_epoch_deadline (L:=L)).
Proof using HP Hdepth Hcap Hosts.
  unfold apply_epoch_deadline, take_epoch_action. apply keeps_bind.
  - destruct epoch_callback as [f|] eqn:Hf; [|apply keeps_ret].
    apply keeps_bind; [apply keeps_run_ask|intros s]. apply keeps_bind; [apply keeps_run_modify, root_pending_view|intros _].
    apply keeps_bind; [by apply keeps_parked_run, Hosts|intros r]. apply keeps_bind; [by apply keeps_run_modify|intros _].
    apply keeps_bind; [apply keeps_take_error|intros [e|]]; [|apply keeps_lift].
    apply keeps_bind; [apply keeps_run_modify, restore_pending_view|intros _; apply keeps_fail].
  - intros [|delta|delta]; [apply keeps_fail| |apply keeps_fail]. unfold extend_epoch_deadline. apply keeps_get. intros mc.
    apply keeps_bind; [apply keeps_running; intros; apply keeps_tick|intros _]. by apply keeps_run_modify.
Qed.

(** Before its first stack check a call may exceed the cap by its boundary and entry frame. *)
Definition loosely mc : Prop := ∃ cap' n, running cap' n mc.
End machines.

(** ** One turn of the loop *)
Section turns.
Context `{Features, FloatHost, EngineTypes, TypeOrder, EngineFuncs, FrameSize, HostAlloc, EngineConfig}
  {L : Type} `{ResourceLimiter L, HostCode L}.
Context (ex0 : Execution) (d : Frame) (depth : Z).
Abbreviation base := (zlen (ex_values ex0)).
Abbreviation stop := (zlen (ex_frames ex0) + 1).
Context (Hd : fr_operand_base d = base) (Hdel : fr_delimiter d ≠ None) (Hdepth : 0 ≤ depth) (Hsize : 2 ≤ frame_size).
Implicit Types mc : Machine L.
Abbreviation at_fs P := (at_fs ex0 d depth P FRAME_CAP).
Abbreviation running P := (running ex0 d depth P FRAME_CAP).

(** The cursor of the loop is the innermost running frame's. *)
Definition cursor_at (c : Cursor) (fs : list Frame) : Prop :=
  ∃ fs' f, fs = fs' ++ [f] ∧ cu_code c = fr_code f ∧ cu_base c = fr_locals_base f.

Lemma top_cursor_at P fs mc r mc' : at_fs P fs mc → top_cursor mc = (r, mc') →
  mc' = mc ∧ ∀ c, r = Ok c → cursor_at c fs.
Proof using All.
  intros [Hin Hst Hsl Hc Hp]. unfold top_cursor, on_exec, zoom. rewrite bind_unfold. unfold reads, top.
  pose proof (in_frames _ _ _ _ _ Hin) as Hfr.
  assert (set_mc_ex (mc_ex mc) mc = mc) as Hid by (by destruct mc).
  destruct fs as [|f fs' _] using rev_ind.
  - rewrite Hfr, last_snoc. cbn [ok_or mbind result_bind]. rewrite bool_decide_eq_true_2 by done. cbn. rewrite ?Hid.
    by intros [= <- <-].
  - rewrite Hfr, app_comm_cons, app_assoc, last_snoc. cbn [ok_or mbind result_bind].
    destruct (bool_decide _); cbn; rewrite Hid; intros [= <- <-]; (split; [done|]); intros c [= <-].
    by exists fs', f.
Qed.

Lemma keeps_gc_tick P `{!StorePred P} fs w k : stack_ok base fs → keeps (at_fs P fs) (gc_tick (L:=L) w k).
Proof using All.
  intros [Hn _]. pose proof (stack_inv_inside ex0 d depth Hd fs Hn). unfold gc_tick, service_gc_pressure.
  destruct w; [|apply keeps_ret]. destruct (_ =? 0); [|apply keeps_ret]. apply keeps_bind; [|intros; apply keeps_ret].
  apply keeps_get. intros mc. destruct (footprint_over_floor _); [|apply keeps_ret].
  apply keeps_bind; [apply keeps_tick|intros _]. destruct (gc_request_at _); [|apply keeps_ret].
  apply keeps_on_vm; [done|]. intros c. unfold gc_collect_now. apply keeps_bind; [apply keeps_reads|intros roots].
  apply keeps_on_store, keeps_gc_collect.
Qed.

(** Where a turn goes on. *)
Definition goes_on (P : StoreInner → Prop) (n : nat) (r : res Turn) mc' : Prop :=
  ∃ fs', (length fs' ≤ n)%nat ∧ at_fs P fs' mc' ∧ ∀ c k, r = Ok (TurnGo c k) → cursor_at c fs'.

Lemma top_then P n fs k mc r mc' : (length fs ≤ n)%nat → at_fs P fs mc →
  (c ← top_cursor; mret (TurnGo c k)) mc = (r, mc') → goes_on P n r mc'.
Proof using All.
  intros Hn Ha. rewrite bind_unfold. destruct (top_cursor mc) as [x mc1] eqn:Ht.
  destruct (top_cursor_at _ _ _ _ _ Ha Ht) as [-> Hcur].
  destruct x; intros [= <- <-]; exists fs; (split; [done|]); (split; [done|]); intros c' k' [= <- <-]; by apply Hcur.
Qed.
Lemma top_then_tick P `{!StorePred P} n fs w k mc r mc' : (length fs ≤ n)%nat → at_fs P fs mc →
  (c ← top_cursor; k' ← gc_tick w k; mret (TurnGo c k')) mc = (r, mc') → no_panic r → goes_on P n r mc'.
Proof using All.
  intros Hn Ha. rewrite bind_unfold. destruct (top_cursor mc) as [x mc1] eqn:Ht.
  destruct (top_cursor_at _ _ _ _ _ Ha Ht) as [-> Hcur].
  destruct x as [c|e|w']; [|intros [= <- <-] _; by exists fs..].
  rewrite bind_unfold. destruct (gc_tick w k mc) as [y mc2] eqn:Hg. intros Hr Hp.
  assert (no_panic y) as Hy by (destruct y as [|?|w0]; [done|done|injection Hr as <- <-; by destruct (Hp w0)]).
  pose proof (keeps_gc_tick P fs w k (af_stack _ _ _ _ _ _ _ Ha) mc y mc2 Ha Hg Hy) as Ha2. exists fs.
  destruct y as [k'|e|w']; [|injection Hr as <- <-; done..].
  injection Hr as <- <-. split; [done|]. split; [done|]. intros c' k'' [= <- <-]. by apply Hcur.
Qed.

(** The innermost frame's instruction pointer. *)
Lemma set_ip_at P fs e ip mc r mc' : at_fs P fs mc → fs ≠ [] → on_exec (set_top_ip e ip) mc = (r, mc') →
  r = Ok tt ∧ ∃ fs', length fs' = length fs ∧ fs' ≠ [] ∧ at_fs P fs' mc'.
Proof using All.
  intros [Hin Hst Hsl Hc Hp] Hne. destruct fs as [|f fs _] using rev_ind; [done|].
  destruct (inside_set_ip _ _ _ _ _ e ip _ Hin) as (ex' & Hs & Hin').
  unfold on_exec, zoom. rewrite Hs. intros [= <- <-]. split; [done|].
  exists (fs ++ [set_fr_ip ip f]). split; [by rewrite !length_app|]. split; [by destruct fs|]. split; try done; [by apply stack_ok_set_ip|].
  cbn. rewrite (frames_above _ _ _ _ _ Hin'). rewrite (frames_above _ _ _ _ _ Hin) in Hc. rewrite zlen_app in *. done.
Qed.

Lemma stack_bytes_cap mc r mc' : on_exec (reads stack_bytes) mc = (r, mc') →
  mc' = mc ∧ ∀ n, r = Ok n → zlen (ex_frames (mc_ex mc)) + 1 ≤ FRAME_CAP.
Proof using All.
  unfold on_exec, zoom, reads. assert (set_mc_ex (mc_ex mc) mc = mc) as -> by (by destruct mc). intros [= <- <-]. split; [done|].
  intros n Hn. unfold stack_bytes, checked_mul in Hn. apply result_bind_Ok in Hn as (v & _ & Hn).
  apply result_bind_Ok in Hn as (b & Hb & _). destruct (Z.ltb_spec (zlen (ex_frames (mc_ex mc)) * frame_size) (2 ^ 64)); [|done].
  unfold FRAME_CAP. pose proof (zlen_nonneg (ex_frames (mc_ex mc))). nia.
Qed.
Lemma push_frame P fs i fi code mc r mc' : at_fs P fs mc → module_ok (code_module code) →
  zlen (ex_frames (mc_ex mc)) + 1 ≤ FRAME_CAP → on_exec (push_call i fi code) mc = (r, mc') →
  ∃ fs', (length fs' ≤ S (length fs))%nat ∧ at_fs P fs' mc'.
Proof using All.
  intros [Hin Hst Hsl Hc Hp] Hm Hcap. unfold on_exec, zoom. destruct (push_call _ _ _ _) as [x ex'] eqn:Hr. intros [= <- <-].
  destruct (above_push_call ex0 d depth Hd (length fs) _ _ _ _ _ _ Hm ltac:(by exists fs) Hr) as (fs' & Hl & Hin' & Hst').
  exists fs'. split; [done|]. split; try done. cbn. rewrite (frames_above _ _ _ _ _ Hin').
  rewrite (frames_above _ _ _ _ _ Hin) in Hcap. unfold zlen in *. lia.
Qed.
Lemma pop_frame P fs n tail mc r mc' : at_fs P fs mc → on_exec (do_return n stop tail) mc = (r, mc') → no_panic r →
  match r with
  | Ok b => b = (zlen (ex_frames (mc_ex mc')) =? stop) ∧ ∃ fs' f, fs = fs' ++ [f] ∧ at_fs P fs' mc'
  | _ => at_fs P fs mc'
  end.
Proof using All.
  intros [Hin Hst Hsl Hc Hp] Hr Hnp. unfold on_exec, zoom in Hr. destruct (do_return _ _ _ _) as [x ex'] eqn:Hx. injection Hr as -> <-.
  pose proof (inside_return ex0 d depth fs _ n stop tail r ex' Hin Hst ltac:(lia) Hx Hnp) as Hres.
  destruct r as [b|e|w]; [|subst ex'; split; done..]. destruct Hres as (fs' & f & -> & Hin'). split.
  - revert Hx. unfold do_return. rewrite get_run. cbv zeta. intros Hx.
    repeat match type of Hx with
    | (if ?c then fail _ else _) _ = _ => destruct c; [done|]
    | (lift ?x ≫= _) _ = _ => destruct x; [rewrite (lift_Ok _ _ _ _ eq_refl) in Hx|done|done]
    | (modify _ ≫= _) _ = _ => rewrite modify_run in Hx
    | (slide_down _ _ _ ≫= _) _ = _ => apply bind_Ok in Hx as (? & ? & _ & Hx)
    | (get ≫= _) _ = _ => rewrite get_run in Hx
    end. by injection Hx as <- <-.
  - exists fs', f. split; [done|]. apply stack_ok_snoc in Hst as (Hst' & _). split; try done. cbn.
    rewrite (frames_above _ _ _ _ _ Hin'). rewrite (frames_above _ _ _ _ _ Hin), zlen_app in Hc. pose proof (zlen_nonneg [f]). lia.
Qed.

Lemma after_host_goes P n k mc r mc' : running P n mc → after_host stop k mc = (r, mc') → goes_on P n r mc'.
Proof using All.
  intros (fs & Hn & Ha). unfold after_host. rewrite get_run. destruct (_ =? stop).
  - intros [= <- <-]. by exists fs.
  - by apply (top_then _ _ fs).
Qed.
Lemma goes_on_le P n m r mc' : (n ≤ m)%nat → goes_on P n r mc' → goes_on P m r mc'.
Proof using All. intros ? (fs & ? & ?). exists fs. split; [lia|done]. Qed.
Lemma goes_stop P fs n r mc' : (length fs ≤ n)%nat → at_fs P fs mc' → (∀ c k, r ≠ Ok (TurnGo c k)) → goes_on P n r mc'.
Proof using All. intros ? ? Hr. exists fs. split; [done|]. split; [done|]. intros c k Hc. by destruct (Hr c k). Qed.

(** A host call, then the frame it returns to. *)
Lemma host_goes P `{!StorePred P} fs f i k mc r mc' : hosts_ok (L:=L) P → at_fs P fs mc →
  (invoke_host f i stop;; after_host stop k) mc = (r, mc') → no_panic r → goes_on P (length fs) r mc'.
Proof using All.
  intros Hosts Ha Hr Hp. rewrite bind_unfold in Hr. destruct (invoke_host f i stop mc) as [x mc1] eqn:Hi.
  assert (no_panic x) as Hx by (destruct x as [|?|w0]; [done|done|injection Hr as <- <-; by destruct (Hp w0)]).
  pose proof (keeps_invoke_host ex0 d depth P Hd Hdepth Hosts FRAME_CAP ltac:(done) (length fs) f i stop ltac:(lia)
    mc x mc1 (running_at _ _ _ _ _ _ _ Ha) Hi Hx) as Hrun.
  destruct x as [u|e|w]; [by eapply after_host_goes|..]; injection Hr as <- <-; destruct Hrun as (fs' & Hl & Ha'); by apply (goes_stop _ fs').
Qed.

Lemma cursor_last c fs : cursor_at c fs → fs ≠ [].
Proof using All. intros (fs' & f & -> & _). by destruct fs'. Qed.

(** The call paths: the new frame replaces or joins the running ones. *)
Lemma call_goes P `{!StorePred P} fs req w k mc r mc' n : at_fs P fs mc → (S (length fs) ≤ n)%nat → module_ok (code_module (cr_code req)) →
  zlen (ex_frames (mc_ex mc)) + 1 ≤ FRAME_CAP →
  (on_exec (push_call (cr_instance req) (cr_func_index req) (cr_code req));;
   c' ← top_cursor; k' ← gc_tick w k; mret (TurnGo c' k')) mc = (r, mc') → no_panic r → goes_on P n r mc'.
Proof using All.
  intros Ha Hn Hm Hcap Hr Hp. rewrite bind_unfold in Hr. destruct (on_exec (push_call _ _ _) mc) as [x mc1] eqn:Hc.
  destruct (push_frame _ _ _ _ _ _ _ _ Ha Hm Hcap Hc) as (fs' & Hl & Ha').
  destruct x as [u|e|w0]; [|injection Hr as <- <-; apply (goes_stop _ fs'); [lia|done|done]..].
  apply (top_then_tick P n fs' w k mc1); [lia|done|exact Hr|done].
Qed.

Lemma return_then P fs ip g mc r mc' n : at_fs P fs mc → fs ≠ [] → (return_to ip ≫= g) mc = (r, mc') →
  (∀ fs' mc1, length fs' = length fs → at_fs P fs' mc1 → g tt mc1 = (r, mc') → goes_on P n r mc') → goes_on P n r mc'.
Proof using All.
  intros Ha Hne Hr Hgo. rewrite bind_unfold in Hr. destruct (return_to _ mc) as [y mc2] eqn:Hrt.
  destruct (set_ip_at _ _ _ _ _ _ _ Ha Hne Hrt) as (-> & fs' & Hl & _ & Ha'). by eapply Hgo.
Qed.
Lemma pop_then P fs k g mc r mc' n : at_fs P fs mc → (length fs ≤ n)%nat →
  (on_exec (do_return k stop true) ≫= g) mc = (r, mc') → no_panic r →
  (∀ b fs' mc1, S (length fs') = length fs → at_fs P fs' mc1 → g b mc1 = (r, mc') → goes_on P n r mc') → goes_on P n r mc'.
Proof using All.
  intros Ha Hn Hr Hp Hgo. rewrite bind_unfold in Hr. destruct (on_exec (do_return _ _ _) mc) as [y mc1] eqn:Hrt.
  assert (no_panic y) as Hy by (destruct y as [|?|w0]; [done|done|injection Hr as <- <-; by destruct (Hp w0)]).
  pose proof (pop_frame _ _ _ _ _ _ _ Ha Hrt Hy) as Hpop.
  destruct y as [b|e|w0]; [|injection Hr as <- <-; by eapply (goes_stop _ fs)..].
  destruct Hpop as (_ & fs' & f & -> & Ha'). eapply Hgo; [|done..]. rewrite length_app. cbn. lia.
Qed.

Lemma outcome_goes P `{!StorePred P} fs k w c o mc r mc' : hosts_ok (L:=L) P → at_fs P fs mc → cursor_at c fs → outcome_ok o →
  do_outcome stop k w c o mc = (r, mc') → no_panic r → goes_on P (S (length fs)) r mc'.
Proof using All.
  intros Hosts Ha Hcur Hok Hr Hp. pose proof (cursor_last _ _ Hcur) as Hne.
  pose proof (frames_above _ _ _ _ _ (af_inside _ _ _ _ _ _ _ Ha)) as Hz.
  assert (Hstop : ∀ o' fs' mc1, (Ok (TurnDone o'), mc1) = (r, mc') → (length fs' ≤ S (length fs))%nat → at_fs P fs' mc1 →
    goes_on P (S (length fs)) r mc').
  { intros o' fs' mc1 [= <- <-] ? ?. by apply (goes_stop _ fs'). }
  destruct o as [next|req|req|f i n|f i ip|f i n|f i ip|m dl ip|t dl init ip|t b ip]; cbn [do_outcome] in Hr.
  - injection Hr as <- <-. exists fs. split; [lia|]. split; [done|]. intros c' k' [= <- <-]. exact Hcur.
  - rewrite bind_unfold in Hr. destruct (on_exec (reads stack_bytes) mc) as [x mc1] eqn:Hs.
    destruct (stack_bytes_cap _ _ _ Hs) as [-> Hcap].
    destruct x as [nb|e|w0]; [|injection Hr as <- <-; apply (goes_stop _ fs); [lia|done|done]..].
    specialize (Hcap nb eq_refl). destruct (_ <=? nb); [injection Hr as <- <-; apply (goes_stop _ fs); [lia|done|done]|].
    eapply return_then; [exact Ha|done|exact Hr|]. intros fs' mc1 Hl Ha' Hr'.
    eapply (call_goes P); [exact Ha'|lia|done| |exact Hr'|done].
    rewrite (frames_above _ _ _ _ _ (af_inside _ _ _ _ _ _ _ Ha')). assert (zlen fs' ≤ zlen fs) by (unfold zlen; lia). lia.
  - rewrite bind_unfold in Hr. unfold lift in Hr.
    destruct (code_n_params _) as [n|e|w0]; [|injection Hr as <- <-; apply (goes_stop _ fs); [lia|done|done]..].
    eapply pop_then; [exact Ha|lia|exact Hr|done|]. intros b fs' mc1 Hl Ha' Hr'.
    eapply (call_goes P); [exact Ha'|lia|done| |exact Hr'|done]. pose proof (af_cap _ _ _ _ _ _ _ Ha) as Hc.
    rewrite (frames_above _ _ _ _ _ (af_inside _ _ _ _ _ _ _ Ha')). assert (zlen fs' + 1 = zlen fs) by (unfold zlen; lia). lia.
  - eapply pop_then; [exact Ha|lia|exact Hr|done|]. intros b fs' mc1 Hl Ha' Hr'. eapply goes_on_le; [|exact (host_goes P _ _ _ _ _ _ _ Hosts Ha' Hr' Hp)]. lia.
  - eapply return_then; [exact Ha|done|exact Hr|]. intros fs' mc1 Hl Ha' Hr'. eapply goes_on_le; [|exact (host_goes P _ _ _ _ _ _ _ Hosts Ha' Hr' Hp)]. lia.
  - eapply pop_then; [exact Ha|lia|exact Hr|done|]. intros b fs' mc1 Hl Ha' Hr'. eapply Hstop; [exact Hr'| |done]. lia.
  - eapply return_then; [exact Ha|done|exact Hr|]. intros fs' mc1 Hl Ha' Hr'. eapply Hstop; [exact Hr'| |done]. lia.
  - eapply return_then; [exact Ha|done|exact Hr|]. intros fs' mc1 Hl Ha' Hr'. eapply Hstop; [exact Hr'| |done]. lia.
  - eapply return_then; [exact Ha|done|exact Hr|]. intros fs' mc1 Hl Ha' Hr'. eapply Hstop; [exact Hr'| |done]. lia.
  - eapply return_then; [exact Ha|done|exact Hr|]. intros fs' mc1 Hl Ha' Hr'. eapply Hstop; [exact Hr'| |done]. lia.
Qed.

(** *** The gates and the whole turn: a gated instruction moves the store from [P] to [P'] *)
Section gated.
Context (P P' : StoreInner → Prop) {HP : StorePred P} {HP' : StorePred P'} (fuel epoch : bool)
  (Hspend : ∀ s, P s → if fuel then 0 < si_fuel s → P' (set_si_fuel (si_fuel s - 1) s) else P' s).

Lemma at_fs_pred Q Q' fs mc mc' : at_fs Q fs mc → mc_ex mc' = mc_ex mc → st_exec_slot (mc_store mc') = st_exec_slot (mc_store mc) →
  Q' (st_inner (mc_store mc')) → at_fs Q' fs mc'.
Proof using -Hspend. intros [Hin Hst Hsl Hc Hp] He Hs HQ. split; rewrite ?He, ?Hs; done. Qed.

Definition gate_post (fs : list Frame) (r : res (option Outcome)) mc' : Prop :=
  match r with
  | Ok None => at_fs P' fs mc'
  | Ok (Some OcFuelYield) => running P (length fs) mc'
  | Ok (Some _) => running P' (length fs) mc'
  | _ => at_fs P fs mc'
  end.
Lemma epoch_gate fs ip mc r mc' : at_fs P' fs mc → fs ≠ [] →
  (if epoch then mc ← get; modify tick;;
     if epoch_deadline_reached (epoch_at (mc_clock mc)) (st_inner (mc_store mc))
     then on_exec (set_top_ip (frame_err "missing frame at epoch deadline") ip);; mret (Some OcEpochDeadline)
     else mret None
   else mret None) mc = (r, mc') → gate_post fs r mc'.
Proof using -Hspend.
  intros Ha Hne. destruct epoch; [|by intros [= <- <-]]. rewrite get_run, modify_run.
  assert (at_fs P' fs (tick mc)) as Ha1 by (eapply at_fs_pred; [exact Ha|done..|apply Ha]).
  destruct (epoch_deadline_reached _ _); [|by intros [= <- <-]]. rewrite bind_unfold.
  destruct (on_exec _ (tick mc)) as [y mc1] eqn:Hs. destruct (set_ip_at _ _ _ _ _ _ _ Ha1 Hne Hs) as (-> & fs' & Hl & _ & Ha2).
  intros [= <- <-]. cbn. exists fs'. split; [lia|done].
Qed.
Lemma gates_at fs ip mc r mc' : at_fs P fs mc → fs ≠ [] → service_gates fuel epoch ip mc = (r, mc') → gate_post fs r mc'.
Proof using All.
  intros Ha Hne. unfold service_gates. destruct fuel; cycle 1.
  { intros Hr. eapply epoch_gate; [|done|exact Hr]. eapply at_fs_pred; [exact Ha|done..|]. by apply Hspend, Ha. }
  rewrite bind_unfold. rewrite bind_unfold. unfold on_si at 1, on_typed, on_inner, zoom, consume_fuel_step.
  pose proof (Hspend _ (af_pred _ _ _ _ _ _ _ Ha)) as Hs0.
  destruct (Z.ltb_spec 0 (si_fuel (st_inner (mc_store mc)))) as [Hpos|]; cbn [fst snd].
  - intros Hr. eapply epoch_gate; [|done|exact Hr]. eapply at_fs_pred; [exact Ha|done..|]. by apply Hs0.
  - assert (at_fs P fs (set_mc_store (set_st_inner (st_inner (mc_store mc)) (mc_store mc)) mc)) as Ha1
      by (eapply at_fs_pred; [exact Ha|done..|apply Ha]).
    destruct (0 <? si_fuel_reserve _); cbn [fst snd]; [|by intros [= <- <-]]. destruct cfg_async; [|by intros [= <- <-]].
    rewrite bind_unfold. destruct (on_exec _ _) as [y mc1] eqn:Hs. destruct (set_ip_at _ _ _ _ _ _ _ Ha1 Hne Hs) as (-> & fs' & Hl & _ & Ha2).
    intros [= <- <-]. cbn. exists fs'. split; [lia|done].
Qed.

Definition turn_post (fs : list Frame) (r : res Turn) mc' : Prop :=
  match r with
  | Ok (TurnGo c _) => ∃ fs', cursor_at c fs' ∧
      (at_fs P fs' mc' ∧ S (length fs') = length fs ∨ at_fs P' fs' mc' ∧ (length fs' ≤ S (length fs))%nat)
  | Ok (TurnDone o) =>
      (o = OcFinished ∨ o = OcFuelYield) ∧ running P (length fs) mc' ∨ running P' (S (length fs)) mc'
  | _ => running P (length fs) mc' ∨ running P' (S (length fs)) mc'
  end.
Lemma goes_post fs r mc' : goes_on P' (S (length fs)) r mc' → turn_post fs r mc'.
Proof using All.
  intros (fs' & Hl & Ha & Hc). destruct r as [[c k|o]|e|w]; cbn.
  - exists fs'. split; [by eapply Hc|]. by right.
  - right. by exists fs'.
  - right. by exists fs'.
  - right. by exists fs'.
Qed.

(** An instruction, with its error path. *)
Lemma instruction_goes fs gcw c k op ops mc r mc' : hosts_ok (L:=L) P' → at_fs P' fs mc → cursor_at c fs →
  code_ops_of (cu_code c) (cu_func c) = Ok ops → zget ops (cu_ip c) = Some op →
  instruction stop gcw c k op mc = (r, mc') → no_panic r → goes_on P' (S (length fs)) r mc'.
Proof using All.
  intros Hosts Ha Hcur Hops Hop Hr Hp. pose proof Hcur as (fs0 & f & -> & Hcode & Hbase).
  pose proof (af_stack _ _ _ _ _ _ _ Ha) as Hst. pose proof Hst as ([Hn0 _] & [_ Hmod] & Hfl)%stack_ok_snoc.
  pose proof (stack_inv_inside ex0 d depth Hd _ (proj1 Hst)) as HSI. pose proof (top_floor_ge _ _ Hn0).
  assert (op_ok op) as Hok.
  { rewrite Hcode in Hops. destruct Hmod as (Hall & _). unfold code_ops_of, span_slice in Hops.
    destruct (zslice _ _ _) as [l|] eqn:Hz; cbn in Hops; [injection Hops as ->|done]. apply zslice_Some in Hz as (_ & _ & ->).
    assert (Forall op_ok (ztake (sp_start (cf_ops (cu_func c)) + sp_len (cf_ops (cu_func c)) - sp_start (cf_ops (cu_func c)))
      (zdrop (sp_start (cf_ops (cu_func c))) (ca_ops (mi_code (code_module (fr_code f))))))) as Hall' by (by apply Forall_take, Forall_drop).
    unfold zget in Hop. destruct (0 <=? _); [|done]. rewrite Forall_lookup in Hall'. by eapply Hall'. }
  unfold instruction in Hr. destruct (on_vm _ mc) as [x mc1] eqn:Hx.
  assert (no_panic x) as Hxp by (destruct x as [|?|w0]; [done|done|injection Hr as <- <-; by destruct (Hp w0)]).
  assert (at_fs P' (fs0 ++ [f]) mc1) as Ha1.
  { revert Hx Hxp. apply (λ H : keeps _ _, H mc x mc1 Ha). apply keeps_on_vm; [done|]. intros cv. apply keeps_step; [done| |done].
    intros i cell tag Hi. apply inside_set_cell. lia. }
  destruct x as [o|e|w]; [|..].
  - eapply (outcome_goes P'); [done|exact Ha1|done| |exact Hr|done].
    unfold on_vm, zoom in Hx. destruct (step _ _ _ _ _ (mc_vm mc)) as [y v] eqn:Hs. injection Hx as -> _.
    pose proof (sp_modules _ (af_pred _ _ _ _ _ _ _ Ha)) as Hall.
    exact (yields_step (inside ex0 d depth (fs0 ++ [f])) (code_view (st_inner (mc_store mc))) Hall _ _ _ _ _ (mc_vm mc) _ _
      (conj (af_inside _ _ _ _ _ _ _ Ha) eq_refl) Hs).
  - unfold handle_error in Hr. rewrite bind_unfold in Hr. cbn [ask_si reads] in Hr. rewrite bind_unfold in Hr.
    destruct (on_exec (unwind _ _ _ _) mc1) as [y mc2] eqn:Hu.
    assert (no_panic y) as Hy by (destruct y as [|?|w0]; [done|done|injection Hr as <- <-; by destruct (Hp w0)]).
    destruct (keeps_unwinding ex0 d depth P' FRAME_CAP (length (fs0 ++ [f])) _ (λ n, above_unwind ex0 d depth Hd n _ e (cu_ip c) stop ltac:(lia))
      mc1 y mc2 (running_at _ _ _ _ _ _ _ Ha1) Hu Hy) as (fs' & Hl & Ha2).
    destruct y as [u|e'|w]; [|injection Hr as <- <-; apply (goes_stop _ fs'); [lia|done|done]..].
    by eapply (top_then _ _ fs'); [lia|exact Ha2|exact Hr].
  - injection Hr as <- <-. by destruct (Hp w).
Qed.

Lemma turn_inv fs gcw c k mc r mc' : hosts_ok (L:=L) P' → at_fs P fs mc → cursor_at c fs →
  turn stop fuel epoch gcw c k mc = (r, mc') → no_panic r → turn_post fs r mc'.
Proof using All.
  intros Hosts Ha Hcur Hr Hp. pose proof (cursor_last _ _ Hcur) as Hne.
  unfold turn in Hr. rewrite bind_unfold in Hr. unfold lift in Hr.
  destruct (code_ops_of _ _) as [ops|e|w] eqn:Hops; [|injection Hr as <- <-; left; by exists fs..].
  cbv beta in Hr. destruct (zget ops (cu_ip c)) as [op|] eqn:Hop.
  - rewrite bind_unfold in Hr. destruct (_ mc) as [g mc1] eqn:Hg in Hr.
    assert (gate_post fs g mc1) as Hpost.
    { destruct (fuel || epoch) eqn:Hfe; [by eapply gates_at|]. injection Hg as <- <-. cbn.
      apply orb_false_iff in Hfe as [Hf _]. rewrite Hf in Hspend. eapply at_fs_pred; [exact Ha|done..|]. by apply Hspend, Ha. }
    destruct g as [[o|]|e|w]; cbn in Hpost.
    + injection Hr as <- <-. destruct o;
        first [right; destruct Hpost as (fs' & ? & ?); exists fs'; split; [lia|assumption]|left; split; [by right|assumption]].
    + apply goes_post. by eapply instruction_goes.
    + injection Hr as <- <-. left. by exists fs.
    + injection Hr as <- <-. left. by exists fs.
  - rewrite bind_unfold in Hr. destruct (on_exec (do_return _ _ _) mc) as [y mc1] eqn:Hrt.
    assert (no_panic y) as Hy by (destruct y as [|?|w0]; [done|done|injection Hr as <- <-; by destruct (Hp w0)]).
    pose proof (pop_frame _ _ _ _ _ _ _ Ha Hrt Hy) as Hpop.
    destruct y as [b|e|w]; [|injection Hr as <- <-; left; by exists fs..]. destruct Hpop as (_ & fs' & f & -> & Ha').
    destruct b.
    + injection Hr as <- <-. left. split; [by left|]. exists fs'. split; [rewrite length_app; lia|done].
    + rewrite bind_unfold in Hr. destruct (top_cursor mc1) as [y mc2] eqn:Ht.
      destruct (top_cursor_at _ _ _ _ _ Ha' Ht) as [-> Hc2].
      assert (running P (length (fs' ++ [f])) mc1) as Hrun by (exists fs'; split; [rewrite length_app; lia|done]).
      destruct y as [c'|e|w]; injection Hr as <- <-; [|left; exact Hrun..]. exists fs'. split; [by apply Hc2|]. left.
      split; [done|]. rewrite length_app. cbn. lia.
Qed.
End gated.

(** *** The loops *)
Section loops.
Context (P : StoreInner → Prop) {HP : StorePred P} (Hosts : hosts_ok (L:=L) P)
  (Hfuel : ∀ s, P s → 0 < si_fuel s → P (set_si_fuel (si_fuel s - 1) s)).

Lemma loop_inv n fuel epoch gcw fs c k mc r mc' : at_fs P fs mc → cursor_at c fs →
  dispatch_loop n stop fuel epoch gcw c k mc = Some (r, mc') → no_panic r → ∃ m, running P m mc'.
Proof using All.
  revert fs c k mc. induction n as [|n IH]; [done|]. intros fs c k mc Ha Hcur. cbn [dispatch_loop].
  destruct (turn _ _ _ _ _ _ mc) as [t mc1] eqn:Ht. unfold and_then.
  assert (no_panic t → turn_post P P fs t mc1) as Hpost.
  { intros Hp. eapply (turn_inv P P fuel epoch); [|done|exact Ha|exact Hcur|exact Ht|done]. intros s Hs. destruct fuel; auto. }
  destruct t as [[c' k'|o]|e|w].
  - destruct (Hpost ltac:(done)) as (fs' & Hc' & [[Ha' _]|[Ha' _]]); by eapply IH.
  - intros [= <- <-] _. destruct (Hpost ltac:(done)) as [[_ ?]|?]; eauto.
  - intros [= <- <-] _. destruct (Hpost ltac:(done)) as [?|?]; eauto.
  - intros [= <- <-] Hp. by destruct (Hp w).
Qed.
Lemma dispatch_inv n fuel epoch fs mc r mc' : at_fs P fs mc →
  dispatch n stop fuel epoch mc = Some (r, mc') → no_panic r → ∃ m, running P m mc'.
Proof using All.
  intros Ha. unfold dispatch. destruct (top_cursor mc) as [x mc1] eqn:Ht. destruct (top_cursor_at _ _ _ _ _ Ha Ht) as [-> Hcur].
  unfold and_then. destruct x as [c|e|w].
  - intros Hr Hp. eapply loop_inv; [exact Ha|by apply Hcur|exact Hr|done].
  - intros [= <- <-] _. by exists (length fs), fs.
  - intros [= <- <-] Hp. by destruct (Hp w).
Qed.

Abbreviation loosely := (loosely ex0 d depth P).
Lemma bytes_recap cap fs mc r mc' : Isolation.at_fs ex0 d depth P cap fs mc → on_exec (reads stack_bytes) mc = (r, mc') →
  mc' = mc ∧ ∀ n, r = Ok n → at_fs P fs mc.
Proof using All.
  intros [Hin Hst Hsl Hc Hp] Hr. destruct (stack_bytes_cap _ _ _ Hr) as [-> Hcap]. split; [done|].
  intros n Hn. specialize (Hcap n Hn). split; try done. lia.
Qed.
Lemma run_inv n cap fs mc r mc' : Isolation.at_fs ex0 d depth P cap fs mc → run n stop mc = Some (r, mc') → no_panic r →
  loosely mc' ∧ ∀ o, r = Ok o → o ≠ OcFinished → ∃ m, running P m mc'.
Proof using All.
  intros Ha. assert (loosely mc) as Hlo by (by exists cap, (length fs), fs). unfold run.
  destruct (_ =? stop); [intros [= <- <-] _; split; [done|]; by intros o [= <-]|].
  destruct (on_exec (reads stack_bytes) mc) as [x mc1] eqn:Hb. destruct (bytes_recap _ _ _ _ _ Ha Hb) as [-> Hcap].
  unfold and_then. destruct x as [nb|e|w]; [|by intros [= <- <-] _|intros [= <- <-] Hp; by destruct (Hp w)].
  destruct (_ <=? nb); [by intros [= <- <-] _|]. intros Hr Hp.
  destruct (dispatch_inv _ _ _ _ _ _ _ (Hcap nb eq_refl) Hr Hp) as (m & Hm). split; [by exists FRAME_CAP, m|eauto].
Qed.
Lemma service_inv (m : SM (Machine L) ()) k mc (g : Machine L → option (res () * Machine L)) r mc' :
  (∀ n, keeps (running P n) m) → running P k mc →
  and_then (m mc) (λ _, g) = Some (r, mc') → no_panic r →
  (∀ mc1, running P k mc1 → g mc1 = Some (r, mc') → loosely mc') → loosely mc'.
Proof using All.
  intros Hm Hrun Hr Hp Hg. destruct (m mc) as [x mc1] eqn:Hx. unfold and_then in Hr.
  destruct x as [u|e|w]; [|injection Hr as <- <-|injection Hr as <- <-; by destruct (Hp w)].
  - apply (Hg mc1); [|done]. by eapply (Hm k mc).
  - exists FRAME_CAP, k. by eapply (Hm k mc).
Qed.
Lemma drive_inv n mc r mc' : loosely mc → drive n stop mc = Some (r, mc') → no_panic r → loosely mc'.
Proof using All.
  revert mc. induction n as [|n IH]; [done|]. intros mc (cap & k & fs & _ & Ha). cbn [drive]. cbv zeta.
  destruct (run (S n) stop mc) as [[x mc1]|] eqn:Hrun; [|done]. cbn [mbind option_bind].
  destruct x as [o|e|w]; cbn [and_then]; cycle 1.
  - intros [= <- <-] _. eapply run_inv; [exact Ha|exact Hrun|done].
  - intros [= <- <-] Hp. by destruct (Hp w).
  - destruct (run_inv _ _ _ _ _ _ Ha Hrun ltac:(done)) as [Hlo Hrn]. specialize (Hrn o eq_refl).
    assert (∀ m' mc2, running P m' mc2 → drive n stop mc2 = Some (r, mc') → no_panic r → loosely mc') as Hnext.
    { intros m' mc2 Hm'. apply IH. by exists FRAME_CAP, m'. }
    intros Hr Hp. destruct o; try (injection Hr as <- <-; done); destruct (Hrn ltac:(done)) as (m & Hm).
    all: eapply (service_inv _ m); [|exact Hm|exact Hr|done|]; [|intros mc2 Hm2 Hd2; by eapply Hnext].
    all: intros m'; first [by apply keeps_do_grow|by apply keeps_do_grow_table|by apply keeps_do_grow_gc|by apply keeps_epoch_deadline].
Qed.
End loops.
End turns.

(** ** Entering and leaving *)
Section boundary.
Context `{Features} (ex0 : Execution) (Hdep : 0 ≤ ex_host_reentry_depth ex0) (Hlock : lockstep ex0).
Context (dl : Delimiter) (instance : Handle) (code : Code) (func : CompiledFunc).
Abbreviation d := (delimiter_frame dl instance code func ex0).
Abbreviation D := (depth_after dl (ex_host_reentry_depth ex0)).

Lemma depth_after_nonneg : 0 ≤ D.
Proof using Hdep. unfold depth_after. destruct (decide _); lia. Qed.

Lemma inside_entered func_index tys args cells : code_func code = Ok func → module_ok (code_module code) →
  encode_args args = Ok cells → call_ready (boundary dl instance code func args cells ex0) func tys →
  ∃ f, inside ex0 d D [f] (entered instance func_index code func tys (boundary dl instance code func args cells ex0)) ∧
    stack_ok (zlen (ex_values ex0)) [f].
Proof using Hlock.
  intros Hf Hm Hargs [_ Hlen Hpar _]. destruct (encode_args_len _ _ Hargs) as [Hl _]. pose proof (code_params_ok _ _ Hm Hf).
  pose proof (zlen_nonneg tys). pose proof (zlen_nonneg cells). unfold lockstep in Hlock.
  set (p := zlen (ex_values ex0) + zlen cells).
  assert (frame_floor (ex_frames (boundary dl instance code func args cells ex0)) = zlen (ex_values ex0)) as Hfl.
  { unfold frame_floor, boundary. cbn -[last zlen]. by rewrite last_snoc. }
  assert (zlen (ex_values (boundary dl instance code func args cells ex0)) = p) as Hv.
  { unfold boundary. cbn -[zlen]. by rewrite zlen_app. }
  rewrite Hfl, Hv in Hpar.
  set (f := {| fr_code := code; fr_func := func; fr_ip := 0; fr_locals_base := p - cf_n_params func;
    fr_operand_base := p + zlen tys; fr_instance := instance; fr_func_index := func_index; fr_delimiter := None |}).
  exists f. split.
  - split.
    + cbn -[ztake zlen]. by rewrite <- app_assoc, ztake_app.
    + cbn -[ztake zlen]. by rewrite <- app_assoc, ztake_app.
    + unfold lockstep. cbn -[zlen]. rewrite !zlen_app, !zlen_fmap. lia.
    + unfold top_floor, entered, pushed. cbn -[zlen boundary] in *. rewrite zlen_app, zlen_fmap, Hv. done.
    + unfold entered, frames_push. cbn [ex_frames set_ex_frames pushed]. rewrite Hv. unfold boundary. cbn -[zlen p]. by rewrite <- app_assoc.
    + done.
  - split; [|by apply Forall_singleton]. cbn [nested f fr_locals_base fr_operand_base]. split; [|done]. lia.
Qed.

Lemma inside_split fs ex : inside ex0 d D fs ex →
  ex_values ex = ex_values ex0 ++ zdrop (zlen (ex_values ex0)) (ex_values ex) ∧
  ex_shadow ex = ex_shadow ex0 ++ zdrop (zlen (ex_values ex0)) (ex_shadow ex) ∧
  zlen (ex_values ex0) ≤ zlen (ex_values ex).
Proof using.
  intros [Hv Hs Hl _ _ _]. split_and!.
  - rewrite <- Hv at 1. by rewrite ztake_drop.
  - rewrite <- Hs at 1. by rewrite ztake_drop.
  - assert (zlen (ztake (zlen (ex_values ex0)) (ex_values ex)) = zlen (ex_values ex0)) as Hz by (by rewrite Hv).
    unfold ztake, zlen in *. rewrite length_take in Hz. lia.
Qed.
Lemma discard_inside fs ex : inside ex0 d D fs ex →
  discard_to (zlen (ex_values ex0)) (zlen (ex_frames ex0)) ex = (Ok tt, ex0).
Proof using Hdep Hlock.
  intros Hin. destruct (inside_split _ _ Hin) as (Hv & Hs & Hle). pose proof (frames_above _ _ _ _ _ Hin) as Hfl.
  pose proof (zlen_nonneg fs). destruct Hin as [_ _ Hl _ Hf Hdp].
  assert (ex_frames ex = (ex_frames ex0 ++ [d]) ++ fs) as Hf' by (by rewrite <- app_assoc).
  unfold discard_to. rewrite get_run. unfold lockstep in Hl. rewrite Hl, Z.eqb_refl, <- Hl, !(proj2 (Z.ltb_ge _ _)) by lia.
  cbn [negb orb]. rewrite bind_unfold, (release_run ex0 ex dl instance code func fs Hdep Hf' Hdp), modify_run.
  unfold modify. by rewrite (restore_eq ex0 ex _ _ dl instance code func fs Hlock Hv Hs Hf').
Qed.
Lemma take_inside fs ex tys : inside ex0 d D fs ex →
  take_results (zlen (ex_values ex0)) (zlen (ex_frames ex0)) tys ex = (Ok (zdrop (zlen (ex_values ex0)) (ex_values ex)), ex0) ∨
  ∃ e, take_results (zlen (ex_values ex0)) (zlen (ex_frames ex0)) tys ex = (Err e, ex).
Proof using Hdep Hlock.
  intros Hin. destruct (inside_split _ _ Hin) as (Hv & Hs & Hle). pose proof (frames_above _ _ _ _ _ Hin) as Hfl.
  pose proof (zlen_nonneg fs). destruct Hin as [_ _ Hl _ Hf Hdp].
  assert (ex_frames ex = (ex_frames ex0 ++ [d]) ++ fs) as Hf' by (by rewrite <- app_assoc).
  unfold take_results. rewrite get_run. unfold lockstep in Hl. rewrite Hl, Z.eqb_refl, <- Hl, !(proj2 (Z.ltb_ge _ _)) by lia.
  cbn [negb orb]. rewrite bind_unfold. unfold reads.
  destruct (validate_result_tags _ _ _) as [u|e|w] eqn:Hvr.
  - left. rewrite bind_unfold, (release_run ex0 ex dl instance code func fs Hdep Hf' Hdp), !modify_run.
    by rewrite (restore_eq ex0 ex _ _ dl instance code func fs Hlock Hv Hs Hf').
  - right. by exists e.
  - exfalso. unfold validate_result_tags in Hvr. by repeat case_match.
Qed.
End boundary.

(** ** The whole call *)
Section call.
Context `{Features, FloatHost, EngineTypes, TypeOrder, EngineFuncs, FrameSize, HostAlloc, EngineConfig}
  {L : Type} `{ResourceLimiter L, HostCode L}.
Context (Hsize : 2 ≤ frame_size).
Implicit Types st : StoreT L.

Definition delim_of (ex : Execution) : Delimiter := if zlen (ex_frames ex) =? 0 then TopLevel else HostReentry.
Abbreviation bframe i code func ex := (delimiter_frame (delim_of ex) i code func ex).
Abbreviation bdepth ex := (depth_after (delim_of ex) (ex_host_reentry_depth ex)).
Definition bounds (ex : Execution) : Boundary :=
  {| b_value_base := zlen (ex_values ex); b_stop_depth := zlen (ex_frames ex); b_run_stop := zlen (ex_frames ex) + 1 |}.

Definition enter_post (instance : Handle) (code : Code) st (r : res (Execution * Boundary)) st1 : Prop :=
  code_view (st_inner st1) = code_view (st_inner st) ∧
  match r with
  | Ok (exec, b) => st_exec_slot st1 = execution_default ∧ b = bounds (st_exec_slot st) ∧ lockstep (st_exec_slot st) ∧
      ∃ func f, inside (st_exec_slot st) (bframe instance code func (st_exec_slot st)) (bdepth (st_exec_slot st)) [f] exec ∧
        stack_ok (zlen (ex_values (st_exec_slot st))) [f]
  | Err _ => st_exec_slot st1 = st_exec_slot st
  | Panic _ => True
  end.
Lemma enter_cases instance func_index code args st r st1 : slot_wf (st_exec_slot st) → module_ok (code_module code) →
  enter instance func_index code args st = (r, st1) → enter_post instance code st r st1.
Proof using All.
  intros [Hempty Hdep Hcap] Hm. unfold enter. rewrite get_run, bind_unfold.
  set (chk := if has_parked_execution st then _ else _). destruct (chk st) as [x st0] eqn:Hchk.
  assert (code_view (st_inner st0) = code_view (st_inner st) ∧ st_exec_slot st0 = st_exec_slot st ∧ (∃ e, x = Ok e)) as (Hv0 & Hs0 & (e & ->)).
  { unfold chk in Hchk. destruct (has_parked_execution st); injection Hchk as <- <-; naive_solver. }
  clear Hchk chk. destruct e as [e|]; [by intros [= <- <-]|]. rewrite modify_run. set (ex := st_exec_slot st) in *. cbv zeta.
  change (if zlen (ex_frames ex) =? 0 then TopLevel else HostReentry) with (delim_of ex).
  destruct (enter_call_cases (delim_of ex) instance func_index code args ex)
    as [(func & tys & cells & Hl & Hf & _ & Hargs & Hready & ->)|[(e & ->)|(w & ex' & ->)]]; [| |by intros [= <- <-]].
  - unfold checked_add. rewrite (proj2 (Z.ltb_lt _ _)) by (unfold FRAME_CAP in Hcap; lia). cbn [ok_or]. lift_step. intros [= <- <-].
    split; [done|]. split_and!; [done..|].
    destruct (inside_entered ex Hl (delim_of ex) instance code func func_index tys args cells Hf Hm Hargs Hready) as (f & Hin & Hok).
    by exists func, f.
  - rewrite bind_unfold. destruct (Z.eqb_spec (zlen (ex_frames ex)) 0) as [Hz|]; intros [= <- <-]; (split; [done|]); [|done].
    cbn. symmetry. apply Hempty. by destruct (ex_frames ex).
Qed.

(** Handing out the results only roots them. *)
Lemma root_result_view v s r s' : root_host_result v s = (r, s') → code_view s' = code_view s.
Proof using. unfold root_host_result. destruct (stamp_host_value s v) as [x|e|w]; intros [= <- <-]; [|done..]. by repeat case_match. Qed.
Lemma keeps_root_results c vs : keeps (λ s, code_view s = c) (root_results vs).
Proof using.
  induction vs as [|v vs IH]; cbn [root_results]; [apply keeps_ret|]. apply keeps_bind.
  - intros s r s' Hs. destruct (root_host_result v s) as [x s1] eqn:Hr. apply root_result_view in Hr.
    destruct x; intros [= <- <-]; by rewrite Hr.
  - intros x. apply keeps_bind; [done|intros; apply keeps_ret].
Qed.
Lemma keeps_decode_results c tys cells : keeps (λ s, code_view s = c) (decode_results tys cells).
Proof using.
  unfold decode_results. destruct (negb _); [apply keeps_fail|]. apply keeps_bind; [apply keeps_lift|intros vs].
  apply keeps_get. intros s0. destruct (ensure_values_match _ _ _ _); [|apply keeps_fail|apply keeps_panic].
  by apply keeps_on_err; [apply keeps_root_results|].
Qed.
Lemma surface_view e s : code_view (snd (surface_exception e s)) = code_view s.
Proof using. unfold surface_exception. by repeat case_match. Qed.

Lemma close_inside ex instance code func fs exec tys outcome s r exec' s' :
  0 ≤ ex_host_reentry_depth ex → lockstep ex → inside ex (bframe instance code func ex) (bdepth ex) fs exec →
  (∀ w, outcome ≠ Panic w) → close exec (bounds ex) tys outcome s = (r, exec', s') →
  exec' = ex ∧ (no_panic r → code_view s' = code_view s).
Proof using All.
  intros Hdep Hl Hin Hnp. unfold close. cbn [b_value_base b_stop_depth bounds].
  pose proof (discard_inside ex Hdep Hl _ instance code func fs exec Hin) as Hd.
  destruct outcome as [u|e|w]; [| |by destruct (Hnp w)].
  - destruct (take_inside ex Hdep Hl _ instance code func fs exec tys Hin) as [-> | (e & ->)].
    + destruct (decode_results _ _ s) as [x s1] eqn:Hr. intros [= <- <- <-]. split; [done|]. intros Hp.
      by eapply (keeps_decode_results (code_view s)).
    + rewrite Hd. by intros [= <- <- <-].
  - rewrite Hd. destruct (surface_exception e s) as [e' s1] eqn:He. intros [= <- <- <-]. split; [done|].
    intros _. pose proof (surface_view e s) as Hv. by rewrite He in Hv.
Qed.
Lemma finish_slot ex instance code func fs exec tys outcome st r st' :
  slot_wf ex → lockstep ex → inside ex (bframe instance code func ex) (bdepth ex) fs exec → st_exec_slot st = execution_default →
  (∀ w, outcome ≠ Panic w) → finish exec (bounds ex) tys outcome st = (r, st') → no_panic r →
  st_exec_slot st' = ex ∧ code_view (st_inner st') = code_view (st_inner st).
Proof using All.
  intros [Hempty Hdep _] Hl Hin Hslot Hnp. unfold finish. destruct (close _ _ _ _ _) as [[x exec'] s'] eqn:Hc.
  destruct (close_inside _ _ _ _ _ _ _ _ _ _ _ _ Hdep Hl Hin Hnp Hc) as [-> Hv]. cbn [b_stop_depth bounds].
  destruct (Z.eqb_spec (zlen (ex_frames ex)) 0) as [Hz|].
  - intros [= <- <-] Hp. split; [|by apply Hv]. cbn. rewrite Hslot. symmetry. apply Hempty. by destruct (ex_frames ex).
  - intros [= <- <-] Hp. split; [done|]. rewrite <- (Hv Hp). unfold latch_internal_error. by repeat case_match.
Qed.

(** The call keeps what instructions and embedder code keep, and the slot. *)
Lemma execute_keeps P `{!StorePred P} n clock instance func_index code args tys st r st' :
  hosts_ok (L:=L) P → (∀ s, P s → 0 < si_fuel s → P (set_si_fuel (si_fuel s - 1) s)) →
  module_ok (code_module code) → slot_wf (st_exec_slot st) → P (st_inner st) →
  execute n clock instance func_index code args tys st = Some (r, st') → no_panic r →
  P (st_inner st') ∧ st_exec_slot st' = st_exec_slot st.
Proof using Hsize.
  intros Hosts Hfuel Hm Hwf HP. unfold execute. destruct (enter _ _ _ _ st) as [x st1] eqn:He.
  destruct (enter_cases _ _ _ _ _ _ _ Hwf Hm He) as [Hv Hpost].
  assert (P (st_inner st1)) as HP1 by (by eapply sp_view).
  destruct x as [[exec b]|e|w]; [|by intros [= <- <-]|intros [= <- <-] Hp; by destruct (Hp w)].
  destruct Hpost as (Hs1 & -> & Hl & func & f & Hin & Hok). set (ex := st_exec_slot st) in *.
  destruct (drive _ _ _) as [[outcome mc]|] eqn:Hdr; [|done]. cbn [mbind option_bind]. intros Hr Hp.
  assert (∀ w, outcome ≠ Panic w) as Hnp by (intros w ->; injection Hr as <- <-; by destruct (Hp w)).
  assert (loosely ex (bframe instance code func ex) (bdepth ex) P mc) as (cap & m & fs & _ & [Hin' _ Hslot _ HPs]).
  { eapply (drive_inv ex (bframe instance code func ex) (bdepth ex) eq_refl ltac:(done)
      (depth_after_nonneg ex (sw_depth _ Hwf) _) Hsize P Hosts Hfuel); [|exact Hdr|done].
    exists (zlen (ex_frames exec)), 1%nat, [f]. split; [done|]. by split. }
  destruct outcome as [u|e|w]; [| |by destruct (Hnp w)]; injection Hr as Hr;
    (eapply finish_slot in Hr as [Hsl Hv']; [|done..]; split; [by eapply sp_view|done]).
Qed.
(** C2: a call leaves the execution slot exactly as it found it. Entering,
    running to any outcome (results, trap, exception, host failure, fuel or epoch
    interruption) and leaving gives the parked outer call back with its operands, frames
    and re-entry depth, and keeps any property of the store that instructions and
    embedder code keep; [execute] meets its own requirement on embedder code, so
    hosts that call back into wasm are covered, to any depth. *)
Theorem execute_isolated P `{!StorePred P} n clock instance func_index code args tys st r st' :
  hosts_ok (L:=L) P → (∀ s, P s → 0 < si_fuel s → P (set_si_fuel (si_fuel s - 1) s)) →
  module_ok (code_module code) → slot_wf (st_exec_slot st) → P (st_inner st) →
  execute n clock instance func_index code args tys st = Some (r, st') → no_panic r →
  P (st_inner st') ∧ st_exec_slot st' = st_exec_slot st.
Proof using Hsize. exact (execute_keeps P n clock instance func_index code args tys st r st'). Qed.
End call.

(** ** Panicking embedder code *)
Section panic.
Context `{Features} {L : Type}.
Implicit Types mc : Machine L.

Lemma find_boundary_above F d fs : fr_delimiter d ≠ None → Forall guest_frame fs →
  find_boundary (length (F ++ d :: fs)) (F ++ d :: fs) = Some (zlen F, fr_locals_base d).
Proof using.
  intros Hd Hg. assert (∀ k, (k ≤ length fs)%nat →
    find_boundary (S (length F + k)) (F ++ d :: fs) = Some (zlen F, fr_locals_base d)) as Hk; cycle 1.
  { rewrite length_app. cbn [length]. rewrite Nat.add_succ_r. by apply Hk. }
  induction k as [|k IH]; intros Hk; cbn [find_boundary].
  - rewrite Nat.add_0_r, list_lookup_middle by done. by rewrite bool_decide_eq_true_2.
  - rewrite lookup_app_r by lia. replace (length F + S k - length F)%nat with (S k) by lia.
    destruct (lookup_lt_is_Some_2 fs k) as [g Hlk]; [lia|]. rewrite lookup_cons_ne_0 by done; cbn [pred]; rewrite Hlk.
    rewrite Forall_lookup in Hg. destruct (Hg _ _ Hlk) as [-> _]. rewrite bool_decide_eq_false_2 by naive_solver.
    rewrite Nat.add_succ_r. apply IH. lia.
Qed.

(** C7: a panic in embedder code is contained: the panic goes on to the caller, and
    the store is left with the outer call parked exactly as it was before the
    panicking call was entered (nothing, at top level), the exception pending before
    the host call pending again under its own generation, the temporary GC roots
    gone and no internal error latched. *)
Theorem host_panic_contained {A} (f : SM (StoreT L) A) ex0 dl instance code func fs mark pending gen mc w st r mc' :
  slot_wf ex0 → lockstep ex0 →
  inside ex0 (delimiter_frame dl instance code func ex0) (depth_after dl (ex_host_reentry_depth ex0)) fs (mc_ex mc) →
  Forall guest_frame fs →
  f (set_st_exec_slot (mc_ex mc) (mc_store mc)) = (Panic w, st) → st_exec_slot st = mc_ex mc →
  with_parked mark pending gen f mc = (r, mc') →
  r = Panic w ∧ st_exec_slot (mc_store mc') = ex0 ∧
  let s := st_inner (mc_store mc') in
  si_pending_exception s = pending ∧ si_pending_exception_generation s = gen ∧
  si_gc_roots s = ztake mark (si_gc_roots (st_inner st)) ∧ si_internal_error s = None.
Proof using.
  intros [Hempty Hdep _] Hl Hin Hg Hf Hslot. unfold with_parked. cbn [swap_exec modify snd mc_store set_mc_store set_mc_ex].
  rewrite Hf. intros [= <- <-]. split; [done|]. cbn [mc_store set_mc_store]. unfold restore_after_panic. rewrite Hslot.
  unfold discard_current_call. rewrite get_run. pose proof (discard_inside ex0 Hdep Hl dl instance code func fs _ Hin) as Hdis.
  rewrite (in_frames _ _ _ _ _ Hin), find_boundary_above by done. cbn [ok_or]. lift_step. cbn [fst snd].
  rewrite bind_unfold. cbn [fr_locals_base delimiter_frame]. rewrite Hdis. cbn [mret M_ret].
  destruct (Z.eqb_spec (zlen (ex_frames ex0)) 0) as [Hz|]; cbn; (split; [|done]); [|done].
  symmetry. apply Hempty. by destruct (ex_frames ex0).
Qed.
End panic.

(** ** The re-entrant program of [Drive] *)
#[local] Existing Instances demo_features demo_floats demo_types demo_order demo_funcs demo_frame_size demo_alloc.

(** Every module of the store has unsigned immediates. *)
Definition modules_fine (s : StoreInner) : Prop := Forall module_ok (ie_module <$> si_instances s).
#[export] Instance modules_fine_pred : StorePred modules_fine.
Proof. split; [done|]. unfold modules_fine. by intros s s' Hs [= _ ->]. Qed.
Lemma demo_module_ok : module_ok demo_module.
Proof. split_and!; repeat constructor; vm_compute; congruence. Qed.

Lemma mute_host_ok P : @hosts_ok _ mute_host P.
Proof. split; [|by intros f [=]]. intros i h ps rs st r st' HP _ [= <- <-] _. done. Qed.

Lemma reentrant_host_ok : @hosts_ok _ (reentrant_host true) modules_fine.
Proof.
  split; [|by intros f [=]]. intros i h ps rs st r st' HP Hwf. unfold host_call, reentrant_host.
  destruct (execute _ _ _ _ _ _ _ st) as [[x st1]|] eqn:Hx.
  - intros [= <- <-] Hp. refine (execute_keeps _ modules_fine _ _ _ _ (demo_code 2) _ _ _ _ _ (mute_host_ok _) _ demo_module_ok Hwf HP Hx Hp).
    + vm_compute; congruence.
    + done.
  - intros [= <- <-] Hp. by destruct (Hp "out of turns").
Qed.

Lemma execute_isolated_witness : ∃ st', demo_main true 40 1 = Some (Ok [VI32 41], st') ∧
  modules_fine (st_inner st') ∧ st_exec_slot st' = execution_default.
Proof.
  assert (Hfine : modules_fine demo_inner) by (constructor; [apply demo_module_ok|constructor]).
  assert (Hfuel : ∀ s, modules_fine s → 0 < si_fuel s → modules_fine (set_si_fuel (si_fuel s - 1) s)) by done.
  assert (Hsize : 2 ≤ @frame_size demo_frame_size) by (vm_compute; congruence).
  pose proof demo_main_runs as Hres. destruct (demo_main true 40 1) as [[r st']|] eqn:Hrun; [|done].
  injection Hres as ->.
  exists st'. split; [done|].
  exact (@execute_isolated _ _ _ _ _ _ _ (demo_config true) _ _ (reentrant_host true) Hsize modules_fine _ _ _ _ _ (demo_code 1)
    _ _ demo_store _ st' reentrant_host_ok Hfuel demo_module_ok
    (Build_slot_wf execution_default (λ _, eq_refl) (Z.le_refl 0) ltac:(vm_compute; congruence)) Hfine Hrun ltac:(done)).
Defined.

(** A host function that panics while the demo's [main] is on the stack. *)
Definition parked_demo : Execution :=
  snd (@enter_call demo_features HostReentry demo_instance 1 (demo_code 1) [] ex_base).
Lemma host_panic_contained_witness :
  let mc := {| mc_ex := parked_demo; mc_store := demo_store; mc_clock := 0 |} in
  let '(r, mc') := with_parked 0 None 5 (panic "host" : SM (StoreT StoreLimits) ()) mc in
  r = Panic "host" ∧ st_exec_slot (mc_store mc') = ex_base ∧ si_pending_exception_generation (st_inner (mc_store mc')) = 5.
Proof.
  intros mc. destruct (with_parked 0 None 5 _ mc) as [r mc'] eqn:Hrun.
  assert (Hin : ∃ f, inside ex_base (delimiter_frame HostReentry demo_instance (demo_code 1) (demo_func 0 4 1 0 1) ex_base)
    (depth_after HostReentry (ex_host_reentry_depth ex_base)) [f] parked_demo ∧ guest_frame f).
  { eexists. split; [split; try reflexivity; vm_compute; congruence|]. split; [reflexivity|apply demo_module_ok]. }
  destruct Hin as (f & Hin & Hg).
  assert (slot_wf ex_base) as Hwf by (split; [done|vm_compute; congruence..]).
  destruct (host_panic_contained (panic "host" : SM (StoreT StoreLimits) ()) ex_base HostReentry demo_instance (demo_code 1) _ [f] 0 None 5
    mc "host" _ r mc' Hwf eq_refl Hin ltac:(by constructor) eq_refl eq_refl Hrun) as (-> & Hs & _ & Hgen & _). done.
Defined.
