(* ===== verification/Calls.v ===== *)
(** * Calls: the embedder's functions (src/src/func/mod.rs, direct_call.rs, exec/guard.rs)

    [Func_call] is [Func::call]: the arguments are checked against the signature, the
    callee runs (a wasm body through [execute], a host function directly, with its
    own boundary around it), and the results are checked before they are handed out.
    A direct host call owns a mark in the root list and the pending exception of its
    caller, and gives both back on every abnormal exit. *)
From S2P Require Import Prelude Keep Types Layout Codec Arena Heap Op Entity Store Collect Stack Frame Float.
From S2P Require Import Numeric Limits Memory GcOps Matching Exn Step StackInv Run Drive Isolation.
Open Scope Z_scope.

Inductive Callee : Type := CalleeWasm (instance : Handle) (func_index : Z) | CalleeHost (host_index : Z) | CalleeHostAsync (host_index : Z).

(** What a direct host call restores. *)
Record DirectCallBoundary : Type := { dc_roots_mark : Z; dc_pending : option Rooted; dc_pending_generation : Z }.

Section calls.
Context `{Features, FloatHost, EngineTypes, TypeOrder, EngineFuncs, FrameSize, HostAlloc, EngineConfig}
  {L : Type} `{ResourceLimiter L, HostCode L}.
Implicit Types st : StoreT L.

(** ** Signatures *)
Definition ty_params (ty : Z) : res (list ValType) := type_params ty.
Definition ty_results (ty : Z) : res (list ValType) :=
  snd <$> expect (func_signature ty) "live FuncType registration must retain its signature".
Definition Func_ty (f : Func) (s : StoreInner) : res Z :=
  e ← store_func s f;
  match e with
  | FeWasm instance func_index => m ← module_of instance s; module_func_type m func_index
  | FeHost ty _ _ | FeHostAsync ty _ _ => Ok ty
  end.
Definition resolve_callee (f : Func) (s : StoreInner) : res Callee :=
  e ← store_func s f;
  Ok match e with
     | FeWasm instance func_index => CalleeWasm instance func_index
     | FeHost _ _ host_index => CalleeHost host_index
     | FeHostAsync _ _ host_index => CalleeHostAsync host_index
     end.

(** [Func::new]; the closure [push_host_func] appends is found through [host_call]. *)
Definition Func_new (ty host_index : Z) : SM StoreInner Func :=
  params ← lift (ty_params ty); results ← lift (ty_results ty);
  allocs (alloc_func (FeHost ty (host_sig_new params results) host_index)).
Definition Func_new_async (ty host_index : Z) : SM StoreInner Func :=
  params ← lift (ty_params ty); results ← lift (ty_results ty);
  allocs (alloc_func (FeHostAsync ty (host_sig_new params results) host_index)).

Definition default_results (tys : list ValType) : list Val := default_for_valtype <$> tys.

(** ** Checking what crosses the boundary *)
Fixpoint args_match (s : StoreInner) (params : list Val) (tys : list ValType) : res () :=
  match params, tys with
  | v :: params', t :: tys' =>
      ok ← arg_matches_in_store s v t;
      if (ok : bool) then args_match s params' tys' else Err (EMsg "argument type mismatch")
  | _, _ => Ok tt
  end.
Definition check_args (s : StoreInner) (params : list Val) (tys : list ValType) : res () :=
  if negb (zlen params =? zlen tys) then Err (EMsg "wrong number of arguments") else args_match s params tys.

(** [if inner.has_parked_execution() { if let Some(internal) = error.downcast_ref() { latch } }] *)
Definition latch_if_parked (e : error) : SM (StoreT L) () := λ st,
  match e with
  | EInternal i => if has_parked_execution st then on_inner (modify (latch_internal_error i)) st else (Ok tt, st)
  | _ => (Ok tt, st)
  end.
Definition bad_value : string := "function attempted to return an incompatible value".
Definition validate_results (values : list Val) (types : list ValType) : SM (StoreT L) () := λ st,
  match ensure_values_match (st_inner st) values types bad_value with
  | Err e => (latch_if_parked e;; fail e) st
  | r => (r, st)
  end.

(** [match m { Err(e) => handle(e), r => r }] *)
Definition rescue {A} (m : SM (StoreT L) A) (handle : error → SM (StoreT L) A) : SM (StoreT L) A := λ st,
  match m st with (Err e, st') => handle e st' | r => r end.

(** ** A host function called directly *)
(** The internal error latched by re-entrant code: cleared only when no outer call needs it. *)
Definition internal_error_of_call : SM (StoreT L) (option error) := λ st,
  if has_parked_execution st then (Ok (EInternal <$> si_internal_error (st_inner st)), st)
  else on_inner (λ s, let '(e, s') := take_internal_error s in (Ok e, s')) st.
Definition preflight_direct_call : SM (StoreT L) () :=
  error ← internal_error_of_call;
  match error with Some e => fail e | None => mret tt end.

Definition capture : SM (StoreT L) DirectCallBoundary :=
  st ← get;
  let s := st_inner st in
  on_inner (modify root_pending);;
  mret {| dc_roots_mark := gc_roots_mark s; dc_pending := si_pending_exception s;
          dc_pending_generation := si_pending_exception_generation s |}.
Definition drop_roots (b : DirectCallBoundary) : SM (StoreT L) () := on_inner (modify (gc_roots_truncate (dc_roots_mark b))).
Definition restore_direct_pending (b : DirectCallBoundary) : SM (StoreT L) () :=
  on_inner (modify (restore_pending_exception (dc_pending b) (dc_pending_generation b))).
(** [restore_direct_after_panic]: an execution parked by an outer callback stays. *)
Definition restore_direct_after_panic (b : DirectCallBoundary) : SM (StoreT L) () := drop_roots b;; restore_direct_pending b.

Definition missing_pending_exception : SM (StoreT L) (list Val) :=
  let error := ResultShape "host throw marker had no pending exception" in
  latch_if_parked (EInternal error);; fail (EInternal error).

(** [out.into_iter().map(root_host_result).collect::<Result<_>>()] *)
Fixpoint root_all (values : list Val) : SM StoreInner (list Val) :=
  match values with
  | [] => mret []
  | v :: rest => x ← root_host_result v; xs ← root_all rest; mret (x :: xs)
  end.
Definition hand_out_results (b : DirectCallBoundary) (out : list Val) : SM (StoreT L) (list Val) :=
  drop_roots b;;
  rescue (on_inner (root_all out))
    (λ error, drop_roots b;; restore_direct_pending b;; latch_if_parked error;; fail error).

Definition finish_direct_host_call (b : DirectCallBoundary) (result_types : list ValType) (outcome : result error (list Val))
    : SM (StoreT L) (list Val) :=
  internal ← internal_error_of_call;
  match internal with
  | Some error => drop_roots b;; restore_direct_pending b;; fail error
  | None =>
      match outcome with
      | Err error =>
          st ← get;
          let fresh_throw := bool_decide (error = EThrown)
                             && negb (si_pending_exception_generation (st_inner st) =? dc_pending_generation b) in
          drop_roots b;;
          if fresh_throw && bool_decide (si_pending_exception (st_inner st) = None)
          then restore_direct_pending b;; missing_pending_exception
          else fail error
      | Ok out =>
          rescue (validate_results out result_types) (λ error, drop_roots b;; restore_direct_pending b;; fail error);;
          hand_out_results b out
      | Panic w => panic w
      end
  end.

(** [catch_host(|| cb(..))]: a panic restores and is raised again. *)
Definition contained (b : DirectCallBoundary) (cb : SM (StoreT L) (list Val)) : SM (StoreT L) (result error (list Val)) := λ st,
  match cb st with
  | (Panic w, st') => (restore_direct_after_panic b;; panic w) st'
  | (outcome, st') => (Ok outcome, st')
  end.
Definition call_direct_host (host_index : Z) (params : list Val) (ty : Z) : SM (StoreT L) (list Val) :=
  preflight_direct_call;;
  tys ← lift (ty_results ty);
  b ← capture;
  outcome ← contained b (host_call host_index None params (default_results tys));
  finish_direct_host_call b tys outcome.

(** ** [Func::call] *)
Definition then_run {A B} (x : res A * StoreT L) (f : A → StoreT L → option (res B * StoreT L)) : option (res B * StoreT L) :=
  match x with
  | (Ok a, st) => f a st
  | (Err e, st) => Some (Err e, st)
  | (Panic w, st) => Some (Panic w, st)
  end.

Definition run_callee (n clock : nat) (c : Callee) (params : list Val) (ty : Z) st : option (res (list Val) * StoreT L) :=
  match c with
  | CalleeWasm instance func_index =>
      then_run (lift (m ← module_of instance (st_inner st); r ← ty_results ty; p ← ty_params ty; Ok (m, r, p)) st)
        (λ '(m, result_tys, param_tys) st,
          then_run (on_inner (coerce_args params param_tys) st) (λ args st,
            execute n clock instance func_index (module_code m func_index) args result_tys st))
  | CalleeHost host_index => Some (call_direct_host host_index params ty st)
  | CalleeHostAsync _ => Some (Err (EMsg "cannot call an async host function synchronously; use `call_async`"), st)
  end.

(** [None]: [n] turns of the interpreter were not enough. *)
Definition Func_call (n clock : nat) (f : Func) (params : list Val) (n_results : Z) st : option (res (list Val) * StoreT L) :=
  then_run (lift (ty ← Func_ty f (st_inner st); p ← ty_params ty; r ← ty_results ty;
                  _ ← check_args (st_inner st) params p;
                  if negb (n_results =? zlen r) then Err (EMsg "wrong number of results") else
                  c ← resolve_callee f (st_inner st); Ok (ty, r, c)) st)
    (λ '(ty, result_tys, c) st,
      match run_callee n clock c params ty st with
      | None => None
      | Some x => then_run x (λ out st, then_run (validate_results out result_tys st) (λ _ st, Some (Ok out, st)))
      end).
End calls.

(** ** A direct host call owns no roots and no pending exception afterwards *)

(** The heap references of a value: what rooting it adds to the root list. *)
Definition val_roots (v : Val) : list (Z * RefKind) :=
  match v with
  | VAnyRef (Some r) => match decode_anyref_handle (r_index r) with HSlot _ => [(r_index r, RkAny)] | HI31 _ => [] end
  | VExternRef (Some r) => [(r_index r, RkExtern)]
  | VExnRef (Some r) => [(r_index r, RkExn)]
  | _ => []
  end.
Definition pending_of (s : StoreInner) : option Rooted * Z := (si_pending_exception s, si_pending_exception_generation s).

Section direct.
Context `{Features, FloatHost, EngineTypes, TypeOrder, EngineFuncs, FrameSize, HostAlloc, EngineConfig}
  {L : Type} `{ResourceLimiter L, HostCode L}.
Implicit Types st : StoreT L.

Lemma set_gc_roots_self s : set_si_gc_roots (si_gc_roots s) s = s.
Proof using. by destruct s. Qed.
Lemma root_host_result_run v s : ∃ r new, root_host_result v s = (r, set_si_gc_roots (si_gc_roots s ++ new) s) ∧
  match r with Ok v' => new = val_roots v' | _ => new = [] end.
Proof using.
  unfold root_host_result. destruct (stamp_host_value s v) as [v'|e|w]; cycle 1.
  { exists (Err e), []. by rewrite app_nil_r, set_gc_roots_self. }
  { exists (Panic w), []. by rewrite app_nil_r, set_gc_roots_self. }
  exists (Ok v'), (val_roots v'). split; [|done]. f_equal.
  destruct v' as [| | | | |[]|[]|[]|[]]; cbn; rewrite ?app_nil_r, ?set_gc_roots_self; try done.
  all: destruct (decode_anyref_handle _); cbn; by rewrite ?app_nil_r, ?set_gc_roots_self.
Qed.
Lemma root_all_run vs : ∀ s, ∃ r new, root_all vs s = (r, set_si_gc_roots (si_gc_roots s ++ new) s) ∧
  ∀ vs', r = Ok vs' → new = vs' ≫= val_roots.
Proof using.
  induction vs as [|v vs IH]; intros s; cbn [root_all].
  { exists (Ok []), []. rewrite app_nil_r, set_gc_roots_self. split; [done|]. by intros vs' [= <-]. }
  rewrite bind_unfold. destruct (root_host_result_run v s) as (r & new & -> & Hnew).
  destruct r as [v'|e|w]; [|by eexists _, _..]. rewrite bind_unfold.
  destruct (IH (set_si_gc_roots (si_gc_roots s ++ new) s)) as (r & new' & -> & Hnew').
  exists (match r with Ok vs' => Ok (v' :: vs') | Err e => Err e | Panic w => Panic w end), (new ++ new').
  cbn [si_gc_roots set_si_gc_roots]. split; [rewrite <- app_assoc; by destruct r|].
  intros vs'. destruct r as [ws|e|w]; [|done..]. intros [= <-]. cbn. by rewrite Hnew, (Hnew' ws).
Qed.

(** What a direct call has to answer for. *)
Definition call_view st : Execution * list (Z * RefKind) * (option Rooted * Z) :=
  (st_exec_slot st, si_gc_roots (st_inner st), pending_of (st_inner st)).
Lemma latch_if_parked_run e st : ∃ st', latch_if_parked e st = (Ok tt, st') ∧ call_view st' = call_view st.
Proof using.
  unfold latch_if_parked. destruct e; try by eexists. destruct (has_parked_execution st); [|by eexists].
  eexists. split; [done|]. cbn. unfold latch_internal_error. by destruct (si_internal_error _).
Qed.
Lemma internal_error_run st : ∃ e st', internal_error_of_call st = (Ok e, st') ∧ call_view st' = call_view st.
Proof using. unfold internal_error_of_call. destruct (has_parked_execution st); by eexists _, _. Qed.
Lemma validate_results_run vs tys st : ∃ st',
  validate_results vs tys st = (ensure_values_match (st_inner st) vs tys bad_value, st') ∧ call_view st' = call_view st.
Proof using.
  unfold validate_results. destruct (ensure_values_match _ _ _ _) as [[]|e|w]; [by eexists| |by eexists].
  destruct (latch_if_parked_run e st) as (st' & Hl & Hv). rewrite bind_unfold, Hl. by eexists.
Qed.

(** The roots of the call are gone, those of its results apart; and its caller's pending exception is back, unless
    the call succeeded or failed with the callback's own error. *)
Definition balanced (b : DirectCallBoundary) (outcome r : res (list Val)) st1 st' : Prop :=
  st_exec_slot st' = st_exec_slot st1 ∧
  si_gc_roots (st_inner st') = ztake (dc_roots_mark b) (si_gc_roots (st_inner st1)) ++
    match r with Ok vs => vs ≫= val_roots | _ => [] end ∧
  (pending_of (st_inner st') = (dc_pending b, dc_pending_generation b) ∨
   pending_of (st_inner st') = pending_of (st_inner st1) ∧ ((∃ vs, r = Ok vs) ∨ ∃ e, outcome = Err e ∧ r = Err e)).

Lemma ztake_idemp {A} n (l : list A) : ztake n (ztake n l) = ztake n l.
Proof using. unfold ztake. by rewrite take_idemp. Qed.
(** The state after the roots are dropped, and after the pending exception is restored too. *)
Definition dropped b st : StoreT L := set_st_inner (gc_roots_truncate (dc_roots_mark b) (st_inner st)) st.
Definition rollback b st : StoreT L :=
  set_st_inner (restore_pending_exception (dc_pending b) (dc_pending_generation b) (st_inner (dropped b st))) st.
Lemma drop_run {A} b (k : SM (StoreT L) A) st : (drop_roots b;; k) st = k (dropped b st).
Proof using. done. Qed.
Lemma rollback_run {A} b (k : SM (StoreT L) A) st : (drop_roots b;; restore_direct_pending b;; k) st = k (rollback b st).
Proof using. by destruct st. Qed.
Lemma after_panic_run {A} b (k : SM (StoreT L) A) st : (restore_direct_after_panic b;; k) st = k (rollback b st).
Proof using. by destruct st. Qed.
Lemma restore_run {A} b (k : SM (StoreT L) A) st : (restore_direct_pending b;; k) (dropped b st) = k (rollback b st).
Proof using. by destruct st. Qed.
Lemma rollback_balanced b outcome st1 st st' r :
  (∀ vs, r ≠ Ok vs) → st_exec_slot st = st_exec_slot st1 →
  ztake (dc_roots_mark b) (si_gc_roots (st_inner st)) = ztake (dc_roots_mark b) (si_gc_roots (st_inner st1)) →
  call_view st' = call_view (rollback b st) → balanced b outcome r st1 st'.
Proof using.
  intros Hr Hs Hg [= Hs' Hg' Hp1 Hp2]. unfold balanced. rewrite Hs', Hg', Hg.
  assert (match r with Ok vs => vs ≫= val_roots | _ => [] end = []) as ->.
  { destruct r as [vs|e|w]; [|done..]. by destruct (Hr vs). }
  rewrite app_nil_r. split_and!; [done..|left]. unfold pending_of. by rewrite Hp1, Hp2.
Qed.

Lemma ztake_prefix {A} n (l k : list A) : 0 ≤ n ≤ zlen l → ztake n (ztake n l ++ k) = ztake n l.
Proof using. intros Hn. apply ztake_app. by rewrite zlen_take. Qed.
Lemma hand_out_balanced b out outcome st1 st : call_view st = call_view st1 →
  0 ≤ dc_roots_mark b ≤ zlen (si_gc_roots (st_inner st1)) →
  let '(r, st') := hand_out_results b out st in no_panic r → balanced b outcome r st1 st'.
Proof using.
  intros [= Hs Hg Hp1 Hp2] Hb. unfold hand_out_results. rewrite drop_run. unfold rescue, on_inner at 1, zoom.
  destruct (root_all_run out (st_inner (dropped b st))) as (r & new & Hrun & Hnew). rewrite Hrun.
  destruct r as [vs|e|w].
  - intros _. unfold balanced, pending_of. cbn. rewrite Hs, Hg, Hp1, Hp2, (Hnew vs) by done. split_and!; eauto.
  - rewrite rollback_run, bind_unfold. match goal with |- context [latch_if_parked e ?st] =>
      destruct (latch_if_parked_run e st) as (st' & -> & Hv) end.
    intros _. eapply rollback_balanced; [done| | |exact Hv]; [done|]. cbn.
    rewrite <- Hg in Hb |- *. by apply ztake_prefix.
  - intros Hp. by destruct (Hp w).
Qed.

Lemma finish_balanced b tys outcome st1 : no_panic outcome →
  0 ≤ dc_roots_mark b ≤ zlen (si_gc_roots (st_inner st1)) →
  let '(r, st') := finish_direct_host_call b tys outcome st1 in no_panic r → balanced b outcome r st1 st'.
Proof using.
  intros Hnp Hb. unfold finish_direct_host_call. rewrite bind_unfold.
  destruct (internal_error_run st1) as (int & st & -> & Hv). pose proof Hv as [= Hs Hg Hp1 Hp2].
  destruct int as [e|].
  { rewrite rollback_run. intros _. eapply rollback_balanced; [done|exact Hs|by rewrite Hg|done]. }
  destruct outcome as [out|e|w]; [| |by destruct (Hnp w)].
  - rewrite bind_unfold. unfold rescue. destruct (validate_results_run out tys st) as (st2 & -> & Hv2).
    destruct (ensure_values_match _ _ _ _) as [[]|e|w].
    + apply hand_out_balanced; [by rewrite Hv2|done].
    + rewrite rollback_run. injection Hv2 as Hs2 Hg2 _ _. intros _.
      eapply rollback_balanced; [done|by rewrite Hs2|by rewrite Hg2, Hg|done].
    + intros Hp. by destruct (Hp w).
  - rewrite get_run, drop_run. destruct (_ && bool_decide (si_pending_exception _ = None)).
    + rewrite restore_run. unfold missing_pending_exception. cbn zeta. rewrite bind_unfold.
      destruct (latch_if_parked_run (EInternal (ResultShape "host throw marker had no pending exception")) (rollback b st))
        as (st' & -> & Hv').
      intros _. eapply rollback_balanced; [done|exact Hs|by rewrite Hg|exact Hv'].
    + intros _. unfold balanced. cbn. rewrite Hs, Hg, app_nil_r. split_and!; [done..|].
      right. unfold pending_of. rewrite <- Hp1, <- Hp2. split; [done|]. right. by exists e.
Qed.

Lemma preflight_run st : si_internal_error (st_inner st) = None → preflight_direct_call st = (Ok tt, st).
Proof using.
  intros Hint. unfold preflight_direct_call. rewrite bind_unfold. unfold internal_error_of_call.
  destruct (has_parked_execution st); [by rewrite Hint|]. destruct st as [[]]. cbn in *. by subst.
Qed.

End direct.

(** ** Calls leave the execution slot alone *)
Section isolation.
Context `{Features, FloatHost, EngineTypes, TypeOrder, EngineFuncs, FrameSize, HostAlloc, EngineConfig}
  {L : Type} `{ResourceLimiter L, HostCode L}.
Implicit Types st : StoreT L.
Context (Hsize : 2 ≤ frame_size) (P : StoreInner → Prop) {HP : StorePred P}.

(** The slot holds [ex], and the store satisfies [P]. *)
Definition slot_holds (ex : Execution) st : Prop := st_exec_slot st = ex ∧ P (st_inner st).
Section view.
Context (ex : Execution).
Abbreviation I := (slot_holds ex).
Lemma keeps_inner_view {A} (m : SM StoreInner A) : (∀ c, keeps (λ s, code_view s = c) m) → keeps I (on_inner m).
Proof using HP.
  intros Hm st r st' [Hs Hp]. unfold on_inner, zoom. destruct (m (st_inner st)) as [x s'] eqn:Hrun. intros [= <- <-] Hnp.
  split; [done|]. eapply sp_view; [exact Hp|]. by eapply Hm.
Qed.
Lemma keeps_inner_modify (g : StoreInner → StoreInner) : (∀ s, code_view (g s) = code_view s) → keeps I (on_inner (modify g)).
Proof using HP. intros Hg. apply keeps_inner_view. intros c. apply keeps_store_modify. intros s. apply Hg. Qed.
Lemma keeps_rescue {A} (m : SM (StoreT L) A) h : keeps I m → (∀ e, keeps I (h e)) → keeps I (rescue m h).
Proof using.
  intros Hm Hh st r st' Hst. unfold rescue. destruct (m st) as [[a|e|w] st1] eqn:Hrun.
  - intros [= <- <-] Hp. by eapply Hm.
  - intros Hr Hp. eapply Hh; [|exact Hr|done]. by eapply Hm.
  - intros [= <- <-] Hp. by destruct (Hp w).
Qed.
Lemma keeps_latch e : keeps I (latch_if_parked e).
Proof using HP.
  intros st r st' Hst. unfold latch_if_parked. destruct e; try by intros [= <- <-].
  destruct (has_parked_execution st); [|by intros [= <- <-]]. apply keeps_inner_modify; [|done].
  intros s. unfold latch_internal_error. by destruct (si_internal_error s).
Qed.
Lemma keeps_validate vs tys : keeps I (validate_results vs tys).
Proof using HP.
  intros st r st' Hst. unfold validate_results. destruct (ensure_values_match _ _ _ _); [by intros [= <- <-]| |by intros [= <- <-]].
  apply (keeps_bind I); [apply keeps_latch|intros; apply keeps_fail|done].
Qed.
Lemma keeps_internal : keeps I internal_error_of_call.
Proof using HP.
  intros st r st' Hst. unfold internal_error_of_call. destruct (has_parked_execution st); [by intros [= <- <-]|].
  apply keeps_inner_view; [|done]. by intros c s r' s' Hs [= <- <-].
Qed.
Lemma keeps_drop b : keeps I (drop_roots b).
Proof using HP. by apply keeps_inner_modify. Qed.
Lemma keeps_restore_direct b : keeps I (restore_direct_pending b).
Proof using HP. by apply keeps_inner_modify. Qed.
Lemma keeps_root_all vs : keeps I (on_inner (root_all vs)).
Proof using HP.
  apply keeps_inner_view. intros c s r s' Hs. destruct (root_all_run vs s) as (x & new & -> & _). by intros [= <- <-].
Qed.
Hint Resolve keeps_latch keeps_validate keeps_internal keeps_drop keeps_restore_direct keeps_root_all : keeps.
Ltac call_step := lazymatch goal with
  | |- keeps _ (rescue _ _) => apply keeps_rescue
  | |- _ => keep_step end.
Lemma keeps_direct i ps ty : hosts_ok (L:=L) P → slot_wf ex → keeps I (call_direct_host i ps ty).
Proof using HP.
  intros Hosts Hwf. unfold call_direct_host, preflight_direct_call, capture, finish_direct_host_call, hand_out_results,
    missing_pending_exception. cbv zeta. repeat call_step.
  { apply keeps_inner_modify. intros s. unfold root_pending. by destruct (si_pending_exception s). }
  intros st r st' [<- Hp]. unfold contained. destruct (host_call _ _ _ _ st) as [x st1] eqn:Hc.
  destruct x; try (intros [= <- <-] _; destruct (ho_call P Hosts _ _ _ _ _ _ _ Hp Hwf Hc); done).
  rewrite after_panic_run. intros [= <- <-] Hnp. by edestruct Hnp.
Qed.
End view.

Lemma keeps_coerce c ps : ∀ tys, keeps (λ s, code_view s = c) (coerce_args ps tys).
Proof using.
  induction ps as [|v ps IH]; intros [|t tys]; cbn [coerce_args]; try apply keeps_ret.
  apply keeps_bind; [|intros; apply keeps_bind; [done|intros; apply keeps_ret]].
  unfold coerce_arg. repeat case_match; try apply keeps_ret. all: apply keeps_convert.
Qed.
Lemma then_run_Some {A B} (x : res A * StoreT L) (f : A → StoreT L → option (res B * StoreT L)) ex r st' :
  then_run x f = Some (r, st') → (no_panic x.1 → slot_holds ex x.2) → no_panic r →
  (∀ a, x.1 = Ok a → slot_holds ex x.2 → f a x.2 = Some (r, st') → slot_holds ex st') → slot_holds ex st'.
Proof using.
  destruct x as [[a|e|w] st]; cbn; intros Hr Hx Hp Hf.
  - by eapply Hf; [|apply Hx|].
  - injection Hr as <- <-. by apply Hx.
  - injection Hr as <- <-. by destruct (Hp w).
Qed.

Lemma run_callee_view n clock c ps ty ex st r st' : hosts_ok (L:=L) P →
  (∀ s, P s → 0 < si_fuel s → P (set_si_fuel (si_fuel s - 1) s)) → slot_wf ex → slot_holds ex st →
  run_callee n clock c ps ty st = Some (r, st') → no_panic r → slot_holds ex st'.
Proof using Hsize HP.
  intros Hosts Hfuel Hwf Hst Hrun Hp. destruct c as [instance fi|i|i]; cbn [run_callee] in Hrun.
  - eapply then_run_Some; [exact Hrun|done|done|]. intros [[m rs] pst] Hm _ Hrun1.
    assert (module_of instance (st_inner st) = Ok m) as Hmod.
    { revert Hm. cbn. destruct (module_of _ _); [|done..]. cbn. destruct (ty_results ty); [|done..]. cbn.
      destruct (ty_params ty); [|done..]. by intros [= -> _ _]. }
    assert (module_ok m) as Hok.
    { destruct Hst as [_ Hs%sp_modules]. unfold module_of in Hmod. destruct (store_instance _ _) as [e|e|w] eqn:He; [|done..].
      injection Hmod as <-. apply arena_entity_get in He. eapply Forall_forall; [exact Hs|].
      apply list_elem_of_fmap. exists e. split; [done|]. by eapply zget_elem. }
    eapply then_run_Some; [exact Hrun1| |done|].
    + intros Hnp. destruct (on_inner _ _) as [x st1] eqn:Hco. eapply (keeps_inner_view ex); [|exact Hst|exact Hco|done]. intros ?. apply keeps_coerce.
    + intros args _ [<- Hs1] Hex. destruct (execute_keeps Hsize P _ _ _ _ (module_code m fi) _ _ _ _ _ Hosts Hfuel Hok Hwf Hs1 Hex Hp).
      done.
  - injection Hrun as Hrun. eapply keeps_direct; [exact Hosts|exact Hwf|exact Hst|exact Hrun|done].
  - by injection Hrun as <- <-.
Qed.

(** C12: a call from the embedder, of a wasm function or of a host function directly,
    gives the execution slot back as it found it and keeps any property of the store
    that instructions and embedder code keep, whatever it returns; so [Func::call]
    meets the requirement on embedder code itself, and host functions may call it. *)
Theorem func_call_isolated n clock f ps k st r st' :
  hosts_ok (L:=L) P → (∀ s, P s → 0 < si_fuel s → P (set_si_fuel (si_fuel s - 1) s)) →
  slot_wf (st_exec_slot st) → P (st_inner st) →
  Func_call n clock f ps k st = Some (r, st') → no_panic r →
  st_exec_slot st' = st_exec_slot st ∧ P (st_inner st').
Proof using Hsize HP.
  intros Hosts Hfuel Hwf Hs Hrun Hp. change (slot_holds (st_exec_slot st) st'). unfold Func_call in Hrun.
  eapply then_run_Some; [exact Hrun|done|done|]. intros [[ty rs] c] _ Hst Hrun1.
  destruct (run_callee n clock c ps ty st) as [x|] eqn:Hc; [|by cbn in Hrun1; rewrite Hc in Hrun1].
  cbn in Hrun1. rewrite Hc in Hrun1. destruct x as [x st1].
  eapply then_run_Some; [exact Hrun1| |done|].
  - intros Hnp. by eapply run_callee_view.
  - intros out Hx Hst1 Hrun2. eapply then_run_Some; [exact Hrun2| |done|].
    + intros Hnp. destruct (validate_results _ _ _) as [y st2] eqn:Hv. eapply keeps_validate; [exact Hst1|exact Hv|done].
    + intros [] Hv Hst2 [= <- <-]. done.
Qed.

(** A call checks both ways.  Arguments of the wrong number or type, a wrong number of
    result places and an asynchronous callee are refused before anything runs,
    with the store as it was; and a call that succeeds hands out as many values as the
    signature has results, each checked against its type in the final store,
    whatever the callee, host functions included, tried to return. *)
Theorem func_call_checked n clock f ps k st ty pts rts c :
  Func_ty f (st_inner st) = Ok ty → ty_params ty = Ok pts → ty_results ty = Ok rts → resolve_callee f (st_inner st) = Ok c →
  (∀ e, check_args (st_inner st) ps pts = Err e → Func_call n clock f ps k st = Some (Err e, st)) ∧
  (check_args (st_inner st) ps pts = Ok tt → k ≠ zlen rts →
    Func_call n clock f ps k st = Some (Err (EMsg "wrong number of results"), st)) ∧
  (check_args (st_inner st) ps pts = Ok tt → k = zlen rts → (∃ i, c = CalleeHostAsync i) →
    ∃ e, Func_call n clock f ps k st = Some (Err e, st)) ∧
  (∀ vs st', Func_call n clock f ps k st = Some (Ok vs, st') →
    zlen vs = k ∧ ensure_values_match (st_inner st') vs rts bad_value = Ok tt).
Proof using.
  intros Hty Hpt Hrt Hc. unfold Func_call. rewrite Hty. cbn. rewrite Hpt. cbn. rewrite Hrt. cbn. split_and!.
  - intros e He. rewrite He. done.
  - intros He Hk. rewrite He. cbn. by rewrite (proj2 (Z.eqb_neq _ _)).
  - intros He -> (i & ->). rewrite He. cbn. rewrite Z.eqb_refl. cbn. rewrite Hc. by eexists.
  - intros vs st'. destruct (check_args _ ps pts) as [[]|e|w]; [|done..]. cbn.
    destruct (Z.eqb_spec k (zlen rts)) as [->|]; [|done]. cbn. rewrite Hc. cbn.
    destruct (run_callee _ _ _ _ _ _) as [[[out|e|w] st1]|]; [|done..]. cbn.
    unfold validate_results. destruct (ensure_values_match _ out rts bad_value) as [[]|e|w] eqn:Hm.
    + intros [= <- <-]. split; [|done]. revert Hm. unfold ensure_values_match.
      by destruct (Z.eqb_spec (zlen out) (zlen rts)).
    + destruct (latch_if_parked_run e st1) as (st2 & Hl & _). rewrite bind_unfold, Hl. done.
    + done.
Qed.
End isolation.

(** ** The program of [Drive], called from outside *)
#[local] Existing Instances demo_features demo_floats demo_types demo_order demo_funcs demo_frame_size demo_alloc.
Abbreviation demo_call n f ps k :=
  (@Func_call demo_features demo_floats demo_types demo_order demo_funcs demo_frame_size demo_alloc (demo_config true) StoreLimits
     StoreLimits_limiter (reentrant_host true) n 0%nat (demo_func_ref f) ps k demo_store).
Example demo_calls :
  fst <$> demo_call 40 1 [] 1 = Some (Ok [VI32 41]) ∧
  fst <$> demo_call 40 0 [VI32 4] 1 = Some (Ok [VI32 8]) ∧
  demo_call 40 2 [VI64 4] 1 = Some (Err (EMsg "argument type mismatch"), demo_store) ∧
  demo_call 40 2 [] 1 = Some (Err (EMsg "wrong number of arguments"), demo_store) ∧
  demo_call 40 2 [VI32 4] 2 = Some (Err (EMsg "wrong number of results"), demo_store).
Proof. vm_compute. by split_and!. Qed.

(** A host function that pushes a root, throws and forgets it. *)
Definition rooting_host : HostCode StoreLimits :=
  {| host_call := λ _ _ _ _, on_inner (modify (push_gc_root 5 RkExtern));; fail (EMsg "refused"); epoch_callback := None |}.
Abbreviation rooted_call st :=
  (@call_direct_host demo_order demo_funcs StoreLimits rooting_host 0 [VI32 1] 0 st).
Definition rooted_store : StoreT StoreLimits := set_st_inner (push_gc_root 3 RkExtern demo_inner) demo_store.

Lemma func_call_checked_witness :
  demo_call 40 2 [VI32 4] 2 = Some (Err (EMsg "wrong number of results"), demo_store) ∧
  ∀ vs st', demo_call 40 1 [] 1 = Some (Ok vs, st') → zlen vs = 1 ∧ ensure_values_match (st_inner st') vs [TI32] bad_value = Ok tt.
Proof.
  split.
  - destruct (@func_call_checked demo_features demo_floats demo_types demo_order demo_funcs demo_frame_size demo_alloc
      (demo_config true) StoreLimits StoreLimits_limiter (reentrant_host true) 40 0 (demo_func_ref 2) [VI32 4] 2 demo_store
      0 [TI32] [TI32] (CalleeWasm demo_instance 2) eq_refl eq_refl eq_refl eq_refl) as (_ & Hn & _).
    apply Hn; [reflexivity|vm_compute; discriminate].
  - exact (proj2 (proj2 (proj2 (@func_call_checked demo_features demo_floats demo_types demo_order demo_funcs demo_frame_size demo_alloc
      (demo_config true) StoreLimits StoreLimits_limiter (reentrant_host true) 40 0 (demo_func_ref 1) [] 1 demo_store
      1 [] [TI32] (CalleeWasm demo_instance 1) eq_refl eq_refl eq_refl eq_refl)))).
Defined.

Lemma func_call_isolated_witness : ∃ r st', demo_call 40 1 [] 1 = Some (r, st') ∧ r = Ok [VI32 41] ∧
  st_exec_slot st' = execution_default ∧ modules_fine (st_inner st').
Proof.
  destruct (demo_call 40 1 [] 1) as [[r st']|] eqn:Hrun; cycle 1.
  { pose proof (proj1 demo_calls) as Hc. rewrite Hrun in Hc. done. }
  pose proof (proj1 demo_calls) as Hc. rewrite Hrun in Hc. injection Hc as ->.
  exists (Ok [VI32 41]), st'. split; [done|]. split; [done|].
  refine (@func_call_isolated demo_features demo_floats demo_types demo_order demo_funcs demo_frame_size demo_alloc
    (demo_config true) StoreLimits StoreLimits_limiter (reentrant_host true) _ modules_fine _ 40 0 (demo_func_ref 1) [] 1 demo_store
    (Ok [VI32 41]) st' _ _ _ _ Hrun _).
  - vm_compute; congruence.
  - apply reentrant_host_ok.
  - done.
  - split; [done|vm_compute; congruence..].
  - constructor; [apply demo_module_ok|constructor].
  - done.
Defined.
