(* ===== verification/GcAggregate.v ===== *)
(** * GcAggregate: the embedder's structs and arrays (src/src/value/gc_aggregate.rs,
    gc_ref.rs, exn_ref.rs)

    The host-facing handles of GC objects: the [*Pre] allocators, the constructors, the
    element and bulk accessors, and the exception objects.  Every operation resolves
    its handle against the store and checks the values it is given with the store at
    hand, before it writes.  All type descriptors are of the one engine of the model, and
    a type stays registered as long as its descriptor or an object pins it: the
    registrations are the business of Interning, so [alloc_host_gc] is its allocation. *)
From S2P Require Import Prelude Keep Types Layout Codec Arena Heap Op Entity Store Collect Stack Limits.
From S2P Require Import GcOps Aggregates Matching ConstEval Step Extern.
Open Scope Z_scope.

Section values.
Context `{EngineTypes, TypeOrder}.
Implicit Types s : StoreInner.

(** ** Handles (gc_ref.rs) *)
Definition gc_object s (slot : Z) : res GcObject := ok_or (gc_get (si_gc s) slot) (EMsg "dangling gc reference").
Definition rooted_slot (r : Rooted) s : res Z := gc_slot_checked (si_store_id s) (si_gc s) r.
Definition ref_obj_kind s (handle : Rooted) : res (option ObjKind) :=
  match decode_anyref_handle (r_index handle) with
  | HI31 _ => Ok None
  | HSlot _ => slot ← rooted_slot handle s; o ← gc_object s slot; Ok (Some (obj_kind o))
  end.
Definition as_structref (r : Rooted) s : res (option Rooted) :=
  k ← ref_obj_kind s r; Ok (if bool_decide (k = Some ObjStruct) then Some r else None).
Definition unwrap_structref (r : Rooted) s : res Rooted :=
  o ← as_structref r s; ok_or o (EMsg "anyref is not a struct").
Definition as_arrayref (r : Rooted) s : res (option Rooted) :=
  k ← ref_obj_kind s r; Ok (if bool_decide (k = Some ObjArray) then Some r else None).
Definition unwrap_arrayref (r : Rooted) s : res Rooted :=
  o ← as_arrayref r s; ok_or o (EMsg "anyref is not an array").

Definition validate_liveness (r : Rooted) s : res () :=
  match r_arena r with
  | RkAny => match decode_anyref_handle (r_index r) with
             | HSlot _ => _ ← rooted_slot r s; Ok tt
             | HI31 _ => Ok tt
             end
  | RkExtern => _ ← externref_checked s r; Ok tt
  | RkExn => _ ← exn_checked s r; Ok tt
  | RkFunc => Err (EMsg "invalid rooted reference arena")
  end.
Definition Rooted_ref_eq (a b : Rooted) s : res bool :=
  _ ← check_handle (si_store_id s) (r_store a);
  _ ← check_handle (si_store_id s) (r_store b);
  _ ← validate_liveness a s;
  _ ← validate_liveness b s;
  Ok (bool_decide (r_arena a = r_arena b) && (r_index a =? r_index b)
      && ((r_generation a =? UNCHECKED_GENERATION) || (r_generation b =? UNCHECKED_GENERATION)
          || (r_generation a =? r_generation b))).

(** ** Field values *)
Definition field_value_matches s (ty : FieldType) (value : Val) : res bool :=
  match ft_element ty with
  | StI8 | StI16 => Ok (match value with VI32 _ => true | _ => false end)
  | StValType t => val_matches_in_store s value t
  end.
(** [slot_accepts(..) && field_value_matches(..)?] *)
Definition value_accepted s (slot : Slot) (ty : FieldType) (value : Val) : res bool :=
  if slot_accepts slot value then field_value_matches s ty value else Ok false.

(** [StructType::fields] and [ArrayType::field_type] of a live descriptor. *)
Definition StructType_fields (ty : Z) : res (list FieldType) :=
  expect (struct_fields ty) "live StructType registration must retain its fields".
Definition ArrayType_field_type (ty : Z) : res FieldType :=
  expect (array_field ty) "live ArrayType registration must retain its field".
(** [Engine::struct_fields] and [Engine::array_field] *)
Definition object_fields (ty : Z) : res (list FieldType) := ok_or (struct_fields ty) (EMsg "not a live struct type").
Definition object_field (ty : Z) : res FieldType := ok_or (array_field ty) (EMsg "not a live array type").

(** ** Structs: the accessors *)
Record StructRefPre : Type := { srp_store : Z; srp_ty : Z; srp_layout : StructLayout }.
Definition StructRefPre_new (ty : Z) s : res StructRefPre :=
  fields ← StructType_fields ty;
  Ok {| srp_store := si_store_id s; srp_ty := ty; srp_layout := for_struct fields |}.

Definition StructRef_field (r : Rooted) (index : Z) : SM StoreInner Val :=
  slot ← reads (rooted_slot r);
  obj ← reads (λ s, gc_object s slot);
  fields ← lift (object_fields (obj_type obj));
  field ← lift (ok_or (struct_field (for_struct fields) index) (EMsg "struct field index out of bounds"));
  v ← lift (read_slot field (obj_data obj));
  root_host_result v.
Definition StructRef_ty (r : Rooted) s : res Z :=
  slot ← rooted_slot r s; o ← gc_object s slot; Ok (obj_type o).
Definition StructRef_matches_ty (r : Rooted) (ty : Z) s : res bool :=
  slot ← rooted_slot r s; o ← gc_object s slot; Ok (engine_is_subtype (obj_type o) ty).
Definition StructRef_set_field (r : Rooted) (index : Z) (value : Val) : SM StoreInner () :=
  slot ← reads (rooted_slot r);
  obj ← reads (λ s, gc_object s slot);
  fields ← lift (object_fields (obj_type obj));
  field_ty ← lift (ok_or (zget fields index) (EMsg "struct field index out of bounds"));
  if negb (ft_mutable field_ty) then fail (EMsg "struct field is not mutable") else
  field ← lift (ok_or (struct_field (for_struct fields) index) (EMsg "struct field index out of bounds"));
  ok ← reads (λ s, value_accepted s field field_ty value);
  if negb (ok : bool) then fail (EMsg "struct field value has the wrong type") else
  o ← reads (λ s, gc_object s slot);
  data ← lift (write_slot field (obj_data o) value);
  modify (put_object slot (with_data o data)).

(** ** Arrays: the accessors *)
Record ArrayRefPre : Type := { arp_store : Z; arp_ty : Z; arp_layout : ArrayLayout }.
Definition ArrayRefPre_new (ty : Z) s : res ArrayRefPre :=
  field ← ArrayType_field_type ty;
  Ok {| arp_store := si_store_id s; arp_ty := ty; arp_layout := for_array field |}.

Definition ArrayRef_len (r : Rooted) s : res Z :=
  slot ← rooted_slot r s;
  obj ← gc_object s slot;
  field ← object_field (obj_type obj);
  Ok (array_len obj (al_stride (for_array field))).
Definition ArrayRef_get (r : Rooted) (index : Z) : SM StoreInner Val :=
  slot ← reads (rooted_slot r);
  obj ← reads (λ s, gc_object s slot);
  field ← lift (object_field (obj_type obj));
  let layout := for_array field in
  if array_len obj (al_stride layout) <=? index then fail (EMsg "array index out of bounds") else
  v ← lift (read_slot (elem_at layout index) (obj_data obj));
  root_host_result v.
Definition ArrayRef_set (r : Rooted) (index : Z) (value : Val) : SM StoreInner () :=
  slot ← reads (rooted_slot r);
  obj ← reads (λ s, gc_object s slot);
  field_ty ← lift (object_field (obj_type obj));
  let len := array_len obj (al_stride (for_array field_ty)) in
  if len <=? index then fail (EMsg "array index out of bounds") else
  if negb (ft_mutable field_ty) then fail (EMsg "array element is not mutable") else
  let elem := elem_at (for_array field_ty) index in
  ok ← reads (λ s, value_accepted s elem field_ty value);
  if negb (ok : bool) then fail (EMsg "array element value has the wrong type") else
  o ← reads (λ s, gc_object s slot);
  data ← lift (write_slot elem (obj_data o) value);
  modify (put_object slot (with_data o data)).

(** ** Packed bulk access *)
Definition element_byte_range (offset count stride : Z) : option (Z * Z) :=
  start ← checked_mul usize_bits offset stride;
  n ← checked_mul usize_bits count stride;
  end_ ← checked_add usize_bits n start;
  Some (start, end_).

Definition packed_body (r : Rooted) (expected : StorageType) (dst_len : Z) s : res (list Z) :=
  slot ← rooted_slot r s;
  obj ← gc_object s slot;
  field_ty ← object_field (obj_type obj);
  if negb (bool_decide (ft_element field_ty = expected))
  then Err (EMsg "element type mismatch: cannot copy the array into a slice") else
  let len := array_len obj (al_stride (for_array field_ty)) in
  if u_max 32 <? dst_len then Err (EMsg "destination too large") else
  if negb (dst_len =? len) then Err (EMsg "destination slice length is not the array length") else
  Ok (obj_data obj).

(** [as_chunks::<N>()]: the full chunks; the units they decode to. *)
Fixpoint chunks (fuel : nat) (n : Z) (l : list Z) : list (list Z) :=
  match fuel with
  | O => []
  | S f => if zlen l <? n then [] else ztake n l :: chunks f n (zdrop n l)
  end.
Definition as_chunks (n : Z) (l : list Z) : list (list Z) := chunks (length l) n l.
(** [for (unit, chunk) in dst.iter_mut().zip(chunks)]: the units past the chunks keep their value. *)
Fixpoint fill_units (dst : list Z) (cs : list (list Z)) : list Z :=
  match dst, cs with
  | _ :: dst', c :: cs' => from_le_bytes c :: fill_units dst' cs'
  | _, _ => dst
  end.

Definition copy_to_i8_slice (r : Rooted) (dst : list Z) s : res (list Z) :=
  body ← packed_body r StI8 (zlen dst) s;
  expect (if zlen dst =? zlen body then Some body else None) "copy_from_slice: lengths differ".
Definition copy_to_i16_slice (r : Rooted) (dst : list Z) s : res (list Z) :=
  body ← packed_body r StI16 (zlen dst) s; Ok (fill_units dst (as_chunks 2 body)).
Definition copy_to_i64_slice (r : Rooted) (dst : list Z) s : res (list Z) :=
  body ← packed_body r (StValType TI64) (zlen dst) s; Ok (fill_units dst (as_chunks 8 body)).

Definition packed_range (r : Rooted) (expected : StorageType) (offset count : Z) s : res (list Z) :=
  slot ← rooted_slot r s;
  obj ← gc_object s slot;
  field_ty ← object_field (obj_type obj);
  if negb (bool_decide (ft_element field_ty = expected))
  then Err (EMsg "element type mismatch: cannot read the array into a slice") else
  let stride := al_stride (for_array field_ty) in
  '(start, end_) ← ok_or (element_byte_range offset count stride) (EMsg "array read range overflows");
  ok_or (zslice (obj_data obj) start end_) (EMsg "array read out of bounds").
Definition read_i8 (r : Rooted) (offset : Z) (dst : list Z) s : res (list Z) :=
  body ← packed_range r StI8 offset (zlen dst) s;
  expect (if zlen dst =? zlen body then Some body else None) "copy_from_slice: lengths differ".
Definition read_i16 (r : Rooted) (offset : Z) (dst : list Z) s : res (list Z) :=
  body ← packed_range r StI16 offset (zlen dst) s; Ok (fill_units dst (as_chunks 2 body)).

(** The window [&mut body[start..end]]: its slot, object, start and bytes. *)
Definition packed_body_mut (r : Rooted) (expected : StorageType) (offset count : Z) s
    : res (Z * GcObject * Z * list Z) :=
  slot ← rooted_slot r s;
  obj ← gc_object s slot;
  field_ty ← object_field (obj_type obj);
  if negb (bool_decide (ft_element field_ty = expected))
  then Err (EMsg "element type mismatch: cannot write a slice into the array") else
  if negb (ft_mutable field_ty) then Err (EMsg "array element is not mutable") else
  let stride := al_stride (for_array field_ty) in
  '(start, end_) ← ok_or (element_byte_range offset count stride) (EMsg "array write range overflows");
  o ← gc_object s slot;
  body ← ok_or (zslice (obj_data o) start end_) (EMsg "array write out of bounds");
  Ok (slot, o, start, body).
(** Replace the bytes of the window. *)
Definition put_window (w : Z * GcObject * Z * list Z) (f : list Z → res (list Z)) : SM StoreInner () :=
  let '(slot, o, start, body) := w in
  body' ← lift (f body);
  data ← lift (expect (zsplice (obj_data o) start body') "slice index");
  modify (put_object slot (with_data o data)).
Definition write_i8 (r : Rooted) (offset : Z) (src : list Z) : SM StoreInner () :=
  w ← reads (packed_body_mut r StI8 offset (zlen src));
  put_window w (λ body, expect (if zlen src =? zlen body then Some src else None) "copy_from_slice: lengths differ").
(** [for (pair, unit) in pairs.iter_mut().zip(src)] *)
Fixpoint set_pairs (body src : list Z) : list Z :=
  match src, body with
  | unit :: src', _ :: _ :: body' => to_le_bytes 2 unit ++ set_pairs body' src'
  | _, _ => body
  end.
Definition write_i16 (r : Rooted) (offset : Z) (src : list Z) : SM StoreInner () :=
  w ← reads (packed_body_mut r StI16 offset (zlen src)); put_window w (λ body, Ok (set_pairs body src)).

(** ** Exception objects (exn_ref.rs): the accessors *)
Definition ExnRef_field (r : Rooted) (index : Z) : SM StoreInner Val :=
  e ← reads (λ s, exn_checked s r);
  value ← lift (ok_or (zget (xe_args e) index) (EMsg "exception field index out of bounds"));
  root_host_result value.
Definition ExnRef_tag (r : Rooted) s : res Handle := xe_tag <$> exn_checked s r.
Definition ExnRef_ty (r : Rooted) s : res Z :=
  e ← exn_checked s r; t ← store_tag s (xe_tag e); Ok (tge_ty t).
Definition ExnRef_matches_ty (r : Rooted) (ty : HeapType) s : res bool :=
  _ ← exn_checked s r; Ok (heap_matches HtExn ty).
End values.

(** ** Constructors: check, reserve through the limiter, build, allocate, root *)
Section constructors.
Context `{HostAlloc, EngineTypes, TypeOrder} {L : Type} `{ResourceLimiter L}.

Definition capacity_err : error := EMsg "memory allocation failed".
Definition zeroed_body (len : Z) : res (list Z) :=
  if reserve_bytes len then Ok (zeroed len) else Err capacity_err.
Definition copied_body (elems : list Z) : res (list Z) :=
  if reserve_bytes (zlen elems) then Ok elems else Err capacity_err.
(** [body.chunks_exact_mut(pattern.len())], each overwritten by the pattern; the remainder stays. *)
Fixpoint repeat_chunks (fuel : nat) (pattern body : list Z) : list Z :=
  match fuel with
  | O => body
  | S f => if zlen body <? zlen pattern then body
           else pattern ++ repeat_chunks f pattern (zdrop (zlen pattern) body)
  end.
Definition filled_body (pattern : list Z) (len : Z) : res (list Z) :=
  body ← zeroed_body len;
  if existsb (λ b, negb (b =? 0)) pattern
  then if zlen pattern =? 0 then Panic "chunk size must be non-zero"
       else Ok (repeat_chunks (length body) pattern body)
  else Ok body.
(** [for (bytes, unit) in body.as_chunks_mut::<N>().0.iter_mut().zip(elems)] *)
Fixpoint set_chunks (n : nat) (body elems : list Z) : list Z :=
  match elems with
  | unit :: rest => if zlen body <? Z.of_nat n then body
                    else to_le_bytes n unit ++ set_chunks n (zdrop (Z.of_nat n) body) rest
  | [] => body
  end.
Definition le_body (n : nat) (elems : list Z) : res (list Z) :=
  byte_len ← ok_or (checked_mul usize_bits (zlen elems) (Z.of_nat n)) (EMsg "array too large");
  body ← zeroed_body byte_len;
  Ok (set_chunks n body elems).

(** [pin_gc_type] and its rollback are counts of the registry; see the header of the file. *)
Definition alloc_host_gc (id : Z) (object : GcObject) : SM StoreInner Z := with_gc (gc_alloc object).
Definition root_new_gc (idx : Z) (s : StoreInner) : Rooted * StoreInner :=
  let handle := anyref_handle_slot idx in
  let generation := default 0 (gc_generation (si_gc s) idx) in
  (rooted_from_raw_gen handle generation (si_store_id s) RkAny, push_gc_root handle RkAny s).
Definition alloc_rooted (id : Z) (object : GcObject) : SM StoreInner Rooted :=
  idx ← alloc_host_gc id object; allocs (root_new_gc idx).

(** [for ((slot, field_ty), v) in slots.iter().zip(&field_types).zip(fields)] *)
Fixpoint check_fields (s : StoreInner) (slots : list Slot) (tys : list FieldType) (vs : list Val) : res () :=
  match slots, tys, vs with
  | slot :: slots', ty :: tys', v :: vs' =>
      ok ← value_accepted s slot ty v;
      if (ok : bool) then check_fields s slots' tys' vs' else Err (EMsg "struct field value has the wrong type")
  | _, _, _ => Ok tt
  end.
Fixpoint write_fields (slots : list Slot) (vs : list Val) (data : list Z) : res (list Z) :=
  match slots, vs with
  | slot :: slots', v :: vs' => data' ← write_slot slot data v; write_fields slots' vs' data'
  | _, _ => Ok data
  end.
Definition StructRef_new (a : StructRefPre) (fields : list Val) : SM (StoreT L) Rooted :=
  let slots := sl_fields (srp_layout a) in
  let size := sl_size (srp_layout a) in
  if negb (zlen fields =? zlen slots) then fail (EMsg "wrong number of struct fields") else
  _ ← reads (λ st, check_handle (si_store_id (st_inner st)) (srp_store a));
  field_types ← lift (StructType_fields (srp_ty a));
  _ ← reads (λ st, check_fields (st_inner st) slots field_types fields);
  gc_reserve_host (object_charge size);;
  data ← lift (write_fields slots fields (zeroed size));
  on_inner (alloc_rooted (srp_ty a) (new_struct (srp_ty a) data)).

Definition check_elem (a : ArrayRefPre) (elem : Val) (s : StoreInner) : res () :=
  field_ty ← ArrayType_field_type (arp_ty a);
  ok ← value_accepted s (elem_at (arp_layout a) 0) field_ty elem;
  if (ok : bool) then Ok tt else Err (EMsg "array element value has the wrong type").
Definition body_len (a : ArrayRefPre) (count : Z) : res Z :=
  if u_max 32 <? count then Err (EMsg "array too large") else
  ok_or (checked_mul usize_bits count (al_stride (arp_layout a))) (EMsg "array too large").
Definition packed_charge (a : ArrayRefPre) (expected : StorageType) (count : Z) (s : StoreInner) : res Z :=
  _ ← check_handle (si_store_id s) (arp_store a);
  field_ty ← ArrayType_field_type (arp_ty a);
  if negb (bool_decide (ft_element field_ty = expected))
  then Err (EMsg "element type mismatch: cannot initialize the array from a slice") else
  object_charge <$> body_len a count.
Definition finish_packed (a : ArrayRefPre) (body : list Z) : SM StoreInner Rooted :=
  _ ← reads (λ s, check_handle (si_store_id s) (arp_store a));
  alloc_rooted (arp_ty a) (new_array (arp_ty a) body).

Definition ArrayRef_new (a : ArrayRefPre) (elem : Val) (len : Z) : SM (StoreT L) Rooted :=
  _ ← reads (λ st, check_handle (si_store_id (st_inner st)) (arp_store a));
  _ ← reads (λ st, check_elem a elem (st_inner st));
  byte_len ← lift (body_len a len);
  gc_reserve_host (object_charge byte_len);;
  pattern ← lift (write_slot (elem_at (arp_layout a) 0) (zeroed (al_stride (arp_layout a))) elem);
  body ← lift (filled_body pattern byte_len);
  on_inner (finish_packed a body).

Fixpoint check_elems (a : ArrayRefPre) (elems : list Val) (s : StoreInner) : res () :=
  match elems with
  | [] => Ok tt
  | elem :: rest => _ ← check_elem a elem s; check_elems a rest s
  end.
Fixpoint write_elems (layout : ArrayLayout) (i : Z) (elems : list Val) (data : list Z) : res (list Z) :=
  match elems with
  | [] => Ok data
  | elem :: rest => data' ← write_slot (elem_at layout i) data elem; write_elems layout (i + 1) rest data'
  end.
Definition ArrayRef_alloc (a : ArrayRefPre) (elems : list Val) : SM (StoreT L) Rooted :=
  byte_len ← lift (body_len a (zlen elems));
  _ ← reads (λ st, check_handle (si_store_id (st_inner st)) (arp_store a));
  _ ← reads (λ st, check_elems a elems (st_inner st));
  gc_reserve_host (object_charge byte_len);;
  zeros ← lift (zeroed_body byte_len);
  data ← lift (write_elems (arp_layout a) 0 elems zeros);
  on_inner (alloc_rooted (arp_ty a) (new_array (arp_ty a) data)).

Definition ArrayRef_new_fixed (a : ArrayRefPre) (elems : list Val) : SM (StoreT L) Rooted := ArrayRef_alloc a elems.

(** The packed constructors: charge first, then build the body. *)
Definition new_packed (reserve : Z → SM (StoreT L) ()) (a : ArrayRefPre) (expected : StorageType) (count : Z)
    (body : res (list Z)) : SM (StoreT L) Rooted :=
  charge ← reads (λ st, packed_charge a expected count (st_inner st));
  reserve charge;;
  b ← lift body;
  on_inner (finish_packed a b).
Definition new_from_i8_slice (a : ArrayRefPre) (elems : list Z) : SM (StoreT L) Rooted :=
  new_packed gc_reserve_host a StI8 (zlen elems) (copied_body elems).
Definition new_zeroed_i8 (a : ArrayRefPre) (len : Z) : SM (StoreT L) Rooted :=
  new_packed gc_reserve_host a StI8 len (zeroed_body len).
Definition new_from_i64_slice (a : ArrayRefPre) (elems : list Z) : SM (StoreT L) Rooted :=
  new_packed gc_reserve_host a (StValType TI64) (zlen elems) (le_body 8 elems).
Definition new_from_i8_slice_async (a : ArrayRefPre) (elems : list Z) : SM (StoreT L) Rooted :=
  new_packed gc_reserve_host_async a StI8 (zlen elems) (copied_body elems).
Definition new_from_i16_slice (a : ArrayRefPre) (elems : list Z) : SM (StoreT L) Rooted :=
  new_packed gc_reserve_host a StI16 (zlen elems) (le_body 2 elems).
Definition new_from_i16_slice_async (a : ArrayRefPre) (elems : list Z) : SM (StoreT L) Rooted :=
  new_packed gc_reserve_host_async a StI16 (zlen elems) (le_body 2 elems).

(** A fresh arena entry as a rooted handle. *)
Definition root_new (index : Z) (kind : RefKind) (generation : StoreInner → option Z) : SM StoreInner Rooted :=
  modify (push_gc_root index kind);;
  reads (λ s, Ok (rooted_from_raw_gen index (default 0 (generation s)) (si_store_id s) kind)).
Definition ExternRef_new (value : Z) : SM (StoreT L) Rooted :=
  index ← gc_alloc_externref value;
  on_inner (root_new index RkExtern (λ s, reclaim_generation (si_externrefs s) index)).

Record ExnRefPre : Type := { xrp_store : Z; xrp_ty : Z }.
Definition ExnRefPre_new (ty : Z) (s : StoreInner) : ExnRefPre := {| xrp_store := si_store_id s; xrp_ty := ty |}.
Fixpoint check_exn_fields (s : StoreInner) (vs : list Val) (params : list ValType) : res () :=
  match vs, params with
  | v :: vs', ty :: params' =>
      ok ← val_matches_in_store s v ty;
      if (ok : bool) then check_exn_fields s vs' params' else Err (EMsg "exception field value has the wrong type")
  | _, _ => Ok tt
  end.
Definition ExnRef_new `{EngineFuncs} (a : ExnRefPre) (tag : Handle) (fields : list Val) : SM (StoreT L) Rooted :=
  _ ← reads (λ st, check_handle (si_store_id (st_inner st)) (xrp_store a));
  t ← reads (λ st, store_tag (st_inner st) tag);
  if negb (xrp_ty a =? tge_ty t) then fail (EMsg "exception allocator and tag types do not match") else
  '(params, _) ← lift (expect (func_signature (xrp_ty a)) "live FuncType registration must retain its signature");
  if negb (zlen fields =? zlen params) then fail (EMsg "wrong number of exception fields") else
  _ ← reads (λ st, check_exn_fields (st_inner st) fields params);
  exn ← gc_alloc_exn {| xe_tag := tag; xe_args := fields |};
  on_inner (root_new (r_index exn) RkExn (λ s, reclaim_generation (si_exns s) (r_index exn))).
End constructors.

(** ** A sound heap *)
Definition present (s : StoreInner) (n : Reached) : Prop :=
  match n with
  | RGc i => is_Some (gc_get (si_gc s) i)
  | RExtern i => is_Some (reclaim_get (si_externrefs s) i)
  | RExn i => is_Some (reclaim_get (si_exns s) i)
  end.

Section sound.
Context `{EngineTypes}.

(** The reference and scalar slots of a body, and that the body has their size. *)
Definition object_slots (o : GcObject) (slots : list Slot) : Prop :=
  zlen (obj_data o) < 2 ^ 64 ∧
  match obj_kind o with
  | ObjStruct => ∃ fields, struct_fields (obj_type o) = Some fields ∧ array_field (obj_type o) = None ∧
      slots = sl_fields (for_struct fields) ∧ zlen (obj_data o) = sl_size (for_struct fields)
  | ObjArray => ∃ field n, array_field (obj_type o) = Some field ∧ struct_fields (obj_type o) = None ∧ 0 ≤ n < 2 ^ 32 ∧
      slots = elem_at (for_array field) <$> seqZ 0 n ∧ zlen (obj_data o) = n * al_stride (for_array field)
  | ObjExtern => struct_fields (obj_type o) = None ∧ array_field (obj_type o) = None ∧ slots = []
  end.
Definition body_sized (o : GcObject) : Prop := ∃ slots, object_slots o slots.

(** Every body has the size of its type, everything an entry or a root of the store refers to
    is there, and the collector can trace all of it. *)
Record heap_sound (s : StoreInner) : Prop := {
  hs_sized : ∀ i o, gc_get (si_gc s) i = Some o → body_sized o;
  hs_closed : ∀ n, present s n → ∃ cs, node_children s n = Ok cs ∧ Forall (present s) cs;
  hs_roots : Forall (present s) (seed_entity_roots s);
}.

Lemma seed_handle_read kind h : seed_val (read_ref kind h) = seed_handle h kind.
Proof using.
  unfold read_ref. destruct (h =? NULL_REF) eqn:Hn, kind; cbn [seed_val null_ref]; unfold seed_handle; cbn; by rewrite Hn.
Qed.

(** What the collector pushes for a slot is what the slot's value refers to. *)
Lemma seed_slot_read slot data x :
  inside (zlen data) slot → zlen data < 2 ^ 64 → read_slot slot data = Ok x → seed_slot slot data = Ok (seed_val x).
Proof using.
  intros [Ho Hw] Hb. pose proof (slot_width_pos slot). destruct slot as [o k|o k]; cbn -[zlen] in *;
    rewrite tail_from_Some by lia; cbn [mbind result_bind].
  - intros Hr. f_equal. destruct k; cbn in Hr; destruct (le _ _); cbn in Hr; simplify_eq; done.
  - unfold REF_WIDTH, le_u32 in *. rewrite le_Some by (rewrite zlen_drop; lia). cbn. intros [= <-].
    unfold checked_add. rewrite (proj2 (Z.ltb_lt _ _)) by (cbn; lia).
    rewrite zslice_is_Some by lia. rewrite seed_handle_read. do 4 f_equal. lia.
Qed.
Lemma seed_slots_read P slots data : zlen data < 2 ^ 64 →
  Forall (λ slot, inside (zlen data) slot ∧ ∃ x, read_slot slot data = Ok x ∧ Forall P (seed_val x)) slots →
  ∃ cs, seed_slots slots data = Ok cs ∧ Forall P cs.
Proof using.
  intros Hb. induction 1 as [|slot slots (Hi & x & Hr & Hx) _ (cs & Hcs & HP)]; [by exists []|].
  exists (seed_val x ++ cs). cbn. rewrite (seed_slot_read slot data x), Hcs by done. split; [done|].
  by apply Forall_app.
Qed.
Lemma read_slot_inside slot data : inside (zlen data) slot → ∃ x, read_slot slot data = Ok x.
Proof using.
  intros [Ho Hw]. pose proof (slot_width_pos slot). destruct slot as [o k|o k]; cbn -[zlen] in *;
    rewrite tail_from_Some by lia; cbn [mbind result_bind].
  - destruct k; cbn in Hw |- *; rewrite le_Some by (rewrite zlen_drop; lia); cbn; eauto.
  - unfold le_u32, REF_WIDTH in *. rewrite le_Some by (rewrite zlen_drop; lia). cbn; eauto.
Qed.
Lemma seed_slots_reads P slots data cs : zlen data < 2 ^ 64 → Forall (inside (zlen data)) slots →
  seed_slots slots data = Ok cs → Forall P cs →
  Forall (λ slot, ∃ x, read_slot slot data = Ok x ∧ Forall P (seed_val x)) slots.
Proof using.
  intros Hb Hi. revert cs. induction Hi as [|slot slots Hi _ IH]; intros cs; [by constructor|]. cbn.
  destruct (read_slot_inside slot data Hi) as [x Hx]. rewrite (seed_slot_read slot data x) by done. cbn.
  destruct (seed_slots slots data) as [cs'|e|w]; [|done..]. cbn. intros [= <-] [Hs Hr]%Forall_app.
  constructor; [by exists x|by eapply IH].
Qed.

Lemma for_struct_tiles fields : tiles (sl_fields (for_struct fields)) 0 (sl_size (for_struct fields)).
Proof using.
  unfold for_struct, struct_layout_of. destruct (struct_layout_go _ 0) as [slots total] eqn:E. cbn.
  eapply struct_layout_go_tiles; [|done]. apply Forall_fmap, Forall_true. intros f o.
  destruct f as [m []]; cbn; [done..|]. by destruct v.
Qed.
Lemma object_slots_apart o slots : object_slots o slots → apart (zlen (obj_data o)) slots.
Proof using.
  intros [_ Ho]. revert Ho. destruct (obj_kind o).
  - intros (fields & _ & _ & -> & ->). apply (tiles_apart _ 0); [done|]. apply for_struct_tiles.
  - intros (field & n & _ & _ & Hn & -> & ->). unfold for_array. by apply elems_apart.
  - by intros (_ & _ & ->).
Qed.
Lemma apart_inside size slots : apart size slots → Forall (inside size) slots.
Proof using. induction slots as [|s slots IH]; [done|]. intros (? & _ & ?). constructor; auto. Qed.

(** What the collector does with a struct or an array. *)
Lemma object_trace s i o slots : gc_get (si_gc s) i = Some o → object_slots o slots → obj_kind o ≠ ObjExtern →
  node_children s (RGc i) = seed_slots slots (obj_data o).
Proof using.
  intros Hg [Hb Ho] Hk. cbn. rewrite Hg. unfold trace_gc. rewrite Hg. revert Ho. destruct (obj_kind o); [| |done].
  - by intros (fields & -> & _ & -> & _).
  - intros (field & n & -> & _ & Hn & -> & Hl). cbn zeta. unfold array_len. rewrite Hl.
    pose proof (slot_width_pos (pub_field_slot field 0)) as Hw. cbn [for_array array_layout_of al_stride].
    rewrite (proj2 (Z.eqb_neq _ 0)), Z.mod_mul, Z.max_l, Z.div_mul, wrap_id by (unfold u_ok; lia). done.
Qed.

(** What the values of an object refer to, seen as values. *)
Definition reads_present (s : StoreInner) (data : list Z) (slot : Slot) : Prop :=
  ∃ x, read_slot slot data = Ok x ∧ Forall (present s) (seed_val x).
Lemma sound_object s i o : heap_sound s → gc_get (si_gc s) i = Some o →
  ∃ slots, object_slots o slots ∧ (obj_kind o ≠ ObjExtern → Forall (reads_present s (obj_data o)) slots).
Proof using.
  intros Hs Hg. destruct (hs_sized _ Hs _ _ Hg) as [slots Ho]. exists slots. split; [done|]. intros Hk.
  destruct (hs_closed _ Hs (RGc i)) as (cs & Hcs & HP); [by eexists|].
  rewrite (object_trace _ _ _ _ Hg Ho Hk) in Hcs. eapply seed_slots_reads; [apply Ho| |done..].
  by apply apart_inside, object_slots_apart.
Qed.

(** A struct or array put at a slot, fresh or not, keeps the heap sound when what it refers
    to is there. *)
Lemma placed_sound s h' i o slots :
  heap_sound s → (∀ j, j ≠ i → gc_get h' j = gc_get (si_gc s) j) → gc_get h' i = Some o →
  object_slots o slots → obj_kind o ≠ ObjExtern → Forall (reads_present s (obj_data o)) slots →
  heap_sound (set_si_gc h' s) ∧ ∀ n, present s n → present (set_si_gc h' s) n.
Proof using.
  intros Hs Hne Hi Ho Hk HP.
  assert (∀ n, present s n → present (set_si_gc h' s) n) as Hmono.
  { intros [j|j|j] Hj; cbn in *; [|done..]. destruct (decide (j = i)) as [->|]; [by rewrite Hi|by rewrite Hne]. }
  split; [|done]. constructor.
  - intros j o'. cbn. destruct (decide (j = i)) as [->|].
    + rewrite Hi. intros [= <-]. by exists slots.
    + rewrite Hne by done. apply Hs.
  - intros n Hn. destruct (decide (n = RGc i)) as [->|Hni].
    + rewrite (object_trace (set_si_gc h' s) i o slots) by done. apply seed_slots_read; [apply Ho|].
      pose proof (apart_inside _ _ (object_slots_apart _ _ Ho)) as Hin.
      eapply Forall_impl; [apply Forall_and; split; [exact Hin|exact HP]|]. cbn. intros slot (? & x & Hx & Hp).
      split; [done|]. exists x. split; [done|]. by eapply Forall_impl.
    + assert (present s n) as Hn0.
      { destruct n as [j|j|j]; cbn in *; [|done..]. rewrite Hne in Hn; [done|]. congruence. }
      destruct (hs_closed _ Hs _ Hn0) as (cs & Hcs & Hp). exists cs. split; [|by eapply Forall_impl].
      rewrite <- Hcs. destruct n as [j|j|j]; [|done..]. cbn. unfold trace_gc. cbn.
      rewrite Hne; [done|]. congruence.
  - change (seed_entity_roots (set_si_gc h' s)) with (seed_entity_roots s).
    eapply Forall_impl; [apply Hs|done].
Qed.

Lemma put_object_sound s i o slots data' :
  heap_sound s → gc_get (si_gc s) i = Some o → object_slots o slots → obj_kind o ≠ ObjExtern →
  zlen data' = zlen (obj_data o) → Forall (reads_present s data') slots →
  heap_sound (put_object i (with_data o data') s).
Proof using.
  intros Hs Hg Ho Hk Hl HP. pose proof (gc_get_range _ _ _ Hg) as Hr.
  eapply (placed_sound s _ i (with_data o data') slots); try done.
  - intros j Hj. unfold gc_get. cbn. destruct (decide (0 ≤ j)).
    + by rewrite zget_insert_ne by lia.
    + unfold zget. by rewrite (proj2 (Z.leb_gt _ _)) by lia.
  - unfold gc_get. cbn. by rewrite zget_insert_eq.
  - unfold object_slots in *. cbn. rewrite Hl. destruct Ho as [Hb Ho]. split; [done|].
    by destruct (obj_kind o).
Qed.

(** ** Writes through a slot *)
Lemma apart_pick size slots i f : apart size slots → zget slots i = Some f →
  Forall (λ t, t = f ∨ apart_from f t) slots.
Proof using.
  revert i. induction slots as [|t slots IH]; intros i; [by constructor|]. intros (_ & Ht & Ha) Hi.
  destruct (decide (i = 0)) as [->|].
  - rewrite zget_cons_0 in Hi. injection Hi as ->. constructor; [by left|]. eapply Forall_impl; [exact Ht|]. by right.
  - pose proof (zget_Some _ _ _ Hi). rewrite zget_cons_S in Hi by lia. constructor; [right|by eapply IH].
    eapply Forall_zget in Ht; [|exact Hi]. unfold apart_from in *. lia.
Qed.

Lemma seed_view slot v : slot_accepts slot v = true → seed_val (slot_view slot v) = seed_val v.
Proof using. destruct slot as [o []|o []], v as [| | | | |[]|[]|[]|[]]; by intros [=]. Qed.
Lemma storable_or_null v : storable v ∨ (¬ storable v ∧ ref_handle v = Ok NULL_REF ∧ seed_val v = []).
Proof using.
  destruct v as [| | | | |[r|]|[r|]|[r|]|[r|]]; try (by left); cbn; unfold seed_handle.
  - destruct (decide (fn_index r = NULL_REF)) as [->|]; [right; by split_and!; [intros []|..]|by left].
  - destruct (decide (r_index r = NULL_REF)) as [->|]; [right; by split_and!; [intros []|..]|by left].
  - destruct (decide (r_index r = NULL_REF)) as [->|]; [right; by split_and!; [intros []|..]|by left].
  - destruct (decide (r_index r = NULL_REF)) as [->|]; [right; by split_and!; [intros []|..]|by left].
Qed.
(** A slot reads as a value that was stored in it: it names the same objects, and it is
    the value, narrowed to the slot, unless its handle is the null sentinel. *)
Definition seeds_as (data : list Z) (slot : Slot) (v : Val) : Prop :=
  ∃ x, read_slot slot data = Ok x ∧ seed_val x = seed_val v ∧ (storable v → x = slot_view slot v).
(** A write is seen by the collector as the value written, and by no other slot. *)
Lemma write_slot_seeds slot data v : slot_accepts slot v = true → val_ok v → inside (zlen data) slot →
  ∃ data', write_slot slot data v = Ok data' ∧ zlen data' = zlen data ∧ seeds_as data' slot v ∧
    ∀ other, inside (zlen data) other → apart_from slot other → read_slot other data' = read_slot other data.
Proof using.
  intros Ha Hv [Ho Hw].
  assert (∀ u, slot_accepts slot u = true → val_ok u → storable u → seed_val u = seed_val v →
    (storable v → slot_view slot u = slot_view slot v) →
    write_slot slot data u = write_slot slot data v → ∃ data', write_slot slot data v = Ok data' ∧
      zlen data' = zlen data ∧ seeds_as data' slot v ∧
      ∀ other, inside (zlen data) other → apart_from slot other → read_slot other data' = read_slot other data) as Hgo.
  { intros u Hau Hu Hs Heq Hview Hwr. destruct (write_then_read slot data u) as (d & Hd & Hl & Hr); [done..|].
    exists d. rewrite <- Hwr. split_and!; [done..| |].
    - exists (slot_view slot u). split_and!; [done|by rewrite seed_view|done].
    - intros other [Ho1 Ho2] Hap. by eapply write_slot_frame. }
  destruct (storable_or_null v) as [Hs|(Hns & Hn & Hz)]; [by apply (Hgo v)|].
  destruct slot as [o k|o k]; [by destruct k, v as [| | | | |[]|[]|[]|[]]|].
  assert (write_slot (SlotRef o k) data (null_ref k) = write_slot (SlotRef o k) data v) as Hw0
    by (cbn; rewrite Hn; by destruct k).
  apply (Hgo (null_ref k)); rewrite ?Hz; try exact Hw0; try (by destruct k).
Qed.
End sound.

(** ** Host writes keep the heap sound *)
Section host_writes.
Context `{EngineTypes, TypeOrder}.
Implicit Types s : StoreInner.

(** What the embedder can hold: a [Val] of Rust's types, whose externref handles were captured from a
    live entry, so that one whose generation is still the slot's is still there. *)
Definition host_value s (v : Val) : Prop :=
  val_ok v ∧
  match v with
  | VExternRef (Some r) => r_generation r ≠ UNCHECKED_GENERATION ∧
      (reclaim_generation (si_externrefs s) (r_index r) = Some (r_generation r) →
       is_Some (reclaim_get (si_externrefs s) (r_index r)))
  | _ => True
  end.

Lemma checked_index id r g i : checked id r g = Ok i →
  i = r_index r ∧ (r_generation r ≠ UNCHECKED_GENERATION → g = Some (r_generation r)).
Proof using.
  unfold checked. destruct (check_handle _ _); [|done..]. cbn. destruct g as [g|]; [|done].
  destruct (Z.eqb_spec (r_generation r) UNCHECKED_GENERATION); cbn.
  - by intros [= <-].
  - destruct (Z.eqb_spec g (r_generation r)) as [->|]; cbn; [|done]. by intros [= <-].
Qed.
Lemma gc_slot_checked_live id h r i : gc_slot_checked id h r = Ok i →
  decode_anyref_handle (r_index r) = HSlot i ∧ is_Some (gc_get h i).
Proof using.
  unfold gc_slot_checked. destruct (check_handle _ _); [|done..]. cbn.
  destruct (decode_anyref_handle _) as [v|j]; [done|]. destruct (gc_get h j) as [o|] eqn:Ho; [|done]. cbn.
  destruct (_ && _); [done|]. intros [= <-]. split; [done|]. by eexists.
Qed.

(** A value the store admits refers to entries that are there. *)
Lemma live_present s v : host_value s v → validate_live_reference s v = Ok tt → Forall (present s) (seed_val v).
Proof using.
  intros [_ Hv]. destruct v as [| | | | |[f|]|[r|]|[r|]|[r|]]; try (by constructor); cbn [validate_live_reference seed_val] in *;
    unfold seed_handle; (destruct (r_index r =? NULL_REF); [by constructor|]); destruct (negb _); try done.
  - unfold externref_checked. destruct (checked _ _ _) as [i|e|w] eqn:Hc; [|done..]. intros _.
    apply checked_index in Hc as [-> Hg]. constructor; [|done]. apply Hv. apply Hg, Hv.
  - destruct (decode_anyref_handle (r_index r)) as [x|i] eqn:Hd; [by constructor|].
    destruct (gc_slot_checked _ _ _) as [j|e|w] eqn:Hc; [|done..]. intros _.
    apply gc_slot_checked_live in Hc as [Hj Hl]. constructor; [|done]. cbn. congruence.
  - unfold exn_checked. destruct (checked _ _ _) as [i|e|w] eqn:Hc; [|done..]. cbn.
    apply checked_index in Hc as [-> _]. destruct (reclaim_get _ _) eqn:Hg; [|done]. intros _. by constructor; [eexists|].
Qed.
Lemma matches_present s v ty : host_value s v → val_matches_in_store s v ty = Ok true → Forall (present s) (seed_val v).
Proof using.
  intros Hv. unfold val_matches_in_store. destruct (val_matches v ty) eqn:Hm; cbn [negb]; [|done].
  destruct ty as [| | | | |rt]; try (by destruct v; try discriminate Hm; constructor).
  destruct (validate_live_reference s v) as [[]|e|w] eqn:Hl; [|done..]. intros _. by apply live_present.
Qed.
Lemma accepted_present s slot ty v : host_value s v → value_accepted s slot ty v = Ok true →
  slot_accepts slot v = true ∧ Forall (present s) (seed_val v).
Proof using.
  intros Hv. unfold value_accepted. destruct (slot_accepts slot v); [|done]. intros Hm. split; [done|].
  unfold field_value_matches in Hm. destruct (ft_element ty); [..|by eapply matches_present];
    by destruct v; try discriminate Hm; constructor.
Qed.

(** One run: the heap stays sound, and is as it was unless the call succeeded. *)
Definition sound_run {A} (m : SM StoreInner A) s : Prop :=
  heap_sound (m s).2 ∧ ((∀ a, (m s).1 ≠ Ok a) → (m s).2 = s).

Lemma rooted_object r s i : rooted_slot r s = Ok i → ∃ o, gc_get (si_gc s) i = Some o ∧ gc_object s i = Ok o.
Proof using.
  intros [_ [o Ho]]%gc_slot_checked_live. exists o. unfold gc_object. by rewrite Ho.
Qed.
(** One slot of an object overwritten with an accepted value. *)
Lemma put_slot_sound s i o slots k slot v data' : heap_sound s → gc_get (si_gc s) i = Some o → object_slots o slots →
  obj_kind o ≠ ObjExtern → zget slots k = Some slot → host_value s v →
  slot_accepts slot v = true ∧ Forall (present s) (seed_val v) → write_slot slot (obj_data o) v = Ok data' →
  heap_sound (put_object i (with_data o data') s).
Proof using.
  intros Hs Hg Ho Hk Hslot [Hv _] [Ha HP] Hw. pose proof (object_slots_apart _ _ Ho) as Hap.
  pose proof (apart_inside _ _ Hap) as Hin. pose proof (Forall_zget _ _ _ _ Hin Hslot) as Hi.
  destruct (write_slot_seeds slot (obj_data o) v Ha Hv Hi) as (d & Hd & Hl & (x & Hx & Hsx & _) & Hframe).
  rewrite Hd in Hw. injection Hw as <-. eapply put_object_sound; try done.
  destruct (sound_object s i o Hs Hg) as (slots' & Ho' & HR).
  assert (slots' = slots) as ->.
  { revert Ho Ho'. unfold object_slots. destruct (obj_kind o); [naive_solver congruence| |done].
    intros (_ & f & n & Hf & _ & Hn & -> & Hl1) (_ & f' & n' & Hf' & _ & Hn' & -> & Hl2). simplify_eq.
    do 2 f_equal. pose proof (slot_width_pos (pub_field_slot f 0)). cbn in Hl1, Hl2. nia. }
  specialize (HR Hk). pose proof (apart_pick _ _ _ _ Hap Hslot) as Hpick. apply Forall_forall. intros t Ht.
  rewrite Forall_forall in Hpick, HR, Hin. destruct (Hpick t Ht) as [->|Hat].
  - exists x. by rewrite Hsx.
  - destruct (HR t Ht) as (y & Hy & HPy). exists y. by rewrite Hframe by auto.
Qed.

Lemma set_field_sound r index v s : heap_sound s → host_value s v → sound_run (StructRef_set_field r index v) s.
Proof using.
  intros Hs Hv. unfold sound_run, StructRef_set_field. rewrite reads_unfold.
  destruct (rooted_slot r s) as [i|e|w] eqn:Hr; [|done..]. destruct (rooted_object _ _ _ Hr) as (o & Hg & Ho).
  rewrite reads_unfold, Ho, bind_unfold. unfold lift, object_fields.
  destruct (struct_fields (obj_type o)) as [fields|] eqn:Hf; [|done]. cbn [ok_or]. rewrite bind_unfold.
  destruct (zget fields index) as [fty|]; [|done]. cbn [ok_or]. destruct (ft_mutable fty); cbn [negb]; [|done].
  rewrite bind_unfold. destruct (struct_field (for_struct fields) index) as [slot|] eqn:Hslot; [|done]. cbn [ok_or].
  rewrite reads_unfold. destruct (value_accepted s slot fty v) as [[]|e|w] eqn:Ha; [|done..]. cbn [negb].
  rewrite reads_unfold, Ho, bind_unfold. destruct (write_slot slot (obj_data o) v) as [d|e|w] eqn:Hw; [|done..].
  cbn. split; [|intros Hno; by destruct (Hno tt)].
  destruct (hs_sized _ Hs _ _ Hg) as [slots Hsl]. pose proof Hsl as [_ Hsl']. revert Hsl'.
  destruct (obj_kind o) eqn:Hk; [|naive_solver..]. intros (fields' & Hf' & _ & -> & _). simplify_eq.
  eapply put_slot_sound; try done; [by rewrite Hk|]. by eapply accepted_present.
Qed.

(** The object behind an array handle. *)
Lemma array_object_slots s i o field : heap_sound s → gc_get (si_gc s) i = Some o → array_field (obj_type o) = Some field →
  obj_kind o = ObjArray ∧ ∃ n, 0 ≤ n < 2 ^ 32 ∧ array_len o (al_stride (for_array field)) = n ∧
    zlen (obj_data o) = n * al_stride (for_array field) ∧ object_slots o (elem_at (for_array field) <$> seqZ 0 n).
Proof using.
  intros Hs Hg Hf. destruct (hs_sized _ Hs _ _ Hg) as [slots Hsl]. pose proof Hsl as [Hb Hsl']. revert Hsl'.
  destruct (obj_kind o) eqn:Hk; [naive_solver| |naive_solver]. intros (field' & n & Hf' & _ & Hn & -> & Hl).
  simplify_eq. split; [done|]. exists n. split_and!; try done; try lia. unfold array_len. rewrite Hl.
  pose proof (slot_width_pos (pub_field_slot field 0)). cbn [for_array array_layout_of al_stride].
  by rewrite Z.max_l, Z.div_mul, wrap_id by (unfold u_ok; lia).
Qed.
Lemma zget_elems layout n i : 0 ≤ i < n → zget (elem_at layout <$> seqZ 0 n) i = Some (elem_at layout i).
Proof using.
  intros Hi. unfold zget. rewrite (proj2 (Z.leb_le _ _)) by lia. rewrite list_lookup_fmap, lookup_seqZ_lt by lia.
  cbn. do 2 f_equal. lia.
Qed.
Lemma array_set_sound r index v s : heap_sound s → host_value s v → 0 ≤ index → sound_run (ArrayRef_set r index v) s.
Proof using.
  intros Hs Hv Hi0. unfold sound_run, ArrayRef_set. rewrite reads_unfold.
  destruct (rooted_slot r s) as [i|e|w] eqn:Hr; [|done..]. destruct (rooted_object _ _ _ Hr) as (o & Hg & Ho).
  rewrite reads_unfold, Ho, bind_unfold. unfold lift, object_field.
  destruct (array_field (obj_type o)) as [field|] eqn:Hf; [|done]. cbn [ok_or]. cbn zeta.
  destruct (array_object_slots s i o field Hs Hg Hf) as (Hk & n & Hn & -> & Hl & Hsl).
  destruct (Z.leb_spec n index); [done|]. destruct (ft_mutable field); cbn [negb]; [|done].
  rewrite reads_unfold. destruct (value_accepted s _ field v) as [[]|e|w] eqn:Ha; [|done..]. cbn [negb].
  rewrite reads_unfold, Ho, bind_unfold. destruct (write_slot _ (obj_data o) v) as [d|e|w] eqn:Hw; [|done..].
  cbn. split; [|intros Hno; by destruct (Hno tt)].
  eapply put_slot_sound; try done; [by rewrite Hk|by apply zget_elems|by eapply accepted_present].
Qed.

(** A packed array has no reference in it. *)
Lemma scalar_elems_present s field k n data : pub_field_slot field 0 = SlotScalar 0 k →
  Forall (inside (zlen data)) (elem_at (for_array field) <$> seqZ 0 n) →
  Forall (reads_present s data) (elem_at (for_array field) <$> seqZ 0 n).
Proof using.
  intros Hp Hin. apply Forall_forall. intros t Ht. rewrite Forall_forall in Hin. specialize (Hin t Ht).
  destruct (read_slot_inside t data Hin) as [x Hx]. exists x. split; [done|].
  apply list_elem_of_fmap in Ht as (j & -> & _). unfold for_array in Hx. rewrite Hp in Hx. revert Hx. cbn.
  destruct (tail_from _ _) as [b| |]; [|done..]. cbn. destruct k; cbn; destruct (le _ _); cbn; intros Hx; simplify_eq; constructor.
Qed.
Lemma packed_slots_sound s i o field data' : heap_sound s → gc_get (si_gc s) i = Some o →
  array_field (obj_type o) = Some field → (∃ k, pub_field_slot field 0 = SlotScalar 0 k) →
  zlen data' = zlen (obj_data o) → heap_sound (put_object i (with_data o data') s).
Proof using.
  intros Hs Hg Hf [k Hp] Hl. destruct (array_object_slots s i o field Hs Hg Hf) as (Hk & n & Hn & _ & _ & Hsl).
  eapply put_object_sound; try done; [by rewrite Hk|].
  pose proof (apart_inside _ _ (object_slots_apart _ _ Hsl)) as Hin. rewrite <- Hl in Hin.
  by eapply scalar_elems_present.
Qed.
Lemma window_sound r expected offset count s f : heap_sound s → expected = StI8 ∨ expected = StI16 →
  sound_run (w ← reads (packed_body_mut r expected offset count); put_window w f) s.
Proof using.
  intros Hs He. unfold sound_run. rewrite reads_unfold. unfold packed_body_mut.
  destruct (rooted_slot r s) as [i|e|w] eqn:Hr; [|done..]. destruct (rooted_object _ _ _ Hr) as (o & Hg & Ho).
  cbn [mbind result_bind]. rewrite Ho. cbn [mbind result_bind]. unfold object_field.
  destruct (array_field (obj_type o)) as [field|] eqn:Hf; [|done]. cbn [ok_or mbind result_bind].
  destruct (bool_decide_reflect (ft_element field = expected)) as [Hel|]; cbn [negb]; [|done].
  destruct (ft_mutable field); cbn [negb]; [|done]. cbn zeta. destruct (element_byte_range _ _ _) as [[a b]|]; [|done].
  cbn [ok_or mbind result_bind]. destruct (zslice (obj_data o) a b) as [body|]; [|done]. cbn [ok_or mbind result_bind].
  unfold put_window. rewrite bind_unfold. unfold lift. destruct (f body) as [body'|e|w]; [|done..]. rewrite bind_unfold.
  destruct (zsplice (obj_data o) a body') as [d|] eqn:Hsp; [|done]. cbn. split; [|intros Hno; by destruct (Hno tt)].
  eapply packed_slots_sound; try done; [|by eapply zlen_splice].
  unfold pub_field_slot. destruct He as [->| ->]; rewrite Hel; by eexists.
Qed.

(** The writes of the embedder into the objects it has handles of. *)
Inductive host_gc_write s : SM StoreInner () → Prop :=
  | hg_field r index v : host_value s v → host_gc_write s (StructRef_set_field r index v)
  | hg_elem r index v : host_value s v → 0 ≤ index → host_gc_write s (ArrayRef_set r index v)
  | hg_i8 r offset src : host_gc_write s (write_i8 r offset src)
  | hg_i16 r offset src : host_gc_write s (write_i16 r offset src).

(** C30: the embedder cannot corrupt the heap by writing to it.  Whatever handle, index and value
    it gives (stale, foreign, out of range, ill typed, immutable), after the call every reference of the
    heap names something that is there, every body has the size of its type and the collector can trace
    it; a call that fails leaves the whole store as it was. *)
Theorem host_gc_writes_sound m s : heap_sound s → host_gc_write s m →
  heap_sound (m s).2 ∧ ((∀ a, (m s).1 ≠ Ok a) → (m s).2 = s).
Proof using.
  intros Hs []; [by apply set_field_sound|by apply array_set_sound|apply window_sound; auto..].
Qed.

(** ** Packed elements, read and written in bulk *)
Lemma set_pairs_all src : ∀ body, zlen body = 2 * zlen src → set_pairs body src = concat (to_le_bytes 2 <$> src).
Proof using.
  induction src as [|u src IH]; intros body Hb.
  - destruct body as [|b body]; [done|]. rewrite zlen_cons in Hb. change (zlen []) with 0 in Hb. pose proof (zlen_nonneg body). lia.
  - rewrite zlen_cons in Hb. pose proof (zlen_nonneg src).
    destruct body as [|a [|b body]]; rewrite ?zlen_cons in Hb; try change (zlen (@nil Z)) with 0 in Hb; try lia.
    cbn -[to_le_bytes]. f_equal. apply IH. lia.
Qed.
Lemma zlen_pairs src : zlen (concat (to_le_bytes 2 <$> src)) = 2 * zlen src.
Proof using.
  induction src as [|u src IH]; [done|]. cbn [fmap list_fmap concat]. rewrite zlen_app, zlen_to_le, zlen_cons, IH. lia.
Qed.
Lemma fill_pairs src : ∀ dst fuel, length dst = length src → (length src <= fuel)%nat →
  fill_units dst (chunks fuel 2 (concat (to_le_bytes 2 <$> src))) = wrap 16 <$> src.
Proof using.
  induction src as [|u src IH]; intros [|d dst] fuel Hl Hf; try done.
  destruct fuel as [|fuel]; [cbn in Hf; lia|]. cbn [fmap list_fmap concat chunks].
  pose proof (zlen_nonneg (concat (to_le_bytes 2 <$> src))). pose proof (zlen_to_le 2 u) as Hu.
  rewrite (proj2 (Z.ltb_ge _ _)) by (rewrite zlen_app; lia).
  rewrite ztake_app, zdrop_app by (by rewrite Hu). cbn [fill_units]. f_equal; [apply (from_to_le 2)|].
  apply IH; cbn in *; lia.
Qed.
Lemma read_pairs src dst : length dst = length src →
  fill_units dst (as_chunks 2 (concat (to_le_bytes 2 <$> src))) = wrap 16 <$> src.
Proof using.
  intros Hl. apply fill_pairs; [done|]. pose proof (zlen_pairs src) as Hp. unfold zlen in Hp. lia.
Qed.
Lemma element_range_small o c : 0 ≤ o → 0 ≤ c → o + c < 2 ^ 33 → element_byte_range o c 2 = Some (2 * o, 2 * o + 2 * c).
Proof using.
  intros. unfold element_byte_range, checked_mul, checked_add.
  rewrite !(proj2 (Z.ltb_lt _ _)) by (cbn in *; lia). cbn. rewrite (proj2 (Z.ltb_lt _ _)) by (cbn in *; lia).
  by rewrite (Z.mul_comm o 2), (Z.mul_comm c 2), (Z.add_comm (2 * c)).
Qed.

(** An [i16] array the embedder has a handle of. *)
Record i16_array (r : Rooted) (n : Z) (s : StoreInner) (i : Z) (o : GcObject) : Prop := {
  ia_slot : rooted_slot r s = Ok i;
  ia_object : gc_get (si_gc s) i = Some o;
  ia_type : array_field (obj_type o) = Some {| ft_mutable := true; ft_element := StI16 |};
  ia_size : zlen (obj_data o) = 2 * n;
  ia_len : n < 2 ^ 32;
}.
Lemma read_i16_run r n s i o offset dst : i16_array r n s i o → 0 ≤ offset → offset + zlen dst < 2 ^ 33 →
  read_i16 r offset dst s =
  (body ← ok_or (zslice (obj_data o) (2 * offset) (2 * offset + 2 * zlen dst)) (EMsg "array read out of bounds");
   Ok (fill_units dst (as_chunks 2 body))).
Proof using.
  intros [Hi Ho Hty _ _] H1 H2. unfold read_i16, packed_range. rewrite Hi. cbn [mbind result_bind].
  unfold gc_object. rewrite Ho. cbn [ok_or mbind result_bind]. unfold object_field. rewrite Hty. cbn [ok_or mbind result_bind].
  cbn [ft_element]. rewrite bool_decide_true by done. cbn [negb]. cbn zeta.
  rewrite element_range_small by (done || apply zlen_nonneg). done.
Qed.
Lemma put_i16_array r n s i o data : i16_array r n s i o → zlen data = zlen (obj_data o) →
  i16_array r n (put_object i (with_data o data) s) i (with_data o data).
Proof using.
  intros [Hi Ho Hty Hz Hn] Hl. pose proof (gc_get_range _ _ _ Ho) as Hr.
  assert (gc_get (si_gc (put_object i (with_data o data) s)) i = Some (with_data o data)) as Hget
    by (unfold gc_get; cbn; by rewrite zget_insert_eq).
  constructor; try done; [|by cbn; rewrite Hl]. revert Hi. unfold rooted_slot, gc_slot_checked. cbn [si_store_id put_object set_si_gc].
  destruct (check_handle _ _); [|done..]. cbn [mbind result_bind]. destruct (decode_anyref_handle _) as [x|j]; [done|].
  destruct (gc_get (si_gc s) j) eqn:Hj; [|done]. cbn [mbind result_bind]. intros Hi. assert (j = i) as -> by (by destruct (_ && _); simplify_eq).
  cbn [put_object si_gc set_si_gc] in Hget |- *. rewrite Hget. exact Hi.
Qed.

(** Bulk access to packed arrays is exact.  Writing 16-bit units into a mutable [i16] array succeeds
    precisely when they all fall inside it; reading the same elements then gives the units back, any range
    beside them reads as before, and the array is as long as before.  Otherwise nothing changes. *)
Theorem write_i16_exact r n s i o offset src : i16_array r n s i o → 0 ≤ offset < 2 ^ 32 → zlen src < 2 ^ 32 →
  if offset + zlen src <=? n then
    ∃ s', write_i16 r offset src s = (Ok tt, s') ∧ ArrayRef_len r s' = Ok n ∧
      (∀ dst, length dst = length src → read_i16 r offset dst s' = Ok (wrap 16 <$> src)) ∧
      (∀ a dst, 0 ≤ a → a + zlen dst < 2 ^ 32 → a + zlen dst ≤ offset ∨ offset + zlen src ≤ a →
         read_i16 r a dst s' = read_i16 r a dst s) ∧
      (∀ j, j ≠ i → gc_get (si_gc s') j = gc_get (si_gc s) j)
  else write_i16 r offset src s = (Err (EMsg "array write out of bounds"), s).
Proof using.
  intros Ha Hoff Hsrc. pose proof Ha as [Hi Ho Hty Hsz Hn]. pose proof (zlen_nonneg src) as Hs0.
  assert (packed_body_mut r StI16 offset (zlen src) s =
    (body ← ok_or (zslice (obj_data o) (2 * offset) (2 * offset + 2 * zlen src)) (EMsg "array write out of bounds");
     Ok (i, o, 2 * offset, body))) as Hpb.
  { unfold packed_body_mut. rewrite Hi. cbn [mbind result_bind]. unfold gc_object. rewrite Ho. cbn [ok_or mbind result_bind].
    unfold object_field. rewrite Hty. cbn [ok_or mbind result_bind ft_element ft_mutable]. rewrite bool_decide_true by done.
    cbn [negb]. cbn zeta. rewrite element_range_small by lia. done. }
  unfold write_i16. rewrite reads_unfold, Hpb. destruct (Z.leb_spec (offset + zlen src) n) as [Hin|Hout].
  - rewrite zslice_is_Some by lia. cbn [ok_or mbind result_bind put_window].
    rewrite set_pairs_all by (rewrite zlen_take by (rewrite zlen_drop; lia); lia).
    destruct (zsplice_is_Some (obj_data o) (concat (to_le_bytes 2 <$> src)) (2 * offset)) as [d Hd]; [lia|rewrite zlen_pairs; lia|].
    pose proof (zlen_splice _ _ _ _ Hd) as Hdl. pose proof (put_i16_array _ _ _ _ _ d Ha Hdl) as Ha'.
    exists (put_object i (with_data o d) s). split; [rewrite !bind_unfold; unfold lift; rewrite bind_unfold, Hd; done|]. split_and!.
    + unfold ArrayRef_len. rewrite (ia_slot _ _ _ _ _ Ha'). cbn [mbind result_bind]. unfold gc_object.
      rewrite (ia_object _ _ _ _ _ Ha'). cbn [ok_or mbind result_bind]. unfold object_field. cbn [with_data obj_type]. rewrite Hty.
      cbn [ok_or mbind result_bind]. unfold array_len. cbn [with_data obj_data]. rewrite Hdl, Hsz. cbn.
      rewrite Z.mul_comm, Z.div_mul, wrap_id by (unfold u_ok; lia). done.
    + intros dst Hdst. assert (zlen dst = zlen src) as Hz by (unfold zlen; lia).
      rewrite (read_i16_run _ _ _ _ _ _ _ Ha') by lia. cbn [with_data obj_data]. rewrite Hz.
      rewrite <- (zlen_pairs src), (zslice_splice_eq _ _ _ _ Hd). cbn. by rewrite read_pairs.
    + intros a dst Ha0 Hab Hd'. rewrite (read_i16_run _ _ _ _ _ _ _ Ha'), (read_i16_run _ _ _ _ _ _ _ Ha) by lia.
      cbn [with_data obj_data]. rewrite (zslice_splice_ne _ _ _ _ _ _ Hd) by (rewrite zlen_pairs; lia). done.
    + intros j Hj. pose proof (gc_get_range _ _ _ Ho). unfold gc_get. cbn. destruct (decide (0 ≤ j)).
      * by rewrite zget_insert_ne by lia.
      * unfold zget. by rewrite (proj2 (Z.leb_gt _ _)) by lia.
  - unfold zslice. rewrite (proj2 (Z.leb_gt (2 * offset + 2 * zlen src) _)), andb_false_r by lia. done.
Qed.
End host_writes.

(** ** A store with a struct, an array and a struct that refers to the first *)
#[local] Instance agg_types : EngineTypes :=
  {| struct_fields := λ id,
       if id =? 8 then Some []
       else if id =? 7 then Some [{| ft_mutable := true;
              ft_element := StValType (TRef {| rt_nullable := true; rt_heap := HtConcreteStruct 8 |}) |}]
       else None;
     array_field := λ id, if id =? 9 then Some {| ft_mutable := true; ft_element := StI16 |} else None |}.
#[local] Instance agg_order : TypeOrder := {| engine_is_subtype := Z.eqb |}.
#[local] Instance agg_alloc : HostAlloc := {| reserve_bytes := λ _, true; reserve_elems := λ _, true |}.
Definition agg_handle (i : Z) : Rooted := rooted_from_raw_gen i 0 1 RkAny.
Definition agg_objects : list GcObject :=
  [new_struct 8 []; new_array 9 [1; 0; 2; 0; 3; 0]; new_struct 7 (to_le_bytes 4 0)].
Definition agg_heap : GcHeap :=
  {| gc_slots := Some <$> agg_objects; gc_generations := [0; 0; 0]; gc_free := []; gc_used := 44 + 50 + 48;
     gc_reserved := 142; gc_reservation := 0; gc_next_grow := RESERVE_BATCH; gc_marks := []; gc_collecting := true |}.
Definition agg_inner : StoreInner :=
  set_si_gc_roots [(0, RkAny); (1, RkAny); (2, RkAny)] (set_si_gc agg_heap (store_new 1 true 0)).

Lemma agg_get i o : gc_get agg_heap i = Some o → i = 0 ∧ o = new_struct 8 [] ∨
  i = 1 ∧ o = new_array 9 [1; 0; 2; 0; 3; 0] ∨ i = 2 ∧ o = new_struct 7 (to_le_bytes 4 0).
Proof.
  intros Ho. pose proof (gc_get_range _ _ _ Ho) as Hi. change (zlen (gc_slots agg_heap)) with 3 in Hi.
  assert (i = 0 ∨ i = 1 ∨ i = 2) as [-> | [-> | ->]] by lia; injection Ho as <-; auto.
Qed.
Lemma agg_sound : heap_sound agg_inner.
Proof.
  constructor.
  - intros i o [[-> ->] | [[-> ->] | [-> ->]]]%agg_get; eexists; (split; [done|]); cbn.
    + eexists; split_and!; reflexivity.
    + eexists _, 3. split_and!; try reflexivity. done.
    + eexists; split_and!; reflexivity.
  - intros [i|i|i] [o Ho].
    + apply agg_get in Ho as [[-> _] | [[-> _] | [-> _]]]; eexists; (split; [vm_compute; reflexivity|]); repeat constructor.
      by eexists.
    + apply reclaim_get_range in Ho. change (zlen (ra_slots (si_externrefs agg_inner))) with 0 in Ho. lia.
    + apply reclaim_get_range in Ho. change (zlen (ra_slots (si_exns agg_inner))) with 0 in Ho. lia.
  - repeat constructor; by eexists.
Qed.

(** The reference of the struct is replaced; a handle of the wrong type is refused. *)
Lemma host_gc_writes_sound_witness :
  heap_sound (StructRef_set_field (agg_handle 2) 0 (VAnyRef (Some (agg_handle 0))) agg_inner).2 ∧
  StructRef_set_field (agg_handle 2) 0 (VAnyRef (Some (agg_handle 1))) agg_inner =
    (Err (EMsg "struct field value has the wrong type"), agg_inner).
Proof.
  split; [|vm_compute; reflexivity].
  apply (@host_gc_writes_sound agg_types agg_order); [exact agg_sound|].
  apply hg_field. split; [|done]. cbn. unfold u_ok. lia.
Defined.

Lemma agg_array : i16_array (agg_handle 1) 3 agg_inner 1 (new_array 9 [1; 0; 2; 0; 3; 0]).
Proof. constructor; try reflexivity. Qed.
(** Two units over the last two elements, the second reduced; and one unit too many. *)
Lemma write_i16_exact_witness :
  (∃ s', write_i16 (agg_handle 1) 1 [7; 65537] agg_inner = (Ok tt, s') ∧
     read_i16 (agg_handle 1) 1 [0; 0] s' = Ok [7; 1] ∧ read_i16 (agg_handle 1) 0 [0] s' = Ok [1]) ∧
  write_i16 (agg_handle 1) 1 [7; 8; 9] agg_inner = (Err (EMsg "array write out of bounds"), agg_inner).
Proof.
  split.
  - destruct (@write_i16_exact agg_types (agg_handle 1) 3 agg_inner 1 _ 1 [7; 65537] agg_array)
      as (s1 & Hs1 & _ & Hr & Hd & _); [by split|done|].
    exists s1. split; [exact Hs1|]. split; [apply (Hr [0; 0]); reflexivity|].
    rewrite (Hd 0 [0]); [vm_compute; reflexivity|done|done|by left].
  - apply (@write_i16_exact agg_types (agg_handle 1) 3 agg_inner 1 _ 1 [7; 8; 9] agg_array); [by split|done].
Defined.
