(* ===== verification/HostObjects.v ===== *)
(** * HostObjects: the embedder's GC objects are sound (src/src/value/gc_aggregate.rs)

    The writes of GcAggregate keep every reference of the heap to something that is
    there; so do the constructors when the values they store are rooted, even when
    their reservation runs a collection.  With an unrooted value, live at the call but
    not reachable, the reservation may free it after it was checked. *)
From stdpp Require Import relations.
From S2P Require Import Prelude Keep Types Layout Codec Arena Heap Op Entity Store Collect Stack Limits.
From S2P Require Import GcOps Aggregates Matching ConstEval Step Extern GcAggregate.
Open Scope Z_scope.

(** ** Collection keeps a sound heap sound *)
Section collection.
Context `{EngineTypes}.
Implicit Types s : StoreInner.

Lemma reach_present s roots n : heap_sound s → Forall (present s) roots → reach (node_children s) roots n → present s n.
Proof using.
  intros Hs Hr (r & Hin & Hrtc). rewrite Forall_forall in Hr. specialize (Hr r Hin). clear Hin.
  induction Hrtc as [|a b c (cs & Hcs & Hb) _ IH]; [done|]. apply IH.
  destruct (hs_closed _ Hs a Hr) as (cs' & Hcs' & HP). rewrite Hcs in Hcs'. injection Hcs' as <-.
  rewrite Forall_forall in HP. by apply HP.
Qed.

#[local] Instance present_dec s n : Decision (present s n).
Proof. destruct n; apply _. Defined.
#[local] Instance children_dec s s' n : Decision (∃ cs, node_children s' n = Ok cs ∧ Forall (present s) cs).
Proof.
  destruct (node_children s' n) as [cs|e|w]; [|right; by intros (cs & ? & _)..].
  destruct (decide (Forall (present s) cs)); [left; by exists cs|right; by intros (? & [= <-] & ?)].
Defined.
#[local] Instance GcObject_eq_dec : EqDecision GcObject.
Proof. solve_decision. Defined.

(** What a collection keeps is what was live. *)
Lemma collected_kept live s s' n : collected live s s' → live n → present s n → present s' n.
Proof using.
  intros Hc Hl. destruct n as [i|i|i]; cbn.
  - by destruct (co_gc_live _ _ _ Hc i Hl) as [-> _].
  - by destruct (co_extern_live _ _ _ Hc i Hl) as [-> _].
  - by destruct (co_exn_live _ _ _ Hc i Hl) as [-> _].
Qed.
Lemma collected_live live s s' n (P : Prop) `{Decision P} : collected live s s' → present s' n → (live n → P) → P.
Proof using.
  intros Hc Hp HP. apply dec_stable. intros HnP. assert (¬ live n) as Hl by auto.
  destruct n as [i|i|i]; cbn in Hp; destruct Hp as [x Hx].
  - destruct (co_gc_dead _ _ _ Hc i Hl). congruence.
  - destruct (co_extern_dead _ _ _ Hc i Hl). congruence.
  - destruct (co_exn_dead _ _ _ Hc i Hl). congruence.
Qed.
Lemma collected_children live s s' n : collected live s s' → live n → node_children s' n = node_children s n.
Proof using.
  intros Hc Hl. destruct n as [i|i|i]; cbn.
  - unfold trace_gc. by destruct (co_gc_live _ _ _ Hc i Hl) as [-> _].
  - unfold trace_extern. by destruct (co_extern_live _ _ _ Hc i Hl) as [-> _].
  - unfold trace_exn. by destruct (co_exn_live _ _ _ Hc i Hl) as [-> _].
Qed.
Lemma collected_roots live s s' : collected live s s' → seed_entity_roots s' = seed_entity_roots s.
Proof using. intros Hc. by rewrite (co_rest _ _ _ Hc). Qed.

Lemma collected_sound roots s s' : heap_sound s → Forall (present s) (collect_roots roots s) →
  collected (reach (node_children s) (collect_roots roots s)) s s' →
  heap_sound s' ∧ seed_entity_roots s' = seed_entity_roots s.
Proof using.
  intros Hs Hr Hc. pose proof (collected_roots _ _ _ Hc) as Hroots. split; [|done]. constructor.
  - intros i o Ho. apply (hs_sized _ Hs i). rewrite <- Ho. symmetry.
    apply (collected_live _ _ _ (RGc i) _ Hc); [by eexists|]. intros Hl. by destruct (co_gc_live _ _ _ Hc i Hl).
  - intros n Hn. apply (collected_live _ _ _ n _ Hc Hn). intros Hl.
    destruct (hs_closed _ Hs n (reach_present _ _ _ Hs Hr Hl)) as (cs & Hcs & HP).
    exists cs. rewrite (collected_children _ _ _ _ Hc Hl). split; [done|]. apply Forall_forall. intros c Hcin.
    rewrite Forall_forall in HP. eapply collected_kept; [done| |by apply HP]. eapply reach_edge; [done|]. by exists cs.
  - rewrite Hroots. apply Forall_forall. intros n Hn.
    assert (n ∈ collect_roots roots s) as Hin by (apply elem_of_app; by right).
    eapply collected_kept; [done|by apply reach_root|]. rewrite Forall_forall in Hr. by apply Hr.
Qed.

(** A store whose collector can run, between two calls of the embedder. *)
Record collectable s : Prop := {
  cl_wf : managed_wf s;
  cl_marks : gc_marks (si_gc s) = [];
  cl_account : account_exact s;
  cl_sound : heap_sound s;
}.
(** A collection of a sound store with its roots there cannot fail. *)
Lemma gc_collect_sound roots s : collectable s → Forall (present s) (collect_roots roots s) →
  ∃ s', gc_collect roots s = (Ok tt, s') ∧ collectable s' ∧ seed_entity_roots s' = seed_entity_roots s.
Proof using.
  intros [Hwf Hm Ha Hs] Hr. unfold gc_collect. destruct (gc_collecting (si_gc s)) eqn:Hc.
  - destruct (collect_cases roots s Hwf Hm Hc Ha) as [(_ & s' & -> & Hcol)|(n & why & Hl & He & _)].
    + exists s'. split; [done|]. destruct (collected_sound roots s s' Hs Hr Hcol). by destruct Hcol.
    + destruct (hs_closed _ Hs n (reach_present _ _ _ Hs Hr Hl)) as (cs & Hcs & _). congruence.
  - exists s. unfold collect. by rewrite Hc.
Qed.
End collection.

(** ** The reservation *)
Section reservation.
Context `{EngineTypes} {L : Type} `{ResourceLimiter L}.
Implicit Types s : StoreInner.
Implicit Types st : StoreT L.

Definition stack_refs (roots : list (Z * RefKind)) : list Reached :=
  concat ((λ '(handle, kind), seed_handle handle kind) <$> roots).
(** A store between two calls of the embedder: its collector can run, and what the parked
    execution holds is there. *)
Record ready st : Prop := {
  rd_inner : collectable (st_inner st);
  rd_stack : ∀ roots, operand_roots (st_exec_slot st) = Ok roots → Forall (present (st_inner st)) (stack_refs roots);
}.
(** What a reservation leaves: a sound store with the same roots. *)
Definition same_roots s s1 : Prop :=
  collectable s1 ∧ seed_entity_roots s1 = seed_entity_roots s ∧ si_store_id s1 = si_store_id s.

Lemma grant_collectable target s : collectable s → collectable (set_si_gc (snd (grant target (si_gc s))) s).
Proof using.
  intros [Hwf Hm Ha Hs]. constructor; [|done|done|].
  - by destruct Hwf as [[Ht Hn] ? ?].
  - destruct Hs as [Hz Hc Hr].
    assert (∀ n, present s n → present (set_si_gc (snd (grant target (si_gc s))) s) n) as Hp by (by intros []).
    constructor; [done| |by eapply Forall_impl].
    intros n Hn. destruct (Hc n) as (cs & Hcs & HP); [by destruct n|]. exists cs.
    split; [by destruct n|by eapply Forall_impl].
Qed.
Lemma gc_collect_id roots s s' : gc_collect roots s = (Ok tt, s') → collectable s → si_store_id s' = si_store_id s.
Proof using.
  intros Hg [Hwf Hm Ha Hs]. unfold gc_collect in Hg. destruct (gc_collecting (si_gc s)) eqn:Hc.
  - destruct (collect_cases roots s Hwf Hm Hc Ha) as [(_ & s1 & He & Hcol)|(n & why & _ & _ & He)]; rewrite He in Hg; [|done].
    injection Hg as <-. by rewrite (co_rest _ _ _ Hcol).
  - unfold collect in Hg. rewrite Hc in Hg. by injection Hg as <-.
Qed.

Lemma reserve_target_sound charge st r st1 : ready st → reserve_or_target charge st = (r, st1) →
  same_roots (st_inner st) (st_inner st1).
Proof using.
  intros [Hc Hst]. unfold reserve_or_target. rewrite reads_unfold. destruct (fits _ charge); [by intros [= <- <-]|].
  rewrite get_run, bind_unfold.
  assert (∀ st2, same_roots (st_inner st) (st_inner st2) → ∀ r st1,
    (h ← reads (λ st, Ok (si_gc (st_inner st)));
     if is_free_grant h (desired_reservation h charge) then on_inner (gc_grant (desired_reservation h charge));; mret None
     else mret (Some (desired_reservation h charge))) st2 = (r, st1) → same_roots (st_inner st) (st_inner st1)) as Hgo.
  { intros st2 (Hc2 & Hr2 & Hi2) r' st1'. rewrite reads_unfold. destruct (is_free_grant _ _); intros [= _ <-]; [|by split_and!].
    split; [by apply grant_collectable|done]. }
  destruct (negb _ && _).
  - rewrite bind_unfold. unfold lift. destruct (operand_roots _) as [roots|e|w] eqn:Hroots; [|intros [= _ <-]; by split_and!..].
    rewrite bind_unfold. unfold on_inner at 1, zoom.
    destruct (gc_collect_sound roots (st_inner st) Hc) as (s' & Hg & Hc' & Hr').
    { apply Forall_app. split; [by apply Hst|apply Hc]. }
    rewrite Hg. unfold reads at 1. cbn [st_inner set_st_inner fst snd]. pose proof (gc_collect_id _ _ _ Hg Hc) as Hid.
    destruct (fits (si_gc s') charge); [intros [= _ <-]; by split_and!|]. apply Hgo. by split_and!.
  - apply Hgo. by split_and!.
Qed.

(** The limiter decides on the reservation, and has only the host data to change. *)
Lemma grow_reservation_sound s target charge st r st1 : same_roots s (st_inner st) →
  grow_gc_reservation target charge st = (r, st1) → same_roots s (st_inner st1).
Proof using.
  intros (Hc & Hr & Hi). unfold grow_gc_reservation. rewrite reads_unfold. destruct (_ <=? _); [intros [= _ <-]; by split_and!|].
  rewrite bind_unfold. destruct (with_sync_limiter _ st) as [a st2] eqn:Hl.
  apply with_sync_data in Hl as [d ->]. destruct a as [a|e|w]; [|intros [= _ <-]; by split_and!..].
  destruct (default _ a); intros [= _ <-]; [|by split_and!]. split; [by apply grant_collectable|done].
Qed.
Lemma reserve_sound charge st r st1 : ready st → gc_reserve_host charge st = (r, st1) →
  same_roots (st_inner st) (st_inner st1).
Proof using.
  intros Hst. unfold gc_reserve_host. rewrite bind_unfold. destruct (reserve_or_target charge st) as [a st2] eqn:Ht.
  pose proof (reserve_target_sound _ _ _ _ Hst Ht) as Hs. destruct a as [[target|]|e|w]; [|by intros [= _ <-]..].
  by apply grow_reservation_sound.
Qed.
Lemma reserve_async_sound charge st r st1 : ready st → gc_reserve_host_async charge st = (r, st1) →
  same_roots (st_inner st) (st_inner st1).
Proof using.
  intros Hst. unfold gc_reserve_host_async. rewrite bind_unfold. destruct (reserve_or_target charge st) as [a st2] eqn:Ht.
  pose proof (reserve_target_sound _ _ _ _ Hst Ht) as (Hc & Hr & Hi). destruct a as [[target|]|e|w]; [|by intros [= _ <-]..].
  rewrite reads_unfold, get_run, bind_unfold.
  assert (∀ (b : bool) st3, st_inner st3 = st_inner st2 → ∀ st1, (if b then on_inner (gc_grant target)
      else fail (EGcHeapOutOfMemory charge)) st3 = (r, st1) → same_roots (st_inner st) (st_inner st1)) as Hgo.
  { intros b st3 H3 st1'. destruct b; intros [= _ <-]; cbn; rewrite ?H3; [|by split_and!].
    split; [by apply grant_collectable|done]. }
  destruct (st_limiter st2); [|by apply Hgo]. unfold on_data, zoom.
  destruct (memory_growing _ _ _ (st_data st2)) as [a d]. destruct a as [b|e|w]; [by apply Hgo|intros [= _ <-]; by split_and!..].
Qed.
End reservation.

(** ** Building a body *)
Definition stores (slot : Slot) (v : Val) : Prop := slot_accepts slot v = true ∧ val_ok v.

Lemma write_fields_seeds slots vs : ∀ data,
  apart (zlen data) slots → Forall2 stores slots vs →
  ∃ data', write_fields slots vs data = Ok data' ∧ zlen data' = zlen data ∧ Forall2 (seeds_as data') slots vs ∧
    ∀ other, inside (zlen data) other → Forall (apart_from other) slots → read_slot other data' = read_slot other data.
Proof.
  revert vs. induction slots as [|s slots IH]; intros vs data Ha Hf; inversion Hf as [|? v ? vs' [Hv Hok] Hvs]; subst.
  { exists data. split_and!; auto. }
  destruct Ha as (Hi & Hs & Ha). cbn [write_fields].
  destruct (write_slot_seeds s data v Hv Hok Hi) as (d1 & -> & Hl & Hx & Hfr). cbn [mbind result_bind].
  destruct (IH vs' d1) as (d2 & -> & Hl2 & HF & Hfr2); [by rewrite Hl|done|]. rewrite Hl in Hfr2.
  exists d2. split_and!; [done|congruence| |].
  - constructor; [|done]. destruct Hx as (x & Hx & Hsx). exists x. by rewrite Hfr2.
  - intros other Ho [Hso Hfo]%Forall_cons. rewrite Hfr2 by done. apply Hfr; [done|]. unfold apart_from in *. lia.
Qed.
Lemma write_elems_fields layout vs : ∀ i data,
  write_elems layout i vs data = write_fields (elem_at layout <$> seqZ i (zlen vs)) vs data.
Proof.
  induction vs as [|v vs IH]; intros i data; [done|]. rewrite zlen_cons. pose proof (zlen_nonneg vs).
  rewrite seqZ_cons by lia. cbn. replace (Z.pred (1 + zlen vs)) with (zlen vs) by lia.
  destruct (write_slot _ _ _); [apply IH|done..].
Qed.
Lemma write_elems_seeds e vs data : zlen data = zlen vs * slot_width e → Forall (stores e) vs →
  ∃ data', write_elems (array_layout_of e) 0 vs data = Ok data' ∧ zlen data' = zlen data ∧
    Forall2 (seeds_as data') (elem_at (array_layout_of e) <$> seqZ 0 (zlen vs)) vs.
Proof.
  intros Hl Hv. rewrite write_elems_fields.
  destruct (write_fields_seeds (elem_at (array_layout_of e) <$> seqZ 0 (zlen vs)) vs data) as (d & Hd & Hl' & HF & _).
  - by apply elems_apart.
  - apply Forall2_same_length_lookup_2.
    { rewrite length_fmap, length_seqZ. unfold zlen. lia. }
    intros i slot v Hs Hi. rewrite Forall_lookup in Hv. specialize (Hv i v Hi).
    apply list_lookup_fmap_Some in Hs as (j & -> & _). destruct Hv as [Ha Hok].
    split; [|done]. rewrite elem_at_of. by rewrite accepts_with_offset.
  - by exists d.
Qed.

(** A body of copies of one encoded element. *)
Lemma zslice_copies (p : list Z) n i : 0 ≤ i < Z.of_nat n →
  zslice (concat (replicate n p)) (i * zlen p) (i * zlen p + zlen p) = Some p.
Proof.
  pose proof (zlen_nonneg p). revert i. induction n as [|n IH]; intros i Hi; [lia|]. cbn [replicate concat].
  assert (zlen (concat (replicate n p)) = Z.of_nat n * zlen p) as Hl.
  { clear. induction n as [|n IH]; [done|]. cbn. rewrite zlen_app, IH. lia. }
  rewrite zslice_is_Some by (rewrite ?zlen_app, ?Hl; nia).
  replace (i * zlen p + zlen p - i * zlen p) with (zlen p) by lia.
  destruct (decide (i = 0)) as [->|].
  - rewrite Z.mul_0_l, zdrop_0. f_equal. unfold ztake, zlen. rewrite Nat2Z.id. by rewrite take_app_length.
  - specialize (IH (i - 1) ltac:(lia)). rewrite zslice_is_Some in IH by (rewrite ?Hl; nia).
    injection IH as IH. replace ((i - 1) * zlen p + zlen p - (i - 1) * zlen p) with (zlen p) in IH by lia.
    replace (i * zlen p) with (zlen p + (i - 1) * zlen p) by lia.
    rewrite <- zdrop_zdrop, zdrop_app by (done || nia). by rewrite IH.
Qed.
Lemma repeat_chunks_copies p n fuel : 0 < zlen p → (n <= fuel)%nat →
  ∀ body, zlen body = Z.of_nat n * zlen p → repeat_chunks fuel p body = concat (replicate n p).
Proof.
  intros Hp. revert fuel. induction n as [|n IH]; intros fuel Hf body Hb.
  - assert (body = []) as -> by (destruct body; [done|rewrite zlen_cons in Hb; pose proof (zlen_nonneg body); lia]).
    destruct fuel; [done|]. cbn. by rewrite (proj2 (Z.ltb_lt _ _)) by done.
  - destruct fuel as [|fuel]; [lia|]. cbn [repeat_chunks replicate concat].
    rewrite (proj2 (Z.ltb_ge _ _)) by nia. f_equal. apply IH; [lia|]. rewrite zlen_drop by nia. lia.
Qed.
Lemma zero_copies (p : list Z) n : existsb (λ b, negb (b =? 0)) p = false →
  zeroed (Z.of_nat n * zlen p) = concat (replicate n p).
Proof.
  intros Hz. assert (p = replicate (length p) 0) as Hp.
  { induction p as [|b p IH]; [done|]. cbn in Hz |- *. apply orb_false_iff in Hz as [Hb Hz].
    destruct (Z.eqb_spec b 0) as [->|]; [|done]. f_equal. by apply IH. }
  induction n as [|n IH]; [done|]. cbn [replicate concat]. rewrite <- IH. rewrite Hp at 2.
  unfold zeroed. rewrite <- replicate_add. f_equal. unfold zlen. lia.
Qed.

(** A slot whose bytes are those of a value is seen by the collector as that value. *)
Lemma window_seeds slot v data : stores slot v → inside (zlen data) slot →
  zslice data (slot_offset slot) (slot_offset slot + slot_width slot) = Some (slot_bytes slot v) → seeds_as data slot v.
Proof.
  intros [Ha Hok] [Ho Hw] Hz.
  assert (∀ u, slot_accepts slot u = true → val_ok u → storable u → slot_bytes slot u = slot_bytes slot v →
    seed_val u = seed_val v → (storable v → slot_view slot u = slot_view slot v) → seeds_as data slot v) as Hgo.
  { intros u Hu Huk Hus Hb Hsd Hview. exists (slot_view slot u). rewrite seed_view by done. split_and!; [|done..].
    apply read_window; try done. by rewrite Hb. }
  destruct (storable_or_null v) as [Hs|(Hns & Hn & Hsd)]; [by apply (Hgo v)|].
  destruct slot as [o k|o k]; [by destruct k, v as [| | | | |[]|[]|[]|[]]|].
  apply (Hgo (null_ref k)); rewrite ?Hsd; try (by destruct k). unfold slot_bytes. rewrite Hn.
  by destruct k, v as [| | | | |[]|[]|[]|[]].
Qed.

Section filling.
Context `{HostAlloc}.
Lemma filled_copies p n body : 0 < zlen p → 0 ≤ n → filled_body p (n * zlen p) = Ok body →
  body = concat (replicate (Z.to_nat n) p).
Proof using.
  intros Hp Hn. rewrite <- (Z2Nat.id n Hn). generalize (Z.to_nat n) as k. intros k. rewrite Nat2Z.id.
  unfold filled_body, zeroed_body. destruct (reserve_bytes _); [|done]. cbn [mbind result_bind].
  assert (zlen (zeroed (Z.of_nat k * zlen p)) = Z.of_nat k * zlen p) as Hl by (apply zlen_zeroed; nia).
  destruct (existsb _ p) eqn:Hz.
  - rewrite (proj2 (Z.eqb_neq _ _)) by lia. intros [= <-]. apply repeat_chunks_copies; [done| |done].
    unfold zlen in *. nia.
  - intros [= <-]. by apply zero_copies.
Qed.
Lemma filled_seeds e v n p body : stores e v → 0 ≤ n →
  write_slot (elem_at (array_layout_of e) 0) (zeroed (slot_width e)) v = Ok p → filled_body p (n * slot_width e) = Ok body →
  zlen body = n * slot_width e ∧ Forall (λ slot, seeds_as body slot v) (elem_at (array_layout_of e) <$> seqZ 0 n).
Proof using.
  intros [Ha Hok] Hn Hp Hb. pose proof (slot_width_pos e) as Hw.
  assert (zlen (zeroed (slot_width e)) = slot_width e) as Hz by (apply zlen_zeroed; lia).
  assert (p = slot_bytes e v ∧ zlen p = slot_width e) as [-> Hl].
  { rewrite elem_at_of in Hp.
    destruct (write_slot_splice (with_offset e (0 * slot_width e)) (zeroed (slot_width e)) v) as [Hws Hbl];
      rewrite ?accepts_with_offset, ?offset_with_offset, ?width_with_offset, ?Hz in *; [done|lia..|].
    rewrite Hp in Hws. destruct (zsplice _ _ _) as [d|] eqn:Hsp; [|done]. injection Hws as ->.
    apply zsplice_Some in Hsp as (_ & _ & ->). rewrite bytes_with_offset in *.
    rewrite Z.mul_0_l, ztake_0, Z.add_0_l. unfold zdrop. rewrite drop_ge by (unfold zlen in *; lia). by rewrite app_nil_r. }
  rewrite <- Hl in Hb. apply filled_copies in Hb as ->; [|lia..].
  assert (zlen (concat (replicate (Z.to_nat n) (slot_bytes e v))) = n * slot_width e) as Hlb.
  { rewrite <- Hl. replace n with (Z.of_nat (Z.to_nat n)) at 2 by lia. generalize (Z.to_nat n) as k.
    induction k as [|k IH]; [done|]. cbn [replicate concat]. rewrite zlen_app, IH. lia. }
  split; [done|]. apply Forall_fmap, Forall_forall. intros i Hi%elem_of_seqZ. cbn. rewrite elem_at_of.
  apply window_seeds.
  - split; [by rewrite accepts_with_offset|done].
  - unfold inside. rewrite offset_with_offset, width_with_offset, Hlb. nia.
  - rewrite offset_with_offset, width_with_offset, bytes_with_offset, <- Hl. apply zslice_copies. lia.
Qed.
End filling.

(** ** The constructors *)
Section constructors.
Context `{HostAlloc, EngineTypes, TypeOrder} {L : Type} `{ResourceLimiter L}.
Implicit Types s : StoreInner.
Implicit Types st : StoreT L.

(** The object a constructor returns: placed in a slot of [s] that was free, and nothing else
    of the heap changed; named by the handle, and a root. *)
Definition made (r : Rooted) s s' (o : GcObject) : Prop :=
  ∃ i, rooted_slot r s' = Ok i ∧ gc_get (si_gc s) i = None ∧ gc_get (si_gc s') i = Some o ∧
    (∀ j, j ≠ i → gc_get (si_gc s') j = gc_get (si_gc s) j) ∧ RGc i ∈ seed_entity_roots s'.

(** What the object is: a struct of the type with the given field values, an array of the type
    with the given elements, or an array with the given integers, packed. *)
Definition struct_of (a : StructRefPre) (fields : list Val) (o : GcObject) : Prop :=
  obj_kind o = ObjStruct ∧ obj_type o = srp_ty a ∧ Forall2 (seeds_as (obj_data o)) (sl_fields (srp_layout a)) fields.
Definition array_of (a : ArrayRefPre) (elems : list Val) (o : GcObject) : Prop :=
  obj_kind o = ObjArray ∧ obj_type o = arp_ty a ∧ zlen (obj_data o) = zlen elems * al_stride (arp_layout a) ∧
  Forall2 (seeds_as (obj_data o)) (elem_at (arp_layout a) <$> seqZ 0 (zlen elems)) elems.
Definition packed_of (a : ArrayRefPre) (bytes : list Z) (o : GcObject) : Prop := o = new_array (arp_ty a) bytes.
Definition packed_ints (n : nat) (elems : list Z) : list Z := concat (to_le_bytes n <$> elems).

Lemma alloc_rooted_sound id o slots s : managed_wf s → heap_sound s → object_slots o slots → obj_kind o ≠ ObjExtern →
  Forall (reads_present s (obj_data o)) slots →
  heap_sound (alloc_rooted id o s).2 ∧ ∀ r, (alloc_rooted id o s).1 = Ok r → made r s (alloc_rooted id o s).2 o.
Proof using.
  intros Hwf Hs Ho Hk HP. unfold alloc_rooted, alloc_host_gc, with_gc, zoom. rewrite bind_unfold.
  destruct (gc_alloc_spec o (si_gc s) (mw_gc _ Hwf)) as [(-> & _)|(i & h' & -> & Hh & Hi & Hfree & Hget & Hne & _)].
  { split; [|done]. by replace (set_si_gc (si_gc s) s) with s by (by destruct s). }
  destruct (placed_sound s h' i o slots Hs) as [Hs' Hmono]; [by intros; apply Hne|done..|].
  assert (decode_anyref_handle i = HSlot i) as Hd.
  { destruct (anyref_handle_roundtrip 0 i Hi) as (_ & Hd & _). exact Hd. }
  assert (∀ n, present (set_si_gc h' s) n → present (push_gc_root i RkAny (set_si_gc h' s)) n) as Hp by (by intros []).
  assert (seed_entity_roots (push_gc_root i RkAny (set_si_gc h' s)) = seed_entity_roots (set_si_gc h' s) ++ [RGc i]) as Hr.
  { unfold seed_entity_roots. cbn. rewrite fmap_app, concat_app. cbn. unfold seed_handle at 2.
    rewrite (proj2 (Z.eqb_neq i _)) by lia. rewrite Hd. by rewrite app_nil_r, !app_assoc. }
  cbn. split.
  - destruct Hs' as [Hz Hc Hrt]. constructor; [done| |].
    + intros n Hn. destruct (Hc n) as (cs & Hcs & HPc); [by destruct n|]. exists cs.
      split; [by destruct n|by eapply Forall_impl].
    + unfold anyref_handle_slot. rewrite Hr. apply Forall_app. split; [by eapply Forall_impl|].
      apply Forall_singleton. cbn. by rewrite Hget.
  - intros r [= <-]. exists i. unfold anyref_handle_slot. split_and!.
    + unfold rooted_slot, gc_slot_checked. cbn. rewrite check_handle_self. cbn. rewrite Hd, Hget. cbn.
      assert (is_Some (gc_generation h' i)) as [g Hg].
      { apply gc_get_range in Hget. destruct Hh as [Hh _]. unfold gc_generation. apply zget_is_Some.
        rewrite (sw_len _ _ _ Hh). lia. }
      rewrite Hg. cbn. rewrite bool_decide_true by done. by rewrite andb_false_r.
    + done.
    + done.
    + done.
    + rewrite Hr. apply elem_of_app. right. by apply list_elem_of_singleton.
Qed.

(** What is known of a constructor's run: the reservation may have collected, and then the new
    object is placed. *)
Section run.
Context (s0 : StoreInner) (built : GcObject → Prop).
Definition good (p : res Rooted * StoreT L) : Prop :=
  heap_sound (st_inner p.2) ∧ ∀ r, p.1 = Ok r → ∃ s1 o, same_roots s0 s1 ∧ made r s1 (st_inner p.2) o ∧ built o.
Lemma good_still st (x : res Rooted) : ready st → (∀ r, x ≠ Ok r) → good (x, st).
Proof using. intros [[] _] Hx. split; [done|]. cbn. intros r Hr. by destruct (Hx r). Qed.
Lemma good_reads {A} (f : StoreT L → res A) (k : A → SM (StoreT L) Rooted) st : ready st →
  (∀ a, f st = Ok a → good (k a st)) → good ((a ← reads f; k a) st).
Proof using. intros Hst Hk. rewrite reads_unfold. destruct (f st); [by apply Hk|by apply good_still..]. Qed.
Lemma good_lift {A} (x : res A) (k : A → SM (StoreT L) Rooted) st : ready st →
  (∀ a, x = Ok a → good (k a st)) → good ((a ← lift x; k a) st).
Proof using. intros Hst Hk. rewrite bind_unfold. unfold lift. destruct x; [by apply Hk|by apply good_still..]. Qed.
Lemma good_reserve reserve charge (k : SM (StoreT L) Rooted) st :
  (reserve = gc_reserve_host ∨ reserve = gc_reserve_host_async) → ready st →
  (∀ st1, same_roots (st_inner st) (st_inner st1) → good (k st1)) → good ((reserve charge;; k) st).
Proof using.
  intros Hres Hst Hk. rewrite bind_unfold. destruct (reserve charge st) as [r st1] eqn:Hr.
  assert (same_roots (st_inner st) (st_inner st1)) as Hs.
  { destruct Hres as [->| ->]; [by eapply reserve_sound|by eapply reserve_async_sound]. }
  destruct r as [[]|e|w]; [by apply Hk|..]; (split; [apply Hs|done]).
Qed.
(** The body is built, and the object placed. *)
Lemma good_alloc id o st : same_roots s0 (st_inner st) → obj_kind o ≠ ObjExtern → built o →
  (∃ slots, object_slots o slots ∧ Forall (reads_present (st_inner st) (obj_data o)) slots) →
  good (on_inner (alloc_rooted id o) st).
Proof using.
  intros Hsr Hk Hbuilt (slots & Ho & HP). pose proof Hsr as ([Hwf _ _ Hs] & _).
  destruct (alloc_rooted_sound id o slots (st_inner st)) as [Hs' Hm]; [done..|].
  unfold good, on_inner, zoom. destruct (alloc_rooted id o (st_inner st)) as [r s']. split; [done|].
  intros r' Hr. exists (st_inner st), o. split_and!; [done|by apply Hm|done].
Qed.
Lemma good_built {A} (x : res A) (k : A → SM (StoreT L) Rooted) st : same_roots s0 (st_inner st) →
  (∀ a, x = Ok a → good (k a st)) → good ((a ← lift x; k a) st).
Proof using.
  intros Hs Hk. rewrite bind_unfold. unfold lift. destruct x; [by apply Hk|..]; (split; [apply Hs|done]).
Qed.
Lemma good_finish a body st : same_roots s0 (st_inner st) → built (new_array (arp_ty a) body) →
  (∃ slots, object_slots (new_array (arp_ty a) body) slots ∧ Forall (reads_present (st_inner st) body) slots) →
  good (on_inner (finish_packed a body) st).
Proof using.
  intros Hs Hb Ho. pose proof (good_alloc (arp_ty a) (new_array (arp_ty a) body) st Hs) as Hg.
  unfold finish_packed, good, on_inner, zoom in *. rewrite reads_unfold.
  destruct (check_handle _ _); [by apply Hg|..]; (split; [apply Hs|done]).
Qed.
End run.

(** A value that the roots keep. *)
Definition rooted_value s (v : Val) : Prop := host_value s v ∧ ∀ n, n ∈ seed_val v → n ∈ seed_entity_roots s.
Lemma rooted_present s s1 v : rooted_value s v → same_roots s s1 → Forall (present s1) (seed_val v).
Proof using.
  intros [_ Hv] (Hc & Hr & _). pose proof (hs_roots _ (cl_sound _ Hc)) as HP. rewrite Hr in HP.
  apply Forall_forall. intros n Hn. rewrite Forall_forall in HP. apply HP. by apply Hv.
Qed.
Lemma seeds_present s s1 data slots vs : Forall (rooted_value s) vs → same_roots s s1 →
  Forall2 (seeds_as data) slots vs → Forall (reads_present s1 data) slots.
Proof using.
  intros Hv Hs. induction 1 as [|slot v slots vs (x & Hx & Hsx & _) _ IH]; [by constructor|].
  apply Forall_cons in Hv as [Hv Hvs]. constructor; [|by apply IH].
  exists x. split; [done|]. rewrite Hsx. by eapply rooted_present.
Qed.

(** The registry's answers fit together: an id is of one kind, and a struct fits the address space. *)
Definition types_ok : Prop := ∀ id fields, struct_fields id = Some fields →
  array_field id = None ∧ sl_size (for_struct fields) < 2 ^ 64.

Lemma length_for_struct fields : length (sl_fields (for_struct fields)) = length fields.
Proof using.
  unfold for_struct, struct_layout_of. destruct (struct_layout_go _ 0) as [slots total] eqn:E. cbn.
  rewrite <- (length_fmap pub_field_slot fields).
  destruct (struct_layout_go_tiles (pub_field_slot <$> fields) 0 slots total) as [_ Hl]; [|done|done].
  apply Forall_fmap, Forall_true. intros f o. destruct f as [m []]; cbn; [done..|]. by destruct v.
Qed.
Lemma check_fields_stores s slots : ∀ tys vs, check_fields s slots tys vs = Ok tt → Forall (host_value s) vs →
  length tys = length slots → length vs = length slots → Forall2 stores slots vs.
Proof using.
  induction slots as [|slot slots IH]; intros [|ty tys] [|v vs] Hc Hv Ht Hl; try done.
  cbn in Hc. apply Forall_cons in Hv as [Hv Hvs]. destruct (value_accepted s slot ty v) as [[]|e|w] eqn:Ha; [|done..].
  cbn in Hc. constructor.
  - split; [by eapply accepted_present|by destruct Hv].
  - eapply IH; [done..| |]; [by injection Ht|by injection Hl].
Qed.

(** [StructRef::new] *)
Lemma struct_new_good a fields st s0 : types_ok → StructRefPre_new (srp_ty a) s0 = Ok a → ready st →
  Forall (rooted_value (st_inner st)) fields → good (st_inner st) (struct_of a fields) (StructRef_new a fields st).
Proof using.
  intros Hty Ha Hst Hv. unfold StructRefPre_new, StructType_fields in Ha.
  destruct (struct_fields (srp_ty a)) as [tys|] eqn:Hf; [|done]. cbn in Ha. injection Ha as Ha.
  assert (srp_layout a = for_struct tys) as Hlay by (by rewrite <- Ha). clear Ha. destruct (Hty _ _ Hf) as [Haf Hsz].
  unfold StructRef_new. rewrite Hlay. cbn zeta. destruct (Z.eqb_spec (zlen fields) (zlen (sl_fields (for_struct tys)))) as [Hl|];
    cbn [negb]; [|by apply good_still].
  apply good_reads; [done|intros _ _]. apply good_lift; [done|]. unfold StructType_fields. rewrite Hf.
  intros ? [= <-]. apply good_reads; [done|]. intros [] Hc.
  apply good_reserve; [by left|done|]. intros st1 Hs1. apply (good_built _ _ _ _ _ Hs1). intros data Hd.
  assert (Forall2 stores (sl_fields (for_struct tys)) fields) as Hst2.
  { eapply check_fields_stores; [done| |by rewrite length_for_struct|unfold zlen in Hl; lia].
    eapply Forall_impl; [exact Hv|]. by intros v []. }
  pose proof (tiles_le _ _ _ (for_struct_tiles tys)) as Hnn.
  destruct (write_fields_seeds (sl_fields (for_struct tys)) fields (zeroed (sl_size (for_struct tys)))) as (d & Hw & Hdl & HF & _);
    [rewrite zlen_zeroed by done; apply (tiles_apart _ 0); [done|apply for_struct_tiles]|done|].
  rewrite Hw in Hd. injection Hd as <-. rewrite zlen_zeroed in Hdl by done.
  apply good_alloc; [exact Hs1|done|split_and!; [done..|by rewrite Hlay]|]. exists (sl_fields (for_struct tys)). split.
  - split; cbn; [by rewrite Hdl|]. exists tys. by split_and!.
  - by eapply seeds_present.
Qed.

Definition array_pre (a : ArrayRefPre) (field : FieldType) : Prop :=
  array_field (arp_ty a) = Some field ∧ arp_layout a = for_array field.
Lemma array_pre_new a s0 : ArrayRefPre_new (arp_ty a) s0 = Ok a → ∃ field, array_pre a field.
Proof using.
  unfold ArrayRefPre_new, ArrayType_field_type. destruct (array_field (arp_ty a)) as [field|] eqn:Hf; [|done]. cbn.
  intros [= Ha]. exists field. split; [done|]. by rewrite <- Ha.
Qed.
(** The object of an array body of [n] elements. *)
Lemma array_slots a field n data : types_ok → array_pre a field → 0 ≤ n < 2 ^ 32 → zlen data = n * al_stride (for_array field) →
  object_slots (new_array (arp_ty a) data) (elem_at (for_array field) <$> seqZ 0 n).
Proof using.
  intros Hty [Hf _] Hn Hl. pose proof (slot_width_pos (pub_field_slot field 0)) as Hw. split; cbn.
  - rewrite Hl. cbn. nia.
  - exists field, n. split_and!; try done; try lia. destruct (struct_fields (arp_ty a)) as [fs|] eqn:Hs; [|done].
    destruct (Hty _ _ Hs). congruence.
Qed.
Lemma body_len_inv a field n len : array_pre a field → body_len a n = Ok len → n < 2 ^ 32 ∧ len = n * al_stride (for_array field).
Proof using.
  intros [_ Hl]. unfold body_len, checked_mul. rewrite Hl. destruct (Z.ltb_spec (u_max 32) n); [done|].
  destruct (_ <? _); [|done]. intros [= <-]. split; [unfold u_max in *; lia|done].
Qed.
Lemma check_elem_stores a field s v : array_pre a field → check_elem a v s = Ok tt → host_value s v →
  stores (pub_field_slot field 0) v.
Proof using.
  intros [Hf Hl] Hc Hv. unfold check_elem, ArrayType_field_type in Hc. rewrite Hf, Hl in Hc. cbn [expect mbind result_bind] in Hc.
  destruct (value_accepted s _ field v) as [[]|e|w] eqn:Ha; [|done..]. apply accepted_present in Ha as [Ha _]; [|done].
  split; [|by destruct Hv]. unfold for_array in Ha. rewrite elem_at_of in Ha. by rewrite accepts_with_offset in Ha.
Qed.

Lemma array_new_good a elem n st field : types_ok → array_pre a field → 0 ≤ n → ready st →
  rooted_value (st_inner st) elem → good (st_inner st) (array_of a (replicate (Z.to_nat n) elem)) (ArrayRef_new a elem n st).
Proof using.
  intros Hty Ha Hn Hst Hv. unfold ArrayRef_new. apply good_reads; [done|intros _ _].
  apply good_reads; [done|]. intros [] Hc. apply good_lift; [done|]. intros len [Hlt ->]%(body_len_inv _ _ _ _ Ha).
  apply good_reserve; [by left|done|]. intros st1 Hs1. pose proof Ha as [_ Hl].
  apply (good_built _ _ _ _ _ Hs1). intros p Hp. apply (good_built _ _ _ _ _ Hs1). intros body Hb.
  rewrite Hl in Hp.
  destruct (filled_seeds (pub_field_slot field 0) elem n p body) as [Hbl HF]; [|done..|].
  { eapply check_elem_stores; [done..|]. apply Hv. }
  assert (zlen (replicate (Z.to_nat n) elem) = n) as Hrep by (rewrite zlen_replicate; lia).
  eapply good_finish; [exact Hs1| |exists (elem_at (for_array field) <$> seqZ 0 n); split].
  - split_and!; [done..| |]; rewrite Hrep, Hl; [done|]. apply Forall2_replicate_r; [|done].
    rewrite length_fmap, length_seqZ. done.
  - apply array_slots; [done..|lia|done].
  - apply Forall_forall. intros slot Hin. rewrite Forall_forall in HF. destruct (HF slot Hin) as (x & Hx & Hsx).
    exists x. split; [done|]. destruct Hsx as [-> _]. by eapply rooted_present.
Qed.
Lemma check_elems_stores a field s vs : array_pre a field → check_elems a vs s = Ok tt → Forall (host_value s) vs →
  Forall (stores (pub_field_slot field 0)) vs.
Proof using.
  intros Ha Hc Hv. revert Hc. induction Hv as [|v vs Hv _ IH]; [by constructor|]. cbn.
  destruct (check_elem a v s) as [[]|e|w] eqn:He; [|done..]. cbn. intros Hc.
  constructor; [by eapply check_elem_stores|by apply IH].
Qed.
Lemma new_fixed_good a elems st field : types_ok → array_pre a field → ready st →
  Forall (rooted_value (st_inner st)) elems → good (st_inner st) (array_of a elems) (ArrayRef_new_fixed a elems st).
Proof using.
  intros Hty Ha Hst Hv. unfold ArrayRef_new_fixed, ArrayRef_alloc. apply good_lift; [done|]. intros len [Hlt ->]%(body_len_inv _ _ _ _ Ha).
  apply good_reads; [done|intros _ _]. apply good_reads; [done|]. intros [] Hc.
  apply good_reserve; [by left|done|]. intros st1 Hs1. pose proof Ha as [_ Hl]. pose proof (zlen_nonneg elems) as Hn.
  pose proof (slot_width_pos (pub_field_slot field 0)) as Hw.
  apply (good_built _ _ _ _ _ Hs1). intros zeros Hz. apply (good_built _ _ _ _ _ Hs1). intros data Hd. rewrite Hl in Hd.
  unfold zeroed_body in Hz. destruct (reserve_bytes _); [|done]. injection Hz as <-.
  assert (zlen (zeroed (zlen elems * al_stride (for_array field))) = zlen elems * slot_width (pub_field_slot field 0)) as Hzl
    by (apply zlen_zeroed; cbn; nia).
  destruct (write_elems_seeds (pub_field_slot field 0) elems _ Hzl) as (d & Hd' & Hdl & HF).
  { eapply check_elems_stores; [done..|]. eapply Forall_impl; [exact Hv|]. by intros v []. }
  assert (Ok (E:=error) d = Ok data) as [= <-] by (etrans; [symmetry; exact Hd'|exact Hd]).
  eapply good_alloc; [exact Hs1|done| |exists (elem_at (for_array field) <$> seqZ 0 (zlen elems)); split].
  - split_and!; [done..| |]; cbn [obj_data new_array]; rewrite Hl; [by rewrite Hdl|done].
  - apply array_slots; [done..|lia|]. by rewrite Hdl.
  - by eapply seeds_present.
Qed.

(** The packed constructors. *)
Lemma set_chunks_len n elems : ∀ body, zlen (set_chunks n body elems) = zlen body.
Proof using.
  induction elems as [|u elems IH]; intros body; [done|]. cbn [set_chunks]. destruct (Z.ltb_spec (zlen body) (Z.of_nat n)); [done|].
  rewrite zlen_app, zlen_to_le, IH, zlen_drop by lia. lia.
Qed.
Lemma le_body_len n elems body : le_body n elems = Ok body → zlen body = zlen elems * Z.of_nat n.
Proof using.
  unfold le_body, checked_mul. pose proof (zlen_nonneg elems). destruct (_ <? _); [|done]. cbn. unfold zeroed_body.
  destruct (reserve_bytes _); [|done]. cbn. intros [= <-]. rewrite set_chunks_len. apply zlen_zeroed. nia.
Qed.
(** The chunks that are overwritten are the whole body. *)
Lemma set_chunks_ints n elems : ∀ body, (0 < n)%nat → zlen body = zlen elems * Z.of_nat n →
  set_chunks n body elems = packed_ints n elems.
Proof using.
  induction elems as [|u elems IH]; intros body Hn Hl; cbn [set_chunks].
  { destruct body; [done|]. rewrite zlen_cons, (zlen_nil (A:=Z)) in Hl. pose proof (zlen_nonneg body). lia. }
  rewrite zlen_cons in Hl. pose proof (zlen_nonneg elems). rewrite (proj2 (Z.ltb_ge _ _)) by nia.
  unfold packed_ints. cbn. f_equal. apply IH; [done|]. rewrite zlen_drop by nia. lia.
Qed.
Lemma le_body_ints n elems body : (0 < n)%nat → le_body n elems = Ok body → body = packed_ints n elems.
Proof using.
  intros Hn Hb. pose proof (zlen_nonneg elems). revert Hb. unfold le_body, checked_mul. destruct (_ <? _); [|done]. cbn.
  unfold zeroed_body. destruct (reserve_bytes _); [|done]. cbn. intros [= <-]. apply set_chunks_ints; [done|].
  apply zlen_zeroed. nia.
Qed.
Lemma packed_good reserve a expected k count st body field Q : reserve = gc_reserve_host ∨ reserve = gc_reserve_host_async →
  types_ok → array_pre a field → ready st → 0 ≤ count →
  (∀ m, pub_field_slot {| ft_mutable := m; ft_element := expected |} 0 = SlotScalar 0 k) →
  (∀ b, body = Ok b → zlen b = count * scalar_width k ∧ Q (new_array (arp_ty a) b)) →
  good (st_inner st) Q (new_packed reserve a expected count body st).
Proof using.
  intros Hres Hty Ha Hst Hcnt Hk Hb. pose proof Ha as [Hf Hl]. unfold new_packed. apply good_reads; [done|].
  intros charge Hc. assert (count < 2 ^ 32 ∧ ft_element field = expected) as [Hlt Hel].
  { revert Hc. unfold packed_charge, ArrayType_field_type. destruct (check_handle _ _); [|done..]. rewrite Hf.
    cbn [expect mbind result_bind]. destruct (bool_decide_reflect (ft_element field = expected)); [|done]. cbn [negb].
    destruct (body_len a count) as [len|e'|w] eqn:Hbl; [|done..]. intros _. by apply (body_len_inv _ _ _ _ Ha) in Hbl as []. }
  assert (pub_field_slot field 0 = SlotScalar 0 k) as Hp.
  { rewrite <- (Hk (ft_mutable field)). by rewrite <- Hel; destruct field. }
  apply good_reserve; [done..|]. intros st1 Hs1. apply (good_built _ _ _ _ _ Hs1). intros b Hbb. destruct (Hb b Hbb) as [Hbl HQ].
  eapply good_finish; [exact Hs1|done|]. exists (elem_at (for_array field) <$> seqZ 0 count).
  assert (object_slots (new_array (arp_ty a) b) (elem_at (for_array field) <$> seqZ 0 count)) as Ho.
  { apply array_slots; [done..|]. rewrite Hbl. unfold for_array. by rewrite Hp. }
  split; [done|]. eapply scalar_elems_present; [done|]. exact (apart_inside _ _ (object_slots_apart _ _ Ho)).
Qed.

(** The constructors of structs and arrays, with the values each stores and the object each builds. *)
Inductive host_alloc : list Val → (GcObject → Prop) → SM (StoreT L) Rooted → Prop :=
  | ha_struct s0 a fields : StructRefPre_new (srp_ty a) s0 = Ok a → host_alloc fields (struct_of a fields) (StructRef_new a fields)
  | ha_array s0 a elem len : ArrayRefPre_new (arp_ty a) s0 = Ok a → 0 ≤ len →
      host_alloc [elem] (array_of a (replicate (Z.to_nat len) elem)) (ArrayRef_new a elem len)
  | ha_fixed s0 a elems : ArrayRefPre_new (arp_ty a) s0 = Ok a → host_alloc elems (array_of a elems) (ArrayRef_new_fixed a elems)
  | ha_i8 s0 a elems : ArrayRefPre_new (arp_ty a) s0 = Ok a → host_alloc [] (packed_of a elems) (new_from_i8_slice a elems)
  | ha_zeroed s0 a len : ArrayRefPre_new (arp_ty a) s0 = Ok a → 0 ≤ len → host_alloc [] (packed_of a (zeroed len)) (new_zeroed_i8 a len)
  | ha_i16 s0 a elems : ArrayRefPre_new (arp_ty a) s0 = Ok a → host_alloc [] (packed_of a (packed_ints 2 elems)) (new_from_i16_slice a elems)
  | ha_i64 s0 a elems : ArrayRefPre_new (arp_ty a) s0 = Ok a → host_alloc [] (packed_of a (packed_ints 8 elems)) (new_from_i64_slice a elems)
  | ha_i8_async s0 a elems : ArrayRefPre_new (arp_ty a) s0 = Ok a → host_alloc [] (packed_of a elems) (new_from_i8_slice_async a elems)
  | ha_i16_async s0 a elems : ArrayRefPre_new (arp_ty a) s0 = Ok a →
      host_alloc [] (packed_of a (packed_ints 2 elems)) (new_from_i16_slice_async a elems).

End constructors.

(** ** The store of GcAggregate, through its limiter *)
#[local] Instance obj_types : EngineTypes := agg_types.
#[local] Instance obj_order : TypeOrder := agg_order.
#[local] Instance obj_alloc : HostAlloc := agg_alloc.
Definition agg_store : StoreT StoreLimits :=
  {| st_inner := agg_inner; st_exec_slot := execution_default; st_limiter := None; st_data := store_limits_default |}.
Definition agg_pre : StructRefPre :=
  {| srp_store := 1; srp_ty := 7; srp_layout := for_struct (default [] (struct_fields 7)) |}.

Lemma agg_types_ok : types_ok.
Proof.
  intros id fields. cbn. destruct (Z.eqb_spec id 8) as [->|].
  { intros [= <-]. split; [done|]. by vm_compute. }
  destruct (Z.eqb_spec id 7) as [->|]; [|done]. intros [= <-]. split; [done|]. by vm_compute.
Qed.
Lemma agg_ready : ready agg_store.
Proof.
  constructor; [|by intros roots [= <-]]. constructor; [|done|done|exact agg_sound].
  constructor; [|apply (managed_wf_new 1 true 0)..]. constructor; [|done]. constructor; [done|constructor| | |done].
  - intros i. split; [by intros ?%not_elem_of_nil|]. intros Hi. pose proof (zget_Some _ _ _ Hi) as Hr.
    change (zlen (gc_slots (si_gc (st_inner agg_store)))) with 3 in Hr.
    assert (i = 0 ∨ i = 1 ∨ i = 2) as [-> | [-> | ->]] by lia; done.
  - intros i g Hi. pose proof (zget_Some _ _ _ Hi) as Hr.
    change (zlen (gc_generations (si_gc (st_inner agg_store)))) with 3 in Hr.
    assert (i = 0 ∨ i = 1 ∨ i = 2) as [-> | [-> | ->]] by lia; injection Hi as <-; unfold u_max; lia.
Qed.

(** *** A value that is not rooted
    The struct of type 8 at slot 0 is live, but no root holds it: its [RootScope] was dropped. *)
Definition stale_heap : GcHeap :=
  {| gc_slots := [Some (new_struct 8 [])]; gc_generations := [0]; gc_free := []; gc_used := 44; gc_reserved := 44;
     gc_reservation := 0; gc_next_grow := RESERVE_BATCH; gc_marks := []; gc_collecting := true |}.
Definition stale_store : StoreT StoreLimits := set_st_inner (set_si_gc stale_heap (store_new 1 true 0)) agg_store.
Abbreviation field_8 := (TRef {| rt_nullable := true; rt_heap := HtConcreteStruct 8 |}) (only parsing).

(** [StructRef::new] accepts the handle, whose object is of the field's type; the reservation then
    frees that object, the new one takes its slot, and its field, of type 8, refers to the new object
    itself, which is of type 7: the field's value is not of the field's type. *)
Lemma unrooted_field_confused :
  let p := StructRef_new agg_pre [VAnyRef (Some (agg_handle 0))] stale_store in
  let r := rooted_from_raw_gen 0 1 1 RkAny in
  val_matches_in_store (st_inner stale_store) (VAnyRef (Some (agg_handle 0))) field_8 = Ok true ∧
  p.1 = Ok r ∧ (StructRef_field r 0 (st_inner p.2)).1 = Ok (VAnyRef (Some r)) ∧
  val_matches_in_store (st_inner p.2) (VAnyRef (Some r)) field_8 = Ok false.
Proof. cbn zeta. split_and!; vm_compute; reflexivity. Qed.
