(* ===== verification/Instances.v ===== *)
(** * Instances: creating an instance and looking up its exports (src/src/instance/mod.rs)

    [Instance_new] asks the limiter for the initial sizes, checks the entity caps,
    instantiates, and runs the start function.  The exports of an instance are
    entities of the store, fit to be provided to another instantiation. *)
From S2P Require Import Prelude Keep Types Layout Codec Arena Heap Op Entity Store Collect Stack Frame Float.
From S2P Require Import Numeric Limits Memory GcOps ConstEval Instantiate InstanceSafe Linking Matching Extern Exn Step StackInv Run Drive Isolation Calls.
Open Scope Z_scope.

Section instances.
Context `{Features, FloatHost, EngineTypes, TypeOrder, EngineFuncs, FrameSize, HostAlloc, EngineConfig}
  {L : Type} `{ResourceLimiter L, HostCode L}.
Implicit Types st : StoreT L.

(** ** Limits *)
Definition instance_count (s : StoreInner) : Z := zlen (si_instances s).
Definition over_cap (cap : option Z) (wanted : Z) : bool := match cap with Some max => max <? wanted | None => false end.
Definition check_limits (m : ModuleInner) : SM (StoreT L) () :=
  st ← get;
  let s := st_inner st in
  if over_cap (limiter_instances st) (instance_count s + 1) then fail (EMsg "instance count exceeds the store limit") else
  if over_cap (limiter_memories st) (zlen (si_memories s) + zlen (mi_memories m))
  then fail (EMsg "memory count exceeds the store limit") else
  if over_cap (limiter_tables st) (zlen (si_tables s) + zlen (mi_tables m))
  then fail (EMsg "table count exceeds the store limit") else mret tt.

Definition check_initial_sizes (m : ModuleInner) : SM (StoreT L) () :=
  for_each (mi_memories m) (λ mt,
    ok ← limiter_allows_memory (mt_minimum mt) (mt_maximum mt);
    if (ok : bool) then mret tt else fail (EMsg "memory minimum size exceeds the store limit"));;
  for_each (mi_tables m) (λ td,
    ok ← limiter_allows_table (itt_min (td_ty td)) (itt_max (td_ty td));
    if (ok : bool) then mret tt else fail (EMsg "table minimum size exceeds the store limit")).
Definition check_initial_sizes_async (m : ModuleInner) : SM (StoreT L) () :=
  for_each (mi_memories m) (λ mt,
    ok ← limiter_allows_memory_async (mt_minimum mt) (mt_maximum mt);
    if (ok : bool) then mret tt else fail (EMsg "memory minimum size exceeds the store limit"));;
  for_each (mi_tables m) (λ td,
    ok ← limiter_allows_table_async (itt_min (td_ty td)) (itt_max (td_ty td));
    if (ok : bool) then mret tt else fail (EMsg "table minimum size exceeds the store limit")).

(** ** Instantiation with its start function *)
Definition instantiate_resolve_start (fuel : nat) (m : ModuleInner) (imports : list Extern)
    : SM (StoreT L) (Handle * option Func) :=
  check_limits m;;
  instance ← on_inner (instantiate fuel m imports);
  start ← match mi_start m with
          | None => mret None
          | Some idx =>
              e ← reads (λ st, store_instance (st_inner st) instance);
              f ← lift (expect (zget (ie_funcs e) idx) "index out of bounds"); mret (Some f)
          end;
  mret (instance, start).

(** [Instance::new]; [fuel] bounds the constant expressions, [n] the turns of the interpreter. *)
Definition Instance_new (n clock fuel : nat) (m : ModuleInner) (imports : list Extern) st : option (res Handle * StoreT L) :=
  then_run ((check_initial_sizes m;; instantiate_resolve_start fuel m imports) st) (λ '(instance, start) st,
    match start with
    | None => Some (Ok instance, st)
    | Some func =>
        match Func_call n clock func [] 0 st with
        | None => None
        | Some x => then_run x (λ _ st, Some (Ok instance, st))
        end
    end).

(** ** Exports *)
Definition instance_export (instance : Handle) (name : string) (s : StoreInner) : res (option Extern) :=
  entity ← store_instance s instance;
  match List.find (λ e, String.eqb (ex_name e) name) (mi_exports (ie_module entity)) with
  | None => Ok None
  | Some export =>
      Some <$> match ex_kind export with
               | ExpFunc i => ExFunc <$> expect (zget (ie_funcs entity) i) "index out of bounds"
               | ExpTable i => ExTable <$> expect (zget (ie_tables entity) i) "index out of bounds"
               | ExpMemory i => ExMemory <$> expect (zget (ie_memories entity) i) "index out of bounds"
               | ExpGlobal i => ExGlobal <$> expect (zget (ie_globals entity) i) "index out of bounds"
               | ExpTag i => ExTag <$> expect (zget (ie_tags entity) i) "index out of bounds"
               end
  end.
Definition instance_get_func (instance : Handle) (name : string) (s : StoreInner) : res (option Func) :=
  (λ e, match e with Some (ExFunc f) => Some f | _ => None end) <$> instance_export instance name s.
Definition get_memory (instance : Handle) (name : string) (s : StoreInner) : res (option Handle) :=
  (λ e, match e with Some (ExMemory h) => Some h | _ => None end) <$> instance_export instance name s.
Definition get_global (instance : Handle) (name : string) (s : StoreInner) : res (option Handle) :=
  (λ e, match e with Some (ExGlobal h) => Some h | _ => None end) <$> instance_export instance name s.
Definition get_table (instance : Handle) (name : string) (s : StoreInner) : res (option Handle) :=
  (λ e, match e with Some (ExTable h) => Some h | _ => None end) <$> instance_export instance name s.
Definition get_export (instance : Handle) (name : string) (s : StoreInner) : res (option Extern) :=
  instance_export instance name s.
End instances.

(** ** What the compiler checked of exports and function types *)
Section exports.
Context (m : ModuleInner).
Definition imported_count {B} (sel : ImportKind → option B) : Z := zlen (omap (λ i, sel (im_kind i)) (mi_imports m)).
Definition export_valid (e : Export) : bool :=
  match ex_kind e with
  | ExpFunc i => in_space i (imported_count sel_func + zlen (mi_functions m))
  | ExpTable i => in_space i (imported_count sel_table + zlen (mi_tables m))
  | ExpMemory i => in_space i (imported_count sel_memory + zlen (mi_memories m))
  | ExpGlobal i => in_space i (imported_count sel_global + zlen (mi_globals m))
  | ExpTag i => in_space i (imported_count sel_tag + zlen (mi_tags m))
  end.
Definition exports_valid : bool :=
  forallb export_valid (mi_exports m) && (mi_num_imported_funcs m =? imported_count sel_func)
  && (zlen (mi_func_types m) =? imported_count sel_func + zlen (mi_functions m)) && forallb (type_valid m) (mi_func_types m).
End exports.

Section linkable.
Context `{TypeOrder, HostAlloc}.

Lemma check_func_extern s m t f : check_func s m t f = Ok tt → extern_ok s (ExFunc f).
Proof.
  unfold check_func. destruct (canonical_type_id m t); [|done..]. cbn.
  destruct (store_func s f) as [e|e|w] eqn:He; [|done..]. cbn. intros Hc. exists e. split; [done|].
  destruct e as [i fi| |]; [|done..]. destruct (module_of i s) as [pmod|e|w]; [|done..]. cbn in Hc.
  destruct (zget (mi_func_types pmod) fi) as [ty|] eqn:Hty; [|done]. cbn in Hc.
  exists pmod, ty. split_and!; [done..|]. unfold canonical_type_id in Hc. by destruct (zget (mi_type_ids pmod) ty).
Qed.
Lemma extern_ok_grows fp s s' ext : grows fp s s' → extern_ok s ext → extern_ok s' ext.
Proof.
  intros Hg. destruct ext as [f|h|h|h|h]; cbn.
  - intros (e & He & Hok). exists e. split; [by eapply grows_func|]. destruct e as [i fi| |]; [|done..].
    destruct Hok as (pmod & t & Hm & Ht & Hid). exists pmod, t. split_and!; [|done..]. unfold module_of in *.
    destruct (store_instance s i) as [ie|e|w] eqn:Hi; [|done..].
    destruct (grows_instance _ _ _ Hg _ _ Hi) as (ie' & -> & Hs & _). unfold inst_shape in Hs. cbn in *. congruence.
  - intros [e He]. exists e. by eapply grows_global.
  - intros [e He]. destruct (grows_table _ _ _ Hg _ _ He) as (e' & ? & _). by exists e'.
  - intros [e He]. destruct (grows_memory _ _ _ Hg _ _ He) as (e' & ? & _). by exists e'.
  - intros [e He]. exists e. by eapply grows_tag.
Qed.

(** A space of an instance: as long as declared, and every entry of it exists. *)
Lemma space_ok {A B D} (P : A → Prop) (R : A → B → Prop) (R' : A → D → Prop) l l' k k' :
  Forall2 R l k → (∀ x y, R x y → P x) → Forall2 R' l' k' → (∀ x y, y ∈ k' → R' x y → P x) →
  Forall P (l ++ l') ∧ zlen (l ++ l') = zlen k + zlen k'.
Proof.
  intros H1 Hl H2 Hk. split.
  - apply Forall_app. split; apply Forall_lookup; intros i x Hx.
    + destruct (Forall2_lookup_l _ _ _ _ _ H1 Hx) as (y & Hy & HR). by eapply Hl.
    + destruct (Forall2_lookup_l _ _ _ _ _ H2 Hx) as (y & Hy & HR). eapply Hk; [|done]. by eapply list_elem_of_lookup_2.
  - rewrite zlen_app. by rewrite (zlen_Forall2 _ _ _ H1), (zlen_Forall2 _ _ _ H2).
Qed.
(** The spaces of a new instance hold entities of the store, as many as the module declares. *)
Section spaces.
Context (m : ModuleInner) (exts : list Extern) (s s' : StoreInner) (fp : Footprint) (inst : Handle) (ie : InstanceEntity).
Context (Hg : grows fp s s') (Hie : store_instance s' inst = Ok ie) (Hmade : instance_made m exts s s' inst ie).

Record spaces_ok : Prop := {
  sk_funcs : Forall (λ f, extern_ok s' (ExFunc f)) (ie_funcs ie) ∧ zlen (ie_funcs ie) = imported_count m sel_func + zlen (mi_functions m);
  sk_tables : Forall (λ h, extern_ok s' (ExTable h)) (ie_tables ie) ∧ zlen (ie_tables ie) = imported_count m sel_table + zlen (mi_tables m);
  sk_memories : Forall (λ h, extern_ok s' (ExMemory h)) (ie_memories ie) ∧ zlen (ie_memories ie) = imported_count m sel_memory + zlen (mi_memories m);
  sk_globals : Forall (λ h, extern_ok s' (ExGlobal h)) (ie_globals ie) ∧ zlen (ie_globals ie) = imported_count m sel_global + zlen (mi_globals m);
  sk_tags : Forall (λ h, extern_ok s' (ExTag h)) (ie_tags ie) ∧ zlen (ie_tags ie) = imported_count m sel_tag + zlen (mi_tags m);
}.
Lemma fresh_func_extern f i : exports_valid m = true → i ∈ seqZ 0 (zlen (mi_functions m)) →
  fresh_func m (zlen (si_funcs s)) s' inst f i → extern_ok s' (ExFunc f).
Proof using Hie Hmade.
  intros Hv Hi%elem_of_seqZ [_ He]. unfold exports_valid in Hv. rewrite !andb_true_iff in Hv.
  destruct Hv as [[[_ Hn%Z.eqb_eq] Hl%Z.eqb_eq] Ht]. eexists. split; [exact He|]. pose proof (zlen_nonneg (mi_functions m)).
  assert (0 ≤ imported_count m sel_func) by apply zlen_nonneg.
  destruct (zget_is_Some (mi_func_types m) (mi_num_imported_funcs m + i)) as [t Hzt]; [lia|].
  exists m, t. split_and!; [|done|].
  - unfold module_of. rewrite Hie. cbn. by rewrite (made_module _ _ _ _ _ _ Hmade).
  - pose proof (proj1 (forallb_forall _ _) Ht t) as Hin. unfold type_valid, in_space in Hin.
    destruct (zget_is_Some (mi_type_ids m) t) as [id ->]; [|done].
    apply zget_elem, list_elem_of_In in Hzt. specialize (Hin Hzt). lia.
Qed.
Lemma made_spaces_ok : exports_valid m = true → spaces_ok.
Proof using Hg Hie Hmade.
  intros Hv. destruct (made_spaces _ _ _ _ _ _ Hmade) as (sp & fs & ms & gs & ts & tgs & [Hl Hf Hm Hgl Ht Htg] & E1 & E2 & E3 & E4 & E5).
  destruct Hl as [Lf Lm Lg Lt Ltg]. unfold imported_count.
  assert (∀ ext, extern_ok s ext → extern_ok s' ext) as Hgrow by (intros ext; by apply (extern_ok_grows fp)).
  constructor; rewrite ?E1, ?E2, ?E3, ?E4, ?E5.
  - rewrite <- (zlen_seqZ 0 (zlen (mi_functions m))) by apply zlen_nonneg.
    apply (space_ok _ _ _ _ _ _ _ Lf) with (1 := λ f t Hc, Hgrow _ (check_func_extern _ _ _ _ Hc)) (2 := Hf).
    intros f i Hi. by apply fresh_func_extern.
  - apply (space_ok _ _ _ _ _ _ _ Lt) with (2 := Ht); [|intros h t _ (_ & e & He & _); by exists e].
    intros h t [Hc _]. apply Hgrow. unfold check_table in Hc. cbn. destruct (store_table s h); [by eexists|done..].
  - apply (space_ok _ _ _ _ _ _ _ Lm) with (2 := Hm); [|intros h t _ (_ & e & He & _); by exists e].
    intros h t [Hc _]. apply Hgrow. unfold check_memory in Hc. cbn. destruct (store_memory s h); [by eexists|done..].
  - apply (space_ok _ _ _ _ _ _ _ Lg) with (2 := Hgl); [|intros h t _ (_ & e & He & _); by exists e].
    intros h t Hc. apply Hgrow. unfold check_global in Hc. cbn. destruct (store_global s h); [by eexists|done..].
  - apply (space_ok _ _ _ _ _ _ _ Ltg) with (2 := Htg); [|intros h t _ (_ & e & He & _); by exists e].
    intros h t Hc. apply Hgrow. unfold check_tag in Hc. cbn.
    destruct (canonical_type_id m t); [|done..]. cbn in Hc. destruct (store_tag s h); [by eexists|done..].
Qed.
Lemma export_of_space {A} (c : A → Extern) l n i : Forall (λ x, extern_ok s' (c x)) l ∧ zlen l = n → in_space i n = true →
  ∃ x, c <$> expect (E:=error) (zget l i) "index out of bounds" = Ok (c x) ∧ extern_ok s' (c x).
Proof using.
  intros [HF <-] Hi. unfold in_space in Hi. destruct (zget_is_Some l i) as [x Hx]; [lia|]. exists x. rewrite Hx.
  split; [done|]. by eapply Forall_zget in HF.
Qed.
Lemma made_exports name : exports_valid m = true →
  ∃ x, instance_export inst name s' = Ok x ∧ opt_all (extern_ok s') x ∧
    (x = None ↔ name ∉ (ex_name <$> mi_exports m)).
Proof using Hg Hie Hmade.
  intros Hv. pose proof (made_spaces_ok Hv) as [Hf Ht Hm Hgl Htg]. unfold instance_export. rewrite Hie. cbn.
  rewrite (made_module _ _ _ _ _ _ Hmade). destruct (List.find _ (mi_exports m)) as [e|] eqn:Hfind.
  - apply find_some in Hfind as [Hin Heq%String.eqb_eq].
    unfold exports_valid in Hv. rewrite !andb_true_iff in Hv. destruct Hv as [[[Hx _] _] _].
    pose proof (proj1 (forallb_forall _ _) Hx e Hin) as He. unfold export_valid in He.
    assert (∃ y, match ex_kind e with
               | ExpFunc i => ExFunc <$> expect (zget (ie_funcs ie) i) "index out of bounds"
               | ExpTable i => ExTable <$> expect (zget (ie_tables ie) i) "index out of bounds"
               | ExpMemory i => ExMemory <$> expect (zget (ie_memories ie) i) "index out of bounds"
               | ExpGlobal i => ExGlobal <$> expect (zget (ie_globals ie) i) "index out of bounds"
               | ExpTag i => ExTag <$> expect (zget (ie_tags ie) i) "index out of bounds" end = Ok y ∧ extern_ok s' y) as (y & -> & Hy).
    { destruct (ex_kind e); [destruct (export_of_space _ _ _ _ Hf He) as (x & ? & ?)
        |destruct (export_of_space _ _ _ _ Ht He) as (x & ? & ?)|destruct (export_of_space _ _ _ _ Hm He) as (x & ? & ?)
        |destruct (export_of_space _ _ _ _ Hgl He) as (x & ? & ?)|destruct (export_of_space _ _ _ _ Htg He) as (x & ? & ?)]; by eexists. }
    exists (Some y). split_and!; [done..|]. split; [done|]. intros Hn. destruct Hn. apply list_elem_of_fmap.
    exists e. split; [done|]. by apply list_elem_of_In.
  - exists None. split_and!; [done..|]. split; [|done]. intros _ (e & -> & Hin)%list_elem_of_fmap.
    pose proof (find_none _ _ Hfind e (proj1 (list_elem_of_In _ _) Hin)) as Hne. cbn in Hne. by rewrite String.eqb_refl in Hne.
Qed.
End spaces.

(** What instantiation leaves for the next one. *)
Lemma instantiate_next n fuel m exts s inst s' :
  layouts_ok m → module_valid n m = true → exports_valid m = true → (n ≤ fuel)%nat →
  store_ok s → Forall (extern_ok s) exts → room m s → instantiate fuel m exts s = (Ok inst, s') →
  store_ok s' ∧ grows (fp_imports exts) s s' ∧ (∃ ie, store_instance s' inst = Ok ie ∧ instance_made m exts s s' inst ie) ∧
  ∀ name, ∃ x, instance_export inst name s' = Ok x ∧ opt_all (extern_ok s') x ∧ (x = None ↔ name ∉ (ex_name <$> mi_exports m)).
Proof.
  intros Hlay Hv Hx Hn Hs He Hr Hrun. destruct (instantiate_safe n fuel m exts s Hn Hlay Hv Hs He Hr) as (r & s1 & Hrun1 & [Hg Hok] & HQ).
  rewrite Hrun in Hrun1. injection Hrun1 as <- <-. destruct HQ as (ie & Hie & Hmade).
  split; [done|]. split; [by eapply grows_new|]. split; [by exists ie|]. intros name. by eapply made_exports.
Qed.

(** Instances can be linked with each other.  After a validated module is
    instantiated, everything that could be provided to an instantiation before still
    can be; every name the module exports, and no other, resolves; and the entity it resolves to
    exists and has a type, so it can be provided to the next instantiation, which
    again cannot panic. *)
Theorem exports_linkable n fuel m exts s inst s' :
  layouts_ok m → module_valid n m = true → exports_valid m = true → (n ≤ fuel)%nat →
  store_ok s → Forall (extern_ok s) exts → room m s → instantiate fuel m exts s = (Ok inst, s') →
  (∀ ext, extern_ok s ext → extern_ok s' ext) ∧ store_ok s' ∧
  ∀ name, ∃ x, instance_export inst name s' = Ok x ∧ opt_all (extern_ok s') x ∧ (x = None ↔ name ∉ (ex_name <$> mi_exports m)).
Proof.
  intros Hlay Hv Hx Hn Hs He Hr Hrun. destruct (instantiate_next n fuel m exts s inst s') as (Hok & Hg & _ & Hnext); [done..|].
  split_and!; [|done|done]. intros ext. by apply (extern_ok_grows (fp_imports exts)).
Qed.
End linkable.

(** ** Refusals leave nothing behind *)
Section denied.
Context `{Features, FloatHost, EngineTypes, TypeOrder, EngineFuncs, FrameSize, HostAlloc, EngineConfig}
  {L : Type} `{ResourceLimiter L, HostCode L}.
Implicit Types st : StoreT L.

Definition same_inner st st' : Prop := st_inner st' = st_inner st.
Lemma keeps_allowed {A} s (m : SM (StoreT L) bool) (f : bool → SM (StoreT L) A) : keeps (λ st, st_inner st = s) m →
  (∀ b, keeps (λ st, st_inner st = s) (f b)) → keeps (λ st, st_inner st = s) (m ≫= f).
Proof using. apply keeps_bind. Qed.
Lemma keeps_allows {R S} s (f : SM L R) (g : option R → S) : keeps (λ st, st_inner st = s) (r ← with_sync_limiter f; mret (g r)).
Proof using.
  intros st r st' Hst Hrun _. pose proof (allows_inner f g st) as Hl. rewrite Hrun in Hl. cbn in Hl. congruence.
Qed.
Lemma keeps_sizes m s : keeps (λ st, st_inner st = s) (check_initial_sizes m).
Proof using.
  unfold check_initial_sizes. apply keeps_bind; [|intros _]; apply keeps_for_each; intros x; apply keeps_bind; try apply keeps_allows;
    intros []; [apply keeps_ret|apply keeps_fail|apply keeps_ret|apply keeps_fail].
Qed.
Lemma check_limits_run m st : ∃ r, check_limits m st = (r, st) ∧ no_panic r ∧
  (r = Ok tt ↔ opt_all (λ max, instance_count (st_inner st) + 1 ≤ max) (limiter_instances st) ∧
    opt_all (λ max, zlen (si_memories (st_inner st)) + zlen (mi_memories m) ≤ max) (limiter_memories st) ∧
    opt_all (λ max, zlen (si_tables (st_inner st)) + zlen (mi_tables m) ≤ max) (limiter_tables st)).
Proof using.
  assert (∀ cap x, over_cap cap x = false ↔ opt_all (λ max, x ≤ max) cap) as Hcap.
  { intros [max|] x; cbn; [|done]. by rewrite Z.ltb_ge. }
  unfold check_limits. rewrite get_run. setoid_rewrite <- Hcap.
  repeat destruct (over_cap _ _); eexists; (split; [reflexivity|]); (split; [done|]); naive_solver.
Qed.

Lemma arena_entity_no_err {E} id (a : list E) h e : arena_entity id a h ≠ Err e.
Proof using. unfold arena_entity, check_handle. case_match; cbn; [|done]. by destruct (zget a (h_index h)). Qed.
(** The store after a successful [instantiate]: the start function runs there. *)
Definition after_start n clock (inst : Handle) (start : option Func) (r : res Handle) st st' : Prop :=
  match start with
  | None => r = Ok inst ∧ st' = st
  | Some f => ∃ x, Func_call n clock f [] 0 st = Some (x, st') ∧
                r = match x with Ok _ => Ok inst | Err e => Err e | Panic w => Panic w end
  end.

(** The start function of the module: the entry of the new instance's function space at
    the declared index. *)
Definition start_function m (inst : Handle) (s : StoreInner) (start : option Func) : Prop :=
  match mi_start m with
  | None => start = None
  | Some idx => ∃ ie f, store_instance s inst = Ok ie ∧ zget (ie_funcs ie) idx = Some f ∧ start = Some f
  end.

(** C27: the limits are settled before anything is made.  Whatever the limiter
    answers, [Instance::new] either is refused with the store untouched, or runs
    [instantiate] on that very store with room under each of the limiter's caps for the new
    instance, memories and tables; a failure of [instantiate] is the
    result, and after success exactly the start function, if declared, runs: the
    function the new instance has at the declared index, its failure being the result
    and its results discarded. *)
Theorem Instance_new_gated n clock fuel m exts st r st' :
  Instance_new n clock fuel m exts st = Some (r, st') → no_panic r →
  (∃ e, r = Err e ∧ st_inner st' = st_inner st) ∨
  ∃ st1, check_initial_sizes m st = (Ok tt, st1) ∧ st_inner st1 = st_inner st ∧
    opt_all (λ max, instance_count (st_inner st) + 1 ≤ max) (limiter_instances st1) ∧
    opt_all (λ max, zlen (si_memories (st_inner st)) + zlen (mi_memories m) ≤ max) (limiter_memories st1) ∧
    opt_all (λ max, zlen (si_tables (st_inner st)) + zlen (mi_tables m) ≤ max) (limiter_tables st1) ∧
    let '(made, s') := instantiate fuel m exts (st_inner st) in
    match made with
    | Ok inst => ∃ start, start_function m inst s' start ∧ after_start n clock inst start r (set_st_inner s' st1) st'
    | Err e => r = Err e ∧ st_inner st' = s'
    | Panic _ => False
    end.
Proof using.
  unfold Instance_new. rewrite bind_unfold. destruct (check_initial_sizes m st) as [x st1] eqn:Hsz.
  intros Hrun Hp. destruct x as [u|e|w]; cycle 1.
  { injection Hrun as <- <-. left. exists e. split; [done|]. by eapply (keeps_sizes m (st_inner st)). }
  { injection Hrun as <- <-. by destruct (Hp w). }
  assert (st_inner st1 = st_inner st) as Hin by (by eapply (keeps_sizes m (st_inner st))).
  unfold instantiate_resolve_start in Hrun. rewrite bind_unfold in Hrun.
  destruct (check_limits_run m st1) as (c & Hc & Hcp & Hcaps). rewrite Hc in Hrun.
  destruct c as [[]|e|w]; [|injection Hrun as <- <-; left; by exists e|by destruct (Hcp w)].
  right. exists st1. destruct u. rewrite <- Hin. split; [done|]. split; [done|]. destruct (proj1 Hcaps eq_refl) as (C1 & C2 & C3). split_and!; [done..|].
  rewrite bind_unfold in Hrun. unfold on_inner, zoom in Hrun. destruct (instantiate fuel m exts (st_inner st1)) as [made s'].
  destruct made as [inst|e|w]; [|by injection Hrun as <- <-|injection Hrun as <- <-; by destruct (Hp w)].
  rewrite bind_unfold in Hrun. destruct (mi_start m) as [idx|] eqn:Hst; cycle 1.
  { cbn in Hrun. injection Hrun as <- <-. exists None. unfold start_function. by rewrite Hst. }
  rewrite reads_unfold in Hrun. destruct (store_instance _ inst) as [ie|e|w] eqn:Hie.
  - rewrite bind_unfold in Hrun. unfold lift in Hrun. destruct (zget (ie_funcs ie) idx) as [f|] eqn:Hf; cycle 1.
    { cbn in Hrun. injection Hrun as <- <-. by edestruct Hp. }
    cbn [expect mret M_ret then_run] in Hrun. exists (Some f). unfold start_function. rewrite Hst. split; [by exists ie, f|].
    match type of Hrun with context [Func_call n clock f [] 0 ?s] =>
      destruct (Func_call n clock f [] 0 s) as [[[vs|e|w] st2]|] eqn:Hfc; [..|done]; cbn [then_run] in Hrun; injection Hrun as <- <- end.
    all: eexists; split; [exact Hfc|done].
  - by destruct (arena_entity_no_err _ _ _ _ Hie).
  - injection Hrun as <- <-. by destruct (Hp w).
Qed.
End denied.

(** ** The module of [Linking] *)
#[local] Existing Instances demo_features demo_floats demo_types demo_order demo_funcs demo_frame_size demo_alloc.
Definition link_instance : Handle := {| h_index := 0; h_store := 1 |}.
Abbreviation link_run := (instantiate 1 link_module link_exts link_store).
Example link_exports :
  link_run.1 = Ok link_instance ∧
  (λ name, instance_export link_instance name link_run.2) <$> ["own"; "mem"; "host"; "none"] =
    [Ok (Some (ExFunc {| fn_index := 1; fn_store := 1 |})); Ok (Some (ExMemory {| h_index := 0; h_store := 1 |}));
     Ok (Some (ExFunc {| fn_index := 0; fn_store := 1 |})); Ok None].
Proof. vm_compute. by split_and!. Qed.

Lemma run_pair {A B} (p : A * B) a : p.1 = a → p = (a, p.2).
Proof. destruct p. by intros <-. Qed.
Lemma exports_linkable_witness :
  extern_ok link_run.2 (ExMemory link_instance) ∧ store_ok link_run.2 ∧
  ∃ x, instance_export link_instance "own" link_run.2 = Ok x ∧ opt_all (extern_ok link_run.2) x ∧
    (x = None ↔ "own"%string ∉ (ex_name <$> mi_exports link_module)).
Proof.
  destruct (exports_linkable 1 1 link_module link_exts link_store link_instance link_run.2) as (He & Hs & Hx).
  - apply interned_layouts_ok.
  - vm_compute; reflexivity.
  - vm_compute; reflexivity.
  - lia.
  - exact link_store_ok.
  - exact link_exts_ok.
  - constructor; vm_compute; discriminate.
  - exact (run_pair link_run _ (proj1 link_exports)).
  - split; [apply He; exact (Forall_inv (Forall_inv_tail link_exts_ok))|]. split; [exact Hs|exact (Hx "own"%string)].
Defined.

(** The same module under a limiter that allows no instance, and with a start function, [own]. *)
Definition capped_store (instances : Z) : StoreT StoreLimits :=
  {| st_inner := link_store; st_exec_slot := execution_default; st_limiter := Some LimSync;
     st_data := with_instances instances store_limits_default |}.
Abbreviation capped_new instances :=
  (@Instance_new demo_features demo_floats demo_types demo_order demo_funcs demo_frame_size demo_alloc (demo_config true) StoreLimits
     StoreLimits_limiter mute_host 10 0 1 link_module link_exts (capped_store instances)).
Example capped_runs :
  fst <$> capped_new 0 = Some (Err (EMsg "instance count exceeds the store limit")) ∧
  fst <$> capped_new 1 = Some (Ok link_instance).
Proof. vm_compute. by split. Qed.
Lemma Instance_new_gated_witness : ∃ st' st1, capped_new 1 = Some (Ok link_instance, st') ∧
  check_initial_sizes link_module (capped_store 1) = (Ok tt, st1) ∧ opt_all (λ max, instance_count link_store + 1 ≤ max) (limiter_instances st1).
Proof.
  destruct (capped_new 1) as [[r st']|] eqn:Hrun; [|by pose proof (proj2 capped_runs) as Hc; rewrite Hrun in Hc].
  assert (r = Ok link_instance) as -> by (pose proof (proj2 capped_runs) as Hc; rewrite Hrun in Hc; by injection Hc).
  destruct (@Instance_new_gated demo_features demo_floats demo_types demo_order demo_funcs demo_frame_size demo_alloc
    (demo_config true) StoreLimits StoreLimits_limiter mute_host 10 0 1 link_module link_exts (capped_store 1) _ st' Hrun ltac:(done))
    as [(e & [=] & _)|(st1 & Hsz & _ & Hcap & _)].
  exists st', st1. split; [reflexivity|]. split; [exact Hsz|exact Hcap].
Defined.
