(* ===== verification/Linker.v ===== *)
(** * Linker: import resolution and multi-module linking (src/src/linker.rs)

    A linker maps [(module, name)] to a definition: an entity of a store, or a host
    function that becomes one when it is resolved.  The closures are named by an
    index, as in [host_call]. *)
From stdpp Require Import gmap strings.
From S2P Require Import Prelude Keep Types Layout Codec Arena Heap Op Entity Store Collect Stack Frame Float.
From S2P Require Import Numeric Limits Memory GcOps ConstEval Instantiate InstanceSafe Linking Matching Extern Exn Step StackInv Run Drive Isolation Calls Instances.
Open Scope Z_scope.

Inductive Def : Type := DefExtern (e : Extern) | DefHost (ty cb : Z) | DefHostAsync (ty cb : Z).
Record Linker : Type := { lk_allow_shadowing : bool; lk_allow_unknown_exports : bool; lk_map : gmap (string * string) Def }.
Definition linker_new : Linker := {| lk_allow_shadowing := false; lk_allow_unknown_exports := false; lk_map := ∅ |}.
Definition set_lk_map (m : gmap (string * string) Def) (l : Linker) : Linker :=
  {| lk_allow_shadowing := lk_allow_shadowing l; lk_allow_unknown_exports := lk_allow_unknown_exports l; lk_map := m |}.
Definition allow_shadowing (allow : bool) (l : Linker) : Linker :=
  {| lk_allow_shadowing := allow; lk_allow_unknown_exports := lk_allow_unknown_exports l; lk_map := lk_map l |}.
Definition allow_unknown_exports (allow : bool) (l : Linker) : Linker :=
  {| lk_allow_shadowing := lk_allow_shadowing l; lk_allow_unknown_exports := allow; lk_map := lk_map l |}.

(** ** Definitions *)
Definition twice_err (module name : string) : error :=
  EMsg ("import of `" +:+ module +:+ "::" +:+ name +:+ "` defined twice").
Definition linker_insert (module name : string) (def : Def) : SM Linker () :=
  l ← get;
  if negb (lk_allow_shadowing l) && bool_decide (is_Some (lk_map l !! (module, name)))
  then fail (twice_err module name)
  else modify (set_lk_map (<[(module, name) := def]> (lk_map l))).
Definition linker_define (module name : string) (item : Extern) : SM Linker () := linker_insert module name (DefExtern item).
Definition define_name (name : string) (item : Extern) : SM Linker () := linker_insert "" name (DefExtern item).
Definition func_new (module name : string) (ty cb : Z) : SM Linker () := linker_insert module name (DefHost ty cb).
Definition func_new_async (module name : string) (ty cb : Z) : SM Linker () := linker_insert module name (DefHostAsync ty cb).

(** The exports of an instance, in order. *)
Fixpoint export_pairs (instance : Handle) (names : list string) (s : StoreInner) : res (list (string * Extern)) :=
  match names with
  | [] => Ok []
  | n :: names' =>
      e ← instance_export instance n s;
      rest ← export_pairs instance names' s;
      Ok match e with Some e => (n, e) :: rest | None => rest end
  end.
Definition linker_instance (s : StoreInner) (module_name : string) (instance : Handle) : SM Linker () :=
  pairs ← lift (entity ← store_instance s instance;
                export_pairs instance (ex_name <$> mi_exports (ie_module entity)) s);
  for_each pairs (λ '(name, ext), linker_insert module_name name (DefExtern ext)).

Definition alias (module name as_module as_name : string) : SM Linker () :=
  l ← get;
  def ← lift (ok_or (lk_map l !! (module, name)) (EMsg ("no export `" +:+ module +:+ "::" +:+ name +:+ "` to alias")));
  linker_insert as_module as_name def.
(** The definitions of [module]; a hash map gives them in any order. *)
Definition module_entries (module : string) (m : gmap (string * string) Def) : list (string * Def) :=
  omap (λ '((md, n), d), if bool_decide (md = module) then Some (n, d) else None) (map_to_list m).
Definition alias_module (entries : list (string * Def)) (as_module : string) : SM Linker () :=
  for_each entries (λ '(name, def), linker_insert as_module name def).

(** ** Resolution *)
Section resolve.
Context `{Features, FloatHost, EngineTypes, TypeOrder, EngineFuncs, FrameSize, HostAlloc, EngineConfig}
  {L : Type} `{ResourceLimiter L, HostCode L}.
Implicit Types st : StoreT L.

Definition linker_resolve (l : Linker) (module name : string) : SM StoreInner Extern :=
  match lk_map l !! (module, name) with
  | Some (DefExtern e) => mret e
  | Some (DefHost ty cb) => f ← Func_new ty cb; mret (ExFunc f)
  | Some (DefHostAsync ty cb) => f ← Func_new_async ty cb; mret (ExFunc f)
  | None => fail (EMsg ("unknown import: `" +:+ module +:+ "::" +:+ name +:+ "`"))
  end.
Fixpoint resolve_all (l : Linker) (imps : list Import) : SM StoreInner (list Extern) :=
  match imps with
  | [] => mret []
  | imp :: imps' =>
      e ← linker_resolve l (im_module imp) (im_name imp); es ← resolve_all l imps'; mret (e :: es)
  end.
Definition linker_instantiate (n clock fuel : nat) (l : Linker) (m : ModuleInner) st : option (res Handle * StoreT L) :=
  then_run (on_inner (resolve_all l (mi_imports m)) st) (λ imports st, Instance_new n clock fuel m imports st).
(** [Linker::module], on the linker and the store. *)
Definition linker_module (n clock fuel : nat) (module_name : string) (m : ModuleInner) (l : Linker) st
    : option (res () * Linker * StoreT L) :=
  match linker_instantiate n clock fuel l m st with
  | None => None
  | Some (Ok inst, st') => Some (linker_instance (st_inner st') module_name inst l, st')
  | Some (Err e, st') => Some (Err e, l, st')
  | Some (Panic w, st') => Some (Panic w, l, st')
  end.
Definition linker_get (l : Linker) (module name : string) : SM StoreInner Extern := linker_resolve l module name.
Definition get_default (l : Linker) (module : string) : SM StoreInner Func :=
  e ← linker_resolve l module "";
  match e with ExFunc f => mret f | _ => fail (EMsg "default export is not a function") end.
End resolve.

(** ** Inserting many definitions *)
Fixpoint insert_all (module : string) (entries : list (string * Def)) (m : gmap (string * string) Def) : gmap (string * string) Def :=
  match entries with
  | [] => m
  | (n, d) :: entries' => insert_all module entries' (<[(module, n) := d]> m)
  end.
(** No entry is there yet, unless entries may be replaced. *)
Definition free_for (l : Linker) (module : string) (entries : list (string * Def)) : Prop :=
  lk_allow_shadowing l = true ∨ Forall (λ e, lk_map l !! (module, e.1) = None) entries.

Lemma linker_insert_run md n d l :
  linker_insert md n d l =
    if negb (lk_allow_shadowing l) && bool_decide (is_Some (lk_map l !! (md, n)))
    then (Err (twice_err md n), l) else (Ok tt, set_lk_map (<[(md, n) := d]> (lk_map l)) l).
Proof. unfold linker_insert. rewrite get_run. by destruct (_ && _). Qed.
Lemma insert_all_other md entries : ∀ m k, (∀ n, n ∈ entries.*1 → k ≠ (md, n)) → insert_all md entries m !! k = m !! k.
Proof.
  induction entries as [|[n d] entries IH]; intros m k Hk; cbn; [done|]. rewrite IH by set_solver.
  apply lookup_insert_ne. intros <-. eapply (Hk n); set_solver.
Qed.
Lemma insert_all_in md entries n d : ∀ m, NoDup entries.*1 → (n, d) ∈ entries → insert_all md entries m !! (md, n) = Some d.
Proof.
  induction entries as [|[n' d'] entries IH]; intros m Hnd Hin; [by apply not_elem_of_nil in Hin|].
  cbn in *. apply NoDup_cons in Hnd as [Hn Hnd]. apply elem_of_cons in Hin as [[= <- <-]|Hin]; [|by apply IH].
  rewrite insert_all_other; [apply lookup_insert_eq|]. intros n' Hn' [= ->]. done.
Qed.
(** A run of insertions: complete if nothing is in the way, and otherwise nothing old is lost. *)
Lemma insert_many md entries : ∀ l, NoDup entries.*1 →
  ∃ r l', for_each entries (λ '(n, d), linker_insert md n d) l = (r, l') ∧ no_panic r ∧
    (r = Ok tt ↔ free_for l md entries) ∧ (r = Ok tt → l' = set_lk_map (insert_all md entries (lk_map l)) l) ∧
    (lk_allow_shadowing l = false → lk_map l ⊆ lk_map l') ∧ lk_allow_shadowing l' = lk_allow_shadowing l.
Proof.
  induction entries as [|[n d] entries IH]; intros l Hnd; cbn [for_each].
  { exists (Ok tt), l. split_and!; try done.
    - split; [intros _; right; constructor|done].
    - intros _. by destruct l. }
  cbn in Hnd. apply NoDup_cons in Hnd as [Hn Hnd]. rewrite bind_unfold, linker_insert_run.
  destruct (lk_allow_shadowing l) eqn:Hs; cbn [negb andb].
  - destruct (IH (set_lk_map (<[(md, n) := d]> (lk_map l)) l) Hnd) as (r & l' & -> & Hp & Hiff & Hok & _ & Hs').
    exists r, l'. split_and!; try done; [|by rewrite Hs'].
    rewrite Hiff. unfold free_for. cbn. rewrite Hs. tauto.
  - case_bool_decide as Hin.
    + exists (Err (twice_err md n)), l. split_and!; try done. split; [done|]. intros [Hsh|HF]; [congruence|].
      apply Forall_cons_1 in HF as [HF _]. cbn in HF. rewrite HF in Hin. by destruct Hin.
    + destruct (IH (set_lk_map (<[(md, n) := d]> (lk_map l)) l) Hnd) as (r & l' & -> & Hp & Hiff & Hok & Hsub & Hs').
      apply eq_None_not_Some in Hin. exists r, l'. split_and!; try done; [| |by rewrite Hs'].
      * rewrite Hiff. unfold free_for. cbn. rewrite Hs. rewrite Forall_cons. cbn.
        assert (Forall (λ e : string * Def, <[(md, n):=d]> (lk_map l) !! (md, e.1) = None) entries ↔
                Forall (λ e : string * Def, lk_map l !! (md, e.1) = None) entries) as ->.
        { rewrite !Forall_forall. split; intros HF e He; specialize (HF e He); [rewrite lookup_insert_ne in HF; [done|]|rewrite lookup_insert_ne; [done|]];
            intros [= ->]; apply Hn; by apply list_elem_of_fmap_2. }
        naive_solver.
      * intros _. etrans; [|by apply Hsub]. cbn. by apply insert_subseteq.
Qed.

Lemma module_entries_elem module m n d : (n, d) ∈ module_entries module m ↔ m !! (module, n) = Some d.
Proof.
  unfold module_entries. rewrite list_elem_of_omap, <- elem_of_map_to_list. split.
  - intros ([[md n'] d'] & Hin & Hf). case_bool_decide; [|done]. by injection Hf as -> ->; subst.
  - intros Hin. exists ((module, n), d). split; [done|]. by rewrite bool_decide_eq_true_2.
Qed.
Lemma module_entries_nodup module m : NoDup (module_entries module m).*1.
Proof.
  unfold module_entries. pose proof (NoDup_fst_map_to_list m) as Hnd.
  induction (map_to_list m) as [|[[md n] d] es IH]; [constructor|].
  cbn in Hnd. apply NoDup_cons in Hnd as [Hn Hnd]. cbn. case_bool_decide as Hmd; cbn; [|by apply IH].
  constructor; [|by apply IH]. intros ([n' d'] & -> & Hin)%list_elem_of_fmap. apply Hn.
  apply list_elem_of_omap in Hin as ([[md' n2] d2] & Hin & Hf). case_bool_decide; [|done]. injection Hf as -> ->. subst md'.
  subst md. by apply (list_elem_of_fmap_2 fst es ((module, n'), d')).
Qed.

(** C31: aliasing a module does not depend on the order in which the hash map lists it.
    For every order, [alias_module] succeeds exactly when no name of the module is
    taken in the target or shadowing is allowed; the linker then has, under
    the target, the module's definition of each of its names and otherwise what it
    had; and when it fails, no definition is lost or replaced. *)
Theorem alias_module_exact l module as_module entries :
  entries ≡ₚ module_entries module (lk_map l) →
  ∃ r l', alias_module entries as_module l = (r, l') ∧ no_panic r ∧
    (r = Ok tt ↔ lk_allow_shadowing l = true ∨ ∀ n, is_Some (lk_map l !! (module, n)) → lk_map l !! (as_module, n) = None) ∧
    (r = Ok tt → ∀ md n, lk_map l' !! (md, n) =
       if bool_decide (md = as_module ∧ is_Some (lk_map l !! (module, n))) then lk_map l !! (module, n) else lk_map l !! (md, n)) ∧
    (lk_allow_shadowing l = false → lk_map l ⊆ lk_map l').
Proof.
  intros Hperm. assert (NoDup entries.*1) as Hnd by (rewrite Hperm; apply module_entries_nodup).
  assert (∀ n d, (n, d) ∈ entries ↔ lk_map l !! (module, n) = Some d) as Hin
    by (intros n d; rewrite Hperm; apply module_entries_elem).
  destruct (insert_many as_module entries l Hnd) as (r & l' & Hrun & Hp & Hiff & Hok & Hsub & _).
  exists r, l'. split_and!; [exact Hrun|done| | |done].
  - rewrite Hiff. unfold free_for. rewrite Forall_forall. apply or_iff_compat_l. split.
    + intros HF n [d Hd%Hin]. apply (HF _ Hd).
    + intros HF [n d] Hd%Hin. apply HF. by exists d.
  - intros ->. rewrite Hok by done. intros md n. cbn [lk_map set_lk_map]. case_bool_decide as Hc.
    + destruct Hc as [-> [d Hd]]. rewrite Hd. apply insert_all_in; [done|by apply Hin].
    + apply insert_all_other. intros n' ([n2 d] & -> & Hd%Hin)%list_elem_of_fmap [= -> ->]. apply Hc. split; [done|]. by exists d.
Qed.

(** ** Linking modules with each other *)
Section link.
Context `{Features, FloatHost, EngineTypes, TypeOrder, EngineFuncs, FrameSize, HostAlloc, EngineConfig}
  {L : Type} `{ResourceLimiter L, HostCode L}.
Implicit Types st : StoreT L.

Definition def_ok (s : StoreInner) (d : Def) : Prop :=
  match d with DefExtern e => extern_ok s e | DefHost ty _ | DefHostAsync ty _ => is_Some (func_signature ty) end.
(** Every definition of the linker is of an entity of the store, or of a host function with a signature. *)
Definition linker_ok (l : Linker) (s : StoreInner) : Prop := map_Forall (λ _, def_ok s) (lk_map l).

Lemma linker_ok_grows fp l s s' : grows fp s s' → linker_ok l s → linker_ok l s'.
Proof using.
  intros Hg Hl k d Hd. specialize (Hl k d Hd). destruct d; [|done..]. by eapply extern_ok_grows.
Qed.

(** A host function is allocated, and nothing else happens. *)
Lemma func_alloc_safe e s : store_ok s → zlen (si_funcs s) < 2 ^ 32 → (∀ i fi, e ≠ FeWasm i fi) →
  Keep.safe (onward fp_none s) (f ← allocs (alloc_func e); mret (ExFunc f)) s
    (λ x s', extern_ok s' x ∧ ∃ k, 0 ≤ k ≤ 1 ∧ counted (only AkFunc k) s s').
Proof using.
  intros Hs Hr He. apply safe_bind. pose proof (ar_alloc_safe (E:=FuncEntity) fp_none e s Hs I Hr) as (r & s1 & Ha & Hg & Hq).
  injection Ha as <- <-. destruct Hq as (Hc & _ & _ & Hget). eexists (Ok _), _. split; [done|]. split; [exact Hg|].
  intros Hg'. apply safe_ret; [exact Hg'|]. split.
  - exists e. split; [exact Hget|]. by destruct e; [edestruct He|..].
  - exists 1. split; [lia|exact Hc].
Qed.
Lemma resolve_safe l md n s : linker_ok l s → store_ok s → zlen (si_funcs s) < 2 ^ 32 →
  Keep.safe (onward fp_none s) (linker_resolve l md n) s (λ x s', extern_ok s' x ∧ ∃ k, 0 ≤ k ≤ 1 ∧ counted (only AkFunc k) s s').
Proof using.
  intros Hl Hs Hr. unfold linker_resolve. destruct (lk_map l !! (md, n)) as [[e|ty cb|ty cb]|] eqn:Hd.
  - apply safe_ret; [by apply onward_refl|]. split; [by apply (Hl _ _ Hd)|]. exists 0. split; [lia|].
    intros k. unfold only. case_decide; lia.
  - destruct (Hl _ _ Hd) as [[ps rs] Hsig]. unfold Func_new, ty_params, ty_results, type_params. rewrite Hsig.
    by apply (func_alloc_safe (FeHost ty (host_sig_new ps rs) cb)).
  - destruct (Hl _ _ Hd) as [[ps rs] Hsig]. unfold Func_new_async, ty_params, ty_results, type_params. rewrite Hsig.
    by apply (func_alloc_safe (FeHostAsync ty (host_sig_new ps rs) cb)).
  - by eexists (Err _), s; split_and!; [|apply onward_refl|].
Qed.
Lemma resolve_all_safe l imps : ∀ s, linker_ok l s → store_ok s → zlen (si_funcs s) + zlen imps ≤ 2 ^ 32 →
  Keep.safe (onward fp_none s) (resolve_all l imps) s (λ xs s', Forall (extern_ok s') xs ∧
    ∃ k, 0 ≤ k ≤ zlen imps ∧ counted (only AkFunc k) s s').
Proof using.
  induction imps as [|imp imps IH]; intros s Hl Hs Hr; cbn [resolve_all].
  { apply safe_ret; [by apply onward_refl|]. split; [constructor|]. exists 0. split; [done|]. intros k. unfold only. case_decide; lia. }
  rewrite zlen_cons in Hr. pose proof (zlen_nonneg imps). apply safe_seq.
  eapply safe_mono; [apply resolve_safe; [done..|lia]|]. cbn beta. intros e s1 [Hg1 Hs1] (He & k1 & Hk1 & C1) _.
  arena_count C1 AkFunc.
  apply safe_seq. eapply safe_mono; [apply IH; [by eapply linker_ok_grows|done|lia]|]. cbn beta.
  intros es s2 [Hg2 Hs2] (Hes & k2 & Hk2 & C2) _. apply safe_ret; [by apply onward_refl|]. split.
  - constructor; [by eapply extern_ok_grows|done].
  - exists (k1 + k2). rewrite zlen_cons. split; [lia|]. eapply counted_trans; [|exact C1|exact C2].
    intros k. unfold only. case_decide; lia.
Qed.

(** The embedder's limiter answers. *)
Definition limiter_total : Prop := ∀ current desired max (d : L),
  no_panic (memory_growing current desired max d).1 ∧ no_panic (table_growing current desired max d).1.
Lemma sizes_total m st : limiter_total → no_panic (check_initial_sizes m st).1.
Proof using.
  intros Ht. assert (∀ (ask : SM L bool) dft why st', (∀ d, no_panic (ask d).1) →
    Keep.safe (λ _, True) (ok ← (r ← with_sync_limiter ask; mret (default dft r)); if (ok : bool) then mret tt else fail (EMsg why))
      st' (λ _ _, True)) as Hask.
  { intros ask dft why st' Hp. apply safe_bind. unfold Keep.safe. rewrite bind_unfold.
    assert (no_panic (with_sync_limiter ask st').1) as Hl.
    { unfold with_sync_limiter. destruct (st_limiter st') as [[]|]; [|done..]. rewrite bind_unfold. unfold on_data, zoom.
      specialize (Hp (st_data st')). destruct (ask (st_data st')) as [[a|e|w] d]; cbn in *; [done|done|by destruct (Hp w)]. }
    destruct (with_sync_limiter ask st') as [[a|e|w] st2]; [|by eexists _, _|by destruct (Hl w)].
    eexists _, _. split_and!; [done..|]. intros _. destruct (default dft a); by eexists _, _. }
  enough (Keep.safe (λ _, True) (check_initial_sizes m) st (λ _ _, True)) as (r & st' & -> & _ & Hr)
    by (by destruct r).
  unfold check_initial_sizes. apply safe_bind. eapply safe_mono; [|intros _ st1 _ _ _];
    (apply (safe_for_each _ _ _ (λ _ _, True)); [done..|]); intros; apply Hask; intros; apply Ht.
Qed.

Lemma export_pairs_ok inst s names :
  (∀ n, n ∈ names → ∃ e, instance_export inst n s = Ok (Some e) ∧ extern_ok s e) →
  ∃ pairs, export_pairs inst names s = Ok pairs ∧ pairs.*1 = names ∧
    Forall (λ p, instance_export inst p.1 s = Ok (Some p.2) ∧ extern_ok s p.2) pairs.
Proof using.
  induction names as [|n names IH]; intros Hn; cbn [export_pairs]; [by exists []|].
  destruct (Hn n) as (e & Hx & He); [set_solver|]. rewrite Hx. cbn. destruct IH as (pairs & -> & <- & HF); [set_solver|].
  exists ((n, e) :: pairs). split_and!; [done..|by constructor].
Qed.
Lemma for_each_fmap {S E A B} (f : A → B) (g : B → M S E ()) l : for_each (f <$> l) g = for_each l (λ x, g (f x)).
Proof using. induction l as [|x l IH]; [done|]. cbn. by rewrite IH. Qed.
Lemma inserts_keep_ok s md entries : Forall (λ e, def_ok s e.2) entries → ∀ l r l',
  linker_ok l s → for_each entries (λ '(n, d), linker_insert md n d) l = (r, l') → linker_ok l' s.
Proof using.
  induction 1 as [|[n d] entries Hd _ IH]; intros l r l' Hl; cbn [for_each]; [by intros [= <- <-]|].
  rewrite bind_unfold, linker_insert_run. destruct (_ && _); [by intros [= <- <-]|]. apply IH.
  by apply map_Forall_insert_2.
Qed.
Lemma linker_instance_ok s md inst ie l names pairs :
  store_instance s inst = Ok ie → names = ex_name <$> mi_exports (ie_module ie) → NoDup names →
  export_pairs inst names s = Ok pairs → pairs.*1 = names → Forall (λ p, extern_ok s p.2) pairs → linker_ok l s →
  ∃ r l', linker_instance s md inst l = (r, l') ∧ no_panic r ∧ linker_ok l' s ∧
    (lk_allow_shadowing l = false → lk_map l ⊆ lk_map l') ∧
    (r = Ok tt → (∀ n e, (n, e) ∈ pairs → lk_map l' !! (md, n) = Some (DefExtern e)) ∧
      ∀ k, (∀ n, n ∈ names → k ≠ (md, n)) → lk_map l' !! k = lk_map l !! k).
Proof using.
  intros Hie -> Hnd Hpairs Hfst HF Hl. unfold linker_instance. rewrite Hie. cbn [mbind result_bind]. rewrite Hpairs.
  unfold lift at 1. rewrite bind_unfold. set (entries := (λ p : string * Extern, (p.1, DefExtern p.2)) <$> pairs).
  assert (for_each pairs (λ '(name, ext), linker_insert md name (DefExtern ext))
          = for_each entries (λ '(n, d), linker_insert md n d)) as ->.
  { unfold entries. rewrite for_each_fmap. clear. induction pairs as [|[n e] pairs IH]; [done|]. cbn. by rewrite IH. }
  assert (entries.*1 = pairs.*1) as Hent by (unfold entries; rewrite <- list_fmap_compose; by apply list_fmap_ext).
  destruct (insert_many md entries l) as (r & l' & Hrun & Hp & _ & Hok & Hsub & _); [by rewrite Hent, Hfst|].
  exists r, l'. split_and!; [exact Hrun|done| |done|].
  - eapply inserts_keep_ok; [|exact Hl|exact Hrun]. unfold entries. by apply Forall_fmap.
  - intros ->. rewrite Hok by done. split; [intros n e Hin|intros k Hk; apply insert_all_other; by rewrite Hent, Hfst].
    apply insert_all_in; [by rewrite Hent, Hfst|].
    apply list_elem_of_fmap. by exists (n, e).
Qed.

(** What is asked of a module that is linked: it is validated, its exports have distinct
    names, and it has no start function. *)
Record linkable (k : nat) (m : ModuleInner) : Prop := {
  la_layouts : layouts_ok m;
  la_valid : module_valid k m = true;
  la_exports : exports_valid m = true;
  la_names : NoDup (ex_name <$> mi_exports m);
  la_start : mi_start m = None;
}.
(** Room for the module's entities, and for the host functions that its imports materialize. *)
Record link_room (m : ModuleInner) (s : StoreInner) : Prop := {
  lr_room : room m s;
  lr_funcs : zlen (si_funcs s) + zlen (mi_imports m) + zlen (mi_functions m) ≤ 2 ^ 32;
}.
(** The state between two operations of the embedder. *)
Definition linking (l : Linker) (s : StoreInner) : Prop := store_ok s ∧ linker_ok l s.

Lemma room_counted m s s1 k : 0 ≤ k ≤ zlen (mi_imports m) → counted (only AkFunc k) s s1 → link_room m s → room m s1.
Proof using.
  intros Hk C [[] Hf]. arena_count C AkFunc. arena_count C AkMemory. arena_count C AkTag. arena_count C AkTable.
  arena_count C AkGlobal. arena_count C AkInstance. constructor; lia.
Qed.

Lemma Instance_new_linking n clock k fuel m exts l st : linkable k m → (k ≤ fuel)%nat → limiter_total →
  linking l (st_inner st) → Forall (extern_ok (st_inner st)) exts → room m (st_inner st) →
  ∃ r st', Instance_new n clock fuel m exts st = Some (r, st') ∧ no_panic r ∧ linking l (st_inner st') ∧
    ∀ inst, r = Ok inst → (∃ ie, store_instance (st_inner st') inst = Ok ie ∧ ie_module ie = m) ∧
      ∀ name, ∃ x, instance_export inst name (st_inner st') = Ok x ∧ opt_all (extern_ok (st_inner st')) x ∧
        (x = None ↔ name ∉ (ex_name <$> mi_exports m)).
Proof using.
  intros [Hlay Hv Hx _ Hst] Hk Ht [Hs Hl] He Hroom. unfold Instance_new. rewrite bind_unfold.
  pose proof (sizes_total m st Ht) as Hp. destruct (check_initial_sizes m st) as [x st1] eqn:Hsz.
  assert (st_inner st1 = st_inner st) as Hin by (by eapply (keeps_sizes m (st_inner st))).
  destruct x as [u|e|w]; [|by exists (Err e), st1; rewrite Hin|by destruct (Hp w)].
  unfold instantiate_resolve_start. rewrite bind_unfold. destruct (check_limits_run m st1) as (c & -> & Hc & _).
  destruct c as [[]|e|w]; [|by exists (Err e), st1; rewrite Hin|by destruct (Hc w)].
  rewrite <- Hin in *. rewrite bind_unfold. unfold on_inner, zoom.
  destruct (instantiate_safe k fuel m exts (st_inner st1) Hk Hlay Hv Hs He Hroom) as (r & s' & Hrun & [Hg Hok] & HQ).
  assert (linking l s') as Hl' by (split; [done|by eapply linker_ok_grows]).
  rewrite Hrun. destruct r as [inst|e|w]; [|by exists (Err e), (set_st_inner s' st1)|done].
  rewrite Hst. cbn. exists (Ok inst), (set_st_inner s' st1). split_and!; [done..|]. intros ? [= <-].
  destruct (instantiate_next k fuel m exts (st_inner st1) inst s') as (_ & _ & (ie & Hie & Hmade) & Hnext); [done..|].
  split; [|done]. exists ie. split; [done|by eapply made_module].
Qed.

(** C9: linking modules with each other stays sound.  Starting from a linker whose
    definitions are entities of the store or host functions with signatures,
    [Linker::module] on a validated module without a start function never panics and
    leaves such a linker and store, whether it succeeds or is refused by a missing
    import, a type mismatch, a limit, a trapping segment or a name that is taken;
    without shadowing no definition is lost; and when it succeeds, every export of the
    module is defined under the given name as the entity the new instance exports, and
    every other definition of the linker is what it was.  So a program of any
    number of such modules can be linked one by one. *)
Theorem linker_module_sound n clock k fuel name m l st :
  linkable k m → (k ≤ fuel)%nat → limiter_total → linking l (st_inner st) → link_room m (st_inner st) →
  ∃ r l' st', linker_module n clock fuel name m l st = Some (r, l', st') ∧ no_panic r ∧ linking l' (st_inner st') ∧
    (lk_allow_shadowing l = false → lk_map l ⊆ lk_map l') ∧
    (r = Ok tt → ∃ inst, ∀ x, x ∈ (ex_name <$> mi_exports m) →
      ∃ e, instance_export inst x (st_inner st') = Ok (Some e) ∧ lk_map l' !! (name, x) = Some (DefExtern e)) ∧
    (r = Ok tt → ∀ k, (∀ x, x ∈ (ex_name <$> mi_exports m) → k ≠ (name, x)) → lk_map l' !! k = lk_map l !! k).
Proof using.
  intros Hm Hk Ht [Hs Hl] Hroom. unfold linker_module, linker_instantiate. unfold on_inner, zoom.
  pose proof (zlen_nonneg (mi_functions m)). destruct (resolve_all_safe l (mi_imports m) (st_inner st)) as
    (r & s1 & -> & [Hg1 Hs1] & HQ); [done..|destruct Hroom; lia|].
  assert (linker_ok l s1) as Hl1 by (by eapply linker_ok_grows).
  destruct r as [exts|e|w]; [|by exists (Err e), l, (set_st_inner s1 st)|done].
  destruct HQ as (He & j & Hj & C). cbn [then_run].
  destruct (Instance_new_linking n clock k fuel m exts l (set_st_inner s1 st) Hm Hk Ht (conj Hs1 Hl1) He (room_counted _ _ _ _ Hj C Hroom))
    as (r & st' & -> & Hp & [Hs' Hl'] & Hinst).
  destruct r as [inst|e|w]; [|by exists (Err e), l, st'|by destruct (Hp w)].
  destruct (Hinst inst eq_refl) as [(ie & Hie & Hmod) Hexp].
  assert (∀ x, x ∈ (ex_name <$> mi_exports m) → ∃ e, instance_export inst x (st_inner st') = Ok (Some e) ∧ extern_ok (st_inner st') e) as Hall.
  { intros x Hx. destruct (Hexp x) as ([e|] & He' & Ho & Hn); [by exists e|]. by destruct (proj1 Hn eq_refl). }
  destruct (export_pairs_ok inst (st_inner st') _ Hall) as (pairs & Hpairs & Hfst & HF).
  destruct (linker_instance_ok (st_inner st') name inst ie l (ex_name <$> mi_exports m) pairs Hie) as (r & l' & Hrun & Hr & Hok & Hsub & Hdef);
    [by rewrite Hmod|apply Hm|done..|by eapply Forall_impl; [exact HF|intros ? [_ ?]]|done|].
  exists r, l', st'. rewrite Hrun. split_and!; [done..| |by intros ->; apply Hdef]. intros ->. exists inst. rewrite <- Hfst.
  intros ? ([x e] & -> & Hin)%list_elem_of_fmap. exists e. split; [by apply (proj1 (Forall_forall _ _) HF (x, e))|by apply Hdef].
Qed.
End link.

(** ** Linking the module of [Linking] twice

    The host defines a function, a memory and a global under [host]; the module is
    linked as [a], and again with the memory of [a] in the place of the host's. *)
#[local] Existing Instances demo_features demo_floats demo_types demo_order demo_frame_size demo_alloc.
#[local] Instance linker_funcs : EngineFuncs := {| func_signature := λ i, if i =? 7 then Some ([], []) else None |}.
Definition host_linker : Linker := set_lk_map
  (<[("host", "f") := DefHost 7 0]> (<[("host", "mem") := DefExtern (ExMemory link_instance)]>
    (<[("host", "base") := DefExtern (ExGlobal link_instance)]> ∅))) linker_new.
Definition host_defs (allow : bool) : Linker := allow_shadowing allow host_linker.
Definition linker_store : StoreT StoreLimits :=
  {| st_inner := link_store; st_exec_slot := execution_default; st_limiter := None; st_data := store_limits_default |}.
Abbreviation demo_link name l st :=
  (@linker_module demo_features demo_floats demo_types demo_order linker_funcs demo_frame_size demo_alloc (demo_config true) StoreLimits
     StoreLimits_limiter mute_host 10 0 1 name link_module l st).
Definition second_link : option (res () * option Def * option Def) :=
  '(_, l, st) ← demo_link "a" (host_defs true) linker_store;
  '(_, l, st) ← (let '(_, l') := alias "a" "mem" "host" "mem" l in demo_link "b" l' st);
  '(r, l, _) ← demo_link "b" (allow_shadowing false l) st;
  Some (r, lk_map l !! ("b", "own"), lk_map l !! ("b", "mem")).
Example links_twice :
  second_link = Some (Err (twice_err "b" "own"), Some (DefExtern (ExFunc {| fn_index := 4; fn_store := 1 |})),
                      Some (DefExtern (ExMemory link_instance))).
Proof. vm_compute. reflexivity. Qed.

Lemma limits_total : @limiter_total StoreLimits StoreLimits_limiter.
Proof. by intros c d m l. Qed.
Lemma linker_module_sound_witness :
  ∃ r l' st', demo_link "a" host_linker linker_store = Some (r, l', st') ∧ no_panic r ∧ linking l' (st_inner st') ∧
    lk_map host_linker ⊆ lk_map l'.
Proof.
  destruct (@linker_module_sound demo_features demo_floats demo_types demo_order linker_funcs demo_frame_size demo_alloc
    (demo_config true) StoreLimits StoreLimits_limiter mute_host 10 0 1 1 "a" link_module host_linker linker_store)
    as (r & l' & st' & Hrun & Hp & Hl & Hsub & _).
  - constructor; [apply interned_layouts_ok|vm_compute; reflexivity|vm_compute; reflexivity| |reflexivity].
    apply (bool_decide_unpack _). vm_compute. exact I.
  - lia.
  - exact limits_total.
  - split; [exact link_store_ok|]. intros k d. cbn [lk_map host_linker set_lk_map].
    rewrite !lookup_insert_Some. intros [[<- <-]|[_ [[<- <-]|[_ [[<- <-]|[_ Hd]]]]]]; [by eexists|by eexists..|done].
  - constructor; [constructor; vm_compute; discriminate|vm_compute; discriminate].
  - exists r, l', st'. split; [exact Hrun|]. split; [exact Hp|]. split; [exact Hl|]. exact (Hsub eq_refl).
Defined.

Lemma alias_module_exact_witness :
  ∃ l', alias_module (module_entries "host" (lk_map host_linker)) "env" host_linker = (Ok tt, l') ∧
    lk_map l' !! ("env", "f") = Some (DefHost 7 0) ∧ lk_map l' !! ("host", "f") = Some (DefHost 7 0).
Proof.
  destruct (alias_module_exact host_linker "host" "env" (module_entries "host" (lk_map host_linker)) (reflexivity _))
    as (r & l' & Hrun & _ & Hiff & Hmap & _).
  assert (r = Ok tt) as ->.
  { apply Hiff. right. intros n _. cbn [lk_map host_linker set_lk_map]. by rewrite !lookup_insert_ne. }
  exists l'. split; [exact Hrun|]. rewrite !(Hmap eq_refl). split; reflexivity.
Defined.
