(* ===== verification/Metered.v ===== *)
(** * Metered: a call with fuel metering returns

    With fuel metering on and embedder code that never adds fuel, every turn of the
    loop either spends a unit of fuel and adds at most one frame, or pops a frame.
    Twice the fuel plus the running frames bounds the turns, so [execute] returns
    within a number of turns known when the call is made. *)
From S2P Require Import Prelude Keep Types Layout Codec Arena Heap Op Entity Store Collect Stack Frame Float.
From S2P Require Import Numeric Limits Memory Reserve GcOps Matching Exn Step StackInv Run Drive Isolation.
Open Scope Z_scope.

(** [Q] holds and at most [k] units of fuel are left. *)
Definition fuel_at_most (Q : StoreInner → Prop) (k : Z) (s : StoreInner) : Prop := Q s ∧ 0 ≤ si_fuel s ≤ k.

(** A store predicate that does not look at the fuel. *)
Class FuelBlind (Q : StoreInner → Prop) : Prop := {
  fb_pred :: StorePred Q;
  fb_fuel s n : Q s → Q (set_si_fuel n s);
}.
#[export] Instance fuel_at_most_pred Q k : FuelBlind Q → StorePred (fuel_at_most Q k).
Proof.
  intros HQ. split.
  - intros s [Hs _]. by apply (sp_modules (P:=Q)).
  - intros s s' [Hs Hf] Hv. split; [by eapply sp_view|]. injection Hv as -> _. done.
Qed.

Section metered.
Context `{Features, FloatHost, EngineTypes, TypeOrder, EngineFuncs, FrameSize, HostAlloc, EngineConfig}
  {L : Type} `{ResourceLimiter L, HostCode L}.
Context (ex0 : Execution) (d : Frame) (depth : Z).
Abbreviation base := (zlen (ex_values ex0)).
Abbreviation stop := (zlen (ex_frames ex0) + 1).
Context (Hd : fr_operand_base d = base) (Hdel : fr_delimiter d ≠ None) (Hdepth : 0 ≤ depth) (Hsize : 2 ≤ frame_size).
Context (Q : StoreInner → Prop) {HQ : FuelBlind Q} (Hosts : ∀ k, hosts_ok (L:=L) (fuel_at_most Q k))
  (Hmeter : cfg_consume_fuel = true).
Implicit Types mc : Machine L.
Abbreviation at_fs k := (at_fs ex0 d depth (fuel_at_most Q k) FRAME_CAP).
Abbreviation running k := (running ex0 d depth (fuel_at_most Q k) FRAME_CAP).

(** Turns still to come: bounded by this measure of fuel and frames. *)
Definition measure (k : Z) (n : nat) : nat := 2 * Z.to_nat k + n.

Lemma spend k s : fuel_at_most Q k s → 0 < si_fuel s → fuel_at_most Q (k - 1) (set_si_fuel (si_fuel s - 1) s).
Proof using All. intros [Hs Hf] Hp. split; [by apply fb_fuel|]. cbn. lia. Qed.

(** The machine left behind has a smaller measure. *)
Definition shrunk (m : nat) mc : Prop := ∃ k n, running k n mc ∧ 0 ≤ k ∧ (measure k n < m)%nat.
Definition continues (o : Outcome) : Prop := o ≠ OcFinished ∧ o ≠ OcFuelYield.

Lemma at_fs_fuel k fs mc : at_fs k fs mc → 0 ≤ k.
Proof using All. intros [_ _ _ _ [_ ?]]. lia. Qed.

Lemma loop_returns n k fs epoch gcw c cd mc : at_fs k fs mc → cursor_at c fs → (measure k (length fs) < n)%nat →
  ∃ r mc', dispatch_loop n stop true epoch gcw c cd mc = Some (r, mc') ∧
    ∀ o, r = Ok o → continues o → shrunk (measure k (length fs)) mc'.
Proof using All.
  revert k fs c cd mc. induction n as [|n IH]; intros k fs c cd mc Ha Hcur Hn; [lia|]. cbn [dispatch_loop].
  destruct (turn _ _ _ _ _ _ mc) as [t mc1] eqn:Ht. pose proof (at_fs_fuel _ _ _ Ha) as Hk.
  assert (no_panic t → turn_post ex0 d depth (fuel_at_most Q k) (fuel_at_most Q (k - 1)) fs t mc1) as Hpost.
  { intros Hp. eapply (turn_inv ex0 d depth Hd Hdel Hdepth Hsize (fuel_at_most Q k) (fuel_at_most Q (k - 1)) true epoch);
      [intros s; apply spend|apply Hosts|exact Ha|exact Hcur|exact Ht|done]. }
  destruct t as [[c' cd'|o]|e|w]; cbn [and_then].
  - destruct (Hpost ltac:(done)) as (fs' & Hc' & [[Ha' Hl]|[Ha' Hl]]).
    + destruct (IH k fs' c' cd' mc1 Ha' Hc') as (r & mc' & Hr & Hsh); [unfold measure in *; lia|]. exists r, mc'. split; [done|].
      intros o Ho Hco. destruct (Hsh o Ho Hco) as (k' & n' & ? & ? & ?). exists k', n'. unfold measure in *. split_and!; [done..|lia].
    + pose proof (at_fs_fuel _ _ _ Ha').
      destruct (IH (k - 1) fs' c' cd' mc1 Ha' Hc') as (r & mc' & Hr & Hsh); [unfold measure in *; lia|]. exists r, mc'. split; [done|].
      intros o Ho Hco. destruct (Hsh o Ho Hco) as (k' & n' & ? & ? & ?). exists k', n'. unfold measure in *. split_and!; [done..|lia].
  - eexists _, _. split; [done|]. intros o' [= <-] [Hco1 Hco2]. destruct (Hpost ltac:(done)) as [[[|] _]|Hrun]; [done..|].
    exists (k - 1), (S (length fs)). pose proof Hrun as (fs' & _ & Ha'). pose proof (at_fs_fuel _ _ _ Ha'). unfold measure. split_and!; [done|lia..].
  - by eexists _, _.
  - by eexists _, _.
Qed.

Lemma run_returns n k cap fs mc : Isolation.at_fs ex0 d depth (fuel_at_most Q k) cap fs mc → (measure k (length fs) < n)%nat →
  ∃ r mc', run n stop mc = Some (r, mc') ∧ ∀ o, r = Ok o → continues o → shrunk (measure k (length fs)) mc'.
Proof using All.
  intros Ha Hn. unfold run. destruct (_ =? stop); [eexists _, _; split; [done|]; by intros o [= <-] []|].
  destruct (on_exec (reads stack_bytes) mc) as [x mc1] eqn:Hb.
  assert (∀ s, fuel_at_most Q k s → 0 < si_fuel s → fuel_at_most Q k (set_si_fuel (si_fuel s - 1) s)) as Hf.
  { intros s Hs Hp. destruct (spend _ _ Hs Hp) as [? ?]. split; [done|lia]. }
  destruct (bytes_recap ex0 d depth Hd Hdel Hdepth Hsize (fuel_at_most Q k) (Hosts k) Hf _ _ _ _ _ Ha Hb) as [-> Hcap].
  destruct x as [nb|e|w]; cbn [and_then]; [|by eexists _, _..]. destruct (_ <=? nb); [by eexists _, _|].
  specialize (Hcap nb eq_refl). unfold dispatch. destruct (top_cursor mc) as [y mc2] eqn:Ht.
  destruct (top_cursor_at ex0 d depth Hd Hdel Hdepth Hsize _ _ _ _ _ Hcap Ht) as [-> Hcur]. rewrite Hmeter.
  destruct y as [c|e|w]; cbn [and_then]; [|by eexists _, _..]. apply loop_returns; [done|by apply Hcur|done].
Qed.

Lemma drive_returns n k cap fs mc : Isolation.at_fs ex0 d depth (fuel_at_most Q k) cap fs mc → (measure k (length fs) < n)%nat →
  ∃ x, drive n stop mc = Some x.
Proof using All.
  revert k cap fs mc. induction n as [|n IH]; intros k cap fs mc Ha Hn; [lia|]. cbn [drive]. cbv zeta.
  destruct (run_returns _ _ _ _ _ Ha Hn) as (r & mc1 & -> & Hsh). cbn [mbind option_bind].
  destruct r as [o|e|w]; cbn [and_then]; [|by eexists..].
  assert (Hgo : ∀ m : SM (Machine L) (), continues o → (∀ k' n', keeps (running k' n') m) →
    ∃ x, and_then (m mc1) (λ _, drive n stop) = Some x).
  { intros m Hco Hm. destruct (Hsh o eq_refl Hco) as (k' & n' & Hrun & Hk' & Hlt). destruct (m mc1) as [y mc2] eqn:Hy.
    destruct y as [u|e|w]; cbn [and_then]; [|by eexists..].
    destruct (Hm k' n' mc1 (Ok u) mc2 Hrun Hy ltac:(done)) as (fs' & Hl & Ha'). eapply (IH k' FRAME_CAP fs'); [exact Ha'|].
    unfold measure in *. lia. }
  destruct o; try (by eexists); apply Hgo; try done; intros k' n'.
  all: first
    [ apply (keeps_epoch_deadline ex0 d depth (fuel_at_most Q k') Hdepth (Hosts k') FRAME_CAP ltac:(done))
    | apply (keeps_do_grow ex0 d depth (fuel_at_most Q k') Hd Hdepth FRAME_CAP ltac:(done))
    | apply (keeps_do_grow_table ex0 d depth (fuel_at_most Q k') Hd Hdepth FRAME_CAP ltac:(done))
    | apply (keeps_do_grow_gc ex0 d depth (fuel_at_most Q k') Hdepth FRAME_CAP ltac:(done)) ].
Qed.
End metered.

(** C3: with fuel metering on, a call returns, whatever its code, loops, calls and growth
    requests, provided the embedder's code never adds fuel ([hosts_ok (fuel_at_most Q k)]
    for every [k]; [Caller::set_fuel] could) and keeps [Q].  The bound is on the
    recursion, not a count of turns: the driver resumes the loop, and each run of
    the loop takes turns, at most [2 * fuel + 2] times each. *)
Theorem execute_metered `{Features, FloatHost, EngineTypes, TypeOrder, EngineFuncs, FrameSize, HostAlloc, EngineConfig}
    {L : Type} `{ResourceLimiter L, HostCode L} Q `{!FuelBlind Q}
    n clock instance func_index code args tys (st : StoreT L) :
  cfg_consume_fuel = true → (∀ k, hosts_ok (L:=L) (fuel_at_most Q k)) → 2 ≤ frame_size →
  module_ok (code_module code) → slot_wf (st_exec_slot st) → Q (st_inner st) → 0 ≤ si_fuel (st_inner st) →
  2 * si_fuel (st_inner st) + 2 ≤ Z.of_nat n →
  ∃ r st', execute n clock instance func_index code args tys st = Some (r, st').
Proof.
  intros Hmeter Hosts Hsize Hm Hwf HQ Hf Hn. unfold execute. destruct (enter _ _ _ _ st) as [x st1] eqn:He.
  destruct (enter_cases Hsize _ _ _ _ _ _ _ Hwf Hm He) as [Hv Hpost].
  destruct x as [[exec b]|e|w]; [|by eexists _, _..].
  destruct Hpost as (Hs1 & -> & Hl & func & f & Hin & Hok). set (ex := st_exec_slot st) in *.
  set (k := si_fuel (st_inner st)) in *.
  assert (fuel_at_most Q k (st_inner st)) as HP by (split; [done|lia]).
  set (dl := delimiter_frame (delim_of ex) instance code func ex) in *.
  set (mc := {| mc_ex := exec; mc_store := st1; mc_clock := clock |}).
  assert (at_fs ex dl (depth_after (delim_of ex) (ex_host_reentry_depth ex)) (fuel_at_most Q k) (zlen (ex_frames exec)) [f] mc) as Ha.
  { split; [exact Hin|exact Hok|exact Hs1|cbn; lia|by eapply sp_view]. }
  destruct (drive_returns ex dl _ eq_refl ltac:(done) (depth_after_nonneg ex (sw_depth _ Hwf) _) Hsize Q Hosts Hmeter n k _ [f] mc Ha)
    as [[outcome mc'] Hdr]; [unfold measure; cbn [length]; lia|].
  cbn [b_run_stop bounds]. rewrite Hdr. cbn [mbind option_bind]. destruct outcome; [|eauto..].
  - destruct (finish _ _ _ _ _). eauto.
  - destruct (finish _ _ _ _ _). eauto.
Qed.

(** ** The looping function of [Drive] *)
#[export] Instance modules_fine_blind : FuelBlind modules_fine.
Proof. split; [apply _|done]. Qed.

Example demo_spin_mute :
  fst <$> @execute demo_features demo_floats demo_types demo_order demo_funcs demo_frame_size demo_alloc (demo_config true) _ _ mute_host
    62 0 demo_instance 3 (demo_code 3) [] [] demo_store = Some (Err (ETrap OutOfFuel)).
Proof. vm_compute. reflexivity. Qed.
Lemma execute_metered_witness : ∃ st',
  @execute demo_features demo_floats demo_types demo_order demo_funcs demo_frame_size demo_alloc (demo_config true) _ _ mute_host
    62 0 demo_instance 3 (demo_code 3) [] [] demo_store = Some (Err (ETrap OutOfFuel), st').
Proof.
  destruct (@execute_metered demo_features demo_floats demo_types demo_order demo_funcs demo_frame_size demo_alloc
    (demo_config true) _ _ mute_host modules_fine modules_fine_blind 62 0 demo_instance 3 (demo_code 3) [] [] demo_store eq_refl)
    as (r & st' & Hrun).
  - intros k. apply mute_host_ok.
  - vm_compute; congruence.
  - apply demo_module_ok.
  - split; [done|vm_compute; congruence..].
  - constructor; [apply demo_module_ok|constructor].
  - vm_compute; congruence.
  - vm_compute; congruence.
  - exists st'. pose proof demo_spin_mute as Hres. rewrite Hrun in *. by injection Hres as ->.
Defined.
