(* ===== verification/Compile.v ===== *)
(** * Compile: from operators to the internal instructions (src/src/module/compile/)

    The single-pass translator: every operator of a function body is validated and
    lowered as it is decoded.  Straight-line operators go through one table each;
    structured control becomes relative branches with the operand fix-up inline, the forward ones
    patched when their frame ends; operators in dead code are skipped.  The
    function's streams are appended to the module-wide arenas.

    The validator and the binary reader are wasmparser's: the validator is a
    parameter ([OpValidator]), and a body is what the reader answers, operator by operator. *)
From S2P Require Import Prelude Keep Types Layout Codec Op Entity.
Open Scope Z_scope.

(** ** wasmparser's types *)
Inductive WpAbstract := WaFunc | WaNoFunc | WaExtern | WaNoExtern | WaAny | WaEq | WaI31 | WaStruct | WaArray
  | WaNone | WaExn | WaNoExn | WaCont | WaNoCont.
(** An index into the module's types, or one that is not module-relative. *)
Inductive WpIndex := WiModule (i : Z) | WiOther.
Inductive WpHeap := WhAbstract (shared : bool) (ty : WpAbstract) | WhConcrete (i : WpIndex) | WhExact (i : WpIndex).
Record WpRef : Type := { wr_nullable : bool; wr_heap : WpHeap }.
Inductive WpVal := WvI32 | WvI64 | WvF32 | WvF64 | WvV128 | WvRef (rt : WpRef).
Inductive BlockType := BtEmpty | BtType (ty : WpVal) | BtFunc (i : Z).
Record WpMemArg : Type := { wm_memory : Z; wm_offset : Z }.
Record WpBrTable : Type := { wt_targets : res (list Z); wt_default : Z }.
Inductive Catch := CatchOne (tag label : Z) | CatchOneRef (tag label : Z) | CatchAll (label : Z) | CatchAllRef (label : Z).
Record TryTable : Type := { tt_ty : BlockType; tt_catches : list Catch }.
Record WpMemoryType : Type := { wmt_memory64 : bool; wmt_initial : Z; wmt_maximum : option Z }.
Record WpGlobalType : Type := { wgt_content : WpVal; wgt_mutable : bool }.
Record WpTableType : Type := { wtt_element : WpRef; wtt_table64 : bool; wtt_initial : Z; wtt_maximum : option Z }.

(** *** conv.rs *)
Definition conv_heaptype (kinds : list AggKind) (hty : WpHeap) : res IrHeap :=
  match hty with
  | WhAbstract false ty =>
      match ty with
      | WaFunc => Ok IrFunc | WaNoFunc => Ok IrNoFunc | WaExtern => Ok IrExtern | WaNoExtern => Ok IrNoExtern
      | WaAny => Ok IrAny | WaEq => Ok IrEq | WaI31 => Ok IrI31 | WaStruct => Ok IrStruct | WaArray => Ok IrArray
      | WaNone => Ok IrNone | WaExn => Ok IrExn | WaNoExn => Ok IrNoExn
      | WaCont | WaNoCont => Err (EMsg "continuation heap types unsupported")
      end
  | WhConcrete idx | WhExact idx =>
      match idx with
      | WiModule i => kind ← ok_or (zget kinds i) (EMsg "type index out of range"); Ok (IrConcrete i kind)
      | WiOther => Err (EMsg "non-module-relative type index")
      end
  | WhAbstract true _ => Err (EMsg "shared heap types unsupported")
  end.
Definition conv_valtype (kinds : list AggKind) (ty : WpVal) : res IrVal :=
  match ty with
  | WvI32 => Ok IrI32 | WvI64 => Ok IrI64 | WvF32 => Ok IrF32 | WvF64 => Ok IrF64 | WvV128 => Ok IrV128
  | WvRef rt => heap ← conv_heaptype kinds (wr_heap rt); Ok (IrRefTy (wr_nullable rt) heap)
  end.
Definition ref_target (kinds : list AggKind) (rt : WpRef) : res (IrHeap * bool) :=
  v ← conv_valtype kinds (WvRef rt);
  match v with
  | IrRefTy nullable heap => Ok (heap, nullable)
  | _ => Panic "ref type maps to a reference"
  end.
Definition conv_memtype (mt : WpMemoryType) : MemoryType :=
  if wmt_memory64 mt
  then {| mt_minimum := wmt_initial mt; mt_maximum := wmt_maximum mt; mt_memory64 := true |}
  else {| mt_minimum := wrap 32 (wmt_initial mt); mt_maximum := wrap 32 <$> wmt_maximum mt; mt_memory64 := false |}.
Definition conv_globaltype (kinds : list AggKind) (gt : WpGlobalType) : res IrGlobalType :=
  content ← conv_valtype kinds (wgt_content gt); Ok {| igt_content := content; igt_mutable := wgt_mutable gt |}.
Definition conv_reftype (kinds : list AggKind) (rt : WpRef) : res IrRef :=
  v ← conv_valtype kinds (WvRef rt);
  match v with
  | IrRefTy nullable heap => Ok {| ir_nullable := nullable; ir_heap := heap |}
  | _ => Panic "Ref maps to Ref"
  end.
Definition conv_tabletype (kinds : list AggKind) (tt : WpTableType) : res IrTableType :=
  element ← conv_reftype kinds (wtt_element tt);
  Ok {| itt_element := element; itt_min := wtt_initial tt; itt_max := wtt_maximum tt; itt_table64 := wtt_table64 tt |}.

(** ** The translator *)
Record CompileCtx : Type := {
  cc_types : list ModuleType;
  cc_kinds : list AggKind;
  cc_func_types : list Z;
  cc_tag_types : list Z;
  cc_max_expanded_locals : Z;
}.
Inductive BlockKind := KBlock | KLoop | KIf | KTryTable.
#[export] Instance BlockKind_eq_dec : EqDecision BlockKind.
Proof. solve_decision. Defined.
Record HandlerClause : Type := { hc_tag : option Z; hc_label : Z; hc_payload_args : bool; hc_payload_ref : bool }.
Inductive PatchSlot := Single | TableCase (k : Z) | TableDefault.
Record Patch : Type := { pa_op : Z; pa_slot : PatchSlot }.
Record CtrlFrame : Type := {
  ct_kind : BlockKind;
  ct_base_height : Z;
  ct_param_count : Z;
  ct_result_count : Z;
  ct_start_ip : Z;
  ct_end_patches : list Patch;
  ct_else_patch : option Z;
  ct_reachable_on_entry : bool;
  ct_end_targeted : bool;
  ct_clauses : list HandlerClause;
}.
Definition label_arity (f : CtrlFrame) : Z :=
  if bool_decide (ct_kind f = KLoop) then ct_param_count f else ct_result_count f.
(** [end_patches.push(patch); end_targeted = true] *)
Definition add_patch (p : Patch) (f : CtrlFrame) : CtrlFrame :=
  {| ct_kind := ct_kind f; ct_base_height := ct_base_height f; ct_param_count := ct_param_count f;
     ct_result_count := ct_result_count f; ct_start_ip := ct_start_ip f; ct_end_patches := ct_end_patches f ++ [p];
     ct_else_patch := ct_else_patch f; ct_reachable_on_entry := ct_reachable_on_entry f; ct_end_targeted := true;
     ct_clauses := ct_clauses f |}.
Definition clear_else (f : CtrlFrame) : CtrlFrame :=
  {| ct_kind := ct_kind f; ct_base_height := ct_base_height f; ct_param_count := ct_param_count f;
     ct_result_count := ct_result_count f; ct_start_ip := ct_start_ip f; ct_end_patches := ct_end_patches f;
     ct_else_patch := None; ct_reachable_on_entry := ct_reachable_on_entry f; ct_end_targeted := ct_end_targeted f;
     ct_clauses := ct_clauses f |}.

Record Bases : Type := { b_ops : Z; b_br_tables : Z; b_big_memargs : Z; b_handlers : Z; b_offsets : Z }.
Record Translator : Type := {
  tr_code : CodeArenas;
  tr_base : Bases;
  tr_retain_offsets : bool;
  tr_height : Z;
  tr_max_operands : Z;
  tr_ctrl : list CtrlFrame;
  tr_reachable : bool;
  tr_cur_offset : Z;
  tr_fusable_cmp : option CmpKind;
  tr_error : option InternalError;
}.
Definition set_tr_code (v : CodeArenas) (t : Translator) : Translator :=
  {| tr_code := v; tr_base := tr_base t; tr_retain_offsets := tr_retain_offsets t; tr_height := tr_height t;
     tr_max_operands := tr_max_operands t; tr_ctrl := tr_ctrl t; tr_reachable := tr_reachable t;
     tr_cur_offset := tr_cur_offset t; tr_fusable_cmp := tr_fusable_cmp t; tr_error := tr_error t |}.
Definition set_tr_height (v : Z) (t : Translator) : Translator :=
  {| tr_code := tr_code t; tr_base := tr_base t; tr_retain_offsets := tr_retain_offsets t; tr_height := v;
     tr_max_operands := tr_max_operands t; tr_ctrl := tr_ctrl t; tr_reachable := tr_reachable t;
     tr_cur_offset := tr_cur_offset t; tr_fusable_cmp := tr_fusable_cmp t; tr_error := tr_error t |}.
Definition set_tr_max_operands (v : Z) (t : Translator) : Translator :=
  {| tr_code := tr_code t; tr_base := tr_base t; tr_retain_offsets := tr_retain_offsets t;
     tr_height := tr_height t; tr_max_operands := v; tr_ctrl := tr_ctrl t; tr_reachable := tr_reachable t;
     tr_cur_offset := tr_cur_offset t; tr_fusable_cmp := tr_fusable_cmp t; tr_error := tr_error t |}.
Definition set_tr_ctrl (v : list CtrlFrame) (t : Translator) : Translator :=
  {| tr_code := tr_code t; tr_base := tr_base t; tr_retain_offsets := tr_retain_offsets t;
     tr_height := tr_height t; tr_max_operands := tr_max_operands t; tr_ctrl := v;
     tr_reachable := tr_reachable t; tr_cur_offset := tr_cur_offset t; tr_fusable_cmp := tr_fusable_cmp t;
     tr_error := tr_error t |}.
Definition set_tr_reachable (v : bool) (t : Translator) : Translator :=
  {| tr_code := tr_code t; tr_base := tr_base t; tr_retain_offsets := tr_retain_offsets t;
     tr_height := tr_height t; tr_max_operands := tr_max_operands t; tr_ctrl := tr_ctrl t; tr_reachable := v;
     tr_cur_offset := tr_cur_offset t; tr_fusable_cmp := tr_fusable_cmp t; tr_error := tr_error t |}.
Definition set_tr_cur_offset (v : Z) (t : Translator) : Translator :=
  {| tr_code := tr_code t; tr_base := tr_base t; tr_retain_offsets := tr_retain_offsets t;
     tr_height := tr_height t; tr_max_operands := tr_max_operands t; tr_ctrl := tr_ctrl t;
     tr_reachable := tr_reachable t; tr_cur_offset := v; tr_fusable_cmp := tr_fusable_cmp t;
     tr_error := tr_error t |}.
Definition set_tr_fusable_cmp (v : option CmpKind) (t : Translator) : Translator :=
  {| tr_code := tr_code t; tr_base := tr_base t; tr_retain_offsets := tr_retain_offsets t;
     tr_height := tr_height t; tr_max_operands := tr_max_operands t; tr_ctrl := tr_ctrl t;
     tr_reachable := tr_reachable t; tr_cur_offset := tr_cur_offset t; tr_fusable_cmp := v;
     tr_error := tr_error t |}.
Definition set_tr_error (v : option InternalError) (t : Translator) : Translator :=
  {| tr_code := tr_code t; tr_base := tr_base t; tr_retain_offsets := tr_retain_offsets t;
     tr_height := tr_height t; tr_max_operands := tr_max_operands t; tr_ctrl := tr_ctrl t;
     tr_reachable := tr_reachable t; tr_cur_offset := tr_cur_offset t; tr_fusable_cmp := tr_fusable_cmp t;
     tr_error := v |}.

(** The arenas, one stream at a time. *)
Definition set_ca_ops (v : list Op) (c : CodeArenas) : CodeArenas :=
  {| ca_ops := v; ca_local_types := ca_local_types c; ca_handlers := ca_handlers c; ca_br_tables := ca_br_tables c;
     ca_big_memargs := ca_big_memargs c; ca_offsets := ca_offsets c |}.
Definition set_ca_local_types (v : list IrVal) (c : CodeArenas) : CodeArenas :=
  {| ca_ops := ca_ops c; ca_local_types := v; ca_handlers := ca_handlers c; ca_br_tables := ca_br_tables c;
     ca_big_memargs := ca_big_memargs c; ca_offsets := ca_offsets c |}.
Definition set_ca_handlers (v : list HandlerSpan) (c : CodeArenas) : CodeArenas :=
  {| ca_ops := ca_ops c; ca_local_types := ca_local_types c; ca_handlers := v; ca_br_tables := ca_br_tables c;
     ca_big_memargs := ca_big_memargs c; ca_offsets := ca_offsets c |}.
Definition set_ca_br_tables (v : list BranchTarget) (c : CodeArenas) : CodeArenas :=
  {| ca_ops := ca_ops c; ca_local_types := ca_local_types c; ca_handlers := ca_handlers c; ca_br_tables := v;
     ca_big_memargs := ca_big_memargs c; ca_offsets := ca_offsets c |}.
Definition set_ca_big_memargs (v : list BigMemArg) (c : CodeArenas) : CodeArenas :=
  {| ca_ops := ca_ops c; ca_local_types := ca_local_types c; ca_handlers := ca_handlers c; ca_br_tables := ca_br_tables c;
     ca_big_memargs := v; ca_offsets := ca_offsets c |}.
Definition set_ca_offsets (v : list Z) (c : CodeArenas) : CodeArenas :=
  {| ca_ops := ca_ops c; ca_local_types := ca_local_types c; ca_handlers := ca_handlers c; ca_br_tables := ca_br_tables c;
     ca_big_memargs := ca_big_memargs c; ca_offsets := v |}.
Definition on_code (f : CodeArenas → CodeArenas) (t : Translator) : Translator := set_tr_code (f (tr_code t)) t.

(** Translating: the state survives an error. *)
Abbreviation Tr := (SM Translator) (only parsing).

(** [Vec::len() as u32] *)
Definition len32 {A} (l : list A) : Z := wrap 32 (zlen l).
Definition translator_new (code : CodeArenas) (retain_offsets : bool) (ctrl : list CtrlFrame) : Translator :=
  {| tr_code := code;
     tr_base := {| b_ops := len32 (ca_ops code); b_br_tables := len32 (ca_br_tables code);
                   b_big_memargs := len32 (ca_big_memargs code); b_handlers := len32 (ca_handlers code);
                   b_offsets := len32 (ca_offsets code) |};
     tr_retain_offsets := retain_offsets; tr_height := 0; tr_max_operands := 0; tr_ctrl := ctrl; tr_reachable := true;
     tr_cur_offset := 0; tr_fusable_cmp := None; tr_error := None |}.

(** *** Streams *)
Definition next_ip (t : Translator) : Z := wrap 32 (len32 (ca_ops (tr_code t)) - b_ops (tr_base t)).
Definition op_index (t : Translator) (idx : Z) : Z := wrap 32 (b_ops (tr_base t) + idx).
Definition op_ref (idx : Z) (t : Translator) : res Op :=
  expect (zget (ca_ops (tr_code t)) (op_index t idx)) "index out of bounds".
(** [*self.op_mut(idx) = op] *)
Definition put_op (idx : Z) (op : Op) : Tr () :=
  ops ← reads (λ t, expect (zset (ca_ops (tr_code t)) (op_index t idx) op) "index out of bounds");
  modify (on_code (set_ca_ops ops)).
Definition push_edge (e : BranchTarget) : Tr Z :=
  rel ← reads (λ t, Ok (wrap 32 (len32 (ca_br_tables (tr_code t)) - b_br_tables (tr_base t))));
  modify (on_code (λ c, set_ca_br_tables (ca_br_tables c ++ [e]) c));;
  mret rel.
Definition set_ip (ip : Z) (e : BranchTarget) : BranchTarget := {| bt_ip := ip; bt_keep := bt_keep e; bt_pop := bt_pop e |}.
(** [self.edge_mut(flat).ip = ip] *)
Definition patch_edge (rel ip : Z) : Tr () :=
  edges ← reads (λ t,
    let i := wrap 32 (b_br_tables (tr_base t) + rel) in
    e ← expect (zget (ca_br_tables (tr_code t)) i) "index out of bounds";
    expect (zset (ca_br_tables (tr_code t)) i (set_ip ip e)) "index out of bounds");
  modify (on_code (set_ca_br_tables edges)).
Definition memarg (m : WpMemArg) : Tr MemArg :=
  if wm_offset m <? BIG_MEMARG then mret {| ma_memory := wm_memory m; ma_offset := wrap 32 (wm_offset m) |} else
  idx ← reads (λ t, Ok (wrap 32 (len32 (ca_big_memargs (tr_code t)) - b_big_memargs (tr_base t))));
  modify (on_code (λ c, set_ca_big_memargs
    (ca_big_memargs c ++ [{| bm_memory := wm_memory m; bm_offset := wm_offset m |}]) c));;
  mret {| ma_memory := idx; ma_offset := BIG_MEMARG |}.

Definition fusable_cmp_of (op : Op) : option CmpKind :=
  match op with
  | OpI32Eq => Some CkEq | OpI32Ne => Some CkNe | OpI32LtS => Some CkLtS | OpI32LtU => Some CkLtU
  | OpI32GtS => Some CkGtS | OpI32GtU => Some CkGtU | OpI32LeS => Some CkLeS | OpI32LeU => Some CkLeU
  | OpI32GeS => Some CkGeS | OpI32GeU => Some CkGeU
  | _ => None
  end.
Definition emit (op : Op) : Tr () := modify (λ t,
  let t1 := if tr_retain_offsets t then on_code (λ c, set_ca_offsets (ca_offsets c ++ [tr_cur_offset t]) c) t else t in
  on_code (λ c, set_ca_ops (ca_ops c ++ [op]) c) (set_tr_fusable_cmp (fusable_cmp_of op) t1)).

(** *** The operand height *)
Definition latch_compiler (why : string) (t : Translator) : Translator :=
  set_tr_error (Some (default (Compiler why) (tr_error t))) t.
Definition set_height (h : Z) : Tr () := modify (set_tr_height h).
Definition tr_push (n : Z) : Tr () := modify (λ t,
  match checked_add 32 (tr_height t) n with
  | Some h => set_tr_max_operands (Z.max (tr_max_operands t) h) (set_tr_height h t)
  | None => latch_compiler "operand height overflow" t
  end).
Definition tr_pop (n : Z) : Tr () := modify (λ t,
  match checked_sub (tr_height t) n with
  | Some h => set_tr_height h t
  | None => latch_compiler "operand height underflow" t
  end).
Definition tr_height_below (n : Z) : Tr Z := λ t,
  match checked_sub (tr_height t) n with
  | Some h => (Ok h, t)
  | None => (Ok (tr_height t), latch_compiler "control operand height underflow" t)
  end.
Definition binop (op : Op) : Tr () := tr_pop 2;; tr_push 1;; emit op.
Definition unop (op : Op) : Tr () := tr_pop 1;; tr_push 1;; emit op.
Definition store (op : Op) : Tr () := tr_pop 2;; emit op.
Definition constop (op : Op) : Tr () := tr_push 1;; emit op.
Definition ternary (op : Op) : Tr () := tr_pop 3;; tr_push 1;; emit op.

(** ** Branches (control/branch.rs) *)
Definition to_u16 (v : Z) : res Z :=
  if v <? 2 ^ 16 then Ok v else Err (EMsg "branch stack fixup exceeds 65535 operands").
Definition fixup (keep pop : Z) : res (Z * Z) := k ← to_u16 keep; p ← to_u16 pop; Ok (k, p).
Definition compiler_err {A} (why : string) : res A := Err (EInternal (Compiler why)).

Definition branch_target (depth : Z) (t : Translator) : res (BranchTarget * option Z) :=
  top ← ok_or (checked_sub (zlen (tr_ctrl t)) 1) (EInternal (Compiler "branch control depth out of range"));
  i ← ok_or (checked_sub top depth) (EInternal (Compiler "branch control depth out of range"));
  frame ← ok_or (zget (tr_ctrl t) i) (EInternal (Compiler "branch control frame missing"));
  let arity := label_arity frame in
  target_height ← ok_or (checked_add 32 (ct_base_height frame) arity) (EInternal (Compiler "branch target height overflow"));
  pop ← ok_or (checked_sub (tr_height t) target_height) (EInternal (Compiler "branch operand height underflow"));
  '(keep, pop) ← fixup arity pop;
  Ok (if bool_decide (ct_kind frame = KLoop)
      then ({| bt_ip := ct_start_ip frame; bt_keep := keep; bt_pop := pop |}, None)
      else ({| bt_ip := 0; bt_keep := keep; bt_pop := pop |}, Some i)).
(** [let f = &mut self.ctrl[i]; f.end_patches.push(..); f.end_targeted = true] *)
Definition patch_frame (i : Z) (p : Patch) : Tr () :=
  ctrl ← reads (λ t,
    f ← expect (zget (tr_ctrl t) i) "index out of bounds";
    expect (zset (tr_ctrl t) i (add_patch p f)) "index out of bounds");
  modify (set_tr_ctrl ctrl).
Definition register_branch (frame : option Z) (op : Z) (slot : PatchSlot) : Tr () :=
  match frame with Some i => patch_frame i {| pa_op := op; pa_slot := slot |} | None => mret tt end.

Definition patch_ip (op : Z) (slot : PatchSlot) (ip : Z) : Tr () :=
  o ← reads (op_ref op);
  match o with
  | OpBrTable range =>
      flat ← lift (match slot with
                   | TableCase k => Ok (wrap 32 (btr_base range + k))
                   | TableDefault => Ok (wrap 32 (btr_base range + btr_len range))
                   | Single => Panic "single slot on br_table"
                   end);
      patch_edge flat ip
  | OpBrOnCast _ target | OpBrOnCastFail _ target =>
      patch_edge (Z.land target (Z.lnot NULLABLE_BIT)) ip
  | OpBr t => put_op op (OpBr (set_ip ip t))
  | OpBrIf t => put_op op (OpBrIf (set_ip ip t))
  | OpBrIfNot t => put_op op (OpBrIfNot (set_ip ip t))
  | OpBrIfCmp kind negate t => put_op op (OpBrIfCmp kind negate (set_ip ip t))
  | OpBrOnNull t => put_op op (OpBrOnNull (set_ip ip t))
  | OpBrOnNonNull t => put_op op (OpBrOnNonNull (set_ip ip t))
  | _ => panic "patch on non-branch op"
  end.

(** Emits a branching instruction and registers its edge. *)
Definition emit_branch (op : Op) (frame : option Z) : Tr () :=
  idx ← reads (λ t, Ok (next_ip t));
  emit op;;
  register_branch frame idx Single.
Definition dead : Tr () := modify (set_tr_reachable false).
(** [self.fusable_cmp.take()] *)
Definition take_fusable : Tr (option CmpKind) := λ t, (Ok (tr_fusable_cmp t), set_tr_fusable_cmp None t).

Definition tr_br (depth : Z) : Tr () :=
  '(target, frame) ← reads (branch_target depth);
  emit_branch (OpBr target) frame;;
  dead.
Definition tr_br_if (depth : Z) : Tr () :=
  tr_pop 1;;
  '(target, frame) ← reads (branch_target depth);
  fusable ← take_fusable;
  match fusable with
  | Some kind =>
      idx ← reads (λ t, Ok (wrap 32 (next_ip t - 1)));
      put_op idx (OpBrIfCmp kind false target);;
      register_branch frame idx Single
  | None => emit_branch (OpBrIf target) frame
  end.
(** The cases' edges, and what each has to patch. *)
Fixpoint table_edges (k : Z) (cases : list Z) (patches : list (Z * PatchSlot)) : Tr (list (Z * PatchSlot)) :=
  match cases with
  | [] => mret patches
  | depth :: rest =>
      '(bt, frame) ← reads (branch_target depth);
      push_edge bt;;
      table_edges (k + 1) rest (match frame with Some i => patches ++ [(i, TableCase k)] | None => patches end)
  end.
Definition tr_br_table (table : WpBrTable) : Tr () :=
  tr_pop 1;;
  cases ← lift (wt_targets table);
  base ← reads (λ t, Ok (wrap 32 (len32 (ca_br_tables (tr_code t)) - b_br_tables (tr_base t))));
  let len := len32 cases in
  patches ← table_edges 0 cases [];
  '(default, frame) ← reads (branch_target (wt_default table));
  push_edge default;;
  let patches := match frame with Some i => patches ++ [(i, TableDefault)] | None => patches end in
  idx ← reads (λ t, Ok (next_ip t));
  emit (OpBrTable {| btr_base := base; btr_len := len |});;
  for_each patches (λ '(i, slot), patch_frame i {| pa_op := idx; pa_slot := slot |});;
  dead.
Definition tr_ret : Tr () :=
  arity ← reads (λ t, f ← expect (zget (tr_ctrl t) 0) "index out of bounds"; Ok (ct_result_count f));
  pop ← reads (λ t, ok_or (checked_sub (tr_height t) arity) (EInternal (Compiler "return operand height underflow")));
  '(keep, pop) ← lift (fixup arity pop);
  idx ← reads (λ t, Ok (next_ip t));
  emit (OpBr {| bt_ip := 0; bt_keep := keep; bt_pop := pop |});;
  patch_frame 0 {| pa_op := idx; pa_slot := Single |};;
  dead.

(** ** Calls and structured control (control/) *)
Section translate.
Context (ctx : CompileCtx).

(** [self.ctx.types[i].func_sig()], as the arities. *)
Definition signature (type_index : Z) : res (Z * Z) :=
  t ← expect (zget (cc_types ctx) type_index) "index out of bounds";
  '(params, results) ← expect (func_sig t) "not a function type";
  Ok (len32 params, len32 results).
Definition func_signature_of (func : Z) : res (Z * Z) :=
  ty ← expect (zget (cc_func_types ctx) func) "index out of bounds"; signature ty.

Definition tr_call (func : Z) : Tr () :=
  '(params, results) ← lift (func_signature_of func);
  tr_pop params;; tr_push results;; emit (OpCall func).
Definition tr_call_indirect (type_index table : Z) : Tr () :=
  '(params, results) ← lift (signature type_index);
  tr_pop (wrap 32 (1 + params));; tr_push results;; emit (OpCallIndirect type_index table).
Definition tr_call_ref (type_index : Z) : Tr () :=
  '(params, results) ← lift (signature type_index);
  tr_pop (wrap 32 (1 + params));; tr_push results;; emit (OpCallRef type_index).
Definition tr_return_call (func : Z) : Tr () :=
  '(params, _) ← lift (func_signature_of func);
  tr_pop params;; emit (OpReturnCall func);; dead.
Definition tr_return_call_indirect (type_index table : Z) : Tr () :=
  '(params, _) ← lift (signature type_index);
  tr_pop (wrap 32 (1 + params));; emit (OpReturnCallIndirect type_index table);; dead.
Definition tr_return_call_ref (type_index : Z) : Tr () :=
  '(params, _) ← lift (signature type_index);
  tr_pop (wrap 32 (1 + params));; emit (OpReturnCallRef type_index);; dead.

Definition block_arity (bt : BlockType) : res (Z * Z) :=
  match bt with
  | BtEmpty => Ok (0, 0)
  | BtType _ => Ok (0, 1)
  | BtFunc i => signature i
  end.
Definition push_ctrl (f : CtrlFrame) : Tr () := modify (λ t, set_tr_ctrl (tr_ctrl t ++ [f]) t).
Definition new_frame (kind : BlockKind) (base params results start : Z) (else_patch : option Z) (reachable : bool)
    (clauses : list HandlerClause) : CtrlFrame :=
  {| ct_kind := kind; ct_base_height := base; ct_param_count := params; ct_result_count := results; ct_start_ip := start;
     ct_end_patches := []; ct_else_patch := else_patch; ct_reachable_on_entry := reachable; ct_end_targeted := false;
     ct_clauses := clauses |}.
Definition push_func_frame (n_results : Z) : Tr () := push_ctrl (new_frame KBlock 0 0 n_results 0 None true []).
(** The frame opens at the operands below its parameters. *)
Definition open_frame (kind : BlockKind) (bt : BlockType) (else_patch : option Z) (clauses : list HandlerClause) : Tr () :=
  '(params, results) ← lift (block_arity bt);
  base ← tr_height_below params;
  t ← get;
  push_ctrl (new_frame kind base params results (next_ip t) else_patch (tr_reachable t) clauses).
Definition clear_fusable : Tr () := modify (set_tr_fusable_cmp None).
Definition push_block (bt : BlockType) (kind : BlockKind) : Tr () := clear_fusable;; open_frame kind bt None [].
Definition no_target : BranchTarget := {| bt_ip := 0; bt_keep := 0; bt_pop := 0 |}.
(** The branch of an [if] to its [else], fused with a comparison before it. *)
Definition if_branch : Tr (option Z) :=
  t ← get;
  if negb (tr_reachable t) then mret None else
  tr_pop 1;;
  fusable ← take_fusable;
  match fusable with
  | Some kind =>
      idx ← reads (λ t, Ok (wrap 32 (next_ip t - 1)));
      put_op idx (OpBrIfCmp kind true no_target);;
      mret (Some idx)
  | None => idx ← reads (λ t, Ok (next_ip t)); emit (OpBrIfNot no_target);; mret (Some idx)
  end.
Definition push_if (bt : BlockType) : Tr () :=
  _ ← lift (block_arity bt);
  else_patch ← if_branch;
  clear_fusable;;
  open_frame KIf bt else_patch [].

Definition last_frame (why : string) (t : Translator) : res CtrlFrame := expect (last (tr_ctrl t)) why.
Definition pop_ctrl (why : string) : Tr CtrlFrame :=
  '(rest, f) ← reads (λ t, expect (vec_pop (tr_ctrl t)) why);
  modify (set_tr_ctrl rest);; mret f.
(** [*self.ctrl.last_mut()] *)
Definition update_last (g : CtrlFrame → CtrlFrame) : Tr () :=
  '(rest, f) ← reads (λ t, expect (vec_pop (tr_ctrl t)) "if frame");
  modify (set_tr_ctrl (rest ++ [g f])).
Definition do_else : Tr () :=
  clear_fusable;;
  f ← reads (last_frame "else without if");
  t ← get;
  (if tr_reachable t then
     idx ← reads (λ t, Ok (next_ip t));
     '(keep, _) ← lift (fixup (ct_result_count f) 0);
     emit (OpBr {| bt_ip := 0; bt_keep := keep; bt_pop := 0 |});;
     update_last (add_patch {| pa_op := idx; pa_slot := Single |})
   else mret tt);;
  match ct_else_patch f with
  | Some idx => else_start ← reads (λ t, Ok (next_ip t)); patch_ip idx Single else_start
  | None => mret tt
  end;;
  update_last clear_else;;
  modify (set_tr_reachable (ct_reachable_on_entry f));;
  set_height (wrap 32 (ct_base_height f + ct_param_count f)).

(** *** try_table.rs *)
Definition conv_catch (c : Catch) : HandlerClause :=
  match c with
  | CatchOne tag label => {| hc_tag := Some tag; hc_label := label; hc_payload_args := true; hc_payload_ref := false |}
  | CatchOneRef tag label => {| hc_tag := Some tag; hc_label := label; hc_payload_args := true; hc_payload_ref := true |}
  | CatchAll label => {| hc_tag := None; hc_label := label; hc_payload_args := false; hc_payload_ref := false |}
  | CatchAllRef label => {| hc_tag := None; hc_label := label; hc_payload_args := false; hc_payload_ref := true |}
  end.
Definition push_try_table (tt : TryTable) : Tr () :=
  clear_fusable;; open_frame KTryTable (tt_ty tt) None (conv_catch <$> tt_catches tt).
Definition payload_count (c : HandlerClause) : res Z :=
  args ← (if hc_payload_args c then
            tag ← expect (hc_tag c) "catch clause has a tag";
            tidx ← expect (zget (cc_tag_types ctx) tag) "index out of bounds";
            fst <$> signature tidx
          else Ok 0);
  Ok (wrap 32 (args + Z.b2z (hc_payload_ref c))).
(** One landing pad per clause. *)
Fixpoint landing_pads (base_height : Z) (clauses : list HandlerClause) (recs : list HandlerRec) : Tr (list HandlerRec) :=
  match clauses with
  | [] => mret recs
  | c :: rest =>
      n ← lift (payload_count c);
      set_height (wrap 32 (base_height + n));;
      '(target, frame) ← reads (branch_target (hc_label c));
      landing_ip ← reads (λ t, Ok (next_ip t));
      emit (OpBr target);;
      register_branch frame landing_ip Single;;
      landing_pads base_height rest
        (recs ++ [{| hr_tag := hc_tag c; hr_restore_height := base_height; hr_payload_args := hc_payload_args c;
                     hr_payload_ref := hc_payload_ref c; hr_landing_ip := landing_ip |}])
  end.
Definition patch_all (patches : list Patch) (ip : Z) : Tr () := for_each patches (λ p, patch_ip (pa_op p) (pa_slot p) ip).
Definition end_try_table : Tr () :=
  frame ← pop_ctrl "try_table frame";
  let base_height := ct_base_height frame in
  body_end ← reads (λ t, Ok (next_ip t));
  skip_idx ← reads (λ t, Ok (next_ip t));
  '(keep, _) ← lift (fixup (ct_result_count frame) 0);
  emit (OpBr {| bt_ip := 0; bt_keep := keep; bt_pop := 0 |});;
  recs ← landing_pads base_height (ct_clauses frame) [];
  cont ← reads (λ t, Ok (next_ip t));
  patch_ip skip_idx Single cont;;
  patch_all (ct_end_patches frame) cont;;
  modify (on_code (λ c, set_ca_handlers (ca_handlers c ++
    [{| hs_start_ip := ct_start_ip frame; hs_end_ip := body_end; hs_clauses := recs |}]) c));;
  modify (λ t, set_tr_reachable (tr_reachable t || ct_end_targeted frame) t);;
  set_height (wrap 32 (base_height + ct_result_count frame)).
Definition do_end : Tr () :=
  clear_fusable;;
  top ← reads (last_frame "end without frame");
  if bool_decide (ct_kind top = KTryTable) && ct_reachable_on_entry top then end_try_table else
  frame ← pop_ctrl "end without frame";
  end_ip ← reads (λ t, Ok (next_ip t));
  match ct_else_patch frame with
  | Some idx => patch_ip idx Single end_ip
  | None => mret tt
  end;;
  patch_all (ct_end_patches frame) end_ip;;
  modify (λ t, set_tr_reachable (if bool_decide (ct_kind frame = KLoop) then tr_reachable t
    else tr_reachable t || ct_end_targeted frame || bool_decide (is_Some (ct_else_patch frame))) t);;
  set_height (wrap 32 (ct_base_height frame + ct_result_count frame)).

Definition tr_throw (tag_index : Z) : Tr () := emit (OpThrow tag_index);; dead.
Definition tr_throw_ref : Tr () := emit OpThrowRef;; dead.
Definition tr_br_on_null (depth : Z) : Tr () :=
  tr_pop 1;;
  '(target, frame) ← reads (branch_target depth);
  emit_branch (OpBrOnNull target) frame;;
  tr_push 1.
Definition tr_br_on_non_null (depth : Z) : Tr () :=
  '(target, frame) ← reads (branch_target depth);
  emit_branch (OpBrOnNonNull target) frame;;
  tr_pop 1.
Definition tr_br_on_cast (depth : Z) (ty : IrHeap) (nullable on_fail : bool) : Tr () :=
  '(bt, frame) ← reads (branch_target depth);
  pool ← push_edge bt;
  let target := Z.lor pool (if nullable then NULLABLE_BIT else 0) in
  emit_branch (if on_fail then OpBrOnCastFail ty target else OpBrOnCast ty target) frame.
End translate.
