(* ===== verification/Lowering.v ===== *)
(** * Lowering: one method per operator, and the driver (src/src/module/compile/)

    The visitor methods of the translator by file, [ValidateThenLower] in front of them,
    and [translate_function], which appends one function to the module-wide arenas. *)
From S2P Require Import Prelude Keep Types Layout Codec Op Entity Compile.
Open Scope Z_scope.

(** ** The tables (visit.rs) *)

(** The helper a table row names. *)
Inductive Helper := HUnop | HBinop | HStore | HConstop | HTernary | HEmit.
Definition run_helper (h : Helper) (op : Op) : Tr () :=
  match h with
  | HUnop => unop op | HBinop => binop op | HStore => store op | HConstop => constop op
  | HTernary => ternary op | HEmit => emit op
  end.
(** [if self.reachable { .. }] *)
Definition when_reachable (m : Tr ()) : Tr () :=
  t ← get; if tr_reachable t then m else mret tt.
Definition lower_nullary (row : Helper * Op) : Tr () := when_reachable (run_helper row.1 row.2).
Definition lower_memarg (row : Helper * (MemArg → Op)) (arg : WpMemArg) : Tr () :=
  when_reachable (m ← memarg arg; run_helper row.1 (row.2 m)).

(** *** numeric.rs *)
Inductive NumericVisit : Type :=
  | VI32Eqz | VI32Eq | VI32Ne | VI32LtS | VI32LtU | VI32GtS | VI32GtU | VI32LeS | VI32LeU | VI32GeS | VI32GeU
  | VI32Clz | VI32Ctz | VI32Popcnt | VI32Add | VI32Sub | VI32Mul | VI32DivS | VI32DivU | VI32RemS | VI32RemU
  | VI32And | VI32Or | VI32Xor | VI32Shl | VI32ShrS | VI32ShrU | VI32Rotl | VI32Rotr | VI64Eqz | VI64Eq
  | VI64Ne | VI64LtS | VI64LtU | VI64GtS | VI64GtU | VI64LeS | VI64LeU | VI64GeS | VI64GeU | VI64Clz
  | VI64Ctz | VI64Popcnt | VI64Add | VI64Sub | VI64Mul | VI64DivS | VI64DivU | VI64RemS | VI64RemU | VI64And
  | VI64Or | VI64Xor | VI64Shl | VI64ShrS | VI64ShrU | VI64Rotl | VI64Rotr | VF32Eq | VF32Ne | VF32Lt
  | VF32Gt | VF32Le | VF32Ge | VF32Abs | VF32Neg | VF32Ceil | VF32Floor | VF32Trunc | VF32Nearest | VF32Sqrt
  | VF32Add | VF32Sub | VF32Mul | VF32Div | VF32Min | VF32Max | VF32Copysign | VF64Eq | VF64Ne | VF64Lt
  | VF64Gt | VF64Le | VF64Ge | VF64Abs | VF64Neg | VF64Ceil | VF64Floor | VF64Trunc | VF64Nearest | VF64Sqrt
  | VF64Add | VF64Sub | VF64Mul | VF64Div | VF64Min | VF64Max | VF64Copysign | VI32WrapI64 | VI32TruncF32S
  | VI32TruncF32U | VI32TruncF64S | VI32TruncF64U | VI64ExtendI32S | VI64ExtendI32U | VI64TruncF32S
  | VI64TruncF32U | VI64TruncF64S | VI64TruncF64U | VF32ConvertI32S | VF32ConvertI32U | VF32ConvertI64S
  | VF32ConvertI64U | VF32DemoteF64 | VF64ConvertI32S | VF64ConvertI32U | VF64ConvertI64S | VF64ConvertI64U
  | VF64PromoteF32 | VI32ReinterpretF32 | VI64ReinterpretF64 | VF32ReinterpretI32 | VF64ReinterpretI64
  | VI32Extend8S | VI32Extend16S | VI64Extend8S | VI64Extend16S | VI64Extend32S | VI32TruncSatF32S
  | VI32TruncSatF32U | VI32TruncSatF64S | VI32TruncSatF64U | VI64TruncSatF32S | VI64TruncSatF32U
  | VI64TruncSatF64S | VI64TruncSatF64U | VNop.
Definition numeric_lowering (v : NumericVisit) : Helper * Op :=
  match v with
  | VI32Eqz => (HUnop, OpI32Eqz) | VI32Eq => (HBinop, OpI32Eq) | VI32Ne => (HBinop, OpI32Ne)
  | VI32LtS => (HBinop, OpI32LtS) | VI32LtU => (HBinop, OpI32LtU) | VI32GtS => (HBinop, OpI32GtS)
  | VI32GtU => (HBinop, OpI32GtU) | VI32LeS => (HBinop, OpI32LeS) | VI32LeU => (HBinop, OpI32LeU)
  | VI32GeS => (HBinop, OpI32GeS) | VI32GeU => (HBinop, OpI32GeU) | VI32Clz => (HUnop, OpI32Clz)
  | VI32Ctz => (HUnop, OpI32Ctz) | VI32Popcnt => (HUnop, OpI32Popcnt) | VI32Add => (HBinop, OpI32Add)
  | VI32Sub => (HBinop, OpI32Sub) | VI32Mul => (HBinop, OpI32Mul) | VI32DivS => (HBinop, OpI32DivS)
  | VI32DivU => (HBinop, OpI32DivU) | VI32RemS => (HBinop, OpI32RemS) | VI32RemU => (HBinop, OpI32RemU)
  | VI32And => (HBinop, OpI32And) | VI32Or => (HBinop, OpI32Or) | VI32Xor => (HBinop, OpI32Xor)
  | VI32Shl => (HBinop, OpI32Shl) | VI32ShrS => (HBinop, OpI32ShrS) | VI32ShrU => (HBinop, OpI32ShrU)
  | VI32Rotl => (HBinop, OpI32Rotl) | VI32Rotr => (HBinop, OpI32Rotr) | VI64Eqz => (HUnop, OpI64Eqz)
  | VI64Eq => (HBinop, OpI64Eq) | VI64Ne => (HBinop, OpI64Ne) | VI64LtS => (HBinop, OpI64LtS)
  | VI64LtU => (HBinop, OpI64LtU) | VI64GtS => (HBinop, OpI64GtS) | VI64GtU => (HBinop, OpI64GtU)
  | VI64LeS => (HBinop, OpI64LeS) | VI64LeU => (HBinop, OpI64LeU) | VI64GeS => (HBinop, OpI64GeS)
  | VI64GeU => (HBinop, OpI64GeU) | VI64Clz => (HUnop, OpI64Clz) | VI64Ctz => (HUnop, OpI64Ctz)
  | VI64Popcnt => (HUnop, OpI64Popcnt) | VI64Add => (HBinop, OpI64Add) | VI64Sub => (HBinop, OpI64Sub)
  | VI64Mul => (HBinop, OpI64Mul) | VI64DivS => (HBinop, OpI64DivS) | VI64DivU => (HBinop, OpI64DivU)
  | VI64RemS => (HBinop, OpI64RemS) | VI64RemU => (HBinop, OpI64RemU) | VI64And => (HBinop, OpI64And)
  | VI64Or => (HBinop, OpI64Or) | VI64Xor => (HBinop, OpI64Xor) | VI64Shl => (HBinop, OpI64Shl)
  | VI64ShrS => (HBinop, OpI64ShrS) | VI64ShrU => (HBinop, OpI64ShrU) | VI64Rotl => (HBinop, OpI64Rotl)
  | VI64Rotr => (HBinop, OpI64Rotr) | VF32Eq => (HBinop, OpF32Eq) | VF32Ne => (HBinop, OpF32Ne)
  | VF32Lt => (HBinop, OpF32Lt) | VF32Gt => (HBinop, OpF32Gt) | VF32Le => (HBinop, OpF32Le)
  | VF32Ge => (HBinop, OpF32Ge) | VF32Abs => (HUnop, OpF32Abs) | VF32Neg => (HUnop, OpF32Neg)
  | VF32Ceil => (HUnop, OpF32Ceil) | VF32Floor => (HUnop, OpF32Floor) | VF32Trunc => (HUnop, OpF32Trunc)
  | VF32Nearest => (HUnop, OpF32Nearest) | VF32Sqrt => (HUnop, OpF32Sqrt) | VF32Add => (HBinop, OpF32Add)
  | VF32Sub => (HBinop, OpF32Sub) | VF32Mul => (HBinop, OpF32Mul) | VF32Div => (HBinop, OpF32Div)
  | VF32Min => (HBinop, OpF32Min) | VF32Max => (HBinop, OpF32Max) | VF32Copysign => (HBinop, OpF32Copysign)
  | VF64Eq => (HBinop, OpF64Eq) | VF64Ne => (HBinop, OpF64Ne) | VF64Lt => (HBinop, OpF64Lt)
  | VF64Gt => (HBinop, OpF64Gt) | VF64Le => (HBinop, OpF64Le) | VF64Ge => (HBinop, OpF64Ge)
  | VF64Abs => (HUnop, OpF64Abs) | VF64Neg => (HUnop, OpF64Neg) | VF64Ceil => (HUnop, OpF64Ceil)
  | VF64Floor => (HUnop, OpF64Floor) | VF64Trunc => (HUnop, OpF64Trunc)
  | VF64Nearest => (HUnop, OpF64Nearest) | VF64Sqrt => (HUnop, OpF64Sqrt) | VF64Add => (HBinop, OpF64Add)
  | VF64Sub => (HBinop, OpF64Sub) | VF64Mul => (HBinop, OpF64Mul) | VF64Div => (HBinop, OpF64Div)
  | VF64Min => (HBinop, OpF64Min) | VF64Max => (HBinop, OpF64Max) | VF64Copysign => (HBinop, OpF64Copysign)
  | VI32WrapI64 => (HUnop, OpI32WrapI64) | VI32TruncF32S => (HUnop, OpI32TruncF32S)
  | VI32TruncF32U => (HUnop, OpI32TruncF32U) | VI32TruncF64S => (HUnop, OpI32TruncF64S)
  | VI32TruncF64U => (HUnop, OpI32TruncF64U) | VI64ExtendI32S => (HUnop, OpI64ExtendI32S)
  | VI64ExtendI32U => (HUnop, OpI64ExtendI32U) | VI64TruncF32S => (HUnop, OpI64TruncF32S)
  | VI64TruncF32U => (HUnop, OpI64TruncF32U) | VI64TruncF64S => (HUnop, OpI64TruncF64S)
  | VI64TruncF64U => (HUnop, OpI64TruncF64U) | VF32ConvertI32S => (HUnop, OpF32ConvertI32S)
  | VF32ConvertI32U => (HUnop, OpF32ConvertI32U) | VF32ConvertI64S => (HUnop, OpF32ConvertI64S)
  | VF32ConvertI64U => (HUnop, OpF32ConvertI64U) | VF32DemoteF64 => (HUnop, OpF32DemoteF64)
  | VF64ConvertI32S => (HUnop, OpF64ConvertI32S) | VF64ConvertI32U => (HUnop, OpF64ConvertI32U)
  | VF64ConvertI64S => (HUnop, OpF64ConvertI64S) | VF64ConvertI64U => (HUnop, OpF64ConvertI64U)
  | VF64PromoteF32 => (HUnop, OpF64PromoteF32) | VI32ReinterpretF32 => (HUnop, OpI32ReinterpretF32)
  | VI64ReinterpretF64 => (HUnop, OpI64ReinterpretF64) | VF32ReinterpretI32 => (HUnop, OpF32ReinterpretI32)
  | VF64ReinterpretI64 => (HUnop, OpF64ReinterpretI64) | VI32Extend8S => (HUnop, OpI32Extend8S)
  | VI32Extend16S => (HUnop, OpI32Extend16S) | VI64Extend8S => (HUnop, OpI64Extend8S)
  | VI64Extend16S => (HUnop, OpI64Extend16S) | VI64Extend32S => (HUnop, OpI64Extend32S)
  | VI32TruncSatF32S => (HUnop, OpI32TruncSatF32S) | VI32TruncSatF32U => (HUnop, OpI32TruncSatF32U)
  | VI32TruncSatF64S => (HUnop, OpI32TruncSatF64S) | VI32TruncSatF64U => (HUnop, OpI32TruncSatF64U)
  | VI64TruncSatF32S => (HUnop, OpI64TruncSatF32S) | VI64TruncSatF32U => (HUnop, OpI64TruncSatF32U)
  | VI64TruncSatF64S => (HUnop, OpI64TruncSatF64S) | VI64TruncSatF64U => (HUnop, OpI64TruncSatF64U)
  | VNop => (HEmit, OpNop)
  end.

(** *** visit_simd.rs *)
Inductive SimdNullary : Type :=
  | VI8x16Swizzle | VI8x16Splat | VI16x8Splat | VI32x4Splat | VI64x2Splat | VF32x4Splat | VF64x2Splat | VI8x16Eq
  | VI8x16Ne | VI8x16LtS | VI8x16LtU | VI8x16GtS | VI8x16GtU | VI8x16LeS | VI8x16LeU | VI8x16GeS | VI8x16GeU
  | VI16x8Eq | VI16x8Ne | VI16x8LtS | VI16x8LtU | VI16x8GtS | VI16x8GtU | VI16x8LeS | VI16x8LeU | VI16x8GeS
  | VI16x8GeU | VI32x4Eq | VI32x4Ne | VI32x4LtS | VI32x4LtU | VI32x4GtS | VI32x4GtU | VI32x4LeS | VI32x4LeU
  | VI32x4GeS | VI32x4GeU | VI64x2Eq | VI64x2Ne | VI64x2LtS | VI64x2GtS | VI64x2LeS | VI64x2GeS | VF32x4Eq
  | VF32x4Ne | VF32x4Lt | VF32x4Gt | VF32x4Le | VF32x4Ge | VF64x2Eq | VF64x2Ne | VF64x2Lt | VF64x2Gt | VF64x2Le
  | VF64x2Ge | VV128Not | VV128And | VV128AndNot | VV128Or | VV128Xor | VV128Bitselect | VV128AnyTrue | VI8x16Abs
  | VI8x16Neg | VI8x16Popcnt | VI8x16AllTrue | VI8x16Bitmask | VI8x16NarrowI16x8S | VI8x16NarrowI16x8U | VI8x16Shl
  | VI8x16ShrS | VI8x16ShrU | VI8x16Add | VI8x16AddSatS | VI8x16AddSatU | VI8x16Sub | VI8x16SubSatS | VI8x16SubSatU
  | VI8x16MinS | VI8x16MinU | VI8x16MaxS | VI8x16MaxU | VI8x16AvgrU | VI16x8ExtAddPairwiseI8x16S
  | VI16x8ExtAddPairwiseI8x16U | VI16x8Abs | VI16x8Neg | VI16x8Q15MulrSatS | VI16x8AllTrue | VI16x8Bitmask
  | VI16x8NarrowI32x4S | VI16x8NarrowI32x4U | VI16x8ExtendLowI8x16S | VI16x8ExtendHighI8x16S
  | VI16x8ExtendLowI8x16U | VI16x8ExtendHighI8x16U | VI16x8Shl | VI16x8ShrS | VI16x8ShrU | VI16x8Add
  | VI16x8AddSatS | VI16x8AddSatU | VI16x8Sub | VI16x8SubSatS | VI16x8SubSatU | VI16x8Mul | VI16x8MinS | VI16x8MinU
  | VI16x8MaxS | VI16x8MaxU | VI16x8AvgrU | VI16x8ExtMulLowI8x16S | VI16x8ExtMulHighI8x16S | VI16x8ExtMulLowI8x16U
  | VI16x8ExtMulHighI8x16U | VI32x4ExtAddPairwiseI16x8S | VI32x4ExtAddPairwiseI16x8U | VI32x4Abs | VI32x4Neg
  | VI32x4AllTrue | VI32x4Bitmask | VI32x4ExtendLowI16x8S | VI32x4ExtendHighI16x8S | VI32x4ExtendLowI16x8U
  | VI32x4ExtendHighI16x8U | VI32x4Shl | VI32x4ShrS | VI32x4ShrU | VI32x4Add | VI32x4Sub | VI32x4Mul | VI32x4MinS
  | VI32x4MinU | VI32x4MaxS | VI32x4MaxU | VI32x4DotI16x8S | VI32x4ExtMulLowI16x8S | VI32x4ExtMulHighI16x8S
  | VI32x4ExtMulLowI16x8U | VI32x4ExtMulHighI16x8U | VI64x2Abs | VI64x2Neg | VI64x2AllTrue | VI64x2Bitmask
  | VI64x2ExtendLowI32x4S | VI64x2ExtendHighI32x4S | VI64x2ExtendLowI32x4U | VI64x2ExtendHighI32x4U | VI64x2Shl
  | VI64x2ShrS | VI64x2ShrU | VI64x2Add | VI64x2Sub | VI64x2Mul | VI64x2ExtMulLowI32x4S | VI64x2ExtMulHighI32x4S
  | VI64x2ExtMulLowI32x4U | VI64x2ExtMulHighI32x4U | VF32x4Ceil | VF32x4Floor | VF32x4Trunc | VF32x4Nearest
  | VF32x4Abs | VF32x4Neg | VF32x4Sqrt | VF32x4Add | VF32x4Sub | VF32x4Mul | VF32x4Div | VF32x4Min | VF32x4Max
  | VF32x4PMin | VF32x4PMax | VF64x2Ceil | VF64x2Floor | VF64x2Trunc | VF64x2Nearest | VF64x2Abs | VF64x2Neg
  | VF64x2Sqrt | VF64x2Add | VF64x2Sub | VF64x2Mul | VF64x2Div | VF64x2Min | VF64x2Max | VF64x2PMin | VF64x2PMax
  | VI32x4TruncSatF32x4S | VI32x4TruncSatF32x4U | VF32x4ConvertI32x4S | VF32x4ConvertI32x4U
  | VI32x4TruncSatF64x2SZero | VI32x4TruncSatF64x2UZero | VF64x2ConvertLowI32x4S | VF64x2ConvertLowI32x4U
  | VF32x4DemoteF64x2Zero | VF64x2PromoteLowF32x4 | VI8x16RelaxedSwizzle | VI32x4RelaxedTruncF32x4S
  | VI32x4RelaxedTruncF32x4U | VI32x4RelaxedTruncF64x2SZero | VI32x4RelaxedTruncF64x2UZero | VF32x4RelaxedMadd
  | VF32x4RelaxedNmadd | VF64x2RelaxedMadd | VF64x2RelaxedNmadd | VI8x16RelaxedLaneselect | VI16x8RelaxedLaneselect
  | VI32x4RelaxedLaneselect | VI64x2RelaxedLaneselect | VF32x4RelaxedMin | VF32x4RelaxedMax | VF64x2RelaxedMin
  | VF64x2RelaxedMax | VI16x8RelaxedQ15mulrS | VI16x8RelaxedDotI8x16I7x16S | VI32x4RelaxedDotI8x16I7x16AddS.
Definition simd_nullary_lowering (v : SimdNullary) : Helper * (SimdOp) :=
  match v with
  | VI8x16Swizzle => (HBinop, SI8x16Swizzle) | VI8x16Splat => (HUnop, SI8x16Splat)
  | VI16x8Splat => (HUnop, SI16x8Splat) | VI32x4Splat => (HUnop, SI32x4Splat) | VI64x2Splat => (HUnop, SI64x2Splat)
  | VF32x4Splat => (HUnop, SF32x4Splat) | VF64x2Splat => (HUnop, SF64x2Splat) | VI8x16Eq => (HBinop, SI8x16Eq)
  | VI8x16Ne => (HBinop, SI8x16Ne) | VI8x16LtS => (HBinop, SI8x16LtS) | VI8x16LtU => (HBinop, SI8x16LtU)
  | VI8x16GtS => (HBinop, SI8x16GtS) | VI8x16GtU => (HBinop, SI8x16GtU) | VI8x16LeS => (HBinop, SI8x16LeS)
  | VI8x16LeU => (HBinop, SI8x16LeU) | VI8x16GeS => (HBinop, SI8x16GeS) | VI8x16GeU => (HBinop, SI8x16GeU)
  | VI16x8Eq => (HBinop, SI16x8Eq) | VI16x8Ne => (HBinop, SI16x8Ne) | VI16x8LtS => (HBinop, SI16x8LtS)
  | VI16x8LtU => (HBinop, SI16x8LtU) | VI16x8GtS => (HBinop, SI16x8GtS) | VI16x8GtU => (HBinop, SI16x8GtU)
  | VI16x8LeS => (HBinop, SI16x8LeS) | VI16x8LeU => (HBinop, SI16x8LeU) | VI16x8GeS => (HBinop, SI16x8GeS)
  | VI16x8GeU => (HBinop, SI16x8GeU) | VI32x4Eq => (HBinop, SI32x4Eq) | VI32x4Ne => (HBinop, SI32x4Ne)
  | VI32x4LtS => (HBinop, SI32x4LtS) | VI32x4LtU => (HBinop, SI32x4LtU) | VI32x4GtS => (HBinop, SI32x4GtS)
  | VI32x4GtU => (HBinop, SI32x4GtU) | VI32x4LeS => (HBinop, SI32x4LeS) | VI32x4LeU => (HBinop, SI32x4LeU)
  | VI32x4GeS => (HBinop, SI32x4GeS) | VI32x4GeU => (HBinop, SI32x4GeU) | VI64x2Eq => (HBinop, SI64x2Eq)
  | VI64x2Ne => (HBinop, SI64x2Ne) | VI64x2LtS => (HBinop, SI64x2LtS) | VI64x2GtS => (HBinop, SI64x2GtS)
  | VI64x2LeS => (HBinop, SI64x2LeS) | VI64x2GeS => (HBinop, SI64x2GeS) | VF32x4Eq => (HBinop, SF32x4Eq)
  | VF32x4Ne => (HBinop, SF32x4Ne) | VF32x4Lt => (HBinop, SF32x4Lt) | VF32x4Gt => (HBinop, SF32x4Gt)
  | VF32x4Le => (HBinop, SF32x4Le) | VF32x4Ge => (HBinop, SF32x4Ge) | VF64x2Eq => (HBinop, SF64x2Eq)
  | VF64x2Ne => (HBinop, SF64x2Ne) | VF64x2Lt => (HBinop, SF64x2Lt) | VF64x2Gt => (HBinop, SF64x2Gt)
  | VF64x2Le => (HBinop, SF64x2Le) | VF64x2Ge => (HBinop, SF64x2Ge) | VV128Not => (HUnop, SV128Not)
  | VV128And => (HBinop, SV128And) | VV128AndNot => (HBinop, SV128AndNot) | VV128Or => (HBinop, SV128Or)
  | VV128Xor => (HBinop, SV128Xor) | VV128Bitselect => (HTernary, SV128Bitselect)
  | VV128AnyTrue => (HUnop, SV128AnyTrue) | VI8x16Abs => (HUnop, SI8x16Abs) | VI8x16Neg => (HUnop, SI8x16Neg)
  | VI8x16Popcnt => (HUnop, SI8x16Popcnt) | VI8x16AllTrue => (HUnop, SI8x16AllTrue)
  | VI8x16Bitmask => (HUnop, SI8x16Bitmask) | VI8x16NarrowI16x8S => (HBinop, SI8x16NarrowI16x8S)
  | VI8x16NarrowI16x8U => (HBinop, SI8x16NarrowI16x8U) | VI8x16Shl => (HBinop, SI8x16Shl)
  | VI8x16ShrS => (HBinop, SI8x16ShrS) | VI8x16ShrU => (HBinop, SI8x16ShrU) | VI8x16Add => (HBinop, SI8x16Add)
  | VI8x16AddSatS => (HBinop, SI8x16AddSatS) | VI8x16AddSatU => (HBinop, SI8x16AddSatU)
  | VI8x16Sub => (HBinop, SI8x16Sub) | VI8x16SubSatS => (HBinop, SI8x16SubSatS)
  | VI8x16SubSatU => (HBinop, SI8x16SubSatU) | VI8x16MinS => (HBinop, SI8x16MinS)
  | VI8x16MinU => (HBinop, SI8x16MinU) | VI8x16MaxS => (HBinop, SI8x16MaxS) | VI8x16MaxU => (HBinop, SI8x16MaxU)
  | VI8x16AvgrU => (HBinop, SI8x16AvgrU) | VI16x8ExtAddPairwiseI8x16S => (HUnop, SI16x8ExtAddPairwiseI8x16S)
  | VI16x8ExtAddPairwiseI8x16U => (HUnop, SI16x8ExtAddPairwiseI8x16U) | VI16x8Abs => (HUnop, SI16x8Abs)
  | VI16x8Neg => (HUnop, SI16x8Neg) | VI16x8Q15MulrSatS => (HBinop, SI16x8Q15MulrSatS)
  | VI16x8AllTrue => (HUnop, SI16x8AllTrue) | VI16x8Bitmask => (HUnop, SI16x8Bitmask)
  | VI16x8NarrowI32x4S => (HBinop, SI16x8NarrowI32x4S) | VI16x8NarrowI32x4U => (HBinop, SI16x8NarrowI32x4U)
  | VI16x8ExtendLowI8x16S => (HUnop, SI16x8ExtendLowI8x16S)
  | VI16x8ExtendHighI8x16S => (HUnop, SI16x8ExtendHighI8x16S)
  | VI16x8ExtendLowI8x16U => (HUnop, SI16x8ExtendLowI8x16U)
  | VI16x8ExtendHighI8x16U => (HUnop, SI16x8ExtendHighI8x16U) | VI16x8Shl => (HBinop, SI16x8Shl)
  | VI16x8ShrS => (HBinop, SI16x8ShrS) | VI16x8ShrU => (HBinop, SI16x8ShrU) | VI16x8Add => (HBinop, SI16x8Add)
  | VI16x8AddSatS => (HBinop, SI16x8AddSatS) | VI16x8AddSatU => (HBinop, SI16x8AddSatU)
  | VI16x8Sub => (HBinop, SI16x8Sub) | VI16x8SubSatS => (HBinop, SI16x8SubSatS)
  | VI16x8SubSatU => (HBinop, SI16x8SubSatU) | VI16x8Mul => (HBinop, SI16x8Mul)
  | VI16x8MinS => (HBinop, SI16x8MinS) | VI16x8MinU => (HBinop, SI16x8MinU) | VI16x8MaxS => (HBinop, SI16x8MaxS)
  | VI16x8MaxU => (HBinop, SI16x8MaxU) | VI16x8AvgrU => (HBinop, SI16x8AvgrU)
  | VI16x8ExtMulLowI8x16S => (HBinop, SI16x8ExtMulLowI8x16S)
  | VI16x8ExtMulHighI8x16S => (HBinop, SI16x8ExtMulHighI8x16S)
  | VI16x8ExtMulLowI8x16U => (HBinop, SI16x8ExtMulLowI8x16U)
  | VI16x8ExtMulHighI8x16U => (HBinop, SI16x8ExtMulHighI8x16U)
  | VI32x4ExtAddPairwiseI16x8S => (HUnop, SI32x4ExtAddPairwiseI16x8S)
  | VI32x4ExtAddPairwiseI16x8U => (HUnop, SI32x4ExtAddPairwiseI16x8U) | VI32x4Abs => (HUnop, SI32x4Abs)
  | VI32x4Neg => (HUnop, SI32x4Neg) | VI32x4AllTrue => (HUnop, SI32x4AllTrue)
  | VI32x4Bitmask => (HUnop, SI32x4Bitmask) | VI32x4ExtendLowI16x8S => (HUnop, SI32x4ExtendLowI16x8S)
  | VI32x4ExtendHighI16x8S => (HUnop, SI32x4ExtendHighI16x8S)
  | VI32x4ExtendLowI16x8U => (HUnop, SI32x4ExtendLowI16x8U)
  | VI32x4ExtendHighI16x8U => (HUnop, SI32x4ExtendHighI16x8U) | VI32x4Shl => (HBinop, SI32x4Shl)
  | VI32x4ShrS => (HBinop, SI32x4ShrS) | VI32x4ShrU => (HBinop, SI32x4ShrU) | VI32x4Add => (HBinop, SI32x4Add)
  | VI32x4Sub => (HBinop, SI32x4Sub) | VI32x4Mul => (HBinop, SI32x4Mul) | VI32x4MinS => (HBinop, SI32x4MinS)
  | VI32x4MinU => (HBinop, SI32x4MinU) | VI32x4MaxS => (HBinop, SI32x4MaxS) | VI32x4MaxU => (HBinop, SI32x4MaxU)
  | VI32x4DotI16x8S => (HBinop, SI32x4DotI16x8S) | VI32x4ExtMulLowI16x8S => (HBinop, SI32x4ExtMulLowI16x8S)
  | VI32x4ExtMulHighI16x8S => (HBinop, SI32x4ExtMulHighI16x8S)
  | VI32x4ExtMulLowI16x8U => (HBinop, SI32x4ExtMulLowI16x8U)
  | VI32x4ExtMulHighI16x8U => (HBinop, SI32x4ExtMulHighI16x8U) | VI64x2Abs => (HUnop, SI64x2Abs)
  | VI64x2Neg => (HUnop, SI64x2Neg) | VI64x2AllTrue => (HUnop, SI64x2AllTrue)
  | VI64x2Bitmask => (HUnop, SI64x2Bitmask) | VI64x2ExtendLowI32x4S => (HUnop, SI64x2ExtendLowI32x4S)
  | VI64x2ExtendHighI32x4S => (HUnop, SI64x2ExtendHighI32x4S)
  | VI64x2ExtendLowI32x4U => (HUnop, SI64x2ExtendLowI32x4U)
  | VI64x2ExtendHighI32x4U => (HUnop, SI64x2ExtendHighI32x4U) | VI64x2Shl => (HBinop, SI64x2Shl)
  | VI64x2ShrS => (HBinop, SI64x2ShrS) | VI64x2ShrU => (HBinop, SI64x2ShrU) | VI64x2Add => (HBinop, SI64x2Add)
  | VI64x2Sub => (HBinop, SI64x2Sub) | VI64x2Mul => (HBinop, SI64x2Mul)
  | VI64x2ExtMulLowI32x4S => (HBinop, SI64x2ExtMulLowI32x4S)
  | VI64x2ExtMulHighI32x4S => (HBinop, SI64x2ExtMulHighI32x4S)
  | VI64x2ExtMulLowI32x4U => (HBinop, SI64x2ExtMulLowI32x4U)
  | VI64x2ExtMulHighI32x4U => (HBinop, SI64x2ExtMulHighI32x4U) | VF32x4Ceil => (HUnop, SF32x4Ceil)
  | VF32x4Floor => (HUnop, SF32x4Floor) | VF32x4Trunc => (HUnop, SF32x4Trunc)
  | VF32x4Nearest => (HUnop, SF32x4Nearest) | VF32x4Abs => (HUnop, SF32x4Abs) | VF32x4Neg => (HUnop, SF32x4Neg)
  | VF32x4Sqrt => (HUnop, SF32x4Sqrt) | VF32x4Add => (HBinop, SF32x4Add) | VF32x4Sub => (HBinop, SF32x4Sub)
  | VF32x4Mul => (HBinop, SF32x4Mul) | VF32x4Div => (HBinop, SF32x4Div) | VF32x4Min => (HBinop, SF32x4Min)
  | VF32x4Max => (HBinop, SF32x4Max) | VF32x4PMin => (HBinop, SF32x4PMin) | VF32x4PMax => (HBinop, SF32x4PMax)
  | VF64x2Ceil => (HUnop, SF64x2Ceil) | VF64x2Floor => (HUnop, SF64x2Floor) | VF64x2Trunc => (HUnop, SF64x2Trunc)
  | VF64x2Nearest => (HUnop, SF64x2Nearest) | VF64x2Abs => (HUnop, SF64x2Abs) | VF64x2Neg => (HUnop, SF64x2Neg)
  | VF64x2Sqrt => (HUnop, SF64x2Sqrt) | VF64x2Add => (HBinop, SF64x2Add) | VF64x2Sub => (HBinop, SF64x2Sub)
  | VF64x2Mul => (HBinop, SF64x2Mul) | VF64x2Div => (HBinop, SF64x2Div) | VF64x2Min => (HBinop, SF64x2Min)
  | VF64x2Max => (HBinop, SF64x2Max) | VF64x2PMin => (HBinop, SF64x2PMin) | VF64x2PMax => (HBinop, SF64x2PMax)
  | VI32x4TruncSatF32x4S => (HUnop, SI32x4TruncSatF32x4S) | VI32x4TruncSatF32x4U => (HUnop, SI32x4TruncSatF32x4U)
  | VF32x4ConvertI32x4S => (HUnop, SF32x4ConvertI32x4S) | VF32x4ConvertI32x4U => (HUnop, SF32x4ConvertI32x4U)
  | VI32x4TruncSatF64x2SZero => (HUnop, SI32x4TruncSatF64x2SZero)
  | VI32x4TruncSatF64x2UZero => (HUnop, SI32x4TruncSatF64x2UZero)
  | VF64x2ConvertLowI32x4S => (HUnop, SF64x2ConvertLowI32x4S)
  | VF64x2ConvertLowI32x4U => (HUnop, SF64x2ConvertLowI32x4U)
  | VF32x4DemoteF64x2Zero => (HUnop, SF32x4DemoteF64x2Zero)
  | VF64x2PromoteLowF32x4 => (HUnop, SF64x2PromoteLowF32x4)
  | VI8x16RelaxedSwizzle => (HBinop, SI8x16RelaxedSwizzle)
  | VI32x4RelaxedTruncF32x4S => (HUnop, SI32x4RelaxedTruncF32x4S)
  | VI32x4RelaxedTruncF32x4U => (HUnop, SI32x4RelaxedTruncF32x4U)
  | VI32x4RelaxedTruncF64x2SZero => (HUnop, SI32x4RelaxedTruncF64x2SZero)
  | VI32x4RelaxedTruncF64x2UZero => (HUnop, SI32x4RelaxedTruncF64x2UZero)
  | VF32x4RelaxedMadd => (HTernary, SF32x4RelaxedMadd) | VF32x4RelaxedNmadd => (HTernary, SF32x4RelaxedNmadd)
  | VF64x2RelaxedMadd => (HTernary, SF64x2RelaxedMadd) | VF64x2RelaxedNmadd => (HTernary, SF64x2RelaxedNmadd)
  | VI8x16RelaxedLaneselect => (HTernary, SI8x16RelaxedLaneselect)
  | VI16x8RelaxedLaneselect => (HTernary, SI16x8RelaxedLaneselect)
  | VI32x4RelaxedLaneselect => (HTernary, SI32x4RelaxedLaneselect)
  | VI64x2RelaxedLaneselect => (HTernary, SI64x2RelaxedLaneselect) | VF32x4RelaxedMin => (HBinop, SF32x4RelaxedMin)
  | VF32x4RelaxedMax => (HBinop, SF32x4RelaxedMax) | VF64x2RelaxedMin => (HBinop, SF64x2RelaxedMin)
  | VF64x2RelaxedMax => (HBinop, SF64x2RelaxedMax) | VI16x8RelaxedQ15mulrS => (HBinop, SI16x8RelaxedQ15mulrS)
  | VI16x8RelaxedDotI8x16I7x16S => (HBinop, SI16x8RelaxedDotI8x16I7x16S)
  | VI32x4RelaxedDotI8x16I7x16AddS => (HTernary, SI32x4RelaxedDotI8x16I7x16AddS)
  end.
Inductive SimdLane : Type :=
  | VI8x16ExtractLaneS | VI8x16ExtractLaneU | VI8x16ReplaceLane | VI16x8ExtractLaneS | VI16x8ExtractLaneU
  | VI16x8ReplaceLane | VI32x4ExtractLane | VI32x4ReplaceLane | VI64x2ExtractLane | VI64x2ReplaceLane
  | VF32x4ExtractLane | VF32x4ReplaceLane | VF64x2ExtractLane | VF64x2ReplaceLane.
Definition simd_lane_lowering (v : SimdLane) : Helper * (Z → SimdOp) :=
  match v with
  | VI8x16ExtractLaneS => (HUnop, SI8x16ExtractLaneS) | VI8x16ExtractLaneU => (HUnop, SI8x16ExtractLaneU)
  | VI8x16ReplaceLane => (HBinop, SI8x16ReplaceLane) | VI16x8ExtractLaneS => (HUnop, SI16x8ExtractLaneS)
  | VI16x8ExtractLaneU => (HUnop, SI16x8ExtractLaneU) | VI16x8ReplaceLane => (HBinop, SI16x8ReplaceLane)
  | VI32x4ExtractLane => (HUnop, SI32x4ExtractLane) | VI32x4ReplaceLane => (HBinop, SI32x4ReplaceLane)
  | VI64x2ExtractLane => (HUnop, SI64x2ExtractLane) | VI64x2ReplaceLane => (HBinop, SI64x2ReplaceLane)
  | VF32x4ExtractLane => (HUnop, SF32x4ExtractLane) | VF32x4ReplaceLane => (HBinop, SF32x4ReplaceLane)
  | VF64x2ExtractLane => (HUnop, SF64x2ExtractLane) | VF64x2ReplaceLane => (HBinop, SF64x2ReplaceLane)
  end.
Inductive SimdMemArg : Type :=
  | VV128Load | VV128Load8x8S | VV128Load8x8U | VV128Load16x4S | VV128Load16x4U | VV128Load32x2S | VV128Load32x2U
  | VV128Load8Splat | VV128Load16Splat | VV128Load32Splat | VV128Load64Splat | VV128Load32Zero | VV128Load64Zero
  | VV128Store.
Definition simd_memarg_lowering (v : SimdMemArg) : Helper * (MemArg → SimdOp) :=
  match v with
  | VV128Load => (HUnop, SV128Load) | VV128Load8x8S => (HUnop, SV128Load8x8S)
  | VV128Load8x8U => (HUnop, SV128Load8x8U) | VV128Load16x4S => (HUnop, SV128Load16x4S)
  | VV128Load16x4U => (HUnop, SV128Load16x4U) | VV128Load32x2S => (HUnop, SV128Load32x2S)
  | VV128Load32x2U => (HUnop, SV128Load32x2U) | VV128Load8Splat => (HUnop, SV128Load8Splat)
  | VV128Load16Splat => (HUnop, SV128Load16Splat) | VV128Load32Splat => (HUnop, SV128Load32Splat)
  | VV128Load64Splat => (HUnop, SV128Load64Splat) | VV128Load32Zero => (HUnop, SV128Load32Zero)
  | VV128Load64Zero => (HUnop, SV128Load64Zero) | VV128Store => (HStore, SV128Store)
  end.
Inductive SimdMemArgLane : Type :=
  | VV128Load8Lane | VV128Load16Lane | VV128Load32Lane | VV128Load64Lane | VV128Store8Lane | VV128Store16Lane
  | VV128Store32Lane | VV128Store64Lane.
Definition simd_memarg_lane_lowering (v : SimdMemArgLane) : Helper * (MemArg → Z → SimdOp) :=
  match v with
  | VV128Load8Lane => (HBinop, SV128Load8Lane) | VV128Load16Lane => (HBinop, SV128Load16Lane)
  | VV128Load32Lane => (HBinop, SV128Load32Lane) | VV128Load64Lane => (HBinop, SV128Load64Lane)
  | VV128Store8Lane => (HStore, SV128Store8Lane) | VV128Store16Lane => (HStore, SV128Store16Lane)
  | VV128Store32Lane => (HStore, SV128Store32Lane) | VV128Store64Lane => (HStore, SV128Store64Lane)
  end.
Inductive SimdVisit : Type :=
  | VSimd (v : SimdNullary) | VSimdLane (v : SimdLane) (lane : Z) | VSimdMemArg (v : SimdMemArg) (arg : WpMemArg)
  | VSimdMemArgLane (v : SimdMemArgLane) (arg : WpMemArg) (lane : Z)
  | VV128Const (value : list Z) | VI8x16Shuffle (lanes : list Z).
Definition visit_simd (v : SimdVisit) : Tr () :=
  match v with
  | VSimd v => let row := simd_nullary_lowering v in when_reachable (run_helper row.1 (OpSimd row.2))
  | VSimdLane v lane => let row := simd_lane_lowering v in when_reachable (run_helper row.1 (OpSimd (row.2 lane)))
  | VSimdMemArg v arg =>
      let row := simd_memarg_lowering v in when_reachable (m ← memarg arg; run_helper row.1 (OpSimd (row.2 m)))
  | VSimdMemArgLane v arg lane =>
      let row := simd_memarg_lane_lowering v in when_reachable (m ← memarg arg; run_helper row.1 (OpSimd (row.2 m lane)))
  | VV128Const value => when_reachable (constop (OpSimd (SV128Const (from_le_bytes value))))
  | VI8x16Shuffle lanes => when_reachable (binop (OpSimd (SI8x16Shuffle lanes)))
  end.

(** *** memory.rs *)
Inductive MemArgVisit : Type :=
  | VI32Load | VI64Load | VF32Load | VF64Load | VI32Load8S | VI32Load8U | VI32Load16S | VI32Load16U
  | VI64Load8S | VI64Load8U | VI64Load16S | VI64Load16U | VI64Load32S | VI64Load32U | VI32Store | VI64Store
  | VF32Store | VF64Store | VI32Store8 | VI32Store16 | VI64Store8 | VI64Store16 | VI64Store32.
Definition memarg_lowering (v : MemArgVisit) : Helper * (MemArg → Op) :=
  match v with
  | VI32Load => (HUnop, OpI32Load) | VI64Load => (HUnop, OpI64Load) | VF32Load => (HUnop, OpF32Load)
  | VF64Load => (HUnop, OpF64Load) | VI32Load8S => (HUnop, OpI32Load8S) | VI32Load8U => (HUnop, OpI32Load8U)
  | VI32Load16S => (HUnop, OpI32Load16S) | VI32Load16U => (HUnop, OpI32Load16U)
  | VI64Load8S => (HUnop, OpI64Load8S) | VI64Load8U => (HUnop, OpI64Load8U)
  | VI64Load16S => (HUnop, OpI64Load16S) | VI64Load16U => (HUnop, OpI64Load16U)
  | VI64Load32S => (HUnop, OpI64Load32S) | VI64Load32U => (HUnop, OpI64Load32U)
  | VI32Store => (HStore, OpI32Store) | VI64Store => (HStore, OpI64Store) | VF32Store => (HStore, OpF32Store)
  | VF64Store => (HStore, OpF64Store) | VI32Store8 => (HStore, OpI32Store8)
  | VI32Store16 => (HStore, OpI32Store16) | VI64Store8 => (HStore, OpI64Store8)
  | VI64Store16 => (HStore, OpI64Store16) | VI64Store32 => (HStore, OpI64Store32)
  end.
Inductive MemoryVisit :=
  | VMemorySize (mem : Z) | VMemoryGrow (mem : Z) | VMemoryInit (data_index mem : Z) | VDataDrop (data_index : Z)
  | VMemoryCopy (dst_mem src_mem : Z) | VMemoryFill (mem : Z).
Definition visit_memory (v : MemoryVisit) : Tr () := when_reachable
  match v with
  | VMemorySize mem => constop (OpMemorySize mem)
  | VMemoryGrow mem => unop (OpMemoryGrow mem)
  | VMemoryInit data_index mem => tr_pop 3;; emit (OpMemoryInit data_index mem)
  | VDataDrop data_index => emit (OpDataDrop data_index)
  | VMemoryCopy dst_mem src_mem => tr_pop 3;; emit (OpMemoryCopy dst_mem src_mem)
  | VMemoryFill mem => tr_pop 3;; emit (OpMemoryFill mem)
  end.

(** *** core.rs *)
Inductive CoreVisit :=
  | VI32Const (value : Z) | VI64Const (value : Z) | VF32Const (bits : Z) | VF64Const (bits : Z)
  | VDrop | VSelect | VTypedSelect (ty : WpVal) | VTypedSelectMulti (tys : list WpVal)
  | VLocalGet (local_index : Z) | VLocalSet (local_index : Z) | VLocalTee (local_index : Z)
  | VGlobalGet (global_index : Z) | VGlobalSet (global_index : Z).
Definition lower_select : Tr () := tr_pop 3;; tr_push 1;; emit OpSelect.
Definition visit_core (v : CoreVisit) : Tr () :=
  match v with
  | VI32Const value => when_reachable (constop (OpI32Const value))
  | VI64Const value => when_reachable (constop (OpI64Const value))
  | VF32Const bits => when_reachable (constop (OpF32Const bits))
  | VF64Const bits => when_reachable (constop (OpF64Const bits))
  | VDrop => when_reachable (tr_pop 1;; emit OpDrop)
  | VSelect => when_reachable lower_select
  | VTypedSelect _ => when_reachable lower_select
  | VTypedSelectMulti _ => fail (EMsg "unsupported operator: typed_select_multi")
  | VLocalGet i => when_reachable (constop (OpLocalGet i))
  | VLocalSet i => when_reachable (tr_pop 1;; emit (OpLocalSet i))
  | VLocalTee i => when_reachable (emit (OpLocalTee i))
  | VGlobalGet i => when_reachable (constop (OpGlobalGet i))
  | VGlobalSet i => when_reachable (tr_pop 1;; emit (OpGlobalSet i))
  end.

(** *** table.rs *)
Inductive TableVisit :=
  | VTableInit (elem_index table : Z) | VTableCopy (dst_table src_table : Z) | VElemDrop (elem_index : Z)
  | VTableGet (table : Z) | VTableSet (table : Z) | VTableSize (table : Z) | VTableGrow (table : Z) | VTableFill (table : Z).
Definition visit_table (v : TableVisit) : Tr () := when_reachable
  match v with
  | VTableInit elem_index table => tr_pop 3;; emit (OpTableInit elem_index table)
  | VTableCopy dst_table src_table => tr_pop 3;; emit (OpTableCopy dst_table src_table)
  | VElemDrop elem_index => emit (OpElemDrop elem_index)
  | VTableGet table => unop (OpTableGet table)
  | VTableSet table => tr_pop 2;; emit (OpTableSet table)
  | VTableSize table => constop (OpTableSize table)
  | VTableGrow table => tr_pop 2;; tr_push 1;; emit (OpTableGrow table)
  | VTableFill table => tr_pop 3;; emit (OpTableFill table)
  end.

(** *** gc.rs, without the context *)
Inductive GcVisit : Type :=
  | VRefEq | VArrayLen | VRefI31 | VI31GetS | VI31GetU | VAnyConvertExtern | VExternConvertAny.
Definition gc_lowering (v : GcVisit) : Helper * Op :=
  match v with
  | VRefEq => (HBinop, OpRefEq) | VArrayLen => (HUnop, OpArrayLen) | VRefI31 => (HUnop, OpRefI31)
  | VI31GetS => (HUnop, OpI31GetS) | VI31GetU => (HUnop, OpI31GetU)
  | VAnyConvertExtern => (HUnop, OpAnyConvertExtern) | VExternConvertAny => (HUnop, OpExternConvertAny)
  end.
Inductive ArrayVisit :=
  | VArrayNew (ty : Z) | VArrayNewDefault (ty : Z) | VArrayNewFixed (ty size : Z) | VArrayNewData (ty data : Z)
  | VArrayNewElem (ty elem : Z) | VArrayGet (ty : Z) | VArrayGetS (ty : Z) | VArrayGetU (ty : Z) | VArraySet (ty : Z)
  | VArrayFill (ty : Z) | VArrayCopy (dst src : Z) | VArrayInitData (ty data : Z) | VArrayInitElem (ty elem : Z).
Definition visit_array (v : ArrayVisit) : Tr () := when_reachable
  match v with
  | VArrayNew ty => tr_pop 2;; constop (OpArrayNew ty)
  | VArrayNewDefault ty => unop (OpArrayNewDefault ty)
  | VArrayNewFixed ty size => tr_pop size;; constop (OpArrayNewFixed ty size)
  | VArrayNewData ty data => tr_pop 2;; constop (OpArrayNewData ty data)
  | VArrayNewElem ty elem => tr_pop 2;; constop (OpArrayNewElem ty elem)
  | VArrayGet ty => tr_pop 2;; constop (OpArrayGet ty)
  | VArrayGetS ty => tr_pop 2;; constop (OpArrayGetS ty)
  | VArrayGetU ty => tr_pop 2;; constop (OpArrayGetU ty)
  | VArraySet ty => tr_pop 3;; emit (OpArraySet ty)
  | VArrayFill ty => tr_pop 4;; emit (OpArrayFill ty)
  | VArrayCopy dst src => tr_pop 5;; emit (OpArrayCopy dst src)
  | VArrayInitData ty data => tr_pop 4;; emit (OpArrayInitData ty data)
  | VArrayInitElem ty elem => tr_pop 4;; emit (OpArrayInitElem ty elem)
  end.

(** ** The methods that read the module's types *)
Section visit.
Context (ctx : CompileCtx).

Definition struct_field_count (ty : Z) : res Z :=
  t ← expect (zget (cc_types ctx) ty) "index out of bounds";
  match mt_body t with
  | CompStruct fields => Ok (len32 fields)
  | _ => Err (EMsg "struct.new on non-struct type")
  end.
Inductive StructVisit :=
  | VStructNew (ty : Z) | VStructNewDefault (ty : Z) | VStructGet (ty field : Z) | VStructGetS (ty field : Z)
  | VStructGetU (ty field : Z) | VStructSet (ty field : Z).
Definition visit_struct (v : StructVisit) : Tr () := when_reachable
  match v with
  | VStructNew ty => n ← lift (struct_field_count ty); tr_pop n;; constop (OpStructNew ty)
  | VStructNewDefault ty => constop (OpStructNewDefault ty)
  | VStructGet ty field => unop (OpStructGet ty field)
  | VStructGetS ty field => unop (OpStructGetS ty field)
  | VStructGetU ty field => unop (OpStructGetU ty field)
  | VStructSet ty field => store (OpStructSet ty field)
  end.
Inductive CastVisit := VRefTestNonNull (hty : WpHeap) | VRefTestNullable (hty : WpHeap) | VRefCastNonNull (hty : WpHeap)
  | VRefCastNullable (hty : WpHeap).
Definition visit_cast (v : CastVisit) : Tr () := when_reachable
  match v with
  | VRefTestNonNull hty => ty ← lift (conv_heaptype (cc_kinds ctx) hty); unop (OpRefTest ty false)
  | VRefTestNullable hty => ty ← lift (conv_heaptype (cc_kinds ctx) hty); unop (OpRefTest ty true)
  | VRefCastNonNull hty => ty ← lift (conv_heaptype (cc_kinds ctx) hty); unop (OpRefCast ty false)
  | VRefCastNullable hty => ty ← lift (conv_heaptype (cc_kinds ctx) hty); unop (OpRefCast ty true)
  end.

(** *** ref_.rs *)
Inductive RefVisit := VRefNull (hty : WpHeap) | VRefFunc (function_index : Z) | VRefIsNull | VRefAsNonNull.
Definition visit_ref (v : RefVisit) : Tr () := when_reachable
  match v with
  | VRefNull hty => ty ← lift (conv_heaptype (cc_kinds ctx) hty); constop (OpRefNull ty)
  | VRefFunc function_index => constop (OpRefFunc function_index)
  | VRefIsNull => unop OpRefIsNull
  | VRefAsNonNull => unop OpRefAsNonNull
  end.

(** *** control/visit.rs *)
Inductive StructuralVisit := VBlock (blockty : BlockType) | VLoop (blockty : BlockType) | VIf (blockty : BlockType)
  | VElse | VEnd | VTryTable (try_table : TryTable).
Definition visit_structural (v : StructuralVisit) : Tr () :=
  match v with
  | VBlock blockty => push_block ctx blockty KBlock
  | VLoop blockty => push_block ctx blockty KLoop
  | VIf blockty => push_if ctx blockty
  | VElse => do_else
  | VEnd => do_end ctx
  | VTryTable try_table => push_try_table ctx try_table
  end.
Inductive ControlVisit :=
  | VBr (depth : Z) | VBrIf (depth : Z) | VBrTable (targets : WpBrTable) | VReturn
  | VCall (function_index : Z) | VCallIndirect (type_index table_index : Z) | VCallRef (type_index : Z)
  | VReturnCall (function_index : Z) | VReturnCallIndirect (type_index table_index : Z) | VReturnCallRef (type_index : Z)
  | VBrOnNull (depth : Z) | VBrOnNonNull (depth : Z)
  | VBrOnCast (depth : Z) (from_ref_type to_ref_type : WpRef) | VBrOnCastFail (depth : Z) (from_ref_type to_ref_type : WpRef)
  | VThrow (tag_index : Z) | VThrowRef | VUnreachable.
Definition visit_control (v : ControlVisit) : Tr () := when_reachable
  match v with
  | VBr depth => tr_br depth
  | VBrIf depth => tr_br_if depth
  | VBrTable targets => tr_br_table targets
  | VReturn => tr_ret
  | VCall function_index => tr_call ctx function_index
  | VCallIndirect type_index table_index => tr_call_indirect ctx type_index table_index
  | VCallRef type_index => tr_call_ref ctx type_index
  | VReturnCall function_index => tr_return_call ctx function_index
  | VReturnCallIndirect type_index table_index => tr_return_call_indirect ctx type_index table_index
  | VReturnCallRef type_index => tr_return_call_ref ctx type_index
  | VBrOnNull depth => tr_br_on_null depth
  | VBrOnNonNull depth => tr_br_on_non_null depth
  | VBrOnCast depth _ to_ref_type =>
      '(ty, nullable) ← lift (ref_target (cc_kinds ctx) to_ref_type); tr_br_on_cast depth ty nullable false
  | VBrOnCastFail depth _ to_ref_type =>
      '(ty, nullable) ← lift (ref_target (cc_kinds ctx) to_ref_type); tr_br_on_cast depth ty nullable true
  | VThrow tag_index => tr_throw tag_index
  | VThrowRef => tr_throw_ref
  | VUnreachable => emit OpUnreachable;; dead
  end.

(** ** The visitor (visit.rs) *)

(** wasmparser's operators, by the method that lowers them. *)
Inductive Operator :=
  | WNumeric (v : NumericVisit) | WMemArg (v : MemArgVisit) (arg : WpMemArg) | WMemory (v : MemoryVisit) | WCore (v : CoreVisit)
  | WTable (v : TableVisit) | WGc (v : GcVisit) | WArray (v : ArrayVisit) | WStruct (v : StructVisit) | WCast (v : CastVisit)
  | WRef (v : RefVisit) | WStructural (v : StructuralVisit) | WControl (v : ControlVisit) | WSimd (v : SimdVisit)
  | WUnsupported (visit : string).
Definition visit (o : Operator) : Tr () :=
  match o with
  | WNumeric v => lower_nullary (numeric_lowering v)
  | WMemArg v arg => lower_memarg (memarg_lowering v) arg
  | WMemory v => visit_memory v
  | WCore v => visit_core v
  | WTable v => visit_table v
  | WGc v => lower_nullary (gc_lowering v)
  | WArray v => visit_array v
  | WStruct v => visit_struct v
  | WCast v => visit_cast v
  | WRef v => visit_ref v
  | WStructural v => visit_structural v
  | WControl v => visit_control v
  | WSimd v => visit_simd v
  | WUnsupported visit => fail (EMsg ("unsupported operator: " +:+ visit))
  end.
End visit.

(** wasmparser's validator of one function body, and its reader of operators.  A body is
    what its readers answer; the reader is told the kind of the innermost open frame. *)
Record FunctionBody (R : Type) : Type := { fb_locals : res (list (res (Z * WpVal))); fb_operators : res R }.
Arguments fb_locals {R}.
Arguments fb_operators {R}.
Class BodyReader (R : Type) := {
  bytes_remaining : R → nat;
  original_position : R → Z;
  read_operator : option BlockKind → R → res (Operator * R);
  finish_expression : option BlockKind → R → res ();
}.
Class OpValidator (R V : Type) := {
  read_locals : FunctionBody R → V → res V;
  validate_op : Z → Operator → V → res V;
}.

Section driver.
Context {R V : Type} `{BodyReader R, OpValidator R V, HostAlloc}.
Context (ctx : CompileCtx).

Definition open_frame_kind (t : Translator) : option BlockKind := ct_kind <$> last (tr_ctrl t).
(** One method of [ValidateThenLower]: the validator has the first word. *)
Definition validate_then_lower (offset : Z) (o : Operator) (fv : V) : Tr V :=
  fv' ← lift (validate_op offset o fv);
  modify (set_tr_cur_offset (wrap 32 offset));;
  visit ctx o;;
  mret fv'.

(** The decoding loop, a turn per operator. *)
Fixpoint translate_body (fuel : nat) (reader : R) (fv : V) : Tr R :=
  if bool_decide (bytes_remaining reader = 0%nat) then mret reader else
  match fuel with
  | O => panic "translate_body: out of fuel"
  | S fuel =>
      '(o, rest) ← reads (λ t, read_operator (open_frame_kind t) reader);
      fv' ← validate_then_lower (original_position reader) o fv;
      translate_body fuel rest fv'
  end.

Fixpoint push_locals (cap : Z) (entries : list (res (Z * WpVal))) : M CodeArenas error () :=
  match entries with
  | [] => mret tt
  | entry :: rest =>
      '(count, ty) ← lift entry;
      vt ← lift (conv_valtype (cc_kinds ctx) ty);
      c ← get;
      let too_many := EMsg "module declares more locals in total than the configured limit" in
      total ← lift (ok_or (checked_add usize_bits (zlen (ca_local_types c)) count) too_many);
      if negb (total <=? cap) then fail too_many else
      if negb (reserve_elems count) then fail (EMsg "out of memory expanding module locals") else
      modify (set_ca_local_types (vec_resize (ca_local_types c) total vt));;
      push_locals cap rest
  end.
Definition expand_locals (body : FunctionBody R) : M CodeArenas error Z :=
  let cap := Z.min (cc_max_expanded_locals ctx) (u_max 32) in
  c ← get;
  entries ← lift (fb_locals body);
  push_locals cap entries;;
  mret (len32 (ca_local_types c)).

Definition span_from (start end_ : Z) : Span := {| sp_start := start; sp_len := wrap 32 (end_ - start) |}.
(** The translator owns the arenas while it runs. *)
Definition with_translator {A} (retain_offsets : bool) (m : Tr A) : M CodeArenas error (A * Translator) := λ c,
  let '(r, t) := m (translator_new c retain_offsets []) in
  (match r with Ok a => Ok (a, t) | Err e => Err e | Panic w => Panic w end, tr_code t).
Definition translate_function (type_idx : Z) (body : FunctionBody R) (fv : V) (retain_offsets : bool) : M CodeArenas error CompiledFunc :=
  '(n_params, n_results) ← lift (signature ctx type_idx);
  fv ← lift (read_locals body fv);
  locals_start ← expand_locals body;
  '(_, t) ← with_translator retain_offsets (
    push_func_frame n_results;;
    reader ← lift (fb_operators body);
    reader ← translate_body (bytes_remaining reader) reader fv;
    reads (λ t, finish_expression (open_frame_kind t) reader));
  match tr_error t with Some error => fail (EInternal error) | None => mret tt end;;
  code ← get;
  let base := tr_base t in
  mret {| cf_ops := span_from (b_ops base) (len32 (ca_ops code)); cf_type_idx := type_idx; cf_n_params := n_params;
          cf_n_results := n_results; cf_local_types := span_from locals_start (len32 (ca_local_types code));
          cf_max_operands := tr_max_operands t; cf_handlers := span_from (b_handlers base) (len32 (ca_handlers code));
          cf_br_tables := span_from (b_br_tables base) (len32 (ca_br_tables code));
          cf_big_memargs := span_from (b_big_memargs base) (len32 (ca_big_memargs code));
          cf_offsets := span_from (b_offsets base) (len32 (ca_offsets code)) |}.
End driver.
