(* ===== verification/Grown.v ===== *)
(** * Grown: what translating never takes back (about Compile.v and Lowering.v)

    No visitor method shortens the instructions or the side table, or forgets an error it
    has latched. *)
From S2P Require Import Prelude Keep Types Layout Codec Op Entity Compile Lowering.
Open Scope Z_scope.

Section grown.
Context (a b : Z) (bad : bool).

Definition grown (t : Translator) : Prop :=
  a ≤ zlen (ca_ops (tr_code t)) ∧ b ≤ zlen (ca_br_tables (tr_code t)) ∧ (bad = true → tr_error t ≠ None).
#[local] Abbreviation ok m := (keeps grown m).

Lemma grown_modify (g : Translator → Translator) :
  (∀ t, zlen (ca_ops (tr_code t)) ≤ zlen (ca_ops (tr_code (g t))) ∧
    zlen (ca_br_tables (tr_code t)) ≤ zlen (ca_br_tables (tr_code (g t))) ∧ (tr_error t ≠ None → tr_error (g t) ≠ None)) →
  ok (modify g : Tr ()).
Proof. intros Hg. apply keeps_modify. intros t (? & ? & ?). destruct (Hg t) as (? & ? & ?). unfold grown. split_and!; [lia..|auto]. Qed.
Ltac grow := apply grown_modify; intros t; cbn; rewrite ?zlen_app; split_and!; try done; try apply Z.le_refl.

Lemma grown_emit op : ok (emit op).
Proof.
  unfold emit. grow; destruct (tr_retain_offsets t); cbn; try done; rewrite ?zlen_app, ?zlen_cons, ?zlen_nil; lia.
Qed.
Lemma grown_push n : ok (tr_push n).
Proof. unfold tr_push. grow; unfold checked_add; destruct (_ <? _); cbn; lia || done. Qed.
Lemma grown_pop n : ok (tr_pop n).
Proof. unfold tr_pop. grow; unfold checked_sub; destruct (_ <=? _); cbn; lia || done. Qed.
Lemma grown_height_below n : ok (tr_height_below n).
Proof.
  intros t r t' (? & ? & ?). unfold tr_height_below, checked_sub. destruct (_ <=? _); intros [= <- <-] _; [done|].
  unfold grown. cbn. done.
Qed.
Lemma grown_push_edge e : ok (push_edge e).
Proof.
  unfold push_edge. apply keeps_bind; [apply keeps_reads|]. intros rel. apply keeps_bind; [|intros ?; apply keeps_ret].
  grow. rewrite zlen_cons, zlen_nil. lia.
Qed.
Lemma zset_zlen {A} (l l' : list A) i x : zset l i x = Some l' → zlen l' = zlen l.
Proof. intros [_ ->]%zset_Some. unfold zlen. by rewrite length_insert. Qed.
Lemma grown_put_op idx op : ok (put_op idx op).
Proof.
  apply keeps_reads_inv. intros t ops r t' (H1 & H2 & H3) Hz [= <- <-] _.
  unfold grown. cbn. destruct (zset _ _ _) as [l|] eqn:Hs; [|done]. injection Hz as <-. by rewrite (zset_zlen _ _ _ _ Hs).
Qed.
Lemma grown_patch_edge rel ip : ok (patch_edge rel ip).
Proof.
  apply keeps_reads_inv. intros t es r t' (H1 & H2 & H3) Hz [= <- <-] _.
  unfold grown. cbn in Hz |- *. destruct (zget (ca_br_tables _) _); [|done]. cbn in Hz. destruct (zset _ _ _) as [l|] eqn:Hs; [|done].
  injection Hz as <-. by rewrite (zset_zlen _ _ _ _ Hs).
Qed.
Lemma grown_take : ok take_fusable.
Proof. intros t r t' H [= <- <-] _. done. Qed.
Lemma grown_ctrl c : ok (modify (set_tr_ctrl c) : Tr ()).
Proof. grow. Qed.
Lemma grown_dead : ok dead.
Proof. unfold dead. grow. Qed.
Lemma grown_clear : ok clear_fusable.
Proof. unfold clear_fusable. grow. Qed.
Lemma grown_height h : ok (set_height h).
Proof. unfold set_height. grow. Qed.
Lemma grown_reach (g : Translator → bool) : ok (modify (λ t, set_tr_reachable (g t) t) : Tr ()).
Proof. grow. Qed.
Lemma grown_big (f : list BigMemArg → list BigMemArg) : ok (modify (on_code (λ c, set_ca_big_memargs (f (ca_big_memargs c)) c)) : Tr ()).
Proof. grow. Qed.
Lemma grown_handlers (f : list HandlerSpan → list HandlerSpan) : ok (modify (on_code (λ c, set_ca_handlers (f (ca_handlers c)) c)) : Tr ()).
Proof. grow. Qed.
Lemma grown_push_ctrl f : ok (push_ctrl f).
Proof. unfold push_ctrl. grow. Qed.
#[local] Hint Resolve grown_emit grown_push grown_pop grown_height_below grown_push_edge grown_put_op grown_patch_edge grown_take
  grown_ctrl grown_dead grown_clear grown_height grown_push_ctrl : keeps.
#[local] Hint Extern 1 (keeps _ (modify (set_tr_reachable ?x))) => exact (grown_reach (λ _, x)) : keeps.
#[local] Hint Extern 1 (keeps _ (modify (λ t, set_tr_reachable _ t))) => refine (grown_reach _) : keeps.
#[local] Hint Extern 1 (keeps _ (modify (on_code (λ c, set_ca_big_memargs (_ ++ ?x) c)))) => exact (grown_big (λ l, l ++ x)) : keeps.
#[local] Hint Extern 1 (keeps _ (modify (on_code (λ c, set_ca_handlers (_ ++ ?x) c)))) => exact (grown_handlers (λ l, l ++ x)) : keeps.

Lemma grown_patch_frame i p : ok (patch_frame i p).
Proof. unfold patch_frame. keep. Qed.
#[local] Hint Resolve grown_patch_frame : keeps.
Lemma grown_register fr op slot : ok (register_branch fr op slot).
Proof. unfold register_branch. keep. Qed.
#[local] Hint Resolve grown_register : keeps.
Lemma grown_emit_branch op fr : ok (emit_branch op fr).
Proof. unfold emit_branch. keep. Qed.
Lemma grown_patch_ip op slot ip : ok (patch_ip op slot ip).
Proof. unfold patch_ip. keep. Qed.
#[local] Hint Resolve grown_emit_branch grown_patch_ip : keeps.
Lemma grown_table_edges k cases ps : ok (table_edges k cases ps).
Proof. revert k ps. induction cases as [|d cases IH]; intros k ps; cbn [table_edges]; keep. Qed.
Lemma grown_patch_all ps ip : ok (patch_all ps ip).
Proof. unfold patch_all. keep. Qed.
Lemma grown_pop_ctrl why : ok (pop_ctrl why).
Proof. unfold pop_ctrl. keep. Qed.
Lemma grown_update_last g : ok (update_last g).
Proof. unfold update_last. keep. Qed.
#[local] Hint Resolve grown_table_edges grown_patch_all grown_pop_ctrl grown_update_last : keeps.
Lemma grown_helper h op : ok (run_helper h op).
Proof. destruct h; cbn [run_helper]; unfold unop, binop, store, constop, ternary; keep. Qed.
Lemma grown_constop op : ok (constop op).
Proof. unfold constop. keep. Qed.
Lemma grown_unop op : ok (unop op).
Proof. unfold unop. keep. Qed.
Lemma grown_store op : ok (store op).
Proof. unfold store. keep. Qed.
Lemma grown_memarg m : ok (memarg m).
Proof. unfold memarg. keep. Qed.
#[local] Hint Resolve grown_helper grown_constop grown_unop grown_store grown_memarg : keeps.
Lemma grown_when m : ok m → ok (when_reachable m).
Proof. intros Hm. unfold when_reachable. keep_step. intros t. keep_step; [done|keep]. Qed.

Section ctx.
Context (ctx : CompileCtx).
Lemma grown_open_frame kind bt ep cl : ok (open_frame ctx kind bt ep cl).
Proof. unfold open_frame. keep. Qed.
#[local] Hint Resolve grown_open_frame : keeps.
Lemma grown_landing_pads base cs recs : ok (landing_pads ctx base cs recs).
Proof. revert recs. induction cs as [|c cs IH]; intros recs; cbn [landing_pads]; keep. Qed.
#[local] Hint Resolve grown_landing_pads : keeps.
Lemma grown_do_end : ok (do_end ctx).
Proof. unfold do_end, end_try_table. keep. Qed.
Lemma grown_do_else : ok do_else.
Proof. unfold do_else. keep. Qed.
Lemma grown_if : ok if_branch.
Proof. unfold if_branch. keep. Qed.
#[local] Hint Resolve grown_do_end grown_do_else grown_if : keeps.
Lemma grown_structural v : ok (visit_structural ctx v).
Proof. destruct v; cbn [visit_structural]; unfold push_block, push_if, push_try_table; keep. Qed.
Lemma grown_control v : ok (visit_control ctx v).
Proof.
  apply grown_when. destruct v; unfold tr_br, tr_br_if, tr_br_table, tr_ret, tr_call, tr_call_indirect, tr_call_ref, tr_return_call,
    tr_return_call_indirect, tr_return_call_ref, tr_br_on_null, tr_br_on_non_null, tr_br_on_cast, tr_throw, tr_throw_ref; keep.
Qed.
Lemma grown_simd v : ok (visit_simd v).
Proof. destruct v; cbn [visit_simd]; cbv zeta; apply grown_when; unfold binop; keep. Qed.
Lemma grown_visit o : ok (visit ctx o).
Proof.
  destruct o as [v|v arg|v|v|v|v|v|v|v|v|v|v|v|v]; cbn [visit].
  all: try (apply grown_structural || apply grown_control || apply grown_simd).
  all: unfold lower_nullary, lower_memarg, visit_memory, visit_table, visit_array, visit_struct, visit_cast, visit_ref.
  4: destruct v; cbn [visit_core].
  all: try apply grown_when.
  all: unfold lower_select.
  all: keep.
Qed.
End ctx.
End grown.

(** The state a run starts from has no more than the one it ends with. *)
Lemma grown_run {A} (m : Tr A) t x t' :
  (∀ a b bad, keeps (grown a b bad) m) → m t = (Ok x, t') →
  zlen (ca_ops (tr_code t)) ≤ zlen (ca_ops (tr_code t')) ∧ zlen (ca_br_tables (tr_code t)) ≤ zlen (ca_br_tables (tr_code t')) ∧
  (tr_error t' = None → tr_error t = None).
Proof.
  intros Hm Hrun.
  destruct (Hm (zlen (ca_ops (tr_code t))) (zlen (ca_br_tables (tr_code t))) (bool_decide (tr_error t ≠ None)) t (Ok x) t') as (? & ? & Hb);
    [|exact Hrun|done|].
  - unfold grown. split_and!; [lia..|]. by intros ?%bool_decide_eq_true.
  - split_and!; [done..|]. intros He. destruct (tr_error t); [|done]. by destruct (Hb eq_refl).
Qed.

#[export] Hint Resolve grown_emit grown_push grown_pop grown_height_below grown_push_edge grown_put_op grown_patch_edge grown_take
  grown_ctrl grown_dead grown_clear grown_height grown_push_ctrl grown_patch_frame grown_register grown_emit_branch grown_patch_ip
  grown_table_edges grown_patch_all grown_pop_ctrl grown_update_last grown_open_frame grown_landing_pads : keeps.
#[export] Hint Extern 1 (keeps (grown ?a ?b ?bad) (modify (set_tr_reachable ?x))) => exact (grown_reach a b bad (λ _, x)) : keeps.
#[export] Hint Extern 1 (keeps (grown ?a ?b ?bad) (modify (λ t, set_tr_reachable _ t))) => refine (grown_reach a b bad _) : keeps.
#[export] Hint Extern 1 (keeps (grown ?a ?b ?bad) (modify (on_code (λ c, set_ca_handlers (_ ++ ?x) c)))) =>
  exact (grown_handlers a b bad (λ l, l ++ x)) : keeps.
