(* ===== verification/Heights.v ===== *)
(** * Heights: operand heights in compiled code (a specification for src/src/module/compile/)

    What an instruction of the internal code does to the operand height and where it can go
    on ([op_next], [op_edges]); when an assignment of heights to instructions is consistent
    ([consistent]); and the height half of WebAssembly's validation algorithm
    ([height_check]), which is what the translator relies on the validator for. *)
From S2P Require Import Prelude Keep Types Layout Codec Op Entity Compile Lowering.
Open Scope Z_scope.

(** ** Internal code *)
Section code.
Context (ctx : CompileCtx).

(** The arities of a function type; a type has at most a thousand parameters and results. *)
Definition MAX_ARITY : Z := 1000.
Definition type_arity (type_index : Z) : option (Z * Z) :=
  t ← zget (cc_types ctx) type_index;
  '(params, results) ← func_sig t;
  if (zlen params <=? MAX_ARITY) && (zlen results <=? MAX_ARITY) then Some (zlen params, zlen results) else None.
Definition func_arity (func : Z) : option (Z * Z) := ty ← zget (cc_func_types ctx) func; type_arity ty.
Definition tag_arity (tag : Z) : option Z := ty ← zget (cc_tag_types ctx) tag; fst <$> type_arity ty.
(** A struct type has at most ten thousand fields. *)
Definition field_count (type_index : Z) : option Z :=
  t ← zget (cc_types ctx) type_index;
  match mt_body t with
  | CompStruct fields => if zlen fields <=? 10000 then Some (zlen fields) else None
  | _ => None
  end.

(** Vector instructions take two operands and leave one but for these. *)
Definition simd_op_effect (s : SimdOp) : Z * Z :=
  match s with
  | SV128Const _ => (0, 1)
  | SI8x16Splat | SI16x8Splat | SI32x4Splat | SI64x2Splat | SF32x4Splat | SF64x2Splat | SV128Not | SV128AnyTrue
  | SI8x16Abs | SI8x16Neg | SI8x16Popcnt | SI8x16AllTrue | SI8x16Bitmask | SI16x8ExtAddPairwiseI8x16S
  | SI16x8ExtAddPairwiseI8x16U | SI16x8Abs | SI16x8Neg | SI16x8AllTrue | SI16x8Bitmask | SI16x8ExtendLowI8x16S
  | SI16x8ExtendHighI8x16S | SI16x8ExtendLowI8x16U | SI16x8ExtendHighI8x16U | SI32x4ExtAddPairwiseI16x8S
  | SI32x4ExtAddPairwiseI16x8U | SI32x4Abs | SI32x4Neg | SI32x4AllTrue | SI32x4Bitmask | SI32x4ExtendLowI16x8S
  | SI32x4ExtendHighI16x8S | SI32x4ExtendLowI16x8U | SI32x4ExtendHighI16x8U | SI64x2Abs | SI64x2Neg | SI64x2AllTrue
  | SI64x2Bitmask | SI64x2ExtendLowI32x4S | SI64x2ExtendHighI32x4S | SI64x2ExtendLowI32x4U | SI64x2ExtendHighI32x4U
  | SF32x4Ceil | SF32x4Floor | SF32x4Trunc | SF32x4Nearest | SF32x4Abs | SF32x4Neg | SF32x4Sqrt | SF64x2Ceil
  | SF64x2Floor | SF64x2Trunc | SF64x2Nearest | SF64x2Abs | SF64x2Neg | SF64x2Sqrt | SI32x4TruncSatF32x4S
  | SI32x4TruncSatF32x4U | SF32x4ConvertI32x4S | SF32x4ConvertI32x4U | SI32x4TruncSatF64x2SZero
  | SI32x4TruncSatF64x2UZero | SF64x2ConvertLowI32x4S | SF64x2ConvertLowI32x4U | SF32x4DemoteF64x2Zero
  | SF64x2PromoteLowF32x4 | SI32x4RelaxedTruncF32x4S | SI32x4RelaxedTruncF32x4U | SI32x4RelaxedTruncF64x2SZero
  | SI32x4RelaxedTruncF64x2UZero | SI8x16ExtractLaneS _ | SI8x16ExtractLaneU _ | SI16x8ExtractLaneS _
  | SI16x8ExtractLaneU _ | SI32x4ExtractLane _ | SI64x2ExtractLane _ | SF32x4ExtractLane _ | SF64x2ExtractLane _
  | SV128Load _ | SV128Load8x8S _ | SV128Load8x8U _ | SV128Load16x4S _ | SV128Load16x4U _ | SV128Load32x2S _
  | SV128Load32x2U _ | SV128Load8Splat _ | SV128Load16Splat _ | SV128Load32Splat _ | SV128Load64Splat _
  | SV128Load32Zero _ | SV128Load64Zero _ => (1, 1)
  | SV128Bitselect | SF32x4RelaxedMadd | SF32x4RelaxedNmadd | SF64x2RelaxedMadd | SF64x2RelaxedNmadd
  | SI8x16RelaxedLaneselect | SI16x8RelaxedLaneselect | SI32x4RelaxedLaneselect | SI64x2RelaxedLaneselect
  | SI32x4RelaxedDotI8x16I7x16AddS => (3, 1)
  | SV128Store _ | SV128Store8Lane _ _ | SV128Store16Lane _ _ | SV128Store32Lane _ _ | SV128Store64Lane _ _ => (2, 0)
  | _ => (2, 1)
  end.

(** Operands taken and results left by an instruction that goes on to the next. *)
Definition op_effect (op : Op) : option (Z * Z) :=
  match op with
  | OpNop | OpDataDrop _ | OpElemDrop _ => Some (0, 0)
  | OpI32Const _ | OpI64Const _ | OpF32Const _ | OpF64Const _ | OpLocalGet _ | OpGlobalGet _ | OpMemorySize _
  | OpTableSize _ | OpRefNull _ | OpRefFunc _ | OpStructNewDefault _ => Some (0, 1)
  | OpDrop | OpLocalSet _ | OpGlobalSet _ => Some (1, 0)
  | OpI32Eqz | OpI32Clz | OpI32Ctz | OpI32Popcnt | OpI64Eqz | OpI64Clz | OpI64Ctz | OpI64Popcnt | OpF32Abs | OpF32Neg
  | OpF32Ceil | OpF32Floor | OpF32Trunc | OpF32Nearest | OpF32Sqrt | OpF64Abs | OpF64Neg | OpF64Ceil | OpF64Floor
  | OpF64Trunc | OpF64Nearest | OpF64Sqrt | OpI32WrapI64 | OpI32TruncF32S | OpI32TruncF32U | OpI32TruncF64S
  | OpI32TruncF64U | OpI64ExtendI32S | OpI64ExtendI32U | OpI64TruncF32S | OpI64TruncF32U | OpI64TruncF64S
  | OpI64TruncF64U | OpF32ConvertI32S | OpF32ConvertI32U | OpF32ConvertI64S | OpF32ConvertI64U | OpF32DemoteF64
  | OpF64ConvertI32S | OpF64ConvertI32U | OpF64ConvertI64S | OpF64ConvertI64U | OpF64PromoteF32 | OpI32ReinterpretF32
  | OpI64ReinterpretF64 | OpF32ReinterpretI32 | OpF64ReinterpretI64 | OpI32Extend8S | OpI32Extend16S | OpI64Extend8S
  | OpI64Extend16S | OpI64Extend32S | OpI32TruncSatF32S | OpI32TruncSatF32U | OpI32TruncSatF64S | OpI32TruncSatF64U
  | OpI64TruncSatF32S | OpI64TruncSatF32U | OpI64TruncSatF64S | OpI64TruncSatF64U | OpI32Load _ | OpI64Load _
  | OpF32Load _ | OpF64Load _ | OpI32Load8S _ | OpI32Load8U _ | OpI32Load16S _ | OpI32Load16U _ | OpI64Load8S _
  | OpI64Load8U _ | OpI64Load16S _ | OpI64Load16U _ | OpI64Load32S _ | OpI64Load32U _ | OpArrayLen | OpRefI31
  | OpI31GetS | OpI31GetU | OpAnyConvertExtern | OpExternConvertAny | OpMemoryGrow _ | OpTableGet _ | OpRefIsNull
  | OpRefAsNonNull | OpStructGet _ _ | OpStructGetS _ _ | OpStructGetU _ _ | OpArrayNewDefault _ | OpRefTest _ _
  | OpRefCast _ _ | OpLocalTee _ => Some (1, 1)
  | OpI32Store _ | OpI64Store _ | OpF32Store _ | OpF64Store _ | OpI32Store8 _ | OpI32Store16 _ | OpI64Store8 _
  | OpI64Store16 _ | OpI64Store32 _ | OpTableSet _ | OpStructSet _ _ => Some (2, 0)
  | OpI32Eq | OpI32Ne | OpI32LtS | OpI32LtU | OpI32GtS | OpI32GtU | OpI32LeS | OpI32LeU | OpI32GeS | OpI32GeU
  | OpI32Add | OpI32Sub | OpI32Mul | OpI32DivS | OpI32DivU | OpI32RemS | OpI32RemU | OpI32And | OpI32Or | OpI32Xor
  | OpI32Shl | OpI32ShrS | OpI32ShrU | OpI32Rotl | OpI32Rotr | OpI64Eq | OpI64Ne | OpI64LtS | OpI64LtU | OpI64GtS
  | OpI64GtU | OpI64LeS | OpI64LeU | OpI64GeS | OpI64GeU | OpI64Add | OpI64Sub | OpI64Mul | OpI64DivS | OpI64DivU
  | OpI64RemS | OpI64RemU | OpI64And | OpI64Or | OpI64Xor | OpI64Shl | OpI64ShrS | OpI64ShrU | OpI64Rotl | OpI64Rotr
  | OpF32Eq | OpF32Ne | OpF32Lt | OpF32Gt | OpF32Le | OpF32Ge | OpF32Add | OpF32Sub | OpF32Mul | OpF32Div | OpF32Min
  | OpF32Max | OpF32Copysign | OpF64Eq | OpF64Ne | OpF64Lt | OpF64Gt | OpF64Le | OpF64Ge | OpF64Add | OpF64Sub
  | OpF64Mul | OpF64Div | OpF64Min | OpF64Max | OpF64Copysign | OpRefEq | OpTableGrow _ | OpArrayNew _
  | OpArrayNewData _ _ | OpArrayNewElem _ _ | OpArrayGet _ | OpArrayGetS _ | OpArrayGetU _ => Some (2, 1)
  | OpMemoryInit _ _ | OpMemoryCopy _ _ | OpMemoryFill _ | OpTableInit _ _ | OpTableCopy _ _ | OpTableFill _
  | OpArraySet _ => Some (3, 0)
  | OpSelect => Some (3, 1)
  | OpArrayFill _ | OpArrayInitData _ _ | OpArrayInitElem _ _ => Some (4, 0)
  | OpArrayCopy _ _ => Some (5, 0)
  | OpStructNew ty => n ← field_count ty; Some (n, 1)
  | OpArrayNewFixed _ n => if 0 <=? n then Some (n, 1) else None
  | OpCall func => func_arity func
  | OpSimd s => Some (simd_op_effect s)
  | OpCallIndirect ty _ | OpCallRef ty => '(params, results) ← type_arity ty; Some (1 + params, results)
  | _ => None
  end.

(** From height [h]: the height of the next instruction, if control goes on to it; the outer
    [None] is a missing operand. *)
Definition op_next (op : Op) (h : Z) : option (option Z) :=
  let takes (pops : Z) (next : option Z) := if pops <=? h then Some next else None in
  match op with
  | OpBr _ | OpUnreachable => Some None
  | OpBrIf _ | OpBrIfNot _ | OpBrOnNonNull _ => takes 1 (Some (h - 1))
  | OpBrIfCmp _ _ _ => takes 2 (Some (h - 2))
  | OpBrTable _ | OpThrowRef => takes 1 None
  | OpBrOnNull _ | OpBrOnCast _ _ | OpBrOnCastFail _ _ => takes 1 (Some h)
  | OpThrow tag => params ← tag_arity tag; takes params None
  | OpReturnCall func => '(params, _) ← func_arity func; takes params None
  | OpReturnCallIndirect ty _ | OpReturnCallRef ty => '(params, _) ← type_arity ty; takes (1 + params) None
  | op => '(pops, pushes) ← op_effect op; takes pops (Some (h - pops + pushes))
  end.
(** Its branch edges, with the height they are taken at.  [pool] is the function's side
    table; the top bit of a cast's index is a flag. *)
Definition pool_index (target : Z) : Z := Z.land target (Z.lnot NULLABLE_BIT).
Definition at_height (h : Z) (ts : list BranchTarget) : list (BranchTarget * Z) := (λ t, (t, h)) <$> ts.
Definition op_edges (pool : list BranchTarget) (op : Op) (h : Z) : option (list (BranchTarget * Z)) :=
  match op with
  | OpBr t | OpBrOnNonNull t => Some [(t, h)]
  | OpBrIf t | OpBrIfNot t | OpBrOnNull t => Some [(t, h - 1)]
  | OpBrIfCmp _ _ t => Some [(t, h - 2)]
  | OpBrTable r => at_height (h - 1) <$> zslice pool (btr_base r) (btr_base r + btr_len r + 1)
  | OpBrOnCast _ target | OpBrOnCastFail _ target => (λ t, at_height h [t]) <$> zget pool (pool_index target)
  | _ => Some []
  end.

(** An edge taken at height [h] keeps [bt_keep] operands, drops the [bt_pop] below them,
    and arrives at the height of its target. *)
Definition edge_ok (height_at : Z → option Z) (e : BranchTarget * Z) : Prop :=
  0 ≤ bt_keep (e.1) < 2 ^ 16 ∧ 0 ≤ bt_pop (e.1) < 2 ^ 16 ∧ bt_keep (e.1) + bt_pop (e.1) ≤ e.2 ∧
  height_at (bt_ip (e.1)) = Some (e.2 - bt_pop (e.1)).

(** What a handler leaves on the operand stack for its landing pad. *)
Definition clause_payload (tag : option Z) (args ref : bool) : option Z :=
  n ← (if args then tag ← tag; tag_arity tag else Some 0); Some (n + Z.b2z ref).

(** [heights] gives every instruction of a function its operand height, or [None] where
    control never arrives; the end of the code has the function's results. *)
Record consistent (ops : list Op) (pool : list BranchTarget) (handlers : list HandlerSpan) (n_results : Z)
    (heights : list (option Z)) : Prop := {
  con_length : zlen heights = zlen ops;
  con_entry : mjoin (zget (heights ++ [Some n_results]) 0) = Some 0;
  con_flow : ∀ ip op h, zget ops ip = Some op → mjoin (zget heights ip) = Some h →
    ∃ falls edges, op_next op h = Some falls ∧ op_edges pool op h = Some edges ∧
      (∀ h', falls = Some h' → mjoin (zget (heights ++ [Some n_results]) (ip + 1)) = Some h') ∧
      Forall (edge_ok (λ ip, mjoin (zget (heights ++ [Some n_results]) ip))) edges;
  con_handlers : ∀ sp, sp ∈ handlers → 0 ≤ hs_start_ip sp ≤ hs_end_ip sp ∧ hs_end_ip sp ≤ zlen ops ∧
    ∀ c, c ∈ hs_clauses sp → 0 ≤ hr_restore_height c ∧
      ∃ n, clause_payload (hr_tag c) (hr_payload_args c) (hr_payload_ref c) = Some n ∧
        mjoin (zget heights (hr_landing_ip c)) = Some (hr_restore_height c + n);
}.

(** ** Validation, the heights of it *)
Record VFrame : Type := {
  vf_kind : BlockKind;
  vf_else : bool;
  vf_height : Z;
  vf_params : Z;
  vf_results : Z;
  vf_unreachable : bool;
}.
(** Frames from the outermost, as the translator keeps them. *)
Record VState : Type := { vs_height : Z; vs_frames : list VFrame }.
Definition vf_arity (f : VFrame) : Z := if bool_decide (vf_kind f = KLoop) then vf_params f else vf_results f.

(** A body has at most 7654321 bytes, and two bytes push at most a thousand operands. *)
Definition MAX_HEIGHT : Z := 2 ^ 32 - 2048.
Definition v_push (n : Z) (s : VState) : option VState :=
  if vs_height s + n <=? MAX_HEIGHT then Some {| vs_height := vs_height s + n; vs_frames := vs_frames s |} else None.
(** In dead code the stack below what was pushed is whatever is needed. *)
Definition v_pop (n : Z) (s : VState) : option VState :=
  f ← last (vs_frames s);
  if vf_height f + n <=? vs_height s then Some {| vs_height := vs_height s - n; vs_frames := vs_frames s |}
  else if vf_unreachable f then Some {| vs_height := vf_height f; vs_frames := vs_frames s |} else None.
Definition v_take (n : Z) (s : VState) : option VState := if 0 <=? n then v_pop n s else None.
Definition v_effect (e : Z * Z) (s : VState) : option VState := s ← v_take e.1 s; v_push e.2 s.
Definition v_dead (s : VState) : option VState :=
  '(rest, f) ← vec_pop (vs_frames s);
  Some {| vs_height := vf_height f;
          vs_frames := rest ++ [{| vf_kind := vf_kind f; vf_else := vf_else f; vf_height := vf_height f;
            vf_params := vf_params f; vf_results := vf_results f; vf_unreachable := true |}] |}.
Definition v_label (depth : Z) (s : VState) : option Z :=
  if 0 <=? depth then vf_arity <$> zget (vs_frames s) (zlen (vs_frames s) - 1 - depth) else None.
Definition v_block_arity (bt : BlockType) : option (Z * Z) :=
  match bt with BtEmpty => Some (0, 0) | BtType _ => Some (0, 1) | BtFunc i => type_arity i end.
Definition v_open (kind : BlockKind) (bt : BlockType) (s : VState) : option VState :=
  '(params, results) ← v_block_arity bt;
  s ← v_pop params s;
  v_push params {| vs_height := vs_height s; vs_frames := vs_frames s ++
    [{| vf_kind := kind; vf_else := false; vf_height := vs_height s; vf_params := params; vf_results := results;
        vf_unreachable := false |}] |}.
(** Close the innermost frame: exactly its results are left. *)
Definition v_close (s : VState) : option (VFrame * VState) :=
  f ← last (vs_frames s);
  s ← v_pop (vf_results f) s;
  if vs_height s =? vf_height f
  then Some (f, {| vs_height := vs_height s; vs_frames := take (length (vs_frames s) - 1) (vs_frames s) |}) else None.
Definition v_else (s : VState) : option VState :=
  '(f, s) ← v_close s;
  if negb (bool_decide (vf_kind f = KIf)) || vf_else f then None else
  v_push (vf_params f) {| vs_height := vs_height s; vs_frames := vs_frames s ++
    [{| vf_kind := KIf; vf_else := true; vf_height := vs_height s; vf_params := vf_params f; vf_results := vf_results f;
        vf_unreachable := false |}] |}.
Definition v_end (s : VState) : option VState :=
  '(f, s) ← v_close s;
  if bool_decide (vf_kind f = KIf) && negb (vf_else f) && negb (vf_params f =? vf_results f) then None else
  v_push (vf_results f) s.
(** A handler's label takes exactly its payload. *)
Definition v_catch (c : Catch) (s : VState) : option () :=
  let c := conv_catch c in
  n ← clause_payload (hc_tag c) (hc_payload_args c) (hc_payload_ref c);
  k ← v_label (hc_label c) s;
  if k =? n then Some tt else None.

Definition numeric_effect (v : NumericVisit) : Z * Z :=
  match v with
  | VNop => (0, 0)
  | VI32Eq | VI32Ne | VI32LtS | VI32LtU | VI32GtS | VI32GtU | VI32LeS | VI32LeU | VI32GeS | VI32GeU | VI32Add
  | VI32Sub | VI32Mul | VI32DivS | VI32DivU | VI32RemS | VI32RemU | VI32And | VI32Or | VI32Xor | VI32Shl | VI32ShrS
  | VI32ShrU | VI32Rotl | VI32Rotr | VI64Eq | VI64Ne | VI64LtS | VI64LtU | VI64GtS | VI64GtU | VI64LeS | VI64LeU
  | VI64GeS | VI64GeU | VI64Add | VI64Sub | VI64Mul | VI64DivS | VI64DivU | VI64RemS | VI64RemU | VI64And | VI64Or
  | VI64Xor | VI64Shl | VI64ShrS | VI64ShrU | VI64Rotl | VI64Rotr | VF32Eq | VF32Ne | VF32Lt | VF32Gt | VF32Le
  | VF32Ge | VF32Add | VF32Sub | VF32Mul | VF32Div | VF32Min | VF32Max | VF32Copysign | VF64Eq | VF64Ne | VF64Lt
  | VF64Gt | VF64Le | VF64Ge | VF64Add | VF64Sub | VF64Mul | VF64Div | VF64Min | VF64Max | VF64Copysign => (2, 1)
  | _ => (1, 1)
  end.
Definition memarg_effect (v : MemArgVisit) : Z * Z :=
  match v with
  | VI32Store | VI64Store | VF32Store | VF64Store | VI32Store8 | VI32Store16 | VI64Store8 | VI64Store16 | VI64Store32 => (2, 0)
  | _ => (1, 1)
  end.
(** Vector operators, by the signatures of the specification. *)
Definition simd_effect (v : SimdVisit) : Z * Z :=
  match v with
  | VV128Const _ => (0, 1)
  | VI8x16Shuffle _ => (2, 1)
  | VSimdLane v _ =>
      match v with
      | VI8x16ReplaceLane | VI16x8ReplaceLane | VI32x4ReplaceLane | VI64x2ReplaceLane | VF32x4ReplaceLane | VF64x2ReplaceLane => (2, 1)
      | _ => (1, 1)
      end
  | VSimdMemArg v _ => match v with VV128Store => (2, 0) | _ => (1, 1) end
  | VSimdMemArgLane v _ _ =>
      match v with VV128Load8Lane | VV128Load16Lane | VV128Load32Lane | VV128Load64Lane => (2, 1) | _ => (2, 0) end
  | VSimd v =>
      match v with
      | VI8x16Splat | VI16x8Splat | VI32x4Splat | VI64x2Splat | VF32x4Splat | VF64x2Splat | VV128Not | VV128AnyTrue
      | VI8x16Abs | VI8x16Neg | VI8x16Popcnt | VI8x16AllTrue | VI8x16Bitmask | VI16x8ExtAddPairwiseI8x16S
      | VI16x8ExtAddPairwiseI8x16U | VI16x8Abs | VI16x8Neg | VI16x8AllTrue | VI16x8Bitmask | VI16x8ExtendLowI8x16S
      | VI16x8ExtendHighI8x16S | VI16x8ExtendLowI8x16U | VI16x8ExtendHighI8x16U | VI32x4ExtAddPairwiseI16x8S
      | VI32x4ExtAddPairwiseI16x8U | VI32x4Abs | VI32x4Neg | VI32x4AllTrue | VI32x4Bitmask | VI32x4ExtendLowI16x8S
      | VI32x4ExtendHighI16x8S | VI32x4ExtendLowI16x8U | VI32x4ExtendHighI16x8U | VI64x2Abs | VI64x2Neg
      | VI64x2AllTrue | VI64x2Bitmask | VI64x2ExtendLowI32x4S | VI64x2ExtendHighI32x4S | VI64x2ExtendLowI32x4U
      | VI64x2ExtendHighI32x4U | VF32x4Ceil | VF32x4Floor | VF32x4Trunc | VF32x4Nearest | VF32x4Abs | VF32x4Neg
      | VF32x4Sqrt | VF64x2Ceil | VF64x2Floor | VF64x2Trunc | VF64x2Nearest | VF64x2Abs | VF64x2Neg | VF64x2Sqrt
      | VI32x4TruncSatF32x4S | VI32x4TruncSatF32x4U | VF32x4ConvertI32x4S | VF32x4ConvertI32x4U
      | VI32x4TruncSatF64x2SZero | VI32x4TruncSatF64x2UZero | VF64x2ConvertLowI32x4S | VF64x2ConvertLowI32x4U
      | VF32x4DemoteF64x2Zero | VF64x2PromoteLowF32x4 | VI32x4RelaxedTruncF32x4S | VI32x4RelaxedTruncF32x4U
      | VI32x4RelaxedTruncF64x2SZero | VI32x4RelaxedTruncF64x2UZero => (1, 1)
      | VV128Bitselect | VF32x4RelaxedMadd | VF32x4RelaxedNmadd | VF64x2RelaxedMadd | VF64x2RelaxedNmadd
      | VI8x16RelaxedLaneselect | VI16x8RelaxedLaneselect | VI32x4RelaxedLaneselect | VI64x2RelaxedLaneselect
      | VI32x4RelaxedDotI8x16I7x16AddS => (3, 1)
      | _ => (2, 1)
      end
  end.
Definition memory_effect (v : MemoryVisit) : Z * Z :=
  match v with
  | VMemorySize _ => (0, 1) | VMemoryGrow _ => (1, 1) | VDataDrop _ => (0, 0)
  | VMemoryInit _ _ | VMemoryCopy _ _ | VMemoryFill _ => (3, 0)
  end.
Definition core_effect (v : CoreVisit) : option (Z * Z) :=
  match v with
  | VI32Const _ | VI64Const _ | VF32Const _ | VF64Const _ | VLocalGet _ | VGlobalGet _ => Some (0, 1)
  | VDrop | VLocalSet _ | VGlobalSet _ => Some (1, 0)
  | VSelect | VTypedSelect _ => Some (3, 1)
  | VTypedSelectMulti _ => None
  | VLocalTee _ => Some (1, 1)
  end.
Definition table_effect (v : TableVisit) : Z * Z :=
  match v with
  | VTableSize _ => (0, 1) | VTableGet _ => (1, 1) | VElemDrop _ => (0, 0) | VTableSet _ => (2, 0) | VTableGrow _ => (2, 1)
  | VTableInit _ _ | VTableCopy _ _ | VTableFill _ => (3, 0)
  end.
Definition gc_effect (v : GcVisit) : Z * Z := match v with VRefEq => (2, 1) | _ => (1, 1) end.
Definition array_effect (v : ArrayVisit) : Z * Z :=
  match v with
  | VArrayNewFixed _ size => (size, 1) | VArrayNewDefault _ => (1, 1)
  | VArrayNew _ | VArrayNewData _ _ | VArrayNewElem _ _ | VArrayGet _ | VArrayGetS _ | VArrayGetU _ => (2, 1)
  | VArraySet _ => (3, 0) | VArrayFill _ | VArrayInitData _ _ | VArrayInitElem _ _ => (4, 0) | VArrayCopy _ _ => (5, 0)
  end.
Definition struct_effect (v : StructVisit) : option (Z * Z) :=
  match v with
  | VStructNew ty => n ← field_count ty; Some (n, 1)
  | VStructNewDefault _ => Some (0, 1) | VStructSet _ _ => Some (2, 0) | _ => Some (1, 1)
  end.
Definition ref_effect (v : RefVisit) : Z * Z := match v with VRefNull _ | VRefFunc _ => (0, 1) | _ => (1, 1) end.

(** A branch leaves the label's operands in place; all of a table's labels have one arity. *)
Definition v_branch (depth : Z) (s : VState) : option VState := n ← v_label depth s; v_effect (n, n) s.
Fixpoint v_branches (depths : list Z) (n : Z) (s : VState) : option VState :=
  match depths with
  | [] => Some s
  | d :: rest => k ← v_label d s; if k =? n then s ← v_effect (n, n) s; v_branches rest n s else None
  end.
Definition v_call (sig : option (Z * Z)) (extra : Z) (s : VState) : option VState :=
  '(params, results) ← sig; v_effect (extra + params, results) s.
Definition v_return (sig : option (Z * Z)) (extra : Z) (s : VState) : option VState :=
  '(params, _) ← sig; s ← v_take (extra + params) s; v_dead s.
Definition v_control (v : ControlVisit) (s : VState) : option VState :=
  match v with
  | VBr d => n ← v_label d s; s ← v_take n s; v_dead s
  | VBrIf d => s ← v_take 1 s; v_branch d s
  | VBrTable table =>
      s ← v_take 1 s;
      ds ← match wt_targets table with Ok ds => Some ds | _ => None end;
      n ← v_label (wt_default table) s;
      s ← v_branches ds n s;
      s ← v_take n s;
      v_dead s
  | VReturn => f ← zget (vs_frames s) 0; s ← v_take (vf_results f) s; v_dead s
  | VCall func => v_call (func_arity func) 0 s
  | VCallIndirect ty _ | VCallRef ty => v_call (type_arity ty) 1 s
  | VReturnCall func => v_return (func_arity func) 0 s
  | VReturnCallIndirect ty _ | VReturnCallRef ty => v_return (type_arity ty) 1 s
  | VBrOnNull d => s ← v_take 1 s; s ← v_branch d s; v_push 1 s
  | VBrOnNonNull d => s ← v_effect (1, 1) s; s ← v_branch d s; v_take 1 s
  | VBrOnCast d _ _ | VBrOnCastFail d _ _ => s ← v_effect (1, 1) s; v_branch d s
  | VThrow tag => n ← tag_arity tag; s ← v_take n s; v_dead s
  | VThrowRef => s ← v_take 1 s; v_dead s
  | VUnreachable => v_dead s
  end.
Definition height_check (o : Operator) (s : VState) : option VState :=
  match o with
  | WNumeric v => v_effect (numeric_effect v) s
  | WMemArg v _ => v_effect (memarg_effect v) s
  | WMemory v => v_effect (memory_effect v) s
  | WCore v => e ← core_effect v; v_effect e s
  | WTable v => v_effect (table_effect v) s
  | WGc v => v_effect (gc_effect v) s
  | WArray v => v_effect (array_effect v) s
  | WStruct v => e ← struct_effect v; v_effect e s
  | WCast _ => v_effect (1, 1) s
  | WRef v => v_effect (ref_effect v) s
  | WStructural (VBlock bt) => v_open KBlock bt s
  | WStructural (VLoop bt) => v_open KLoop bt s
  | WStructural (VIf bt) => s ← v_take 1 s; v_open KIf bt s
  | WStructural VElse => v_else s
  | WStructural VEnd => v_end s
  | WStructural (VTryTable try) =>
      if bool_decide (Forall (λ c, v_catch c s = Some ()) (tt_catches try)) then v_open KTryTable (tt_ty try) s else None
  | WControl v => v_control v s
  | WSimd v => v_effect (simd_effect v) s
  | WUnsupported _ => None
  end.
(** Before the first operator of a body: the function's frame. *)
Definition v_init (n_results : Z) : VState :=
  {| vs_height := 0; vs_frames := [{| vf_kind := KBlock; vf_else := false; vf_height := 0; vf_params := 0;
       vf_results := n_results; vf_unreachable := false |}] |}.
End code.
