(* ===== verification/Compiled.v ===== *)
(** * Compiled: code under construction keeps consistent heights (about Compile.v)

    The invariant the translator maintains of the code it has emitted so far, apart from
    how it keeps its frames: every instruction has the height it was emitted at, every
    branch edge either leads to an instruction of the right height or is due to be patched
    to one, and the positions that loops start at stay where they are.  One lemma for each
    way the code changes: emitting, patching, fusing, recording a handler. *)
From S2P Require Import Prelude Keep Types Layout Codec Op Entity Compile Lowering Heights.
Open Scope Z_scope.

(** ** Heights by position, the position after the last instruction included *)
Definition hat (H : list (option Z)) (cur : option Z) (ip : Z) : option Z := mjoin (zget (H ++ [cur]) ip).

Lemma zget_snoc {A} (l : list A) x i : zget (l ++ [x]) i = if i =? zlen l then Some x else zget l i.
Proof.
  destruct (Z.eqb_spec i (zlen l)) as [-> | Hne]; [by rewrite zget_app_r, Z.sub_diag by lia|].
  destruct (decide (i < zlen l)); [by rewrite zget_app_l|].
  rewrite !zget_None; [done|lia|rewrite zlen_app, zlen_cons, zlen_nil; lia].
Qed.

Lemma hat_eq H c ip : hat H c ip = if ip =? zlen H then c else mjoin (zget H ip).
Proof. unfold hat. rewrite zget_snoc. by destruct (_ =? _). Qed.
Lemma hat_end H c : hat H c (zlen H) = c.
Proof. by rewrite hat_eq, Z.eqb_refl. Qed.
Lemma hat_Some H c ip x : hat H c ip = Some x → 0 ≤ ip ≤ zlen H.
Proof.
  rewrite hat_eq. pose proof (zlen_nonneg H). destruct (Z.eqb_spec ip (zlen H)); [lia|].
  destruct (zget H ip) eqn:Hg; [|done]. apply zget_Some in Hg. lia.
Qed.
Lemma hat_old H c ip x : mjoin (zget H ip) = Some x → hat H c ip = Some x.
Proof.
  intros Hx. rewrite hat_eq. destruct (Z.eqb_spec ip (zlen H)) as [-> | _]; [|done]. by rewrite zget_None in Hx by lia.
Qed.
(** Less may be known about the current position than will be. *)
Definition below (c o : option Z) : Prop := c = None ∨ c = o.
Lemma hat_weaken H c o ip x : below c o → hat H c ip = Some x → hat H o ip = Some x.
Proof. intros [-> | ->]; [|done]. rewrite !hat_eq. by destruct (_ =? _). Qed.
Lemma hat_extend H c o c' ip x : below c o → hat H c ip = Some x → hat (H ++ [o]) c' ip = Some x.
Proof. intros Hb Hx. apply hat_old. eapply hat_weaken; done. Qed.
Lemma below_refl c : below c c.
Proof. by right. Qed.
#[export] Hint Resolve below_refl : core.

(** ** Branch edges *)
Inductive EdgeId := EIn (ip : Z) | EPool (k : Z).
Definition inline_edge (op : Op) (h : Z) : option (BranchTarget * Z) :=
  match op with
  | OpBr t | OpBrOnNonNull t => Some (t, h)
  | OpBrIf t | OpBrIfNot t | OpBrOnNull t => Some (t, h - 1)
  | OpBrIfCmp _ _ t => Some (t, h - 2)
  | _ => None
  end.
Definition uses (op : Op) (k : Z) : Prop :=
  match op with
  | OpBrTable r => btr_base r ≤ k ≤ btr_base r + btr_len r
  | OpBrOnCast _ target | OpBrOnCastFail _ target => k = pool_index target
  | _ => False
  end.
Definition pool_height (op : Op) (h : Z) : Z := match op with OpBrTable _ => h - 1 | _ => h end.
(** A table's range is not empty: it has the default's edge. *)
Definition range_ok (op : Op) : Prop :=
  match op with OpBrTable r => 0 ≤ btr_base r ∧ 0 ≤ btr_len r | _ => True end.

(** The edges of an instruction are its inline one and those it uses of the pool. *)
Lemma op_edges_split pool uses_at op h :
  zlen uses_at = zlen pool → range_ok op → (∀ k, uses op k → zget uses_at k = Some (pool_height op h)) →
  ∃ es, op_edges pool op h = Some es ∧
    ∀ e, e ∈ es → inline_edge op h = Some e ∨ ∃ k, uses op k ∧ zget pool k = Some (e.1) ∧ zget uses_at k = Some (e.2).
Proof.
  intros Hlen Hr Hu.
  assert (∀ e : BranchTarget * Z, inline_edge op h = Some e → op_edges pool op h = Some [e]) as Hin.
  { intros e. destruct op; cbn; naive_solver. }
  destruct (inline_edge op h) as [e|] eqn:He.
  { exists [e]. split; [by apply Hin|]. intros e' ->%list_elem_of_singleton. by left. }
  assert (∀ target, uses op (pool_index target) → pool_height op h = h →
    ∃ es, (λ t, at_height h [t]) <$> zget pool (pool_index target) = Some es ∧
      ∀ e, e ∈ es → None = Some e ∨ ∃ k, uses op k ∧ zget pool k = Some (e.1) ∧ zget uses_at k = Some (e.2)) as Hcast.
  { intros target Huse Hh. pose proof (Hu _ Huse) as Hk. pose proof (zget_Some _ _ _ Hk).
    destruct (zget_is_Some pool (pool_index target)) as [t Ht]; [lia|]. rewrite Ht. eexists. split; [done|].
    intros e ->%list_elem_of_singleton. right. exists (pool_index target). rewrite Hh in Hk. done. }
  destruct op; try done; cbn [op_edges]; try (exists []; split; [done|by intros e ?%elem_of_nil]).
  - destruct Hr as [Hb Hl]. cbn [uses] in Hu.
    assert (btr_base range + btr_len range < zlen pool) as Hend.
    { specialize (Hu (btr_base range + btr_len range) ltac:(lia)). apply zget_Some in Hu. lia. }
    rewrite zslice_is_Some by lia. eexists. split; [done|].
    intros e (t & -> & (i & Hi)%elem_zget)%list_elem_of_fmap. right.
    pose proof (zget_Some _ _ _ Hi) as Hil. rewrite zlen_take in Hil by (rewrite zlen_drop; lia).
    rewrite zget_take, zget_drop in Hi by lia. exists (btr_base range + i). split_and!; [cbn; lia|done|].
    apply (Hu (btr_base range + i)). lia.
  - by apply Hcast.
  - by apply Hcast.
Qed.

(** ** The invariant *)

(** Code so far: instructions, side table and handlers of the function; beside them the
    height of each instruction and the height each side table entry is used at. *)
Record Code : Type := {
  c_ops : list Op;
  c_pool : list BranchTarget;
  c_handlers : list HandlerSpan;
  c_heights : list (option Z);
  c_uses : list Z;
}.
Definition edge_of (K : Code) (e : EdgeId) : option (BranchTarget * Z) :=
  match e with
  | EIn ip => match zget (c_ops K) ip, mjoin (zget (c_heights K) ip) with
              | Some op, Some h => inline_edge op h
              | _, _ => None
              end
  | EPool k => match zget (c_pool K) k, zget (c_uses K) k with
               | Some t, Some h => Some (t, h)
               | _, _ => None
               end
  end.
Definition is_inline (op : Op) : bool := match inline_edge op 0 with Some _ => true | None => false end.
Definition valid_edge (K : Code) (e : EdgeId) : Prop :=
  match e with
  | EIn ip => ∃ op, zget (c_ops K) ip = Some op ∧ is_inline op = true
  | EPool k => 0 ≤ k < zlen (c_pool K)
  end.
Definition fits (t : BranchTarget) (h : Z) : Prop :=
  0 ≤ bt_keep t < 2 ^ 16 ∧ 0 ≤ bt_pop t < 2 ^ 16 ∧ bt_keep t + bt_pop t ≤ h.
(** A comparison that may still be fused with a branch: the position after it has no
    fixed height yet. *)
Definition settled (fus : option CmpKind) (cur : option Z) : option Z := match fus with None => cur | Some _ => None end.
Lemma settled_below fus cur : below (settled fus cur) cur.
Proof. destruct fus; [by left|by right]. Qed.
#[export] Hint Resolve settled_below : core.

Section code.
Context (ctx : CompileCtx).

(** [due e x]: the edge is still to be patched, to a position of height [x].
    [anchor ip x]: the position [ip] is a target, of height [x].
    [cur] is the height of the next position, if control gets there. *)
Record code_inv (K : Code) (due : EdgeId → Z → Prop) (anchor : Z → Z → Prop) (cur : option Z) (fus : option CmpKind) : Prop := {
  ci_heights : zlen (c_heights K) = zlen (c_ops K);
  ci_uses : zlen (c_uses K) = zlen (c_pool K);
  ci_entry : hat (c_heights K) cur 0 = Some 0;
  ci_range : Forall range_ok (c_ops K);
  ci_next : ∀ ip op h, zget (c_ops K) ip = Some op → mjoin (zget (c_heights K) ip) = Some h →
    ∃ next, op_next ctx op h = Some next ∧ (∀ h', next = Some h' → hat (c_heights K) cur (ip + 1) = Some h') ∧
      ∀ k, uses op k → zget (c_uses K) k = Some (pool_height op h);
  ci_edge : ∀ e t h, edge_of K e = Some (t, h) →
    fits t h ∧ (hat (c_heights K) (settled fus cur) (bt_ip t) = Some (h - bt_pop t) ∨ due e (h - bt_pop t));
  ci_due : ∀ e x, due e x → valid_edge K e ∧ ∀ t h, edge_of K e = Some (t, h) → h - bt_pop t = x;
  ci_anchor : ∀ ip x, anchor ip x → hat (c_heights K) (settled fus cur) ip = Some x;
  ci_fusable : ∀ k, fus = Some k → ∃ h op, cur = Some h ∧ zget (c_ops K) (zlen (c_ops K) - 1) = Some op ∧
    fusable_cmp_of op = Some k ∧ mjoin (zget (c_heights K) (zlen (c_ops K) - 1)) = Some (h + 1);
  ci_handlers : ∀ sp, sp ∈ c_handlers K → 0 ≤ hs_start_ip sp ≤ hs_end_ip sp ∧ hs_end_ip sp ≤ zlen (c_ops K) ∧
    ∀ c, c ∈ hs_clauses sp → 0 ≤ hr_restore_height c ∧
      ∃ n, clause_payload ctx (hr_tag c) (hr_payload_args c) (hr_payload_ref c) = Some n ∧
        mjoin (zget (c_heights K) (hr_landing_ip c)) = Some (hr_restore_height c + n);
}.

Definition no_code : Code := {| c_ops := []; c_pool := []; c_handlers := []; c_heights := []; c_uses := [] |}.
Lemma code_start : code_inv no_code (λ _ _, False) (λ _ _, False) (Some 0) None.
Proof.
  split; cbn; try done.
  - intros ip op h. by rewrite zget_nil.
  - intros [ip|k] t h; cbn; by rewrite zget_nil.
  - by intros sp ?%elem_of_nil.
Qed.

(** *** Emitting an instruction, with the side table entries it uses *)
Definition add_op (K : Code) (op : Op) (ts : list BranchTarget) (us : list Z) (cur : option Z) : Code :=
  {| c_ops := c_ops K ++ [op]; c_pool := c_pool K ++ ts; c_handlers := c_handlers K; c_heights := c_heights K ++ [cur];
     c_uses := c_uses K ++ us |}.
Definition new_edge (K : Code) (e : EdgeId) : Prop :=
  match e with EIn ip => ip = zlen (c_ops K) | EPool k => zlen (c_pool K) ≤ k end.

Lemma edge_of_old K op ts us cur e :
  zlen (c_heights K) = zlen (c_ops K) → zlen (c_uses K) = zlen (c_pool K) → ¬ new_edge K e →
  edge_of (add_op K op ts us cur) e = edge_of K e.
Proof.
  intros Hh Hu Hn. destruct e as [ip|k]; cbn in *.
  - rewrite !zget_snoc, Hh. by destruct (Z.eqb_spec ip (zlen (c_ops K))).
  - by rewrite !zget_app_l by lia.
Qed.
Lemma valid_edge_old K op ts us cur e : valid_edge K e → valid_edge (add_op K op ts us cur) e ∧ ¬ new_edge K e.
Proof.
  destruct e as [ip|k]; cbn.
  - intros (o & Ho & Hi). pose proof (zget_Some _ _ _ Ho). split; [|lia]. exists o. by rewrite zget_app_l by lia.
  - pose proof (zlen_nonneg ts). rewrite zlen_app. lia.
Qed.
Lemma new_edge_dec K e : new_edge K e ∨ ¬ new_edge K e.
Proof. destruct e; cbn; lia. Qed.

Lemma code_emit K due anchor cur fus op ts us due' cur' fus' :
  code_inv K due anchor cur fus → zlen us = zlen ts → range_ok op →
  (∀ h, cur = Some h → ∃ next, op_next ctx op h = Some next ∧ (∀ h', next = Some h' → cur' = Some h') ∧
    ∀ k, uses op k → zget (c_uses K ++ us) k = Some (pool_height op h)) →
  (∀ k, fus' = Some k → ∃ h, cur = Some (h + 1) ∧ cur' = Some h ∧ fusable_cmp_of op = Some k) →
  (∀ e x, due e x → due' e x) →
  (∀ e x, due' e x → due e x ∨ valid_edge (add_op K op ts us cur) e ∧ new_edge K e ∧
    ∀ t h, edge_of (add_op K op ts us cur) e = Some (t, h) → h - bt_pop t = x) →
  (∀ e t h, new_edge K e → edge_of (add_op K op ts us cur) e = Some (t, h) →
    fits t h ∧ (hat (c_heights K) cur (bt_ip t) = Some (h - bt_pop t) ∨ due' e (h - bt_pop t))) →
  code_inv (add_op K op ts us cur) due' anchor cur' fus'.
Proof.
  intros HK Hts Hr Hop Hfus Hd1 Hd2 Hnew. pose proof HK as [Hh Hu He Hrs Hn Hed Hdue Ha Hf Hhd].
  assert (∀ c ip x, below c cur → hat (c_heights K) c ip = Some x →
    hat (c_heights K ++ [cur]) (settled fus' cur') ip = Some x) as Hext by (intros; by eapply hat_extend).
  split; cbn [add_op c_ops c_pool c_heights c_uses c_handlers].
  - rewrite !zlen_snoc. lia.
  - rewrite !zlen_app. lia.
  - by eapply hat_extend; [by right|].
  - apply Forall_app. by split; [|constructor].
  - intros ip o h Ho Hip. rewrite zget_snoc in Ho. rewrite zget_snoc, Hh in Hip.
    destruct (Z.eqb_spec ip (zlen (c_ops K))) as [-> | Hne].
    + injection Ho as <-. cbn in Hip. destruct (Hop h Hip) as (next & ? & Hnext & ?). exists next. split_and!; [done| |done].
      intros h' Hh'. replace (zlen (c_ops K) + 1) with (zlen (c_heights K ++ [cur])) by (rewrite zlen_snoc; lia).
      rewrite hat_end. by apply Hnext.
    + destruct (Hn ip o h Ho Hip) as (next & ? & Hnext & Huse). exists next. split_and!; [done| |].
      * intros h' Hh'. eapply hat_extend; [|by apply Hnext]. done.
      * intros k Hk. specialize (Huse k Hk). pose proof (zget_Some _ _ _ Huse). by rewrite zget_app_l by lia.
  - intros e t h Het. destruct (new_edge_dec K e) as [Hne|Hne].
    + destruct (Hnew e t h Hne Het) as [? [?|?]]; [split; [done|left; eauto]|by split; [|right]].
    + rewrite edge_of_old in Het by done. destruct (Hed e t h Het) as [? [?|?]]; split; eauto.
  - intros e x Hex. destruct (Hd2 e x Hex) as [Hold|(? & ? & ?)]; [|done].
    destruct (Hdue e x Hold) as [Hv Hx]. destruct (valid_edge_old K op ts us cur e Hv) as [? Hnn]. split; [done|].
    intros t h. rewrite edge_of_old by done. apply Hx.
  - eauto.
  - intros k Hk. destruct (Hfus k Hk) as (h & -> & -> & Hc). exists h, op. split_and!; [done| |done|].
    + rewrite zget_snoc, zlen_snoc. destruct (Z.eqb_spec (zlen (c_ops K) + 1 - 1) (zlen (c_ops K))); [done|lia].
    + rewrite zget_snoc, zlen_snoc, Hh. by destruct (Z.eqb_spec (zlen (c_ops K) + 1 - 1) (zlen (c_ops K))); [|lia].
  - intros sp Hsp. destruct (Hhd sp Hsp) as (? & ? & Hcs). split_and!; [lia..|rewrite zlen_snoc; lia|].
    intros c Hc. destruct (Hcs c Hc) as (? & n & ? & Hl). split; [done|]. exists n. split; [done|].
    rewrite zget_snoc. destruct (Z.eqb_spec (hr_landing_ip c) (zlen (c_heights K))) as [Hx|]; [|done].
    by rewrite Hx, zget_None in Hl by lia.
Qed.

(** *** Patching an edge *)
Definition set_op_ip (ip : Z) (op : Op) : Op :=
  match op with
  | OpBr t => OpBr (set_ip ip t)
  | OpBrIf t => OpBrIf (set_ip ip t)
  | OpBrIfNot t => OpBrIfNot (set_ip ip t)
  | OpBrIfCmp kind negate t => OpBrIfCmp kind negate (set_ip ip t)
  | OpBrOnNull t => OpBrOnNull (set_ip ip t)
  | OpBrOnNonNull t => OpBrOnNonNull (set_ip ip t)
  | _ => op
  end.
Definition set_c_ops (v : list Op) (K : Code) : Code :=
  {| c_ops := v; c_pool := c_pool K; c_handlers := c_handlers K; c_heights := c_heights K; c_uses := c_uses K |}.
Definition set_c_pool (v : list BranchTarget) (K : Code) : Code :=
  {| c_ops := c_ops K; c_pool := v; c_handlers := c_handlers K; c_heights := c_heights K; c_uses := c_uses K |}.
Definition alter_at {A} (f : A → A) (i : Z) (l : list A) : list A := if 0 <=? i then alter f (Z.to_nat i) l else l.
Definition patch_code (e : EdgeId) (ip : Z) (K : Code) : Code :=
  match e with
  | EIn i => set_c_ops (alter_at (set_op_ip ip) i (c_ops K)) K
  | EPool k => set_c_pool (alter_at (set_ip ip) k (c_pool K)) K
  end.

Lemma zlen_alter {A} (f : A → A) i l : zlen (alter_at f i l) = zlen l.
Proof. unfold zlen, alter_at. destruct (0 <=? i); [|done]. by rewrite length_alter. Qed.
Lemma zget_alter {A} (f : A → A) i j l : zget (alter_at f i l) j = if j =? i then f <$> zget l j else zget l j.
Proof.
  unfold zget, alter_at. destruct (Z.leb_spec 0 i), (Z.leb_spec 0 j), (Z.eqb_spec j i); try done; try lia.
  - subst. apply list_lookup_alter_eq.
  - apply list_lookup_alter_ne. lia.
Qed.

Lemma set_op_ip_same ip op :
  (∀ h, op_next ctx (set_op_ip ip op) h = op_next ctx op h) ∧ (∀ h, pool_height (set_op_ip ip op) h = pool_height op h) ∧
  (∀ k, uses (set_op_ip ip op) k ↔ uses op k) ∧ fusable_cmp_of (set_op_ip ip op) = fusable_cmp_of op ∧
  (range_ok (set_op_ip ip op) ↔ range_ok op) ∧ is_inline (set_op_ip ip op) = is_inline op.
Proof. by destruct op. Qed.
Lemma inline_set_ip ip op h :
  inline_edge (set_op_ip ip op) h = (λ e : BranchTarget * Z, (set_ip ip e.1, e.2)) <$> inline_edge op h.
Proof. by destruct op. Qed.

(** Only the patched edge changes, and only its target. *)
Lemma edge_of_patch K e ip e' :
  edge_of (patch_code e ip K) e' = edge_of K e' ∨
  e' = e ∧ edge_of (patch_code e ip K) e' = (λ x : BranchTarget * Z, (set_ip ip x.1, x.2)) <$> edge_of K e'.
Proof.
  destruct e as [i|k], e' as [i'|k']; cbn; try by left.
  - rewrite zget_alter. destruct (Z.eqb_spec i' i) as [->|]; [right|by left]. split; [done|].
    destruct (zget (c_ops K) i) as [op|]; cbn; [|done]. destruct (mjoin _) as [h|]; [|done]. apply inline_set_ip.
  - rewrite zget_alter. destruct (Z.eqb_spec k' k) as [->|]; [right|by left]. split; [done|].
    destruct (zget (c_pool K) k) as [t|]; cbn; [|done]. by destruct (zget (c_uses K) k).
Qed.
Lemma zget_patch K e ip i op' :
  zget (c_ops (patch_code e ip K)) i = Some op' → ∃ op, zget (c_ops K) i = Some op ∧ (op' = op ∨ op' = set_op_ip ip op).
Proof.
  destruct e as [j|k]; cbn; [|eauto]. rewrite zget_alter. destruct (i =? j); [|eauto].
  destruct (zget (c_ops K) i) as [op|]; [|done]. intros [= <-]. eauto.
Qed.
Lemma valid_edge_patch K e ip e' : valid_edge K e' → valid_edge (patch_code e ip K) e'.
Proof.
  destruct e as [i|k], e' as [i'|k']; cbn; try done.
  - intros (op & Hop & Hi). rewrite zget_alter, Hop. destruct (i' =? i); cbn; [|eauto].
    exists (set_op_ip ip op). split; [done|]. by destruct (set_op_ip_same ip op) as (_ & _ & _ & _ & _ & ->).
  - by rewrite zlen_alter.
Qed.
Lemma patch_code_rest e ip K :
  c_heights (patch_code e ip K) = c_heights K ∧ c_uses (patch_code e ip K) = c_uses K ∧
  c_handlers (patch_code e ip K) = c_handlers K ∧ zlen (c_ops (patch_code e ip K)) = zlen (c_ops K) ∧
  zlen (c_pool (patch_code e ip K)) = zlen (c_pool K).
Proof. destruct e; cbn; by rewrite ?zlen_alter. Qed.

Lemma code_patch K due anchor cur fus e ip :
  code_inv K due anchor cur fus →
  (∀ t h, edge_of K e = Some (t, h) → hat (c_heights K) (settled fus cur) ip = Some (h - bt_pop t)) →
  code_inv (patch_code e ip K) due anchor cur fus.
Proof.
  intros [Hh Hu He Hrs Hn Hed Hdue Ha Hf Hhd] Hip.
  destruct (patch_code_rest e ip K) as (HH & HU & HS & Hl & Hpl).
  assert (∀ i op', zget (c_ops (patch_code e ip K)) i = Some op' → ∃ op, zget (c_ops K) i = Some op ∧
    (∀ h, op_next ctx op' h = op_next ctx op h) ∧ (∀ h, pool_height op' h = pool_height op h) ∧ (∀ k, uses op' k ↔ uses op k) ∧
    fusable_cmp_of op' = fusable_cmp_of op ∧ (range_ok op' ↔ range_ok op)) as Hsame.
  { intros i op' (op & Hop & [-> | ->])%zget_patch; exists op; [done|]. by destruct (set_op_ip_same ip op) as (? & ? & ? & ? & ? & _). }
  assert (∀ e' t h, edge_of (patch_code e ip K) e' = Some (t, h) → ∃ t0, edge_of K e' = Some (t0, h) ∧
    bt_keep t = bt_keep t0 ∧ bt_pop t = bt_pop t0 ∧ (t = t0 ∨ e' = e ∧ t = set_ip ip t0)) as Hedge.
  { intros e' t h Het. destruct (edge_of_patch K e ip e') as [Heq|[-> Heq]]; rewrite Heq in Het; [naive_solver|].
    destruct (edge_of K e) as [[t0 h0]|]; [|done]. injection Het as <- <-. exists t0. naive_solver. }
  split; rewrite ?HH, ?HU, ?HS, ?Hl, ?Hpl; try done.
  - apply Forall_forall. intros op' (i & Hi)%elem_zget. destruct (Hsame i op' Hi) as (op & Hop & _ & _ & _ & _ & Hr).
    apply Hr. eapply Forall_forall; [exact Hrs|]. by eapply zget_elem.
  - intros i op' h Hop' Hih. destruct (Hsame i op' Hop') as (op & Hop & -> & Hp & Huse & _).
    destruct (Hn i op h Hop Hih) as (next & ? & ? & Hk). exists next. split_and!; [done..|].
    intros k ?%Huse. rewrite Hp. by apply Hk.
  - intros e' t h Het. destruct (Hedge e' t h Het) as (t0 & Ht0 & Hk & Hp & Hc). destruct (Hed e' t0 h Ht0) as [Hfit Hres].
    unfold fits in *. rewrite Hk, Hp. split; [done|].
    destruct Hc as [-> | [-> ->]]; [done|]. left. by apply Hip.
  - intros e' x Hx. destruct (Hdue e' x Hx) as [Hv Hh']. split; [by apply valid_edge_patch|].
    intros t h Het. destruct (Hedge e' t h Het) as (t0 & Ht0 & _ & -> & _). by apply Hh'.
  - intros k Hk. destruct (Hf k Hk) as (h & op & -> & Hop & Hc & Hm). destruct (zget_is_Some (c_ops (patch_code e ip K)) (zlen (c_ops K) - 1)) as [op' Hop'].
    { apply zget_Some in Hop. lia. }
    exists h, op'. split_and!; [done..| |done]. destruct (Hsame _ _ Hop') as (op0 & Hop0 & _ & _ & _ & -> & _). congruence.
Qed.

(** *** Fusing the comparison just emitted with a branch *)
Lemma fusable_effect op k : fusable_cmp_of op = Some k →
  is_inline op = false ∧ range_ok op ∧ (∀ k, ¬ uses op k) ∧
  ∀ h, op_next ctx op h = if 2 <=? h then Some (Some (h - 2 + 1)) else None.
Proof. destruct op; try done; intros _; repeat split; naive_solver. Qed.

Lemma code_fuse K due anchor h kind negate t due' :
  code_inv K due anchor (Some h) (Some kind) →
  (∀ e x, due e x → due' e x) →
  (∀ e x, due' e x → due e x ∨ e = EIn (zlen (c_ops K) - 1) ∧ x = h - 1 - bt_pop t) →
  fits t (h - 1) →
  hat (c_heights K) None (bt_ip t) = Some (h - 1 - bt_pop t) ∨ due' (EIn (zlen (c_ops K) - 1)) (h - 1 - bt_pop t) →
  code_inv (set_c_ops (<[Z.to_nat (zlen (c_ops K) - 1) := OpBrIfCmp kind negate t]> (c_ops K)) K) due' anchor (Some (h - 1)) None.
Proof.
  intros [Hh Hu He Hrs Hn Hed Hdue Ha Hf Hhd] Hd1 Hd2 Hfit Hnew.
  destruct (Hf kind eq_refl) as (h0 & cmp & [= <-] & Hcmp & Hc & Hm). destruct (fusable_effect cmp kind Hc) as (Hni & _ & _ & Hnx).
  set (n := zlen (c_ops K)) in *. pose proof (zget_Some _ _ _ Hcmp) as Hb.
  assert (1 ≤ h) as Hh1.
  { destruct (Hn _ _ _ Hcmp Hm) as (next & Hop & _). rewrite Hnx in Hop. destruct (Z.leb_spec 2 (h + 1)); [lia|done]. }
  assert (∀ i, zget (<[Z.to_nat (n - 1) := OpBrIfCmp kind negate t]> (c_ops K)) i =
    if i =? n - 1 then Some (OpBrIfCmp kind negate t) else zget (c_ops K) i) as Hget.
  { intros i. destruct (Z.eqb_spec i (n - 1)) as [->|]; [by apply zget_insert_eq|]. by rewrite zget_insert_ne by lia. }
  assert (∀ ip x, hat (c_heights K) None ip = Some x → hat (c_heights K) (Some (h - 1)) ip = Some x) as Hup.
  { intros ip x. apply hat_weaken. by left. }
  assert (∀ e t' x, edge_of (set_c_ops (<[Z.to_nat (n - 1) := OpBrIfCmp kind negate t]> (c_ops K)) K) e = Some (t', x) →
    edge_of K e = Some (t', x) ∨ e = EIn (n - 1) ∧ t' = t ∧ x = h - 1) as Hedge.
  { intros [i|k] t' x; cbn; [|by left]. rewrite Hget. destruct (Z.eqb_spec i (n - 1)) as [->|]; [|by left].
    rewrite Hm. intros [= <- <-]. right. split_and!; [done..|lia]. }
  split; cbn [set_c_ops c_ops c_pool c_handlers c_heights c_uses settled]; rewrite ?zlen_insert; try done.
  - rewrite hat_eq in He |- *. destruct (Z.eqb_spec 0 (zlen (c_heights K))); [lia|done].
  - by apply Forall_insert.
  - intros ip op x. rewrite Hget. destruct (Z.eqb_spec ip (n - 1)) as [->|Hne].
    + rewrite Hm. intros [= <-] [= <-]. eexists. split; [cbn; by rewrite (proj2 (Z.leb_le 2 (h + 1))) by lia|]. split; [|done].
      intros h' [= <-]. replace (n - 1 + 1) with (zlen (c_heights K)) by lia. rewrite hat_end. f_equal. lia.
    + intros Hop Hx. destruct (Hn ip op x Hop Hx) as (next & ? & Hnxt & ?). exists next. split_and!; [done| |done].
      intros h' Hh'. specialize (Hnxt h' Hh'). apply zget_Some in Hop. rewrite hat_eq in Hnxt |- *.
      destruct (Z.eqb_spec (ip + 1) (zlen (c_heights K))); [lia|done].
  - intros e t' x Het. destruct (Hedge e t' x Het) as [Hold|(-> & -> & ->)].
    + destruct (Hed e t' x Hold) as [? [?|?]]; split; eauto.
    + split; [done|]. destruct Hnew; eauto.
  - intros e x Hx. destruct (Hd2 e x Hx) as [Hold|[-> ->]].
    + destruct (Hdue e x Hold) as [Hv Hall]. split.
      * destruct e as [i|k]; [|done]. destruct Hv as (op & Hop & Hi). cbn. rewrite Hget.
        destruct (i =? n - 1); eauto.
      * intros t' y Het. destruct (Hedge e t' y Het) as [?|(-> & -> & ->)]; [by apply Hall|].
        destruct Hv as (op & Hop & Hi). congruence.
    + split; [cbn; rewrite Hget, Z.eqb_refl; eauto|]. intros t' y Het.
      destruct (Hedge _ t' y Het) as [Hold|(_ & -> & ->)]; [|done].
      cbn in Hold. rewrite Hcmp, Hm in Hold. unfold is_inline in Hni. by destruct cmp.
  - eauto.
Qed.

(** *** Weakening, targets, handlers *)
Lemma code_mono K due anchor cur fus due' anchor' :
  code_inv K due anchor cur fus → (∀ e x, due' e x → due e x) → (∀ ip x, anchor' ip x → anchor ip x) →
  (∀ e x, due e x → due' e x ∨ ∀ t h, edge_of K e = Some (t, h) → hat (c_heights K) (settled fus cur) (bt_ip t) = Some (h - bt_pop t)) →
  code_inv K due' anchor' cur fus.
Proof.
  intros [Hh Hu He Hrs Hn Hed Hdue Ha Hf Hhd] H1 H2 H3. split; try done; eauto.
  intros e t h Het. destruct (Hed e t h Het) as [? [?|Hd]]; [by split; [|left]|]. destruct (H3 _ _ Hd) as [?|Hr]; split; eauto.
Qed.
(** A control boundary: nothing before it fuses with what follows. *)
Lemma code_settle K due anchor cur fus : code_inv K due anchor cur fus → code_inv K due anchor cur None.
Proof.
  intros [Hh Hu He Hrs Hn Hed Hdue Ha Hf Hhd]. split; try done; cbn [settled].
  - intros e t h Het. destruct (Hed e t h Het) as [? [?|?]]; split; eauto using hat_weaken.
  - eauto using hat_weaken.
Qed.
Lemma code_anchor K due anchor x :
  code_inv K due anchor (Some x) None →
  code_inv K due (λ ip y, anchor ip y ∨ ip = zlen (c_ops K) ∧ y = x) (Some x) None.
Proof.
  intros [Hh Hu He Hrs Hn Hed Hdue Ha Hf Hhd]. split; try done.
  intros ip y [?|[-> ->]]; [eauto|]. rewrite <- Hh. apply hat_end.
Qed.
(** Control may get to the next position by a branch. *)
Lemma code_raise K due anchor cur cur' : code_inv K due anchor cur None → below cur cur' → code_inv K due anchor cur' None.
Proof.
  intros [Hh Hu He Hrs Hn Hed Hdue Ha Hf Hhd] Hb. split; try done; cbn [settled] in *; eauto using hat_weaken.
  - intros ip op h Hop Hx. destruct (Hn ip op h Hop Hx) as (next & ? & ? & ?). exists next. split_and!; eauto using hat_weaken.
  - intros e t h Het. destruct (Hed e t h Het) as [? [?|?]]; split; eauto using hat_weaken.
Qed.
Lemma code_handler K due anchor cur fus sp :
  code_inv K due anchor cur fus → 0 ≤ hs_start_ip sp ≤ hs_end_ip sp → hs_end_ip sp ≤ zlen (c_ops K) →
  (∀ c, c ∈ hs_clauses sp → 0 ≤ hr_restore_height c ∧
    ∃ n, clause_payload ctx (hr_tag c) (hr_payload_args c) (hr_payload_ref c) = Some n ∧
      mjoin (zget (c_heights K) (hr_landing_ip c)) = Some (hr_restore_height c + n)) →
  code_inv {| c_ops := c_ops K; c_pool := c_pool K; c_handlers := c_handlers K ++ [sp]; c_heights := c_heights K;
              c_uses := c_uses K |} due anchor cur fus.
Proof.
  intros [Hh Hu He Hrs Hn Hed Hdue Ha Hf Hhd] ? ? ?. split; try done.
  cbn [c_handlers c_ops c_heights]. intros sp' [Hsp| ->%list_elem_of_singleton]%elem_of_app; [by apply Hhd|done].
Qed.

(** *** The finished function *)
Lemma code_finish K anchor cur n_results :
  code_inv K (λ _ _, False) anchor cur None → (∀ h, cur = Some h → h = n_results) →
  consistent ctx (c_ops K) (c_pool K) (c_handlers K) n_results (c_heights K).
Proof.
  intros [Hh Hu He Hrs Hn Hed Hdue Ha Hf Hhd] Hend.
  assert (∀ ip x, hat (c_heights K) cur ip = Some x → mjoin (zget (c_heights K ++ [Some n_results]) ip) = Some x) as Hup.
  { intros ip x. fold (hat (c_heights K) (Some n_results) ip). apply hat_weaken.
    destruct cur as [h|]; [right; f_equal; by apply Hend|by left]. }
  split; [done|by apply Hup| |done].
  intros ip op h Hop Hx. destruct (Hn ip op h Hop Hx) as (next & Hnx & Hf' & Hk).
  destruct (op_edges_split (c_pool K) (c_uses K) op h) as (es & Hes & Hall); [done| |done|].
  { eapply Forall_forall; [exact Hrs|]. by eapply zget_elem. }
  exists next, es. split_and!; [done..|by eauto|].
  apply Forall_forall. intros [t x] Hin.
  assert (∃ e, edge_of K e = Some (t, x)) as [e Hee].
  { destruct (Hall _ Hin) as [Hi|(k & _ & Ht & Hux)].
    - exists (EIn ip). cbn. by rewrite Hop, Hx.
    - exists (EPool k). cbn in *. by rewrite Ht, Hux. }
  destruct (Hed _ _ _ Hee) as [(? & ? & ?) [Hr|[]]]. unfold edge_ok. cbn. eauto.
Qed.
End code.
