(* ===== verification/Translated.v ===== *)
(** * Translated: the translator against the validator (about Compile.v and Lowering.v)

    The translator's frames and height follow the validator's ([sim]) as long as the code
    is reachable; with the invariant of the code ([code_inv]) that gives the state invariant
    [inv], which every operator the validator accepts keeps. *)
From S2P Require Import Prelude Keep Types Layout Codec Op Entity Compile Lowering Heights Compiled.
Open Scope Z_scope.

(** ** Patches and the frames that hold them *)
Definition patch_id (ops : list Op) (p : Patch) : option EdgeId :=
  match zget ops (pa_op p) with
  | Some (OpBrTable r) =>
      match pa_slot p with
      | TableCase k => Some (EPool (btr_base r + k))
      | TableDefault => Some (EPool (btr_base r + btr_len r))
      | Single => None
      end
  | Some (OpBrOnCast _ target | OpBrOnCastFail _ target) => Some (EPool (pool_index target))
  | Some op => if is_inline op then Some (EIn (pa_op p)) else None
  | None => None
  end.
Definition frame_due (ops : list Op) (f : CtrlFrame) (e : EdgeId) (x : Z) : Prop :=
  (∃ p, p ∈ ct_end_patches f ∧ patch_id ops p = Some e ∧ x = ct_base_height f + ct_result_count f) ∨
  (∃ ip, ct_else_patch f = Some ip ∧ e = EIn ip ∧ x = ct_base_height f + ct_param_count f).
Definition ctrl_due (ops : list Op) (ctrl : list CtrlFrame) (e : EdgeId) (x : Z) : Prop :=
  ∃ i f, zget ctrl i = Some f ∧ frame_due ops f e x.
Definition ctrl_anchor (ctrl : list CtrlFrame) (ip x : Z) : Prop :=
  ∃ i f, zget ctrl i = Some f ∧ ct_kind f = KLoop ∧ ct_reachable_on_entry f = true ∧ ip = ct_start_ip f ∧
    x = ct_base_height f + ct_param_count f.
Definition frame_ok (ops : list Op) (f : CtrlFrame) : Prop :=
  (∀ p, p ∈ ct_end_patches f → is_Some (patch_id ops p)) ∧ 0 ≤ ct_start_ip f ≤ zlen ops ∧
  (ct_kind f = KLoop → ct_end_patches f = []).
Definition frames_ok (ops : list Op) (ctrl : list CtrlFrame) : Prop := ∀ i f, zget ctrl i = Some f → frame_ok ops f.

(** [ops'] has the edges of [ops]. *)
Definition keeps_ids (ops ops' : list Op) : Prop :=
  zlen ops ≤ zlen ops' ∧ ∀ p e, patch_id ops p = Some e → patch_id ops' p = Some e.
Lemma keeps_ids_app ops k : keeps_ids ops (ops ++ k).
Proof.
  split; [rewrite zlen_app; pose proof (zlen_nonneg k); lia|]. intros p e. unfold patch_id.
  destruct (zget ops (pa_op p)) as [op|] eqn:Hop; [|done]. pose proof (zget_Some _ _ _ Hop).
  by rewrite zget_app_l, Hop by lia.
Qed.
Lemma frames_ok_ids ops ops' ctrl : keeps_ids ops ops' → frames_ok ops ctrl → frames_ok ops' ctrl.
Proof.
  intros [Hl Hid] Hok i f Hf. destruct (Hok i f Hf) as (Hp & Hs & Hk). split_and!; [|lia..|done].
  intros p [e He]%Hp. exists e. by apply Hid.
Qed.
Lemma ctrl_due_ids ops ops' ctrl e x : keeps_ids ops ops' → frames_ok ops ctrl → ctrl_due ops' ctrl e x ↔ ctrl_due ops ctrl e x.
Proof.
  intros [_ Hid] Hok. split; intros (i & f & Hf & [(p & Hp & He & ->)|Helse]); exists i, f; (split; [done|]); [|by right| |by right]; left.
  - destruct (Hok i f Hf) as (Hall & _). destruct (Hall p Hp) as [e' He']. exists p. split_and!; [done| |done].
    pose proof (Hid _ _ He'). congruence.
  - exists p. eauto.
Qed.

(** *** Registering patches *)
Definition register (ctrl : list CtrlFrame) (l : list (Z * Patch)) : list CtrlFrame :=
  foldl (λ c '(i, p), alter_at (add_patch p) i c) ctrl l.
Lemma zlen_register ctrl l : zlen (register ctrl l) = zlen ctrl.
Proof. revert ctrl. induction l as [|[i p] l IH]; intros ctrl; [done|]. cbn. rewrite IH. apply zlen_alter. Qed.
(** A frame after registering: the same but for its own patches. *)
Definition add_patches (ps : list Patch) (f : CtrlFrame) : CtrlFrame := foldl (λ f p, add_patch p f) f ps.
Lemma zget_register ctrl l j : zget (register ctrl l) j = add_patches (snd <$> filter (λ x, x.1 = j) l) <$> zget ctrl j.
Proof.
  revert ctrl. induction l as [|[i p] l IH]; intros ctrl; cbn [register foldl].
  - rewrite filter_nil. cbn. by destruct (zget ctrl j).
  - fold (register (alter_at (add_patch p) i ctrl) l). rewrite IH, zget_alter.
    rewrite filter_cons. cbn [fst]. destruct (Z.eqb_spec j i) as [->|]; [rewrite decide_True by done|rewrite decide_False by congruence; done].
    by destruct (zget ctrl i).
Qed.
Lemma add_patches_fields ps f :
  ct_kind (add_patches ps f) = ct_kind f ∧ ct_base_height (add_patches ps f) = ct_base_height f ∧
  ct_param_count (add_patches ps f) = ct_param_count f ∧ ct_result_count (add_patches ps f) = ct_result_count f ∧
  ct_start_ip (add_patches ps f) = ct_start_ip f ∧ ct_else_patch (add_patches ps f) = ct_else_patch f ∧
  ct_reachable_on_entry (add_patches ps f) = ct_reachable_on_entry f ∧ ct_clauses (add_patches ps f) = ct_clauses f ∧
  ct_end_patches (add_patches ps f) = ct_end_patches f ++ ps ∧
  ct_end_targeted (add_patches ps f) = ct_end_targeted f || negb (bool_decide (ps = [])).
Proof.
  revert f. induction ps as [|p ps IH]; intros f; [cbn; by rewrite app_nil_r, orb_false_r; split_and!|].
  cbn [add_patches foldl]. fold (add_patches ps (add_patch p f)).
  destruct (IH (add_patch p f)) as (-> & -> & -> & -> & -> & -> & -> & -> & -> & ->).
  cbn. rewrite <- app_assoc. split_and!; try done. by rewrite orb_true_r.
Qed.
Ltac fields ps f :=
  let H := fresh in pose proof (add_patches_fields ps f) as H; destruct H as (?F1 & ?F2 & ?F3 & ?F4 & ?F5 & ?F6 & ?F7 & ?F8 & ?F9 & ?F10).

Lemma register_due ops ctrl l e x :
  ctrl_due ops (register ctrl l) e x ↔
  ctrl_due ops ctrl e x ∨ ∃ i p f, (i, p) ∈ l ∧ zget ctrl i = Some f ∧ patch_id ops p = Some e ∧
    x = ct_base_height f + ct_result_count f.
Proof.
  split.
  - intros (i & f' & Hf' & Hdue). rewrite zget_register in Hf'. destruct (zget ctrl i) as [f|] eqn:Hf; [|done].
    injection Hf' as <-. set (ps := snd <$> _) in *. fields ps f. unfold frame_due in Hdue. rewrite F2, F3, F4, F6, F9 in Hdue.
    destruct Hdue as [(p & [Hp|Hp]%elem_of_app & He & ->)|Helse].
    + left. exists i, f. split; [done|]. left. eauto.
    + right. subst ps. apply list_elem_of_fmap in Hp as ([j p'] & -> & [Hj Hl]%list_elem_of_filter).
      cbn in Hj. subst j. exists i, p', f. done.
    + left. exists i, f. split; [done|]. by right.
  - intros [(i & f & Hf & Hdue)|(i & p & f & Hl & Hf & He & ->)].
    + exists i. rewrite zget_register, Hf. eexists. split; [done|]. set (ps := snd <$> _). fields ps f.
      unfold frame_due. rewrite F2, F3, F4, F6, F9. destruct Hdue as [(p & ? & ? & ?)|]; [left|by right].
      exists p. split_and!; [by apply elem_of_app; left|done..].
    + exists i. rewrite zget_register, Hf. eexists. split; [done|]. set (ps := snd <$> _). fields ps f.
      left. exists p. rewrite F2, F4, F9. split_and!; [|done..]. apply elem_of_app. right.
      apply list_elem_of_fmap. exists (i, p). split; [done|]. by apply list_elem_of_filter.
Qed.
Lemma register_anchor ctrl l ip x : ctrl_anchor (register ctrl l) ip x ↔ ctrl_anchor ctrl ip x.
Proof.
  split.
  - intros (i & f' & Hf' & Ha). rewrite zget_register in Hf'. destruct (zget ctrl i) as [f|] eqn:Hf; [|done].
    injection Hf' as <-. set (ps := snd <$> _) in *. fields ps f. exists i, f. split; [done|]. by rewrite F1, F2, F3, F5, F7 in Ha.
  - intros (i & f & Hf & Ha). exists i. rewrite zget_register, Hf. eexists. split; [done|]. set (ps := snd <$> _). fields ps f.
    by rewrite F1, F2, F3, F5, F7.
Qed.
Lemma register_ok ops ctrl l : frames_ok ops ctrl →
  (∀ i p, (i, p) ∈ l → is_Some (patch_id ops p) ∧ ∃ f, zget ctrl i = Some f ∧ ct_kind f ≠ KLoop) → frames_ok ops (register ctrl l).
Proof.
  intros Hok Hl i f' Hf'. rewrite zget_register in Hf'. destruct (zget ctrl i) as [f|] eqn:Hf; [|done].
  injection Hf' as <-. set (ps := snd <$> _) in *. fields ps f. destruct (Hok i f Hf) as (Hp & Hs & Hk).
  assert (∀ p, p ∈ ps → (i, p) ∈ l) as Hps.
  { intros p Hp'. subst ps. by apply list_elem_of_fmap in Hp' as ([j p'] & -> & [Hj ?]%list_elem_of_filter); cbn in Hj; subst j. }
  split_and!; [|rewrite F5; lia..|].
  - intros p. rewrite F9. intros [?|Hp']%elem_of_app; [by apply Hp|]. by eapply Hl, Hps.
  - rewrite F1, F9. intros Hloop. rewrite (Hk Hloop). destruct ps as [|p ps'] eqn:Hpe; [done|].
    destruct (Hl i p) as (_ & g & Hg & Hne); [apply Hps; by left|]. congruence.
Qed.

(** ** The translator and the validator *)
Section sim.
Context (ctx : CompileCtx).

Record fsim (f : CtrlFrame) (g : VFrame) : Prop := {
  fs_kind : ct_kind f = vf_kind g;
  fs_params : ct_param_count f = vf_params g;
  fs_results : ct_result_count f = vf_results g;
  fs_arities : 0 ≤ vf_params g ≤ MAX_ARITY ∧ 0 ≤ vf_results g ≤ MAX_ARITY;
  fs_height : 0 ≤ vf_height g ≤ MAX_HEIGHT;
  fs_base : ct_reachable_on_entry f = true → ct_base_height f = vf_height g;
  fs_else : is_Some (ct_else_patch f) → ct_reachable_on_entry f = true ∧ vf_else g = false ∧ vf_kind g = KIf;
  fs_targeted : ct_end_targeted f = true → ct_reachable_on_entry f = true;
  fs_patches : ct_end_patches f ≠ [] → ct_end_targeted f = true;
  fs_clauses : ∀ c, c ∈ ct_clauses f → is_Some (clause_payload ctx (hc_tag c) (hc_payload_args c) (hc_payload_ref c));
}.
(** The code at a place inside the last of these frames is reachable. *)
Definition live (ctrl : list CtrlFrame) (vf : list VFrame) : Prop :=
  ∀ f g, zget ctrl (zlen ctrl - 1) = Some f → zget vf (zlen ctrl - 1) = Some g →
    ct_reachable_on_entry f = true ∧ vf_unreachable g = false.
Definition frames_sim (ctrl : list CtrlFrame) (vf : list VFrame) : Prop :=
  zlen ctrl = zlen vf ∧ ∀ i f g, zget ctrl i = Some f → zget vf i = Some g →
    fsim f g ∧ (ct_reachable_on_entry f = true → ∀ f' g', zget ctrl (i - 1) = Some f' → zget vf (i - 1) = Some g' →
      ct_reachable_on_entry f' = true ∧ vf_unreachable g' = false).

Lemma frames_sim_nil : frames_sim [] [].
Proof. split; [done|]. intros i f g. by rewrite zget_nil. Qed.
Lemma frames_sim_snoc ctrl vf f g :
  frames_sim (ctrl ++ [f]) (vf ++ [g]) ↔
  frames_sim ctrl vf ∧ fsim f g ∧ (ct_reachable_on_entry f = true → live ctrl vf).
Proof.
  unfold frames_sim, live. rewrite !zlen_snoc. split.
  - intros [Hl Hall]. assert (zlen ctrl = zlen vf) as Hl' by lia.
    destruct (Hall (zlen ctrl) f g) as [Hfg Hr]; [by rewrite zget_snoc, Z.eqb_refl|by rewrite zget_snoc, Hl', Z.eqb_refl|].
    split_and!; [done| |done|].
    + intros i f1 g1 Hf1 Hg1. pose proof (zget_Some _ _ _ Hf1).
      destruct (Hall i f1 g1) as [? Hr1]; [by rewrite zget_app_l by lia|by rewrite zget_app_l by lia|]. split; [done|].
      intros Hre f' g' Hf' Hg'. pose proof (zget_Some _ _ _ Hf'). apply Hr1; [done|by rewrite zget_app_l by lia..].
    + intros Hre f' g' Hf' Hg'. pose proof (zget_Some _ _ _ Hf'). by apply Hr; [done|rewrite zget_app_l by lia..].
  - intros ([Hl Hall] & Hfg & Hlive). split; [lia|]. intros i f1 g1.
    rewrite (zget_snoc ctrl f i), (zget_snoc vf g i), Hl. destruct (Z.eqb_spec i (zlen vf)) as [->|Hne].
    + intros [= <-] [= <-]. split; [done|]. intros Hre f' g'. rewrite !zget_app_l by lia. rewrite <- Hl. by apply Hlive.
    + intros Hf1 Hg1. pose proof (zget_Some _ _ _ Hf1). destruct (Hall i f1 g1 Hf1 Hg1) as [? Hr]. split; [done|].
      intros Hre f' g'. rewrite !zget_app_l by lia. by apply Hr.
Qed.
(** Around reachable code every frame was entered reachable. *)
Lemma frames_live ctrl vf i f : frames_sim ctrl vf → live ctrl vf → zget ctrl i = Some f → ct_reachable_on_entry f = true.
Proof.
  intros [Hl Hall] Hlive. remember (Z.to_nat (zlen ctrl - 1 - i)) as k eqn:Hk. revert i f Hk.
  induction k as [|k IH]; intros i f Hk Hf; pose proof (zget_Some _ _ _ Hf) as Hi.
  - assert (i = zlen ctrl - 1) as -> by lia. destruct (zget_is_Some vf (zlen ctrl - 1)) as [g Hg]; [lia|]. by eapply Hlive.
  - destruct (zget_is_Some ctrl (i + 1)) as [f1 Hf1]; [lia|]. destruct (zget_is_Some vf (i + 1)) as [g1 Hg1]; [lia|].
    destruct (zget_is_Some vf i) as [g Hg]; [lia|]. destruct (Hall _ _ _ Hf1 Hg1) as [_ Hr].
    apply (Hr (IH (i + 1) f1 ltac:(lia) Hf1) f g); by replace (i + 1 - 1) with i by lia.
Qed.

Lemma fsim_patches ps f g : fsim f g → (ps ≠ [] → ct_reachable_on_entry f = true) → fsim (add_patches ps f) g.
Proof.
  intros [Hk Hp Hr Ha Hh Hb He Ht Hps Hc] Hre. fields ps f.
  split; rewrite ?F1, ?F2, ?F3, ?F4, ?F6, ?F7, ?F8, ?F9, ?F10; try done.
  - destruct ps; cbn; [by rewrite orb_false_r|]. intros _. by apply Hre.
  - destruct ps; cbn; rewrite ?orb_true_r, ?orb_false_r; [by rewrite app_nil_r|done].
Qed.
Lemma register_sim ctrl l vf :
  frames_sim ctrl vf → (∀ i p f, (i, p) ∈ l → zget ctrl i = Some f → ct_reachable_on_entry f = true) → frames_sim (register ctrl l) vf.
Proof.
  intros [Hl Hall] Hre. split; [by rewrite zlen_register|]. intros i f' g Hf' Hg. rewrite zget_register in Hf'.
  destruct (zget ctrl i) as [f|] eqn:Hf; [|done]. injection Hf' as <-. set (ps := snd <$> _) in *.
  destruct (Hall i f g Hf Hg) as [Hsim Hr]. split.
  - apply fsim_patches; [done|]. intros Hne. subst ps. destruct (filter _ l) as [|[j p] k] eqn:Hfl; [done|].
    assert ((j, p) ∈ filter (λ x : Z * Patch, x.1 = i) l) as [Hj Hin]%list_elem_of_filter by (rewrite Hfl; by left).
    cbn in Hj. subst j. by eapply Hre.
  - destruct (add_patches_fields ps f) as (_ & _ & _ & _ & _ & _ & -> & _). intros Hr' f1' g1 Hf1' Hg1.
    rewrite zget_register in Hf1'. destruct (zget ctrl (i - 1)) as [f1|] eqn:Hf1; [|done]. injection Hf1' as <-.
    destruct (add_patches_fields (snd <$> filter (λ x, x.1 = i - 1) l) f1) as (_ & _ & _ & _ & _ & _ & -> & _). by apply Hr.
Qed.
Lemma register_live ctrl l vf : live ctrl vf → live (register ctrl l) vf.
Proof.
  intros Hl f' g. rewrite zlen_register, zget_register. intros Hf' Hg. destruct (zget ctrl _) as [f|] eqn:Hf; [|done].
  injection Hf' as <-. set (ps := snd <$> _) in *. fields ps f. rewrite F7. by apply Hl.
Qed.

(** ** How the code grows, with the frames that wait for it *)
Definition cinv (K : Code) (ctrl : list CtrlFrame) (cur : option Z) (fus : option CmpKind) : Prop :=
  code_inv ctx K (ctrl_due (c_ops K) ctrl) (ctrl_anchor ctrl) cur fus ∧ frames_ok (c_ops K) ctrl.

(** An instruction without edges. *)
Lemma emit_simple K ctrl cur fus op cur' :
  cinv K ctrl cur fus → is_inline op = false → (∀ k, ¬ uses op k) → range_ok op →
  (∀ h, cur = Some h → ∃ next, op_next ctx op h = Some next ∧ ∀ h', next = Some h' → cur' = Some h') →
  (is_Some (fusable_cmp_of op) → is_Some cur) →
  cinv (add_op K op [] [] cur) ctrl cur' (fusable_cmp_of op).
Proof.
  intros [HK Hok] Hni Hnu Hr Hop Hfus. pose proof (keeps_ids_app (c_ops K) [op]) as Hids.
  split; [|by eapply frames_ok_ids]. apply code_emit with (due := ctrl_due (c_ops K) ctrl) (fus := fus); try done.
  - intros h Hc. destruct (Hop h Hc) as (next & ? & ?). exists next. split_and!; [done..|]. intros k Hk. by destruct (Hnu k).
  - intros k Hk. destruct Hfus as [h Hh]; [by exists k|]. destruct (Hop h Hh) as (next & Hnx & Hcur).
    destruct (fusable_effect ctx op k Hk) as (_ & _ & _ & Hx). rewrite Hx in Hnx.
    destruct (2 <=? h); [|done]. injection Hnx as <-. exists (h - 1). split_and!; [by rewrite Hh; f_equal; lia| |done].
    rewrite (Hcur _ eq_refl). f_equal. lia.
  - intros e x. apply (ctrl_due_ids _ _ ctrl e x Hids Hok).
  - intros e x Hx. left. by apply (ctrl_due_ids _ _ ctrl e x Hids Hok).
  - intros [ip|k] t h; cbn [new_edge edge_of add_op c_ops c_pool c_heights c_uses].
    + intros ->. rewrite zget_snoc, Z.eqb_refl. destruct (mjoin _) as [y|]; [|done]. unfold is_inline in Hni. by destruct op.
    + intros ?. rewrite app_nil_r, (zget_None (c_pool K)) by lia. done.
Qed.

(** Where a branch taken at height [h] goes: back to a loop, or to the end of the frame
    [fr], when it is patched. *)
Definition goes (ctrl : list CtrlFrame) (h : Z) (t : BranchTarget) (fr : option Z) : Prop :=
  fits t h ∧ ∃ i f, zget ctrl i = Some f ∧ h - bt_pop t = ct_base_height f + label_arity f ∧
    match fr with
    | None => ct_kind f = KLoop ∧ ct_reachable_on_entry f = true ∧ bt_ip t = ct_start_ip f
    | Some j => j = i ∧ ct_kind f ≠ KLoop
    end.
Lemma emit_branchy K ctrl cur fus op ts us l cur' :
  cinv K ctrl cur fus → zlen us = zlen ts → range_ok op → fusable_cmp_of op = None →
  (∀ h, cur = Some h → ∃ next, op_next ctx op h = Some next ∧ (∀ h', next = Some h' → cur' = Some h') ∧
    ∀ k, uses op k → zget (c_uses K ++ us) k = Some (pool_height op h)) →
  (∀ i p, (i, p) ∈ l → ∃ f e, (zget ctrl i = Some f ∧ ct_kind f ≠ KLoop) ∧ patch_id (c_ops K ++ [op]) p = Some e ∧ new_edge K e ∧
    valid_edge (add_op K op ts us cur) e ∧
    ∀ t h, edge_of (add_op K op ts us cur) e = Some (t, h) → h - bt_pop t = ct_base_height f + ct_result_count f) →
  (∀ e t h, new_edge K e → edge_of (add_op K op ts us cur) e = Some (t, h) → ∃ fr, goes ctrl h t fr ∧
    ∀ i, fr = Some i → ∃ p, (i, p) ∈ l ∧ patch_id (c_ops K ++ [op]) p = Some e) →
  cinv (add_op K op ts us cur) (register ctrl l) cur' None.
Proof.
  intros [HK Hok] Hlen Hr Hnf Hop Hl Hnew. pose proof (keeps_ids_app (c_ops K) [op]) as Hids.
  assert (frames_ok (c_ops K ++ [op]) ctrl) as Hok' by (by eapply frames_ok_ids).
  split.
  - eapply code_mono with (anchor := ctrl_anchor ctrl) (due := ctrl_due (c_ops K ++ [op]) (register ctrl l)); [|done| |by left].
    2:{ intros ip x. apply register_anchor. }
    apply code_emit with (due := ctrl_due (c_ops K) ctrl) (fus := fus); try done.
    + intros e x Hx. apply register_due. left. by apply (ctrl_due_ids _ _ ctrl e x Hids Hok).
    + intros e x [Hx|(i & p & f & Hin & Hf & He & ->)]%register_due.
      * left. by apply (ctrl_due_ids _ _ ctrl e x Hids Hok).
      * right. destruct (Hl i p Hin) as (f' & e' & [Hf' _] & He' & ? & ? & Hx). assert (e' = e) as -> by congruence.
        assert (f' = f) as -> by congruence. done.
    + intros e t h Hne Het. destruct (Hnew e t h Hne Het) as (fr & [Hfit (i & f & Hf & Hh & Hfr)] & Hp). split; [done|].
      destruct fr as [j|].
      * right. destruct Hfr as [-> Hkind]. destruct (Hp i eq_refl) as (p & Hin & He). apply register_due. right.
        exists i, p, f. split_and!; [done..|]. rewrite Hh. unfold label_arity. by rewrite bool_decide_false.
      * left. destruct Hfr as (Hkind & Hre & ->). eapply hat_weaken; [apply (settled_below fus)|].
        apply (ci_anchor _ _ _ _ _ _ HK). exists i, f. rewrite Hh. unfold label_arity. by rewrite bool_decide_true.
  - apply register_ok; [done|]. intros i p Hin. destruct (Hl i p Hin) as (f & e & Hf & He & _). split; [by exists e|by exists f].
Qed.

(** One inline edge. *)
Definition forward (fr : option Z) (op : Z) (slot : PatchSlot) : list (Z * Patch) :=
  match fr with Some i => [(i, {| pa_op := op; pa_slot := slot |})] | None => [] end.
Lemma patch_id_new K op slot : is_inline op = true →
  patch_id (c_ops K ++ [op]) {| pa_op := zlen (c_ops K); pa_slot := slot |} = Some (EIn (zlen (c_ops K))).
Proof. intros Hi. unfold patch_id. cbn [pa_op]. rewrite zget_snoc, Z.eqb_refl, Hi. by destruct op. Qed.
Lemma is_inline_any op h e : inline_edge op h = Some e → is_inline op = true.
Proof. unfold is_inline. by destruct op. Qed.
Lemma emit_inline K ctrl h fus op t hb fr cur' next :
  cinv K ctrl (Some h) fus → inline_edge op h = Some (t, hb) → goes ctrl hb t fr →
  op_next ctx op h = Some next → (∀ h', next = Some h' → cur' = Some h') →
  cinv (add_op K op [] [] (Some h)) (register ctrl (forward fr (zlen (c_ops K)) Single)) cur' None.
Proof.
  intros HK He Hg Hnx Hcur. pose proof (is_inline_any _ _ _ He) as Hi.
  pose proof (ci_heights _ _ _ _ _ _ (proj1 HK)) as Hlen.
  assert (∀ t' y, edge_of (add_op K op [] [] (Some h)) (EIn (zlen (c_ops K))) = Some (t', y) → t' = t ∧ y = hb) as Hedge.
  { intros t' y. cbn. rewrite !zget_snoc, Z.eqb_refl, Hlen, Z.eqb_refl. cbn. rewrite He. by intros [= <- <-]. }
  apply emit_branchy with (fus := fus); try done.
  - by destruct op.
  - by destruct op.
  - intros h0 [= <-]. exists next. split_and!; [done..|]. intros k. by destruct op.
  - intros i p. unfold forward. destruct fr as [j|]; [|by intros ?%elem_of_nil].
    intros [= -> ->]%list_elem_of_singleton. destruct Hg as [_ (i & f & Hf & Hh & [-> Hk])].
    exists f, (EIn (zlen (c_ops K))). split_and!; [done|done|by apply patch_id_new|done| |].
    + exists op. cbn. by rewrite zget_snoc, Z.eqb_refl.
    + intros t' y [-> ->]%Hedge. rewrite Hh. unfold label_arity. by rewrite bool_decide_false.
  - intros [ip|k] t' y Hne Het; cbn [new_edge] in Hne.
    + subst ip. apply Hedge in Het as [-> ->]. exists fr. split; [done|]. intros i ->. eexists. split; [by left|]. by apply patch_id_new.
    + cbn in Het. by rewrite app_nil_r, zget_None in Het by lia.
Qed.

(** Edges in the side table, all used by the one new instruction. *)
Lemma emit_pooled K ctrl h fus op hb es l cur' next :
  cinv K ctrl (Some h) fus → is_inline op = false → range_ok op → fusable_cmp_of op = None →
  op_next ctx op h = Some next → (∀ h', next = Some h' → cur' = Some h') → hb = pool_height op h →
  (∀ k, uses op k → zlen (c_pool K) ≤ k < zlen (c_pool K) + zlen es) →
  (∀ j t fr, zget es j = Some (t, fr) → goes ctrl hb t fr ∧ ∀ i, fr = Some i →
    ∃ p, (i, p) ∈ l ∧ patch_id (c_ops K ++ [op]) p = Some (EPool (zlen (c_pool K) + j))) →
  (∀ i p, (i, p) ∈ l → ∃ j t, zget es j = Some (t, Some i) ∧ patch_id (c_ops K ++ [op]) p = Some (EPool (zlen (c_pool K) + j))) →
  cinv (add_op K op (fst <$> es) (replicate (length es) hb) (Some h)) (register ctrl l) cur' None.
Proof.
  intros HK Hi Hr Hf Hnx Hcur -> Huse Hes Hl. pose proof (ci_uses _ _ _ _ _ _ (proj1 HK)) as Hlen.
  assert (∀ j t y, 0 ≤ j → edge_of (add_op K op (fst <$> es) (replicate (length es) (pool_height op h)) (Some h))
    (EPool (zlen (c_pool K) + j)) = Some (t, y) → ∃ fr, zget es j = Some (t, fr) ∧ y = pool_height op h) as Hedge.
  { intros j t y Hj. cbn. rewrite !zget_app_r by lia. rewrite Hlen, Z.add_simpl_l, zget_fmap.
    destruct (zget es j) as [[t' fr]|] eqn:He; [|done]. pose proof (zget_Some _ _ _ He) as Hb. cbn.
    rewrite zget_replicate by (unfold zlen in Hb; lia). intros [= <- <-]. eauto. }
  apply emit_branchy with (fus := fus); try done.
  - by rewrite zlen_replicate, zlen_fmap.
  - intros h0 [= <-]. exists next. split_and!; [done..|]. intros k Hk. pose proof (Huse k Hk).
    rewrite zget_app_r by lia. apply zget_replicate. unfold zlen in *. lia.
  - intros i p Hin. destruct (Hl i p Hin) as (j & t & Hj & Hp). destruct (Hes j t (Some i) Hj) as [[_ (i' & f & Hf' & Hh & [-> Hk])] _].
    pose proof (zget_Some _ _ _ Hj) as Hb. exists f, (EPool (zlen (c_pool K) + j)). split_and!; [done..| | |].
    + cbn. lia.
    + cbn. pose proof (zlen_nonneg (c_pool K)). rewrite zlen_app, zlen_fmap. lia.
    + intros t' y Het. apply Hedge in Het as (fr & Hj' & ->); [|lia]. assert (t' = t) as -> by congruence.
      rewrite Hh. unfold label_arity. by rewrite bool_decide_false.
  - intros [ip|k] t y Hne Het; cbn [new_edge] in Hne.
    + subst ip. cbn in Het. rewrite !zget_snoc, Z.eqb_refl in Het. destruct (mjoin _) in Het; [|done].
      unfold is_inline in Hi. by destruct op.
    + replace k with (zlen (c_pool K) + (k - zlen (c_pool K))) in Het |- * by lia.
      apply Hedge in Het as (fr & Hj & ->); [|lia]. exists fr. by apply Hes.
Qed.

(** *** Fusing with the comparison before *)
Definition fused (K : Code) (kind : CmpKind) (negate : bool) (t : BranchTarget) : Code :=
  set_c_ops (<[Z.to_nat (zlen (c_ops K) - 1) := OpBrIfCmp kind negate t]> (c_ops K)) K.
Lemma fused_get K kind negate t i : 0 < zlen (c_ops K) →
  zget (c_ops (fused K kind negate t)) i = if i =? zlen (c_ops K) - 1 then Some (OpBrIfCmp kind negate t) else zget (c_ops K) i.
Proof.
  intros. cbn. destruct (Z.eqb_spec i (zlen (c_ops K) - 1)) as [->|]; [apply zget_insert_eq; lia|]. by rewrite zget_insert_ne by lia.
Qed.
Lemma fused_ids K kind negate t cmp k :
  zget (c_ops K) (zlen (c_ops K) - 1) = Some cmp → fusable_cmp_of cmp = Some k → keeps_ids (c_ops K) (c_ops (fused K kind negate t)).
Proof.
  intros Hc Hk. pose proof (zget_Some _ _ _ Hc). split; [cbn; rewrite zlen_insert; lia|].
  intros p e. unfold patch_id. rewrite fused_get by lia. destruct (Z.eqb_spec (pa_op p) (zlen (c_ops K) - 1)) as [->|]; [|done].
  rewrite Hc. by destruct cmp.
Qed.
Lemma fuse_branch K ctrl h kind negate t fr :
  cinv K ctrl (Some h) (Some kind) → goes ctrl (h - 1) t fr →
  cinv (fused K kind negate t) (register ctrl (forward fr (zlen (c_ops K) - 1) Single)) (Some (h - 1)) None.
Proof.
  intros [HK Hok] [Hfit (i & f & Hf & Hh & Hfr)]. destruct (ci_fusable _ _ _ _ _ _ HK kind eq_refl) as (h0 & cmp & [= <-] & Hcmp & Hc & _).
  pose proof (fused_ids K kind negate t cmp kind Hcmp Hc) as Hids. pose proof (zget_Some _ _ _ Hcmp).
  assert (patch_id (c_ops (fused K kind negate t)) {| pa_op := zlen (c_ops K) - 1; pa_slot := Single |} = Some (EIn (zlen (c_ops K) - 1))) as Hp.
  { unfold patch_id. cbn [pa_op]. by rewrite fused_get, Z.eqb_refl by lia. }
  assert (frames_ok (c_ops (fused K kind negate t)) ctrl) as Hok' by (by eapply frames_ok_ids).
  split.
  - eapply code_mono with (anchor := ctrl_anchor ctrl)
      (due := ctrl_due (c_ops (fused K kind negate t)) (register ctrl (forward fr (zlen (c_ops K) - 1) Single))); [|done| |by left].
    2:{ intros ip x. apply register_anchor. }
    apply code_fuse with (due := ctrl_due (c_ops K) ctrl); try done.
    + intros e x Hx. apply register_due. left. by apply (ctrl_due_ids _ _ ctrl e x Hids Hok).
    + intros e x [Hx|(j & p & g & Hin & Hg & He & ->)]%register_due.
      * left. by apply (ctrl_due_ids _ _ ctrl e x Hids Hok).
      * right. unfold forward in Hin. destruct fr as [j'|]; [|by apply elem_of_nil in Hin].
        apply list_elem_of_singleton in Hin as [= -> ->]. rewrite Hp in He. injection He as <-. split; [done|].
        destruct Hfr as [-> Hk]. assert (g = f) as -> by congruence. rewrite Hh. unfold label_arity. by rewrite bool_decide_false.
    + destruct fr as [j|].
      * right. destruct Hfr as [-> Hkind]. apply register_due. right. eexists i, _, f. split_and!; [by left|done..|].
        rewrite Hh. unfold label_arity. by rewrite bool_decide_false.
      * left. destruct Hfr as (Hkind & Hre & ->). apply (ci_anchor _ _ _ _ _ _ HK). exists i, f. split_and!; try done.
        rewrite Hh. unfold label_arity. by rewrite bool_decide_true.
  - apply register_ok; [done|]. intros j p Hin. unfold forward in Hin. destruct fr as [j'|]; [|by apply elem_of_nil in Hin].
    apply list_elem_of_singleton in Hin as [= -> ->]. rewrite Hp. split; [done|]. destruct Hfr as [-> ?]. by exists f.
Qed.

(** *** Opening a frame *)
Lemma ctrl_due_snoc ops ctrl f e x : ctrl_due ops (ctrl ++ [f]) e x ↔ ctrl_due ops ctrl e x ∨ frame_due ops f e x.
Proof.
  split.
  - intros (i & g & Hg & Hd). rewrite zget_snoc in Hg. destruct (Z.eqb_spec i (zlen ctrl)); [right; by injection Hg as <-|left; by exists i, g].
  - intros [(i & g & Hg & Hd)|Hd].
    + exists i, g. pose proof (zget_Some _ _ _ Hg). by rewrite zget_app_l by lia.
    + exists (zlen ctrl), f. by rewrite zget_snoc, Z.eqb_refl.
Qed.
Lemma ctrl_anchor_snoc ctrl f ip x :
  ctrl_anchor (ctrl ++ [f]) ip x ↔ ctrl_anchor ctrl ip x ∨
    ct_kind f = KLoop ∧ ct_reachable_on_entry f = true ∧ ip = ct_start_ip f ∧ x = ct_base_height f + ct_param_count f.
Proof.
  split.
  - intros (i & g & Hg & Hd). rewrite zget_snoc in Hg. destruct (Z.eqb_spec i (zlen ctrl)); [right; by injection Hg as <-|left; by exists i, g].
  - intros [(i & g & Hg & Hd)|Hd].
    + exists i, g. pose proof (zget_Some _ _ _ Hg). by rewrite zget_app_l by lia.
    + exists (zlen ctrl), f. by rewrite zget_snoc, Z.eqb_refl.
Qed.
Lemma frames_ok_snoc ops ctrl f : frames_ok ops (ctrl ++ [f]) ↔ frames_ok ops ctrl ∧ frame_ok ops f.
Proof.
  split.
  - intros H. split; [|apply (H (zlen ctrl)); by rewrite zget_snoc, Z.eqb_refl].
    intros i g Hg. pose proof (zget_Some _ _ _ Hg). apply (H i). by rewrite zget_app_l by lia.
  - intros [H1 H2] i g. rewrite zget_snoc. destruct (i =? zlen ctrl); [by intros [= <-]|apply H1].
Qed.
Lemma open_frame_cinv K ctrl f cur :
  code_inv ctx K (λ e x, ctrl_due (c_ops K) ctrl e x ∨
    ∃ ip, ct_else_patch f = Some ip ∧ e = EIn ip ∧ x = ct_base_height f + ct_param_count f) (ctrl_anchor ctrl) cur None →
  frames_ok (c_ops K) ctrl → ct_end_patches f = [] → ct_start_ip f = zlen (c_ops K) →
  (ct_kind f = KLoop → ct_reachable_on_entry f = true → cur = Some (ct_base_height f + ct_param_count f)) →
  cinv K (ctrl ++ [f]) cur None.
Proof.
  intros HK Hok Hps Hs Hloop. pose proof (zlen_nonneg (c_ops K)). split.
  - assert (∀ e x, ctrl_due (c_ops K) (ctrl ++ [f]) e x ↔ ctrl_due (c_ops K) ctrl e x ∨
      ∃ ip, ct_else_patch f = Some ip ∧ e = EIn ip ∧ x = ct_base_height f + ct_param_count f) as Hdue.
    { intros e x. rewrite ctrl_due_snoc. unfold frame_due. rewrite Hps. split; [|naive_solver].
      intros [?|[(p & ?%elem_of_nil & _)|?]]; naive_solver. }
    destruct (decide (ct_kind f = KLoop ∧ ct_reachable_on_entry f = true)) as [[Hk Hr]|Hn].
    + rewrite (Hloop Hk Hr) in *. eapply code_mono; [by apply code_anchor| | |].
      * intros e x. apply Hdue.
      * intros ip x [?|(_ & _ & -> & ->)]%ctrl_anchor_snoc; [by left|]. right. by rewrite Hs.
      * intros e x ?. left. by apply Hdue.
    + eapply code_mono; [done|intros e x; apply Hdue| |intros e x ?; left; by apply Hdue].
      intros ip x [?|(? & ? & _)]%ctrl_anchor_snoc; [done|]. by destruct Hn.
  - apply frames_ok_snoc. split; [done|]. split; [rewrite Hps; by intros p ?%elem_of_nil|split; [lia|done]].
Qed.

(** The branch of an [if] to its [else], before its frame is there. *)
Definition else_due (ops : list Op) (ctrl : list CtrlFrame) (idx x : Z) (e : EdgeId) (y : Z) : Prop :=
  ctrl_due ops ctrl e y ∨ e = EIn idx ∧ y = x.
Lemma emit_if K ctrl h fus :
  cinv K ctrl (Some h) fus → 1 ≤ h →
  let K' := add_op K (OpBrIfNot no_target) [] [] (Some h) in
  code_inv ctx K' (else_due (c_ops K') ctrl (zlen (c_ops K)) (h - 1)) (ctrl_anchor ctrl) (Some (h - 1)) None ∧
  frames_ok (c_ops K') ctrl.
Proof.
  intros [HK Hok] Hh K'. pose proof (keeps_ids_app (c_ops K) [OpBrIfNot no_target]) as Hids.
  pose proof (ci_heights _ _ _ _ _ _ HK) as Hlen.
  assert (∀ t x, edge_of K' (EIn (zlen (c_ops K))) = Some (t, x) → t = no_target ∧ x = h - 1) as Hedge.
  { intros t x. cbn. rewrite !zget_snoc, Hlen, Z.eqb_refl. by intros [= <- <-]. }
  split; [|by eapply frames_ok_ids].
  apply code_emit with (due := ctrl_due (c_ops K) ctrl) (fus := fus); try done.
  - intros x [= <-]. eexists. split; [cbn; by rewrite (proj2 (Z.leb_le 1 h))|]. split; [by intros ? [= <-]|done].
  - intros e x Hx. left. by apply (ctrl_due_ids _ _ ctrl e x Hids Hok).
  - intros e x [Hx|[-> ->]]; [left; by apply (ctrl_due_ids _ _ ctrl e x Hids Hok)|right]. split_and!; [|done|].
    + exists (OpBrIfNot no_target). cbn. by rewrite zget_snoc, Z.eqb_refl.
    + intros t x [-> ->]%Hedge. cbn. lia.
  - intros [ip|k] t x Hne Het; cbn [new_edge] in Hne.
    + subst ip. apply Hedge in Het as [-> ->]. split; [unfold fits; cbn; lia|]. right. right. split; [done|]. cbn. lia.
    + cbn in Het. by rewrite app_nil_r, zget_None in Het by lia.
Qed.
Lemma fuse_if K ctrl h kind :
  cinv K ctrl (Some h) (Some kind) → 1 ≤ h →
  let K' := fused K kind true no_target in
  code_inv ctx K' (else_due (c_ops K') ctrl (zlen (c_ops K) - 1) (h - 1)) (ctrl_anchor ctrl) (Some (h - 1)) None ∧
  frames_ok (c_ops K') ctrl.
Proof.
  intros [HK Hok] Hh K'. destruct (ci_fusable _ _ _ _ _ _ HK kind eq_refl) as (h0 & cmp & [= <-] & Hcmp & Hc & _).
  pose proof (fused_ids K kind true no_target cmp kind Hcmp Hc) as Hids. split; [|by eapply frames_ok_ids].
  apply code_fuse with (due := ctrl_due (c_ops K) ctrl); try done.
  - intros e x Hx. left. by apply (ctrl_due_ids _ _ ctrl e x Hids Hok).
  - intros e x [Hx|[-> ->]]; [left; by apply (ctrl_due_ids _ _ ctrl e x Hids Hok)|right]. split; [done|]. cbn. lia.
  - unfold fits. cbn. lia.
  - right. right. split; [done|]. cbn. lia.
Qed.

(** *** Patching what a frame waits for *)
Lemma patch_id_patch e ip K p : patch_id (c_ops (patch_code e ip K)) p = patch_id (c_ops K) p.
Proof.
  unfold patch_id. destruct e as [i|k]; [|done]. cbn. rewrite zget_alter. destruct (_ =? i); [|done].
  destruct (zget (c_ops K) (pa_op p)) as [op|]; [|done]. by destruct op.
Qed.
Definition patch_list (ps : list Patch) (ip : Z) (K : Code) : Code :=
  foldl (λ K p, match patch_id (c_ops K) p with Some e => patch_code e ip K | None => K end) K ps.
Lemma patch_list_ids ps ip K p : patch_id (c_ops (patch_list ps ip K)) p = patch_id (c_ops K) p.
Proof.
  revert K. induction ps as [|q ps IH]; intros K; [done|]. cbn. fold (patch_list ps ip (match patch_id (c_ops K) q with Some e => patch_code e ip K | None => K end)).
  rewrite IH. destruct (patch_id (c_ops K) q); [apply patch_id_patch|done].
Qed.
Lemma patch_list_rest ps ip K :
  c_heights (patch_list ps ip K) = c_heights K ∧ c_uses (patch_list ps ip K) = c_uses K ∧
  c_handlers (patch_list ps ip K) = c_handlers K ∧ zlen (c_ops (patch_list ps ip K)) = zlen (c_ops K) ∧
  zlen (c_pool (patch_list ps ip K)) = zlen (c_pool K).
Proof.
  revert K. induction ps as [|q ps IH]; intros K; [done|]. cbn [patch_list foldl].
  fold (patch_list ps ip (match patch_id (c_ops K) q with Some e => patch_code e ip K | None => K end)).
  destruct (IH (match patch_id (c_ops K) q with Some e => patch_code e ip K | None => K end)) as (-> & -> & -> & -> & ->).
  destruct (patch_id (c_ops K) q); [apply patch_code_rest|done].
Qed.
(** Every edge keeps its fix-up, and the patched ones go to [ip]. *)
Lemma patch_list_edges ps ip K e t h :
  edge_of (patch_list ps ip K) e = Some (t, h) →
  (∃ t0, edge_of K e = Some (t0, h) ∧ bt_pop t = bt_pop t0 ∧ (bt_ip t = bt_ip t0 ∨ bt_ip t = ip)) ∧
  (∀ p, p ∈ ps → patch_id (c_ops K) p = Some e → bt_ip t = ip).
Proof.
  revert K. induction ps as [|q ps IH]; intros K; cbn [patch_list foldl].
  { intros He. split; [eauto|]. by intros p ?%elem_of_nil. }
  fold (patch_list ps ip (match patch_id (c_ops K) q with Some e => patch_code e ip K | None => K end)).
  intros [(t0 & Ht0 & Hp & Hip) Hall]%IH.
  destruct (patch_id (c_ops K) q) as [eq|] eqn:Hq.
  - destruct (edge_of_patch K eq ip e) as [Heq|[-> Heq]].
    + rewrite Heq in Ht0. split; [by eauto|]. intros p [->|Hin]%elem_of_cons He.
      * assert (eq = e) as -> by congruence. destruct e as [i|k]; cbn in Heq, Ht0.
        -- rewrite zget_alter, Z.eqb_refl in Heq. destruct (zget (c_ops K) i) as [op|]; [|done].
           cbn in Heq. destruct (mjoin _) as [y|]; [|done]. rewrite inline_set_ip, Ht0 in Heq. injection Heq as Heq.
           destruct Hip as [->|]; [|done]. by rewrite <- Heq.
        -- rewrite zget_alter, Z.eqb_refl in Heq. destruct (zget (c_pool K) k) as [tk|]; [|done].
           cbn in Heq. destruct (zget (c_uses K) k); [|done]. rewrite Ht0 in Heq. injection Heq as Heq.
           injection Ht0 as -> ->. destruct Hip as [->|]; [|done]. by rewrite <- Heq.
      * apply (Hall p Hin). by rewrite patch_id_patch.
    + rewrite Heq in Ht0. destruct (edge_of K eq) as [[t1 y]|]; [|done]. injection Ht0 as <- <-.
      assert (bt_ip t = ip) as Hfin by (by destruct Hip). split; [|done]. exists t1. split_and!; [done..|by right].
  - split; [eauto|]. intros p [->|Hin]%elem_of_cons He; [congruence|]. by apply (Hall p Hin).
Qed.
Lemma patch_list_inv ps ip K due anchor cur fus :
  code_inv ctx K due anchor cur fus →
  (∀ p e t h, p ∈ ps → patch_id (c_ops K) p = Some e → edge_of K e = Some (t, h) →
    hat (c_heights K) (settled fus cur) ip = Some (h - bt_pop t)) →
  code_inv ctx (patch_list ps ip K) due anchor cur fus.
Proof.
  revert K. induction ps as [|q ps IH]; intros K HK Hps; [done|]. cbn [patch_list foldl].
  fold (patch_list ps ip (match patch_id (c_ops K) q with Some e => patch_code e ip K | None => K end)).
  destruct (patch_id (c_ops K) q) as [eq|] eqn:Hq; apply IH; try done.
  - apply code_patch; [done|]. intros t h Het. eapply Hps; [by left|done..].
  - intros p e t h Hin. rewrite patch_id_patch. intros He Het. destruct (patch_code_rest eq ip K) as (-> & _).
    destruct (edge_of_patch K eq ip e) as [Heq|[-> Heq]]; rewrite Heq in Het.
    + eapply Hps; [by right|done..].
    + destruct (edge_of K eq) as [[t1 y]|] eqn:Hold; [|done]. injection Het as <- <-. cbn. eapply Hps; [by right|done..].
  - intros p e t h Hin. apply Hps. by right.
Qed.

(** The innermost frame ends here: what waits for it is patched to this position. *)
Lemma close_frame K rest f ps cur cur' :
  cinv K (rest ++ [f]) cur None → below cur cur' →
  (∀ e x, frame_due (c_ops K) f e x → (∃ p, p ∈ ps ∧ patch_id (c_ops K) p = Some e) ∧
    (∀ t h, edge_of K e = Some (t, h) → cur' = Some x)) →
  (∀ p e, p ∈ ps → patch_id (c_ops K) p = Some e → ∃ x, frame_due (c_ops K) f e x) →
  cinv (patch_list ps (zlen (c_ops K)) K) rest cur' None.
Proof.
  intros [HK Hok] Hb Hdue Hps. apply frames_ok_snoc in Hok as [Hok _].
  pose proof (ci_heights _ _ _ _ _ _ HK) as Hlen.
  assert (keeps_ids (c_ops K) (c_ops (patch_list ps (zlen (c_ops K)) K))) as Hids.
  { split; [by destruct (patch_list_rest ps (zlen (c_ops K)) K) as (_ & _ & _ & -> & _)|]. intros p e. by rewrite patch_list_ids. }
  split; [|by eapply frames_ok_ids].
  assert (∀ e x t h, frame_due (c_ops K) f e x → edge_of K e = Some (t, h) → cur' = Some (h - bt_pop t)) as Hcur.
  { intros e x t h Hfd Het. destruct (Hdue e x Hfd) as [_ Hc]. rewrite (Hc t h Het). f_equal. symmetry.
    eapply (ci_due _ _ _ _ _ _ HK); [|exact Het]. apply ctrl_due_snoc. by right. }
  pose proof (code_raise _ _ _ _ _ _ HK Hb) as HK'.
  eapply code_mono; [apply (patch_list_inv ps (zlen (c_ops K))); [exact HK'|]| | |].
  - intros p e t h Hin Hid Het. destruct (Hps p e Hin Hid) as [x Hfd]. rewrite <- Hlen. rewrite hat_end. by eapply Hcur.
  - intros e x Hx. apply ctrl_due_snoc. left. by apply (ctrl_due_ids _ _ rest e x Hids Hok).
  - intros i x Hx. apply ctrl_anchor_snoc. by left.
  - intros e x [Hx|Hx]%ctrl_due_snoc; [left; by apply (ctrl_due_ids _ _ rest e x Hids Hok)|right].
    intros t h Het. apply patch_list_edges in Het as [(t0 & Ht0 & Hpop & _) Hip].
    destruct (Hdue e x Hx) as [(p & Hin & Hid) _]. rewrite (Hip p Hin Hid), Hpop.
    destruct (patch_list_rest ps (zlen (c_ops K)) K) as (-> & _). rewrite <- Hlen. rewrite hat_end. by eapply Hcur.
Qed.
End sim.
