(* ===== verification/Verified.v ===== *)
(** * Verified: every operator keeps the translator's invariant (about Lowering.v)

    The state invariant [inv] of the translator against the validator, kept by each visitor
    method on an operator the validator accepts, reachable or not; the end of a function
    body gives code with consistent heights. *)
From S2P Require Import Prelude Keep Types Layout Codec Op Entity Compile Lowering Heights Compiled Translated.
Open Scope Z_scope.

(** Take a successful run apart, one step at a time. *)
Ltac peel H :=
  let a := fresh "a" in let s := fresh "s" in let E := fresh "E" in
  apply bind_Ok in H as (a & s & E & H);
  lazymatch type of E with
  | reads _ _ = _ => unfold reads in E; injection E as E <-; try injection E as <-; try subst a
  | lift _ _ = _ => unfold lift in E; injection E as E <-; try injection E as <-; try subst a
  | modify _ _ = _ => unfold modify in E; injection E as <- <-
  | get _ = _ => unfold get in E; injection E as <- <-
  | clear_fusable _ = _ => unfold clear_fusable, modify in E; injection E as <- <-
  | set_height _ _ = _ => unfold set_height, modify in E; injection E as <- <-
  | _ => idtac
  end.

(** ** Straight-line code *)

(** What lowering one instruction does to the translator. *)
Record emits (op : Op) (h : Z) (t t' : Translator) : Prop := {
  em_ops : ca_ops (tr_code t') = ca_ops (tr_code t) ++ [op];
  em_pool : ca_br_tables (tr_code t') = ca_br_tables (tr_code t);
  em_handlers : ca_handlers (tr_code t') = ca_handlers (tr_code t);
  em_locals : ca_local_types (tr_code t') = ca_local_types (tr_code t);
  em_big : ca_big_memargs (tr_code t) `prefix_of` ca_big_memargs (tr_code t');
  em_offsets : ca_offsets (tr_code t) `prefix_of` ca_offsets (tr_code t');
  em_base : tr_base t' = tr_base t;
  em_height : tr_height t' = h;
  em_ctrl : tr_ctrl t' = tr_ctrl t;
  em_reachable : tr_reachable t' = tr_reachable t;
  em_fusable : tr_fusable_cmp t' = fusable_cmp_of op;
  em_error : tr_error t' = tr_error t;
}.
Lemma emit_emits op t : ∃ t', emit op t = (Ok tt, t') ∧ emits op (tr_height t) t t'.
Proof.
  eexists. split; [done|]. destruct (tr_retain_offsets t) eqn:Hr; split; cbn; try done; try apply prefix_app_r; try done.
  all: by eexists.
Qed.

(** [m] lowers to [op], taking [p] operands and leaving [q]. *)
Definition lowers (p q : Z) (op : Op) (m : Tr ()) : Prop :=
  ∀ t, p ≤ tr_height t → tr_height t - p + q < 2 ^ 32 →
    ∃ t', m t = (Ok tt, t') ∧ emits op (tr_height t - p + q) t t'.
Lemma tr_pop_run n t : n ≤ tr_height t → tr_pop n t = (Ok tt, set_tr_height (tr_height t - n) t).
Proof. intros. unfold tr_pop, modify, checked_sub. by rewrite (proj2 (Z.leb_le _ _)). Qed.
Lemma tr_push_run n t : tr_height t + n < 2 ^ 32 →
  tr_push n t = (Ok tt, set_tr_max_operands (Z.max (tr_max_operands t) (tr_height t + n)) (set_tr_height (tr_height t + n) t)).
Proof. intros. unfold tr_push, modify, checked_add. by rewrite (proj2 (Z.ltb_lt _ _)). Qed.
Lemma lowers_emit op : lowers 0 0 op (emit op).
Proof. intros t _ _. rewrite Z.sub_0_r, Z.add_0_r. apply emit_emits. Qed.
Lemma lowers_keep n op m : 0 ≤ n → lowers 0 0 op m → lowers n n op m.
Proof.
  intros ? Hm t Hn Hh. destruct (Hm t) as (t' & ? & ?); [lia..|]. exists t'. split; [done|].
  by replace (tr_height t - n + n) with (tr_height t - 0 + 0) by lia.
Qed.
Lemma lowers_push q op m : lowers 0 0 op m → 0 ≤ q → lowers 0 q op (tr_push q;; m).
Proof.
  intros Hm Hq t Hh0 Hh. pose proof (tr_push_run q t ltac:(lia)) as Hrun. rewrite (bind_run _ _ _ _ _ Hrun).
  match type of Hrun with _ = (_, ?t1) => destruct (Hm t1) as (t' & Ht' & He); [cbn; lia..|] end.
  exists t'. split; [done|]. destruct He. cbn in *. split; try done. lia.
Qed.
Lemma lowers_pop p q op m : lowers 0 q op m → 0 ≤ p → lowers p q op (tr_pop p;; m).
Proof.
  intros Hm Hp t Ht Hh. rewrite (bind_run _ _ _ _ _ (tr_pop_run p t Ht)).
  destruct (Hm (set_tr_height (tr_height t - p) t)) as (t' & Ht' & He); [cbn; lia..|].
  exists t'. split; [done|]. destruct He. cbn in *. split; try done. lia.
Qed.
Lemma lowers_row h op : (h = HUnop → lowers 1 1 op (run_helper h op)) ∧ (h = HBinop → lowers 2 1 op (run_helper h op)) ∧
  (h = HStore → lowers 2 0 op (run_helper h op)) ∧ (h = HConstop → lowers 0 1 op (run_helper h op)) ∧
  (h = HTernary → lowers 3 1 op (run_helper h op)) ∧ (h = HEmit → lowers 0 0 op (run_helper h op)).
Proof.
  split_and!; intros ->; cbn [run_helper]; unfold unop, binop, store, constop, ternary;
    repeat first [apply lowers_pop; [|lia] | apply lowers_push; [|lia] | apply lowers_emit].
Qed.
Ltac lowering :=
  unfold unop, binop, store, constop, ternary, lower_select;
  repeat first [apply lowers_pop; [|lia] | apply lowers_push; [|lia] | apply lowers_emit | apply lowers_keep; [lia|]].

Section run.
Context (ctx : CompileCtx) (c0 : CodeArenas).

(** An instruction that goes straight on. *)
Lemma effect_plain op p q : op_effect ctx op = Some (p, q) →
  is_inline op = false ∧ (∀ k, ¬ uses op k) ∧ range_ok op ∧
  ∀ h, p ≤ h → op_next ctx op h = Some (Some (h - p + q)).
Proof.
  intros He. split_and!; [by destruct op|intros k; destruct op; try (by intros []); done|by destruct op|]. intros h Hh.
  assert (op_next ctx op h = '(pops, pushes) ← op_effect ctx op; if pops <=? h then Some (Some (h - pops + pushes)) else None) as ->.
  { destruct op; done. }
  rewrite He. cbn. by rewrite (proj2 (Z.leb_le _ _)).
Qed.

(** ** The invariant of the translator *)
Record layout (t : Translator) (K : Code) : Prop := {
  ly_ops : ca_ops (tr_code t) = ca_ops c0 ++ c_ops K;
  ly_pool : ca_br_tables (tr_code t) = ca_br_tables c0 ++ c_pool K;
  ly_handlers : ca_handlers (tr_code t) = ca_handlers c0 ++ c_handlers K;
  ly_locals : ca_local_types (tr_code t) = ca_local_types c0;
  ly_big : ca_big_memargs c0 `prefix_of` ca_big_memargs (tr_code t);
  ly_offsets : ca_offsets c0 `prefix_of` ca_offsets (tr_code t);
  ly_base : tr_base t = tr_base (translator_new c0 false []);
}.
(** The module's arenas stay addressable. *)
Definition small (t : Translator) : Prop :=
  zlen (ca_ops (tr_code t)) < 2 ^ 31 ∧ zlen (ca_br_tables (tr_code t)) < 2 ^ 31.
Definition current (t : Translator) : option Z := if tr_reachable t then Some (tr_height t) else None.
Record inv (t : Translator) (v : VState) : Prop := {
  inv_error : tr_error t = None;
  inv_code : ∃ K, layout t K ∧ cinv ctx K (tr_ctrl t) (current t) (tr_fusable_cmp t);
  inv_frames : frames_sim ctx (tr_ctrl t) (vs_frames v);
  inv_reachable : tr_reachable t = true → live (tr_ctrl t) (vs_frames v) ∧ tr_height t = vs_height v;
  inv_height : 0 ≤ vs_height v ≤ MAX_HEIGHT;
  inv_first : ∀ f, zget (tr_ctrl t) 0 = Some f → ct_kind f = KBlock ∧ ct_base_height f = 0;
}.

Lemma layout_emits t t' K op h cur : layout t K → emits op h t t' → layout t' (add_op K op [] [] cur).
Proof.
  intros [Ho Hp Hh Hl Hb Hf Hbase] He. destruct He. split; cbn; try congruence.
  - by rewrite em_ops0, Ho, app_assoc.
  - rewrite app_nil_r. congruence.
  - etrans; [exact Hb|exact em_big0].
  - etrans; [exact Hf|exact em_offsets0].
  - by rewrite em_base0, Hbase.
Qed.
Lemma step_simple t t' v v' op h p q :
  inv t v → tr_reachable t = true → emits op h t t' → op_effect ctx op = Some (p, q) → p ≤ tr_height t →
  h = tr_height t - p + q → vs_frames v' = vs_frames v → vs_height v' = h → 0 ≤ h ≤ MAX_HEIGHT → inv t' v'.
Proof.
  intros [He (K & Hly & HK) Hfr Hre Hv Hfst] Hreach Hem Heff Hp Hh Hvf Hvh Hb.
  destruct (effect_plain op p q Heff) as (? & ? & ? & Hnx).
  assert (current t = Some (tr_height t)) as Hcur by (unfold current; by rewrite Hreach).
  assert (current t' = Some h) as Hcur' by (unfold current; by rewrite (em_reachable _ _ _ _ Hem), Hreach, (em_height _ _ _ _ Hem)).
  destruct (Hre Hreach) as [Hlive Hht].
  split; rewrite ?(em_ctrl _ _ _ _ Hem), ?Hvf, ?Hvh; try done.
  - by rewrite (em_error _ _ _ _ Hem).
  - exists (add_op K op [] [] (current t)). split; [by eapply layout_emits|].
    rewrite (em_fusable _ _ _ _ Hem). apply emit_simple with (fus := tr_fusable_cmp t); try done.
    + rewrite Hcur, Hcur'. intros x [= <-]. eexists. split; [by apply Hnx|]. intros ? [= <-]. by rewrite Hh.
  - intros _. split; [done|]. by rewrite (em_height _ _ _ _ Hem).
Qed.

(** *** The validator's steps *)
Definition vok (v : VState) : Prop := 0 ≤ vs_height v ≤ MAX_HEIGHT ∧ ∀ g, g ∈ vs_frames v → 0 ≤ vf_height g ≤ MAX_HEIGHT.
Lemma inv_vok t v : inv t v → vok v.
Proof.
  intros HI. split; [apply HI|]. intros g (i & Hg)%elem_zget. destruct (inv_frames _ _ HI) as [Hl Hall].
  destruct (zget_is_Some (tr_ctrl t) i) as [f Hf]; [apply zget_Some in Hg; lia|].
  by destruct (Hall i f g Hf Hg) as [[] _].
Qed.
Lemma v_take_ok n v v' : vok v → v_take n v = Some v' → 0 ≤ n ∧ vok v' ∧ vs_frames v' = vs_frames v.
Proof.
  intros [Hh Hf]. unfold v_take, v_pop. destruct (Z.leb_spec 0 n); [|done].
  destruct (last (vs_frames v)) as [f|] eqn:Hl; [|done]. cbn. pose proof (Hf f (last_Some_elem_of _ _ Hl)).
  destruct (Z.leb_spec (vf_height f + n) (vs_height v)); [|destruct (vf_unreachable f); [|done]];
    intros [= <-]; (split; [lia|]; split; [split; cbn; [lia|done]|done]).
Qed.
Lemma v_push_ok n v v' : vok v → 0 ≤ n → v_push n v = Some v' → vok v' ∧ v' = {| vs_height := vs_height v + n; vs_frames := vs_frames v |}.
Proof.
  intros [Hh Hf] Hn. unfold v_push. destruct (Z.leb_spec (vs_height v + n) MAX_HEIGHT); [|done]. intros [= <-].
  split; [split; cbn; [lia|done]|done].
Qed.
Lemma v_effect_ok e v v' : vok v → 0 ≤ e.2 → v_effect e v = Some v' → vok v' ∧ vs_frames v' = vs_frames v.
Proof.
  intros Hok Hq. unfold v_effect. destruct (v_take e.1 v) as [v1|] eqn:Ht; [|done]. cbn. intros Hp.
  destruct (v_take_ok _ _ _ Hok Ht) as (_ & Hok1 & Hf). destruct (v_push_ok _ _ _ Hok1 Hq Hp) as [? ->]. done.
Qed.
(** In reachable code a pop finds its operands. *)
Lemma v_take_live t v v1 v' n : inv t v → tr_reachable t = true → vs_frames v1 = vs_frames v → v_take n v1 = Some v' →
  0 ≤ n ≤ vs_height v1 ∧ v' = {| vs_height := vs_height v1 - n; vs_frames := vs_frames v |}.
Proof.
  intros HI Hre Hv1. unfold v_take, v_pop. destruct (Z.leb_spec 0 n); [|done]. rewrite Hv1.
  destruct (last (vs_frames v)) as [g|] eqn:Hl; [|done]. cbn.
  destruct (inv_vok _ _ HI) as [Hh Hf]. pose proof (Hf g (last_Some_elem_of _ _ Hl)).
  destruct (Z.leb_spec (vf_height g + n) (vs_height v1)); [intros [= <-]; split; [lia|done]|].
  destruct (inv_frames _ _ HI) as [Hlen _]. destruct (inv_reachable _ _ HI Hre) as [Hlive _].
  apply last_Some in Hl as [rest Hr]. rewrite Hr, zlen_snoc in Hlen.
  destruct (zget_is_Some (tr_ctrl t) (zlen (tr_ctrl t) - 1)) as [f Hf']; [pose proof (zlen_nonneg rest); lia|].
  destruct (Hlive f g Hf') as [_ ->]; [|done]. rewrite Hr, zget_snoc. destruct (Z.eqb_spec (zlen (tr_ctrl t) - 1) (zlen rest)); [done|lia].
Qed.
(** Only the flag of the innermost frame may change. *)
Definition frames_like (vf vf' : list VFrame) : Prop :=
  vf' = vf ∨ ∃ rest g g', vf = rest ++ [g] ∧ vf' = rest ++ [g'] ∧ ∀ f, fsim ctx f g → fsim ctx f g'.
Lemma step_dead t v v' : inv t v → tr_reachable t = false → frames_like (vs_frames v) (vs_frames v') → vok v' → inv t v'.
Proof.
  intros [He HK Hfr Hre Hv Hfst] Hd Hlike [Hh _]. split; try done; [|by rewrite Hd].
  destruct Hlike as [->|(rest & g & g' & Hvf & -> & Hs)]; [done|]. rewrite Hvf in Hfr.
  destruct (tr_ctrl t) as [|f ctrl _] using rev_ind.
  { destruct Hfr as [Hl _]. rewrite zlen_snoc, zlen_nil in Hl. pose proof (zlen_nonneg rest). lia. }
  apply frames_sim_snoc in Hfr as (? & ? & ?). apply frames_sim_snoc. split_and!; [done|by apply Hs|done].
Qed.

(** *** Operators with a fixed effect *)
Definition lowers_to (e : Z * Z) (m : Tr ()) : Prop :=
  ∀ t t', e.1 ≤ tr_height t → tr_height t - e.1 + e.2 < 2 ^ 32 → m t = (Ok tt, t') →
    ∃ op, op_effect ctx op = Some e ∧ emits op (tr_height t - e.1 + e.2) t t'.
Lemma lowers_to_op e op m : lowers e.1 e.2 op m → op_effect ctx op = Some e → lowers_to e m.
Proof.
  intros Hm Hop t t' H1 H2 Hrun. destruct (Hm t H1 H2) as (t1 & Ht1 & ?). rewrite Ht1 in Hrun. injection Hrun as <-. by exists op.
Qed.
Lemma lowers_to_lift {A} e (r : res A) (f : A → Tr ()) : (∀ a, r = Ok a → lowers_to e (f a)) → lowers_to e (a ← lift r; f a).
Proof. intros Hf t t' H1 H2 Hrun. peel Hrun. by eapply Hf. Qed.
Lemma step_effect t t' v v' m e :
  inv t v → v_effect e v = Some v' → 0 ≤ e.2 → lowers_to e m → when_reachable m t = (Ok tt, t') → inv t' v'.
Proof.
  intros HI Hv Hq Hm Hrun. unfold when_reachable in Hrun. peel Hrun. pose proof (inv_vok _ _ HI) as Hok.
  destruct (v_effect_ok _ _ _ Hok Hq Hv) as [Hok' Hf'].
  destruct (tr_reachable t) eqn:Hre; [|injection Hrun as <-; eapply step_dead; [done..|by left|done]].
  destruct (inv_reachable _ _ HI Hre) as [_ Hht]. unfold v_effect in Hv.
  destruct (v_take e.1 v) as [v1|] eqn:Ht; [|done]. cbn in Hv.
  destruct (v_take_live _ _ _ _ _ HI Hre eq_refl Ht) as [Hp ->]. destruct (v_take_ok _ _ _ Hok Ht) as (_ & Hok1 & _).
  destruct (v_push_ok _ _ _ Hok1 Hq Hv) as [_ ->]. cbn in *. destruct Hok' as [Hb _]. cbn in Hb. unfold MAX_HEIGHT in Hb.
  destruct (Hm t t') as (op & Hop & Hem); [lia|lia|done|]. destruct e as [p q]. cbn in *.
  eapply step_simple; [done..|lia|done|done|cbn; lia|unfold MAX_HEIGHT; lia].
Qed.
(** An operator whose method lowers what the validator's effect says. *)
Ltac by_effect H := eapply step_effect; [eassumption|exact H| | |eassumption].

Lemma row_lowers h op e : op_effect ctx op = Some e →
  e = match h with HUnop => (1, 1) | HBinop => (2, 1) | HStore => (2, 0) | HConstop => (0, 1)
    | HTernary => (3, 1) | HEmit => (0, 0) end →
  lowers_to e (run_helper h op).
Proof. intros Hop ->. apply (lowers_to_op _ op); [|done]. destruct h; cbn [run_helper fst snd]; lowering. Qed.
Lemma step_numeric t t' v v' o :
  inv t v → height_check ctx (WNumeric o) v = Some v' → visit ctx (WNumeric o) t = (Ok tt, t') → inv t' v'.
Proof.
  intros HI Hv Hrun. by_effect Hv; [by destruct o|]. apply row_lowers; by destruct o.
Qed.
Lemma step_gc t t' v v' o :
  inv t v → height_check ctx (WGc o) v = Some v' → visit ctx (WGc o) t = (Ok tt, t') → inv t' v'.
Proof.
  intros HI Hv Hrun. by_effect Hv; [by destruct o|]. apply row_lowers; by destruct o.
Qed.
Lemma lowers_to_memarg e arg (f : MemArg → Tr ()) : (∀ m, lowers_to e (f m)) → lowers_to e (m ← memarg arg; f m).
Proof.
  intros Hf t t' H1 H2 Hrun. unfold memarg in Hrun. destruct (wm_offset arg <? BIG_MEMARG).
  { destruct (Hf _ t t' H1 H2 Hrun) as (op & ? & ?). by exists op. }
  peel Hrun. peel E. peel E. injection E as <- <-.
  apply Hf in Hrun as (op & Hop & Hem); [|exact H1|exact H2].
  exists op. split; [done|]. destruct Hem. cbn in *. split; try done. etrans; [|done]. by eexists.
Qed.
Lemma step_memarg t t' v v' o arg :
  inv t v → height_check ctx (WMemArg o arg) v = Some v' → visit ctx (WMemArg o arg) t = (Ok tt, t') → inv t' v'.
Proof.
  intros HI Hv Hrun. by_effect Hv; [by destruct o|]. apply lowers_to_memarg. intros m. apply row_lowers; by destruct o.
Qed.
Lemma step_simd t t' v v' o :
  inv t v → height_check ctx (WSimd o) v = Some v' → visit ctx (WSimd o) t = (Ok tt, t') → inv t' v'.
Proof.
  intros HI Hv Hrun. assert (0 ≤ (simd_effect o).2) as Hq by (destruct o as [s|s l|s arg|s arg l| |]; try destruct s; done).
  destruct o as [s|s l|s arg|s arg l|value|lanes]; cbn [visit visit_simd height_check] in *; cbv zeta in Hrun; by_effect Hv; try exact Hq.
  - apply row_lowers; by destruct s.
  - apply row_lowers; by destruct s.
  - apply lowers_to_memarg. intros m. apply row_lowers; by destruct s.
  - apply lowers_to_memarg. intros m. apply row_lowers; by destruct s.
  - eapply lowers_to_op; [lowering|done].
  - eapply lowers_to_op; [lowering|done].
Qed.
Ltac fixed := eapply lowers_to_op; [cbn [fst snd memory_effect table_effect array_effect ref_effect]; lowering|done].
Lemma step_memory t t' v v' o :
  inv t v → height_check ctx (WMemory o) v = Some v' → visit ctx (WMemory o) t = (Ok tt, t') → inv t' v'.
Proof.
  intros HI Hv Hrun. by_effect Hv; [by destruct o|].
  destruct o; fixed.
Qed.
Lemma step_core t t' v v' o :
  inv t v → height_check ctx (WCore o) v = Some v' → visit ctx (WCore o) t = (Ok tt, t') → inv t' v'.
Proof.
  intros HI Hv Hrun. cbn in Hv. destruct (core_effect o) as [e|] eqn:He; [|done]. cbn in Hv. cbn [visit] in Hrun.
  assert (0 ≤ e.2) as Hq by (destruct o; try done; injection He as <-; cbn; lia).
  destruct o; try done; injection He as <-; (eapply step_effect; [exact HI|exact Hv|exact Hq| |exact Hrun]); fixed.
Qed.
Lemma step_table t t' v v' o :
  inv t v → height_check ctx (WTable o) v = Some v' → visit ctx (WTable o) t = (Ok tt, t') → inv t' v'.
Proof.
  intros HI Hv Hrun. by_effect Hv; [by destruct o|].
  destruct o; fixed.
Qed.
Lemma step_array t t' v v' o :
  inv t v → height_check ctx (WArray o) v = Some v' → visit ctx (WArray o) t = (Ok tt, t') → inv t' v'.
Proof.
  intros HI Hv Hrun.
  assert (0 ≤ (array_effect o).1) as Hp.
  { cbn in Hv. unfold v_effect, v_take in Hv. by destruct (Z.leb_spec 0 (array_effect o).1). }
  by_effect Hv; [by destruct o|]. destruct o; cbn in Hp; try fixed.
  eapply lowers_to_op; [cbn [fst snd array_effect]; lowering|]. cbn. by rewrite (proj2 (Z.leb_le 0 size)).
Qed.
Lemma zlen_32 {A} (l : list A) n : (zlen l <=? n) = true → n < 2 ^ 32 → len32 l = zlen l.
Proof. intros ?%Z.leb_le ?. unfold len32. apply wrap_id. pose proof (zlen_nonneg l). unfold u_ok. lia. Qed.
Lemma field_count_spec ty n : field_count ctx ty = Some n → struct_field_count ctx ty = Ok n ∧ 0 ≤ n.
Proof.
  unfold field_count, struct_field_count. destruct (zget (cc_types ctx) ty) as [m|]; [|done]. cbn.
  destruct (mt_body m) as [|fields|]; [done| |done]. destruct (zlen fields <=? 10000) eqn:Hl; [|done]. intros [= <-].
  rewrite (zlen_32 _ _ Hl) by lia. split; [done|apply zlen_nonneg].
Qed.
Lemma step_struct t t' v v' o :
  inv t v → height_check ctx (WStruct o) v = Some v' → visit ctx (WStruct o) t = (Ok tt, t') → inv t' v'.
Proof.
  intros HI Hv Hrun. cbn in Hv. destruct (struct_effect ctx o) as [e|] eqn:He; [|done]. cbn in Hv. cbn [visit] in Hrun.
  eapply step_effect; [exact HI|exact Hv| | |exact Hrun].
  - destruct o; cbn in He; [destruct (field_count ctx ty); [|done]|..]; injection He as <-; cbn; lia.
  - destruct o as [ty|ty|ty field|ty field|ty field|ty field]; cbn [struct_effect] in He; [|injection He as <-; fixed..].
    destruct (field_count ctx ty) as [n|] eqn:Hn; [|done]. injection He as <-. destruct (field_count_spec _ _ Hn) as [Hc ?].
    apply lowers_to_lift. rewrite Hc. intros ? [= <-].
    apply (lowers_to_op _ (OpStructNew ty)); [cbn [fst snd]; lowering|cbn; by rewrite Hn].
Qed.
Lemma step_cast t t' v v' o :
  inv t v → height_check ctx (WCast o) v = Some v' → visit ctx (WCast o) t = (Ok tt, t') → inv t' v'.
Proof. intros HI Hv Hrun. by_effect Hv; [done|]. destruct o; apply lowers_to_lift; intros ty _; fixed. Qed.
Lemma step_ref t t' v v' o :
  inv t v → height_check ctx (WRef o) v = Some v' → visit ctx (WRef o) t = (Ok tt, t') → inv t' v'.
Proof. intros HI Hv Hrun. by_effect Hv; [by destruct o|]. destruct o; [apply lowers_to_lift; intros ty _|..]; fixed. Qed.

(** *** The validator on branches *)
Lemma v_dead_ok v v' : vok v → v_dead v = Some v' → vok v' ∧ frames_like (vs_frames v) (vs_frames v').
Proof.
  intros [Hh Hf]. unfold v_dead. destruct (vec_pop (vs_frames v)) as [[rest g]|] eqn:Hp; [|done]. intros [= <-].
  apply vec_pop_Some in Hp. assert (g ∈ vs_frames v) as Hg by (rewrite Hp; apply elem_of_app; right; by left).
  split; [split; cbn; [by apply Hf|]|].
  - intros x [?| ->%list_elem_of_singleton]%elem_of_app; [|by apply (Hf g)]. apply Hf. rewrite Hp. apply elem_of_app. by left.
  - right. exists rest, g. eexists. split_and!; [done..|]. cbn. intros f []. by split.
Qed.
Lemma v_effect_nonneg e v v' : v_effect e v = Some v' → 0 ≤ e.1.
Proof. unfold v_effect, v_take. destruct (Z.leb_spec 0 (e.1)); [done|]. by cbn. Qed.
Lemma v_branch_ok d v v' : vok v → v_branch d v = Some v' → vok v' ∧ vs_frames v' = vs_frames v.
Proof.
  intros Hok. unfold v_branch. destruct (v_label d v) as [n|]; [|done]. cbn. intros Hv.
  apply (v_effect_ok (n, n)); [done| |done]. exact (v_effect_nonneg (n, n) _ _ Hv).
Qed.
Lemma v_branch_live t v v1 v' d : inv t v → tr_reachable t = true → vs_frames v1 = vs_frames v → v_branch d v1 = Some v' →
  v' = {| vs_height := vs_height v1; vs_frames := vs_frames v |}.
Proof.
  intros HI Hre Hf. unfold v_branch, v_effect. destruct (v_label d v1) as [n|]; [|done]. cbn.
  destruct (v_take n v1) as [v2|] eqn:Ht; [|done]. cbn. destruct (v_take_live _ _ _ _ _ HI Hre Hf Ht) as [_ ->].
  unfold v_push. cbn. destruct (_ <=? _); [|done]. intros [= <-]. f_equal. lia.
Qed.
Lemma effect_11_live t v v' : inv t v → tr_reachable t = true → v_effect (1, 1) v = Some v' →
  1 ≤ vs_height v ∧ v' = {| vs_height := vs_height v; vs_frames := vs_frames v |}.
Proof.
  intros HI Hre. unfold v_effect. cbn [fst snd]. destruct (v_take 1 v) as [v1|] eqn:Ht; [|done]. cbn.
  destruct (v_take_live _ _ _ _ _ HI Hre eq_refl Ht) as [? ->]. unfold v_push. cbn. destruct (_ <=? _); [|done].
  intros [= <-]. split; [lia|]. f_equal. lia.
Qed.
Lemma v_branches_ok ds n v v' : vok v → v_branches ds n v = Some v' → vok v' ∧ vs_frames v' = vs_frames v.
Proof.
  revert v. induction ds as [|d ds IH]; intros v Hok; cbn; [by intros [= <-]|].
  destruct (v_label d v) as [k|]; [|done]. cbn. destruct (k =? n); [|done].
  destruct (v_effect (n, n) v) as [v1|] eqn:He; [|done]. cbn. intros Hv.
  destruct (v_effect_ok (n, n) _ _ Hok (v_effect_nonneg (n, n) _ _ He) He) as [Hok1 Hf1].
  destruct (IH _ Hok1 Hv) as [? ?]. split; [done|congruence].
Qed.

(** *** Arities *)
Lemma type_arity_spec ty p r : type_arity ctx ty = Some (p, r) →
  signature ctx ty = Ok (p, r) ∧ 0 ≤ p ≤ MAX_ARITY ∧ 0 ≤ r ≤ MAX_ARITY.
Proof.
  unfold type_arity, signature. destruct (zget (cc_types ctx) ty) as [m|]; [|done]. cbn.
  destruct (func_sig m) as [[ps rs]|]; [|done]. cbn.
  destruct (zlen ps <=? MAX_ARITY) eqn:Hp, (zlen rs <=? MAX_ARITY) eqn:Hr; try done. cbn. intros [= <- <-].
  rewrite (zlen_32 _ _ Hp), (zlen_32 _ _ Hr) by (unfold MAX_ARITY; lia).
  pose proof (zlen_nonneg ps). pose proof (zlen_nonneg rs). split; [done|lia].
Qed.
Lemma func_arity_spec func p r : func_arity ctx func = Some (p, r) →
  func_signature_of ctx func = Ok (p, r) ∧ 0 ≤ p ≤ MAX_ARITY ∧ 0 ≤ r ≤ MAX_ARITY.
Proof. unfold func_arity, func_signature_of. destruct (zget (cc_func_types ctx) func) as [ty|]; [|done]. cbn. apply type_arity_spec. Qed.

(** *** Calls *)
Lemma wrap_arity p : 0 ≤ p ≤ MAX_ARITY → wrap 32 (1 + p) = 1 + p.
Proof. unfold MAX_ARITY. intros. apply wrap_id. unfold u_ok. lia. Qed.
Lemma step_call t t' v v' sig extra m :
  inv t v → v_call sig extra v = Some v' → when_reachable m t = (Ok tt, t') →
  (∀ p r, sig = Some (p, r) → 0 ≤ r ∧ lowers_to (extra + p, r) m) → inv t' v'.
Proof.
  intros HI Hv Hrun Hm. destruct sig as [[p r]|]; [|done]. cbn in Hv. destruct (Hm p r eq_refl) as [? Hl].
  by eapply step_effect.
Qed.
Lemma lowers_call func p r : func_arity ctx func = Some (p, r) → 0 ≤ r ∧ lowers_to (0 + p, r) (tr_call ctx func).
Proof.
  intros Ha. destruct (func_arity_spec _ _ _ Ha) as (Hs & ? & ?). split; [lia|]. apply lowers_to_lift. rewrite Hs.
  intros ? [= <-]. apply (lowers_to_op _ (OpCall func)); [cbn [fst snd]; rewrite Z.add_0_l; lowering|by rewrite Z.add_0_l].
Qed.
Lemma lowers_call_type ty op m p r : type_arity ctx ty = Some (p, r) →
  (m = ('(params, results) ← lift (signature ctx ty); tr_pop (wrap 32 (1 + params));; tr_push results;; emit op)) →
  op_effect ctx op = ('(params, results) ← type_arity ctx ty; Some (1 + params, results)) →
  0 ≤ r ∧ lowers_to (1 + p, r) m.
Proof.
  intros Ha -> Hop. destruct (type_arity_spec _ _ _ Ha) as (Hs & ? & ?). split; [lia|]. apply lowers_to_lift. rewrite Hs.
  intros ? [= <-]. rewrite wrap_arity by done.
  apply (lowers_to_op _ op); [cbn [fst snd]; lowering|by rewrite Hop, Ha].
Qed.

(** *** Instructions that end the reachable code *)
Lemma step_stop t t1 t' v v' op h :
  inv t v → tr_reachable t = true → emits op h t t1 → set_tr_reachable false t1 = t' →
  is_inline op = false → (∀ k, ¬ uses op k) → range_ok op → fusable_cmp_of op = None →
  op_next ctx op (tr_height t) = Some None → frames_like (vs_frames v) (vs_frames v') → vok v' → inv t' v'.
Proof.
  intros HI Hre Hem <- Hni Hnu Hr Hnf Hnx Hlike Hok.
  eapply (step_dead _ v); [|done..]. destruct HI as [He (K & Hly & HK) Hfr Hr' Hv Hfst].
  assert (current t = Some (tr_height t)) as Hcur by (unfold current; by rewrite Hre).
  split; cbn; rewrite ?(em_ctrl _ _ _ _ Hem); try done; [by rewrite (em_error _ _ _ _ Hem)|].
  exists (add_op K op [] [] (current t)). split.
  - destruct (layout_emits _ _ _ _ _ (current t) Hly Hem). by split.
  - rewrite (em_fusable _ _ _ _ Hem). apply emit_simple with (fus := tr_fusable_cmp t); try done.
    + rewrite Hcur. intros x [= <-]. by eexists.
Qed.

(** ** Branches *)
Lemma next_ip_eq t K : layout t K → small t → next_ip t = zlen (c_ops K).
Proof.
  intros Hly [Hs _]. unfold next_ip. rewrite (ly_base _ _ Hly). cbn [tr_base translator_new b_ops].
  rewrite (ly_ops _ _ Hly) in *. rewrite zlen_app in Hs. pose proof (zlen_nonneg (ca_ops c0)). pose proof (zlen_nonneg (c_ops K)).
  unfold len32. rewrite zlen_app, !(wrap_id 32) by (unfold u_ok; rewrite ?(wrap_id 32) by (unfold u_ok; lia); lia). lia.
Qed.
Lemma op_index_eq t K i : layout t K → small t → 0 ≤ i ≤ zlen (c_ops K) → op_index t i = zlen (ca_ops c0) + i.
Proof.
  intros Hly [Hs _] Hi. unfold op_index. rewrite (ly_base _ _ Hly). cbn [tr_base translator_new b_ops].
  rewrite (ly_ops _ _ Hly), zlen_app in Hs. pose proof (zlen_nonneg (ca_ops c0)).
  unfold len32. rewrite !(wrap_id 32) by (unfold u_ok; rewrite ?(wrap_id 32) by (unfold u_ok; lia); lia). done.
Qed.
Lemma zset_alter {A} (f : A → A) (l : list A) i x : zget l i = Some x → zset l i (f x) = Some (alter_at f i l).
Proof.
  intros Hx. apply zset_Some. split; [by eapply zget_Some|]. unfold zget, alter_at in *. destruct (0 <=? i); [|done].
  apply list_eq. intros j. destruct (decide (j = Z.to_nat i)) as [->|].
  - rewrite list_lookup_alter_eq, Hx. cbn. symmetry. apply list_lookup_insert_eq. by eapply lookup_lt_Some.
  - by rewrite list_lookup_alter_ne, list_lookup_insert_ne.
Qed.
Lemma register_branch_run fr idx slot t : (∀ i, fr = Some i → is_Some (zget (tr_ctrl t) i)) →
  register_branch fr idx slot t = (Ok tt, set_tr_ctrl (register (tr_ctrl t) (forward fr idx slot)) t).
Proof.
  intros Hfr. destruct fr as [i|]; [|by destruct t]. destruct (Hfr i eq_refl) as [f Hf]. cbn [register_branch forward]. unfold patch_frame.
  erewrite (bind_run _ _ _ (alter_at (add_patch {| pa_op := idx; pa_slot := slot |}) i (tr_ctrl t)) t); [done|].
  unfold reads. rewrite Hf. cbn. by rewrite (zset_alter _ _ _ _ Hf).
Qed.
Lemma emit_branch_run t t' K op fr : layout t K → small t → (∀ i, fr = Some i → is_Some (zget (tr_ctrl t) i)) →
  emit_branch op fr t = (Ok tt, t') → ∃ t1, emits op (tr_height t) t t1 ∧
    t' = set_tr_ctrl (register (tr_ctrl t) (forward fr (zlen (c_ops K)) Single)) t1.
Proof.
  intros Hly Hs Hfr Hrun. unfold emit_branch in Hrun. peel Hrun. destruct (emit_emits op t) as (t1 & Hr1 & Hem).
  rewrite (bind_run _ _ _ _ _ Hr1) in Hrun. rewrite register_branch_run in Hrun by (by rewrite (em_ctrl _ _ _ _ Hem)).
  injection Hrun as <-. exists t1. split; [done|]. by rewrite (em_ctrl _ _ _ _ Hem), (next_ip_eq _ _ Hly Hs).
Qed.

Lemma emit_branch_rest op fr t t' : emit_branch op fr t = (Ok tt, t') →
  tr_height t' = tr_height t ∧ tr_reachable t' = tr_reachable t.
Proof.
  intros Hrun. unfold emit_branch in Hrun. peel Hrun. destruct (emit_emits op t) as (t1 & Hr1 & Hem).
  rewrite (bind_run _ _ _ _ _ Hr1) in Hrun. rewrite <- (em_height _ _ _ _ Hem), <- (em_reachable _ _ _ _ Hem).
  destruct fr as [i|]; [|by injection Hrun as <-]. cbn [register_branch] in Hrun. unfold patch_frame in Hrun. peel Hrun. by injection Hrun as <-.
Qed.

(** In reachable code every frame of the translator stands for the validator's. *)
Lemma frame_live t v i f : inv t v → tr_reachable t = true → zget (tr_ctrl t) i = Some f → ∃ g, zget (vs_frames v) i = Some g ∧
  fsim ctx f g ∧ ct_reachable_on_entry f = true.
Proof.
  intros HI Hre Hf. destruct (inv_frames _ _ HI) as [Hl Hall]. destruct (inv_reachable _ _ HI Hre) as [Hlive _].
  destruct (zget_is_Some (vs_frames v) i) as [g Hg]; [apply zget_Some in Hf; lia|]. exists g. split_and!; [done|by eapply Hall|].
  eapply frames_live; [apply HI|done..].
Qed.
Lemma to_u16_Ok v k : to_u16 v = Ok k → k = v ∧ v < 2 ^ 16.
Proof. unfold to_u16. destruct (Z.ltb_spec v (2 ^ 16)); [by intros [= <-]|done]. Qed.
Lemma fixup_Ok keep pop k p : fixup keep pop = Ok (k, p) → k = keep ∧ p = pop ∧ keep < 2 ^ 16 ∧ pop < 2 ^ 16.
Proof.
  unfold fixup. destruct (to_u16 keep) as [k'| |] eqn:Hk; try done. cbn. destruct (to_u16 pop) as [p'| |] eqn:Hp; try done. cbn.
  intros [= <- <-]. apply to_u16_Ok in Hk as [-> ?]. apply to_u16_Ok in Hp as [-> ?]. done.
Qed.
Lemma fsim_arity f g : fsim ctx f g → 0 ≤ label_arity f ∧ 0 ≤ ct_param_count f ∧ 0 ≤ ct_result_count f ≤ MAX_ARITY.
Proof.
  intros Hs. pose proof (fs_params _ _ _ Hs). pose proof (fs_results _ _ _ Hs). pose proof (fs_arities _ _ _ Hs).
  unfold label_arity. case_bool_decide; lia.
Qed.
Lemma branch_target_sim ctrl vf t0 d tgt fr :
  frames_sim ctx ctrl vf → live ctrl vf → tr_ctrl t0 = ctrl → branch_target d t0 = Ok (tgt, fr) →
  goes ctrl (tr_height t0) tgt fr ∧ ∀ i, fr = Some i → is_Some (zget ctrl i).
Proof.
  intros Hsim Hlive Hc. unfold branch_target. rewrite Hc. unfold checked_sub.
  destruct (1 <=? zlen ctrl); cbn; [|done]. destruct (d <=? zlen ctrl - 1); cbn; [|done].
  set (i := zlen ctrl - 1 - d). destruct (zget ctrl i) as [f|] eqn:Hf; [|done]. cbn.
  assert (ct_reachable_on_entry f = true) as Hroe by (by eapply frames_live).
  destruct (zget_is_Some vf i) as [g Hg]; [apply zget_Some in Hf; destruct Hsim; lia|].
  destruct Hsim as [_ Hall]. destruct (Hall i f g Hf Hg) as [Hs _]. destruct (fsim_arity _ _ Hs) as (Ha & _).
  pose proof (fs_base _ _ _ Hs Hroe) as Hb. destruct (fs_height _ _ _ Hs) as [Hh _].
  unfold checked_add. destruct (Z.ltb_spec (ct_base_height f + label_arity f) (2 ^ 32)); [|done]. cbn.
  destruct (Z.leb_spec (ct_base_height f + label_arity f) (tr_height t0)); [|done]. cbn.
  destruct (fixup _ _) as [[keep pop]| |] eqn:Hfix; try done. cbn. apply fixup_Ok in Hfix as (-> & -> & ? & ?).
  case_bool_decide as Hk; intros [= <- <-]; (split; [|intros ? [= <-]; by eexists]); (split; [unfold fits; cbn; lia|]);
    exists i, f; (split; [done|]); cbn; split_and!; try done; lia.
Qed.
Lemma branch_target_goes t t0 v d tgt fr :
  inv t v → tr_reachable t = true → tr_ctrl t0 = tr_ctrl t → branch_target d t0 = Ok (tgt, fr) →
  goes (tr_ctrl t) (tr_height t0) tgt fr ∧ ∀ i, fr = Some i → is_Some (zget (tr_ctrl t) i).
Proof. intros HI Hre. apply branch_target_sim with (vf := vs_frames v); [apply HI|by apply inv_reachable]. Qed.

Lemma register_first ctrl l f : zget (register ctrl l) 0 = Some f →
  ∃ f0, zget ctrl 0 = Some f0 ∧ ct_kind f = ct_kind f0 ∧ ct_base_height f = ct_base_height f0.
Proof.
  rewrite zget_register. destruct (zget ctrl 0) as [f0|]; [|done]. intros [= <-]. exists f0.
  by destruct (add_patches_fields (snd <$> filter (λ x, x.1 = 0) l) f0) as (-> & -> & _).
Qed.
(** The translator after a branch: its frames have the new patches. *)
Lemma inv_branch t t' v v' K' l :
  inv t v → tr_reachable t = true → layout t' K' → tr_error t' = None → tr_ctrl t' = register (tr_ctrl t) l →
  cinv ctx K' (register (tr_ctrl t) l) (current t') (tr_fusable_cmp t') → frames_like (vs_frames v) (vs_frames v') → vok v' →
  (tr_reachable t' = true → vs_frames v' = vs_frames v ∧ tr_height t' = vs_height v') → inv t' v'.
Proof.
  intros HI Hre Hly He Hc HK Hlike Hok Hlive'.
  assert (frames_sim ctx (register (tr_ctrl t) l) (vs_frames v)) as Hsim.
  { apply register_sim; [apply HI|]. intros i p f _ Hf. by destruct (frame_live _ _ _ _ HI Hre Hf) as (_ & _ & _ & ?). }
  destruct (inv_reachable _ _ HI Hre) as [Hlive _].
  assert (frames_sim ctx (register (tr_ctrl t) l) (vs_frames v')) as Hsim'.
  { destruct Hlike as [->|(rest & g & g' & Hvf & Hvf' & Hs)]; [done|]. rewrite Hvf in Hsim. rewrite Hvf'.
    destruct (register (tr_ctrl t) l) as [|f ctrl _] using rev_ind.
    { destruct Hsim as [Hl _]. rewrite zlen_snoc, zlen_nil in Hl. pose proof (zlen_nonneg rest). lia. }
    apply frames_sim_snoc in Hsim as (? & ? & ?). apply frames_sim_snoc. split_and!; [done|by apply Hs|done]. }
  split; rewrite ?Hc; try done.
  - by exists K'.
  - intros Hr. destruct (Hlive' Hr) as [-> ?]. split; [by apply register_live|done].
  - apply Hok.
  - intros f (f0 & Hf0 & -> & ->)%register_first. by eapply (inv_first _ _ HI).
Qed.
Lemma layout_ctrl t K c : layout t K → layout (set_tr_ctrl c t) K.
Proof. intros []. by split. Qed.
Lemma inv_current t v : inv t v → tr_reachable t = true → current t = Some (tr_height t).
Proof. intros _ Hre. unfold current. by rewrite Hre. Qed.

(** An inline branch: the operands [d] it takes first are gone from [t1], where it is emitted. *)
Lemma step_inline t t1 t2 t' v v' op tgt fr next :
  inv t v → tr_reachable t = true → small t1 →
  tr_code t1 = tr_code t → tr_base t1 = tr_base t → tr_ctrl t1 = tr_ctrl t → tr_error t1 = None → tr_reachable t1 = true →
  emit_branch op fr t1 = (Ok tt, t2) → (∀ i, fr = Some i → is_Some (zget (tr_ctrl t) i)) →
  goes (tr_ctrl t) (tr_height t1) tgt fr → inline_edge op (tr_height t) = Some (tgt, tr_height t1) → fusable_cmp_of op = None →
  op_next ctx op (tr_height t) = Some next →
  tr_code t' = tr_code t2 → tr_base t' = tr_base t2 → tr_ctrl t' = tr_ctrl t2 → tr_error t' = tr_error t2 →
  tr_fusable_cmp t' = tr_fusable_cmp t2 →
  (next = if tr_reachable t' then Some (tr_height t') else None) →
  frames_like (vs_frames v) (vs_frames v') → vok v' →
  (tr_reachable t' = true → vs_frames v' = vs_frames v ∧ tr_height t' = vs_height v') → inv t' v'.
Proof.
  intros HI Hre Hs Hc1 Hb1 Hct1 He1 Hr1 Hrun Hfr Hg Hin Hnf Hnx Hc' Hb' Hct' He' Hf' Hnext Hlike Hok Hlive.
  destruct (inv_code _ _ HI) as (K & Hly & HK). rewrite (inv_current _ _ HI Hre) in HK.
  assert (layout t1 K) as Hly1 by (destruct Hly; split; congruence).
  destruct (emit_branch_run t1 t2 K op fr Hly1 Hs) as (t3 & Hem & ->); [by rewrite Hct1|done|].
  assert (layout t' (add_op K op [] [] (Some (tr_height t)))) as Hly'.
  { destruct (layout_emits _ _ _ _ _ (Some (tr_height t)) Hly1 Hem). split; rewrite ?Hc', ?Hb'; done. }
  assert (tr_ctrl t' = register (tr_ctrl t) (forward fr (zlen (c_ops K)) Single)) as Hct by (rewrite Hct'; cbn; by rewrite Hct1).
  cbn in He', Hf'. rewrite (em_error _ _ _ _ Hem) in He'. rewrite (em_fusable _ _ _ _ Hem), Hnf in Hf'.
  eapply inv_branch; [done|done|done|congruence|done| |done|done|done]. rewrite Hf'. eapply emit_inline; [exact HK|exact Hin|exact Hg|exact Hnx|].
  intros h' Hh'. unfold current. rewrite Hnext in Hh'. by destruct (tr_reachable t').
Qed.

(** *** Writing to emitted code *)
Record only_code (t t' : Translator) : Prop := {
  oc_height : tr_height t' = tr_height t;
  oc_ctrl : tr_ctrl t' = tr_ctrl t;
  oc_reachable : tr_reachable t' = tr_reachable t;
  oc_fusable : tr_fusable_cmp t' = tr_fusable_cmp t;
  oc_error : tr_error t' = tr_error t;
}.
Lemma only_code_trans t t1 t' : only_code t t1 → only_code t1 t' → only_code t t'.
Proof. intros [] []. split; congruence. Qed.
Lemma zset_app_r {A} (k l : list A) i x : 0 ≤ i < zlen l → zset (k ++ l) (zlen k + i) x = Some (k ++ <[Z.to_nat i := x]> l).
Proof.
  intros Hi. apply zset_Some. pose proof (zlen_nonneg k). rewrite zlen_app. split; [lia|].
  unfold zlen in *. rewrite insert_app_r_alt by lia. do 2 f_equal. lia.
Qed.
Lemma put_op_run t K i op : layout t K → small t → 0 ≤ i < zlen (c_ops K) →
  ∃ t', put_op i op t = (Ok tt, t') ∧ layout t' (set_c_ops (<[Z.to_nat i := op]> (c_ops K)) K) ∧ only_code t t'.
Proof.
  intros Hly Hs Hi. unfold put_op. erewrite bind_run.
  2:{ unfold reads. rewrite (op_index_eq _ _ _ Hly Hs) by lia. rewrite (ly_ops _ _ Hly), zset_app_r by done. done. }
  eexists. split; [done|]. split; [|done]. destruct Hly. by split.
Qed.
Lemma patch_edge_run t K k ip : layout t K → small t → 0 ≤ k < zlen (c_pool K) →
  ∃ t', patch_edge k ip t = (Ok tt, t') ∧ layout t' (patch_code (EPool k) ip K) ∧ only_code t t'.
Proof.
  intros Hly [_ Hs] Hk. destruct (zget_is_Some (c_pool K) k Hk) as [e He]. unfold patch_edge.
  rewrite (ly_pool _ _ Hly), zlen_app in Hs. pose proof (zlen_nonneg (ca_br_tables c0)).
  assert (wrap 32 (b_br_tables (tr_base t) + k) = zlen (ca_br_tables c0) + k) as Hi.
  { rewrite (ly_base _ _ Hly). cbn. unfold len32. rewrite !(wrap_id 32); unfold u_ok; rewrite ?(wrap_id 32) by (unfold u_ok; lia); lia. }
  erewrite bind_run.
  2:{ unfold reads. rewrite Hi, (ly_pool _ _ Hly). rewrite zget_app_r by lia. rewrite Z.add_simpl_l, He. cbn.
      rewrite zset_app_r by done. done. }
  eexists. split; [done|]. split; [|done]. destruct Hly. split; try done. cbn. f_equal.
  pose proof (zset_alter (set_ip ip) _ _ _ He) as Hz. apply zset_Some in Hz as [_ ->]. done.
Qed.
Lemma patch_ip_run t t' K p e ip : layout t K → small t → patch_id (c_ops K) p = Some e → valid_edge K e →
  patch_ip (pa_op p) (pa_slot p) ip t = (Ok tt, t') → layout t' (patch_code e ip K) ∧ only_code t t'.
Proof.
  intros Hly Hs Hid Hv Hrun. unfold patch_ip in Hrun. peel Hrun. unfold patch_id in Hid.
  destruct (zget (c_ops K) (pa_op p)) as [op|] eqn:Hop; [|done]. pose proof (zget_Some _ _ _ Hop) as Hb.
  unfold op_ref in E. rewrite (op_index_eq _ _ _ Hly Hs) in E by lia.
  rewrite (ly_ops _ _ Hly), zget_app_r, Z.add_simpl_l, Hop in E by lia. injection E as <-.
  assert (∀ o, patch_code (EIn (pa_op p)) ip K = set_c_ops (alter_at (set_op_ip ip) (pa_op p) (c_ops K)) K → set_op_ip ip op = o →
    put_op (pa_op p) o t = (Ok tt, t') → layout t' (patch_code (EIn (pa_op p)) ip K) ∧ only_code t t') as Hin.
  { intros o -> <- Hput. destruct (put_op_run t K (pa_op p) (set_op_ip ip op) Hly Hs Hb) as (t1 & Ht1 & Hl1 & ?).
    rewrite Ht1 in Hput. injection Hput as <-. split; [|done].
    pose proof (zset_alter (set_op_ip ip) _ _ _ Hop) as Hz. apply zset_Some in Hz as [_ ->]. done. }
  assert (∀ k k', Some (EPool k) = Some e → k' = k → patch_edge k' ip t = (Ok tt, t') → layout t' (patch_code e ip K) ∧ only_code t t') as Hpool.
  { intros k k' [= <-] -> Hput. destruct (patch_edge_run t K k ip Hly Hs Hv) as (t1 & Ht1 & ? & ?).
    rewrite Ht1 in Hput. by injection Hput as <-. }
  assert (∀ k, Some (EPool k) = Some e → wrap 32 k = k) as Hw.
  { intros k [= <-]. apply wrap_id. cbn in Hv. destruct Hs as [_ Hs]. rewrite (ly_pool _ _ Hly), zlen_app in Hs.
    pose proof (zlen_nonneg (ca_br_tables c0)). unfold u_ok. lia. }
  destruct op; cbn in Hid; try done; try (injection Hid as <-; by eapply Hin).
  - destruct (pa_slot p) as [|k|]; [done|..]; peel Hrun; (eapply Hpool; [exact Hid| |exact Hrun]); by apply Hw.
  - by eapply Hpool.
  - by eapply Hpool.
Qed.
Lemma patch_all_run ps ip t t' K : layout t K → small t →
  (∀ p, p ∈ ps → ∃ e, patch_id (c_ops K) p = Some e ∧ valid_edge K e) →
  patch_all ps ip t = (Ok tt, t') → layout t' (patch_list ps ip K) ∧ only_code t t'.
Proof.
  revert t K. induction ps as [|p ps IH]; intros t K Hly Hs Hps Hrun; [by injection Hrun as <-|].
  unfold patch_all in Hrun. cbn [for_each] in Hrun. peel Hrun. destruct (Hps p) as (e & He & Hv); [by left|].
  destruct a. destruct (patch_ip_run _ _ _ _ _ _ Hly Hs He Hv E) as [Hly1 Hoc].
  destruct (IH s (patch_code e ip K)) as [Hly' Hoc']; [done| | |done|].
  - destruct Hs as [Hs1 Hs2]. rewrite (ly_ops _ _ Hly), (ly_pool _ _ Hly), zlen_app in *.
    destruct (patch_code_rest e ip K) as (_ & _ & _ & Hl & Hpl). unfold small.
    rewrite (ly_ops _ _ Hly1), (ly_pool _ _ Hly1), !zlen_app, Hl, Hpl in *. done.
  - intros q Hq. destruct (Hps q) as (e' & ? & ?); [by right|]. exists e'. rewrite patch_id_patch. split; [done|].
    by apply valid_edge_patch.
  - split; [|by eapply only_code_trans]. cbn [patch_list foldl]. by rewrite He.
Qed.

(** *** Branch operators *)
Lemma step_br t t' v v' d :
  inv t v → small t → v_control ctx (VBr d) v = Some v' → visit_control ctx (VBr d) t = (Ok tt, t') → inv t' v'.
Proof.
  intros HI Hs Hv Hrun. unfold visit_control, when_reachable in Hrun. peel Hrun. cbn [v_control mbind option_bind] in Hv.
  destruct (v_label d v) as [n|]; [|done]. cbn [v_control mbind option_bind] in Hv. destruct (v_take n v) as [v1|] eqn:Ht; [|done]. cbn [v_control mbind option_bind] in Hv.
  destruct (v_take_ok _ _ _ (inv_vok _ _ HI) Ht) as (_ & Hok1 & Hf1). destruct (v_dead_ok _ _ Hok1 Hv) as [Hok' Hlike].
  rewrite Hf1 in Hlike. destruct (tr_reachable t) eqn:Hre; [|injection Hrun as <-; by eapply step_dead].
  unfold tr_br in Hrun. peel Hrun. destruct a as [tgt fr]. peel Hrun. injection Hrun as <-. destruct a.
  destruct (branch_target_goes _ _ _ _ _ _ HI Hre eq_refl E) as [Hg Hfr].
  eapply (step_inline t t); try done; apply HI.
Qed.
Lemma step_return t t' v v' :
  inv t v → small t → v_control ctx VReturn v = Some v' → visit_control ctx VReturn t = (Ok tt, t') → inv t' v'.
Proof.
  intros HI Hs Hv Hrun. unfold visit_control, when_reachable in Hrun. peel Hrun. cbn [v_control mbind option_bind] in Hv.
  destruct (zget (vs_frames v) 0) as [g|] eqn:Hg; [|done]. cbn [v_control mbind option_bind] in Hv. destruct (v_take (vf_results g) v) as [v1|] eqn:Ht; [|done]. cbn [v_control mbind option_bind] in Hv.
  destruct (v_take_ok _ _ _ (inv_vok _ _ HI) Ht) as (_ & Hok1 & Hf1). destruct (v_dead_ok _ _ Hok1 Hv) as [Hok' Hlike].
  rewrite Hf1 in Hlike. destruct (tr_reachable t) eqn:Hre; [|injection Hrun as <-; by eapply step_dead].
  unfold tr_ret in Hrun. peel Hrun. destruct (zget (tr_ctrl t) 0) as [f|] eqn:Hf; [|done]. injection E as <-.
  destruct (frame_live _ _ _ _ HI Hre Hf) as (g' & _ & Hsim & _). destruct (fsim_arity _ _ Hsim) as (_ & _ & Ha).
  destruct (inv_first _ _ HI f Hf) as [Hk Hb].
  peel Hrun. unfold checked_sub in E. destruct (Z.leb_spec (ct_result_count f) (tr_height t)); [|done]. injection E as <-.
  peel Hrun. destruct a as [keep pop]. apply fixup_Ok in E as (-> & -> & ? & ?).
  assert ((emit_branch (OpBr {| bt_ip := 0; bt_keep := ct_result_count f; bt_pop := tr_height t - ct_result_count f |}) (Some 0);; dead) t = (Ok tt, t')) as Hrun'.
  { rewrite <- Hrun. unfold emit_branch. unfold mbind, M_bind, reads. done. }
  clear Hrun. peel Hrun'. injection Hrun' as <-. destruct a.
  eapply (step_inline t t) with (fr := Some 0); try done; try apply HI.
  - intros ? [= <-]. by exists f.
  - unfold goes, fits. cbn. split; [lia|]. exists 0, f. split; [done|]. unfold label_arity. rewrite bool_decide_false by congruence.
    split; [lia|]. split; [done|congruence].
Qed.
Lemma step_br_on_null t t' v v' d :
  inv t v → small t → v_control ctx (VBrOnNull d) v = Some v' → visit_control ctx (VBrOnNull d) t = (Ok tt, t') → inv t' v'.
Proof.
  intros HI Hs Hv Hrun. unfold visit_control, when_reachable in Hrun. peel Hrun. cbn [v_control mbind option_bind] in Hv.
  destruct (v_take 1 v) as [v1|] eqn:Ht; [|done]. cbn [v_control mbind option_bind] in Hv. destruct (v_branch d v1) as [v2|] eqn:Hb; [|done]. cbn [v_control mbind option_bind] in Hv.
  destruct (v_take_ok _ _ _ (inv_vok _ _ HI) Ht) as (_ & Hok1 & Hf1). destruct (v_branch_ok _ _ _ Hok1 Hb) as [Hok2 Hf2].
  destruct (v_push_ok 1 _ _ Hok2 ltac:(lia) Hv) as [Hok' Hv'].
  assert (vs_frames v' = vs_frames v) as Hf' by (rewrite Hv'; cbn; congruence).
  destruct (tr_reachable t) eqn:Hre; [|injection Hrun as <-; eapply step_dead; [done..|by left|done]].
  destruct (v_take_live _ _ _ _ _ HI Hre eq_refl Ht) as [Hh1 ->]. pose proof (v_branch_live _ _ _ _ _ HI Hre Hf1 Hb) as ->. cbn in Hv'.
  destruct (inv_reachable _ _ HI Hre) as [_ Hht]. destruct (inv_height _ _ HI) as [_ Hmax]. unfold MAX_HEIGHT in Hmax.
  unfold tr_br_on_null in Hrun. rewrite (bind_run _ _ _ _ _ (tr_pop_run 1 t ltac:(lia))) in Hrun. peel Hrun. destruct a as [tgt fr].
  destruct (branch_target_goes t (set_tr_height (tr_height t - 1) t) v d tgt fr HI Hre eq_refl E) as [Hg Hfr]. peel Hrun. destruct a. rename s into t2.
  destruct (emit_branch_rest _ _ _ _ E0) as [Hh2 Hr2]. cbn in Hh2, Hr2. rewrite Hre in Hr2.
  rewrite tr_push_run in Hrun by lia. injection Hrun as <-.
  eapply (step_inline t (set_tr_height (tr_height t - 1) t) t2); try done.
  - apply HI.
  - cbn. rewrite (proj2 (Z.leb_le _ _)), Hr2, Hh2 by lia. do 3 f_equal. lia.
  - rewrite Hf'. by left.
  - intros _. split; [done|]. rewrite Hv'. cbn. lia.
Qed.
Lemma step_br_on_non_null t t' v v' d :
  inv t v → small t → v_control ctx (VBrOnNonNull d) v = Some v' → visit_control ctx (VBrOnNonNull d) t = (Ok tt, t') → inv t' v'.
Proof.
  intros HI Hs Hv Hrun. unfold visit_control, when_reachable in Hrun. peel Hrun. cbn [v_control mbind option_bind] in Hv.
  destruct (v_effect (1, 1) v) as [v1|] eqn:Ht; [|done]. cbn [v_control mbind option_bind] in Hv. destruct (v_branch d v1) as [v2|] eqn:Hb; [|done]. cbn [v_control mbind option_bind] in Hv.
  destruct (v_effect_ok (1, 1) _ _ (inv_vok _ _ HI) ltac:(cbn; lia) Ht) as (Hok1 & Hf1). destruct (v_branch_ok _ _ _ Hok1 Hb) as [Hok2 Hf2].
  destruct (v_take_ok _ _ _ Hok2 Hv) as (_ & Hok' & Hf'). rewrite Hf2, Hf1 in Hf'.
  destruct (tr_reachable t) eqn:Hre; [|injection Hrun as <-; eapply step_dead; [done..|by left|done]].
  destruct (effect_11_live _ _ _ HI Hre Ht) as [Hh1 ->]. pose proof (v_branch_live _ _ _ _ _ HI Hre Hf1 Hb) as ->. 
  cbn [vs_height] in Hv. pose proof (v_take_live t v {| vs_height := vs_height v; vs_frames := vs_frames v |} v' 1 HI Hre eq_refl Hv) as [_ Hv']. cbn in Hv'.
  destruct (inv_reachable _ _ HI Hre) as [_ Hht].
  unfold tr_br_on_non_null in Hrun. peel Hrun. destruct a as [tgt fr].
  destruct (branch_target_goes t _ v d tgt fr HI Hre eq_refl E) as [Hg Hfr]. peel Hrun. destruct a. rename s into t2.
  destruct (emit_branch_rest _ _ _ _ E0) as [Hh2 Hr2]. rewrite Hre in Hr2.
  rewrite tr_pop_run in Hrun by lia. injection Hrun as <-.
  eapply (step_inline t t t2); try done.
  - apply HI.
  - cbn. by rewrite (proj2 (Z.leb_le _ _)), Hr2, Hh2 by lia.
  - rewrite Hf'. by left.
  - intros _. split; [done|]. rewrite Hv'. cbn. lia.
Qed.

(** Replacing the comparison just emitted. *)
Lemma fuse_run t K h kind op : layout t K → small t → cinv ctx K (tr_ctrl t) (Some h) (Some kind) →
  wrap 32 (next_ip t - 1) = zlen (c_ops K) - 1 ∧
  ∃ t', put_op (wrap 32 (next_ip t - 1)) op t = (Ok tt, t') ∧
    layout t' (set_c_ops (<[Z.to_nat (zlen (c_ops K) - 1) := op]> (c_ops K)) K) ∧ only_code t t'.
Proof.
  intros Hly Hs [HK _]. destruct (ci_fusable _ _ _ _ _ _ HK kind eq_refl) as (h0 & cmp & _ & Hcmp & _).
  pose proof (zget_Some _ _ _ Hcmp) as Hb. destruct Hs as [Hs1 Hs2]. pose proof Hs1 as Hs1'. rewrite (ly_ops _ _ Hly), zlen_app in Hs1'.
  pose proof (zlen_nonneg (ca_ops c0)).
  assert (wrap 32 (next_ip t - 1) = zlen (c_ops K) - 1) as Hi.
  { rewrite (next_ip_eq _ _ Hly) by done. apply wrap_id. unfold u_ok. lia. }
  split; [done|]. rewrite Hi. apply put_op_run; [done|done|lia].
Qed.
Lemma step_br_if t t' v v' d :
  inv t v → small t → v_control ctx (VBrIf d) v = Some v' → visit_control ctx (VBrIf d) t = (Ok tt, t') → inv t' v'.
Proof.
  intros HI Hs Hv Hrun. unfold visit_control, when_reachable in Hrun. peel Hrun. cbn [v_control mbind option_bind] in Hv.
  destruct (v_take 1 v) as [v1|] eqn:Ht; [|done]. cbn [v_control mbind option_bind] in Hv.
  destruct (v_take_ok _ _ _ (inv_vok _ _ HI) Ht) as (_ & Hok1 & Hf1). destruct (v_branch_ok _ _ _ Hok1 Hv) as [Hok' Hf'].
  rewrite Hf1 in Hf'. destruct (tr_reachable t) eqn:Hre; [|injection Hrun as <-; eapply step_dead; [done..|by left|done]].
  destruct (v_take_live _ _ _ _ _ HI Hre eq_refl Ht) as [Hh1 ->]. pose proof (v_branch_live _ _ _ _ _ HI Hre Hf1 Hv) as ->.
  destruct (inv_reachable _ _ HI Hre) as [Hlive Hht]. cbn in Hf'. clear Hv Hf1.
  unfold tr_br_if in Hrun. rewrite (bind_run _ _ _ _ _ (tr_pop_run 1 t ltac:(lia))) in Hrun. peel Hrun. destruct a as [tgt fr].
  destruct (branch_target_goes t (set_tr_height (tr_height t - 1) t) v d tgt fr HI Hre eq_refl E) as [Hg Hfr].
  cbn [set_tr_height tr_height] in Hg. peel Hrun. unfold take_fusable in E0. cbn in E0. injection E0 as <- <-.
  set (t1 := set_tr_fusable_cmp None (set_tr_height (tr_height t - 1) t)) in *.
  destruct (tr_fusable_cmp t) as [kind|] eqn:Hfus.
  - peel Hrun. destruct (inv_code _ _ HI) as (K & Hly & HK). rewrite (inv_current _ _ HI Hre), Hfus in HK.
    assert (layout t1 K) as Hly1 by (by destruct Hly).
    destruct (fuse_run t1 K (tr_height t) kind (OpBrIfCmp kind false tgt) Hly1 Hs HK) as (Hi & t2 & Ht2 & Hly2 & Hoc).
    rewrite (bind_run _ _ _ _ _ Ht2) in Hrun. rewrite register_branch_run in Hrun by (by rewrite (oc_ctrl _ _ Hoc)).
    injection Hrun as <-. rewrite (oc_ctrl _ _ Hoc), Hi.
    destruct Hoc as [Hoh Hoc Hor Hof Hoe]. change (tr_ctrl t1) with (tr_ctrl t) in *.
    eapply inv_branch; [done|done|by apply layout_ctrl|cbn; rewrite Hoe; apply HI|done| |by left|done|intros _; split; [done|cbn; rewrite Hoh; cbn; lia]].
    pose proof (fuse_branch ctx K _ _ kind false tgt fr HK Hg) as Hfb.
    unfold current. cbn. rewrite Hor, Hoh, Hof. cbn. by rewrite Hre.
  - eapply (step_inline t t1 t' t'); try done.
    + apply HI.
    + destruct (emit_branch_rest _ _ _ _ Hrun) as [Hh2 Hr2]. cbn in Hh2, Hr2. rewrite Hr2, Hre, Hh2. cbn.
      by rewrite (proj2 (Z.leb_le _ _)) by lia.
    + by left.
    + intros _. split; [done|]. destruct (emit_branch_rest _ _ _ _ Hrun) as [-> _]. cbn. lia.
Qed.
(** A cast's edge is in the side table. *)
Lemma pool_index_bit pool (b : bool) : 0 ≤ pool < 2 ^ 31 → pool_index (Z.lor pool (if b then NULLABLE_BIT else 0)) = pool.
Proof.
  intros Hp. assert (Z.land pool (Z.ones 31) = pool) as Hl by (rewrite Z.land_ones, Z.mod_small by lia; done).
  unfold pool_index. rewrite Z.land_lor_distr_l.
  replace (Z.land (if b then NULLABLE_BIT else 0) (Z.lnot NULLABLE_BIT)) with 0 by (by destruct b).
  rewrite Z.lor_0_r, <- Hl at 1. rewrite <- Z.land_assoc. replace (Z.land (Z.ones 31) (Z.lnot NULLABLE_BIT)) with (Z.ones 31) by done. done.
Qed.
Lemma step_cast_branch t t' v v' d ty nullable on_fail :
  inv t v → small t → (∃ v1, v_effect (1, 1) v = Some v1 ∧ v_branch d v1 = Some v') → tr_reachable t = true →
  tr_br_on_cast d ty nullable on_fail t = (Ok tt, t') → inv t' v'.
Proof.
  intros HI Hs (v1 & Ht & Hv) Hre Hrun.
  destruct (v_effect_ok (1, 1) _ _ (inv_vok _ _ HI) ltac:(cbn; lia) Ht) as (Hok1 & Hf1). destruct (v_branch_ok _ _ _ Hok1 Hv) as [Hok' Hf'].
  rewrite Hf1 in Hf'. destruct (effect_11_live _ _ _ HI Hre Ht) as [Hh1 ->]. pose proof (v_branch_live _ _ _ _ _ HI Hre Hf1 Hv) as ->.
  destruct (inv_reachable _ _ HI Hre) as [_ Hht]. destruct (inv_code _ _ HI) as (K & Hly & HK). rewrite (inv_current _ _ HI Hre) in HK.
  unfold tr_br_on_cast in Hrun. peel Hrun. destruct a as [bt fr].
  destruct (branch_target_goes t t v d bt fr HI Hre eq_refl E) as [Hg Hfr].
  peel Hrun. unfold push_edge in E0. peel E0. peel E0. injection E0 as <- <-.
  pose proof (zlen_nonneg (ca_br_tables c0)). pose proof (zlen_nonneg (c_pool K)). pose proof Hs as [Hs1 Hs2].
  rewrite (ly_pool _ _ Hly), zlen_app in Hs2.
  assert (wrap 32 (len32 (ca_br_tables (tr_code t)) - b_br_tables (tr_base t)) = zlen (c_pool K)) as Hpi.
  { rewrite (ly_pool _ _ Hly), (ly_base _ _ Hly). cbn. unfold len32. rewrite zlen_app.
    rewrite !(wrap_id 32); unfold u_ok; rewrite ?(wrap_id 32) by (unfold u_ok; lia); lia. }
  rewrite Hpi in Hrun. set (op := if on_fail then OpBrOnCastFail ty _ else OpBrOnCast ty _) in Hrun. peel Hrun.
  destruct (emit_emits op (on_code (λ c, set_ca_br_tables (ca_br_tables c ++ [bt]) c) t)) as (t1 & Hr1 & Hem).
  rewrite (bind_run _ _ _ _ _ Hr1) in Hrun. rewrite register_branch_run in Hrun by (by rewrite (em_ctrl _ _ _ _ Hem)).
  injection Hrun as <-. destruct Hem. cbn in *.
  assert (next_ip (on_code (λ c, set_ca_br_tables (ca_br_tables c ++ [bt]) c) t) = zlen (c_ops K)) as Hip.
  { change (next_ip _) with (next_ip t). by apply next_ip_eq. }
  rewrite Hip. rewrite em_ctrl0.
  assert (is_inline op = false ∧ range_ok op ∧ fusable_cmp_of op = None ∧ pool_height op (tr_height t) = tr_height t ∧
    op_next ctx op (tr_height t) = Some (Some (tr_height t)) ∧ ∀ k, uses op k ↔ k = zlen (c_pool K)) as (? & ? & Hnf & Hph & Hnx & Huse).
  { assert (pool_index (Z.lor (zlen (c_pool K)) (if nullable then NULLABLE_BIT else 0)) = zlen (c_pool K)) as Hpb by (apply pool_index_bit; lia).
    unfold op. destruct on_fail; cbn; rewrite ?Hpb, ?(proj2 (Z.leb_le _ _)) by lia; done. }
  eapply inv_branch with (K' := add_op K op (fst <$> [(bt, fr)]) (replicate (length [(bt, fr)]) (tr_height t)) (Some (tr_height t)));
    [done|done| |cbn; rewrite em_error0; apply HI|done| |by left|done|].
  - destruct Hly. split; cbn; rewrite ?em_ops0, ?em_pool0, ?em_handlers0, ?em_locals0, ?em_base0; try done.
    + by rewrite ly_ops0, app_assoc.
    + by rewrite ly_pool0, app_assoc.
    + by etrans.
    + by etrans.
  - unfold current. cbn. rewrite em_reachable0, em_height0, em_fusable0, Hre, Hnf.
    eapply (emit_pooled ctx K _ _ _ op _ [(bt, fr)]); try done.
    + intros k ->%Huse. rewrite zlen_cons, zlen_nil. lia.
    + intros j t0 fr0 Hj. pose proof (zget_Some _ _ _ Hj) as Hb. unfold zlen in Hb; cbn in Hb.
      assert (j = 0) as -> by lia. injection Hj as <- <-. split; [done|]. intros i ->. eexists. split; [by left|].
      rewrite Z.add_0_r. unfold patch_id. cbn [pa_op]. rewrite zget_snoc, Z.eqb_refl. unfold op, uses in *.
      destruct on_fail; do 2 f_equal; apply pool_index_bit; lia.
    + intros i p. unfold forward. destruct fr as [i'|]; [|by intros ?%elem_of_nil]. intros [= -> ->]%list_elem_of_singleton.
      exists 0, bt. split; [done|]. rewrite Z.add_0_r. unfold patch_id. cbn [pa_op]. rewrite zget_snoc, Z.eqb_refl. unfold op.
      destruct on_fail; do 2 f_equal; apply pool_index_bit; lia.
  - intros _. cbn. split; [done|]. by rewrite em_height0.
Qed.

(** A table's edges: the cases' in order, then the default's. *)
Fixpoint case_patches (k : Z) (es : list (BranchTarget * option Z)) : list (Z * PatchSlot) :=
  match es with
  | [] => []
  | (_, Some i) :: rest => (i, TableCase k) :: case_patches (k + 1) rest
  | (_, None) :: rest => case_patches (k + 1) rest
  end.
Lemma elem_case_patches k es i slot :
  (i, slot) ∈ case_patches k es ↔ ∃ j bt, zget es j = Some (bt, Some i) ∧ slot = TableCase (k + j).
Proof.
  revert k. induction es as [|[bt fr] es IH]; intros k; cbn [case_patches].
  { split; [by intros ?%elem_of_nil|]. intros (j & bt & Hj & _). by rewrite zget_nil in Hj. }
  assert ((∃ j b, zget es j = Some (b, Some i) ∧ slot = TableCase (k + 1 + j)) ↔
    ∃ j b, 0 < j ∧ zget ((bt, fr) :: es) j = Some (b, Some i) ∧ slot = TableCase (k + j)) as Htl.
  { split; intros (j & b & H).
    - destruct H as [Hj ->]. pose proof (zget_Some _ _ _ Hj). exists (j + 1), b. rewrite zget_cons_S by lia.
      rewrite Z.add_simpl_r. split_and!; [lia|done|f_equal; lia].
    - destruct H as (Hp & Hj & ->). rewrite zget_cons_S in Hj by lia. exists (j - 1), b. split; [done|f_equal; lia]. }
  assert ((∃ j b, zget ((bt, fr) :: es) j = Some (b, Some i) ∧ slot = TableCase (k + j)) ↔
    (fr = Some i ∧ slot = TableCase k) ∨ ∃ j b, 0 < j ∧ zget ((bt, fr) :: es) j = Some (b, Some i) ∧ slot = TableCase (k + j)) as Hsp.
  { split.
    - intros (j & b & Hj & ->). pose proof (zget_Some _ _ _ Hj). destruct (decide (j = 0)) as [->|]; [|right; exists j, b; split_and!; [lia|done..]].
      left. injection Hj as <- ->. rewrite Z.add_0_r. done.
    - intros [[-> ->]|(j & b & _ & ? & ?)]; [exists 0, bt; by rewrite Z.add_0_r|exists j, b; done]. }
  rewrite Hsp, <- Htl, <- IH. destruct fr as [j|].
  - rewrite elem_of_cons. split; [intros [[= -> ->]|?]; auto|intros [[[= ->] ->]|?]; auto].
  - split; [auto|intros [[? _]|?]; done].
Qed.
Lemma table_edges_run t t' v cases k ps out hb t0 :
  inv t v → tr_reachable t = true → tr_ctrl t0 = tr_ctrl t → tr_height t0 = hb → table_edges k cases ps t0 = (Ok out, t') →
  ∃ es, zlen es = zlen cases ∧ out = ps ++ case_patches k es ∧
    (∀ j bt fr, zget es j = Some (bt, fr) → goes (tr_ctrl t) hb bt fr ∧ ∀ i, fr = Some i → is_Some (zget (tr_ctrl t) i)) ∧
    t' = on_code (λ c, set_ca_br_tables (ca_br_tables c ++ (fst <$> es)) c) t0.
Proof.
  intros HI Hre. revert k ps t0. induction cases as [|d cases IH]; intros k ps t0 Hc Hh Hrun; cbn [table_edges] in Hrun.
  { injection Hrun as <- <-. exists []. split_and!; [done|by rewrite app_nil_r| |destruct t0 as [[]]; unfold on_code; cbn; by rewrite app_nil_r].
    intros j bt fr. by rewrite zget_nil. }
  peel Hrun. destruct a as [bt fr]. peel Hrun. unfold push_edge in E0. peel E0. peel E0. injection E0 as <- <-.
  destruct (branch_target_goes t t0 v d bt fr HI Hre Hc E) as [Hg Hfr]. rewrite Hh in Hg.
  apply IH in Hrun as (es & Hl & Hout & Hes & Ht'); [|done|done]. exists ((bt, fr) :: es). split_and!.
  - rewrite !zlen_cons. lia.
  - rewrite Hout. destruct fr as [i|]; cbn; [by rewrite <- app_assoc|done].
  - intros j b f Hj. pose proof (zget_Some _ _ _ Hj). destruct (decide (j = 0)) as [->|].
    + injection Hj as <- <-. done.
    + rewrite zget_cons_S in Hj by lia. by eapply Hes.
  - rewrite Ht'. unfold on_code. cbn. by rewrite <- app_assoc.
Qed.
Lemma register_all_run idx ps t : (∀ i slot, (i, slot) ∈ ps → is_Some (zget (tr_ctrl t) i)) →
  for_each ps (λ '(i, slot), patch_frame i {| pa_op := idx; pa_slot := slot |}) t =
    (Ok tt, set_tr_ctrl (register (tr_ctrl t) ((λ '(i, slot), (i, {| pa_op := idx; pa_slot := slot |})) <$> ps)) t).
Proof.
  revert t. induction ps as [|[i slot] ps IH]; intros t Hps; [by destruct t|]. cbn [for_each].
  pose proof (register_branch_run (Some i) idx slot t) as Hr. cbn [register_branch] in Hr.
  rewrite (bind_run _ _ _ _ _ (Hr ltac:(intros ? [= <-]; eapply Hps; by left))). rewrite IH; [done|].
  intros j sl Hin. cbn. rewrite zget_alter. destruct (Hps j sl) as [f Hf]; [by right|]. rewrite Hf. destruct (j =? i); by eexists.
Qed.
Lemma step_br_table t t' v v' table :
  inv t v → small t → small t' → v_control ctx (VBrTable table) v = Some v' →
  visit_control ctx (VBrTable table) t = (Ok tt, t') → inv t' v'.
Proof.
  intros HI Hs Hs' Hv Hrun. unfold visit_control, when_reachable in Hrun. peel Hrun. cbn [v_control mbind option_bind] in Hv.
  destruct (v_take 1 v) as [v1|] eqn:Ht; [|done]. cbn [mbind option_bind] in Hv.
  destruct (v_take_ok _ _ _ (inv_vok _ _ HI) Ht) as (_ & Hok1 & Hf1).
  assert (vok v' ∧ frames_like (vs_frames v) (vs_frames v')) as [Hok' Hlike].
  { destruct (wt_targets table) as [ds| |]; try done. cbn [mbind option_bind] in Hv.
    destruct (v_label (wt_default table) v1) as [n|]; [|done]. cbn [mbind option_bind] in Hv.
    destruct (v_branches ds n v1) as [v2|] eqn:Hb; [|done]. cbn [mbind option_bind] in Hv.
    destruct (v_take n v2) as [v3|] eqn:Ht3; [|done]. cbn [mbind option_bind] in Hv.
    destruct (v_branches_ok _ _ _ _ Hok1 Hb) as [Hok2 Hf2]. destruct (v_take_ok _ _ _ Hok2 Ht3) as (_ & Hok3 & Hf3).
    destruct (v_dead_ok _ _ Hok3 Hv) as [? Hl]. by rewrite Hf3, Hf2, Hf1 in Hl. }
  clear Hv. destruct (tr_reachable t) eqn:Hre; [|injection Hrun as <-; by eapply step_dead].
  destruct (v_take_live _ _ _ _ _ HI Hre eq_refl Ht) as [Hh1 _]. destruct (inv_reachable _ _ HI Hre) as [_ Hht].
  destruct (inv_code _ _ HI) as (K & Hly & HK). rewrite (inv_current _ _ HI Hre) in HK.
  unfold tr_br_table in Hrun. rewrite (bind_run _ _ _ _ _ (tr_pop_run 1 t ltac:(lia))) in Hrun.
  set (t1 := set_tr_height (tr_height t - 1) t) in *. peel Hrun. rename a into cases. peel Hrun. peel Hrun. rename a into ps.
  destruct (table_edges_run t _ v cases 0 [] ps (tr_height t - 1) t1 HI Hre eq_refl eq_refl E0) as (es & Hel & -> & Hes & ->).
  peel Hrun. destruct a as [dt fr]. set (t2 := on_code _ t1) in *.
  destruct (branch_target_goes t t2 v _ dt fr HI Hre eq_refl E1) as [Hg Hfr].
  peel Hrun. unfold push_edge in E2. peel E2. peel E2. injection E2 as <- <-. set (t3 := on_code _ t2) in *.
  peel Hrun. set (op := OpBrTable _) in Hrun. destruct (emit_emits op t3) as (t4 & Hr4 & Hem).
  rewrite (bind_run _ _ _ _ _ Hr4) in Hrun.
  set (all := es ++ [(dt, fr)]).
  set (ps := match fr with Some i => _ | None => _ end) in Hrun.
  assert (∀ i slot, (i, slot) ∈ ps ↔ (∃ j bt, zget es j = Some (bt, Some i) ∧ slot = TableCase j) ∨ fr = Some i ∧ slot = TableDefault) as Hps.
  { intros i slot. unfold ps. assert ((i, slot) ∈ [] ++ case_patches 0 es ↔ ∃ j bt, zget es j = Some (bt, Some i) ∧ slot = TableCase j) as Hc.
    { cbn [app]. apply elem_case_patches. }
    destruct fr as [i'|]; [|rewrite Hc; split; [auto|intros [?|[? _]]; done]].
    rewrite elem_of_app, Hc, list_elem_of_singleton. split; (intros [?|H']; [by left|right]); [by injection H' as -> ->|destruct H' as [[= ->] ->]; done]. }
  assert (∀ i slot, (i, slot) ∈ ps → is_Some (zget (tr_ctrl t4) i)) as Hpsv.
  { intros i slot Hin. rewrite (em_ctrl _ _ _ _ Hem). change (tr_ctrl t3) with (tr_ctrl t).
    apply Hps in Hin as [(j & bt & Hj & _)|[-> _]]; [by eapply Hes|by apply Hfr]. }
  rewrite (bind_run _ _ _ _ _ (register_all_run _ ps t4 Hpsv)) in Hrun. injection Hrun as <-.
  rewrite (em_ctrl _ _ _ _ Hem) in *. change (tr_ctrl t3) with (tr_ctrl t) in *.
  assert (next_ip t3 = zlen (c_ops K)) as Hip by (change (next_ip t3) with (next_ip t); by apply next_ip_eq).
  pose proof (zlen_nonneg (ca_br_tables c0)). pose proof (zlen_nonneg (c_pool K)). pose proof (zlen_nonneg es).
  assert (zlen (ca_br_tables c0) + zlen (c_pool K) + zlen es + 1 < 2 ^ 31) as Hpl.
  { destruct Hs' as [_ Hs']. cbn in Hs'. rewrite (em_pool _ _ _ _ Hem) in Hs'. cbn in Hs'.
    rewrite (ly_pool _ _ Hly), !zlen_app, zlen_fmap, zlen_cons, zlen_nil in Hs'. lia. }
  assert (op = OpBrTable {| btr_base := zlen (c_pool K); btr_len := zlen es |}) as Hop.
  { unfold op. do 2 f_equal; [|unfold len32; rewrite wrap_id; [lia|unfold u_ok; lia]].
    change (tr_code t1) with (tr_code t). change (tr_base t1) with (tr_base t).
    rewrite (ly_pool _ _ Hly), (ly_base _ _ Hly). cbn. unfold len32. rewrite zlen_app.
    rewrite !(wrap_id 32); unfold u_ok; rewrite ?(wrap_id 32) by (unfold u_ok; lia); lia. }
  assert (∀ slot e, patch_id (c_ops K ++ [op]) {| pa_op := zlen (c_ops K); pa_slot := slot |} = Some e ↔
    match slot with TableCase k => e = EPool (zlen (c_pool K) + k) | TableDefault => e = EPool (zlen (c_pool K) + zlen es) | Single => False end) as Hpid.
  { intros slot e. unfold patch_id. cbn [pa_op]. rewrite zget_snoc, Z.eqb_refl, Hop. destruct slot; cbn; [done|split; [by intros [= <-]|by intros ->]..]. }
  eapply step_dead with (v := v); [|done|done|done].
  eapply inv_branch with (K' := add_op K op (fst <$> all) (replicate (length all) (tr_height t - 1)) (Some (tr_height t)));
    [done|done| |cbn; rewrite (em_error _ _ _ _ Hem); apply HI|cbn; by rewrite Hip| |by left|by apply inv_vok with (t := t)|done].
  - destruct Hly, Hem. split; cbn in *; rewrite ?em_ops0, ?em_pool0, ?em_handlers0, ?em_locals0, ?em_base0; try done.
    + by rewrite ly_ops0, app_assoc.
    + unfold all. by rewrite ly_pool0, fmap_app, <- !app_assoc.
    + by etrans.
    + by etrans.
  - cbn. rewrite (em_fusable _ _ _ _ Hem). replace (fusable_cmp_of op) with (@None CmpKind) by done.
    eapply (emit_pooled ctx K _ _ _ op _ all); try done.
    + rewrite Hop. cbn. lia.
    + rewrite Hop. cbn. by rewrite (proj2 (Z.leb_le _ _)) by lia.
    + rewrite Hop. cbn. intros k. unfold all. rewrite zlen_snoc. lia.
    + intros j bt f Hj. unfold all in Hj. rewrite zget_snoc in Hj. destruct (Z.eqb_spec j (zlen es)) as [->|].
      * injection Hj as <- <-. split; [done|]. intros i ->. exists {| pa_op := zlen (c_ops K); pa_slot := TableDefault |}.
        split; [|by apply Hpid]. apply list_elem_of_fmap. exists (i, TableDefault). split; [done|]. apply Hps. by right.
      * split; [by eapply Hes|]. intros i ->. exists {| pa_op := zlen (c_ops K); pa_slot := TableCase j |}.
        split; [|by apply Hpid]. apply list_elem_of_fmap. exists (i, TableCase j). split; [done|]. apply Hps. left. by exists j, bt.
    + intros i p ([i' slot] & [= -> ->] & Hin)%list_elem_of_fmap. apply Hps in Hin as [(j & bt & Hj & ->)|[-> ->]].
      * exists j, bt. split; [|by apply Hpid]. unfold all. pose proof (zget_Some _ _ _ Hj). by rewrite zget_app_l by lia.
      * exists (zlen es), dt. split; [|by apply Hpid]. unfold all. by rewrite zget_snoc, Z.eqb_refl.
Qed.

(** ** Structured control *)
Record shape (t : Translator) (v : VState) : Prop := {
  sh_frames : frames_sim ctx (tr_ctrl t) (vs_frames v);
  sh_reachable : tr_reachable t = true → live (tr_ctrl t) (vs_frames v) ∧ tr_height t = vs_height v;
  sh_vok : vok v;
  sh_first : ∀ f, zget (tr_ctrl t) 0 = Some f → ct_kind f = KBlock ∧ ct_base_height f = 0;
}.
Lemma inv_shape t v : inv t v → shape t v.
Proof. intros HI. pose proof (inv_vok _ _ HI). by destruct HI. Qed.
Lemma shape_inv t v K : shape t v → tr_error t = None → layout t K → cinv ctx K (tr_ctrl t) (current t) (tr_fusable_cmp t) → inv t v.
Proof. intros [? ? [? ?] ?] ? ? ?. split; try done. by exists K. Qed.
Lemma inv_settle t v : inv t v → inv (set_tr_fusable_cmp None t) v.
Proof.
  intros HI. pose proof (inv_shape _ _ HI) as Hsh. destruct (inv_code _ _ HI) as (K & Hly & HK & Hok).
  apply (shape_inv _ _ K); [by destruct Hsh|apply HI|by destruct Hly|]. split; [|done]. by eapply code_settle.
Qed.
Lemma block_arity_spec bt p r : v_block_arity ctx bt = Some (p, r) →
  block_arity ctx bt = Ok (p, r) ∧ 0 ≤ p ≤ MAX_ARITY ∧ 0 ≤ r ≤ MAX_ARITY.
Proof.
  destruct bt as [|ty|i]; cbn; [intros [= <- <-]; split; [done|unfold MAX_ARITY; lia]..|]. apply type_arity_spec.
Qed.
Definition clause_ok (c : HandlerClause) : Prop := is_Some (clause_payload ctx (hc_tag c) (hc_payload_args c) (hc_payload_ref c)).

Lemma open_inv t t' v v' K kind bt else_patch clauses :
  shape t v → layout t K → small t → tr_fusable_cmp t = None → tr_error t' = None →
  code_inv ctx K (λ e x, ctrl_due (c_ops K) (tr_ctrl t) e x ∨ ∃ ip, else_patch = Some ip ∧ e = EIn ip ∧ x = tr_height t)
    (ctrl_anchor (tr_ctrl t)) (current t) None → frames_ok (c_ops K) (tr_ctrl t) →
  v_open ctx kind bt v = Some v' → open_frame ctx kind bt else_patch clauses t = (Ok tt, t') →
  (∀ c, c ∈ clauses → clause_ok c) → (is_Some else_patch → tr_reachable t = true ∧ kind = KIf) → inv t' v'.
Proof.
  intros Hsh Hly Hs Hfus Herr HK Hok Hv Hrun Hcl Helse. unfold v_open in Hv.
  destruct (v_block_arity ctx bt) as [[p r]|] eqn:Ha; [|done]. cbn [mbind option_bind] in Hv.
  destruct (v_pop p v) as [v1|] eqn:Hp; [|done]. cbn [mbind option_bind] in Hv.
  destruct (block_arity_spec _ _ _ Ha) as (Hba & Hp0 & Hr0). unfold open_frame in Hrun. rewrite Hba in Hrun. peel Hrun.
  assert (v_take p v = Some v1) as Ht by (unfold v_take; by rewrite (proj2 (Z.leb_le 0 p)) by lia).
  destruct (v_take_ok _ _ _ (sh_vok _ _ Hsh) Ht) as (_ & Hok1 & Hf1).
  assert (∃ g, last (vs_frames v) = Some g) as [glast Hlast].
  { unfold v_pop in Hp. destruct (last (vs_frames v)) as [g|]; [by exists g|done]. }
  peel Hrun. unfold tr_height_below, checked_sub in E. destruct (Z.leb_spec p (tr_height t)); injection E as <- <-.
  2:{ peel Hrun. injection Hrun as <-. cbn in Herr. by destruct (tr_error t). }
  peel Hrun. injection Hrun as <-. rewrite (next_ip_eq _ _ Hly Hs). set (f := new_frame _ _ _ _ _ _ _ _).
  set (g := {| vf_kind := kind; vf_else := false; vf_height := vs_height v1; vf_params := p; vf_results := r; vf_unreachable := false |}) in Hv.
  assert (vok {| vs_height := vs_height v1; vs_frames := vs_frames v1 ++ [g] |}) as Hokg.
  { destruct Hok1 as [Hb Hfs]. split; [done|]. cbn. intros g' [?| ->%list_elem_of_singleton]%elem_of_app; [by apply Hfs|done]. }
  destruct (v_push_ok _ _ _ Hokg (proj1 Hp0) Hv) as [Hok' ->]. cbn [vs_height vs_frames] in *. rewrite Hf1 in *.
  destruct Hsh as [Hfr Hre Hvk Hfst].
  assert (tr_reachable t = true → vs_height v1 = tr_height t - p) as Hlv.
  { intros Hr. destruct (Hre Hr) as [Hlive Hh]. unfold v_pop in Hp. rewrite Hlast in Hp. cbn in Hp.
    apply last_Some in Hlast as [rest Hrest]. destruct Hfr as [Hlen _]. rewrite Hrest, zlen_snoc in Hlen.
    destruct (zget_is_Some (tr_ctrl t) (zlen (tr_ctrl t) - 1)) as [f' Hf']; [pose proof (zlen_nonneg rest); lia|].
    destruct (Hlive f' glast Hf') as [_ Hu]; [rewrite Hrest, zget_snoc; by destruct (Z.eqb_spec (zlen (tr_ctrl t) - 1) (zlen rest)); [|lia]|].
    rewrite Hu in Hp. destruct (_ <=? _); [|done]. injection Hp as <-. cbn. lia. }
  apply (shape_inv _ _ K); [|done|by destruct Hly|].
  - split; cbn [set_tr_ctrl tr_ctrl tr_reachable tr_height vs_height vs_frames].
    + apply frames_sim_snoc. split_and!; [done| |by intros ?; apply Hre].
      destruct Hok1 as [Hb _]. split; try done; cbn.
      * intros Hr. by rewrite Hlv.
      * intros He. destruct (Helse He) as [? ->]. done.
    + intros Hr. split; [|rewrite Hlv by done; lia]. intros f' g'. rewrite zlen_snoc, !zget_snoc.
      destruct (Z.eqb_spec (zlen (tr_ctrl t) + 1 - 1) (zlen (tr_ctrl t))); [|lia].
      destruct Hfr as [-> _]. destruct (Z.eqb_spec (zlen (vs_frames v) + 1 - 1) (zlen (vs_frames v))); [|lia].
      by intros [= <-] [= <-].
    + done.
    + intros f'. rewrite zget_snoc. destruct Hfr as [Hlen _]. apply last_Some in Hlast as [rest Hrest].
      rewrite Hrest, zlen_snoc in Hlen. pose proof (zlen_nonneg rest). destruct (Z.eqb_spec 0 (zlen (tr_ctrl t))); [lia|]. by apply Hfst.
  - change (cinv ctx K (tr_ctrl t ++ [f]) (current t) (tr_fusable_cmp t)). rewrite Hfus. apply open_frame_cinv; try done.
    + eapply code_mono; [exact HK| |done|].
      * intros e x [?|(ip & He & -> & ->)]; [by left|right]. exists ip. split_and!; [done..|]. cbn. lia.
      * intros e x [?|(ip & He & -> & ->)]; left; [by left|right]. exists ip. split_and!; [done..|]. cbn. lia.
    + intros Hk Hr. unfold current. cbn in Hr. rewrite Hr. cbn. f_equal. lia.
Qed.
Lemma step_block t t' v v' kind bt clauses :
  inv t v → small t → v_open ctx kind bt v = Some v' → (clear_fusable;; open_frame ctx kind bt None clauses) t = (Ok tt, t') →
  tr_error t' = None → (∀ c, c ∈ clauses → clause_ok c) → inv t' v'.
Proof.
  intros HI Hs Hv Hrun Herr Hcl. peel Hrun. pose proof (inv_settle _ _ HI) as HI'. set (t1 := set_tr_fusable_cmp None t) in *.
  destruct (inv_code _ _ HI') as (K & Hly & HK & Hok).
  eapply (open_inv t1 t' v v' K); try done; [by apply inv_shape|].
  eapply code_mono; [exact HK| |done|by intros; left; left]. intros e x [?|(ip & ? & _)]; done.
Qed.

Lemma step_if t t' v v' bt :
  inv t v → small t → small t' → (∃ v1, v_take 1 v = Some v1 ∧ v_open ctx KIf bt v1 = Some v') → push_if ctx bt t = (Ok tt, t') →
  tr_error t' = None → inv t' v'.
Proof.
  intros HI Hs Hs' (v1 & Ht & Hv) Hrun Herr. pose proof (inv_vok _ _ HI) as Hok.
  destruct (v_take_ok _ _ _ Hok Ht) as (_ & Hok1 & Hf1).
  unfold push_if in Hrun. peel Hrun. peel Hrun. unfold if_branch in E0. peel E0.
  destruct (tr_reachable t) eqn:Hre; cbn [negb] in E0.
  2:{ injection E0 as <- <-. eapply (step_block t t' v1 v' KIf bt []); try done; [|by intros c ?%elem_of_nil].
    eapply step_dead; [done..| |done]. by left. }
  destruct (v_take_live _ _ _ _ _ HI Hre eq_refl Ht) as [Hh1 ->]. destruct (inv_reachable _ _ HI Hre) as [Hlive Hht].
  destruct (inv_code _ _ HI) as (K & Hly & HK). rewrite (inv_current _ _ HI Hre) in HK.
  rewrite (bind_run _ _ _ _ _ (tr_pop_run 1 t ltac:(lia))) in E0. peel E0. unfold take_fusable in E1. cbn in E1. injection E1 as <- <-.
  set (t1 := set_tr_fusable_cmp None (set_tr_height (tr_height t - 1) t)) in *.
  assert (layout t1 K) as Hly1 by (by destruct Hly).
  assert (∃ K2 t2, layout t2 K2 ∧ small t2 ∧ s = t2 ∧ tr_ctrl t2 = tr_ctrl t ∧ tr_reachable t2 = true ∧ tr_height t2 = tr_height t - 1 ∧
    ∃ idx, a0 = Some idx ∧ frames_ok (c_ops K2) (tr_ctrl t) ∧
    code_inv ctx K2 (else_due (c_ops K2) (tr_ctrl t) idx (tr_height t - 1)) (ctrl_anchor (tr_ctrl t)) (Some (tr_height t - 1)) None)
    as (K2 & t2 & Hly2 & Hs2 & -> & Hc2 & Hr2 & Hh2 & idx & -> & Hok2 & HK2).
  { assert (small s) as Hss0.
    { peel Hrun. unfold open_frame in Hrun. peel Hrun. destruct a1. peel Hrun. unfold tr_height_below in E2.
      destruct (checked_sub _ _) in E2; injection E2 as <- <-; peel Hrun; by injection Hrun as <-. }
    destruct (tr_fusable_cmp t) as [kind|] eqn:Hfus.
    - peel E0. destruct (fuse_run t1 K (tr_height t) kind (OpBrIfCmp kind true no_target) Hly1 Hs HK) as (Hi & t2 & Ht2 & Hly2 & Hoc).
      rewrite (bind_run _ _ _ _ _ Ht2) in E0. injection E0 as <- <-. destruct Hoc as [Hoh Hoc Hor Hof Hoe].
      destruct (fuse_if ctx K _ _ kind HK ltac:(lia)) as [HKf Hokf].
      exists (fused K kind true no_target), t2. split_and!; [done|done|done|by rewrite Hoc|by rewrite Hor|by rewrite Hoh|].
      exists (zlen (c_ops K) - 1). by rewrite Hi.
    - peel E0. destruct (emit_emits (OpBrIfNot no_target) t1) as (t2 & Hr2 & Hem).
      rewrite (bind_run _ _ _ _ _ Hr2) in E0. injection E0 as <- <-.
      destruct (emit_if ctx K _ _ _ HK ltac:(lia)) as [HKf Hokf].
      eexists _, t2. split_and!; [by eapply (layout_emits t1)|done|done|by rewrite (em_ctrl _ _ _ _ Hem)|by rewrite (em_reachable _ _ _ _ Hem)|
        by rewrite (em_height _ _ _ _ Hem)|].
      exists (zlen (c_ops K)). split_and!; [f_equal; by apply (next_ip_eq t1)|exact Hokf|exact HKf]. }
  peel Hrun. set (t3 := set_tr_fusable_cmp None t2) in *.
  assert (layout t3 K2) as Hly3 by (by destruct Hly2).
  eapply (open_inv t3 t' _ v' K2); try done.
  - destruct (inv_shape _ _ HI) as [Hfr _ _ Hfst]. split; cbn [t3 set_tr_fusable_cmp tr_ctrl tr_reachable tr_height vs_height vs_frames].
    + by rewrite Hc2.
    + intros _. split; [by rewrite Hc2|]. rewrite Hh2. cbn. lia.
    + done.
    + by rewrite Hc2.
  - change (tr_ctrl t3) with (tr_ctrl t2). change (tr_height t3) with (tr_height t2).
    assert (current t3 = Some (tr_height t - 1)) as -> by (unfold current; cbn; by rewrite Hr2, Hh2). rewrite Hc2, Hh2.
    eapply code_mono; [exact HK2| |done|].
    + intros e x [?|(ip & [= <-] & -> & ->)]; [by left|by right].
    + intros e x [?|[-> ->]]; left; [by left|right]. by exists idx.
  - cbn. by rewrite Hc2.
  - by intros c ?%elem_of_nil.
Qed.
End run.
