(* ===== verification/Closed.v ===== *)
(** * Closed: the ends of frames (about Compile.v)

    [else], [end] and the landing pads of a [try_table] keep the translator's invariant:
    the branches that wait for a frame are patched to a position of the height they bring. *)
From S2P Require Import Prelude Keep Types Layout Codec Op Entity Compile Lowering Grown Heights Compiled Translated Verified.
Open Scope Z_scope.

(** ** The code at the end of a frame *)
Section code.
Context (ctx : CompileCtx).

Lemma alter_at_last {A} (g : A → A) l x : alter_at g (zlen l) (l ++ [x]) = l ++ [g x].
Proof.
  unfold alter_at. rewrite (proj2 (Z.leb_le 0 (zlen l))) by apply zlen_nonneg. unfold zlen. rewrite Nat2Z.id.
  rewrite <- (Nat.add_0_r (length l)). by rewrite alter_app_r.
Qed.
Lemma alter_at_app {A} (g : A → A) i l k : i < zlen l → alter_at g i (l ++ k) = alter_at g i l ++ k.
Proof.
  intros Hi. unfold alter_at. destruct (Z.leb_spec 0 i); [|done]. apply alter_app_l. unfold zlen in Hi. lia.
Qed.
Lemma patch_id_inline ops ip op : zget ops ip = Some op → is_inline op = true →
  patch_id ops {| pa_op := ip; pa_slot := Single |} = Some (EIn ip).
Proof. intros Hop Hi. unfold patch_id. cbn [pa_op]. rewrite Hop, Hi. by destruct op. Qed.

(** A jump to the end of the innermost frame. *)
Lemma emit_skip K crest f cur :
  cinv ctx K (crest ++ [f]) cur None → ct_kind f ≠ KLoop → 0 ≤ ct_base_height f → 0 ≤ ct_result_count f < 2 ^ 16 →
  (∀ h, cur = Some h → h = ct_base_height f + ct_result_count f) →
  let op := OpBr {| bt_ip := 0; bt_keep := ct_result_count f; bt_pop := 0 |} in
  cinv ctx (add_op K op [] [] cur) (crest ++ [add_patch {| pa_op := zlen (c_ops K); pa_slot := Single |} f]) None None.
Proof.
  intros HK Hk Hb Hr Hcur op. pose proof (zlen_nonneg crest).
  assert (goes (crest ++ [f]) (ct_base_height f + ct_result_count f) {| bt_ip := 0; bt_keep := ct_result_count f; bt_pop := 0 |}
    (Some (zlen crest))) as Hg.
  { split; [unfold fits; cbn; lia|]. exists (zlen crest), f. rewrite zget_snoc, Z.eqb_refl. split; [done|].
    unfold label_arity. rewrite bool_decide_false by done. cbn. split; [lia|done]. }
  rewrite <- (alter_at_last (add_patch _)).
  change (alter_at _ _ _) with (register (crest ++ [f]) (forward (Some (zlen crest)) (zlen (c_ops K)) Single)).
  destruct cur as [h|].
  - rewrite (Hcur h eq_refl) in *. by eapply (emit_inline ctx K _ _ None op).
  - pose proof (ci_heights _ _ _ _ _ _ (proj1 HK)) as Hlen.
    assert (∀ e x, new_edge K e → edge_of (add_op K op [] [] None) e = Some x → False) as Hno.
    { intros [ip|k] x Hne; cbn in *.
      - subst ip. by rewrite !zget_snoc, Z.eqb_refl, Hlen, Z.eqb_refl.
      - by rewrite app_nil_r, zget_None by lia. }
    apply emit_branchy with (fus := None); try done.
    + intros i p [= -> ->]%list_elem_of_singleton. exists f, (EIn (zlen (c_ops K))).
      split_and!; [by rewrite zget_snoc, Z.eqb_refl|done|by apply patch_id_new|done| |].
      * exists op. cbn. by rewrite zget_snoc, Z.eqb_refl.
      * intros t h He. by destruct (Hno (EIn (zlen (c_ops K))) (t, h)).
    + intros e t h Hne He. by destruct (Hno e (t, h)).
Qed.

(** The branch of an [if] without its [else]. *)
Definition else_patches (f : CtrlFrame) : list Patch :=
  match ct_else_patch f with Some idx => [{| pa_op := idx; pa_slot := Single |}] | None => [] end.
Lemma else_due_valid K crest f cur fus idx : cinv ctx K (crest ++ [f]) cur fus → ct_else_patch f = Some idx →
  valid_edge K (EIn idx) ∧ patch_id (c_ops K) {| pa_op := idx; pa_slot := Single |} = Some (EIn idx).
Proof.
  intros [HK _] He. destruct (ci_due _ _ _ _ _ _ HK (EIn idx) (ct_base_height f + ct_param_count f)) as [Hv _].
  { apply ctrl_due_snoc. right. right. by exists idx. }
  split; [done|]. destruct Hv as (op & ? & ?). by eapply patch_id_inline.
Qed.
Lemma else_frame K crest f :
  cinv ctx K (crest ++ [f]) None None → (is_Some (ct_else_patch f) → ct_reachable_on_entry f = true) →
  cinv ctx (patch_list (else_patches f) (zlen (c_ops K)) K) (crest ++ [clear_else f])
    (if ct_reachable_on_entry f then Some (ct_base_height f + ct_param_count f) else None) None.
Proof.
  intros HK Hre. set (fe := new_frame KBlock (ct_base_height f) (ct_param_count f) 0 0 (ct_else_patch f) true []).
  apply (close_frame ctx K (crest ++ [clear_else f]) fe _ None).
  - destruct HK as [HK Hok]. apply frames_ok_snoc in Hok as [Hok (Hp & Hs & Hk)]. split.
    + eapply code_mono; [exact HK| | |].
      * intros e x [[Hx|[Hx|(? & [=] & _)]]%ctrl_due_snoc|[(p & Hp' & _)|Hx]]%ctrl_due_snoc; apply ctrl_due_snoc;
          [by left|right; by left|by apply elem_of_nil in Hp'|right; by right].
      * intros ip x [[Hx|Hx]%ctrl_anchor_snoc|[[=] _]]%ctrl_anchor_snoc; apply ctrl_anchor_snoc; [by left|by right].
      * intros e x [Hx|[Hx|Hx]]%ctrl_due_snoc; left; apply ctrl_due_snoc; [left; apply ctrl_due_snoc; by left|left; apply ctrl_due_snoc|right; by right].
        right. by left.
    + apply frames_ok_snoc. split; [apply frames_ok_snoc; split; [done|by split; [|split]]|]. split_and!; cbn; try done; [|apply zlen_nonneg].
      by intros p ?%elem_of_nil.
  - by left.
  - intros e x [(p & Hp & _)|(ip & Hip & -> & ->)]; [by apply elem_of_nil in Hp|]. cbn in Hip.
    destruct (else_due_valid _ _ _ _ _ _ HK Hip) as [_ Hid]. unfold else_patches. rewrite Hip. split; [eexists; split; [by left|done]|].
    intros _ _ _. by rewrite Hre by (by exists ip).
  - intros p e Hp He. unfold else_patches in Hp. destruct (ct_else_patch f) as [idx|] eqn:Hidx; [|by apply elem_of_nil in Hp].
    apply list_elem_of_singleton in Hp as ->. destruct (else_due_valid _ _ _ _ _ _ HK Hidx) as [_ Hid].
    rewrite Hid in He. injection He as <-. eexists. right. by exists idx.
Qed.
Lemma end_frame K crest f cur x ps (reachable : bool) :
  cinv ctx K (crest ++ [f]) cur None → (∀ h, cur = Some h → h = x ∧ reachable = true) → x = ct_base_height f + ct_result_count f →
  (is_Some (ct_else_patch f) → ct_param_count f = ct_result_count f ∧ reachable = true) →
  (∀ p e t h, p ∈ ct_end_patches f → patch_id (c_ops K) p = Some e → edge_of K e = Some (t, h) → reachable = true) →
  (∀ p, p ∈ ps ↔ p ∈ else_patches f ∨ p ∈ ct_end_patches f) →
  cinv ctx (patch_list ps (zlen (c_ops K)) K) crest (if reachable then Some x else None) None.
Proof.
  intros HK Hcur Hx Helse Hpat Hps. apply close_frame with (f := f) (cur := cur); [done|..].
  - destruct cur as [h|]; [|by left]. right. by destruct (Hcur h eq_refl) as [-> ->].
  - intros e y [(p & Hp & Hid & ->)|(ip & Hip & -> & ->)].
    + split; [exists p; split; [apply Hps; by right|done]|]. intros t h Het. by rewrite (Hpat p e t h Hp Hid Het), <- Hx.
    + destruct (else_due_valid _ _ _ _ _ _ HK Hip) as [_ Hid]. destruct Helse as [-> ->]; [by exists ip|]. rewrite <- Hx. split; [|done].
      eexists. split; [|exact Hid]. apply Hps. left. unfold else_patches. rewrite Hip. by left.
  - intros p e [Hp|Hp]%Hps Hid; [|eexists; left; eauto].
    unfold else_patches in Hp. destruct (ct_else_patch f) as [idx|] eqn:Hidx; [|by apply elem_of_nil in Hp].
    apply list_elem_of_singleton in Hp as ->. destruct (else_due_valid _ _ _ _ _ _ HK Hidx) as [_ Hid'].
    rewrite Hid' in Hid. injection Hid as <-. eexists. right. by exists idx.
Qed.
End code.

(** ** The translator at the end of a frame *)
Section run.
Context (ctx : CompileCtx) (c0 : CodeArenas).

Lemma v_close_ok v g v1 : v_close v = Some (g, v1) → ∃ rest, vs_frames v = rest ++ [g] ∧
  v1 = {| vs_height := vf_height g; vs_frames := rest |} ∧ (vf_unreachable g = false → vs_height v = vf_height g + vf_results g).
Proof.
  unfold v_close. destruct (last (vs_frames v)) as [g0|] eqn:Hl; [|done]. cbn [mbind option_bind].
  destruct (v_pop (vf_results g0) v) as [v2|] eqn:Hp; [|done]. cbn [mbind option_bind].
  destruct (Z.eqb_spec (vs_height v2) (vf_height g0)) as [Heq|]; [|done]. intros [= <- <-].
  unfold v_pop in Hp. rewrite Hl in Hp. cbn [mbind option_bind] in Hp. apply last_Some in Hl as [rest Hr]. exists rest.
  destruct (Z.leb_spec (vf_height g0 + vf_results g0) (vs_height v)).
  - injection Hp as <-. cbn in *. rewrite Heq, Hr, length_app. cbn.
    replace (length rest + 1 - 1)%nat with (length rest) by lia. rewrite take_app_length. split_and!; [done..|lia].
  - destruct (vf_unreachable g0) eqn:Hu; [|done]. injection Hp as <-. cbn in *. rewrite Hr, length_app. cbn.
    replace (length rest + 1 - 1)%nat with (length rest) by lia. rewrite take_app_length. done.
Qed.
Lemma wrap_height h n : 0 ≤ h ≤ MAX_HEIGHT → 0 ≤ n ≤ MAX_ARITY + 1 → wrap 32 (h + n) = h + n.
Proof. unfold MAX_HEIGHT, MAX_ARITY. intros. apply wrap_id. unfold u_ok. lia. Qed.

(** What the translator and the validator know of the frame that ends. *)
Record closing (t : Translator) (v : VState) (crest : list CtrlFrame) (f : CtrlFrame) (g : VFrame) (v1 : VState) : Prop := {
  cl_ctrl : tr_ctrl t = crest ++ [f];
  cl_frames : vs_frames v = vs_frames v1 ++ [g];
  cl_height : vs_height v1 = vf_height g;
  cl_sim : frames_sim ctx crest (vs_frames v1);
  cl_fsim : fsim ctx f g;
  cl_entered : ct_reachable_on_entry f = true → live crest (vs_frames v1) ∧ ct_base_height f = vf_height g;
  cl_live : tr_reachable t = true → ct_reachable_on_entry f = true ∧ tr_height t = ct_base_height f + ct_result_count f;
  cl_vok : vok v1;
}.
Lemma closing_intro t v g v1 : inv ctx c0 t v → v_close v = Some (g, v1) → ∃ crest f, closing t v crest f g v1.
Proof.
  intros HI Hv. destruct (v_close_ok _ _ _ Hv) as (rest & Hf & -> & Hh). pose proof (inv_vok _ _ _ _ HI) as [Hvh Hvf].
  pose proof (inv_frames _ _ _ _ HI) as Hsim. rewrite Hf in Hsim.
  destruct (tr_ctrl t) as [|f crest _] eqn:Hc using rev_ind.
  { destruct Hsim as [Hl _]. rewrite zlen_snoc, zlen_nil in Hl. pose proof (zlen_nonneg rest). lia. }
  pose proof Hsim as [Hlen _]. rewrite !zlen_snoc in Hlen.
  apply frames_sim_snoc in Hsim as (Hs & Hfs & Hl). exists crest, f. split; try done.
  - intros Hr. split; [by apply Hl|by apply (fs_base _ _ _ Hfs)].
  - intros Hr. destruct (inv_reachable _ _ _ _ HI Hr) as [Hlive Hht]. destruct (Hlive f g) as [Hroe Hu].
    + rewrite Hc, zget_snoc, zlen_snoc. by destruct (Z.eqb_spec (zlen crest + 1 - 1) (zlen crest)); [|lia].
    + rewrite Hc, Hf, zget_snoc, zlen_snoc. by destruct (Z.eqb_spec (zlen crest + 1 - 1) (zlen rest)); [|lia].
    + split; [done|]. rewrite Hht, (Hh Hu), (fs_results _ _ _ Hfs). f_equal. symmetry. by apply (fs_base _ _ _ Hfs).
  - split; cbn; [apply Hvf; rewrite Hf; apply elem_of_app; right; by left|]. intros g' Hg'. apply Hvf. rewrite Hf. apply elem_of_app. by left.
Qed.
Lemma first_rest t v crest f : inv ctx c0 t v → tr_ctrl t = crest ++ [f] →
  ∀ f0, zget crest 0 = Some f0 → ct_kind f0 = KBlock ∧ ct_base_height f0 = 0.
Proof.
  intros HI Hc f0 Hf0. apply (inv_first _ _ _ _ HI). rewrite Hc. pose proof (zget_Some _ _ _ Hf0). by rewrite zget_app_l by lia.
Qed.
Lemma fsim_fixup f g : fsim ctx f g → 0 ≤ ct_result_count f < 2 ^ 16 ∧ 0 ≤ ct_param_count f ≤ MAX_ARITY.
Proof.
  intros Hs. rewrite (fs_results _ _ _ Hs), (fs_params _ _ _ Hs). pose proof (fs_arities _ _ _ Hs). unfold MAX_ARITY in *. lia.
Qed.
Lemma small_le t t' : small t' → zlen (ca_ops (tr_code t)) ≤ zlen (ca_ops (tr_code t')) →
  zlen (ca_br_tables (tr_code t)) ≤ zlen (ca_br_tables (tr_code t')) → small t.
Proof. unfold small. lia. Qed.
Lemma grown_small {A} (m : Tr A) t x t' : (∀ a b bad, keeps (grown a b bad) m) → m t = (Ok x, t') → small t' → small t.
Proof. intros Hm Hrun Hs. destruct (grown_run _ _ _ _ Hm Hrun) as (? & ? & _). by eapply small_le. Qed.
Lemma update_last_run g crest f t : tr_ctrl t = crest ++ [f] → update_last g t = (Ok tt, set_tr_ctrl (crest ++ [g f]) t).
Proof. intros Hc. unfold update_last. rewrite (bind_run _ _ _ (crest, f) t); [done|]. unfold reads. by rewrite Hc, vec_pop_app. Qed.
Lemma pop_ctrl_run why crest f t : tr_ctrl t = crest ++ [f] → pop_ctrl why t = (Ok f, set_tr_ctrl crest t).
Proof. intros Hc. unfold pop_ctrl. rewrite (bind_run _ _ _ (crest, f) t); [done|]. unfold reads. by rewrite Hc, vec_pop_app. Qed.
Lemma patched_small t t' K ip ps : layout c0 t K → layout c0 t' (patch_list ps ip K) → small t → small t'.
Proof.
  intros Hly Hly' [H1 H2]. destruct (patch_list_rest ps ip K) as (_ & _ & _ & Ho & Hp). unfold small.
  rewrite (ly_ops _ _ _ Hly'), (ly_pool _ _ _ Hly'), !zlen_app, Ho, Hp.
  by rewrite (ly_ops _ _ _ Hly), (ly_pool _ _ _ Hly), !zlen_app in *.
Qed.
(** The branch of an [if], patched. *)
Lemma else_run t t' K crest f cur fus ip a :
  layout c0 t K → small t → cinv ctx K (crest ++ [f]) cur fus →
  match ct_else_patch f with Some idx => patch_ip idx Single ip | None => mret tt end t = (Ok a, t') →
  layout c0 t' (patch_list (else_patches f) ip K) ∧ only_code t t'.
Proof.
  intros Hly Hs HK Hrun. unfold else_patches. destruct (ct_else_patch f) as [idx|] eqn:He; [|by injection Hrun as _ <-].
  destruct (else_due_valid _ _ _ _ _ _ _ HK He) as [Hv Hid]. destruct a.
  apply (patch_ip_run c0 t t' K {| pa_op := idx; pa_slot := Single |} (EIn idx)) in Hrun; [|done..]. cbn [patch_list foldl]. by rewrite Hid.
Qed.

(** The end of an [if]'s first branch: a jump over the second. *)
Lemma else_skip t t1 v crest f g v1 K a :
  closing t v crest f g v1 → layout c0 t K → cinv ctx K (tr_ctrl t) (current t) None → tr_fusable_cmp t = None → ct_kind f ≠ KLoop →
  small t →
  (if tr_reachable t then
     idx ← reads (λ t, Ok (next_ip t));
     '(keep, _) ← lift (fixup (ct_result_count f) 0);
     emit (OpBr {| bt_ip := 0; bt_keep := keep; bt_pop := 0 |});;
     update_last (add_patch {| pa_op := idx; pa_slot := Single |})
   else mret tt) t = (Ok a, t1) →
  ∃ K1 ps, layout c0 t1 K1 ∧ tr_ctrl t1 = crest ++ [add_patches ps f] ∧ cinv ctx K1 (crest ++ [add_patches ps f]) None None ∧
    tr_fusable_cmp t1 = None ∧ tr_error t1 = tr_error t ∧ (ps ≠ [] → ct_reachable_on_entry f = true).
Proof.
  intros Hcl Hly HK Hfus Hkind Hs Hrun. rewrite (cl_ctrl _ _ _ _ _ _ Hcl) in HK. unfold current in HK.
  destruct (tr_reachable t) eqn:Hre.
  2:{ injection Hrun as _ <-. exists K, []. split_and!; try done. apply Hcl. }
  destruct (cl_live _ _ _ _ _ _ Hcl Hre) as [Hroe Hh]. destruct (cl_entered _ _ _ _ _ _ Hcl Hroe) as [_ Hb].
  destruct (fsim_fixup _ _ (cl_fsim _ _ _ _ _ _ Hcl)) as [Hr _]. pose proof (fs_height _ _ _ (cl_fsim _ _ _ _ _ _ Hcl)) as Hgh.
  peel Hrun. peel Hrun. destruct a0 as [keep pop]. apply fixup_Ok in E as (-> & _).
  set (op := OpBr _) in Hrun. destruct (emit_emits op t) as (t2 & Ht2 & Hem). rewrite (bind_run _ _ _ _ _ Ht2) in Hrun.
  rewrite (update_last_run _ crest f) in Hrun by (rewrite (em_ctrl _ _ _ _ Hem); apply Hcl). injection Hrun as _ <-.
  rewrite (next_ip_eq _ _ _ Hly Hs).
  eexists _, [ {| pa_op := zlen (c_ops K); pa_slot := Single |} ]. split_and!.
  - apply layout_ctrl. by eapply layout_emits.
  - done.
  - apply emit_skip; try done; [lia|]. intros h [= <-]. done.
  - cbn. by rewrite (em_fusable _ _ _ _ Hem).
  - cbn. apply (em_error _ _ _ _ Hem).
  - done.
Qed.
Lemma step_else t t' v v' : inv ctx c0 t v → small t → small t' → v_else v = Some v' → do_else t = (Ok tt, t') → inv ctx c0 t' v'.
Proof.
  intros HI Hs Hs' Hv Hrun. unfold v_else in Hv. destruct (v_close v) as [[g v1]|] eqn:Hc; [|done]. cbn [mbind option_bind] in Hv.
  destruct (negb (bool_decide (vf_kind g = KIf)) || vf_else g) eqn:Hg; [done|]. apply orb_false_iff in Hg as [Hk Helse].
  apply negb_false_iff, bool_decide_eq_true in Hk.
  unfold do_else in Hrun. peel Hrun. pose proof (inv_settle _ _ _ _ HI) as HI'. set (t1 := set_tr_fusable_cmp None t) in *.
  destruct (closing_intro t1 v g v1 HI' Hc) as (crest & f & Hcl). pose proof (cl_fsim _ _ _ _ _ _ Hcl) as Hfs.
  peel Hrun. unfold last_frame in E. rewrite (cl_ctrl _ _ _ _ _ _ Hcl), last_snoc in E. injection E as <-.
  peel Hrun. peel Hrun. destruct (inv_code _ _ _ _ HI') as (K & Hly & HK).
  assert (ct_kind f ≠ KLoop) as Hkind by (by rewrite (fs_kind _ _ _ Hfs), Hk).
  destruct (else_skip t1 s v crest f g v1 K a Hcl Hly HK eq_refl Hkind Hs E) as (K1 & ps & Hly1 & Hc1 & HK1 & Hf1 & He1 & Hps).
  clear E. destruct (add_patches_fields ps f) as (F1 & F2 & F3 & F4 & F5 & F6 & F7 & F8 & _).
  assert (small s) as Hss by (eapply grown_small; [|exact Hrun|done]; intros; keep).
  peel Hrun. rewrite <- F6 in E. set (f2 := add_patches ps f) in *.
  assert (match ct_else_patch f2 with Some idx => patch_ip idx Single (zlen (c_ops K1)) | None => mret tt end s = (Ok a0, s0)) as E'.
  { rewrite <- (next_ip_eq _ _ _ Hly1 Hss). destruct (ct_else_patch f2); [|done]. by peel E. }
  destruct (else_run s s0 K1 crest f2 None None _ a0 Hly1 Hss HK1 E') as [Hly2 [Hh2 Hc2 Hr2 Hf2 He2]].
  rewrite Hc1 in Hc2. rewrite (bind_run _ _ _ _ _ (update_last_run clear_else crest f2 s0 Hc2)) in Hrun. peel Hrun.
  unfold set_height, modify in Hrun. injection Hrun as <-.
  assert (is_Some (ct_else_patch f2) → ct_reachable_on_entry f2 = true) as Hep.
  { rewrite F6, F7. intros Hx. by apply (fs_else _ _ _ Hfs) in Hx as [? _]. }
  pose proof (else_frame ctx K1 crest f2 HK1 Hep) as HK2.
  set (g' := {| vf_kind := KIf; vf_else := true; vf_height := vs_height v1; vf_params := vf_params g; vf_results := vf_results g;
                vf_unreachable := false |}) in *.
  destruct (fsim_fixup _ _ Hfs) as [_ Hpar]. pose proof (fs_height _ _ _ Hfs) as Hgh.
  pose proof (cl_vok _ _ _ _ _ _ Hcl) as [Hv1h Hv1f].
  apply v_push_ok in Hv as [Hok' ->]; [|split; [done|]|rewrite <- (fs_params _ _ _ Hfs); lia].
  2:{ cbn. intros g0 [?| ->%list_elem_of_singleton]%elem_of_app; [by apply Hv1f|done]. }
  assert (zlen crest = zlen (vs_frames v1)) as Hlen by apply (cl_sim _ _ _ _ _ _ Hcl).
  eapply (shape_inv _ _ _ _ (patch_list (else_patches f2) (zlen (c_ops K1)) K1)).
  - split; cbn [set_tr_ctrl set_tr_height set_tr_reachable tr_ctrl tr_reachable tr_height vs_frames vs_height].
    + apply frames_sim_snoc. split_and!; [apply Hcl| |].
      * pose proof (fsim_patches ctx ps f g Hfs Hps) as Hf2s. fold f2 in Hf2s. destruct Hf2s. split; try done.
        -- cbn. congruence.
        -- cbn. intros Hr. rewrite (cl_height _ _ _ _ _ _ Hcl). by apply fs_base.
        -- by intros [? [=]].
      * cbn. rewrite F7. intros Hr. by apply Hcl.
    + intros Hr. split.
      * intros f0 g0. rewrite zlen_snoc, !zget_snoc. destruct (Z.eqb_spec (zlen crest + 1 - 1) (zlen crest)); [|lia].
        destruct (Z.eqb_spec (zlen crest + 1 - 1) (zlen (vs_frames v1))); [|lia]. intros [= <-] [= <-]. cbn. by rewrite F7.
      * destruct (cl_entered _ _ _ _ _ _ Hcl Hr) as [_ Hb]. rewrite <- (fs_params _ _ _ Hfs), (cl_height _ _ _ _ _ _ Hcl).
        rewrite wrap_height by lia. lia.
    + done.
    + intros f0. rewrite zget_snoc. destruct (Z.eqb_spec 0 (zlen crest)) as [Hz|]; [|by eapply first_rest; [exact HI'|apply Hcl]].
      intros [= <-]. cbn. rewrite F1, F2. apply (inv_first _ _ _ _ HI'). rewrite (cl_ctrl _ _ _ _ _ _ Hcl), Hz, zget_snoc. by rewrite Z.eqb_refl.
  - cbn. rewrite He2, He1. apply HI'.
  - by destruct Hly2.
  - cbn. rewrite Hf2, Hf1. unfold current. cbn. rewrite F7, F2, F3 in HK2.
    destruct (ct_reachable_on_entry f) eqn:Hroe; [|done]. destruct (cl_entered _ _ _ _ _ _ Hcl Hroe) as [_ Hb].
    by rewrite wrap_height by lia.
Qed.

(** After [end]: the frame is gone, its results are there. *)
Lemma register_crest crest vf l : frames_sim ctx crest vf → (l ≠ [] → live crest vf) → frames_sim ctx (register crest l) vf.
Proof.
  intros Hs Hl. destruct l as [|[i p] l]; [done|]. apply register_sim; [done|]. intros j q f _ Hf. eapply frames_live; [done|by apply Hl|done].
Qed.
Lemma closed_inv t t' v v' crest f g v1 K' l :
  inv ctx c0 t v → closing t v crest f g v1 → v_push (vf_results g) v1 = Some v' → tr_ctrl t' = register crest l →
  (l ≠ [] → ct_reachable_on_entry f = true) →
  layout c0 t' K' → cinv ctx K' (register crest l) (current t') (tr_fusable_cmp t') → tr_error t' = None →
  (tr_reachable t' = true → ct_reachable_on_entry f = true ∧ tr_height t' = ct_base_height f + ct_result_count f) → inv ctx c0 t' v'.
Proof.
  intros HI Hcl Hv Hc Hl Hly HK Herr Hre. pose proof (cl_fsim _ _ _ _ _ _ Hcl) as Hfs.
  destruct (v_push_ok _ _ _ (cl_vok _ _ _ _ _ _ Hcl) (proj1 (proj2 (fs_arities _ _ _ Hfs))) Hv) as [Hok' ->].
  apply (shape_inv _ _ _ _ K'); [|done|done|by rewrite Hc].
  split; rewrite ?Hc; cbn; [apply register_crest; [apply Hcl|]| |done|].
  - intros Hne. by apply (cl_entered _ _ _ _ _ _ Hcl), Hl.
  - intros Hr. destruct (Hre Hr) as [Hroe ->]. destruct (cl_entered _ _ _ _ _ _ Hcl Hroe) as [? ->]. split; [by apply register_live|].
    by rewrite (cl_height _ _ _ _ _ _ Hcl), (fs_results _ _ _ Hfs).
  - intros f0 (f1 & Hf1 & -> & ->)%register_first. by eapply first_rest; [exact HI|apply Hcl|].
Qed.
Lemma patch_list_app ps qs ip K : patch_list (ps ++ qs) ip K = patch_list qs ip (patch_list ps ip K).
Proof. apply foldl_app. Qed.
Lemma patch_list_valid ps ip K e : valid_edge K e → valid_edge (patch_list ps ip K) e.
Proof.
  revert K. induction ps as [|p ps IH]; intros K Hv; [done|]. cbn [patch_list foldl].
  fold (patch_list ps ip (match patch_id (c_ops K) p with Some e => patch_code e ip K | None => K end)).
  apply IH. destruct (patch_id (c_ops K) p); [by apply valid_edge_patch|done].
Qed.
Lemma waiting_valid K crest f cur fus p : cinv ctx K (crest ++ [f]) cur fus → p ∈ ct_end_patches f →
  ∃ e, patch_id (c_ops K) p = Some e ∧ valid_edge K e.
Proof.
  intros [HK Hok] Hp. apply frames_ok_snoc in Hok as [_ (Hid & _)]. destruct (Hid p Hp) as [e He]. exists e. split; [done|].
  eapply (ci_due _ _ _ _ _ _ HK). apply ctrl_due_snoc. right. left. eauto.
Qed.
Lemma step_end_plain t t' v v' crest f g v1 :
  inv ctx c0 t v → tr_fusable_cmp t = None → small t → small t' → closing t v crest f g v1 → v_push (vf_results g) v1 = Some v' →
  (bool_decide (vf_kind g = KIf) && negb (vf_else g) && negb (vf_params g =? vf_results g)) = false →
  (end_ip ← reads (λ t, Ok (next_ip t));
   match ct_else_patch f with Some idx => patch_ip idx Single end_ip | None => mret tt end;;
   patch_all (ct_end_patches f) end_ip;;
   modify (λ t, set_tr_reachable (if bool_decide (ct_kind f = KLoop) then tr_reachable t
     else tr_reachable t || ct_end_targeted f || bool_decide (is_Some (ct_else_patch f))) t);;
   set_height (wrap 32 (ct_base_height f + ct_result_count f))) (set_tr_ctrl crest t) = (Ok tt, t') → inv ctx c0 t' v'.
Proof.
  intros HI Hfus Hs Hs' Hcl Hv Hif Hrun. pose proof (cl_fsim _ _ _ _ _ _ Hcl) as Hfs.
  destruct (inv_code _ _ _ _ HI) as (K & Hly & HK). rewrite (cl_ctrl _ _ _ _ _ _ Hcl), Hfus in HK.
  set (t1 := set_tr_ctrl crest t) in *. assert (layout c0 t1 K) as Hly1 by (by destruct Hly).
  peel Hrun. rewrite (next_ip_eq _ _ _ Hly1 Hs) in Hrun.
  peel Hrun. destruct (else_run t1 s K crest f _ _ _ a Hly1 Hs HK E) as [Hly2 Hoc2]. clear E.
  peel Hrun. destruct a0. pose proof (patched_small _ _ _ _ _ Hly1 Hly2 Hs) as Hs2.
  apply (patch_all_run ctx c0 _ _ _ _ _ Hly2 Hs2) in E as [Hly3 Hoc3].
  2:{ intros p Hp. destruct (waiting_valid _ _ _ _ _ _ HK Hp) as (e & He & Hve). exists e. rewrite patch_list_ids. split; [done|].
    by apply patch_list_valid. }
  peel Hrun. unfold set_height, modify in Hrun. injection Hrun as <-. rewrite <- patch_list_app in Hly3.
  destruct (only_code_trans _ _ _ Hoc2 Hoc3) as [Hoh Hoc Hor Hof Hoe]. cbn in Hoh, Hoc, Hor, Hof, Hoe.
  set (reachable := if bool_decide (ct_kind f = KLoop) then tr_reachable t
    else tr_reachable t || ct_end_targeted f || bool_decide (is_Some (ct_else_patch f))).
  assert (tr_reachable t = true → reachable = true) as Hup.
  { unfold reachable. intros ->. by destruct (bool_decide (ct_kind f = KLoop)). }
  assert (ct_kind f ≠ KLoop → ct_end_targeted f = true ∨ is_Some (ct_else_patch f) → reachable = true) as Hup2.
  { unfold reachable. intros Hk Hor'. rewrite bool_decide_false by done.
    destruct Hor' as [->|He]; [by rewrite orb_true_r|]. by rewrite (bool_decide_true _ He), orb_true_r. }
  assert (reachable = true → ct_reachable_on_entry f = true) as Hdown.
  { unfold reachable. destruct (bool_decide (ct_kind f = KLoop)); [intros Hr; by apply (cl_live _ _ _ _ _ _ Hcl)|].
    intros [[Hr|Ht]%orb_true_iff|He%bool_decide_eq_true]%orb_true_iff;
      [by apply (cl_live _ _ _ _ _ _ Hcl)|by apply (fs_targeted _ _ _ Hfs)|by apply (fs_else _ _ _ Hfs)]. }
  assert (reachable = true → wrap 32 (ct_base_height f + ct_result_count f) = ct_base_height f + ct_result_count f) as Hw.
  { intros Hr. destruct (cl_entered _ _ _ _ _ _ Hcl (Hdown Hr)) as [_ ->]. pose proof (fs_height _ _ _ Hfs).
    rewrite (fs_results _ _ _ Hfs). pose proof (fs_arities _ _ _ Hfs). apply wrap_height; lia. }
  eapply (closed_inv t) with (l := []); [exact HI|exact Hcl|done|exact Hoc|done|by destruct Hly3| |cbn; rewrite Hoe; apply HI|].
  - cbn [set_tr_height set_tr_reachable tr_fusable_cmp]. rewrite Hof, Hfus. unfold current. cbn. rewrite Hor. fold reachable.
    assert ((if reachable then Some (wrap 32 (ct_base_height f + ct_result_count f)) else None) =
      if reachable then Some (ct_base_height f + ct_result_count f) else None) as ->.
    { destruct reachable; [|done]. by rewrite Hw. }
    eapply end_frame; [exact HK| |done| | |intros p; apply elem_of_app].
    + unfold current. destruct (tr_reachable t) eqn:Hr; [|done]. intros h [= <-]. split; [|by apply Hup].
      by apply (cl_live _ _ _ _ _ _ Hcl).
    + intros He. destruct (fs_else _ _ _ Hfs He) as (_ & Hve & Hk). split.
      * rewrite Hk, Hve in Hif. rewrite bool_decide_true in Hif by done. cbn in Hif.
        apply negb_false_iff, Z.eqb_eq in Hif. by rewrite (fs_params _ _ _ Hfs), (fs_results _ _ _ Hfs).
      * apply Hup2; [by rewrite (fs_kind _ _ _ Hfs), Hk|by right].
    + intros p e x h Hp _ _. destruct HK as [_ Hok]. apply frames_ok_snoc in Hok as [_ (_ & _ & Hloop)]. apply Hup2.
      * intros Hk. rewrite (Hloop Hk) in Hp. by apply elem_of_nil in Hp.
      * left. apply (fs_patches _ _ _ Hfs). intros Hn. rewrite Hn in Hp. by apply elem_of_nil in Hp.
  - cbn. rewrite Hor. fold reachable. intros Hr. split; [by apply Hdown|by apply Hw].
Qed.

(** *** Landing pads *)
Lemma payload_spec c n : clause_payload ctx (hc_tag c) (hc_payload_args c) (hc_payload_ref c) = Some n →
  payload_count ctx c = Ok n ∧ 0 ≤ n ≤ MAX_ARITY + 1.
Proof.
  unfold clause_payload, payload_count. destruct (hc_payload_args c).
  - destruct (hc_tag c) as [tag|]; [|done]. cbn. unfold tag_arity. destruct (zget (cc_tag_types ctx) tag) as [ty|]; [|done]. cbn.
    destruct (type_arity ctx ty) as [[p r]|] eqn:Ha; [|done]. cbn. intros [= <-].
    destruct (type_arity_spec _ _ _ _ Ha) as (-> & ? & _). cbn. unfold MAX_ARITY in *.
    assert (0 ≤ Z.b2z (hc_payload_ref c) ≤ 1) by (destruct (hc_payload_ref c); cbn; lia).
    rewrite wrap_id by (unfold u_ok; lia). split; [done|lia].
  - cbn. intros [= <-]. unfold MAX_ARITY. destruct (hc_payload_ref c); split; (done || lia).
Qed.
Lemma register_app ctrl l k : register ctrl (l ++ k) = register (register ctrl l) k.
Proof. apply foldl_app. Qed.
Lemma register_under crest f l : (∀ i p, (i, p) ∈ l → i < zlen crest) → register (crest ++ [f]) l = register crest l ++ [f].
Proof.
  revert crest. induction l as [|[i p] l IH]; intros crest Hl; [done|]. cbn [register foldl].
  rewrite alter_at_app by (apply (Hl i p); by left). apply IH. intros j q Hq. rewrite zlen_alter. apply (Hl j q). by right.
Qed.
Lemma cinv_raise K ctrl cur cur' : cinv ctx K ctrl cur None → below cur cur' → cinv ctx K ctrl cur' None.
Proof. intros [HK Hok] Hb. split; [by eapply code_raise|done]. Qed.

(** A landing pad is entered with the payload on the frame's operands, and branches from there. *)
Lemma landing_pads_run base vf f cs recs recs' t t' K crest :
  layout c0 t K → small t' → tr_ctrl t = crest → tr_fusable_cmp t = None → frames_sim ctx crest vf → live crest vf →
  0 ≤ base ≤ MAX_HEIGHT → (∀ c, c ∈ cs → clause_ok ctx c) → cinv ctx K (crest ++ [f]) None None →
  landing_pads ctx base cs recs t = (Ok recs', t') → ∃ K' l new,
    layout c0 t' K' ∧ tr_ctrl t' = register crest l ∧ cinv ctx K' (register crest l ++ [f]) None None ∧
    tr_fusable_cmp t' = None ∧ tr_reachable t' = tr_reachable t ∧ tr_error t' = tr_error t ∧
    c_heights K `prefix_of` c_heights K' ∧ keeps_ids (c_ops K) (c_ops K') ∧ recs' = recs ++ new ∧
    ∀ r, r ∈ new → hr_restore_height r = base ∧ ∃ n, clause_payload ctx (hr_tag r) (hr_payload_args r) (hr_payload_ref r) = Some n ∧
      mjoin (zget (c_heights K') (hr_landing_ip r)) = Some (base + n).
Proof.
  revert recs t K crest. induction cs as [|c cs IH]; intros recs t K crest Hly Hs' Hc Hfus Hsim Hlive Hbase Hcs HK Hrun; cbn [landing_pads] in Hrun.
  { injection Hrun as <- <-. exists K, [], []. rewrite app_nil_r. split_and!; try done. by intros r ?%elem_of_nil. }
  destruct (Hcs c) as [n Hn]; [by left|]. destruct (payload_spec _ _ Hn) as [Hpc Hnb]. rewrite Hpc in Hrun. peel Hrun.
  rewrite wrap_height in Hrun by done. peel Hrun. set (t1 := set_tr_height (base + n) t) in *.
  peel Hrun. destruct a as [tgt fr]. destruct (branch_target_sim ctx crest vf t1 _ _ _ Hsim Hlive Hc E) as [Hg Hfr]. clear E.
  assert (layout c0 t1 K) as Hly1 by (by destruct Hly).
  assert (small t1) as Hs1 by (eapply grown_small; [|exact Hrun|done]; intros; keep).
  peel Hrun. rewrite (next_ip_eq _ _ _ Hly1 Hs1) in Hrun. destruct (emit_emits (OpBr tgt) t1) as (t2 & Ht2 & Hem).
  rewrite (bind_run _ _ _ _ _ Ht2) in Hrun.
  assert (tr_ctrl t2 = crest) as Hc2 by (rewrite (em_ctrl _ _ _ _ Hem); exact Hc).
  rewrite (bind_run _ _ _ _ _ (register_branch_run fr (zlen (c_ops K)) Single t2 ltac:(by rewrite Hc2))) in Hrun. rewrite Hc2 in Hrun.
  set (l1 := forward fr (zlen (c_ops K)) Single) in *. set (K1 := add_op K (OpBr tgt) [] [] (Some (base + n))).
  assert (∀ i p, (i, p) ∈ l1 → i < zlen crest) as Hl1.
  { unfold l1, forward. destruct fr as [j|]; [|by intros i p ?%elem_of_nil]. intros i p [= -> _]%list_elem_of_singleton.
    destruct (Hfr j eq_refl) as [fj Hj]. apply zget_Some in Hj. lia. }
  assert (cinv ctx K1 (register crest l1 ++ [f]) None None) as HK1.
  { rewrite <- register_under by done. eapply (emit_inline ctx K _ (base + n) None (OpBr tgt)); [|done| |done|done].
    - eapply cinv_raise; [exact HK|by left].
    - destruct Hg as [Hfit (i & fi & Hfi & Hh & Hx)]. split; [done|]. exists i, fi.
      pose proof (zget_Some _ _ _ Hfi). by rewrite zget_app_l by lia. }
  assert (layout c0 (set_tr_ctrl (register crest l1) t2) K1) as Hly2 by (apply layout_ctrl; by eapply layout_emits).
  assert (tr_fusable_cmp (set_tr_ctrl (register crest l1) t2) = None) as Hfus2 by (cbn; by rewrite (em_fusable _ _ _ _ Hem)).
  assert (∀ c, c ∈ cs → clause_ok ctx c) as Hcs' by (intros c' ?; apply Hcs; by right).
  destruct (IH _ _ K1 (register crest l1) Hly2 Hs' eq_refl Hfus2 (register_crest _ _ _ Hsim (λ _, Hlive)) (register_live _ l1 _ Hlive)
    Hbase Hcs' HK1 Hrun) as (K' & l & new & Hly' & Hc' & HK' & Hf' & Hr' & He' & Hpre & Hids & -> & Hnew).
  rewrite <- register_app in Hc', HK'.
  exists K', (l1 ++ l), ({| hr_tag := hc_tag c; hr_restore_height := base; hr_payload_args := hc_payload_args c;
    hr_payload_ref := hc_payload_ref c; hr_landing_ip := zlen (c_ops K) |} :: new). split_and!; try done.
  - rewrite Hr'. apply (em_reachable _ _ _ _ Hem).
  - rewrite He'. apply (em_error _ _ _ _ Hem).
  - etrans; [|exact Hpre]. by eexists.
  - destruct (keeps_ids_app (c_ops K) [OpBr tgt]), Hids. split; [etrans; eassumption|auto].
  - by rewrite <- app_assoc.
  - intros r [-> |Hr]%elem_of_cons; [|by apply Hnew]. split; [done|]. exists n. split; [done|]. cbn.
    destruct Hpre as [k Hk]. cbn in Hk. pose proof (ci_heights _ _ _ _ _ _ (proj1 HK)) as Hlen.
    rewrite Hk, <- app_assoc, zget_app_r, <- Hlen, Z.sub_diag by lia. done.
Qed.
Lemma prefix_get {A} (l k : list A) i x : l `prefix_of` k → zget l i = Some x → zget k i = Some x.
Proof. intros [m ->] Hx. pose proof (zget_Some _ _ _ Hx). by rewrite zget_app_l by lia. Qed.
Lemma step_end_try t t' v v' crest f g v1 :
  inv ctx c0 t v → tr_fusable_cmp t = None → small t → small t' → closing t v crest f g v1 → v_push (vf_results g) v1 = Some v' →
  ct_kind f = KTryTable → ct_reachable_on_entry f = true → end_try_table ctx t = (Ok tt, t') → inv ctx c0 t' v'.
Proof.
  intros HI Hfus Hs Hs' Hcl Hv Hkind Hroe Hrun. pose proof (cl_fsim _ _ _ _ _ _ Hcl) as Hfs.
  destruct (cl_entered _ _ _ _ _ _ Hcl Hroe) as [Hlive Hb]. pose proof (fs_height _ _ _ Hfs) as Hgh. rewrite <- Hb in Hgh.
  destruct (fsim_fixup _ _ Hfs) as [Hres _]. pose proof (fs_arities _ _ _ Hfs) as [_ Hres']. rewrite <- (fs_results _ _ _ Hfs) in Hres'.
  destruct (inv_code _ _ _ _ HI) as (K & Hly & HK). rewrite (cl_ctrl _ _ _ _ _ _ Hcl), Hfus in HK.
  unfold end_try_table in Hrun. rewrite (bind_run _ _ _ _ _ (pop_ctrl_run _ _ _ _ (cl_ctrl _ _ _ _ _ _ Hcl))) in Hrun.
  set (t1 := set_tr_ctrl crest t) in *. assert (layout c0 t1 K) as Hly1 by (by destruct Hly).
  peel Hrun. peel Hrun. rewrite (next_ip_eq _ _ _ Hly1 Hs) in Hrun. peel Hrun. destruct a as [keep pop].
  apply fixup_Ok in E as (-> & _). set (op := OpBr _) in Hrun. destruct (emit_emits op t1) as (t2 & Ht2 & Hem).
  rewrite (bind_run _ _ _ _ _ Ht2) in Hrun. set (skip := {| pa_op := zlen (c_ops K); pa_slot := Single |}).
  set (f1 := add_patch skip f). set (K2 := add_op K op [] [] (current t)).
  assert (cinv ctx K2 (crest ++ [f1]) None None) as HK2.
  { apply emit_skip; try done; [congruence|lia|]. unfold current. destruct (tr_reachable t) eqn:Hr; [|done]. intros h [= <-].
    by apply (cl_live _ _ _ _ _ _ Hcl). }
  assert (layout c0 t2 K2) as Hly2 by (by eapply layout_emits).
  peel Hrun. rename a into recs. rename s into t3.
  assert (small t3) as Hs3 by (eapply grown_small; [|exact Hrun|done]; intros; keep).
  destruct (landing_pads_run (ct_base_height f) (vs_frames v1) f1 (ct_clauses f) [] recs t2 t3 K2 crest Hly2 Hs3)
    as (K3 & l & new & Hly3 & Hc3 & HK3 & Hf3 & Hr3 & He3 & Hpre & Hids & -> & Hnew); try done.
  { rewrite (em_ctrl _ _ _ _ Hem). done. }
  { by rewrite (em_fusable _ _ _ _ Hem). }
  { apply Hcl. }
  { intros c Hc. by apply (fs_clauses _ _ _ Hfs). }
  clear E. rewrite (em_reachable _ _ _ _ Hem) in Hr3. rewrite (em_error _ _ _ _ Hem) in He3. cbn in Hr3, He3.
  peel Hrun. rewrite (next_ip_eq _ _ _ Hly3 Hs3) in Hrun.
  assert (patch_id (c_ops K3) skip = Some (EIn (zlen (c_ops K)))) as Hskip by (apply Hids; by apply patch_id_new).
  assert (∀ p, p ∈ ct_end_patches f ∨ p = skip → p ∈ ct_end_patches f1) as Hin1.
  { intros p Hp. cbn. rewrite elem_of_app, list_elem_of_singleton. done. }
  peel Hrun. destruct a. peel Hrun. destruct a.
  assert (patch_all (skip :: ct_end_patches f) (zlen (c_ops K3)) t3 = (Ok tt, s0)) as Hpatch.
  { unfold patch_all. cbn [for_each]. by rewrite (bind_run _ _ _ _ _ E). }
  clear E E0. apply (patch_all_run ctx c0 _ _ _ _ _ Hly3 Hs3) in Hpatch as [Hly4 Hoc].
  2:{ intros p Hp. eapply waiting_valid; [exact HK3|]. apply Hin1. apply elem_of_cons in Hp as [->|?]; [by right|by left]. }
  set (reachable := tr_reachable t || ct_end_targeted f).
  set (K4 := patch_list (skip :: ct_end_patches f) (zlen (c_ops K3)) K3) in *.
  assert (cinv ctx K4 (register crest l) (if reachable then Some (ct_base_height f + ct_result_count f) else None) None) as HK4.
  { eapply (end_frame ctx K3 (register crest l) f1 None); try done.
    - intros He. destruct (fs_else _ _ _ Hfs He) as (_ & _ & Hk). rewrite <- (fs_kind _ _ _ Hfs), Hkind in Hk. done.
    - intros p e tg h Hp He Het. cbn in Hp. apply elem_of_app in Hp as [Hp|Hp%list_elem_of_singleton].
      + unfold reachable. rewrite (fs_patches _ _ _ Hfs); [by rewrite orb_true_r|]. intros Hn. rewrite Hn in Hp. by apply elem_of_nil in Hp.
      + subst p. rewrite Hskip in He. injection He as <-. cbn in Het. destruct (zget (c_ops K3) _); [|done].
        destruct (tr_reachable t) eqn:Hr; [by unfold reachable|].
        rewrite (prefix_get _ _ (zlen (c_ops K)) None Hpre) in Het; [done|]. cbn. unfold current. rewrite Hr, zget_snoc.
        rewrite <- (ci_heights _ _ _ _ _ _ (proj1 HK)), Z.eqb_refl. done.
    - intros p. unfold else_patches. change (ct_else_patch f1) with (ct_else_patch f).
      destruct (ct_else_patch f) as [idx|] eqn:He.
      { destruct (fs_else _ _ _ Hfs) as (_ & _ & Hk); [by exists idx|]. rewrite <- (fs_kind _ _ _ Hfs), Hkind in Hk. done. }
      cbn. rewrite elem_of_cons, elem_of_app, list_elem_of_singleton, elem_of_nil. tauto. }
  peel Hrun. peel Hrun. unfold set_height, modify in Hrun. injection Hrun as <-.
  set (sp := {| hs_start_ip := ct_start_ip f; hs_end_ip := zlen (c_ops K); hs_clauses := new |}).
  destruct (patch_list_rest (skip :: ct_end_patches f) (zlen (c_ops K3)) K3) as (Hh4 & _ & _ & Ho4 & _). fold K4 in Hh4, Ho4.
  assert (frame_ok (c_ops K) f) as (_ & Hstart & _) by (by apply (frames_ok_snoc _ crest), HK).
  destruct Hoc as [Hoh Hoc Hor Hof Hoe]. cbn in Hoh, Hoc, Hor, Hof, Hoe.
  eapply (closed_inv t) with (l := l) (K' := {| c_ops := c_ops K4; c_pool := c_pool K4; c_handlers := c_handlers K4 ++ [sp];
    c_heights := c_heights K4; c_uses := c_uses K4 |}); [exact HI|exact Hcl|done|cbn; congruence|done| | | |].
  - destruct Hly4. split; try done. cbn. by rewrite ly_handlers, app_assoc.
  - cbn [set_tr_height set_tr_reachable on_code set_tr_code tr_fusable_cmp]. rewrite Hof, Hf3. unfold current.
    cbn [set_tr_height set_tr_reachable on_code set_tr_code tr_reachable tr_height].
    rewrite Hor, Hr3, wrap_height by lia. destruct HK4 as [HK4 Hok4]. split; [|done]. apply code_handler; try done; cbn [sp hs_end_ip hs_clauses].
    + rewrite Ho4. destruct Hids as [Hl _]. cbn in Hl. rewrite zlen_snoc in Hl. lia.
    + intros c Hc. destruct (Hnew c Hc) as (-> & n & ? & ?). split; [lia|]. exists n. by rewrite Hh4.
  - cbn. rewrite Hoe, He3. apply HI.
  - cbn. intros _. split; [done|]. by rewrite wrap_height by lia.
Qed.

Lemma step_end t t' v v' : inv ctx c0 t v → small t → small t' → v_end v = Some v' → do_end ctx t = (Ok tt, t') → inv ctx c0 t' v'.
Proof.
  intros HI Hs Hs' Hv Hrun. unfold v_end in Hv. destruct (v_close v) as [[g v1]|] eqn:Hc; [|done]. cbn [mbind option_bind] in Hv.
  destruct (bool_decide (vf_kind g = KIf) && negb (vf_else g) && negb (vf_params g =? vf_results g)) eqn:Hif; [done|].
  unfold do_end in Hrun. peel Hrun. pose proof (inv_settle _ _ _ _ HI) as HI'. set (t1 := set_tr_fusable_cmp None t) in *.
  destruct (closing_intro t1 v g v1 HI' Hc) as (crest & f & Hcl).
  peel Hrun. unfold last_frame in E. rewrite (cl_ctrl _ _ _ _ _ _ Hcl), last_snoc in E. injection E as <-.
  destruct (bool_decide (ct_kind f = KTryTable) && ct_reachable_on_entry f) eqn:Htry.
  - apply andb_true_iff in Htry as [?%bool_decide_eq_true ?]. by eapply (step_end_try t1).
  - rewrite (bind_run _ _ _ _ _ (pop_ctrl_run _ _ _ _ (cl_ctrl _ _ _ _ _ _ Hcl))) in Hrun. by eapply (step_end_plain t1).
Qed.
End run.
