(* ===== verification/Validated.v ===== *)
(** * Validated: compiling a validated body (about Lowering.v)

    Every operator the validator accepts keeps the translator's invariant, and so a body
    compiles to code with consistent heights. *)
From S2P Require Import Prelude Keep Types Layout Codec Op Entity Compile Lowering Grown Heights Compiled Translated Verified Closed.
Open Scope Z_scope.

Section run.
Context (ctx : CompileCtx) (c0 : CodeArenas).
#[local] Abbreviation inv := (inv ctx c0).

(** ** Operators that end the reachable code *)
Lemma step_halt t t' v v1 v' n op m :
  inv t v → v_take n v = Some v1 ∨ v1 = v ∧ n = 0 → v_dead v1 = Some v' → when_reachable m t = (Ok tt, t') →
  (∀ t t', n ≤ tr_height t → m t = (Ok tt, t') → ∃ h t1, emits op h t t1 ∧ set_tr_reachable false t1 = t') →
  is_inline op = false → (∀ k, ¬ uses op k) → range_ok op → fusable_cmp_of op = None →
  (∀ h, n ≤ h → op_next ctx op h = Some None) → inv t' v'.
Proof.
  intros HI Ht Hd Hrun Hm Hi Hu Hr Hf Hnx. pose proof (inv_vok _ _ _ _ HI) as Hok.
  assert (vok v1 ∧ vs_frames v1 = vs_frames v) as [Hok1 Hf1].
  { destruct Ht as [Ht|[-> _]]; [|done]. by destruct (v_take_ok _ _ _ Hok Ht) as (_ & ? & ?). }
  destruct (v_dead_ok ctx _ _ Hok1 Hd) as [Hok' Hlike]. rewrite Hf1 in Hlike.
  unfold when_reachable in Hrun. peel Hrun. destruct (tr_reachable t) eqn:Hre; [|injection Hrun as <-; by eapply step_dead].
  destruct (inv_reachable _ _ _ _ HI Hre) as [_ Hht]. destruct (inv_height _ _ _ _ HI) as [Hh0 _].
  assert (n ≤ tr_height t) as Hn.
  { destruct Ht as [Ht|[_ ->]]; [|lia]. destruct (v_take_live _ _ _ _ _ _ _ HI Hre eq_refl Ht) as [? _]. lia. }
  destruct (Hm t t' Hn Hrun) as (h & t1 & Hem & Hdead). eapply step_stop; try done. by apply Hnx.
Qed.
Lemma halt_pop n op t t' : n ≤ tr_height t → (tr_pop n;; emit op;; dead) t = (Ok tt, t') →
  ∃ h t1, emits op h t t1 ∧ set_tr_reachable false t1 = t'.
Proof.
  intros Hn Hrun. rewrite (bind_run _ _ _ _ _ (tr_pop_run n t Hn)) in Hrun.
  destruct (emit_emits op (set_tr_height (tr_height t - n) t)) as (t1 & Ht1 & Hem).
  rewrite (bind_run _ _ _ _ _ Ht1) in Hrun. injection Hrun as <-. exists (tr_height t - n), t1. split; [|done].
  destruct Hem. by split.
Qed.
Lemma halt_emit op t t' : (emit op;; dead) t = (Ok tt, t') → ∃ h t1, emits op h t t1 ∧ set_tr_reachable false t1 = t'.
Proof.
  intros Hrun. destruct (emit_emits op t) as (t1 & Ht1 & Hem). rewrite (bind_run _ _ _ _ _ Ht1) in Hrun. injection Hrun as <-. eauto.
Qed.
Lemma v_return_Some sig extra v v' : v_return sig extra v = Some v' → ∃ p r v1, sig = Some (p, r) ∧
  v_take (extra + p) v = Some v1 ∧ v_dead v1 = Some v'.
Proof.
  unfold v_return. destruct sig as [[p r]|]; [|done]. cbn [mbind option_bind]. destruct (v_take _ v) as [v1|] eqn:Ht; [|done].
  cbn [mbind option_bind]. intros Hd. exists p, r, v1. done.
Qed.
Lemma op_takes n (h : Z) : n ≤ h → (if n <=? h then Some (@None Z) else None) = Some None.
Proof. intros ?. by rewrite (proj2 (Z.leb_le n h)). Qed.
Lemma step_return_call t t' v v' func :
  inv t v → v_return (func_arity ctx func) 0 v = Some v' → when_reachable (tr_return_call ctx func) t = (Ok tt, t') → inv t' v'.
Proof.
  intros HI Hv Hrun. apply v_return_Some in Hv as (p & r & v1 & Ha & Ht & Hd). destruct (func_arity_spec _ _ _ _ Ha) as (Hs & _).
  eapply (step_halt t t' v v1 v' p (OpReturnCall func)); [exact HI|by left|done|exact Hrun| |done|by intros k []|done|done|].
  - unfold tr_return_call. rewrite Hs. intros t0 t0' Hn Hr0. peel Hr0. by eapply halt_pop.
  - intros h Hh. cbn. rewrite Ha. by apply op_takes.
Qed.
Lemma step_return_call_type t t' v v' ty op m :
  inv t v → v_return (type_arity ctx ty) 1 v = Some v' → when_reachable m t = (Ok tt, t') →
  m = ('(params, _) ← lift (signature ctx ty); tr_pop (wrap 32 (1 + params));; emit op;; dead) →
  (∀ h, op_next ctx op h = ('(params, _) ← type_arity ctx ty; if 1 + params <=? h then Some None else None)) →
  is_inline op = false → (∀ k, ¬ uses op k) → range_ok op → fusable_cmp_of op = None → inv t' v'.
Proof.
  intros HI Hv Hrun -> Hnx Hi Hu Hr Hf. apply v_return_Some in Hv as (p & r & v1 & Ha & Ht & Hd).
  destruct (type_arity_spec _ _ _ _ Ha) as (Hs & Hp & _).
  eapply (step_halt t t' v v1 v' (1 + p) op); [exact HI|by left|done|exact Hrun| |done..|].
  - rewrite Hs. intros t0 t0' Hn Hr0. peel Hr0. rewrite wrap_arity in Hr0 by done. by eapply halt_pop.
  - intros h Hh. rewrite Hnx, Ha. by apply op_takes.
Qed.

(** ** Control instructions *)
Lemma step_throw t t' v v' tag :
  inv t v → v_control ctx (VThrow tag) v = Some v' → visit_control ctx (VThrow tag) t = (Ok tt, t') → inv t' v'.
Proof.
  intros HI Hv Hrun. cbn [v_control] in Hv. destruct (tag_arity ctx tag) as [n|] eqn:Ha; [|done]. cbn [mbind option_bind] in Hv.
  destruct (v_take n v) as [v1|] eqn:Ht; [|done]. cbn [mbind option_bind] in Hv.
  eapply (step_halt t t' v v1 v' n (OpThrow tag)); [exact HI|by left|done|exact Hrun| |done|by intros k []|done|done|].
  - intros t0 t0' _ Hr0. by apply halt_emit in Hr0.
  - intros h Hh. cbn. rewrite Ha. by apply op_takes.
Qed.
Lemma step_throw_ref t t' v v' :
  inv t v → v_control ctx VThrowRef v = Some v' → visit_control ctx VThrowRef t = (Ok tt, t') → inv t' v'.
Proof.
  intros HI Hv Hrun. cbn [v_control] in Hv. destruct (v_take 1 v) as [v1|] eqn:Ht; [|done]. cbn [mbind option_bind] in Hv.
  eapply (step_halt t t' v v1 v' 1 OpThrowRef); [exact HI|by left|done|exact Hrun| |done|by intros k []|done|done|].
  - intros t0 t0' _ Hr0. by apply halt_emit in Hr0.
  - intros h Hh. by apply op_takes.
Qed.
Lemma step_unreachable t t' v v' :
  inv t v → v_control ctx VUnreachable v = Some v' → visit_control ctx VUnreachable t = (Ok tt, t') → inv t' v'.
Proof.
  intros HI Hv Hrun.
  eapply (step_halt t t' v v v' 0 OpUnreachable); [exact HI|by right|done|exact Hrun| |done|by intros k []|done|done|done].
  intros t0 t0' _ Hr0. by apply halt_emit in Hr0.
Qed.
Lemma step_br_on_cast t t' v v' d to on_fail :
  inv t v → small t → (∃ v1, v_effect (1, 1) v = Some v1 ∧ v_branch d v1 = Some v') →
  when_reachable ('(ty, nullable) ← lift (ref_target (cc_kinds ctx) to); tr_br_on_cast d ty nullable on_fail) t = (Ok tt, t') → inv t' v'.
Proof.
  intros HI Hs Hv Hrun. unfold when_reachable in Hrun. peel Hrun. destruct (tr_reachable t) eqn:Hre.
  - peel Hrun. destruct a as [ty nullable]. by eapply step_cast_branch.
  - injection Hrun as <-. destruct Hv as (v1 & H1 & H2). pose proof (inv_vok _ _ _ _ HI) as Hok.
    destruct (v_effect_ok (1, 1) _ _ Hok ltac:(cbn; lia) H1) as [Hok1 Hf1]. destruct (v_branch_ok _ _ _ Hok1 H2) as [Hok2 Hf2].
    eapply step_dead; [done..| |done]. left. congruence.
Qed.
Lemma v_cast_Some d v v' : (v ← v_effect (1, 1) v; v_branch d v) = Some v' → ∃ v1, v_effect (1, 1) v = Some v1 ∧ v_branch d v1 = Some v'.
Proof. destruct (v_effect (1, 1) v) as [v1|]; [|done]. intros ?. by exists v1. Qed.
Lemma step_control t t' v v' o :
  inv t v → small t → small t' → v_control ctx o v = Some v' → visit_control ctx o t = (Ok tt, t') → inv t' v'.
Proof.
  intros HI Hs Hs' Hv Hrun. destruct o.
  - by eapply step_br.
  - by eapply step_br_if.
  - by eapply step_br_table.
  - by eapply step_return.
  - eapply step_call; [exact HI|exact Hv|exact Hrun|]. apply lowers_call.
  - eapply step_call; [exact HI|exact Hv|exact Hrun|]. intros p r Ha. by eapply lowers_call_type.
  - eapply step_call; [exact HI|exact Hv|exact Hrun|]. intros p r Ha. by eapply lowers_call_type.
  - by eapply step_return_call.
  - eapply step_return_call_type; [exact HI|exact Hv|exact Hrun|done|done|done|by intros k []|done|done].
  - eapply step_return_call_type; [exact HI|exact Hv|exact Hrun|done|done|done|by intros k []|done|done].
  - by eapply step_br_on_null.
  - by eapply step_br_on_non_null.
  - eapply step_br_on_cast; [exact HI|done|by apply v_cast_Some|exact Hrun].
  - eapply step_br_on_cast; [exact HI|done|by apply v_cast_Some|exact Hrun].
  - by eapply step_throw.
  - by eapply step_throw_ref.
  - by eapply step_unreachable.
Qed.

(** ** Structured control *)
Lemma step_structural t t' v v' o :
  inv t v → small t → small t' → height_check ctx (WStructural o) v = Some v' → visit_structural ctx o t = (Ok tt, t') →
  tr_error t' = None → inv t' v'.
Proof.
  intros HI Hs Hs' Hv Hrun Herr. destruct o as [bt|bt|bt| | |try]; cbn [height_check] in Hv.
  - eapply step_block; try done. by intros c ?%elem_of_nil.
  - eapply step_block; try done. by intros c ?%elem_of_nil.
  - destruct (v_take 1 v) as [v1|] eqn:Ht; [|done]. eapply step_if; try done. by exists v1.
  - by eapply step_else.
  - by eapply step_end.
  - case_bool_decide as Hall; [|done]. eapply step_block; try done. intros c (x & -> & Hx)%list_elem_of_fmap.
    rewrite Forall_forall in Hall. specialize (Hall x Hx). unfold v_catch in Hall. unfold clause_ok.
    destruct (clause_payload ctx _ _ _) as [n|]; [by exists n|done].
Qed.

(** ** Every operator *)
Lemma visit_step t t' v v' o :
  inv t v → small t → small t' → height_check ctx o v = Some v' → visit ctx o t = (Ok tt, t') → tr_error t' = None → inv t' v'.
Proof.
  intros HI Hs Hs' Hv Hrun Herr. destruct o.
  - by eapply step_numeric.
  - by eapply step_memarg.
  - by eapply step_memory.
  - by eapply step_core.
  - by eapply step_table.
  - by eapply step_gc.
  - by eapply step_array.
  - by eapply step_struct.
  - by eapply step_cast.
  - by eapply step_ref.
  - by eapply step_structural.
  - by eapply step_control.
  - by eapply step_simd.
  - done.
Qed.
End run.

(** ** The validator at the function's frame *)
Section root.
Context (ctx : CompileCtx) (n_results : Z).

(** The outermost frame is the function's; after its [end] the results are there. *)
Definition rooted (v : VState) : Prop :=
  (∀ g, zget (vs_frames v) 0 = Some g → vf_results g = n_results ∧ vf_height g = 0) ∧
  (vs_frames v = [] → vs_height v = n_results).
Lemma rooted_init : rooted (v_init n_results).
Proof. split; [by intros g [= <-]|done]. Qed.
(** An operator inside a frame. *)
Lemma rooted_frames v v' : rooted v → vs_frames v ≠ [] → vs_frames v' = vs_frames v → rooted v'.
Proof. intros [H1 H2] Hne Hf. split; rewrite Hf; [done|done]. Qed.
Lemma v_take_frames n v v' : v_take n v = Some v' → vs_frames v' = vs_frames v ∧ vs_frames v ≠ [].
Proof.
  unfold v_take, v_pop. destruct (0 <=? n); [|done]. destruct (last (vs_frames v)) as [g|] eqn:Hl; [|done]. cbn.
  assert (vs_frames v ≠ []) by (intros Hn; by rewrite Hn in Hl). destruct (_ <=? _); [|destruct (vf_unreachable g); [|done]]; by intros [= <-].
Qed.
Lemma v_push_frames n v v' : v_push n v = Some v' → vs_frames v' = vs_frames v.
Proof. unfold v_push. destruct (_ <=? _); [|done]. by intros [= <-]. Qed.
Lemma v_effect_frames e v v' : v_effect e v = Some v' → vs_frames v' = vs_frames v ∧ vs_frames v ≠ [].
Proof.
  unfold v_effect. destruct (v_take e.1 v) as [v1|] eqn:Ht; [|done]. cbn. intros Hp%v_push_frames.
  apply v_take_frames in Ht as [<- ?]. done.
Qed.
Lemma v_branch_frames d v v' : v_branch d v = Some v' → vs_frames v' = vs_frames v ∧ vs_frames v ≠ [].
Proof. unfold v_branch. destruct (v_label d v); [|done]. apply v_effect_frames. Qed.
Lemma v_branches_frames ds n v v' : v_branches ds n v = Some v' → vs_frames v' = vs_frames v.
Proof.
  revert v. induction ds as [|d ds IH]; intros v; cbn; [by intros [= <-]|]. destruct (v_label d v) as [k|]; [|done]. cbn.
  destruct (k =? n); [|done]. destruct (v_effect (n, n) v) as [v1|] eqn:He; [|done]. cbn. intros Hv%IH.
  apply v_effect_frames in He as [? _]. congruence.
Qed.
Lemma rooted_dead v v' : rooted v → v_dead v = Some v' → rooted v'.
Proof.
  intros [H1 _]. unfold v_dead. destruct (vec_pop (vs_frames v)) as [[rest g]|] eqn:Hp; [|done]. intros [= <-].
  apply vec_pop_Some in Hp. rewrite Hp in H1. split; cbn [vs_frames vs_height]; [|by destruct rest]. intros g'. rewrite zget_snoc.
  destruct (Z.eqb_spec 0 (zlen rest)) as [Hz|Hz].
  - intros [= <-]. cbn. apply H1. by rewrite zget_snoc, Hz, Z.eqb_refl.
  - intros Hg. apply H1. rewrite zget_snoc. by destruct (Z.eqb_spec 0 (zlen rest)).
Qed.
Lemma rooted_snoc v h g : rooted v → vs_frames v ≠ [] → rooted {| vs_height := h; vs_frames := vs_frames v ++ [g] |}.
Proof.
  intros [H1 _] Hne. split; cbn [vs_frames vs_height]; [|by destruct (vs_frames v)]. intros g'. rewrite zget_snoc.
  destruct (Z.eqb_spec 0 (zlen (vs_frames v))) as [Hz|Hz]; [|by apply H1]. destruct (vs_frames v); [done|].
  rewrite zlen_cons in Hz. pose proof (zlen_nonneg l). lia.
Qed.
Lemma rooted_push n v v' : rooted v → vs_frames v ≠ [] → v_push n v = Some v' → rooted v'.
Proof. intros Hr Hne Hp%v_push_frames. by eapply rooted_frames. Qed.
Lemma v_pop_frames n v v' : v_pop n v = Some v' → vs_frames v' = vs_frames v ∧ vs_frames v ≠ [].
Proof.
  unfold v_pop. destruct (last (vs_frames v)) as [g|] eqn:Hl; [|done]. cbn.
  assert (vs_frames v ≠ []) by (intros Hn; by rewrite Hn in Hl). destruct (_ <=? _); [|destruct (vf_unreachable g); [|done]]; by intros [= <-].
Qed.
Lemma rooted_open kind bt v v' : rooted v → v_open ctx kind bt v = Some v' → rooted v'.
Proof.
  intros Hr. unfold v_open. destruct (v_block_arity ctx bt) as [[p r]|]; [|done]. cbn [mbind option_bind].
  destruct (v_pop p v) as [v1|] eqn:Hp; [|done]. cbn [mbind option_bind]. apply v_pop_frames in Hp as [Hf Hne].
  intros Hv. refine (rooted_push _ _ _ _ _ Hv); [|cbn; by destruct (vs_frames v1)].
  apply rooted_snoc; [by eapply rooted_frames|congruence].
Qed.
Lemma rooted_close v g v1 : rooted v → v_close v = Some (g, v1) →
  (∀ g0, zget (vs_frames v1) 0 = Some g0 → vf_results g0 = n_results ∧ vf_height g0 = 0) ∧
  (vs_frames v1 = [] → vf_results g = n_results ∧ vs_height v1 = 0).
Proof.
  intros [H1 _] (rest & Hf & -> & _)%v_close_ok. rewrite Hf in H1. split; cbn [vs_frames vs_height].
  - intros g0 Hg0. apply H1. pose proof (zget_Some _ _ _ Hg0). by rewrite zget_app_l by lia.
  - intros ->. by apply H1.
Qed.
(** Take an optional computation apart. *)
Ltac binds H :=
  repeat match type of H with
  | (?x ≫= _) = Some _ => let E := fresh "E" in destruct x eqn:E; [|done]; cbn [mbind option_bind] in H
  end.
Ltac framed :=
  repeat match goal with
  | H : v_take _ _ = Some _ |- _ => apply v_take_frames in H as [? ?]
  | H : v_effect _ _ = Some _ |- _ => apply v_effect_frames in H as [? ?]
  | H : v_branch _ _ = Some _ |- _ => apply v_branch_frames in H as [? ?]
  | H : v_branches _ _ _ = Some _ |- _ => apply v_branches_frames in H
  | H : v_push _ _ = Some _ |- _ => apply v_push_frames in H
  end.
Lemma rooted_step v v' o : rooted v → height_check ctx o v = Some v' → rooted v'.
Proof.
  intros Hr Hv.
  assert (∀ e w, v_effect e v = Some w → rooted w) as Heff by (intros e w [? ?]%v_effect_frames; by eapply rooted_frames).
  destruct o as [o|o a|o|o|o|o|o|o|o|o|o|o|o|]; cbn [height_check] in Hv; try done; try by eapply Heff.
  - destruct (core_effect o); [|done]. by eapply Heff.
  - destruct (struct_effect ctx o); [|done]. by eapply Heff.
  - destruct o as [bt|bt|bt| | |try].
    + by eapply rooted_open.
    + by eapply rooted_open.
    + destruct (v_take 1 v) as [v1|] eqn:Ht; [|done]. apply v_take_frames in Ht as [? ?]. eapply rooted_open; [|exact Hv]. by eapply rooted_frames.
    + unfold v_else in Hv. destruct (v_close v) as [[g v1]|] eqn:Hc; [|done]. cbn [mbind option_bind] in Hv.
      destruct (_ || _); [done|]. destruct (rooted_close _ _ _ Hr Hc) as [Ha Hb]. refine (rooted_push _ _ _ _ _ Hv); [|cbn; by destruct (vs_frames v1)].
      split; cbn [vs_frames vs_height]; [|by destruct (vs_frames v1)]. intros g'. rewrite zget_snoc. destruct (Z.eqb_spec 0 (zlen (vs_frames v1))) as [Hz|]; [|by apply Ha].
      intros [= <-]. cbn. apply Hb. destruct (vs_frames v1) as [|x l]; [done|]. rewrite zlen_cons in Hz. pose proof (zlen_nonneg l). lia.
    + unfold v_end in Hv. destruct (v_close v) as [[g v1]|] eqn:Hc; [|done]. cbn [mbind option_bind] in Hv.
      destruct (_ && _); [done|]. destruct (rooted_close _ _ _ Hr Hc) as [Ha Hb].
      unfold v_push in Hv. destruct (_ <=? _); [|done]. injection Hv as <-. split; cbn [vs_frames vs_height]; [done|]. intros Hn. destruct (Hb Hn) as [-> ->]. lia.
    + case_bool_decide; [|done]. by eapply rooted_open.
  - assert (∀ n w, v_take n v = Some w → rooted w) as Htake by (intros n w [? ?]%v_take_frames; by eapply rooted_frames).
    assert (∀ sig extra, v_call sig extra v = Some v' → rooted v') as Hcall.
    { intros [[p r]|] extra Hc; [|done]. by eapply Heff. }
    assert (∀ sig extra, v_return sig extra v = Some v' → rooted v') as Hret.
    { intros sig extra (p & r & v1 & _ & Ht & Hd)%v_return_Some. eapply rooted_dead; [by eapply Htake|done]. }
    destruct o; cbn [v_control] in Hv; try (by eapply Hcall); try (by eapply Hret); binds Hv.
    all: try (eapply rooted_dead; [|exact Hv]; done || by eapply Htake).
    2: refine (rooted_dead _ _ _ Hv).
    all: framed; eapply rooted_frames; [exact Hr|congruence|congruence].
Qed.
End root.

(** ** The driver *)

(** What the translator relies on wasmparser for: a validated operator passes the height
    check, reading the locals does not touch the operand stack, and an expression is
    finished only when every frame is closed. *)
Class ValidatorHeights (R V : Type) `{BodyReader R, OpValidator R V} (ctx : CompileCtx) := {
  view : V → VState;
  validate_view : ∀ offset o fv fv', validate_op offset o fv = Ok fv' → height_check ctx o (view fv) = Some (view fv');
  locals_view : ∀ body fv fv', read_locals body fv = Ok fv' → view fv' = view fv;
  finish_closed : ∀ kind (reader : R), finish_expression kind reader = Ok tt → kind = None;
}.

Section driver.
Context {R V : Type} `{ValidatorHeights R V ctx, HostAlloc}.
Context (c0 : CodeArenas) (n_results : Z).

Definition running (t : Translator) (fv : V) : Prop := inv ctx c0 t (view fv) ∧ rooted n_results (view fv).
Lemma grown_validate a b bad offset o fv : keeps (grown a b bad) (validate_then_lower ctx offset o fv : Tr V).
Proof.
  unfold validate_then_lower. apply keeps_bind; [apply keeps_lift|]. intros fv'. apply keeps_bind.
  { apply grown_modify. by intros t. }
  intros _. apply keeps_bind; [apply grown_visit|intros _; apply keeps_ret].
Qed.
Lemma grown_body a b bad fuel reader fv : keeps (grown a b bad) (translate_body ctx fuel reader fv : Tr R).
Proof.
  revert reader fv. induction fuel as [|fuel IH]; intros reader fv; cbn [translate_body]; case_bool_decide;
    try apply keeps_ret; try apply keeps_panic.
  apply keeps_bind; [apply keeps_reads|]. intros [o rest]. apply keeps_bind; [apply grown_validate|]. intros fv'. apply IH.
Qed.
Lemma running_step t t' fv fv' offset o :
  running t fv → small t' → tr_error t' = None → validate_then_lower ctx offset o fv t = (Ok fv', t') → running t' fv'.
Proof.
  intros [HI Hr] Hs' He' Hrun. unfold validate_then_lower in Hrun. peel Hrun. apply validate_view in E as Hv.
  peel Hrun. set (t1 := set_tr_cur_offset _ t) in *. peel Hrun. destruct a0. injection Hrun as <- <-.
  split; [|by eapply rooted_step].
  assert (small t1) as Hs1 by (eapply grown_small; [|exact E0|done]; intros; apply grown_visit).
  eapply (visit_step ctx c0 t1); [|exact Hs1|exact Hs'|exact Hv|exact E0|exact He'].
  destruct HI as [? (K & Hly & HK) ? ? ? ?]. split; try done. exists K. split; [|done]. by destruct Hly.
Qed.
Lemma running_body fuel reader reader' t t' fv :
  running t fv → small t' → tr_error t' = None → translate_body ctx fuel reader fv t = (Ok reader', t') → ∃ fv', running t' fv'.
Proof.
  revert reader t fv. induction fuel as [|fuel IH]; intros reader t fv Hrn Hs' He' Hrun; cbn [translate_body] in Hrun; case_bool_decide;
    try done; try (injection Hrun as _ <-; by exists fv).
  peel Hrun. destruct a as [o rest]. peel Hrun. rename a into fv1.
  assert (∀ a b bad, keeps (grown a b bad) (translate_body ctx fuel rest fv1 : Tr R)) as Hg by (intros; apply grown_body).
  destruct (grown_run _ _ _ _ Hg Hrun) as (_ & _ & He). eapply IH; [|exact Hs'|exact He'|exact Hrun].
  eapply running_step; [exact Hrn| |by apply He|exact E0]. by eapply grown_small.
Qed.
Lemma running_start retain fv t : view fv = v_init n_results → 0 ≤ n_results ≤ MAX_ARITY →
  push_func_frame n_results (translator_new c0 retain []) = (Ok tt, t) → running t fv.
Proof.
  intros Hfv Hn Hrun. unfold push_func_frame, push_ctrl, modify in Hrun. injection Hrun as <-. split; rewrite Hfv; [|apply rooted_init].
  set (f := new_frame _ _ _ _ _ _ _ _). unfold v_init. set (g := {| vf_kind := KBlock |}).
  assert (fsim ctx f g) as Hfg.
  { split; cbn; try done. by intros c ?%elem_of_nil. }
  split; cbn [set_tr_ctrl translator_new tr_error tr_ctrl tr_reachable tr_height tr_fusable_cmp vs_height vs_frames app].
  - done.
  - exists no_code. split.
    + split; cbn; rewrite ?app_nil_r; done.
    + apply (open_frame_cinv ctx no_code [] f); try done.
      * eapply code_mono; [apply code_start|..]; try done.
        -- intros e x [(i & f' & Hf' & _)|(ip & [=] & _)]. by rewrite zget_nil in Hf'.
        -- intros ip x (i & f' & Hf' & _). by rewrite zget_nil in Hf'.
      * intros i f' Hf'. by rewrite zget_nil in Hf'.
  - apply (frames_sim_snoc ctx [] [] f g). split_and!; [apply frames_sim_nil|done|]. by intros _ f' g'.
  - intros _. split; [|done]. by intros f' g' [= <-] [= <-].
  - unfold MAX_HEIGHT. lia.
  - by intros f' [= <-].
Qed.
End driver.

(** ** The function in the module's arenas *)
Section result.
Context {R V : Type} `{ValidatorHeights R V ctx, HostAlloc}.

Definition only_locals (c c1 : CodeArenas) : Prop :=
  ca_ops c1 = ca_ops c ∧ ca_br_tables c1 = ca_br_tables c ∧ ca_handlers c1 = ca_handlers c ∧
  ca_big_memargs c1 = ca_big_memargs c ∧ ca_offsets c1 = ca_offsets c.
Lemma push_locals_rest c cap entries : keeps (only_locals c) (push_locals ctx cap entries).
Proof.
  induction entries as [|entry rest IH]; cbn [push_locals]; [apply keeps_ret|]. keep.
  apply keeps_modify. intros c1 (? & ? & ? & ? & ?). by split_and!.
Qed.
Lemma expand_locals_rest c c1 body start : expand_locals ctx (body : FunctionBody R) c = (Ok start, c1) → only_locals c c1.
Proof.
  assert (keeps (only_locals c) (expand_locals ctx body)) as Hk.
  { unfold expand_locals. keep. apply push_locals_rest. }
  intros Hrun. by eapply Hk; [by split_and!|exact Hrun|].
Qed.
Lemma span_from_slice {A} (l k : list A) : zlen (l ++ k) < 2 ^ 32 → span_slice (l ++ k) (span_from (len32 l) (len32 (l ++ k))) = Some k.
Proof.
  intros Hl. pose proof (zlen_nonneg l). pose proof (zlen_nonneg k). rewrite zlen_app in Hl. unfold span_slice, span_from, len32. cbn.
  rewrite zlen_app, !(wrap_id 32) by (unfold u_ok; rewrite ?(wrap_id 32) by (unfold u_ok; lia); lia).
  apply zslice_Some. rewrite zlen_app. split_and!; [lia..|]. unfold ztake, zdrop, zlen. rewrite Nat2Z.id, drop_app_length, take_ge; [done|lia].
Qed.

Lemma with_translator_Ok {A} retain (m : Tr A) c a t c' : with_translator retain m c = (Ok (a, t), c') →
  m (translator_new c retain []) = (Ok a, t) ∧ c' = tr_code t.
Proof. unfold with_translator. destruct (m _) as [[x| |] t1]; try done. by intros [= <- <- <-]. Qed.

Lemma translate_function_appends type_idx (body : FunctionBody R) (fv : V) retain c cf c' n_params n_results :
  type_arity ctx type_idx = Some (n_params, n_results) → view fv = v_init n_results →
  translate_function ctx type_idx body fv retain c = (Ok cf, c') →
  zlen (ca_ops c') < 2 ^ 31 → zlen (ca_br_tables c') < 2 ^ 31 → zlen (ca_handlers c') < 2 ^ 32 →
  ∃ ops pool handlers heights,
    ca_ops c' = ca_ops c ++ ops ∧ ca_br_tables c' = ca_br_tables c ++ pool ∧ ca_handlers c' = ca_handlers c ++ handlers ∧
    ca_big_memargs c `prefix_of` ca_big_memargs c' ∧ ca_offsets c `prefix_of` ca_offsets c' ∧
    span_slice (ca_ops c') (cf_ops cf) = Some ops ∧ span_slice (ca_br_tables c') (cf_br_tables cf) = Some pool ∧
    span_slice (ca_handlers c') (cf_handlers cf) = Some handlers ∧
    cf_n_params cf = n_params ∧ cf_n_results cf = n_results ∧ consistent ctx ops pool handlers n_results heights.
Proof.
  intros Ha Hview Hrun Hops Hpool Hhand. destruct (type_arity_spec _ _ _ _ Ha) as (Hsig & _ & Hres).
  unfold translate_function in Hrun. rewrite Hsig in Hrun. peel Hrun. peel Hrun. rename a into fv1.
  apply locals_view in E as Hview1. rewrite Hview in Hview1. clear E.
  peel Hrun. rename a into start. rename s into c1. destruct (expand_locals_rest _ _ _ _ E) as (Ho1 & Hb1 & Hh1 & Hm1 & Hf1). clear E.
  peel Hrun. destruct a as [u t]. apply with_translator_Ok in E as [Htr ->]. destruct u.
  peel Htr. destruct a. rename s into t1. peel Htr. rename a into reader. peel Htr. rename a into reader'. rename s into t2.
  unfold reads in Htr. injection Htr as Hfin <-. apply finish_closed in Hfin.
  peel Hrun. destruct (tr_error t2) eqn:Herr; [done|]. injection E2 as _ <-. peel Hrun. injection Hrun as <- <-.
  assert (small t2) as Hs2 by done.
  assert (running c1 n_results t1 fv1) as Hstart by (eapply running_start; [done|done|exact E]).
  destruct (running_body c1 n_results _ _ _ _ _ _ Hstart Hs2 Herr E1) as (fv2 & HI & Hroot).
  assert (tr_ctrl t2 = []) as Hctrl.
  { unfold open_frame_kind in Hfin. destruct (tr_ctrl t2) as [|x l _] using rev_ind; [done|]. by rewrite last_snoc in Hfin. }
  destruct (inv_code _ _ _ _ HI) as (K & Hly & HK & _). rewrite Hctrl in HK.
  assert (vs_frames (view fv2) = []) as Hfr.
  { destruct (inv_frames _ _ _ _ HI) as [Hl _]. rewrite Hctrl in Hl. destruct (vs_frames (view fv2)) as [|x l]; [done|].
    rewrite zlen_cons, zlen_nil in Hl. pose proof (zlen_nonneg l). lia. }
  destruct Hly as [Lo Lp Lh _ Lb Lf Lbase]. rewrite Ho1 in Lo. rewrite Hb1 in Lp. rewrite Hh1 in Lh. rewrite Hm1 in Lb. rewrite Hf1 in Lf.
  exists (c_ops K), (c_pool K), (c_handlers K), (c_heights K). cbn [cf_ops cf_br_tables cf_handlers cf_n_params cf_n_results].
  rewrite Lbase. cbn [tr_base translator_new b_ops b_br_tables b_handlers]. rewrite Ho1, Hb1, Hh1.
  split_and!; try done.
  - rewrite Lo in *. apply span_from_slice. lia.
  - rewrite Lp in *. apply span_from_slice. lia.
  - rewrite Lh in *. by apply span_from_slice.
  - eapply code_finish.
    + eapply code_mono; [eapply code_settle; exact HK|done|by intros ip x ?|].
      intros e x (i & f & Hf & _). by rewrite zget_nil in Hf.
    + intros h. unfold current. destruct (tr_reachable t2) eqn:Hre; [|done]. intros [= <-].
      destruct (inv_reachable _ _ _ _ HI Hre) as [_ ->]. by apply Hroot.
Qed.

(** C4: a function that the translator returns from a validated body has been appended
    to the module's arenas, its spans are exactly what it appended, and its code is
    consistent: operand heights can be given to its instructions so that every instruction
    finds its operands, falls through to an instruction of the height it leaves, every
    branch edge (inline, of a [br_table] or of a cast, fused with a comparison or not)
    arrives at an instruction of the height that its fix-up leaves, every handler's landing
    pad has the height of its restored operands with the payload, and the end of the code
    has the function's results. *)
Theorem translate_function_consistent type_idx (body : FunctionBody R) (fv : V) retain c cf c' n_params n_results :
  type_arity ctx type_idx = Some (n_params, n_results) → view fv = v_init n_results →
  translate_function ctx type_idx body fv retain c = (Ok cf, c') →
  zlen (ca_ops c') < 2 ^ 31 → zlen (ca_br_tables c') < 2 ^ 31 → zlen (ca_handlers c') < 2 ^ 32 →
  ∃ ops pool handlers heights,
    ca_ops c' = ca_ops c ++ ops ∧ ca_br_tables c' = ca_br_tables c ++ pool ∧ ca_handlers c' = ca_handlers c ++ handlers ∧
    ca_big_memargs c `prefix_of` ca_big_memargs c' ∧ ca_offsets c `prefix_of` ca_offsets c' ∧
    span_slice (ca_ops c') (cf_ops cf) = Some ops ∧ span_slice (ca_br_tables c') (cf_br_tables cf) = Some pool ∧
    span_slice (ca_handlers c') (cf_handlers cf) = Some handlers ∧
    cf_n_params cf = n_params ∧ cf_n_results cf = n_results ∧ consistent ctx ops pool handlers n_results heights.
Proof. exact (translate_function_appends type_idx body fv retain c cf c' n_params n_results). Qed.
End result.

(** ** A function compiled *)
Module Sample.
Definition func_type (params results : list IrVal) : ModuleType :=
  {| mt_group := 0; mt_finality := Final; mt_supertype := None; mt_body := CompFunc params results |}.
Definition ctx : CompileCtx := {|
  cc_types := [func_type [] [IrI32]; func_type [IrI32] []; func_type [] []]; cc_kinds := [AggFunc; AggFunc; AggFunc];
  cc_func_types := [0; 1; 2];
  cc_tag_types := [1]; cc_max_expanded_locals := 100;
|}.

(** The validator that checks the heights, on operators already decoded. *)
#[export] Instance list_reader : BodyReader (list Operator) := {|
  bytes_remaining := @length _;
  original_position := λ l, zlen l;
  read_operator := λ _ l, match l with [] => Err (EMsg "unexpected end") | o :: r => Ok (o, r) end;
  finish_expression := λ kind _, match kind with None => Ok tt | Some _ => Err (EMsg "control frames remain") end;
|}.
#[export] Instance height_validator : OpValidator (list Operator) VState := {|
  read_locals := λ _ v, Ok v;
  validate_op := λ _ o v, ok_or (height_check ctx o v) (EMsg "type mismatch");
|}.
#[export] Instance plenty : HostAlloc := {| reserve_bytes := λ _, true; reserve_elems := λ _, true |}.
#[export] Program Instance validator_heights : ValidatorHeights (list Operator) VState ctx := {| view := λ v, v |}.
Next Obligation. intros offset o fv fv'. cbn. by destruct (height_check ctx o fv); intros [= <-]. Qed.
Next Obligation. by intros body fv fv' [= <-]. Qed.
Next Obligation. by intros [kind|] reader. Qed.

(** Another function is there already. *)
Definition arenas : CodeArenas :=
  {| ca_ops := [OpNop]; ca_local_types := []; ca_handlers := []; ca_br_tables := [no_target]; ca_big_memargs := []; ca_offsets := [] |}.
Definition exnref : WpVal := WvRef {| wr_nullable := true; wr_heap := WhAbstract false WaExn |}.
Definition body : FunctionBody (list Operator) := {| fb_locals := Ok []; fb_operators := Ok [
  WStructural (VLoop BtEmpty);
    WCore (VLocalGet 0); WCore (VI32Const 7); WNumeric VI32LtS; WControl (VBrIf 0);
  WStructural VEnd;
  WStructural (VBlock (BtType exnref));
    WStructural (VTryTable {| tt_ty := BtEmpty; tt_catches := [CatchAllRef 0] |});
      WCore (VI32Const 1); WControl (VCall 1);
    WStructural VEnd;
    WCore (VLocalGet 0); WCore (VI32Const 2); WNumeric VI32Eq;
    WStructural (VIf (BtType WvI32));
      WCore (VI32Const 3);
    WStructural VElse;
      WCore (VI32Const 4); WCore (VLocalGet 0); WControl (VBrTable {| wt_targets := Ok [0]; wt_default := 2 |});
    WStructural VEnd;
    WControl VReturn;
  WStructural VEnd;
  WCore VDrop; WCore (VI32Const 5);
  WStructural VEnd] |}.
Definition compiled : res CompiledFunc * CodeArenas :=
  Eval vm_compute in translate_function ctx 0 body (v_init 1) true arenas.
Lemma compiles : translate_function ctx 0 body (v_init 1) true arenas = compiled.
Proof. vm_compute. reflexivity. Qed.
End Sample.
Import Sample.

Lemma translate_function_consistent_witness : ∃ cf, Sample.compiled.1 = Ok cf ∧ ∃ ops pool handlers heights,
  ca_ops Sample.compiled.2 = ca_ops Sample.arenas ++ ops ∧ ca_br_tables Sample.compiled.2 = ca_br_tables Sample.arenas ++ pool ∧
  ca_handlers Sample.compiled.2 = ca_handlers Sample.arenas ++ handlers ∧
  ca_big_memargs Sample.arenas `prefix_of` ca_big_memargs Sample.compiled.2 ∧
  ca_offsets Sample.arenas `prefix_of` ca_offsets Sample.compiled.2 ∧
  span_slice (ca_ops Sample.compiled.2) (cf_ops cf) = Some ops ∧
  span_slice (ca_br_tables Sample.compiled.2) (cf_br_tables cf) = Some pool ∧
  span_slice (ca_handlers Sample.compiled.2) (cf_handlers cf) = Some handlers ∧
  cf_n_params cf = 0 ∧ cf_n_results cf = 1 ∧ consistent Sample.ctx ops pool handlers 1 heights.
Proof.
  eexists. split; [reflexivity|].
  apply (translate_function_consistent (ctx := Sample.ctx) (H1 := Sample.validator_heights) 0 Sample.body (v_init 1) true Sample.arenas _ _ 0 1 eq_refl eq_refl Sample.compiles);
    vm_compute; reflexivity.
Defined.

(** ** A valid body that is refused *)
Definition heights_valid (ctx : CompileCtx) (ops : list Operator) (v : VState) : option VState :=
  foldl (λ s o, s ≫= height_check ctx o) (Some v) ops.
(** [unreachable; block (param i32); drop; end; end] *)
Definition dead_params : list Operator :=
  [WControl VUnreachable; WStructural (VBlock (BtFunc 1)); WCore VDrop; WStructural VEnd; WStructural VEnd].

(** In dead code the translator still measures a block's parameters against the
    height that the reachable code had: a body that is valid, an [unreachable] followed by
    a block with a parameter, is refused with an internal error, whatever the arenas. *)
Lemma dead_block_params_refused retain c :
  heights_valid Sample.ctx dead_params (v_init 1) = Some {| vs_height := 1; vs_frames := [] |} ∧
  (translate_function Sample.ctx 0 {| fb_locals := Ok []; fb_operators := Ok dead_params |} (v_init 1) retain c).1 =
    Err (EInternal (Compiler "control operand height underflow")).
Proof. split; [reflexivity|]. destruct retain; reflexivity. Qed.
(** The peak height does not count what a handler leaves for its landing pad: here the pad
    is entered with one operand and the peak is 0. *)
Lemma max_operands_without_payloads :
  match translate_function Sample.ctx 2
    {| fb_locals := Ok []; fb_operators := Ok [
       WStructural (VBlock (BtType Sample.exnref));
         WStructural (VTryTable {| tt_ty := BtEmpty; tt_catches := [CatchAllRef 0] |});
           WControl (VCall 2);
         WStructural VEnd; WControl VUnreachable;
       WStructural VEnd; WCore VDrop; WStructural VEnd] |} (v_init 0) false Sample.arenas with
  | (Ok cf, c) => cf_max_operands cf = 0 ∧ ∃ sp r, ca_handlers c = [sp] ∧ hs_clauses sp = [r] ∧
      hr_restore_height r = 0 ∧ clause_payload Sample.ctx (hr_tag r) (hr_payload_args r) (hr_payload_ref r) = Some 1
  | _ => False
  end.
Proof. vm_compute. split; [done|]. by eexists _, _. Qed.
