(* ===== verification/Parse.v ===== *)
(** * Parse: from a validated binary to a compiled module
    (src/src/module/parse.rs, typesec.rs, const_expr.rs and the entry points of mod.rs)

    wasmparser splits the binary into payloads and validates each; the code decodes them
    into a [ModuleInner], compiles the bodies one after the other into shared arenas, and
    interns the types.  A payload is what its section reader answers, item by item; the
    parser and the validator are parameters ([WasmParser], [WasmValidator]).  What the
    module keeps for backtraces is left out. *)
From S2P Require Import Prelude Types Layout Codec Op Entity Store Keys Registry Compile Lowering.
Open Scope Z_scope.

(** ** What wasmparser hands out *)
Inductive WpStorage := WsI8 | WsI16 | WsVal (v : WpVal).
Record WpField : Type := { wf_mutable : bool; wf_element : WpStorage }.
Inductive WpComposite := WcFunc (params results : list WpVal) | WcStruct (fields : list WpField) | WcArray (field : WpField) | WcCont.
Record WpSubType : Type := { ws_is_final : bool; ws_supertype_idx : option WpIndex; ws_composite : WpComposite }.
Inductive WpTypeRef := TrFunc (t : Z) | TrTable (tt : WpTableType) | TrMemory (mt : WpMemoryType) | TrGlobal (gt : WpGlobalType)
  | TrTag (func_type_idx : Z) | TrFuncExact (t : Z).
Record WpImport : Type := { wi_module : string; wi_name : string; wi_ty : WpTypeRef }.
Inductive WpExternalKind := EkFunc | EkTable | EkMemory | EkGlobal | EkTag | EkFuncExact.
Record WpExport : Type := { we_name : string; we_kind : WpExternalKind; we_index : Z }.
(** A constant expression: what its reader answers. *)
Definition WpConstExpr : Type := list (res Operator).
Inductive WpTableInit := WtiRefNull | WtiExpr (e : WpConstExpr).
Record WpTable : Type := { wtb_ty : WpTableType; wtb_init : WpTableInit }.
Record WpGlobal : Type := { wg_ty : WpGlobalType; wg_init_expr : WpConstExpr }.
Inductive WpElementKind := WekPassive | WekDeclared | WekActive (table_index : option Z) (offset_expr : WpConstExpr).
Inductive WpElementItems := WeiFunctions (r : list (res Z)) | WeiExpressions (r : list (res WpConstExpr)).
Record WpElement : Type := { wel_kind : WpElementKind; wel_items : WpElementItems }.
Inductive WpDataKind := WdkPassive | WdkActive (memory_index : Z) (offset_expr : WpConstExpr).
Record WpData : Type := { wd_kind : WpDataKind; wd_data : list Z }.
Inductive Payload :=
  | TypeSection (r : list (res (list WpSubType))) | ImportSection (r : list (res (list (res WpImport))))
  | FunctionSection (r : list (res Z)) | TableSection (r : list (res WpTable)) | MemorySection (r : list (res WpMemoryType))
  | GlobalSection (r : list (res WpGlobal)) | TagSection (r : list (res Z)) | ExportSection (r : list (res WpExport))
  | StartSection (func : Z) | ElementSection (r : list (res WpElement)) | DataSection (r : list (res WpData))
  | CodeSectionStart (start : Z) | CodeSectionEntry | CustomSection (name : string) | OtherPayload.

(** ** The module under construction *)
Definition set_mi_types (v : list ModuleType) (m : ModuleInner) : ModuleInner :=
  {| mi_types := v; mi_func_types := mi_func_types m; mi_num_imported_funcs := mi_num_imported_funcs m;
     mi_functions := mi_functions m; mi_code := mi_code m; mi_imports := mi_imports m;
     mi_exports := mi_exports m; mi_memories := mi_memories m; mi_tables := mi_tables m;
     mi_globals := mi_globals m; mi_tags := mi_tags m; mi_num_imported_tags := mi_num_imported_tags m;
     mi_datas := mi_datas m; mi_elems := mi_elems m; mi_start := mi_start m; mi_type_ids := mi_type_ids m;
     mi_layouts := mi_layouts m |}.
Definition set_mi_func_types (v : list Z) (m : ModuleInner) : ModuleInner :=
  {| mi_types := mi_types m; mi_func_types := v; mi_num_imported_funcs := mi_num_imported_funcs m;
     mi_functions := mi_functions m; mi_code := mi_code m; mi_imports := mi_imports m;
     mi_exports := mi_exports m; mi_memories := mi_memories m; mi_tables := mi_tables m;
     mi_globals := mi_globals m; mi_tags := mi_tags m; mi_num_imported_tags := mi_num_imported_tags m;
     mi_datas := mi_datas m; mi_elems := mi_elems m; mi_start := mi_start m; mi_type_ids := mi_type_ids m;
     mi_layouts := mi_layouts m |}.
Definition set_mi_imports (v : list Import) (m : ModuleInner) : ModuleInner :=
  {| mi_types := mi_types m; mi_func_types := mi_func_types m;
     mi_num_imported_funcs := mi_num_imported_funcs m; mi_functions := mi_functions m;
     mi_code := mi_code m; mi_imports := v; mi_exports := mi_exports m; mi_memories := mi_memories m;
     mi_tables := mi_tables m; mi_globals := mi_globals m; mi_tags := mi_tags m;
     mi_num_imported_tags := mi_num_imported_tags m; mi_datas := mi_datas m; mi_elems := mi_elems m;
     mi_start := mi_start m; mi_type_ids := mi_type_ids m; mi_layouts := mi_layouts m |}.
Definition set_mi_exports (v : list Export) (m : ModuleInner) : ModuleInner :=
  {| mi_types := mi_types m; mi_func_types := mi_func_types m;
     mi_num_imported_funcs := mi_num_imported_funcs m; mi_functions := mi_functions m;
     mi_code := mi_code m; mi_imports := mi_imports m; mi_exports := v; mi_memories := mi_memories m;
     mi_tables := mi_tables m; mi_globals := mi_globals m; mi_tags := mi_tags m;
     mi_num_imported_tags := mi_num_imported_tags m; mi_datas := mi_datas m; mi_elems := mi_elems m;
     mi_start := mi_start m; mi_type_ids := mi_type_ids m; mi_layouts := mi_layouts m |}.
Definition set_mi_memories (v : list MemoryType) (m : ModuleInner) : ModuleInner :=
  {| mi_types := mi_types m; mi_func_types := mi_func_types m;
     mi_num_imported_funcs := mi_num_imported_funcs m; mi_functions := mi_functions m;
     mi_code := mi_code m; mi_imports := mi_imports m; mi_exports := mi_exports m; mi_memories := v;
     mi_tables := mi_tables m; mi_globals := mi_globals m; mi_tags := mi_tags m;
     mi_num_imported_tags := mi_num_imported_tags m; mi_datas := mi_datas m; mi_elems := mi_elems m;
     mi_start := mi_start m; mi_type_ids := mi_type_ids m; mi_layouts := mi_layouts m |}.
Definition set_mi_tables (v : list TableDef) (m : ModuleInner) : ModuleInner :=
  {| mi_types := mi_types m; mi_func_types := mi_func_types m;
     mi_num_imported_funcs := mi_num_imported_funcs m; mi_functions := mi_functions m;
     mi_code := mi_code m; mi_imports := mi_imports m; mi_exports := mi_exports m;
     mi_memories := mi_memories m; mi_tables := v; mi_globals := mi_globals m; mi_tags := mi_tags m;
     mi_num_imported_tags := mi_num_imported_tags m; mi_datas := mi_datas m; mi_elems := mi_elems m;
     mi_start := mi_start m; mi_type_ids := mi_type_ids m; mi_layouts := mi_layouts m |}.
Definition set_mi_globals (v : list GlobalDef) (m : ModuleInner) : ModuleInner :=
  {| mi_types := mi_types m; mi_func_types := mi_func_types m;
     mi_num_imported_funcs := mi_num_imported_funcs m; mi_functions := mi_functions m;
     mi_code := mi_code m; mi_imports := mi_imports m; mi_exports := mi_exports m;
     mi_memories := mi_memories m; mi_tables := mi_tables m; mi_globals := v; mi_tags := mi_tags m;
     mi_num_imported_tags := mi_num_imported_tags m; mi_datas := mi_datas m; mi_elems := mi_elems m;
     mi_start := mi_start m; mi_type_ids := mi_type_ids m; mi_layouts := mi_layouts m |}.
Definition set_mi_tags (v : list TagDef) (m : ModuleInner) : ModuleInner :=
  {| mi_types := mi_types m; mi_func_types := mi_func_types m;
     mi_num_imported_funcs := mi_num_imported_funcs m; mi_functions := mi_functions m;
     mi_code := mi_code m; mi_imports := mi_imports m; mi_exports := mi_exports m;
     mi_memories := mi_memories m; mi_tables := mi_tables m; mi_globals := mi_globals m; mi_tags := v;
     mi_num_imported_tags := mi_num_imported_tags m; mi_datas := mi_datas m; mi_elems := mi_elems m;
     mi_start := mi_start m; mi_type_ids := mi_type_ids m; mi_layouts := mi_layouts m |}.
Definition set_mi_datas (v : list DataSegment) (m : ModuleInner) : ModuleInner :=
  {| mi_types := mi_types m; mi_func_types := mi_func_types m;
     mi_num_imported_funcs := mi_num_imported_funcs m; mi_functions := mi_functions m;
     mi_code := mi_code m; mi_imports := mi_imports m; mi_exports := mi_exports m;
     mi_memories := mi_memories m; mi_tables := mi_tables m; mi_globals := mi_globals m;
     mi_tags := mi_tags m; mi_num_imported_tags := mi_num_imported_tags m; mi_datas := v;
     mi_elems := mi_elems m; mi_start := mi_start m; mi_type_ids := mi_type_ids m;
     mi_layouts := mi_layouts m |}.
Definition set_mi_elems (v : list ElemSegment) (m : ModuleInner) : ModuleInner :=
  {| mi_types := mi_types m; mi_func_types := mi_func_types m;
     mi_num_imported_funcs := mi_num_imported_funcs m; mi_functions := mi_functions m;
     mi_code := mi_code m; mi_imports := mi_imports m; mi_exports := mi_exports m;
     mi_memories := mi_memories m; mi_tables := mi_tables m; mi_globals := mi_globals m;
     mi_tags := mi_tags m; mi_num_imported_tags := mi_num_imported_tags m; mi_datas := mi_datas m;
     mi_elems := v; mi_start := mi_start m; mi_type_ids := mi_type_ids m; mi_layouts := mi_layouts m |}.
Definition set_mi_num_imported_funcs (v : Z) (m : ModuleInner) : ModuleInner :=
  {| mi_types := mi_types m; mi_func_types := mi_func_types m; mi_num_imported_funcs := v;
     mi_functions := mi_functions m; mi_code := mi_code m; mi_imports := mi_imports m;
     mi_exports := mi_exports m; mi_memories := mi_memories m; mi_tables := mi_tables m;
     mi_globals := mi_globals m; mi_tags := mi_tags m; mi_num_imported_tags := mi_num_imported_tags m;
     mi_datas := mi_datas m; mi_elems := mi_elems m; mi_start := mi_start m; mi_type_ids := mi_type_ids m;
     mi_layouts := mi_layouts m |}.
Definition set_mi_num_imported_tags (v : Z) (m : ModuleInner) : ModuleInner :=
  {| mi_types := mi_types m; mi_func_types := mi_func_types m;
     mi_num_imported_funcs := mi_num_imported_funcs m; mi_functions := mi_functions m;
     mi_code := mi_code m; mi_imports := mi_imports m; mi_exports := mi_exports m;
     mi_memories := mi_memories m; mi_tables := mi_tables m; mi_globals := mi_globals m;
     mi_tags := mi_tags m; mi_num_imported_tags := v; mi_datas := mi_datas m; mi_elems := mi_elems m;
     mi_start := mi_start m; mi_type_ids := mi_type_ids m; mi_layouts := mi_layouts m |}.
Definition set_mi_start (v : option Z) (m : ModuleInner) : ModuleInner :=
  {| mi_types := mi_types m; mi_func_types := mi_func_types m;
     mi_num_imported_funcs := mi_num_imported_funcs m; mi_functions := mi_functions m;
     mi_code := mi_code m; mi_imports := mi_imports m; mi_exports := mi_exports m;
     mi_memories := mi_memories m; mi_tables := mi_tables m; mi_globals := mi_globals m;
     mi_tags := mi_tags m; mi_num_imported_tags := mi_num_imported_tags m; mi_datas := mi_datas m;
     mi_elems := mi_elems m; mi_start := v; mi_type_ids := mi_type_ids m; mi_layouts := mi_layouts m |}.
Definition set_mi_bodies (functions : list CompiledFunc) (code : CodeArenas) (m : ModuleInner) : ModuleInner :=
  {| mi_types := mi_types m; mi_func_types := mi_func_types m;
     mi_num_imported_funcs := mi_num_imported_funcs m; mi_functions := functions; mi_code := code;
     mi_imports := mi_imports m; mi_exports := mi_exports m; mi_memories := mi_memories m;
     mi_tables := mi_tables m; mi_globals := mi_globals m; mi_tags := mi_tags m;
     mi_num_imported_tags := mi_num_imported_tags m; mi_datas := mi_datas m; mi_elems := mi_elems m;
     mi_start := mi_start m; mi_type_ids := mi_type_ids m; mi_layouts := mi_layouts m |}.

(** ** typesec.rs *)
Definition composite_kind (inner : WpComposite) : res AggKind :=
  match inner with
  | WcFunc _ _ => Ok AggFunc | WcStruct _ => Ok AggStruct | WcArray _ => Ok AggArray
  | WcCont => Err (EMsg "continuation types not supported")
  end.
Definition conv_fieldtype (kinds : list AggKind) (f : WpField) : res IrField :=
  storage ← match wf_element f with
            | WsI8 => Ok IrSI8 | WsI16 => Ok IrSI16 | WsVal v => IrSVal <$> conv_valtype kinds v
            end;
  Ok {| f_mutable := wf_mutable f; f_storage := storage |}.
Definition conv_valtypes (kinds : list AggKind) (tys : list WpVal) : res (list IrVal) := mapM (conv_valtype kinds) tys.
Definition conv_composite (kinds : list AggKind) (inner : WpComposite) : res CompositeBody :=
  match inner with
  | WcFunc params results => p ← conv_valtypes kinds params; r ← conv_valtypes kinds results; Ok (CompFunc p r)
  | WcStruct fields => CompStruct <$> mapM (conv_fieldtype kinds) fields
  | WcArray field => CompArray <$> conv_fieldtype kinds field
  | WcCont => Err (EMsg "continuation types not supported")
  end.
(** [p.unpack().as_module_index()] *)
Definition as_module_index (i : WpIndex) : option Z := match i with WiModule i => Some i | WiOther => None end.
(** The loop over the groups, numbered from [group]. *)
Fixpoint raw_types (group : Z) (r : list (res (list WpSubType))) (raw : list (Z * WpSubType)) : res (list (Z * WpSubType)) :=
  match r with
  | [] => Ok raw
  | rec :: r' => types ← rec; raw_types (group + 1) r' (raw ++ (pair (wrap 32 group) <$> types))
  end.
Definition conv_subtype (kinds : list AggKind) (g : Z) (sub : WpSubType) : res ModuleType :=
  let finality := if ws_is_final sub then Final else NonFinal in
  let supertype := ws_supertype_idx sub ≫= as_module_index in
  body ← conv_composite kinds (ws_composite sub);
  Ok {| mt_group := g; mt_finality := finality; mt_supertype := supertype; mt_body := body |}.
Definition parse_types (r : list (res (list WpSubType))) : SM ModuleInner () :=
  raw ← lift (raw_types 0 r []);
  kinds ← lift (mapM (λ s, composite_kind (ws_composite (snd s))) raw);
  for_each raw (λ '(g, sub), t ← lift (conv_subtype kinds g sub); modify (λ m, set_mi_types (mi_types m ++ [t]) m)).

(** ** const_expr.rs *)
Definition conv_reftype_heap (kinds : list AggKind) (hty : WpHeap) : res IrHeap :=
  rt ← conv_reftype kinds {| wr_nullable := true; wr_heap := hty |}; Ok (ir_heap rt).
Definition conv_const_gc_op (op : Operator) : res (option ConstOp) :=
  match op with
  | WGc VRefI31 => Ok (Some CoRefI31)
  | WStruct (VStructNew ty) => Ok (Some (CoStructNew ty))
  | WStruct (VStructNewDefault ty) => Ok (Some (CoStructNewDefault ty))
  | WArray (VArrayNew ty) => Ok (Some (CoArrayNew ty))
  | WArray (VArrayNewDefault ty) => Ok (Some (CoArrayNewDefault ty))
  | WArray (VArrayNewFixed ty n) => Ok (Some (CoArrayNewFixed ty n))
  | WArray (VArrayNewData ty data) => Ok (Some (CoArrayNewData ty data))
  | WArray (VArrayNewElem ty elem) => Ok (Some (CoArrayNewElem ty elem))
  | WGc VAnyConvertExtern => Ok (Some CoAnyConvertExtern)
  | WGc VExternConvertAny => Ok (Some CoExternConvertAny)
  | _ => Err (EMsg "unsupported constant expression")
  end.
Definition conv_const_op (kinds : list AggKind) (op : Operator) : res (option ConstOp) :=
  match op with
  | WCore (VI32Const value) => Ok (Some (CoI32 value))
  | WCore (VI64Const value) => Ok (Some (CoI64 value))
  | WCore (VF32Const bits) => Ok (Some (CoF32 bits))
  | WCore (VF64Const bits) => Ok (Some (CoF64 bits))
  | WSimd (VV128Const value) => Ok (Some (CoV128 (from_le_bytes value)))
  | WRef (VRefNull hty) => h ← conv_reftype_heap kinds hty; Ok (Some (CoRefNull h))
  | WRef (VRefFunc function_index) => Ok (Some (CoRefFunc function_index))
  | WCore (VGlobalGet global_index) => Ok (Some (CoGlobalGet global_index))
  | WNumeric VI32Add => Ok (Some CoI32Add) | WNumeric VI32Sub => Ok (Some CoI32Sub) | WNumeric VI32Mul => Ok (Some CoI32Mul)
  | WNumeric VI64Add => Ok (Some CoI64Add) | WNumeric VI64Sub => Ok (Some CoI64Sub) | WNumeric VI64Mul => Ok (Some CoI64Mul)
  | WStructural VEnd => Ok None
  | _ => conv_const_gc_op op
  end.
(** Reading past the last operator is the reader's error. *)
Fixpoint parse_const_ops (kinds : list AggKind) (reader : WpConstExpr) (ops : list ConstOp) : res (list ConstOp) :=
  match reader with
  | [] => Err (EMsg "unexpected end")
  | item :: reader' =>
      op ← item;
      o ← conv_const_op kinds op;
      match o with Some c => parse_const_ops kinds reader' (ops ++ [c]) | None => Ok ops end
  end.
Definition parse_const_expr (kinds : list AggKind) (expr : WpConstExpr) : res ConstExpr := parse_const_ops kinds expr [].

(** ** parse.rs: the sections *)
Definition push_import (imp : WpImport) : SM ModuleInner () :=
  m ← get;
  let kinds := type_kinds m in
  kind ← match wi_ty imp with
         | TrFunc t =>
             modify (λ m, set_mi_num_imported_funcs (wrap 32 (mi_num_imported_funcs m + 1)) (set_mi_func_types (mi_func_types m ++ [t]) m));;
             mret (ImpFunc t)
         | TrTable ty => ty ← lift (conv_tabletype kinds ty); mret (ImpTable ty)
         | TrMemory mt => mret (ImpMemory (conv_memtype mt))
         | TrGlobal gt => ty ← lift (conv_globaltype kinds gt); mret (ImpGlobal ty)
         | TrTag t => modify (λ m, set_mi_num_imported_tags (wrap 32 (mi_num_imported_tags m + 1)) m);; mret (ImpTag t)
         | TrFuncExact _ => fail (EMsg "unsupported import kind")
         end;
  modify (λ m, set_mi_imports (mi_imports m ++ [{| im_module := wi_module imp; im_name := wi_name imp; im_kind := kind |}]) m).
Definition parse_imports (reader : list (res (list (res WpImport)))) : SM ModuleInner () :=
  for_each reader (λ group, items ← lift group; for_each items (λ item, imp ← lift item; push_import imp)).
Definition parse_functions (r : list (res Z)) : SM ModuleInner () :=
  for_each r (λ ty, t ← lift ty; modify (λ m, set_mi_func_types (mi_func_types m ++ [t]) m)).
Definition parse_tables (reader : list (res WpTable)) : SM ModuleInner () :=
  m ← get; let kinds := type_kinds m in
  for_each reader (λ t,
    t ← lift t;
    ty ← lift (conv_tabletype kinds (wtb_ty t));
    init ← match wtb_init t with
           | WtiRefNull => mret None
           | WtiExpr e => c ← lift (parse_const_expr kinds e); mret (Some c)
           end;
    modify (λ m, set_mi_tables (mi_tables m ++ [{| td_ty := ty; td_init := init |}]) m)).
Definition parse_memories (r : list (res WpMemoryType)) : SM ModuleInner () :=
  for_each r (λ mt, mt ← lift mt; modify (λ m, set_mi_memories (mi_memories m ++ [conv_memtype mt]) m)).
Definition parse_globals (reader : list (res WpGlobal)) : SM ModuleInner () :=
  m ← get; let kinds := type_kinds m in
  for_each reader (λ g,
    g ← lift g;
    ty ← lift (conv_globaltype kinds (wg_ty g));
    init ← lift (parse_const_expr kinds (wg_init_expr g));
    modify (λ m, set_mi_globals (mi_globals m ++ [{| gd_ty := ty; gd_init := init |}]) m)).
Definition parse_tags (reader : list (res Z)) : SM ModuleInner () :=
  for_each reader (λ t, t ← lift t; modify (λ m, set_mi_tags (mi_tags m ++ [{| tg_type_index := t |}]) m)).
Definition parse_exports (reader : list (res WpExport)) : SM ModuleInner () :=
  for_each reader (λ e,
    e ← lift e;
    kind ← lift match we_kind e with
                | EkFunc => Ok (ExpFunc (we_index e)) | EkTable => Ok (ExpTable (we_index e))
                | EkMemory => Ok (ExpMemory (we_index e)) | EkGlobal => Ok (ExpGlobal (we_index e))
                | EkTag => Ok (ExpTag (we_index e)) | EkFuncExact => Err (EMsg "unsupported export kind")
                end;
    modify (λ m, set_mi_exports (mi_exports m ++ [{| ex_name := we_name e; ex_kind := kind |}]) m)).
Definition conv_elem_items (kinds : list AggKind) (items : WpElementItems) : res ElemItems :=
  match items with
  | WeiFunctions r => EiFuncs <$> mapM id r
  | WeiExpressions r => EiExprs <$> mapM (λ e, e ← e; parse_const_expr kinds e) r
  end.
Definition parse_elems (reader : list (res WpElement)) : SM ModuleInner () :=
  m ← get; let kinds := type_kinds m in
  for_each reader (λ e,
    e ← lift e;
    mode ← match wel_kind e with
           | WekPassive => mret EmPassive
           | WekDeclared => mret EmDeclared
           | WekActive table_index offset_expr =>
               offset ← lift (parse_const_expr kinds offset_expr); mret (EmActive (default 0 table_index) offset)
           end;
    items ← lift (conv_elem_items kinds (wel_items e));
    modify (λ m, set_mi_elems (mi_elems m ++ [{| es_mode := mode; es_items := items |}]) m)).
Definition parse_datas (reader : list (res WpData)) : SM ModuleInner () :=
  m ← get; let kinds := type_kinds m in
  for_each reader (λ d,
    d ← lift d;
    mode ← match wd_kind d with
           | WdkPassive => mret DmPassive
           | WdkActive memory_index offset_expr =>
               offset ← lift (parse_const_expr kinds offset_expr); mret (DmActive memory_index offset)
           end;
    modify (λ m, set_mi_datas (mi_datas m ++ [{| ds_mode := mode; ds_bytes := wd_data d |}]) m)).
(** What a custom section adds is kept for backtraces only. *)
Definition decode_payload (payload : Payload) : SM ModuleInner () :=
  match payload with
  | TypeSection r => parse_types r
  | ImportSection r => parse_imports r
  | FunctionSection r => parse_functions r
  | TableSection r => parse_tables r
  | MemorySection r => parse_memories r
  | GlobalSection r => parse_globals r
  | TagSection r => parse_tags r
  | ExportSection r => parse_exports r
  | StartSection func => modify (set_mi_start (Some func))
  | ElementSection r => parse_elems r
  | DataSection r => parse_datas r
  | CodeSectionStart _ | CodeSectionEntry | CustomSection _ | OtherPayload => mret tt
  end.

(** ** parse.rs: the bodies and the module *)
Record ModuleLimits : Type := { ml_max_module_bytes : Z; ml_max_expanded_locals : Z }.
Definition DEFAULT_MAX_MODULE_BYTES : Z := Z.shiftl 256 20.
Definition DEFAULT_MAX_EXPANDED_LOCALS : Z := Z.shiftl 1 23.
Definition module_limits_default : ModuleLimits :=
  {| ml_max_module_bytes := DEFAULT_MAX_MODULE_BYTES; ml_max_expanded_locals := DEFAULT_MAX_EXPANDED_LOCALS |}.

(** [parse_all] is the parser's iterator; the validator sees every payload and, of a code
    entry, gives the validator of its body ([FT], a [FuncToValidate]) with the body. *)
Class WasmParser := parse_all : list Z → list (res Payload).
Class WasmValidator (R V VS FT : Type) := {
  new_validator : VS;
  validate_payload : Payload → VS → res (option (FT * FunctionBody R) * VS);
  into_validator : FT → V;
  validate_all : list Z → res ();
}.

Definition tag_type_indices (m : ModuleInner) : list Z :=
  omap (λ i, match im_kind i with ImpTag t => Some t | _ => None end) (mi_imports m) ++ (tg_type_index <$> mi_tags m).
Definition module_ctx (limits : ModuleLimits) (m : ModuleInner) : CompileCtx := {|
  cc_types := mi_types m; cc_kinds := type_kinds m; cc_func_types := mi_func_types m;
  cc_tag_types := tag_type_indices m; cc_max_expanded_locals := ml_max_expanded_locals limits |}.

Section parse.
Context {R V VS FT : Type} `{BodyReader R, OpValidator R V, HostAlloc, WasmParser, WasmValidator R V VS FT}.

(** The loop of [compile_bodies]; reserving capacity up front does not show. *)
Fixpoint compile_each (ctx : CompileCtx) (m : ModuleInner) (retain_offsets : bool) (i : Z) (bodies : list (FT * FunctionBody R))
    (out : list CompiledFunc) : M CodeArenas error (list CompiledFunc) :=
  match bodies with
  | [] => mret out
  | (to_validate, body) :: rest =>
      type_idx ← lift (expect (zget (mi_func_types m) (mi_num_imported_funcs m + i)) "index out of bounds");
      cf ← translate_function ctx type_idx body (into_validator to_validate) retain_offsets;
      compile_each ctx m retain_offsets (i + 1) rest (out ++ [cf])
  end.
Definition compile_bodies (m : ModuleInner) (funcs : list FT) (bodies : list (FunctionBody R)) (retain_offsets : bool)
    (limits : ModuleLimits) : res (list CompiledFunc * CodeArenas) :=
  match compile_each (module_ctx limits m) m retain_offsets 0 (zip funcs bodies) [] empty_arenas with
  | (Ok out, code) => Ok (out, code) | (Err e, _) => Err e | (Panic w, _) => Panic w
  end.
(** The loop of [parse_module] over the payloads. *)
Fixpoint parse_payloads (payloads : list (res Payload)) (validator : VS) (m : ModuleInner) (funcs : list FT)
    (bodies : list (FunctionBody R)) : res (ModuleInner * list FT * list (FunctionBody R)) :=
  match payloads with
  | [] => Ok (m, funcs, bodies)
  | payload :: rest =>
      payload ← payload;
      '(valid, validator) ← validate_payload payload validator;
      match decode_payload payload m with
      | (Ok _, m) =>
          match valid with
          | Some (to_validate, body) => parse_payloads rest validator m (funcs ++ [to_validate]) (bodies ++ [body])
          | None => parse_payloads rest validator m funcs bodies
          end
      | (Err e, _) => Err e
      | (Panic w, _) => Panic w
      end
  end.
(** The engine's registry is what interning changes; the registered groups are released
    when the module is dropped. *)
Definition parse_module (keep_offsets : bool) (bytes : list Z) (limits : ModuleLimits) : SM TypeRegistry (ModuleInner * list Z) :=
  if ml_max_module_bytes limits <? zlen bytes then fail (EMsg "module size exceeds configured limit") else
  '(m, funcs, bodies) ← lift (parse_payloads (parse_all bytes) new_validator empty_module [] []);
  '(functions, code) ← lift (compile_bodies m funcs bodies keep_offsets limits);
  let m := set_mi_bodies functions code m in
  '(type_ids, group_handles) ← intern_module (mi_types m);
  mret (set_interned type_ids m, group_handles).

(** *** mod.rs *)
Definition Module_new_with_limits := parse_module.
Definition Module_from_binary (engine_limits : ModuleLimits) (keep_offsets : bool) (binary : list Z) : SM TypeRegistry (ModuleInner * list Z) :=
  parse_module keep_offsets binary engine_limits.
Definition Module_validate (engine_limits : ModuleLimits) (binary : list Z) : res () :=
  if ml_max_module_bytes engine_limits <? zlen binary then Err (EMsg "module size exceeds configured limit") else validate_all binary.
(** [impl Drop for ModuleInner] *)
Definition module_drop (group_handles : list Z) : SM TypeRegistry () := release group_handles.
End parse.
