(* ===== verification/Parsed.v ===== *)
(** * Parsed: what parsing makes of an accepted binary (theorems about Parse.v)

    The validator's guarantees are hypotheses: of the type section, that references are
    backward or within their group; of a body, that its validator starts at the results of
    its function and checks operand heights.  From them the types can be interned, and each
    function that is compiled into the shared arenas stays consistent under the ones after
    it. *)
From S2P Require Import Prelude Keep Types Layout Codec Op Entity Store Keys Registry Interning Compile Lowering Grown Heights Compiled Translated Verified Closed Validated Parse.
Open Scope Z_scope.

(** ** The bodies share the arenas *)
Section bodies.
Context {R V : Type} (ctx : CompileCtx) `{ValidatorHeights R V ctx, HostAlloc}.

Definition appends (c c' : CodeArenas) : Prop :=
  ca_ops c `prefix_of` ca_ops c' ∧ ca_br_tables c `prefix_of` ca_br_tables c' ∧ ca_handlers c `prefix_of` ca_handlers c'.
#[export] Instance appends_preorder : PreOrder appends.
Proof. split; [intros c; split_and!; reflexivity|]. intros c1 c2 c3 (? & ? & ?) (? & ? & ?). split_and!; etrans; eassumption. Qed.
(** Spans are 32-bit, patched branches 31-bit. *)
Definition addressable (c : CodeArenas) : Prop :=
  zlen (ca_ops c) < 2 ^ 31 ∧ zlen (ca_br_tables c) < 2 ^ 31 ∧ zlen (ca_handlers c) < 2 ^ 32.
Lemma zlen_prefix {A} (l k : list A) : l `prefix_of` k → zlen l ≤ zlen k.
Proof using. intros [r ->]. rewrite zlen_app. pose proof (zlen_nonneg r). lia. Qed.
Lemma addressable_before c c' : appends c c' → addressable c' → addressable c.
Proof using. intros (Hp1%zlen_prefix & Hp2%zlen_prefix & Hp3%zlen_prefix) (? & ? & ?). split_and!; lia. Qed.

(** A function of type [ty] compiled into the arenas: its spans hold consistent code. *)
Definition compiled_function (c : CodeArenas) (ty : Z) (cf : CompiledFunc) : Prop :=
  cf_type_idx cf = ty ∧ ∃ n_params n_results ops pool handlers heights,
    type_arity ctx ty = Some (n_params, n_results) ∧ cf_n_params cf = n_params ∧ cf_n_results cf = n_results ∧
    span_slice (ca_ops c) (cf_ops cf) = Some ops ∧ span_slice (ca_br_tables c) (cf_br_tables cf) = Some pool ∧
    span_slice (ca_handlers c) (cf_handlers cf) = Some handlers ∧ consistent ctx ops pool handlers n_results heights.
Lemma span_slice_prefix {A} (l k s : list A) sp : l `prefix_of` k → span_slice l sp = Some s → span_slice k sp = Some s.
Proof using.
  intros [r ->]. unfold span_slice. rewrite !zslice_Some. intros (Ha & Hb & ->). rewrite zlen_app. pose proof (zlen_nonneg r).
  split_and!; [lia|lia|lia|]. unfold ztake, zdrop, zlen in *. rewrite drop_app_le, take_app_le; [done| |lia]. rewrite length_drop. lia.
Qed.
Lemma compiled_function_stays c c' ty cf : appends c c' → compiled_function c ty cf → compiled_function c' ty cf.
Proof using.
  intros (Ho & Hp & Hh) [Ht (np & nr & ops & pool & hs & ht & Ha & Hn1 & Hn2 & S1 & S2 & S3 & Hc)]. split; [done|].
  exists np, nr, ops, pool, hs, ht. split_and!; try done; by eapply span_slice_prefix.
Qed.
Lemma translate_type_idx type_idx (body : FunctionBody R) (fv : V) retain c cf c' :
  translate_function ctx type_idx body fv retain c = (Ok cf, c') → cf_type_idx cf = type_idx.
Proof using.
  unfold translate_function. intros Hrun. peel Hrun. destruct a. peel Hrun. peel Hrun. peel Hrun. case_match. peel Hrun. peel Hrun.
  by injection Hrun as <- _.
Qed.

Context {FT : Type} (into : FT → V) (m : ModuleInner) (retain : bool).
(** The types of the functions have arities, and the validator of a body starts at the
    results of its function. *)
Definition bodies_start (i : Z) (bodies : list (FT * FunctionBody R)) : Prop :=
  ∀ k f body ty, zget bodies k = Some (f, body) → zget (mi_func_types m) (mi_num_imported_funcs m + (i + k)) = Some ty →
    ∃ n_params n_results, type_arity ctx ty = Some (n_params, n_results) ∧ view (into f) = v_init n_results.
End bodies.

Section module.
Context {R V VS FT : Type} (limits : ModuleLimits) (m : ModuleInner).
Context `{ValidatorHeights R V (module_ctx limits m), HostAlloc, WasmValidator R V VS FT}.
Local Abbreviation ctx := (module_ctx limits m).
Lemma compile_each_spec retain bodies : ∀ i out c out' c',
  compile_each ctx m retain i bodies out c = (Ok out', c') → addressable c' → bodies_start ctx into_validator m i bodies →
  appends c c' ∧ ∃ cfs, out' = out ++ cfs ∧ zlen cfs = zlen bodies ∧
    ∀ k cf, zget cfs k = Some cf → ∃ ty, zget (mi_func_types m) (mi_num_imported_funcs m + (i + k)) = Some ty ∧ compiled_function ctx c' ty cf.
Proof.
  induction bodies as [|[f body] rest IH]; intros i out c out' c' Hrun Hs Hb.
  - injection Hrun as <- <-. split; [done|]. exists []. rewrite app_nil_r. split_and!; [done..|]. intros k cf. by rewrite zget_nil.
  - cbn [compile_each] in Hrun. peel Hrun. rename a into ty. peel Hrun. rename a into cf, s into c1, E0 into Hcf.
    destruct (IH _ _ _ _ _ Hrun Hs) as (Happ & cfs & -> & Hlen & Hcfs).
    { intros k g b t Hk Ht. apply (Hb (k + 1) g b t).
      - pose proof (zget_Some _ _ _ Hk). rewrite zget_cons_S by lia. by replace (k + 1 - 1) with k by lia.
      - rewrite <- Ht. f_equal. lia. }
    assert (zget (mi_func_types m) (mi_num_imported_funcs m + (i + 0)) = Some ty) as Hty.
    { rewrite Z.add_0_r. destruct (zget _ _); [|done]. by injection E as ->. }
    destruct (Hb 0 f body ty eq_refl Hty) as (np & nr & Har & Hv).
    destruct (addressable_before _ _ Happ Hs) as (S1 & S2 & S3).
    destruct (translate_function_appends ty body (into_validator f) retain c cf c1 np nr Har Hv Hcf S1 S2 S3)
      as (ops & pool & hs & ht & Ho & Hp & Hh & _ & _ & L1 & L2 & L3 & N1 & N2 & Hcons).
    split; [etrans; [|exact Happ]; split_and!; eexists; eassumption|].
    exists (cf :: cfs). split; [by rewrite <- app_assoc|]. rewrite !zlen_cons, Hlen. split; [done|].
    intros k cf' Hk. destruct (Z.eq_dec k 0) as [->|].
    + injection Hk as <-. exists ty. split; [done|]. eapply compiled_function_stays; [exact Happ|].
      split; [by eapply translate_type_idx|]. by exists np, nr, ops, pool, hs, ht.
    + pose proof (zget_Some _ _ _ Hk). rewrite zget_cons_S in Hk by lia. destruct (Hcfs _ _ Hk) as (ty' & Hty' & Hc').
      exists ty'. split; [|done]. rewrite <- Hty'. f_equal. lia.
Qed.
End module.

(** ** The type section *)
Definition wp_heap_refs (h : WpHeap) : list Z := match h with WhConcrete (WiModule i) | WhExact (WiModule i) => [i] | _ => [] end.
Definition wp_val_refs (v : WpVal) : list Z := match v with WvRef rt => wp_heap_refs (wr_heap rt) | _ => [] end.
Definition wp_field_refs (f : WpField) : list Z := match wf_element f with WsVal v => wp_val_refs v | _ => [] end.
Definition wp_body_refs (b : WpComposite) : list Z :=
  match b with
  | WcFunc p r => (p ++ r) ≫= wp_val_refs | WcStruct fs => fs ≫= wp_field_refs | WcArray f => wp_field_refs f | WcCont => []
  end.
Definition wp_supertype (s : WpSubType) : option Z := ws_supertype_idx s ≫= as_module_index.
Definition wp_type_refs (s : WpSubType) : list Z :=
  match wp_supertype s with Some p => [p] | None => [] end ++ wp_body_refs (ws_composite s).
(** What validation of a type section means: a reference goes to an earlier type or into the
    type's own group, a supertype comes earlier. *)
Definition types_valid (raw : list (Z * WpSubType)) : Prop := ∀ i g s, zget raw i = Some (g, s) →
  (∀ h, h ∈ wp_type_refs s → 0 ≤ h ∧ (h < i ∨ ∀ j, i ≤ j ≤ h → ∃ s', zget raw j = Some (g, s'))) ∧
  (∀ p, wp_supertype s = Some p → p < i).

Lemma conv_heap_refs kinds h ih : conv_heaptype kinds h = Ok ih → heap_refs ih = wp_heap_refs h.
Proof.
  destruct h as [[] ty|[i|]|[i|]]; cbn; try done.
  - destruct ty; by intros [= <-].
  - destruct (zget kinds i); cbn; [|done]. by intros [= <-].
  - destruct (zget kinds i); cbn; [|done]. by intros [= <-].
Qed.
Lemma conv_val_refs kinds v iv : conv_valtype kinds v = Ok iv → val_refs iv = wp_val_refs v.
Proof.
  destruct v as [| | | | |rt]; cbn; try by intros [= <-]. destruct (conv_heaptype _ _) eqn:E; cbn; [|done..]. intros [= <-]. by apply conv_heap_refs in E.
Qed.
Lemma conv_field_refs kinds f i : conv_fieldtype kinds f = Ok i → field_refs i = wp_field_refs f.
Proof.
  unfold conv_fieldtype, wp_field_refs. destruct (wf_element f) as [| |v]; cbn; try by intros [= <-].
  destruct (conv_valtype kinds v) eqn:E; cbn; [|done..]. intros [= <-]. by apply conv_val_refs in E.
Qed.
Lemma mapM_refs {A B} (f : A → res B) (ra : A → list Z) (rb : B → list Z) l k : (∀ x y, f x = Ok y → rb y = ra x) →
  mapM f l = Ok k → k ≫= rb = l ≫= ra.
Proof.
  intros Hf. revert k. induction l as [|x l IH]; intros k; cbn [mapM]; [by intros [= <-]|].
  destruct (f x) eqn:E; cbn [mbind result_bind]; [|done..]. destruct (mapM f l) eqn:El; cbn [mbind result_bind]; [|done..].
  intros [= <-]. cbn. by rewrite (Hf _ _ E), (IH _ eq_refl).
Qed.
Lemma conv_body_refs kinds b ib : conv_composite kinds b = Ok ib → body_refs ib = wp_body_refs b.
Proof.
  destruct b as [p r|fs|f|]; cbn [conv_composite]; unfold conv_valtypes; [| | |done].
  - destruct (mapM _ p) as [lp| |] eqn:Ep; cbn [mbind result_bind]; [|done..]. destruct (mapM _ r) as [lr| |] eqn:Er; cbn [mbind result_bind]; [|done..].
    intros [= <-]. cbn [body_refs wp_body_refs]. rewrite !bind_app.
    by rewrite (mapM_refs _ _ _ _ _ (conv_val_refs kinds) Ep), (mapM_refs _ _ _ _ _ (conv_val_refs kinds) Er).
  - destruct (mapM _ fs) as [l| |] eqn:E; cbn; [|done..]. intros [= <-]. cbn. by apply (mapM_refs _ _ _ _ _ (conv_field_refs kinds) E).
  - destruct (conv_fieldtype _ f) eqn:E; cbn; [|done..]. intros [= <-]. by apply conv_field_refs in E.
Qed.
Lemma conv_subtype_spec kinds g s t : conv_subtype kinds g s = Ok t →
  mt_group t = g ∧ mt_supertype t = wp_supertype s ∧ type_refs t = wp_type_refs s.
Proof.
  unfold conv_subtype. destruct (conv_composite _ _) eqn:E; cbn; [|done..]. intros [= <-]. apply conv_body_refs in E.
  split_and!; [done..|]. unfold type_refs, wp_type_refs, wp_supertype. cbn. by rewrite E.
Qed.

(** The types that a section adds, one for each raw type. *)
Definition converted (kinds : list AggKind) (raw : list (Z * WpSubType)) (ts : list ModuleType) : Prop :=
  Forall2 (λ p t, conv_subtype kinds (fst p) (snd p) = Ok t) raw ts.
Lemma push_types kinds raw : ∀ m m',
  for_each raw (λ '(g, sub), t ← lift (conv_subtype kinds g sub); modify (λ m, set_mi_types (mi_types m ++ [t]) m)) m = (Ok tt, m') →
  ∃ ts, mi_types m' = mi_types m ++ ts ∧ converted kinds raw ts.
Proof.
  induction raw as [|[g s] raw IH]; intros m m' Hrun.
  - injection Hrun as <-. exists []. rewrite app_nil_r. by split; [|constructor].
  - cbn [for_each] in Hrun. peel Hrun. destruct a. peel E. unfold modify in E. injection E as <-. destruct (IH _ _ Hrun) as (ts & Hts & Hc).
    exists (a :: ts). cbn in Hts. rewrite Hts, <- app_assoc. split; [done|]. by constructor.
Qed.
Lemma converted_ok kinds raw ts : converted kinds raw ts → types_valid raw → module_types_ok ts.
Proof.
  intros Hc Hv. assert (∀ i t, zget ts i = Some t → ∃ g s, zget raw i = Some (g, s) ∧ conv_subtype kinds g s = Ok t) as Hback.
  { intros i t Ht. unfold zget in *. destruct (0 <=? i); [|done]. destruct (Forall2_lookup_r _ _ _ _ _ Hc Ht) as ([g s] & Hp & Hs). by exists g, s. }
  assert (∀ j g s, zget raw j = Some (g, s) → ∃ u, zget ts j = Some u ∧ mt_group u = g) as Hfor.
  { intros j g s Hp. unfold zget in *. destruct (0 <=? j); [|done]. destruct (Forall2_lookup_l _ _ _ _ _ Hc Hp) as (u & Hu & Hs).
    exists u. split; [done|]. by apply conv_subtype_spec in Hs as (-> & _). }
  split.
  - intros i t h Ht Hh. destruct (Hback _ _ Ht) as (g & s & Hp & Hs). destruct (conv_subtype_spec _ _ _ _ Hs) as (-> & _ & Hr).
    rewrite Hr in Hh. destruct (proj1 (Hv _ _ _ Hp) _ Hh) as [H0 [|Hsib]]; (split; [done|]); [by left|]. right. intros j Hj.
    destruct (Hsib j Hj) as [s' Hs']. by apply (Hfor j g s').
  - intros i t p Ht Hp. destruct (Hback _ _ Ht) as (g & s & Hraw & Hs). destruct (conv_subtype_spec _ _ _ _ Hs) as (_ & Hsup & _).
    rewrite Hsup in Hp. by apply (Hv _ _ _ Hraw).
Qed.
Lemma parse_types_spec r m m' : parse_types r m = (Ok tt, m') → ∃ raw kinds ts,
  raw_types 0 r [] = Ok raw ∧ mi_types m' = mi_types m ++ ts ∧ converted kinds raw ts.
Proof.
  unfold parse_types. intros Hrun. peel Hrun. peel Hrun. destruct (push_types _ _ _ _ Hrun) as (ts & Hts & Hc). by exists a, a0, ts.
Qed.

(** The other sections leave the types alone, and the imports are counted. *)
Definition is_func_import (i : Import) : Prop := match im_kind i with ImpFunc _ => True | _ => False end.
Definition is_tag_import (i : Import) : Prop := match im_kind i with ImpTag _ => True | _ => False end.
#[export] Instance is_func_import_dec i : Decision (is_func_import i).
Proof. unfold is_func_import. destruct (im_kind i); apply _. Defined.
#[export] Instance is_tag_import_dec i : Decision (is_tag_import i).
Proof. unfold is_tag_import. destruct (im_kind i); apply _. Defined.
Definition counted (m : ModuleInner) : Prop :=
  mi_num_imported_funcs m = wrap 32 (zlen (filter is_func_import (mi_imports m))) ∧
  mi_num_imported_tags m = wrap 32 (zlen (filter is_tag_import (mi_imports m))).
Definition typed_as (ts : list ModuleType) (m : ModuleInner) : Prop := mi_types m = ts ∧ counted m.
Lemma wrap_succ a : wrap 32 (wrap 32 a + 1) = wrap 32 (a + 1).
Proof. unfold wrap. by rewrite Zplus_mod_idemp_l. Qed.
Lemma zlen_filter_snoc (P : Import → Prop) `{∀ x, Decision (P x)} l x :
  zlen (filter P (l ++ [x])) = zlen (filter P l) + if decide (P x) then 1 else 0.
Proof. rewrite filter_app, zlen_app, filter_cons, filter_nil. by destruct (decide (P x)). Qed.
Lemma push_import_typed ts imp : keeps (typed_as ts) (push_import imp).
Proof.
  intros m r m' [Hts [Hf Ht]] Hrun _. revert Hrun. unfold push_import. rewrite bind_unfold. cbn [get].
  destruct (wi_ty imp) as [t|ty|mt|gt|t|t].
  2: destruct (conv_tabletype (type_kinds m) ty). 6: destruct (conv_globaltype (type_kinds m) gt).
  all: intros [= <- <-]; split; [done|]; split; cbn; rewrite ?zlen_filter_snoc, ?Hf, ?Ht; cbn; rewrite ?Z.add_0_r, ?wrap_succ; done.
Qed.
Definition type_section (p : Payload) : option (list (res (list WpSubType))) := match p with TypeSection r => Some r | _ => None end.
Lemma decode_typed ts p : type_section p = None → keeps (typed_as ts) (decode_payload p).
Proof.
  assert (∀ f, (∀ m, mi_types (f m) = mi_types m ∧ mi_imports (f m) = mi_imports m ∧ mi_num_imported_funcs (f m) = mi_num_imported_funcs m ∧
    mi_num_imported_tags (f m) = mi_num_imported_tags m) → keeps (E:=error) (typed_as ts) (modify f)) as Hm.
  { intros f Hf. apply keeps_modify. intros m [Ht [H1 H2]]. destruct (Hf m) as (E1 & E2 & E3 & E4). unfold typed_as, counted. by rewrite E1, E2, E3, E4. }
  intros Hp. destruct p; try done; cbn [decode_payload]; unfold parse_imports, parse_functions, parse_tables, parse_memories, parse_globals,
    parse_tags, parse_exports, parse_elems, parse_datas; repeat first [apply push_import_typed | by apply Hm | keep_step].
Qed.
Lemma parse_types_counted r m res m' : counted m → parse_types r m = (res, m') → counted m'.
Proof.
  intros Hm Hrun. unfold parse_types in Hrun. rewrite !bind_unfold in Hrun. revert Hrun. unfold lift at 1.
  destruct (raw_types 0 r []) as [raw| |]; [|by intros [= _ <-]..]. rewrite bind_unfold. unfold lift at 1.
  destruct (mapM _ raw) as [kinds| |]; [|by intros [= _ <-]..].
  revert m Hm. induction raw as [|[g s] raw IH]; intros m Hm; cbn [for_each]; [by intros [= _ <-]|].
  rewrite !bind_unfold. unfold lift. destruct (conv_subtype kinds g s) as [t| |]; [|by intros [= _ <-]..]. unfold modify. by apply IH.
Qed.

(** ** The whole module *)
Section module_sound.
Context {R V VS FT : Type} `{BodyReader R, OpValidator R V, HostAlloc, WasmParser, WasmValidator R V VS FT}.

Definition type_sections (payloads : list (res Payload)) : list (list (res (list WpSubType))) :=
  omap (λ p, match p with Ok p => type_section p | _ => None end) payloads.
Lemma parse_payloads_spec payloads : ∀ validator m funcs bodies m' funcs' bodies' ts,
  parse_payloads payloads validator m funcs bodies = Ok (m', funcs', bodies') → typed_as ts m →
  ∃ ts', typed_as (ts ++ ts') m' ∧ (zlen funcs = zlen bodies → zlen funcs' = zlen bodies') ∧
    (type_sections payloads = [] → ts' = []) ∧
    ∀ r, type_sections payloads = [r] → ∃ raw kinds, raw_types 0 r [] = Ok raw ∧ converted kinds raw ts'.
Proof.
  induction payloads as [|p rest IH]; intros validator m funcs bodies m' funcs' bodies' ts Hrun Hm.
  - injection Hrun as <- <- <-. exists []. rewrite app_nil_r. split_and!; [done..|]. done.
  - cbn [parse_payloads] in Hrun. destruct p as [p| |]; cbn [mbind result_bind] in Hrun; [|done..].
    destruct (validate_payload p validator) as [[valid validator']| |]; cbn [mbind result_bind] in Hrun; [|done..].
    destruct (decode_payload p m) as [[[]| |] m1] eqn:Hd; [|done..].
    assert (∃ f b, (zlen funcs = zlen bodies → zlen f = zlen b) ∧ parse_payloads rest validator' m1 f b = Ok (m', funcs', bodies')) as (f & b & Hfb & Hrest).
    { destruct valid as [[f b]|]; [|by eauto]. eexists _, _. split; [|exact Hrun]. rewrite !zlen_app. by intros ->. }
    change (type_sections (Ok p :: rest)) with
      (match type_section p with Some r => r :: type_sections rest | None => type_sections rest end).
    destruct (type_section p) as [r|] eqn:Hp.
    + destruct p; try done. injection Hp as ->. cbn [decode_payload] in Hd.
      destruct (parse_types_spec _ _ _ Hd) as (raw & kinds & ts1 & Hraw & Hts & Hc).
      assert (typed_as (ts ++ ts1) m1) as Hm1.
      { destruct Hm as [Hts0 Hcount]. split; [by rewrite Hts, Hts0|]. by apply (parse_types_counted r m (Ok tt)). }
      destruct (IH _ _ _ _ _ _ _ _ Hrest Hm1) as (ts' & Hm' & Hlen & Hnil & _). exists (ts1 ++ ts'). rewrite app_assoc. split; [done|]. split; [by auto|]. split; [done|].
      intros r' [= <- Hn]. rewrite (Hnil Hn), app_nil_r. by exists raw, kinds.
    + pose proof (decode_typed ts p Hp _ _ _ Hm Hd ltac:(done)) as Hm1. destruct (IH _ _ _ _ _ _ _ _ Hrest Hm1) as (ts' & Hm' & Hlen & Hr). exists ts'. split; [done|]. by split; [auto|].
Qed.

Lemma compile_each_len ctx m retain bodies : ∀ i out c out' c',
  compile_each ctx m retain i bodies out c = (Ok out', c') → zlen out' = zlen out + zlen bodies.
Proof.
  induction bodies as [|[f body] rest IH]; intros i out c out' c' Hrun; [injection Hrun as <- <-; zlen_solve|].
  cbn [compile_each] in Hrun. peel Hrun. peel Hrun. rewrite (IH _ _ _ _ _ Hrun). zlen_solve.
Qed.

(** What the validator guarantees of a binary it accepts, and what the registry has left. *)
Definition guaranteed (limits : ModuleLimits) (bytes : list Z) (held : list Z) (tr : TypeRegistry) (m : ModuleInner)
    (bodies : list (FT * FunctionBody R)) : Prop :=
  (type_sections (parse_all bytes) = [] ∨ ∃ r, type_sections (parse_all bytes) = [r] ∧ ∀ raw, raw_types 0 r [] = Ok raw → types_valid raw) ∧
  room (zlen (mi_types m)) (zlen (mi_types m)) (2 * module_regs (mi_types m)) held tr ∧
  ∃ HV : ValidatorHeights R V (module_ctx limits m), bodies_start (module_ctx limits m) into_validator m 0 bodies.

(** C6: what [Module::new] makes of a binary that the validator accepts.  Refused or
    failed, at whatever point, it leaves the engine's type registry exactly as it was.
    Otherwise the binary is within the limit, the imports are counted, the registry is
    well-formed with the module's registrations and reads every type of the module back, and
    there is a function for each body, in order; if the code fits its spans, the spans of
    each function in the shared arenas hold code with consistent operand heights. *)
Theorem parse_module_sound keep_offsets bytes limits rank held tr r tr' :
  reg_wf rank held tr → ordered_registry tr →
  (∀ m funcs bodies, parse_payloads (parse_all bytes) new_validator empty_module [] [] = Ok (m, funcs, bodies) →
    guaranteed limits bytes held tr m (zip funcs bodies)) →
  parse_module keep_offsets bytes limits tr = (r, tr') →
  match r with
  | Ok (m, groups) =>
      zlen bytes ≤ ml_max_module_bytes limits ∧ counted m ∧
      (∃ rank', reg_wf rank' (groups ++ held) tr' ∧ ordered_registry tr' ∧ extends tr tr') ∧
      zlen (mi_type_ids m) = zlen (mi_types m) ∧
      (∀ i t, zget (mi_types m) i = Some t → ∃ id ty, zget (mi_type_ids m) i = Some id ∧ registered_type tr' id = Some ty ∧
        canonical_type (mi_type_ids m) t = Ok ty ∧ reads_as (mi_type_ids m) tr' id (mt_body t)) ∧
      (∀ m0 funcs bodies, parse_payloads (parse_all bytes) new_validator empty_module [] [] = Ok (m0, funcs, bodies) →
        zlen (mi_functions m) = zlen bodies) ∧
      (addressable (mi_code m) → ∀ k cf, zget (mi_functions m) k = Some cf →
        ∃ ty, zget (mi_func_types m) (mi_num_imported_funcs m + k) = Some ty ∧ compiled_function (module_ctx limits m) (mi_code m) ty cf)
  | Err _ | Panic _ => tr' = tr
  end.
Proof.
  intros Hreg Hord Hvalid. unfold parse_module. destruct (Z.ltb_spec (ml_max_module_bytes limits) (zlen bytes)) as [|Hsize]; [by intros [= <- <-]|].
  destruct (parse_payloads (parse_all bytes) new_validator empty_module [] []) as [[[m funcs] bodies]| |] eqn:Hparse;
    rewrite bind_unfold; unfold lift at 1; [|by intros [= <- <-]..].
  destruct (Hvalid _ _ _ eq_refl) as (Htypes & Hroom & HV & Hbodies). clear Hvalid.
  destruct (compile_bodies m funcs bodies keep_offsets limits) as [[functions code]| |] eqn:Hcomp;
    rewrite bind_unfold; unfold lift at 1; [|by intros [= <- <-]..]. cbv zeta.
  destruct (parse_payloads_spec _ _ _ _ _ _ _ _ [] Hparse) as (ts & [Hts Hcount] & Hsame & Hnil & Hone); [by split|]. cbn in Hts.
  assert (module_types_ok (mi_types m)) as Hok.
  { rewrite Hts. destruct Htypes as [H0'|(r0 & Hr & Hv)].
    - rewrite (Hnil H0'). split; intros i t *; by rewrite zget_nil.
    - destruct (Hone _ Hr) as (raw & kinds & Hraw & Hc). by apply (converted_ok kinds raw); [|apply Hv]. }
  destruct (intern_module_spec rank held tr _ Hreg Hord Hok Hroom) as (ids & gs & tr1 & rank' & Hint & Hlen & Hw & Ho & He & _ & Hback).
  rewrite bind_unfold. change (mi_types (set_mi_bodies functions code m)) with (mi_types m). rewrite Hint. intros [= <- <-].
  unfold compile_bodies in Hcomp. destruct (compile_each _ _ _ _ _ _ _) as [[out| |] code'] eqn:Hrun; try done. injection Hcomp as -> ->.
  split_and!; [done|exact Hcount|by exists rank'|exact Hlen|exact Hback| |].
  { intros ? ? ? [= <- <- <-]. cbn. rewrite (compile_each_len _ _ _ _ _ _ _ _ _ Hrun), zlen_nil. rewrite <- (Hsame eq_refl) at 1.
    unfold zlen in *. rewrite length_zip_with. specialize (Hsame eq_refl). lia. }
  intros Hs k cf Hk.
  destruct (compile_each_spec limits m keep_offsets _ _ _ _ _ _ Hrun Hs Hbodies) as (_ & cfs & -> & _ & Hc).
  exact (Hc k cf Hk).
Qed.
End module_sound.

(** ** A module parsed *)
Module ParseSample.
Import Validated.Sample.
Definition sub (params results : list WpVal) : WpSubType :=
  {| ws_is_final := true; ws_supertype_idx := None; ws_composite := WcFunc params results |}.
Definition limits : ModuleLimits := {| ml_max_module_bytes := 1024; ml_max_expanded_locals := 100 |}.
Definition payloads : list (res Payload) := Ok <$> [
  TypeSection [Ok [sub [] [WvI32]; sub [WvI32] []; sub [] []]];
  FunctionSection [Ok 0; Ok 1; Ok 2];
  TagSection [Ok 1];
  GlobalSection [Ok {| wg_ty := {| wgt_content := WvI32; wgt_mutable := true |};
    wg_init_expr := [Ok (WCore (VI32Const 7)); Ok (WStructural VEnd)] |}];
  ExportSection [Ok {| we_name := "f"; we_kind := EkFunc; we_index := 0 |}];
  CodeSectionStart 0; CodeSectionEntry; CodeSectionEntry; CodeSectionEntry].
Definition empty_body : FunctionBody (list Operator) := {| fb_locals := Ok []; fb_operators := Ok [WStructural VEnd] |}.
#[export] Instance sample_parser : WasmParser := λ _, payloads.
(** The validator's state is the bodies to come. *)
#[export] Instance sample_validator : WasmValidator (list Operator) VState (list (VState * FunctionBody (list Operator))) VState := {|
  new_validator := [(v_init 1, body); (v_init 0, empty_body); (v_init 0, empty_body)];
  validate_payload := λ p vs, match p, vs with CodeSectionEntry, e :: vs' => Ok (Some e, vs') | _, _ => Ok (None, vs) end;
  into_validator := λ f, f;
  validate_all := λ _, Ok tt;
|}.
Definition parsed : res (ModuleInner * list VState * list (FunctionBody (list Operator))) :=
  Eval vm_compute in parse_payloads (parse_all []) new_validator empty_module [] [].
Lemma parses : parse_payloads (parse_all []) new_validator empty_module [] [] = parsed.
Proof. vm_compute. reflexivity. Qed.
Definition made : ModuleInner := Eval vm_compute in
  match (parse_module false [] limits registry_default).1 with Ok (m, _) => m | _ => empty_module end.
Definition groups : list Z := Eval vm_compute in match (parse_module false [] limits registry_default).1 with Ok (_, gs) => gs | _ => [] end.
Definition registry : TypeRegistry := Eval vm_compute in (parse_module false [] limits registry_default).2.
Lemma makes : parse_module false [] limits registry_default = (Ok (made, groups), registry).
Proof. vm_compute. reflexivity. Qed.
Definition first : CompiledFunc := Eval vm_compute in
  match zget (mi_functions made) 0 with Some cf => cf | None => {| cf_ops := {| sp_start := 0; sp_len := 0 |}; cf_type_idx := 0;
    cf_n_params := 0; cf_n_results := 0; cf_local_types := {| sp_start := 0; sp_len := 0 |}; cf_max_operands := 0;
    cf_handlers := {| sp_start := 0; sp_len := 0 |}; cf_br_tables := {| sp_start := 0; sp_len := 0 |};
    cf_big_memargs := {| sp_start := 0; sp_len := 0 |}; cf_offsets := {| sp_start := 0; sp_len := 0 |} |} end.
Lemma sample_guaranteed m funcs bodies :
  parse_payloads (parse_all []) new_validator empty_module [] [] = Ok (m, funcs, bodies) →
  guaranteed limits [] [] registry_default m (zip funcs bodies).
Proof.
  rewrite parses. unfold parsed. intros [= <- <- <-]. split; [|split].
  - right. eexists. split; [reflexivity|]. intros raw [= <-] i g s Hi. pose proof (zget_Some _ _ _ Hi) as Hr. unfold zlen in Hr; cbn in Hr.
    assert (i = 0 ∨ i = 1 ∨ i = 2) as [->|[->| ->]] by lia; injection Hi as <- <-; (split; [|done]); intros h Hh; cbn in Hh; set_solver.
  - split; vm_compute; congruence.
  - exists validator_heights. intros k f b ty Hk Ht. pose proof (zget_Some _ _ _ Hk) as Hr. unfold zlen in Hr; cbn in Hr.
    assert (k = 0 ∨ k = 1 ∨ k = 2) as [->|[->| ->]] by lia; injection Hk as <- <-; injection Ht as <-; by eexists _, _.
Qed.
End ParseSample.

Lemma parse_module_sound_witness :
  zlen (mi_functions ParseSample.made) = 3 ∧
  (∃ rank, reg_wf rank (ParseSample.groups ++ []) ParseSample.registry ∧ ordered_registry ParseSample.registry ∧
    extends registry_default ParseSample.registry) ∧
  ∃ ty, zget (mi_func_types ParseSample.made) 0 = Some ty ∧
    compiled_function (module_ctx ParseSample.limits ParseSample.made) (mi_code ParseSample.made) ty ParseSample.first.
Proof.
  destruct (parse_module_sound false [] ParseSample.limits (λ _, 0) [] registry_default _ _ reg_wf_default ordered_default
    ParseSample.sample_guaranteed ParseSample.makes) as (_ & _ & Hreg & _ & _ & Hlen & Hfun).
  split; [exact (Hlen _ _ _ ParseSample.parses)|]. split; [exact Hreg|].
  apply (Hfun ltac:(split_and!; vm_compute; reflexivity) 0 ParseSample.first). reflexivity.
Defined.
