(* ===== verification/Moves.v ===== *)
(** * Moves: how far the machine's methods move the operand stack (lemmas for Executed.v)

    [moves d m]: a run of [m] that returns leaves the frames alone and changes the operand
    height by [d]; [runs] and [vruns] let the change depend on what was returned.  The
    instructions that fall through move the stack as [op_effect] says. *)
From S2P Require Import Prelude Keep Types Layout Codec Arena Heap Op Entity Store Collect Stack Frame Float Numeric Limits Memory Simd Reserve GcOps Exn Step StackInv Compile Lowering Heights.
Open Scope Z_scope.

(** ** How far a method moves the operand stack *)
Lemma ok_or_Ok {A} (x : option A) (e : error) a : ok_or x e = Ok a → x = Some a.
Proof. destruct x; [by intros [= ->]|done]. Qed.
Lemma expect_Ok {A} (x : option A) w (a : A) : expect (E:=error) x w = Ok a → x = Some a.
Proof. destruct x; [by intros [= ->]|done]. Qed.

Section moves.
Context `{Features}.

Definition floored (ex : Execution) : Prop := ∀ f, last (ex_frames ex) = Some f → 0 ≤ fr_operand_base f.
(** Every run that returns moves the stack as [R] says, within the frame. *)
Definition runs {A} (m : SM Execution A) (R : A → Z → Prop) : Prop :=
  ∀ ex a ex', floored ex → m ex = (Ok a, ex') →
    ex_frames ex' = ex_frames ex ∧ ∃ d, zlen (ex_values ex') = zlen (ex_values ex) + d ∧ R a d.
Definition moves {A} (d : Z) (m : SM Execution A) : Prop := runs m (λ _ d', d' = d).

Lemma runs_bind {A B} (m : SM Execution A) (f : A → SM Execution B) d R :
  moves d m → (∀ a, runs (f a) (λ b d', R b (d + d'))) → runs (m ≫= f) R.
Proof.
  intros Hm Hf ex b ex' Hx (a & ex1 & Ha & Hb)%bind_Ok. destruct (Hm _ _ _ Hx Ha) as (Hfr & d1 & Hl & ->).
  assert (floored ex1) as Hx1 by (unfold floored; by rewrite Hfr). destruct (Hf a _ _ _ Hx1 Hb) as (Hfr' & d2 & Hl' & Hr).
  split; [congruence|]. exists (d + d2). split; [lia|done].
Qed.
Lemma runs_skip {A B} (m : SM Execution A) (f : A → SM Execution B) R :
  (∀ ex a ex', m ex = (Ok a, ex') → ex' = ex) → (∀ a, runs (f a) R) → runs (m ≫= f) R.
Proof. intros Hm Hf ex b ex' Hx (a & ex1 & Ha & Hb)%bind_Ok. apply Hm in Ha as ->. by eapply Hf. Qed.
Lemma runs_ret {A} (a : A) (R : A → Z → Prop) : R a 0 → runs (mret a) R.
Proof. intros Ha ex b ex' _ [= <- <-]. split; [done|]. exists 0. split; [lia|done]. Qed.
Lemma runs_fail {A} e (R : A → Z → Prop) : runs (fail e) R.
Proof. by intros ex a ex' _ [=]. Qed.
Lemma runs_panic {A} w (R : A → Z → Prop) : runs (panic w) R.
Proof. by intros ex a ex' _ [=]. Qed.
Lemma runs_lift {A} (x : res A) (R : A → Z → Prop) : (∀ a, x = Ok a → R a 0) → runs (lift x) R.
Proof. intros Hx ex a ex' _ [= Ha <-]. split; [done|]. exists 0. split; [lia|by apply Hx]. Qed.
Lemma runs_weaken {A} (m : SM Execution A) (R R' : A → Z → Prop) : runs m R → (∀ a d, R a d → R' a d) → runs m R'.
Proof. intros Hm HR ex a ex' Hx Ha. destruct (Hm _ _ _ Hx Ha) as (? & d & ? & ?). eauto. Qed.
Lemma runs_bind_lift {A B} (x : res A) (f : A → SM Execution B) R : (∀ a, x = Ok a → runs (f a) R) → runs (lift x ≫= f) R.
Proof. intros Hf ex b ex' Hx (a & ex1 & [= Ha <-] & Hb)%bind_Ok. by eapply (Hf a Ha). Qed.
Lemma runs_moves {A} d (m : SM Execution A) (R : A → Z → Prop) : moves d m → (∀ a, R a d) → runs m R.
Proof. intros Hm HR ex a ex' Hx Ha. destruct (Hm _ _ _ Hx Ha) as (? & d' & ? & ->). eauto. Qed.
Lemma skip_lift {A} (x : res A) (ex : Execution) a ex' : lift x ex = (Ok a, ex') → ex' = ex.
Proof. by intros [= _ <-]. Qed.
Lemma skip_reads {A} (g : Execution → res A) ex a ex' : reads g ex = (Ok a, ex') → ex' = ex.
Proof. by intros [= _ <-]. Qed.
Lemma skip_get (ex : Execution) a ex' : get (E:=error) ex = (Ok a, ex') → ex' = ex.
Proof. by intros [= _ <-]. Qed.

(** A method that takes the [k] operands above [base]. *)
Definition drops {A} (base : Z) (m : SM Execution A) : Prop := ∀ ex a ex', m ex = (Ok a, ex') → ex' = stack_truncate base ex.
Lemma ensure_base k ex base : floored ex → 0 ≤ k → ensure_operands k ex = Ok base →
  0 ≤ base ∧ base = zlen (ex_values ex) - k.
Proof.
  intros Hx Hk. unfold ensure_operands, operand_floor. destruct (negb _); [done|].
  destruct (last (ex_frames ex)) as [f|] eqn:Hf; [|done]. cbn. unfold checked_sub.
  destruct (Z.leb_spec (fr_operand_base f) (zlen (ex_values ex))); [|done]. cbn.
  destruct (Z.ltb_spec (zlen (ex_values ex) - fr_operand_base f) k); [done|]. intros [= <-]. specialize (Hx f Hf). lia.
Qed.
Lemma truncate_moves ex base k : floored ex → 0 ≤ k → ensure_operands k ex = Ok base →
  ex_frames (stack_truncate base ex) = ex_frames ex ∧ zlen (ex_values (stack_truncate base ex)) = zlen (ex_values ex) - k.
Proof.
  intros Hx Hk Hb. destruct (ensure_base k ex base Hx Hk Hb) as [H0 Heq]. split; [done|]. rewrite zlen_truncate by lia. lia.
Qed.
Lemma moves_ensure {A} k (f : Z → SM Execution A) : 0 ≤ k → (∀ base, drops base (f base)) →
  moves (- k) (base ← reads (ensure_operands k); f base).
Proof.
  intros Hk Hf ex a ex' Hx (base & ex1 & Hb & Ha)%bind_Ok. injection Hb as Hb <-. apply Hf in Ha as ->.
  destruct (truncate_moves ex base k Hx Hk Hb) as [? ->]. split; [done|]. exists (- k). split; [lia|done].
Qed.
Lemma moves_ensure_scalar {A} k (f : Z → SM Execution A) : 0 ≤ k → (∀ base, drops base (f base)) →
  moves (- k) (base ← reads (ensure_scalar_operands k); f base).
Proof.
  intros Hk Hf ex a ex' Hx (base & ex1 & Hb & Ha)%bind_Ok. injection Hb as Hb <-. apply Hf in Ha as ->.
  destruct (truncate_moves ex base k Hx Hk (ensure_scalar_ensure _ _ _ Hb)) as [? ->]. split; [done|]. exists (- k). split; [lia|done].
Qed.
Lemma drops_reads {A B} base (g : Execution → res A) (f : A → SM Execution B) :
  (∀ a, drops base (f a)) → drops base (reads g ≫= f).
Proof. intros Hf ex b ex' (a & ex1 & Ha & Hb)%bind_Ok. apply skip_reads in Ha as ->. by eapply Hf. Qed.
Lemma drops_lift {A B} base (x : res A) (f : A → SM Execution B) : (∀ a, drops base (f a)) → drops base (lift x ≫= f).
Proof. intros Hf ex b ex' (a & ex1 & Ha & Hb)%bind_Ok. apply skip_lift in Ha as ->. by eapply Hf. Qed.
Lemma drops_get {B} base (f : Execution → SM Execution B) : (∀ a, drops base (f a)) → drops base (get ≫= f).
Proof. intros Hf ex b ex' (a & ex1 & Ha & Hb)%bind_Ok. apply skip_get in Ha as ->. by eapply Hf. Qed.
Lemma drops_commit {A} base (a : A) : drops base (modify (stack_truncate base);; mret a).
Proof. intros ex b ex'. rewrite modify_run. by intros [= _ <-]. Qed.
Lemma drops_fail {A} base e : drops base (fail (A:=A) e).
Proof. by intros ex a ex' [=]. Qed.
Ltac drop :=
  repeat lazymatch goal with
  | |- drops _ (mbind _ (reads _)) => apply drops_reads; intros ?
  | |- drops _ (mbind _ (lift _)) => apply drops_lift; intros ?
  | |- drops _ (mbind _ get) => apply drops_get; intros ?
  | |- drops _ (mbind _ (modify _)) => apply drops_commit
  | |- drops _ (fail _) => apply drops_fail
  | |- drops _ (let _ := _ in _) => cbv zeta
  | |- drops _ (if ?b then _ else _) => destruct b
  | |- drops _ (match ?x with _ => _ end) => destruct x
  end.

Lemma moves_pop_scalar : moves (-1) pop_scalar.
Proof. apply (moves_ensure_scalar 1); [done|]. intros base. drop. Qed.
Lemma moves_pop : moves (-1) pop.
Proof. apply (moves_ensure 1); [done|]. intros base. drop. Qed.
Lemma moves_pop_tagged : moves (-1) pop_tagged.
Proof. apply (moves_ensure 1); [done|]. intros base. drop. Qed.
Lemma moves_pop_tagged_ref : moves (-1) pop_tagged_ref.
Proof. apply (moves_ensure 1); [done|]. intros base. drop. Qed.
Lemma moves_pop_typed ty : moves (-1) (pop_typed ty).
Proof. apply (moves_ensure 1); [done|]. intros base. drop. Qed.
Lemma moves_pop_select : moves (-3) pop_select.
Proof. apply (moves_ensure 3); [done|]. intros base. drop. Qed.
Lemma moves_pop_i32_pair : moves (-2) pop_i32_pair.
Proof. apply (moves_ensure_scalar 2); [done|]. intros base. drop. Qed.
Lemma moves_pop_params tys : moves (- zlen tys) (pop_params tys).
Proof. apply moves_ensure; [apply zlen_nonneg|]. intros base. drop. Qed.

Lemma moves_push_cell c t : moves 1 (modify (push_cell c t)).
Proof. intros ex a ex' _ [= _ <-]. split; [done|]. exists 1. cbn. rewrite zlen_app, zlen_cons, zlen_nil. split; [lia|done]. Qed.
Lemma moves_push_scalar b : moves 1 (modify (push_scalar b)).
Proof. apply moves_push_cell. Qed.
Lemma moves_push v : moves 1 (push v).
Proof.
  intros ex a ex' _. unfold push. rewrite modify_run, bind_unfold. unfold lift, modify.
  destruct (encode v) as [c| |]; [|by intros [=]..]. intros [= _ <-]. split; [done|]. exists 1. cbn.
  rewrite zlen_app, zlen_cons, zlen_nil. split; [lia|done].
Qed.
Lemma set_value_keeps i c ex u ex' : set_value i c ex = (Ok u, ex') →
  zlen (ex_values ex') = zlen (ex_values ex) ∧ ex_frames ex' = ex_frames ex.
Proof. unfold set_value. destruct (zset _ _ _) as [vs|] eqn:Hz; [|done]. intros [= _ <-]. apply zset_Some in Hz as [_ ->]. cbn [ex_values set_ex_values ex_frames]. by rewrite zlen_insert. Qed.
Lemma set_tag_keeps i t ex u ex' : set_tag i t ex = (Ok u, ex') →
  zlen (ex_values ex') = zlen (ex_values ex) ∧ ex_frames ex' = ex_frames ex.
Proof. unfold set_tag. destruct (zset _ _ _); [|done]. by intros [= _ <-]. Qed.
Lemma moves_set_value i c : moves 0 (set_value i c).
Proof. intros ex a ex' _ [? ?]%set_value_keeps. split; [done|]. exists 0. split; [lia|done]. Qed.
Lemma moves_set_tag i t : moves 0 (set_tag i t).
Proof. intros ex a ex' _ [? ?]%set_tag_keeps. split; [done|]. exists 0. split; [lia|done]. Qed.
Lemma moves_set_cell i c t : moves 0 (set_cell i c t).
Proof.
  intros ex a ex' Hx. unfold set_cell. destruct (_ || _); [done|].
  apply (runs_bind (set_value i c) (λ _, set_tag i t) 0 (λ _ d', d' = 0)); [apply moves_set_value|intros _; apply moves_set_tag|done].
Qed.

(** Arithmetic in place: [k] operands become one. *)
Lemma replace_moves k ex base c u ex' : floored ex → 1 ≤ k → ensure_operands k ex = Ok base →
  (set_value base c;; modify (stack_truncate (base + 1))) ex = (Ok u, ex') →
  ex_frames ex' = ex_frames ex ∧ ∃ d, zlen (ex_values ex') = zlen (ex_values ex) + d ∧ d = 1 - k.
Proof.
  intros Hx Hk Hb (u1 & ex1 & Hs & Ht)%bind_Ok. apply set_value_keeps in Hs as [Hl Hf]. injection Ht as _ <-.
  destruct (ensure_base k ex base Hx ltac:(lia) Hb) as [H0 ->]. rewrite zlen_truncate by lia. split; [done|]. exists (1 - k). split; [lia|done].
Qed.
Lemma moves_binop f : moves (-1) (binop_cells f).
Proof.
  intros ex a ex' Hx (base & ex1 & Hb & Ha)%bind_Ok. injection Hb as Hb%ensure_scalar_ensure <-. cbv zeta in Ha.
  apply bind_Ok in Ha as (x & ex2 & E1 & Ha). apply skip_reads in E1 as ->. apply bind_Ok in Ha as (y & ex3 & E2 & Ha). apply skip_reads in E2 as ->.
  replace (base + 2 - 2) with base in Ha by lia. replace (base + 2 - 1) with (base + 1) in Ha by lia. by eapply (replace_moves 2) in Ha.
Qed.
Lemma moves_binop_try f : moves (-1) (binop_cells_try f).
Proof.
  intros ex a ex' Hx (base & ex1 & Hb & Ha)%bind_Ok. injection Hb as Hb%ensure_scalar_ensure <-. cbv zeta in Ha.
  apply bind_Ok in Ha as (x & ex2 & E1 & Ha). apply skip_reads in E1 as ->. apply bind_Ok in Ha as (y & ex3 & E2 & Ha). apply skip_reads in E2 as ->.
  apply bind_Ok in Ha as (z & ex4 & E3 & Ha). apply skip_lift in E3 as ->.
  replace (base + 2 - 2) with base in Ha by lia. replace (base + 2 - 1) with (base + 1) in Ha by lia. by eapply (replace_moves 2) in Ha.
Qed.
Lemma moves_unop f : moves 0 (unop_cell f).
Proof.
  intros ex a ex' Hx (base & ex1 & Hb & Ha)%bind_Ok. injection Hb as Hb <-. cbv zeta in Ha.
  apply bind_Ok in Ha as (x & ex2 & E1 & Ha). apply skip_reads in E1 as ->. by apply (moves_set_value _ _ _ _ _ Hx Ha).
Qed.

(** A branch drops the operands of its fix-up. *)
Lemma zlen_copy_within {A} (l l' : list A) a b d : zcopy_within l a b d = Some l' → zlen l' = zlen l.
Proof.
  unfold zcopy_within. destruct (zslice l a b) as [s|]; [|done]. cbn. apply zlen_splice.
Qed.
Lemma moves_take_branch t : 0 ≤ bt_keep t → 0 ≤ bt_pop t → moves (- bt_pop t) (take_branch t).
Proof.
  intros Hk Hp ex a ex' Hx. unfold take_branch. rewrite get_run.
  destruct (negb _); [done|]. intros (needed & ex1 & E & Hr)%bind_Ok. apply skip_lift in E as E'. subst ex1.
  unfold checked_add in E. destruct (bt_keep t + bt_pop t <? 2 ^ 64); [|done]. injection E as <-.
  apply bind_Ok in Hr as (f & ex1 & E & Hr). apply skip_lift in E as E'. subst ex1.
  destruct (last (ex_frames ex)) as [f'|] eqn:Hf; [|done]. injection E as <-. specialize (Hx f' Hf). unfold checked_sub in Hr.
  destruct (Z.leb_spec (fr_operand_base f') (zlen (ex_values ex))); [|done].
  destruct (Z.ltb_spec (zlen (ex_values ex) - fr_operand_base f') (bt_keep t + bt_pop t)); [done|].
  unfold slide_down in Hr. destruct (zcopy_within (ex_values ex) _ _ _) as [vs|] eqn:Hvs; [|done].
  destruct (zcopy_within (ex_shadow ex) _ _ _); [|done]. injection Hr as _ <-.
  apply zlen_copy_within in Hvs. split; [done|]. exists (- bt_pop t). rewrite zlen_truncate; cbn [set_ex_shadow set_ex_values ex_values]; [|lia]. split; [lia|done].
Qed.
End moves.
Create HintDb moves discriminated.
#[export] Hint Resolve moves_pop_scalar moves_pop moves_pop_tagged moves_pop_tagged_ref moves_pop_typed moves_pop_select
  moves_pop_i32_pair moves_pop_params moves_push_cell moves_push_scalar moves_push moves_set_value moves_set_tag moves_set_cell
  moves_binop moves_binop_try moves_unop : moves.
#[export] Hint Extern 1 (moves _ (modify (push_i32 _))) => apply moves_push_scalar : moves.
#[export] Hint Extern 1 (moves _ (modify (push_i64 _))) => apply moves_push_scalar : moves.
#[export] Hint Extern 1 (moves _ (modify (push_f32 _))) => apply moves_push_scalar : moves.
#[export] Hint Extern 1 (moves _ (modify (push_f64 _))) => apply moves_push_scalar : moves.

Ltac mv_step :=
  lazymatch goal with
  | |- moves _ _ => unfold moves; cbv beta
  | |- ∀ _, _ => intros ?
  | |- runs (mbind _ (lift _)) _ => apply runs_skip; [by apply skip_lift|intros ?]
  | |- runs (mbind _ (reads _)) _ => apply runs_skip; [by apply skip_reads|intros ?]
  | |- runs (mbind _ get) _ => apply runs_skip; [by apply skip_get|intros ?]
  | |- runs (mbind _ _) _ => eapply runs_bind; [solve [eauto 2 with moves nocore]|intros ?; cbv beta]
  | |- runs (mret _) _ => apply runs_ret
  | |- runs (fail _) _ => apply runs_fail
  | |- runs (panic _) _ => apply runs_panic
  | |- runs (lift _) _ => apply runs_lift; intros ? _
  | |- runs (let '(_, _) := ?x in _) _ => destruct x
  | |- runs (let _ := _ in _) _ => cbv zeta
  | |- runs (if ?b then _ else _) _ => destruct b
  | |- runs (match ?x with _ => _ end) _ => destruct x
  | |- runs _ _ => eapply runs_moves; [solve [eauto 2 with moves nocore]|intros ?; cbv beta]
  | |- _ => solve [lia]
  end.
Ltac mv := repeat mv_step.

Section pops.
Context `{Features}.
Lemma moves_pop_i32 : moves (-1) pop_i32.
Proof. unfold pop_i32. mv. Qed.
Lemma moves_pop_i64 : moves (-1) pop_i64.
Proof. unfold pop_i64. mv. Qed.
Lemma moves_pop_f32 : moves (-1) pop_f32.
Proof. unfold pop_f32. mv. Qed.
Lemma moves_pop_f64 : moves (-1) pop_f64.
Proof. unfold pop_f64. mv. Qed.
Lemma moves_pop_index b : moves (-1) (pop_index b).
Proof. unfold pop_index. mv. Qed.
Lemma moves_push_index b v : moves 1 (push_index b v).
Proof. unfold push_index. mv. Qed.
Lemma moves_pop_ref k : moves (-1) (pop_ref k).
Proof. unfold pop_ref. mv. Qed.
Lemma moves_pop_val_for s : moves (-1) (pop_val_for s).
Proof. unfold pop_val_for. mv. Qed.
Lemma moves_map {A B} d (m : SM Execution A) (f : A → B) : moves d m → moves d (x ← m; mret (f x)).
Proof. intros Hm. eapply runs_bind; [exact Hm|]. mv. Qed.
End pops.
#[export] Hint Resolve moves_map moves_pop_i32 moves_pop_i64 moves_pop_f32 moves_pop_f64 moves_pop_index moves_push_index moves_pop_ref
  moves_pop_val_for : moves.
Section derived.
Context `{Features}.
Lemma moves_pop_u32 : moves (-1) pop_u32.
Proof. unfold pop_u32. mv. Qed.
Lemma moves_pop_anyref : moves (-1) pop_anyref.
Proof. unfold pop_anyref. mv. Qed.
Lemma moves_pop_fields slots data : moves (- zlen slots) (pop_fields slots data).
Proof. revert data. induction slots as [|s slots IH]; intros data; cbn [pop_fields]; mv; rewrite ?zlen_cons; [done|lia]. Qed.
Lemma moves_pop_elems l k data : moves (- Z.of_nat k) (pop_elems l k data).
Proof. revert data. induction k as [|k IH]; intros data; cbn [pop_elems]; cbv zeta; mv. Qed.
Lemma moves_mem_ea k e o : moves (-1) (mem_ea k e o).
Proof. unfold mem_ea. mv. Qed.
Lemma moves_numeric `{FloatHost} ctx op m e : exec_numeric op = Some m → op_effect ctx op = Some e → moves (e.2 - e.1) m.
Proof.
  intros Hm He. destruct op; try discriminate Hm; injection Hm as <-; injection He as <-; cbn [fst snd]; mv.
  all: unfold trunc_to_i32, trunc64_to_i32, trunc_to_i64, trunc64_to_i64, map_f32_i32, map_f64_i32, map_f32_i64, map_f64_i64,
    map_i32_f32, map_i64_f32, map_f64_f32, map_i32_f64, map_i64_f64, map_f32_f64; mv.
Qed.
End derived.
#[export] Hint Resolve moves_pop_u32 moves_pop_anyref moves_pop_fields moves_pop_elems moves_mem_ea : moves.

(** ** The machine *)
Section machine.
Context `{Features}.

Definition vat {A} (v : Vm) (m : SM Vm A) (R : A → Z → Prop) : Prop := ∀ a v', m v = (Ok a, v') →
  ex_frames (vm_ex v') = ex_frames (vm_ex v) ∧ ∃ d, zlen (ex_values (vm_ex v')) = zlen (ex_values (vm_ex v)) + d ∧ R a d.
Definition vruns {A} (m : SM Vm A) (R : A → Z → Prop) : Prop := ∀ v a v', floored (vm_ex v) → m v = (Ok a, v') →
  ex_frames (vm_ex v') = ex_frames (vm_ex v) ∧ ∃ d, zlen (ex_values (vm_ex v')) = zlen (ex_values (vm_ex v)) + d ∧ R a d.
Definition vmoves {A} (d : Z) (m : SM Vm A) : Prop := vruns m (λ _ d', d' = d).
Lemma vruns_bind {A B} (m : SM Vm A) (f : A → SM Vm B) d R :
  vmoves d m → (∀ a, vruns (f a) (λ b d', R b (d + d'))) → vruns (m ≫= f) R.
Proof.
  intros Hm Hf v b v' Hx (a & v1 & Ha & Hb)%bind_Ok. destruct (Hm _ _ _ Hx Ha) as (Hfr & d1 & Hl & ->).
  assert (floored (vm_ex v1)) as Hx1 by (unfold floored; by rewrite Hfr). destruct (Hf a _ _ _ Hx1 Hb) as (Hfr' & d2 & Hl' & Hr).
  split; [congruence|]. exists (d + d2). split; [lia|done].
Qed.
Lemma vruns_on_ex {A} (m : SM Execution A) R : runs m R → vruns (on_ex m) R.
Proof.
  intros Hm v a v' Hx Ha. unfold on_ex, zoom in Ha. destruct (m (vm_ex v)) as [r ex'] eqn:Hr. injection Ha as -> <-.
  by apply (Hm (vm_ex v)).
Qed.
Lemma vruns_bind_ex {A B} (m : SM Execution A) (f : A → SM Vm B) d R :
  moves d m → (∀ a, vruns (f a) (λ b d', R b (d + d'))) → vruns (on_ex m ≫= f) R.
Proof. intros Hm. apply vruns_bind. by apply vruns_on_ex. Qed.
Lemma vmoves_store {A} (m : SM StoreInner A) : vmoves 0 (on_store m).
Proof.
  intros v a v' _ Ha. unfold on_store, zoom in Ha. destruct (m (vm_store v)) as [r s']. injection Ha as _ <-.
  split; [done|]. exists 0. split; [cbn; lia|done].
Qed.
Lemma vruns_skip {A B} (m : SM Vm A) (f : A → SM Vm B) R :
  (∀ v a v', m v = (Ok a, v') → v' = v) → (∀ a, vruns (f a) R) → vruns (m ≫= f) R.
Proof. intros Hm Hf v b v' Hx (a & v1 & Ha & Hb)%bind_Ok. apply Hm in Ha as ->. by eapply Hf. Qed.
Lemma vskip_lift {A} (x : res A) (v : Vm) a v' : lift x v = (Ok a, v') → v' = v.
Proof. by intros [= _ <-]. Qed.
Lemma vskip_reads {A} (g : Vm → res A) v a v' : reads g v = (Ok a, v') → v' = v.
Proof. by intros [= _ <-]. Qed.
Lemma vskip_ask {A} (g : StoreInner → res A) v a v' : ask g v = (Ok a, v') → v' = v.
Proof. by intros [= _ <-]. Qed.
Lemma vskip_get (v : Vm) a v' : get (E:=error) v = (Ok a, v') → v' = v.
Proof. by intros [= _ <-]. Qed.
Lemma vruns_ret {A} (a : A) (R : A → Z → Prop) : R a 0 → vruns (mret a) R.
Proof. intros Ha v b v' _ [= <- <-]. split; [done|]. exists 0. split; [lia|done]. Qed.
Lemma vmoves_ret {A} (a : A) : vmoves 0 (mret a).
Proof. by apply vruns_ret. Qed.
Lemma vruns_fail {A} e (R : A → Z → Prop) : vruns (fail e) R.
Proof. by intros ex a ex' _ [=]. Qed.
Lemma vruns_panic {A} w (R : A → Z → Prop) : vruns (panic w) R.
Proof. by intros ex a ex' _ [=]. Qed.
Lemma vruns_lift {A} (x : res A) (R : A → Z → Prop) : (∀ a, x = Ok a → R a 0) → vruns (lift x) R.
Proof. intros Hx ex a ex' _ [= Ha <-]. split; [done|]. exists 0. split; [lia|by apply Hx]. Qed.
Lemma vruns_ask {A} (g : StoreInner → res A) (R : A → Z → Prop) : (∀ s a, g s = Ok a → R a 0) → vruns (ask g) R.
Proof. intros Hg v a v' _ [= Ha <-]. split; [done|]. exists 0. split; [lia|by eapply Hg]. Qed.
Lemma vruns_bind_lift {A B} (x : res A) (f : A → SM Vm B) R : (∀ a, x = Ok a → vruns (f a) R) → vruns (lift x ≫= f) R.
Proof. intros Hf v b v' Hx (a & v1 & [= Ha <-] & Hb)%bind_Ok. by eapply (Hf a Ha). Qed.
Lemma vruns_moves {A} d (m : SM Vm A) (R : A → Z → Prop) : vmoves d m → (∀ a, R a d) → vruns m R.
Proof. intros Hm HR v a v' Hx Ha. destruct (Hm _ _ _ Hx Ha) as (? & d' & ? & ->). eauto. Qed.
End machine.
#[export] Hint Resolve vmoves_store vmoves_ret : moves.

Ltac vmv_step :=
  lazymatch goal with
  | |- vmoves _ _ => unfold vmoves; cbv beta
  | |- ∀ _, _ => intros ?
  | |- vruns (mbind _ (lift _)) _ => apply vruns_skip; [by apply vskip_lift|intros ?]
  | |- vruns (mbind _ (reads _)) _ => apply vruns_skip; [by apply vskip_reads|intros ?]
  | |- vruns (mbind _ (ask _)) _ => apply vruns_skip; [by apply vskip_ask|intros ?]
  | |- vruns (mbind _ get) _ => apply vruns_skip; [by apply vskip_get|intros ?]
  | |- vruns (mbind _ (on_ex _)) _ => eapply vruns_bind_ex; [solve [eauto 2 with moves nocore]|intros ?; cbv beta]
  | |- vruns (mbind _ _) _ => eapply vruns_bind; [solve [eauto 2 with moves nocore]|intros ?; cbv beta]
  | |- vruns (on_ex _) _ => apply vruns_on_ex; mv
  | |- vruns (mret _) _ => apply vruns_ret
  | |- vruns (fail _) _ => apply vruns_fail
  | |- vruns (panic _) _ => apply vruns_panic
  | |- vruns (lift _) _ => apply vruns_lift; intros ? _
  | |- vruns (ask _) _ => apply vruns_ask; intros ? ? _
  | |- vruns (let '(_, _) := ?x in _) _ => destruct x
  | |- vruns (let _ := _ in _) _ => cbv zeta
  | |- vruns (if ?b then _ else _) _ => destruct b
  | |- vruns (match ?x with _ => _ end) _ => destruct x
  | |- vruns _ _ => eapply vruns_moves; [solve [eauto 2 with moves nocore]|intros ?; cbv beta]
  | |- _ => solve [lia]
  end.
Ltac vmv := repeat vmv_step.

Section instructions.
Context `{Features, FloatHost, EngineTypes, TypeOrder, EngineFuncs}.

Lemma vmoves_write_bytes h e r : vmoves 0 (write_bytes h e r).
Proof. unfold write_bytes. vmv. Qed.
Hint Resolve vmoves_write_bytes : moves.
Lemma vmoves_load k code h m : vmoves (-1) (load_n k code h m).
Proof. unfold load_n. vmv. Qed.
Lemma vmoves_store_n k code h m : vmoves (-1) (store_n k code h m).
Proof. unfold store_n. vmv. Qed.
Hint Resolve vmoves_load vmoves_store_n : moves.
Lemma vmoves_memory_copy h a b : vmoves (-3) (memory_copy h a b).
Proof. unfold memory_copy. cbv zeta. vmv. Qed.
Lemma vmoves_memory_init h a b : vmoves (-3) (memory_init h a b).
Proof. unfold memory_init. cbv zeta. vmv. Qed.
Lemma vmoves_memory_fill h a : vmoves (-3) (memory_fill h a).
Proof. unfold memory_fill. cbv zeta. vmv. Qed.
Hint Resolve vmoves_memory_copy vmoves_memory_init vmoves_memory_fill : moves.

(** Vectors. *)
Lemma moves_pop_v128 : moves (-1) pop_v128.
Proof. unfold pop_v128, pop_v128_cell. mv. Qed.
Lemma moves_push_v128 v : moves 1 (push_v128 v).
Proof. apply moves_push. Qed.
Hint Resolve moves_pop_v128 moves_push_v128 : moves.
Lemma moves_v_binop split join f : moves (-1) (v_binop split join f).
Proof. unfold v_binop. mv. Qed.
Lemma moves_v_unop split join f : moves 0 (v_unop split join f).
Proof. unfold v_unop. mv. Qed.
Lemma moves_v_cmp n split f : moves (-1) (v_cmp n split f).
Proof. unfold v_cmp. mv. Qed.
Lemma moves_v_shift n split join f : moves (-1) (v_shift n split join f).
Proof. unfold v_shift. mv. Qed.
Lemma moves_pop_as w : moves (-1) (pop_as w).
Proof. unfold pop_as. mv. Qed.
Hint Resolve moves_v_binop moves_v_unop moves_v_cmp moves_v_shift moves_pop_as : moves.
Lemma moves_simd_compute s : moves ((simd_op_effect s).2 - (simd_op_effect s).1) (exec_simd_compute s).
Proof.
  destruct s; try (intros ex a ex' _ [=]; fail);
    cbn [simd_op_effect fst snd exec_simd_compute exec_simd_lane exec_simd_bit exec_simd_iarith exec_simd_icmp exec_simd_iarith2
      exec_simd_farith exec_simd_fcmp exec_simd_cvt exec_simd_relaxed];
    unfold exec_simd_compute; cbn [exec_simd_lane exec_simd_bit exec_simd_iarith exec_simd_icmp exec_simd_iarith2
      exec_simd_farith exec_simd_fcmp exec_simd_cvt exec_simd_relaxed];
    unfold splat, extract, replace, swizzle_body, bit_binop, v_bitmask, v_all_true, v_extend, v_extmul, v_extadd, v_narrow, trunc_zero,
      fma_f32x4, fma_f64x2; cbv zeta; mv.
Qed.
Lemma vruns_simd_mem code s h : vruns (exec_simd_mem code s h)
  (λ b d, d = if b : bool then (simd_op_effect s).2 - (simd_op_effect s).1 else 0).
Proof.
  destruct s; cbn [simd_op_effect fst snd exec_simd_mem]; try (by apply vruns_ret); unfold load_v, load_lane, store_lane; vmv.
Qed.
Lemma vmoves_exec_simd code s h : vmoves ((simd_op_effect s).2 - (simd_op_effect s).1) (exec_simd code s h).
Proof.
  intros v a v' Hx (b & v1 & Hb & Ha)%bind_Ok. destruct (vruns_simd_mem _ _ _ _ _ _ Hx Hb) as (Hf & d & Hl & Hd).
  assert (floored (vm_ex v1)) as Hx1 by (unfold floored; by rewrite Hf). destruct b; [injection Ha as _ <-; eauto|].
  destruct (vruns_on_ex _ _ (moves_simd_compute s) _ _ _ Hx1 Ha) as (Hf' & d' & Hl' & Hd'). split; [congruence|].
  exists (d + d'). split; [lia|]. rewrite Hd, Hd'. lia.
Qed.
Context (ctx : CompileCtx).
Lemma vmoves_exec_memory code op h e : op_effect ctx op = Some e → vmoves (e.2 - e.1) (exec_memory code op h).
Proof. intros He. unfold exec_memory. cbv zeta. destruct op; injection He as <- || (try apply vruns_fail); cbn [fst snd]; vmv. Qed.
Lemma vmoves_set_handle h t i r : vmoves 0 (table_set_handle h t i r).
Proof. unfold table_set_handle. destruct (table_set i r t). vmv. Qed.
Hint Resolve vmoves_set_handle : moves.
Lemma vmoves_exec_table op h e : op_effect ctx op = Some e → vmoves (e.2 - e.1) (exec_table op h).
Proof.
  intros He. destruct op; try apply vruns_fail; injection He as <-; cbn [exec_table fst snd];
    unfold table_init, table_copy, exec_table_get, exec_table_set, exec_table_fill; cbv zeta; vmv.
Qed.
Lemma vmoves_exec_ref op h e : op_effect ctx op = Some e → vmoves (e.2 - e.1) (exec_ref op h).
Proof. intros He. destruct op; try apply vruns_fail; injection He as <-; cbn [exec_ref fst snd]; vmv. Qed.

(** Aggregates and casts. *)
Lemma vmoves_collect_now : vmoves 0 gc_collect_now.
Proof. unfold gc_collect_now. vmv. Qed.
Hint Resolve vmoves_collect_now : moves.
Lemma vmoves_gc_reserve charge ip : vruns (gc_reserve charge ip) (λ o d, d = 0 ∧ ∀ so, o = Some so → ∃ a b, so = SoGcGrow a b ip).
Proof.
  unfold gc_reserve. cbv zeta. apply vruns_skip; [by apply vskip_get|intros v]. destruct (fits _ _); [by apply vruns_ret|].
  eapply (vruns_bind _ _ 0); [destruct (_ && _); vmv|]. intros [|]; [by apply vruns_ret|].
  apply vruns_skip; [by apply vskip_get|intros v']. destruct (is_free_grant _ _).
  - eapply vruns_bind; [apply vmoves_store|intros _]. by apply vruns_ret.
  - apply vruns_ret. split; [done|]. intros so [= <-]. eauto.
Qed.
Lemma vmoves_write_body obj o r : vmoves 0 (write_body obj o r).
Proof. unfold write_body. vmv. Qed.
Lemma vmoves_alloc_array id data : vmoves 1 (alloc_array id data).
Proof. unfold alloc_array. vmv. Qed.
Hint Resolve vmoves_write_body vmoves_alloc_array : moves.
Lemma moves_i31_get b : moves 0 (i31_get b).
Proof. unfold i31_get. mv. Qed.
Lemma vmoves_exec_cast op h e : op_effect ctx op = Some e → vmoves (e.2 - e.1) (exec_cast op h).
Proof. intros He. destruct op; try apply vruns_fail; injection He as <-; cbn [exec_cast fst snd]; vmv. Qed.
Lemma vmoves_array_new h ty (b : bool) : vmoves (if b then 0 else -1) (array_new h ty b).
Proof. unfold array_new. destruct b; vmv. Qed.
Lemma vmoves_exec_gc_array op h e : op_effect ctx op = Some e → vmoves (e.2 - e.1) (exec_gc_array op h).
Proof.
  intros He. destruct op; try (by apply vmoves_exec_cast); cbn [op_effect] in He; try destruct (0 <=? _) eqn:?; try discriminate He;
    injection He as <-; cbn [exec_gc_array fst snd]; try apply vmoves_array_new;
    unfold array_new_fixed, array_new_data, array_new_elem, array_get, array_set, array_len_op, array_fill, array_copy,
      array_init_data, array_init_elem; cbv zeta; vmv.
Qed.
Lemma vmoves_exec_gc op h e : (∀ ty, op ≠ OpStructNew ty) → op_effect ctx op = Some e → vmoves (e.2 - e.1) (exec_gc op h).
Proof.
  intros Hn He. destruct op; try (by apply vmoves_exec_gc_array); try (by destruct (Hn ty)); injection He as <-;
    cbn [exec_gc fst snd]; try (by apply vruns_on_ex, moves_i31_get); unfold struct_new, struct_get, struct_set; cbv zeta; vmv.
Qed.
Lemma vmoves_number_or_gc op h e : (∀ ty, op ≠ OpStructNew ty) → op_effect ctx op = Some e →
  vmoves (e.2 - e.1) (match exec_numeric op with Some m => on_ex m | None => exec_gc op h end).
Proof.
  intros Hn He. destruct (exec_numeric op) as [m|] eqn:Hm; [|by apply vmoves_exec_gc]. apply vruns_on_ex.
  by eapply moves_numeric.
Qed.
End instructions.
