(* ===== verification/Executed.v ===== *)
(** * Executed: compiled code on the machine (Step.v against Heights.v)

    What an instruction does to the operands of the running frame is what the compiler
    computed for its position: from the height that the code gives it, an instruction goes
    on to a position of the height it leaves. *)
From S2P Require Import Prelude Keep Types Layout Codec Arena Heap Op Entity Store Collect Stack Frame Float Numeric Limits Memory Reserve GcOps Exn Step StackInv Compile Lowering Heights Moves Drive.
Open Scope Z_scope.

(** ** One instruction *)

(** The arities of a call. *)
Definition call_arity (ctx : CompileCtx) (op : Op) : option (Z * Z) :=
  match op with
  | OpCall func | OpReturnCall func => func_arity ctx func
  | OpCallIndirect ty _ | OpCallRef ty | OpReturnCallIndirect ty _ | OpReturnCallRef ty => type_arity ctx ty
  | _ => None
  end.
(** [h] is the operand height after an instruction: what its outcome goes on to has been
    compiled for that height, less a call's arguments and plus its results, or plus the
    result of a growth.  The instruction that waits for heap space has popped nothing. *)
Definition settles (ctx : CompileCtx) (height_at : Z → option Z) (ip : Z) (op : Op) (h : Z) (o : StepOutcome) : Prop :=
  let call (return_ip : option Z) := ∃ params results, call_arity ctx op = Some (params, results) ∧ params ≤ h ∧
    match return_ip with Some to => height_at to = Some (h - params + results) | None => True end in
  match o with
  | SoAdvance to => height_at to = Some h
  | SoGrow _ _ to | SoTableGrow _ _ _ to => height_at to = Some (h + 1)
  | SoGcGrow _ _ to => to = ip ∧ height_at ip = Some h
  | SoCall req => call (Some (cr_return_ip req))
  | SoHostCall _ _ to | SoHostAsyncCall _ _ to => call (Some to)
  | SoTailCall _ | SoTailHostCall _ _ _ | SoTailHostAsyncCall _ _ _ => call None
  end.

Section step.
Context `{Features, FloatHost, EngineTypes, TypeOrder, EngineFuncs} (ctx : CompileCtx) (pool : list BranchTarget)
  (height_at : Z → option Z) (ip base : Z) (instance : Handle) (op : Op) (h : Z) (falls : option Z)
  (edges : list (BranchTarget * Z)).
Context (Hnext : op_next ctx op h = Some falls) (Hedges : op_edges pool op h = Some edges)
  (Hfalls : ∀ h', falls = Some h' → height_at (ip + 1) = Some h') (Hok : Forall (edge_ok height_at) edges)
  (Hat : height_at ip = Some h).
Abbreviation R := (λ o d, settles ctx height_at ip op (h + d) o).

Lemma op_next_effect e : op_effect ctx op = Some e → e.1 ≤ h ∧ height_at (ip + 1) = Some (h + (e.2 - e.1)).
Proof using Hnext Hfalls.
  intros He. assert (op_next ctx op h = if e.1 <=? h then Some (Some (h - e.1 + e.2)) else None) as Heq.
  { clear Hnext Hedges. destruct op; try discriminate He; unfold op_next; rewrite He; by destruct e. }
  rewrite Heq in Hnext. destruct (Z.leb_spec (e.1) h); [|done]. injection Hnext as <-. split; [done|].
  rewrite (Hfalls _ eq_refl). f_equal. lia.
Qed.
Lemma adv_settles e (m : SM Vm ()) : op_effect ctx op = Some e → vmoves (e.2 - e.1) m →
  vruns (m;; mret (SoAdvance (ip + 1))) R.
Proof using Hnext Hfalls.
  intros He Hm. eapply vruns_bind; [exact Hm|intros []]. apply vruns_ret. cbn. rewrite (proj2 (op_next_effect e He)).
  f_equal. lia.
Qed.
Lemma branch_runs t d : (t, h + d) ∈ edges → runs (branch t) (λ o d', settles ctx height_at ip op (h + (d + d')) o).
Proof using Hok.
  intros (Hk & Hp & _ & Hh)%(proj1 (Forall_forall _ _) Hok). cbn [fst snd] in *. unfold branch.
  eapply runs_bind; [apply moves_take_branch; lia|intros []]. apply runs_ret. cbn. rewrite Hh. f_equal. lia.
Qed.
Lemma branch_either (c : bool) t d : (t, h + d) ∈ edges → height_at (ip + 1) = Some (h + d) →
  vruns (if c then on_ex (branch t) else mret (SoAdvance (ip + 1))) (λ o d', settles ctx height_at ip op (h + (d + d')) o).
Proof using Hok.
  intros He Hn. destruct c; [apply vruns_on_ex; by apply branch_runs|]. apply vruns_ret. cbn. rewrite Hn. f_equal. lia.
Qed.
(** A branch table goes to one of its cases or to the default after them. *)
Lemma table_entry base' len end_ cases default_ i slice : checked_add 32 base' len = Some end_ →
  zslice pool base' end_ = Some cases → zget pool end_ = Some default_ → zslice pool base' (base' + len + 1) = Some slice →
  default default_ (zget cases i) ∈ slice.
Proof using.
  unfold checked_add. destruct (_ <? _); [|done]. intros [= <-] Hc Hd Hs. pose proof (zlen_slice _ _ _ _ Hc) as Hl.
  pose proof (zlen_nonneg cases). destruct (zget cases i) as [t|] eqn:Ht; cbn [default].
  - pose proof (zget_Some _ _ _ Ht). apply (zget_elem _ _ i). rewrite (zget_slice _ _ _ _ _ Hs) by lia.
    by rewrite <- (zget_slice _ _ _ _ _ Hc) by lia.
  - apply (zget_elem _ _ len). by rewrite (zget_slice _ _ _ _ _ Hs) by lia.
Qed.
Lemma br_table_runs code r : code_br_tables code = Ok pool →
  at_height (h - 1) <$> zslice pool (btr_base r) (btr_base r + btr_len r + 1) = Some edges → runs (br_table code r) R.
Proof using Hok.
  intros Hpool Hslice. unfold br_table. rewrite Hpool. apply runs_bind_lift. intros p [= <-].
  apply runs_bind_lift. intros end_ He%ok_or_Ok. apply runs_bind_lift. intros cases Hc%ok_or_Ok.
  apply runs_bind_lift. intros default_ Hd%ok_or_Ok. destruct (zslice pool (btr_base r) _) as [slice|] eqn:Hs; [|done].
  injection Hslice as Hslice. eapply runs_bind; [apply moves_pop_u32|intros i]. apply branch_runs.
  rewrite <- Hslice. apply list_elem_of_fmap. eexists. split; [|by eapply table_entry]. done.
Qed.
(** A cast branches with its operand on the stack. *)
Lemma br_on_cast_runs code ty target (b on_fail : bool) : code_br_tables code = Ok pool →
  op = (if b then OpBrOnCast ty target else OpBrOnCastFail ty target) →
  (λ t, at_height h [t]) <$> zget pool (pool_index target) = Some edges → height_at (ip + 1) = Some h →
  vruns (r ← br_on_cast code instance op on_fail; mret (SoAdvance (default (ip + 1) r))) R.
Proof using Hok.
  intros Hpool Hop Hget Hn v o v' Hx (r & v1 & Hr & [= <- <-])%bind_Ok.
  assert (vruns (br_on_cast code instance op on_fail) (λ r d, settles ctx height_at ip op (h + d) (SoAdvance (default (ip + 1) r)))) as Hc.
  { clear Hnext Hedges. unfold br_on_cast. apply vruns_bind_lift. intros tp Htp. assert (tp = (ty, target)) as -> by (destruct b; subst op; by injection Htp as <-).
    cbv zeta. rewrite Hpool. apply vruns_bind_lift. intros p [= <-]. apply vruns_bind_lift. intros t Ht%expect_Ok.
    unfold pool_index in Hget. rewrite Ht in Hget. injection Hget as Hget.
    eapply vruns_bind_ex; [apply moves_pop_ref|intros x]. apply vruns_skip; [by apply vskip_ask|intros m].
    eapply vruns_bind_ex; [apply moves_push|intros _]. destruct (xorb _ _).
    - assert ((t, h) ∈ edges) as (Hk & Hp & _ & Hh)%(proj1 (Forall_forall _ _) Hok) by (rewrite <- Hget; by apply list_elem_of_singleton).
      cbn [fst snd] in *. eapply vruns_bind_ex; [apply moves_take_branch; lia|intros _]. apply vruns_ret. cbn. rewrite Hh. f_equal. lia.
    - apply vruns_ret. cbn. rewrite Hn. f_equal. lia. }
  exact (Hc _ _ _ Hx Hr).
Qed.
(** Heap space first: an instruction that waits for it is run again. *)
Lemma reserve_settles_at charge (k : SM Vm StepOutcome) v : floored (vm_ex v) →
  (∀ v1, match charge with Some c => gc_reserve c ip | None => mret None end v = (Ok None, v1) → floored (vm_ex v1) → vat v1 k R) →
  vat v (out ← match charge with Some c => gc_reserve c ip | None => mret None end;
         match out with Some out => mret out | None => k end) R.
Proof using Hat.
  intros Hx Hk o v' (out & v1 & Ho & Hr)%bind_Ok.
  assert (vruns (match charge with Some c => gc_reserve c ip | None => mret None end)
            (λ o d, d = 0 ∧ ∀ so, o = Some so → ∃ a b, so = SoGcGrow a b ip)) as Hres
    by (destruct charge; [apply vmoves_gc_reserve|by apply vruns_ret]).
  destruct (Hres _ _ _ Hx Ho) as (Hfr & d & Hl & -> & Hso). destruct out as [so|].
  - destruct (Hso _ eq_refl) as (a & b & ->). injection Hr as <- <-. split; [done|]. exists 0. split; [done|]. cbn.
    rewrite Hat. split; [done|]. f_equal. lia.
  - assert (floored (vm_ex v1)) as Hx1 by (unfold floored; by rewrite Hfr). destruct (Hk _ Ho Hx1 _ _ Hr) as (Hfr' & d & Hl' & Hd).
    split; [congruence|]. exists d. split; [lia|done].
Qed.
Lemma reserve_settles charge (k : SM Vm StepOutcome) : vruns k R →
  vruns (out ← match charge with Some c => gc_reserve c ip | None => mret None end;
         match out with Some out => mret out | None => k end) R.
Proof using Hat. intros Hk v o v' Hx. apply (reserve_settles_at charge k v Hx). intros v1 _ Hx1 a v1'. by apply Hk. Qed.
End step.

(** ** Every instruction *)
Section instruction.
Context `{Features, FloatHost, EngineTypes, TypeOrder, EngineFuncs} (ctx : CompileCtx) (pool : list BranchTarget)
  (height_at : Z → option Z).

Lemma call_outcome_settles resolved instance kind s o ip op h : call_outcome resolved instance kind s = Ok o →
  (∃ params results, call_arity ctx op = Some (params, results) ∧ params ≤ h ∧
    match kind with Nested to => height_at to = Some (h - params + results) | Tail => True end) →
  settles ctx height_at ip op h o.
Proof.
  intros Ho (params & results & Ha & Hp & Hk). destruct resolved, kind; cbn in Ho; try injection Ho as <-;
    try (apply result_bind_Ok in Ho as (n & _ & [= <-])); exists params, results; done.
Qed.

Section one.
Context (code : Code) (ip base : Z) (instance : Handle) (op : Op) (h : Z) (falls : option Z) (edges : list (BranchTarget * Z)).
Context (Hnext : op_next ctx op h = Some falls) (Hedges : op_edges pool op h = Some edges)
  (Hfalls : ∀ h', falls = Some h' → height_at (ip + 1) = Some h') (Hok : Forall (edge_ok height_at) edges)
  (Hat : height_at ip = Some h) (Hpool : code_br_tables code = Ok pool).
Abbreviation settled m := (vruns m (λ o d, settles ctx height_at ip op (h + d) o)).

(** The arguments of a call are on the stack, and a nested call returns to the height of its results. *)
Definition call_fits (kind : CallKind) (h : Z) : Prop := ∃ params results, call_arity ctx op = Some (params, results) ∧ params ≤ h ∧
  match kind with Nested to => height_at to = Some (h - params + results) | Tail => True end.
(** What the arity of a call leaves: its arguments are on the stack, below the [extra]
    operands that say what is called. *)
Definition call_extra (op : Op) : Z := match op with OpCall _ | OpReturnCall _ => 0 | _ => 1 end.
Definition call_nested (op : Op) : bool := match op with OpCall _ | OpCallIndirect _ _ | OpCallRef _ => true | _ => false end.
Lemma call_operands kind : (kind = if call_nested op then Nested (ip + 1) else Tail) →
  match op with
  | OpCall _ | OpReturnCall _ | OpCallIndirect _ _ | OpReturnCallIndirect _ _ | OpCallRef _ | OpReturnCallRef _ =>
      call_fits kind (h - call_extra op)
  | _ => True
  end.
Proof using Hnext Hfalls.
  unfold call_fits. intros ->. clear Hedges. destruct op; try done; cbn [op_next op_effect call_arity call_extra call_nested] in *;
    (destruct (func_arity _ _) as [[p r]|] || destruct (type_arity _ _) as [[p r]|]); try done; cbn [mbind option_bind] in Hnext;
    lazymatch type of Hnext with context [?n <=? h] => destruct (Z.leb_spec n h); [|done] end; injection Hnext as <-;
    exists p, r; (split; [done|split; [lia|]]); try rewrite (Hfalls _ eq_refl); try done; f_equal; lia.
Qed.
(** Resolving the callee moves nothing but the operands that say what is called. *)
Lemma do_call_settles f kind d : call_fits kind (h + d) →
  vruns (ask (do_call instance f kind)) (λ o d', settles ctx height_at ip op (h + (d + d')) o).
Proof using.
  intros Hf. apply vruns_ask. intros s o (r & _ & Ho)%result_bind_Ok. eapply call_outcome_settles; [exact Ho|].
  by replace (h + (d + 0)) with (h + d) by lia.
Qed.
Lemma do_call_indirect_settles ty table kind : call_fits kind (h - 1) → settled (do_call_indirect instance ty table kind).
Proof using.
  intros Hf. unfold do_call_indirect. apply vruns_skip; [by apply vskip_ask|intros hd]. apply vruns_skip; [by apply vskip_ask|intros t].
  eapply vruns_bind_ex; [apply moves_pop_index|intros idx]. do 4 (apply vruns_skip; [by apply vskip_lift || apply vskip_ask|intros ?]).
  eapply (vruns_bind _ _ 0); [vmv|intros _]. apply vruns_ask. intros s o Ho. eapply call_outcome_settles; [exact Ho|]. exact Hf.
Qed.
Lemma do_call_ref_settles kind : call_fits kind (h - 1) → settled (do_call_ref instance kind).
Proof using.
  intros Hf. unfold do_call_ref. eapply vruns_bind_ex; [apply moves_pop_ref|intros v].
  do 2 (apply vruns_skip; [by apply vskip_lift|intros ?]). by apply do_call_settles.
Qed.
Lemma settled_throw i : settled (throw instance i ip).
Proof using Hat.
  unfold throw. do 4 (apply vruns_skip; [by apply vskip_ask || apply vskip_lift|intros ?]).
  apply (reserve_settles ctx height_at ip op h Hat (Some _)). intros v o v' _ (args & v1 & _ & Hr)%bind_Ok.
  by apply bind_Ok in Hr as (exn & v2 & _ & [=]).
Qed.
End one.

(** The instructions that do more than fall through. *)
Section every.
Context (code : Code) (ip base : Z) (instance : Handle) (op : Op) (h : Z) (falls : option Z) (edges : list (BranchTarget * Z)).
Context (Hnext : op_next ctx op h = Some falls) (Hedges : op_edges pool op h = Some edges)
  (Hfalls : ∀ h', falls = Some h' → height_at (ip + 1) = Some h') (Hok : Forall (edge_ok height_at) edges)
  (Hat : height_at ip = Some h) (Hpool : code_br_tables code = Ok pool).
Abbreviation settled m := (vruns m (λ o d, settles ctx height_at ip op (h + d) o)).
Ltac next_height :=
  cbn [op_next op_effect op_edges call_nested call_extra] in *; cbn [mbind option_bind fst snd] in Hnext;
  lazymatch type of Hnext with context [?n <=? h] => destruct (Z.leb_spec n h); [|done] end; injection Hnext as <-.
Ltac here := apply list_elem_of_singleton; f_equal; lia.
Lemma settled_branches : match op with
  | OpBr _ | OpBrIf _ | OpBrIfNot _ | OpBrIfCmp _ _ _ | OpBrTable _ | OpBrOnNull _ | OpBrOnNonNull _ | OpBrOnCast _ _
  | OpBrOnCastFail _ _ => settled (step code op (ip + 1) base instance)
  | _ => True
  end.
Proof using Hnext Hedges Hfalls Hok Hpool.
  destruct op; try done; cbn [step op_edges] in *; cbv zeta.
  - injection Hedges as <-. apply vruns_on_ex, (branch_runs _ _ _ _ _ _ Hok _ 0). here.
  - next_height. injection Hedges as <-. eapply vruns_bind_ex; [apply moves_pop_i32|intros c].
    apply (branch_either _ _ _ _ _ _ Hok); [here|by apply Hfalls].
  - next_height. injection Hedges as <-. eapply vruns_bind_ex; [apply moves_pop_i32|intros c].
    apply (branch_either _ _ _ _ _ _ Hok); [here|by apply Hfalls].
  - next_height. injection Hedges as <-. eapply vruns_bind_ex; [apply moves_pop_i32_pair|intros ab].
    apply (branch_either _ _ _ _ _ _ Hok); [here|by apply Hfalls].
  - by apply vruns_on_ex, (br_table_runs _ pool _ _ _ _ _ Hok).
  - next_height. injection Hedges as <-. eapply vruns_bind_ex; [apply moves_pop_tagged_ref|intros rt].
    destruct (cell_is_null _); [apply vruns_on_ex, (branch_runs _ _ _ _ _ _ Hok); here|].
    eapply vruns_bind_ex; [apply moves_push_cell|intros _]. apply vruns_ret. cbn. rewrite (Hfalls _ eq_refl). f_equal. lia.
  - next_height. injection Hedges as <-. eapply vruns_bind_ex; [apply moves_pop_tagged_ref|intros rt].
    destruct (cell_is_null _); [apply vruns_ret; cbn; rewrite (Hfalls _ eq_refl); f_equal; lia|].
    apply vruns_on_ex. eapply runs_bind; [apply moves_push_cell|intros _]. eapply runs_weaken; [apply (branch_runs ctx _ ip (OpBrOnNonNull target) h _ Hok _ 0); here|].
    intros o d. by replace (-1 + (1 + d)) with (0 + d) by lia.
  - next_height. by apply (br_on_cast_runs _ pool _ _ _ _ _ _ Hok _ ty target true); [..|apply Hfalls].
  - next_height. by apply (br_on_cast_runs _ pool _ _ _ _ _ _ Hok _ ty target false); [..|apply Hfalls].
Qed.
Ltac lands := cbn; rewrite (Hfalls _ eq_refl); f_equal; lia.
Lemma settled_calls : match op with
  | OpCall _ | OpReturnCall _ | OpCallIndirect _ _ | OpReturnCallIndirect _ _ | OpCallRef _ | OpReturnCallRef _ =>
      settled (step code op (ip + 1) base instance)
  | _ => True
  end.
Proof using Hnext Hedges Hfalls.
  pose proof (call_operands ip op h falls Hnext Hfalls _ eq_refl) as Hf. destruct op; try done; cbn [step call_nested call_extra] in *.
  1, 4: apply vruns_skip; [by apply vskip_ask|intros f]; apply (do_call_settles _ _ _ h _ _ 0); by rewrite Z.add_0_r; rewrite Z.sub_0_r in Hf.
  1, 3: by apply do_call_indirect_settles.
  all: by apply do_call_ref_settles.
Qed.
Lemma settled_growth : match op with
  | OpMemoryGrow _ | OpTableGrow _ | OpThrow _ | OpThrowRef | OpGlobalGet _ | OpGlobalSet _ | OpUnreachable =>
      settled (step code op (ip + 1) base instance)
  | _ => True
  end.
Proof using Hnext Hedges Hfalls Hat.
  destruct op; try done; cbn [step] in *; cbv zeta; try replace (ip + 1 - 1) with ip by lia.
  - by apply settled_throw.
  - intros v o v' _ (x & v1 & _ & [=])%bind_Ok.
  - next_height. do 2 (apply vruns_skip; [by apply vskip_ask|intros ?]). eapply vruns_bind_ex; [apply moves_push|intros _].
    apply vruns_ret. lands.
  - next_height. do 2 (apply vruns_skip; [by apply vskip_ask|intros ?]). eapply vruns_bind_ex; [apply moves_pop_typed|intros v].
    eapply vruns_bind; [apply vmoves_store|intros _]. apply vruns_ret. lands.
  - next_height. do 2 (apply vruns_skip; [by apply vskip_ask|intros ?]). eapply vruns_bind_ex; [apply moves_pop_index|intros n].
    apply vruns_ret. lands.
  - next_height. do 2 (apply vruns_skip; [by apply vskip_ask|intros ?]). eapply vruns_bind_ex; [apply moves_pop_index|intros n].
    eapply vruns_bind_ex; [apply moves_pop_ref|intros v]. apply vruns_skip; [by apply vskip_lift|intros ref]. apply vruns_ret. lands.
Qed.
End every.

(** A struct takes an operand per field of its layout; the layouts of a module are computed
    from the types it was compiled with. *)
Definition module_of_ctx (m : ModuleInner) : Prop :=
  mi_types m = cc_types ctx ∧ mi_layouts m = (λ t, layout_from_body (mt_body t)) <$> mi_types m.
Definition instance_of_ctx (instance : Handle) (s : StoreInner) : Prop :=
  ∀ m, zget (ie_module <$> si_instances s) (h_index instance) = Some m → module_of_ctx m.
Lemma module_of_instance instance s m : instance_of_ctx instance s → module_of instance s = Ok m → module_of_ctx m.
Proof.
  unfold module_of, store_instance, arena_entity. intros Hi Hm. apply Hi. rewrite zget_fmap.
  destruct (check_handle _ _) as [u|e|w]; try discriminate Hm. cbn [mbind result_bind] in Hm.
  destruct (zget _ _) as [i|]; [|discriminate Hm]. by injection Hm as <-.
Qed.
Lemma layout_go_length slots size : length (struct_layout_go slots size).1 = length slots.
Proof.
  revert size. induction slots as [|f slots IH]; intros size; [done|]. cbn [struct_layout_go]. cbv zeta.
  specialize (IH (size + slot_width (f size))). destruct (struct_layout_go _ _). cbn in *. lia.
Qed.
Lemma layout_fields m ty l n : module_of_ctx m → struct_layout m ty = Ok l → field_count ctx ty = Some n → zlen (sl_fields l) = n.
Proof.
  intros [Ht Hl]. unfold struct_layout, module_layout, field_count. rewrite Hl, zget_fmap, Ht.
  destruct (zget (cc_types ctx) ty) as [t|]; [|done]. cbn. destruct (mt_body t) as [|fields|]; try done. cbn. intros [= <-].
  destruct (_ <=? _); [|done]. intros [= <-]. unfold struct_layout_of. pose proof (layout_go_length (field_slot <$> fields) 0) as Hgo.
  destruct (struct_layout_go _ _). cbn in *. unfold zlen. by rewrite Hgo, length_fmap.
Qed.
Lemma struct_new_runs instance ty n v a v' : field_count ctx ty = Some n → instance_of_ctx instance (vm_store v) →
  floored (vm_ex v) → struct_new instance ty false v = (Ok a, v') →
  ex_frames (vm_ex v') = ex_frames (vm_ex v) ∧ ∃ d, zlen (ex_values (vm_ex v')) = zlen (ex_values (vm_ex v)) + d ∧ d = 1 - n.
Proof.
  intros Hn Hm Hx (m & v1 & [= E <-] & Hr)%bind_Ok. apply (module_of_instance _ _ _ Hm) in E. revert Hr. refine (_ v a v' Hx).
  apply vruns_bind_lift. intros id _. apply vruns_bind_lift. intros l Hl. cbv zeta.
  eapply vruns_bind_ex; [apply moves_pop_fields|intros data]. eapply vruns_bind; [apply vmoves_store|intros hd].
  apply vruns_on_ex. eapply runs_moves; [apply moves_push|intros _]. rewrite <- (layout_fields _ _ _ _ E Hl Hn).
  unfold zlen. rewrite length_reverse. lia.
Qed.
Lemma reserve_instance charge ip v o v' instance : gc_reserve charge ip v = (Ok o, v') →
  instance_of_ctx instance (vm_store v) → instance_of_ctx instance (vm_store v').
Proof.
  assert (StackInv (λ _, True)) as Htriv by (by split). intros Hr Hi.
  pose proof (keeps_gc_reserve (λ _, True) (code_view (vm_store v)) charge ip v _ _ (conj I eq_refl) Hr ltac:(done)) as [_ Hv].
  unfold instance_of_ctx. unfold code_view in Hv. injection Hv as _ ->. exact Hi.
Qed.

(** Every instruction. *)
Section settled.
Context (code : Code) (ip base : Z) (instance : Handle) (op : Op) (h : Z) (falls : option Z) (edges : list (BranchTarget * Z)).
Context (Hnext : op_next ctx op h = Some falls) (Hedges : op_edges pool op h = Some edges)
  (Hfalls : ∀ h', falls = Some h' → height_at (ip + 1) = Some h') (Hok : Forall (edge_ok height_at) edges)
  (Hat : height_at ip = Some h) (Hpool : code_br_tables code = Ok pool).
Abbreviation R := (λ o d, settles ctx height_at ip op (h + d) o).

Lemma struct_new_settles ty v : op = OpStructNew ty → floored (vm_ex v) → instance_of_ctx instance (vm_store v) →
  vat v (step code op (ip + 1) base instance) R.
Proof using Hnext Hfalls Hat.
  clear Hedges. intros -> Hx Hi. cbn [step]. cbv zeta. replace (ip + 1 - 1) with ip by lia.
  intros o v' (charge & v0 & [= _ <-] & Hr)%bind_Ok. revert o v' Hr. apply (reserve_settles_at ctx); [done..|].
  intros v1 Ho Hx1 o v' ([] & v2 & Hs & [= <- <-])%bind_Ok. cbn [exec_gc] in Hs.
  assert (instance_of_ctx instance (vm_store v1)) as Hi1 by (destruct charge; [by eapply reserve_instance|by injection Ho as <-]).
  destruct (field_count ctx ty) as [n|] eqn:Hn; [|cbn in Hnext; by rewrite Hn in Hnext].
  destruct (struct_new_runs _ _ _ _ _ _ Hn Hi1 Hx1 Hs) as (Hfr & d & Hl & ->). split; [done|]. exists (1 - n). split; [done|].
  cbn. assert (op_effect ctx (OpStructNew ty) = Some (n, 1)) as He by (cbn; by rewrite Hn).
  rewrite (proj2 (op_next_effect ctx height_at ip _ h falls Hnext Hfalls _ He)). done.
Qed.
Lemma falls_settles : (∀ ty, op ≠ OpStructNew ty) → vruns (step code op (ip + 1) base instance) R.
Proof using Hnext Hedges Hfalls Hok Hat Hpool.
  intros Hop. pose proof (settled_branches code ip base instance op h falls edges Hnext Hedges Hfalls Hok Hpool) as Hb.
  pose proof (settled_calls code ip base instance op h falls edges Hnext Hedges Hfalls) as Hc.
  pose proof (settled_growth code ip base instance op h falls edges Hnext Hedges Hfalls Hat) as Hg.
  destruct op; try exact Hb; try exact Hc; try exact Hg; clear Hb Hc Hg; cbn [step]; cbv zeta; try replace (ip + 1 - 1) with ip by lia.
  all: try (apply vruns_skip; [by apply vskip_reads|intros charge]; apply (reserve_settles ctx); [done|]).
  all: try (refine (adv_settles ctx height_at ip _ h falls Hnext Hfalls _ _ eq_refl _);
    first [by apply (vmoves_exec_memory ctx) | by apply (vmoves_exec_table ctx) | by apply (vmoves_exec_ref ctx)
          | exact (vmoves_exec_simd code _ instance) | exact (vmoves_number_or_gc ctx _ instance _ Hop eq_refl) | cbn [fst snd]; vmv; done]).
  - apply vruns_ret. cbn. rewrite (proj2 (op_next_effect ctx height_at ip _ h falls Hnext Hfalls (0, 0) eq_refl)). f_equal.
  - by destruct (Hop ty).
  - assert (is_Some (op_effect ctx (OpArrayNewFixed ty n))) as [e He]
      by (cbn in Hnext |- *; destruct (0 <=? n); [by eexists|discriminate Hnext]).
    refine (adv_settles ctx height_at ip _ h falls Hnext Hfalls _ _ He _). exact (vmoves_exec_gc ctx _ instance _ Hop He).
Qed.
Lemma step_settles v : floored (vm_ex v) → instance_of_ctx instance (vm_store v) →
  vat v (step code op (ip + 1) base instance) R.
Proof using Hnext Hedges Hfalls Hok Hat Hpool.
  intros Hx Hi. assert ((∃ ty, op = OpStructNew ty) ∨ ∀ ty, op ≠ OpStructNew ty) as [[ty Hop]|Hop].
  { clear Hnext Hedges. destruct op; eauto. }
  - by eapply struct_new_settles.
  - intros o v' Ho. by apply (falls_settles Hop v).
Qed.
End settled.
End instruction.

(** ** Runs *)
Section runs.
Context `{Features, FloatHost, EngineTypes, TypeOrder, EngineFuncs} (ctx : CompileCtx) (ops : list Op) (pool : list BranchTarget)
  (handlers : list HandlerSpan) (n : Z) (heights : list (option Z)) (code : Code) (base : Z) (instance : Handle).
Context (Hc : consistent ctx ops pool handlers n heights) (Hpool : code_br_tables code = Ok pool).
Abbreviation height_at := (λ ip, mjoin (zget (heights ++ [Some n]) ip)).

Lemma step_heights ip op v o v' fr : zget ops ip = Some op → instance_of_ctx ctx instance (vm_store v) →
  last (ex_frames (vm_ex v)) = Some fr → 0 ≤ fr_operand_base fr →
  height_at ip = Some (zlen (ex_values (vm_ex v)) - fr_operand_base fr) →
  step code op (ip + 1) base instance v = (Ok o, v') →
  ex_frames (vm_ex v') = ex_frames (vm_ex v) ∧
  settles ctx height_at ip op (zlen (ex_values (vm_ex v')) - fr_operand_base fr) o.
Proof using Hc Hpool.
  intros Hop Hi Hf Hb Hat Hs.
  assert (mjoin (zget heights ip) = Some (zlen (ex_values (vm_ex v)) - fr_operand_base fr)) as Hh.
  { rewrite <- Hat. pose proof (zget_Some _ _ _ Hop). pose proof (con_length _ _ _ _ _ _ Hc). by rewrite zget_app_l by lia. }
  destruct (con_flow _ _ _ _ _ _ Hc _ _ _ Hop Hh) as (falls & edges & Hnext & Hedges & Hfalls & Hok).
  assert (floored (vm_ex v)) as Hx by (intros f; rewrite Hf; by intros [= <-]).
  destruct (step_settles ctx pool _ code ip base instance op _ falls edges Hnext Hedges Hfalls Hok Hat Hpool v Hx Hi _ _ Hs) as (Hfr & d & Hl & Hd).
  split; [done|]. rewrite Hl.
  by replace (zlen (ex_values (vm_ex v)) + d - fr_operand_base fr) with (zlen (ex_values (vm_ex v)) - fr_operand_base fr + d) by lia.
Qed.

(** Control goes on inside the frame. *)
Inductive advance : Z * Vm → Z * Vm → Prop :=
  | advance_to ip op v ip' v' : zget ops ip = Some op → step code op (ip + 1) base instance v = (Ok (SoAdvance ip'), v') →
      advance (ip, v) (ip', v').
Lemma step_instance op ip v r v' : op_ok op → step code op (ip + 1) base instance v = (Ok r, v') →
  instance_of_ctx ctx instance (vm_store v) → instance_of_ctx ctx instance (vm_store v').
Proof using.
  assert (StackInv (λ _, True)) as Htriv by (by split). intros Ho Hs Hi.
  pose proof (keeps_step (λ _, True) (code_view (vm_store v)) base ltac:(done) code op (ip + 1) instance Ho v _ _ (conj I eq_refl) Hs
    ltac:(done)) as [_ Hv].
  unfold instance_of_ctx. unfold code_view in Hv. injection Hv as _ ->. exact Hi.
Qed.
Lemma advances_heights fr from to : Forall op_ok ops → 0 ≤ fr_operand_base fr → rtc advance from to →
  instance_of_ctx ctx instance (vm_store from.2) → last (ex_frames (vm_ex from.2)) = Some fr →
  height_at from.1 = Some (zlen (ex_values (vm_ex from.2)) - fr_operand_base fr) →
  instance_of_ctx ctx instance (vm_store to.2) ∧ ex_frames (vm_ex to.2) = ex_frames (vm_ex from.2) ∧
  height_at to.1 = Some (zlen (ex_values (vm_ex to.2)) - fr_operand_base fr).
Proof using Hc Hpool.
  intros Hops Hb Hrun. induction Hrun as [c|c1 c2 c3 Hstep Hrun IH]; [done|]. intros Hi Hf Hh.
  destruct Hstep as [ip op v ip' v' Hop Hs]. cbn [fst snd] in *.
  destruct (step_heights _ _ _ _ _ _ Hop Hi Hf Hb Hh Hs) as [Hfr Hset].
  destruct IH as (Hi' & Hfr' & Hh').
  - eapply step_instance; [|exact Hs|exact Hi]. eapply Forall_forall; [exact Hops|]. by eapply zget_elem.
  - by rewrite Hfr.
  - exact Hset.
  - split; [done|]. split; [congruence|done].
Qed.
End runs.

(** C5: compiled code keeps its operand heights when it runs.  Enter a function whose
    compiled heights are consistent with no operands and run it inside its frame for any
    number of instructions: the frame has the operand height compiled for the position that
    was reached, the function's results at the end of the code, and no frame was touched.
    Whatever the instruction there goes on to, the next instruction, a branch target, the
    return of a call, the result of a growth or itself once there is heap space, has been
    compiled for the height it leaves, and the arguments of a call are on the stack. *)
Theorem run_keeps_heights `{Features, FloatHost, EngineTypes, TypeOrder, EngineFuncs} ctx ops pool handlers n heights
    code base instance v fr ip v1 :
  consistent ctx ops pool handlers n heights → code_br_tables code = Ok pool → Forall op_ok ops →
  instance_of_ctx ctx instance (vm_store v) →
  last (ex_frames (vm_ex v)) = Some fr → 0 ≤ fr_operand_base fr → zlen (ex_values (vm_ex v)) = fr_operand_base fr →
  rtc (advance ops code base instance) (0, v) (ip, v1) →
  ex_frames (vm_ex v1) = ex_frames (vm_ex v) ∧
  mjoin (zget (heights ++ [Some n]) ip) = Some (zlen (ex_values (vm_ex v1)) - fr_operand_base fr) ∧
  (ip = zlen ops → zlen (ex_values (vm_ex v1)) = fr_operand_base fr + n) ∧
  ∀ op o v2, zget ops ip = Some op → step code op (ip + 1) base instance v1 = (Ok o, v2) →
    ex_frames (vm_ex v2) = ex_frames (vm_ex v) ∧
    settles ctx (λ ip, mjoin (zget (heights ++ [Some n]) ip)) ip op (zlen (ex_values (vm_ex v2)) - fr_operand_base fr) o.
Proof.
  intros Hc Hpool Hops Hi Hf Hb Hv Hrun.
  destruct (advances_heights ctx ops pool handlers n heights code base instance Hc Hpool fr _ _ Hops Hb Hrun Hi Hf) as (Hi1 & Hfr1 & Hh1).
  { cbn [fst snd]. rewrite (con_entry _ _ _ _ _ _ Hc), Hv. f_equal. lia. }
  cbn [fst snd] in *. split; [done|]. split; [done|]. split.
  - intros ->. pose proof (con_length _ _ _ _ _ _ Hc) as Hlen. rewrite zget_app_r, Hlen, Z.sub_diag in Hh1 by lia. cbn in Hh1.
    injection Hh1 as Hh1. lia.
  - intros op o v2 Hop Hs. rewrite <- Hfr1.
    eapply (step_heights ctx ops pool handlers n heights code base instance); try done. by rewrite Hfr1.
Qed.

(** [i32.const 5; i32.const 7; br_if 0 of a block with a result; i32.add]. *)
Module Branching.
Definition ctx : CompileCtx :=
  {| cc_types := []; cc_kinds := []; cc_func_types := []; cc_tag_types := []; cc_max_expanded_locals := 0 |}.
Definition ops : list Op :=
  [OpI32Const 5; OpI32Const 7; OpI32Const 1; OpBrIf {| bt_ip := 5; bt_keep := 1; bt_pop := 1 |}; OpI32Add].
Definition heights : list (option Z) := Some <$> [0; 1; 2; 3; 2].
Lemma heights_consistent : consistent ctx ops [] [] 1 heights.
Proof.
  split; [done..| |by intros sp ?%not_elem_of_nil].
  intros ip op h Hop Hh. assert (ip = 0 ∨ ip = 1 ∨ ip = 2 ∨ ip = 3 ∨ ip = 4) as Hip.
  { pose proof (zget_Some _ _ _ Hop) as Hr. change (zlen ops) with 5 in Hr. lia. }
  destruct Hip as [-> | [-> | [-> | [-> | ->]]]]; injection Hop as <-; injection Hh as <-; eexists _, _;
    (split; [reflexivity|split; [reflexivity|split; [by intros h' [= <-]|]]]); repeat constructor; done.
Qed.
Definition entry : Vm := {| vm_ex := ex_base; vm_store := demo_inner |}.
Abbreviation go := (@advance lean_features canonical_host witness_types demo_order demo_funcs ops (demo_code 1) 0 demo_instance).
Definition step_at (ip : Z) (v : Vm) : res StepOutcome * Vm :=
  match zget ops ip with
  | Some op => @step lean_features canonical_host witness_types demo_order demo_funcs (demo_code 1) op (ip + 1) 0 demo_instance v
  | None => (Panic "end", v)
  end.
Definition v1 : Vm := Eval vm_compute in (step_at 0 entry).2.
Definition v2 : Vm := Eval vm_compute in (step_at 1 v1).2.
Definition v3 : Vm := Eval vm_compute in (step_at 2 v2).2.
Definition v4 : Vm := Eval vm_compute in (step_at 3 v3).2.
Lemma runs_to_end : rtc go (0, entry) (5, v4).
Proof.
  eapply rtc_l; [by apply (advance_to _ _ _ _ 0 (OpI32Const 5) entry 1 v1)|].
  eapply rtc_l; [by apply (advance_to _ _ _ _ 1 (OpI32Const 7) v1 2 v2)|].
  eapply rtc_l; [by apply (advance_to _ _ _ _ 2 (OpI32Const 1) v2 3 v3)|].
  eapply rtc_l; [by apply (advance_to _ _ _ _ 3 (OpBrIf {| bt_ip := 5; bt_keep := 1; bt_pop := 1 |}) v3 5 v4)|].
  apply rtc_refl.
Qed.
End Branching.

Lemma run_keeps_heights_witness : zlen (ex_values (vm_ex Branching.v4)) = 1.
Proof.
  destruct (@run_keeps_heights lean_features canonical_host witness_types demo_order demo_funcs Branching.ctx Branching.ops [] [] 1
    Branching.heights (demo_code 1) 0 demo_instance Branching.entry (frame0 0 0 None) 5 Branching.v4 Branching.heights_consistent eq_refl)
    as (_ & _ & H & _).
  - repeat constructor.
  - intros m [= <-]. by split.
  - reflexivity.
  - reflexivity.
  - reflexivity.
  - exact Branching.runs_to_end.
  - exact (H eq_refl).
Defined.
