(* ===== verification/Engine.v ===== *)
(** * Engine: the shared engine (src/src/engine.rs) and its configuration
    (src/src/config.rs)

    [Config] is the embedder's builder, [Engine_new] what an engine is made of.  The
    second half is what the stores of one engine share across threads: the count of
    committed GC bytes, an atomic, and the collection mailboxes, atomic flags the engine
    holds weakly.  Every atomic access and every locked section is one event of a step
    relation, and the stores' events interleave freely: a store that grows its
    reservation grants it, then counts it, then posts if the count passed the threshold,
    and other stores act in between. *)
From S2P Require Import Prelude Types Layout Codec Arena Heap Op Entity Store Collect Stack Frame Limits.
From S2P Require Import Memory Reserve Registry Parse GcOps Step Run.
From stdpp Require Import gmap.
Open Scope Z_scope.

(** ** Configuration (config.rs) *)
Inductive Collector : Type := CoAuto | CoDeferredReferenceCounting | CoNull | CoCopying | CoMarkSweep.
Inductive CollectorKind : Type := CkNull | CkMarkSweep.
Inductive WasmBacktraceDetails : Type := WbEnable | WbDisable | WbEnvironment.
#[export] Instance CollectorKind_eq_dec : EqDecision CollectorKind.
Proof. solve_decision. Defined.

Definition Collector_resolve (c : Collector) : res CollectorKind :=
  match c with
  | CoAuto | CoMarkSweep => Ok CkMarkSweep
  | CoNull => Ok CkNull
  | CoDeferredReferenceCounting => Err (EMsg "the deferred reference-counting collector is not supported (use Collector::Auto, Collector::MarkSweep, or Collector::Null)")
  | CoCopying => Err (EMsg "the copying collector is not supported (use Collector::Auto, Collector::MarkSweep, or Collector::Null)")
  end.

Record Config : Type := {
  c_consume_fuel : bool;
  c_epoch_interruption : bool;
  c_max_wasm_stack : option Z;
  c_collector : Collector;
  c_gc_memory_threshold : option Z;
  c_gc_heap_reservation : Z;
  c_max_module_bytes : Z;
  c_max_expanded_locals : Z;
  c_async_support : bool;
  c_wasm_backtrace : bool;
  c_wasm_backtrace_details : WasmBacktraceDetails;
  c_debug_info : bool;
}.

Definition Config_default : Config := {|
  c_consume_fuel := false; c_epoch_interruption := false; c_max_wasm_stack := None;
  c_collector := CoAuto; c_gc_memory_threshold := None; c_gc_heap_reservation := 256 * 1024;
  c_max_module_bytes := DEFAULT_MAX_MODULE_BYTES; c_max_expanded_locals := DEFAULT_MAX_EXPANDED_LOCALS;
  c_async_support := true; c_wasm_backtrace := true; c_wasm_backtrace_details := WbEnvironment;
  c_debug_info := false |}.

(** The setters, and the ones that are accepted and ignored. *)
Definition Config_consume_fuel (enable : bool) (c : Config) : Config :=
  let 'Build_Config _ ei st co th re mb el asy bt bd di := c in Build_Config enable ei st co th re mb el asy bt bd di.
Definition Config_epoch_interruption (enable : bool) (c : Config) : Config :=
  let 'Build_Config cf _ st co th re mb el asy bt bd di := c in Build_Config cf enable st co th re mb el asy bt bd di.
Definition Config_max_wasm_stack (size : Z) (c : Config) : Config :=
  let 'Build_Config cf ei _ co th re mb el asy bt bd di := c in Build_Config cf ei (Some size) co th re mb el asy bt bd di.
Definition Config_collector (collector : Collector) (c : Config) : Config :=
  let 'Build_Config cf ei st _ th re mb el asy bt bd di := c in Build_Config cf ei st collector th re mb el asy bt bd di.
Definition Config_gc_memory_threshold (bytes : Z) (c : Config) : Config :=
  let 'Build_Config cf ei st co _ re mb el asy bt bd di := c in Build_Config cf ei st co (Some bytes) re mb el asy bt bd di.
Definition Config_gc_heap_reservation (bytes : Z) (c : Config) : Config :=
  let 'Build_Config cf ei st co th _ mb el asy bt bd di := c in Build_Config cf ei st co th bytes mb el asy bt bd di.
Definition Config_max_module_bytes (bytes : Z) (c : Config) : Config :=
  let 'Build_Config cf ei st co th re _ el asy bt bd di := c in Build_Config cf ei st co th re bytes el asy bt bd di.
Definition Config_max_expanded_locals (locals : Z) (c : Config) : Config :=
  let 'Build_Config cf ei st co th re mb _ asy bt bd di := c in Build_Config cf ei st co th re mb locals asy bt bd di.
Definition Config_async_support (enable : bool) (c : Config) : Config :=
  let 'Build_Config cf ei st co th re mb el _ bt bd di := c in Build_Config cf ei st co th re mb el enable bt bd di.
Definition Config_wasm_backtrace (enable : bool) (c : Config) : Config :=
  let 'Build_Config cf ei st co th re mb el asy _ bd di := c in Build_Config cf ei st co th re mb el asy enable bd di.
Definition Config_wasm_backtrace_details (enable : WasmBacktraceDetails) (c : Config) : Config :=
  let 'Build_Config cf ei st co th re mb el asy bt _ di := c in Build_Config cf ei st co th re mb el asy bt enable di.
Definition Config_debug_info (enable : bool) (c : Config) : Config :=
  let 'Build_Config cf ei st co th re mb el asy bt bd _ := c in Build_Config cf ei st co th re mb el asy bt bd enable.
Definition Config_ignored {A} (_ : A) (c : Config) : Config := c.

Definition Config_module_limits (c : Config) : ModuleLimits :=
  {| ml_max_module_bytes := c_max_module_bytes c; ml_max_expanded_locals := c_max_expanded_locals c |}.
(** The u64 knob, saturated to a usize (of the same width here). *)
Definition gc_heap_reservation_bytes (c : Config) : Z := Z.min (c_gc_heap_reservation c) (u_max usize_bits).
(** [env] is whether the variable WASMTIME_BACKTRACE_DETAILS is set to 1. *)
Definition wasm_backtrace_details_enabled (env : bool) (c : Config) : bool :=
  match c_wasm_backtrace_details c with WbEnable => true | WbDisable => false | WbEnvironment => env end.

(** ** The engine *)
Record EngineInner : Type := {
  ei_epoch : Z;
  ei_max_wasm_stack : Z;
  ei_consume_fuel : bool;
  ei_epoch_interruption : bool;
  ei_is_async : bool;
  ei_collector : CollectorKind;
  ei_gc_memory_threshold : option Z;
  ei_gc_heap_reservation : Z;
  ei_module_limits : ModuleLimits;
  ei_gc_committed : Z;
  ei_gc_requests : list Z;
  ei_wasm_backtrace : bool;
  ei_retain_dwarf : bool;
  ei_types : TypeRegistry;
}.

Definition DEFAULT_MAX_WASM_STACK : Z := 512 * 1024.

Definition Engine_new (env : bool) (config : Config) : res EngineInner :=
  collector ← Collector_resolve (c_collector config);
  Ok {| ei_epoch := 0;
        ei_max_wasm_stack := default DEFAULT_MAX_WASM_STACK (c_max_wasm_stack config);
        ei_consume_fuel := c_consume_fuel config;
        ei_epoch_interruption := c_epoch_interruption config;
        ei_is_async := c_async_support config;
        ei_collector := collector;
        ei_gc_memory_threshold := c_gc_memory_threshold config;
        ei_gc_heap_reservation := gc_heap_reservation_bytes config;
        ei_module_limits := Config_module_limits config;
        ei_gc_committed := 0;
        ei_gc_requests := [];
        ei_wasm_backtrace := c_wasm_backtrace config;
        ei_retain_dwarf := c_debug_info config || (c_wasm_backtrace config && wasm_backtrace_details_enabled env config);
        ei_types := registry_default |}.
(** [Engine::default] expects the default configuration to be valid. *)
Definition Engine_default (env : bool) : res EngineInner :=
  match Engine_new env Config_default with Ok e => Ok e | _ => Panic "default config is always valid" end.

Definition is_collecting (e : EngineInner) : bool := bool_decide (ei_collector e = CkMarkSweep).

(** Updates of the parts that change: the epoch, the account, the mailboxes, the registry. *)
Definition set_ei (epoch committed : Z) (requests : list Z) (types : TypeRegistry) (e : EngineInner) : EngineInner :=
  {| ei_epoch := epoch; ei_max_wasm_stack := ei_max_wasm_stack e; ei_consume_fuel := ei_consume_fuel e;
     ei_epoch_interruption := ei_epoch_interruption e; ei_is_async := ei_is_async e; ei_collector := ei_collector e;
     ei_gc_memory_threshold := ei_gc_memory_threshold e; ei_gc_heap_reservation := ei_gc_heap_reservation e;
     ei_module_limits := ei_module_limits e; ei_gc_committed := committed; ei_gc_requests := requests;
     ei_wasm_backtrace := ei_wasm_backtrace e; ei_retain_dwarf := ei_retain_dwarf e; ei_types := types |}.
Definition set_committed (n : Z) (e : EngineInner) := set_ei (ei_epoch e) n (ei_gc_requests e) (ei_types e) e.
Definition set_requests (l : list Z) (e : EngineInner) := set_ei (ei_epoch e) (ei_gc_committed e) l (ei_types e) e.
Definition set_types (r : TypeRegistry) (e : EngineInner) := set_ei (ei_epoch e) (ei_gc_committed e) (ei_gc_requests e) r e.

Definition current_epoch (e : EngineInner) : Z := ei_epoch e.
Definition increment_epoch (e : EngineInner) : EngineInner :=
  set_ei (wrap 64 (ei_epoch e + 1)) (ei_gc_committed e) (ei_gc_requests e) (ei_types e) e.

(** *** The registry behind its lock
    A poisoned lock is recovered, so every operation is the registry's. *)
Definition on_types {A} (m : SM TypeRegistry A) : SM EngineInner A := zoom ei_types set_types m.
Definition Engine_intern_types (types : list ModuleType) : SM EngineInner (list Z * list Z) := on_types (intern_module types).
Definition Engine_release_types (group_ids : list Z) : SM EngineInner () := on_types (release group_ids).
Definition Engine_incref_type (id : Z) : SM EngineInner () := on_types (incref_type id).
Definition Engine_decref_type (id : Z) : SM EngineInner () := on_types (decref_type id).
Definition Engine_release_group (g : Z) : SM EngineInner () := Engine_release_types [g].
Definition Engine_intern_func_type (params results : list ValType) : SM EngineInner Z :=
  r ← on_types (intern_func params results); mret r.1.
Definition Engine_intern_struct_type (finality : Finality) (supertype : option Z) (fields : list FieldType) : SM EngineInner Z :=
  r ← on_types (intern_struct finality supertype fields); mret r.1.
Definition Engine_intern_array_type (finality : Finality) (supertype : option Z) (field : FieldType) : SM EngineInner Z :=
  r ← on_types (intern_array finality supertype field); mret r.1.
Definition Engine_intern_host_group (members : list ModuleType) (externals : list Z) : SM EngineInner (list Z * Z) :=
  on_types (intern_host_group members externals).
(** Materializing pins the types it names, so the readers update the registry too. *)
Definition live_or {A} (m : SM TypeRegistry (option A)) (why : string) : SM EngineInner A :=
  o ← on_types m; lift (ok_or o (EMsg why)).
Definition Engine_func_sig (id : Z) := live_or (registry_func_sig id) "not a live func type".
Definition Engine_struct_fields (id : Z) := live_or (registry_struct_fields id) "not a live struct type".
Definition Engine_array_field (id : Z) := live_or (registry_array_field id) "not a live array type".

(** *** The committed bytes and the mailboxes
    A mailbox is an atomic flag its store owns; the engine holds a weak handle to it,
    which upgrades as long as the store lives.  [sh_flags] has the flags that live, by
    the identity of their allocation, and [sh_next] an identity not used before. *)
Record Shared : Type := { sh_engine : EngineInner; sh_flags : gmap Z bool; sh_next : Z }.
Definition set_sh_engine (e : EngineInner) (s : Shared) : Shared :=
  {| sh_engine := e; sh_flags := sh_flags s; sh_next := sh_next s |}.
Definition set_sh_flags (m : gmap Z bool) (s : Shared) : Shared :=
  {| sh_engine := sh_engine s; sh_flags := m; sh_next := sh_next s |}.

Definition register_gc_request : SM Shared Z := λ s,
  let flag := sh_next s in
  (Ok flag, {| sh_engine := set_requests (ei_gc_requests (sh_engine s) ++ [flag]) (sh_engine s);
               sh_flags := <[flag := false]> (sh_flags s); sh_next := flag + 1 |}).

(** The atomic addition, and the total its caller computes from what it returned. *)
Definition gc_fetch_add (delta : Z) : SM Shared Z := λ s,
  let total := wrap usize_bits (ei_gc_committed (sh_engine s) + delta) in
  (Ok total, set_sh_engine (set_committed total (sh_engine s)) s).
Definition over_threshold (e : EngineInner) (total : Z) : bool :=
  match ei_gc_memory_threshold e with None => false | Some t => negb (total <=? t) end.
(** [retain]: raise the flag of a mailbox that upgrades, forget one that does not. *)
Definition upgrades (s : Shared) (w : Z) : bool := bool_decide (is_Some (sh_flags s !! w)).
Definition post_gc_requests : SM Shared () := modify (λ s,
  {| sh_engine := set_requests (filter (λ w, upgrades s w = true) (ei_gc_requests (sh_engine s))) (sh_engine s);
     sh_flags := foldr (λ w m, if upgrades s w then <[w := true]> m else m) (sh_flags s) (ei_gc_requests (sh_engine s));
     sh_next := sh_next s |}).
Definition add_gc_committed (delta : Z) : SM Shared () :=
  total ← gc_fetch_add delta;
  over ← gets (λ s, over_threshold (sh_engine s) total);
  if (over : bool) then post_gc_requests else mret tt.
Definition sub_gc_committed (delta : Z) : SM Shared () := modify (λ s,
  set_sh_engine (set_committed (wrap usize_bits (ei_gc_committed (sh_engine s) - delta)) (sh_engine s)) s).
Definition gc_committed_bytes (s : Shared) : Z := ei_gc_committed (sh_engine s).

(** [StoreInner::take_gc_request]: the swap, on the flag the store owns. *)
Definition take_gc_request (flag : Z) : SM Shared bool := λ s,
  match sh_flags s !! flag with
  | Some b => (Ok b, set_sh_flags (<[flag := false]> (sh_flags s)) s)
  | None => (Panic "a store outlives its mailbox", s)
  end.
(** The flag goes with the last strong handle, the store's. *)
Definition drop_mailbox (flag : Z) : SM Shared () := modify (λ s, set_sh_flags (delete flag (sh_flags s)) s).

(** ** The stores of one engine, interleaved *)

(** Where a store's thread is in the accounting: not in it, between the grant and the
    count, between the count and the post, or between the release and the end. *)
Inductive Phase : Type := Running | Granted (delta : Z) | Posting | Released.
Record Tenant : Type := { tn_heap : GcHeap; tn_phase : Phase }.
(** The stores go by their mailboxes. *)
Record World : Type := { w_shared : Shared; w_stores : gmap Z Tenant }.

Definition world_new (e : EngineInner) : World :=
  {| w_shared := {| sh_engine := e; sh_flags := ∅; sh_next := 0 |}; w_stores := ∅ |}.
Definition put_tenant (k : Z) (h : GcHeap) (p : Phase) (w : World) : World :=
  {| w_shared := w_shared w; w_stores := <[k := {| tn_heap := h; tn_phase := p |}]> (w_stores w) |}.
Definition put_shared (s : Shared) (w : World) : World := {| w_shared := s; w_stores := w_stores w |}.
Definition tenant (w : World) (k : Z) (h : GcHeap) (p : Phase) : Prop :=
  w_stores w !! k = Some {| tn_heap := h; tn_phase := p |}.

(** What a store does to its heap between two growths of the reservation
    (allocating, collecting), and a growth, at a target that is not below it. *)
Inductive heap_step : GcHeap → GcHeap → Prop :=
  | hs_local h h' : gc_budget h' = gc_budget h → heap_step h h'
  | hs_grant h target : gc_reserved h ≤ target → heap_step h (grant target h).2.

Inductive Event : Type :=
  | EvNew (k : Z) | EvHeap (k : Z) | EvGrant (k target : Z) | EvAdd (k total : Z) | EvPost (k : Z)
  | EvTake (k : Z) (asked : bool) | EvRelease (k : Z) | EvDrop (k : Z) | EvEpoch | EvTypes.

Inductive engine_step : World → Event → World → Prop :=
  | st_new w k s :
      register_gc_request (w_shared w) = (Ok k, s) →
      engine_step w (EvNew k) (put_tenant k (gc_new (is_collecting (sh_engine s)) (ei_gc_heap_reservation (sh_engine s))) Running
                          (put_shared s w))
  | st_heap w k h h' :
      tenant w k h Running → gc_budget h' = gc_budget h → engine_step w (EvHeap k) (put_tenant k h' Running w)
  | st_grant w k h target granted h' :
      tenant w k h Running → gc_reserved h ≤ target → grant target h = (granted, h') →
      engine_step w (EvGrant k target) (put_tenant k h' (Granted granted) w)
  | st_add w k h delta total s :
      tenant w k h (Granted delta) → gc_fetch_add delta (w_shared w) = (Ok total, s) →
      engine_step w (EvAdd k total) (put_tenant k h (if over_threshold (sh_engine s) total then Posting else Running) (put_shared s w))
  | st_post w k h s :
      tenant w k h Posting → post_gc_requests (w_shared w) = (Ok tt, s) →
      engine_step w (EvPost k) (put_tenant k h Running (put_shared s w))
  | st_take w k h b s :
      tenant w k h Running → take_gc_request k (w_shared w) = (Ok b, s) →
      engine_step w (EvTake k b) (put_shared s w)
  | st_release w k h s :
      tenant w k h Running → sub_gc_committed (gc_reserved h) (w_shared w) = (Ok tt, s) →
      engine_step w (EvRelease k) (put_tenant k h Released (put_shared s w))
  | st_drop w k h s :
      tenant w k h Released → drop_mailbox k (w_shared w) = (Ok tt, s) →
      engine_step w (EvDrop k) {| w_shared := s; w_stores := delete k (w_stores w) |}
  | st_epoch w :
      engine_step w EvEpoch (put_shared (set_sh_engine (increment_epoch (sh_engine (w_shared w))) (w_shared w)) w)
  | st_types w r :
      engine_step w EvTypes (put_shared (set_sh_engine (set_types r (sh_engine (w_shared w))) (w_shared w)) w).

Inductive engine_steps : World → list Event → World → Prop :=
  | steps_nil w : engine_steps w [] w
  | steps_cons w ev w1 tr w2 : engine_step w ev w1 → engine_steps w1 tr w2 → engine_steps w (ev :: tr) w2.

(** What of a store's reservation is in the count, and the sum over the stores. *)
Definition counted (t : Tenant) : Z :=
  match tn_phase t with
  | Granted delta => gc_reserved (tn_heap t) - delta
  | Released => 0
  | Running | Posting => gc_reserved (tn_heap t)
  end.
Definition total_counted (m : gmap Z Tenant) : Z := map_fold (λ _ t acc, counted t + acc) 0 m.

(** ** Configuration facts *)

(** An engine exists for exactly the collectors that are implemented; it starts with
    nothing committed and no mailbox. *)
Lemma Engine_new_spec env c :
  match Engine_new env c with
  | Ok e => (c_collector c = CoNull ∧ is_collecting e = false ∨
             c_collector c ∈ [CoAuto; CoMarkSweep] ∧ is_collecting e = true) ∧
            ei_gc_memory_threshold e = c_gc_memory_threshold c ∧ ei_gc_committed e = 0 ∧ ei_gc_requests e = []
  | Err _ => c_collector c ∈ [CoDeferredReferenceCounting; CoCopying]
  | Panic _ => False
  end.
Proof. unfold Engine_new. destruct c as [? ? ? [] ? ? ? ? ? ? ? ?]; cbn; set_solver. Qed.
Lemma Engine_default_total env : ∃ e, Engine_default env = Ok e ∧ is_collecting e = true ∧ ei_gc_memory_threshold e = None.
Proof. eexists. split; [reflexivity|done]. Qed.

(** ** The count *)
Lemma total_insert m k t t0 :
  m !! k = Some t0 → total_counted (<[k := t]> m) = total_counted m - counted t0 + counted t.
Proof.
  intros Hk. unfold total_counted. rewrite <- (insert_id m k t0 Hk) at 2.
  rewrite <- (insert_delete_eq m k t), <- (insert_delete_eq m k t0).
  rewrite !map_fold_insert_L; rewrite ?lookup_delete_eq; try done; intros; lia.
Qed.
Lemma total_insert_new m k t : m !! k = None → total_counted (<[k := t]> m) = total_counted m + counted t.
Proof. intros Hk. unfold total_counted. rewrite map_fold_insert_L; [lia|intros; lia|done]. Qed.
Lemma total_delete m k t : m !! k = Some t → total_counted (delete k m) = total_counted m - counted t.
Proof.
  intros Hk. rewrite <- (insert_id m k t Hk) at 2. rewrite <- insert_delete_eq.
  rewrite total_insert_new by apply lookup_delete_eq. lia.
Qed.
Lemma total_nonneg m : (∀ k t, m !! k = Some t → 0 ≤ counted t) → 0 ≤ total_counted m.
Proof.
  induction m as [|k t m Hk IH] using map_ind; intros Ht; [done|]. rewrite total_insert_new by done.
  pose proof (Ht k t (lookup_insert_eq _ _ _)).
  enough (0 ≤ total_counted m) by lia. apply IH. intros k' t' Hk'. apply (Ht k').
  rewrite lookup_insert_ne; [done|]. intros ->. congruence.
Qed.

(** ** The invariant *)
Lemma wrap_total a b c d n : a = wrap n b → d = b + c → wrap n (a + c) = wrap n d.
Proof. intros -> ->. unfold wrap. by rewrite Zplus_mod_idemp_l. Qed.

Lemma raised_lookup s (ws : list Z) (m : gmap Z bool) j :
  foldr (λ w m, if upgrades s w then <[w := true]> m else m) m ws !! j =
  if bool_decide (j ∈ ws) && upgrades s j then Some true else m !! j.
Proof.
  induction ws as [|w ws IH]; cbn [foldr]; [done|].
  rewrite (bool_decide_ext (j ∈ w :: ws) (j = w ∨ j ∈ ws)) by apply elem_of_cons.
  destruct (upgrades s w) eqn:Hw; [destruct (decide (j = w)) as [->|Hne]|].
  - rewrite lookup_insert_eq, Hw. by rewrite bool_decide_eq_true_2 by by left.
  - rewrite lookup_insert_ne, IH by done. by rewrite (bool_decide_ext (j = w ∨ j ∈ ws) (j ∈ ws)) by naive_solver.
  - rewrite IH. destruct (decide (j = w)) as [->|Hne]; [by rewrite Hw, !andb_false_r|].
    by rewrite (bool_decide_ext (j = w ∨ j ∈ ws) (j ∈ ws)) by naive_solver.
Qed.

(** The engine's configuration is [e]'s, the count is exact up to its width, and the
    mailboxes that live are the stores', each registered once. *)
Record world_ok (e : EngineInner) (w : World) : Prop := {
  wo_threshold : ei_gc_memory_threshold (sh_engine (w_shared w)) = ei_gc_memory_threshold e;
  wo_count : gc_committed_bytes (w_shared w) = wrap usize_bits (total_counted (w_stores w));
  wo_live : ∀ k, is_Some (sh_flags (w_shared w) !! k) ↔ is_Some (w_stores w !! k);
  wo_registered : ∀ k, is_Some (w_stores w !! k) → k ∈ ei_gc_requests (sh_engine (w_shared w));
  wo_once : NoDup (ei_gc_requests (sh_engine (w_shared w)));
  wo_next : ∀ k, k ∈ ei_gc_requests (sh_engine (w_shared w)) → k < sh_next (w_shared w);
}.

Lemma world_new_ok env c e : Engine_new env c = Ok e → world_ok e (world_new e).
Proof.
  intros He. pose proof (Engine_new_spec env c) as Hs. rewrite He in Hs. destruct Hs as (_ & _ & Hc & Hr).
  split; cbn; rewrite ?Hr; [done| |intros; rewrite !lookup_empty; done|intros ? [? Hk]; by rewrite lookup_empty in Hk|constructor|set_solver].
  unfold gc_committed_bytes. by cbn; rewrite Hc.
Qed.

(** A store moves on and the count follows; flags and mailboxes stay. *)
Lemma world_ok_account e w k t0 h p s :
  world_ok e w → w_stores w !! k = Some t0 →
  (∃ n, s = set_sh_engine (set_committed n (sh_engine (w_shared w))) (w_shared w) ∧
        n = wrap usize_bits (total_counted (w_stores w) - counted t0 + counted {| tn_heap := h; tn_phase := p |})) →
  world_ok e (put_tenant k h p (put_shared s w)).
Proof.
  intros [] Hk (n & -> & ->).
  assert (∀ j, is_Some (<[k := {| tn_heap := h; tn_phase := p |}]> (w_stores w) !! j) ↔ is_Some (w_stores w !! j)) as Hdom.
  { intros j. destruct (decide (k = j)) as [<-|]; [rewrite lookup_insert_eq, Hk|by rewrite lookup_insert_ne].
    by split; intros; eexists. }
  split; cbn; [done| |..]; try setoid_rewrite Hdom; try done.
  unfold gc_committed_bytes. cbn. by rewrite (total_insert _ _ _ t0).
Qed.
Lemma put_same w : put_shared (w_shared w) w = w.
Proof. by destruct w. Qed.
Lemma account_same e w t0 t :
  world_ok e w → counted t = counted t0 →
  ∃ n, w_shared w = set_sh_engine (set_committed n (sh_engine (w_shared w))) (w_shared w) ∧
       n = wrap usize_bits (total_counted (w_stores w) - counted t0 + counted t).
Proof.
  intros Hok Ht. exists (gc_committed_bytes (w_shared w)). split; [by destruct w as [[[] ? ?] ?]|].
  rewrite (wo_count _ _ Hok). f_equal. lia.
Qed.

(** A store comes: its mailbox is fresh. *)
Lemma world_ok_new e w h :
  world_ok e w → gc_reserved h = 0 →
  world_ok e (put_tenant (sh_next (w_shared w)) h Running (put_shared (register_gc_request (w_shared w)).2 w)).
Proof.
  intros [] Hh. assert (w_stores w !! sh_next (w_shared w) = None) as Hf.
  { apply eq_None_not_Some. intros Hs%wo_registered0%wo_next0. lia. }
  split; cbn.
  - done.
  - unfold gc_committed_bytes in *. cbn. rewrite total_insert_new by done. rewrite wo_count0. f_equal. unfold counted. cbn. lia.
  - intros k. destruct (decide (sh_next (w_shared w) = k)) as [<-|]; [rewrite !lookup_insert_eq|rewrite !lookup_insert_ne by done; done].
    by split; intros; eexists.
  - intros k. destruct (decide (sh_next (w_shared w) = k)) as [<-|]; [set_solver|].
    rewrite lookup_insert_ne by done. intros ?%wo_registered0. set_solver.
  - apply NoDup_app. split_and!; [done| |apply NoDup_singleton]. intros k Hk%wo_next0 Heq%list_elem_of_singleton. lia.
  - intros k [Hk%wo_next0|Hk%list_elem_of_singleton]%elem_of_app; lia.
Qed.

(** A post leaves the mailboxes of the stores that live. *)
Lemma world_ok_post e w k h :
  world_ok e w → tenant w k h Posting →
  world_ok e (put_tenant k h Running (put_shared (post_gc_requests (w_shared w)).2 w)).
Proof.
  intros Hok Hk.
  destruct (world_ok_account e w k _ h Running (w_shared w) Hok Hk) as []; [by apply (account_same e)|]. rewrite put_same in *.
  split; cbn in *; try done.
  - intros j. rewrite raised_lookup, <- wo_live0. unfold upgrades. repeat case_bool_decide; naive_solver.
  - intros j Hj. apply list_elem_of_filter. split; [|by apply wo_registered0].
    unfold upgrades. apply bool_decide_eq_true_2. by apply wo_live0.
  - by apply NoDup_filter.
  - intros j [_ Hj]%list_elem_of_filter. by apply wo_next0.
Qed.

(** A store reads its mailbox, or gives it up when it ends. *)
Lemma world_ok_take e w k b0 :
  world_ok e w → sh_flags (w_shared w) !! k = Some b0 →
  world_ok e (put_shared (set_sh_flags (<[k := false]> (sh_flags (w_shared w))) (w_shared w)) w).
Proof.
  intros [] Hk. split; cbn; try done. intros j. rewrite <- wo_live0.
  destruct (decide (k = j)) as [<-|]; [rewrite lookup_insert_eq, Hk|by rewrite lookup_insert_ne]. by split; intros; eexists.
Qed.
Lemma world_ok_drop e w k h :
  world_ok e w → tenant w k h Released →
  world_ok e {| w_shared := (drop_mailbox k (w_shared w)).2; w_stores := delete k (w_stores w) |}.
Proof.
  intros [] Hk. split; cbn; try done.
  - unfold gc_committed_bytes in *. cbn. rewrite (total_delete _ _ _ Hk), wo_count0. f_equal. unfold counted. cbn. lia.
  - intros j. destruct (decide (k = j)) as [<-|]; [by rewrite !lookup_delete_eq|by rewrite !lookup_delete_ne].
  - intros j. destruct (decide (k = j)) as [<-|]; [rewrite lookup_delete_eq; by intros []|].
    rewrite lookup_delete_ne by done. apply wo_registered0.
Qed.

Lemma counted_grant h target granted h' :
  gc_reserved h ≤ target → grant target h = (granted, h') →
  counted {| tn_heap := h'; tn_phase := Granted granted |} = gc_reserved h.
Proof. intros ?. unfold grant, saturating_sub, counted. intros [= <- <-]. cbn. lia. Qed.

Lemma engine_step_ok e w ev w' : world_ok e w → engine_step w ev w' → world_ok e w'.
Proof.
  intros Hok Hs. destruct Hs as [w k s Hr|w k h h' Hk Hb|w k h target granted h' Hk Ht Hg|w k h delta total s Hk Hr
    |w k h s Hk Hr|w k h b s Hk Hr|w k h s Hk Hr|w k h s Hk Hr|w|w r].
  - injection Hr as <- <-. by apply (world_ok_new e w).
  - rewrite <- (put_same w). eapply world_ok_account; [done|exact Hk|]. apply (account_same e); [done|].
    unfold counted. cbn. by injection Hb.
  - rewrite <- (put_same w). eapply world_ok_account; [done|exact Hk|]. apply (account_same e); [done|].
    by rewrite (counted_grant _ _ _ _ Ht Hg).
  - injection Hr as <- <-. eapply world_ok_account; [done|exact Hk|]. eexists. split; [reflexivity|].
    apply (wrap_total _ _ _ _ _ (wo_count _ _ Hok)). destruct (over_threshold _ _); unfold counted; cbn; lia.
  - injection Hr as <-. by apply (world_ok_post e w k h).
  - unfold take_gc_request in Hr. destruct (sh_flags _ !! k) eqn:Hf; [|done]. injection Hr as <- <-. by eapply world_ok_take.
  - injection Hr as <-. eapply world_ok_account; [done|exact Hk|]. eexists. split; [reflexivity|].
    unfold Z.sub. apply (wrap_total _ _ _ _ _ (wo_count _ _ Hok)). unfold counted. cbn. lia.
  - injection Hr as <-. by apply (world_ok_drop e w k h).
  - destruct Hok. by split.
  - destruct Hok. by split.
Qed.
Lemma engine_steps_ok e w tr w' : world_ok e w → engine_steps w tr w' → world_ok e w'.
Proof. intros Hok Hs. induction Hs; eauto using engine_step_ok. Qed.

(** What a store has in the count is between nothing and its reservation. *)
Definition counts_bounded (w : World) : Prop :=
  ∀ k t, w_stores w !! k = Some t → 0 ≤ counted t ≤ gc_reserved (tn_heap t).
Lemma counts_bounded_put k h p s w :
  counts_bounded w → 0 ≤ counted {| tn_heap := h; tn_phase := p |} ≤ gc_reserved h → counts_bounded (put_tenant k h p (put_shared s w)).
Proof. intros Hw Hc j t. cbn. intros [[<- <-]|[_ Hj]]%lookup_insert_Some; [done|]. by apply (Hw j). Qed.
Lemma engine_step_bounded w ev w' : counts_bounded w → engine_step w ev w' → counts_bounded w'.
Proof.
  intros Hw Hs. destruct Hs as [w k s Hr|w k h h' Hk Hb|w k h target granted h' Hk Ht Hg|w k h delta total s Hk Hr
    |w k h s Hk Hr|w k h b s Hk Hr|w k h s Hk Hr|w k h s Hk Hr|w|w r]; try (pose proof (Hw _ _ Hk) as Hc).
  - by apply counts_bounded_put.
  - rewrite <- (put_same w). apply counts_bounded_put; [done|]. injection Hb as Hb _ _ _. unfold counted in *. cbn in *. lia.
  - rewrite <- (put_same w). apply counts_bounded_put; [done|]. rewrite (counted_grant _ _ _ _ Ht Hg).
    injection Hg as _ <-. unfold counted in Hc. cbn in *. lia.
  - apply counts_bounded_put; [done|]. unfold counted in *. destruct (over_threshold _ _); cbn in *; lia.
  - by apply counts_bounded_put.
  - done.
  - apply counts_bounded_put; [done|]. unfold counted in *. cbn in *. lia.
  - intros j t. cbn. intros [_ Hj]%lookup_delete_Some. by apply (Hw j).
  - done.
  - done.
Qed.
Lemma engine_steps_bounded w tr w' : counts_bounded w → engine_steps w tr w' → counts_bounded w'.
Proof. intros Hw Hs. induction Hs; eauto using engine_step_bounded. Qed.

Lemma count_exact e w :
  world_ok e w → counts_bounded w → total_counted (w_stores w) < 2 ^ usize_bits → gc_committed_bytes (w_shared w) = total_counted (w_stores w).
Proof.
  intros Hok Hb Ht. rewrite (wo_count _ _ Hok). apply wrap_id. split; [|done].
  apply total_nonneg. intros k t Hk. by apply (Hb k t).
Qed.

(** ** Requests *)

(** A store about to post stays so until it posts. *)
Lemma posting_kept e w ev w' k h :
  world_ok e w → engine_step w ev w' → tenant w k h Posting → ev = EvPost k ∨ tenant w' k h Posting.
Proof.
  intros Hok Hs Hk.
  assert (∀ s j h1 p, j ≠ k → tenant (put_tenant j h1 p (put_shared s w)) k h Posting) as Hput.
  { intros. unfold tenant. cbn. by rewrite lookup_insert_ne. }
  destruct Hs as [w j s Hr|w j h1 h' Hj Hb|w j h1 target granted h' Hj Ht Hg|w j h1 delta total s Hj Hr
    |w j h1 s Hj Hr|w j h1 b s Hj Hr|w j h1 s Hj Hr|w j h1 s Hj Hr|w|w r]; try (by right);
    try (destruct (decide (j = k)) as [->|Hne]; [first [by left|unfold tenant in *; congruence|idtac]|]);
    try (right; first [by apply Hput|rewrite <- (put_same w); by apply Hput]).
  - injection Hr as <- _. pose proof (wo_next _ _ Hok _ (wo_registered _ _ Hok _ (mk_is_Some _ _ Hk))). lia.
  - right. unfold tenant. cbn. by rewrite lookup_delete_ne.
Qed.

Lemma posting_until e w tr w' k h :
  world_ok e w → engine_steps w tr w' → tenant w k h Posting →
  tenant w' k h Posting ∨
  ∃ tr1 tr2 w1 w2, tr = tr1 ++ EvPost k :: tr2 ∧ engine_steps w tr1 w1 ∧ engine_step w1 (EvPost k) w2 ∧ engine_steps w2 tr2 w'.
Proof.
  intros Hok Hs Hk. induction Hs as [|w ev w1 tr w2 H1 Hs IH]; [by left|].
  destruct (posting_kept _ _ _ _ _ _ Hok H1 Hk) as [->|Hk1].
  - right. exists [], tr, w, w1. split_and!; [done|constructor|done..].
  - destruct (IH (engine_step_ok _ _ _ _ Hok H1) Hk1) as [?|(tr1 & tr2 & wa & wb & -> & Ha & Hb & Hc)]; [by left|].
    right. exists (ev :: tr1), tr2, wa, wb. split_and!; [done| |done..]. by econstructor.
Qed.

(** A post raises the flag of every store there is, and forgets the mailboxes of the
    others. *)
Lemma post_raises e w k w' :
  world_ok e w → engine_step w (EvPost k) w' →
  (∀ j, is_Some (w_stores w' !! j) → sh_flags (w_shared w') !! j = Some true) ∧
  (∀ j, j ∈ ei_gc_requests (sh_engine (w_shared w')) ↔ is_Some (w_stores w' !! j)) ∧
  (∀ j, is_Some (w_stores w !! j) → is_Some (w_stores w' !! j)).
Proof.
  intros Hok Hs. pose proof (engine_step_ok _ _ _ _ Hok Hs) as Hok'. inversion Hs as [| | | |? ? h s Hk Hr| | | | |]; subst.
  assert (∀ j, is_Some (w_stores w !! j) ↔ is_Some (w_stores (put_tenant k h Running (put_shared s w)) !! j)) as Hdom.
  { intros j. cbn. destruct (decide (k = j)) as [<-|]; [rewrite lookup_insert_eq, Hk|by rewrite lookup_insert_ne].
    by split; intros; eexists. }
  injection Hr as <-. split_and!.
  - intros j Hj%Hdom. cbn. rewrite raised_lookup. unfold upgrades.
    rewrite !bool_decide_eq_true_2; [done|by apply (wo_live _ _ Hok)|by apply (wo_registered _ _ Hok)].
  - intros j. split; [|apply (wo_registered _ _ Hok')].
    change (j ∈ filter (λ v, upgrades (w_shared w) v = true) (ei_gc_requests (sh_engine (w_shared w))) → is_Some (w_stores (put_tenant k h Running (put_shared (post_gc_requests (w_shared w)).2 w)) !! j)).
    intros [Hj%bool_decide_eq_true _]%list_elem_of_filter. by apply Hdom, (wo_live _ _ Hok).
  - intros j. apply Hdom.
Qed.

(** A raised flag falls when its own store reads it, or ends. *)
Lemma flag_kept w ev w' j :
  engine_step w ev w' → sh_flags (w_shared w) !! j = Some true → j < sh_next (w_shared w) →
  ev ∈ [EvTake j true; EvDrop j] ∨ (sh_flags (w_shared w') !! j = Some true ∧ j < sh_next (w_shared w')).
Proof.
  intros Hs Hj Hn. destruct Hs as [w k s Hr|w k h1 h' Hk Hb|w k h1 target granted h' Hk Ht Hg|w k h1 delta total s Hk Hr
    |w k h1 s Hk Hr|w k h1 b s Hk Hr|w k h1 s Hk Hr|w k h1 s Hk Hr|w|w r]; try (by right).
  - right. injection Hr as <- <-. cbn. rewrite lookup_insert_ne by lia. split; [done|lia].
  - right. by injection Hr as <- <-.
  - right. injection Hr as <-. cbn. rewrite raised_lookup. by destruct (_ && _).
  - unfold take_gc_request in Hr. destruct (sh_flags _ !! k) eqn:Hf; [|done]. injection Hr as <- <-.
    destruct (decide (k = j)) as [->|Hne]; [left; rewrite Hj in Hf; injection Hf as <-; set_solver|].
    right. cbn. by rewrite lookup_insert_ne.
  - right. by injection Hr as <-.
  - injection Hr as <-. destruct (decide (k = j)) as [->|Hne]; [left; set_solver|].
    right. cbn. by rewrite lookup_delete_ne.
Qed.
Lemma flag_until w tr w' j :
  engine_steps w tr w' → sh_flags (w_shared w) !! j = Some true → j < sh_next (w_shared w) →
  EvTake j true ∈ tr ∨ EvDrop j ∈ tr ∨ sh_flags (w_shared w') !! j = Some true.
Proof.
  intros Hs. induction Hs as [|w ev w1 tr w2 H1 Hs IH]; intros Hj Hn; [by right; right|].
  destruct (flag_kept _ _ _ _ H1 Hj Hn) as [Hev|[Hj1 Hn1]]; [set_solver|]. specialize (IH Hj1 Hn1). set_solver.
Qed.

(** Nobody is asked before a count passes the threshold. *)
Definition quiet (w : World) : Prop :=
  (∀ j, sh_flags (w_shared w) !! j ≠ Some true) ∧ ∀ k h, ¬ tenant w k h Posting.
Lemma quiet_put k h p w : quiet w → p ≠ Posting → ∀ s, sh_flags s = sh_flags (w_shared w) → quiet (put_tenant k h p (put_shared s w)).
Proof.
  intros [Hf Hp] Hne s Hs. split; [intros j; cbn; by rewrite Hs|].
  intros j h'. unfold tenant. cbn. intros [[_ [= _ ->]]|[_ Hj]]%lookup_insert_Some; [done|by apply (Hp j h')].
Qed.
Lemma quiet_step e w ev w' :
  world_ok e w → engine_step w ev w' → quiet w →
  (∃ k total, ev = EvAdd k total ∧ over_threshold e total = true) ∨ quiet w'.
Proof.
  intros Hok Hs Hq. pose proof Hq as [Hf Hp]. destruct Hs as [w k s Hr|w k h h' Hk Hb|w k h target granted h' Hk Ht Hg|w k h delta total s Hk Hr
    |w k h s Hk Hr|w k h b s Hk Hr|w k h s Hk Hr|w k h s Hk Hr|w|w r].
  - right. injection Hr as <- <-. split; cbn.
    + intros j. intros [[_ ?]|[_ Hj]]%lookup_insert_Some; [done|by apply (Hf j)].
    + intros j h. unfold tenant. cbn. intros [[_ ?]|[_ Hj]]%lookup_insert_Some; [done|by apply (Hp j h)].
  - right. rewrite <- (put_same w). by apply quiet_put.
  - right. rewrite <- (put_same w). by apply quiet_put.
  - injection Hr as <- <-. cbn [sh_engine set_sh_engine].
    assert (∀ n, over_threshold (set_committed n (sh_engine (w_shared w))) n = over_threshold e n) as Ho.
    { intros n. unfold over_threshold. cbn. by rewrite (wo_threshold _ _ Hok). }
    rewrite Ho. destruct (over_threshold e _) eqn:Hover; [left; eauto|right]. by apply quiet_put.
  - by destruct (Hp k h).
  - right. unfold take_gc_request in Hr. destruct (sh_flags _ !! k) eqn:Hfl; [|done]. injection Hr as <- <-.
    split; [|done]. cbn. intros j [[_ ?]|[_ Hj]]%lookup_insert_Some; [done|by apply (Hf j)].
  - right. injection Hr as <-. by apply quiet_put.
  - right. injection Hr as <-. split; cbn.
    + intros j [_ Hj]%lookup_delete_Some. by apply (Hf j).
    + intros j h'. unfold tenant. cbn. intros [_ Hj]%lookup_delete_Some. by apply (Hp j h').
  - by right.
  - by right.
Qed.
Lemma quiet_until e w tr w' :
  world_ok e w → engine_steps w tr w' → quiet w → (∃ k total, EvAdd k total ∈ tr ∧ over_threshold e total = true) ∨ quiet w'.
Proof.
  intros Hok Hs. induction Hs as [|w ev w1 tr w2 H1 Hs IH]; intros Hq; [by right|].
  destruct (quiet_step _ _ _ _ Hok H1 Hq) as [(k & n & -> & ?)|Hq1]; [left; exists k, n; set_solver|].
  destruct (IH (engine_step_ok _ _ _ _ Hok H1) Hq1) as [(k & n & ? & ?)|]; [left; exists k, n; set_solver|by right].
Qed.

Lemma engine_steps_app w tr1 tr2 w' :
  engine_steps w (tr1 ++ tr2) w' ↔ ∃ w1, engine_steps w tr1 w1 ∧ engine_steps w1 tr2 w'.
Proof.
  split.
  - revert w. induction tr1 as [|ev tr1 IH]; intros w Hs; [exists w; split; [constructor|done]|].
    inversion Hs as [|? ? wm ? ? H1 H2]; subst. destruct (IH wm H2) as (w1 & ? & ?). exists w1. split; [by econstructor|done].
  - intros (w1 & H1 & H2). induction H1; [done|]. cbn. econstructor; eauto.
Qed.

(** C32: the committed-bytes count and the collection mailboxes are sound under every
    interleaving of the stores' threads.  The count is the sum of the live stores'
    reservations (those granted but not yet counted, and those already released,
    apart), up to the width of the counter and exactly when the sum fits it.  No
    store is asked to collect unless some addition passed the threshold.  And when
    one did, with the total of that moment, its thread posts (or is still about to):
    then the engine's mailboxes are exactly those of the stores that live, and every
    one of these stores, whatever happens next, has read the request, has ended, or
    still has it. *)
Theorem gc_pressure_delivered env c e tr w :
  Engine_new env c = Ok e → engine_steps (world_new e) tr w →
  gc_committed_bytes (w_shared w) = wrap usize_bits (total_counted (w_stores w)) ∧
  (total_counted (w_stores w) < 2 ^ usize_bits → gc_committed_bytes (w_shared w) = total_counted (w_stores w)) ∧
  (∀ j, sh_flags (w_shared w) !! j = Some true → ∃ k total, EvAdd k total ∈ tr ∧ over_threshold e total = true) ∧
  ∀ tr1 k total tr2, tr = tr1 ++ EvAdd k total :: tr2 → over_threshold e total = true →
    (∃ w0, engine_steps (world_new e) (tr1 ++ [EvAdd k total]) w0 ∧ total = wrap usize_bits (total_counted (w_stores w0))) ∧
    ((∃ h, tenant w k h Posting) ∨
     ∃ tr3 tr4 w1, tr2 = tr3 ++ EvPost k :: tr4 ∧
       engine_steps (world_new e) (tr1 ++ EvAdd k total :: tr3 ++ [EvPost k]) w1 ∧ engine_steps w1 tr4 w ∧
       (∀ j, j ∈ ei_gc_requests (sh_engine (w_shared w1)) ↔ is_Some (w_stores w1 !! j)) ∧
       ∀ j, is_Some (w_stores w1 !! j) → EvTake j true ∈ tr4 ∨ EvDrop j ∈ tr4 ∨ sh_flags (w_shared w) !! j = Some true).
Proof.
  intros He Hs. pose proof (world_new_ok _ _ _ He) as H0. pose proof (engine_steps_ok _ _ _ _ H0 Hs) as Hok.
  assert (counts_bounded (world_new e)) as Hb0 by (intros k t; cbn; by rewrite lookup_empty).
  pose proof (engine_steps_bounded _ _ _ Hb0 Hs) as Hb. split_and!.
  - apply Hok.
  - by apply (count_exact e).
  - intros j Hj. destruct (quiet_until e _ _ _ H0 Hs) as [?|[Hq _]]; [|done|by destruct (Hq j)].
    split; [intros k; cbn; by rewrite lookup_empty|intros k h; unfold tenant; cbn; by rewrite lookup_empty].
  - intros tr1 k total tr2 -> Hover. apply engine_steps_app in Hs as (wa & H1 & H2).
    inversion H2 as [|? ? w0 ? ? Hadd H3]; subst. pose proof (engine_steps_ok _ _ _ _ H0 H1) as Ha.
    pose proof (engine_step_ok _ _ _ _ Ha Hadd) as Ha0.
    assert (engine_steps (world_new e) (tr1 ++ [EvAdd k total]) w0) as Hpre.
    { apply engine_steps_app. exists wa. split; [done|]. econstructor; [done|constructor]. }
    assert (gc_committed_bytes (w_shared w0) = total ∧ ∃ h, tenant w0 k h Posting) as [Htot [h Hk]].
    { inversion Hadd as [| | |? ? h delta ? s Hk Hr| | | | | |]; subst. injection Hr as Htot <-. split; [done|]. exists h.
      unfold tenant. cbn. rewrite lookup_insert_eq. do 2 f_equal. unfold over_threshold in *. cbn.
      rewrite (wo_threshold _ _ Ha). by rewrite Hover. }
    split; [exists w0; split; [done|by rewrite <- Htot; apply Ha0]|].
    destruct (posting_until e _ _ _ k h Ha0 H3 Hk) as [?|(tr3 & tr4 & wb & w1 & -> & Hb3 & Hp & H4)]; [left; eauto|right].
    pose proof (engine_steps_ok _ _ _ _ Ha0 Hb3) as Hokb. pose proof (engine_step_ok _ _ _ _ Hokb Hp) as Hok1.
    destruct (post_raises _ _ _ _ Hokb Hp) as (Hraised & Hreq & _). exists tr3, tr4, w1. split_and!; [done| |done..|].
    + change (tr1 ++ EvAdd k total :: tr3 ++ [EvPost k]) with (tr1 ++ ([EvAdd k total] ++ tr3 ++ [EvPost k])).
      rewrite app_assoc. apply engine_steps_app. exists w0. split; [done|]. apply engine_steps_app. exists wb.
      split; [done|]. econstructor; [done|constructor].
    + intros j Hj. apply (flag_until _ _ _ _ H4); [by apply Hraised|].
      by apply (wo_next _ _ Hok1), (wo_registered _ _ Hok1).
Qed.

(** ** The steps of the model's stores
    What [gc_reserve_host] and the interpreter's [gc_reserve] do to a heap is a history
    of local steps and grants, so it is accounted. *)
Lemma heap_step_accounted h h' w k :
  heap_step h h' → tenant w k h Running → ∃ tr w', engine_steps w tr w' ∧ tenant w' k h' Running.
Proof.
  assert (∀ p h1 (w1 : World), tenant (put_tenant k h1 p w1) k h1 p) as Hput by (intros; apply lookup_insert_eq).
  intros [h0 h1 Hb|h0 target Ht] Hk.
  - eexists _, _. split; [econstructor; [by eapply st_heap|constructor]|apply Hput].
  - destruct (grant target h0) as [granted h1] eqn:Hg. cbn [snd].
    pose proof (st_grant w k h0 target granted h1 Hk Ht Hg) as S1. set (wa := put_tenant k h1 (Granted granted) w) in *.
    pose proof (st_add wa k h1 granted _ _ (Hput _ _ _) eq_refl) as S2.
    destruct (over_threshold _ _).
    + eexists _, _. split; [|apply Hput]. econstructor; [exact S1|]. econstructor; [exact S2|].
      econstructor; [eapply st_post; [apply Hput|done]|constructor].
    + eexists _, _. split; [|apply Hput]. econstructor; [exact S1|]. econstructor; [exact S2|constructor].
Qed.
Lemma history_accounted h h' w k :
  rtc heap_step h h' → tenant w k h Running → ∃ tr w', engine_steps w tr w' ∧ tenant w' k h' Running.
Proof.
  intros Hs. revert w. induction Hs as [h|h h1 h2 H1 _ IH]; intros w Hk; [eexists [], w; by split; [constructor|]|].
  destruct (heap_step_accounted _ _ _ _ H1 Hk) as (tr1 & w1 & S1 & Hk1). destruct (IH w1 Hk1) as (tr2 & w2 & S2 & Hk2).
  exists (tr1 ++ tr2), w2. split; [apply engine_steps_app; eauto|done].
Qed.

Section history.
Context `{Features, EngineTypes}.
Lemma desired_not_below h charge :
  gc_reserved h ≤ u_max usize_bits → 0 ≤ gc_next_grow h → gc_reserved h ≤ desired_reservation h charge.
Proof. unfold desired_reservation, saturating_add, u_max. lia. Qed.

(** The interpreter's reservation, up to a suspension. *)
Lemma gc_reserve_history charge ip v o v' :
  reservable charge (vm_store v) → gc_reserved (si_gc (vm_store v)) ≤ u_max usize_bits →
  gc_reserve charge ip v = (Ok o, v') → rtc heap_step (si_gc (vm_store v)) (si_gc (vm_store v')).
Proof.
  intros Hr Hu. unfold gc_reserve. rewrite get_run. cbv zeta. destruct (fits _ charge); [by intros [= <- <-]|].
  assert (∀ v1 : Vm, gc_budget (si_gc (vm_store v1)) = gc_budget (si_gc (vm_store v)) →
    (v2 ← get; let h := si_gc (vm_store v2) in let target := desired_reservation h charge in
     if is_free_grant h target then on_store (gc_grant target);; mret None
     else mret (Some (SoGcGrow target charge ip))) v1 = (Ok o, v') →
    rtc heap_step (si_gc (vm_store v)) (si_gc (vm_store v'))) as Hend.
  { intros v1 Hb. rewrite get_run. cbv zeta. intros Hrun. eapply rtc_l; [apply hs_local, Hb|].
    injection Hb as Hb1 _ Hb2 _. destruct (is_free_grant _ _); [|by injection Hrun as <- <-].
    injection Hrun as <- <-. apply rtc_once, hs_grant, desired_not_below; [by rewrite Hb1|rewrite Hb2; apply Hr]. }
  rewrite bind_unfold. destruct (negb _ && _) eqn:Hc; [|by apply Hend].
  apply andb_prop in Hc as [_ Hc]. rewrite bind_unfold. unfold gc_collect_now, reads, on_store, zoom.
  rewrite bind_unfold. destruct (operand_roots (vm_ex v)) as [roots|e|w]; [|done..].
  destruct (gc_collect roots (vm_store v)) as [[[]|e|w] s1] eqn:Hcol; [|done..].
  destruct (gc_collect_reservable _ _ _ _ Hr Hc Hcol) as [_ Hb]. rewrite get_run. cbn.
  destruct (fits (si_gc s1) charge); [intros [= <- <-]; by apply rtc_once, hs_local|]. by apply (Hend (set_vm_store s1 v)).
Qed.
(** The driver's growth, and the embedder's, which both check the target again. *)
Lemma grow_gc_history {L} `{ResourceLimiter L} target needed (st st' : StoreT L) :
  grow_gc_reservation target needed st = (Ok tt, st') → rtc heap_step (si_gc (st_inner st)) (si_gc (st_inner st')).
Proof.
  unfold grow_gc_reservation. rewrite (reads_Ok (λ st, Ok (gc_reserved (si_gc (st_inner st)))) _ st _ eq_refl).
  destruct (Z.leb_spec target (gc_reserved (si_gc (st_inner st)))); [by intros [= <-]|].
  rewrite bind_unfold. destruct (with_sync_limiter _ st) as [q st1] eqn:Hq. apply with_sync_data in Hq as [d ->].
  destruct q as [q|e|w]; [|done..]. destruct (default _ q); [|done]. intros [= <-].
  apply rtc_once. apply (hs_grant (si_gc (st_inner st))). lia.
Qed.
End history.

(** ** A run with two stores
    The threshold is 100 bytes.  The first store reserves a batch; while it is about
    to post, the second comes; after the post the first reads its request. *)
Definition pressed_config : Config := Config_gc_memory_threshold 100 Config_default.
Definition pressed_engine : EngineInner := {|
  ei_epoch := 0; ei_max_wasm_stack := 512 * 1024; ei_consume_fuel := false; ei_epoch_interruption := false; ei_is_async := true;
  ei_collector := CkMarkSweep; ei_gc_memory_threshold := Some 100; ei_gc_heap_reservation := 256 * 1024;
  ei_module_limits := module_limits_default; ei_gc_committed := 0; ei_gc_requests := []; ei_wasm_backtrace := true;
  ei_retain_dwarf := false; ei_types := registry_default |}.
Definition pressed_trace : list Event :=
  [EvNew 0; EvGrant 0 4096; EvAdd 0 4096; EvNew 1; EvPost 0; EvTake 0 true].
Definition pressed_heap : GcHeap := Eval vm_compute in gc_new true (256 * 1024).
Definition pressed_world : World := {|
  w_shared := {| sh_engine := set_requests [0; 1] (set_committed 4096 pressed_engine);
                 sh_flags := {[0 := false; 1 := true]}; sh_next := 2 |};
  w_stores := {[0 := {| tn_heap := (grant 4096 pressed_heap).2; tn_phase := Running |};
                1 := {| tn_heap := pressed_heap; tn_phase := Running |}]} |}.
(** One event, and the world it leads to computed. *)
Ltac next_event rule :=
  eapply steps_cons; [eapply rule; try (vm_compute; (reflexivity || congruence))|];
  lazymatch goal with |- engine_steps ?w _ _ =>
    let w' := eval vm_compute in w in replace w with w' by (vm_compute; reflexivity) end.
Lemma pressed_run : engine_steps (world_new pressed_engine) pressed_trace pressed_world.
Proof.
  next_event st_new. next_event st_grant. next_event st_add. next_event st_new. next_event st_post. next_event st_take.
  replace pressed_world with (ltac:(let w := eval vm_compute in pressed_world in exact w)) by (vm_compute; reflexivity). constructor.
Qed.

Lemma gc_pressure_delivered_witness :
  gc_committed_bytes (w_shared pressed_world) = 4096 ∧
  ∃ tr4 w1, engine_steps w1 tr4 pressed_world ∧ (∀ j, is_Some (w_stores w1 !! j) →
    EvTake j true ∈ tr4 ∨ EvDrop j ∈ tr4 ∨ sh_flags (w_shared pressed_world) !! j = Some true).
Proof.
  destruct (gc_pressure_delivered false pressed_config pressed_engine pressed_trace pressed_world eq_refl pressed_run)
    as (_ & Hc & _ & Hd).
  split; [by rewrite Hc by (vm_compute; done)|].
  destruct (Hd [EvNew 0; EvGrant 0 4096] 0 4096 [EvNew 1; EvPost 0; EvTake 0 true] eq_refl eq_refl)
    as [_ [[h Hp]|(tr3 & tr4 & w1 & _ & _ & Hs & _ & Hall)]]; [|by exists tr4, w1].
  exfalso. revert Hp. unfold tenant. vm_compute. discriminate.
Defined.
